(* ===== verification/_CoqProject ===== *)
-Q . S2P
Prelude.v
RustStr.v
Json.v
Types.v
Budget.v
Compaction.v
Limiter.v
ToolNames.v
ToolRules.v
Notices.v
TextCalls.v
TextCallNotice.v
BTree.v
Stream.v
TurnState.v
TurnSystem.v
TurnGuarantees.v
Models.v
History.v
Providers.v
Overflow.v
Questions.v
CompactText.v
Notify.v
Reply.v
TurnLoop.v
McpCalls.v
ChatPage.v
ChatPanel.v
LiveReply.v
AgentProtocol.v
AgentOutput.v
AgentFiles.v
AgentCommands.v
AgentClient.v
AgentScripts.v
AgentDispatch.v
PodRegistry.v
PodRequests.v
SandboxDb.v
PodMessages.v
SandboxErrors.v
PodLifecycle.v
PodConnect.v
Terminals.v
PanelSnapshot.v
PodCreate.v
QuietStop.v
StorageGrace.v
PodWatch.v
AgentTree.v
VolumePaths.v
AgentVolumes.v
AgentGuarantees.v
VolumeGuarantees.v
AgentTools.v
Guards.v
Previews.v
ProxyReply.v
PodPorts.v
Egress.v
