(* ===== verification/Prelude.v ===== *)
(** * smelt: a verification library

    smelt is a server that runs conversations with language models.  A conversation's turn
    (src/turn) builds a request from the stored messages, streams the model's reply, runs
    the tools it calls and goes round until the model is done; between turns a conversation
    is told of what happened outside it.  Tools run on the server, in MCP servers, or in a
    sandbox: a Kubernetes pod with an agent in it (src/bin/sandbox_agent) that smelt
    (src/sandbox) starts, connects to and stops.  What happened is kept in Postgres
    (src/db), and every open tab (src/frontend) follows it by events (src/events).

    The library models the logic of these parts: each operation is a function of the state
    it reads and writes, named as in the source, and the outside (the model's provider, the
    database's failures, the cluster, sockets, processes, the clock) is an argument, a list
    of what it will answer, or a step that may come at any time.

    ** The files, and the code each models

    Shared.  [Prelude]: machine integers, [Result] and [?], record updates by [Eta], the
    tactics.  [RustStr]: [str]'s operations.  [BTree]: [BTreeMap] as the list it iterates.
    [Json]: the values of serde_json and what is relied on of them.

    A turn.
    - [Types] (anthropic/types.rs), [Models], [McpCalls]: messages, rows, their blocks.
    - [Budget] (turn/room.rs, turn/overflow.rs, turn/compaction.rs), [Compaction]
      (turn/compaction_progress.rs), [Overflow] (turn/overflow.rs), [Providers]
      (providers.rs, providers/server): what fits a model's window, and what is learned of it.
    - [Limiter] (providers/limiter.rs): the requests of each provider at once.
    - [ToolNames] (anthropic/tools/class.rs, mcp/tools.rs), [ToolRules] (personas/rules.rs):
      the tools' classes and names, and which a persona may use.
    - [Stream] (anthropic/stream), [TextCalls], [TextCallNotice] (text_calls.rs): a reply as
      it is received, with calls written as text; [LiveReply]: as a tab sees it.
    - [History] (turn/history.rs), [Reply] (turn/reply.rs), [CompactText]
      (turn/compaction.rs, compaction_transcript.rs), [Questions] (questions.rs), [Notices]
      (api/chat.rs), [Notify] (turn/notify.rs): the request, the reply handled, the texts.
    - [TurnLoop] (turn/run.rs, call.rs): [run_turn_loop], in a monad that passes the [Loop]
      of the turn's variables and the [World] of its answers.
    - [TurnState] (turn/state.rs, outside_turn.rs): the turn's channels, locks and busy spells,
      one critical section at a time; [TurnSystem]: every interleaving of them as a step
      relation; [TurnGuarantees]: what it promises.

    The chat page.  [ChatPage] (frontend/pages/chat/state.rs, events/mod.rs) and its
    promises [ChatPanel]; [PanelSnapshot] (api/sandbox.rs): the snapshot its sandbox panel asks for.

    The agent in a sandbox (src/bin/sandbox_agent, agent_protocol.rs).
    - [AgentProtocol]: its messages; [AgentDispatch]: what each message does.
    - [AgentFiles] (files.rs), [AgentCommands] (shell.rs, commands.rs), [AgentOutput]
      (commands.rs), [AgentClient] (client.rs), [AgentScripts] (mcp.rs).

    smelt's side of the sandbox (src/sandbox, src/db/sandbox.rs, src/db/storage_grace.rs).
    - [SandboxDb]: the rows of pods, terminals and commands, and the queries on them.
    - [PodRegistry] (sandbox/agent/registry.rs), [PodRequests], [PodMessages]
      (sandbox/agent.rs): the connections, a connection's requests, an agent's messages.
    - [SandboxErrors] (sandbox/mod.rs, spec/ownership.rs, spec/images.rs): errors, ownership.
    - [PodLifecycle] (watch.rs, manager/terminate.rs, manager/teardown.rs): a pod's ends, and
      [Call], the monad of every call that passes the [Life]: the records, the registry, and
      what was published, notified and saved.  Its [faults] say which queries fail.
    - [PodWatch] (watch.rs, claims.rs): the watch of the cluster's pods and what it starts.
    - [PodConnect] (agent.rs), [Terminals] (files.rs), [PodCreate] (manager/create.rs),
      [QuietStop] (quiet_stop.rs), [StorageGrace] (storage_grace.rs, manager/storage.rs).
      [Terminals] is proved against the class [AgentLink] of what it asks of a connection;
      [pod_link] is its instance by [PodConnect].

    The agents a conversation starts (src/agents, src/db/agents).
    - [AgentTree] (db/agents/mod.rs, start.rs, messages.rs, delete.rs): their records, a
      transaction at a time, as functions of the [Tables]; [VolumePaths]
      (sandbox/spec/mounts.rs), [AgentVolumes] (db/agents/volumes.rs, agents/volumes.rs).
    - [AgentGuarantees], [VolumeGuarantees]: every sequence of them as steps, and what it keeps.
    - [AgentTools] (agents/mod.rs, queue.rs, messages.rs, start.rs, sweep.rs, delete.rs): the
      tools, stops, starts, sweep and deletes made of them, in a monad that passes the
      [Office]; before each query others commit, and each may fail.

    The browser's ways in (src/preview.rs, egress_proxy.rs, fetch_guard.rs, request_guard.rs).
    - [Guards] (fetch_guard.rs, request_guard.rs, docker_net.rs): the hosts that mean a sandbox,
      and which requests smelt and a sandbox's servers take.
    - [Previews] (preview.rs): each port's address, and the proxy that serves it.
    - [PodPorts] (sandbox/ports.rs, sandbox_agent/relay.rs): a connection into a pod.
    - [Egress] (egress_proxy.rs) and [ProxyReply] (egress_proxy/reply.rs): the proxy of a
      conversation's browser, and the reply heads it passes on, byte by byte.

    ** What the theorems show

    Turns: a turn ends ([turns_end]); each request is well formed, whole, and answers every
    call ([request_is_well_typed], [requests_are_whole], [every_call_is_answered],
    [rounds_answer_their_calls]); turns of a conversation run one at a time and in order, and
    a stop ends what came before it ([turns_run_in_order], [stop_ends_what_came_before],
    [busy_spells], [spell_tells_what_it_owes]); a compaction replaces the history by its
    summary ([compaction_replaces_history]).

    Tabs: a tab that opens mid-reply catches up with its text ([late_tabs_catch_up]); a saved
    message shows once ([messages_are_shown_once]); and a command's lines in order and once,
    all but old ones and some of those written while the snapshot was read
    ([replayed_output_shows_once], [a_line_between_the_reads_is_lost]).

    Agent: each command ends once, with the code of its shell, after its output; however
    connections come and go, an event of a shell reaches smelt once or is still held, unless
    a second failed send or a socket smelt had abandoned took it; a file is written only
    over what was read ([each_command_ends_once], [a_command_ends_with_its_code],
    [events_are_kept], [commands_reach_their_shell], [writes_only_over_what_was_read],
    [script_calls_are_answered_once]).

    Pods: what a shell did is what the records say and the tabs are sent
    ([what_a_terminal_does_is_recorded]);
    requests end once and torn down pods stay disconnected ([requests_end_once],
    [torn_down_pods_stay_disconnected]); a pod's end leaves nothing of it open, and a terminate
    or a user's stop that fails changes nothing ([an_ended_pod_leaves_nothing_open],
    [a_failed_end_changes_nothing]); connecting spares live pods and stops unreachable ones;
    commands start one at a time in live terminals; a failed start leaves no pod; only unused
    pods are stopped, and only expired storage is removed, and told of once
    ([quiet_stops_take_only_unused_pods], [only_expired_storage_is_removed],
    [one_notice_per_stop]); the watch reports each restart of Docker once
    ([docker_restarts_are_reported_once]).

    Agents: the tree of conversations stays whole and within its depth, an agent's state moves
    only as it may, a finish leaves nothing going on, a stop reaches everything below, and
    what is written is delivered once ([the_tree_stays_whole], [agents_move_as_they_may],
    [finishing_leaves_nothing_behind], [a_stop_reaches_everything_below],
    [letters_are_delivered_once]); the volumes a conversation mounts never clash nor hide
    what the pod needs, and stay while they are worked with ([mounts_never_clash],
    [model_volumes_mount_in_free_places], [volumes_in_use_stay]).  The operations change
    the records by these transactions alone ([office_runs]), wake whom they write to, and a
    restart leaves no start behind ([whoever_is_written_to_is_woken],
    [a_restart_leaves_no_start]).

    Browsers: a preview's address leads back to its sandbox and nowhere else, also over a
    connection used before ([preview_addresses_lead_back], [previews_stay_in_their_sandbox],
    [shared_previews_are_listed]); another site's page only loads pages of a sandbox and
    changes nothing in smelt, whose own pages get through ([other_sites_only_load_pages],
    [other_sites_change_nothing]); what the proxy sends a sandbox is what it checked
    ([checked_is_what_is_sent], [only_checked_requests_reach_the_sandbox]) and no port leads
    into the agent ([no_route_into_the_agent]); a reply, however it is cut, reaches the
    browser whole and never keeps its connection ([replies_are_cut_alike],
    [final_heads_say_close]).

    Where the code falls short of its comments, the theorem states what holds and the run
    that shows the rest: [a_failed_start_leaves_no_pod], [one_notice_per_stop],
    [lowering_is_not_atomic], [events_are_kept], [a_stop_during_a_failed_delete_is_undone],
    [replayed_output_shows_once], [writes_only_over_what_was_read].

    ** Bounds and fuel

    [run_turn_loop] goes round as the code does, by the passes it allows; the loops inside
    are structural on the lists they go through.  [take_answer_loop] and [room_loop] make the
    two passes the code makes.  [glob_fuel] and [answer_fuel] bound their recursions by the
    sizes of their inputs, [matches_from] by the length searched and one, [look] and
    [read_reply] by that of the bytes and one, [fill_loop] by [MAX_OUTPUT_CHUNK] and one (each
    round takes a byte or ends), [cut_pieces] by the length cut, [descend] by the number of
    conversations: none is met.  [RECONNECT_ATTEMPTS] and [MAX_ANCESTRY] are the code's own
    limits.
    Machine integers are [Z], wrapped or saturated where the code's arithmetic can.

    ** What is not modelled

    Parsing and printing of JSON, regular expressions, globs, hashes and lossy UTF-8 are
    parameters with what is relied on of them.  Tests and the hooks only tests use are left
    out, as is what only logs or traces.  Of the turn: the lock retaken for the note of a
    stopped turn, a stop's resubscription, the [try_lock] form of [between_turns], the
    request slots and the Claude Code CLI in the loop, the failure note of [run_turn_body].
    Of the agent's files: other processes' writes between its own.  Of the sandbox: the
    cluster's specs, claims and port forwards, the adoption and sweeps of orphans, scripts'
    rate limits (they are floating point).  Of the database: the queries of the parts below,
    and what a deleted conversation takes along.  The rest of the server (git,
    the MCP transport and its OAuth, browsing, the language servers, the CLI, telemetry,
    the rendering of pages) is I/O around libraries, or its own projects to verify. *)

From stdpp Require Export base tactics list gmap strings pretty.
From Stdlib Require Export ZArith Lia Ascii.

#[export] Set Default Goal Selector "!".

(** ** Machine integers

    A Rust [u32]/[u64]/[i64]/[usize] value is a [Z]; an operation that can leave
    the width says what happens there ([wrapping], [saturating], checked).  [usize]
    is 64 bits wide. *)

Definition U32_MAX : Z := 4294967295.
Definition U64_MAX : Z := 18446744073709551615.
Definition I64_MAX : Z := 9223372036854775807.
Definition I64_MIN : Z := -9223372036854775808.

(** [a + b] on [u64]/[usize], compiled without overflow checks (no profile of
    [Cargo.toml] turns them on for the release build). *)
Definition u64_add (a b : Z) : Z := (a + b) `mod` 18446744073709551616.
Definition u32_add (a b : Z) : Z := (a + b) `mod` 4294967296.
Definition i64_wrap (a : Z) : Z :=
  (a + 9223372036854775808) `mod` 18446744073709551616 - 9223372036854775808.
Definition i64_add (a b : Z) : Z := i64_wrap (a + b).

(** [saturating_sub]/[saturating_add]/[saturating_mul] on unsigned widths, and
    [saturating_add] on [i64]. *)
Definition sat_sub (a b : Z) : Z := Z.max 0 (a - b).
Definition u64_sat_add (a b : Z) : Z := Z.min U64_MAX (a + b).
Definition u64_sat_mul (a b : Z) : Z := Z.min U64_MAX (a * b).
Definition i64_sat_add (a b : Z) : Z := Z.max I64_MIN (Z.min I64_MAX (a + b)).

(** [u32::try_from]/[i64::try_from]. *)
Definition u32_try_from (a : Z) : option Z :=
  if bool_decide (0 ≤ a ≤ U32_MAX)%Z then Some a else None.
Definition i64_try_from (a : Z) : option Z :=
  if bool_decide (I64_MIN ≤ a ≤ I64_MAX)%Z then Some a else None.

Definition is_u32 (a : Z) : Prop := (0 ≤ a ≤ U32_MAX)%Z.
Definition is_u64 (a : Z) : Prop := (0 ≤ a ≤ U64_MAX)%Z.
Definition is_i64 (a : Z) : Prop := (I64_MIN ≤ a ≤ I64_MAX)%Z.

(** ** Record update

    [r <| field := v |>] is [r] with one field replaced: Rust's assignment to a field
    of a [&mut self].  A record opts in with one [Eta] instance; the setter of each
    field is derived from it. *)

Class Eta (R : Type) := eta : R → R.
Class SetField {R T : Type} (proj : R → T) := set_field : (T → T) → R → R.
Arguments set_field {_ _} proj {_} _ _ : assert.

Ltac derive_set_field :=
  lazymatch goal with
  | |- @SetField ?R ?T ?proj =>
      let f := fresh "f" in
      let r := fresh "r" in
      intros f r;
      let inst := constr:(_ : Eta R) in
      let whole := eval hnf in (inst r) in
      let abstracted := eval pattern (proj r) in whole in
      lazymatch abstracted with
      | ?rebuild (proj r) =>
          let done := eval cbv beta in (rebuild (f (proj r))) in
          exact done
      end
  end.
#[export] Hint Extern 0 (SetField _) => derive_set_field : typeclass_instances.

Declare Scope smelt_scope.
Delimit Scope smelt_scope with smelt.
#[local] Set Warnings "-postfix-notation-not-level-1".
Notation "r <| p := v |>" := (set_field p (λ _, v) r)
  (at level 12, left associativity, p at level 9, v at level 200,
   format "r  <| p  :=  v |>") : smelt_scope.
Notation "r <| p ::= f |>" := (set_field p f r)
  (at level 12, left associativity, p at level 9, f at level 200,
   format "r  <| p  ::=  f |>") : smelt_scope.
Open Scope smelt_scope.

(** ** [Result] *)

Inductive Result (T E : Type) := Ok (x : T) | Err (e : E).
Arguments Ok {T E}. Arguments Err {T E}.
(** The [?] operator. *)
Definition and_then {T U E} (r : Result T E) (f : T → Result U E) : Result U E :=
  match r with Ok x => f x | Err e => Err e end.
Notation "'let?' x := r 'in' k" := (and_then r (λ x, k))
  (at level 200, x name, r at level 100, k at level 200, right associativity) : smelt_scope.
Definition is_ok {T E} (r : Result T E) : bool := match r with Ok _ => true | Err _ => false end.
Definition map_err {T E F} (f : E → F) (r : Result T E) : Result T F :=
  match r with Ok x => Ok x | Err e => Err (f e) end.
(** [iter.map(f).collect::<Result<Vec<_>, _>>()]: the first error, in order. *)
Fixpoint collect_results {A T E} (f : A → Result T E) (l : list A) : Result (list T) E :=
  match l with
  | [] => Ok []
  | a :: l => let? x := f a in let? xs := collect_results f l in Ok (x :: xs)
  end.

Lemma collect_results_Ok {A T E} (f : A → Result T E) l xs :
  collect_results f l = Ok xs ↔ Forall2 (λ a x, f a = Ok x) l xs.
Proof.
  revert xs. induction l as [|a l IH]; intros xs; cbn.
  - split; [by intros [= <-]|]. by inversion 1.
  - destruct (f a) as [x|e] eqn:Ha; cbn; [|split; [done|inversion 1; congruence]].
    destruct (collect_results f l) as [xs'|e]; cbn.
    + split; [intros [= <-]; constructor; [done|by apply IH]|].
      inversion 1 as [|? y ? ys Hy Hys]; subst. apply IH in Hys. congruence.
    + split; [done|]. inversion 1 as [|? y ? ys Hy Hys]; subst. apply IH in Hys. congruence.
Qed.

Lemma collect_results_Err {A T E} (f : A → Result T E) l e :
  collect_results f l = Err e → ∃ a, a ∈ l ∧ f a = Err e.
Proof.
  induction l as [|a l IH]; cbn; [done|].
  destruct (f a) as [x|e'] eqn:Ha; cbn.
  - destruct (collect_results f l) as [xs'|e']; cbn; [done|]. intros [= <-].
    destruct IH as (b & Hb & ?); [done|]. exists b. split; [by right|done].
  - intros [= <-]. exists a. split; [by left|done].
Qed.

Lemma is_ok_true {T E} (r : Result T E) : is_ok r = true ↔ ∃ x, r = Ok x.
Proof. destruct r; cbn; split; naive_solver. Qed.

(** ** Stable sorting

    [slice::sort_by]/[sort_by_key]: any stable sort has the one result; this one inserts. *)

Fixpoint insert_by {A} (le : A → A → bool) (x : A) (l : list A) : list A :=
  match l with
  | [] => [x]
  | y :: l' => if le x y then x :: l else y :: insert_by le x l'
  end.
Definition sort_by {A} (le : A → A → bool) (l : list A) : list A := foldr (insert_by le) [] l.

Lemma insert_by_perm {A} (le : A → A → bool) x l : insert_by le x l ≡ₚ x :: l.
Proof.
  induction l as [|y l IH]; [done|]. cbn. destruct (le x y); [done|]. rewrite IH. apply Permutation_swap.
Qed.
Lemma sort_by_perm {A} (le : A → A → bool) l : sort_by le l ≡ₚ l.
Proof. induction l as [|x l IH]; [done|]. cbn. by rewrite insert_by_perm, IH. Qed.

(** Each element is in order with the ones after it. *)
Fixpoint sorted_by {A} (le : A → A → bool) (l : list A) : Prop :=
  match l with
  | [] => True
  | x :: l => (∀ y, y ∈ l → le x y = true) ∧ sorted_by le l
  end.
Lemma sort_by_sorted {A} (le : A → A → bool) l :
  (∀ x y, le x y = false → le y x = true) →
  (∀ x y z, le x y = true → le y z = true → le x z = true) →
  sorted_by le (sort_by le l).
Proof.
  intros Htotal Htrans. induction l as [|x l IH]; [done|]. cbn. fold (sort_by le l).
  revert IH. generalize (sort_by le l) as k. clear l. intros k.
  induction k as [|y k IH]; cbn; [intros _; split; [by intros y ?%not_elem_of_nil|done]|].
  intros [Hy Hk]. destruct (le x y) eqn:E; cbn.
  - split; [|done]. intros z [->|Hz]%elem_of_cons; [done|]. eauto.
  - split; [|by apply IH]. intros z Hz. rewrite insert_by_perm in Hz. apply elem_of_cons in Hz as [->|Hz]; auto.
Qed.
Lemma sorted_by_take {A} (le : A → A → bool) n l : sorted_by le l → sorted_by le (take n l).
Proof.
  revert n. induction l as [|x l IH]; intros [|n]; cbn; try done.
  intros [Hx Hl]. split; [|by apply IH]. intros y Hy. apply Hx. eapply subseteq_take. exact Hy.
Qed.

Lemma sorted_by_take_drop {A} (le : A → A → bool) n l x y :
  sorted_by le l → x ∈ take n l → y ∈ drop n l → le x y = true.
Proof.
  revert n. induction l as [|z l IH]; intros [|n]; cbn; try by intros _ ?%not_elem_of_nil.
  intros [Hz Hl] [->|Hx]%elem_of_cons Hy; [|by eapply IH].
  apply Hz. eapply subseteq_drop. exact Hy.
Qed.

(** ** Filtering *)

Lemma elem_list_filter {A} (f : A → bool) (l : list A) x : x ∈ List.filter f l ↔ x ∈ l ∧ f x = true.
Proof. by rewrite list_elem_of_In, filter_In, <- list_elem_of_In. Qed.
Lemma filter_partition_perm {A} (f : A → bool) (l : list A) :
  app (List.filter f l) (List.filter (λ x, negb (f x)) l) ≡ₚ l.
Proof.
  induction l as [|x l IH]; [done|]. cbn. destruct (f x); cbn; [by rewrite IH|].
  by rewrite <- Permutation_middle, IH.
Qed.
Lemma list_filter_all {A} (f : A → bool) (l : list A) : Forall (λ x, f x = true) l → List.filter f l = l.
Proof. induction 1 as [|x l Hx _ IH]; [done|]. cbn. by rewrite Hx, IH. Qed.
Lemma list_filter_none {A} (f : A → bool) (l : list A) : Forall (λ x, f x = false) l → List.filter f l = [].
Proof. induction 1 as [|x l Hx _ IH]; [done|]. cbn. by rewrite Hx. Qed.
Lemma list_filter_sublist {A} (f : A → bool) (l : list A) : List.filter f l `sublist_of` l.
Proof. induction l as [|x l IH]; [done|]. cbn. destruct (f x); by constructor. Qed.

#[export] Instance list_filter_perm {A} (f : A → bool) : Proper ((≡ₚ) ==> (≡ₚ)) (List.filter f).
Proof.
  intros l k. induction 1 as [|x l k _ IH|x y l|l k m _ IH1 _ IH2]; cbn; [done|by destruct (f x); rewrite IH| |by etransitivity].
  destruct (f x), (f y); try done. apply Permutation_swap.
Qed.

(** ** Automation *)

Create HintDb smelt discriminated.
Create Rewrite HintDb smelt.

(** Unfolds the width helpers and closes the arithmetic goal that is left. *)
Ltac unfold_widths :=
  unfold u64_add, u32_add, i64_add, i64_wrap, sat_sub, u64_sat_add, u64_sat_mul,
    i64_sat_add, is_u32, is_u64, is_i64, U32_MAX, U64_MAX, I64_MAX, I64_MIN in *.
Ltac zlia := unfold_widths; Z.to_euclidean_division_equations; lia.

(** Splits every [if]/[match] of the goal and the context, turning the boolean tests
    into the propositions they decide. *)
Ltac bool_to_prop :=
  repeat match goal with
  | H : bool_decide _ = true |- _ => apply bool_decide_eq_true_1 in H
  | H : bool_decide _ = false |- _ => apply bool_decide_eq_false_1 in H
  | H : (_ && _) = true |- _ => apply andb_true_iff in H as [? ?]
  | H : (_ && _) = false |- _ => apply andb_false_iff in H
  | H : (_ || _) = true |- _ => apply orb_true_iff in H
  | H : (_ || _) = false |- _ => apply orb_false_iff in H as [? ?]
  | H : negb _ = true |- _ => apply negb_true_iff in H
  | H : negb _ = false |- _ => apply negb_false_iff in H
  | H : (_ <? _)%Z = true |- _ => apply Z.ltb_lt in H
  | H : (_ <? _)%Z = false |- _ => apply Z.ltb_ge in H
  | H : (_ <=? _)%Z = true |- _ => apply Z.leb_le in H
  | H : (_ <=? _)%Z = false |- _ => apply Z.leb_gt in H
  | H : (_ =? _)%Z = true |- _ => apply Z.eqb_eq in H
  | H : (_ =? _)%Z = false |- _ => apply Z.eqb_neq in H
  end.
(** Splits the conjunctions of the goal itself, not those under a binder. *)
Ltac conjs := repeat match goal with |- _ ∧ _ => split end.
Ltac split_cases := repeat (case_match; simplify_eq/=; bool_to_prop; try done).

(** ** The value of a computed option

    Witnesses run the model to a state, [default d o], and show by computing that the run
    gets there. *)

Definition is_some {A} (o : option A) : bool := match o with Some _ => true | None => false end.
Lemma default_spec {A} (d : A) (o : option A) : is_some o = true → o = Some (default d o).
Proof. by destruct o. Qed.

(** ** Integer lemmas *)

(** ** Maps *)

Lemma lookup_alter_some `{Countable K} {A} (f : A → A) i j (m : gmap K A) : is_some (alter f i m !! j) = is_some (m !! j).
Proof. destruct (decide (i = j)) as [<-|Hj]; [rewrite lookup_alter_eq|by rewrite lookup_alter_ne]. by destruct (m !! i). Qed.
Lemma lookup_delete_some `{Countable K} {A} i j (m : gmap K A) : is_some (delete i m !! j) = true → is_some (m !! j) = true.
Proof. destruct (decide (i = j)) as [<-|Hj]; [by rewrite lookup_delete_eq|by rewrite lookup_delete_ne]. Qed.

Lemma u64_add_small a b : is_u64 a → is_u64 b → (a + b ≤ U64_MAX)%Z → u64_add a b = (a + b)%Z.
Proof. intros. unfold u64_add. apply Z.mod_small. zlia. Qed.

Lemma u32_add_range a b : (0 ≤ u32_add a b ≤ U32_MAX)%Z.
Proof. unfold u32_add, U32_MAX. pose proof (Z.mod_pos_bound (a + b) 4294967296). lia. Qed.

Lemma u64_add_range a b : (0 ≤ u64_add a b ≤ U64_MAX)%Z.
Proof. unfold u64_add, U64_MAX. pose proof (Z.mod_pos_bound (a + b) 18446744073709551616). lia. Qed.

Lemma u32_try_from_Some a b : u32_try_from a = Some b ↔ b = a ∧ is_u32 a.
Proof.
  unfold u32_try_from, is_u32. case_bool_decide; naive_solver.
Qed.

(** [u32::try_from(a).unwrap_or(u32::MAX)] of a value that isn't negative. *)
Lemma u32_try_from_or_max a :
  (0 ≤ a)%Z → default U32_MAX (u32_try_from a) = Z.min a U32_MAX.
Proof.
  intros. unfold u32_try_from. case_bool_decide; simpl; zlia.
Qed.

#[export] Hint Rewrite u32_try_from_or_max using (zlia) : smelt.
