(* ===== verification/RustStr.v ===== *)
(** * RustStr: the operations of [str] the code uses

    A [String]/[&str] is a [string] of its UTF-8 bytes, so [str::len] is the length in
    bytes and a slice index is a byte offset.  Only the operations the modelled code calls
    are here, on the valid UTF-8 every [str] holds: a character is a byte that isn't a
    continuation byte with the continuation bytes after it. *)

From S2P Require Import Prelude.
Local Open Scope string_scope.

(** ** Bytes and characters *)

Definition byte_in (lo hi : nat) (a : ascii) : bool :=
  (lo <=? nat_of_ascii a)%nat && (nat_of_ascii a <=? hi)%nat.

Definition is_continuation : ascii → bool := byte_in 128 191.

(** [String::from_utf8]: RFC 3629's sequences. *)
Fixpoint valid_utf8 (s : string) : bool :=
  match s with
  | EmptyString => true
  | String a s1 =>
      if byte_in 0 127 a then valid_utf8 s1
      else match s1 with
           | EmptyString => false
           | String b s2 =>
               if byte_in 194 223 a then is_continuation b && valid_utf8 s2
               else match s2 with
                    | EmptyString => false
                    | String c s3 =>
                        let second :=
                          if byte_in 224 224 a then byte_in 160 191 b
                          else if byte_in 237 237 a then byte_in 128 159 b
                          else byte_in 225 239 a && is_continuation b in
                        if second && is_continuation c then valid_utf8 s3
                        else match s3 with
                             | EmptyString => false
                             | String d s4 =>
                                 let second :=
                                   if byte_in 240 240 a then byte_in 144 191 b
                                   else if byte_in 244 244 a then byte_in 128 143 b
                                   else byte_in 241 243 a && is_continuation b in
                                 second && is_continuation c && is_continuation d && valid_utf8 s4
                             end
                    end
           end
  end.

(** [s.len()]. *)
Definition str_len (s : string) : Z := Z.of_nat (String.length s).

(** [s.chars().count()]. *)
Fixpoint chars_count (s : string) : nat :=
  match s with
  | EmptyString => 0
  | String a s' => if is_continuation a then chars_count s' else S (chars_count s')
  end.

(** [s.chars().take(n).collect::<String>()]. *)
Fixpoint take_chars (n : nat) (s : string) : string :=
  match s with
  | EmptyString => EmptyString
  | String a s' =>
      if is_continuation a then String a (take_chars n s')
      else match n with
           | O => EmptyString
           | S n' => String a (take_chars n' s')
           end
  end.

(** ** White space ([char::is_whitespace]: Unicode [White_Space]), by its UTF-8 bytes *)

Definition ws1 (a : ascii) : bool := byte_in 9 13 a || byte_in 32 32 a.
Definition ws2 (a b : ascii) : bool :=
  byte_in 194 194 a && (byte_in 133 133 b || byte_in 160 160 b).
Definition ws3 (a b c : ascii) : bool :=
  (byte_in 225 225 a && byte_in 154 154 b && byte_in 128 128 c)
  || (byte_in 226 226 a && byte_in 128 128 b
      && (byte_in 128 138 c || byte_in 168 169 c || byte_in 175 175 c))
  || (byte_in 226 226 a && byte_in 129 129 b && byte_in 159 159 c)
  || (byte_in 227 227 a && byte_in 128 128 b && byte_in 128 128 c).

Fixpoint trim_start (s : string) : string :=
  match s with
  | EmptyString => s
  | String a s1 =>
      if ws1 a then trim_start s1
      else match s1 with
           | EmptyString => s
           | String b s2 =>
               if ws2 a b then trim_start s2
               else match s2 with
                    | EmptyString => s
                    | String c s3 => if ws3 a b c then trim_start s3 else s
                    end
           end
  end.

(** [trim_start] of the bytes read backwards, for [trim_end]. *)
Fixpoint trim_rev (s : list ascii) : list ascii :=
  match s with
  | [] => []
  | a :: s1 =>
      if ws1 a then trim_rev s1
      else match s1 with
           | [] => s
           | b :: s2 =>
               if ws2 b a then trim_rev s2
               else match s2 with
                    | [] => s
                    | c :: s3 => if ws3 c b a then trim_rev s3 else s
                    end
           end
  end.
Definition trim_end (s : string) : string :=
  String.string_of_list_ascii (reverse (trim_rev (reverse (String.list_ascii_of_string s)))).
Definition trim (s : string) : string := trim_end (trim_start s).

(** [s.trim().is_empty()]. *)
Definition is_blank (s : string) : bool := bool_decide (trim s = "").

(** ** Searching and splitting *)

(** [s.starts_with(p)]. *)
Definition starts_with (p s : string) : bool := String.prefix p s.

(** [s.strip_prefix(p)]. *)
Fixpoint strip_prefix (p s : string) : option string :=
  match p, s with
  | EmptyString, _ => Some s
  | String a p', String b s' => if Ascii.eqb a b then strip_prefix p' s' else None
  | String _ _, EmptyString => None
  end.

(** [s.split_once(p)] for a non-empty pattern: the text before and after the first
    occurrence. *)
Fixpoint split_once (p s : string) : option (string * string) :=
  match strip_prefix p s with
  | Some rest => Some ("", rest)
  | None =>
      match s with
      | EmptyString => None
      | String a s' =>
          match split_once p s' with
          | Some (before, after) => Some (String a before, after)
          | None => None
          end
      end
  end.

(** [s.contains(p)]. *)
Definition contains (p s : string) : bool :=
  match split_once p s with Some _ => true | None => false end.

Definition reverse_str (s : string) : string :=
  String.string_of_list_ascii (reverse (String.list_ascii_of_string s)).

(** [s.strip_suffix(p)], [s.ends_with(p)] and [s.rsplit_once(p)]. *)
Definition strip_suffix (p s : string) : option string :=
  reverse_str <$> strip_prefix (reverse_str p) (reverse_str s).
Definition ends_with (p s : string) : bool :=
  match strip_suffix p s with Some _ => true | None => false end.
Definition rsplit_once (p s : string) : option (string * string) :=
  match split_once (reverse_str p) (reverse_str s) with
  | Some (after, before) => Some (reverse_str before, reverse_str after)
  | None => None
  end.

(** [&s[..n]] and [&s[n..]], and whether byte offset [n] is a character's start or the end
    ([s.get(n..).is_some()]). *)
Fixpoint str_take (n : nat) (s : string) : string :=
  match n, s with
  | O, _ => ""
  | S n, String a s => String a (str_take n s)
  | S _, EmptyString => ""
  end.
Fixpoint str_drop (n : nat) (s : string) : string :=
  match n, s with
  | O, _ => s
  | S n, String _ s => str_drop n s
  | S _, EmptyString => ""
  end.
Definition starts_char (s : string) : bool :=
  match s with EmptyString => true | String a _ => negb (is_continuation a) end.
Definition is_char_boundary (s : string) (n : nat) : bool :=
  (n =? 0)%nat || ((n <=? String.length s)%nat && starts_char (str_drop n s)).

(** [s.chars().all(f)] for a test of ASCII characters: no byte of another character
    passes one. *)
Fixpoint all_bytes (f : ascii → bool) (s : string) : bool :=
  match s with
  | EmptyString => true
  | String a s' => f a && all_bytes f s'
  end.

(** ** ASCII classes and case *)

Definition is_ascii_digit : ascii → bool := byte_in 48 57.
Definition is_ascii_uppercase : ascii → bool := byte_in 65 90.
Definition is_ascii_lowercase : ascii → bool := byte_in 97 122.
Definition is_ascii_alphanumeric (a : ascii) : bool :=
  is_ascii_digit a || is_ascii_uppercase a || is_ascii_lowercase a.

Definition ascii_lower (a : ascii) : ascii :=
  if is_ascii_uppercase a then ascii_of_nat (nat_of_ascii a + 32) else a.
Definition ascii_upper (a : ascii) : ascii :=
  if is_ascii_lowercase a then ascii_of_nat (nat_of_ascii a - 32) else a.
Fixpoint map_bytes (f : ascii → ascii) (s : string) : string :=
  match s with
  | EmptyString => EmptyString
  | String a s' => String (f a) (map_bytes f s')
  end.
Definition to_ascii_lowercase : string → string := map_bytes ascii_lower.
Definition to_ascii_uppercase : string → string := map_bytes ascii_upper.
Definition eq_ignore_ascii_case (s t : string) : bool :=
  bool_decide (to_ascii_lowercase s = to_ascii_lowercase t).

(** ** Joining and printing *)

(** [parts.join(sep)]. *)
Fixpoint join (sep : string) (parts : list string) : string :=
  match parts with
  | [] => ""
  | [s] => s
  | s :: rest => s +:+ sep +:+ join sep rest
  end.

(** [n.to_string()] of an unsigned integer. *)
Definition show_unsigned (n : Z) : string := pretty (Z.to_N n).

(** [s.parse()] of an unsigned integer of at most [max]: an optional [+], then digits, none of
    whose prefixes overflows. *)
Fixpoint parse_digits (max acc : Z) (s : string) : option Z :=
  match s with
  | EmptyString => Some acc
  | String a s' =>
      let acc' := (acc * 10 + (Z.of_nat (nat_of_ascii a) - 48))%Z in
      if is_ascii_digit a && (acc' <=? max)%Z then parse_digits max acc' s' else None
  end.
Definition parse_unsigned (max : Z) (s : string) : option Z :=
  let digits := match strip_prefix "+" s with Some rest => rest | None => s end in
  if bool_decide (digits = "") then None else parse_digits max 0 digits.

(** One double quote mark, and one line feed. *)
Definition dquote : string := String (ascii_of_nat 34) EmptyString.
Definition newline : ascii := ascii_of_nat 10.

(** ** Scanning *)

(** The longest start of [s] whose bytes pass [f], and the rest: [s.find(|c| !f(c))] split
    there, and [s.trim_start_matches(f)], for a test only ASCII characters pass. *)
Fixpoint take_while (f : ascii → bool) (s : string) : string :=
  match s with
  | EmptyString => ""
  | String a s' => if f a then String a (take_while f s') else ""
  end.
Fixpoint drop_while (f : ascii → bool) (s : string) : string :=
  match s with
  | EmptyString => ""
  | String a s' => if f a then drop_while f s' else s
  end.

(** [s.find(p)] of a non-empty pattern. *)
Definition str_find (p s : string) : option nat := (λ '(before, _), String.length before) <$> split_once p s.

(** [s.match_indices(p)]'s offsets, of a non-empty pattern. *)
Fixpoint match_indices_from (p : string) (at_ skip : nat) (s : string) : list nat :=
  match s with
  | EmptyString => []
  | String _ s' =>
      match skip with
      | S skip => match_indices_from p (S at_) skip s'
      | O =>
          if starts_with p s then at_ :: match_indices_from p (S at_) (String.length p - 1) s'
          else match_indices_from p (S at_) 0 s'
      end
  end.
Definition match_indices (p s : string) : list nat := match_indices_from p 0 0 s.

(** [s.split_inclusive('\n')] and [s.lines()]. *)
Fixpoint split_inclusive (s : string) : list string :=
  match s with
  | EmptyString => []
  | String a s' =>
      if Ascii.eqb a newline then String a "" :: split_inclusive s'
      else match split_inclusive s' with
           | [] => [String a ""]
           | line :: lines => String a line :: lines
           end
  end.
Definition line_text (line : string) : string :=
  match strip_suffix (String newline "") line with
  | None => line
  | Some line => default line (strip_suffix (String (ascii_of_nat 13) "") line)
  end.
Definition str_lines (s : string) : list string := map line_text (split_inclusive s).

(** [s.split(f)] for a test of ASCII characters, and [s.split(p)] of a non-empty pattern. *)
Fixpoint split_on (f : ascii → bool) (s : string) : list string :=
  match s with
  | EmptyString => [""]
  | String a s' =>
      if f a then "" :: split_on f s'
      else match split_on f s' with
           | [] => [String a ""]
           | part :: parts => String a part :: parts
           end
  end.
Fixpoint split_str_fuel (fuel : nat) (p s : string) : list string :=
  match fuel, split_once p s with
  | S fuel, Some (before, after) => before :: split_str_fuel fuel p after
  | _, _ => [s]
  end.
Definition split_str (p s : string) : list string := split_str_fuel (String.length s) p s.

(** [s.chars()], each character as its bytes. *)
Fixpoint str_chars (s : string) : list string :=
  match s with
  | EmptyString => []
  | String a s' =>
      match str_chars s' with
      | c :: cs => if starts_char s' then String a "" :: c :: cs else String a c :: cs
      | [] => [String a ""]
      end
  end.

(** The order of [str]s: their bytes', lexicographic. *)
Definition str_le (s t : string) : bool := match String.compare s t with Gt => false | _ => true end.

(** ** Lemmas *)

(** stdpp makes [+:+] opaque to [simpl]: these are its equations. *)
Lemma str_app_nil_l (s : string) : "" +:+ s = s.
Proof. done. Qed.

Lemma str_app_cons a (s t : string) : String a s +:+ t = String a (s +:+ t).
Proof. done. Qed.

Lemma strip_prefix_Some p s r : strip_prefix p s = Some r ↔ s = p +:+ r.
Proof.
  revert s. induction p as [|a p IH]; intros s; simpl.
  - rewrite str_app_nil_l. naive_solver.
  - rewrite str_app_cons. destruct s as [|b s]; [done|].
    destruct (Ascii.eqb_spec a b) as [->|Hne]; [rewrite IH|]; split; congruence.
Qed.

Lemma strip_prefix_app p r : strip_prefix p (p +:+ r) = Some r.
Proof. by apply strip_prefix_Some. Qed.

Lemma split_once_Some p s before after :
  split_once p s = Some (before, after) → s = before +:+ p +:+ after.
Proof.
  revert before. induction s as [|a s IH]; intros before; simpl.
  - destruct p; simpl; intros; by simplify_eq.
  - destruct (strip_prefix p (String a s)) eqn:E.
    + apply strip_prefix_Some in E. intros [= <- <-]. exact E.
    + destruct (split_once p s) as [[b r]|]; [|done]. intros [= <- <-].
      rewrite str_app_cons. by rewrite (IH b).
Qed.

Lemma str_app_nil_r (s : string) : s +:+ "" = s.
Proof. induction s as [|a s IH]; [done|]. rewrite !str_app_cons. cbn. by rewrite IH. Qed.

Lemma str_app_assoc (s t u : string) : (s +:+ t) +:+ u = s +:+ (t +:+ u).
Proof. induction s as [|a s IH]; [done|]. rewrite !str_app_cons. cbn. by rewrite IH. Qed.

Lemma str_length_app (s t : string) :
  String.length (s +:+ t) = (String.length s + String.length t)%nat.
Proof. induction s as [|a s IH]; [done|]. rewrite !str_app_cons. cbn. by rewrite IH. Qed.

Lemma str_len_app (s t : string) : str_len (s +:+ t) = (str_len s + str_len t)%Z.
Proof. unfold str_len. rewrite str_length_app. lia. Qed.

Lemma str_len_nonneg s : (0 ≤ str_len s)%Z.
Proof. unfold str_len. lia. Qed.

Lemma chars_count_app s t : chars_count (s +:+ t) = (chars_count s + chars_count t)%nat.
Proof. induction s as [|a s IH]; [done|]. rewrite str_app_cons. cbn. rewrite IH. by case_match. Qed.

Lemma take_chars_count n s : (chars_count (take_chars n s) ≤ n)%nat.
Proof.
  revert n. induction s as [|a s IH]; intros n; cbn; [lia|].
  destruct (is_continuation a) eqn:E; cbn; [rewrite E; apply IH|].
  destruct n as [|n]; cbn; [lia|]. rewrite E. specialize (IH n). lia.
Qed.

Lemma take_chars_all n s : (chars_count s ≤ n)%nat → take_chars n s = s.
Proof.
  revert n. induction s as [|a s IH]; intros n; cbn; [done|].
  destruct (is_continuation a); intros.
  - by rewrite IH.
  - destruct n as [|n]; [lia|]. rewrite IH; [done|lia].
Qed.

Lemma is_blank_empty : is_blank "" = true.
Proof. done. Qed.

Lemma map_bytes_idemp f s : (∀ a, f (f a) = f a) → map_bytes f (map_bytes f s) = map_bytes f s.
Proof. intros Hf. induction s as [|a s IH]; [done|]. cbn. by rewrite Hf, IH. Qed.

#[export] Hint Resolve str_len_nonneg : smelt.

Lemma str_take_drop n s : str_take n s +:+ str_drop n s = s.
Proof.
  revert s. induction n as [|n IH]; intros [|a s]; try done. cbn. rewrite str_app_cons. by rewrite IH.
Qed.
Lemma str_take_app s t : str_take (String.length s) (s +:+ t) = s.
Proof. induction s as [|a s IH]; [done|]. rewrite str_app_cons. cbn. by rewrite IH. Qed.
Lemma str_drop_app s t : str_drop (String.length s) (s +:+ t) = t.
Proof. induction s as [|a s IH]; [done|]. rewrite str_app_cons. cbn. by rewrite IH. Qed.

(** ** A one-byte separator *)

Lemma split_once_char_cons c a s :
  split_once (String c "") (String a s) =
  if Ascii.eqb c a then Some ("", s)
  else '(before, after) ← split_once (String c "") s; Some (String a before, after).
Proof.
  cbn. destruct (Ascii.eqb c a); [done|].
  by destruct (split_once _ s) as [[? ?]|].
Qed.

Lemma contains_char_cons c a s :
  contains (String c "") (String a s) = Ascii.eqb c a || contains (String c "") s.
Proof.
  unfold contains. rewrite split_once_char_cons. destruct (Ascii.eqb c a); [done|].
  by destruct (split_once _ s) as [[? ?]|].
Qed.

Lemma contains_char_app c s t :
  contains (String c "") (s +:+ t) = contains (String c "") s || contains (String c "") t.
Proof.
  induction s as [|a s IH]; [done|]. rewrite str_app_cons, !contains_char_cons, IH. by rewrite orb_assoc.
Qed.

Lemma split_once_char_app c before after :
  contains (String c "") before = false →
  split_once (String c "") (before +:+ String c after) = Some (before, after).
Proof.
  induction before as [|a before IH]; intros Hb.
  - rewrite str_app_nil_l, split_once_char_cons. by rewrite Ascii.eqb_refl.
  - rewrite contains_char_cons in Hb. apply orb_false_iff in Hb as [Hne Hb].
    rewrite str_app_cons, split_once_char_cons, Hne. by rewrite IH.
Qed.

Lemma split_once_char_Some c s before after :
  split_once (String c "") s = Some (before, after) ↔
  s = before +:+ String c after ∧ contains (String c "") before = false.
Proof.
  split; [|intros [-> ?]; by apply split_once_char_app].
  revert before. induction s as [|a s IH]; intros before; [done|].
  rewrite split_once_char_cons. destruct (Ascii.eqb_spec c a) as [<-|Hne].
  - by intros [= <- <-].
  - destruct (split_once _ s) as [[b r]|]; [|done]. intros [= <- <-].
    destruct (IH b) as [-> Hb]; [done|]. rewrite str_app_cons, contains_char_cons, Hb.
    by apply Ascii.eqb_neq in Hne as ->.
Qed.

Lemma split_once_None p s : split_once p s = None ↔ contains p s = false.
Proof. unfold contains. by destruct (split_once p s). Qed.

Lemma str_app_inv_l s t u : s +:+ t = s +:+ u → t = u.
Proof. induction s as [|a s IH]; [done|]. rewrite !str_app_cons. by intros [= ?%IH]. Qed.

(** ** Splitting again *)

Lemma take_drop_while f s : take_while f s +:+ drop_while f s = s.
Proof.
  induction s as [|a s IH]; [done|]. cbn. destruct (f a); [|done]. rewrite str_app_cons. by rewrite IH.
Qed.

Lemma str_concat_split_inclusive s : String.concat "" (split_inclusive s) = s.
Proof.
  induction s as [|a s IH]; [done|]. cbn. destruct (Ascii.eqb a newline).
  - destruct (split_inclusive s) as [|l ls]; cbn in *; [by subst|]. by rewrite <-IH.
  - destruct (split_inclusive s) as [|l [|l' ls]]; cbn in *; by subst.
Qed.

Lemma split_str_fuel_join p s fuel : join p (split_str_fuel fuel p s) = s.
Proof.
  revert s. induction fuel as [|fuel IH]; intros s; cbn; [done|].
  destruct (split_once p s) as [[b a]|] eqn:E; [|done].
  apply split_once_Some in E as ->. pose proof (IH a) as Ha.
  destruct (split_str_fuel fuel p a) as [|x xs] eqn:Ex; [by destruct fuel; cbn in Ex; repeat case_match|].
  by rewrite <-Ha.
Qed.

Lemma parse_digits_pretty max x s :
  (Z.of_N x ≤ max)%Z → parse_digits max 0 (pretty_N_go x s) = parse_digits max (Z.of_N x) s.
Proof.
  revert s. induction (N.lt_wf_0 x) as [x _ IH]. intros s Hx.
  destruct (decide (0 < x)%N) as [Hpos|Hpos]; [|by replace x with 0%N by lia].
  rewrite pretty_N_go_step by done.
  assert (Hdm := N.div_mod' x 10). assert (Hm := N.mod_lt x 10 ltac:(done)).
  assert (Hlt : (x `div` 10 < x)%N) by (by apply N.div_lt).
  rewrite (IH _ Hlt) by (clear -Hx Hlt; lia). cbn [parse_digits]. clear IH Hlt.
  assert (Hc : is_ascii_digit (pretty_N_char (x `mod` 10)) = true
               ∧ Z.of_nat (nat_of_ascii (pretty_N_char (x `mod` 10))) = (Z.of_N (x `mod` 10) + 48)%Z).
  { generalize dependent (x `mod` 10)%N. intros d _ Hd.
    destruct d as [|[[[[]|[]|]|[[]|[]|]|]|[[[]|[]|]|[[]|[]|]|]|]]; by try lia. }
  destruct Hc as [-> ->]. cbn [andb].
  generalize dependent (x `mod` 10)%N. generalize dependent (x `div` 10)%N. intros q r Hdm Hr.
  replace (Z.of_N q * 10 + (Z.of_N r + 48 - 48))%Z with (Z.of_N x) by lia.
  by apply Z.leb_le in Hx as ->.
Qed.

Lemma pretty_N_go_head x s : (0 < x)%N → ∃ a t, pretty_N_go x s = String a t ∧ is_ascii_digit a = true.
Proof.
  revert s. induction (N.lt_wf_0 x) as [x _ IH]. intros s Hx. rewrite pretty_N_go_step by done.
  destruct (decide (0 < x `div` 10)%N) as [Hd|Hd].
  - apply IH; [by apply N.div_lt|done].
  - assert (x `div` 10 = 0)%N as -> by (clear -Hd; generalize dependent (x `div` 10)%N; lia). cbn. eexists _, _. split; [done|].
    by destruct (x `mod` 10)%N as [|[[[[]|[]|]|[[]|[]|]|]|[[[]|[]|]|[[]|[]|]|]|]].
Qed.

Lemma pretty_N_char_digit x : is_ascii_digit (pretty_N_char x) = true.
Proof. by destruct x as [|[[[[]|[]|]|[[]|[]|]|]|[[[]|[]|]|[[]|[]|]|]|]]. Qed.

Lemma pretty_N_go_digits x s :
  all_bytes is_ascii_digit s = true → all_bytes is_ascii_digit (pretty_N_go x s) = true.
Proof.
  revert s. induction (N.lt_wf_0 x) as [x _ IH]. intros s Hs.
  destruct (decide (0 < x)%N) as [Hx|Hx].
  - rewrite pretty_N_go_step by done. apply IH; [by apply N.div_lt|].
    cbn. by rewrite pretty_N_char_digit.
  - by replace x with 0%N by lia.
Qed.

Lemma show_unsigned_digits n : all_bytes is_ascii_digit (show_unsigned n) = true.
Proof.
  unfold show_unsigned, pretty, pretty_N. case_decide; [done|]. by apply pretty_N_go_digits.
Qed.

Lemma parse_show_unsigned max n :
  (0 ≤ n ≤ max)%Z → parse_unsigned max (show_unsigned n) = Some n.
Proof.
  intros Hn. unfold parse_unsigned, show_unsigned, pretty, pretty_N.
  case_decide as H0.
  - replace n with 0%Z by lia. assert (H : (0 <=? max)%Z = true) by lia. cbn. rewrite bool_decide_eq_false_2 by done.
    change (0 * 10 + _)%Z with 0%Z. by rewrite H.
  - destruct (pretty_N_go_head (Z.to_N n) "") as (a & t & E & Ha); [lia|].
    rewrite E. cbn [strip_prefix]. destruct (Ascii.eqb_spec "+" a) as [<-|_]; [done|].
    rewrite bool_decide_eq_false_2 by done. rewrite <-E, parse_digits_pretty by lia. cbn. f_equal. lia.
Qed.

(** ** Suffixes and literal separators *)

Lemma list_ascii_app (s t : string) :
  String.list_ascii_of_string (s +:+ t) = (String.list_ascii_of_string s ++ String.list_ascii_of_string t)%list.
Proof. induction s as [|a s IH]; [done|]. rewrite str_app_cons. cbn. by rewrite IH. Qed.
Lemma string_of_list_app l k :
  String.string_of_list_ascii (l ++ k)%list = String.string_of_list_ascii l +:+ String.string_of_list_ascii k.
Proof. induction l as [|a l IH]; [done|]. cbn. rewrite IH. by rewrite str_app_cons. Qed.
Lemma reverse_str_app s t : reverse_str (s +:+ t) = reverse_str t +:+ reverse_str s.
Proof. unfold reverse_str. by rewrite list_ascii_app, reverse_app, string_of_list_app. Qed.
Lemma reverse_str_length s : String.length (reverse_str s) = String.length s.
Proof.
  induction s as [|a s IH]; [done|]. change (String a s) with (String a "" +:+ s).
  rewrite reverse_str_app, !str_length_app, IH. cbn. lia.
Qed.
Lemma reverse_str_involutive s : reverse_str (reverse_str s) = s.
Proof.
  unfold reverse_str. rewrite String.list_ascii_of_string_of_list_ascii, reverse_involutive.
  apply String.string_of_list_ascii_of_string.
Qed.

Lemma strip_suffix_Some p s r : strip_suffix p s = Some r ↔ s = r +:+ p.
Proof.
  unfold strip_suffix. rewrite fmap_Some. split.
  - intros (x & Hx%strip_prefix_Some & ->). rewrite <-(reverse_str_involutive s), Hx, reverse_str_app.
    by rewrite reverse_str_involutive.
  - intros ->. exists (reverse_str r). rewrite reverse_str_app, reverse_str_involutive.
    split; [apply strip_prefix_app|done].
Qed.
Lemma strip_suffix_app s p : strip_suffix p (s +:+ p) = Some s.
Proof. by apply strip_suffix_Some. Qed.

(** A separator is found at its first place when its first byte isn't before it. *)
Lemma split_once_literal c p before after :
  contains (String c "") before = false →
  split_once (String c p) (before +:+ String c p +:+ after) = Some (before, after).
Proof.
  induction before as [|a before IH]; intros Hb.
  - rewrite !str_app_nil_l. pose proof (strip_prefix_app (String c p) after) as Hs.
    rewrite str_app_cons in *. cbn in Hs |- *. by rewrite Hs.
  - rewrite contains_char_cons in Hb. apply orb_false_iff in Hb as [Hne Hb].
    rewrite str_app_cons. cbn. rewrite Hne. by rewrite IH.
Qed.

Lemma contains_digit_free c s :
  is_ascii_digit c = false → all_bytes is_ascii_digit s = true → contains (String c "") s = false.
Proof.
  intros Hc. induction s as [|a s IH]; [done|]. cbn [all_bytes]. intros [Ha Hs]%andb_true_iff.
  rewrite contains_char_cons, IH by done. destruct (Ascii.eqb_spec c a); [congruence|done].
Qed.

(** ** Offsets *)

Lemma str_drop_length n s : String.length (str_drop n s) = (String.length s - n)%nat.
Proof. revert s. induction n as [|n IH]; intros [|a s]; cbn; try done. Qed.
Lemma str_take_length n s : String.length (str_take n s) = Nat.min n (String.length s).
Proof. revert s. induction n as [|n IH]; intros [|a s]; cbn; try done. by rewrite IH. Qed.
Lemma str_drop_all n s : (String.length s ≤ n)%nat → str_drop n s = "".
Proof. revert s. induction n as [|n IH]; intros [|a s]; cbn; intros; try done; [lia|]. apply IH. lia. Qed.
Lemma str_drop_drop n m s : str_drop n (str_drop m s) = str_drop (m + n) s.
Proof.
  revert s. induction m as [|m IH]; intros s; [done|]. destruct s as [|a s]; cbn; [|apply IH].
  apply str_drop_all. cbn. lia.
Qed.
Lemma take_while_length f s : (String.length (take_while f s) ≤ String.length s)%nat.
Proof. induction s as [|a s IH]; cbn; [done|]. destruct (f a); cbn; lia. Qed.
Lemma drop_while_length f s :
  (String.length (drop_while f s) = String.length s - String.length (take_while f s))%nat.
Proof. pose proof (take_drop_while f s) as Hs. rewrite <-Hs at 2. rewrite str_length_app. lia. Qed.
Lemma drop_while_drop f s : drop_while f s = str_drop (String.length (take_while f s)) s.
Proof. induction s as [|a s IH]; [done|]. cbn. by destruct (f a). Qed.

Lemma starts_with_app p r : starts_with p (p +:+ r) = true.
Proof.
  unfold starts_with. induction p as [|a p IH]; [by destruct r|].
  rewrite str_app_cons. cbn. by destruct (ascii_dec a a).
Qed.
Lemma starts_with_strip p s : starts_with p s = is_some (strip_prefix p s).
Proof.
  unfold starts_with. revert s. induction p as [|a p IH]; intros s; [by destruct s|].
  destruct s as [|b s]; [done|]. cbn. destruct (ascii_dec a b), (Ascii.eqb_spec a b); congruence || done || apply IH.
Qed.
Lemma starts_with_true p s : starts_with p s = true ↔ ∃ r, s = p +:+ r.
Proof.
  rewrite starts_with_strip. split.
  - destruct (strip_prefix p s) as [r|] eqn:E; [|done]. intros _. exists r. by apply strip_prefix_Some.
  - intros [r ->]. by rewrite strip_prefix_app.
Qed.

Lemma str_find_bound p s i : str_find p s = Some i → (i + String.length p ≤ String.length s)%nat.
Proof.
  unfold str_find. destruct (split_once p s) as [[b a]|] eqn:E; [|done]. cbn. intros [= <-].
  apply split_once_Some in E as ->. rewrite !str_length_app. lia.
Qed.

Lemma match_indices_from_sound p at_ skip s i :
  i ∈ match_indices_from p at_ skip s → ∃ j, i = (at_ + j)%nat ∧ starts_with p (str_drop j s) = true ∧ (j < String.length s)%nat.
Proof.
  revert at_ skip. induction s as [|a s IH]; intros at_ skip; [by intros ?%not_elem_of_nil|].
  assert (Hlater : ∀ k, i ∈ match_indices_from p (S at_) k s →
    ∃ j, i = (at_ + j)%nat ∧ starts_with p (str_drop j (String a s)) = true ∧ (j < S (String.length s))%nat).
  { intros k (j & -> & Hj & Hl)%IH. exists (S j). split; [lia|]. split; [done|lia]. }
  cbn [match_indices_from]. destruct skip as [|skip]; [|by apply Hlater].
  destruct (starts_with p (String a s)) eqn:E; [|by apply Hlater].
  intros [->|Hin]%elem_of_cons; [|by apply Hlater in Hin]. exists 0%nat. split; [lia|]. split; [done|cbn; lia].
Qed.
Lemma match_indices_sound p s i :
  i ∈ match_indices p s → starts_with p (str_drop i s) = true ∧ (i < String.length s)%nat.
Proof. by intros (j & -> & ? & ?)%match_indices_from_sound. Qed.

Lemma all_bytes_app f s t : all_bytes f (s +:+ t) = all_bytes f s && all_bytes f t.
Proof. induction s as [|a s IH]; [done|]. rewrite str_app_cons. cbn. by rewrite IH, andb_assoc. Qed.

Lemma strip_prefix_longer p s t r : strip_prefix p s = Some r → strip_prefix p (s +:+ t) = Some (r +:+ t).
Proof. intros ->%strip_prefix_Some. rewrite str_app_assoc. apply strip_prefix_app. Qed.
Lemma split_once_first p s before after : p ≠ "" → split_once p s = Some (before, after) → contains p before = false.
Proof.
  intros Hp. revert before. induction s as [|a s IH]; intros before H.
  - cbn in H. destruct (strip_prefix p "") as [r|] eqn:E; [|done]. apply strip_prefix_Some in E. by destruct p.
  - cbn [split_once] in H. destruct (strip_prefix p (String a s)) as [r|] eqn:E.
    { injection H as <- _. unfold contains. cbn. by destruct p. }
    destruct (split_once p s) as [[b r]|] eqn:Es; [|done]. injection H as <- ->. pose proof (IH b eq_refl) as Hb.
    unfold contains in *. cbn [split_once]. destruct (strip_prefix p (String a b)) as [r|] eqn:Eb.
    + apply split_once_Some in Es as ->. apply (strip_prefix_longer _ _ (p +:+ after)) in Eb. rewrite str_app_cons in Eb. congruence.
    + by destruct (split_once p b) as [[??]|].
Qed.
