(* ===== verification/Json.v ===== *)
(** * Json: what the code relies on of [serde_json::Value]

    [serde_json] is a dependency, so its values and their readers are an interface: the
    model is written against the class [Json] and what the theorems need of it is the class
    [JsonLaws], the documented behaviour of [Value::get], the [as_*] readers and the
    indexed assignment [body[key] = v].  [JTree] is a concrete value type that satisfies the
    laws, for the witnesses. *)

From S2P Require Import Prelude RustStr.
Local Open Scope string_scope.

Class Json (V : Type) := {
  (** [value.get(key)]: the entry of an object; [None] for anything else. *)
  json_get : V → string → option V;
  json_as_str : V → option string;
  json_as_i64 : V → option Z;
  json_as_u64 : V → option Z;
  (** [value.to_string()], the compact text. *)
  json_to_string : V → string;
  (** The values the [json!] macro builds. *)
  json_string : string → V;
  json_array : list V → V;
  json_object : list (string * V) → V;
  (** [body[key] = v] on an object. *)
  json_set : string → V → V → V;
}.

Class JsonLaws (V : Type) `{Json V} := {
  json_is_object : V → Prop;
  json_get_set v k x : json_is_object v → json_get (json_set k x v) k = Some x;
  json_get_set_ne v k k' x :
    json_is_object v → k ≠ k' → json_get (json_set k x v) k' = json_get v k';
  json_set_object v k x : json_is_object v → json_is_object (json_set k x v);
  json_as_str_string s : json_as_str (json_string s) = Some s;
}.

(** ** A concrete value type *)

Inductive JTree :=
  | JNull | JBool (b : bool) | JNum (z : Z) | JStr (s : string)
  | JArr (l : list JTree) | JObj (l : list (string * JTree)).

Definition jtree_get (v : JTree) (k : string) : option JTree :=
  match v with
  | JObj l => snd <$> List.find (λ p, bool_decide (fst p = k)) l
  | _ => None
  end.

Definition jtree_set (k : string) (x v : JTree) : JTree :=
  match v with
  | JObj l => JObj ((k, x) :: List.filter (λ p, negb (bool_decide (fst p = k))) l)
  | _ => v
  end.

Fixpoint jtree_text (v : JTree) : string :=
  match v with
  | JNull => "null"
  | JBool b => if b then "true" else "false"
  | JNum z => pretty z
  | JStr s => dquote +:+ s +:+ dquote
  | JArr l => "[" +:+ join "," (map jtree_text l) +:+ "]"
  | JObj l => "{" +:+ join "," (map (λ p, dquote +:+ fst p +:+ dquote +:+ ":" +:+ jtree_text (snd p)) l) +:+ "}"
  end.

#[export] Instance JTree_Json : Json JTree := {|
  json_get := jtree_get;
  json_as_str v := match v with JStr s => Some s | _ => None end;
  json_as_i64 v := match v with JNum z => i64_try_from z | _ => None end;
  json_as_u64 v := match v with JNum z => if bool_decide (0 ≤ z ≤ U64_MAX)%Z then Some z else None | _ => None end;
  json_to_string := jtree_text;
  json_string := JStr;
  json_array := JArr;
  json_object := JObj;
  json_set := jtree_set;
|}.

Definition jtree_is_object (v : JTree) : Prop := match v with JObj _ => True | _ => False end.

Lemma find_filter_ne {A} (l : list (string * A)) k k' :
  k ≠ k' →
  List.find (λ p, bool_decide (fst p = k')) (List.filter (λ p, negb (bool_decide (fst p = k))) l)
  = List.find (λ p, bool_decide (fst p = k')) l.
Proof.
  intros Hne. induction l as [|[a x] l IH]; [done|]. cbn.
  case_bool_decide as Ha; cbn.
  - subst. rewrite bool_decide_eq_false_2 by done. apply IH.
  - case_bool_decide; [done|]. apply IH.
Qed.

#[export, program] Instance JTree_JsonLaws : JsonLaws JTree := {| json_is_object := jtree_is_object |}.
Next Obligation. intros [| | | | |l] k x; [done..|]. cbn. by rewrite bool_decide_eq_true_2. Qed.
Next Obligation.
  intros [| | | | |l] k k' x; [done..|]. intros _ Hne. cbn.
  rewrite bool_decide_eq_false_2 by done. by rewrite find_filter_ne.
Qed.
Next Obligation. by intros []. Qed.
Next Obligation. done. Qed.
