(* ===== verification/Types.v ===== *)
(** * Types: the Messages API values of [src/src/anthropic/types.rs]

    Content blocks, token usage, effort and thinking settings, the request, and the two
    operations on them: [strip_thinking] and [CreateMessageRequest::to_body].  A tool's
    input is a [serde_json::Value], so the types are over a [Json] value type. *)

From S2P Require Import Prelude RustStr Json.
Local Open Scope string_scope.

(** ** Content blocks *)

Inductive ContentBlock (V : Type) :=
  | Text (text : string)
  | ToolUse (id name : string) (input : V)
  | ToolResult (tool_use_id content : string) (is_error : option bool)
  | Thinking (thinking signature : string)
  | CompactionSummary (summary : string) (covers_through_message_id : Z) (refused : option string)
  | CompactionPlaceholder (text : string).
Arguments Text {V}. Arguments ToolUse {V}. Arguments ToolResult {V}. Arguments Thinking {V}.
Arguments CompactionSummary {V}. Arguments CompactionPlaceholder {V}.

(** Anthropic's [usage] counts, each an [i64]. *)
Record TokenUsage := {
  input_tokens : Z;
  output_tokens : Z;
  cache_creation_input_tokens : Z;
  cache_read_input_tokens : Z;
}.
#[export] Instance TokenUsage_eta : Eta TokenUsage := λ u,
  Build_TokenUsage (input_tokens u) (output_tokens u) (cache_creation_input_tokens u) (cache_read_input_tokens u).
#[export] Instance TokenUsage_eq_dec : EqDecision TokenUsage.
Proof. solve_decision. Defined.

(** [TokenUsage::default()]: all zero. *)
Definition default_usage : TokenUsage := Build_TokenUsage 0 0 0 0.

(** Every count holds in its [i64]. *)
Definition usage_ok (u : TokenUsage) : Prop :=
  is_i64 (input_tokens u) ∧ is_i64 (output_tokens u)
  ∧ is_i64 (cache_creation_input_tokens u) ∧ is_i64 (cache_read_input_tokens u).

Record AnthropicMessage (V : Type) := { role : string; content : list (ContentBlock V) }.
Arguments Build_AnthropicMessage {V}. Arguments role {V}. Arguments content {V}.

Definition THINKING_NOT_SHOWN : string := "(reasoning not shown)".

Definition is_thinking {V} (b : ContentBlock V) : bool :=
  match b with Thinking _ _ => true | _ => false end.

(** [strip_thinking]'s [filter_map]: what one block leaves. *)
Definition strip_one {V} (only_thinking : bool) (b : ContentBlock V) : option (ContentBlock V) :=
  match b with
  | Thinking thinking _ =>
      if only_thinking && negb (is_blank thinking) then Some (Text thinking) else None
  | other => Some other
  end.

Definition strip_thinking {V} (blocks : list (ContentBlock V)) : list (ContentBlock V) :=
  let only_thinking := forallb is_thinking blocks in
  let stripped := omap (strip_one only_thinking) blocks in
  match stripped with
  | [] => [Text THINKING_NOT_SHOWN]
  | _ => stripped
  end.

(** ** Tools, effort and thinking *)

Record ToolDefinition (V : Type) := { tool_name : string; description : string; input_schema : V }.
Arguments Build_ToolDefinition {V}. Arguments tool_name {V}. Arguments description {V}.
Arguments input_schema {V}.

Inductive Effort := Low | Medium | High | Xhigh | Max.
#[export] Instance Effort_eq_dec : EqDecision Effort.
Proof. solve_decision. Defined.

Definition Effort_ALL : list Effort := [Low; Medium; High; Xhigh; Max].

Definition effort_as_str (e : Effort) : string :=
  match e with
  | Low => "low" | Medium => "medium" | High => "high" | Xhigh => "xhigh" | Max => "max"
  end.

Definition effort_parse (value : string) : option Effort :=
  List.find (λ e, bool_decide (effort_as_str e = value)) Effort_ALL.

Inductive ThinkingConfig := Adaptive | Enabled (budget_tokens : Z).

Record ChatTemplateKwargs := {
  enable_thinking : option bool;
  reasoning_effort : option Effort;
  preserve_thinking : option bool;
}.
#[export] Instance ChatTemplateKwargs_eq_dec : EqDecision ChatTemplateKwargs.
Proof. solve_decision. Defined.

Definition default_kwargs : ChatTemplateKwargs := Build_ChatTemplateKwargs None None None.
Definition kwargs_is_empty (k : ChatTemplateKwargs) : bool := bool_decide (k = default_kwargs).

(** ** The request *)

Record CreateMessageRequest (V : Type) := {
  model : string;
  max_tokens : Z;
  system : option string;
  messages : list (AnthropicMessage V);
  stream : bool;
  tools : list (ToolDefinition V);
  thinking_config : option ThinkingConfig;
  output_config : option Effort;
  chat_template_kwargs : option ChatTemplateKwargs;
  prompt_caching : bool;
}.
Arguments Build_CreateMessageRequest {V}. Arguments model {V}. Arguments max_tokens {V}.
Arguments system {V}. Arguments messages {V}. Arguments stream {V}. Arguments tools {V}.
Arguments thinking_config {V}. Arguments output_config {V}.
Arguments chat_template_kwargs {V}. Arguments prompt_caching {V}.
#[export] Instance CreateMessageRequest_eta V : Eta (CreateMessageRequest V) := λ r,
  Build_CreateMessageRequest (model r) (max_tokens r) (system r) (messages r) (stream r)
    (tools r) (thinking_config r) (output_config r) (chat_template_kwargs r) (prompt_caching r).

Section ToBody.
Context {V : Type} `{Json V}.
(** [serde_json::to_value] of the request: [None] is its error. *)
Variable to_value : CreateMessageRequest V → option V.

Definition ephemeral : V := json_object [("type", json_string "ephemeral")].

Definition to_body (r : CreateMessageRequest V) : option V :=
  body ← to_value r;
  if prompt_caching r then
    let body :=
      match system r with
      | Some text =>
          json_set "system"
            (json_array [json_object [("type", json_string "text");
                                      ("text", json_string text);
                                      ("cache_control", ephemeral)]]) body
      | None => body
      end in
    Some (json_set "cache_control" ephemeral body)
  else Some body.
End ToBody.

(** ** Lemmas *)

Lemma effort_parse_as_str e : effort_parse (effort_as_str e) = Some e.
Proof. by destruct e. Qed.

Lemma strip_one_text {V} (only : bool) (b b' : ContentBlock V) :
  strip_one only b = Some b' → is_thinking b' = false.
Proof. destruct b; cbn; try (case_match; naive_solver); naive_solver. Qed.

Lemma forallb_omap_strip {V} (blocks : list (ContentBlock V)) only :
  Forall (λ b, is_thinking b = false) (omap (strip_one only) blocks).
Proof.
  apply Forall_forall. intros b' Hin.
  apply list_elem_of_omap in Hin as (b & _ & Hb). by eapply strip_one_text.
Qed.

(** No thinking block survives, and the message isn't left empty. *)
Lemma strip_thinking_no_thinking {V} (blocks : list (ContentBlock V)) :
  Forall (λ b, is_thinking b = false) (strip_thinking blocks).
Proof.
  unfold strip_thinking. pose proof (forallb_omap_strip blocks (forallb is_thinking blocks)).
  case_match; [by repeat constructor|done].
Qed.

Lemma strip_thinking_nonempty {V} (blocks : list (ContentBlock V)) : strip_thinking blocks ≠ [].
Proof. unfold strip_thinking. by case_match. Qed.

Lemma strip_one_other {V} only (b : ContentBlock V) :
  is_thinking b = false → strip_one only b = Some b.
Proof. by destruct b. Qed.

Lemma omap_strip_filter {V} (blocks : list (ContentBlock V)) :
  omap (strip_one false) blocks = List.filter (λ b, negb (is_thinking b)) blocks.
Proof.
  induction blocks as [|b l IH]; [done|]. cbn. rewrite <- IH.
  by destruct b.
Qed.

(** ** Theorems *)

(** [strip_thinking].  The message it leaves has a block and no thinking; when some
    block isn't thinking, exactly the others are kept, unchanged and in order; a message of
    thinking alone keeps each non-blank thought as text, or the one stand-in; and stripping
    again changes nothing. *)
Theorem strip_thinking_correct {V} (blocks : list (ContentBlock V)) :
  let out := strip_thinking blocks in
  out ≠ []
  ∧ Forall (λ b, is_thinking b = false) out
  ∧ (Exists (λ b, is_thinking b = false) blocks →
     out = List.filter (λ b, negb (is_thinking b)) blocks)
  ∧ (Forall (λ b, is_thinking b = true) blocks →
     Forall (λ b, ∃ t, b = Text t ∧ is_blank t = false) out)
  ∧ strip_thinking out = out.
Proof.
  cbn zeta.
  assert (∀ l : list (ContentBlock V), Exists (λ b, is_thinking b = false) l →
            strip_thinking l = List.filter (λ b, negb (is_thinking b)) l) as Hsome.
  { intros l Hl. unfold strip_thinking.
    replace (forallb is_thinking l) with false.
    - rewrite omap_strip_filter. destruct (List.filter _ l) eqn:E; [|done]. exfalso.
      apply Exists_exists in Hl as (b & Hb & Hn).
      assert (b ∈ List.filter (λ b, negb (is_thinking b)) l) as Hin.
      { apply list_elem_of_In, filter_In. split; [by apply list_elem_of_In|by rewrite Hn]. }
      rewrite E in Hin. by apply not_elem_of_nil in Hin.
    - symmetry. apply not_true_iff_false. rewrite forallb_forall. intros Hall.
      apply Exists_exists in Hl as (b & Hb & Hn). rewrite Hall in Hn; [done|].
      by apply list_elem_of_In. }
  split_and!; [apply strip_thinking_nonempty|apply strip_thinking_no_thinking|apply Hsome|..].
  - intros Hall. unfold strip_thinking.
    replace (forallb is_thinking blocks) with true.
    2:{ symmetry. apply forallb_forall. intros b Hb%list_elem_of_In.
        rewrite Forall_forall in Hall. by apply Hall. }
    destruct (omap (strip_one true) blocks) as [|b0 l0] eqn:E; [by repeat econstructor|].
    rewrite <- E. apply Forall_forall. intros b (b' & Hin & Hb)%list_elem_of_omap.
    rewrite Forall_forall in Hall. specialize (Hall b' Hin).
    destruct b'; try done. cbn in Hb. destruct (is_blank thinking) eqn:E'; naive_solver.
  - rewrite Hsome.
    + pose proof (strip_thinking_no_thinking blocks) as Hn. revert Hn.
      generalize (strip_thinking blocks). intros l. induction 1 as [|b l Hb _ IH]; [done|].
      cbn. by rewrite Hb, IH.
    + pose proof (strip_thinking_nonempty blocks). pose proof (strip_thinking_no_thinking blocks) as Hn.
      destruct Hn; [done|by constructor].
Qed.

Section ToBodyCorrect.
Context {V : Type} `{JsonLaws V}.
Variable to_value : CreateMessageRequest V → option V.

(** [to_body].  A request that doesn't serialize is an error either way; without
    prompt caching the body is the serialized request; with it every entry but [system] and
    [cache_control] is as serialized, the body ends with an ephemeral [cache_control], and a
    system prompt becomes the one marked text block. *)
Theorem to_body_correct (r : CreateMessageRequest V) :
  (∀ v, to_value r = Some v → json_is_object v) →
  (to_body to_value r = None ↔ to_value r = None)
  ∧ (prompt_caching r = false → to_body to_value r = to_value r)
  ∧ (∀ v body, prompt_caching r = true → to_value r = Some v → to_body to_value r = Some body →
     (∀ k, k ≠ "system" → k ≠ "cache_control" → json_get body k = json_get v k)
     ∧ json_get body "cache_control" = Some ephemeral
     ∧ json_get body "system" =
         match system r with
         | Some text => Some (json_array [json_object [("type", json_string "text");
                                ("text", json_string text); ("cache_control", ephemeral)]])
         | None => json_get v "system"
         end).
Proof.
  intros Hobj. unfold to_body. split_and!.
  - destruct (to_value r); cbn; [|done]. by destruct (prompt_caching r).
  - intros ->. by destruct (to_value r).
  - intros v body -> Hv. rewrite Hv. cbn. intros [= <-]. specialize (Hobj v Hv).
    destruct (system r) as [text|].
    + pose proof (json_set_object v "system"
        (json_array [json_object [("type", json_string "text");
           ("text", json_string text); ("cache_control", ephemeral)]]) Hobj).
      split_and!.
      * intros k ? ?. by rewrite !json_get_set_ne by congruence.
      * by rewrite json_get_set.
      * by rewrite json_get_set_ne, json_get_set by congruence.
    + split_and!.
      * intros k ? ?. by rewrite json_get_set_ne by congruence.
      * by rewrite json_get_set.
      * by rewrite json_get_set_ne by congruence.
Qed.
End ToBodyCorrect.

(** ** Witnesses *)

Definition sample_request : CreateMessageRequest JTree :=
  Build_CreateMessageRequest "m" 1024 (Some "Be brief.") [] true [] None None None true.
(** A serializer for the witness: the model and the system prompt. *)
Definition sample_to_value (r : CreateMessageRequest JTree) : option JTree :=
  Some (JObj [("model", JStr (model r)); ("system", JStr (default "" (system r)))]).

Lemma to_body_correct_witness :
  ∃ body, to_body sample_to_value sample_request = Some body
    ∧ json_get body "model" = Some (JStr "m") ∧ json_get body "cache_control" = Some ephemeral.
Proof.
  destruct (to_body_correct sample_to_value sample_request) as (_ & _ & H).
  { intros v [= <-]. exact I. }
  destruct (H _ _ eq_refl eq_refl eq_refl) as (Hk & Hc & _).
  eexists. split; [reflexivity|]. split; [|exact Hc]. rewrite Hk by done. reflexivity.
Defined.
