(* ===== verification/Budget.v ===== *)
(** * Budgets: what a request may be and what a reply may use

    The size arithmetic of [src/src/turn/compaction.rs], [src/src/turn/room.rs] and
    [src/src/turn/overflow.rs]: the estimate of a request, the trigger of a compaction, the
    budget of a reply, what a refusal has the turn do, and the wording of the failures.
    [CompactionProgress] and [room::before_sending], which act on these sizes, are in
    [Compaction]. *)

From S2P Require Import Prelude RustStr Json Types.
Local Open Scope Z_scope.

(** ** Constants *)

Definition MIN_REPLY_TOKENS : Z := 16384.
Definition COMPACTION_SAFETY_BUFFER : Z := 4096.
Definition MIN_USEFUL_REPLY : Z := 1024.

(** What bound a reply's budget ([api::chat::ReplyLimit]). *)
Inductive ReplyLimit := OutputCap | ModelMaximum | HalfWindow | RoomLeft | LaunchCap.
#[export] Instance ReplyLimit_eq_dec : EqDecision ReplyLimit.
Proof. solve_decision. Defined.

Record ReplyBudget := { tokens : Z; limit : ReplyLimit }.
#[export] Instance ReplyBudget_eq_dec : EqDecision ReplyBudget.
Proof. solve_decision. Defined.

(** ** Estimates *)

Section Estimates.
Context {V : Type} `{Json V}.

(** The bytes one block counts for. *)
Definition block_chars (b : ContentBlock V) : Z :=
  match b with
  | Text text => str_len text
  | ToolResult _ content _ => str_len content
  | ToolUse _ _ input => str_len (json_to_string input)
  | Thinking thinking signature => u64_add (str_len thinking) (str_len signature)
  | CompactionSummary summary _ _ => str_len summary
  | CompactionPlaceholder text => str_len text
  end.

Definition estimate_tokens (blocks : list (ContentBlock V)) : Z :=
  foldr u64_add 0 (map block_chars blocks) `div` 4.

(** [serde_json::to_string] of the tool definitions: [None] is its error. *)
Variable tools_text : list (ToolDefinition V) → option string.

Definition estimate_request_tokens (r : CreateMessageRequest V) : Z :=
  let msgs := foldr u64_add 0 (map (λ m, estimate_tokens (content m)) (messages r)) in
  let sys := match system r with Some s => str_len s `div` 4 | None => 0 end in
  let tls := match tools_text (tools r) with Some t => str_len t `div` 4 | None => 0 end in
  u64_add (u64_add msgs sys) tls.

(** [request] with its conversation taken out. *)
Definition without_messages (r : CreateMessageRequest V) : CreateMessageRequest V :=
  r <| messages := [] |>.

(** Whether a compaction may end right after a message with this content. *)
Definition is_tool_use (b : ContentBlock V) : bool :=
  match b with ToolUse _ _ _ => true | _ => false end.
Definition is_safe_compaction_boundary (blocks : list (ContentBlock V)) : bool :=
  negb (existsb is_tool_use blocks).
End Estimates.

Definition projected_input (last_usage : option TokenUsage) (new_content_estimate : Z) : option Z :=
  u ← last_usage;
  let sum :=
    i64_add (i64_add (i64_add (input_tokens u) (output_tokens u)) (cache_creation_input_tokens u))
      (cache_read_input_tokens u) in
  Some (u64_add (Z.max sum 0) new_content_estimate).

(** ** Triggers and budgets *)

Definition compaction_ceiling (context_window : Z) : Z :=
  sat_sub context_window (Z.max MIN_REPLY_TOKENS COMPACTION_SAFETY_BUFFER).

(** The room a request leaves in the window, less the buffer, as a [u32]. *)
Definition room_left (context_window projected : Z) : Z :=
  default U32_MAX (u32_try_from (sat_sub (sat_sub context_window projected) COMPACTION_SAFETY_BUFFER)).

Definition budget_within_room (budget : ReplyBudget) (context_window projected : Z) : ReplyBudget :=
  let room := Z.max (room_left context_window projected) 1 in
  if room <? tokens budget then Build_ReplyBudget room RoomLeft else budget.

Definition reply_budget (context_window projected : Z) (output_cap : option Z) : ReplyBudget :=
  let half := context_window `div` 2 in
  let room := room_left context_window projected in
  let budget := Z.max (Z.min room half) (Z.min MIN_REPLY_TOKENS half) in
  let toks := Z.max (match output_cap with Some cap => Z.min budget cap | None => budget end) 1 in
  let lim :=
    if bool_decide (output_cap = Some toks) then OutputCap
    else if toks =? half then HalfWindow
    else RoomLeft in
  Build_ReplyBudget toks lim.

Definition budget_for (context_window projected : Z) (output_cap : option Z) (room_only : bool) : ReplyBudget :=
  let budget := reply_budget context_window projected output_cap in
  if room_only then budget_within_room budget context_window projected else budget.

Definition under_the_floor (room_only : bool) (budget : ReplyBudget) : bool :=
  room_only && bool_decide (limit budget = RoomLeft) && (tokens budget <? MIN_USEFUL_REPLY).

(** ** Wording *)

(** The thousands commas: before every digit that starts a group of three, but the first. *)
Fixpoint group_digits (first : bool) (digits : string) : string :=
  match digits with
  | EmptyString => EmptyString
  | String c rest =>
      let tail := String c (group_digits false rest) in
      if negb first && (String.length digits mod 3 =? 0)%nat then String "," tail else tail
  end.
Definition grouped (n : Z) : string := group_digits true (show_unsigned n).

Definition too_small (model : string) (window alone : Z) : string :=
  "`" +:+ model +:+ "`'s context window (" +:+ grouped window
  +:+ " tokens) is too small for smelt's system prompt and tools (about " +:+ grouped alone
  +:+ " tokens). Give the model a larger context on its server, or pick another model.".

Definition refused_reason (window : option Z) : string :=
  match window with
  | Some w => "the model's server refused a request that didn't fit its " +:+ grouped w +:+ "-token window"
  | None => "the model's server refused a request that didn't fit"
  end.

Definition still_did_not_fit (model : string) (window : option Z) (compacted : bool) (said : string) : string :=
  let window := match window with Some w => " (" +:+ grouped w +:+ " tokens)" | None => "" end in
  let compacted := if compacted then " after compacting" else "" in
  "The conversation still didn't fit `" +:+ model +:+ "`'s context window" +:+ window +:+ compacted
  +:+ ". The server said: " +:+ said.

(** ** Refusals *)

Inductive NamedRefusal := TooSmall (why : string) | Retry (compact : bool).

Definition after_named_refusal (model : string) (context_window alone input : Z) : NamedRefusal :=
  if context_window <? u64_add alone MIN_USEFUL_REPLY
  then TooSmall (too_small model context_window alone)
  else
    let needs := MIN_REPLY_TOKENS + COMPACTION_SAFETY_BUFFER in
    Retry (context_window <? u64_sat_add input needs).

Definition guessed_window (input believed : Z) : option Z :=
  let assumed := default U32_MAX (u32_try_from (u64_sat_mul input 3 `div` 4)) in
  if assumed <? believed then Some assumed else None.

(** Removing the commas: what reads a grouped count back. *)
Fixpoint ungroup (s : string) : string :=
  match s with
  | EmptyString => EmptyString
  | String c rest => if Ascii.eqb c "," then ungroup rest else String c (ungroup rest)
  end.

(** ** Lemmas *)

Lemma room_left_eq window projected :
  is_u32 window → 0 ≤ projected →
  room_left window projected = Z.max 0 (window - projected - COMPACTION_SAFETY_BUFFER).
Proof.
  intros. unfold room_left, COMPACTION_SAFETY_BUFFER.
  rewrite u32_try_from_or_max; zlia.
Qed.

(** The budget before its cap: what the room and half the window allow, never below the
    floor. *)
Definition uncapped (window projected : Z) : Z :=
  Z.max (Z.min (room_left window projected) (window `div` 2)) (Z.min MIN_REPLY_TOKENS (window `div` 2)).

Lemma reply_budget_tokens window projected cap :
  tokens (reply_budget window projected cap)
  = Z.max (match cap with Some c => Z.min (uncapped window projected) c | None => uncapped window projected end) 1.
Proof. done. Qed.

Ltac budget_unfold :=
  unfold budget_for, budget_within_room, uncapped, MIN_REPLY_TOKENS, MIN_USEFUL_REPLY in *;
  rewrite ?room_left_eq in * by zlia; unfold COMPACTION_SAFETY_BUFFER in *.

Lemma reply_budget_bounds window projected cap :
  is_u32 window → 0 ≤ projected → (∀ c, cap = Some c → 0 < c) →
  let b := reply_budget window projected cap in
  1 ≤ tokens b ≤ Z.max 1 (window `div` 2) ∧ (∀ c, cap = Some c → tokens b ≤ c).
Proof.
  intros Hw Hp Hcap b. subst b. rewrite reply_budget_tokens. budget_unfold.
  split.
  - destruct cap; zlia.
  - intros c ->. specialize (Hcap c eq_refl). zlia.
Qed.

(** A request under the trigger has room for the whole reply its budget allows. *)
Lemma reply_budget_fits window projected cap :
  is_u32 window → 0 ≤ projected < compaction_ceiling window →
  projected + tokens (reply_budget window projected cap) ≤ window.
Proof.
  unfold compaction_ceiling. intros Hw Hp. rewrite reply_budget_tokens. budget_unfold.
  destruct cap; zlia.
Qed.

Lemma budget_within_room_fits b window projected :
  is_u32 window → 0 ≤ projected →
  tokens (budget_within_room b window projected) = 1
  ∨ tokens (budget_within_room b window projected) < 1
  ∨ projected + tokens (budget_within_room b window projected) + COMPACTION_SAFETY_BUFFER ≤ window.
Proof.
  intros Hw Hp. budget_unfold.
  destruct (_ <? tokens b) eqn:E; bool_to_prop; simpl; zlia.
Qed.

Lemma budget_within_room_le b window projected :
  tokens (budget_within_room b window projected) ≤ tokens b.
Proof. unfold budget_within_room. case_match; bool_to_prop; simpl; lia. Qed.

(** A size that leaves a useful reply is never answered with a budget under the floor. *)
Lemma budget_for_believed window after cap :
  is_u32 window → 0 ≤ after →
  after + COMPACTION_SAFETY_BUFFER + MIN_USEFUL_REPLY ≤ window →
  (∀ c, cap = Some c → 0 < c) →
  under_the_floor true (budget_for window after cap true) = false.
Proof.
  intros Hw Ha Hfit Hcap. unfold under_the_floor. simpl.
  destruct (bool_decide (limit _ = RoomLeft)) eqn:Hl; [|done]. simpl. bool_to_prop.
  apply Z.ltb_ge. revert Hl. unfold budget_for, budget_within_room.
  rewrite room_left_eq by zlia. rewrite reply_budget_tokens.
  destruct (_ <? _) eqn:E; simpl; intros Hl.
  { unfold COMPACTION_SAFETY_BUFFER, MIN_USEFUL_REPLY in *. zlia. }
  case_bool_decide as Hcap'; [done|].
  destruct (_ =? window `div` 2) eqn:Hh; [done|]. clear Hl. bool_to_prop.
  fold (uncapped window after) in *.
  destruct cap as [c|].
  - specialize (Hcap c eq_refl).
    assert (Hne : c ≠ Z.max (Z.min (uncapped window after) c) 1) by congruence.
    budget_unfold. zlia.
  - budget_unfold. zlia.
Qed.


Lemma budget_for_fits window projected cap :
  is_u32 window → 0 ≤ projected → ∀ b, b = budget_for window projected cap true →
  tokens b ≤ 1 ∨ projected + tokens b + COMPACTION_SAFETY_BUFFER ≤ window.
Proof.
  intros Hw Hp b ->. unfold budget_for.
  destruct (budget_within_room_fits (reply_budget window projected cap) window projected Hw Hp) as [|[|]]; lia.
Qed.

(** ** Digits and commas *)

Lemma digit_not_comma a : is_ascii_digit a = true → Ascii.eqb a "," = false.
Proof. intros Ha. destruct (Ascii.eqb_spec a ","); [by subst|done]. Qed.

Lemma ungroup_group first s :
  all_bytes is_ascii_digit s = true → ungroup (group_digits first s) = s.
Proof.
  revert first. induction s as [|c s IH]; intros first; [done|]. cbn [all_bytes].
  intros [Hc Hs]%andb_true_iff. cbn [group_digits].
  destruct (negb first && _); cbn; by rewrite digit_not_comma, IH.
Qed.

Lemma group_commas first s a b :
  all_bytes is_ascii_digit s = true → group_digits first s = a +:+ String "," b →
  (first = true → a ≠ "") ∧ (String.length (ungroup b) mod 3 = 0)%nat ∧ ungroup b ≠ "".
Proof.
  revert first a. induction s as [|c s IH]; intros first a; [by destruct a|]. cbn [all_bytes].
  intros [Hc Hs]%andb_true_iff. cbn [group_digits].
  pose proof (ungroup_group false s Hs) as Hu.
  pose proof (digit_not_comma c Hc) as Hcc.
  destruct (negb first && _) eqn:E.
  - bool_to_prop. apply Nat.eqb_eq in H0. destruct a as [|a0 a].
    + rewrite str_app_nil_l. intros [= <-]. cbn. rewrite Hcc, Hu. split_and!; [by destruct first|done|done].
    + rewrite str_app_cons. intros [= <- Ha]. destruct a as [|a1 a].
      { rewrite str_app_nil_l in Ha. simplify_eq. }
      rewrite str_app_cons in Ha. simplify_eq. destruct (IH false a) as (_ & ? & ?); [done..|].
      by split_and!.
  - destruct a as [|a0 a].
    { rewrite str_app_nil_l. intros [= -> _]. done. }
    rewrite str_app_cons. intros [= <- Ha]. destruct (IH false a) as (_ & ? & ?); [done..|].
    by split_and!.
Qed.

Fixpoint commas (s : string) : nat :=
  match s with
  | EmptyString => 0
  | String c rest => (if Ascii.eqb c "," then 1 else 0) + commas rest
  end.

Lemma group_commas_count first s :
  all_bytes is_ascii_digit s = true →
  commas (group_digits first s) = if first then ((String.length s - 1) / 3)%nat else (String.length s / 3)%nat.
Proof.
  revert first. induction s as [|c s IH]; intros first; [by destruct first|]. cbn [all_bytes].
  intros [Hc Hs]%andb_true_iff. cbn [group_digits]. pose proof (digit_not_comma c Hc) as Hcc.
  specialize (IH false Hs). cbv iota in IH.
  pose proof (Nat.div_mod_eq (String.length s) 3). pose proof (Nat.mod_upper_bound (String.length s) 3).
  pose proof (Nat.div_mod_eq (S (String.length s)) 3). pose proof (Nat.mod_upper_bound (S (String.length s)) 3).
  destruct first; cbn [negb andb String.length].
  - cbn [commas]. rewrite Hcc, IH. cbn [Nat.add]. f_equal. lia.
  - destruct (_ =? 0)%nat eqn:E; cbn [commas]; rewrite Hcc, IH; change (Ascii.eqb "," ",") with true; cbv iota.
    + apply Nat.eqb_eq in E. lia.
    + apply Nat.eqb_neq in E. lia.
Qed.

(** ** Theorems *)

(** The reply budget.  A reply is given at least one token and no more than half the
    window or its cap; a request under the compaction trigger fits the window with the
    whole reply its budget allows; and a budget held to the room left fits with the safety
    buffer too, unless there is no room at all. *)
Theorem reply_budget_correct window projected cap :
  is_u32 window → 0 ≤ projected → (∀ c, cap = Some c → 0 < c) →
  let b := reply_budget window projected cap in
  1 ≤ tokens b ≤ Z.max 1 (window `div` 2)
  ∧ (∀ c, cap = Some c → tokens b ≤ c)
  ∧ (projected < compaction_ceiling window → projected + tokens b ≤ window)
  ∧ (let b' := budget_for window projected cap true in
     1 ≤ tokens b' ≤ tokens b
     ∧ (1 < tokens b' → projected + tokens b' + COMPACTION_SAFETY_BUFFER ≤ window)).
Proof.
  intros Hw Hp Hcap b. destruct (reply_budget_bounds window projected cap Hw Hp Hcap) as [Hb Hc].
  fold b in Hb, Hc. cbn zeta.
  split_and!; [apply Hb|apply Hb|done|intros; by apply reply_budget_fits|..].
  - unfold budget_for, budget_within_room. fold b. case_match; bool_to_prop; cbn [tokens]; lia.
  - apply budget_within_room_le.
  - intros. destruct (budget_for_fits window projected cap Hw Hp _ eq_refl); [lia|done].
Qed.

(** Round trip of the grouped counts.  The commas of a token count are exactly one
    before each group of three digits from the right, none leading; taking them out gives
    the number back as it prints. *)
Theorem grouped_roundtrip n :
  ungroup (grouped n) = show_unsigned n
  ∧ commas (grouped n) = ((String.length (show_unsigned n) - 1) / 3)%nat
  ∧ (∀ a b, grouped n = a +:+ String "," b →
     a ≠ "" ∧ (String.length (ungroup b) mod 3 = 0)%nat ∧ ungroup b ≠ "").
Proof.
  unfold grouped. pose proof (show_unsigned_digits n) as Hd. split_and!.
  - by apply ungroup_group.
  - by rewrite group_commas_count.
  - intros a b H. destruct (group_commas true _ a b Hd H) as (? & ? & ?). by split_and!; auto.
Qed.

(** What a refusal naming its window has the turn do.  It gives up exactly when the
    system prompt and tools leave no room for the shortest useful reply; a retry that
    doesn't compact first is under the window's own trigger, so its whole reply fits; and
    a window guessed from a refusal is always smaller than the one believed. *)
Theorem refusal_answer_correct model window alone input believed :
  is_u32 window → is_u32 believed → 0 ≤ alone ≤ I64_MAX → 0 ≤ input ≤ I64_MAX →
  ((∃ why, after_named_refusal model window alone input = TooSmall why) ↔ window < alone + MIN_USEFUL_REPLY)
  ∧ (after_named_refusal model window alone input = Retry false →
     ∀ cap, input + tokens (reply_budget window input cap) ≤ window)
  ∧ (∀ g, guessed_window input believed = Some g →
     g < believed ∧ g = Z.min U32_MAX (Z.min U64_MAX (input * 3) `div` 4)).
Proof.
  intros Hw Hb Ha Hi. unfold after_named_refusal, guessed_window.
  rewrite u64_add_small by (unfold MIN_USEFUL_REPLY; zlia). split_and!.
  - destruct (window <? _) eqn:E; bool_to_prop; split; [lia|eauto|intros [? [=]]|lia].
  - destruct (window <? _) eqn:E; [done|]. intros [= Hn] cap.
    apply Z.ltb_ge in Hn. destruct (decide (input < compaction_ceiling window)) as [Hc|Hc].
    + apply reply_budget_fits; [done|lia].
    + exfalso. revert Hn Hc. unfold compaction_ceiling, MIN_REPLY_TOKENS, COMPACTION_SAFETY_BUFFER. zlia.
  - rewrite u32_try_from_or_max by zlia. unfold u64_sat_mul.
    intros g. case_match; [|done]. bool_to_prop. intros [= <-]. lia.
Qed.

(** ** Witnesses *)

Lemma reply_budget_correct_witness :
  80000 + tokens (reply_budget 100000 80000 (Some 8192)) ≤ 100000.
Proof.
  destruct (reply_budget_correct 100000 80000 (Some 8192)) as (_ & _ & H & _);
    [unfold is_u32; zlia|lia|intros c [= <-]; lia|].
  apply H. vm_compute. done.
Defined.

Lemma refusal_answer_correct_witness :
  7000 + tokens (reply_budget 32768 7000 None) ≤ 32768.
Proof.
  destruct (refusal_answer_correct "m" 32768 3000 7000 200000) as (_ & H & _);
    [unfold is_u32; zlia|unfold is_u32; zlia|zlia|zlia|].
  apply H. reflexivity.
Defined.
