(* ===== verification/Compaction.v ===== *)
(** * Compaction: whether compacting gets a conversation anywhere

    [CompactionProgress] of [src/src/turn/compaction_progress.rs], the conversation's
    record of what its compactions left, and [room::before_sending] of
    [src/src/turn/room.rs], which settles a request under the floor.  Every method that
    takes [&mut self] is a function from the record to its result and the record after. *)

From S2P Require Import Prelude RustStr Json Types Budget.
Local Open Scope Z_scope.

Definition MIN_ROOM_TO_WORK : Z := 4096.
Definition TIGHT_RESULTS : Z := 2.
Definition SHORT_REPLY_TOKENS : Z := 2048.
Definition MAX_AT_LIMIT : Z := 3.
Definition MAX_REFUSAL_COMPACTIONS : Z := 3.

Inductive CompactionStep := Go | Compact | Stuck (why : string).
Inductive FloorAnswer := Believe (after : Z) | TryAnyway | NoRoom (why : string).

Record CompactionProgress := {
  window : option Z;
  awaiting : bool;
  after : option Z;
  tight_results : Z;
  tight : bool;
  at_limit : Z;
  stuck : bool;
  guess : option Z;
  refusal_compactions : Z;
  refused_out : bool;
  compact_for_room : bool;
  room_retried : bool;
  try_anyway : bool;
  believing : bool;
  too_small_at : option Z;
}.
#[export] Instance CompactionProgress_eta : Eta CompactionProgress := λ p,
  Build_CompactionProgress (window p) (awaiting p) (after p) (tight_results p) (tight p)
    (at_limit p) (stuck p) (guess p) (refusal_compactions p) (refused_out p)
    (compact_for_room p) (room_retried p) (try_anyway p) (believing p) (too_small_at p).

(** [CompactionProgress::default()]. *)
Definition fresh : CompactionProgress :=
  Build_CompactionProgress None false None 0 false 0 false None 0 false false false false false None.

(** How near the window a request may come once compacting can't help ([limit]). *)
Definition limit_of (context_window : Z) : Z :=
  sat_sub context_window (COMPACTION_SAFETY_BUFFER + SHORT_REPLY_TOKENS).

Definition forget_measures (p : CompactionProgress) : CompactionProgress :=
  p <| after := None |> <| awaiting := false |> <| tight := false |>
    <| tight_results := 0 |> <| at_limit := 0 |>.

Definition sync (context_window : Z) (p : CompactionProgress) : CompactionProgress :=
  if bool_decide (guess p = Some context_window) then p
  else if bool_decide (window p ≠ Some context_window) then fresh <| window := Some context_window |>
  else match guess p with
       | Some _ => forget_measures (p <| guess := None |>)
       | None => p
       end.

Definition guessed (believed guess_ : Z) (p : CompactionProgress) : CompactionProgress :=
  forget_measures (sync believed p <| guess := Some guess_ |>).

Definition compacted (context_window : Z) (p : CompactionProgress) : CompactionProgress :=
  sync context_window p <| awaiting := true |>.

Definition refusal_compacted (context_window : Z) (p : CompactionProgress) : CompactionProgress :=
  compacted context_window p <| refusal_compactions ::= λ n, u32_add n 1 |>.

Definition step_taken (p : CompactionProgress) : CompactionProgress :=
  p <| refusal_compactions := 0 |> <| try_anyway := false |> <| believing := false |>.

Definition retry_taken (p : CompactionProgress) : CompactionProgress :=
  p <| try_anyway := false |> <| believing := false |>.

Definition refused (input : option Z) (p : CompactionProgress) : CompactionProgress :=
  if believing p then
    p <| believing := false |>
      <| after := (λ input, match after p with Some a => Z.max a input | None => input end) <$> input |>
  else p.

Definition mark_too_small (alone context_window : Z) (p : CompactionProgress) : CompactionProgress :=
  sync context_window p <| too_small_at := Some alone |> <| stuck := true |>.

Definition why_stuck (model : string) (context_window : Z) (p : CompactionProgress) : string :=
  match too_small_at p with
  | Some alone => too_small model context_window alone
  | None =>
      if refused_out p then
        "`" +:+ model +:+ "`'s server kept refusing this conversation as too big for its context window, however much smelt compacted it. Give the model a larger context on its server, or pick another model."
      else
        let size := match after p with Some a => " about " +:+ grouped a +:+ " tokens," | None => "" end in
        "`" +:+ model +:+ "`'s context window (" +:+ grouped context_window
        +:+ " tokens) is too small for this conversation: even compacted, a request takes" +:+ size
        +:+ " which leaves too little room for a reply, and compacting again wouldn't free any more. Give the model a larger context window on its server and on its provider's page, or pick another model."
  end.

Definition why_refused_out (model : string) (context_window : Z) (p : CompactionProgress)
    : option string * CompactionProgress :=
  let p := sync context_window p in
  if refusal_compactions p <? MAX_REFUSAL_COMPACTIONS then (None, p)
  else
    let p := p <| stuck := true |> <| refused_out := true |> in
    (Some (why_stuck model context_window p), p).

(** The trigger a request is held against, after [sync]. *)
Definition trigger (context_window : Z) (p : CompactionProgress) : Z :=
  if tight p || bool_decide (is_Some (guess p)) then limit_of context_window
  else compaction_ceiling context_window.

Definition step (model : string) (context_window : Z) (projected : option Z) (p : CompactionProgress)
    : CompactionStep * CompactionProgress :=
  let p := sync context_window p in
  if stuck p then (Stuck (why_stuck model context_window p), p)
  else if compact_for_room p then (Compact, p <| compact_for_room := false |>)
  else if bool_decide (is_Some (guess p))
          && match after p with Some a => limit_of context_window <=? a | None => false end
  then (Go, p)
  else
    match projected with
    | Some size => if trigger context_window p <=? size then (Compact, p) else (Go, p)
    | None => (Go, p)
    end.

(** The input a reply's [usage] measures: saturating, never negative. *)
Definition measured_input (u : TokenUsage) : Z :=
  Z.max
    (i64_sat_add (i64_sat_add (input_tokens u) (cache_creation_input_tokens u))
       (cache_read_input_tokens u)) 0.

Definition measured (u : TokenUsage) (context_window : Z) (p : CompactionProgress) : CompactionProgress :=
  let p := sync context_window p in
  let input := measured_input u in
  if negb (awaiting p) || (input =? 0) then p
  else
    let p := p <| awaiting := false |> <| after := Some input |> in
    if bool_decide (is_Some (guess p)) then p
    else if u64_add input MIN_ROOM_TO_WORK <=? compaction_ceiling context_window then
      p <| tight_results := 0 |> <| tight := false |> <| at_limit := 0 |>
    else
      let p := p <| tight_results ::= λ n, u32_add n 1 |> in
      let p := p <| tight ::= λ t, t || (TIGHT_RESULTS <=? tight_results p) |> in
      if limit_of context_window <? u64_add input SHORT_REPLY_TOKENS then
        let p := p <| at_limit ::= λ n, u32_add n 1 |> in
        p <| stuck ::= λ s, s || (MAX_AT_LIMIT <=? at_limit p) |>
      else p <| at_limit := 0 |>.

Definition room_only (p : CompactionProgress) : bool := tight p && bool_decide (guess p = None).

Definition room_only_at (context_window : Z) (p : CompactionProgress) : bool * CompactionProgress :=
  let p := sync context_window p in (room_only p, p).

Definition cut_for_room (sized : option Z) (context_window : Z) (p : CompactionProgress)
    : bool * CompactionProgress :=
  let p := sync context_window p in
  let frees_room :=
    match sized, after p with
    | Some sized, Some a => u64_add a SHORT_REPLY_TOKENS <? sized
    | _, _ => false
    end in
  if negb (room_only p) || room_retried p || negb frees_room then (false, p)
  else (true, p <| compact_for_room := true |> <| room_retried := true |>).

Definition reply_finished (p : CompactionProgress) : CompactionProgress := p <| room_retried := false |>.

Definition floor_fits (context_window a : Z) : bool :=
  u64_add (u64_add a COMPACTION_SAFETY_BUFFER) MIN_USEFUL_REPLY <=? context_window.

Definition floor_fired (size : Z) (model : string) (context_window : Z) (p : CompactionProgress)
    : FloorAnswer * CompactionProgress :=
  let p := sync context_window p in
  let no_belief p :=
    if try_anyway p then (TryAnyway, p <| try_anyway := false |>)
    else
      let p := p <| after := Some (default size (after p)) |> <| stuck := true |> in
      (NoRoom (why_stuck model context_window p), p) in
  match after p with
  | Some a => if floor_fits context_window a then (Believe a, p <| believing := true |>) else no_belief p
  | None => no_belief p
  end.

Definition why_if_stuck (model : string) (context_window : Z) (p : CompactionProgress) : option string :=
  if stuck p then Some (why_stuck model context_window p) else None.

Definition is_stuck (p : CompactionProgress) : bool := stuck p.

Definition user_wrote (p : CompactionProgress) : CompactionProgress :=
  let p := p <| try_anyway ::= λ t, t || stuck p |> in
  p <| stuck := false |> <| refused_out := false |> <| too_small_at := None |>
    <| room_retried := false |> <| compact_for_room := false |>
    <| at_limit ::= Z.min (MAX_AT_LIMIT - 1) |>
    <| refusal_compactions ::= Z.min (MAX_REFUSAL_COMPACTIONS - 1) |>.

(** ** [room::before_sending] *)

Inductive BeforeSending := Send (budget : ReplyBudget) | CompactFirst | Refuse (why : string).

Definition before_sending (p : CompactionProgress) (model : string) (context_window : Z)
    (output_cap : option Z) (room_only : bool) (budget : ReplyBudget) (size : Z) (compacted : bool)
    : BeforeSending * CompactionProgress :=
  if negb (under_the_floor room_only budget) then (Send budget, p)
  else if negb compacted then (CompactFirst, p)
  else
    match floor_fired size model context_window p with
    | (Believe a, p) => (Send (budget_for context_window a output_cap true), p)
    | (TryAnyway, p) => (Send (Build_ReplyBudget MIN_USEFUL_REPLY RoomLeft), p)
    | (NoRoom why, p) => (Refuse why, p)
    end.

(** ** Runs: any sequence of the record's operations *)

Inductive progress_op :=
  | OpGuessed (believed guess_ : Z)
  | OpCompacted (context_window : Z)
  | OpRefusalCompacted (context_window : Z)
  | OpStepTaken
  | OpRetryTaken
  | OpRefused (input : option Z)
  | OpTooSmall (alone context_window : Z)
  | OpWhyRefusedOut (model : string) (context_window : Z)
  | OpStep (model : string) (context_window : Z) (projected : option Z)
  | OpMeasured (u : TokenUsage) (context_window : Z)
  | OpRoomOnlyAt (context_window : Z)
  | OpCutForRoom (sized : option Z) (context_window : Z)
  | OpReplyFinished
  | OpFloorFired (size : Z) (model : string) (context_window : Z)
  | OpUserWrote.

Definition run_op (o : progress_op) (p : CompactionProgress) : CompactionProgress :=
  match o with
  | OpGuessed b g => guessed b g p
  | OpCompacted w => compacted w p
  | OpRefusalCompacted w => refusal_compacted w p
  | OpStepTaken => step_taken p
  | OpRetryTaken => retry_taken p
  | OpRefused i => refused i p
  | OpTooSmall a w => mark_too_small a w p
  | OpWhyRefusedOut m w => (why_refused_out m w p).2
  | OpStep m w s => (step m w s p).2
  | OpMeasured u w => measured u w p
  | OpRoomOnlyAt w => (room_only_at w p).2
  | OpCutForRoom s w => (cut_for_room s w p).2
  | OpReplyFinished => reply_finished p
  | OpFloorFired s m w => (floor_fired s m w p).2
  | OpUserWrote => user_wrote p
  end.

Definition run_ops (ops : list progress_op) (p : CompactionProgress) : CompactionProgress :=
  foldl (λ p o, run_op o p) p ops.

(** One compaction and the reply that measures it. *)
Definition cycle (context_window : Z) (p : CompactionProgress) (u : TokenUsage) : CompactionProgress :=
  measured u context_window (compacted context_window p).

(** What the record's fields say of one another. *)
Record progress_wf (p : CompactionProgress) : Prop := {
  wf_at_limit : stuck p = false → at_limit p < MAX_AT_LIMIT;
  wf_tight : tight p = false → tight_results p < TIGHT_RESULTS;
  wf_refused_out : refused_out p = true → stuck p = true;
  wf_too_small : is_Some (too_small_at p) → stuck p = true;
  wf_counts : 0 ≤ tight_results p ≤ U32_MAX ∧ 0 ≤ at_limit p ≤ U32_MAX
              ∧ 0 ≤ refusal_compactions p ≤ U32_MAX;
}.

(** ** Lemmas *)

(** Computes an operation on a record of known fields.  [lazy], since the updates nest:
    each one mentions the record before it once per field. *)
Ltac progress_simpl := lazy beta iota zeta delta [
  run_op guessed refusal_compacted compacted step_taken retry_taken refused mark_too_small
  why_refused_out step measured room_only_at cut_for_room reply_finished floor_fired user_wrote
  forget_measures set_field
  window awaiting after tight_results tight at_limit stuck guess refusal_compactions refused_out
  compact_for_room room_retried try_anyway believing too_small_at fst snd] in *.

Lemma fresh_wf : progress_wf fresh.
Proof.
  split; cbn; unfold MAX_AT_LIMIT, TIGHT_RESULTS; done.
Qed.

Lemma sync_idle w p : guess p = None → window p = Some w → sync w p = p.
Proof.
  intros Hg Hw. unfold sync. rewrite Hg, Hw.
  by repeat case_bool_decide.
Qed.

Lemma sync_guess w p : guess p = Some w → sync w p = p.
Proof. intros Hg. unfold sync. by rewrite bool_decide_eq_true_2. Qed.

Ltac wf_solve :=
  split; cbn in *; unfold MAX_AT_LIMIT, TIGHT_RESULTS, MAX_REFUSAL_COMPACTIONS in *;
  intros; destruct_and?; rewrite ?orb_true_iff, ?orb_false_iff in *; bool_to_prop; destruct_and?;
  repeat match goal with |- context [u32_add ?a ?b] =>
    lazymatch goal with _ : (0 ≤ u32_add a b ≤ U32_MAX)%Z |- _ => fail | _ => pose proof (u32_add_range a b) end end;
  try done; try tauto; unfold U32_MAX in *; lia.

Lemma forget_measures_wf p : progress_wf p → progress_wf (forget_measures p).
Proof. intros []. destruct p. progress_simpl. wf_solve. Qed.

Lemma sync_wf w p : progress_wf p → progress_wf (sync w p).
Proof.
  intros Hp. unfold sync. case_bool_decide; [done|]. case_bool_decide.
  - destruct fresh_wf. unfold set_field. wf_solve.
  - case_match; [|done]. apply forget_measures_wf. destruct Hp. unfold set_field. wf_solve.
Qed.

Lemma measured_wf u w p : progress_wf p → progress_wf (measured u w p).
Proof.
  intros Hp%(sync_wf w). unfold measured. generalize dependent (sync w p). clear p. intros [] []. progress_simpl.
  repeat case_match; wf_solve.
Qed.

Lemma run_op_wf o p : progress_wf p → progress_wf (run_op o p).
Proof.
  intros Hp. destruct o; cbn [run_op]; try (by apply measured_wf).
  all: cbv beta delta [guessed refusal_compacted compacted mark_too_small why_refused_out step
    room_only_at cut_for_room floor_fired].
  all: try apply forget_measures_wf.
  all: try match goal with |- context [sync ?w ?x] =>
         apply (sync_wf w) in Hp; revert Hp; generalize (sync w x); clear; intros q Hp; destruct q end.
  all: try destruct p.
  all: destruct Hp; progress_simpl; repeat case_match; progress_simpl; simplify_eq; wf_solve.
Qed.

Lemma run_ops_wf ops p : progress_wf p → progress_wf (run_ops ops p).
Proof.
  revert p. induction ops as [|o ops IH]; intros p Hp; [done|]. by apply IH, run_op_wf.
Qed.

Lemma measured_input_range u : 0 ≤ measured_input u ≤ I64_MAX.
Proof. unfold measured_input. zlia. Qed.

(** A record that is about window [w] and holds no guess: what [sync w] leaves alone. *)
Definition settled (w : Z) (p : CompactionProgress) : Prop := window p = Some w ∧ guess p = None.

Lemma settled_sync w p : settled w p → sync w p = p.
Proof. intros [? ?]. by apply sync_idle. Qed.

(** Whether a measured reply leaves room to work in, and whether it is near the limit. *)
Definition roomy (w : Z) (u : TokenUsage) : Prop :=
  measured_input u + MIN_ROOM_TO_WORK ≤ compaction_ceiling w.
Definition near_limit (w : Z) (u : TokenUsage) : Prop :=
  limit_of w < measured_input u + SHORT_REPLY_TOKENS.

#[export] Instance roomy_dec w u : Decision (roomy w u).
Proof. unfold roomy. apply _. Defined.

Lemma near_limit_not_roomy w u : is_u32 w → near_limit w u → ¬ roomy w u.
Proof.
  unfold near_limit, roomy, limit_of, compaction_ceiling, SHORT_REPLY_TOKENS, MIN_ROOM_TO_WORK,
    MIN_REPLY_TOKENS, COMPACTION_SAFETY_BUFFER.
  pose proof (measured_input_range u). zlia.
Qed.

(** [measured] after a compaction, in plain arithmetic: no sum it makes overflows. *)
Lemma cycle_roomy w p u :
  settled w p → 0 < measured_input u → roomy w u →
  cycle w p u = p <| awaiting := false |> <| after := Some (measured_input u) |>
                  <| tight_results := 0 |> <| tight := false |> <| at_limit := 0 |>.
Proof.
  intros [Hw Hg] Hu Hr. unfold cycle, compacted. rewrite settled_sync by done. unfold measured.
  rewrite sync_idle by done. destruct p; cbn [window guess] in *; subst.
  rewrite u64_add_small; [..|pose proof (measured_input_range u); unfold MIN_ROOM_TO_WORK; zlia];
    [|pose proof (measured_input_range u); unfold MIN_ROOM_TO_WORK; zlia..].
  progress_simpl. replace (measured_input u =? 0) with false by lia.
  unfold roomy in Hr. replace (_ <=? _) with true by lia. done.
Qed.

Lemma cycle_tight w p u :
  settled w p → 0 < measured_input u → ¬ roomy w u →
  cycle w p u =
    let n := u32_add (tight_results p) 1 in
    let near := limit_of w <? measured_input u + SHORT_REPLY_TOKENS in
    let k := if near then u32_add (at_limit p) 1 else 0 in
    p <| awaiting := false |> <| after := Some (measured_input u) |>
      <| tight_results := n |> <| tight := tight p || (TIGHT_RESULTS <=? n) |>
      <| at_limit := k |> <| stuck := stuck p || (near && (MAX_AT_LIMIT <=? k)) |>.
Proof.
  intros [Hw Hg] Hu Hr. unfold cycle, compacted. rewrite settled_sync by done. unfold measured.
  rewrite sync_idle by done. destruct p; cbn [window guess] in *; subst.
  pose proof (measured_input_range u).
  rewrite !u64_add_small by (unfold MIN_ROOM_TO_WORK, SHORT_REPLY_TOKENS; zlia).
  progress_simpl. replace (measured_input u =? 0) with false by lia.
  unfold roomy in Hr. replace (_ <=? compaction_ceiling w) with false by lia.
  destruct (limit_of w <? _); cbn [andb orb negb]; [reflexivity|rewrite orb_false_r; reflexivity].
Qed.

Lemma cycle_settled w p u : settled w p → settled w (cycle w p u).
Proof.
  intros Hs. destruct (decide (0 < measured_input u)) as [Hu|Hu].
  - destruct (decide (roomy w u)) as [Hr|Hr].
    + by rewrite cycle_roomy.
    + by rewrite cycle_tight.
  - unfold cycle, compacted. rewrite settled_sync by done. unfold measured.
    rewrite settled_sync by done. pose proof (measured_input_range u).
    replace (measured_input u =? 0) with true by lia. rewrite orb_true_r. done.
Qed.

Lemma cycle_wf w p u : progress_wf p → progress_wf (cycle w p u).
Proof. intros Hp. apply (run_op_wf (OpMeasured u w)), (run_op_wf (OpCompacted w)), Hp. Qed.

Lemma cycles_stuck w us p :
  settled w p → progress_wf p → is_u32 w →
  Forall (λ u, 0 < measured_input u ∧ near_limit w u) us →
  stuck (foldl (cycle w) p us) = stuck p || (MAX_AT_LIMIT <=? at_limit p + Z.of_nat (length us)).
Proof.
  intros Hs Hp Hw Hus. revert p Hs Hp.
  induction Hus as [|u us [Hu Hn] _ IH]; intros p Hs Hp; cbn [foldl length].
  - destruct (stuck p) eqn:E; [done|]. pose proof (wf_at_limit p Hp E).
    symmetry. apply Z.leb_gt. lia.
  - rewrite IH by auto using cycle_settled, cycle_wf.
    rewrite cycle_tight by auto using near_limit_not_roomy.
    cbn [set_field stuck at_limit]. replace (limit_of w <? _) with true by (unfold near_limit in Hn; lia).
    cbn zeta. destruct (stuck p) eqn:E; [done|]. cbn [orb andb].
    pose proof (wf_at_limit p Hp E). pose proof (wf_counts p Hp).
    unfold u32_add, MAX_AT_LIMIT in *. rewrite Z.mod_small by zlia.
    destruct (3 <=? at_limit p + 1) eqn:E1; bool_to_prop; cbn [orb].
    + symmetry. apply Z.leb_le. lia.
    + f_equal. lia.
Qed.

Lemma stuck_user_wrote p : stuck (user_wrote p) = false.
Proof. by destruct p. Qed.

Lemma sync_stuck w p : stuck p = false → stuck (sync w p) = false.
Proof.
  intros Hp. unfold sync. destruct p. repeat case_match; progress_simpl; naive_solver.
Qed.

Lemma step_not_stuck model w projected p why :
  stuck p = false → (step model w projected p).1 ≠ Stuck why.
Proof.
  intros Hp%(sync_stuck w). unfold step. rewrite Hp. by repeat case_match.
Qed.

(** What a refused, a guess or a floor leaves of the try the user's message buys. *)
Lemma sync_try_anyway w p : window p = Some w → try_anyway (sync w p) = try_anyway p.
Proof.
  intros Hw. unfold sync. rewrite Hw. destruct p. by repeat case_match; progress_simpl; try case_bool_decide.
Qed.

Lemma step_try_anyway model w projected p :
  window p = Some w → try_anyway (step model w projected p).2 = try_anyway p
  ∧ window (step model w projected p).2 = Some w.
Proof.
  intros Hw. unfold step. pose proof (sync_try_anyway w p Hw) as Ht.
  assert (Hs : window (sync w p) = Some w).
  { unfold sync. rewrite Hw. destruct p. by repeat case_match; progress_simpl; try case_bool_decide. }
  revert Ht Hs. generalize (sync w p). intros q Ht Hs. destruct q.
  by repeat case_match; progress_simpl.
Qed.

Lemma floor_fired_try_anyway size model w p why :
  try_anyway p = true → window p = Some w → (floor_fired size model w p).1 ≠ NoRoom why.
Proof.
  intros Ht Hw. rewrite <- (sync_try_anyway w) in Ht by done. unfold floor_fired.
  rewrite Ht. by repeat case_match.
Qed.

Lemma cycle_guess w p u :
  guess p = Some w →
  let q := cycle w p u in
  guess q = Some w ∧ window q = window p ∧ tight q = tight p ∧ tight_results q = tight_results p
  ∧ at_limit q = at_limit p ∧ stuck q = stuck p.
Proof.
  intros Hg. unfold cycle, compacted. rewrite sync_guess by done. unfold measured.
  rewrite sync_guess by done. destruct p; cbn in Hg; subst. progress_simpl.
  rewrite (bool_decide_eq_true_2 (is_Some (Some w))) by eauto.
  destruct (negb true || (measured_input u =? 0)); done.
Qed.

Lemma cycles_guess w us p :
  guess p = Some w →
  let q := foldl (cycle w) p us in
  guess q = Some w ∧ window q = window p ∧ tight q = tight p ∧ tight_results q = tight_results p
  ∧ at_limit q = at_limit p ∧ stuck q = stuck p.
Proof.
  revert p. induction us as [|u us IH]; intros p Hg; [done|]. cbn.
  destruct (cycle_guess w p u Hg) as (Hg' & ? & ? & ? & ? & ?).
  destruct (IH _ Hg') as (? & ? & ? & ? & ? & ?). by repeat split; try congruence.
Qed.

Lemma cycle_tight_fields w p u :
  settled w p → 0 < measured_input u → ¬ roomy w u → 0 ≤ tight_results p < U32_MAX →
  tight_results (cycle w p u) = tight_results p + 1
  ∧ tight (cycle w p u) = tight p || (TIGHT_RESULTS <=? tight_results p + 1).
Proof.
  intros. rewrite cycle_tight by done. cbn [set_field tight tight_results].
  unfold u32_add. by rewrite Z.mod_small by zlia.
Qed.

Lemma trigger_settled w p :
  settled w p → trigger w p = if tight p then limit_of w else compaction_ceiling w.
Proof. intros [_ Hg]. unfold trigger. rewrite Hg. by destruct (tight p). Qed.

Lemma refusals_count w k p :
  settled w p → 0 ≤ refusal_compactions p → refusal_compactions p + Z.of_nat k ≤ U32_MAX →
  let q := Nat.iter k (refusal_compacted w) p in
  settled w q ∧ stuck q = stuck p ∧ refusal_compactions q = refusal_compactions p + Z.of_nat k.
Proof.
  intros Hs Hn Hk. induction k as [|k IH].
  - cbn. split_and!; [done..|lia].
  - destruct IH as (Hq & Hst & Hc); [lia|]. rewrite Nat.iter_succ. revert Hq Hst Hc.
    generalize (Nat.iter k (refusal_compacted w) p). intros q Hq Hst Hc.
    unfold refusal_compacted, compacted. rewrite settled_sync by done.
    destruct q; unfold settled in *; cbn in *. split_and!; [naive_solver..|].
    rewrite Hc. unfold u32_add. rewrite Z.mod_small by zlia. lia.
Qed.

Lemma under_the_floor_try_anyway b :
  under_the_floor b (Build_ReplyBudget MIN_USEFUL_REPLY RoomLeft) = false.
Proof. by destruct b. Qed.

Lemma under_the_floor_mono b budget :
  under_the_floor true budget = false → under_the_floor b budget = false.
Proof. by destruct b. Qed.

Lemma floor_fired_believe size model w p a q :
  floor_fired size model w p = (Believe a, q) → floor_fits w a = true ∧ after (sync w p) = Some a.
Proof.
  unfold floor_fired. repeat case_match; intros; simplify_eq; done.
Qed.

(** ** Theorems *)

(** Invariant.  Whatever sequence of operations a conversation's record goes through,
    its fields agree: a record that isn't stuck has had fewer than three results near the
    limit and no refusal or too-small window standing, one that isn't tight has had fewer
    than two tight results, and the counts hold in their [u32]. *)
Theorem progress_invariant (ops : list progress_op) : progress_wf (run_ops ops fresh).
Proof. apply run_ops_wf, fresh_wf. Qed.

(** Termination of compacting for nothing.  When every compaction leaves a request so
    near the limit that a short reply no longer fits beside it, the conversation is judged
    stuck exactly when the third such result in a row is in; from then on every model call
    is refused before a summary is paid for; and a stuck conversation the user writes to
    is stuck again after a single further result. *)
Theorem compacting_for_nothing_ends w p us model projected :
  is_u32 w → settled w p → progress_wf p → stuck p = false →
  Forall (λ u, 0 < measured_input u ∧ near_limit w u) us →
  let q := foldl (cycle w) p us in
  (stuck q = (MAX_AT_LIMIT <=? at_limit p + Z.of_nat (length us)))
  ∧ (MAX_AT_LIMIT ≤ at_limit p + Z.of_nat (length us) →
     step model w projected q = (Stuck (why_stuck model w q), q)
     ∧ ∀ u, 0 < measured_input u → near_limit w u → at_limit q = MAX_AT_LIMIT →
        stuck (cycle w (user_wrote q) u) = true).
Proof.
  intros Hw Hs Hp Hns Hus q.
  assert (Hq : settled w q).
  { subst q. clear Hus. revert p Hs Hp Hns. induction us as [|u us IH]; intros p Hs; [done|].
    intros _ _. cbn. clear IH. revert Hs. generalize p.
    assert (Hf : ∀ vs p, settled w p → settled w (foldl (cycle w) p vs)).
    { induction vs; cbn; eauto using cycle_settled. }
    intros p' Hs. by apply Hf, cycle_settled. }
  assert (Hst : stuck q = (MAX_AT_LIMIT <=? at_limit p + Z.of_nat (length us))).
  { subst q. rewrite cycles_stuck by done. by rewrite Hns. }
  split; [done|]. intros Hle. assert (stuck q = true) as Hq' by (rewrite Hst; by apply Z.leb_le).
  split.
  - unfold step. rewrite settled_sync by done. by rewrite Hq'.
  - intros u Hu Hn Hal.
    assert (Hs' : settled w (user_wrote q)) by (by destruct q, Hq).
    rewrite cycle_tight by auto using near_limit_not_roomy.
    cbn [set_field stuck at_limit]. rewrite stuck_user_wrote.
    replace (limit_of w <? _) with true by (unfold near_limit in Hn; lia).
    assert (at_limit (user_wrote q) = 2) as -> by (destruct q; cbn in *; by rewrite Hal).
    done.
Qed.

(** The user always has a way out.  After the user writes, the next step never refuses,
    whatever the record held; and where the record was stuck about this window, the floor
    lets that turn's request through (or believes a measured size) rather than refusing it,
    whatever the step before it did. *)
Theorem user_way_out p model w projected size :
  let q := user_wrote p in
  (∀ why, (step model w projected q).1 ≠ Stuck why)
  ∧ (stuck p = true → window p = Some w →
     ∀ why, (floor_fired size model w (step model w projected q).2).1 ≠ NoRoom why).
Proof.
  intros q. split.
  - intros why. apply step_not_stuck, stuck_user_wrote.
  - intros Hst Hw why.
    assert (Hq : window q = Some w ∧ try_anyway q = true).
    { subst q. destruct p; cbn in *; subst. by rewrite orb_true_r. }
    destruct Hq as [Hqw Hqt].
    destruct (step_try_anyway model w projected q Hqw) as [Ht Hw'].
    apply floor_fired_try_anyway; congruence.
Qed.

(** The trigger moves out only when compacting can't help, and back when it can.  After
    two tight results in a row a request compacts only from the limit on; a result with
    room to work in puts the usual trigger back and clears what was counted. *)
Theorem trigger_follows_results w p u1 u2 :
  settled w p → progress_wf p → tight_results p < U32_MAX - 1 →
  0 < measured_input u1 → 0 < measured_input u2 →
  (¬ roomy w u1 → ¬ roomy w u2 → trigger w (cycle w (cycle w p u1) u2) = limit_of w)
  ∧ (roomy w u2 →
     let q := cycle w (cycle w p u1) u2 in
     trigger w q = compaction_ceiling w ∧ tight_results q = 0 ∧ at_limit q = 0 ∧ room_only q = false).
Proof.
  intros Hs Hp Hn Hu1 Hu2. pose proof (cycle_settled w p u1 Hs) as Hs1.
  split; [intros Hr1 Hr2|intros Hr2 q].
  - rewrite trigger_settled by auto using cycle_settled.
    pose proof (wf_counts p Hp). 
    destruct (cycle_tight_fields w p u1) as [Hn1 Ht1]; [done..|lia|].
    destruct (cycle_tight_fields w (cycle w p u1) u2) as [Hn2 Ht2]; [done..|lia|].
    rewrite Ht2, Hn1. unfold TIGHT_RESULTS.
    replace (2 <=? _) with true by lia. by rewrite orb_true_r.
  - subst q. rewrite trigger_settled by auto using cycle_settled. by rewrite cycle_roomy.
Qed.

(** A guessed window teaches nothing.  While a turn runs on a guess at its window, no
    compaction or reply moves what is believed of the real one (the tight and limit counts,
    [tight], [stuck], the window), and at the next turn, on the real window again, the
    measures taken against the guess are gone. *)
Theorem guess_teaches_nothing w g us p :
  window p = Some w → w ≠ g → guess p = Some g →
  let q := foldl (cycle g) p us in
  tight q = tight p ∧ tight_results q = tight_results p ∧ at_limit q = at_limit p
  ∧ stuck q = stuck p ∧ window q = Some w
  ∧ sync w q = forget_measures (q <| guess := None |>).
Proof.
  intros Hw Hne Hg q. pose proof (cycles_guess g us p Hg) as Hq. cbn zeta in Hq. fold q in Hq.
  destruct Hq as (Hg' & Hw' & ? & ? & ? & ?). clearbody q. repeat (split; [congruence|]).
  unfold sync. rewrite Hg'. rewrite bool_decide_eq_false_2 by congruence.
  by rewrite bool_decide_eq_false_2 by (intros H'; apply H'; congruence).
Qed.

(** Refusals are bounded.  Compactions answering refusals, with no step the server took
    between them, let the turn try again exactly while there have been fewer than three; at
    the third the conversation is stuck, and the next step says so; a step taken starts the
    count again. *)
Theorem refusals_bounded w k p model projected :
  settled w p → stuck p = false → refusal_compactions p = 0 → Z.of_nat k ≤ U32_MAX →
  let q := Nat.iter k (refusal_compacted w) p in
  ((why_refused_out model w q).1 = None ↔ Z.of_nat k < MAX_REFUSAL_COMPACTIONS)
  ∧ (MAX_REFUSAL_COMPACTIONS ≤ Z.of_nat k →
     ∃ why, (step model w projected (why_refused_out model w q).2).1 = Stuck why)
  ∧ (why_refused_out model w (step_taken q)).1 = None.
Proof.
  intros Hs Hst Hr Hk q. destruct (refusals_count w k p) as (Hq & Hst' & Hc); [done|lia|lia|].
  fold q in Hq, Hst', Hc. rewrite Hr in Hc.
  assert (Htk : settled w (step_taken q)) by (by destruct q, Hq).
  refine (conj _ (conj _ _)).
  - unfold why_refused_out. rewrite settled_sync by done. rewrite Hc. unfold MAX_REFUSAL_COMPACTIONS.
    destruct (0 + Z.of_nat k <? 3) eqn:E; bool_to_prop; cbn; split; [lia|done|done|lia].
  - intros Hge. unfold why_refused_out. rewrite settled_sync by done.
    replace (_ <? _) with false by (rewrite Hc; lia). cbn [snd].
    unfold step. rewrite settled_sync by (by destruct q, Hq). cbn [set_field stuck fst]. eauto.
  - unfold why_refused_out. by rewrite settled_sync.
Qed.

(** Nothing is sent under the floor.  Whatever the record holds, a request that goes
    out has a budget that isn't under the floor; one that hasn't compacted yet is compacted
    first when it would be; and one sent on a measured size leaves its whole budget and the
    safety buffer inside the window beside that size. *)
Theorem sent_is_never_under_floor p model w cap room_only budget size compacted_ b :
  is_u32 w → (∀ c, cap = Some c → 0 < c) → (∀ a, after p = Some a → 0 ≤ a ≤ I64_MAX) →
  (before_sending p model w cap room_only budget size compacted_).1 = Send b →
  under_the_floor room_only b = false
  ∧ (under_the_floor room_only budget = false → b = budget)
  ∧ (under_the_floor room_only budget = true → compacted_ = true ∧
     (b = Build_ReplyBudget MIN_USEFUL_REPLY RoomLeft
      ∨ ∃ a, after p = Some a ∧ a + tokens b + COMPACTION_SAFETY_BUFFER ≤ w)).
Proof.
  intros Hw Hcap Ha. unfold before_sending.
  destruct (under_the_floor room_only budget) eqn:Hf; cbn [negb]; [|naive_solver].
  destruct compacted_; [|done]. cbn [negb].
  destruct (floor_fired size model w p) as [[a| |why] q] eqn:E; intros [= <-].
  - apply floor_fired_believe in E as [Hfit Hafter].
    assert (Hap : after p = Some a).
    { revert Hafter. unfold sync. repeat case_match; progress_simpl; naive_solver. }
    specialize (Ha a Hap). unfold floor_fits in Hfit. bool_to_prop.
    rewrite !u64_add_small in Hfit by (unfold COMPACTION_SAFETY_BUFFER, MIN_USEFUL_REPLY; zlia).
    assert (Hb : under_the_floor true (budget_for w a cap true) = false)
      by (apply budget_for_believed; [done|lia..|done]).
    split_and!; [by apply under_the_floor_mono|done|]. intros _. split; [done|]. right.
    exists a. split; [done|]. unfold budget_for. 
    destruct (budget_within_room_fits (reply_budget w a cap) w a) as [H1|[H1|H1]]; [done|lia| | |lia].
    + unfold MIN_USEFUL_REPLY in Hfit. lia.
    + unfold MIN_USEFUL_REPLY in Hfit. lia.
  - split_and!; [apply under_the_floor_try_anyway|done|]. intros _. split; [done|by left].
Qed.

(** ** Witnesses *)

Definition sample_usage (input : Z) : TokenUsage := Build_TokenUsage input 500 0 0.
Definition sample_progress : CompactionProgress := sync 100000 fresh.

Lemma sample_settled : settled 100000 sample_progress.
Proof. by split. Qed.
Lemma sample_wf : progress_wf sample_progress.
Proof. apply sync_wf, fresh_wf. Qed.

Lemma compacting_for_nothing_ends_witness :
  let us := [sample_usage 95000; sample_usage 95500; sample_usage 95500] in
  stuck (foldl (cycle 100000) sample_progress us) = true
  ∧ stuck (foldl (cycle 100000) sample_progress (take 2 us)) = false.
Proof.
  intros us. split.
  - destruct (compacting_for_nothing_ends 100000 sample_progress us "m" None) as [H _];
      [unfold is_u32; zlia|apply sample_settled|apply sample_wf|done|by repeat constructor|].
    rewrite H. reflexivity.
  - destruct (compacting_for_nothing_ends 100000 sample_progress (take 2 us) "m" None) as [H _];
      [unfold is_u32; zlia|apply sample_settled|apply sample_wf|done|by repeat constructor|].
    rewrite H. reflexivity.
Defined.

Lemma user_way_out_witness :
  let p := mark_too_small 99000 100000 sample_progress in
  (floor_fired 99500 "m" 100000 (step "m" 100000 None (user_wrote p)).2).1 = TryAnyway.
Proof.
  intros p.
  assert (Hno : ∀ why, (floor_fired 99500 "m" 100000 (step "m" 100000 None (user_wrote p)).2).1 ≠ NoRoom why).
  { intros why. destruct (user_way_out p "m" 100000 None 99500) as [_ H]. by apply H. }
  destruct (floor_fired 99500 "m" 100000 _) as [[a| |why] q] eqn:E.
  - revert E. vm_compute. discriminate.
  - done.
  - by destruct (Hno why).
Defined.

Lemma trigger_follows_results_witness :
  trigger 100000 (cycle 100000 (cycle 100000 sample_progress (sample_usage 83616)) (sample_usage 83616)) = 93856.
Proof.
  destruct (trigger_follows_results 100000 sample_progress (sample_usage 83616) (sample_usage 83616)) as [H _];
    [apply sample_settled|apply sample_wf|done|done|done|].
  rewrite H; [reflexivity|intros Hr; by vm_compute in Hr|intros Hr; by vm_compute in Hr].
Defined.

Lemma guess_teaches_nothing_witness :
  let q := foldl (cycle 24000) (guessed 100000 24000 sample_progress)
             [sample_usage 23000; sample_usage 23000; sample_usage 23000] in
  tight q = false ∧ at_limit q = 0 ∧ stuck q = false.
Proof.
  destruct (guess_teaches_nothing 100000 24000
    [sample_usage 23000; sample_usage 23000; sample_usage 23000]
    (guessed 100000 24000 sample_progress)) as (H1 & _ & H2 & H3 & _); [done|done|done|].
  cbn zeta. rewrite H1, H2, H3. done.
Defined.

Lemma refusals_bounded_witness :
  (why_refused_out "m" 100000 (Nat.iter 2 (refusal_compacted 100000) sample_progress)).1 = None.
Proof.
  destruct (refusals_bounded 100000 2 sample_progress "m" None) as [H _];
    [apply sample_settled|done|done|done|].
  apply H. done.
Defined.

Lemma sent_is_never_under_floor_witness :
  under_the_floor true (Build_ReplyBudget 14000 RoomLeft) = false.
Proof.
  destruct (sent_is_never_under_floor
    (sample_progress <| after := Some 80000 |>) "m" 100000 None true
    (Build_ReplyBudget 500 RoomLeft) 95000 true (budget_for 100000 80000 None true)) as [H _];
    [unfold is_u32; zlia|done|intros a [= <-]; zlia|reflexivity|].
  exact H.
Defined.
