(* ===== verification/Limiter.v ===== *)
(** * Limiter: how many requests each provider is sent at once

    [src/src/providers/limiter.rs]: a provider's [Pool] of slots, resized in place, the
    [Slot]s calls hold, and the map of limits with its versions.  tokio's semaphore is the
    interface [Semaphore], used through its documented laws.  An operation here is atomic;
    [resize]'s two halves are also given as separate steps, with what a slot given back
    between them does. *)

From stdpp Require Import functions fin_maps.
From S2P Require Import Prelude.

(** [tokio::sync::Semaphore]. *)
Class Semaphore (S : Type) := {
  sem_new : nat → S;
  sem_available : S → nat;
  sem_closed : S → bool;
  (** [add_permits]; a dropped permit is [add_permits 1]. *)
  sem_add : nat → S → S;
  (** [forget_permits]: how many it took of those asked for. *)
  sem_forget : nat → S → nat * S;
  (** A permit taken, when one is free; fails once closed. *)
  sem_try_acquire : S → option S;
  sem_close : S → S;
}.
Class SemaphoreLaws (S : Type) `{Semaphore S} := {
  sem_new_spec n : sem_available (sem_new n) = n ∧ sem_closed (sem_new n) = false;
  sem_add_spec n s : sem_available (sem_add n s) = (sem_available s + n)%nat ∧ sem_closed (sem_add n s) = sem_closed s;
  sem_forget_spec n s k s' :
    sem_forget n s = (k, s') →
    k = (n `min` sem_available s)%nat ∧ sem_available s' = (sem_available s - k)%nat ∧ sem_closed s' = sem_closed s;
  sem_try_acquire_spec s s' :
    sem_try_acquire s = Some s' → sem_closed s = false ∧ sem_available s = Datatypes.S (sem_available s') ∧ sem_closed s' = false;
  sem_try_acquire_none s : sem_try_acquire s = None → sem_closed s = true ∨ sem_available s = 0%nat;
  sem_close_spec s : sem_closed (sem_close s) = true ∧ sem_available (sem_close s) = sem_available s;
}.

Section Limiter.
Context {S : Type} `{Semaphore S}.

(** ** A pool and its slots *)

Record Pool := { slots : S; owed : nat }.
#[local] Instance Pool_eta : Eta Pool := λ p, Build_Pool (slots p) (owed p).

Definition new_pool (count : nat) : Pool := Build_Pool (sem_new count) 0.

(** Raising the limit pays off what's owed first, in one update of [owed], then frees the
    rest; lowering takes back the free slots, then adds what they didn't cover to [owed]. *)
Definition pay_off (more : nat) (p : Pool) : nat * Pool :=
  ((more - owed p `min` more)%nat, p <| owed := (owed p - owed p `min` more)%nat |>).
Definition free_more (more : nat) (p : Pool) : Pool := p <| slots ::= sem_add more |>.
Definition take_free (fewer : nat) (p : Pool) : nat * Pool :=
  let '(taken, s) := sem_forget fewer (slots p) in ((fewer - taken)%nat, p <| slots := s |>).
Definition owe (n : nat) (p : Pool) : Pool := p <| owed ::= λ o, (o + n)%nat |>.

Definition resize (from to : nat) (p : Pool) : Pool :=
  if (from <? to)%nat then
    let '(more, p) := pay_off (to - from) p in free_more more p
  else
    let '(fewer, p) := take_free (from - to) p in owe fewer p.

(** What waiting for a slot gets: one, or nothing once the pool is closed; [Waiting] while
    none is free. *)
Inductive Acquired := Got (p : Pool) | Closed | Waiting.
Definition acquire_slot (p : Pool) : Acquired :=
  if sem_closed (slots p) then Closed
  else match sem_try_acquire (slots p) with
       | Some s => Got (p <| slots := s |>)
       | None => Waiting
       end.

(** [Slot]'s drop: taken back while slots are owed, freed otherwise. *)
Definition drop_slot (p : Pool) : Pool :=
  match owed p with
  | 0%nat => p <| slots ::= sem_add 1 |>
  | Datatypes.S owed' => p <| owed := owed' |>
  end.

(** ** The limits *)

(** [version] is the row's [updated_at]; the pool is named by its [Arc]'s address. *)
Record Limit := { version : Z; limit_pool : option (nat * nat) }.

Record Limits := {
  limits : gmap Z Limit;
  pools : nat → Pool;
  next_pool : nat;
  (** The slots held, each by its pool. *)
  held : list nat;
}.
#[local] Instance Limits_eta : Eta Limits := λ l, Build_Limits (limits l) (pools l) (next_pool l) (held l).

Definition close_pool (p : Pool) : Pool := p <| slots ::= sem_close |>.

Definition set_limit (provider_id : Z) (v : Z) (max : option nat) (l : Limits) : Limits :=
  let known := limits l !! provider_id in
  if match known with Some limit => (v <? version limit)%Z | None => false end then l
  else
    let old := known ≫= limit_pool in
    match old, max with
    | Some (from, a), Some to =>
        l <| pools ::= alter (resize from to) a |>
          <| limits ::= <[provider_id := Build_Limit v (Some (to, a))]> |>
    | _, _ =>
        let l := match old with Some (_, a) => l <| pools ::= alter close_pool a |> | None => l end in
        match max with
        | Some count =>
            l <| pools ::= <[next_pool l := new_pool count]> |> <| next_pool ::= Datatypes.S |>
              <| limits ::= <[provider_id := Build_Limit v (Some (count, next_pool l))]> |>
        | None => l <| limits ::= <[provider_id := Build_Limit v None]> |>
        end
    end.

Definition current (provider_id : Z) (l : Limits) : option nat := snd <$> ((limits l !! provider_id) ≫= limit_pool).

Definition forget_provider (provider_id : Z) (l : Limits) : Limits := l <| limits ::= delete provider_id |>.

(** [Slot::from_pool]. *)
Definition from_pool (slot pool : nat) : bool := bool_decide (slot = pool).

(** ** Every interleaving *)

Inductive limit_op :=
  | Set_ (provider_id : Z) (v : Z) (max : option nat)
  | ForgetProvider (provider_id : Z)
  | Acquire (a : nat)
  | DropSlot (n : nat).

(** A call acquires on a pool it got from [current], so one that was made. *)
Definition limit_step (o : limit_op) (l : Limits) : option Limits :=
  match o with
  | Set_ id v max => Some (set_limit id v max l)
  | ForgetProvider id => Some (forget_provider id l)
  | Acquire a =>
      if (a <? next_pool l)%nat then
        match acquire_slot (pools l a) with
        | Got p => Some (l <| pools ::= <[a := p]> |> <| held ::= cons a |>)
        | _ => Some l
        end
      else None
  | DropSlot n =>
      a ← held l !! n;
      Some (l <| pools ::= alter drop_slot a |> <| held ::= delete n |>)
  end.

Fixpoint limit_steps (ops : list limit_op) (l : Limits) : option Limits :=
  match ops with
  | [] => Some l
  | o :: ops => l' ← limit_step o l; limit_steps ops l'
  end.

Definition no_limits : Limits := Build_Limits ∅ (λ _, new_pool 0) 0 [].

(** How many slots of pool [a] are held. *)
Definition in_use (a : nat) (l : Limits) : nat := length (List.filter (Nat.eqb a) (held l)).

(** ** Lemmas *)

Context `{!SemaphoreLaws S}.

(** A pool of [n] slots of which [used] are held. *)
Record pool_inv (n used : nat) (p : Pool) : Prop := {
  pool_open : sem_closed (slots p) = false;
  pool_count : (sem_available (slots p) + used = n + owed p)%nat;
  pool_owed : owed p ≠ 0%nat → sem_available (slots p) = 0%nat;
}.

Lemma new_pool_inv n : pool_inv n 0 (new_pool n).
Proof. destruct (sem_new_spec n) as [Ha Hc]. split; cbn; [done|lia|done]. Qed.

Lemma resize_inv from to used p : pool_inv from used p → pool_inv to used (resize from to p).
Proof.
  intros [Hc Hn Ho]. unfold resize. destruct (from <? to)%nat eqn:E.
  - apply Nat.ltb_lt in E. cbn.
    destruct (sem_add_spec (to - from - owed p `min` (to - from)) (slots p)) as [Ha Hcl].
    split; cbn; [congruence|rewrite Ha; lia|rewrite Ha; lia].
  - apply Nat.ltb_ge in E. unfold take_free. destruct (sem_forget (from - to) (slots p)) as [k s'] eqn:Ef.
    destruct (sem_forget_spec _ _ _ _ Ef) as (-> & Ha & Hcl).
    split; cbn; [congruence|rewrite Ha; lia|rewrite Ha; lia].
Qed.

Lemma drop_slot_inv n used p : pool_inv n (Datatypes.S used) p → pool_inv n used (drop_slot p).
Proof.
  intros [Hc Hn Ho]. unfold drop_slot. destruct (owed p) as [|o] eqn:E.
  - destruct (sem_add_spec 1 (slots p)) as [Ha Hcl]. split; cbn; [congruence|rewrite Ha; lia|by rewrite E].
  - specialize (Ho ltac:(done)). split; cbn; [done|lia|intros _; done].
Qed.

(** A slot is had exactly while fewer than the limit are held. *)
Lemma acquire_slot_iff n used p :
  pool_inv n used p →
  (∀ p', acquire_slot p = Got p' → (used < n)%nat ∧ pool_inv n (Datatypes.S used) p')
  ∧ ((used < n)%nat → ∃ p', acquire_slot p = Got p')
  ∧ ((n ≤ used)%nat → acquire_slot p = Waiting).
Proof.
  intros [Hc Hn Ho]. unfold acquire_slot. rewrite Hc. destruct (sem_try_acquire (slots p)) as [s'|] eqn:E.
  - destruct (sem_try_acquire_spec _ _ E) as (_ & Ha & Hc').
    assert (owed p = 0%nat) as Hz by (destruct (decide (owed p = 0%nat)) as [|Hne]; [done|specialize (Ho Hne); lia]).
    conjs; [|eauto|lia].
    intros p' [= <-]. split; [lia|]. split; cbn; [done|lia|done].
  - destruct (sem_try_acquire_none _ E) as [|Hz]; [congruence|]. conjs; [done|lia|done].
Qed.

(** Every limit's pool has that many slots; no two providers share one. *)
Record limits_inv (l : Limits) : Prop := {
  inv_pools id v n a : limits l !! id = Some (Build_Limit v (Some (n, a))) →
    (a < next_pool l)%nat ∧ pool_inv n (in_use a l) (pools l a);
  inv_distinct id id' v v' n n' a : limits l !! id = Some (Build_Limit v (Some (n, a))) →
    limits l !! id' = Some (Build_Limit v' (Some (n', a))) → id = id';
  inv_held a : a ∈ held l → (a < next_pool l)%nat;
}.

Lemma in_use_zero a l : (∀ b, b ∈ held l → (b < next_pool l)%nat) → (next_pool l ≤ a)%nat → in_use a l = 0%nat.
Proof.
  intros Hh Ha. unfold in_use. apply length_zero_iff_nil.
  induction (held l) as [|b bs IH]; [done|]. cbn.
  destruct (Nat.eqb_spec a b) as [->|]; [specialize (Hh b ltac:(left)); lia|]. apply IH. intros c Hc. apply Hh. by right.
Qed.

Lemma in_use_delete (hs : list nat) n a b :
  hs !! n = Some b →
  length (List.filter (Nat.eqb a) hs) = ((if Nat.eqb a b then 1 else 0) + length (List.filter (Nat.eqb a) (delete n hs)))%nat.
Proof.
  revert n. induction hs as [|c hs IH]; intros n Hn; [done|]. destruct n as [|n].
  - injection Hn as ->. cbn. change (delete 0%nat (b :: hs)) with hs. by destruct (Nat.eqb a b).
  - change (delete (Datatypes.S n) (c :: hs)) with (c :: delete n hs).
    cbn [List.filter]. destruct (Nat.eqb a c); cbn [length]; rewrite (IH n Hn); lia.
Qed.

Lemma elem_of_delete_sub {A} (x : A) (n : nat) (l : list A) : x ∈ delete n l → x ∈ l.
Proof.
  intros Hx. apply list_elem_of_lookup in Hx as [i Hi]. apply list_elem_of_lookup.
  destruct (decide (i < n)%nat); [rewrite list_lookup_delete_lt in Hi by done|rewrite list_lookup_delete_ge in Hi by lia]; eauto.
Qed.

Lemma limit_step_inv o l l' : limits_inv l → limit_step o l = Some l' → limits_inv l'.
Proof.
  intros Hinv Hs. destruct (id Hinv) as [Hp Hd Hh]. destruct o as [pid v max|pid|a|n]; cbn [limit_step] in Hs.
  - injection Hs as <-. unfold set_limit. case_match; [done|].
    destruct (limits l !! pid) as [[v0 [[from a]|]]|] eqn:El; cbn; destruct max as [to|]; cbn.
    + destruct (Hp _ _ _ _ El) as [Ha Hpi]. split; cbn.
      * intros id v' n b. rewrite lookup_insert_Some. intros [[-> [= -> -> ->]]|[Hne Hl]].
        -- rewrite fn_lookup_alter. split; [done|by apply resize_inv].
        -- destruct (Hp _ _ _ _ Hl). rewrite fn_lookup_alter_ne; [done|]. intros ->. by apply Hne, (Hd _ _ _ _ _ _ _ El Hl).
      * intros id id' v1 v2 n1 n2 b. rewrite !lookup_insert_Some.
        intros [[? Heq0]|[? Hl]] [[? Heq]|[? Hl']]; simplify_eq; try done; try (by eauto); exfalso; eauto.
      * done.
    + destruct (Hp _ _ _ _ El) as [Ha Hpi]. split; cbn; [| |done].
      * intros id v' n b. rewrite lookup_insert_Some. intros [[_ [=]]|[Hne Hl]]. destruct (Hp _ _ _ _ Hl).
        rewrite fn_lookup_alter_ne; [done|]. intros ->. by apply Hne, (Hd _ _ _ _ _ _ _ El Hl).
      * intros id id' v1 v2 n1 n2 b. rewrite !lookup_insert_Some.
        intros [[_ [=]]|[? Hl]] [[_ [=]]|[? Hl']]. eauto.
    + split; cbn.
      * intros id v' n b. rewrite lookup_insert_Some. intros [[-> [= -> -> <-]]|[Hne Hl]].
        -- rewrite fn_lookup_insert. split; [lia|]. pose proof (in_use_zero (next_pool l) l Hh (le_n _)) as Hz.
           unfold in_use in *. cbn. rewrite Hz. apply new_pool_inv.
        -- destruct (Hp _ _ _ _ Hl). rewrite fn_lookup_insert_ne by lia. split; [lia|done].
      * intros id id' v1 v2 n1 n2 b. rewrite !lookup_insert_Some.
        intros [[? Heq0]|[? Hl]] [[? Heq]|[? Hl']]; simplify_eq; try done; try (by eauto);
          exfalso; first [destruct (Hp _ _ _ _ Hl')|destruct (Hp _ _ _ _ Hl)]; lia.
      * intros b Hb. specialize (Hh b Hb). lia.
    + split; cbn; [| |done].
      * intros id v' n b. rewrite lookup_insert_Some. intros [[_ [=]]|[Hne Hl]]. eauto.
      * intros id id' v1 v2 n1 n2 b. rewrite !lookup_insert_Some.
        intros [[_ [=]]|[? Hl]] [[_ [=]]|[? Hl']]. eauto.
    + split; cbn.
      * intros id v' n b. rewrite lookup_insert_Some. intros [[-> [= -> -> <-]]|[Hne Hl]].
        -- rewrite fn_lookup_insert. split; [lia|]. pose proof (in_use_zero (next_pool l) l Hh (le_n _)) as Hz.
           unfold in_use in *. cbn. rewrite Hz. apply new_pool_inv.
        -- destruct (Hp _ _ _ _ Hl). rewrite fn_lookup_insert_ne by lia. split; [lia|done].
      * intros id id' v1 v2 n1 n2 b. rewrite !lookup_insert_Some.
        intros [[? Heq0]|[? Hl]] [[? Heq]|[? Hl']]; simplify_eq; try done; try (by eauto);
          exfalso; first [destruct (Hp _ _ _ _ Hl')|destruct (Hp _ _ _ _ Hl)]; lia.
      * intros b Hb. specialize (Hh b Hb). lia.
    + split; cbn; [| |done].
      * intros id v' n b. rewrite lookup_insert_Some. intros [[_ [=]]|[Hne Hl]]. eauto.
      * intros id id' v1 v2 n1 n2 b. rewrite !lookup_insert_Some.
        intros [[_ [=]]|[? Hl]] [[_ [=]]|[? Hl']]. eauto.
  - injection Hs as <-. split; cbn; [| |done].
    + intros id v n b [_ Hl]%lookup_delete_Some. eauto.
    + intros id id' v1 v2 n1 n2 b [_ Hl]%lookup_delete_Some [_ Hl']%lookup_delete_Some. eauto.
  - destruct (a <? next_pool l)%nat eqn:Ea; [|done]. apply Nat.ltb_lt in Ea.
    destruct (acquire_slot (pools l a)) as [p| |] eqn:Eq; [|by injection Hs as <-..].
    injection Hs as <-. split; cbn; [|done|].
    + intros id v n b Hl. destruct (Hp _ _ _ _ Hl) as [? Hpi]. split; [done|]. unfold in_use. cbn.
      destruct (Nat.eqb_spec b a) as [->|].
      * rewrite fn_lookup_insert. cbn. by apply (acquire_slot_iff _ _ _ Hpi).
      * rewrite fn_lookup_insert_ne by done. done.
    + intros b [->|Hb]%elem_of_cons; [done|auto].
  - destruct (held l !! n) as [a|] eqn:En; [|done]. cbn in Hs. injection Hs as <-. split; cbn; [|done|].
    + intros id v m b Hl. destruct (Hp _ _ _ _ Hl) as [? Hpi]. split; [done|]. unfold in_use in *. cbn.
      rewrite (in_use_delete _ _ b a En) in Hpi. destruct (Nat.eqb_spec b a) as [->|].
      * rewrite fn_lookup_alter. by apply drop_slot_inv.
      * rewrite fn_lookup_alter_ne by done. done.
    + intros b Hb. apply Hh. by eapply elem_of_delete_sub.
Qed.

Lemma limit_steps_inv ops l l' : limits_inv l → limit_steps ops l = Some l' → limits_inv l'.
Proof.
  revert l. induction ops as [|o ops IH]; intros l Hinv Hs; cbn in Hs; [by injection Hs as <-|].
  destruct (limit_step o l) as [l1|] eqn:E; [|done]. cbn in Hs. eapply IH; [|done]. by eapply limit_step_inv.
Qed.
Lemma no_limits_inv : limits_inv no_limits.
Proof.
  split; cbn; intros *; rewrite ?lookup_empty; [done..|]. by intros ?%not_elem_of_nil.
Qed.

(** ** Theorems *)

(** Never over the limit.  Whatever the settings, deletes, calls and ends before, a
    provider with a limit has an open pool; a call waiting on it gets a slot exactly while
    fewer than the limit are held, requests already running counted, however the limit was
    moved; a call gets no slot at the limit or over it. *)
Theorem never_over_the_limit ops l pid v n a :
  limit_steps ops no_limits = Some l →
  limits l !! pid = Some (Build_Limit v (Some (n, a))) →
  current pid l = Some a
  ∧ sem_closed (slots (pools l a)) = false
  ∧ ((in_use a l < n)%nat → ∃ l', limit_step (Acquire a) l = Some l' ∧ in_use a l' = Datatypes.S (in_use a l))
  ∧ ((n ≤ in_use a l)%nat → limit_step (Acquire a) l = Some l)
  ∧ (∀ o l', limit_step o l = Some l' → in_use a l' = Datatypes.S (in_use a l) → (in_use a l' ≤ n)%nat).
Proof.
  intros Hops Hl. pose proof (limit_steps_inv _ _ _ no_limits_inv Hops) as Hinv.
  destruct (inv_pools _ Hinv _ _ _ _ Hl) as [Ha Hp]. destruct (acquire_slot_iff _ _ _ Hp) as (Hgot & Hcan & Hwait).
  assert (∀ p, in_use a (l <| pools ::= <[a := p]> |> <| held ::= cons a |>) = Datatypes.S (in_use a l)) as Huse.
  { intros p. unfold in_use. cbn. by rewrite Nat.eqb_refl. }
  conjs.
  - unfold current. by rewrite Hl.
  - apply Hp.
  - intros Hlt. destruct (Hcan Hlt) as [p Hq]. eexists. cbn [limit_step].
    rewrite (proj2 (Nat.ltb_lt _ _) Ha), Hq. split; [done|apply Huse].
  - intros Hle. cbn [limit_step]. by rewrite (proj2 (Nat.ltb_lt _ _) Ha), Hwait.
  - intros o l' Ho Hin. destruct o as [pid' v' max|pid'|b|k]; cbn [limit_step] in Ho.
    + injection Ho as <-. exfalso. revert Hin. unfold set_limit.
      destruct (match limits l !! pid' with Some limit => _ | None => _ end); [lia|].
      unfold in_use. destruct (limits l !! pid' ≫= limit_pool) as [[from b]|], max; cbn; lia.
    + injection Ho as <-. unfold in_use in Hin. cbn in Hin. lia.
    + destruct (b <? next_pool l)%nat; [|done]. destruct (acquire_slot (pools l b)) as [p| |] eqn:Eq;
        injection Ho as <-; [|lia..]. unfold in_use in Hin |- *. cbn in *. destruct (Nat.eqb_spec a b) as [<-|]; [|lia].
      cbn. destruct (Hgot p Eq) as [Hlt _]. unfold in_use in Hlt. lia.
    + destruct (held l !! k) as [b|] eqn:Ek; [|done]. cbn in Ho. injection Ho as <-. unfold in_use in Hin. cbn in Hin.
      rewrite (in_use_delete _ _ a b Ek) in Hin. destruct (Nat.eqb a b); lia.
Qed.

(** Setting a limit.  A set as of an older row changes nothing; a newer one makes the
    provider's limit what it says: the same pool resized when there is one, a fresh one of
    that many free slots otherwise; no limit closes the pool, so the calls waiting on it go;
    a delete leaves the pool as it is; no other provider's limit moves. *)
Theorem set_limit_correct ops l pid v max :
  limit_steps ops no_limits = Some l →
  let l' := set_limit pid v max l in
  ((∃ limit, limits l !! pid = Some limit ∧ v < version limit)%Z → l' = l)
  ∧ ((∀ limit, limits l !! pid = Some limit → version limit ≤ v)%Z →
     limits l' !! pid = Some (Build_Limit v ((λ n, (n, default (next_pool l) (current pid l))) <$> max))
     ∧ (∀ a, current pid l = Some a → max = None → acquire_slot (pools l' a) = Closed)
     ∧ (∀ n, current pid l = None → max = Some n → pools l' (next_pool l) = new_pool n))
  ∧ (∀ pid', pid' ≠ pid → limits l' !! pid' = limits l !! pid'
       ∧ limits (forget_provider pid l) !! pid' = limits l !! pid')
  ∧ (current pid (forget_provider pid l) = None ∧ pools (forget_provider pid l) = pools l).
Proof.
  intros Hops l'. subst l'. conjs.
  - intros (limit & Hl & Hv). unfold set_limit. rewrite Hl. by rewrite (proj2 (Z.ltb_lt _ _) Hv).
  - intros Hv. unfold set_limit, current. destruct (limits l !! pid) as [[v0 o]|] eqn:El; cbn.
    + rewrite (proj2 (Z.ltb_ge _ _)) by (apply (Hv _ eq_refl)).
      destruct o as [[from a]|]; destruct max as [to|]; cbn; rewrite ?lookup_insert_eq; conjs; try done.
      * intros b [= <-] _. rewrite fn_lookup_alter. unfold acquire_slot, close_pool. cbn.
        by rewrite (proj1 (sem_close_spec (slots (pools l a)))).
      * intros n _ [= <-]. by rewrite fn_lookup_insert.
    + destruct max as [to|]; cbn; rewrite ?lookup_insert_eq; conjs; try done.
      intros n _ [= <-]. by rewrite fn_lookup_insert.
  - intros pid' Hne. split; [|by apply lookup_delete_ne]. unfold set_limit.
    destruct (match limits l !! pid with Some limit => _ | None => _ end); [done|].
    destruct (limits l !! pid ≫= limit_pool) as [[from b]|], max; cbn; by rewrite lookup_insert_ne.
  - unfold current, forget_provider. cbn. by rewrite lookup_delete_eq.
  - done.
Qed.

(** Lowering a limit is not one step.  [resize] takes back the free slots and only then
    records what it is owed, and a slot given back in between is freed: with [n + 1] slots
    all held and the limit lowered to [n], [n + 1] can be in use once the change is made,
    where the change made at once lets no call in until two are given back. *)
Theorem lowering_is_not_atomic n p :
  pool_inv (Datatypes.S n) (Datatypes.S n) p →
  let '(fewer, p1) := take_free 1 p in
  (∃ p', acquire_slot (owe fewer (drop_slot p1)) = Got p')
  ∧ resize (Datatypes.S n) n p = owe fewer p1
  ∧ acquire_slot (drop_slot (resize (Datatypes.S n) n p)) = Waiting.
Proof.
  intros Hp. pose proof (resize_inv (Datatypes.S n) n _ p Hp) as Hr.
  pose proof (drop_slot_inv _ _ _ Hr) as Hd. destruct (acquire_slot_iff _ _ _ Hd) as (_ & _ & Hw).
  destruct Hp as [Hc Hn Ho]. assert (owed p = 0%nat ∧ sem_available (slots p) = 0%nat) as [Hz Ha].
  { destruct (decide (owed p = 0%nat)); [lia|]. specialize (Ho ltac:(done)). lia. }
  unfold resize in *. rewrite (proj2 (Nat.ltb_ge _ _)) in * by lia.
  replace (Datatypes.S n - n)%nat with 1%nat in * by lia.
  unfold take_free in *. destruct (sem_forget 1 (slots p)) as [k s'] eqn:Ef.
  destruct (sem_forget_spec _ _ _ _ Ef) as (-> & Ha' & Hcl). conjs; [|done|by apply Hw].
  unfold drop_slot, acquire_slot. cbn. rewrite Hz. cbn.
  destruct (sem_add_spec 1 s') as [Hadd Hcl']. rewrite Hcl', Hcl, Hc.
  destruct (sem_try_acquire (sem_add 1 s')) eqn:E; [eauto|].
  destruct (sem_try_acquire_none _ E) as [|Hbad]; [congruence|lia].
Qed.
End Limiter.

(** ** A semaphore for the witnesses: its free permits, and whether it is closed *)

#[export] Instance count_semaphore : Semaphore (nat * bool) := {|
  sem_new n := (n, false);
  sem_available := fst;
  sem_closed := snd;
  sem_add n s := ((fst s + n)%nat, snd s);
  sem_forget n s := (n `min` fst s, (fst s - n `min` fst s, snd s))%nat;
  sem_try_acquire s := match s with (Datatypes.S k, false) => Some (k, false) | _ => None end;
  sem_close s := (fst s, true);
|}.
#[export] Instance count_semaphore_laws : SemaphoreLaws (nat * bool).
Proof.
  split; cbn; try done.
  - intros n [k c] k' [k'' c']. cbn. by intros [= <- <- <-].
  - intros [[|k] []] [k' c']; cbn; try done. by intros [= <- <-].
  - intros [[|k] []]; cbn; try done; auto.
Qed.

Definition three_ops : list limit_op :=
  [Set_ 1 10 (Some 2%nat); Acquire 0; Acquire 0; Set_ 1 11 (Some 1%nat); DropSlot 0].
Definition three : @Limits (nat * bool) := default no_limits (limit_steps three_ops no_limits).

Lemma never_over_the_limit_witness : limit_step (Acquire 0) three = Some three.
Proof.
  destruct (never_over_the_limit three_ops three 1 11 1 0) as (_ & _ & _ & H & _).
  - apply default_spec. vm_compute. reflexivity.
  - vm_compute. reflexivity.
  - apply H. vm_compute. constructor.
Defined.

Lemma set_limit_correct_witness : set_limit 1 9 None three = three.
Proof.
  destruct (set_limit_correct three_ops three 1 9 None) as (H & _).
  - apply default_spec. vm_compute. reflexivity.
  - apply H. exists (Build_Limit 11 (Some (1, 0)%nat)). split; [vm_compute; reflexivity|cbn; lia].
Defined.

Lemma lowering_is_not_atomic_witness :
  ∃ p', acquire_slot (owe 1 (drop_slot (Build_Pool (0%nat, false) 0))) = Got p'.
Proof.
  destruct (lowering_is_not_atomic 1 (Build_Pool (0%nat, false) 0)) as [H _].
  - split; cbn; [done|done|done].
  - exact H.
Defined.
