(* ===== verification/ToolNames.v ===== *)
(** * ToolNames: tool classes and the names of MCP tools

    [src/src/anthropic/tools/class.rs] (a call's class, [http_request]'s by its method and
    override headers) and [src/src/mcp/tools.rs]'s naming: [mcp__<server>__<tool>] with each
    part made safe, and the way back from a name to its server and listed tool. *)

From S2P Require Import Prelude RustStr Json.
Local Open Scope string_scope.

(** ** Classes, least to most reaching *)

Inductive ToolClass := ReadOnly | Writing | Destructive.
#[export] Instance ToolClass_eq_dec : EqDecision ToolClass.
Proof. solve_decision. Defined.

Definition class_rank (c : ToolClass) : nat := match c with ReadOnly => 0 | Writing => 1 | Destructive => 2 end.
Definition class_le (a b : ToolClass) : bool := (class_rank a <=? class_rank b)%nat.
Definition class_max (a b : ToolClass) : ToolClass := if class_le a b then b else a.

Definition class_as_str (c : ToolClass) : string :=
  match c with ReadOnly => "read-only" | Writing => "writing" | Destructive => "destructive" end.
Definition class_parse (text : string) : option ToolClass :=
  if bool_decide (text = "read-only") then Some ReadOnly
  else if bool_decide (text = "writing") then Some Writing
  else if bool_decide (text = "destructive") then Some Destructive
  else None.

(** ** [http_request]'s class *)

Section HttpClass.
Context {V : Type} `{Json V}.
(** [parse_method]: a method by the name it's sent under, [None] for one that doesn't
    parse; and an object's entries with their string values, in order. *)
Variable parse_method : string → option string.
Variable string_entries : V → list (string * string).

Definition requested_method (input : V) : string :=
  default "GET" (json_get input "method" ≫= json_as_str).
Definition requested_headers (input : V) : list (string * string) :=
  match json_get input "headers" with Some v => string_entries v | None => [] end.

Definition method_class (m : option string) : ToolClass :=
  match m with
  | Some m =>
      if bool_decide (m ∈ ["GET"; "HEAD"; "OPTIONS"]) then ReadOnly
      else if bool_decide (m = "DELETE") then Destructive
      else Writing
  | None => Writing
  end.

Definition names_a_method_override (name : string) : bool :=
  existsb (λ header, eq_ignore_ascii_case name header)
    ["x-http-method-override"; "x-http-method"; "x-method-override"].

(** [max()] of the overrides' classes, [None] with none. *)
Definition max_class (l : list ToolClass) : option ToolClass :=
  fold_left (λ best c, Some (match best with Some b => class_max b c | None => c end)) l None.

Definition http_request_class (input : V) : ToolClass :=
  let literal := method_class (parse_method (requested_method input)) in
  let overrides :=
    map (λ h, method_class (parse_method (snd h)))
      (List.filter (λ h, names_a_method_override (fst h)) (requested_headers input)) in
  match max_class overrides with Some o => class_max o literal | None => literal end.

(** A native tool's class, fixed or by its input. *)
Inductive Class_ := Fixed (c : ToolClass) | ByInput (can_be : list ToolClass) (by_input : V → ToolClass).
Definition BY_HTTP_METHOD : Class_ := ByInput [ReadOnly; Writing; Destructive] http_request_class.
Definition of_call (k : Class_) (input : V) : ToolClass := match k with Fixed c => c | ByInput _ f => f input end.
Definition class_can_be (k : Class_) : list ToolClass := match k with Fixed c => [c] | ByInput l _ => l end.
End HttpClass.

(** ** An MCP tool's class *)

(** A listed tool: its name, and its annotations' [read_only_hint] and [destructive_hint]. *)
Record McpTool := { mcp_name : string; annotations : option (option bool * option bool) }.

Definition class_from_annotations (a : option (option bool * option bool)) : ToolClass :=
  match a with
  | Some (Some true, _) => ReadOnly
  | Some (_, Some false) => Writing
  | _ => Destructive
  end.
Definition listed_class (tools : list McpTool) (tool_name : string) : ToolClass :=
  match List.find (λ t, bool_decide (mcp_name t = tool_name)) tools with
  | Some t => class_from_annotations (annotations t)
  | None => Destructive
  end.
Definition judged_class (saved : option string) (listed : ToolClass) : ToolClass :=
  match saved with
  | None => listed
  | Some text => default Destructive (class_parse text)
  end.

(** ** Names *)

Definition MAX_TOOL_NAME : nat := 128.
Definition MAX_SERVER_PART : nat := 40.
Definition TOOL_NAME_PREFIX : string := "mcp__".
Definition TOOL_NAME_SEPARATOR : string := "__".

Definition is_name_char (a : ascii) : bool := is_ascii_alphanumeric a || Ascii.eqb a "_" || Ascii.eqb a "-".

(** FNV-1a, 64-bit. *)
Fixpoint fnv1a_from (hash : Z) (s : string) : Z :=
  match s with
  | EmptyString => hash
  | String a s =>
      fnv1a_from ((Z.lxor hash (Z.of_nat (nat_of_ascii a)) * 1099511628211) `mod` 18446744073709551616)%Z s
  end.
Definition fnv1a (s : string) : Z := fnv1a_from 14695981039346656037 s.

Definition hex_digit (n : Z) : ascii :=
  ascii_of_nat (Z.to_nat (if (n <? 10)%Z then 48 + n else 87 + n)).
(** [{:06x}] of a value under [2^24]: its six hex digits. *)
Fixpoint hex_digits (k : nat) (n : Z) : string :=
  match k with
  | O => ""
  | S k => hex_digits k (n `div` 16) +:+ String (hex_digit (n `mod` 16)) ""
  end.

(** [chars().map(..)]: one byte for each character. *)
Fixpoint safe_chars (s : string) : string :=
  match s with
  | EmptyString => ""
  | String a s =>
      if is_continuation a then safe_chars s
      else String (if is_name_char a then a else "_"%char) (safe_chars s)
  end.

Definition is_safe_part (max : nat) (text : string) : bool :=
  negb (bool_decide (text = "")) && (String.length text <=? max)%nat && all_bytes is_name_char text.

Definition safe_suffix (text : string) : string := "_" +:+ hex_digits 6 (Z.land (fnv1a text) 16777215).

Definition safe_part (text : string) (max : nat) : string :=
  if is_safe_part max text then text
  else take_chars (max - String.length (safe_suffix text)) (safe_chars text) +:+ safe_suffix text.

Definition namespaced_tool_name (server_name tool_name : string) : string :=
  let server := safe_part server_name MAX_SERVER_PART in
  let room := (MAX_TOOL_NAME - String.length TOOL_NAME_PREFIX - String.length server
               - String.length TOOL_NAME_SEPARATOR)%nat in
  TOOL_NAME_PREFIX +:+ server +:+ TOOL_NAME_SEPARATOR +:+ safe_part tool_name room.

Definition parse_tool_name (name : string) : option (string * string) :=
  rest ← strip_prefix TOOL_NAME_PREFIX name; split_once TOOL_NAME_SEPARATOR rest.

Definition fits_tool_name (name : string) : bool :=
  (1 <=? String.length name)%nat && (String.length name <=? MAX_TOOL_NAME)%nat && all_bytes is_name_char name.

Definition safe_tool_name (name : string) : string :=
  if fits_tool_name name then name
  else match parse_tool_name name with
       | Some (server, tool) => namespaced_tool_name server tool
       | None => name
       end.

(** [max_by_key], the last of the greatest. *)
Fixpoint max_by_key {A} (key : A → nat) (l : list A) (best : option A) : option A :=
  match l with
  | [] => best
  | x :: l =>
      max_by_key key l
        (match best with Some b => if (key b <=? key x)%nat then Some x else Some b | None => Some x end)
  end.

(** A configured server is its name here. *)
Definition server_candidate (rest config : string) : option (string * string) :=
  tail ← strip_prefix (safe_part config MAX_SERVER_PART) rest;
  tool ← strip_prefix TOOL_NAME_SEPARATOR tail;
  Some (config, tool).
Definition server_for (name : string) (configs : list string) : option (string * string) :=
  rest ← strip_prefix TOOL_NAME_PREFIX name;
  max_by_key (λ p, String.length (safe_part (fst p) MAX_SERVER_PART)) (omap (server_candidate rest) configs) None.

Definition listed_tool_name (listed : list McpTool) (server_name part : string) : string :=
  if existsb (λ t, bool_decide (mcp_name t = part)) listed then part
  else
    let called := namespaced_tool_name server_name part in
    match List.find (λ t, bool_decide (namespaced_tool_name server_name t = called)) (map mcp_name listed) with
    | Some tool => tool
    | None => part
    end.

(** ** Lemmas *)



Lemma hex_digit_name n : (0 ≤ n < 16)%Z → is_name_char (hex_digit n) = true.
Proof.
  intros Hn. assert (n = 0 ∨ n = 1 ∨ n = 2 ∨ n = 3 ∨ n = 4 ∨ n = 5 ∨ n = 6 ∨ n = 7 ∨ n = 8 ∨ n = 9 ∨ n = 10
    ∨ n = 11 ∨ n = 12 ∨ n = 13 ∨ n = 14 ∨ n = 15)%Z as Hc by lia.
  repeat destruct Hc as [->|Hc]; try done. by subst.
Qed.

Lemma hex_digits_spec k n : String.length (hex_digits k n) = k ∧ all_bytes is_name_char (hex_digits k n) = true.
Proof.
  revert n. induction k as [|k IH]; intros n; [done|]. cbn [hex_digits]. destruct (IH (n `div` 16)%Z) as [Hl Ha].
  rewrite str_length_app, all_bytes_app, Hl, Ha. cbn [String.length all_bytes]. split; [lia|].
  rewrite hex_digit_name by (apply Z.mod_pos_bound; lia). done.
Qed.

Lemma safe_suffix_spec text :
  String.length (safe_suffix text) = 7%nat ∧ all_bytes is_name_char (safe_suffix text) = true.
Proof.
  unfold safe_suffix. destruct (hex_digits_spec 6 (Z.land (fnv1a text) 16777215)) as [Hl Ha].
  rewrite str_length_app, all_bytes_app, Hl, Ha. done.
Qed.

Lemma name_char_not_continuation a : is_name_char a = true → is_continuation a = false.
Proof. destruct a as [[] [] [] [] [] [] [] []]; vm_compute; done. Qed.

Lemma safe_chars_safe s : all_bytes is_name_char (safe_chars s) = true.
Proof.
  induction s as [|a s IH]; [done|]. cbn. destruct (is_continuation a); [done|]. cbn.
  rewrite IH, andb_true_r. by destruct (is_name_char a) eqn:E.
Qed.

(** Cutting a run of one-byte characters. *)
Lemma take_chars_safe n s :
  all_bytes is_name_char s = true →
  all_bytes is_name_char (take_chars n s) = true ∧ (String.length (take_chars n s) ≤ n)%nat.
Proof.
  revert n. induction s as [|a s IH]; intros n; [cbn; split; [done|lia]|]. cbn [all_bytes take_chars].
  intros [Ha Hs]%andb_true_iff. rewrite (name_char_not_continuation a Ha). destruct n as [|n]; [cbn; split; [done|lia]|].
  destruct (IH n Hs) as [? ?]. cbn [all_bytes String.length]. rewrite Ha. split; [done|lia].
Qed.

Lemma safe_part_safe text max :
  (8 ≤ max)%nat → is_safe_part max (safe_part text max) = true.
Proof.
  intros Hm. unfold safe_part. destruct (is_safe_part max text) eqn:E; [done|].
  destruct (safe_suffix_spec text) as [Hl Ha]. rewrite Hl.
  destruct (take_chars_safe (max - 7) (safe_chars text) (safe_chars_safe text)) as [Hs Hn].
  unfold is_safe_part. rewrite all_bytes_app, Hs, Ha, str_length_app, Hl. rewrite andb_true_r.
  apply andb_true_iff. split; [|apply Nat.leb_le; lia].
  apply negb_true_iff, bool_decide_eq_false. intros Hz. apply (f_equal String.length) in Hz.
  rewrite str_length_app, Hl in Hz. cbn in Hz. lia.
Qed.

Lemma safe_part_idemp text max : (8 ≤ max)%nat → safe_part (safe_part text max) max = safe_part text max.
Proof. intros Hm. unfold safe_part at 1. by rewrite safe_part_safe. Qed.

Lemma is_safe_part_spec max s :
  is_safe_part max s = true ↔ s ≠ "" ∧ (String.length s ≤ max)%nat ∧ all_bytes is_name_char s = true.
Proof.
  unfold is_safe_part. rewrite !andb_true_iff, negb_true_iff, bool_decide_eq_false, Nat.leb_le. tauto.
Qed.

(** The room left for a tool's part of a name. *)
Lemma tool_room server :
  (8 ≤ MAX_TOOL_NAME - String.length TOOL_NAME_PREFIX - String.length (safe_part server MAX_SERVER_PART)
       - String.length TOOL_NAME_SEPARATOR)%nat.
Proof.
  destruct (proj1 (is_safe_part_spec _ _) (safe_part_safe server MAX_SERVER_PART ltac:(unfold MAX_SERVER_PART; lia)))
    as (_ & Hl & _).
  unfold MAX_SERVER_PART in *. unfold MAX_TOOL_NAME. cbn. lia.
Qed.

Lemma namespaced_idemp server tool :
  let room := (MAX_TOOL_NAME - String.length TOOL_NAME_PREFIX - String.length (safe_part server MAX_SERVER_PART)
               - String.length TOOL_NAME_SEPARATOR)%nat in
  namespaced_tool_name server (safe_part tool room) = namespaced_tool_name server tool.
Proof. cbn zeta. unfold namespaced_tool_name. by rewrite safe_part_idemp by apply tool_room. Qed.

Lemma max_by_key_spec {A} (key : A → nat) l best r :
  max_by_key key l best = Some r →
  (r ∈ l ∨ best = Some r) ∧ (∀ x, x ∈ l → (key x ≤ key r)%nat) ∧ (∀ b, best = Some b → (key b ≤ key r)%nat).
Proof.
  revert best. induction l as [|x l IH]; intros best; cbn.
  { intros ->. conjs; [by right|by intros x ?%not_elem_of_nil|by intros b [= ->]]. }
  intros Hr. destruct (IH _ Hr) as (Hin & Hl & Hb). destruct best as [b|].
  - destruct (key b <=? key x)%nat eqn:E.
    + apply Nat.leb_le in E. specialize (Hb x eq_refl). conjs.
      * left. destruct Hin as [Hin|[= ->]]; [by right|by left].
      * intros y [->|Hy]%elem_of_cons; [done|by apply Hl].
      * intros b' [= <-]. lia.
    + apply Nat.leb_gt in E. specialize (Hb b eq_refl). conjs.
      * destruct Hin as [Hin|[= ->]]; [left; by right|by right].
      * intros y [->|Hy]%elem_of_cons; [lia|by apply Hl].
      * by intros b' [= <-].
  - specialize (Hb x eq_refl). conjs; [|intros y [->|Hy]%elem_of_cons; [done|by apply Hl]|done].
    left. destruct Hin as [Hin|[= ->]]; [by right|by left].
Qed.
Lemma max_by_key_some {A} (key : A → nat) l best :
  l ≠ [] ∨ best ≠ None → ∃ r, max_by_key key l best = Some r.
Proof.
  revert best. induction l as [|x l IH]; intros best Hne; cbn.
  - destruct best as [b|]; [eauto|]. by destruct Hne.
  - apply IH. right. destruct best as [b|]; [|done]. by destruct (key b <=? key x)%nat.
Qed.

Lemma server_candidate_spec rest c c' tool :
  server_candidate rest c = Some (c', tool) ↔
  c' = c ∧ rest = safe_part c MAX_SERVER_PART +:+ (TOOL_NAME_SEPARATOR +:+ tool).
Proof.
  unfold server_candidate. split.
  - destruct (strip_prefix (safe_part c MAX_SERVER_PART) rest) as [tail|] eqn:E1; [|done]. cbn [mbind option_bind].
    destruct (strip_prefix TOOL_NAME_SEPARATOR tail) as [t|] eqn:E2; [|done]. intros [= <- <-].
    apply strip_prefix_Some in E1, E2. by rewrite E1, E2.
  - intros [-> ->]. rewrite strip_prefix_app. cbn [mbind option_bind]. by rewrite strip_prefix_app.
Qed.

(** Two prefixes of one text: the shorter is a prefix of the longer. *)
Lemma prefix_of_longer (p q u v : string) :
  p +:+ u = q +:+ v → (String.length p ≤ String.length q)%nat → ∃ w, q = p +:+ w.
Proof.
  revert q. induction p as [|a p IH]; intros q Heq Hl; [by exists q|].
  destruct q as [|b q]; [cbn in Hl; lia|]. rewrite !str_app_cons in Heq. injection Heq as -> Heq.
  destruct (IH q Heq) as [w ->]; [cbn in Hl; lia|]. exists w. by rewrite str_app_cons.
Qed.

Lemma app_inj_head (p s t : string) : p +:+ s = p +:+ t → s = t.
Proof. induction p as [|a p IH]; [done|]. rewrite !str_app_cons. intros [= Heq]. by apply IH. Qed.

Lemma max_class_spec l :
  (max_class l = None ↔ l = [])
  ∧ ∀ c, max_class l = Some c → c ∈ l ∧ ∀ d, d ∈ l → class_le d c = true.
Proof.
  unfold max_class.
  assert (∀ l best, ∃ o, fold_left (λ best c, Some (match best with Some b => class_max b c | None => c end)) l best = o
    ∧ (o = None ↔ l = [] ∧ best = None)
    ∧ ∀ c, o = Some c → (c ∈ l ∨ best = Some c) ∧ (∀ d, d ∈ l → class_le d c = true) ∧ (∀ b, best = Some b → class_le b c = true))
    as Hgen.
  { clear l. induction l as [|x l IH]; intros best; cbn.
    - exists best. conjs; [done|tauto|]. intros c ->. conjs; [by right|by intros d ?%not_elem_of_nil|].
      intros b [= ->]. by destruct b.
    - destruct (IH (Some (match best with Some b => class_max b x | None => x end))) as (o & Ho & Hnone & Hsome).
      exists o. conjs; [done| |].
      + rewrite Hnone. split; [by intros [_ ?]|by intros [? _]].
      + intros c Hc. destruct (Hsome c Hc) as (Hin & Hl & Hb). specialize (Hb _ eq_refl). conjs.
        * destruct Hin as [Hin|[= Hin]]; [left; by right|]. destruct best as [b|]; [|subst; left; apply list_elem_of_here].
          unfold class_max in Hin. destruct (class_le b x); subst; [left; apply list_elem_of_here|by right].
        * intros d [->|Hd]%elem_of_cons; [|by apply Hl]. destruct best as [b|]; [|done].
          revert Hb. unfold class_max. by destruct b, x, c.
        * intros b ->. revert Hb. unfold class_max. by destruct b, x, c. }
  destruct (Hgen l None) as (o & -> & Hn & Hs). split; [rewrite Hn; tauto|].
  intros c Hc. destruct (Hs c Hc) as ([?|?] & ? & _); [by split|done].
Qed.

(** The name made for a tool is one every provider takes, so it is left alone when it is
    made safe again. *)
Lemma namespaced_tool_name_fits server tool :
  let name := namespaced_tool_name server tool in
  (1 ≤ String.length name ≤ MAX_TOOL_NAME)%nat ∧ all_bytes is_name_char name = true.
Proof.
  cbn zeta. unfold namespaced_tool_name.
  set (room := (_ - String.length TOOL_NAME_SEPARATOR)%nat).
  destruct (proj1 (is_safe_part_spec _ _) (safe_part_safe tool room (tool_room server))) as (_ & Hlt & Hat).
  destruct (proj1 (is_safe_part_spec _ _) (safe_part_safe server MAX_SERVER_PART ltac:(unfold MAX_SERVER_PART; lia)))
    as (_ & Hls & Has).
  rewrite !all_bytes_app, !str_length_app, Hat, Has. split; [|done].
  pose proof (tool_room server). unfold room, MAX_TOOL_NAME, MAX_SERVER_PART in *. cbn in *. lia.
Qed.

Lemma safe_namespaced_tool_name server tool :
  safe_tool_name (namespaced_tool_name server tool) = namespaced_tool_name server tool.
Proof.
  destruct (namespaced_tool_name_fits server tool) as [? Ha]. cbn zeta in *.
  unfold safe_tool_name, fits_tool_name. rewrite Ha. by rewrite !(proj2 (Nat.leb_le _ _)) by lia.
Qed.

Lemma safe_tool_name_idemp name : safe_tool_name (safe_tool_name name) = safe_tool_name name.
Proof.
  unfold safe_tool_name at 2 3. destruct (fits_tool_name name) eqn:E.
  - unfold safe_tool_name. by rewrite E.
  - destruct (parse_tool_name name) as [[server tool]|] eqn:Ep; [apply safe_namespaced_tool_name|].
    unfold safe_tool_name. by rewrite E, Ep.
Qed.

(** ** Theorems *)

(** Every MCP tool has a name a provider takes.  Whatever a server and its tools are
    called, the name is 1 to 128 characters of [[a-zA-Z0-9_-]] after [mcp__]; a part that
    is already safe is kept as it is; and a name made once is left alone when history is
    sent again. *)
Theorem tool_names_are_safe server tool :
  let name := namespaced_tool_name server tool in
  (1 ≤ String.length name ≤ MAX_TOOL_NAME)%nat
  ∧ all_bytes is_name_char name = true
  ∧ starts_with TOOL_NAME_PREFIX name = true
  ∧ safe_tool_name name = name
  ∧ (is_safe_part MAX_SERVER_PART server = true → is_safe_part 81 tool = true →
     name = "mcp__" +:+ server +:+ "__" +:+ tool).
Proof.
  cbn zeta. destruct (namespaced_tool_name_fits server tool) as [Hl Ha]. cbn zeta in *.
  set (name := namespaced_tool_name server tool) in *.
  conjs; [lia|lia|done|apply starts_with_app|apply safe_namespaced_tool_name|].
  - intros Hs Ht. unfold name, namespaced_tool_name. unfold safe_part at 1. rewrite Hs.
    f_equal. f_equal. f_equal. unfold safe_part at 1. replace (is_safe_part _ tool) with true; [done|]. symmetry.
    apply is_safe_part_spec in Ht as (Hne & Hlt & Hat). apply is_safe_part_spec. conjs; [done| |done].
    unfold safe_part. rewrite Hs. apply is_safe_part_spec in Hs as (_ & Hls & _).
    unfold MAX_TOOL_NAME, MAX_SERVER_PART in *. cbn. lia.
Qed.

(** A call finds its tool.  For a configured server whose safe name, with the
    separator, starts no other server's, and a tool no other listed one shares its safe
    name with, the name the model calls leads back to exactly that server and tool, even
    when another listed tool or server has a name that looks like part of it. *)
Theorem calls_find_their_tool configs listed server tool :
  server ∈ configs →
  (∀ c, c ∈ configs →
     (∃ w, safe_part c MAX_SERVER_PART +:+ TOOL_NAME_SEPARATOR
           = (safe_part server MAX_SERVER_PART +:+ TOOL_NAME_SEPARATOR) +:+ w) → c = server) →
  (∃ t, t ∈ listed ∧ mcp_name t = tool) →
  (∀ t, t ∈ listed → namespaced_tool_name server (mcp_name t) = namespaced_tool_name server tool → mcp_name t = tool) →
  ∃ part, server_for (namespaced_tool_name server tool) configs = Some (server, part)
    ∧ listed_tool_name listed server part = tool.
Proof.
  intros Hin Huniq (t0 & Ht0 & Hname) Hlisted.
  set (room := (MAX_TOOL_NAME - String.length TOOL_NAME_PREFIX - String.length (safe_part server MAX_SERVER_PART)
               - String.length TOOL_NAME_SEPARATOR)%nat).
  exists (safe_part tool room). split.
  - unfold server_for. unfold namespaced_tool_name at 1. rewrite strip_prefix_app. cbn [mbind option_bind]. fold room.
    set (rest := safe_part server MAX_SERVER_PART +:+ _). set (cands := omap (server_candidate rest) configs).
    assert ((server, safe_part tool room) ∈ cands) as Hmine.
    { apply list_elem_of_omap. exists server. split; [done|]. by apply server_candidate_spec. }
    destruct (max_by_key_some (λ p, String.length (safe_part (fst p) MAX_SERVER_PART)) cands None) as [[c part] Hr].
    { left. intros Hz. rewrite Hz in Hmine. by apply not_elem_of_nil in Hmine. }
    rewrite Hr. destruct (max_by_key_spec _ _ _ _ Hr) as ([Hc|] & Hmax & _); [|done].
    specialize (Hmax _ Hmine). cbn in Hmax.
    apply list_elem_of_omap in Hc as (c' & Hc' & [-> Hrest]%server_candidate_spec).
    assert (c' = server) as ->.
    { apply Huniq; [done|]. unfold rest in Hrest. rewrite <- !str_app_assoc in Hrest.
      apply (prefix_of_longer _ _ _ _ Hrest). rewrite !str_length_app. lia. }
    unfold rest in Hrest. rewrite <- !str_app_assoc in Hrest. by apply app_inj_head in Hrest as ->.
  - unfold listed_tool_name. pose proof (namespaced_idemp server tool) as Hid. cbn zeta in Hid. fold room in Hid.
    destruct (existsb _ listed) eqn:E.
    + apply existsb_exists in E as (t & Ht & Hb). apply bool_decide_eq_true_1 in Hb. rewrite <- Hb in Hid |- *.
      apply Hlisted; [by apply list_elem_of_In|done].
    + rewrite Hid. destruct (List.find _ _) as [t|] eqn:Ef.
      * apply find_some in Ef as [Ht Hb]. apply bool_decide_eq_true_1 in Hb.
        apply in_map_iff in Ht as (q & <- & Hq). apply Hlisted; [by apply list_elem_of_In|done].
      * exfalso. pose proof (find_none _ _ Ef tool) as Hnone. cbv beta in Hnone. rewrite bool_decide_eq_true_2 in Hnone by done.
        discriminate Hnone. apply in_map_iff. exists t0. split; [done|by apply list_elem_of_In].
Qed.

Section HttpClassCorrect.
Context {V : Type} `{Json V}.
Variable parse_method : string → option string.
Variable string_entries : V → list (string * string).

(** [http_request]'s class.  A call is never judged below the method it sends, nor
    below any method an override header names, and is no higher than the highest of those;
    a header of another name doesn't move it, whatever its case; and it is one of the
    classes the offer is judged by. *)
Theorem http_request_class_correct (input : V) :
  let literal := method_class (parse_method (requested_method input)) in
  let c := http_request_class parse_method string_entries input in
  class_le literal c = true
  ∧ (∀ name value, (name, value) ∈ requested_headers string_entries input → names_a_method_override name = true →
       class_le (method_class (parse_method value)) c = true)
  ∧ (c = literal ∨ ∃ name value, (name, value) ∈ requested_headers string_entries input
       ∧ names_a_method_override name = true ∧ c = method_class (parse_method value))
  ∧ c ∈ class_can_be (BY_HTTP_METHOD parse_method string_entries).
Proof.
  cbn zeta. unfold http_request_class.
  set (hs := List.filter _ (requested_headers string_entries input)).
  destruct (max_class_spec (map (λ h, method_class (parse_method (snd h))) hs)) as [Hn Hs].
  assert (∀ name value, (name, value) ∈ hs ↔
    (name, value) ∈ requested_headers string_entries input ∧ names_a_method_override name = true) as Hhs.
  { intros name value. unfold hs. rewrite !list_elem_of_In, filter_In. done. }
  set (lit := method_class (parse_method (requested_method input))).
  conjs.
  - destruct (max_class _) as [o|]; unfold class_max; [by destruct o, lit|by destruct lit].
  - intros name value Hin Hname. assert ((name, value) ∈ hs) as Hh by (by apply Hhs).
    assert (method_class (parse_method value) ∈ map (λ h, method_class (parse_method (snd h))) hs) as Hm.
    { apply list_elem_of_In, in_map_iff. exists (name, value). split; [done|]. by apply list_elem_of_In. }
    destruct (max_class _) as [o|].
    + destruct (Hs o eq_refl) as [_ Hle]. specialize (Hle _ Hm). revert Hle. unfold class_max.
      by destruct (method_class (parse_method value)), o, lit.
    + rewrite (proj1 Hn eq_refl) in Hm. by apply not_elem_of_nil in Hm.
  - destruct (max_class _) as [o|]; [|by left]. destruct (Hs o eq_refl) as [Hin _].
    unfold class_max. destruct (class_le o lit); [by left|right].
    apply list_elem_of_In, in_map_iff in Hin as ([name value] & Ho & Hh%list_elem_of_In).
    apply Hhs in Hh as [??]. by exists name, value.
  - cbn. match goal with |- ?x ∈ _ => destruct x end; set_solver.
Qed.
End HttpClassCorrect.

(** The class an MCP call is judged by.  It is the user's saved override when one reads
    as a class, the class the server's annotations give the listed tool with none, and
    destructive whenever nothing says otherwise; the three spellings read back as
    themselves and no other text is a class. *)
Theorem judged_class_correct tools name saved :
  (∀ c, judged_class (Some (class_as_str c)) (listed_class tools name) = c)
  ∧ (∀ text, (∀ c, text ≠ class_as_str c) → judged_class (Some text) (listed_class tools name) = Destructive)
  ∧ (judged_class None (listed_class tools name) = listed_class tools name)
  ∧ ((∀ t, t ∈ tools → mcp_name t ≠ name) → listed_class tools name = Destructive)
  ∧ (listed_class tools name = ReadOnly → ∃ t d, t ∈ tools ∧ mcp_name t = name ∧ annotations t = Some (Some true, d))
  ∧ (judged_class saved (listed_class tools name) ≠ Destructive →
     (∃ c, saved = Some (class_as_str c)) ∨ (∃ t, t ∈ tools ∧ mcp_name t = name ∧ annotations t ≠ None)).
Proof.
  assert (∀ text c, class_parse text = Some c → text = class_as_str c) as Hparse.
  { intros text c. unfold class_parse. repeat case_bool_decide; intros [= <-]; done. }
  assert (listed_class tools name ≠ Destructive → ∃ t, t ∈ tools ∧ mcp_name t = name ∧ annotations t ≠ None
          ∧ listed_class tools name = class_from_annotations (annotations t)) as Hlisted.
  { unfold listed_class. destruct (List.find _ tools) as [t|] eqn:E; [|done]. intros Hne.
    apply find_some in E as [Hin Hb]. apply bool_decide_eq_true_1 in Hb. exists t.
    conjs; [by apply list_elem_of_In|done| |done]. intros Hz. by rewrite Hz in Hne. }
  conjs.
  - by intros [].
  - intros text Hne. unfold judged_class. destruct (class_parse text) as [c|] eqn:E; [|done]. by apply Hparse, Hne in E.
  - done.
  - intros Hnone. destruct (decide (listed_class tools name = Destructive)) as [|Hne]; [done|].
    destruct (Hlisted Hne) as (t & Hin & Hn & _). by apply Hnone in Hin.
  - intros Hr. destruct Hlisted as (t & Hin & Hn & _ & Hc); [by rewrite Hr|]. rewrite Hr in Hc.
    destruct (annotations t) as [[[[]|] [[]|]]|] eqn:Ea; try done; eauto.
  - destruct saved as [text|]; cbn.
    + destruct (class_parse text) as [c|] eqn:E; [|done]. intros _. left. exists c. by f_equal; apply Hparse.
    + intros Hne. right. destruct (Hlisted Hne) as (t & ? & ? & ? & _). eauto.
Qed.

(** ** Witnesses *)

Lemma calls_find_their_tool_witness :
  ∃ part, server_for (namespaced_tool_name "linear.app" "search.web") ["linear"; "linear.app"]
          = Some ("linear.app", part)
    ∧ listed_tool_name [Build_McpTool "search web" None; Build_McpTool "search.web" None] "linear.app" part = "search.web".
Proof.
  apply calls_find_their_tool.
  - right. left.
  - intros c Hc [w Hw]. apply elem_of_cons in Hc as [->|Hc]; [vm_compute in Hw; discriminate Hw|].
    apply list_elem_of_singleton in Hc as ->. reflexivity.
  - exists (Build_McpTool "search.web" None). split; [right; left|reflexivity].
  - intros t Ht Hn. apply elem_of_cons in Ht as [->|Ht]; [vm_compute in Hn; discriminate Hn|].
    apply list_elem_of_singleton in Ht as ->. reflexivity.
Defined.
