(* ===== verification/ToolRules.v ===== *)
(** * ToolRules: a persona's tool rules

    [src/src/personas/rules.rs]: the grammar of [smelt.tools] ([check]), the patterns and
    what they match ([glob]), one entry's verdict ([allows]), the chain a conversation
    stores and what a child inherits. *)

From S2P Require Import Prelude RustStr Json ToolNames.
Local Open Scope string_scope.

Inductive Ceiling := CeilingAll | NoDestructive | CeilingReadOnly.

Definition ceiling_as_str (c : Ceiling) : string :=
  match c with CeilingAll => "all" | NoDestructive => "no-destructive" | CeilingReadOnly => "read-only" end.
Definition ceiling_allows (c : Ceiling) (class : ToolClass) : bool :=
  match c with
  | CeilingAll => true
  | NoDestructive => negb (bool_decide (class = Destructive))
  | CeilingReadOnly => bool_decide (class = ReadOnly)
  end.

Record Pattern := { pattern_server : option string; pattern_tool : string }.
#[export] Instance Pattern_eq_dec : EqDecision Pattern.
Proof. solve_decision. Defined.

(** [String::from(pattern)] and [Pattern::from(text)]. *)
Definition pattern_to_string (p : Pattern) : string :=
  match pattern_server p with
  | Some server => server +:+ "/" +:+ pattern_tool p
  | None => pattern_tool p
  end.
Definition pattern_from_string (text : string) : Pattern :=
  match split_once "/" text with
  | Some (server, tool) => Build_Pattern (Some server) tool
  | None => Build_Pattern None text
  end.

Inductive ToolRules := Build_ToolRules {
  rules_class : Ceiling;
  rules_allow : list Pattern;
  rules_deny : list Pattern;
  rules_own : option ToolRules;
}.

(** The YAML's shape, before its patterns are checked. *)
Record RawOwnRules := { own_class : Ceiling; own_allow : list string; own_deny : list string }.
Record RawToolRules := {
  raw_class : Ceiling;
  raw_allow : list string;
  raw_deny : list string;
  raw_own : option RawOwnRules;
}.

(** ** The grammar *)

Section Check.
(** A string as [{:?}] writes it. *)
Variable debug : string → string.

Definition parse_pattern (path block text : string) : Result Pattern string :=
  if bool_decide (text = "") then
    Err (path +:+ ": " +:+ block +:+ " has an empty pattern: name a smelt tool or a <server>/<tool> pair.")
  else
    match split_once "/" text with
    | Some (server, tool) =>
        if contains "/" server || contains "/" tool then
          Err (path +:+ ": " +:+ block +:+ " pattern " +:+ debug text +:+
               " has more than one /: it names a smelt tool, one server's tools, or one tool in one server.")
        else if contains "*" server then
          Err (path +:+ ": " +:+ block +:+ " pattern " +:+ debug text +:+
               " has a wildcard in its server part: a pattern's server is always named.")
        else if bool_decide (server = "") || bool_decide (tool = "") then
          Err (path +:+ ": " +:+ block +:+ " pattern " +:+ debug text +:+
               " has an empty part: name both the server and the tool, or neither.")
        else Ok (Build_Pattern (Some server) tool)
    | None => Ok (Build_Pattern None text)
    end.

Definition check_lists (path block : string) (class : Ceiling) (allow deny : list string) : Result ToolRules string :=
  let? allowed := collect_results (parse_pattern path block) allow in
  let? denied := collect_results (parse_pattern path block) deny in
  match List.find (λ text, existsb (λ a, bool_decide (a = text)) allow) deny with
  | Some dup =>
      Err (path +:+ ": " +:+ block +:+ " pattern " +:+ debug dup +:+ " is in both allow and deny: it belongs to one.")
  | None => Ok (Build_ToolRules class allowed denied None)
  end.

Definition check (path : string) (raw : RawToolRules) : Result ToolRules string :=
  let? own :=
    match raw_own raw with
    | Some own =>
        let? rules := check_lists path "smelt.tools.own" (own_class own) (own_allow own) (own_deny own) in
        Ok (Some rules)
    | None => Ok None
    end in
  let? rules := check_lists path "smelt.tools" (raw_class raw) (raw_allow raw) (raw_deny raw) in
  Ok (Build_ToolRules (rules_class rules) (rules_allow rules) (rules_deny rules) own).
End Check.

(** ** Matching *)

Inductive ToolRef := Native (name : string) | Mcp (server tool : string).

Definition tool_ref_name (t : ToolRef) : string :=
  match t with Native name => name | Mcp server tool => namespaced_tool_name server tool end.

(** [glob], by fuel: each call is on the pattern after its first [*]. *)
Fixpoint glob_fuel (fuel : nat) (pattern text : string) : bool :=
  match fuel with
  | O => false
  | S fuel =>
      match split_once "*" pattern with
      | None => bool_decide (pattern = text)
      | Some (head, tail) =>
          match strip_prefix head text with
          | None => false
          | Some rest =>
              existsb (λ cut, is_char_boundary rest cut && negb (contains "/" (str_take cut rest))
                              && glob_fuel fuel tail (str_drop cut rest))
                (seq 0 (S (String.length rest)))
          end
      end
  end.
Definition glob (pattern text : string) : bool := glob_fuel (S (String.length pattern)) pattern text.

Definition pattern_level (p : Pattern) : nat :=
  if negb (bool_decide (pattern_server p = None)) && bool_decide (pattern_tool p = "*") then 3
  else if contains "*" (pattern_tool p) then 2
  else 1.

Definition pattern_matches (p : Pattern) (tool : ToolRef) : bool :=
  match tool, pattern_server p with
  | Native name, None => glob (pattern_tool p) name
  | Mcp server t, Some pattern_server => bool_decide (pattern_server = server) && glob (pattern_tool p) t
  | _, _ => false
  end.

(** ** Verdicts *)

(** The best match so far: its level, the pattern, and whether it denies. *)
Definition best_of (denies : bool) (tool : ToolRef) (best : option (nat * Pattern * bool)) (p : Pattern)
    : option (nat * Pattern * bool) :=
  if pattern_matches p tool then
    let better :=
      match best with
      | None => true
      | Some (best_level, _, best_denies) =>
          (pattern_level p <? best_level)%nat
          || ((pattern_level p =? best_level)%nat && denies && negb best_denies)
      end in
    if better then Some (pattern_level p, p, denies) else best
  else best.

Definition allows (rules : ToolRules) (tool : ToolRef) (class : ToolClass) : Result () string :=
  let best := fold_left (best_of false tool) (rules_allow rules) None in
  let best := fold_left (best_of true tool) (rules_deny rules) best in
  match best with
  | Some (_, pattern, true) =>
      Err (tool_ref_name tool +:+ " is denied by this conversation's tool rules (deny pattern `"
           +:+ pattern_to_string pattern +:+ "`)")
  | Some (_, _, false) => Ok tt
  | None =>
      if ceiling_allows (rules_class rules) class then Ok tt
      else Err (tool_ref_name tool +:+ " is denied by this conversation's tool rules (class ceiling "
                +:+ ceiling_as_str (rules_class rules) +:+ " doesn't allow a " +:+ class_as_str class +:+ " tool)")
  end.

Definition RuleChain := list ToolRules.

Fixpoint allows_at (chain : RuleChain) (tool : ToolRef) (class : ToolClass) : Result () string :=
  match chain with
  | [] => Ok tt
  | entry :: chain =>
      let? _ := allows entry tool class in
      let? _ :=
        match rules_own entry with
        | Some own =>
            map_err (λ why, why +:+ ", which binds this conversation and not its agents") (allows own tool class)
        | None => Ok tt
        end in
      allows_at chain tool class
  end.

Definition allows_any (chain : RuleChain) (tool : ToolRef) (classes : list ToolClass) : bool :=
  existsb (λ class, is_ok (allows_at chain tool class)) classes.

(** ** Reports *)

Definition names_no_server (server_names : list string) (p : Pattern) : bool :=
  match pattern_server p with
  | None => false
  | Some server => negb (existsb (λ name, bool_decide (name = server)) server_names)
  end.
Definition unmatched_servers (rules : ToolRules) (server_names : list string) : list string :=
  let own := match rules_own rules with Some own => (rules_allow own ++ rules_deny own)%list | None => [] end in
  map pattern_to_string
    (List.filter (names_no_server server_names) (rules_allow rules ++ rules_deny rules ++ own)%list).

Definition unmatched_note (patterns : list string) : option string :=
  match patterns with
  | [] => None
  | [p] => Some ("smelt.tools pattern `" +:+ p +:+
             "` names no configured server, so it rules nothing (a renamed server leaves this behind)")
  | _ => Some ("smelt.tools patterns " +:+ join ", " (map (λ p, "`" +:+ p +:+ "`") patterns) +:+
             " name no configured server, so they rule nothing (a renamed server leaves this behind)")
  end.

(** ** The stored chain *)

Section Stored.
Context {V : Type} `{Json V}.
(** [serde_json]: an array's entries; an object's entry removed (any other value is left as
    it is); [Vec<ToolRules>]'s derived reader, entry by entry. *)
Variable as_array : V → option (list V).
Variable remove_key : string → V → V.
Variable read_rules : V → Result ToolRules string.

Definition try_from_stored (stored : option V) : Result RuleChain string :=
  match stored with
  | None => Ok []
  | Some v =>
      match as_array v with
      | Some entries => map_err (λ e, "the stored rules won't read: " +:+ e) (collect_results read_rules entries)
      | None => Err "the stored rules won't read: not an array"
      end
  end.
Definition from_stored (stored : option V) : RuleChain :=
  match try_from_stored stored with Ok chain => chain | Err _ => [] end.

Definition for_child (parent : option V) : option V :=
  (λ chain, match as_array chain with
            | Some entries => json_array (map (remove_key "own") entries)
            | None => chain
            end) <$> parent.
End Stored.

(** An entry without its [own]. *)
Definition without_own (r : ToolRules) : ToolRules :=
  Build_ToolRules (rules_class r) (rules_allow r) (rules_deny r) None.

(** ** What a pattern matches *)

(** The reference: a pattern is matched byte by byte, but for a [*], which takes any run of
    whole characters with no slash in it. *)
Inductive glob_match : string → string → Prop :=
  | glob_end : glob_match "" ""
  | glob_same a p t : Ascii.eqb "*" a = false → glob_match p t → glob_match (String a p) (String a t)
  | glob_star run p t :
      contains "/" run = false → run = "" ∨ starts_char t = true → glob_match p t →
      glob_match (String "*" p) (run +:+ t).

Lemma glob_match_literal head p t :
  contains "*" head = false →
  glob_match (head +:+ p) t ↔ ∃ rest, t = head +:+ rest ∧ glob_match p rest.
Proof.
  revert t. induction head as [|a head IH]; intros t Hh.
  - rewrite str_app_nil_l. split; [by exists t|]. by intros (? & -> & ?).
  - rewrite contains_char_cons in Hh. apply orb_false_iff in Hh as [Ha Hh].
    rewrite str_app_cons. split.
    + intros Hm. inversion Hm; subst; [|done].
      destruct (proj1 (IH t0 Hh)) as (rest & -> & ?); [done|]. by exists rest.
    + intros (rest & -> & Hr). rewrite str_app_cons. apply glob_same; [done|].
      apply IH; [done|]. by exists rest.
Qed.

Lemma glob_match_empty t : glob_match "" t ↔ t = "".
Proof. split; [by inversion 1|]. intros ->. constructor. Qed.

Lemma glob_match_star p t :
  glob_match (String "*" p) t ↔
  ∃ run rest, t = run +:+ rest ∧ contains "/" run = false ∧ (run = "" ∨ starts_char rest = true) ∧ glob_match p rest.
Proof.
  split.
  - inversion 1; subst; [done|]. eauto 10.
  - intros (run & rest & -> & ? & ? & ?). by apply glob_star.
Qed.

Lemma is_char_boundary_cut cut s :
  (cut ≤ String.length s)%nat →
  is_char_boundary s cut = true ↔ str_take cut s = "" ∨ starts_char (str_drop cut s) = true.
Proof.
  intros Hc. unfold is_char_boundary. apply Nat.leb_le in Hc as Hl. rewrite Hl.
  destruct cut as [|cut]; [cbn; naive_solver|]. destruct s as [|a s]; [cbn in Hc; lia|].
  cbn. naive_solver.
Qed.

Lemma glob_fuel_correct fuel p t :
  (String.length p < fuel)%nat → glob_fuel fuel p t = true ↔ glob_match p t.
Proof.
  revert p t. induction fuel as [|fuel IH]; intros p t Hf; [lia|]. cbn [glob_fuel].
  destruct (split_once "*" p) as [[head tail]|] eqn:E.
  - apply split_once_char_Some in E as [-> Hh]. rewrite glob_match_literal by done.
    assert (Hl : (String.length tail < fuel)%nat) by (rewrite str_length_app in Hf; cbn in Hf; lia).
    destruct (strip_prefix head t) as [rest|] eqn:Et.
    + apply strip_prefix_Some in Et as ->. rewrite existsb_exists. split.
      * intros (cut & Hin%in_seq & Hb). apply andb_true_iff in Hb as [[Hb Hs]%andb_true_iff Hg].
        exists rest. split; [done|]. apply glob_match_star.
        exists (str_take cut rest), (str_drop cut rest).
        rewrite str_take_drop. apply negb_true_iff in Hs. rewrite is_char_boundary_cut in Hb by lia.
        conjs; [done|done|done|by apply IH].
      * intros (rest' & ->%str_app_inv_l & (run & after & -> & Hs & Hb & Hg)%glob_match_star).
        exists (String.length run). rewrite in_seq, str_length_app. split; [lia|].
        rewrite str_take_app, str_drop_app, Hs, (proj2 (IH _ after Hl)) by done.
        assert (is_char_boundary (run +:+ after) (String.length run) = true) as ->; [|done].
        apply is_char_boundary_cut; [rewrite str_length_app; lia|].
        by rewrite str_take_app, str_drop_app.
    + split; [done|]. intros (rest & -> & _). by rewrite strip_prefix_app in Et.
  - apply split_once_None in E. pose proof (glob_match_literal p "" t E) as Hp.
    rewrite str_app_nil_r in Hp. rewrite Hp.
    rewrite bool_decide_eq_true. split.
    + intros <-. exists "". rewrite str_app_nil_r. split; [done|constructor].
    + intros (? & -> & ->%glob_match_empty). by rewrite str_app_nil_r.
Qed.

(** A pattern's [*] matches any run of whole characters with no slash in it, and everything
    else matches itself: [glob] decides the relation that says so, on every pattern and text. *)
Theorem glob_correct (pattern text : string) : glob pattern text = true ↔ glob_match pattern text.
Proof. apply glob_fuel_correct. lia. Qed.

(** ** Verdicts *)

(** Every pattern of the list that matches the tool has the property. *)
Definition matching (tool : ToolRef) (l : list Pattern) (P : Pattern → Prop) : Prop :=
  ∀ q, q ∈ l → pattern_matches q tool = true → P q.

Lemma matching_nil tool P : matching tool [] P.
Proof. by intros q ?%not_elem_of_nil. Qed.
Lemma matching_snoc tool l p (P : Pattern → Prop) :
  matching tool l P → (pattern_matches p tool = true → P p) → matching tool (l ++ [p])%list P.
Proof. intros Hl Hp q [Hq| ->%list_elem_of_singleton]%elem_of_app; auto. Qed.
Lemma matching_impl tool l (P Q : Pattern → Prop) :
  (∀ q, P q → Q q) → matching tool l P → matching tool l Q.
Proof. intros H Hl q Hq Hm. auto. Qed.

(** What the fold over the patterns keeps: nothing while none matched; else a matching pattern
    of the lowest level, a deny exactly when some deny has it. *)
Definition best_spec (tool : ToolRef) (allow deny : list Pattern) (best : option (nat * Pattern * bool)) : Prop :=
  match best with
  | None => matching tool allow (λ _, False) ∧ matching tool deny (λ _, False)
  | Some (level, p, denies) =>
      level = pattern_level p ∧ pattern_matches p tool = true
      ∧ p ∈ (if denies then deny else allow : list Pattern)
      ∧ matching tool allow (λ q, level ≤ pattern_level q)%nat
      ∧ matching tool deny (λ q, if denies then level ≤ pattern_level q else level < pattern_level q)%nat
  end.

Lemma best_of_skips (denies : bool) tool (allow deny : list Pattern) best p :
  pattern_matches p tool = false → best_spec tool allow deny best →
  best_spec tool (if denies then allow else (allow ++ [p])%list) (if denies then (deny ++ [p])%list else deny)
    (best_of denies tool best p).
Proof.
  intros Hp. unfold best_of. rewrite Hp.
  destruct best as [[[level q] bd]|]; cbn.
  - intros (-> & Hq & Hin & Ha & Hd). conjs; [done|done| | |].
    + destruct denies, bd; try done; apply elem_of_app; by left.
    + destruct denies; [done|]. apply matching_snoc; [done|congruence].
    + destruct denies; [|done]. apply matching_snoc; [done|congruence].
  - intros [Ha Hd]. destruct denies; split; try done; apply matching_snoc; done || congruence.
Qed.

Lemma elem_of_snoc {A} (l : list A) x : x ∈ (l ++ [x])%list.
Proof. apply elem_of_app. right. by apply list_elem_of_singleton. Qed.

Lemma best_of_allow tool allow best p :
  best_spec tool allow [] best → best_spec tool (allow ++ [p])%list [] (best_of false tool best p).
Proof.
  destruct (pattern_matches p tool) eqn:Hp; [|by apply (best_of_skips false)].
  unfold best_of. rewrite Hp. destruct best as [[[level q] denies]|].
  - intros (-> & Hq & Hin & Ha & Hd). destruct denies; [by apply not_elem_of_nil in Hin|].
    rewrite andb_false_r, orb_false_r.
    destruct (Nat.ltb_spec (pattern_level p) (pattern_level q)); cbn [best_spec].
    + conjs; [done|done|apply elem_of_snoc| |apply matching_nil].
      apply matching_snoc; [|done]. eapply matching_impl; [|exact Ha]. cbn. lia.
    + conjs; [done|done|apply elem_of_app; by left| |apply matching_nil]. by apply matching_snoc.
  - intros [Hn _]. cbn [best_spec]. conjs; [done|done|apply elem_of_snoc| |apply matching_nil].
    apply matching_snoc; [|done]. eapply matching_impl; [|exact Hn]; done.
Qed.

Lemma best_of_deny tool allow deny best p :
  best_spec tool allow deny best → best_spec tool allow (deny ++ [p])%list (best_of true tool best p).
Proof.
  destruct (pattern_matches p tool) eqn:Hp; [|by apply (best_of_skips true)].
  unfold best_of. rewrite Hp. destruct best as [[[level q] denies]|].
  - intros (-> & Hq & Hin & Ha & Hd).
    destruct (Nat.ltb_spec (pattern_level p) (pattern_level q)) as [Hl|Hl]; cbn [orb best_spec].
    { conjs; [done|done|apply elem_of_snoc|eapply matching_impl, Ha; cbn; lia|].
      apply matching_snoc; [|done]. eapply matching_impl, Hd. cbn. intros r. case_match; lia. }
    destruct denies; cbn [negb andb].
    { rewrite andb_false_r. cbn [best_spec]. conjs; [done|done|apply elem_of_app; by left|done|].
      by apply matching_snoc. }
    rewrite andb_true_r. destruct (Nat.eqb_spec (pattern_level p) (pattern_level q)) as [He|He]; cbn [andb best_spec].
    + conjs; [done|done|apply elem_of_snoc|eapply matching_impl, Ha; cbn; lia|].
      apply matching_snoc; [|done]. eapply matching_impl, Hd. cbn. lia.
    + conjs; [done|done|done|done|]. apply matching_snoc; [done|]. lia.
  - intros [Hn Hd]. cbn [best_spec]. conjs; [done|done|apply elem_of_snoc|eapply matching_impl; [|exact Hn]; done|].
    apply matching_snoc; [|done]. eapply matching_impl; [|exact Hd]; done.
Qed.

Lemma best_allow_spec tool l : best_spec tool l [] (fold_left (best_of false tool) l None).
Proof.
  induction l as [|p l IH] using rev_ind; [by split; apply matching_nil|].
  rewrite fold_left_app. by apply best_of_allow.
Qed.
Lemma best_deny_spec tool allow l best :
  best_spec tool allow [] best → best_spec tool allow l (fold_left (best_of true tool) l best).
Proof.
  intros Hb. induction l as [|p l IH] using rev_ind; [done|].
  rewrite fold_left_app. by apply best_of_deny.
Qed.

(** One entry's verdict: the tool is allowed exactly when nothing matches it and its class
    is under the ceiling, or when an allow pattern matches that is strictly more specific than
    every deny that does; a refusal quotes a most specific deny, or the ceiling when nothing
    matched. *)
Theorem allows_correct (rules : ToolRules) (tool : ToolRef) (class : ToolClass) :
  let unmatched := matching tool (rules_allow rules) (λ _, False) ∧ matching tool (rules_deny rules) (λ _, False) in
  (allows rules tool class = Ok tt ↔
     (unmatched ∧ ceiling_allows (rules_class rules) class = true)
     ∨ ∃ p, p ∈ rules_allow rules ∧ pattern_matches p tool = true
         ∧ matching tool (rules_deny rules) (λ d, pattern_level p < pattern_level d)%nat)
  ∧ (∀ why, allows rules tool class = Err why →
      (unmatched ∧ ceiling_allows (rules_class rules) class = false
       ∧ why = tool_ref_name tool +:+ " is denied by this conversation's tool rules (class ceiling "
               +:+ ceiling_as_str (rules_class rules) +:+ " doesn't allow a " +:+ class_as_str class +:+ " tool)")
      ∨ ∃ d, d ∈ rules_deny rules ∧ pattern_matches d tool = true
          ∧ matching tool (rules_allow rules ++ rules_deny rules)%list (λ q, pattern_level d ≤ pattern_level q)%nat
          ∧ why = tool_ref_name tool +:+ " is denied by this conversation's tool rules (deny pattern `"
                  +:+ pattern_to_string d +:+ "`)").
Proof.
  cbv zeta. unfold allows.
  pose proof (best_deny_spec tool _ (rules_deny rules) _ (best_allow_spec tool (rules_allow rules))) as Hb.
  destruct (fold_left _ _ _) as [[[level p] [|]]|]; cbn in Hb.
  - destruct Hb as (-> & Hp & Hin & Ha & Hd). split; [split; [done|]|].
    + intros [[[_ Hn] _]|(q & Hq & Hqm & Hl)].
      * by destruct (Hn p Hin Hp).
      * specialize (Ha q Hq Hqm). specialize (Hl p Hin Hp). cbn in *. lia.
    + intros why [= <-]. right. exists p. conjs; [done|done| |done].
      intros q [Hq|Hq]%elem_of_app Hm; auto.
  - destruct Hb as (-> & Hp & Hin & Ha & Hd). split; [split; [|done]|done]. intros _. right. by exists p.
  - destruct Hb as [Ha Hd]. destruct (ceiling_allows _ _) eqn:Hc; split; try done.
    + split; [|done]. intros _. by left.
    + split; [done|]. intros [[_ ?]|(q & Hq & Hqm & _)]; [done|]. by destruct (Ha q Hq Hqm).
    + intros why [= <-]. by left.
Qed.

(** ** The grammar's check *)

Definition has_byte (c : ascii) (s : string) : Prop := contains (String c "") s = true.

(** What a pattern's text may be: a smelt tool, or one server's tool or tools. *)
Definition pattern_ok (text : string) : Prop :=
  (text ≠ "" ∧ ¬ has_byte "/" text)
  ∨ ∃ server tool, text = server +:+ "/" +:+ tool ∧ server ≠ "" ∧ tool ≠ ""
      ∧ ¬ has_byte "/" server ∧ ¬ has_byte "*" server ∧ ¬ has_byte "/" tool.

Definition lists_ok (allow deny : list string) : Prop :=
  Forall pattern_ok allow ∧ Forall pattern_ok deny ∧ ∀ text, text ∈ allow → text ∈ deny → False.

Lemma pattern_from_to text : pattern_to_string (pattern_from_string text) = text.
Proof.
  unfold pattern_from_string. destruct (split_once _ _) as [[server tool]|] eqn:E; [|done].
  by apply split_once_Some in E.
Qed.

Lemma not_has_byte c s : ¬ has_byte c s ↔ contains (String c "") s = false.
Proof. unfold has_byte. by destruct (contains _ s). Qed.

Section CheckFacts.
Variable debug : string → string.

Lemma parse_pattern_Ok path block text p :
  parse_pattern debug path block text = Ok p ↔ pattern_ok text ∧ p = pattern_from_string text.
Proof.
  unfold parse_pattern, pattern_from_string, pattern_ok. setoid_rewrite not_has_byte.
  case_bool_decide as Ht; [subst; split; [done|]|].
  { intros [[[? _]|(s & t & Ht & Hs & _)] _]; [done|]. by destruct s. }
  destruct (split_once _ _) as [[server tool]|] eqn:E.
  - apply split_once_char_Some in E as [-> Hs]. rewrite Hs. cbn [orb].
    assert (Hc : contains "/" (server +:+ String "/" tool) = true)
      by (rewrite contains_char_app; by destruct (contains _ server)).
    rewrite Hc.
    assert (Hsplit : ∀ s t, server +:+ String "/" tool = s +:+ String "/" t → contains "/" s = false → s = server ∧ t = tool).
    { intros s t Heq Hn. pose proof (split_once_char_app "/" server tool Hs) as H1. rewrite Heq in H1.
      rewrite (split_once_char_app "/" s t Hn) in H1. by simplify_eq. }
    destruct (contains "/" tool) eqn:Htl; [|destruct (contains "*" server) eqn:Hst;
      [|destruct (bool_decide (server = "")) eqn:H1; [|destruct (bool_decide (tool = "")) eqn:H2]]]; cbn [orb];
      bool_to_prop; (split; [intros [=]; subst|]);
      try (intros [[[_ ?]|(s & t & Heq & ? & ? & Hns & ? & ?)] Hp];
        [done|destruct (Hsplit _ _ Heq Hns) as [-> ->]; congruence]).
    split; [right; by exists server, tool|done].
  - apply split_once_None in E. rewrite E. split; [intros [= <-]; split; [by left|done]|by intros [_ ->]].
Qed.

Lemma parse_pattern_Err path block text e :
  parse_pattern debug path block text = Err e → ∃ rest, e = path +:+ ": " +:+ block +:+ rest.
Proof.
  unfold parse_pattern. repeat case_match; intros [= <-]; eexists; rewrite ?str_app_assoc; done.
Qed.

Lemma parse_patterns_Ok path block l ps :
  collect_results (parse_pattern debug path block) l = Ok ps ↔ Forall pattern_ok l ∧ ps = map pattern_from_string l.
Proof.
  rewrite collect_results_Ok. revert ps. induction l as [|text l IH]; intros ps; cbn.
  - split; [by inversion 1|]. by intros [_ ->].
  - split.
    + inversion 1 as [|? p ? ps' [Hp ->]%parse_pattern_Ok Hps]; subst. apply IH in Hps as [? ->]. auto.
    + intros [Hf ->]. inversion Hf; subst. constructor; [by apply parse_pattern_Ok|by apply IH].
Qed.

Lemma find_dup_None (allow deny : list string) :
  List.find (λ text, existsb (λ a, bool_decide (a = text)) allow) deny = None
  ↔ ∀ text, text ∈ allow → text ∈ deny → False.
Proof.
  split.
  - intros Hf text Ha Hd. apply list_elem_of_In in Hd. pose proof (find_none _ _ Hf _ Hd) as Hn. cbn in Hn.
    apply not_true_iff_false in Hn. apply Hn, existsb_exists. exists text.
    split; [by apply list_elem_of_In|by apply bool_decide_eq_true].
  - intros Hn. destruct (List.find _ _) as [text|] eqn:Hf; [|done].
    apply find_some in Hf as [Hd (a & Ha & ->%bool_decide_eq_true)%existsb_exists].
    by destruct (Hn text); apply list_elem_of_In.
Qed.

Lemma check_lists_Ok path block class allow deny rules :
  check_lists debug path block class allow deny = Ok rules ↔
  lists_ok allow deny
  ∧ rules = Build_ToolRules class (map pattern_from_string allow) (map pattern_from_string deny) None.
Proof.
  unfold check_lists, lists_ok. rewrite <-find_dup_None.
  destruct (collect_results _ allow) as [ps|e] eqn:Ha; cbn [and_then].
  - apply parse_patterns_Ok in Ha as [Ha ->]. destruct (collect_results _ deny) as [qs|e] eqn:Hd; cbn [and_then].
    + apply parse_patterns_Ok in Hd as [Hd ->]. destruct (List.find _ _); naive_solver.
    + split; [done|]. intros [(_ & Hf & _) ->].
      pose proof (proj2 (parse_patterns_Ok path block deny _) (conj Hf eq_refl)). congruence.
  - split; [done|]. intros [(Hf & _) ->].
    pose proof (proj2 (parse_patterns_Ok path block allow _) (conj Hf eq_refl)). congruence.
Qed.

Lemma check_lists_Err path block class allow deny e :
  check_lists debug path block class allow deny = Err e → ∃ rest, e = path +:+ ": " +:+ block +:+ rest.
Proof.
  unfold check_lists. destruct (collect_results _ allow) as [ps|e'] eqn:Ha; cbn [and_then].
  - destruct (collect_results _ deny) as [qs|e'] eqn:Hd; cbn [and_then].
    + destruct (List.find _ _); [|done]. intros [= <-]. eexists. by rewrite ?str_app_assoc.
    + intros [= <-]. apply collect_results_Err in Hd as (t & _ & Ht). by eapply parse_pattern_Err.
  - intros [= <-]. apply collect_results_Err in Ha as (t & _ & Ht). by eapply parse_pattern_Err.
Qed.

(** The rules a well-formed block makes. *)
Definition lists_rules (class : Ceiling) (allow deny : list string) : ToolRules :=
  Build_ToolRules class (map pattern_from_string allow) (map pattern_from_string deny) None.

Lemma check_Ok path raw rules :
  check debug path raw = Ok rules ↔
  lists_ok (raw_allow raw) (raw_deny raw)
  ∧ match raw_own raw with Some own => lists_ok (own_allow own) (own_deny own) | None => True end
  ∧ rules = Build_ToolRules (raw_class raw) (map pattern_from_string (raw_allow raw))
              (map pattern_from_string (raw_deny raw))
              ((λ own, lists_rules (own_class own) (own_allow own) (own_deny own)) <$> raw_own raw).
Proof.
  unfold check. destruct raw as [class allow deny own]; cbn [raw_class raw_allow raw_deny raw_own].
  assert (Hl : ∀ r, check_lists debug path "smelt.tools" class allow deny = Ok r ↔
                     lists_ok allow deny ∧ r = lists_rules class allow deny)
    by (intros; apply check_lists_Ok).
  destruct own as [own|]; cbn [and_then fmap option_fmap option_map].
  - destruct (check_lists debug path "smelt.tools.own" _ _ _) as [r|e] eqn:Ho; cbn [and_then].
    + apply check_lists_Ok in Ho as [Ho ->].
      destruct (check_lists _ _ _ _ _ _) as [r|e]; cbn [and_then].
      * destruct (proj1 (Hl r) eq_refl) as [? ->]. naive_solver.
      * split; [done|]. intros (Hok & _ & _). pose proof (proj2 (Hl _) (conj Hok eq_refl)). congruence.
    + split; [done|]. intros (_ & Hok & _).
      pose proof (proj2 (check_lists_Ok path "smelt.tools.own" (own_class own) _ _ _) (conj Hok eq_refl)). congruence.
  - destruct (check_lists _ _ _ _ _ _) as [r|e]; cbn [and_then].
    + destruct (proj1 (Hl r) eq_refl) as [? ->]. naive_solver.
    + split; [done|]. intros (Hok & _ & _). pose proof (proj2 (Hl _) (conj Hok eq_refl)). congruence.
Qed.

Lemma check_Err path raw e :
  check debug path raw = Err e → ∃ rest, e = path +:+ ": smelt.tools" +:+ rest.
Proof.
  assert (Hown : ∀ rest, ": " +:+ "smelt.tools.own" +:+ rest = ": smelt.tools" +:+ (".own" +:+ rest)) by done.
  unfold check. destruct (raw_own raw) as [own|]; cbn [and_then].
  - destruct (check_lists debug path "smelt.tools.own" _ _ _) as [r|e'] eqn:Ho; cbn [and_then].
    + destruct (check_lists _ _ "smelt.tools" _ _ _) as [r'|e'] eqn:Hl; cbn [and_then]; [done|]. intros [= <-].
      apply check_lists_Err in Hl as [rest ->]. by exists rest.
    + intros [= <-]. apply check_lists_Err in Ho as [rest ->]. exists (".own" +:+ rest). by rewrite Hown.
  - destruct (check_lists _ _ _ _ _ _) as [r'|e'] eqn:Hl; cbn [and_then]; [done|]. intros [= <-].
    apply check_lists_Err in Hl as [rest ->]. by exists rest.
Qed.

(** [check] accepts a [smelt.tools] block exactly when it and its [own] are well formed
    (each pattern a tool name or one named server's, no text in both lists); what it makes
    writes back as the text it read and keeps the class, the patterns it stores read back the
    same, and an error starts with the persona's path and the block it is about. *)
Theorem check_correct (path : string) (raw : RawToolRules) :
  let well_formed :=
    lists_ok (raw_allow raw) (raw_deny raw)
    ∧ match raw_own raw with Some own => lists_ok (own_allow own) (own_deny own) | None => True end in
  (is_ok (check debug path raw) = true ↔ well_formed)
  ∧ (∀ rules, check debug path raw = Ok rules →
       rules_class rules = raw_class raw
       ∧ map pattern_to_string (rules_allow rules) = raw_allow raw
       ∧ map pattern_to_string (rules_deny rules) = raw_deny raw
       ∧ Forall (λ p, pattern_from_string (pattern_to_string p) = p) (rules_allow rules ++ rules_deny rules)%list
       ∧ match rules_own rules, raw_own raw with
         | Some own, Some raw_own =>
             rules_class own = own_class raw_own ∧ rules_own own = None
             ∧ map pattern_to_string (rules_allow own) = own_allow raw_own
             ∧ map pattern_to_string (rules_deny own) = own_deny raw_own
         | None, None => True
         | _, _ => False
         end)
  ∧ (∀ e, check debug path raw = Err e → ∃ rest, e = path +:+ ": smelt.tools" +:+ rest).
Proof.
  assert (Hmap : ∀ l, map pattern_to_string (map pattern_from_string l) = l)
    by (intros l; rewrite map_map; erewrite map_ext; [apply map_id|apply pattern_from_to]).
  assert (Hback : ∀ l, Forall (λ p, pattern_from_string (pattern_to_string p) = p) (map pattern_from_string l))
    by (intros l; apply Forall_forall; intros ? (t & -> & _)%list_elem_of_fmap; by rewrite pattern_from_to).
  cbv zeta. conjs.
  - rewrite is_ok_true. setoid_rewrite check_Ok. split; [by intros (rules & ? & ? & _)|]. intros [? ?]. by eexists.
  - intros rules (_ & _ & ->)%check_Ok. cbn. rewrite !Hmap, Forall_app.
    conjs; try done. destruct (raw_own raw) as [own|]; [|done]. cbn. by rewrite !Hmap.
  - apply check_Err.
Qed.
End CheckFacts.

(** ** Chains *)

Lemma allows_at_Ok chain tool class :
  allows_at chain tool class = Ok tt ↔
  ∀ entry, entry ∈ chain →
    allows entry tool class = Ok tt
    ∧ ∀ own, rules_own entry = Some own → allows own tool class = Ok tt.
Proof.
  induction chain as [|entry chain IH]; cbn [allows_at].
  - split; [by intros _ entry ?%not_elem_of_nil|done].
  - setoid_rewrite elem_of_cons. destruct (allows entry tool class) as [[]|e] eqn:He; cbn [and_then].
    + destruct (rules_own entry) as [own|] eqn:Ho.
      * destruct (allows own tool class) as [[]|e] eqn:Hw; cbn [map_err and_then].
        -- rewrite IH. split; [|by intros H e Hin; apply H; right]. intros H e [->|Hin]; [|auto]. split; [done|]. congruence.
        -- split; [done|]. intros H. destruct (H entry) as [_ Hown]; [by left|]. rewrite (Hown own) in Hw; done.
      * rewrite IH. split; [|by intros H e Hin; apply H; right]. intros H e [->|Hin]; [|auto]. split; [done|]. congruence.
    + split; [done|]. intros H. destruct (H entry) as [Ha _]; [by left|]. congruence.
Qed.

Section ChainFacts.
Context {V : Type} `{Json V}.
Variable as_array : V → option (list V).
Variable remove_key : string → V → V.
Variable read_rules : V → Result ToolRules string.
Hypothesis as_array_array : ∀ l, as_array (json_array l) = Some l.
(** The derived reader takes a missing [own] for [None], and reads the other fields alone. *)
Hypothesis read_rules_remove_own : ∀ v r,
  read_rules v = Ok r → read_rules (remove_key "own" v) = Ok (without_own r).

Lemma read_without_own entries chain :
  collect_results read_rules entries = Ok chain →
  collect_results read_rules (map (remove_key "own") entries) = Ok (map without_own chain).
Proof.
  rewrite !collect_results_Ok. intros Hf. induction Hf as [|v r entries chain Hv Hf IH]; constructor; auto.
Qed.

(** What a child starts with: a stored chain that reads, copied by [for_child], reads as its
    entries without their [own]; followed by the child's own entry it allows exactly what every
    entry of the parent's chain and the child's own entry with its [own] allow. So a longer
    chain only narrows, an [own] only narrows, and the parent's [own]s do not bind the child. *)
Theorem child_inherits (stored : option V) (chain : RuleChain) (entry : ToolRules) (tool : ToolRef) (class : ToolClass) :
  try_from_stored as_array read_rules stored = Ok chain →
  try_from_stored as_array read_rules (for_child as_array remove_key stored) = Ok (map without_own chain)
  ∧ (allows_at (map without_own chain ++ [entry])%list tool class = Ok tt ↔
       (∀ e, e ∈ chain → allows e tool class = Ok tt) ∧ allows_at [entry] tool class = Ok tt)
  ∧ (allows_at chain tool class = Ok tt → allows_at (map without_own chain) tool class = Ok tt).
Proof.
  intros Hs. conjs.
  - destruct stored as [v|]; cbn in *; [|by simplify_eq].
    destruct (as_array v) as [entries|]; [|done].
    rewrite as_array_array. destruct (collect_results read_rules entries) as [c|] eqn:Hc; [|done].
    cbn in Hs. simplify_eq. by rewrite (read_without_own _ _ Hc).
  - rewrite !allows_at_Ok. split.
    + intros Hall. split.
      * intros e He. destruct (Hall (without_own e)) as [? _]; [|done].
        apply elem_of_app. left. by apply list_elem_of_fmap_2.
      * intros e He. apply Hall, elem_of_app. by right.
    + intros [Hc He] e [(e' & -> & Hin)%list_elem_of_fmap|Hin]%elem_of_app; [|auto]. split; [exact (Hc e' Hin)|done].
  - rewrite !allows_at_Ok. intros Hall e (e' & -> & Hin)%list_elem_of_fmap.
    split; [by destruct (Hall e' Hin)|done].
Qed.
End ChainFacts.

(** ** A concrete reader *)

Definition jtree_as_array (v : JTree) : option (list JTree) := match v with JArr l => Some l | _ => None end.
Definition jtree_remove (k : string) (v : JTree) : JTree :=
  match v with JObj l => JObj (List.filter (λ p, negb (bool_decide (fst p = k))) l) | _ => v end.

Lemma jtree_as_array_array l : jtree_as_array (json_array l) = Some l.
Proof. done. Qed.

Definition read_ceiling (v : option JTree) : Ceiling :=
  match v with
  | Some (JStr s) => if bool_decide (s = "no-destructive") then NoDestructive
                     else if bool_decide (s = "read-only") then CeilingReadOnly else CeilingAll
  | _ => CeilingAll
  end.
Definition read_patterns (v : option JTree) : list Pattern :=
  match v with
  | Some (JArr l) => omap (λ v, match v with JStr s => Some (pattern_from_string s) | _ => None end) l
  | _ => []
  end.
Definition read_lists (v : JTree) : ToolRules :=
  Build_ToolRules (read_ceiling (json_get v "class")) (read_patterns (json_get v "allow")) (read_patterns (json_get v "deny")) None.
Definition read_jtree (v : JTree) : Result ToolRules string :=
  match v with
  | JObj _ =>
      let r := read_lists v in
      Ok (Build_ToolRules (rules_class r) (rules_allow r) (rules_deny r) (read_lists <$> json_get v "own"))
  | _ => Err "not an object"
  end.

Lemma jtree_get_remove v k k' : k ≠ k' → jtree_get (jtree_remove k v) k' = jtree_get v k'.
Proof. intros Hne. destruct v; try done. cbn. by rewrite find_filter_ne. Qed.
Lemma jtree_get_removed v k : jtree_get (jtree_remove k v) k = None.
Proof.
  destruct v as [| | | | |l]; try done. cbn. induction l as [|[a x] l IH]; [done|]. cbn.
  case_bool_decide; cbn; [done|]. by rewrite bool_decide_eq_false_2 by done.
Qed.
Lemma read_jtree_remove v r : read_jtree v = Ok r → read_jtree (jtree_remove "own" v) = Ok (without_own r).
Proof.
  destruct v as [| | | | |l]; try done. intros [= <-]. unfold read_jtree. cbn [jtree_remove].
  change (JObj (List.filter _ l)) with (jtree_remove "own" (JObj l)).
  unfold read_lists, without_own. cbn [json_get JTree_Json rules_class rules_allow rules_deny].
  by rewrite jtree_get_removed, !jtree_get_remove.
Qed.

Definition example_chain : JTree :=
  JArr [JObj [("class", JStr "no-destructive"); ("deny", JArr [JStr "github/*"]);
              ("own", JObj [("deny", JArr [JStr "write_file"])])]].

Example child_inherits_witness :
  let chain := from_stored jtree_as_array read_jtree (Some example_chain) in
  let child := map without_own chain in
  try_from_stored jtree_as_array read_jtree (for_child jtree_as_array jtree_remove (Some example_chain)) = Ok child
  ∧ is_ok (allows_at chain (Native "write_file") Writing) = false
  ∧ allows_at child (Native "write_file") Writing = Ok tt
  ∧ is_ok (allows_at child (Mcp "github" "get_issue") ReadOnly) = false.
Proof.
  cbv zeta. conjs.
  - apply (child_inherits jtree_as_array jtree_remove read_jtree jtree_as_array_array read_jtree_remove
             (Some example_chain) _ (Build_ToolRules CeilingAll [] [] None) (Native "") ReadOnly).
    vm_compute. reflexivity.
  - vm_compute. reflexivity.
  - vm_compute. reflexivity.
  - vm_compute. reflexivity.
Defined.
