(* ===== verification/Notices.v ===== *)
(** * Notices: what smelt saves into a transcript, and reads back

    [src/src/api/chat.rs]: the notices a turn leaves in its conversation (a failure, a reply
    cut off at its limit, a refusal), the mark that tells one from the same words a user
    typed, and the readers the transcript and the page use. *)

From S2P Require Import Prelude RustStr Budget.
Local Open Scope string_scope.

Definition TURN_STOPPED : string := "stopped by the user".
Definition STOP_NOTICE : string :=
  "The user stopped this turn before it finished. Don't carry on with what it asked unless they ask again.".
Definition TURN_FAILED_NOTED : string := "the turn failed; the conversation says why".
Definition FAILURE_NOTICE_START : string := "The last turn failed before it finished: ".

(** U+2063, by its UTF-8 bytes. *)
Definition NOTICE_MARK : string :=
  String (ascii_of_nat 226) (String (ascii_of_nat 129) (String (ascii_of_nat 163) "")).

Definition mark_notice (text : string) : string := NOTICE_MARK +:+ text.

Definition failure_notice (reason : string) : string := NOTICE_MARK +:+ FAILURE_NOTICE_START +:+ reason.
Definition parse_failure_notice (text : string) : option string :=
  rest ← strip_prefix NOTICE_MARK text; strip_prefix FAILURE_NOTICE_START rest.

(** [text.trim_start_matches(NOTICE_MARK)]: every mark at its start. *)
Fixpoint users_text (text : string) : string :=
  match text with
  | String a (String b (String c rest)) =>
      if bool_decide (String a (String b (String c "")) = NOTICE_MARK) then users_text rest else text
  | _ => text
  end.

(** ** Limits *)

Definition ReplyLimit_ALL : list ReplyLimit := [OutputCap; ModelMaximum; HalfWindow; RoomLeft; LaunchCap].

Definition reason (l : ReplyLimit) : string :=
  match l with
  | OutputCap => "the model's maximum reply length"
  | ModelMaximum => "the most this model can write in one reply"
  | HalfWindow => "half the context window"
  | RoomLeft => "the room left in the conversation"
  | LaunchCap => "the reply cap Claude Code was started with"
  end.

Definition hint (l : ReplyLimit) : string :=
  match l with
  | OutputCap => "Raise “Max reply tokens” for this model on its provider's page, or lower its effort or reasoning budget."
  | ModelMaximum => "That's the model's own limit: lower its effort on its provider's page, or ask for less at once."
  | HalfWindow => "A reply can be at most half the context window: lower the model's effort or reasoning budget on its provider's page, or ask for less at once."
  | RoomLeft => "The conversation is nearly full, and compacts before the next reply."
  | LaunchCap => "Claude Code keeps the reply cap it started with for its whole run; the conversation is nearly full, and compacts before the next reply."
  end.

(** ** A reply stopped before it finished *)

Definition CUT_OFF_NOTICE_START : string := "Your last reply was cut off: it reached its limit of ".
Definition REFUSAL_NOTICE_START : string :=
  "Your last reply was stopped by the model provider's safety system (a refusal) before it finished.".
Definition CUT_CALL_START : string := " It stopped in the middle of a call to `".
Definition CUT_CALL_END : string := "`, which was dropped and not run.".

Definition cut_call_text (cut_call : option string) : string :=
  match cut_call with Some name => CUT_CALL_START +:+ name +:+ CUT_CALL_END | None => "" end.

Definition cut_off_notice (tokens : Z) (limit : ReplyLimit) (cut_call : option string) : string :=
  mark_notice (CUT_OFF_NOTICE_START +:+ show_unsigned tokens +:+ " tokens (" +:+ reason limit
               +:+ ") before it finished." +:+ cut_call_text cut_call).
Definition refusal_notice (cut_call : option string) : string :=
  mark_notice (REFUSAL_NOTICE_START +:+ cut_call_text cut_call).

Definition parse_cut_call (rest : string) : option (option string) :=
  if bool_decide (rest = "") then Some None
  else
    rest ← strip_prefix CUT_CALL_START rest;
    name ← strip_suffix CUT_CALL_END rest;
    if bool_decide (name = "") then None else Some (Some name).
Definition parse_refusal_notice (text : string) : option (option string) :=
  rest ← strip_prefix NOTICE_MARK text;
  rest ← strip_prefix REFUSAL_NOTICE_START rest;
  parse_cut_call rest.
Definition parse_cut_off_notice (text : string) : option (Z * ReplyLimit * option string) :=
  rest ← strip_prefix NOTICE_MARK text;
  rest ← strip_prefix CUT_OFF_NOTICE_START rest;
  '(tokens, rest) ← split_once " tokens (" rest;
  '(why, rest) ← split_once ")" rest;
  limit ← List.find (λ limit, bool_decide (reason limit = why)) ReplyLimit_ALL;
  rest ← strip_prefix " before it finished." rest;
  cut_call ← parse_cut_call rest;
  tokens ← parse_unsigned U32_MAX tokens;
  Some (tokens, limit, cut_call).

(** ** Lemmas *)

Lemma strip_mark_3 a b c rest :
  strip_prefix NOTICE_MARK (String a (String b (String c rest))) =
  if bool_decide (String a (String b (String c "")) = NOTICE_MARK) then Some rest else None.
Proof.
  case_bool_decide as Hm.
  - apply strip_prefix_Some. unfold NOTICE_MARK in *. injection Hm as -> -> ->. by rewrite !str_app_cons.
  - destruct (strip_prefix NOTICE_MARK _) as [r|] eqn:E; [|done].
    apply strip_prefix_Some in E. unfold NOTICE_MARK in *. rewrite !str_app_cons in E. by simplify_eq.
Qed.

Lemma users_text_unmarked text : strip_prefix NOTICE_MARK (users_text text) = None.
Proof.
  remember (String.length text) as n eqn:Hn. assert (Hle : (String.length text ≤ n)%nat) by lia. clear Hn.
  revert text Hle. induction n as [|n IH]; intros text Hle; [by destruct text; [|cbn in Hle; lia]|].
  destruct text as [|a [|b [|c rest]]]; try (cbn [users_text strip_prefix NOTICE_MARK]; by repeat case_match).
  pose proof (strip_mark_3 a b c rest) as Hs. cbn [users_text] in *. case_bool_decide; [|done].
  apply IH. cbn in Hle. lia.
Qed.

Lemma users_text_id text : strip_prefix NOTICE_MARK text = None → users_text text = text.
Proof.
  destruct text as [|a [|b [|c rest]]]; try done. rewrite strip_mark_3. cbn [users_text]. by case_bool_decide.
Qed.

Lemma users_text_mark text : users_text (mark_notice text) = users_text text.
Proof. done. Qed.

Lemma parse_cut_call_text call : call ≠ Some "" → parse_cut_call (cut_call_text call) = Some call.
Proof.
  intros Hc. unfold parse_cut_call. destruct call as [name|]; [|done]. cbn [cut_call_text].
  rewrite bool_decide_eq_false_2 by done. rewrite strip_prefix_app. cbn [mbind option_bind].
  rewrite strip_suffix_app. cbn [mbind option_bind]. rewrite bool_decide_eq_false_2; [done|congruence].
Qed.

Lemma parse_cut_call_Some rest call : parse_cut_call rest = Some call → rest = cut_call_text call ∧ call ≠ Some "".
Proof.
  unfold parse_cut_call. case_bool_decide as Hr; [by intros [= <-]|].
  destruct (strip_prefix CUT_CALL_START rest) as [r|] eqn:E1; [|done]. cbn [mbind option_bind].
  destruct (strip_suffix CUT_CALL_END r) as [name|] eqn:E2; [|done]. cbn [mbind option_bind].
  case_bool_decide as Hn; [done|]. intros [= <-].
  apply strip_prefix_Some in E1 as ->. apply strip_suffix_Some in E2 as ->. split; [done|congruence].
Qed.

Lemma find_reason l : List.find (λ limit, bool_decide (reason limit = reason l)) ReplyLimit_ALL = Some l.
Proof. by destruct l. Qed.

(** ** Theorems *)

(** What a notice says is read back: a failure's reason, a refusal's dropped call, a cut-off
    reply's budget, what bound it and the call it was cut in; a failure or refusal reads as
    nothing else than the notice it was written as; and no text a user sends, however it starts,
    reads as any of the three, while it stays what they wrote when it doesn't start with the
    mark. *)
Theorem notices_read_back (why text : string) (tokens : Z) (limit : ReplyLimit) (call : option string) :
  is_u32 tokens → call ≠ Some "" →
  parse_failure_notice (failure_notice why) = Some why
  ∧ parse_refusal_notice (refusal_notice call) = Some call
  ∧ parse_cut_off_notice (cut_off_notice tokens limit call) = Some (tokens, limit, call)
  ∧ (∀ r, parse_failure_notice text = Some r → text = failure_notice r)
  ∧ (∀ c, parse_refusal_notice text = Some c → text = refusal_notice c)
  ∧ (parse_failure_notice (users_text text) = None ∧ parse_refusal_notice (users_text text) = None
     ∧ parse_cut_off_notice (users_text text) = None)
  ∧ users_text (mark_notice text) = users_text text
  ∧ (starts_with NOTICE_MARK text = false → users_text text = text).
Proof.
  intros Ht Hc. conjs.
  - unfold parse_failure_notice, failure_notice. by rewrite strip_prefix_app; cbn [mbind option_bind]; rewrite strip_prefix_app.
  - unfold parse_refusal_notice, refusal_notice, mark_notice.
    rewrite strip_prefix_app. cbn [mbind option_bind]. rewrite strip_prefix_app. by apply parse_cut_call_text.
  - unfold parse_cut_off_notice, cut_off_notice, mark_notice.
    rewrite strip_prefix_app. cbn [mbind option_bind]. rewrite strip_prefix_app. cbn [mbind option_bind].
    rewrite split_once_literal by (by apply contains_digit_free, show_unsigned_digits). cbn [mbind option_bind].
    pose proof (split_once_char_app ")" (reason limit) (" before it finished." +:+ cut_call_text call)) as Hs.
    assert (contains ")" (reason limit) = false) as Hr by (by destruct limit).
    change (") before it finished." +:+ cut_call_text call)
      with (String ")" (" before it finished." +:+ cut_call_text call)).
    rewrite Hs by done. cbn [mbind option_bind]. rewrite find_reason. cbn [mbind option_bind].
    rewrite strip_prefix_app. cbn [mbind option_bind]. rewrite parse_cut_call_text by done. cbn [mbind option_bind].
    rewrite parse_show_unsigned by done. done.
  - unfold parse_failure_notice. intros r (rest & E1%strip_prefix_Some & E2%strip_prefix_Some)%bind_Some. by subst.
  - unfold parse_refusal_notice. intros c (rest & E1%strip_prefix_Some & E2)%bind_Some.
    apply bind_Some in E2 as (rest' & E2%strip_prefix_Some & [E3 _]%parse_cut_call_Some). by subst.
  - unfold parse_failure_notice. by rewrite users_text_unmarked.
  - unfold parse_refusal_notice. by rewrite users_text_unmarked.
  - unfold parse_cut_off_notice. by rewrite users_text_unmarked.
  - apply users_text_mark.
  - intros Hs. apply users_text_id. destruct (strip_prefix NOTICE_MARK text) as [rest|] eqn:E; [|done].
    apply strip_prefix_Some in E as ->. rewrite starts_with_app in Hs. discriminate Hs.
Qed.

Lemma notices_read_back_witness :
  let call := Some "write_file" in
  parse_cut_off_notice (cut_off_notice 32000 RoomLeft call) = Some (32000%Z, RoomLeft, call)
  ∧ parse_failure_notice (users_text (failure_notice "no model")) = None.
Proof.
  cbv zeta.
  destruct (notices_read_back "no model" (failure_notice "no model") 32000 RoomLeft (Some "write_file"))
    as (_ & _ & Hcut & _ & _ & (Huser & _) & _); [vm_compute; by split|done|].
  split; [exact Hcut|exact Huser].
Defined.
