(* ===== verification/TextCalls.v ===== *)
(** * TextCalls: tool calls a model wrote as text

    [src/src/text_calls.rs]: the code a reply's text is masked of, the scan that finds calls
    written in what is left, the notice the model is told them by and its reader. *)

From S2P Require Import Prelude RustStr Json Budget Notices.
Local Open Scope string_scope.

(** A call found in a reply's text: its tool's name, when it reads as one. *)
Definition TextCall := option string.

Definition TEXT_CALL_NOTICE_START : string :=
  "Your last reply wrote a tool call as text instead of making it, so it didn't run.".
Definition TEXT_CALL_NOTICE_END : string := " Make the call as a tool call, not as text in your reply.".
Definition UNREADABLE : string := "One call's tool name couldn't be read".
Definition EMPTY_REPLY_NOTICE : string :=
  "Your last reply had no text and no tool call. Carry on: make the tool call you need, or answer.".
Definition empty_reply_notice : string := mark_notice EMPTY_REPLY_NOTICE.
Definition MAX_TEXT_CALL_CORRECTIONS : nat := 3.
Definition MAX_NAME : nat := 128.

Definition is_call_name_char (c : ascii) : bool :=
  is_ascii_alphanumeric c || Ascii.eqb c "_" || Ascii.eqb c "." || Ascii.eqb c ":" || Ascii.eqb c "-".

(** [name_at(s)] and [&s[name.len()..]]. *)
Definition name_at (s : string) : string := take_while is_call_name_char s.
Definition after_name (s : string) : string := drop_while is_call_name_char s.

Definition checked (name : string) : option string :=
  if negb (bool_decide (name = "")) && (String.length name <=? MAX_NAME)%nat && all_bytes is_call_name_char name
  then Some name else None.
(** [named(name)]: the call by a name. *)
Definition named (name : string) : TextCall := checked name.

(** ** Markers *)

Definition mistral_call (s : string) : option TextCall :=
  let name := name_at s in
  let rest := after_name s in
  if negb (bool_decide (name = "")) && (starts_with "[ARGS]" rest || starts_with "[CALL_ID]" rest) then Some (named name)
  else if starts_with "[{" s || starts_with "{" s then Some None
  else None.

Definition kimi_call (s : string) : option TextCall :=
  let id := name_at s in
  if starts_with "<|tool_call_argument_begin|>" (after_name s) then
    let id := default id (strip_prefix "functions." id) in
    let name :=
      match rsplit_once ":" id with
      | Some (name, n) => if all_bytes is_ascii_digit n then name else id
      | None => id
      end in
    Some (named name)
  else None.

Definition deepseek_call (s : string) : option TextCall :=
  let name := name_at s in
  rest ← strip_prefix "<｜tool▁sep｜>" (after_name s);
  Some (named (if bool_decide (name = "function") then name_at rest else name)).

Definition gemma_call (s : string) : option TextCall :=
  if starts_with "{" (after_name s) then Some (named (name_at s)) else None.

Definition lfm2_call (s : string) : option TextCall :=
  s ← strip_prefix "[" s;
  if starts_with "(" (after_name s) then Some (named (name_at s)) else None.

Definition gpt_oss_call (s : string) : option TextCall :=
  let rest := after_name s in
  if starts_with "<|" rest || starts_with " <|" rest then Some (named (name_at s)) else None.

Definition SPECIAL_MARKERS : list (string * (string → option TextCall)) :=
  [("[TOOL_CALLS]", mistral_call);
   ("<|tool_call_begin|>", kimi_call);
   ("<｜tool▁call▁begin｜>", deepseek_call);
   ("<|tool_call>call:", gemma_call);
   ("<|tool_call_start|>", lfm2_call);
   ("to=functions.", gpt_oss_call)].

(** ** Tags *)

Definition is_ns_char (c : ascii) : bool := is_ascii_alphanumeric c || Ascii.eqb c "_" || Ascii.eqb c "-".

Definition tag (s : string) : option string :=
  s ← strip_prefix "<" s;
  if starts_with "/" s then None
  else
    let bare := default s (strip_prefix "｜" s) in
    let after := drop_while is_ns_char bare in
    let local := match strip_prefix ":" after with Some l => Some l | None => strip_prefix "｜" after end in
    Some (match local with
          | Some local => if bool_decide (take_while is_ns_char bare = "") then s else local
          | None => s
          end).

Definition is_close (s local : string) : bool :=
  match strip_prefix "</" s with
  | None => false
  | Some rest => match tag ("<" +:+ rest) with Some l => starts_with local l | None => false end
  end.

(** [inner], a subslice, runs to [outer]'s end wherever the code asks. *)
Definition offset (outer inner : string) : nat := (String.length outer - String.length inner)%nat.

(** [<invoke name=, a quote, the name]: [local] is the tag past its [<] and namespace. *)
Definition INVOKE : string := "invoke name=" +:+ dquote.
Definition invoke (s local : string) : option (TextCall * nat) :=
  rest ← strip_prefix INVOKE local;
  '(name, _) ← split_once dquote rest;
  Some (checked name, (offset s rest + String.length name)%nat).

Section Find.
Context {V : Type} `{Json V}.
(** [serde_json]'s stream reader: the JSON value a text starts with, when one reads. *)
Variable first_value : string → option V.

Definition json_name (s : string) : option (option string) :=
  match first_value s with
  | Some value => v ← json_get value "name"; checked <$> json_as_str v
  | None =>
      let call := match split_once "</tool_call>" s with Some (call, _) => call | None => s end in
      '(_, rest) ← split_once (dquote +:+ "name" +:+ dquote) call;
      rest ← strip_prefix ":" (trim_start rest);
      rest ← strip_prefix dquote (trim_start rest);
      '(name, _) ← split_once dquote rest;
      Some (checked name)
  end.

Definition GLM_TAILS : list string :=
  [String newline ""; String (ascii_of_nat 13) (String newline ""); "<arg_key>"; "</tool_call>"].

Definition tag_call (s : string) : option (TextCall * nat) :=
  local ← tag s;
  match strip_prefix "tool_call>" local with
  | Some after =>
      let glm := name_at after in
      let tail := after_name after in
      if negb (bool_decide (glm = "")) && existsb (λ t, starts_with t tail) GLM_TAILS then
        Some (named glm, offset s tail)
      else
        let inner := trim_start after in
        if starts_with "{" inner then
          name ← json_name inner; Some (name, (offset s inner + 1)%nat)
        else
          inner_local ← tag inner;
          match strip_prefix "function=" inner_local with
          | Some rest => Some (named (name_at rest), offset s (after_name rest))
          | None => invoke s inner_local
          end
  | None =>
  match strip_prefix "function_calls>" local with
  | Some after => inner ← tag (trim_start after); invoke s inner
  | None =>
  match strip_prefix "function=" local with
  | Some rest =>
      body ← strip_prefix ">" (after_name rest);
      let body := trim_start body in
      if starts_with "<parameter=" body || starts_with "{" body
      then Some (named (name_at rest), offset s body) else None
  | None =>
      if starts_with INVOKE local then
        '(call, used) ← invoke s local;
        '(_, body) ← split_once ">" (str_drop used s);
        let body := trim_start body in
        let param := match tag body with Some l => starts_with "parameter name=" l | None => false end in
        if param || is_close body "invoke>" then Some (call, used) else None
      else None
  end end end.

Definition CLOSERS : list string := ["tool_call>"; "function>"; "function_calls>"; "invoke>"].
Definition complete_tag_call (s : string) : bool :=
  starts_with "<" s && is_some (tag_call s)
  && existsb (λ l, existsb (is_close (trim_start l)) CLOSERS) (skipn 1 (str_lines s)).

(** ** Masking *)

Definition is_space (c : ascii) : bool := Ascii.eqb c " ".

(** Where the line that [text[at..]] starts in ends: past its line feed, or the end. *)
Definition line_end (text : string) (at_ : nat) : nat :=
  match str_find (String newline "") (str_drop at_ text) with
  | Some i => (at_ + i + 1)%nat
  | None => String.length text
  end.

Definition closing (text : string) (open : nat) : option nat :=
  let after := (open + String.length "<think>")%nat in
  (λ i, (after + i + String.length "</think>")%nat) <$> str_find "</think>" (str_drop after text).

(** The pairs straight after [close] on its line, and where the next line starts. *)
Fixpoint pairs_after (fuel : nat) (text : string) (close : nat) : list (nat * nat) * nat :=
  let spaces := String.length (take_while is_space (str_drop close text)) in
  let open := (close + spaces)%nat in
  match fuel, (if starts_with "<think>" (str_drop open text) then closing text open else None) with
  | S fuel, Some next =>
      let '(ranges, from) := pairs_after fuel text next in ((open, next) :: ranges, from)
  | _, _ => ([], line_end text close)
  end.

Fixpoint template_opened_close_from (text : string) (start : nat) (lines : list string) : option nat :=
  match lines with
  | [] => None
  | line :: lines =>
      let indent := String.length (take_while is_space line) in
      if (indent <=? 3)%nat && starts_with "</think>" (drop_while is_space line) then
        let at_ := (start + indent)%nat in
        if contains "<think>" (str_take at_ text) then None else Some (at_ + String.length "</think>")%nat
      else template_opened_close_from text (start + String.length line) lines
  end.
Definition template_opened_close (text : string) : option nat :=
  template_opened_close_from text 0 (split_inclusive text).

Fixpoint think_ranges_from (fuel : nat) (text : string) (from : nat) : list (nat * nat) :=
  match fuel with
  | O => []
  | S fuel =>
      if (String.length text <=? from)%nat then []
      else
        let e := line_end text from in
        let line := str_take (e - from) (str_drop from text) in
        let body := drop_while is_space line in
        let open := (e - String.length body)%nat in
        match (if (String.length line - String.length body <=? 3)%nat && starts_with "<think>" body
               then closing text open else None) with
        | Some close =>
            let '(ranges, from) := pairs_after (String.length text) text close in
            (open, close) :: ranges ++ think_ranges_from fuel text from
        | None => think_ranges_from fuel text e
        end
  end%list.
Definition think_ranges (text : string) : list (nat * nat) :=
  match template_opened_close text with
  | Some close =>
      let '(ranges, from) := pairs_after (String.length text) text close in
      ((0, close) :: ranges ++ think_ranges_from (String.length text) text from)%nat%list
  | None => think_ranges_from (String.length text) text 0
  end.

(** [blank(from, to)]: the bytes there but line feeds, made spaces. *)
Fixpoint blank (from to : nat) (out : string) {struct out} : string :=
  match out with
  | EmptyString => ""
  | String a out' =>
      match from, to with
      | _, O => out
      | O, S to => String (if Ascii.eqb a newline then a else " ") (blank 0 to out')
      | S from, S to => String a (blank from to out')
      end
  end.
Definition blank_all (ranges : list (nat * nat)) (out : string) : string :=
  fold_left (λ out '(from, to), blank from to out) ranges out.

Definition mask_think (text : string) : string := blank_all (think_ranges text) text.

(** How many of [ch] a text starts with. *)
Definition run_of (ch : ascii) (s : string) : nat := String.length (take_while (Ascii.eqb ch) s).

(** The end of the next run of exactly [open] backticks from [j]. *)
Fixpoint closing_run (fuel : nat) (text : string) (open j : nat) : option nat :=
  match fuel with
  | O => None
  | S fuel =>
      if (String.length text <=? j)%nat then None
      else if starts_with "`" (str_drop j text) then
        let n := run_of "`" (str_drop j text) in
        if (n =? open)%nat then Some (j + n)%nat else closing_run fuel text open (j + n)
      else closing_run fuel text open (j + 1)
  end.
Fixpoint code_spans_from (fuel : nat) (text : string) (i : nat) : list (nat * nat) :=
  match fuel with
  | O => []
  | S fuel =>
      if (String.length text <=? i)%nat then []
      else if negb (starts_with "`" (str_drop i text)) then code_spans_from fuel text (i + 1)
      else
        let open := run_of "`" (str_drop i text) in
        match closing_run (String.length text) text open (i + open) with
        | Some e => (i, e) :: code_spans_from fuel text e
        | None => code_spans_from fuel text (i + open)
        end
  end.
Definition code_spans (text : string) : list (nat * nat) := code_spans_from (String.length text) text 0.

Definition is_indent (c : ascii) : bool := Ascii.eqb c " " || Ascii.eqb c (ascii_of_nat 9).
(** A line's indent, a tab as four. *)
Fixpoint indent_of (s : string) : nat :=
  match s with
  | String a s' =>
      if Ascii.eqb a " " then S (indent_of s')
      else if Ascii.eqb a (ascii_of_nat 9) then 4 + indent_of s' else 0
  | EmptyString => 0
  end%nat.

(** [mask_code]'s loop: the text so far, the open fence, the paragraph's start, the line's. *)
Record Mask := { out : string; fence : option (ascii * nat); paragraph : option nat; at_line : nat }.

Definition blank_spans (text : string) (para to : nat) (o : string) : string :=
  fold_left (λ o '(a, b), blank (para + a) (para + b) o)
    (code_spans (str_take (to - para) (str_drop para text))) o.

Definition mask_line (text : string) (m : Mask) (line : string) : Mask :=
  let start := at_line m in
  let stop := (start + String.length line)%nat in
  let indent := indent_of line in
  let body := drop_while is_indent line in
  let run ch := run_of ch body in
  let open := match fence m with None => true | Some _ => false end in
  let call := open && (indent <=? 3)%nat && complete_tag_call (str_drop (stop - String.length body) text) in
  let plain := open && (indent <=? 3)%nat && (run "`"%char <? 3)%nat && (run "~"%char <? 3)%nat
               && negb (starts_with ">" body) && negb (is_blank body) && negb call in
  let '(o, para) :=
    match (if plain then None else paragraph m) with
    | Some para => (blank_spans text para start (out m), None)
    | None => (out m, paragraph m)
    end in
  match fence m with
  | Some (ch, len) =>
      let closes := (indent <=? 3)%nat && (len <=? run ch)%nat && is_blank (drop_while (Ascii.eqb ch) body) in
      Build_Mask (blank start stop o) (if closes then None else fence m) para stop
  | None =>
      if (indent <=? 3)%nat && ((3 <=? run "`"%char)%nat || (3 <=? run "~"%char)%nat) then
        let ch := if (3 <=? run "`"%char)%nat then "`"%char else "~"%char in
        Build_Mask (blank start stop o) (Some (ch, run ch)) para stop
      else if (4 <=? indent)%nat || starts_with ">" body then Build_Mask (blank start stop o) None para stop
      else if plain && negb (is_some para) then Build_Mask o None (Some start) stop
      else Build_Mask o None para stop
  end.

Definition mask_code (text : string) : string :=
  let m := fold_left (mask_line text) (split_inclusive text) (Build_Mask (mask_think text) None None 0) in
  match paragraph m with
  | Some para => blank_spans text para (String.length text) (out m)
  | None => out m
  end.

(** ** Finding *)

(** The special markers of one masked line, at [start] in the text. *)
Definition marked_calls (text : string) (start : nat) (line : string) : list (nat * TextCall) :=
  flat_map (λ '(marker, read),
    omap (λ at_ : nat, (λ call, ((start + at_)%nat, call)) <$> read (str_drop (start + at_ + String.length marker) text))
      (match_indices marker line)) SPECIAL_MARKERS.

Record Finding := { found : list (nat * TextCall); consumed : nat; find_start : nat }.
Definition find_line (text : string) (f : Finding) (line : string) : Finding :=
  let start := find_start f in
  let stop := (start + String.length line)%nat in
  let found1 := (found f ++ marked_calls text start line)%list in
  let written := str_take (String.length line) (str_drop start text) in
  let indent := String.length (take_while is_space written) in
  let at_ := (start + indent)%nat in
  match (if (consumed f <=? start)%nat && (indent <=? 3)%nat && starts_with "<" (str_drop indent line)
         then tag_call (str_drop at_ text) else None) with
  | Some (call, used) => Build_Finding (found1 ++ [(at_, call)])%list (at_ + used) stop
  | None => Build_Finding found1 (consumed f) stop
  end.

(** The calls with the offsets they were found at, in order; [find] drops the offsets. *)
Definition find_at (text : string) : list (nat * TextCall) :=
  let f := fold_left (find_line text) (split_inclusive (mask_code text)) (Build_Finding [] 0 0) in
  sort_by (λ a b, fst a <=? fst b)%nat (found f).
Definition find (text : string) : list TextCall := map snd (find_at text).
End Find.

(** ** What masking changes *)

(** Some bytes that aren't line feeds made spaces, and nothing else. *)
Inductive masked : string → string → Prop :=
  | masked_end : masked "" ""
  | masked_keep a t m : masked t m → masked (String a t) (String a m)
  | masked_hide a t m : Ascii.eqb a newline = false → masked t m → masked (String a t) (String " " m).

Lemma masked_refl t : masked t t.
Proof. induction t; by constructor. Qed.

Lemma masked_blank t m from to : masked t m → masked t (blank from to m).
Proof.
  intros Hm. revert from to. induction Hm as [|a t m Hm IH|a t m Ha Hm IH]; intros from to; [cbn; constructor|..].
  - cbn [blank]. destruct from as [|from], to as [|to]; try (by constructor).
    destruct (Ascii.eqb a newline) eqn:E; by constructor.
  - cbn [blank]. destruct from as [|from], to as [|to]; by constructor.
Qed.
Lemma masked_blank_all t m ranges : masked t m → masked t (blank_all ranges m).
Proof.
  unfold blank_all. revert m. induction ranges as [|[a b] ranges IH]; intros m Hm; [done|].
  cbn. by apply IH, masked_blank.
Qed.
Lemma masked_blank_spans t m text para to : masked t m → masked t (blank_spans text para to m).
Proof.
  unfold blank_spans. generalize (code_spans (str_take (to - para) (str_drop para text))). intros l.
  revert m. induction l as [|[a b] l IH]; intros m Hm; [done|]. cbn. by apply IH, masked_blank.
Qed.

Lemma masked_length t m : masked t m → String.length m = String.length t.
Proof. induction 1; cbn; congruence. Qed.
Lemma masked_lines t m : masked t m → map String.length (split_inclusive m) = map String.length (split_inclusive t).
Proof.
  induction 1 as [|a t m _ IH|a t m Ha _ IH]; [done|..]; cbn [split_inclusive]; rewrite ?Ha.
  - destruct (Ascii.eqb a newline); cbn [map]; [by rewrite IH|].
    destruct (split_inclusive m), (split_inclusive t); cbn in *; congruence.
  - change (Ascii.eqb " " newline) with false. cbn iota.
    destruct (split_inclusive m), (split_inclusive t); cbn in *; congruence.
Qed.
Lemma masked_drop n t m : masked t m → masked (str_drop n t) (str_drop n m).
Proof.
  intros Hm. revert n. induction Hm as [|a t m Hm IH|a t m Ha Hm IH]; intros [|n]; cbn [str_drop]; by constructor || apply IH.
Qed.

(** What the masked text shows that isn't a space is the text's. *)
Lemma masked_shows p t m :
  masked t m → contains " " p = false → starts_with p m = true → starts_with p t = true.
Proof.
  intros Hm Hp. rewrite !starts_with_strip.
  revert p Hp. induction Hm as [|a t m Hm IH|a t m Ha Hm IH]; intros p Hp; [done|..];
    (destruct p as [|b p]; [done|]); rewrite contains_char_cons in Hp; apply orb_false_iff in Hp as [Hb Hp];
    cbn [strip_prefix].
  - destruct (Ascii.eqb b a); [by apply IH|done].
  - rewrite Ascii.eqb_sym, Hb. done.
Qed.

Section FindFacts.
Context {V : Type} `{Json V}.
Variable first_value : string → option V.
Notation mask_line := (mask_line first_value).
Notation mask_code := (mask_code first_value).

Lemma mask_line_masked text m line : masked text (out m) → masked text (out (mask_line text m line)).
Proof.
  intros Hm. unfold TextCalls.mask_line.
  set (plain := _ && negb (_ && complete_tag_call _ _)).
  assert (Hspan : masked text (fst (match (if plain then None else paragraph m) with
    | Some para => (blank_spans text para (at_line m) (out m), None)
    | None => (out m, paragraph m)
    end))) by (destruct plain, (paragraph m); cbn; by try apply masked_blank_spans).
  destruct (match (if plain then None else paragraph m) with Some _ => _ | None => _ end) as [o para].
  cbn in Hspan. destruct (fence m) as [[ch len]|]; [by apply masked_blank|].
  destruct (_ && (_ || _)); [by apply masked_blank|].
  destruct (_ || starts_with ">" _); [by apply masked_blank|]. destruct (plain && negb (is_some para)); exact Hspan.
Qed.

Lemma mask_code_masked text : masked text (mask_code text).
Proof.
  unfold TextCalls.mask_code.
  assert (Hfold : ∀ lines m, masked text (out m) → masked text (out (fold_left (mask_line text) lines m))).
  { induction lines as [|line lines IH]; intros m Hm; [done|]. by apply IH, mask_line_masked. }
  set (m := fold_left _ _ _).
  assert (Hm : masked text (out m)) by (apply Hfold, masked_blank_all, masked_refl).
  destruct (paragraph m); [by apply masked_blank_spans|done].
Qed.

(** Masking keeps every offset: the masked text is as long as the reply, its lines end where
    the reply's do, and it differs only in bytes made spaces.  So a call found in it is read
    from the reply at the same place. *)
Theorem masking_keeps_offsets (text : string) :
  (masked text (mask_code text) ∧ masked text (mask_think text))
  ∧ String.length (mask_code text) = String.length text
  ∧ map String.length (split_inclusive (mask_code text)) = map String.length (split_inclusive text).
Proof.
  pose proof (mask_code_masked text) as Hm. conjs.
  - done.
  - apply masked_blank_all, masked_refl.
  - by apply masked_length.
  - by apply masked_lines.
Qed.

(** ** What is found *)

(** The text from a line's start on has at most three spaces before [at_]. *)
Definition near_line_start (text : string) (at_ : nat) : Prop :=
  ∃ start, (start ≤ at_ ≤ start + 3)%nat
    ∧ (start = 0 ∨ starts_with (String newline "") (str_drop (start - 1) text) = true)%nat
    ∧ all_bytes is_space (str_take (at_ - start) (str_drop start text)) = true.

(** A call where the scan puts it: a special marker and its form's structure, or a tag call at
    a line's start, with the marker or the tag's start outside what is masked. *)
Definition is_call_at (text : string) (at_ : nat) (call : TextCall) : Prop :=
  (∃ marker read, (marker, read) ∈ SPECIAL_MARKERS
     ∧ starts_with marker (str_drop at_ (mask_code text)) = true
     ∧ starts_with marker (str_drop at_ text) = true
     ∧ read (str_drop (at_ + String.length marker) text) = Some call)
  ∨ (starts_with "<" (str_drop at_ (mask_code text)) = true ∧ starts_with "<" (str_drop at_ text) = true
     ∧ near_line_start text at_ ∧ ∃ used, tag_call first_value (str_drop at_ text) = Some (call, used)).

Lemma starts_with_longer p s t : starts_with p s = true → starts_with p (s +:+ t) = true.
Proof. rewrite !starts_with_true. intros [r ->]. exists (r +:+ t). apply str_app_assoc. Qed.

Lemma str_drop_app_le n s t : (n ≤ String.length s)%nat → str_drop n (s +:+ t) = str_drop n s +:+ t.
Proof.
  revert s. induction n as [|n IH]; intros s Hn; [done|]. destruct s as [|a s]; [cbn in Hn; lia|].
  rewrite str_app_cons. cbn in *. apply IH. lia.
Qed.

Lemma markers_no_space marker read : (marker, read) ∈ SPECIAL_MARKERS → contains " " marker = false.
Proof.
  unfold SPECIAL_MARKERS. rewrite !elem_of_cons.
  intros [[= -> _]|[[= -> _]|[[= -> _]|[[= -> _]|[[= -> _]|[[= -> _]|[]%not_elem_of_nil]]]]]]; reflexivity.
Qed.

Lemma marked_calls_at text start line rest at_ call :
  str_drop start (mask_code text) = line +:+ rest →
  (at_, call) ∈ marked_calls text start line → is_call_at text at_ call.
Proof.
  intros Hline Hin. unfold marked_calls in Hin.
  apply list_elem_of_In, in_flat_map in Hin as ([marker read] & Hm%list_elem_of_In & Hin%list_elem_of_In).
  apply list_elem_of_omap in Hin as (i & [Hi Hlt]%match_indices_sound & Hr).
  destruct (read _) as [c|] eqn:Hread; [|done]. injection Hr as <- <-. left. exists marker, read.
  assert (Hshow : starts_with marker (str_drop (start + i) (mask_code text)) = true).
  { rewrite <-str_drop_drop, Hline, str_drop_app_le by lia. by apply starts_with_longer. }
  conjs; [done|done| |done].
  eapply masked_shows; [apply masked_drop, mask_code_masked|by eapply markers_no_space|done].
Qed.

(** The line feeds before a line's start. *)
Lemma split_inclusive_ends s before line after :
  split_inclusive s = (before ++ line :: after)%list → before ≠ [] →
  ∃ pre, String.concat "" before = pre +:+ String newline "".
Proof.
  revert before. induction s as [|a s IH]; intros before; cbn [split_inclusive]; [by destruct before|].
  destruct (Ascii.eqb_spec a newline) as [->|Hne].
  - destruct before as [|b before]; [done|]. intros [= <- Hs] _.
    destruct before as [|b' before]; [by exists ""|].
    destruct (IH (b' :: before) Hs) as [pre Hp]; [done|]. exists (String newline "" +:+ pre).
    cbn [String.concat] in *. rewrite Hp. by rewrite !str_app_assoc.
  - destruct (split_inclusive s) as [|l ls] eqn:Es.
    + destruct before as [|b [|b' before]]; done.
    + destruct before as [|b before]; [done|]. intros [= <- Hls] _.
      destruct (IH (l :: before)) as [pre Hp]; [by rewrite Hls|done|].
      exists (String a pre). rewrite str_app_cons, <-Hp. by destruct before.
Qed.

Lemma starts_with_newline_drop pre rest n :
  n = S (String.length pre) → starts_with (String newline "") (str_drop (n - 1) (pre +:+ String newline rest)) = true.
Proof.
  intros ->. replace (S (String.length pre) - 1)%nat with (String.length pre) by lia. rewrite str_drop_app.
  by rewrite starts_with_strip.
Qed.

Lemma take_while_all f s : all_bytes f (take_while f s) = true.
Proof. induction s as [|a s IH]; [done|]. cbn. destruct (f a) eqn:E; [|done]. cbn. by rewrite E. Qed.
Lemma take_while_take f n s :
  str_take (String.length (take_while f (str_take n s))) s = take_while f (str_take n s).
Proof.
  revert s. induction n as [|n IH]; intros s; [by destruct s|]. destruct s as [|a s]; [done|].
  cbn [str_take take_while]. destruct (f a); [|done]. cbn. by rewrite IH.
Qed.

Lemma concat_app_lines before line after :
  String.concat "" (before ++ line :: after)%list = String.concat "" before +:+ (line +:+ String.concat "" after).
Proof.
  induction before as [|b before IH]; [destruct after; cbn; by rewrite ?str_app_nil_r|].
  cbn [app String.concat]. destruct before as [|b' before].
  - cbn [app] in *. rewrite IH. cbn. by rewrite str_app_nil_l.
  - cbn [app] in *. rewrite IH. by rewrite !str_app_assoc.
Qed.

(** The scan's state after some lines: it is at the next line's start, and has found calls. *)
Definition scan_ok (text : string) (before : list string) (f : Finding) : Prop :=
  find_start f = String.length (String.concat "" before)
  ∧ ∀ at_ call, (at_, call) ∈ found f → is_call_at text at_ call.

Lemma tag_found_at text before line after at_ :
  split_inclusive (mask_code text) = (before ++ line :: after)%list →
  let start := String.length (String.concat "" before) in
  let indent := String.length (take_while is_space (str_take (String.length line) (str_drop start text))) in
  (indent ≤ 3)%nat → starts_with "<" (str_drop indent line) = true → at_ = (start + indent)%nat →
  ∀ call used, tag_call first_value (str_drop at_ text) = Some (call, used) → is_call_at text at_ call.
Proof.
  intros Hlines start indent Hi Hlt -> call used Htag.
  assert (Hcat := concat_app_lines before line after).
  rewrite <-Hlines, str_concat_split_inclusive in Hcat.
  assert (Hdrop : str_drop start (mask_code text) = line +:+ String.concat "" after) by (rewrite Hcat; apply str_drop_app).
  assert (Hle : (indent ≤ String.length line)%nat).
  { destruct (decide (indent ≤ String.length line)%nat); [done|].
    rewrite str_drop_all in Hlt by lia. by rewrite starts_with_strip in Hlt. }
  assert (Hshow : starts_with "<" (str_drop (start + indent) (mask_code text)) = true).
  { rewrite <-str_drop_drop, Hdrop, str_drop_app_le by done. by apply starts_with_longer. }
  right. conjs; [done| | |by exists used].
  - eapply masked_shows; [apply masked_drop, mask_code_masked|done|done].
  - exists start. conjs; [lia|lia| |].
    + destruct before as [|b before]; [by left|]. right.
      destruct (split_inclusive_ends _ _ _ _ Hlines) as [pre Hpre]; [done|].
      eapply masked_shows; [apply masked_drop, mask_code_masked|done|].
      rewrite Hcat, Hpre, str_app_assoc, str_app_cons, str_app_nil_l. apply starts_with_newline_drop.
      subst start. rewrite Hpre, str_length_app. cbn. lia.
    + replace (start + indent - start)%nat with indent by lia. subst indent. rewrite take_while_take.
      apply take_while_all.
Qed.

Lemma find_line_ok text before line after f :
  split_inclusive (mask_code text) = (before ++ line :: after)%list →
  scan_ok text before f → scan_ok text (before ++ [line]) (find_line first_value text f line).
Proof.
  intros Hlines [Hstart Hf].
  assert (Hcat := concat_app_lines before line after).
  rewrite <-Hlines, str_concat_split_inclusive in Hcat.
  assert (Hmarked : ∀ at_ call, (at_, call) ∈ (found f ++ marked_calls text (find_start f) line)%list → is_call_at text at_ call).
  { intros at_ call [Hin|Hin]%elem_of_app; [by apply Hf|]. eapply marked_calls_at; [|done].
    rewrite Hstart, Hcat. apply str_drop_app. }
  assert (Hnext : (find_start f + String.length line)%nat = String.length (String.concat "" (before ++ [line])%list)).
  { rewrite concat_app_lines, Hstart, !str_length_app. cbn. lia. }
  unfold find_line. rewrite Hstart in *.
  destruct (_ && _ && _) eqn:Hc; [|by split].
  destruct (tag_call _ _) as [[call used]|] eqn:Ht; [|by split].
  apply andb_true_iff in Hc as [[_ Hi]%andb_true_iff Hlt]. apply Nat.leb_le in Hi.
  split; [done|]. cbn [found]. intros at_ call' [Hin|[= -> ->]%list_elem_of_singleton]%elem_of_app; [by apply Hmarked|].
  by eapply tag_found_at.
Qed.

(** Every call [find] reports is one in the reply, in the order they are written: a special
    marker with its form's call after it, or a call's tags opening within three spaces of a
    line's start, and in both cases what opens it is not code, a quote or reasoning, for the
    masked text still shows it. *)
Theorem find_sound (text : string) :
  find first_value text = map snd (find_at first_value text)
  ∧ sorted_by (λ a b : nat * TextCall, fst a <=? fst b)%nat (find_at first_value text)
  ∧ ∀ at_ call, (at_, call) ∈ find_at first_value text → is_call_at text at_ call.
Proof.
  conjs; [done| |].
  - apply sort_by_sorted; intros *; rewrite ?Nat.leb_le, ?Nat.leb_gt; lia.
  - unfold find_at. intros at_ call Hin. rewrite sort_by_perm in Hin. revert at_ call Hin.
    assert (Hfold : ∀ after before f, split_inclusive (mask_code text) = (before ++ after)%list → scan_ok text before f →
      scan_ok text (before ++ after) (fold_left (find_line first_value text) after f)).
    { induction after as [|line after IH]; intros before f Hs Hf; [by rewrite app_nil_r|].
      cbn [fold_left]. replace (before ++ line :: after)%list with ((before ++ [line]) ++ after)%list
        by (by rewrite <-app_assoc).
      apply IH; [by rewrite <-app_assoc|]. by eapply find_line_ok. }
    apply (Hfold _ [] (Build_Finding [] 0 0) eq_refl). split; [done|]. by intros ? ? ?%not_elem_of_nil.
Qed.
End FindFacts.

(** ** The scans end *)

Lemma line_end_past text from : (from < String.length text)%nat → (from < line_end text from ≤ String.length text)%nat.
Proof.
  intros Hf. unfold line_end. destruct (str_find _ _) as [i|] eqn:E; [|lia].
  apply str_find_bound in E. rewrite str_drop_length in E. cbn in E. lia.
Qed.
Lemma line_end_bound text from : (from ≤ String.length text → from ≤ line_end text from ≤ String.length text)%nat.
Proof.
  intros Hf. destruct (decide (from < String.length text)%nat) as [Hl|Hl].
  - pose proof (line_end_past text from Hl). lia.
  - unfold line_end. destruct (str_find _ _) as [i|] eqn:E; [|lia].
    apply str_find_bound in E. rewrite str_drop_length in E. cbn in E. lia.
Qed.
Lemma closing_past text open close : closing text open = Some close → (open < close ≤ String.length text)%nat.
Proof.
  unfold closing. destruct (str_find _ _) as [i|] eqn:E; [|done]. cbn [fmap option_fmap option_map]. intros [= <-].
  apply str_find_bound in E. rewrite str_drop_length in E. cbn [String.length] in *. lia.
Qed.

Lemma pairs_after_fuel k text fuel close :
  (String.length text ≤ fuel + close)%nat → pairs_after (fuel + k) text close = pairs_after fuel text close.
Proof.
  revert close. induction fuel as [|fuel IH]; intros close Hf.
  - cbn [Nat.add pairs_after]. destruct k as [|k]; [done|]. cbn [pairs_after].
    rewrite (str_drop_all (close + _)) by lia. by rewrite starts_with_strip.
  - cbn [Nat.add pairs_after]. destruct (if starts_with _ _ then _ else None) as [next|] eqn:E; [|done].
    destruct (starts_with _ _); [|done]. apply closing_past in E. rewrite IH by lia. done.
Qed.

Lemma pairs_after_past fuel text close :
  (close ≤ String.length text)%nat → (close ≤ snd (pairs_after fuel text close) ≤ String.length text)%nat.
Proof.
  revert close. induction fuel as [|fuel IH]; intros close Hc; cbn [pairs_after].
  - by apply line_end_bound.
  - destruct (if starts_with _ _ then _ else None) as [next|] eqn:E; [|by apply line_end_bound].
    destruct (starts_with _ _); [|done]. apply closing_past in E.
    specialize (IH next). destruct (pairs_after fuel text next) as [ranges from]. cbn in *. lia.
Qed.

Lemma think_ranges_from_fuel k text fuel from :
  (String.length text ≤ fuel + from)%nat → think_ranges_from (fuel + k) text from = think_ranges_from fuel text from.
Proof.
  revert from. induction fuel as [|fuel IH]; intros from Hf.
  - cbn [Nat.add think_ranges_from]. destruct k as [|k]; [done|]. cbn [think_ranges_from].
    by rewrite (proj2 (Nat.leb_le _ _)) by lia.
  - cbn [Nat.add think_ranges_from]. destruct (Nat.leb_spec (String.length text) from) as [|Hlt]; [done|].
    pose proof (line_end_past text from Hlt) as He.
    set (line := str_take _ (str_drop from text)).
    assert (Hb : (String.length (drop_while is_space line) ≤ line_end text from - from)%nat).
    { rewrite drop_while_length. subst line. rewrite str_take_length. lia. }
    destruct (if _ && _ then _ else None) as [close|] eqn:E; [|by rewrite IH by lia].
    destruct (_ && _); [|done]. apply closing_past in E.
    pose proof (pairs_after_past (String.length text) text close ltac:(lia)) as Hp.
    destruct (pairs_after _ _ _) as [ranges from']. cbn in Hp. by rewrite IH by lia.
Qed.

Lemma run_of_pos ch s : starts_with (String ch "") s = true → (0 < run_of ch s)%nat.
Proof.
  rewrite starts_with_strip. destruct s as [|a s]; [done|]. unfold run_of. cbn [strip_prefix take_while].
  destruct (Ascii.eqb ch a); [cbn; lia|done].
Qed.

Lemma closing_run_fuel k text open fuel j :
  (String.length text ≤ fuel + j)%nat → closing_run (fuel + k) text open j = closing_run fuel text open j.
Proof.
  revert j. induction fuel as [|fuel IH]; intros j Hf.
  - cbn [Nat.add closing_run]. destruct k as [|k]; [done|]. cbn [closing_run].
    by rewrite (proj2 (Nat.leb_le _ _)) by lia.
  - cbn [Nat.add closing_run]. destruct (Nat.leb_spec (String.length text) j); [done|].
    destruct (starts_with "`" (str_drop j text)) eqn:E; [|by rewrite IH by lia].
    apply run_of_pos in E. destruct (_ =? _)%nat; [done|]. by rewrite IH by lia.
Qed.
Lemma closing_run_past text open fuel j e : closing_run fuel text open j = Some e → (j ≤ e)%nat.
Proof.
  revert j. induction fuel as [|fuel IH]; intros j; cbn [closing_run]; [done|].
  destruct (_ <=? _)%nat; [done|]. destruct (starts_with _ _).
  - destruct (_ =? _)%nat; [intros [= <-]; lia|]. intros He%IH. lia.
  - intros He%IH. lia.
Qed.

Lemma code_spans_from_fuel k text fuel i :
  (String.length text ≤ fuel + i)%nat → code_spans_from (fuel + k) text i = code_spans_from fuel text i.
Proof.
  revert i. induction fuel as [|fuel IH]; intros i Hf.
  - cbn [Nat.add code_spans_from]. destruct k as [|k]; [done|]. cbn [code_spans_from].
    by rewrite (proj2 (Nat.leb_le _ _)) by lia.
  - cbn [Nat.add code_spans_from]. destruct (Nat.leb_spec (String.length text) i); [done|].
    destruct (starts_with "`" (str_drop i text)) eqn:E; cbn [negb]; [|by rewrite IH by lia].
    apply run_of_pos in E. destruct (closing_run _ _ _ _) as [e|] eqn:Hc; [|by rewrite IH by lia].
    apply closing_run_past in Hc. by rewrite IH by lia.
Qed.

(** The masking loops end: each pass over the reasoning, a line's pairs and the code spans
    moves at least a byte on, so as many passes as the text has bytes finish the scan, and a
    longer run finds the same ranges. *)
Theorem scans_end (text : string) (k open at_ : nat) :
  let n := String.length text in
  think_ranges_from (n + k) text 0 = think_ranges_from n text 0
  ∧ pairs_after (n + k) text at_ = pairs_after n text at_
  ∧ code_spans_from (n + k) text 0 = code_spans text
  ∧ closing_run (n + k) text open at_ = closing_run n text open at_.
Proof.
  cbv zeta. conjs.
  - apply think_ranges_from_fuel. lia.
  - apply pairs_after_fuel. lia.
  - apply code_spans_from_fuel. lia.
  - apply closing_run_fuel. lia.
Qed.
