(* ===== verification/TextCallNotice.v ===== *)
(** * TextCallNotice: what the model is told of a call by a name that isn't offered

    [src/src/text_calls.rs], from [VERBS] on: the offered tools with names like a call's
    ([similar]), the edit distance it measures slips by, the notice saved after a reply that
    wrote calls as text, and its reader. *)

From S2P Require Import Prelude RustStr Notices ToolNames TextCalls.
Local Open Scope string_scope.

(** ** Words *)

Definition VERBS : list (string * list string) :=
  [("save", ["add"; "create"; "save"; "post"; "write"; "new"; "insert"; "put"; "set"; "update"; "edit"; "upsert"; "make"; "submit"]);
   ("get", ["get"; "read"; "fetch"; "view"; "show"; "retrieve"; "load"; "describe"; "open"]);
   ("list", ["list"; "search"; "find"; "query"; "browse"]);
   ("delete", ["delete"; "remove"; "rm"; "del"; "destroy"; "drop"])].

Definition str_in (s : string) (l : list string) : bool := existsb (λ x, bool_decide (x = s)) l.

(** A [BTreeSet<String>]: its words in order, each once. *)
Fixpoint btree_insert (w : string) (l : list string) : list string :=
  match l with
  | [] => [w]
  | x :: l' => if bool_decide (w = x) then l else if str_le w x then w :: l else x :: btree_insert w l'
  end.
Definition btree_of (l : list string) : list string := fold_left (λ set w, btree_insert w set) l [].

Definition is_word_separator (c : ascii) : bool := Ascii.eqb c "_" || Ascii.eqb c "-" || Ascii.eqb c ".".

Definition word_of (w : string) : string :=
  let w := to_ascii_lowercase w in
  let w := if (3 <? String.length w)%nat && ends_with "s" w then str_take (String.length w - 1) w else w in
  match List.find (λ '(_, all), str_in w all) VERBS with Some (verb, _) => verb | None => w end.

Definition server_and_words (name : string) : option string * list string :=
  let '(server, tool) := match parse_tool_name name with Some (s, t) => (Some s, t) | None => (None, name) end in
  (server, btree_of (map word_of (List.filter (λ w, negb (bool_decide (w = ""))) (split_on is_word_separator tool)))).

Definition is_verb (word : string) : bool := existsb (λ '(verb, _), bool_decide (verb = word)) VERBS.

(** One row of the table from the one before: [previous] is the old row's entry at this
    place and [row] what follows it, [left] the new row's entry to the left. *)
Fixpoint distance_row {A} `{EqDecision A} (ca : A) (left previous : nat) (row : list nat) (b : list A) : list nat :=
  match b, row with
  | cb :: b, above :: row =>
      let substituted := (previous + if bool_decide (ca = cb) then 0 else 1)%nat in
      let here := Nat.min (Nat.min substituted (left + 1)) (above + 1) in
      here :: distance_row ca here above row b
  | _, _ => []
  end.
Fixpoint distance_rows {A} `{EqDecision A} (i : nat) (row : list nat) (a b : list A) : list nat :=
  match a, row with
  | [], _ => row
  | ca :: a, previous :: rest => distance_rows (S i) ((i + 1)%nat :: distance_row ca (i + 1) previous rest b) a b
  | _, [] => []
  end.
Definition edit_distance {A} `{EqDecision A} (a b : list A) : nat :=
  List.last (distance_rows 0 (seq 0 (length b + 1)) a b) 0%nat.

Definition tool_part (name : string) : string :=
  match parse_tool_name name with Some (_, tool) => tool | None => name end.

Definition same_server (a b : option string) : bool :=
  match a, b with
  | Some a, Some b => eq_ignore_ascii_case a b
  | None, None => true
  | _, _ => false
  end.

(** A name's letters and digits, in lower case. *)
Fixpoint keep_bytes (f : ascii → bool) (s : string) : string :=
  match s with
  | EmptyString => ""
  | String a s' => if f a then String a (keep_bytes f s') else keep_bytes f s'
  end.
Definition joined (n : string) : string := to_ascii_lowercase (keep_bytes is_ascii_alphanumeric (tool_part n)).

Section Similar.
(** [str::to_lowercase]: of Unicode, so an argument of the model. *)
Variable to_lowercase : string → string.

Definition is_near (a b : string) : bool :=
  let a := str_chars (to_lowercase a) in
  let b := str_chars (to_lowercase b) in
  let longer := Nat.max (length a) (length b) in
  let allowed := if (8 <=? longer)%nat then (longer / 3)%nat else 1%nat in
  (5 <=? longer)%nat && negb (bool_decide (a = b)) && (edit_distance a b <=? allowed)%nat.

(** An offered tool with its server and words, and what it scored. *)
Record Candidate := { offer : string; offer_server : option string; offer_words : list string }.
Record Scored := { on_server : bool; score : nat; own_words : nat; scored_offer : string }.

Definition candidate (o : string) : Candidate :=
  let '(s, w) := server_and_words o in Build_Candidate o s w.
Definition candidates (name : string) (offered : list string) : list Candidate :=
  map candidate
    (List.filter (λ o, negb (bool_decide (o = name))) offered).

Definition weight (cands : list Candidate) (offered : nat) (word : string) : nat :=
  let df := Nat.max 1 (length (List.filter (λ c, str_in word (offer_words c)) cands)) in
  (1 + Nat.log2 (Nat.max 1 (Nat.max 1 offered / df)))%nat.

Definition shared_words (words : list string) (c : Candidate) : list string :=
  List.filter (λ w, str_in w (offer_words c)) words.
Definition near_score (weight : string → nat) (words : list string) (c : Candidate) : nat :=
  let unmatched := List.filter (λ nw, negb (is_verb nw) && negb (str_in nw (offer_words c))) words in
  list_sum (omap (λ cw,
    (λ nw, (Nat.min (weight cw) (weight nw) / 2 + 1)%nat) <$> List.find (λ nw, is_near nw cw) unmatched)
    (List.filter (λ cw, negb (is_verb cw) && negb (str_in cw words)) (offer_words c))).
(** Whether a candidate is like the name at all. *)
Definition is_like (name : string) (words : list string) (weight : string → nat) (c : Candidate) : bool :=
  existsb (λ w, negb (is_verb w)) (shared_words words c)
  || negb (near_score weight words c =? 0)%nat || bool_decide (joined name = joined (offer c)).

Definition score_of (name : string) (server : option string) (words : list string) (weight : string → nat) (c : Candidate)
    : option Scored :=
  let shared := shared_words words c in
  if is_like name words weight c then
    Some {| on_server := same_server server (offer_server c);
            score := (list_sum (map weight shared) + near_score weight words c
                      + if bool_decide (joined name = joined (offer c)) then 4 else 0)%nat;
            own_words := (length (offer_words c) - length shared)%nat;
            scored_offer := offer c |}
  else None.

(** The order of [sort_by]: better first. *)
Definition better (a b : Scored) : bool :=
  if negb (Bool.eqb (on_server a) (on_server b)) then on_server a
  else if negb (score a =? score b)%nat then (score b <? score a)%nat
  else if negb (own_words a =? own_words b)%nat then (own_words a <? own_words b)%nat
  else str_le (scored_offer a) (scored_offer b).

Definition scored (name : string) (offered : list string) : list Scored :=
  let words := snd (server_and_words name) in
  let server := fst (server_and_words (safe_tool_name name)) in
  let cands := candidates name offered in
  sort_by better (omap (score_of name server words (weight cands (length offered))) cands).
Definition similar (name : string) (offered : list string) : list string :=
  map scored_offer (take 5 (scored name offered)).

(** ** The notice *)

Definition quote_names (names : list string) : string := join ", " (map (λ n, "`" +:+ n +:+ "`") names).

(** Whether some offered name is on one of the servers. *)
Definition server_offered (servers : list string) (offered : list string) : bool :=
  existsb (λ o, match parse_tool_name o with
                | Some (s, _) => existsb (eq_ignore_ascii_case s) servers
                | None => false
                end) offered.

Definition unoffered_sentence (name : string) (offered : list string) : string :=
  let safe_server := fst <$> parse_tool_name (safe_tool_name name) in
  let missing_server :=
    match fst <$> parse_tool_name name with
    | Some server =>
        if server_offered (server :: match safe_server with Some w => [w] | None => [] end) offered
        then None else Some server
    | None => None
    end in
  let suggestions := similar name offered in
  ("`" +:+ name +:+ "` isn't an offered tool")
  +:+ match missing_server with
      | Some server => ", and no MCP server `" +:+ server +:+ "` is offered"
      | None => ""
      end
  +:+ match suggestions, missing_server with
      | _ :: _, _ => "; similar offered tools: " +:+ quote_names suggestions +:+ "."
      | [], Some _ => "."
      | [], None => ", and no offered tool has a similar name."
      end.

(** What the notice says of one call, after the space before it. *)
Definition call_sentence (offered : list string) (call : TextCall) : string :=
  match call with
  | None => UNREADABLE +:+ "."
  | Some name =>
      if str_in name offered then "`" +:+ name +:+ "` is offered, but a call written in a reply's text isn't made."
      else unoffered_sentence name offered
  end.
Definition text_call_notice (calls : list TextCall) (offered : list string) : string :=
  fold_left (λ notice call, notice +:+ " " +:+ call_sentence offered call) calls (mark_notice TEXT_CALL_NOTICE_START)
  +:+ TEXT_CALL_NOTICE_END.

Definition is_unknown_name_error (error : string) : bool :=
  starts_with "unknown tool: " error || starts_with "unknown MCP server: " error.

Definition is_unoffered_tool_of_an_offered_server (name : string) (offered : list string) : bool :=
  if str_in name offered then false
  else
    match parse_tool_name name, parse_tool_name (safe_tool_name name) with
    | Some (raw, _), Some (server, _) =>
        existsb (λ o, match parse_tool_name o with
                      | Some (s, _) => bool_decide (s = server) || bool_decide (s = raw)
                      | None => false
                      end) offered
    | _, _ => false
    end.

Definition unoffered_call_result (error name : string) (offered : list string) : string :=
  error +:+ String newline "" +:+ unoffered_sentence name offered.
End Similar.

Definition unoffered_bound_error (name : string) : string :=
  "The model called a tool that isn't offered, or wrote a call as text, "
  +:+ pretty (MAX_TEXT_CALL_CORRECTIONS + 1)%nat +:+ " times in a row (the last: `" +:+ name +:+ "`), so the turn stopped.".

Definition bound_error (calls : list TextCall) : string :=
  let last :=
    match head (omap id calls) with
    | Some name => "the last: `" +:+ name +:+ "`"
    | None => "the last one's tool name couldn't be read"
    end in
  "The model wrote a tool call as text instead of making it "
  +:+ pretty (MAX_TEXT_CALL_CORRECTIONS + 1)%nat +:+ " times in a row (" +:+ last +:+ "), so the turn stopped.".

Definition parse_sentence (sentence : string) : option TextCall :=
  if bool_decide (sentence = UNREADABLE) then Some None
  else
    rest ← strip_prefix "`" sentence;
    '(name, tail) ← split_once "`" rest;
    if starts_with " is offered" tail || starts_with " isn't an offered tool" tail
    then name ← checked name; Some (Some name)
    else None.
Definition parse_text_call_notice (text : string) : option (list TextCall) :=
  body ← strip_prefix NOTICE_MARK text;
  body ← strip_prefix TEXT_CALL_NOTICE_START body;
  body ← strip_suffix TEXT_CALL_NOTICE_END body;
  body ← strip_prefix " " body;
  body ← strip_suffix "." body;
  mapM parse_sentence (split_str ". " body).

(** ** Edit distance *)

Section EditDistance.
Context {A : Type} `{EqDecision A}.

(** [n] characters inserted, deleted or changed make [b] of [a]. *)
Inductive edits : nat → list A → list A → Prop :=
  | edits_done : edits 0 [] []
  | edits_keep n x a b : edits n a b → edits n (x :: a) (x :: b)
  | edits_change n x y a b : edits n a b → edits (S n) (x :: a) (y :: b)
  | edits_insert n y a b : edits n a b → edits (S n) a (y :: b)
  | edits_delete n x a b : edits n a b → edits (S n) (x :: a) b.

Lemma edits_app n a b m a' b' : edits n a b → edits m a' b' → edits (n + m) (a ++ a') (b ++ b').
Proof. intros He Hm. induction He; cbn; [done|constructor; done..]. Qed.

Lemma edits_reverse n a b : edits n a b → edits n (reverse a) (reverse b).
Proof.
  intros He. induction He as [|n x a b _ IH|n x y a b _ IH|n y a b _ IH|n x a b _ IH]; [constructor|..].
  - rewrite !reverse_cons. replace n with (n + 0)%nat by lia. apply edits_app; [done|repeat constructor].
  - rewrite !reverse_cons. replace (S n) with (n + 1)%nat by lia. apply edits_app; [done|repeat constructor].
  - rewrite reverse_cons. replace (S n) with (n + 1)%nat by lia. rewrite <-(app_nil_r (reverse a)).
    apply edits_app; [done|repeat constructor].
  - rewrite reverse_cons. replace (S n) with (n + 1)%nat by lia. rewrite <-(app_nil_r (reverse b)).
    apply edits_app; [done|repeat constructor].
Qed.

(** The recursive distance, which the table computes on reversed prefixes. *)
Fixpoint lev (a : list A) : list A → nat :=
  fix lev_a b :=
    match a, b with
    | [], _ => length b
    | _, [] => length a
    | x :: a', y :: b' =>
        Nat.min (Nat.min (lev a' b' + if bool_decide (x = y) then 0 else 1) (lev_a b' + 1)) (lev a' b + 1)
    end%nat.

Lemma lev_nil_r a : lev a [] = length a.
Proof. by destruct a. Qed.
Lemma lev_cons x a y b :
  lev (x :: a) (y :: b) =
  Nat.min (Nat.min (lev a b + if bool_decide (x = y) then 0 else 1) (lev (x :: a) b + 1)) (lev a (y :: b) + 1).
Proof. done. Qed.
Lemma lev_nil_l b : lev [] b = length b.
Proof. by destruct b. Qed.
#[local] Opaque lev.

Lemma lev_edits a b : edits (lev a b) a b.
Proof.
  revert b. induction a as [|x a IHa]; intros b.
  - rewrite lev_nil_l. induction b; constructor; done.
  - induction b as [|y b IHb].
    + rewrite lev_nil_r. cbn. constructor. specialize (IHa []). by rewrite lev_nil_r in IHa.
    + rewrite lev_cons. set (c := if bool_decide (x = y) then 0 else 1).
      destruct (Nat.min_spec (Nat.min (lev a b + c) (lev (x :: a) b + 1)) (lev a (y :: b) + 1)) as [[_ ->]|[_ ->]].
      * destruct (Nat.min_spec (lev a b + c) (lev (x :: a) b + 1)) as [[_ ->]|[_ ->]].
        -- subst c. case_bool_decide as Hxy.
           ++ subst. rewrite Nat.add_0_r. by constructor.
           ++ rewrite Nat.add_1_r. by constructor.
        -- rewrite Nat.add_1_r. by constructor.
      * rewrite Nat.add_1_r. by constructor.
Qed.

Lemma lev_insert a y b : (lev a (y :: b) ≤ S (lev a b))%nat.
Proof. destruct a as [|x a]; [rewrite !lev_nil_l; done|]. rewrite lev_cons. lia. Qed.
Lemma lev_delete x a b : (lev (x :: a) b ≤ S (lev a b))%nat.
Proof. destruct b as [|y b]; [rewrite !lev_nil_r; done|]. rewrite lev_cons. lia. Qed.

Lemma lev_least n a b : edits n a b → (lev a b ≤ n)%nat.
Proof.
  intros He. induction He as [|n x a b _ IH|n x y a b _ IH|n y a b _ IH|n x a b _ IH].
  - by rewrite lev_nil_l.
  - rewrite lev_cons, bool_decide_eq_true_2 by done. lia.
  - rewrite lev_cons. destruct (bool_decide (x = y)); lia.
  - pose proof (lev_insert a y b). lia.
  - pose proof (lev_delete x a b). lia.
Qed.

(** The row's entries past the first, for the prefixes that extend [acc]. *)
Fixpoint entries (pa acc b : list A) : list nat :=
  match b with
  | [] => []
  | y :: b => lev pa (y :: acc) :: entries pa (y :: acc) b
  end.

Lemma distance_row_entries x pa acc b :
  distance_row x (lev (x :: pa) acc) (lev pa acc) (entries pa acc b) b = entries (x :: pa) acc b.
Proof.
  revert acc. induction b as [|y b IH]; intros acc; [done|]. cbn [distance_row entries].
  rewrite <-IH, <-lev_cons. done.
Qed.

Lemma distance_rows_entries a pa b :
  distance_rows (length pa) (lev pa [] :: entries pa [] b) a b
  = lev (reverse a ++ pa) [] :: entries (reverse a ++ pa) [] b.
Proof.
  revert pa. induction a as [|x a IH]; intros pa; [done|]. cbn [distance_rows].
  assert (Hl : (length pa + 1)%nat = lev (x :: pa) []) by (rewrite lev_nil_r; cbn; lia).
  rewrite Hl, distance_row_entries, <-lev_nil_r.
  replace (S (lev pa [])) with (length (x :: pa)) by (rewrite lev_nil_r; done).
  rewrite IH. by rewrite reverse_cons, <-app_assoc.
Qed.

Lemma entries_first acc b : length acc :: entries [] acc b = seq (length acc) (length b + 1).
Proof.
  revert acc. induction b as [|y b IH]; intros acc; [done|].
  cbn [entries length Nat.add seq]. f_equal. rewrite lev_nil_l. apply (IH (y :: acc)).
Qed.

Lemma entries_last pa acc b : List.last (lev pa acc :: entries pa acc b) 0%nat = lev pa (reverse b ++ acc).
Proof.
  revert acc. induction b as [|y b IH]; intros acc; [done|].
  rewrite reverse_cons, <-app_assoc. cbn [app]. rewrite <-IH. done.
Qed.

(** [edit_distance] is the least number of characters inserted, deleted or changed that
    makes one text of the other. *)
Theorem edit_distance_correct (a b : list A) :
  edits (edit_distance a b) a b ∧ ∀ n, edits n a b → (edit_distance a b ≤ n)%nat.
Proof.
  assert (edit_distance a b = lev (reverse a) (reverse b)) as ->.
  { unfold edit_distance. pose proof (distance_rows_entries a [] b) as Hr.
    pose proof (entries_first [] b) as Hf.
    rewrite lev_nil_l in Hr. cbn [length] in Hr, Hf. rewrite Hf in Hr.
    rewrite Hr, entries_last. by rewrite !app_nil_r. }
  split.
  - rewrite <-(reverse_involutive a), <-(reverse_involutive b) at 2. apply edits_reverse, lev_edits.
  - intros n He. by apply lev_least, edits_reverse.
Qed.
End EditDistance.

(** ** Sentences *)

(** A text with no end of a sentence in it, that doesn't start with a space: what the notice
    puts before a full stop. *)
Definition DOT_SPACE : string := ". ".
Definition tidy (s : string) : Prop := contains DOT_SPACE s = false ∧ starts_with " " s = false.

Lemma contains_cons p a s : contains p (String a s) = starts_with p (String a s) || contains p s.
Proof.
  rewrite starts_with_strip. unfold contains. cbn [split_once].
  destruct (strip_prefix p (String a s)); [done|]. by destruct (split_once p s) as [[??]|].
Qed.
Lemma contains_dot_space_cons a s :
  contains DOT_SPACE (String a s) = (Ascii.eqb a "." && starts_with " " s) || contains DOT_SPACE s.
Proof.
  rewrite contains_cons, !starts_with_strip. f_equal. unfold DOT_SPACE. cbn [strip_prefix].
  rewrite (Ascii.eqb_sym "." a). by destruct (Ascii.eqb a ".").
Qed.

Lemma starts_with_char_cons c a s : starts_with (String c "") (String a s) = Ascii.eqb c a.
Proof. rewrite starts_with_strip. cbn. by destruct (Ascii.eqb c a). Qed.

Lemma starts_with_space_app s t :
  starts_with " " s = false → starts_with " " t = false → starts_with " " (s +:+ t) = false.
Proof. destruct s as [|a s]; [done|]. by rewrite str_app_cons, !starts_with_char_cons. Qed.

Lemma tidy_app s t : tidy s → tidy t → tidy (s +:+ t).
Proof.
  intros [Hs Hs1] [Ht Ht1]. split; [|by apply starts_with_space_app]. clear Hs1.
  induction s as [|a s IH]; [done|].
  rewrite contains_dot_space_cons in Hs. apply orb_false_iff in Hs as [Ha Hs].
  rewrite str_app_cons, contains_dot_space_cons, IH by done. rewrite orb_false_r.
  destruct (Ascii.eqb a "."); [|done]. by apply starts_with_space_app.
Qed.

(** A name has no space in it. *)
Definition no_space (s : string) : Prop := contains " " s = false.
Lemma no_space_tidy s : no_space s → tidy s.
Proof.
  unfold no_space. induction s as [|a s IH]; [done|]. rewrite contains_char_cons.
  intros [Ha Hs]%orb_false_iff. destruct (IH Hs) as [H1 H2].
  split; [|by rewrite starts_with_char_cons].
  rewrite contains_dot_space_cons, H1, orb_false_r, H2. apply andb_false_r.
Qed.
Lemma no_space_str_drop n s : no_space s → no_space (str_drop n s).
Proof.
  unfold no_space. revert s. induction n as [|n IH]; intros [|a s]; try done.
  rewrite contains_char_cons. intros [_ Hs]%orb_false_iff. by apply IH.
Qed.

Lemma split_dot_space b rest :
  contains DOT_SPACE b = false → split_once DOT_SPACE (b +:+ DOT_SPACE +:+ rest) = Some (b, rest).
Proof.
  unfold DOT_SPACE. induction b as [|a b IH]; intros Hb; [done|].
  rewrite contains_dot_space_cons in Hb. apply orb_false_iff in Hb as [Ha Hb].
  rewrite str_app_cons. cbn [split_once]. rewrite IH by done.
  destruct (strip_prefix ". " (String a (b +:+ ". " +:+ rest))) as [r|] eqn:E; [|done].
  exfalso. apply strip_prefix_Some in E. rewrite !str_app_cons in E. injection E as -> E.
  destruct b as [|c b]; [done|]. rewrite str_app_cons in E. injection E as -> _.
  by rewrite starts_with_char_cons in Ha.
Qed.

Lemma split_str_fuel_bodies bs fuel :
  bs ≠ [] → Forall (λ b, contains DOT_SPACE b = false) bs → (length bs ≤ S fuel)%nat →
  split_str_fuel fuel DOT_SPACE (join DOT_SPACE bs) = bs.
Proof.
  revert fuel. induction bs as [|b bs IH]; intros fuel Hne Hall Hf; [done|].
  inversion Hall as [|? ? Hb Hbs]; subst. destruct bs as [|b' bs].
  - apply split_once_None in Hb. destruct fuel; cbn [join split_str_fuel]; [done|]. by rewrite Hb.
  - destruct fuel as [|fuel]; [cbn in Hf; lia|].
    change (join DOT_SPACE (b :: b' :: bs)) with (b +:+ DOT_SPACE +:+ join DOT_SPACE (b' :: bs)).
    cbn [split_str_fuel]. rewrite split_dot_space by done. f_equal. apply IH; [done|done|cbn in Hf |- *; lia].
Qed.

Lemma join_length bs : (2 * length bs ≤ String.length (join DOT_SPACE bs) + 2)%nat.
Proof.
  induction bs as [|b bs IH]; [cbn; lia|]. destruct bs as [|b' bs]; [cbn; lia|].
  change (join DOT_SPACE (b :: b' :: bs)) with (b +:+ DOT_SPACE +:+ join DOT_SPACE (b' :: bs)).
  rewrite !str_length_app. cbn [length String.length DOT_SPACE] in *. lia.
Qed.

Lemma split_str_bodies bs :
  bs ≠ [] → Forall (λ b, contains DOT_SPACE b = false) bs → split_str ". " (join DOT_SPACE bs) = bs.
Proof.
  intros Hne Hall. apply split_str_fuel_bodies; [done|done|]. pose proof (join_length bs).
  destruct bs as [|b [|b' bs]]; [done|cbn; lia|]. cbn [length] in *. lia.
Qed.

(** The sentences, each after a space and ending in a full stop. *)
Lemma sentences_join bs :
  bs ≠ [] → String.concat "" (map (λ b, " " +:+ b +:+ ".") bs) = " " +:+ join DOT_SPACE bs +:+ ".".
Proof.
  induction bs as [|b bs IH]; [done|]. intros _. destruct bs as [|b' bs]; [done|].
  change (join DOT_SPACE (b :: b' :: bs)) with (b +:+ DOT_SPACE +:+ join DOT_SPACE (b' :: bs)).
  change (String.concat "" (map (λ b, " " +:+ b +:+ ".") (b :: b' :: bs)))
    with ((" " +:+ b +:+ ".") +:+ "" +:+ String.concat "" (map (λ b, " " +:+ b +:+ ".") (b' :: bs))).
  rewrite IH by done. rewrite str_app_nil_l, !str_app_assoc. done.
Qed.

(** ** The offered tools like a name *)

Section SimilarFacts.
Variable to_lowercase : string → string.

Lemma similar_offered name offered o : o ∈ similar to_lowercase name offered → o ∈ offered ∧ o ≠ name.
Proof.
  unfold similar, scored. intros (s & -> & Hs)%list_elem_of_fmap. apply subseteq_take in Hs.
  rewrite sort_by_perm in Hs. apply list_elem_of_omap in Hs as (c & Hc & Hsc).
  unfold score_of in Hsc. destruct (is_like _ _ _ _ c); [|done]. injection Hsc as <-. cbn.
  unfold candidates in Hc. apply list_elem_of_fmap in Hc as (o & -> & Ho).
  apply list_elem_of_In, filter_In in Ho as [Ho Hne]. bool_to_prop.
  unfold candidate. destruct (server_and_words o); cbn. split; [by apply list_elem_of_In|done].
Qed.

Lemma quote_names_tidy names : Forall no_space names → tidy (quote_names names).
Proof.
  unfold quote_names. induction names as [|n names IH]; [done|]. intros Hall. inversion Hall; subst.
  cbn [map]. assert (Hq : tidy ("`" +:+ n +:+ "`")) by (repeat apply tidy_app; [done|by apply no_space_tidy|done]).
  destruct names as [|n' names]; [done|]. cbn [map join] in *. 
  apply tidy_app; [done|]. apply tidy_app; [done|]. by apply IH.
Qed.

Lemma no_space_parse_tool_name name server tool :
  no_space name → parse_tool_name name = Some (server, tool) → no_space server.
Proof.
  unfold parse_tool_name. intros Hn Hp. apply bind_Some in Hp as (rest & E1%strip_prefix_Some & E2%split_once_Some).
  subst. unfold no_space in *. rewrite !contains_char_app in Hn. apply orb_false_iff in Hn as [_ Hn].
  by apply orb_false_iff in Hn as [Hn _].
Qed.

(** One call's sentence is a tidy text and a full stop, and the text reads back as the call. *)
Lemma call_sentence_reads offered call :
  Forall no_space offered → (∀ name, call = Some name → checked name = Some name) →
  ∃ b, call_sentence to_lowercase offered call = b +:+ "." ∧ tidy b ∧ parse_sentence b = Some call.
Proof.
  intros Ho Hc. destruct call as [name|]; [|by exists UNREADABLE]. specialize (Hc name eq_refl).
  assert (Hn : all_bytes is_call_name_char name = true).
  { unfold checked in Hc. destruct (_ && _) eqn:E; [|done]. by bool_to_prop. }
  assert (Hs : no_space name).
  { clear -Hn. unfold no_space. induction name as [|a name IH]; [done|]. cbn [all_bytes] in Hn.
    apply andb_true_iff in Hn as [Ha Hn]. rewrite contains_char_cons, IH, orb_false_r by done.
    destruct (Ascii.eqb_spec " " a) as [<-|]; done. }
  assert (Hb : contains "`" name = false).
  { clear -Hn. induction name as [|a name IH]; [done|]. cbn [all_bytes] in Hn.
    apply andb_true_iff in Hn as [Ha Hn]. rewrite contains_char_cons, IH, orb_false_r by done.
    destruct (Ascii.eqb_spec "`" a) as [<-|]; done. }
  assert (Hread : ∀ tail, starts_with " is offered" tail || starts_with " isn't an offered tool" tail = true →
    parse_sentence ("`" +:+ name +:+ "`" +:+ tail) = Some (Some name)).
  { intros tail Ht. unfold parse_sentence. rewrite bool_decide_eq_false_2 by done.
    rewrite strip_prefix_app. cbn [mbind option_bind].
    pose proof (split_once_char_app "`" name tail Hb) as Hsp. rewrite str_app_cons, str_app_nil_l.
    rewrite Hsp. cbn [mbind option_bind]. rewrite Ht, Hc. done. }
  assert (Hq : tidy ("`" +:+ name)) by (apply tidy_app; [done|by apply no_space_tidy]).
  assert (Hbody : ∀ tail rest, tidy (String "`" tail) → tidy rest →
    starts_with " is offered" tail || starts_with " isn't an offered tool" tail = true →
    ∃ b, ("`" +:+ name +:+ String "`" tail) +:+ rest +:+ "." = b +:+ "." ∧ tidy b ∧ parse_sentence b = Some (Some name)).
  { intros tail rest Ht Hr Hk. exists (("`" +:+ name +:+ String "`" tail) +:+ rest). conjs.
    - by rewrite !str_app_assoc.
    - apply tidy_app; [|done]. rewrite <-str_app_assoc. by apply tidy_app.
    - rewrite !str_app_assoc, str_app_cons. apply (Hread (tail +:+ rest)).
      apply orb_true_iff. apply orb_true_iff in Hk as [[r ->]%starts_with_true|[r ->]%starts_with_true];
        [left|right]; rewrite str_app_assoc; apply starts_with_app. }
  unfold call_sentence. destruct (str_in name offered).
  { destruct (Hbody " is offered, but a call written in a reply's text isn't made" "") as (b & Heq & ? & ?); [done..|].
    exists b. by rewrite <-Heq, str_app_nil_l, !str_app_assoc. }
  unfold unoffered_sentence.
  set (missing := match fst <$> parse_tool_name name with Some server => _ | None => None end).
  assert (Hm : ∀ server, missing = Some server → no_space server).
  { intros server Hmiss. subst missing. destruct (parse_tool_name name) as [[s t]|] eqn:E; [|done]. cbn in Hmiss.
    destruct (server_offered _ _); [done|]. injection Hmiss as <-. by eapply no_space_parse_tool_name. }
  set (where_ := match missing with Some server => _ | None => "" end).
  assert (Hw : tidy where_).
  { subst where_. destruct missing as [server|]; [|done].
    apply tidy_app; [done|]. apply tidy_app; [by apply no_space_tidy, Hm|done]. }
  assert (Hsim : Forall no_space (similar to_lowercase name offered)).
  { apply Forall_forall. intros o [Hin _]%similar_offered. by eapply Forall_forall in Ho. }
  destruct (similar to_lowercase name offered) as [|o os].
  - destruct missing as [server|].
    + destruct (Hbody " isn't an offered tool" where_) as (b & Heq & ? & ?); [done..|].
      exists b. rewrite <-Heq, !str_app_assoc. done.
    + destruct (Hbody " isn't an offered tool" ", and no offered tool has a similar name") as (b & Heq & ? & ?); [done..|].
      exists b. rewrite <-Heq, !str_app_assoc. done.
  - destruct (Hbody " isn't an offered tool" (where_ +:+ "; similar offered tools: " +:+ quote_names (o :: os)))
      as (b & Heq & ? & ?); [done| |done|].
    + apply tidy_app; [done|]. apply tidy_app; [done|]. by apply quote_names_tidy.
    + exists b. rewrite <-Heq, !str_app_assoc. done.
Qed.

Lemma fold_sentences offered calls init :
  fold_left (λ notice call, notice +:+ " " +:+ call_sentence to_lowercase offered call) calls init
  = init +:+ String.concat "" (map (λ call, " " +:+ call_sentence to_lowercase offered call) calls).
Proof.
  revert init. induction calls as [|c calls IH]; intros init; [cbn; by rewrite str_app_nil_r|].
  cbn [fold_left]. rewrite IH. cbn [map]. destruct calls as [|c' calls]; [cbn; by rewrite str_app_nil_r|].
  by rewrite str_app_assoc.
Qed.

(** The transcript reads back who was called: for the calls of a reply, by name or unreadable,
    and whatever tools are offered, the notice the model is sent parses to the same calls in
    the same order; unmarked, the same words parse to nothing. *)
Theorem text_call_notice_reads_back (calls : list TextCall) (offered : list string) :
  calls ≠ [] →
  (∀ name, Some name ∈ calls → checked name = Some name) →
  Forall no_space offered →
  parse_text_call_notice (text_call_notice to_lowercase calls offered) = Some calls
  ∧ parse_text_call_notice (users_text (text_call_notice to_lowercase calls offered)) = None.
Proof.
  intros Hne Hc Ho. split; [|unfold parse_text_call_notice; by rewrite users_text_unmarked].
  assert (∃ bs, Forall2 (λ call b, call_sentence to_lowercase offered call = b +:+ "." ∧ tidy b
                                   ∧ parse_sentence b = Some call) calls bs) as [bs Hbs].
  { clear Hne. induction calls as [|call calls IH]; [by exists []|].
    destruct IH as [bs Hbs]; [intros name Hin; apply Hc; by right|].
    destruct (call_sentence_reads offered call) as (b & Hb); [done| |].
    - intros name ->. apply Hc. by left.
    - exists (b :: bs). by constructor. }
  unfold text_call_notice, parse_text_call_notice, mark_notice. rewrite fold_sentences, !str_app_assoc.
  rewrite strip_prefix_app. cbn [mbind option_bind]. rewrite strip_prefix_app. cbn [mbind option_bind].
  rewrite strip_suffix_app. cbn [mbind option_bind].
  assert (map (λ call, " " +:+ call_sentence to_lowercase offered call) calls = map (λ b, " " +:+ b +:+ ".") bs) as ->.
  { clear -Hbs. induction Hbs as [|call b calls bs Hb _ IH]; [done|].
    cbn [map]. destruct Hb as [Hb _]. by rewrite Hb, IH. }
  assert (Hbne : bs ≠ []) by (intros ->; by inversion Hbs).
  rewrite sentences_join by done. rewrite strip_prefix_app. cbn [mbind option_bind].
  rewrite strip_suffix_app. cbn [mbind option_bind]. rewrite split_str_bodies.
  - apply mapM_Some. clear -Hbs. induction Hbs as [|call b calls bs (_ & _ & Hp) _ IH]; constructor; done.
  - done.
  - clear -Hbs. induction Hbs as [|call b calls bs (_ & [Ht _] & _) _ IH]; constructor; done.
Qed.
End SimilarFacts.

Lemma text_call_notice_reads_back_witness :
  let calls := [Some "mcp__linear.app__add_issue_comment"; None; Some "read_file"] in
  parse_text_call_notice (text_call_notice to_ascii_lowercase calls ["read_file"; "mcp__linear_app__save_comment"])
  = Some calls.
Proof.
  cbv zeta. refine (proj1 (text_call_notice_reads_back to_ascii_lowercase _ _ _ _ _)).
  - done.
  - intros name Hin. rewrite !elem_of_cons in Hin.
    destruct Hin as [[= ->]|[[=]|[[= ->]|[]%not_elem_of_nil]]]; vm_compute; reflexivity.
  - repeat constructor; vm_compute; reflexivity.
Defined.

(** ** The order of suggestions *)

Lemma ascii_compare_eq a b : Ascii.compare a b = Eq → a = b.
Proof. apply Ascii.compare_eq_iff. Qed.
Lemma string_compare_cons a s b t :
  String.compare (String a s) (String b t) =
  match N.compare (N_of_ascii a) (N_of_ascii b) with Eq => String.compare s t | c => c end.
Proof. done. Qed.
Lemma str_le_cons a s b t :
  str_le (String a s) (String b t) = true ↔
  (N_of_ascii a < N_of_ascii b)%N ∨ (N_of_ascii a = N_of_ascii b ∧ str_le s t = true).
Proof.
  unfold str_le. rewrite string_compare_cons. destruct (N.compare_spec (N_of_ascii a) (N_of_ascii b)); naive_solver lia.
Qed.
Lemma str_le_total s t : str_le s t = false → str_le t s = true.
Proof.
  revert t. induction s as [|a s IH]; intros [|b t]; try done. intros Hf. apply str_le_cons.
  destruct (N.lt_trichotomy (N_of_ascii a) (N_of_ascii b)) as [Hl|[He|Hg]]; [| |by left].
  - assert (str_le (String a s) (String b t) = true) by (apply str_le_cons; by left). congruence.
  - right. split; [done|]. apply IH. destruct (str_le s t) eqn:E; [|done].
    assert (str_le (String a s) (String b t) = true) by (apply str_le_cons; by right). congruence.
Qed.
Lemma str_le_trans s t u : str_le s t = true → str_le t u = true → str_le s u = true.
Proof.
  revert t u. induction s as [|a s IH]; intros t u; [by destruct u|].
  destruct t as [|b t]; [done|]. destruct u as [|c u]; [done|]. rewrite !str_le_cons.
  intros [?|[? ?]] [?|[? ?]]; [left; lia..|right]. split; [congruence|eauto].
Qed.

Lemma better_spec a b :
  better a b = true ↔
  (on_server a = true ∧ on_server b = false)
  ∨ (on_server a = on_server b ∧
     ((score b < score a)%nat
      ∨ (score a = score b ∧ ((own_words a < own_words b)%nat
          ∨ (own_words a = own_words b ∧ str_le (scored_offer a) (scored_offer b) = true))))).
Proof.
  unfold better. destruct (on_server a), (on_server b); cbn [Bool.eqb negb];
    try (intuition (done || congruence));
    destruct (Nat.eqb_spec (score a) (score b)); cbn [negb]; try (rewrite Nat.ltb_lt; (intuition (try lia; try congruence)));
    destruct (Nat.eqb_spec (own_words a) (own_words b)); cbn [negb]; try (rewrite Nat.ltb_lt; (intuition (try lia; try congruence)));
    (intuition (try lia; try congruence)).
Qed.
Lemma better_total a b : better a b = false → better b a = true.
Proof.
  intros Hf. apply not_true_iff_false in Hf. rewrite better_spec in Hf |- *.
  pose proof (str_le_total (scored_offer a) (scored_offer b)) as Ht.
  destruct (str_le (scored_offer a) (scored_offer b)); [clear Ht|specialize (Ht eq_refl)];
    destruct (Nat.lt_trichotomy (score a) (score b)) as [?|[?|?]];
    destruct (Nat.lt_trichotomy (own_words a) (own_words b)) as [?|[?|?]];
    destruct (on_server a), (on_server b); (intuition (try lia; try congruence)).
Qed.
Lemma better_trans a b c : better a b = true → better b c = true → better a c = true.
Proof.
  rewrite !better_spec. pose proof (str_le_trans (scored_offer a) (scored_offer b) (scored_offer c)) as Ht.
  intros [[-> Hb]|[-> [Hs|[Hs [Hw|[Hw Hl]]]]]] [[Hb' ->]|[<- [Hs'|[Hs' [Hw'|[Hw' Hl']]]]]];
    rewrite ?Hb, ?Hb'; try naive_solver lia; try congruence;
    right; (split; [done|]); try (left; lia); right; (split; [congruence|]); try (left; lia);
    right; (split; [congruence|auto]).
Qed.

Section SimilarCorrect.
Variable to_lowercase : string → string.

(** The suggestions for a name are at most five offered tools, each like it: they share a
    word that isn't a verb with it, have a word that is a slip of one of its words, or are the
    same name but for separators.  They are the best ones, best first: on the name's own MCP
    server before others, then by the weight of what is shared, then fewer other words, then
    by name; a tool like the name is left out only when five at least as good are named. *)
Theorem similar_correct (name : string) (offered : list string) :
  let words := snd (server_and_words name) in
  let w := weight (candidates name offered) (length offered) in
  let scored_of o := score_of to_lowercase name (fst (server_and_words (safe_tool_name name))) words w (candidate o) in
  let found := similar to_lowercase name offered in
  (length found ≤ 5)%nat
  ∧ (∀ o, o ∈ found → o ∈ offered ∧ o ≠ name ∧ is_like to_lowercase name words w (candidate o) = true)
  ∧ (∃ ranked, found = map scored_offer ranked ∧ sorted_by better ranked
       ∧ Forall (λ s, scored_of (scored_offer s) = Some s) ranked)
  ∧ (∀ o s, o ∈ offered → o ≠ name → scored_of o = Some s → o ∉ found →
       length found = 5%nat ∧ ∀ o' s', o' ∈ found → scored_of o' = Some s' → better s' s = true).
Proof.
  cbv zeta. set (words := snd (server_and_words name)). set (w := weight _ _).
  set (scored_of := λ o, score_of to_lowercase name _ words w (candidate o)).
  set (l := scored to_lowercase name offered).
  assert (Hoffer : ∀ o s, scored_of o = Some s → scored_offer s = o ∧ is_like to_lowercase name words w (candidate o) = true).
  { intros o s. unfold scored_of, score_of, candidate. destruct (server_and_words o) as [sv ws].
    destruct (is_like _ _ _ _ _); [|done]. by intros [= <-]. }
  assert (Hl : ∀ s, s ∈ l ↔ ∃ o, o ∈ offered ∧ o ≠ name ∧ scored_of o = Some s).
  { intros s. unfold l, scored. rewrite sort_by_perm, list_elem_of_omap. split.
    - intros (c & (o & -> & Ho)%list_elem_of_fmap & Hs).
      apply list_elem_of_In, filter_In in Ho as [Ho%list_elem_of_In Hne]. bool_to_prop. by exists o.
    - intros (o & Ho & Hne & Hs). exists (candidate o). split; [|done]. unfold candidates.
      apply list_elem_of_fmap_2, list_elem_of_In, filter_In. split; [by apply list_elem_of_In|].
      by rewrite bool_decide_eq_false_2. }
  assert (Hsorted : sorted_by better l) by (apply sort_by_sorted; [apply better_total|apply better_trans]).
  assert (Hself : ∀ s, s ∈ l → scored_of (scored_offer s) = Some s).
  { intros s (o & _ & _ & Hs)%Hl. by destruct (Hoffer _ _ Hs) as [-> _]. }
  assert (Hfound : ∀ o, o ∈ similar to_lowercase name offered → ∃ s, s ∈ take 5 l ∧ o = scored_offer s).
  { intros o (s & -> & Hs)%list_elem_of_fmap. by exists s. }
  conjs.
  - unfold similar. rewrite length_map. apply firstn_le_length.
  - intros o Ho. destruct (similar_offered _ _ _ _ Ho) as [? ?]. conjs; [done|done|].
    apply Hfound in Ho as (s & Hs%subseteq_take & ->). by apply Hself, Hoffer in Hs as [_ ?].
  - exists (take 5 l). conjs; [done|by apply sorted_by_take|].
    apply Forall_forall. intros s Hs%subseteq_take. by apply Hself.
  - intros o s Ho Hne Hs Hout. assert (Hin : s ∈ l) by (apply Hl; eauto).
    destruct (Hoffer _ _ Hs) as [Hos _].
    assert (Hd : s ∈ drop 5 l).
    { rewrite <-(take_drop 5 l), elem_of_app in Hin. destruct Hin as [Hin|Hin]; [|done].
      destruct Hout. rewrite <-Hos. by apply list_elem_of_fmap_2. }
    split.
    + unfold similar. rewrite length_map. fold l. rewrite length_take.
      destruct (decide (length l ≤ 5)%nat) as [Hle|]; [|lia].
      rewrite drop_ge in Hd by done. by apply not_elem_of_nil in Hd.
    + intros o' s' (t & Ht & ->)%Hfound Hs'. rewrite (Hself t) in Hs' by (by eapply subseteq_take). injection Hs' as <-.
      by eapply sorted_by_take_drop.
Qed.
End SimilarCorrect.
