(* ===== verification/BTree.v ===== *)
(** * BTree: a [BTreeMap] as the association list it iterates

    Entries in key order, each key once.  [src/src/anthropic/stream.rs] keeps a reply's blocks in two of
    them.  Keys are compared by a boolean order, with what the lemmas need of it in a class. *)

From S2P Require Import Prelude.

Class KeyOrder (K : Type) `{EqDecision K} := {
  key_lt : K → K → bool;
  key_lt_irrefl : ∀ k, key_lt k k = false;
  key_lt_trans : ∀ a b c, key_lt a b = true → key_lt b c = true → key_lt a c = true;
  key_lt_total : ∀ a b, a ≠ b → key_lt a b = false → key_lt b a = true;
}.

Definition BTreeMap (K V : Type) := list (K * V).

Section Ops.
Context {K V : Type} `{KeyOrder K}.

(** [map.get(k)], [map.insert(k, v)], [map.remove(k)] and [map.keys().next()]. *)
Fixpoint bt_get (k : K) (m : BTreeMap K V) : option V :=
  match m with
  | [] => None
  | (a, v) :: m => if bool_decide (a = k) then Some v else bt_get k m
  end.
Fixpoint bt_insert (k : K) (v : V) (m : BTreeMap K V) : BTreeMap K V :=
  match m with
  | [] => [(k, v)]
  | (a, w) :: m' =>
      if bool_decide (a = k) then (k, v) :: m'
      else if key_lt k a then (k, v) :: m
      else (a, w) :: bt_insert k v m'
  end.
Definition bt_remove (k : K) (m : BTreeMap K V) : BTreeMap K V :=
  List.filter (λ p, negb (bool_decide (fst p = k))) m.
Definition bt_first (m : BTreeMap K V) : option K := match m with [] => None | (k, _) :: _ => Some k end.

(** Keys in strictly increasing order. *)
Fixpoint bt_ok (m : BTreeMap K V) : Prop :=
  match m with
  | [] => True
  | (k, _) :: m => (∀ a v, (a, v) ∈ m → key_lt k a = true) ∧ bt_ok m
  end.

Lemma bt_get_In k v m : bt_get k m = Some v → (k, v) ∈ m.
Proof.
  induction m as [|[a w] m IH]; [done|]. cbn. destruct (bool_decide (a = k)) eqn:E; bool_to_prop.
  - intros [= ->]. subst. by left.
  - intros Hg. right. auto.
Qed.
Lemma bt_In_get k v m : bt_ok m → (k, v) ∈ m → bt_get k m = Some v.
Proof.
  induction m as [|[a w] m IH]; [by intros _ ?%not_elem_of_nil|]. cbn. intros [Ha Hm] [[= -> ->]|Hin]%elem_of_cons.
  - by rewrite bool_decide_eq_true_2.
  - destruct (bool_decide (a = k)) eqn:E; bool_to_prop; [|auto]. subst. apply Ha in Hin. by rewrite key_lt_irrefl in Hin.
Qed.

Lemma bt_insert_In k v m a w : (a, w) ∈ bt_insert k v m → (a, w) = (k, v) ∨ (a, w) ∈ m.
Proof.
  induction m as [|[b u] m IH]; cbn; [intros ->%list_elem_of_singleton; by left|].
  destruct (bool_decide (b = k)); [intros [->|Hin]%elem_of_cons; [by left|right; by right]|].
  destruct (key_lt k b); [intros [->|Hin]%elem_of_cons; [by left|by right]|].
  intros [->|Hin]%elem_of_cons; [right; by left|]. apply IH in Hin as [?|?]; [by left|right; by right].
Qed.

Lemma bt_insert_ok k v m : bt_ok m → bt_ok (bt_insert k v m).
Proof.
  induction m as [|[b u] m IH]; cbn; [by split; [intros ?? ?%not_elem_of_nil|]|]. intros [Hb Hm].
  destruct (bool_decide (b = k)) eqn:E; bool_to_prop; [subst; by split|].
  destruct (key_lt k b) eqn:Hk; cbn.
  - conjs; [|done|done]. intros a w [[= -> ->]|Hin]%elem_of_cons; [done|]. eapply key_lt_trans; [done|by eapply Hb].
  - split; [|by apply IH]. intros a w [[= -> ->]|Hin]%bt_insert_In; [|by eapply Hb].
    by apply key_lt_total in Hk.
Qed.
Lemma bt_remove_ok k m : bt_ok m → bt_ok (bt_remove k m).
Proof.
  induction m as [|[b u] m IH]; [done|]. cbn. intros [Hb Hm]. destruct (negb _); cbn; [|by apply IH].
  split; [|by apply IH]. intros a w [Hin _]%list_elem_of_In%filter_In. by eapply Hb, list_elem_of_In.
Qed.

Lemma bt_get_insert k v m : bt_get k (bt_insert k v m) = Some v.
Proof.
  induction m as [|[b u] m IH]; cbn; [by rewrite bool_decide_eq_true_2|].
  destruct (bool_decide (b = k)) eqn:E; [cbn; by rewrite bool_decide_eq_true_2|].
  destruct (key_lt k b); cbn; [by rewrite bool_decide_eq_true_2|]. by rewrite E.
Qed.
Lemma bt_get_insert_ne k k' v m : k ≠ k' → bt_get k' (bt_insert k v m) = bt_get k' m.
Proof.
  intros Hne. induction m as [|[b u] m IH]; cbn; [by rewrite bool_decide_eq_false_2|].
  destruct (bool_decide (b = k)) eqn:E; bool_to_prop; [subst; cbn; by rewrite bool_decide_eq_false_2|].
  destruct (key_lt k b); cbn; [by rewrite (bool_decide_eq_false_2 (k = k'))|]. by rewrite IH.
Qed.
Lemma bt_get_remove k m : bt_get k (bt_remove k m) = None.
Proof.
  induction m as [|[b u] m IH]; [done|]. cbn. destruct (bool_decide (b = k)) eqn:E; cbn; [done|]. by rewrite E.
Qed.
Lemma bt_get_remove_ne k k' m : k ≠ k' → bt_get k' (bt_remove k m) = bt_get k' m.
Proof.
  intros Hne. unfold bt_remove. induction m as [|[b u] m IH]; [done|]. cbn. destruct (bool_decide (b = k)) eqn:E; bool_to_prop; cbn.
  - subst. by rewrite (bool_decide_eq_false_2 (k = k')).
  - by rewrite IH.
Qed.
End Ops.

#[export, program] Instance Z_key_order : KeyOrder Z := {| key_lt a b := (a <? b)%Z |}.
Next Obligation. intros k. apply Z.ltb_irrefl. Qed.
Next Obligation. intros a b c. rewrite !Z.ltb_lt. lia. Qed.
Next Obligation. intros a b. rewrite Z.ltb_lt, Z.ltb_ge. lia. Qed.

#[export, program] Instance pair_key_order : KeyOrder (Z * nat) :=
  {| key_lt a b := (fst a <? fst b)%Z || ((fst a =? fst b)%Z && (snd a <? snd b)%nat) |}.
Next Obligation. intros [a n]. cbn [fst snd]. rewrite Z.ltb_irrefl, Nat.ltb_irrefl. by rewrite andb_false_r. Qed.
Next Obligation.
  intros [a n] [b m] [c k]. cbn [fst snd]. rewrite !orb_true_iff, !andb_true_iff, !Z.ltb_lt, !Z.eqb_eq, !Nat.ltb_lt. lia.
Qed.
Next Obligation.
  intros [a n] [b m] Hne. cbn [fst snd].
  rewrite orb_false_iff, andb_false_iff, orb_true_iff, andb_true_iff, !Z.ltb_lt, !Z.ltb_ge, !Z.eqb_eq, !Z.eqb_neq,
    Nat.ltb_lt, Nat.ltb_ge.
  destruct (Z.eq_dec a b) as [->|]; [|lia]. assert (n ≠ m) by congruence. lia.
Qed.

Section More.
Context {K V : Type} `{KeyOrder K}.

Lemma bt_insert_length_new k (v : V) (m : BTreeMap K V) :
  bt_get k m = None → length (bt_insert k v m) = S (length m).
Proof.
  induction m as [|[b u] m IH]; cbn; [done|]. destruct (bool_decide (b = k)); [done|].
  intros Hk. destruct (key_lt k b); cbn; [done|]. by rewrite IH.
Qed.

Lemma bt_remove_length k (m : BTreeMap K V) : (length (bt_remove k m) ≤ length m)%nat.
Proof.
  unfold bt_remove. induction m as [|[b u] m IH]; [done|]. cbn. destruct (negb _); cbn; lia.
Qed.

Lemma bt_first_In k (m : BTreeMap K V) : bt_first m = Some k → ∃ v m', m = (k, v) :: m'.
Proof. destruct m as [|[a v] m]; [done|]. intros [= <-]. by exists v, m. Qed.
End More.
