(* ===== verification/Stream.v ===== *)
(** * Stream: a model's reply as it streams

    [src/src/anthropic/stream.rs] and its [interpret], [lines] and [meter]: the lines of a
    response body, what each event means, the reply's blocks by index, the usage known so
    far, and the forms a request is sent in after a refusal of its replayed thinking. *)

From S2P Require Import Prelude RustStr Json Types BTree.
Local Open Scope string_scope.

(** ** Lines *)

(** [LineBuffer]: the bytes not handed out, and how many of them are known to hold no line
    feed. *)
Record LineBuffer := { bytes : string; scanned : nat }.
Definition new_buffer : LineBuffer := Build_LineBuffer "" 0.
Definition push (chunk : string) (b : LineBuffer) : LineBuffer := Build_LineBuffer (bytes b +:+ chunk) (scanned b).

(** The next whole line's bytes; the code decodes them lossily. *)
Definition next_line (b : LineBuffer) : option string * LineBuffer :=
  match str_find (String newline "") (str_drop (scanned b) (bytes b)) with
  | None => (None, Build_LineBuffer (bytes b) (String.length (bytes b)))
  | Some offset =>
      let stop := (scanned b + offset)%nat in
      (Some (str_take stop (bytes b)), Build_LineBuffer (str_drop (stop + 1) (bytes b)) 0)
  end.

(** [while let Some(line) = lines.next_line()]: every whole line there is. *)
Fixpoint drain_lines (fuel : nat) (b : LineBuffer) : list string * LineBuffer :=
  match fuel with
  | O => ([], b)
  | S fuel =>
      match next_line b with
      | (Some line, b) => let '(lines, b) := drain_lines fuel b in (line :: lines, b)
      | (None, b) => ([], b)
      end
  end.
Definition read_chunk (b : LineBuffer) (chunk : string) : list string * LineBuffer :=
  let b := push chunk b in drain_lines (S (String.length (bytes b))) b.
(** The lines of a body that arrives in chunks, in order. *)
Fixpoint feed (b : LineBuffer) (chunks : list string) : list string :=
  match chunks with
  | [] => []
  | chunk :: chunks => let '(lines, b) := read_chunk b chunk in (lines ++ feed b chunks)%list
  end.

(** ** Events *)

Record DeltaUsage := {
  delta_input : option Z;
  delta_output : option Z;
  delta_creation : option Z;
  delta_read : option Z;
}.
#[export] Instance DeltaUsage_eq_dec : EqDecision DeltaUsage.
Proof. solve_decision. Defined.
Definition no_delta : DeltaUsage := Build_DeltaUsage None None None None.

(** [DeltaUsage::apply_to]. *)
Definition apply_to (d : DeltaUsage) (u : TokenUsage) : TokenUsage :=
  let u := match delta_output d with Some o => Build_TokenUsage (input_tokens u) o (cache_creation_input_tokens u) (cache_read_input_tokens u) | None => u end in
  if existsb (λ count, match count with Some c => negb (c =? 0)%Z | None => false end)
       [delta_input d; delta_creation d; delta_read d]
  then Build_TokenUsage (default (input_tokens u) (delta_input d)) (output_tokens u)
         (default (cache_creation_input_tokens u) (delta_creation d)) (default (cache_read_input_tokens u) (delta_read d))
  else u.

Inductive StreamOutcome :=
  | TextDelta (text : string)
  | ThinkingDelta (thinking : string)
  | ThinkingSignatureDelta (signature : string)
  | ToolUseStart (id name : string)
  | ToolUseInputDelta (partial_json : string)
  | BlockStop
  | Delta (stop_reason : option string) (usage : DeltaUsage)
  | InitialUsage (usage : TokenUsage)
  | StreamError (message : string)
  | Ignored.

Section Interpret.
Context {V : Type} `{Json V}.
(** [TokenUsage]'s derived reader. *)
Variable read_usage : V → option TokenUsage.

Definition delta_usage_from_value (usage : V) : DeltaUsage :=
  let count key := v ← json_get usage key; json_as_i64 v in
  Build_DeltaUsage (count "input_tokens") (count "output_tokens")
    (count "cache_creation_input_tokens") (count "cache_read_input_tokens").

(** [value.get(a).and_then(|v| v.get(b)).and_then(Value::as_str)]. *)
Definition str_at (v : V) (key : string) : option string := x ← json_get v key; json_as_str x.
Definition nested_str (v : V) (key field : string) : option string := x ← json_get v key; str_at x field.

Definition interpret_stream_event (value : V) : StreamOutcome :=
  match str_at value "type" with
  | None => Ignored
  | Some type =>
      if bool_decide (type = "message_start") then
        match m ← json_get value "message"; u ← json_get m "usage"; read_usage u with
        | Some usage => InitialUsage usage
        | None => Ignored
        end
      else if bool_decide (type = "content_block_start") then
        if bool_decide (nested_str value "content_block" "type" = Some "tool_use") then
          ToolUseStart (default "" (nested_str value "content_block" "id")) (default "" (nested_str value "content_block" "name"))
        else Ignored
      else if bool_decide (type = "content_block_delta") then
        let delta := nested_str value "delta" in
        match delta "type" with
        | None => Ignored
        | Some kind =>
            if bool_decide (kind = "text_delta") then TextDelta (default "" (delta "text"))
            else if bool_decide (kind = "input_json_delta") then ToolUseInputDelta (default "" (delta "partial_json"))
            else if bool_decide (kind = "thinking_delta") then ThinkingDelta (default "" (delta "thinking"))
            else if bool_decide (kind = "signature_delta") then ThinkingSignatureDelta (default "" (delta "signature"))
            else Ignored
        end
      else if bool_decide (type = "content_block_stop") then BlockStop
      else if bool_decide (type = "message_delta") then
        let stop_reason := nested_str value "delta" "stop_reason" in
        let usage := match json_get value "usage" with Some u => delta_usage_from_value u | None => no_delta end in
        if bool_decide (stop_reason = None) && bool_decide (usage = no_delta) then Ignored else Delta stop_reason usage
      else if bool_decide (type = "error") then
        StreamError (default "unknown error from Anthropic" (nested_str value "error" "message"))
      else Ignored
  end.

(** [usize] is 64 bits wide, so every [u64] index is one. *)
Definition block_index (value : V) : option Z := v ← json_get value "index"; json_as_u64 v.
End Interpret.

(** ** Usage while it streams *)

Record Metered := { metered_usage : TokenUsage; output_reported : bool; streamed_bytes : Z }.
Definition no_usage : TokenUsage := Build_TokenUsage 0 0 0 0.
Definition new_meter : Metered := Build_Metered no_usage false 0.

Definition meter_start (initial : TokenUsage) (m : Metered) : Metered :=
  Build_Metered
    (Build_TokenUsage (input_tokens initial) (output_tokens (metered_usage m))
       (cache_creation_input_tokens initial) (cache_read_input_tokens initial))
    (output_reported m) (streamed_bytes m).
Definition meter_delta (d : DeltaUsage) (m : Metered) : Metered :=
  Build_Metered (apply_to d (metered_usage m)) (is_some (delta_output d) || output_reported m) (streamed_bytes m).
Definition meter_streamed (n : Z) (m : Metered) : Metered :=
  Build_Metered (metered_usage m) (output_reported m) (u64_add (streamed_bytes m) n).
Definition known (m : Metered) : option TokenUsage :=
  let u := metered_usage m in
  let usage :=
    if output_reported m then u
    else Build_TokenUsage (input_tokens u) (default I64_MAX (i64_try_from (streamed_bytes m / 4)))
           (cache_creation_input_tokens u) (cache_read_input_tokens u) in
  if (streamed_bytes m =? 0)%Z && bool_decide (usage = no_usage) then None else Some usage.

(** ** Blocks *)

Inductive PartialBlock :=
  | PText (text : string)
  | PToolUse (id name partial_json : string)
  | PThinking (thinking signature : string).

(** [is_cut_off], [stopped_early], [is_plain_tool_name]. *)
Definition is_cut_off (stop_reason : string) : bool :=
  bool_decide (stop_reason = "max_tokens") || bool_decide (stop_reason = "model_context_window_exceeded").
Definition stopped_early (stop_reason : string) : bool := is_cut_off stop_reason || bool_decide (stop_reason = "refusal").
Definition is_plain_tool_name (name : string) : bool :=
  (1 <=? String.length name)%nat && (String.length name <=? 128)%nat
  && all_bytes (λ b, is_ascii_alphanumeric b || Ascii.eqb b "_" || Ascii.eqb b "-" || Ascii.eqb b ".") name.

Section Blocks.
Context {V : Type} `{Json V}.
(** [serde_json::from_str], with its error as text. *)
Variable from_str : string → Result V string.

Inductive Finished := Block (block : ContentBlock V) | UnparsedCall (name error : string).

Definition finished_tool_name (f : Finished) : option string :=
  match f with
  | Block (ToolUse _ name _) => Some name
  | UnparsedCall name _ => Some name
  | Block _ => None
  end.

Definition finalize (b : PartialBlock) : Finished :=
  match b with
  | PText text => Block (Text text)
  | PToolUse id name partial_json =>
      if bool_decide (partial_json = "") then Block (ToolUse id name (json_object []))
      else
        match from_str partial_json with
        | Ok input => Block (ToolUse id name input)
        | Err e => UnparsedCall name ("failed to parse tool_use input JSON for " +:+ name +:+ ": " +:+ e)
        end
  | PThinking thinking signature => Block (Thinking thinking signature)
  end.

Record Blocks := {
  open : BTreeMap Z PartialBlock;
  done : BTreeMap (Z * nat) Finished;
  last : option Z;
}.
Definition no_blocks : Blocks := Build_Blocks [] [] None.

(** The index an event is about, when some block is open there ([open_at]). *)
Definition or_last (index : option Z) (b : Blocks) : option Z :=
  match index with Some i => Some i | None => last b end.
Definition open_at (index : option Z) (b : Blocks) : option (Z * PartialBlock) :=
  i ← or_last index b; p ← bt_get i (open b); Some (i, p).

Definition stop_at (i : Z) (b : Blocks) : Blocks :=
  match bt_get i (open b) with
  | Some p => Build_Blocks (bt_remove i (open b)) (bt_insert (i, length (done b)) (finalize p) (done b)) (last b)
  | None => b
  end.
Definition stop (index : option Z) (b : Blocks) : Blocks :=
  match or_last index b with Some i => stop_at i b | None => b end.

(** [i.saturating_add(1)] past every index seen, the first without any. *)
Definition next_index (b : Blocks) : Z :=
  match (map fst (open b) ++ map (λ p, fst (fst p)) (done b))%list with
  | [] => 0
  | i :: rest => u64_sat_add (fold_left Z.max rest i) 1
  end%Z.

Definition set_open (i : Z) (p : PartialBlock) (b : Blocks) : Blocks :=
  Build_Blocks (bt_insert i p (open b)) (done b) (last b).

Definition start (index : option Z) (block : PartialBlock) (b : Blocks) : Blocks :=
  let i := match index with Some i => i | None => next_index b end in
  let fresh := let b := stop_at i b in Build_Blocks (bt_insert i block (open b)) (done b) (Some i) in
  match bt_get i (open b), block with
  | Some (PToolUse id name json), PToolUse new_id new_name _ =>
      if bool_decide (id = new_id)
      then Build_Blocks (bt_insert i (PToolUse id new_name json) (open b)) (done b) (Some i)
      else fresh
  | _, _ => fresh
  end.

Definition add_text (index : option Z) (text : string) (b : Blocks) : Blocks :=
  match open_at index b with
  | Some (i, PText existing) => set_open i (PText (existing +:+ text)) b
  | _ => start index (PText text) b
  end.
Definition add_thinking (index : option Z) (thinking : string) (b : Blocks) : Blocks :=
  match open_at index b with
  | Some (i, PThinking existing signature) => set_open i (PThinking (existing +:+ thinking) signature) b
  | _ => start index (PThinking thinking "") b
  end.
Definition add_signature (index : option Z) (signature : string) (b : Blocks) : Blocks :=
  match open_at index b with
  | Some (i, PThinking thinking existing) => set_open i (PThinking thinking (existing +:+ signature)) b
  | _ => b
  end.
Definition add_tool_input (index : option Z) (partial_json : string) (b : Blocks) : Blocks :=
  match open_at index b with
  | Some (i, PToolUse id name existing) => set_open i (PToolUse id name (existing +:+ partial_json)) b
  | _ => b
  end.

(** [while let Some(&index) = self.open.keys().next() { self.stop(Some(index)) }]. *)
Fixpoint stop_all (fuel : nat) (b : Blocks) : Blocks :=
  match fuel, bt_first (open b) with
  | S fuel, Some i => stop_all fuel (stop_at i b)
  | _, _ => b
  end.

(** The reply of the finished blocks, in order: the last one dropped if it is a call the reply
    stopped in. *)
Definition finish_blocks (stop_reason : string) (finished : list Finished)
    : Result (list (ContentBlock V) * option string) string :=
  let call := if stopped_early stop_reason then f ← List.last (map Some finished) None; finished_tool_name f else None in
  let kept := match call with Some _ => removelast finished | None => finished end in
  let cut_off_call := name ← call; if is_plain_tool_name name then Some name else None in
  let? content := collect_results (λ f, match f with Block b => Ok b | UnparsedCall _ e => Err e end) kept in
  Ok (content, cut_off_call).
Definition finish (stop_reason : string) (b : Blocks) : Result (list (ContentBlock V) * option string) string :=
  finish_blocks stop_reason (map snd (done (stop_all (length (open b)) b))).
End Blocks.
Arguments Finished : clear implicits.
Arguments Blocks : clear implicits.

(** ** Sending *)

Inductive ModelError (O : Type) := OverflowError (overflow : O) | OtherError (message : string).
Arguments OverflowError {O}. Arguments OtherError {O}.

Inductive Binding := AsIs | DropBlock | Strip.
#[export] Instance Binding_eq_dec : EqDecision Binding.
Proof. solve_decision. Defined.
Definition BINDING_BETA : string := "thinking-binding-controls-2026-08-01".

(** How many transient answers are waited out ([RETRY_DELAYS]' length). *)
Definition RETRIES : nat := 2.
Definition is_transient_status (status : Z) : bool := (status =? 429)%Z || (status =? 503)%Z || (status =? 529)%Z.
Definition is_success (status : Z) : bool := (200 <=? status)%Z && (status <? 300)%Z.

Record Response := { status : Z; body : string }.

Section Sending.
Context {V Ov : Type} `{Json V}.
Variable from_str : string → Result V string.
(** [overflow::classify], which reads a refusal with the [regex] crate, and
    [StatusCode]'s [Display]. *)
Variable classify : option Z → string → option Ov.
Variable show_status : Z → string.

Definition parsed (text : string) : option V := match from_str text with Ok v => Some v | Err _ => None end.

(** [v.pointer("/error/message")], which only a path of objects reaches here. *)
Definition provider_error_message (body : string) : string :=
  match v ← parsed body; nested_str v "error" "message" with
  | None => trim body
  | Some message =>
      let nested :=
        v ← parsed message;
        x ← match json_get v "error" with Some x => Some x | None => json_get v "message" end;
        json_as_str x in
      trim (default message nested)
  end.

Definition is_binding_mismatch (body : string) : bool :=
  contains "bound to a different conversation" (provider_error_message body).
Definition refuses_binding_controls (body : string) : bool := contains "block_binding" body || contains BINDING_BETA body.

Definition untried (tried : list Binding) (b : Binding) : option Binding :=
  if existsb (λ t, bool_decide (t = b)) tried then None else Some b.
Definition or_else {A} (o p : option A) : option A := match o with Some a => Some a | None => p end.
Definition next_binding (binding : Binding) (tried : list Binding) (request : CreateMessageRequest V) (body : string) : option Binding :=
  match binding with
  | AsIs =>
      if is_binding_mismatch body && is_some (thinking_config request)
      then or_else (untried tried DropBlock) (untried tried Strip)
      else if is_binding_mismatch body then untried tried Strip
      else None
  | DropBlock =>
      if is_binding_mismatch body || refuses_binding_controls body
      then or_else (untried tried AsIs) (untried tried Strip)
      else None
  | Strip => None
  end.

(** The form a request is first sent in, from what the provider is remembered to take. *)
Definition binding_for (remembered : option Binding) (request : CreateMessageRequest V) : Binding :=
  match remembered with
  | Some DropBlock => if is_some (thinking_config request) then DropBlock else AsIs
  | _ => AsIs
  end.

Definition strip_request (r : CreateMessageRequest V) : CreateMessageRequest V :=
  r <| messages ::= map (λ m, Build_AnthropicMessage (role m) (strip_thinking (content m))) |>.
(** The request whose body is sent: without its thinking when stripped. *)
Definition request_for (request : CreateMessageRequest V) (binding : Binding) : CreateMessageRequest V :=
  match binding with Strip => strip_request request | _ => request end.

(** The body sent; the drop-block form sets [thinking.block_binding] in it.  [to_value] is
    [serde_json::to_value] and [is_object] [Value::is_object]. *)
Definition request_body (to_value : CreateMessageRequest V → option V) (is_object : V → bool)
    (request : CreateMessageRequest V) (binding : Binding) : option V :=
  body ← to_body to_value (request_for request binding);
  match binding, json_get body "thinking" with
  | DropBlock, Some thinking =>
      if is_object thinking
      then Some (json_set "thinking"
                   (json_set "block_binding" (json_object [("prefix_mismatch_behavior", json_string "drop_block")]) thinking)
                   body)
      else Some body
  | _, _ => Some body
  end.

Definition refusal_hint (request : CreateMessageRequest V) (message : string) : string :=
  if prompt_caching request && contains "cache_control" message then
    " (This server may not support prompt caching: turn off “Prompt caching” on its provider.)"
  else if is_some (output_config request) && (contains "effort" message || contains "output_config" message) then
    " (This model may not support this effort level: change or clear “Effort” for it on its provider's models.)"
  else "".

(** What the loop of [stream_message] ends with, and the provider's memory after. *)
Record Sent := { sent : list Binding; outcome : Result Binding (ModelError Ov); remembered : option Binding }.

(** The loop, by fuel: [server] answers the [n]th send of a form, or the send itself fails. *)
Fixpoint send_loop (fuel : nat) (server : nat → Binding → Result Response string) (request : CreateMessageRequest V)
    (attempt : nat) (binding : Binding) (tried : list Binding) (sends : list Binding) (memory : option Binding)
    : option Sent :=
  match fuel with
  | O => None
  | S fuel =>
      let sends' := (sends ++ [binding])%list in
      match server (length sends) binding with
      | Err e => Some (Build_Sent sends' (Err (OtherError e)) memory)
      | Ok response =>
          if is_success (status response) then
            Some (Build_Sent sends' (Ok binding)
                    (if bool_decide (binding = DropBlock) then Some DropBlock else memory))
          else if is_transient_status (status response) && (attempt <? RETRIES)%nat then
            send_loop fuel server request (S attempt) binding tried sends' memory
          else
            match (if (status response =? 400)%Z then next_binding binding tried request (body response) else None) with
            | Some next =>
                send_loop fuel server request attempt next (tried ++ [next])%list sends'
                  (if bool_decide (binding = DropBlock) then None else memory)
            | None =>
                let message := provider_error_message (body response) in
                Some (Build_Sent sends'
                        (Err match classify (Some (status response)) (body response) with
                             | Some overflow => OverflowError overflow
                             | None => OtherError ("model provider error " +:+ show_status (status response) +:+ ": "
                                                   +:+ message +:+ refusal_hint request message)
                             end) memory)
            end
      end
  end.
(** Three forms and two waits: five sends at most. *)
Definition MAX_SENDS : nat := 5.
Definition send (server : nat → Binding → Result Response string) (request : CreateMessageRequest V) (memory : option Binding)
    : option Sent :=
  let binding := binding_for memory request in
  send_loop MAX_SENDS server request 0 binding [binding] [] memory.

(** ** Reading *)

Variable read_usage : V → option TokenUsage.

(** The reply so far: its blocks, stop reason, meter and what the viewer was shown. *)
Record Reply := { reply_blocks : Blocks V; reply_stop : string; reply_meter : Metered; shown : list string }.
Definition new_reply : Reply := Build_Reply no_blocks "" new_meter [].

Definition on_blocks (f : Blocks V → Blocks V) (r : Reply) : Reply :=
  Build_Reply (f (reply_blocks r)) (reply_stop r) (reply_meter r) (shown r).
Definition on_meter (f : Metered → Metered) (r : Reply) : Reply :=
  Build_Reply (reply_blocks r) (reply_stop r) (f (reply_meter r)) (shown r).

Definition apply_event (value : V) (r : Reply) : Result Reply (ModelError Ov) :=
  let index := block_index value in
  match interpret_stream_event read_usage value with
  | TextDelta text =>
      let r := on_meter (meter_streamed (str_len text)) r in
      Ok (Build_Reply (add_text from_str index text (reply_blocks r)) (reply_stop r) (reply_meter r) (shown r ++ [text])%list)
  | ThinkingDelta thinking =>
      Ok (on_blocks (add_thinking from_str index thinking) (on_meter (meter_streamed (str_len thinking)) r))
  | ThinkingSignatureDelta signature => Ok (on_blocks (add_signature index signature) r)
  | ToolUseStart id name => Ok (on_blocks (start from_str index (PToolUse id name "")) r)
  | ToolUseInputDelta partial_json =>
      Ok (on_blocks (add_tool_input index partial_json) (on_meter (meter_streamed (str_len partial_json)) r))
  | BlockStop => Ok (on_blocks (stop from_str index) r)
  | Delta reason delta =>
      Ok (on_meter (meter_delta delta) (Build_Reply (reply_blocks r) (default (reply_stop r) reason) (reply_meter r) (shown r)))
  | InitialUsage initial => Ok (on_meter (meter_start initial) r)
  | StreamError message =>
      Err match classify None (json_to_string value) with Some overflow => OverflowError overflow | None => OtherError message end
  | Ignored => Ok r
  end.

Definition apply_line (line : string) (r : Reply) : Result Reply (ModelError Ov) :=
  match strip_prefix "data: " (trim line) with
  | None => Ok r
  | Some data => match parsed data with Some value => apply_event value r | None => Ok r end
  end.
Fixpoint apply_lines (lines : list string) (r : Reply) : Result Reply (ModelError Ov) :=
  match lines with
  | [] => Ok r
  | line :: lines => let? r := apply_line line r in apply_lines lines r
  end.

Record StreamedTurn := { turn_content : list (ContentBlock V); turn_stop_reason : string; turn_usage : TokenUsage; cut_off_call : option string }.

(** [stream_message] once the server answered, of a body that ends. *)
Definition read_body (lossy : string → string) (chunks : list string) : Result StreamedTurn (ModelError Ov) :=
  let? r := apply_lines (map lossy (feed new_buffer chunks)) new_reply in
  let? finished := map_err OtherError (finish from_str (reply_stop r) (reply_blocks r)) in
  Ok (Build_StreamedTurn (fst finished) (reply_stop r) (metered_usage (reply_meter r)) (snd finished)).
End Sending.

(** ** Lines, however the body is cut *)

(** The lines of a whole body: those that end, without their line feed. *)
Definition complete_lines (s : string) : list string := omap (strip_suffix (String newline "")) (split_inclusive s).

Lemma split_inclusive_none s : contains (String newline "") s = false → split_inclusive s = match s with "" => [] | _ => [s] end.
Proof.
  induction s as [|a s IH]; [done|]. rewrite contains_char_cons. intros [Ha Hs]%orb_false_iff.
  cbn [split_inclusive]. rewrite Ascii.eqb_sym, Ha, IH by done. by destruct s.
Qed.
Lemma split_inclusive_line l rest :
  contains (String newline "") l = false →
  split_inclusive (l +:+ String newline rest) = (l +:+ String newline "") :: split_inclusive rest.
Proof.
  induction l as [|a l IH]; [done|]. rewrite contains_char_cons. intros [Ha Hl]%orb_false_iff.
  rewrite !str_app_cons. cbn [split_inclusive]. by rewrite Ascii.eqb_sym, Ha, IH.
Qed.

Lemma strip_newline_none s : contains (String newline "") s = false → strip_suffix (String newline "") s = None.
Proof.
  intros Hs. destruct (strip_suffix _ s) as [r|] eqn:E; [|done]. apply strip_suffix_Some in E as ->.
  rewrite contains_char_app in Hs. apply orb_false_iff in Hs as [_ Hs]. discriminate Hs.
Qed.
Lemma complete_lines_none s : contains (String newline "") s = false → complete_lines s = [].
Proof.
  intros Hs. unfold complete_lines. rewrite split_inclusive_none by done. destruct s as [|a s]; [done|].
  cbn [omap list_omap]. by rewrite strip_newline_none.
Qed.
Lemma complete_lines_line l rest :
  contains (String newline "") l = false → complete_lines (l +:+ String newline rest) = l :: complete_lines rest.
Proof.
  intros Hl. unfold complete_lines. rewrite split_inclusive_line by done. cbn [omap list_omap].
  by rewrite strip_suffix_app.
Qed.

(** The scanned bytes hold no line feed. *)
Definition buffer_ok (b : LineBuffer) : Prop :=
  (scanned b ≤ String.length (bytes b))%nat ∧ contains (String newline "") (str_take (scanned b) (bytes b)) = false.

Lemma push_ok chunk b : buffer_ok b → buffer_ok (push chunk b).
Proof.
  unfold buffer_ok, push. cbn [scanned bytes]. rewrite str_length_app. intros [Hl Hc]. split; [lia|].
  assert (str_take (scanned b) (bytes b +:+ chunk) = str_take (scanned b) (bytes b)) as ->; [|done].
  clear Hc. revert Hl. generalize (scanned b). intros n. generalize (bytes b). intros s. revert s.
  induction n as [|n IH]; intros s Hl; [by destruct s, chunk|]. destruct s as [|a s]; [cbn in Hl; lia|].
  rewrite str_app_cons. cbn [str_take]. by rewrite IH by (cbn in Hl; lia).
Qed.

Lemma next_line_spec b line b' :
  buffer_ok b → next_line b = (line, b') →
  buffer_ok b' ∧
  match line with
  | Some l => bytes b = l +:+ String newline (bytes b') ∧ contains (String newline "") l = false
  | None => bytes b' = bytes b ∧ contains (String newline "") (bytes b) = false
  end.
Proof.
  intros [Hl Hc]. unfold next_line, str_find.
  pose proof (str_take_drop (scanned b) (bytes b)) as Hb.
  destruct (split_once _ _) as [[before after]|] eqn:E; cbn [fmap option_fmap option_map]; intros [= <- <-].
  - apply split_once_char_Some in E as [Hd Hbefore]. rewrite Hd in Hb.
    set (t := str_take (scanned b) (bytes b)) in *.
    assert (Ht : String.length t = scanned b) by (subst t; rewrite str_take_length; lia).
    rewrite <-str_app_assoc in Hb.
    assert (Hlen : (scanned b + String.length before)%nat = String.length (t +:+ before)) by (rewrite str_length_app; lia).
    assert (Hrest : str_drop (scanned b + String.length before + 1) (bytes b) = after).
    { rewrite <-str_drop_drop, Hlen, <-Hb, str_drop_app. done. }
    rewrite Hrest, Hlen, <-Hb, str_take_app. cbn [bytes]. conjs; [by split; [cbn; lia|destruct after]|done|].
    rewrite contains_char_app. by apply orb_false_iff.
  - apply split_once_None in E. cbn [bytes scanned].
    assert (Hn : contains (String newline "") (bytes b) = false) by (rewrite <-Hb, contains_char_app, Hc; done).
    conjs; [|done|done]. split; [done|]. cbn [bytes scanned].
    pose proof (str_take_app (bytes b) "") as Ha. rewrite str_app_nil_r in Ha. by rewrite Ha.
Qed.

Lemma drain_lines_spec fuel b lines b' x :
  (String.length (bytes b) < fuel)%nat → buffer_ok b → drain_lines fuel b = (lines, b') →
  buffer_ok b' ∧ complete_lines (bytes b +:+ x) = (lines ++ complete_lines (bytes b' +:+ x))%list
  ∧ contains (String newline "") (bytes b') = false.
Proof.
  revert b lines. induction fuel as [|fuel IH]; intros b lines Hf Hb; [lia|]. cbn [drain_lines].
  destruct (next_line b) as [[line|] b1] eqn:E; apply next_line_spec in E as [Hb1 E]; try done.
  - destruct E as [Heq Hline]. destruct (drain_lines fuel b1) as [ls b2] eqn:Ed. intros [= <- <-].
    apply IH in Ed as (? & Hcat & ?); [|rewrite Heq, str_length_app in Hf; cbn in Hf; lia|done].
    conjs; [done| |done]. rewrite Heq, str_app_assoc, str_app_cons, complete_lines_line by done. by rewrite Hcat.
  - destruct E as [Heq Hn]. intros [= <- <-]. conjs; [done|by rewrite Heq|by rewrite Heq].
Qed.

Lemma feed_spec b chunks :
  buffer_ok b → contains (String newline "") (bytes b) = false →
  feed b chunks = complete_lines (bytes b +:+ String.concat "" chunks).
Proof.
  revert b. induction chunks as [|chunk chunks IH]; intros b Hb Hn; cbn [feed String.concat].
  - rewrite str_app_nil_r. by rewrite complete_lines_none.
  - unfold read_chunk. destruct (drain_lines _ _) as [lines b'] eqn:E.
    apply (drain_lines_spec _ _ _ _ (String.concat "" chunks)) in E as (Hb' & Hcat & Hn'); [|lia|by apply push_ok].
    rewrite IH by done. rewrite <-Hcat. cbn [push bytes]. rewrite str_app_assoc.
    destruct chunks as [|c chunks]; [cbn; by rewrite str_app_nil_r|]. done.
Qed.

(** However a response's body is cut into chunks, the lines handed out are the whole body's:
    each line that ends, once, in order, without its line feed; a character split across
    two chunks is in its line whole. *)
Theorem lines_whole (chunks : list string) : feed new_buffer chunks = complete_lines (String.concat "" chunks).
Proof. by rewrite feed_spec. Qed.

(** ** Blocks, however their events interleave *)

Section BlocksCorrect.
Context {V : Type} `{Json V}.
Variable from_str : string → Result V string.
Notation Blocks := (Blocks V).
Notation finalize := (finalize from_str).

(** The calls of [Blocks] an event makes, at the index the event names. *)
Inductive BlockOp :=
  | AddText (text : string) | AddThinking (thinking : string) | AddSignature (signature : string)
  | StartCall (id name : string) | AddInput (partial_json : string) | StopBlock.

Definition run_op (b : Blocks) (op : Z * BlockOp) : Blocks :=
  let '(i, o) := op in
  match o with
  | AddText text => add_text from_str (Some i) text b
  | AddThinking thinking => add_thinking from_str (Some i) thinking b
  | AddSignature signature => add_signature (Some i) signature b
  | StartCall id name => start from_str (Some i) (PToolUse id name "") b
  | AddInput partial_json => add_tool_input (Some i) partial_json b
  | StopBlock => stop from_str (Some i) b
  end.
Definition run_ops (ops : list (Z * BlockOp)) : Blocks := fold_left run_op ops no_blocks.

(** One index alone: its open block, and the blocks finished at it. *)
Definition Slot : Type := option PartialBlock * list (Finished V).
Definition closed (s : Slot) : list (Finished V) :=
  (snd s ++ match fst s with Some p => [finalize p] | None => [] end)%list.
Definition slot_op (s : Slot) (o : BlockOp) : Slot :=
  match o, fst s with
  | AddText t, Some (PText x) => (Some (PText (x +:+ t)), snd s)
  | AddText t, _ => (Some (PText t), closed s)
  | AddThinking t, Some (PThinking x sig) => (Some (PThinking (x +:+ t) sig), snd s)
  | AddThinking t, _ => (Some (PThinking t ""), closed s)
  | AddSignature t, Some (PThinking x sig) => (Some (PThinking x (sig +:+ t)), snd s)
  | AddSignature _, _ => s
  | StartCall id name, Some (PToolUse id' _ json) =>
      if bool_decide (id' = id) then (Some (PToolUse id' name json), snd s) else (Some (PToolUse id name ""), closed s)
  | StartCall id name, _ => (Some (PToolUse id name ""), closed s)
  | AddInput t, Some (PToolUse id name json) => (Some (PToolUse id name (json +:+ t)), snd s)
  | AddInput _, _ => s
  | StopBlock, _ => (None, closed s)
  end.
Definition at_index (i : Z) (ops : list (Z * BlockOp)) : list BlockOp :=
  omap (λ '(j, o), if bool_decide (j = i) then Some o else None) ops.
Definition slot_of (ops : list BlockOp) : Slot := fold_left slot_op ops (None, []).

(** What the two maps hold at an index. *)
Definition done_at (i : Z) (d : BTreeMap (Z * nat) (Finished V)) : list (Finished V) :=
  omap (λ '((j, _), f), if bool_decide (j = i) then Some f else None) d.
Definition view (i : Z) (b : Blocks) : Slot := (bt_get i (open b), done_at i (done b)).

Record blocks_ok (b : Blocks) : Prop := {
  open_ok : bt_ok (open b);
  done_ok : bt_ok (done b);
  done_fresh : ∀ i n f, ((i, n), f) ∈ done b → (n < length (done b))%nat;
}.

Lemma done_at_cons j k n f d :
  done_at j ((k, n, f) :: d) = ((if bool_decide (k = j) then [f] else []) ++ done_at j d)%list.
Proof. unfold done_at. cbn [omap list_omap]. by destruct (bool_decide (k = j)). Qed.

Lemma done_at_later i n f d :
  bt_ok ((i, n, f) :: d) → ∀ j, (j < i)%Z → done_at j ((i, n, f) :: d) = [].
Proof.
  intros [Hd _] j Hj. unfold done_at. cbn [omap list_omap]. rewrite bool_decide_eq_false_2 by lia.
  assert (Hall : ∀ k m g, ((k, m), g) ∈ d → (i ≤ k)%Z).
  { intros k m g Hin%Hd. cbn in Hin. apply orb_true_iff in Hin as [?%Z.ltb_lt|[?%Z.eqb_eq _]%andb_true_iff]; lia. }
  clear Hd. induction d as [|[[k m] g] d IH]; [done|]. cbn. rewrite bool_decide_eq_false_2.
  - apply IH. intros k' m' g' Hin. eapply Hall. by right.
  - specialize (Hall k m g ltac:(by left)). lia.
Qed.

Lemma done_at_insert i n f d j :
  bt_ok d → (∀ k m g, ((k, m), g) ∈ d → (m < n)%nat) →
  done_at j (bt_insert (i, n) f d) = (done_at j d ++ if bool_decide (i = j) then [f] else [])%list.
Proof.
  induction d as [|[[k m] g] d IH]; intros Hok Hn; [cbn; by case_bool_decide|].
  assert (Hm : (m < n)%nat) by (eapply Hn; by left). cbn [bt_insert].
  rewrite bool_decide_eq_false_2 by (intros [= ? ?]; lia).
  destruct (key_lt (i, n) (k, m)) eqn:Hlt.
  - assert (Hik : (i < k)%Z).
    { cbn in Hlt. apply orb_true_iff in Hlt as [?%Z.ltb_lt|[_ ?%Nat.ltb_lt]%andb_true_iff]; lia. }
    destruct (bool_decide (i = j)) eqn:E; bool_to_prop.
    + subst. rewrite (done_at_cons j j). rewrite (done_at_later _ _ _ _ Hok j Hik).
      by rewrite bool_decide_eq_true_2.
    + rewrite app_nil_r, (done_at_cons j i). by rewrite (bool_decide_eq_false_2 (i = j)).
  - destruct Hok as [_ Hok]. rewrite !done_at_cons, IH, app_assoc; [done|done|]. intros. eapply Hn. by right.
Qed.

Lemma stop_at_ok i b : blocks_ok b → blocks_ok (stop_at from_str i b).
Proof.
  intros [Ho Hd Hf]. unfold stop_at. destruct (bt_get i (open b)) as [p|]; [|done].
  assert (Hnew : bt_get (i, length (done b)) (done b) = None).
  { destruct (bt_get _ _) as [f|] eqn:E; [|done]. apply bt_get_In, Hf in E. lia. }
  split; cbn [open done].
  - by apply bt_remove_ok.
  - by apply bt_insert_ok.
  - intros j n f [[= -> -> ->]|Hin]%bt_insert_In; rewrite bt_insert_length_new by done; [lia|].
    apply Hf in Hin. lia.
Qed.

Lemma stop_at_view i b j :
  blocks_ok b → view j (stop_at from_str i b) = if bool_decide (i = j) then (None, closed (view i b)) else view j b.
Proof.
  intros [Ho Hd Hf]. unfold stop_at, view, closed. cbn [fst snd].
  destruct (bt_get i (open b)) as [p|] eqn:E; cbn [open done].
  - rewrite done_at_insert by done. destruct (bool_decide (i = j)) eqn:Ej; bool_to_prop.
    + subst. by rewrite bt_get_remove.
    + by rewrite bt_get_remove_ne, app_nil_r.
  - destruct (bool_decide (i = j)) eqn:Ej; bool_to_prop; [|done]. subst. by rewrite E, app_nil_r.
Qed.

(** A block put at an index, with what is done left as it is. *)
Lemma put_ok i p l b : blocks_ok b → blocks_ok (Build_Blocks (bt_insert i p (open b)) (done b) l).
Proof. intros [Ho Hd Hf]. split; cbn [open done]; [by apply bt_insert_ok|done|done]. Qed.
Lemma put_view i p l b j :
  view j (Build_Blocks (bt_insert i p (open b)) (done b) l) = if bool_decide (i = j) then (Some p, snd (view i b)) else view j b.
Proof.
  unfold view. cbn [open done]. destruct (bool_decide (i = j)) eqn:Ej; bool_to_prop.
  - subst. by rewrite bt_get_insert.
  - by rewrite bt_get_insert_ne.
Qed.

Lemma fresh_view i p b j :
  blocks_ok b →
  let b' := stop_at from_str i b in
  blocks_ok (Build_Blocks (bt_insert i p (open b')) (done b') (Some i))
  ∧ view j (Build_Blocks (bt_insert i p (open b')) (done b') (Some i))
    = if bool_decide (i = j) then (Some p, closed (view i b)) else view j b.
Proof.
  intros Hok. cbv zeta. split; [by apply put_ok, stop_at_ok|]. rewrite put_view, !stop_at_view by done.
  by destruct (bool_decide (i = j)) eqn:Ej; bool_to_prop; rewrite ?bool_decide_eq_true_2 by done.
Qed.

(** Each event acts on its own index, as that index alone would. *)
Lemma run_op_view i o b j :
  blocks_ok b →
  blocks_ok (run_op b (i, o))
  ∧ view j (run_op b (i, o)) = if bool_decide (i = j) then slot_op (view i b) o else view j b.
Proof.
  intros Hok.
  assert (Hsame : view j b = if bool_decide (i = j) then view i b else view j b)
    by (destruct (bool_decide (i = j)) eqn:E; bool_to_prop; by subst).
  assert (Hput : ∀ p l, blocks_ok (Build_Blocks (bt_insert i p (open b)) (done b) l)
    ∧ view j (Build_Blocks (bt_insert i p (open b)) (done b) l)
      = if bool_decide (i = j) then (Some p, snd (view i b)) else view j b)
    by (intros p l; split; [by apply put_ok|apply put_view]).
  assert (Hfresh := λ p, fresh_view i p b j Hok). cbv zeta in Hfresh.
  assert (Hi : fst (view i b) = bt_get i (open b)) by done.
  unfold run_op, add_text, add_thinking, add_signature, add_tool_input, open_at, start, stop, or_last, set_open, slot_op.
  rewrite Hi. cbn [mbind option_bind].
  destruct o; try (destruct (bt_get i (open b)) as [[]|]; cbn [mbind option_bind]; by (apply Hput || apply Hfresh || (split; [done|exact Hsame]))).
  - destruct (bt_get i (open b)) as [[| id' name' json |]|]; try apply Hfresh.
    destruct (bool_decide (id' = id)); [apply Hput|apply Hfresh].
  - split; [by apply stop_at_ok|]. by apply stop_at_view.
Qed.

Lemma run_ops_view ops b j :
  blocks_ok b →
  blocks_ok (fold_left run_op ops b) ∧ view j (fold_left run_op ops b) = fold_left slot_op (at_index j ops) (view j b).
Proof.
  revert b. induction ops as [|[i o] ops IH]; intros b Hok; [done|]. cbn [fold_left].
  destruct (run_op_view i o b j Hok) as [Hok' Hv]. destruct (IH _ Hok') as [Hok'' Hv']. split; [done|].
  rewrite Hv', Hv. unfold at_index. cbn [omap list_omap].
  destruct (bool_decide (i = j)) eqn:E; [|done]. bool_to_prop. by subst.
Qed.

(** Stopping every open block leaves each index's finished blocks. *)
Lemma stop_all_view fuel b :
  (length (open b) ≤ fuel)%nat → blocks_ok b →
  let b' := stop_all from_str fuel b in
  blocks_ok b' ∧ open b' = [] ∧ ∀ j, done_at j (done b') = closed (view j b).
Proof.
  revert b. induction fuel as [|fuel IH]; intros b Hf Hok; cbv zeta; cbn [stop_all].
  - destruct (open b) as [|] eqn:E; [|cbn in Hf; lia]. conjs; [done|done|].
    intros j. unfold closed, view. rewrite E. cbn [fst snd bt_get]. by rewrite app_nil_r.
  - destruct (bt_first (open b)) as [i|] eqn:E.
    + apply bt_first_In in E as (p & m & Hm).
      assert (Hg : bt_get i (open b) = Some p) by (rewrite Hm; cbn; by rewrite bool_decide_eq_true_2).
      assert (Hlen : (length (open (stop_at from_str i b)) ≤ fuel)%nat).
      { unfold stop_at. rewrite Hg. cbn [open]. rewrite Hm in *. unfold bt_remove. cbn [List.filter fst].
        rewrite bool_decide_eq_true_2 by done. cbn [negb]. pose proof (bt_remove_length i m) as Hl.
        unfold bt_remove in Hl. cbn [length] in Hf. lia. }
      destruct (IH _ Hlen (stop_at_ok i b Hok)) as (? & ? & Hd). conjs; [done|done|].
      intros j. rewrite Hd, stop_at_view by done. destruct (bool_decide (i = j)) eqn:Ej; [|done].
      bool_to_prop. subst. unfold closed at 1. cbn [fst snd]. by rewrite app_nil_r.
    + destruct (open b) as [|[i p] m] eqn:Eo; [|done]. conjs; [done|done|].
      intros j. unfold closed, view. rewrite Eo. cbn [fst snd bt_get]. by rewrite app_nil_r.
Qed.

(** Strictly increasing indices. *)
Fixpoint increasing (l : list Z) : Prop :=
  match l with [] => True | i :: l => (∀ j, j ∈ l → (i < j)%Z) ∧ increasing l end.

Lemma done_at_empty idx d :
  (∀ i n f, ((i, n), f) ∈ d → i ∉ idx) → flat_map (λ i, done_at i d) idx = [].
Proof.
  intros Hd. induction idx as [|i idx IH]; [done|]. cbn [flat_map]. rewrite IH.
  - rewrite app_nil_r. clear IH. induction d as [|[[k n] f] d IHd]; [done|]. unfold done_at. cbn [omap list_omap].
    rewrite bool_decide_eq_false_2.
    + apply IHd. intros j m g Hin. eapply Hd. by right.
    + intros ->. eapply Hd; [by left|by left].
  - intros j n f Hin Hj. eapply Hd; [done|by right].
Qed.

Lemma done_by_index d idx :
  bt_ok d → increasing idx → (∀ i n f, ((i, n), f) ∈ d → i ∈ idx) →
  map snd d = flat_map (λ i, done_at i d) idx.
Proof.
  revert idx. induction d as [|[[k n] f] d IH]; intros idx Hok Hinc Hall.
  - symmetry. apply done_at_empty. by intros ??? ?%not_elem_of_nil.
  - assert (Hk : k ∈ idx) by (eapply Hall; by left).
    assert (Hd := done_at_later k n f d Hok). destruct Hok as [_ Hok'].
    cbn [map snd]. rewrite (IH idx) by (done || (intros; eapply Hall; by right)).
    clear IH Hall. induction idx as [|i idx IHi]; [by apply not_elem_of_nil in Hk|].
    destruct Hinc as [Hi Hinc]. cbn [flat_map].
    assert (Hcons := λ j, done_at_cons j k n f d).
    assert (Hrest : ∀ l, k ∉ l → flat_map (λ j, done_at j ((k, n, f) :: d)) l = flat_map (λ j, done_at j d) l).
    { intros l Hl. induction l as [|j l IHl]; [done|]. cbn [flat_map]. rewrite Hcons.
      rewrite bool_decide_eq_false_2 by (intros ->; apply Hl; by left). cbn [app]. f_equal. apply IHl.
      intros Hin. apply Hl. by right. }
    destruct (Z.eq_dec i k) as [->|Hne].
    + rewrite Hrest by (intros Hin%Hi; lia). rewrite Hcons, bool_decide_eq_true_2 by done. done.
    + apply elem_of_cons in Hk as [->|Hk]; [done|]. assert (Hik := Hi k Hk).
      assert (Hempty : done_at i d = []).
      { specialize (Hd i Hik). rewrite Hcons in Hd. by apply app_eq_nil in Hd as [_ ?]. }
      rewrite (Hd i Hik), Hempty. cbn [app]. by apply IHi.
Qed.

(** The indices of the events, in order, each once. *)
Definition indices (ops : list (Z * BlockOp)) : list Z := sort_by Z.leb (remove_dups (map fst ops)).

Lemma indices_increasing ops : increasing (indices ops).
Proof.
  unfold indices. assert (Hs : sorted_by Z.leb (sort_by Z.leb (remove_dups (map fst ops)))).
  { apply sort_by_sorted; intros *; lia. }
  assert (Hnd : NoDup (sort_by Z.leb (remove_dups (map fst ops)))) by (rewrite sort_by_perm; apply NoDup_remove_dups).
  revert Hs Hnd. generalize (sort_by Z.leb (remove_dups (map fst ops))). intros l.
  induction l as [|i l IH]; [done|]. intros [Hi Hs] [Hn Hnd]%NoDup_cons. split; [|by apply IH].
  intros j Hj. assert (i ≠ j) by (by intros ->). specialize (Hi j Hj). apply Z.leb_le in Hi. lia.
Qed.
Lemma elem_of_indices i ops : i ∈ indices ops ↔ i ∈ map fst ops.
Proof. unfold indices. by rewrite sort_by_perm, elem_of_remove_dups. Qed.

Lemma no_blocks_ok : blocks_ok no_blocks.
Proof. split; [done|done|]. by intros ??? ?%not_elem_of_nil. Qed.

Lemma at_index_none i ops : i ∉ map fst ops → at_index i ops = [].
Proof.
  induction ops as [|[j o] ops IH]; [done|]. cbn [map fst]. intros Hi. unfold at_index. cbn [omap list_omap].
  rewrite bool_decide_eq_false_2 by (intros ->; apply Hi; by left). apply IH. intros Hin. apply Hi. by right.
Qed.

Lemma finish_by_index ops idx stop_reason :
  increasing idx → (∀ i, i ∈ map fst ops → i ∈ idx) →
  finish from_str stop_reason (run_ops ops)
  = finish_blocks stop_reason (flat_map (λ i, closed (slot_of (at_index i ops))) idx).
Proof.
  intros Hinc Hall. unfold finish. f_equal. unfold run_ops.
  assert (Hv := λ j, run_ops_view ops no_blocks j no_blocks_ok). destruct (Hv 0%Z) as [Hok _].
  destruct (stop_all_view _ (fold_left run_op ops no_blocks) (le_n _) Hok) as ([_ Hdone _] & _ & Hd).
  set (d := done (stop_all _ _ _)) in *.
  assert (Hslot : ∀ j, done_at j d = closed (slot_of (at_index j ops))).
  { intros j. rewrite Hd. destruct (Hv j) as [_ ->]. done. }
  rewrite (done_by_index d idx Hdone Hinc).
  - clear -Hslot. induction idx as [|i idx IH]; [done|]. cbn [flat_map]. by rewrite Hslot, IH.
  - intros i n f Hin. apply Hall. destruct (decide (i ∈ map fst ops)) as [|Hnot]; [done|]. exfalso.
    specialize (Hslot i). rewrite (at_index_none i ops Hnot) in Hslot. cbn in Hslot.
    apply list_elem_of_split in Hin as (l1 & l2 & Heq). rewrite Heq in Hslot. unfold done_at in Hslot.
    rewrite omap_app in Hslot. cbn [omap list_omap] in Hslot. rewrite bool_decide_eq_true_2 in Hslot by done.
    by apply app_eq_nil in Hslot as [_ ?].
Qed.

(** A reply's blocks don't depend on how their events interleave: the reply is, in index order,
    what each index's own events make on their own (deltas joined in order, a call resent
    while open kept with its input, a reused index finishing the block before), so two streams
    that agree index by index give the same reply; the last block is dropped when it is a call
    the reply stopped in. *)
Theorem blocks_by_index (ops : list (Z * BlockOp)) (stop_reason : string) :
  finish from_str stop_reason (run_ops ops)
  = finish_blocks stop_reason (flat_map (λ i, closed (slot_of (at_index i ops))) (indices ops))
  ∧ ∀ ops', (∀ i, at_index i ops' = at_index i ops) →
      finish from_str stop_reason (run_ops ops') = finish from_str stop_reason (run_ops ops).
Proof.
  split; [apply finish_by_index; [apply indices_increasing|intros i; by rewrite elem_of_indices]|].
  intros ops' Heq. set (all := indices (ops ++ ops')%list).
  assert (Hall : ∀ i l, l = ops ∨ l = ops' → i ∈ map fst l → i ∈ all).
  { intros i l Hl Hi. apply elem_of_indices. rewrite map_app, elem_of_app. destruct Hl as [->| ->]; auto. }
  assert (Hinc : increasing all) by apply indices_increasing.
  rewrite (finish_by_index ops all _ Hinc (λ i, Hall i ops (or_introl eq_refl))).
  rewrite (finish_by_index ops' all _ Hinc (λ i, Hall i ops' (or_intror eq_refl))).
  f_equal. clear Hall Hinc. clearbody all. induction all as [|i all IH]; [done|]. cbn [flat_map]. by rewrite Heq, IH.
Qed.
End BlocksCorrect.

(** ** Sending again *)

Section SendingCorrect.
Context {V Ov : Type} `{Json V}.
Variable from_str : string → Result V string.
Variable classify : option Z → string → option Ov.
Variable show_status : Z → string.
Variable server : nat → Binding → Result Response string.
Variable request : CreateMessageRequest V.
Notation next_binding := (next_binding from_str).

(** What the sends so far say: a form is sent twice in a row only when the answer was a
    transient one, and the thinking is stripped only after a refusal of it. *)
Definition waited (i : nat) (b : Binding) : Prop :=
  ∃ response, server i b = Ok response ∧ is_transient_status (status response) = true.
Definition refused_thinking (i : nat) (b : Binding) : Prop :=
  ∃ response, server i b = Ok response ∧ status response = 400%Z
    ∧ (is_binding_mismatch from_str (body response) = true ∨ refuses_binding_controls (body response) = true).
Record sends_ok (sends : list Binding) : Prop := {
  repeats_waited : ∀ i b, sends !! i = Some b → sends !! S i = Some b → waited i b;
  strip_refused : Strip ∈ sends → ∃ i b, sends !! i = Some b ∧ refused_thinking i b;
}.

Lemma sends_ok_again sends b : sends_ok (sends ++ [b]) → waited (length sends) b → sends_ok ((sends ++ [b]) ++ [b]).
Proof.
  intros [Hr Hs] Hw. split.
  - intros i c Hi Hi'. destruct (decide (S i < length (sends ++ [b]))%nat) as [Hl|Hl].
    + rewrite lookup_app_l in Hi, Hi' by lia. by apply Hr.
    + assert (S i = length (sends ++ [b])) as He.
      { apply lookup_lt_Some in Hi'. rewrite length_app in Hi'. cbn in Hi'. lia. }
      rewrite length_app in He. cbn in He. assert (i = length sends) as -> by lia.
      rewrite lookup_app_l in Hi by (rewrite length_app; cbn; lia). rewrite lookup_app_r, Nat.sub_diag in Hi by done.
      by injection Hi as <-.
  - intros [Hin|<-%list_elem_of_singleton]%elem_of_app.
    + destruct (Hs Hin) as (i & c & Hi & ?). exists i, c. split; [by apply lookup_app_l_Some|done].
    + destruct Hs as (i & c & Hi & ?); [apply elem_of_app; right; by left|]. exists i, c. split; [by apply lookup_app_l_Some|done].
Qed.

Lemma sends_ok_next sends b next :
  sends_ok (sends ++ [b]) → refused_thinking (length sends) b → next ≠ b → sends_ok ((sends ++ [b]) ++ [next]).
Proof.
  intros [Hr Hs] Hw Hne. split.
  - intros i c Hi Hi'. destruct (decide (S i < length (sends ++ [b]))%nat) as [Hl|Hl].
    + rewrite lookup_app_l in Hi, Hi' by lia. by apply Hr.
    + assert (S i = length (sends ++ [b])) as He.
      { apply lookup_lt_Some in Hi'. rewrite length_app in Hi'. cbn in Hi'. lia. }
      rewrite He, lookup_app_r, Nat.sub_diag in Hi' by done. injection Hi' as <-.
      rewrite length_app in He. cbn in He. assert (i = length sends) as -> by lia.
      rewrite lookup_app_l in Hi by (rewrite length_app; cbn; lia). rewrite lookup_app_r, Nat.sub_diag in Hi by done.
      injection Hi as Hi. congruence.
  - intros _. exists (length sends), b. split; [|done].
    apply lookup_app_l_Some. by rewrite lookup_app_r, Nat.sub_diag.
Qed.

Lemma next_binding_untried b tried text next :
  next_binding b tried request text = Some next →
  next ∉ tried ∧ (is_binding_mismatch from_str text = true ∨ refuses_binding_controls text = true).
Proof.
  assert (Hu : ∀ c d, untried tried c = Some d → d ∉ tried).
  { intros c d. unfold untried. destruct (existsb _ tried) eqn:E; [done|]. intros [= <-] Hin.
    apply not_true_iff_false in E. apply E, existsb_exists. exists c.
    split; [by apply list_elem_of_In|by apply bool_decide_eq_true]. }
  assert (Ho : ∀ c d, or_else (untried tried c) (untried tried d) = Some next → next ∉ tried).
  { intros c d. unfold or_else. destruct (untried tried c) eqn:E; [|apply Hu]. intros [= ->]. by eapply Hu. }
  unfold Stream.next_binding. destruct b; [| |done].
  - destruct (is_binding_mismatch from_str text); cbn [andb]; [|done].
    destruct (is_some _); intros Hn; split; auto; [by eapply Ho|by eapply Hu].
  - destruct (_ || _) eqn:E; [|done]. intros Hn. apply orb_true_iff in E. split; [by eapply Ho|done].
Qed.

Lemma tried_at_most_three (tried : list Binding) : NoDup tried → (length tried ≤ 3)%nat.
Proof.
  intros Hn. apply (submseteq_length tried [AsIs; DropBlock; Strip]), NoDup_submseteq; [done|].
  intros [] _; [left|right; left|right; right; left].
Qed.

(** The answer the loop ends on. *)
Definition ends_well (r : Sent (Ov := Ov)) : Prop :=
  (length (sent r) ≤ MAX_SENDS)%nat ∧ sends_ok (sent r)
  ∧ ∀ b, outcome r = Ok b →
      ∃ n response, length (sent r) = S n ∧ sent r !! n = Some b ∧ server n b = Ok response
        ∧ is_success (status response) = true.

Lemma send_loop_ends fuel attempt binding tried sends memory :
  NoDup tried → binding ∈ tried → (attempt ≤ RETRIES)%nat →
  (RETRIES - attempt + (3 - length tried) < fuel)%nat →
  (length sends + 1 = attempt + length tried)%nat →
  sends_ok (sends ++ [binding]) →
  ∃ r, send_loop from_str classify show_status fuel server request attempt binding tried sends memory = Some r
       ∧ ends_well r ∧ ∃ more, sent r = (sends ++ [binding] ++ more)%list.
Proof.
  revert attempt binding tried sends memory. induction fuel as [|fuel IH];
    intros attempt binding tried sends memory Hnd Hin Ha Hf Hl Hok; [lia|].
  pose proof (tried_at_most_three tried Hnd) as H3.
  assert (Hlen : (length (sends ++ [binding]) ≤ MAX_SENDS)%nat)
    by (rewrite length_app; cbn; unfold RETRIES, MAX_SENDS in *; lia).
  assert (Hstop : ∀ o m, (∀ b, o = Ok b → ∃ response, b = binding ∧ server (length sends) b = Ok response
                                      ∧ is_success (status response) = true) →
    ∃ r, Some (Build_Sent (sends ++ [binding]) o m) = Some r ∧ ends_well r ∧ ∃ more, sent r = (sends ++ [binding] ++ more)%list).
  { intros o m Ho. eexists. split; [done|]. split; [|by exists []]. unfold ends_well. conjs; [done|done|].
    intros b (response & -> & ?)%Ho. exists (length sends), response. cbn [sent]. rewrite length_app. cbn [length].
    conjs; [lia|by rewrite lookup_app_r, Nat.sub_diag|naive_solver..]. }
  cbn [send_loop]. destruct (server (length sends) binding) as [response|e] eqn:Hs; [|by apply Hstop].
  destruct (is_success (status response)) eqn:Hsuc; [apply Hstop; intros b [= <-]; by exists response|].
  destruct (is_transient_status (status response)) eqn:Ht; cbn [andb].
  - destruct (attempt <? RETRIES)%nat eqn:Hat.
    + apply Nat.ltb_lt in Hat.
      destruct (IH (S attempt) binding tried (sends ++ [binding])%list memory) as (r & Hr & Hw & more & Hm); try done; try lia.
      * rewrite length_app. cbn. lia.
      * apply sends_ok_again; [done|by exists response].
      * exists r. conjs; [done|done|]. exists (binding :: more). by rewrite Hm, <-app_assoc.
    + assert (status response ≠ 400)%Z as Hne by (intros He; by rewrite He in Ht).
      apply Z.eqb_neq in Hne. rewrite Hne. apply Hstop. by intros b.
  - destruct (if (status response =? 400)%Z then _ else None) as [next|] eqn:Hn; [|apply Hstop; by intros b].
    destruct (Z.eqb_spec (status response) 400) as [H4|]; [|done].
    apply next_binding_untried in Hn as [Hnew Hwhy].
    destruct (IH attempt next (tried ++ [next])%list (sends ++ [binding])%list
      (if bool_decide (binding = DropBlock) then None else memory)) as (r & Hr & Hw & more & Hm); try done.
    + apply NoDup_app. conjs; [done| |by apply NoDup_singleton]. by intros x Hx ->%list_elem_of_singleton.
    + apply elem_of_app. right. by left.
    + rewrite length_app. cbn [length].
      assert (length (tried ++ [next]) ≤ 3)%nat as H3'.
      { apply tried_at_most_three, NoDup_app. conjs; [done| |by apply NoDup_singleton]. by intros x Hx ->%list_elem_of_singleton. }
      rewrite length_app in H3'. cbn [length] in H3'. lia.
    + rewrite !length_app. cbn. lia.
    + apply sends_ok_next; [done|by exists response|]. by intros ->.
    + exists r. conjs; [done|done|]. exists (next :: more). by rewrite Hm, <-app_assoc.
Qed.

(** A model request is sent five times at most, whatever the server answers: in the form the
    provider is remembered to take, then again after each of two transient answers, and in
    at most two other forms, each tried once.  A form goes out twice in a row only after a
    transient answer, the thinking is stripped only after a refusal of it or of the field
    that guards it, and a reply is read only from an answer that succeeded. *)
Theorem sends_bounded (memory : option Binding) :
  ∃ r, send from_str classify show_status server request memory = Some r
    ∧ (length (sent r) ≤ MAX_SENDS)%nat
    ∧ sent r !! 0%nat = Some (binding_for memory request)
    ∧ (∀ i b, sent r !! i = Some b → sent r !! S i = Some b → waited i b)
    ∧ (Strip ∈ sent r → ∃ i b, sent r !! i = Some b ∧ refused_thinking i b)
    ∧ (∀ b, outcome r = Ok b →
         ∃ n response, length (sent r) = S n ∧ sent r !! n = Some b ∧ server n b = Ok response
           ∧ is_success (status response) = true).
Proof.
  unfold send.
  destruct (send_loop_ends MAX_SENDS 0 (binding_for memory request) [binding_for memory request] [] memory)
    as (r & Hr & (Hlen & [Hrep Hstrip] & Hout) & more & Hm); try (unfold RETRIES, MAX_SENDS; cbn; lia).
  - apply NoDup_singleton.
  - by left.
  - split.
    + intros [|i] b; [intros _ Hb; discriminate Hb|intros Hb; discriminate Hb].
    + intros Hin%list_elem_of_singleton. unfold binding_for in Hin. by repeat case_match.
  - exists r. conjs; try done. by rewrite Hm.
Qed.
End SendingCorrect.
