(* ===== verification/TurnState.v ===== *)
(** * TurnState: each conversation's turn state

    [src/src/turn/state.rs]: the map of [ConversationRuntime]s, admission of turns, the
    turn lock's queue, stops, the pause, busy spells and what they owe the user, the kept
    error and turn generation, and what is freed when.  The map, the [Arc]s and the
    channels are an explicit [World]; tokio's watch channel and fair mutex are the two
    interfaces [Watch] and [FairMutex], used only through their documented laws.  A [Sys]
    adds what the code's callers own: the running [TurnInFlight]s and the holders of a
    turn lock outside a turn.  The theorems are over every interleaving of the
    operations' critical sections. *)

From stdpp Require Import functions.
From S2P Require Import Prelude RustStr Json Types Budget Compaction.
Local Open Scope Z_scope.

(** ** What a conversation owes the user ([events::Attention], least important first) *)

Inductive Attention := Notified | CutOff | Refused | Failed | Question.
#[export] Instance Attention_eq_dec : EqDecision Attention.
Proof. solve_decision. Defined.

Definition attention_rank (a : Attention) : nat :=
  match a with Notified => 0 | CutOff => 1 | Refused => 2 | Failed => 3 | Question => 4 end.

(** [kept.max(a)] of the derived order. *)
Definition attention_max (kept a : Attention) : Attention :=
  if (attention_rank kept <=? attention_rank a)%nat then a else kept.

(** The events the turn state publishes. *)
Inductive ConversationEvent :=
  | TurnState (running : bool) (elapsed : Z)
  | ReplyDelta (text : string) (offset : Z)
  | TurnError (message : string).
Inductive AppEvent :=
  | TurnsChanged
  | QuestionsChanged
  | NeedsUser (conversation_id : Z) (attention : Attention) (generation : Z).
#[export] Instance ConversationEvent_eq_dec : EqDecision ConversationEvent.
Proof. solve_decision. Defined.
#[export] Instance AppEvent_eq_dec : EqDecision AppEvent.
Proof. solve_decision. Defined.

(** ** tokio's watch channel and fair mutex *)

(** [tokio::sync::watch]: a channel's state [C], shared by its sender and receivers, and a
    receiver's own state [R].  [watch_changed] is whether [changed()] would resolve. *)
Class Watch (C R : Type) := {
  watch_channel : Z → C;
  watch_borrow : C → Z;
  watch_subscribe : C → C * R;
  watch_borrow_and_update : C → R → Z * R;
  watch_send_modify : (Z → Z) → C → C;
  watch_receiver_count : C → nat;
  watch_drop_receiver : R → C → C;
  watch_drop_sender : C → C;
  watch_changed : C → R → bool;
  (** Observers of the laws: the sender is gone; [r] is a live receiver of the channel. *)
  watch_closed : C → bool;
  watch_receives : C → R → Prop;
}.

Class WatchLaws (C R : Type) `{Watch C R} := {
  watch_channel_new v :
    watch_borrow (watch_channel v) = v ∧ watch_receiver_count (watch_channel v) = 0%nat
    ∧ watch_closed (watch_channel v) = false;
  (** A new receiver has seen the current value; the others aren't affected. *)
  watch_subscribe_spec c c' r :
    watch_subscribe c = (c', r) →
    watch_borrow c' = watch_borrow c
    ∧ watch_receiver_count c' = S (watch_receiver_count c)
    ∧ watch_closed c' = watch_closed c
    ∧ watch_receives c' r
    ∧ (watch_closed c = false → watch_changed c' r = false)
    ∧ (∀ r', watch_receives c r' → watch_receives c' r' ∧ watch_changed c' r' = watch_changed c r');
  watch_update_spec c r v r' :
    watch_borrow_and_update c r = (v, r') →
    v = watch_borrow c
    ∧ (watch_receives c r → watch_receives c r' ∧ (watch_closed c = false → watch_changed c r' = false));
  (** Every receiver is woken. *)
  watch_send_spec f c :
    watch_borrow (watch_send_modify f c) = f (watch_borrow c)
    ∧ watch_receiver_count (watch_send_modify f c) = watch_receiver_count c
    ∧ watch_closed (watch_send_modify f c) = watch_closed c
    ∧ (∀ r, watch_receives c r →
        watch_receives (watch_send_modify f c) r ∧ watch_changed (watch_send_modify f c) r = true);
  watch_drop_receiver_spec r c :
    watch_borrow (watch_drop_receiver r c) = watch_borrow c
    ∧ watch_receiver_count (watch_drop_receiver r c) = pred (watch_receiver_count c)
    ∧ watch_closed (watch_drop_receiver r c) = watch_closed c
    ∧ (∀ r', watch_receives c r' →
        watch_receives (watch_drop_receiver r c) r'
        ∧ watch_changed (watch_drop_receiver r c) r' = watch_changed c r');
  (** With the sender gone, [changed()] resolves at once, with an error. *)
  watch_drop_sender_spec c :
    watch_borrow (watch_drop_sender c) = watch_borrow c
    ∧ watch_receiver_count (watch_drop_sender c) = watch_receiver_count c
    ∧ watch_closed (watch_drop_sender c) = true
    ∧ (∀ r, watch_receives c r → watch_receives (watch_drop_sender c) r);
  watch_closed_changed c r : watch_closed c = true → watch_changed c r = true;
}.

(** [tokio::sync::Mutex]: its state [M] and a pending or granted acquisition [W].
    [mutex_acquire] is a fresh [lock_owned()] future polled once; [mutex_leave] drops an
    acquisition, queued or granted.  The lock is fair: [mutex_waiters] is the holder, then
    the queue in the order joined. *)
Class FairMutex (M W : Type) := {
  mutex_new : M;
  mutex_acquire : M → M * W;
  mutex_leave : W → M → M;
  mutex_waiters : M → list W;
}.
Class FairMutexLaws (M W : Type) `{FairMutex M W} `{EqDecision W} := {
  mutex_new_waiters : mutex_waiters mutex_new = [];
  mutex_acquire_waiters m m' w :
    mutex_acquire m = (m', w) → mutex_waiters m' = mutex_waiters m ++ [w] ∧ w ∉ mutex_waiters m;
  mutex_leave_waiters w m :
    mutex_waiters (mutex_leave w m) = List.filter (λ v, negb (bool_decide (v = w))) (mutex_waiters m);
}.

(** ** The state *)

(** The stop counter's channel, by address, and the last stop noted. *)
Record TurnStops := { counter : nat; noted : Z }.

Record KeptTurnError := { generation : Z; kept_error : option string }.
Definition no_kept_error : KeptTurnError := Build_KeptTurnError 0 None.

Record ConversationRuntime := {
  rt_lock : option nat;
  rt_reply : option string;
  rt_stops : option TurnStops;
  rt_paused : bool;
  rt_turns_in_flight : Z;
  rt_started_at : option Z;
  rt_kept : KeptTurnError;
  rt_activity_owed : bool;
  rt_attention : option Attention;
  rt_notified : option string;
  rt_published_notice : option (Z * string);
  rt_published : option (Z * Attention);
  rt_forgotten : bool;
  rt_compaction : CompactionProgress;
}.
#[export] Instance ConversationRuntime_eta : Eta ConversationRuntime := λ r,
  Build_ConversationRuntime (rt_lock r) (rt_reply r) (rt_stops r) (rt_paused r)
    (rt_turns_in_flight r) (rt_started_at r) (rt_kept r) (rt_activity_owed r)
    (rt_attention r) (rt_notified r) (rt_published_notice r) (rt_published r)
    (rt_forgotten r) (rt_compaction r).

Definition default_runtime : ConversationRuntime :=
  Build_ConversationRuntime None None None false 0 None no_kept_error false None None None None
    false fresh.

Definition is_none {A} (o : option A) : bool := match o with None => true | Some _ => false end.

Definition is_idle (rt : ConversationRuntime) : bool :=
  is_none (rt_lock rt) && is_none (rt_reply rt) && is_none (rt_stops rt)
  && negb (rt_paused rt) && (rt_turns_in_flight rt =? 0) && is_none (rt_started_at rt)
  && is_none (rt_attention rt) && is_none (rt_notified rt) && is_none (rt_published_notice rt)
  && is_none (rt_published rt) && (generation (rt_kept rt) =? 0) && is_none (kept_error (rt_kept rt)).

Section TurnState.
Context {C R M W : Type} `{Watch C R} `{FairMutex M W}.

(** An [Arc<tokio::sync::Mutex<()>>]: its strong count and the mutex. *)
Record ArcMutex := { strong_count : nat; mutex : M }.

(** [RUNTIMES], the allocations its entries and the turns point to, the clock, and what
    has been published, oldest first. *)
Record World := {
  runtimes : gmap Z ConversationRuntime;
  locks : nat → ArcMutex;
  channels : nat → C;
  next_address : nat;
  now : Z;
  told : list (Z * ConversationEvent);
  app_told : list AppEvent;
}.
#[export] Instance World_eta : Eta World := λ w,
  Build_World (runtimes w) (locks w) (channels w) (next_address w) (now w) (told w) (app_told w).

Definition publish (c : Z) (e : ConversationEvent) (w : World) : World := w <| told ::= λ l, l ++ [(c, e)] |>.
Definition publish_app (e : AppEvent) (w : World) : World := w <| app_told ::= λ l, l ++ [e] |>.

(** ** [Arc]s and channels *)

Definition new_mutex (w : World) : nat * World :=
  (next_address w,
   w <| locks ::= <[next_address w := Build_ArcMutex 1 mutex_new]> |> <| next_address ::= S |>).
Definition clone_arc (a : nat) (w : World) : World :=
  w <| locks ::= alter (λ l, Build_ArcMutex (S (strong_count l)) (mutex l)) a |>.
Definition drop_arc (a : nat) (w : World) : World :=
  w <| locks ::= alter (λ l, Build_ArcMutex (pred (strong_count l)) (mutex l)) a |>.
Definition drop_lock_field (o : option nat) (w : World) : World :=
  match o with Some a => drop_arc a w | None => w end.

(** [TurnStops::default()]. *)
Definition default_stops (w : World) : TurnStops * World :=
  (Build_TurnStops (next_address w) 0,
   w <| channels ::= <[next_address w := watch_channel 0]> |> <| next_address ::= S |>).
Definition drop_stops (o : option TurnStops) (w : World) : World :=
  match o with Some st => w <| channels ::= alter watch_drop_sender (counter st) |> | None => w end.
Definition drop_receiver (o : option (nat * R)) (w : World) : World :=
  match o with
  | Some (a, r) => w <| channels ::= alter (watch_drop_receiver r) a |>
  | None => w
  end.

(** ** [ConversationRuntime]'s methods *)

(** [stops.get_or_insert_with(TurnStops::default)]. *)
Definition stops_or_new (rt : ConversationRuntime) (w : World) : TurnStops * ConversationRuntime * World :=
  match rt_stops rt with
  | Some st => (st, rt, w)
  | None => let '(st, w) := default_stops w in (st, rt <| rt_stops := Some st |>, w)
  end.

Definition stop_receiver (rt : ConversationRuntime) (w : World) : (nat * R) * ConversationRuntime * World :=
  let '(st, rt, w) := stops_or_new rt w in
  let '(ch, r) := watch_subscribe (channels w (counter st)) in
  let '(_, r) := watch_borrow_and_update ch r in
  ((counter st, r), rt, w <| channels ::= <[counter st := ch]> |>).

(** [lock.get_or_insert_with(..)]. *)
Definition lock_or_new (rt : ConversationRuntime) (w : World) : nat * ConversationRuntime * World :=
  match rt_lock rt with
  | Some a => (a, rt, w)
  | None => let '(a, w) := new_mutex w in (a, rt <| rt_lock := Some a |>, w)
  end.

Definition release_idle (rt : ConversationRuntime) (w : World) : ConversationRuntime * World :=
  let '(rt, w) :=
    match rt_lock rt with
    | Some a => if (strong_count (locks w a) =? 1)%nat
                then (rt <| rt_lock := None |>, drop_arc a w) else (rt, w)
    | None => (rt, w)
    end in
  match rt_stops rt with
  | Some st => if (watch_receiver_count (channels w (counter st)) =? 0)%nat
               then (rt <| rt_stops := None |>, drop_stops (Some st) w) else (rt, w)
  | None => (rt, w)
  end.

(** ** Reaching an entry *)

Definition with_runtime {T} (c : Z) (f : ConversationRuntime → World → T * ConversationRuntime * World)
    (w : World) : T * World :=
  let '(result, rt, w) := f (default default_runtime (runtimes w !! c)) w in
  (result, w <| runtimes ::= <[c := rt]> |>).

Definition read_runtime {T} (c : Z) (f : ConversationRuntime → T) (w : World) : option T :=
  f <$> runtimes w !! c.

Definition update_existing_with {T} (c : Z)
    (f : ConversationRuntime → World → T * ConversationRuntime * World) (w : World) : option T * World :=
  match runtimes w !! c with
  | None => (None, w)
  | Some rt =>
      let '(result, rt, w) := f rt w in
      (Some result, w <| runtimes ::= if is_idle rt then delete c else <[c := rt]> |>)
  end.

Definition update_existing (c : Z) (f : ConversationRuntime → World → ConversationRuntime * World)
    (w : World) : World :=
  snd (update_existing_with c (λ rt w, let '(rt, w) := f rt w in (tt, rt, w)) w).

(** An update of the entry's fields alone. *)
Definition set_existing (c : Z) (f : ConversationRuntime → ConversationRuntime) : World → World :=
  update_existing c (λ rt w, (f rt, w)).
Definition set_runtime (c : Z) (f : ConversationRuntime → ConversationRuntime) (w : World) : World :=
  snd (with_runtime c (λ rt w, (tt, f rt, w)) w).

Definition conversation_lock (c : Z) (w : World) : nat * World :=
  with_runtime c (λ rt w, let '(a, rt, w) := lock_or_new rt w in (a, rt, clone_arc a w)) w.

Definition forget_conversation_lock (c : Z) : World → World :=
  update_existing c (λ rt w,
    let w := drop_lock_field (rt_lock rt) w in
    let w := drop_stops (rt_stops rt) w in
    (rt <| rt_lock := None |> <| rt_stops := None |> <| rt_paused := false |>
        <| rt_attention := None |> <| rt_notified := None |> <| rt_published_notice := None |>
        <| rt_published := None |> <| rt_forgotten := true |> <| rt_compaction := fresh |>
        <| rt_kept := no_kept_error |>, w)).

Definition with_compaction_progress {T} (c : Z) (f : CompactionProgress → T * CompactionProgress)
    (w : World) : T * World :=
  with_runtime c (λ rt w,
    let '(result, p) := f (rt_compaction rt) in (result, rt <| rt_compaction := p |>, w)) w.

(** ** The reply in progress *)

Definition reply_in_progress (c : Z) (w : World) : option string :=
  match mjoin (read_runtime c rt_reply w) with
  | Some text => if bool_decide (text = "") then None else Some text
  | None => None
  end.

Definition clear_reply_in_progress (c : Z) : World → World := set_existing c (λ rt, rt <| rt_reply := None |>).

(** [append_reply], with [relay_reply_delta]'s publish. *)
Definition append_reply (c : Z) (delta : string) (w : World) : World :=
  snd (with_runtime c (λ rt w,
    let reply := default "" (rt_reply rt) in
    (tt, rt <| rt_reply := Some (reply +:+ delta) |>, publish c (ReplyDelta delta (str_len reply)) w)) w).

(** ** Stops and the pause *)

Definition note_stop (c : Z) (stopped_by : Z) (w : World) : bool * World :=
  with_runtime c (λ rt w,
    let '(st, rt, w) := stops_or_new rt w in
    (noted st <? stopped_by,
     rt <| rt_stops := Some (Build_TurnStops (counter st) (Z.max (noted st) stopped_by)) |>, w)) w.

Definition stop_turn_now (c : Z) (w : World) : World :=
  snd (with_runtime c (λ rt w,
    let rt := rt <| rt_paused := true |> in
    match rt_stops rt with
    | Some st => (tt, rt, w <| channels ::= alter (watch_send_modify (λ n, u64_add n 1)) (counter st) |>)
    | None => (tt, rt, w)
    end) w).

Definition restore_pause (c : Z) : World → World := set_runtime c (λ rt, rt <| rt_paused := true |>).
Definition is_paused (c : Z) (w : World) : bool := default false (read_runtime c rt_paused w).

(** ** Admission *)

Record TurnPlace := { place_lock : nat; acquire : W }.
Record TurnInFlight := {
  conversation_id : Z;
  stop : option (nat * R);
  place : option TurnPlace;
}.
Inductive Admission := ByUser | UnlessPaused.

(** Joins lock [a]'s queue. *)
Definition queue_on (a : nat) (w : World) : TurnPlace * World :=
  let '(m, acq) := mutex_acquire (mutex (locks w a)) in
  (Build_TurnPlace a acq, w <| locks ::= alter (λ l, Build_ArcMutex (strong_count l) m) a |>).
(** [TurnPlace::join] of a handle on lock [a]: the acquisition holds a second one. *)
Definition join_lock (a : nat) (w : World) : TurnPlace * World := queue_on a (clone_arc a w).

(** A user's admission ends the pause and starts a new turn generation. *)
Definition admitted_by (admission : Admission) (rt : ConversationRuntime) : ConversationRuntime :=
  match admission with
  | ByUser =>
      rt <| rt_paused := false |>
         <| rt_kept := Build_KeptTurnError (u64_add (generation (rt_kept rt)) 1) None |>
         <| rt_published := None |>
  | UnlessPaused => rt
  end.

(** The first turn of a busy spell starts it clean. *)
Definition start_spell (c : Z) (rt : ConversationRuntime) (w : World) : ConversationRuntime * World :=
  (rt <| rt_attention := None |> <| rt_notified := None |> <| rt_started_at := Some (now w) |>,
   publish c (TurnState true 0) w).

Definition admit_turn (c : Z) (admission : Admission) (w : World) : option (TurnInFlight * Z) * World :=
  let '(result, w) :=
    with_runtime c (λ rt w,
      match admission, rt_paused rt with
      | UnlessPaused, true => (None, rt, w)
      | _, _ =>
          let cleared :=
            match admission with ByUser => negb (is_none (rt_published rt)) | UnlessPaused => false end in
          let rt := admitted_by admission rt in
          let rt := rt <| rt_turns_in_flight ::= λ n, u64_add n 1 |> in
          let '(receiver, rt, w) := stop_receiver rt w in
          let '(a, rt, w) := lock_or_new rt w in
          let '(joined, w) := join_lock a (clone_arc a w) in
          let first := rt_turns_in_flight rt =? 1 in
          let '(rt, w) := if first then start_spell c rt w else (rt, w) in
          (Some (first, cleared, receiver, joined, generation (rt_kept rt)), rt, w)
      end) w in
  match result with
  | None => (None, w)
  | Some (first, cleared, receiver, joined, gen) =>
      let w := if first : bool then publish_app TurnsChanged w
               else if cleared : bool then publish_app QuestionsChanged w else w in
      (Some (Build_TurnInFlight c (Some receiver) (Some joined), gen), w)
  end.

(** [TurnInFlight::start_by_user] expects an admission: [None] here is its panic. *)
Definition start_by_user (c : Z) : World → option (TurnInFlight * Z) * World := admit_turn c ByUser.
Definition start_unless_paused (c : Z) (w : World) : option TurnInFlight * World :=
  let '(admitted, w) := admit_turn c UnlessPaused w in (fst <$> admitted, w).

Definition take_place (t : TurnInFlight) : option TurnPlace * TurnInFlight :=
  (place t, Build_TurnInFlight (conversation_id t) (stop t) None).

(** ** The end of a turn *)

(** An acquisition dropped: it leaves the queue, or frees the lock. *)
Definition leave_queue (p : TurnPlace) (w : World) : World :=
  w <| locks ::= alter (λ l, Build_ArcMutex (strong_count l) (mutex_leave (acquire p) (mutex l))) (place_lock p) |>.
(** Dropping a place, with both its handles on the lock. *)
Definition drop_place (o : option TurnPlace) (w : World) : World :=
  match o with
  | None => w
  | Some p => drop_arc (place_lock p) (drop_arc (place_lock p) (leave_queue p w))
  end.

(** What a spell's end publishes: a [Failed] while one still stands is a repeat. *)
Definition owed_at_end (rt : ConversationRuntime) : option Attention :=
  match rt_attention rt, rt_published rt with
  | Some Failed, Some (_, Failed) => None
  | owed, _ => owed
  end.

(** The fields a spell's end leaves, before [release_idle]. *)
Definition end_spell (rt : ConversationRuntime) : ConversationRuntime :=
  let gen := generation (rt_kept rt) in
  let owed := owed_at_end rt in
  let message := rt_notified rt in
  let rt := rt <| rt_attention := None |> <| rt_notified := None |>
               <| rt_started_at := None |> <| rt_reply := None |> in
  let rt := match owed with
            | Some a => if rt_forgotten rt then rt else rt <| rt_published := Some (gen, a) |>
            | None => rt
            end in
  match message with
  | Some m => if rt_forgotten rt then rt else rt <| rt_published_notice := Some (gen, m) |>
  | None => rt
  end.

(** The drop's critical section: [Some] of what it owes when the last turn ended. *)
Definition count_down (t : TurnInFlight) (rt : ConversationRuntime) (w : World)
    : option (option Attention * Z) * ConversationRuntime * World :=
  let w := drop_receiver (stop t) w in
  let rt := rt <| rt_turns_in_flight ::= λ n, sat_sub n 1 |> in
  if rt_turns_in_flight rt =? 0 then
    let owed := owed_at_end rt in
    let gen := generation (rt_kept rt) in
    let '(rt, w) := release_idle (end_spell rt) w in
    (Some (owed, gen), rt, publish (conversation_id t) (TurnState false 0) w)
  else (None, rt, w).

Definition drop_turn (t : TurnInFlight) (w : World) : World :=
  let w := drop_place (place t) w in
  let '(ended, w) := update_existing_with (conversation_id t) (count_down t) w in
  match ended with
  | None => drop_receiver (stop t) w
  | Some None => w
  | Some (Some (owed, gen)) =>
      let w := publish_app TurnsChanged w in
      match owed with Some a => publish_app (NeedsUser (conversation_id t) a gen) w | None => w end
  end.

(** [between_turns] around its work: the lock taken outside a turn, then given back. *)
Definition lock_outside (c : Z) (w : World) : TurnPlace * World :=
  let '(a, w) := conversation_lock c w in queue_on a w.
Definition unlock_outside (p : TurnPlace) (w : World) : World := drop_arc (place_lock p) (leave_queue p w).

Definition release_idle_turn_state (c : Z) : World → World := update_existing c release_idle.

Definition busy_conversations (w : World) : list Z :=
  fst <$> filter (λ p, 0 < rt_turns_in_flight (snd p)) (map_to_list (runtimes w)).
Definition turn_running (c : Z) (w : World) : bool :=
  default false (read_runtime c (λ rt, 0 <? rt_turns_in_flight rt) w).
Definition turn_started_elapsed (c : Z) (w : World) : option Z :=
  (λ started, now w - started) <$> mjoin (read_runtime c rt_started_at w).

(** ** What the spell owes *)

Definition set_activity_owed (c : Z) : World → World := set_existing c (λ rt, rt <| rt_activity_owed := true |>).
Definition take_activity_owed (c : Z) (w : World) : bool * World :=
  let '(owed, w) :=
    update_existing_with c (λ rt w, (rt_activity_owed rt, rt <| rt_activity_owed := false |>, w)) w in
  (default false owed, w).

Definition max_attention (a : Attention) (o : option Attention) : option Attention :=
  Some (match o with Some kept => attention_max kept a | None => a end).

Definition note_attention (c : Z) (a : Attention) : World → World :=
  set_existing c (λ rt, rt <| rt_attention ::= max_attention a |>).
Definition is_outcome (o : option Attention) : bool :=
  match o with Some Failed | Some CutOff | Some Refused => true | _ => false end.
Definition forgo_child_outcome (c : Z) : World → World :=
  set_existing c (λ rt, if is_outcome (rt_attention rt) then rt <| rt_attention := None |> else rt).
Definition clear_attention (c : Z) : World → World :=
  set_existing c (λ rt, rt <| rt_attention := None |> <| rt_notified := None |>).
Definition note_notified (c : Z) (message : string) : World → World :=
  set_existing c (λ rt, rt <| rt_attention ::= max_attention Notified |> <| rt_notified := Some message |>).

Definition published_notice (c : Z) (gen : Z) (w : World) : option string :=
  match mjoin (read_runtime c rt_published_notice w) with
  | Some (published, message) => if published =? gen then Some message else None
  | None => None
  end.
Definition published_generation (c : Z) (w : World) : option Z :=
  fst <$> mjoin (read_runtime c rt_published w).

Definition note_trust_decided (c : Z) (w : World) : World :=
  let '(cleared, w) :=
    update_existing_with c (λ rt w,
      match rt_published rt with
      | Some (_, Question) => (true, rt <| rt_published := None |>, w)
      | _ => (false, rt, w)
      end) w in
  if bool_decide (cleared = Some true) then publish_app QuestionsChanged w else w.

(** ** The turn generation and the kept error *)

Definition take_turn_generation (c : Z) (held : nat) (w : World) : option Z * World :=
  let '(taken, w) :=
    update_existing_with c (λ rt w,
      if bool_decide (rt_lock rt = Some held) then
        let rt := rt <| rt_kept := Build_KeptTurnError (u64_add (generation (rt_kept rt)) 1) None |> in
        (Some (generation (rt_kept rt)), rt, w)
      else (None, rt, w)) w in
  (mjoin taken, w).

Definition forget_turn_generation (c : Z) : World → World :=
  set_existing c (λ rt, rt <| rt_kept := no_kept_error |> <| rt_published := None |> <| rt_forgotten := true |>).

Definition keep_turn_error (c : Z) (gen : Z) (error : string) : World → World :=
  set_existing c (λ rt,
    if generation (rt_kept rt) =? gen then rt <| rt_kept ::= λ k, Build_KeptTurnError (generation k) (Some error) |>
    else rt).

Definition show_conversation_error (c : Z) (message : string) (w : World) : World :=
  publish c (TurnError message)
    (set_runtime c (λ rt, rt <| rt_kept ::= λ k, Build_KeptTurnError (generation k) (Some message) |>) w).

Definition last_turn_error (c : Z) (w : World) : option string :=
  mjoin (read_runtime c (λ rt, kept_error (rt_kept rt)) w).
End TurnState.
