(* ===== verification/TurnSystem.v ===== *)
(** * TurnSystem: every interleaving of the turn state's critical sections

    What the callers of [TurnState]'s operations own: the running turns, each with its
    [TurnInFlight] and, once its body took it, its place in the lock's queue; and the
    holders of a conversation's lock outside a turn ([between_turns],
    [save_notice_between_turns]).  [step] is one critical section of the turn state; a
    reachable system is any sequence of them from the empty map.  The invariant [sys_inv]
    is proved in three parts: the counts and busy spells, the stop channels, the locks. *)

From stdpp Require Import functions fin_maps.
From S2P Require Import Prelude RustStr Json Types Budget Compaction TurnState.
Local Open Scope Z_scope.

(** ** Counting in a finite map *)

Definition cnt {A} (f : A → bool) (m : gmap nat A) : nat := size (filter (λ p, f p.2 = true) m).

Section Cnt.
Context {A : Type}.
Implicit Types (f : A → bool) (m : gmap nat A).

Lemma cnt_empty f : cnt f ∅ = 0%nat.
Proof. unfold cnt. by rewrite map_filter_empty, map_size_empty. Qed.

Lemma cnt_insert f m i x :
  m !! i = None → cnt f (<[i := x]> m) = ((if f x then 1 else 0) + cnt f m)%nat.
Proof.
  intros Hi. unfold cnt. destruct (f x) eqn:E.
  - rewrite map_filter_insert_True by done. rewrite map_size_insert_None; [done|].
    apply map_lookup_filter_None. by left.
  - rewrite map_filter_insert_False by (cbn; congruence).
    by rewrite delete_id by done.
Qed.

Lemma cnt_delete f m i x :
  m !! i = Some x → cnt f m = ((if f x then 1 else 0) + cnt f (delete i m))%nat.
Proof.
  intros Hi. rewrite <- (insert_delete_id m i x) at 1 by done.
  rewrite cnt_insert; [done|]. by rewrite lookup_delete_eq.
Qed.

Lemma cnt_update f m i x y :
  m !! i = Some x → f x = f y → cnt f (<[i := y]> m) = cnt f m.
Proof.
  intros Hi Hf. rewrite <- insert_delete_eq, cnt_insert by (by rewrite lookup_delete_eq).
  rewrite (cnt_delete f m i x Hi). by rewrite Hf.
Qed.

Lemma cnt_pos f m : (0 < cnt f m)%nat ↔ ∃ i x, m !! i = Some x ∧ f x = true.
Proof.
  unfold cnt. split.
  - intros Hs. destruct (map_choose (filter (λ p, f p.2 = true) m)) as (i & x & Hx).
    { intros E. rewrite E, map_size_empty in Hs. lia. }
    apply map_lookup_filter_Some in Hx as [Hx Hf]. by exists i, x.
  - intros (i & x & Hx & Hf). apply Nat.neq_0_lt_0. intros E.
    apply map_size_empty_inv in E.
    assert (filter (λ p : nat * A, f p.2 = true) m !! i = Some x) as Hl by (by apply map_lookup_filter_Some).
    by rewrite E, lookup_empty in Hl.
Qed.

Lemma cnt_zero f m i x : cnt f m = 0%nat → m !! i = Some x → f x = false.
Proof.
  intros Hz Hi. destruct (f x) eqn:E; [|done].
  assert (0 < cnt f m)%nat by (apply cnt_pos; by exists i, x). lia.
Qed.

Lemma cnt_none f m : (∀ i x, m !! i = Some x → f x = false) → cnt f m = 0%nat.
Proof.
  intros Hf. destruct (cnt f m) eqn:E; [done|].
  assert (0 < cnt f m)%nat as (i & x & Hx & Ht)%cnt_pos by (rewrite E; lia).
  by rewrite (Hf i x Hx) in Ht.
Qed.
End Cnt.

Section System.
Context {C R M W : Type} `{WatchLaws C R} `{FairMutexLaws M W}.
Abbreviation World := (@World C M).
Abbreviation TurnInFlight := (@TurnInFlight R W).
Abbreviation TurnPlace := (@TurnPlace W).

(** ** The system *)

(** A running turn; [body] is its place once its task took it ([run_turn_stoppable]). *)
Record Running := { turn : TurnInFlight; body : option TurnPlace }.

Record Sys := {
  world : World;
  running : gmap nat Running;
  outside : gmap nat TurnPlace;
  next_id : nat;
}.
#[local] Instance Sys_eta : Eta Sys := λ s, Build_Sys (world s) (running s) (outside s) (next_id s).

Definition conv (r : Running) : Z := conversation_id (turn r).
Definition busy (c : Z) (s : Sys) : bool := (0 <? cnt (λ r, bool_decide (conv r = c)) (running s))%nat.

Inductive op :=
  | StartByUser (c : Z) | StartUnlessPaused (c : Z)
  | TakePlace (i : nat) | BodyEnds (i : nat) | DropTurn (i : nat)
  | LockOutside (c : Z) | UnlockOutside (i : nat)
  | ReleaseIdle (c : Z)
  | Stop (c : Z) | RestorePause (c : Z) | Forget (c : Z) | NoteStop (c : Z) (stopped_by : Z)
  | AppendReply (c : Z) (delta : string) | ClearReply (c : Z)
  | NoteAttention (c : Z) (a : Attention) | NoteNotified (c : Z) (message : string)
  | ForgoChildOutcome (c : Z) | ClearAttention (c : Z) | NoteTrustDecided (c : Z)
  | SetActivityOwed (c : Z) | TakeActivityOwed (c : Z)
  | TakeGeneration (c : Z) (held : nat) | ForgetGeneration (c : Z)
  | KeepError (c : Z) (gen : Z) (error : string) | ShowError (c : Z) (message : string)
  | WithCompaction (c : Z) (f : CompactionProgress → CompactionProgress)
  | Tick (d : Z).

Definition on_world (f : World → World) (s : Sys) : Sys := s <| world ::= f |>.
Definition in_turn (c : Z) (f : World → World) (s : Sys) : option Sys :=
  if busy c s then Some (on_world f s) else None.

(** Counts a turn: [None] when a [usize] couldn't count one more live value. *)
Definition start_turn (c : Z) (admission : Admission) (s : Sys) : option Sys :=
  if bool_decide (Z.of_nat (size (running s)) < U64_MAX) then
    let '(admitted, w) := admit_turn c admission (world s) in
    match admitted with
    | None => Some (s <| world := w |>)
    | Some (t, _) =>
        Some (s <| world := w |> <| running ::= <[next_id s := Build_Running t None]> |> <| next_id ::= S |>)
    end
  else None.

(** One critical section.  [None] is a call the code doesn't make: what a turn notes, it
    notes while it is counted; a body ends, and then its turn is dropped. *)
Definition step (o : op) (s : Sys) : option Sys :=
  match o with
  | StartByUser c => start_turn c ByUser s
  | StartUnlessPaused c => start_turn c UnlessPaused s
  | TakePlace i =>
      r ← running s !! i;
      match body r, take_place (turn r) with
      | None, (Some p, t) => Some (s <| running ::= <[i := Build_Running t (Some p)]> |>)
      | _, _ => None
      end
  | BodyEnds i =>
      r ← running s !! i;
      match body r with
      | Some p => Some (s <| world ::= drop_place (Some p) |>
                          <| running ::= <[i := Build_Running (turn r) None]> |>)
      | None => None
      end
  | DropTurn i =>
      r ← running s !! i;
      match body r with
      | None => Some (s <| world ::= drop_turn (turn r) |> <| running ::= delete i |>)
      | Some _ => None
      end
  | LockOutside c =>
      let '(p, w) := lock_outside c (world s) in
      Some (s <| world := w |> <| outside ::= <[next_id s := p]> |> <| next_id ::= S |>)
  | UnlockOutside i =>
      p ← outside s !! i;
      Some (s <| world ::= unlock_outside p |> <| outside ::= delete i |>)
  | ReleaseIdle c => Some (on_world (release_idle_turn_state c) s)
  | Stop c => Some (on_world (stop_turn_now c) s)
  | RestorePause c => Some (on_world (restore_pause c) s)
  | Forget c => Some (on_world (forget_conversation_lock c) s)
  | NoteStop c n => Some (on_world (λ w, snd (note_stop c n w)) s)
  | AppendReply c delta => in_turn c (append_reply c delta) s
  | ClearReply c => Some (on_world (clear_reply_in_progress c) s)
  | NoteAttention c a => in_turn c (note_attention c a) s
  | NoteNotified c m => in_turn c (note_notified c m) s
  | ForgoChildOutcome c => Some (on_world (forgo_child_outcome c) s)
  | ClearAttention c => Some (on_world (clear_attention c) s)
  | NoteTrustDecided c => Some (on_world (note_trust_decided c) s)
  | SetActivityOwed c => Some (on_world (set_activity_owed c) s)
  | TakeActivityOwed c => Some (on_world (λ w, snd (take_activity_owed c w)) s)
  | TakeGeneration c held => Some (on_world (λ w, snd (take_turn_generation c held w)) s)
  | ForgetGeneration c => Some (on_world (forget_turn_generation c) s)
  | KeepError c g e => Some (on_world (keep_turn_error c g e) s)
  | ShowError c m => Some (on_world (show_conversation_error c m) s)
  | WithCompaction c f => Some (on_world (λ w, snd (with_compaction_progress c (λ p, (tt, f p)) w)) s)
  | Tick d => Some (on_world (λ w, w <| now ::= λ n, n + d |>) s)
  end.

Definition empty_world : World :=
  Build_World ∅ (λ _, Build_ArcMutex 0 mutex_new) (λ _, watch_channel 0) 0 0 [] [].
Definition empty_sys : Sys := Build_Sys empty_world ∅ ∅ 0.

Fixpoint steps (ops : list op) (s : Sys) : option Sys :=
  match ops with
  | [] => Some s
  | o :: ops => s' ← step o s; steps ops s'
  end.
Definition reachable (s : Sys) : Prop := ∃ ops, steps ops empty_sys = Some s.

(** ** Part one: the stop channels *)

(** [stops c] is conversation [c]'s current stop counter; a running turn listens to it, or
    to one whose sender is gone. *)
Record stop_inv (stops : Z → option nat) (ch : nat → C) (next : nat) (turns : gmap nat Running) : Prop := {
  stop_current c a :
    stops c = Some a →
    (a < next)%nat ∧ watch_closed (ch a) = false
    ∧ watch_receiver_count (ch a) = cnt (λ r, bool_decide (fst <$> stop (turn r) = Some a)) turns;
  stop_inj c c' a : stops c = Some a → stops c' = Some a → c = c';
  stop_listens i r :
    turns !! i = Some r →
    ∃ a rx, stop (turn r) = Some (a, rx) ∧ (a < next)%nat ∧ watch_receives (ch a) rx
      ∧ (watch_closed (ch a) = true ∨ stops (conv r) = Some a);
}.

Lemma stop_inv_ext stops stops' ch next next' turns :
  stop_inv stops ch next turns → (∀ c, stops' c = stops c) → (next ≤ next')%nat →
  stop_inv stops' ch next' turns.
Proof.
  intros [Hc Hi Hl] Hs Hn. split.
  - intros c a. rewrite Hs. intros Ha. destruct (Hc c a Ha) as (? & ? & ?). split_and!; [lia|done..].
  - intros c c' a. rewrite !Hs. apply Hi.
  - intros i r Hr. destruct (Hl i r Hr) as (a & rx & ? & ? & ? & Hor).
    exists a, rx. rewrite Hs. split_and!; [done|lia|done..].
Qed.

Lemma stop_inv_new stops ch next turns c :
  stops c = None → stop_inv stops ch next turns →
  stop_inv (<[c := Some next]> stops) (<[next := watch_channel 0]> ch) (S next) turns.
Proof.
  intros Hnone [Hc Hi Hl].
  assert (∀ c' a, stops c' = Some a → a ≠ next) as Hne.
  { intros c' a Ha ->. destruct (Hc c' next Ha). lia. }
  assert (cnt (λ r, bool_decide (fst <$> stop (turn r) = Some next)) turns = 0%nat) as Hz.
  { apply cnt_none. intros i r Hr. apply bool_decide_eq_false_2. destruct (Hl i r Hr) as (a & rx & -> & ? & _).
    intros [= ->]. lia. }
  destruct (watch_channel_new (C := C) 0) as (_ & Hcount & Hclosed).
  split.
  - intros c' a. destruct (decide (c' = c)) as [->|].
    + rewrite fn_lookup_insert. intros [= <-]. rewrite fn_lookup_insert. split_and!; [lia|done|congruence].
    + rewrite fn_lookup_insert_ne by done. intros Ha. rewrite fn_lookup_insert_ne by (symmetry; eauto).
      destruct (Hc c' a Ha) as (? & ? & ?). split_and!; [lia|done..].
  - intros c1 c2 a. destruct (decide (c1 = c)) as [->|]; destruct (decide (c2 = c)) as [->|];
      rewrite ?fn_lookup_insert, ?fn_lookup_insert_ne by done; [done|..].
    + intros [= <-] Ha. by apply Hne in Ha.
    + intros Ha [= <-]. by apply Hne in Ha.
    + apply Hi.
  - intros i r Hr. destruct (Hl i r Hr) as (a & rx & ? & ? & ? & Hor).
    exists a, rx. rewrite fn_lookup_insert_ne by lia. split_and!; [done|lia|done|].
    destruct Hor as [|Hor]; [by left|right]. rewrite fn_lookup_insert_ne; [done|]. intros ->. congruence.
Qed.

Lemma stop_inv_subscribe stops ch next turns c a ch' rx0 v rx i r :
  stops c = Some a → watch_subscribe (ch a) = (ch', rx0) → watch_borrow_and_update ch' rx0 = (v, rx) →
  turns !! i = None → conv r = c → stop (turn r) = Some (a, rx) →
  stop_inv stops ch next turns →
  stop_inv stops (<[a := ch']> ch) next (<[i := r]> turns) ∧ watch_changed ch' rx = false.
Proof.
  intros Ha Hsub Hupd Hi Hconv Hstop [Hc Hinj Hl].
  destruct (watch_subscribe_spec _ _ _ Hsub) as (_ & Hcount & Hclosed & Hrec & Hunchanged & Hothers).
  destruct (watch_update_spec _ _ _ _ Hupd) as (_ & Hu). destruct (Hu Hrec) as [Hrec' Hseen].
  destruct (Hc c a Ha) as (Hlt & Hopen & Hn). split; [split|].
  - intros c' a' Ha'. destruct (Hc c' a' Ha') as (? & ? & Hn'). destruct (decide (a' = a)) as [->|].
    + rewrite fn_lookup_insert. split_and!; [done|congruence|].
      rewrite Hcount, cnt_insert by done. rewrite bool_decide_eq_true_2 by (by rewrite Hstop). cbn. congruence.
    + rewrite fn_lookup_insert_ne by done. split_and!; [done|done|]. rewrite cnt_insert by done.
      rewrite bool_decide_eq_false_2; [done|]. rewrite Hstop. cbn. congruence.
  - apply Hinj.
  - intros j r'. destruct (decide (i = j)) as [<-|].
    + rewrite lookup_insert_eq. intros [= <-]. exists a, rx. rewrite fn_lookup_insert. rewrite Hconv. auto.
    + rewrite lookup_insert_ne by done. intros Hr. destruct (Hl j r' Hr) as (a' & rx' & ? & ? & Hr' & Hor).
      exists a', rx'. destruct (decide (a' = a)) as [->|].
      * rewrite fn_lookup_insert. split_and!; [done|done|by apply Hothers|]. by rewrite Hclosed.
      * by rewrite fn_lookup_insert_ne.
  - apply Hseen. congruence.
Qed.

Lemma stop_inv_send stops ch next turns a f :
  stop_inv stops ch next turns → stop_inv stops (alter (watch_send_modify f) a ch) next turns.
Proof.
  intros [Hc Hinj Hl]. destruct (watch_send_spec f (ch a)) as (_ & Hcount & Hclosed & Hothers).
  split; [|done|].
  - intros c' a' Ha'. destruct (Hc c' a' Ha') as (? & ? & ?). destruct (decide (a' = a)) as [->|].
    + rewrite fn_lookup_alter. split_and!; [done|congruence|congruence].
    + by rewrite fn_lookup_alter_ne.
  - intros i r Hr. destruct (Hl i r Hr) as (a' & rx & ? & ? & ? & Hor). exists a', rx.
    destruct (decide (a' = a)) as [->|].
    + rewrite fn_lookup_alter, Hclosed. split_and!; [done|done|by apply Hothers|done].
    + by rewrite fn_lookup_alter_ne.
Qed.

Lemma stop_inv_close stops ch next turns c a :
  stops c = Some a → stop_inv stops ch next turns →
  stop_inv (<[c := None]> stops) (alter watch_drop_sender a ch) next turns.
Proof.
  intros Ha [Hc Hinj Hl]. destruct (watch_drop_sender_spec (ch a)) as (_ & Hcount & Hclosed & Hothers).
  split.
  - intros c' a'. destruct (decide (c' = c)) as [->|]; [by rewrite fn_lookup_insert|].
    rewrite fn_lookup_insert_ne by done. intros Ha'. destruct (Hc c' a' Ha') as (? & ? & ?).
    rewrite fn_lookup_alter_ne; [done|]. intros ->. by assert (c = c') by eauto.
  - intros c1 c2 a'. destruct (decide (c1 = c)) as [->|]; [by rewrite fn_lookup_insert|].
    destruct (decide (c2 = c)) as [->|]; [by rewrite fn_lookup_insert|].
    rewrite !fn_lookup_insert_ne by done. apply Hinj.
  - intros i r Hr. destruct (Hl i r Hr) as (a' & rx & ? & ? & ? & Hor). exists a', rx.
    destruct (decide (a' = a)) as [->|].
    + rewrite fn_lookup_alter. split_and!; [done|done|by apply Hothers|by left].
    + rewrite fn_lookup_alter_ne by done. split_and!; [done..|]. destruct Hor as [|Hor]; [by left|right].
      rewrite fn_lookup_insert_ne; [done|]. intros E. congruence.
Qed.

Lemma stop_inv_drop stops ch next turns i r a rx :
  turns !! i = Some r → stop (turn r) = Some (a, rx) → stop_inv stops ch next turns →
  stop_inv stops (alter (watch_drop_receiver rx) a ch) next (delete i turns).
Proof.
  intros Hi Hstop [Hc Hinj Hl].
  destruct (watch_drop_receiver_spec rx (ch a)) as (_ & Hcount & Hclosed & Hothers). split; [|done|].
  - intros c' a' Ha'. destruct (Hc c' a' Ha') as (? & ? & Hn).
    rewrite (cnt_delete _ _ _ _ Hi), Hstop in Hn. cbn in Hn. destruct (decide (a' = a)) as [->|].
    + rewrite bool_decide_eq_true_2 in Hn by done. rewrite fn_lookup_alter.
      split_and!; [done|congruence|]. rewrite Hcount, Hn. done.
    + rewrite bool_decide_eq_false_2 in Hn by congruence. by rewrite fn_lookup_alter_ne.
  - intros j r' Hr. rewrite lookup_delete_Some in Hr. destruct Hr as [_ Hr].
    destruct (Hl j r' Hr) as (a' & rx' & ? & ? & ? & Hor). exists a', rx'.
    destruct (decide (a' = a)) as [->|].
    + rewrite fn_lookup_alter, Hclosed. split_and!; [done|done|by apply Hothers|done].
    + by rewrite fn_lookup_alter_ne.
Qed.

Lemma stop_inv_body stops ch next turns i r r' :
  turns !! i = Some r → stop (turn r') = stop (turn r) → conv r' = conv r →
  stop_inv stops ch next turns → stop_inv stops ch next (<[i := r']> turns).
Proof.
  intros Hi Hs Hr [Hc Hinj Hl]. split; [|done|].
  - intros c a Ha. destruct (Hc c a Ha) as (? & ? & Hn). split_and!; [done..|].
    rewrite Hn. symmetry. apply (cnt_update _ _ _ r); [done|]. by rewrite Hs.
  - intros j q. destruct (decide (i = j)) as [<-|].
    + rewrite lookup_insert_eq. intros [= <-]. rewrite Hs, Hr. by apply (Hl i).
    + rewrite lookup_insert_ne by done. apply Hl.
Qed.

(** ** Part two: the locks *)

(** [x] comes before [y] in a queue without repeats. *)
Definition before {A} (x y : A) (l : list A) : Prop := ∃ l1 l2, l = l1 ++ l2 ∧ x ∈ l1 ∧ y ∈ l2.

Lemma before_app {A} (x y z : A) l : before x y l → before x y (l ++ [z]).
Proof.
  intros (l1 & l2 & -> & Hx & Hy). exists l1, (l2 ++ [z]). rewrite <- app_assoc.
  split_and!; [done|done|]. apply elem_of_app. by left.
Qed.
Lemma before_last {A} (x z : A) l : x ∈ l → before x z (l ++ [z]).
Proof. intros Hx. exists l, [z]. split_and!; [done|done|]. by apply list_elem_of_singleton. Qed.
Lemma elem_of_filter_ne `{EqDecision A} (x z : A) l :
  x ∈ List.filter (λ v, negb (bool_decide (v = z))) l ↔ x ∈ l ∧ x ≠ z.
Proof.
  rewrite list_elem_of_In, filter_In, <- list_elem_of_In, negb_true_iff, bool_decide_eq_false. done.
Qed.
Lemma before_filter `{EqDecision A} (x y z : A) l :
  before x y l → x ≠ z → y ≠ z → before x y (List.filter (λ v, negb (bool_decide (v = z))) l).
Proof.
  intros (l1 & l2 & -> & Hx & Hy) ? ?. rewrite List.filter_app.
  eexists _, _. split_and!; [done|by apply elem_of_filter_ne..].
Qed.
Lemma before_ne {A} (x y : A) l : NoDup l → before x y l → x ≠ y.
Proof. intros Hnd (l1 & l2 & -> & Hx & Hy) ->. apply NoDup_app in Hnd as (_ & Hd & _). by apply (Hd y). Qed.
Lemma before_not_head {A} (x y : A) l : NoDup l → before x y l → head l ≠ Some y.
Proof.
  intros Hnd (l1 & l2 & -> & Hx & Hy) Hh. destruct l1 as [|a l1]; [by apply not_elem_of_nil in Hx|].
  cbn in Hh. simplify_eq. apply NoDup_app in Hnd as (_ & Hd & _). apply (Hd y); [|done]. apply list_elem_of_here.
Qed.
Lemma NoDup_filter_b {A} (f : A → bool) l : NoDup l → NoDup (List.filter f l).
Proof. intros Hl. apply NoDup_ListNoDup, List.NoDup_filter, NoDup_ListNoDup, Hl. Qed.

(** An acquisition someone owns, and whether it comes with a second handle on the lock. *)
Record Hold := { h_lock : nat; h_token : W; h_two : bool }.
Definition holds_on (a : nat) (holds : gmap nat Hold) : nat :=
  cnt (λ h, bool_decide (h_lock h = a)) holds + cnt (λ h, bool_decide (h_lock h = a) && h_two h) holds.
Abbreviation waiters locks a := (mutex_waiters (mutex (locks a))).

(** [lock_of c] is conversation [c]'s current lock.  Its strong count is one more than the
    handles the acquisitions hold, and on any lock the queue keeps the order they joined. *)
Record lock_inv (lock_of : Z → option nat) (locks : nat → @ArcMutex M) (next : nat) (holds : gmap nat Hold) : Prop := {
  lock_current c a : lock_of c = Some a → (a < next)%nat ∧ strong_count (locks a) = S (holds_on a holds);
  lock_inj c c' a : lock_of c = Some a → lock_of c' = Some a → c = c';
  lock_queued i h : holds !! i = Some h → (h_lock h < next)%nat ∧ h_token h ∈ waiters locks (h_lock h);
  lock_order i j h h' :
    holds !! i = Some h → holds !! j = Some h' → (i < j)%nat → h_lock h = h_lock h' →
    before (h_token h) (h_token h') (waiters locks (h_lock h));
  lock_nodup a : NoDup (waiters locks a);
}.

Lemma lock_inv_distinct lock_of locks next holds i j h h' :
  lock_inv lock_of locks next holds → holds !! i = Some h → holds !! j = Some h' → i ≠ j →
  h_lock h = h_lock h' → h_token h ≠ h_token h'.
Proof.
  intros Hinv Hi Hj Hne Heq. destruct (decide (i < j)%nat).
  - eapply before_ne; [apply (lock_nodup _ _ _ _ Hinv)|]. by eapply (lock_order _ _ _ _ Hinv i j).
  - apply not_eq_sym. eapply before_ne; [apply (lock_nodup _ _ _ _ Hinv)|].
    eapply (lock_order _ _ _ _ Hinv j i); [done|done|lia|done].
Qed.

Lemma lock_inv_ext lock_of lock_of' locks locks' next next' holds :
  lock_inv lock_of locks next holds → (∀ c, lock_of' c = lock_of c) → (∀ a, locks' a = locks a) →
  (next ≤ next')%nat → lock_inv lock_of' locks' next' holds.
Proof.
  intros [Hc Hi Hq Ho Hn] Hs Hl Hle. split.
  - intros c a. rewrite Hs, Hl. intros [??]%Hc. split; [lia|done].
  - intros c c' a. rewrite !Hs. apply Hi.
  - intros i h [??]%Hq. rewrite Hl. split; [lia|done].
  - intros i j h h' ? ? ? ?. rewrite Hl. by apply (Ho i j).
  - intros a. by rewrite Hl.
Qed.

Lemma holds_on_fresh lock_of locks next holds a :
  lock_inv lock_of locks next holds → (next ≤ a)%nat → holds_on a holds = 0%nat.
Proof.
  intros Hinv Ha. unfold holds_on. rewrite !cnt_none; [done|..]; intros i h Hh;
    destruct (lock_queued _ _ _ _ Hinv i h Hh); rewrite bool_decide_eq_false_2 by lia; done.
Qed.

Lemma lock_inv_new lock_of locks next holds c :
  lock_of c = None → lock_inv lock_of locks next holds →
  lock_inv (<[c := Some next]> lock_of) (<[next := Build_ArcMutex 1 mutex_new]> locks) (S next) holds.
Proof.
  intros Hnone Hinv. pose proof (holds_on_fresh _ _ _ _ next Hinv (le_n _)) as Hz.
  destruct Hinv as [Hc Hi Hq Ho Hn].
  assert (∀ c' a, lock_of c' = Some a → a ≠ next) as Hne.
  { intros c' a Ha ->. destruct (Hc c' next Ha). lia. }
  split.
  - intros c' a. destruct (decide (c' = c)) as [->|].
    + rewrite fn_lookup_insert. intros [= <-]. rewrite fn_lookup_insert, Hz. split; [lia|done].
    + rewrite fn_lookup_insert_ne by done. intros Ha. rewrite fn_lookup_insert_ne by (symmetry; eauto).
      destruct (Hc c' a Ha). split; [lia|done].
  - intros c1 c2 a. destruct (decide (c1 = c)) as [->|]; destruct (decide (c2 = c)) as [->|];
      rewrite ?fn_lookup_insert, ?fn_lookup_insert_ne by done; [done|..].
    + intros [= <-] Ha. by apply Hne in Ha.
    + intros Ha [= <-]. by apply Hne in Ha.
    + apply Hi.
  - intros i h Hh. destruct (Hq i h Hh). rewrite fn_lookup_insert_ne by lia. split; [lia|done].
  - intros i j h h' Hh Hh' Hlt Heq. destruct (Hq i h Hh). rewrite fn_lookup_insert_ne by lia. by apply (Ho i j).
  - intros a. destruct (decide (a = next)) as [->|]; [|by rewrite fn_lookup_insert_ne].
    rewrite fn_lookup_insert. cbn. rewrite mutex_new_waiters. apply NoDup_nil_2.
Qed.

(** The counts follow when a lock's strong count moves with the handles on it. *)
Lemma lock_inv_acquire lock_of locks next holds a i m tok two n :
  (a < next)%nat → mutex_acquire (mutex (locks a)) = (m, tok) →
  (∀ j h, holds !! j = Some h → (j < i)%nat) →
  n = (if two : bool then 2 else 1)%nat →
  lock_inv lock_of locks next holds →
  lock_inv lock_of (<[a := Build_ArcMutex (n + strong_count (locks a)) m]> locks) next
    (<[i := Build_Hold a tok two]> holds).
Proof.
  intros Ha Hacq Hlast -> [Hc Hi Hq Ho Hn].
  destruct (mutex_acquire_waiters _ _ _ Hacq) as [Hw Hnew].
  assert (holds !! i = None) as Hnone.
  { destruct (holds !! i) eqn:E; [|done]. apply Hlast in E. lia. }
  split; [|done|..].
  - intros c a' Hc'. destruct (Hc c a' Hc') as [? Hs]. split; [done|]. unfold holds_on.
    rewrite !cnt_insert by done. cbn. destruct (decide (a' = a)) as [->|].
    + rewrite fn_lookup_insert, bool_decide_eq_true_2 by done. cbn. rewrite Hs. unfold holds_on. destruct two; lia.
    + rewrite fn_lookup_insert_ne, bool_decide_eq_false_2 by done. done.
  - intros j h. destruct (decide (i = j)) as [<-|].
    + rewrite lookup_insert_eq. intros [= <-]. cbn. rewrite fn_lookup_insert. cbn. rewrite Hw.
      split; [done|]. apply elem_of_app. right. by apply list_elem_of_singleton.
    + rewrite lookup_insert_ne by done. intros Hh. destruct (Hq j h Hh) as [? Hin]. split; [done|].
      destruct (decide (h_lock h = a)) as [Hl|]; [|by rewrite fn_lookup_insert_ne].
      rewrite Hl in *. rewrite fn_lookup_insert. cbn. rewrite Hw. apply elem_of_app. by left.
  - intros j k h h' Hj Hk Hlt Heq. rewrite lookup_insert_Some in Hj, Hk.
    destruct Hj as [[-> _]|[_ Hj]].
    { destruct Hk as [[-> _]|[_ Hk]]; [lia|]. apply Hlast in Hk. lia. }
    destruct (Hq j h Hj) as [_ Hin]. destruct Hk as [[-> <-]|[_ Hk]].
    + cbn in *. rewrite Heq in *. rewrite fn_lookup_insert. cbn. rewrite Hw. by apply before_last.
    + specialize (Ho j k h h' Hj Hk Hlt Heq). destruct (decide (h_lock h = a)) as [Hl|]; [|by rewrite fn_lookup_insert_ne].
      rewrite Hl in *. rewrite fn_lookup_insert. cbn. rewrite Hw. by apply before_app.
  - intros a'. destruct (decide (a' = a)) as [->|]; [|by rewrite fn_lookup_insert_ne].
    rewrite fn_lookup_insert. cbn. rewrite Hw. apply NoDup_app. split_and!; [done| |apply NoDup_singleton].
    intros x Hx ->%list_elem_of_singleton. done.
Qed.

Lemma lock_inv_leave lock_of locks next holds i h n :
  holds !! i = Some h → n = (if h_two h then 2 else 1)%nat → lock_inv lock_of locks next holds →
  lock_inv lock_of
    (alter (λ l, Build_ArcMutex (strong_count l - n) (mutex_leave (h_token h) (mutex l))) (h_lock h) locks) next
    (delete i holds).
Proof.
  intros Hh -> Hinv. pose proof (λ j h1 h2, lock_inv_distinct lock_of locks next holds i j h1 h2 Hinv) as Hdis. destruct (id Hinv) as [Hc Hi Hq Ho Hn].
  assert (∀ j h', delete i holds !! j = Some h' → h_lock h' = h_lock h → h_token h' ≠ h_token h) as Hne.
  { intros j h' (Hij & Hj)%lookup_delete_Some Heq. by eapply not_eq_sym, (Hdis j). }
  split; [|done|..].
  - intros c a Ha. destruct (Hc c a Ha) as [? Hs]. split; [done|]. unfold holds_on in *.
    rewrite !(cnt_delete _ holds i h Hh) in Hs. destruct (decide (a = h_lock h)) as [->|].
    + rewrite fn_lookup_alter. cbn. rewrite bool_decide_eq_true_2 in Hs by done. cbn in Hs.
      rewrite Hs. destruct (h_two h); lia.
    + rewrite fn_lookup_alter_ne by done. rewrite bool_decide_eq_false_2 in Hs by done. done.
  - intros j h' Hj. pose proof (Hne j h' Hj) as Hne'. apply lookup_delete_Some in Hj as [_ Hj].
    destruct (Hq j h' Hj) as [? Hin]. split; [done|].
    destruct (decide (h_lock h' = h_lock h)) as [Heq|]; [|by rewrite fn_lookup_alter_ne].
    rewrite Heq in *. rewrite fn_lookup_alter. cbn. rewrite mutex_leave_waiters. apply elem_of_filter_ne. auto.
  - intros j k h1 h2 Hj Hk Hlt Heq. pose proof (Hne j h1 Hj) as Hne1. pose proof (Hne k h2 Hk) as Hne2.
    apply lookup_delete_Some in Hj as [_ Hj]. apply lookup_delete_Some in Hk as [_ Hk].
    specialize (Ho j k h1 h2 Hj Hk Hlt Heq).
    destruct (decide (h_lock h1 = h_lock h)) as [Heq'|]; [|by rewrite fn_lookup_alter_ne].
    rewrite Heq' in *. rewrite fn_lookup_alter. cbn. rewrite mutex_leave_waiters. apply before_filter; auto.
  - intros a. destruct (decide (a = h_lock h)) as [->|]; [|by rewrite fn_lookup_alter_ne].
    rewrite fn_lookup_alter. cbn. rewrite mutex_leave_waiters. by apply NoDup_filter_b.
Qed.

Lemma lock_inv_release lock_of locks next holds c a :
  lock_of c = Some a → lock_inv lock_of locks next holds →
  lock_inv (<[c := None]> lock_of) (alter (λ l, Build_ArcMutex (pred (strong_count l)) (mutex l)) a locks) next holds.
Proof.
  intros Ha [Hc Hi Hq Ho Hn].
  assert (∀ a', waiters (alter (λ l, Build_ArcMutex (pred (strong_count l)) (mutex l)) a locks) a' = waiters locks a') as Hw.
  { intros a'. destruct (decide (a' = a)) as [->|]; [by rewrite fn_lookup_alter|by rewrite fn_lookup_alter_ne]. }
  split.
  - intros c' a'. destruct (decide (c' = c)) as [->|]; [by rewrite fn_lookup_insert|].
    rewrite fn_lookup_insert_ne by done. intros Ha'. destruct (Hc c' a' Ha').
    rewrite fn_lookup_alter_ne; [done|]. intros ->. by assert (c = c') by eauto.
  - intros c1 c2 a'. destruct (decide (c1 = c)) as [->|]; [by rewrite fn_lookup_insert|].
    destruct (decide (c2 = c)) as [->|]; [by rewrite fn_lookup_insert|].
    rewrite !fn_lookup_insert_ne by done. apply Hi.
  - intros i h Hh. rewrite Hw. by apply (Hq i h).
  - intros i j h h' ? ? ? ?. rewrite Hw. by apply (Ho i j).
  - intros a'. rewrite Hw. apply Hn.
Qed.

(** ** The invariant *)

Definition entry (c : Z) (w : World) : ConversationRuntime := default default_runtime (runtimes w !! c).
Definition stops_of (w : World) (c : Z) : option nat := counter <$> rt_stops (entry c w).
Definition lock_of (w : World) (c : Z) : option nat := rt_lock (entry c w).
Definition place_of (r : Running) : option TurnPlace :=
  match body r with Some p => Some p | None => place (turn r) end.
Definition hold (two : bool) (p : TurnPlace) : Hold := Build_Hold (place_lock p) (acquire p) two.
Definition holds_of (turns : gmap nat Running) (others : gmap nat TurnPlace) : gmap nat Hold :=
  omap (λ r, hold true <$> place_of r) turns ∪ (hold false <$> others).
Definition turns_of (c : Z) (turns : gmap nat Running) : nat := cnt (λ r, bool_decide (conv r = c)) turns.

(** The [TurnState] events told about [c]; [replay] follows them from idle, [None] if one
    repeats the state it was in. *)
Definition turn_states (c : Z) (l : list (Z * ConversationEvent)) : list bool :=
  omap (λ p, match p with (c', TurnState b _) => if bool_decide (c' = c) then Some b else None | _ => None end) l.
Fixpoint replay (now_busy : bool) (l : list bool) : option bool :=
  match l with
  | [] => Some now_busy
  | b :: l => if Bool.eqb b now_busy then None else replay b l
  end.

(** What the invariant reads of an entry; an idle entry shows nothing. *)
Definition view (rt : ConversationRuntime) :=
  (rt_lock rt, counter <$> rt_stops rt, rt_turns_in_flight rt, rt_started_at rt,
   (rt_attention rt, rt_notified rt, rt_reply rt)).
Definition quiet (rt : ConversationRuntime) : Prop :=
  rt_attention rt = None ∧ rt_notified rt = None ∧ rt_reply rt = None.

Record spell_inv (ent : Z → ConversationRuntime) (l : list (Z * ConversationEvent)) (turns : gmap nat Running) : Prop := {
  spell_count c : rt_turns_in_flight (ent c) = Z.of_nat (turns_of c turns);
  spell_started c : is_Some (rt_started_at (ent c)) ↔ (0 < turns_of c turns)%nat;
  spell_idle c : turns_of c turns = 0%nat → quiet (ent c);
  spell_told c : replay false (turn_states c l) = Some (bool_decide (0 < turns_of c turns)%nat);
}.

Record sys_inv (s : Sys) : Prop := {
  inv_ids i : is_Some (running s !! i) ∨ is_Some (outside s !! i) → (i < next_id s)%nat;
  inv_disjoint i : is_Some (running s !! i) → outside s !! i = None;
  inv_size : Z.of_nat (size (running s)) ≤ U64_MAX;
  inv_body i r p : running s !! i = Some r → body r = Some p → place (turn r) = None;
  inv_spell : spell_inv (λ c, entry c (world s)) (told (world s)) (running s);
  inv_stop : stop_inv (stops_of (world s)) (channels (world s)) (next_address (world s)) (running s);
  inv_lock : lock_inv (lock_of (world s)) (locks (world s)) (next_address (world s)) (holds_of (running s) (outside s));
  inv_same i r p a rx :
    running s !! i = Some r → place_of r = Some p → stop (turn r) = Some (a, rx) →
    lock_of (world s) (conv r) = Some (place_lock p) ∨ watch_closed (channels (world s) a) = true;
}.

Lemma is_none_true {A} (o : option A) : is_none o = true → o = None.
Proof. by destruct o. Qed.

Lemma is_idle_view rt : is_idle rt = true → view rt = view default_runtime.
Proof.
  unfold is_idle. intros Hi. bool_to_prop.
  repeat match goal with H : is_none _ = true |- _ => apply is_none_true in H end.
  unfold view. repeat match goal with H : ?x = _ |- context [?x] => rewrite H end. done.
Qed.

Lemma entry_insert c rt w c' :
  entry c' (w <| runtimes ::= <[c := rt]> |>) = if decide (c = c') then rt else entry c' w.
Proof.
  unfold entry. change (runtimes (w <| runtimes ::= <[c := rt]> |>)) with (<[c := rt]> (runtimes w)).
  destruct (decide (c = c')) as [->|]; [by rewrite lookup_insert_eq|by rewrite lookup_insert_ne].
Qed.

Lemma view_update_existing {T} c f (w : World) rt (x : T) rt' w1 :
  runtimes w !! c = Some rt → f rt w = (x, rt', w1) → runtimes w1 = runtimes w →
  ∃ w', update_existing_with c f w = (Some x, w')
    ∧ (∀ c', view (entry c' w') = view (if decide (c = c') then rt' else entry c' w))
    ∧ locks w' = locks w1 ∧ channels w' = channels w1 ∧ next_address w' = next_address w1
    ∧ told w' = told w1 ∧ app_told w' = app_told w1.
Proof.
  intros Hc Hf Hw. unfold update_existing_with. rewrite Hc, Hf. eexists. split; [done|].
  split_and!; try done. intros c'. unfold entry.
  change (runtimes (w1 <| runtimes ::= ?g |>)) with (g (runtimes w1)). rewrite Hw.
  destruct (is_idle rt') eqn:E; destruct (decide (c = c')) as [->|].
  - rewrite lookup_delete_eq. symmetry. by apply is_idle_view.
  - by rewrite lookup_delete_ne.
  - by rewrite lookup_insert_eq.
  - by rewrite lookup_insert_ne.
Qed.

(** *** Operations that keep what the invariant reads *)

Definition core (rt : ConversationRuntime) :=
  (rt_lock rt, counter <$> rt_stops rt, rt_turns_in_flight rt, rt_started_at rt).

Lemma view_core rt rt' : view rt = view rt' → core rt = core rt'.
Proof. unfold view, core. by intros [= -> -> -> -> ???]. Qed.
Lemma view_quiet rt rt' : view rt = view rt' → quiet rt' → quiet rt.
Proof. unfold view, quiet. by intros [= _ _ _ _ -> -> ->]. Qed.

Lemma sys_inv_frame s w :
  sys_inv s →
  (∀ c, core (entry c w) = core (entry c (world s))) →
  (∀ c, turns_of c (running s) = 0%nat → quiet (entry c (world s)) → quiet (entry c w)) →
  (∀ c, turn_states c (told w) = turn_states c (told (world s))) →
  locks w = locks (world s) → channels w = channels (world s) →
  next_address w = next_address (world s) →
  sys_inv (s <| world := w |>).
Proof.
  intros [] Hcore Hquiet Htold Hlocks Hch Hnext. destruct inv_spell0.
  assert (∀ c, stops_of w c = stops_of (world s) c) as Hstops.
  { intros c. specialize (Hcore c). unfold core, stops_of in *. congruence. }
  assert (∀ c, lock_of w c = lock_of (world s) c) as Hlockof.
  { intros c. specialize (Hcore c). unfold core, lock_of in *. congruence. }
  split; try done.
  - split; cbn [world running set_field]; intros c; change (world (s <| world := w |>)) with w;
      change (running (s <| world := w |>)) with (running s).
    + specialize (Hcore c). specialize (spell_count0 c). unfold core in Hcore. congruence.
    + specialize (Hcore c). specialize (spell_started0 c). unfold core in Hcore.
      by replace (rt_started_at (entry c w)) with (rt_started_at (entry c (world s))) by congruence.
    + intros Hz. apply Hquiet; auto.
    + by rewrite Htold.
  - change (world (s <| world := w |>)) with w. rewrite Hch, Hnext.
    by eapply stop_inv_ext.
  - change (world (s <| world := w |>)) with w. rewrite Hlocks, Hnext.
    by eapply lock_inv_ext.
  - intros i r p a rx. change (world (s <| world := w |>)) with w. rewrite Hch, Hlockof. eauto.
Qed.

(** An update of an entry's fields that leaves the lock, stops, count and start. *)
Lemma sys_inv_set_existing s c (f : ConversationRuntime → ConversationRuntime) {T} (g : World → T * World) :
  sys_inv s → (∀ rt, core (f rt) = core rt) →
  (∀ rt, turns_of c (running s) = 0%nat → quiet rt → quiet (f rt)) →
  (runtimes (world s) !! c = None → snd (g (world s)) = world s) →
  (∀ rt, runtimes (world s) !! c = Some rt → snd (g (world s)) =
     snd (update_existing_with c (λ _ w, (tt, f rt, w)) (world s))) →
  sys_inv (on_world (λ w, snd (g w)) s).
Proof.
  intros Hinv Hcore Hquiet Hnone Hsome. unfold on_world.
  change (set_field world (λ w, snd (g w)) s) with (s <| world := snd (g (world s)) |>).
  destruct (runtimes (world s) !! c) as [rt|] eqn:Hc.
  - rewrite (Hsome rt eq_refl).
    destruct (view_update_existing c (λ _ w, (tt, f rt, w)) (world s) rt tt (f rt) (world s) Hc eq_refl eq_refl)
      as (w' & -> & Hview & ? & ? & ? & Ht & _). cbn [snd].
    assert (entry c (world s) = rt) as He by (unfold entry; by rewrite Hc).
    apply sys_inv_frame; [done| | |by intros; rewrite Ht|done..].
    + intros c'. rewrite (view_core _ _ (Hview c')). destruct (decide (c = c')) as [<-|]; [|done].
      by rewrite Hcore, He.
    + intros c' Hz Hq. eapply view_quiet; [apply Hview|]. destruct (decide (c = c')) as [<-|]; [|done].
      apply Hquiet; [done|by rewrite <- He].
  - rewrite Hnone by done. by destruct s.
Qed.

Lemma sys_inv_set s c f :
  sys_inv s → (∀ rt, core (f rt) = core rt) →
  (∀ rt, turns_of c (running s) = 0%nat → quiet rt → quiet (f rt)) →
  sys_inv (on_world (set_existing c f) s).
Proof.
  intros Hinv Hcore Hquiet. apply (sys_inv_set_existing s c f (λ w, (tt, set_existing c f w))); [done..| |].
  - intros Hc. cbn. unfold set_existing, update_existing, update_existing_with. by rewrite Hc.
  - intros rt Hc. cbn. unfold set_existing, update_existing, update_existing_with. by rewrite Hc.
Qed.

(** An update that makes the entry if need be. *)
Lemma sys_inv_set_runtime s c f w :
  sys_inv s → w = (world s) <| runtimes ::= <[c := f (entry c (world s))]> |> →
  (∀ rt, core (f rt) = core rt) →
  (∀ rt, turns_of c (running s) = 0%nat → quiet rt → quiet (f rt)) →
  sys_inv (s <| world := w |>).
Proof.
  intros Hinv -> Hcore Hquiet. apply sys_inv_frame; try done.
  - intros c'. rewrite entry_insert. by destruct (decide (c = c')) as [<-|].
  - intros c' Hz Hq. rewrite entry_insert. destruct (decide (c = c')) as [<-|]; auto.
Qed.

Lemma busy_turns c s : busy c s = true → turns_of c (running s) ≠ 0%nat.
Proof. unfold busy, turns_of. intros Hb%Nat.ltb_lt. lia. Qed.

Ltac quiet_fields :=
  let rt := fresh "rt" in
  intros rt; destruct rt; unfold quiet; cbn; intros; repeat case_match; cbn in *; by intuition.
Ltac core_fields := let rt := fresh "rt" in intros rt; destruct rt; cbn; repeat case_match; done.

Lemma step_set_inv s s' o :
  match o with
  | ClearReply _ | ForgoChildOutcome _ | ClearAttention _ | SetActivityOwed _ | ForgetGeneration _
  | KeepError _ _ _ => True
  | _ => False
  end → sys_inv s → step o s = Some s' → sys_inv s'.
Proof.
  intros Ho Hinv Hs. destruct o; try done; cbn in Hs; injection Hs as <-;
    (apply sys_inv_set; [done|core_fields|quiet_fields]).
Qed.

Lemma step_update_inv s s' o :
  match o with NoteTrustDecided _ | TakeActivityOwed _ | TakeGeneration _ _ => True | _ => False end →
  sys_inv s → step o s = Some s' → sys_inv s'.
Proof.
  intros Ho Hinv Hs. destruct o; try done; cbn in Hs; injection Hs as <-.
  - set (f := λ rt, match rt_published rt with
                    | Some (_, Question) => rt <| rt_published := None |> | _ => rt end).
    assert (sys_inv (s <| world := snd (update_existing_with c
              (λ rt w, match rt_published rt with
                       | Some (_, Question) => (true, rt <| rt_published := None |>, w)
                       | _ => (false, rt, w) end) (world s)) |>)) as Hw.
    { apply (sys_inv_set_existing s c f (update_existing_with c
              (λ rt w, match rt_published rt with
                       | Some (_, Question) => (true, rt <| rt_published := None |>, w)
                       | _ => (false, rt, w) end))); [done|unfold f; core_fields|unfold f; quiet_fields|..].
      - intros Hc. unfold update_existing_with. by rewrite Hc.
      - intros rt Hc. unfold update_existing_with. rewrite Hc. unfold f.
        by destruct (rt_published rt) as [[g []]|]. }
    unfold on_world, note_trust_decided. change (set_field world ?g s) with (s <| world := g (world s) |>).
    cbv beta. destruct (update_existing_with c _ (world s)) as [cleared w]. cbn in Hw. case_match; [|done].
    change (s <| world := publish_app QuestionsChanged w |>)
      with (s <| world := w |> <| world := publish_app QuestionsChanged w |>).
    by apply sys_inv_frame.
  - apply (sys_inv_set_existing s c (λ rt, rt <| rt_activity_owed := false |>)); [done|core_fields|quiet_fields|..].
    + intros Hc. unfold take_activity_owed, update_existing_with. by rewrite Hc.
    + intros rt Hc. unfold take_activity_owed, update_existing_with. by rewrite Hc.
  - set (f := λ rt, if bool_decide (rt_lock rt = Some held)
                    then rt <| rt_kept := Build_KeptTurnError (u64_add (generation (rt_kept rt)) 1) None |> else rt).
    apply (sys_inv_set_existing s c f); [done|unfold f; core_fields|unfold f; quiet_fields|..].
    + intros Hc. unfold take_turn_generation, update_existing_with. by rewrite Hc.
    + intros rt Hc. unfold take_turn_generation, update_existing_with. rewrite Hc. unfold f.
      by case_bool_decide.
Qed.

Lemma step_entry_inv s s' o :
  match o with
  | RestorePause _ | ShowError _ _ | WithCompaction _ _ | Tick _ => True | _ => False end →
  sys_inv s → step o s = Some s' → sys_inv s'.
Proof.
  intros Ho Hinv Hs. destruct o; try done; cbn in Hs; injection Hs as <-; unfold on_world;
    change (set_field world ?g s) with (s <| world := g (world s) |>); cbv beta.
  - by apply (sys_inv_set_runtime s c (λ rt, rt <| rt_paused := true |>)); [| |core_fields|quiet_fields].
  - set (f := λ rt, rt <| rt_kept ::= λ k, Build_KeptTurnError (generation k) (Some message) |>).
    assert (sys_inv (s <| world := (set_runtime c f (world s)) |>)) as Hw.
    { by apply (sys_inv_set_runtime s c f); [| |unfold f; core_fields|unfold f; quiet_fields]. }
    apply (sys_inv_frame _ (show_conversation_error c message (world s))) in Hw; try done.
    intros c'. unfold show_conversation_error, publish, turn_states.
    change (told (?w <| told ::= ?g |>)) with (g (told w)). cbv beta. rewrite omap_app. apply app_nil_r.
  - by apply (sys_inv_set_runtime s c (λ rt, rt <| rt_compaction ::= f |>)); [| |core_fields|quiet_fields].
  - by apply sys_inv_frame.
Qed.

Lemma in_turn_some c f s s' : in_turn c f s = Some s' → turns_of c (running s) ≠ 0%nat ∧ s' = on_world f s.
Proof. unfold in_turn. destruct (busy c s) eqn:E; [|done]. intros [= <-]. split; [by apply busy_turns|done]. Qed.

Lemma step_in_turn_inv s s' o :
  match o with AppendReply _ _ | NoteAttention _ _ | NoteNotified _ _ => True | _ => False end →
  sys_inv s → step o s = Some s' → sys_inv s'.
Proof.
  intros Ho Hinv Hs. destruct o; try done; cbn in Hs; apply in_turn_some in Hs as [Hbusy ->].
  - set (f := λ rt, rt <| rt_reply := Some (default "" (rt_reply rt) +:+ delta) |>).
    assert (sys_inv (s <| world := (set_runtime c f (world s)) |>)) as Hw.
    { by apply (sys_inv_set_runtime s c f); [| |unfold f; core_fields|]. }
    apply (sys_inv_frame _ (append_reply c delta (world s))) in Hw; try done.
    intros c'. unfold append_reply, with_runtime, publish, turn_states.
    change (told (?w <| told ::= ?g |>)) with (g (told w)). cbn [snd].
    change (told (?w <| runtimes ::= ?g |>)) with (told w).
    change (told (?w <| told ::= ?g |>)) with (g (told w)). cbv beta. rewrite omap_app. apply app_nil_r.
  - by apply sys_inv_set; [|core_fields|].
  - by apply sys_inv_set; [|core_fields|].
Qed.

(** *** Stops, deletes and what is freed *)

Lemma sys_inv_world s w :
  sys_inv s →
  spell_inv (λ c, entry c w) (told w) (running s) →
  stop_inv (stops_of w) (channels w) (next_address w) (running s) →
  lock_inv (lock_of w) (locks w) (next_address w) (holds_of (running s) (outside s)) →
  (∀ i r p a rx, running s !! i = Some r → place_of r = Some p → stop (turn r) = Some (a, rx) →
     lock_of (world s) (conv r) = Some (place_lock p) ∨ watch_closed (channels (world s) a) = true →
     lock_of w (conv r) = Some (place_lock p) ∨ watch_closed (channels w a) = true) →
  sys_inv (s <| world := w |>).
Proof. intros [] ? ? ? Hsame. split; try done. intros i r p a rx ? ? ?. eapply Hsame; eauto. Qed.

Lemma stops_or_new_spec rt (w w' : World) st rt' :
  stops_or_new rt w = (st, rt', w') →
  rt' = rt <| rt_stops := Some st |> ∧ runtimes w' = runtimes w ∧ locks w' = locks w ∧ told w' = told w
  ∧ (next_address w ≤ next_address w')%nat
  ∧ (∀ a, (a < next_address w)%nat → channels w' a = channels w a)
  ∧ (∀ stops turns c, stops c = counter <$> rt_stops rt →
     stop_inv stops (channels w) (next_address w) turns →
     stop_inv (<[c := Some (counter st)]> stops) (channels w') (next_address w') turns).
Proof.
  unfold stops_or_new, default_stops. destruct (rt_stops rt) as [st0|] eqn:E; intros [= <- <- <-].
  - split_and!; try done.
    + destruct rt; cbn in *. by subst.
    + intros stops turns c Hc Hinv. eapply stop_inv_ext; [done| |done].
      intros c'. destruct (decide (c' = c)) as [->|]; [by rewrite fn_lookup_insert|by rewrite fn_lookup_insert_ne].
  - split_and!; try done.
    + cbn. lia.
    + intros a Ha. cbn. rewrite fn_lookup_insert_ne; [done|lia].
    + intros stops turns c Hc Hinv. by apply stop_inv_new.
Qed.

Lemma lock_or_new_spec rt (w w' : World) a rt' :
  lock_or_new rt w = (a, rt', w') →
  rt' = rt <| rt_lock := Some a |> ∧ runtimes w' = runtimes w ∧ channels w' = channels w ∧ told w' = told w
  ∧ (next_address w ≤ next_address w')%nat
  ∧ (∀ a', rt_lock rt = Some a' → a = a')
  ∧ (∀ lock_of holds c, lock_of c = rt_lock rt → lock_inv lock_of (locks w) (next_address w) holds →
     lock_inv (<[c := Some a]> lock_of) (locks w') (next_address w') holds ∧ (a < next_address w')%nat).
Proof.
  unfold lock_or_new, new_mutex. destruct (rt_lock rt) as [a0|] eqn:E; intros [= <- <- <-].
  - split_and!; try done.
    + destruct rt; cbn in *. by subst.
    + by intros a' [= ->].
    + intros lock_of holds c Hc Hinv. split; [|by apply (lock_current _ _ _ _ Hinv c)].
      eapply lock_inv_ext; [done| |done|done].
      intros c'. destruct (decide (c' = c)) as [->|]; [by rewrite fn_lookup_insert|by rewrite fn_lookup_insert_ne].
  - split_and!; try done.
    + cbn. lia.
    + intros lock_of holds c Hc Hinv. split; [by apply lock_inv_new|cbn; lia].
Qed.

Lemma set_lock_stops rt rt1 x :
  rt1 = rt <| rt_lock := x |> → rt1 = rt <| rt_lock := rt_lock rt1 |> <| rt_stops := rt_stops rt1 |>.
Proof. intros ->. by destruct rt. Qed.

Lemma release_idle_spec rt rt' (w w' : World) :
  release_idle rt w = (rt', w') →
  rt' = rt <| rt_lock := rt_lock rt' |> <| rt_stops := rt_stops rt' |>
  ∧ runtimes w' = runtimes w ∧ told w' = told w ∧ next_address w' = next_address w
  ∧ (∀ a, watch_closed (channels w a) = true → watch_closed (channels w' a) = true)
  ∧ (∀ stops turns c, stops c = counter <$> rt_stops rt →
     stop_inv stops (channels w) (next_address w) turns →
     stop_inv (<[c := counter <$> rt_stops rt']> stops) (channels w') (next_address w') turns)
  ∧ (∀ lock_of holds c, lock_of c = rt_lock rt → lock_inv lock_of (locks w) (next_address w) holds →
     lock_inv (<[c := rt_lock rt']> lock_of) (locks w') (next_address w') holds
     ∧ (∀ i h, holds !! i = Some h → rt_lock rt = Some (h_lock h) → rt_lock rt' = Some (h_lock h))).
Proof.
  unfold release_idle. intros Hr.
  assert (∀ {A} (f : Z → option A) c x, f c = x → ∀ c', (<[c := x]> f) c' = f c') as Hid.
  { intros A f c x Hx c'. destruct (decide (c' = c)) as [->|]; [by rewrite fn_lookup_insert|by rewrite fn_lookup_insert_ne]. }
  set (l := match rt_lock rt with
            | Some a => if (strong_count (locks w a) =? 1)%nat then (rt <| rt_lock := None |>, drop_arc a w) else (rt, w)
            | None => (rt, w) end) in Hr.
  destruct l as [rt1 w1] eqn:El. subst l.
  assert (rt1 = rt <| rt_lock := rt_lock rt1 |> ∧ rt_stops rt1 = rt_stops rt ∧ runtimes w1 = runtimes w ∧ told w1 = told w
    ∧ next_address w1 = next_address w ∧ channels w1 = channels w
    ∧ (∀ lock_of holds c, lock_of c = rt_lock rt → lock_inv lock_of (locks w) (next_address w) holds →
       lock_inv (<[c := rt_lock rt1]> lock_of) (locks w1) (next_address w) holds
       ∧ (∀ i h, holds !! i = Some h → rt_lock rt = Some (h_lock h) → rt_lock rt1 = Some (h_lock h))))
    as (E1 & Es & ? & ? & Hn & Hch & Hlock).
  { destruct (rt_lock rt) as [a|] eqn:Ea; [destruct (strong_count (locks w a) =? 1)%nat eqn:E1|];
      injection El as <- <-; split_and!; try done; try (by destruct rt).
    - intros lock_of holds c Hc Hinv. split; [by apply lock_inv_release|].
      intros i h Hh [= ->]. destruct (lock_current _ _ _ _ Hinv c (h_lock h) Hc) as [_ Hs].
      apply Nat.eqb_eq in E1. rewrite Hs in E1. unfold holds_on in E1.
      assert (0 < cnt (λ h', bool_decide (h_lock h' = h_lock h)) holds)%nat; [|lia].
      apply cnt_pos. exists i, h. by rewrite bool_decide_eq_true_2.
    - intros lock_of holds c Hc Hinv. split; [|congruence]. eapply lock_inv_ext; [done| |done|done]. apply Hid. congruence.
    - intros lock_of holds c Hc Hinv. split; [|congruence]. eapply lock_inv_ext; [done| |done|done]. apply Hid. congruence. }
  clear El. destruct (rt_stops rt1) as [st|] eqn:Est; [destruct (_ =? 0)%nat eqn:Ec|];
    injection Hr as <- <-.
  - assert (rt_lock (rt1 <| rt_stops := None |>) = rt_lock rt1) as -> by done.
    split_and!; try done; try congruence.
    + exact (f_equal (set_field rt_stops (λ _, None)) E1).
    + intros a Ha. cbn. rewrite Hch. destruct (decide (a = counter st)) as [->|].
      * rewrite fn_lookup_alter. by apply watch_drop_sender_spec.
      * by rewrite fn_lookup_alter_ne.
    + intros stops turns c Hc Hinv. cbn. rewrite Hch, Hn. apply stop_inv_close; [by rewrite Hc, <- Es|done].
    + intros lock_of holds c Hc Hinv. cbn. rewrite Hn. by apply Hlock.
  - split_and!; try done; try congruence.
    + by eapply set_lock_stops.
    + intros stops turns c Hc Hinv. rewrite Hch, Hn. eapply stop_inv_ext; [done| |done]. apply Hid. by rewrite Hc, <- Es, Est.
    + intros lock_of holds c Hc Hinv. rewrite Hn. by apply Hlock.
  - split_and!; try done; try congruence.
    + by eapply set_lock_stops.
    + intros stops turns c Hc Hinv. rewrite Hch, Hn. eapply stop_inv_ext; [done| |done]. apply Hid. by rewrite Hc, <- Es, Est.
    + intros lock_of holds c Hc Hinv. rewrite Hn. by apply Hlock.
Qed.

(** [update_existing] as the invariant's components see it. *)
Lemma stops_of_update c (w w' : World) rt' :
  (∀ c', view (entry c' w') = view (if decide (c = c') then rt' else entry c' w)) →
  ∀ c', stops_of w' c' = (<[c := counter <$> rt_stops rt']> (stops_of w)) c'.
Proof.
  intros Hv c'. specialize (Hv c'). apply view_core in Hv. unfold core, stops_of in *.
  destruct (decide (c = c')) as [<-|]; [rewrite fn_lookup_insert|rewrite fn_lookup_insert_ne by done];
    congruence.
Qed.
Lemma lock_of_update c (w w' : World) rt' :
  (∀ c', view (entry c' w') = view (if decide (c = c') then rt' else entry c' w)) →
  ∀ c', lock_of w' c' = (<[c := rt_lock rt']> (lock_of w)) c'.
Proof.
  intros Hv c'. specialize (Hv c'). apply view_core in Hv. unfold core, lock_of in *.
  destruct (decide (c = c')) as [<-|]; [rewrite fn_lookup_insert|rewrite fn_lookup_insert_ne by done];
    congruence.
Qed.
Lemma spell_inv_update c (w w' : World) rt' l l' turns :
  (∀ c', view (entry c' w') = view (if decide (c = c') then rt' else entry c' w)) →
  spell_inv (λ c, entry c w) l turns → l' = l →
  rt_turns_in_flight rt' = rt_turns_in_flight (entry c w) →
  rt_started_at rt' = rt_started_at (entry c w) →
  (turns_of c turns = 0%nat → quiet (entry c w) → quiet rt') →
  spell_inv (λ c, entry c w') l' turns.
Proof.
  intros Hv [Hn Hs Hq Ht] -> Hn' Hs' Hq'. split; [..|done]; intros c'; specialize (Hv c');
    destruct (decide (c = c')) as [<-|].
  - apply view_core in Hv. unfold core in Hv. rewrite <- (Hn c). congruence.
  - apply view_core in Hv. unfold core in Hv. rewrite <- (Hn c'). congruence.
  - apply view_core in Hv. unfold core in Hv.
    replace (rt_started_at (entry c w')) with (rt_started_at (entry c w)) by congruence. apply Hs.
  - apply view_core in Hv. unfold core in Hv.
    replace (rt_started_at (entry c' w')) with (rt_started_at (entry c' w)) by congruence. apply Hs.
  - intros Hz. eapply view_quiet; [done|]. auto.
  - intros Hz. eapply view_quiet; [done|]. by apply Hq.
Qed.

Lemma entry_some c (w : World) rt : runtimes w !! c = Some rt → entry c w = rt.
Proof. intros Hc. unfold entry. by rewrite Hc. Qed.

Lemma on_world_eq f s : on_world f s = s <| world := f (world s) |>.
Proof. done. Qed.

Lemma step_stop_inv s s' c : sys_inv s → step (Stop c) s = Some s' → sys_inv s'.
Proof.
  intros Hinv [= <-]. rewrite on_world_eq. unfold stop_turn_now, with_runtime.
  fold (entry c (world s)). cbn [rt_stops]. change (rt_stops (?r <| rt_paused := true |>)) with (rt_stops r).
  set (f := λ rt, rt <| rt_paused := true |>).
  assert (∀ w, sys_inv (s <| world := w |>) → entry c w = entry c (world s) →
            sys_inv (s <| world := w <| runtimes ::= <[c := f (entry c (world s))]> |> |>)) as Hset.
  { intros w Hw He. rewrite <- He.
    change (s <| world := ?x |>) with (s <| world := w |> <| world := x |>).
    apply (sys_inv_set_runtime (s <| world := w |>) c f (w <| runtimes ::= <[c := f (entry c w)]> |>));
      [done|done|unfold f; core_fields|unfold f; quiet_fields]. }
  destruct (rt_stops (entry c (world s))) as [st|] eqn:E; cbn [snd].
  - apply Hset; [|done]. destruct (id Hinv). apply sys_inv_world; [done|done|by apply stop_inv_send|done|].
    intros i r p a rx ? ? ? [Hl|Hc]; [by left|right]. cbn.
    destruct (decide (a = counter st)) as [->|]; [|by rewrite fn_lookup_alter_ne].
    rewrite fn_lookup_alter. destruct (watch_send_spec (λ n, u64_add n 1) (channels (world s) (counter st))) as (_ & _ & -> & _). done.
  - apply Hset; [by destruct s|done].
Qed.

Lemma step_note_stop_inv s s' c n : sys_inv s → step (NoteStop c n) s = Some s' → sys_inv s'.
Proof.
  intros Hinv [= <-]. rewrite on_world_eq. unfold note_stop, with_runtime. fold (entry c (world s)).
  destruct (stops_or_new (entry c (world s)) (world s)) as [[st rt1] w1] eqn:E.
  destruct (stops_or_new_spec _ _ _ _ _ E) as (-> & Hr & Hl & Ht & Hle & Hch & Hstop).
  cbn [snd]. set (rt' := _ <| rt_stops := Some (Build_TurnStops _ _) |>).
  assert (∀ c', view (entry c' (w1 <| runtimes ::= <[c := rt']> |>))
              = view (if decide (c = c') then rt' else entry c' (world s))) as Hv.
  { intros c'. rewrite entry_insert. destruct (decide (c = c')); [done|]. unfold entry. by rewrite Hr. }
  destruct (id Hinv). apply sys_inv_world; [done|..].
  - eapply spell_inv_update; [exact Hv|done|done|done|done|]. intros _. done.
  - eapply stop_inv_ext; [by apply (Hstop (stops_of (world s)) (running s) c)| |done].
    apply (stops_of_update _ _ _ _ Hv).
  - change (locks (w1 <| runtimes ::= ?g |>)) with (locks w1). rewrite Hl.
    eapply lock_inv_ext; [done| |done|done].
    intros c'. rewrite (lock_of_update _ _ _ _ Hv). change (rt_lock rt') with (lock_of (world s) c).
    destruct (decide (c' = c)) as [->|]; [by rewrite fn_lookup_insert|by rewrite fn_lookup_insert_ne].
  - intros i r p a rx Hi Hp Ha [Hlk|Hcl]; [left|right].
    + rewrite (lock_of_update _ _ _ _ Hv). change (rt_lock rt') with (lock_of (world s) c).
      destruct (decide (conv r = c)) as [Heq|]; [|by rewrite fn_lookup_insert_ne].
      rewrite Heq, fn_lookup_insert. by rewrite <- Heq.
    + change (channels (w1 <| runtimes ::= ?g |>)) with (channels w1). rewrite Hch; [done|].
      destruct (stop_listens _ _ _ _ inv_stop0 i r Hi) as (a' & rx' & Ha' & ? & _). congruence.
Qed.

Lemma step_release_inv s s' c : sys_inv s → step (ReleaseIdle c) s = Some s' → sys_inv s'.
Proof.
  intros Hinv [= <-]. rewrite on_world_eq. unfold release_idle_turn_state, update_existing.
  destruct (runtimes (world s) !! c) as [rt|] eqn:Hc.
  2:{ unfold update_existing_with. rewrite Hc. by destruct s. }
  pose proof (entry_some _ _ _ Hc) as He.
  destruct (release_idle rt (world s)) as [rt' w1] eqn:E.
  destruct (release_idle_spec _ _ _ _ E) as (Hrt & Hr & Ht & Hn & Hcl & Hstop & Hlock).
  destruct (view_update_existing c (λ rt w, let '(rt, w) := release_idle rt w in (tt, rt, w)) _ _ tt rt' w1 Hc)
    as (w' & -> & Hv & Hl' & Hc' & Hn' & Ht' & _); [by rewrite E|done|]. cbn [snd].
  destruct (id Hinv).
  destruct (Hlock (lock_of (world s)) (holds_of (running s) (outside s)) c) as [Hlk Hkeep];
    [unfold lock_of; by rewrite He|done|].
  apply sys_inv_world; [done|..].
  - eapply spell_inv_update; [exact Hv|done|congruence|..].
    + by rewrite Hrt, He.
    + by rewrite Hrt, He.
    + rewrite He, Hrt. by intros _ [? [??]].
  - rewrite Hc', Hn'. eapply stop_inv_ext; [apply (Hstop (stops_of (world s)) (running s) c)| |lia].
    + unfold stops_of. by rewrite He.
    + done.
    + apply (stops_of_update _ _ _ _ Hv).
  - rewrite Hl', Hn'. eapply lock_inv_ext; [exact Hlk|apply (lock_of_update _ _ _ _ Hv)|done|done].
  - intros i r p a rx Hi Hp Ha [Hlk'|Hcl']; [left|right; rewrite Hc'; auto].
    rewrite (lock_of_update _ _ _ _ Hv). destruct (decide (conv r = c)) as [Heq|]; [|by rewrite fn_lookup_insert_ne].
    rewrite Heq, fn_lookup_insert. apply (Hkeep i (hold true p)).
    + unfold holds_of. apply lookup_union_Some_l. rewrite lookup_omap, Hi. cbn. by rewrite Hp.
    + change (h_lock (hold true p)) with (place_lock p). rewrite <- Hlk'. unfold lock_of. by rewrite Heq, He.
Qed.

Lemma drop_lock_field_spec o (w : World) :
  runtimes (drop_lock_field o w) = runtimes w ∧ channels (drop_lock_field o w) = channels w
  ∧ told (drop_lock_field o w) = told w ∧ next_address (drop_lock_field o w) = next_address w
  ∧ (∀ lock_of holds c, lock_of c = o → lock_inv lock_of (locks w) (next_address w) holds →
     lock_inv (<[c := None]> lock_of) (locks (drop_lock_field o w)) (next_address w) holds).
Proof.
  destruct o as [a|]; split_and!; try done; intros lock_of holds c Hc Hinv.
  - by apply lock_inv_release.
  - eapply lock_inv_ext; [done| |done|done]. intros c'.
    destruct (decide (c' = c)) as [->|]; [by rewrite fn_lookup_insert|by rewrite fn_lookup_insert_ne].
Qed.

Lemma drop_stops_spec o (w : World) :
  runtimes (drop_stops o w) = runtimes w ∧ locks (drop_stops o w) = locks w
  ∧ told (drop_stops o w) = told w ∧ next_address (drop_stops o w) = next_address w
  ∧ (∀ a, watch_closed (channels w a) = true ∨ counter <$> o = Some a →
       watch_closed (channels (drop_stops o w) a) = true)
  ∧ (∀ stops turns c, stops c = counter <$> o → stop_inv stops (channels w) (next_address w) turns →
     stop_inv (<[c := None]> stops) (channels (drop_stops o w)) (next_address w) turns).
Proof.
  destruct o as [st|]; split_and!; try done.
  - intros a Ha. cbn. destruct (decide (a = counter st)) as [->|].
    + rewrite fn_lookup_alter. by apply watch_drop_sender_spec.
    + rewrite fn_lookup_alter_ne by done. destruct Ha as [|Ha]; [done|]. cbn in Ha. congruence.
  - intros stops turns c Hc Hinv. by apply stop_inv_close.
  - by intros a [|].
  - intros stops turns c Hc Hinv. eapply stop_inv_ext; [done| |done]. intros c'.
    destruct (decide (c' = c)) as [->|]; [by rewrite fn_lookup_insert|by rewrite fn_lookup_insert_ne].
Qed.

Lemma step_forget_inv s s' c : sys_inv s → step (Forget c) s = Some s' → sys_inv s'.
Proof.
  intros Hinv [= <-]. rewrite on_world_eq. unfold forget_conversation_lock, update_existing.
  destruct (runtimes (world s) !! c) as [rt|] eqn:Hc.
  2:{ unfold update_existing_with. rewrite Hc. by destruct s. }
  pose proof (entry_some _ _ _ Hc) as He.
  destruct (drop_lock_field_spec (rt_lock rt) (world s)) as (Hr1 & Hc1 & Ht1 & Hn1 & Hlock).
  destruct (drop_stops_spec (rt_stops rt) (drop_lock_field (rt_lock rt) (world s))) as (Hr2 & Hl2 & Ht2 & Hn2 & Hcl & Hstop).
  match goal with |- context [update_existing_with c ?f _] =>
    edestruct (view_update_existing c f) as (w' & Hw' & Hv & Hl' & Hc' & Hn' & Ht' & _);
      [exact Hc|reflexivity|congruence|]
  end.
  rewrite Hw'. clear Hw'. cbn [snd]. destruct (id Hinv). apply sys_inv_world; [done|..].
  - eapply spell_inv_update; [exact Hv|done|congruence|by rewrite He|by rewrite He|].
    rewrite He. by intros _ (? & ? & ?).
  - rewrite Hc', Hn', Hn2, Hn1. rewrite Hn1, Hc1 in Hstop.
    eapply stop_inv_ext; [apply (Hstop (stops_of (world s)) (running s) c)| |done].
    + unfold stops_of. by rewrite He.
    + done.
    + apply (stops_of_update _ _ _ _ Hv).
  - rewrite Hl', Hn', Hl2, Hn2, Hn1. eapply lock_inv_ext; [apply (Hlock (lock_of (world s)) _ c)| |done|done].
    + unfold lock_of. by rewrite He.
    + done.
    + apply (lock_of_update _ _ _ _ Hv).
  - intros i r p a rx Hi Hp Ha Hor. rewrite Hc'. destruct (decide (conv r = c)) as [Heq|].
    + right. apply Hcl. rewrite Hc1.
      destruct (stop_listens _ _ _ _ inv_stop0 i r Hi) as (a' & rx' & Ha' & ? & _ & [Hx|Hx]);
        [left; congruence|right].
      assert (a' = a) as -> by congruence. rewrite <- Hx. unfold stops_of. by rewrite Heq, He.
    + destruct Hor as [Hlk|Hx]; [left|right; apply Hcl; rewrite Hc1; by left].
      by rewrite (lock_of_update _ _ _ _ Hv), fn_lookup_insert_ne.
Qed.

(** *** Places: taken, given back, and the lock held outside a turn *)

Lemma holds_lookup turns others i :
  holds_of turns others !! i =
  match turns !! i ≫= place_of with
  | Some p => Some (hold true p)
  | None => hold false <$> others !! i
  end.
Proof.
  unfold holds_of. rewrite lookup_union, lookup_omap, lookup_fmap.
  destruct (turns !! i) as [r|]; cbn; [destruct (place_of r) as [p|]; cbn|];
    destruct (others !! i); done.
Qed.

(** The keys of the acquisitions are ids given out already. *)
Lemma holds_ids s i h : sys_inv s → holds_of (running s) (outside s) !! i = Some h → (i < next_id s)%nat.
Proof.
  intros Hinv. rewrite holds_lookup. intros Hh. apply (inv_ids _ Hinv).
  destruct (running s !! i); [by left; eexists|]. cbn in Hh. destruct (outside s !! i); [by right; eexists|done].
Qed.

Lemma lock_inv_holds lock_of locks next holds holds' :
  (∀ i, holds' !! i = holds !! i) → lock_inv lock_of locks next holds → lock_inv lock_of locks next holds'.
Proof. intros Heq. by rewrite (map_eq holds' holds Heq). Qed.

Lemma drop_place_locks p (w : World) a :
  locks (drop_place (Some p) w) a =
  alter (λ l, Build_ArcMutex (strong_count l - 2) (mutex_leave (acquire p) (mutex l))) (place_lock p) (locks w) a.
Proof.
  unfold drop_place, drop_arc, leave_queue. cbn. destruct (decide (a = place_lock p)) as [->|].
  - rewrite !fn_lookup_alter. cbn. f_equal. lia.
  - by rewrite !fn_lookup_alter_ne.
Qed.
Lemma unlock_outside_locks p (w : World) a :
  locks (unlock_outside p w) a =
  alter (λ l, Build_ArcMutex (strong_count l - 1) (mutex_leave (acquire p) (mutex l))) (place_lock p) (locks w) a.
Proof.
  unfold unlock_outside, drop_arc, leave_queue. cbn. destruct (decide (a = place_lock p)) as [->|].
  - rewrite !fn_lookup_alter. cbn. f_equal. lia.
  - by rewrite !fn_lookup_alter_ne.
Qed.

Lemma spell_inv_running ent l turns i r r' :
  turns !! i = Some r → conv r' = conv r → spell_inv ent l turns → spell_inv ent l (<[i := r']> turns).
Proof.
  intros Hi Hc [Hn Hs Hq Ht].
  assert (∀ c, turns_of c (<[i := r']> turns) = turns_of c turns) as He.
  { intros c. apply (cnt_update _ _ _ r); [done|]. by rewrite Hc. }
  split; intros c; rewrite He; auto.
Qed.

(** A turn's place moved or given back: the counts and stops don't see it. *)
Lemma sys_inv_place s i r r' w :
  sys_inv s → running s !! i = Some r → turn r = turn r' ∨ place (turn r') = None →
  stop (turn r') = stop (turn r) → conv r' = conv r →
  (body r' ≠ None → place (turn r') = None) →
  runtimes w = runtimes (world s) → channels w = channels (world s) → told w = told (world s) →
  next_address w = next_address (world s) →
  lock_inv (lock_of (world s)) (locks w) (next_address w) (holds_of (<[i := r']> (running s)) (outside s)) →
  (∀ p, place_of r' = Some p → place_of r = Some p) →
  sys_inv (s <| world := w |> <| running := <[i := r']> (running s) |>).
Proof.
  intros [] Hi _ Hstop Hconv Hbody Hr Hc Ht Hn Hlock Hplace.
  assert (∀ c, entry c w = entry c (world s)) as He by (intros c; unfold entry; by rewrite Hr).
  split; cbn; rewrite ?Hc, ?Hn, ?Ht.
  - intros j [Hj|Hj]; [|by apply inv_ids0; right]. rewrite lookup_insert_is_Some in Hj.
    destruct Hj as [->|[_ Hj]]; apply inv_ids0; left; [by eexists|done].
  - intros j Hj. rewrite lookup_insert_is_Some in Hj.
    destruct Hj as [->|[_ Hj]]; apply inv_disjoint0; [by eexists|done].
  - by rewrite map_size_insert_Some.
  - intros j q p. rewrite lookup_insert_Some. intros [[-> <-]|[_ Hj]]; [|by eapply inv_body0].
    intros Hb. apply Hbody. congruence.
  - apply (spell_inv_running _ _ _ i r); [done..|].
    destruct inv_spell0. split; try done; intros c; rewrite He; auto.
  - eapply stop_inv_ext; [exact (stop_inv_body _ _ _ _ i r r' Hi Hstop Hconv inv_stop0)| |done].
    intros c. unfold stops_of. by rewrite He.
  - rewrite <- Hn. eapply lock_inv_ext; [done| |done|done]. intros c. unfold lock_of. by rewrite He.
  - intros j q p a rx. rewrite lookup_insert_Some. unfold lock_of. rewrite He.
    intros [[-> <-]|[_ Hj]] Hp Ha; [|by eapply inv_same0].
    rewrite Hconv. eapply inv_same0; [done|by apply Hplace|by rewrite <- Hstop].
Qed.

Lemma step_take_place_inv s s' i : sys_inv s → step (TakePlace i) s = Some s' → sys_inv s'.
Proof.
  intros Hinv Hs. cbn in Hs. destruct (running s !! i) as [r|] eqn:Hi; [|done]. cbn in Hs.
  destruct (body r) eqn:Hb; [done|]. destruct (place (turn r)) as [p|] eqn:Hp; [|done].
  injection Hs as <-. destruct (id Hinv).
  change (sys_inv (s <| world := world s |> <| running := <[i := Build_Running (snd (take_place (turn r))) (Some p)]> (running s) |>)).
  apply (sys_inv_place s i r); try done.
  - by right.
  - eapply lock_inv_holds; [|exact inv_lock0]. intros j. rewrite !holds_lookup.
    destruct (decide (i = j)) as [<-|]; [|by rewrite lookup_insert_ne].
    rewrite lookup_insert_eq, Hi. cbn. unfold place_of. cbn. by rewrite Hb, Hp.
  - intros q. unfold place_of. cbn. rewrite Hb, Hp. done.
Qed.

Lemma step_body_ends_inv s s' i : sys_inv s → step (BodyEnds i) s = Some s' → sys_inv s'.
Proof.
  intros Hinv Hs. cbn in Hs. destruct (running s !! i) as [r|] eqn:Hi; [|done]. cbn in Hs.
  destruct (body r) as [p|] eqn:Hb; [|done]. injection Hs as <-. destruct (id Hinv).
  change (sys_inv (s <| world := drop_place (Some p) (world s) |> <| running := <[i := Build_Running (turn r) None]> (running s) |>)).
  pose proof (inv_body0 i r p Hi Hb) as Hnone.
  assert (holds_of (running s) (outside s) !! i = Some (hold true p)) as Hh.
  { rewrite holds_lookup, Hi. cbn. unfold place_of. by rewrite Hb. }
  apply (sys_inv_place s i r); try done.
  - by left.
  - eapply lock_inv_holds; [|eapply lock_inv_ext; [exact (lock_inv_leave _ _ _ _ i (hold true p) 2 Hh eq_refl inv_lock0)|done| |done]].
    + intros j. destruct (decide (i = j)) as [<-|]; [|by rewrite lookup_delete_ne, !holds_lookup, lookup_insert_ne].
      rewrite lookup_delete_eq, holds_lookup, lookup_insert_eq. cbn. unfold place_of. cbn. rewrite Hnone.
      by rewrite inv_disjoint0.
    + intros a. apply drop_place_locks.
  - intros q. unfold place_of. cbn. by rewrite Hnone.
Qed.

Lemma step_unlock_inv s s' i : sys_inv s → step (UnlockOutside i) s = Some s' → sys_inv s'.
Proof.
  intros Hinv Hs. cbn in Hs. destruct (outside s !! i) as [p|] eqn:Hi; [|done]. injection Hs as <-. destruct (id Hinv).
  assert (running s !! i = None) as Hr.
  { destruct (running s !! i) eqn:E; [|done]. rewrite inv_disjoint0 in Hi; [done|by eexists]. }
  assert (holds_of (running s) (outside s) !! i = Some (hold false p)) as Hh.
  { rewrite holds_lookup, Hr. cbn. by rewrite Hi. }
  split; try done; cbn.
  - intros j Hj. apply inv_ids0. destruct Hj as [|Hj]; [by left|right]. rewrite lookup_delete_is_Some in Hj. apply Hj.
  - intros j Hj. apply lookup_delete_None. right. by apply inv_disjoint0.
  - eapply lock_inv_holds; [|eapply lock_inv_ext; [exact (lock_inv_leave _ _ _ _ i (hold false p) 1 Hh eq_refl inv_lock0)|done| |done]].
    + intros j. destruct (decide (i = j)) as [<-|].
      * by rewrite lookup_delete_eq, holds_lookup, Hr, lookup_delete_eq.
      * by rewrite lookup_delete_ne, !holds_lookup, lookup_delete_ne.
    + intros a. apply unlock_outside_locks.
Qed.

(** Joining a lock's queue, with [n] handles made for it. *)
Lemma queue_on_spec a (w w' : World) p :
  queue_on a w = (p, w') →
  runtimes w' = runtimes w ∧ channels w' = channels w ∧ told w' = told w ∧ next_address w' = next_address w
  ∧ now w' = now w
  ∧ (∀ lock_of lks two holds i,
       (∀ a', locks w a' = (alter (λ l, Build_ArcMutex ((if two : bool then 2 else 1) + strong_count l) (mutex l)) a lks) a') →
       (a < next_address w)%nat → (∀ j h, holds !! j = Some h → (j < i)%nat) →
       lock_inv lock_of lks (next_address w) holds →
       lock_inv lock_of (locks w') (next_address w) (<[i := hold two p]> holds))
  ∧ place_lock p = a.
Proof.
  unfold queue_on. destruct (mutex_acquire (mutex (locks w a))) as [m tok] eqn:E. intros [= <- <-].
  split_and!; try done. intros lock_of lks two holds i Hl Ha Hlast Hinv.
  rewrite Hl, fn_lookup_alter in E. cbn in E.
  eapply lock_inv_ext; [exact (lock_inv_acquire _ _ _ _ a i m tok two _ Ha E Hlast eq_refl Hinv)|done| |done].
  intros a'. cbn. destruct (decide (a' = a)) as [->|].
  - by rewrite fn_lookup_alter, fn_lookup_insert, Hl, fn_lookup_alter.
  - by rewrite fn_lookup_alter_ne, fn_lookup_insert_ne, Hl, fn_lookup_alter_ne.
Qed.

Lemma step_lock_inv s s' c : sys_inv s → step (LockOutside c) s = Some s' → sys_inv s'.
Proof.
  intros Hinv Hs. cbn in Hs. unfold lock_outside, conversation_lock, with_runtime in Hs. fold (entry c (world s)) in Hs.
  destruct (lock_or_new (entry c (world s)) (world s)) as [[a rt1] w1] eqn:E.
  destruct (lock_or_new_spec _ _ _ _ _ E) as (-> & Hr & Hc & Ht & Hle & Hsame & Hlock). cbn [fst snd] in Hs.
  set (rt' := entry c (world s) <| rt_lock := Some a |>) in *.
  set (w2 := clone_arc a w1 <| runtimes ::= <[c := rt']> |>) in *.
  destruct (queue_on a w2) as [p w3] eqn:Eq. injection Hs as <-.
  destruct (queue_on_spec _ _ _ _ Eq) as (Hr3 & Hc3 & Ht3 & Hn3 & _ & Hq & Hp).
  assert (∀ c', view (entry c' w3) = view (if decide (c = c') then rt' else entry c' (world s))) as Hv.
  { intros c'. replace (entry c' w3) with (entry c' w2) by (unfold entry; by rewrite Hr3).
    unfold w2. rewrite entry_insert. destruct (decide (c = c')); [done|]. unfold entry.
    change (runtimes (clone_arc a w1)) with (runtimes w1). by rewrite Hr. }
  destruct (id Hinv). destruct (Hlock (lock_of (world s)) (holds_of (running s) (outside s)) c eq_refl inv_lock0) as [Hl Ha].
  split; cbn; rewrite ?Hc3, ?Hn3, ?Ht3; change (channels w2) with (channels w1); rewrite ?Hc;
    change (next_address w2) with (next_address w1); change (told w2) with (told w1); rewrite ?Ht.
  - intros j [Hj|Hj]; [specialize (inv_ids0 j (or_introl Hj)); lia|]. rewrite lookup_insert_is_Some in Hj.
    destruct Hj as [->|[_ Hj]]; [lia|]. specialize (inv_ids0 j (or_intror Hj)). lia.
  - intros j Hj. rewrite lookup_insert_ne by (specialize (inv_ids0 j (or_introl Hj)); lia). by apply inv_disjoint0.
  - done.
  - done.
  - eapply spell_inv_update; [exact Hv|done|done|done|done|]. intros _. done.
  - eapply stop_inv_ext; [exact inv_stop0| |done]. intros c'. rewrite (stops_of_update _ _ _ _ Hv).
    destruct (decide (c' = c)) as [->|]; [by rewrite fn_lookup_insert|by rewrite fn_lookup_insert_ne].
  - eapply lock_inv_holds; [|eapply lock_inv_ext; [apply (Hq (<[c := Some a]> (lock_of (world s))) (locks w1) false (holds_of (running s) (outside s)) (next_id s))| |done|done]].
    + intros j. destruct (decide (next_id s = j)) as [<-|].
      * rewrite lookup_insert_eq, holds_lookup, lookup_insert_eq.
        destruct (running s !! next_id s) eqn:Er; [|done].
        assert (next_id s < next_id s)%nat; [apply inv_ids0; left; by eexists|lia].
      * by rewrite lookup_insert_ne, !holds_lookup, lookup_insert_ne.
    + intros a'. done.
    + exact Ha.
    + intros j h. by apply holds_ids.
    + done.
    + apply (lock_of_update _ _ _ _ Hv).
  - intros i r q a' rx Hi Hpl Hst. rewrite (lock_of_update _ _ _ _ Hv).
    destruct (inv_same0 i r q a' rx Hi Hpl Hst) as [Hx|Hx]; [left|by right].
    destruct (decide (conv r = c)) as [Heq|]; [|by rewrite fn_lookup_insert_ne].
    rewrite Heq, fn_lookup_insert. cbn. f_equal. apply Hsame. unfold lock_of in Hx. by rewrite Heq in Hx.
Qed.

(** *** Admission *)

Lemma stop_receiver_spec rt (w w' : World) a rx rt' :
  stop_receiver rt w = ((a, rx), rt', w') →
  (∃ st, counter st = a ∧ rt' = rt <| rt_stops := Some st |>)
  ∧ runtimes w' = runtimes w ∧ locks w' = locks w ∧ told w' = told w ∧ (next_address w ≤ next_address w')%nat
  ∧ (∀ a', (a' < next_address w)%nat →
      watch_closed (channels w' a') = watch_closed (channels w a')
      ∧ (∀ r', watch_receives (channels w a') r' →
           watch_changed (channels w' a') r' = watch_changed (channels w a') r'))
  ∧ (∀ stops turns c i r, stops c = counter <$> rt_stops rt →
     turns !! i = None → conv r = c → stop (turn r) = Some (a, rx) →
     stop_inv stops (channels w) (next_address w) turns →
     stop_inv (<[c := Some a]> stops) (channels w') (next_address w') (<[i := r]> turns)
     ∧ watch_changed (channels w' a) rx = false).
Proof.
  unfold stop_receiver. destruct (stops_or_new rt w) as [[st rt1] w1] eqn:E.
  destruct (stops_or_new_spec _ _ _ _ _ E) as (-> & Hr & Hl & Ht & Hle & Hch & Hinv).
  destruct (watch_subscribe (channels w1 (counter st))) as [ch r0] eqn:Hsub.
  destruct (watch_borrow_and_update ch r0) as [v rx'] eqn:Hupd. intros [= <- <- <- <-].
  destruct (watch_subscribe_spec _ _ _ Hsub) as (_ & _ & Hclosed & _ & _ & Hothers).
  conjs; try done.
  - by exists st.
  - intros a' Ha'. cbn. destruct (decide (a' = counter st)) as [->|].
    + rewrite fn_lookup_insert. split; [by rewrite Hclosed, Hch|]. intros r' Hr'.
      rewrite <- (Hch (counter st)) in Hr' |- * by done. by apply Hothers.
    + by rewrite fn_lookup_insert_ne, Hch.
  - intros stops turns c i r Hc Hi Hconv Hstop Hi0. cbn. rewrite fn_lookup_insert.
    eapply stop_inv_subscribe; [by rewrite fn_lookup_insert|exact Hsub|exact Hupd|done|done|done|by apply Hinv].
Qed.

Lemma cnt_le_size {A} (f : A → bool) (m : gmap nat A) : (cnt f m ≤ size m)%nat.
Proof. unfold cnt. apply map_subseteq_size, map_filter_subseteq. Qed.

Lemma replay_app b l x :
  replay b (l ++ [x]) = (b' ← replay b l; if Bool.eqb x b' then None else Some x).
Proof.
  revert b. induction l as [|y l IH]; intros b; cbn; [done|]. destruct (Bool.eqb y b); [done|]. apply IH.
Qed.
Lemma turn_states_app c l c' b e :
  turn_states c (l ++ [(c', TurnState b e)]) = turn_states c l ++ (if bool_decide (c' = c) then [b] else []).
Proof. unfold turn_states. rewrite omap_app. cbn. by case_bool_decide. Qed.

Lemma spell_inv_start ent ent' l l' turns i r :
  turns !! i = None → spell_inv ent l turns →
  (∀ c, c ≠ conv r → view (ent' c) = view (ent c)) →
  rt_turns_in_flight (ent' (conv r)) = rt_turns_in_flight (ent (conv r)) + 1 →
  (if bool_decide (turns_of (conv r) turns = 0%nat)
   then is_Some (rt_started_at (ent' (conv r))) ∧ l' = l ++ [(conv r, TurnState true 0)]
   else rt_started_at (ent' (conv r)) = rt_started_at (ent (conv r)) ∧ l' = l) →
  spell_inv ent' l' (<[i := r]> turns).
Proof.
  intros Hi [Hn Hs Hq Ht] Hother Hcount Hfirst.
  assert (∀ c, turns_of c (<[i := r]> turns) = ((if bool_decide (conv r = c) then 1 else 0) + turns_of c turns)%nat) as Hto.
  { intros c. exact (cnt_insert (λ r, bool_decide (conv r = c)) turns i r Hi). }
  split; intros c; rewrite Hto; destruct (decide (conv r = c)) as [<-|Hne];
    rewrite ?(bool_decide_eq_true_2 (conv r = conv r)), ?(bool_decide_eq_false_2 (conv r = c)) by done; cbn [Nat.add].
  - rewrite Hcount, Hn. lia.
  - specialize (Hother c (not_eq_sym Hne)). apply view_core in Hother. unfold core in Hother. rewrite <- Hn. congruence.
  - split; [lia|intros _]. case_bool_decide as E; [apply Hfirst|]. destruct Hfirst as [-> _]. apply Hs. lia.
  - specialize (Hother c (not_eq_sym Hne)). apply view_core in Hother. unfold core in Hother.
    replace (rt_started_at (ent' c)) with (rt_started_at (ent c)) by congruence. apply Hs.
  - lia.
  - intros Hz. eapply view_quiet; [by apply Hother|]. by apply Hq.
  - rewrite (bool_decide_eq_true_2 (0 < S _)%nat) by lia. case_bool_decide as E; destruct Hfirst as [_ ->].
    + rewrite turn_states_app, bool_decide_eq_true_2, replay_app, Ht by done. cbn.
      by rewrite bool_decide_eq_false_2 by lia.
    + rewrite Ht. by rewrite bool_decide_eq_true_2 by lia.
  - rewrite <- Ht. case_bool_decide; destruct Hfirst as [_ ->]; [|done].
    by rewrite turn_states_app, bool_decide_eq_false_2, app_nil_r.
Qed.

Lemma start_turn_inv s s' c adm : sys_inv s → start_turn c adm s = Some s' → sys_inv s'.
Proof.
  intros Hinv Hs. unfold start_turn in Hs. case_bool_decide as Hsize; [|done].
  unfold admit_turn, with_runtime in Hs. fold (entry c (world s)) in Hs.
  set (admitted := match adm, rt_paused (entry c (world s)) with UnlessPaused, true => false | _, _ => true end).
  destruct admitted eqn:Eadm; subst admitted.
  2:{ assert (s' = s <| world := (world s) <| runtimes ::= <[c := entry c (world s)]> |> |>) as ->.
      { destruct adm, (rt_paused (entry c (world s))); try done. by injection Hs as <-. }
      by apply (sys_inv_set_runtime s c (λ rt, rt)). }
  set (rt1 := admitted_by adm (entry c (world s)) <| rt_turns_in_flight ::= λ n, u64_add n 1 |>) in Hs.
  assert (rt_lock rt1 = lock_of (world s) c ∧ counter <$> rt_stops rt1 = stops_of (world s) c
          ∧ rt_started_at rt1 = rt_started_at (entry c (world s))
          ∧ rt_turns_in_flight rt1 = u64_add (rt_turns_in_flight (entry c (world s))) 1)
    as (El & Es & Est & En) by (by destruct adm).
  destruct (stop_receiver rt1 (world s)) as [[[a rx] rt2] w2] eqn:E2.
  destruct (stop_receiver_spec _ _ _ _ _ _ E2) as ((st & Ha & Hrt2) & Hr2 & Hl2 & Ht2 & Hle2 & Hch2 & Hstop2).
  destruct (lock_or_new rt2 w2) as [[lk rt3] w3] eqn:E3.
  destruct (lock_or_new_spec _ _ _ _ _ E3) as (Hrt3 & Hr3 & Hc3 & Ht3 & Hle3 & Hsame3 & Hlock3).
  destruct (join_lock lk (clone_arc lk w3)) as [p w4] eqn:E4. unfold join_lock in E4.
  destruct (queue_on_spec _ _ _ _ E4) as (Hr4 & Hc4 & Ht4 & Hn4 & _ & Hq4 & Hp4).
  change (channels (clone_arc _ _)) with (channels w3) in Hc4.
  change (told (clone_arc _ _)) with (told w3) in Ht4.
  change (next_address (clone_arc _ _)) with (next_address w3) in *.
  change (runtimes (clone_arc _ _)) with (runtimes w3) in Hr4.
  set (first := rt_turns_in_flight rt3 =? 1) in Hs.
  set (rt5 := if first then rt3 <| rt_attention := None |> <| rt_notified := None |> <| rt_started_at := Some (now w4) |> else rt3).
  set (t := Build_TurnInFlight c (Some (a, rx)) (Some p)). set (r := Build_Running t None).
  assert (∃ w, s' = s <| world := w |> <| running ::= <[next_id s := r]> |> <| next_id ::= S |>
            ∧ runtimes w = <[c := rt5]> (runtimes (world s)) ∧ channels w = channels w4 ∧ locks w = locks w4
            ∧ next_address w = next_address w4
            ∧ told w = if first then told (world s) ++ [(c, TurnState true 0)] else told (world s))
    as (w & -> & Hrw & Hcw & Hlw & Hnw & Htw).
  { destruct adm, (rt_paused (entry c (world s))); try done; destruct first;
      cbn [start_spell fst snd] in Hs; injection Hs as <-; eexists; (split; [reflexivity|]);
      try (case_match; cbn); rewrite <- ?Hr2, <- ?Hr3, <- ?Hr4, <- ?Ht2, <- ?Ht3, <- ?Ht4; done. }
  clear Hs Eadm.
  assert (first = bool_decide (turns_of c (running s) = 0%nat)) as Hfirst.
  { unfold first. rewrite Hrt3, Hrt2. change (rt_turns_in_flight (_ <| rt_lock := _ |>)) with (rt_turns_in_flight rt1). rewrite En. destruct (id Hinv). rewrite (spell_count _ _ _ inv_spell0).
    pose proof (cnt_le_size (λ r, bool_decide (conv r = c)) (running s)). unfold turns_of in *.
    rewrite u64_add_small by zlia. apply eq_bool_prop_intro.
    rewrite bool_decide_spec. rewrite Is_true_true, Z.eqb_eq. lia. }
  assert (∀ c', entry c' w = if decide (c = c') then rt5 else entry c' (world s)) as He.
  { intros c'. unfold entry. rewrite Hrw. destruct (decide (c = c')) as [->|]; [by rewrite lookup_insert_eq|by rewrite lookup_insert_ne]. }
  assert (∀ c', view (entry c' w) = view (if decide (c = c') then rt5 else entry c' (world s))) as Hv.
  { intros c'. by rewrite He. }
  assert (rt_lock rt5 = Some lk ∧ counter <$> rt_stops rt5 = Some a
          ∧ rt_turns_in_flight rt5 = u64_add (rt_turns_in_flight (entry c (world s))) 1
          ∧ rt_started_at rt5 = if first then Some (now w4) else rt_started_at (entry c (world s)))
    as (Hl5 & Hs5 & Hn5 & Hst5).
  { unfold rt5. rewrite Hrt3, Hrt2, <- En, <- Est, <- Ha. by destruct first. }
  destruct (id Hinv).
  assert (running s !! next_id s = None ∧ outside s !! next_id s = None) as [Hnone Hnone'].
  { split; [destruct (running s !! next_id s) eqn:Er|destruct (outside s !! next_id s) eqn:Er]; try done;
      (assert (next_id s < next_id s)%nat; [apply inv_ids0|lia]); [left|right]; by eexists. }
  destruct (Hstop2 (stops_of (world s)) (running s) c (next_id s) r) as [Hstop Hunseen]; [done..|].
  rewrite Hl2 in *.
  destruct (Hlock3 (lock_of (world s)) (holds_of (running s) (outside s)) c) as [Hlock Hlk].
  { by rewrite Hrt2. }
  { eapply lock_inv_ext; [exact inv_lock0|done|done|done]. }
  split; cbn; rewrite ?Hcw, ?Hlw, ?Hnw, ?Htw, ?Hc4, ?Hn4, ?Hc3.
  - intros j [Hj|Hj]; [|specialize (inv_ids0 j (or_intror Hj)); lia]. rewrite lookup_insert_is_Some in Hj.
    destruct Hj as [->|[_ Hj]]; [lia|]. specialize (inv_ids0 j (or_introl Hj)). lia.
  - intros j Hj. rewrite lookup_insert_is_Some in Hj. destruct Hj as [<-|[_ Hj]]; auto.
  - rewrite map_size_insert_None by done. zlia.
  - intros j q p'. rewrite lookup_insert_Some. intros [[_ <-]|[_ Hj]]; [done|]. by eapply inv_body0.
  - apply (spell_inv_start (λ c, entry c (world s)) _ (told (world s))); [done|done|..].
    + intros c' Hne. rewrite He. by rewrite decide_False by (apply not_eq_sym, Hne).
    + change (conv r) with c. rewrite He, decide_True by done. rewrite Hn5, (spell_count _ _ _ inv_spell0).
      pose proof (cnt_le_size (λ r, bool_decide (conv r = c)) (running s)). unfold turns_of.
      apply u64_add_small; zlia.
    + change (conv r) with c. rewrite <- Hfirst, He, decide_True, Hst5 by done. destruct first; [|done].
      split; [by eexists|done].
  - eapply stop_inv_ext; [exact Hstop| |done]. intros c'. rewrite (stops_of_update _ _ _ _ Hv). by rewrite Hs5.
  - eapply lock_inv_holds; [|eapply lock_inv_ext; [apply (Hq4 (<[c := Some lk]> (lock_of (world s))) (locks w3) true (holds_of (running s) (outside s)) (next_id s))| |done|done]].
    + intros j. destruct (decide (next_id s = j)) as [<-|].
      * by rewrite lookup_insert_eq, holds_lookup, lookup_insert_eq.
      * by rewrite lookup_insert_ne, !holds_lookup, lookup_insert_ne.
    + intros a'. cbn. destruct (decide (a' = lk)) as [->|]; [by rewrite !fn_lookup_alter|by rewrite !fn_lookup_alter_ne].
    + done.
    + intros j h. by apply holds_ids.
    + done.
    + intros c'. rewrite (lock_of_update _ _ _ _ Hv). by rewrite Hl5.
  - intros j q p' a' rx'. rewrite lookup_insert_Some. rewrite (lock_of_update _ _ _ _ Hv), Hl5.
    intros [[_ <-]|[_ Hj]] Hp Hst.
    + left. cbn in Hp. injection Hp as <-. change (conv r) with c. rewrite fn_lookup_insert. by rewrite Hp4.
    + destruct (stop_listens _ _ _ _ inv_stop0 j q Hj) as (a1 & rx1 & Ha1 & Hlt & _).
      destruct (inv_same0 j q p' a' rx' Hj Hp Hst) as [Hx|Hx]; [left|right].
      * destruct (decide (conv q = c)) as [Heq|]; [|by rewrite fn_lookup_insert_ne].
        rewrite Heq, fn_lookup_insert. f_equal. apply Hsame3. rewrite Hrt2. rewrite <- Hx, Heq. done.
      * assert (a1 = a') as -> by congruence. by rewrite (proj1 (Hch2 a' Hlt)).
Qed.

(** *** The end of a turn *)

Lemma end_spell_fields rt :
  rt_lock (end_spell rt) = rt_lock rt ∧ rt_stops (end_spell rt) = rt_stops rt
  ∧ rt_turns_in_flight (end_spell rt) = rt_turns_in_flight rt ∧ rt_started_at (end_spell rt) = None
  ∧ quiet (end_spell rt).
Proof. unfold end_spell, quiet. repeat case_match; done. Qed.

Lemma spell_inv_end ent ent' l l' turns i r :
  turns !! i = Some r → spell_inv ent l turns →
  (∀ c, c ≠ conv r → view (ent' c) = view (ent c)) →
  rt_turns_in_flight (ent' (conv r)) = rt_turns_in_flight (ent (conv r)) - 1 →
  (if bool_decide (turns_of (conv r) (delete i turns) = 0%nat)
   then quiet (ent' (conv r)) ∧ rt_started_at (ent' (conv r)) = None ∧ l' = l ++ [(conv r, TurnState false 0)]
   else rt_started_at (ent' (conv r)) = rt_started_at (ent (conv r)) ∧ l' = l) →
  spell_inv ent' l' (delete i turns).
Proof.
  intros Hi [Hn Hs Hq Ht] Hother Hcount Hlast.
  assert (∀ c, turns_of c turns = ((if bool_decide (conv r = c) then 1 else 0) + turns_of c (delete i turns))%nat) as Hto.
  { intros c. exact (cnt_delete (λ r, bool_decide (conv r = c)) turns i r Hi). }
  assert (turns_of (conv r) turns = S (turns_of (conv r) (delete i turns))) as Hr by (rewrite Hto, bool_decide_eq_true_2; done).
  assert (∀ c, conv r ≠ c → turns_of c turns = turns_of c (delete i turns)) as Hr'.
  { intros c Hc. by rewrite Hto, bool_decide_eq_false_2. }
  split; intros c; destruct (decide (conv r = c)) as [<-|Hne].
  - rewrite Hcount, Hn, Hr. lia.
  - specialize (Hother c (not_eq_sym Hne)). apply view_core in Hother. unfold core in Hother.
    rewrite <- (Hr' c Hne), <- Hn. congruence.
  - case_bool_decide as E.
    + destruct Hlast as (_ & -> & _). rewrite E. split; [by intros [? [=]]|lia].
    + destruct Hlast as [-> _]. rewrite Hs, Hr. lia.
  - specialize (Hother c (not_eq_sym Hne)). apply view_core in Hother. unfold core in Hother.
    replace (rt_started_at (ent' c)) with (rt_started_at (ent c)) by congruence. rewrite <- (Hr' c Hne). apply Hs.
  - intros Hz. rewrite bool_decide_eq_true_2 in Hlast by done. apply Hlast.
  - intros Hz. eapply view_quiet; [by apply Hother|]. apply Hq. by rewrite Hr'.
  - specialize (Ht (conv r)). rewrite bool_decide_eq_true_2 in Ht by lia. case_bool_decide as E.
    + destruct Hlast as (_ & _ & ->). rewrite turn_states_app, bool_decide_eq_true_2, replay_app, Ht by done. cbn.
      by rewrite bool_decide_eq_false_2 by lia.
    + destruct Hlast as [_ ->]. rewrite Ht. by rewrite bool_decide_eq_true_2 by lia.
  - rewrite <- (Hr' c Hne), <- Ht. case_bool_decide.
    + destruct Hlast as (_ & _ & ->). by rewrite turn_states_app, bool_decide_eq_false_2, app_nil_r.
    + by destruct Hlast as [_ ->].
Qed.

Lemma drop_place_spec o (w : World) :
  runtimes (drop_place o w) = runtimes w ∧ channels (drop_place o w) = channels w
  ∧ told (drop_place o w) = told w ∧ next_address (drop_place o w) = next_address w
  ∧ app_told (drop_place o w) = app_told w.
Proof. by destruct o. Qed.

Lemma drop_receiver_spec a rx (w : World) :
  runtimes (drop_receiver (Some (a, rx)) w) = runtimes w ∧ locks (drop_receiver (Some (a, rx)) w) = locks w
  ∧ told (drop_receiver (Some (a, rx)) w) = told w ∧ next_address (drop_receiver (Some (a, rx)) w) = next_address w
  ∧ channels (drop_receiver (Some (a, rx)) w) = alter (watch_drop_receiver rx) a (channels w)
  ∧ app_told (drop_receiver (Some (a, rx)) w) = app_told w.
Proof. done. Qed.

(** What a turn's end leaves in its entry, and what it tells. *)
Definition after_drop (rt : ConversationRuntime) : ConversationRuntime :=
  let rt := rt <| rt_turns_in_flight ::= λ n, sat_sub n 1 |> in
  if rt_turns_in_flight rt =? 0 then end_spell rt else rt.

Lemma drop_turn_spec (t : TurnInFlight) (w : World) rt a rx :
  runtimes w !! conversation_id t = Some rt → stop t = Some (a, rx) →
  let last := rt_turns_in_flight rt - 1 =? 0 in
  0 < rt_turns_in_flight rt →
  let w2 := drop_receiver (Some (a, rx)) (drop_place (place t) w) in
  ∃ rt' w3, (rt', w3) = (if last then release_idle (after_drop rt) w2 else (after_drop rt, w2))
    ∧ (∀ c', view (entry c' (drop_turn t w)) = view (if decide (conversation_id t = c') then rt' else entry c' w))
    ∧ locks (drop_turn t w) = locks w3 ∧ channels (drop_turn t w) = channels w3
    ∧ next_address (drop_turn t w) = next_address w3
    ∧ told (drop_turn t w) = (if last then told w ++ [(conversation_id t, TurnState false 0)] else told w)
    ∧ app_told (drop_turn t w) = (app_told w ++
        (if last then TurnsChanged :: match owed_at_end rt with
                                      | Some o => [NeedsUser (conversation_id t) o (generation (rt_kept rt))]
                                      | None => [] end else []))%list.
Proof.
  intros Hc Hst last Hpos w2. set (c := conversation_id t) in *.
  destruct (drop_place_spec (place t) w) as (Hr1 & Hc1 & Ht1 & Hn1 & Ha1).
  destruct (drop_receiver_spec a rx (drop_place (place t) w)) as (Hr2 & Hl2 & Ht2 & Hn2 & Hc2 & Ha2). fold w2 in Hr2, Hl2, Ht2, Hn2, Hc2, Ha2.
  assert (sat_sub (rt_turns_in_flight rt) 1 = rt_turns_in_flight rt - 1) as Hsub by zlia.
  set (rt1 := rt <| rt_turns_in_flight ::= λ n, sat_sub n 1 |>).
  assert ((rt_turns_in_flight rt1 =? 0) = last) as Hlast by (unfold last; by rewrite <- Hsub).
  assert (after_drop rt = if last then end_spell rt1 else rt1) as Had by (unfold after_drop; by rewrite <- Hlast).
  assert (∀ c', entry c' (drop_place (place t) w) = entry c' w) as He by (intros c'; unfold entry; by rewrite Hr1).
  assert (∃ x rt' w3, (rt', w3) = (if last then release_idle (after_drop rt) w2 else (after_drop rt, w2))
    ∧ count_down t rt (drop_place (place t) w)
      = (x, rt', if last then publish c (TurnState false 0) w3 else w3)
    ∧ x = (if last then Some (owed_at_end rt, generation (rt_kept rt)) else None)
    ∧ runtimes w3 = runtimes w ∧ told w3 = told w ∧ app_told w3 = app_told w)
    as (x & rt' & w3 & Hw3 & Hf & Hx & Hr3 & Ht3 & Ha3).
  { unfold count_down. rewrite Hst. cbv beta zeta. fold w2 rt1. rewrite Hlast, Had. destruct last.
    - destruct (release_idle (end_spell rt1) w2) as [rt' w3] eqn:E.
      destruct (release_idle_spec _ _ _ _ E) as (_ & Hr3 & Ht3 & Hn3 & _).
      eexists _, rt', w3. split_and!; try done; try congruence.
      unfold release_idle in E. rewrite <- Ha1, <- Ha2. by repeat case_match; simplify_eq.
    - eexists _, rt1, w2. split_and!; try done; congruence. }
  exists rt', w3. split; [done|]. unfold drop_turn. fold c.
  destruct (view_update_existing c (count_down t) (drop_place (place t) w) rt x rt' (if last then publish c (TurnState false 0) w3 else w3)
    ltac:(by rewrite Hr1) Hf) as (w' & -> & Hv & Hl' & Hc' & Hn' & Ht' & Ha').
  { rewrite Hr1, <- Hr3. by destruct last. }
  assert (∀ c', view (entry c' w') = view (if decide (c = c') then rt' else entry c' w)) as Hv'.
  { intros c'. rewrite Hv, He. done. }
  rewrite Hx in *. destruct last.
  - destruct (owed_at_end rt) as [o|]; conjs; try done; cbn; rewrite ?Ht', ?Ha'; cbn;
      rewrite ?Ht3, ?Ha3, <- ?app_assoc; done.
  - conjs; try done; rewrite ?Ht', ?Ha', ?app_nil_r; done.
Qed.

Lemma running_entry s i r :
  sys_inv s → running s !! i = Some r →
  ∃ rt, runtimes (world s) !! conv r = Some rt ∧ entry (conv r) (world s) = rt
    ∧ rt_turns_in_flight rt = Z.of_nat (S (turns_of (conv r) (delete i (running s)))).
Proof.
  intros [] Hi. pose proof (spell_count _ _ _ inv_spell0 (conv r)) as Hn. cbv beta in Hn.
  assert (turns_of (conv r) (running s) = S (turns_of (conv r) (delete i (running s)))) as Ht.
  { unfold turns_of. rewrite (cnt_delete (λ q, bool_decide (conv q = conv r)) _ i r Hi).
    by rewrite bool_decide_eq_true_2. }
  rewrite Ht in Hn. destruct (runtimes (world s) !! conv r) as [rt|] eqn:Hc.
  - exists rt. rewrite <- Hn. unfold entry. by rewrite Hc.
  - unfold entry in Hn. rewrite Hc in Hn. cbn in Hn. lia.
Qed.

Lemma after_drop_fields rt :
  rt_lock (after_drop rt) = rt_lock rt ∧ rt_stops (after_drop rt) = rt_stops rt
  ∧ rt_turns_in_flight (after_drop rt) = sat_sub (rt_turns_in_flight rt) 1
  ∧ (sat_sub (rt_turns_in_flight rt) 1 = 0 → rt_started_at (after_drop rt) = None ∧ quiet (after_drop rt))
  ∧ (sat_sub (rt_turns_in_flight rt) 1 ≠ 0 → after_drop rt = rt <| rt_turns_in_flight ::= λ n, sat_sub n 1 |>).
Proof.
  unfold after_drop. change (rt_turns_in_flight (rt <| rt_turns_in_flight ::= ?f |>)) with (f (rt_turns_in_flight rt)).
  cbv beta. destruct (sat_sub _ 1 =? 0) eqn:E; bool_to_prop.
  - destruct (end_spell_fields (rt <| rt_turns_in_flight ::= λ n, sat_sub n 1 |>)) as (-> & -> & -> & ? & ?). done.
  - done.
Qed.

Lemma step_drop_inv s s' i : sys_inv s → step (DropTurn i) s = Some s' → sys_inv s'.
Proof.
  intros Hinv Hs. cbn in Hs. destruct (running s !! i) as [r|] eqn:Hi; [|done]. cbn in Hs.
  destruct (body r) eqn:Hb; [done|]. injection Hs as <-.
  destruct (running_entry s i r Hinv Hi) as (rt & Hrt & He & Hcount). destruct (id Hinv).
  destruct (stop_listens _ _ _ _ inv_stop0 i r Hi) as (a & rx & Hst & _).
  destruct (drop_turn_spec (turn r) (world s) rt a rx Hrt Hst ltac:(lia)) as (rt' & w3 & Hw3 & Hv & Hl & Hc & Hn & Ht & _).
  change (conversation_id (turn r)) with (conv r) in Hv, Ht.
  destruct (drop_place_spec (place (turn r)) (world s)) as (Hr1 & Hc1 & Ht1 & Hn1 & _).
  set (w2 := drop_receiver (Some (a, rx)) (drop_place (place (turn r)) (world s))) in *.
  destruct (after_drop_fields rt) as (Hal & Has & Han & Haz & Hanz).
  assert (sat_sub (rt_turns_in_flight rt) 1 = rt_turns_in_flight rt - 1) as Hsub by zlia. rewrite Hsub in *.
  assert (stop_inv (stops_of (world s)) (channels w2) (next_address (world s)) (delete i (running s))) as Hstop.
  { change (channels w2) with (alter (watch_drop_receiver rx) a (channels (drop_place (place (turn r)) (world s)))).
    rewrite Hc1. by eapply stop_inv_drop. }
  assert (lock_inv (lock_of (world s)) (locks w2) (next_address (world s)) (holds_of (delete i (running s)) (outside s))) as Hlock.
  { change (locks w2) with (locks (drop_place (place (turn r)) (world s))).
    assert (∀ j, holds_of (delete i (running s)) (outside s) !! j = delete i (holds_of (running s) (outside s)) !! j) as Hh.
    { intros j. destruct (decide (i = j)) as [<-|]; [|by rewrite lookup_delete_ne, !holds_lookup, lookup_delete_ne].
      rewrite lookup_delete_eq, holds_lookup, lookup_delete_eq. cbn. by rewrite inv_disjoint0. }
    eapply lock_inv_holds; [exact Hh|]. destruct (place (turn r)) as [p|] eqn:Hp.
    - eapply lock_inv_ext; [refine (lock_inv_leave _ _ _ _ i (hold true p) 2 _ eq_refl inv_lock0)|done| |done].
      + rewrite holds_lookup, Hi. cbn. unfold place_of. by rewrite Hb, Hp.
      + intros a'. apply drop_place_locks.
    - rewrite delete_id; [done|]. rewrite holds_lookup, Hi. cbn. unfold place_of. rewrite Hb, Hp. cbn.
      by rewrite inv_disjoint0. }
  assert (next_address w2 = next_address (world s)) as Hn2 by exact Hn1.
  assert (rt_turns_in_flight rt' = rt_turns_in_flight rt - 1
    ∧ (if bool_decide (turns_of (conv r) (delete i (running s)) = 0%nat) then quiet rt' ∧ rt_started_at rt' = None
       else rt_started_at rt' = rt_started_at rt)
    ∧ next_address w3 = next_address (world s)
    ∧ (∀ a', watch_closed (channels (world s) a') = true → watch_closed (channels w3 a') = true)
    ∧ stop_inv (<[conv r := counter <$> rt_stops rt']> (stops_of (world s))) (channels w3) (next_address (world s)) (delete i (running s))
    ∧ lock_inv (<[conv r := rt_lock rt']> (lock_of (world s))) (locks w3) (next_address (world s)) (holds_of (delete i (running s)) (outside s))
    ∧ (∀ j h, holds_of (delete i (running s)) (outside s) !! j = Some h → rt_lock rt = Some (h_lock h) → rt_lock rt' = Some (h_lock h)))
    as (Hcn & Hcz & Hn3 & Hcl3 & Hstop3 & Hlock3 & Hkeep).
  { assert (∀ a', watch_closed (channels (world s) a') = true → watch_closed (channels w2 a') = true) as Hcl2.
    { intros a'. change (channels w2) with (alter (watch_drop_receiver rx) a (channels (drop_place (place (turn r)) (world s)))).
      rewrite Hc1. destruct (decide (a' = a)) as [->|]; [rewrite fn_lookup_alter|by rewrite fn_lookup_alter_ne].
      destruct (watch_drop_receiver_spec rx (channels (world s) a)) as (_ & _ & -> & _). done. }
    assert (stops_of (world s) (conv r) = counter <$> rt_stops (after_drop rt)) as Hs0 by (unfold stops_of; rewrite He; congruence).
    assert (lock_of (world s) (conv r) = rt_lock (after_drop rt)) as Hl0 by (unfold lock_of; rewrite He; congruence).
    destruct (_ =? 0) eqn:E in Hw3; bool_to_prop.
    - rewrite bool_decide_eq_true_2 by lia. destruct (Haz E) as [Hz1 Hz2].
      destruct (release_idle_spec _ _ _ _ (eq_sym Hw3)) as (Hrt' & _ & _ & Hn3 & Hcl & Hs3 & Hl3).
      rewrite Hn2 in Hn3, Hs3, Hl3.
      destruct (Hl3 (lock_of (world s)) (holds_of (delete i (running s)) (outside s)) (conv r) Hl0 Hlock) as [Hlk3 Hk].
      conjs.
      + rewrite Hrt'. exact Han.
      + rewrite Hrt'. exact Hz2.
      + rewrite Hrt'. exact Hz1.
      + exact Hn3.
      + intros a' Ha'. by apply Hcl, Hcl2.
      + rewrite <- Hn3. by apply Hs3.
      + by rewrite <- Hn3.
      + intros j h Hj Hlk. apply (Hk j h Hj). congruence.
    - rewrite bool_decide_eq_false_2 by lia. injection Hw3 as -> ->. rewrite (Hanz E).
      conjs; auto.
      + eapply stop_inv_ext; [exact Hstop| |done]. intros c. destruct (decide (c = conv r)) as [->|].
        * rewrite fn_lookup_insert, Hs0. by rewrite (Hanz E).
        * by rewrite fn_lookup_insert_ne.
      + eapply lock_inv_ext; [exact Hlock| |done|done]. intros c. destruct (decide (c = conv r)) as [->|].
        * rewrite fn_lookup_insert, Hl0. by rewrite (Hanz E).
        * by rewrite fn_lookup_insert_ne. }
  assert ((rt_turns_in_flight rt - 1 =? 0) = bool_decide (turns_of (conv r) (delete i (running s)) = 0%nat)) as Hlast.
  { apply eq_bool_prop_intro. rewrite bool_decide_spec, Is_true_true, Z.eqb_eq. lia. }
  split; cbn; rewrite ?Hl, ?Hc, ?Hn, ?Ht, ?Hn3.
  - intros j Hj. apply inv_ids0. destruct Hj as [Hj|]; [left|by right]. rewrite lookup_delete_is_Some in Hj. apply Hj.
  - intros j Hj. apply inv_disjoint0. rewrite lookup_delete_is_Some in Hj. apply Hj.
  - rewrite map_size_delete. destruct (running s !! i); cbn; lia.
  - intros j q p [_ Hj]%lookup_delete_Some. by eapply inv_body0.
  - apply (spell_inv_end (λ c, entry c (world s)) _ (told (world s)) _ _ i r); [done|done|..]; cbv beta.
    + intros c Hne. rewrite Hv. by rewrite decide_False by (apply not_eq_sym, Hne).
    + specialize (Hv (conv r)). rewrite decide_True in Hv by done. apply view_core in Hv. unfold core in Hv.
      rewrite He. rewrite <- Hcn. congruence.
    + specialize (Hv (conv r)). rewrite decide_True in Hv by done. rewrite Hlast. case_bool_decide.
      * conjs; [by eapply view_quiet, Hcz|..|done]. apply view_core in Hv. unfold core in Hv.
        destruct Hcz as [_ Hz]. congruence.
      * split; [|done]. apply view_core in Hv. unfold core in Hv. rewrite He. congruence.
  - eapply stop_inv_ext; [exact Hstop3|apply (stops_of_update _ _ _ _ Hv)|done].
  - eapply lock_inv_ext; [exact Hlock3|apply (lock_of_update _ _ _ _ Hv)|done|done].
  - intros j q p a' rx' Hj Hp Hst'. assert (running s !! j = Some q) as Hj' by (by apply lookup_delete_Some in Hj as [_ ?]).
    rewrite (lock_of_update _ _ _ _ Hv).
    destruct (inv_same0 j q p a' rx' Hj' Hp Hst') as [Hx|Hx]; [left|right; auto].
    destruct (decide (conv q = conv r)) as [Heq|]; [|by rewrite fn_lookup_insert_ne].
    rewrite Heq, fn_lookup_insert. apply (Hkeep j (hold true p)).
    + rewrite holds_lookup, Hj. cbn. by rewrite Hp.
    + unfold lock_of in Hx. rewrite Heq, He in Hx. done.
Qed.

(** *** Every step *)

Lemma step_inv s s' o : sys_inv s → step o s = Some s' → sys_inv s'.
Proof.
  intros Hinv Hs. destruct o; try (by eapply step_set_inv; [|done|exact Hs]);
    try (by eapply step_update_inv; [|done|exact Hs]); try (by eapply step_entry_inv; [|done|exact Hs]);
    try (by eapply step_in_turn_inv; [|done|exact Hs]).
  - by eapply start_turn_inv.
  - by eapply start_turn_inv.
  - by eapply step_take_place_inv.
  - by eapply step_body_ends_inv.
  - by eapply step_drop_inv.
  - by eapply step_lock_inv.
  - by eapply step_unlock_inv.
  - by eapply step_release_inv.
  - by eapply step_stop_inv.
  - by eapply step_forget_inv.
  - by eapply step_note_stop_inv.
Qed.

Lemma empty_inv : sys_inv empty_sys.
Proof.
  assert (∀ c, entry c empty_world = default_runtime) as He by done.
  split; cbn; try done.
  - intros i [Hi|Hi]; rewrite lookup_empty in Hi; by destruct Hi.
  - split; intros c; rewrite ?He; unfold turns_of; rewrite cnt_empty; try done.
    cbn. split; [by intros []|lia].
  - split; try done. intros a. cbn. rewrite mutex_new_waiters. apply NoDup_nil_2.
Qed.

Lemma steps_inv ops s s' : sys_inv s → steps ops s = Some s' → sys_inv s'.
Proof.
  revert s. induction ops as [|o ops IH]; intros s Hinv Hs; cbn in Hs; [by injection Hs as <-|].
  destruct (step o s) as [s1|] eqn:E; [|done]. cbn in Hs. eapply IH; [|done]. by eapply step_inv.
Qed.
Lemma reachable_inv s : reachable s → sys_inv s.
Proof. intros [ops Hs]. eapply steps_inv; [apply empty_inv|done]. Qed.
End System.
