(* ===== verification/TurnGuarantees.v ===== *)
(** * TurnGuarantees: what the turn state promises

    Theorems over [TurnSystem]'s interleavings: busy spells and their events, what a Stop
    ends, the turn lock's order, admission, and what a spell's end tells the user.  The
    concrete watch channel and ticket mutex at the end satisfy the two interfaces' laws;
    the witnesses run on them. *)

From stdpp Require Import functions fin_maps.
From S2P Require Import Prelude RustStr Json Types Budget Compaction TurnState TurnSystem.
Local Open Scope Z_scope.

(** The operations that only set an entry's fields. *)
Ltac set_ops :=
  unfold clear_reply_in_progress, note_attention, forgo_child_outcome, clear_attention, note_notified,
    set_activity_owed, forget_turn_generation, keep_turn_error.

Section Guarantees.
Context {C R M W : Type} `{WatchLaws C R} `{FairMutexLaws M W}.
Abbreviation Sys := (@Sys C R M W).
Abbreviation World := (@World C M).
Abbreviation Running := (@Running R W).
Implicit Types (s : Sys) (w : World).

(** ** What a Stop ends *)

(** Whether [r]'s [stop().changed()] would resolve. *)
Definition stopped s (r : Running) : bool :=
  match stop (turn r) with Some (a, rx) => watch_changed (channels (world s) a) rx | None => false end.
(** The operations that end [c]'s turns: its Stop and its delete. *)
Definition ends (c : Z) (o : op) : bool :=
  match o with Stop c' | Forget c' => bool_decide (c' = c) | _ => false end.

Lemma release_idle_channels rt rt' w w' a :
  release_idle rt w = (rt', w') → watch_receiver_count (channels w a) ≠ 0%nat → channels w' a = channels w a.
Proof.
  unfold release_idle. intros Hr Hne.
  set (l := match rt_lock rt with
            | Some a => if (strong_count (locks w a) =? 1)%nat then (rt <| rt_lock := None |>, drop_arc a w) else (rt, w)
            | None => (rt, w) end) in Hr.
  assert (channels (snd l) = channels w) as Hl by (unfold l; by repeat case_match).
  destruct l as [rt1 w1]. cbn in Hl. repeat case_match; simplify_eq; [|by rewrite Hl..].
  cbn. rewrite fn_lookup_alter_ne; [by rewrite Hl|]. intros Heq. subst a.
  match goal with E : (_ =? 0)%nat = true |- _ => apply Nat.eqb_eq in E; rewrite Hl in E end. done.
Qed.

Lemma rx_counted s i r a rx :
  sys_inv s → running s !! i = Some r → stop (turn r) = Some (a, rx) →
  watch_closed (channels (world s) a) = false → watch_receiver_count (channels (world s) a) ≠ 0%nat.
Proof.
  intros Hinv Hi Hst Hopen. destruct (stop_listens _ _ _ _ (inv_stop _ Hinv) i r Hi) as (a' & rx' & Hst' & _ & _ & Hor).
  assert (a' = a) as -> by congruence. destruct Hor as [Hc|Hs]; [congruence|].
  destruct (stop_current _ _ _ _ (inv_stop _ Hinv) _ _ Hs) as (_ & _ & ->).
  assert (0 < cnt (λ r, bool_decide (fst <$> stop (turn r) = Some a)) (running s))%nat; [|lia].
  apply cnt_pos. exists i, r. split; [done|]. apply bool_decide_eq_true_2. by rewrite Hst.
Qed.

(** [release_idle] leaves every running turn's receiver as it was. *)
Lemma release_idle_changed s i r a rx rt rt' w' :
  sys_inv s → running s !! i = Some r → stop (turn r) = Some (a, rx) →
  release_idle rt (world s) = (rt', w') → watch_changed (channels w' a) rx = watch_changed (channels (world s) a) rx.
Proof.
  intros Hinv Hi Hst Hrel. destruct (watch_closed (channels (world s) a)) eqn:Hc.
  - destruct (release_idle_spec _ _ _ _ Hrel) as (_ & _ & _ & _ & Hcl & _).
    by rewrite !watch_closed_changed by auto.
  - by rewrite (release_idle_channels _ _ _ _ a Hrel) by (by eapply rx_counted).
Qed.

Definition same_turn (r r' : Running) : Prop := stop (turn r') = stop (turn r) ∧ conv r' = conv r.

(** No operation gives a turn another receiver or conversation, nor brings an id back. *)
Lemma running_step s s' o i r' :
  step o s = Some s' → running s' !! i = Some r' → (i < next_id s)%nat →
  (i < next_id s')%nat ∧ ∃ r, running s !! i = Some r ∧ same_turn r r'.
Proof.
  intros Hs Hr' Hlt.
  assert (∀ c adm, start_turn c adm s = Some s' →
            (i < next_id s')%nat ∧ ∃ r, running s !! i = Some r ∧ same_turn r r') as Hstart.
  { intros c adm. unfold start_turn. case_bool_decide; [|done].
    destruct (admit_turn c adm (world s)) as [[[t g]|] w]; intros [= <-]; cbn in *.
    - split; [lia|]. rewrite lookup_insert_ne in Hr' by lia. by exists r'.
    - split; [done|]. by exists r'. }
  destruct o; cbn in Hs; eauto;
    try (injection Hs as <-; split; [done|by exists r']);
    try (apply in_turn_some in Hs as [_ ->]; split; [done|by exists r']).
  - destruct (running s !! i0) as [r|] eqn:E; [|done]. cbn in Hs.
    destruct (body r) eqn:?; [done|]. destruct (place (turn r)); [|done]. injection Hs as <-. cbn in *. split; [done|].
    rewrite lookup_insert_Some in Hr'. destruct Hr' as [[-> <-]|[_ ?]]; [by exists r|by exists r'].
  - destruct (running s !! i0) as [r|] eqn:E; [|done]. cbn in Hs.
    destruct (body r) eqn:?; [|done]. injection Hs as <-. cbn in *. split; [done|].
    rewrite lookup_insert_Some in Hr'. destruct Hr' as [[-> <-]|[_ ?]]; [by exists r|by exists r'].
  - destruct (running s !! i0) as [r|] eqn:E; [|done]. cbn in Hs.
    destruct (body r) eqn:?; [done|]. injection Hs as <-. cbn in *. split; [done|].
    rewrite lookup_delete_Some in Hr'. exists r'. by split; [apply Hr'|].
  - destruct (lock_outside c (world s)) as [p w]. injection Hs as <-. cbn in *. split; [lia|by exists r'].
  - destruct (outside s !! i0); [|done]. injection Hs as <-. cbn in *. split; [done|by exists r'].
Qed.

Definition ch_of w (r : Running) : bool :=
  match stop (turn r) with Some (a, rx) => watch_changed (channels w a) rx | None => false end.

(** The operations that touch no stop channel. *)
Lemma stopped_same s s' r r' c :
  same_turn r r' → channels (world s') = channels (world s) → stopped s' r' = stopped s r || ends c (Tick 0).
Proof. intros [Hst _] Hc. unfold stopped. rewrite Hst, Hc. cbn. by rewrite orb_false_r. Qed.

Lemma set_existing_channels c f w : channels (set_existing c f w) = channels w.
Proof. unfold set_existing, update_existing, update_existing_with. by destruct (runtimes w !! c). Qed.

Lemma stopped_start s s' c adm i r r' :
  sys_inv s → start_turn c adm s = Some s' → running s !! i = Some r → same_turn r r' →
  stopped s' r' = stopped s r.
Proof.
  intros Hinv Hs Hi [Hst _]. unfold stopped. rewrite Hst.
  destruct (stop_listens _ _ _ _ (inv_stop _ Hinv) i r Hi) as (a & rx & -> & Hlt & Hrec & _).
  unfold start_turn, admit_turn, with_runtime in Hs. case_bool_decide; [|done]. fold (entry c (world s)) in Hs.
  set (rt1 := admitted_by adm (entry c (world s)) <| rt_turns_in_flight ::= λ n, u64_add n 1 |>) in Hs.
  destruct (stop_receiver rt1 (world s)) as [[[a' rx'] rt2] w2] eqn:E2.
  destruct (stop_receiver_spec (W := W) _ _ _ _ _ _ E2) as (_ & _ & _ & _ & _ & Hch2 & _).
  destruct (lock_or_new rt2 w2) as [[lk rt3] w3] eqn:E3.
  destruct (lock_or_new_spec _ _ _ _ _ E3) as (_ & _ & Hc3 & _).
  destruct (join_lock lk (clone_arc lk w3)) as [p w4] eqn:E4. unfold join_lock in E4.
  destruct (queue_on_spec _ _ _ _ E4) as (_ & Hc4 & _). change (channels (clone_arc _ _)) with (channels w3) in Hc4.
  assert (channels (world s') = channels w4 ∨ channels (world s') = channels (world s)) as [Hc|Hc].
  { unfold start_spell in Hs. destruct adm, (rt_paused (entry c (world s))), (rt_turns_in_flight rt3 =? 1);
      cbn [fst snd] in Hs; injection Hs as <-; cbn; try (by right); left; try case_match; done. }
  - rewrite Hc, Hc4, Hc3. by apply Hch2.
  - by rewrite Hc.
Qed.

Lemma stopped_drop s s' i j r r' :
  sys_inv s → step (DropTurn j) s = Some s' → i ≠ j → running s !! i = Some r → same_turn r r' →
  stopped s' r' = stopped s r.
Proof.
  intros Hinv Hs Hne Hi [Hst _]. unfold stopped. rewrite Hst. clear Hst r'.
  destruct (stop_listens _ _ _ _ (inv_stop _ Hinv) i r Hi) as (a & rx & Hst & Hlt & Hrec & Hor). rewrite Hst.
  cbn in Hs. destruct (running s !! j) as [q|] eqn:Hj; [|done]. cbn in Hs. destruct (body q); [done|]. injection Hs as <-.
  destruct (running_entry s j q Hinv Hj) as (rt & Hrt & He & Hcount).
  destruct (stop_listens _ _ _ _ (inv_stop _ Hinv) j q Hj) as (aj & rxj & Hstj & _).
  destruct (drop_turn_spec (turn q) (world s) rt aj rxj Hrt Hstj ltac:(lia)) as (rt' & w3 & Hw3 & _ & _ & Hc & _).
  cbn. rewrite Hc. set (w2 := drop_receiver _ _) in *.
  destruct (drop_place_spec (place (turn q)) (world s)) as (_ & Hc1 & _).
  assert (channels w2 = alter (watch_drop_receiver rxj) aj (channels (world s))) as Hc2 by (rewrite <- Hc1; done).
  assert (watch_changed (channels w2 a) rx = watch_changed (channels (world s) a) rx
          ∧ watch_closed (channels w2 a) = watch_closed (channels (world s) a)) as [Hch Hcl].
  { rewrite Hc2. destruct (decide (a = aj)) as [->|]; [|by rewrite fn_lookup_alter_ne].
    rewrite fn_lookup_alter. destruct (watch_drop_receiver_spec rxj (channels (world s) aj)) as (_ & _ & -> & Ho).
    split; [by apply Ho|done]. }
  destruct (_ =? 0) in Hw3; [|by injection Hw3 as -> ->].
  destruct (watch_closed (channels (world s) a)) eqn:Hcl0.
  - destruct (release_idle_spec _ _ _ _ (eq_sym Hw3)) as (_ & _ & _ & _ & Hcl' & _).
    rewrite !watch_closed_changed; [done|done|]. by apply Hcl'.
  - rewrite (release_idle_channels _ _ _ _ a (eq_sym Hw3)); [done|]. rewrite Hc2.
    destruct Hor as [|Hs0]; [congruence|].
    destruct (stop_current _ _ _ _ (inv_stop _ Hinv) _ _ Hs0) as (_ & _ & Hn).
    destruct (decide (a = aj)) as [->|]; [rewrite fn_lookup_alter|rewrite fn_lookup_alter_ne by done; by eapply rx_counted].
    destruct (watch_drop_receiver_spec rxj (channels (world s) aj)) as (_ & -> & _ & _). rewrite Hn.
    rewrite (cnt_delete _ _ j q Hj), bool_decide_eq_true_2 by (by rewrite Hstj).
    assert (0 < cnt (λ r, bool_decide (fst <$> stop (turn r) = Some aj)) (delete j (running s)))%nat; [|cbn; lia].
    apply cnt_pos. exists i, r. rewrite lookup_delete_ne by done. split; [done|]. apply bool_decide_eq_true_2. by rewrite Hst.
Qed.

Lemma stopped_stop s s' i r c :
  sys_inv s → step (Stop c) s = Some s' → running s !! i = Some r →
  stopped s' r = stopped s r || bool_decide (c = conv r).
Proof.
  intros Hinv [= <-] Hi. unfold stopped.
  destruct (stop_listens _ _ _ _ (inv_stop _ Hinv) i r Hi) as (a & rx & -> & Hlt & Hrec & Hor).
  rewrite on_world_eq. cbn. unfold stop_turn_now, with_runtime. fold (entry c (world s)).
  change (rt_stops (?r <| rt_paused := true |>)) with (rt_stops r).
  destruct (rt_stops (entry c (world s))) as [st|] eqn:E; cbn.
  - assert (stops_of (world s) c = Some (counter st)) as Hsc by (unfold stops_of; by rewrite E).
    destruct (stop_current _ _ _ _ (inv_stop _ Hinv) _ _ Hsc) as (_ & Hopen & _).
    destruct (watch_send_spec (λ n, u64_add n 1) (channels (world s) (counter st))) as (_ & _ & _ & Ho).
    destruct (decide (a = counter st)) as [->|Hne].
    + rewrite fn_lookup_alter, (proj2 (Ho rx Hrec)). destruct Hor as [Hx|Hx]; [congruence|].
      rewrite (stop_inj _ _ _ _ (inv_stop _ Hinv) _ _ _ Hx Hsc), bool_decide_eq_true_2 by done. by rewrite orb_true_r.
    + rewrite fn_lookup_alter_ne by done. case_bool_decide as Hc; [|by rewrite orb_false_r]. subst c.
      destruct Hor as [Hx|Hx]; [by rewrite watch_closed_changed|]. congruence.
  - case_bool_decide as Hc; [|by rewrite orb_false_r]. subst c.
    destruct Hor as [Hx|Hx]; [by rewrite watch_closed_changed|]. unfold stops_of in Hx. by rewrite E in Hx.
Qed.

Lemma stopped_forget s s' i r c :
  sys_inv s → step (Forget c) s = Some s' → running s !! i = Some r →
  stopped s' r = stopped s r || bool_decide (c = conv r).
Proof.
  intros Hinv [= <-] Hi. unfold stopped.
  destruct (running_entry s i r Hinv Hi) as (rt0 & Hrt0 & He0 & _).
  destruct (stop_listens _ _ _ _ (inv_stop _ Hinv) i r Hi) as (a & rx & -> & Hlt & Hrec & Hor).
  rewrite on_world_eq. cbn. unfold forget_conversation_lock, update_existing, update_existing_with.
  destruct (runtimes (world s) !! c) as [rt|] eqn:Hc; cbn.
  2:{ rewrite bool_decide_eq_false_2, orb_false_r; [done|]. intros ->. congruence. }
  destruct (drop_lock_field_spec (rt_lock rt) (world s)) as (_ & Hc1 & _).
  destruct (rt_stops rt) as [st|] eqn:E; cbn; rewrite Hc1.
  - assert (stops_of (world s) c = Some (counter st)) as Hsc by (unfold stops_of, entry; rewrite Hc; cbn; by rewrite E).
    destruct (stop_current _ _ _ _ (inv_stop _ Hinv) _ _ Hsc) as (_ & Hopen & _).
    destruct (watch_drop_sender_spec (channels (world s) (counter st))) as (_ & _ & Hcl & _).
    destruct (decide (a = counter st)) as [->|Hne].
    + rewrite fn_lookup_alter, watch_closed_changed by done. destruct Hor as [Hx|Hx]; [congruence|].
      rewrite (stop_inj _ _ _ _ (inv_stop _ Hinv) _ _ _ Hx Hsc), bool_decide_eq_true_2 by done. by rewrite orb_true_r.
    + rewrite fn_lookup_alter_ne by done. case_bool_decide as Hce; [|by rewrite orb_false_r]. subst c.
      destruct Hor as [Hx|Hx]; [by rewrite watch_closed_changed|]. congruence.
  - case_bool_decide as Hce; [|by rewrite orb_false_r]. subst c.
    destruct Hor as [Hx|Hx]; [by rewrite watch_closed_changed|].
    unfold stops_of, entry in Hx. rewrite Hc in Hx. cbn in Hx. by rewrite E in Hx.
Qed.

Lemma same_turn_refl r : same_turn r r.
Proof. done. Qed.

Lemma stopped_channels s s' r r' :
  same_turn r r' → channels (world s') = channels (world s) → stopped s' r' = stopped s r.
Proof. intros [Hst _] Hc. unfold stopped. by rewrite Hst, Hc. Qed.

Lemma update_existing_with_channels {T} c (f : ConversationRuntime → World → T * ConversationRuntime * World) w :
  (∀ rt, channels (snd (f rt w)) = channels w) → channels (snd (update_existing_with c f w)) = channels w.
Proof.
  intros Hf. unfold update_existing_with. destruct (runtimes w !! c) as [rt|]; [|done].
  specialize (Hf rt). by destruct (f rt w) as [[x rt'] w'].
Qed.

Lemma stopped_step s s' o i r r' :
  sys_inv s → step o s = Some s' → running s !! i = Some r → running s' !! i = Some r' → same_turn r r' →
  stopped s' r' = stopped s r || ends (conv r) o.
Proof.
  intros Hinv Hs Hi Hi' Hsame.
  destruct o; cbn [ends]; try rewrite orb_false_r;
    try (cbn in Hs; injection Hs as <-; apply stopped_channels; [done|]; apply set_existing_channels);
    try (cbn in Hs; apply in_turn_some in Hs as [_ ->]; apply stopped_channels; [done|];
         first [apply set_existing_channels|done]);
    try (cbn in Hs; injection Hs as <-; by apply stopped_channels).
  - by eapply stopped_start.
  - by eapply stopped_start.
  - cbn in Hs. destruct (running s !! i0); [|done]. cbn in Hs.
    destruct (body r0); [done|]. destruct (place (turn r0)); [|done]. injection Hs as <-. by apply stopped_channels.
  - cbn in Hs. destruct (running s !! i0); [|done]. cbn in Hs.
    destruct (body r0); [|done]. injection Hs as <-. by apply stopped_channels.
  - eapply stopped_drop; [done|done| |done|done]. intros <-. cbn in Hs.
    rewrite Hi in Hs. cbn in Hs. destruct (body r); [done|]. injection Hs as <-. cbn in Hi'. by rewrite lookup_delete_eq in Hi'.
  - cbn in Hs. unfold lock_outside, conversation_lock, with_runtime in Hs. fold (entry c (world s)) in Hs.
    destruct (lock_or_new (entry c (world s)) (world s)) as [[a rt1] w1] eqn:E.
    destruct (lock_or_new_spec _ _ _ _ _ E) as (_ & _ & Hc & _). cbn [fst snd] in Hs.
    destruct (queue_on a _) as [p w3] eqn:Eq in Hs. injection Hs as <-.
    destruct (queue_on_spec _ _ _ _ Eq) as (_ & Hc3 & _). apply stopped_channels; [done|]. cbn. by rewrite Hc3, <- Hc.
  - cbn in Hs. destruct (outside s !! i0); [|done]. injection Hs as <-. by apply stopped_channels.
  - injection Hs as <-. rewrite on_world_eq. unfold stopped. rewrite (proj1 Hsame).
    destruct (stop_listens _ _ _ _ (inv_stop _ Hinv) i r Hi) as (a & rx & Hst & _). rewrite Hst. cbn.
    unfold release_idle_turn_state, update_existing, update_existing_with.
    destruct (runtimes (world s) !! c) as [rt|]; [|done].
    destruct (release_idle rt (world s)) as [rt' w'] eqn:E. exact (release_idle_changed s i r a rx rt rt' w' Hinv Hi Hst E).
  - replace (stopped s' r') with (stopped s' r) by (unfold stopped; by rewrite (proj1 Hsame)). by eapply stopped_stop.
  - replace (stopped s' r') with (stopped s' r) by (unfold stopped; by rewrite (proj1 Hsame)). by eapply stopped_forget.
  - injection Hs as <-. rewrite on_world_eq. unfold stopped. rewrite (proj1 Hsame).
    destruct (stop_listens _ _ _ _ (inv_stop _ Hinv) i r Hi) as (a & rx & Hst & Hlt & _). rewrite Hst. cbn.
    unfold note_stop, with_runtime. fold (entry c (world s)).
    destruct (stops_or_new (entry c (world s)) (world s)) as [[st rt1] w1] eqn:E.
    destruct (stops_or_new_spec (R := R) (W := W) _ _ _ _ _ E) as (_ & _ & _ & _ & _ & Hch & _). cbn. by rewrite Hch.
  - injection Hs as <-. apply stopped_channels; [done|]. cbn. unfold note_trust_decided.
    match goal with |- context [update_existing_with c ?f ?w] =>
      pose proof (update_existing_with_channels c f w) as Hc; destruct (update_existing_with c f w) as [x w'] end.
    cbn in Hc. rewrite <- Hc; [by case_match|]. intros rt. by destruct (rt_published rt) as [[? []]|].
  - injection Hs as <-. apply stopped_channels; [done|]. cbn. unfold take_activity_owed.
    match goal with |- context [update_existing_with c ?f ?w] =>
      pose proof (update_existing_with_channels c f w) as Hc; destruct (update_existing_with c f w) as [x w'] end.
    by apply Hc.
  - injection Hs as <-. apply stopped_channels; [done|]. cbn. unfold take_turn_generation.
    match goal with |- context [update_existing_with c ?f ?w] =>
      pose proof (update_existing_with_channels c f w) as Hc; destruct (update_existing_with c f w) as [x w'] end.
    apply Hc. intros rt. by case_bool_decide.
Qed.

Lemma next_id_step s s' o : step o s = Some s' → (next_id s ≤ next_id s')%nat.
Proof.
  intros E. destruct o; cbn in E; try (injection E as <-; done); try (apply in_turn_some in E as [_ ->]; done).
  1-2: unfold start_turn in E; case_bool_decide; [|done];
    destruct (admit_turn c _ (world s)) as [[[t g]|] w]; injection E as <-; cbn; lia.
  1-3: destruct (running s !! i) as [q|]; [|done]; cbn in E;
    repeat (case_match; try done); injection E as <-; done.
  - destruct (lock_outside c (world s)). injection E as <-. cbn. lia.
  - destruct (outside s !! i); [|done]. injection E as <-. done.
Qed.

(** A turn that is running now was running at every step since its id was given. *)
Lemma running_back ops s s' i r' :
  steps ops s = Some s' → running s' !! i = Some r' → (i < next_id s)%nat → ∃ r, running s !! i = Some r.
Proof.
  revert s. induction ops as [|o ops IH]; intros s Hs Hi Hlt; cbn in Hs; [injection Hs as ->; eauto|].
  destruct (step o s) as [s1|] eqn:E; [|done]. cbn in Hs. pose proof (next_id_step _ _ _ E).
  destruct (IH s1 Hs Hi ltac:(lia)) as [r1 Hr1].
  destruct (running_step s s1 o i r1 E Hr1 Hlt) as (_ & r & ? & _). eauto.
Qed.

Lemma stopped_steps ops s s' i r r' :
  sys_inv s → steps ops s = Some s' → (i < next_id s)%nat →
  running s !! i = Some r → running s' !! i = Some r' →
  stopped s' r' = stopped s r || existsb (ends (conv r)) ops.
Proof.
  revert s r. induction ops as [|o ops IH]; intros s r Hinv Hs Hlt Hi Hi'; cbn in Hs.
  - injection Hs as <-. cbn. rewrite orb_false_r. congruence.
  - destruct (step o s) as [s1|] eqn:E; [|done]. cbn in Hs.
    assert (∃ r1, running s1 !! i = Some r1) as [r1 Hi1].
    { apply (running_back ops s1 s' i r'); [done|done|]. pose proof (next_id_step _ _ _ E). lia. }
    destruct (running_step s s1 o i r1 E Hi1 Hlt) as (Hlt1 & q & Hq & Hsame). assert (q = r) as -> by congruence.
    rewrite (IH s1 r1); [|by eapply step_inv|done..].
    rewrite (stopped_step s s1 o i r r1) by done. cbn. destruct Hsame as [_ ->]. by rewrite orb_assoc.
Qed.

Lemma start_unseen s s1 c adm r1 :
  sys_inv s → start_turn c adm s = Some s1 → running s1 !! next_id s = Some r1 →
  conv r1 = c ∧ stopped s1 r1 = false ∧ (next_id s < next_id s1)%nat.
Proof.
  intros Hinv Hs Hr1. unfold start_turn, admit_turn, with_runtime in Hs. case_bool_decide; [|done].
  fold (entry c (world s)) in Hs.
  assert (running s !! next_id s = None) as Hnone.
  { destruct (running s !! next_id s) eqn:Er; [|done].
    assert (next_id s < next_id s)%nat; [apply (inv_ids _ Hinv); left; by eexists|lia]. }
  set (rt1 := admitted_by adm (entry c (world s)) <| rt_turns_in_flight ::= λ n, u64_add n 1 |>) in Hs.
  destruct (stop_receiver rt1 (world s)) as [[[a rx] rt2] w2] eqn:E2.
  destruct (stop_receiver_spec (W := W) _ _ _ _ _ _ E2) as (_ & _ & _ & _ & _ & _ & Hstop2).
  destruct (lock_or_new rt2 w2) as [[lk rt3] w3] eqn:E3.
  destruct (lock_or_new_spec _ _ _ _ _ E3) as (_ & _ & Hc3 & _).
  destruct (join_lock lk (clone_arc lk w3)) as [p w4] eqn:E4. unfold join_lock in E4.
  destruct (queue_on_spec _ _ _ _ E4) as (_ & Hc4 & _). change (channels (clone_arc _ _)) with (channels w3) in Hc4.
  set (r := Build_Running (Build_TurnInFlight c (Some (a, rx)) (Some p)) None).
  assert (channels (world s1) = channels w4 ∧ running s1 = <[next_id s := r]> (running s) ∧ next_id s1 = S (next_id s)
          ∨ running s1 = running s) as [(Hc & Hr & Hn)|Hr].
  { unfold start_spell in Hs. destruct adm, (rt_paused (entry c (world s))), (rt_turns_in_flight rt3 =? 1);
      cbn [fst snd] in Hs; injection Hs as <-; cbn; try (by right); left; try case_match; done. }
  - rewrite Hr, lookup_insert_eq in Hr1. injection Hr1 as <-. conjs; [done| |lia].
    unfold stopped. cbn. rewrite Hc, Hc4, Hc3.
    apply (Hstop2 (stops_of (world s)) (running s) c (next_id s) r); try done; [|apply (inv_stop _ Hinv)].
    by destruct adm.
  - congruence.
Qed.

(** ** What a spell owes *)

(** What one operation does to what [c]'s busy spell owes the user. *)
Definition owed_step (c : Z) (acc : option Attention) (o : op) : option Attention :=
  match o with
  | NoteAttention c' a => if bool_decide (c' = c) then max_attention a acc else acc
  | NoteNotified c' _ => if bool_decide (c' = c) then max_attention Notified acc else acc
  | ForgoChildOutcome c' => if bool_decide (c' = c) && is_outcome acc then None else acc
  | ClearAttention c' | Forget c' => if bool_decide (c' = c) then None else acc
  | _ => acc
  end.

(** What one operation does to [c]'s reply in progress, while the spell goes on. *)
Definition reply_step (c : Z) (reply : option string) (o : op) : option string :=
  match o with
  | AppendReply c' delta => if bool_decide (c' = c) then Some (default "" reply +:+ delta) else reply
  | ClearReply c' => if bool_decide (c' = c) then None else reply
  | _ => reply
  end.

(** What of an entry the two say. *)
Definition shown (rt : ConversationRuntime) : option Attention * option string := (rt_attention rt, rt_reply rt).
Definition shown_step (c : Z) (acc : option Attention * option string) (o : op) : option Attention * option string :=
  let '(a, r) := acc in (owed_step c a o, reply_step c r o).

Lemma shown_update {T} c c' (F : ConversationRuntime → World → T * ConversationRuntime * World) w :
  is_Some (runtimes w !! c) →
  (∀ rt, runtimes (snd (F rt w)) = runtimes w) →
  shown (entry c (snd (update_existing_with c' F w))) =
  shown (if decide (c' = c) then snd (fst (F (entry c w) w)) else entry c w).
Proof.
  intros [rt Hrt] HF. destruct (runtimes w !! c') as [rt'|] eqn:Hc'.
  - specialize (HF rt'). destruct (F rt' w) as [[x rt2] w2] eqn:E.
    destruct (view_update_existing c' F w rt' x rt2 w2 Hc' E HF) as (w' & -> & Hv & _).
    specialize (Hv c). unfold view in Hv. cbn [snd].
    replace (shown (entry c w')) with (shown (if decide (c' = c) then rt2 else entry c w)) by (unfold shown; congruence).
    destruct (decide (c' = c)) as [<-|]; [|done]. rewrite (entry_some c' w rt') by done. by rewrite E.
  - unfold update_existing_with. rewrite Hc'. cbn. destruct (decide (c' = c)) as [<-|]; [congruence|done].
Qed.

Lemma shown_set_existing c c' f w :
  is_Some (runtimes w !! c) →
  shown (entry c (set_existing c' f w)) =
  shown (if decide (c' = c) then f (entry c w) else entry c w).
Proof. intros Hs. exact (shown_update c c' (λ rt w, (tt, f rt, w)) w Hs (λ _, eq_refl)). Qed.

Lemma shown_same_runtimes c w w' : runtimes w' = runtimes w → shown (entry c w') = shown (entry c w).
Proof. intros Hr. unfold entry. by rewrite Hr. Qed.

Lemma shown_insert c c' w w' rt' :
  runtimes w' = <[c' := rt']> (runtimes w) → shown rt' = shown (entry c' w) →
  shown (entry c w') = shown (entry c w).
Proof.
  intros Hr Ha. unfold entry in *. rewrite Hr.
  destruct (decide (c' = c)) as [<-|]; [by rewrite lookup_insert_eq|by rewrite lookup_insert_ne].
Qed.

Lemma busy_entry s c : sys_inv s → (0 < turns_of c (running s))%nat → is_Some (runtimes (world s) !! c).
Proof.
  intros Hinv (i & r & Hi & Hc)%cnt_pos. apply bool_decide_eq_true_1 in Hc.
  destruct (running_entry s i r Hinv Hi) as (rt & Hrt & _). rewrite Hc in Hrt. by eexists.
Qed.

Lemma shown_start s s' c c' adm :
  sys_inv s → start_turn c' adm s = Some s' → (0 < turns_of c (running s))%nat →
  shown (entry c (world s')) = shown (entry c (world s)).
Proof.
  intros Hinv Hs Hpos. unfold start_turn, admit_turn, with_runtime in Hs. case_bool_decide as Hsize; [|done].
  fold (entry c' (world s)) in Hs.
  set (rt1 := admitted_by adm (entry c' (world s)) <| rt_turns_in_flight ::= λ n, u64_add n 1 |>) in Hs.
  destruct (stop_receiver rt1 (world s)) as [[[a rx] rt2] w2] eqn:E2.
  destruct (stop_receiver_spec (W := W) _ _ _ _ _ _ E2) as ((st & _ & Hrt2) & Hr2 & _).
  destruct (lock_or_new rt2 w2) as [[lk rt3] w3] eqn:E3.
  destruct (lock_or_new_spec _ _ _ _ _ E3) as (Hrt3 & Hr3 & _).
  destruct (join_lock lk (clone_arc lk w3)) as [p w4] eqn:E4. unfold join_lock in E4.
  destruct (queue_on_spec _ _ _ _ E4) as (Hr4 & _). change (runtimes (clone_arc _ _)) with (runtimes w3) in Hr4.
  assert (shown rt3 = shown (entry c' (world s))) as Ha by (rewrite Hrt3, Hrt2; by destruct adm).
  assert (rt_turns_in_flight rt3 = u64_add (rt_turns_in_flight (entry c' (world s))) 1) as Hn by (rewrite Hrt3, Hrt2; by destruct adm).
  assert (c' = c → (rt_turns_in_flight rt3 =? 1) = false) as Hfirst.
  { intros ->. apply Z.eqb_neq. rewrite Hn, (spell_count _ _ _ (inv_spell _ Hinv)).
    pose proof (cnt_le_size (λ r, bool_decide (conv r = c)) (running s)). unfold turns_of in *.
    rewrite u64_add_small by zlia. lia. }
  assert (runtimes (world s') = <[c' := entry c' (world s)]> (runtimes (world s))
          ∨ (∃ rt5, runtimes (world s') = <[c' := rt5]> (runtimes (world s))
              ∧ (c' = c → shown rt5 = shown (entry c' (world s))))) as [Hr|(rt5 & Hr & H5)].
  { unfold start_spell in Hs. destruct adm, (rt_paused (entry c' (world s))), (rt_turns_in_flight rt3 =? 1) eqn:Ef;
      cbn [fst snd] in Hs; injection Hs as <-; try (left; done); right; eexists;
      (split; [cbn; try case_match; rewrite <- Hr2, <- Hr3, <- Hr4; done|]);
      intros Hcc; first [exact Ha|by specialize (Hfirst Hcc)]. }
  - by apply (shown_insert c c' _ _ (entry c' (world s))).
  - destruct (decide (c' = c)) as [->|Hne]; [by apply (shown_insert c c _ _ rt5); auto|].
    unfold entry. by rewrite Hr, lookup_insert_ne.
Qed.

Lemma shown_drop s s' c i :
  sys_inv s → step (DropTurn i) s = Some s' → (0 < turns_of c (running s'))%nat →
  shown (entry c (world s')) = shown (entry c (world s)).
Proof.
  intros Hinv Hs Hpos. cbn in Hs. destruct (running s !! i) as [q|] eqn:Hi; [|done]. cbn in Hs.
  destruct (body q); [done|]. injection Hs as <-. cbn in Hpos.
  destruct (running_entry s i q Hinv Hi) as (rt & Hrt & He & Hcount).
  destruct (stop_listens _ _ _ _ (inv_stop _ Hinv) i q Hi) as (a & rx & Hst & _).
  destruct (drop_turn_spec (turn q) (world s) rt a rx Hrt Hst ltac:(lia)) as (rt' & w3 & Hw3 & Hv & _).
  change (conversation_id (turn q)) with (conv q) in Hv. specialize (Hv c). cbn. unfold view in Hv.
  destruct (decide (conv q = c)) as [<-|]; [|unfold shown; congruence].
  replace (shown (entry (conv q) (drop_turn (turn q) (world s)))) with (shown rt') by (unfold shown; congruence).
  rewrite (proj2 (Z.eqb_neq _ 0)) in Hw3 by lia. injection Hw3 as -> _.
  destruct (after_drop_fields rt) as (_ & _ & _ & _ & Hk). rewrite Hk by zlia. by rewrite He.
Qed.

Lemma shown_step_spec s s' c o :
  sys_inv s → step o s = Some s' → (0 < turns_of c (running s))%nat → (0 < turns_of c (running s'))%nat →
  shown (entry c (world s')) = shown_step c (shown (entry c (world s))) o.
Proof.
  intros Hinv Hs Hpos Hpos'. pose proof (busy_entry s c Hinv Hpos) as Hent.
  destruct o; cbn [shown_step owed_step reply_step shown]; try (by eapply shown_start); try (by eapply shown_drop);
    try (cbn in Hs; injection Hs as <-; rewrite on_world_eq; cbn; set_ops; rewrite shown_set_existing by done;
         destruct (decide (c0 = c)) as [->|]; rewrite ?bool_decide_eq_true_2, ?bool_decide_eq_false_2 by done;
         cbn; repeat case_match; done);
    try (cbn in Hs; apply in_turn_some in Hs as [_ ->]; rewrite on_world_eq; cbn; set_ops; rewrite shown_set_existing by done;
         destruct (decide (c0 = c)) as [->|]; rewrite ?bool_decide_eq_true_2, ?bool_decide_eq_false_2 by done; done).
  - cbn in Hs. destruct (running s !! i); [|done]. cbn in Hs.
    repeat (case_match; try done). injection Hs as <-. done.
  - cbn in Hs. destruct (running s !! i); [|done]. cbn in Hs.
    repeat (case_match; try done). injection Hs as <-. cbn. by apply shown_same_runtimes.
  - cbn in Hs. unfold lock_outside, conversation_lock, with_runtime in Hs. fold (entry c0 (world s)) in Hs.
    destruct (lock_or_new (entry c0 (world s)) (world s)) as [[a rt1] w1] eqn:E.
    destruct (lock_or_new_spec _ _ _ _ _ E) as (Hrt1 & Hr1 & _). cbn [fst snd] in Hs.
    destruct (queue_on a _) as [p w3] eqn:Eq in Hs. injection Hs as <-.
    destruct (queue_on_spec _ _ _ _ Eq) as (Hr3 & _). cbn.
    apply (shown_insert c c0 _ _ rt1); [by rewrite Hr3, <- Hr1|by rewrite Hrt1].
  - cbn in Hs. destruct (outside s !! i); [|done]. injection Hs as <-. cbn. by apply shown_same_runtimes.
  - injection Hs as <-. rewrite on_world_eq. cbn. unfold release_idle_turn_state, update_existing.
    rewrite shown_update; [|done|].
    + destruct (decide (c0 = c)) as [->|]; [|done]. destruct (release_idle (entry c (world s)) (world s)) as [rt' w'] eqn:E.
      destruct (release_idle_spec (W := W) _ _ _ _ E) as (-> & _). done.
    + intros rt. destruct (release_idle rt (world s)) as [rt' w'] eqn:E.
      by destruct (release_idle_spec (W := W) _ _ _ _ E) as (_ & ? & _).
  - injection Hs as <-. rewrite on_world_eq. cbn. unfold stop_turn_now, with_runtime. fold (entry c0 (world s)).
    change (rt_stops (?r <| rt_paused := true |>)) with (rt_stops r).
    by destruct (rt_stops (entry c0 (world s))); apply (shown_insert c c0 _ _ (entry c0 (world s) <| rt_paused := true |>)).
  - injection Hs as <-. rewrite on_world_eq. by apply (shown_insert c c0 _ _ (entry c0 (world s) <| rt_paused := true |>)).
  - injection Hs as <-. rewrite on_world_eq. cbn. unfold forget_conversation_lock, update_existing.
    rewrite shown_update; [|done|].
    + destruct (decide (c0 = c)) as [->|]; [by rewrite bool_decide_eq_true_2|by rewrite bool_decide_eq_false_2].
    + intros rt. cbn. destruct (drop_stops_spec (W := W) (R := R) (rt_stops rt) (drop_lock_field (rt_lock rt) (world s))) as (-> & _).
      by destruct (drop_lock_field_spec (W := W) (rt_lock rt) (world s)) as (-> & _).
  - injection Hs as <-. rewrite on_world_eq. cbn. unfold note_stop, with_runtime. fold (entry c0 (world s)).
    destruct (stops_or_new (entry c0 (world s)) (world s)) as [[st rt1] w1] eqn:E.
    destruct (stops_or_new_spec (R := R) (W := W) _ _ _ _ _ E) as (Hrt1 & Hr1 & _). cbn.
    eapply (shown_insert c c0 _ _ (rt1 <| rt_stops := _ |>)); [by rewrite <- Hr1|by rewrite Hrt1].
  - apply in_turn_some in Hs as [_ ->]. rewrite on_world_eq. cbn.
    unfold shown, entry. cbn. destruct (decide (c0 = c)) as [->|].
    + by rewrite lookup_insert_eq, bool_decide_eq_true_2.
    + by rewrite lookup_insert_ne, bool_decide_eq_false_2.
  - injection Hs as <-. rewrite on_world_eq. cbn. unfold note_trust_decided.
    match goal with |- context [update_existing_with c0 ?f ?w] =>
      pose proof (shown_update c c0 f w Hent) as Ha; destruct (update_existing_with c0 f w) as [x w'] end.
    cbn [snd] in Ha. transitivity (shown (entry c w')); [by destruct (bool_decide _)|]. rewrite Ha.
    + destruct (decide (c0 = c)); [|done]. by destruct (rt_published (entry c (world s))) as [[? []]|].
    + intros rt. by destruct (rt_published rt) as [[? []]|].
  - injection Hs as <-. rewrite on_world_eq. cbn. unfold take_activity_owed.
    match goal with |- context [update_existing_with c0 ?f ?w] =>
      pose proof (shown_update c c0 f w Hent) as Ha; destruct (update_existing_with c0 f w) as [x w'] end.
    cbn [snd] in *. rewrite Ha; [|done]. by destruct (decide (c0 = c)).
  - injection Hs as <-. rewrite on_world_eq. cbn. unfold take_turn_generation.
    match goal with |- context [update_existing_with c0 ?f ?w] =>
      pose proof (shown_update c c0 f w Hent) as Ha; destruct (update_existing_with c0 f w) as [x w'] end.
    cbn [snd] in *. rewrite Ha; [|intros rt; by destruct (bool_decide (rt_lock rt = Some held))].
    destruct (decide (c0 = c)); [|done]. by destruct (bool_decide (rt_lock (entry c (world s)) = Some held)).
  - injection Hs as <-. rewrite on_world_eq.
    by apply (shown_insert c c0 _ _ (entry c0 (world s) <| rt_kept ::= λ k, Build_KeptTurnError (generation k) (Some message) |>)).
  - injection Hs as <-. rewrite on_world_eq. by apply (shown_insert c c0 _ _ (entry c0 (world s) <| rt_compaction ::= f |>)).
  - by injection Hs as <-.
Qed.

Lemma attention_step s s' c o :
  sys_inv s → step o s = Some s' → (0 < turns_of c (running s))%nat → (0 < turns_of c (running s'))%nat →
  rt_attention (entry c (world s')) = owed_step c (rt_attention (entry c (world s))) o.
Proof. intros Hinv Hs Hb Hb'. exact (f_equal fst (shown_step_spec s s' c o Hinv Hs Hb Hb')). Qed.

(** [c] stays busy along [ops]. *)
Fixpoint busy_along (c : Z) (ops : list op) s : bool :=
  busy c s &&
  match ops with
  | [] => true
  | o :: ops => match step o s with Some s => busy_along c ops s | None => false end
  end.

Lemma attention_steps ops s s' c :
  sys_inv s → steps ops s = Some s' → busy_along c ops s = true →
  rt_attention (entry c (world s')) = fold_left (owed_step c) ops (rt_attention (entry c (world s)))
  ∧ (0 < turns_of c (running s'))%nat.
Proof.
  revert s. induction ops as [|o ops IH]; intros s Hinv Hs [Hb Hrest]%andb_true_iff; cbn in Hs.
  - injection Hs as <-. split; [done|]. by apply Nat.ltb_lt.
  - destruct (step o s) as [s1|] eqn:E; [|done]. cbn in Hs. pose proof (step_inv _ _ _ Hinv E) as Hinv1.
    destruct (IH s1 Hinv1 Hs Hrest) as [-> ?]. split; [|done]. cbn. f_equal.
    apply attention_step; [done|done|by apply Nat.ltb_lt|].
    destruct ops; apply andb_true_iff in Hrest as [Hb1 _]; by apply Nat.ltb_lt.
Qed.

Lemma start_attention s s1 c adm r1 :
  sys_inv s → start_turn c adm s = Some s1 → running s1 !! next_id s = Some r1 →
  turns_of c (running s) = 0%nat → rt_attention (entry c (world s1)) = None.
Proof.
  intros Hinv Hs Hr1 Hidle. pose proof (start_turn_inv _ _ _ _ Hinv Hs) as Hinv1.
  unfold start_turn, admit_turn, with_runtime in Hs. case_bool_decide as Hsize; [|done]. fold (entry c (world s)) in Hs.
  assert (running s !! next_id s = None) as Hnone.
  { destruct (running s !! next_id s) eqn:Er; [|done].
    assert (next_id s < next_id s)%nat; [apply (inv_ids _ Hinv); left; by eexists|lia]. }
  set (rt1 := admitted_by adm (entry c (world s)) <| rt_turns_in_flight ::= λ n, u64_add n 1 |>) in Hs.
  destruct (stop_receiver rt1 (world s)) as [[[a rx] rt2] w2] eqn:E2.
  destruct (stop_receiver_spec (W := W) _ _ _ _ _ _ E2) as ((st & _ & Hrt2) & _).
  destruct (lock_or_new rt2 w2) as [[lk rt3] w3] eqn:E3.
  destruct (lock_or_new_spec _ _ _ _ _ E3) as (Hrt3 & _).
  destruct (join_lock lk (clone_arc lk w3)) as [p w4] eqn:E4.
  assert (rt_turns_in_flight rt3 = u64_add (rt_turns_in_flight (entry c (world s))) 1) as Hn by (rewrite Hrt3, Hrt2; by destruct adm).
  rewrite (spell_count _ _ _ (inv_spell _ Hinv)), Hidle in Hn.
  change (u64_add (Z.of_nat 0) 1) with 1 in Hn. rewrite Hn in Hs. change (1 =? 1) with true in Hs.
  unfold start_spell in Hs. destruct adm, (rt_paused (entry c (world s)));
    injection Hs as <-; try (exfalso; change (running s !! next_id s = Some r1) in Hr1; congruence); unfold entry; cbn; by rewrite lookup_insert_eq.
Qed.

Lemma set_runtimes_id w f : f (runtimes w) = runtimes w → w <| runtimes ::= f |> = w.
Proof.
  intros E. transitivity (Build_World (f (runtimes w)) (locks w) (channels w) (next_address w) (now w) (told w) (app_told w));
    [done|]. rewrite E. by destruct w.
Qed.

(** ** Theorems *)

(** Busy spells.  Whatever the calls and however they interleave: a conversation's
    count is its turns admitted and not yet ended; its timer runs exactly while it has one;
    with none it owes the user nothing and has no reply in progress; [turn_running] and
    [busy_conversations] say which have one; and the [TurnState] events told about it
    alternate, starting with busy, the last saying what it is now. *)
Theorem busy_spells s c :
  reachable s →
  let n := turns_of c (running s) in
  rt_turns_in_flight (entry c (world s)) = Z.of_nat n
  ∧ (is_Some (rt_started_at (entry c (world s))) ↔ (0 < n)%nat)
  ∧ (n = 0%nat → quiet (entry c (world s)))
  ∧ turn_running c (world s) = bool_decide (0 < n)%nat
  ∧ (c ∈ busy_conversations (world s) ↔ (0 < n)%nat)
  ∧ replay false (turn_states c (told (world s))) = Some (bool_decide (0 < n)%nat).
Proof.
  intros Hinv%reachable_inv. destruct (inv_spell _ Hinv) as [Hn Hs Hq Ht]. cbv beta in *. cbn zeta.
  specialize (Hn c). specialize (Hs c). specialize (Hq c). specialize (Ht c).
  assert (∀ rt, runtimes (world s) !! c = Some rt → rt_turns_in_flight rt = Z.of_nat (turns_of c (running s))) as Hrt.
  { intros rt Hc. by rewrite <- (entry_some c (world s) rt). }
  assert (runtimes (world s) !! c = None → turns_of c (running s) = 0%nat) as Hnone.
  { intros Hc. unfold entry in Hn. rewrite Hc in Hn. cbn in Hn. lia. }
  conjs; try done.
  - unfold turn_running, read_runtime. destruct (runtimes (world s) !! c) as [rt|] eqn:Hc; cbn.
    + rewrite (Hrt rt) by done. apply eq_bool_prop_intro. rewrite bool_decide_spec, Is_true_true, Z.ltb_lt. lia.
    + rewrite Hnone by done. done.
  - unfold busy_conversations. rewrite list_elem_of_fmap. split.
    + intros ([c' rt] & -> & [Hp Hin]%list_elem_of_filter). apply elem_of_map_to_list in Hin. cbn in *.
      rewrite (Hrt rt Hin) in Hp. lia.
    + intros Hp. destruct (runtimes (world s) !! c) as [rt|] eqn:Hc; [|rewrite Hnone in Hp by done; lia].
      exists (c, rt). split; [done|]. apply list_elem_of_filter. rewrite elem_of_map_to_list. cbn.
      rewrite (Hrt rt) by done. split; [lia|done].
Qed.

(** C3. A Stop ends exactly the turns admitted before it.  A turn's stop receiver is
    woken by a Stop or a delete of its own conversation made after its admission, and by
    nothing else: not by an earlier one, another conversation's, another turn's end, or
    the freeing of idle turn state. *)
Theorem stop_ends_what_came_before s s1 s2 c adm ops r1 r :
  reachable s →
  start_turn c adm s = Some s1 → running s1 !! next_id s = Some r1 →
  steps ops s1 = Some s2 → running s2 !! next_id s = Some r →
  stopped s2 r = existsb (ends c) ops.
Proof.
  intros Hinv%reachable_inv Hs Hr1 Hops Hr.
  destruct (start_unseen s s1 c adm r1 Hinv Hs Hr1) as (<- & Hun & Hlt).
  rewrite (stopped_steps ops s1 s2 (next_id s) r1 r); [by rewrite Hun|by eapply start_turn_inv|done..].
Qed.

(** The acquisition that holds a lock. *)
Definition granted w (p : TurnPlace) : Prop :=
  head (mutex_waiters (mutex (locks w (place_lock p)))) = Some (acquire p).
(** The conversation was deleted since [r]'s admission: its stop counter is gone. *)
Definition deleted s (r : Running) : bool :=
  match stop (turn r) with Some (a, _) => watch_closed (channels (world s) a) | None => false end.

(** C4. Turns run one at a time, in the order they were admitted.  Two turns of a
    conversation that wasn't deleted under them queue on one lock, the conversation's own,
    which stays while either has its place; the later one isn't granted it before the
    earlier one has given its place back.  Whatever the locks, an earlier place on the same
    lock always comes first. *)
Theorem turns_run_in_order s i j ri rj pi pj :
  reachable s → (i < j)%nat →
  running s !! i = Some ri → running s !! j = Some rj →
  place_of ri = Some pi → place_of rj = Some pj →
  (place_lock pi = place_lock pj → ¬ granted (world s) pj)
  ∧ (conv ri = conv rj → deleted s ri = false → deleted s rj = false →
     rt_lock (entry (conv ri) (world s)) = Some (place_lock pi) ∧ place_lock pi = place_lock pj
     ∧ (5 ≤ strong_count (locks (world s) (place_lock pi)))%nat).
Proof.
  intros Hinv%reachable_inv Hlt Hi Hj Hpi Hpj.
  assert (holds_of (running s) (outside s) !! i = Some (hold true pi)) as Hhi by (rewrite holds_lookup, Hi; cbn; by rewrite Hpi).
  assert (holds_of (running s) (outside s) !! j = Some (hold true pj)) as Hhj by (rewrite holds_lookup, Hj; cbn; by rewrite Hpj).
  split.
  - intros Heq. pose proof (lock_order _ _ _ _ (inv_lock _ Hinv) i j _ _ Hhi Hhj Hlt Heq) as Hbef. cbn in Hbef.
    unfold granted. rewrite <- Heq. by apply (before_not_head _ _ _ (lock_nodup _ _ _ _ (inv_lock _ Hinv) _) Hbef).
  - intros Hconv Hdi Hdj. unfold deleted in *.
    destruct (stop_listens _ _ _ _ (inv_stop _ Hinv) i ri Hi) as (ai & rxi & Hsi & _). rewrite Hsi in Hdi.
    destruct (stop_listens _ _ _ _ (inv_stop _ Hinv) j rj Hj) as (aj & rxj & Hsj & _). rewrite Hsj in Hdj.
    destruct (inv_same _ Hinv i ri pi ai rxi Hi Hpi Hsi) as [Hli|]; [|congruence].
    destruct (inv_same _ Hinv j rj pj aj rxj Hj Hpj Hsj) as [Hlj|]; [|congruence].
    rewrite <- Hconv in Hlj. assert (place_lock pi = place_lock pj) as Heq by congruence.
    conjs; [exact Hli|done|]. destruct (lock_current _ _ _ _ (inv_lock _ Hinv) _ _ Hli) as [_ ->].
    unfold holds_on.
    assert (∀ f, f (hold true pi) = true → f (hold true pj) = true → (2 ≤ cnt f (holds_of (running s) (outside s)))%nat) as Hcnt.
    { intros f Hfi Hfj. rewrite (cnt_delete f _ i _ Hhi), Hfi. rewrite (cnt_delete f _ j (hold true pj)), Hfj; [lia|].
      by rewrite lookup_delete_ne by lia. }
    pose proof (Hcnt (λ h, bool_decide (h_lock h = place_lock pi))) as H1'.
    pose proof (Hcnt (λ h, bool_decide (h_lock h = place_lock pi) && h_two h)) as H2'. cbn in H1', H2'.
    rewrite !bool_decide_eq_true_2 in H1' by congruence. rewrite !bool_decide_eq_true_2 in H2' by congruence.
    specialize (H1' eq_refl eq_refl). specialize (H2' eq_refl eq_refl). lia.
Qed.

(** What a busy spell tells the user at its end.  The spell's attention is what the
    operations since its first admission owe: the most important kind noted, less what was
    cleared; and when its last turn ends, the app is told the turns changed and, if
    something is owed that isn't a failure repeated while one still stands, one [NeedsUser]
    of that kind with the conversation's turn generation.  A turn's end that isn't the
    spell's tells nothing. *)
Theorem spell_tells_what_it_owes s s1 s2 s3 c adm ops r1 i r :
  reachable s → turns_of c (running s) = 0%nat →
  start_turn c adm s = Some s1 → running s1 !! next_id s = Some r1 →
  steps ops s1 = Some s2 → busy_along c ops s1 = true →
  running s2 !! i = Some r → conv r = c → step (DropTurn i) s2 = Some s3 →
  let owed := fold_left (owed_step c) ops None in
  rt_attention (entry c (world s2)) = owed
  ∧ app_told (world s3) = (app_told (world s2) ++
      (if bool_decide (turns_of c (running s3) = 0%nat) then
         TurnsChanged ::
           match owed, rt_published (entry c (world s2)) with
           | Some Failed, Some (_, Failed) => []
           | Some a, _ => [NeedsUser c a (generation (rt_kept (entry c (world s2))))]
           | None, _ => []
           end
       else []))%list.
Proof.
  intros Hinv%reachable_inv Hidle Hs Hr1 Hops Hbusy Hi <- Hdrop owed.
  pose proof (start_turn_inv _ _ _ _ Hinv Hs) as Hinv1. pose proof (steps_inv _ _ _ Hinv1 Hops) as Hinv2.
  destruct (attention_steps ops s1 s2 (conv r) Hinv1 Hops Hbusy) as [Hatt _].
  rewrite (start_attention s s1 (conv r) adm r1 Hinv Hs Hr1 Hidle) in Hatt. fold owed in Hatt. split; [done|].
  cbn in Hdrop. rewrite Hi in Hdrop. cbn in Hdrop. destruct (body r); [done|]. injection Hdrop as <-. cbn [world running].
  destruct (running_entry s2 i r Hinv2 Hi) as (rt & Hrt & He & Hcount).
  destruct (stop_listens _ _ _ _ (inv_stop _ Hinv2) i r Hi) as (a & rx & Hst & _).
  destruct (drop_turn_spec (turn r) (world s2) rt a rx Hrt Hst ltac:(lia)) as (rt' & w3 & _ & _ & _ & _ & _ & _ & Ha).
  cbn. rewrite Ha. f_equal. change (conversation_id (turn r)) with (conv r).
  replace (rt_turns_in_flight rt - 1 =? 0) with (bool_decide (turns_of (conv r) (delete i (running s2)) = 0%nat)).
  2:{ apply eq_bool_prop_intro. rewrite bool_decide_spec, Is_true_true, Z.eqb_eq. lia. }
  case_bool_decide; [|done]. f_equal. unfold owed_at_end. rewrite <- He, Hatt.
  by destruct owed as [[]|], (rt_published (entry (conv r) (world s2))) as [[? []]|].
Qed.

(** What an admission leaves: a turn of the conversation with its place and its receiver, and the
    entry's kept error, pause and published notice as [admitted_by] leaves them. *)
Lemma admit_turn_spec adm w c :
  (adm = ByUser ∨ rt_paused (entry c w) = false) →
  ∃ t g w', admit_turn c adm w = (Some (t, g), w')
    ∧ conversation_id t = c ∧ is_Some (place t) ∧ is_Some (stop t)
    ∧ ∃ rt', runtimes w' !! c = Some rt' ∧ g = generation (rt_kept rt')
      ∧ rt_kept rt' = rt_kept (admitted_by adm (entry c w)) ∧ rt_paused rt' = rt_paused (admitted_by adm (entry c w))
      ∧ rt_published rt' = rt_published (admitted_by adm (entry c w)).
Proof.
  intros Hor. unfold admit_turn, with_runtime. fold (entry c w).
  set (rt1 := admitted_by adm (entry c w) <| rt_turns_in_flight ::= λ n, u64_add n 1 |>).
  destruct (stop_receiver rt1 w) as [[[a rx] rt2] w2] eqn:E2.
  destruct (stop_receiver_spec (W := W) _ _ _ _ _ _ E2) as ((st & _ & Hrt2) & _).
  destruct (lock_or_new rt2 w2) as [[lk rt3] w3] eqn:E3.
  destruct (lock_or_new_spec _ _ _ _ _ E3) as (Hrt3 & _).
  destruct (join_lock lk (clone_arc lk w3)) as [p w4] eqn:E4.
  assert (rt_kept rt3 = rt_kept (admitted_by adm (entry c w)) ∧ rt_paused rt3 = rt_paused (admitted_by adm (entry c w))
          ∧ rt_published rt3 = rt_published (admitted_by adm (entry c w))) as (Hk & Hps & Hpb) by (rewrite Hrt3, Hrt2; done).
  unfold start_spell. destruct adm; [|destruct Hor as [|Hor]; [done|rewrite Hor]];
    destruct (rt_turns_in_flight rt3 =? 1); cbn [fst snd]; eexists _, _, _; (split; [reflexivity|]);
    (conjs; [done|by eexists|by eexists|]); eexists; (split; [cbn; try case_match; cbn; apply lookup_insert_eq|done]).
Qed.

(** Admission.  A wake or a notice is refused exactly while the conversation is
    paused, and then nothing at all changes; the user's turn is always admitted, ends the
    pause, starts a new generation, clears the kept error and what was published; a Stop
    pauses, running or not; and either admission counts a turn of its conversation with a
    place in the queue. *)
Theorem admission_correct w c :
  (is_paused c w = true ↔ start_unless_paused c w = (None, w))
  ∧ (is_paused c w = false → ∃ t w', start_unless_paused c w = (Some t, w') ∧ conversation_id t = c
       ∧ is_Some (place t) ∧ is_Some (stop t) ∧ is_paused c w' = false
       ∧ last_turn_error c w' = last_turn_error c w ∧ published_generation c w' = published_generation c w)
  ∧ (∃ t g w', start_by_user c w = (Some (t, g), w') ∧ conversation_id t = c
       ∧ is_Some (place t) ∧ is_Some (stop t)
       ∧ g = u64_add (generation (rt_kept (entry c w))) 1 ∧ is_paused c w' = false
       ∧ last_turn_error c w' = None ∧ published_generation c w' = None)
  ∧ is_paused c (stop_turn_now c w) = true.
Proof.
  assert (is_paused c w = rt_paused (entry c w)) as Hp.
  { unfold is_paused, read_runtime, entry. by destruct (runtimes w !! c). }
  assert (last_turn_error c w = kept_error (rt_kept (entry c w))) as He.
  { unfold last_turn_error, read_runtime, entry. by destruct (runtimes w !! c). }
  assert (published_generation c w = fst <$> rt_published (entry c w)) as Hg.
  { unfold published_generation, read_runtime, entry. by destruct (runtimes w !! c). }
  pose proof (λ adm, admit_turn_spec adm w c) as Hadm.
  conjs.
  - rewrite Hp. split.
    + intros Hpt. unfold start_unless_paused, admit_turn, with_runtime. fold (entry c w). rewrite Hpt. cbn.
      f_equal. apply set_runtimes_id. unfold entry in *.
      destruct (runtimes w !! c) as [rt|] eqn:Hc; [by apply insert_id|done].
    + intros Hr. destruct (rt_paused (entry c w)) eqn:E; [done|]. destruct (Hadm UnlessPaused (or_intror eq_refl)) as (t & g & w' & Ha & _).
      unfold start_unless_paused in Hr. rewrite Ha in Hr. done.
  - rewrite Hp. intros Hpf. destruct (Hadm UnlessPaused (or_intror Hpf)) as (t & g & w' & Ha & ? & ? & ? & rt' & Hrt & _ & Hk & Hps & Hpb).
    exists t, w'. unfold start_unless_paused. rewrite Ha. cbn in Hk, Hps, Hpb. conjs; try done.
    + unfold is_paused, read_runtime. rewrite Hrt. cbn. congruence.
    + unfold last_turn_error at 1, read_runtime. rewrite Hrt, He. cbn. by rewrite Hk.
    + unfold published_generation at 1, read_runtime. rewrite Hrt, Hg. cbn. by rewrite Hpb.
  - destruct (Hadm ByUser (or_introl eq_refl)) as (t & g & w' & Ha & ? & ? & ? & rt' & Hrt & Hgen & Hk & Hps & Hpb).
    exists t, g, w'. unfold start_by_user. conjs; try done.
    + by rewrite Hgen, Hk.
    + unfold is_paused, read_runtime. by rewrite Hrt.
    + unfold last_turn_error, read_runtime. rewrite Hrt. cbn. by rewrite Hk.
    + unfold published_generation, read_runtime. rewrite Hrt. cbn. by rewrite Hpb.
  - unfold stop_turn_now, with_runtime, is_paused, read_runtime. fold (entry c w).
    change (rt_stops (?r <| rt_paused := true |>)) with (rt_stops r).
    destruct (rt_stops (entry c w)); cbn; by rewrite lookup_insert_eq.
Qed.
End Guarantees.

(** ** A watch channel and a mutex

    A channel is its value, a version bumped by every send, and its receivers' count; a
    receiver is the version it has seen.  A mutex is the list of its tickets. *)

Record CountChannel := { cc_value : Z; cc_version : nat; cc_receivers : nat; cc_closed : bool }.

#[export] Instance count_watch : Watch CountChannel nat := {|
  watch_channel v := Build_CountChannel v 0 0 false;
  watch_borrow := cc_value;
  watch_subscribe c := (Build_CountChannel (cc_value c) (cc_version c) (S (cc_receivers c)) (cc_closed c), cc_version c);
  watch_borrow_and_update c _ := (cc_value c, cc_version c);
  watch_send_modify f c := Build_CountChannel (f (cc_value c)) (S (cc_version c)) (cc_receivers c) (cc_closed c);
  watch_receiver_count := cc_receivers;
  watch_drop_receiver _ c := Build_CountChannel (cc_value c) (cc_version c) (pred (cc_receivers c)) (cc_closed c);
  watch_drop_sender c := Build_CountChannel (cc_value c) (cc_version c) (cc_receivers c) true;
  watch_changed c r := cc_closed c || (r <? cc_version c)%nat;
  watch_closed := cc_closed;
  watch_receives c r := (r ≤ cc_version c)%nat;
|}.
#[export] Instance count_watch_laws : WatchLaws CountChannel nat.
Proof.
  split; cbn.
  - done.
  - intros c c' r [= <- <-]. conjs; try done. intros ->. exact (Nat.ltb_irrefl _).
  - intros c r v r' [= <- <-]. split; [done|]. intros _. split; [done|]. intros ->. exact (Nat.ltb_irrefl _).
  - intros f c. conjs; [done..|]. intros r Hr. split; [lia|].
    apply orb_true_iff. right. by apply Nat.leb_le.
  - done.
  - done.
  - by intros c r ->.
Qed.

Definition next_ticket (m : list nat) : nat := S (max_list m).
#[export] Instance ticket_mutex : FairMutex (list nat) nat := {|
  mutex_new := [];
  mutex_acquire m := (m ++ [next_ticket m], next_ticket m);
  mutex_leave w m := List.filter (λ v, negb (bool_decide (v = w))) m;
  mutex_waiters m := m;
|}.
#[export] Instance ticket_mutex_laws : FairMutexLaws (list nat) nat.
Proof.
  split; cbn; [done| |done]. intros m m' w [= <- <-]. split; [done|].
  intros Hin. apply max_list_elem_of_le in Hin. unfold next_ticket in Hin. lia.
Qed.

(** ** Witnesses *)

Definition sample : @Sys CountChannel nat (list nat) nat := empty_sys (C := CountChannel) (R := nat) (M := list nat) (W := nat).
Lemma sample_reachable : reachable sample.
Proof. by exists []. Qed.

Definition no_turn : @Running nat nat := Build_Running (Build_TurnInFlight 0 None None) None.
Ltac computes := apply default_spec; vm_compute; reflexivity.
Definition sample0 : @Sys CountChannel nat (list nat) nat := default sample (steps [StartByUser 7; StartUnlessPaused 7; DropTurn 0] sample).
Lemma busy_spells_witness : turn_running 7 (world sample0) = true.
Proof.
  destruct (busy_spells sample0 7) as (_ & _ & _ & H & _).
  { eexists. apply default_spec. vm_compute. reflexivity. }
  rewrite H. vm_compute. reflexivity.
Defined.

Definition sample1 : @Sys CountChannel nat (list nat) nat := default sample (start_turn 7 ByUser sample).
Definition sample_ops : list op := [TakePlace 0; NoteAttention 7 Failed; StartUnlessPaused 8; Stop 8; Stop 7; StartByUser 7].
Definition sample2 : @Sys CountChannel nat (list nat) nat := default sample (steps sample_ops sample1).
Definition first1 : @Running nat nat := default no_turn (running sample1 !! 0%nat).
Definition first2 : @Running nat nat := default no_turn (running sample2 !! 0%nat).
Definition last2 : @Running nat nat := default no_turn (running sample2 !! 2%nat).

Lemma stop_ends_what_came_before_witness : stopped sample2 first2 = true.
Proof.
  refine (stop_ends_what_came_before sample sample1 sample2 7 ByUser sample_ops first1 first2
    sample_reachable _ _ _ _); computes.
Defined.

Definition place0 : @TurnPlace nat := default (Build_TurnPlace 0 0%nat) (place_of first2).
Definition place2 : @TurnPlace nat := default (Build_TurnPlace 0 0%nat) (place_of last2).
Lemma turns_run_in_order_witness : ¬ granted (world sample2) place2.
Proof.
  refine (proj1 (turns_run_in_order sample2 0 2 first2 last2 place0 place2 _ _
    _ _ _ _) _); [| |computes..|vm_compute; reflexivity].
  - exists (StartByUser 7 :: sample_ops). vm_compute. reflexivity.
  - lia.
Defined.

Definition spell_ops : list op := [NoteNotified 7 "done"; NoteAttention 7 Failed; NoteAttention 7 CutOff].
Definition spell2 : @Sys CountChannel nat (list nat) nat := default sample (steps spell_ops sample1).
Definition spell3 : @Sys CountChannel nat (list nat) nat := default sample (step (DropTurn 0) spell2).
Definition spell_turn : @Running nat nat := default no_turn (running spell2 !! 0%nat).

Lemma spell_tells_what_it_owes_witness :
  app_told (world spell3) = [TurnsChanged; TurnsChanged; NeedsUser 7 Failed 1].
Proof.
  destruct (spell_tells_what_it_owes sample sample1 spell2 spell3 7 ByUser spell_ops first1 0 spell_turn
    sample_reachable) as [_ H]; try computes; [vm_compute; reflexivity..|].
  rewrite H. vm_compute. reflexivity.
Defined.

Lemma admission_correct_witness :
  is_paused 7 (stop_turn_now 7 (world sample0)) = true
  ∧ start_unless_paused 7 (stop_turn_now 7 (world sample0)) = (None, stop_turn_now 7 (world sample0)).
Proof.
  destruct (admission_correct (world sample0) 7) as (_ & _ & _ & Hp). split; [exact Hp|].
  destruct (admission_correct (stop_turn_now 7 (world sample0)) 7) as ([H _] & _). exact (H Hp).
Defined.
