(* ===== verification/Models.v ===== *)
(** * Models: the rows shared by the server and the page

    [src/src/models.rs]: a saved message.  Its content is the JSON text of its content
    blocks; [serde_json::from_str] reads it, and is a parameter. *)

From S2P Require Import Prelude RustStr Types.
Local Open Scope string_scope.

(** A row of [messages]; [created_at] is a time nothing here looks at. *)
Record Message := {
  msg_id : Z;
  msg_conversation : Z;
  msg_role : string;
  msg_content : string;
  created_at : Z;
}.
#[export] Instance Message_eta : Eta Message := λ m,
  Build_Message (msg_id m) (msg_conversation m) (msg_role m) (msg_content m) (created_at m).
#[export] Instance Message_eq_dec : EqDecision Message.
Proof. solve_decision. Defined.

Section Blocks.
Context {V E : Type}.
(** [serde_json::from_str::<Vec<ContentBlock>>]. *)
Variable parse_blocks : string → Result (list (ContentBlock V)) E.

Definition blocks (m : Message) : Result (list (ContentBlock V)) E := parse_blocks (msg_content m).
End Blocks.

(** ** Readers of a message's blocks *)

(** The ids of the calls among [blocks], in order. *)
Definition tool_calls {V} (blocks : list (ContentBlock V)) : list string :=
  omap (λ b, match b with ToolUse id _ _ => Some id | _ => None end) blocks.

(** The ids of the calls the results among [blocks] answer, in order. *)
Definition tool_results {V} (blocks : list (ContentBlock V)) : list string :=
  omap (λ b, match b with ToolResult id _ _ => Some id | _ => None end) blocks.
