(* ===== verification/History.v ===== *)
(** * History: the messages a request sends

    [src/src/turn/history.rs]: the saved messages of a conversation rebuilt into the
    messages of a request.  Everything a compaction covers is left out and its summary sent
    as text, thinking another model signed is stripped, calls go by the safe names tools are
    offered under, blank replies are left out, and every call is answered in the message
    right after it.

    The parser of a message's content is a parameter, as in [Models].  [history[i..]] is the
    list the loops recurse on, so inserting at or removing from [i + 1] on is rebuilding its
    tail; the loop of [answer_unfinished_tool_calls] has fuel, [answer_fuel], which
    [answer_loop_enough] shows is enough. *)

From S2P Require Import Prelude RustStr Types Models ToolNames.
Local Open Scope string_scope.

Definition UNFINISHED_TOOL_CALL : string :=
  "This tool call didn't finish: the turn was stopped (by the user, or by a server restart) before it returned. Its effects, if any, are unknown.".

(** [Iterator::max] over [i64]s. *)
Definition max_i64 (l : list Z) : option Z :=
  fold_left (λ best x, Some (match best with Some b => Z.max b x | None => x end)) l None.

Section History.
Context {V E : Type}.
Implicit Types (b : ContentBlock V) (blocks : list (ContentBlock V)) (m next : AnthropicMessage V)
  (h rest later : list (AnthropicMessage V)) (calls : list string).

(** ** Answering every call *)

Definition is_user m : bool := bool_decide (role m = "user").
Definition is_assistant m : bool := bool_decide (role m = "assistant").

(** [move_late_results]' [is_late]: a result for one of [calls] that [next] doesn't have. *)
Definition is_late calls next b : bool :=
  match b with
  | ToolResult id _ _ => bool_decide (id ∈ calls) && negb (bool_decide (id ∈ tool_results (content next)))
  | _ => false
  end.

(** Its loop over the later user messages of the run: the late blocks, in order, and what is
    left of the messages. *)
Fixpoint take_late (late : ContentBlock V → bool) later : list (ContentBlock V) * list (AnthropicMessage V) :=
  match later with
  | [] => ([], [])
  | m :: rest =>
      if is_user m then
        let moved := List.filter late (content m) in
        let kept := List.filter (λ b, negb (late b)) (content m) in
        let '(more, rest') := take_late late rest in
        (app moved more, match kept with [] => rest' | _ => Build_AnthropicMessage (role m) kept :: rest' end)
      else ([], later)
  end.

(** [move_late_results]: [next] is [history[i + 1]], [later] what follows it. *)
Definition move_late_results calls next later : AnthropicMessage V * list (AnthropicMessage V) :=
  let '(moved, later') := take_late (is_late calls next) later in
  (match moved with [] => next | _ => Build_AnthropicMessage (role next) (app moved (content next)) end, later').

Definition unfinished_result (id : string) : ContentBlock V := ToolResult id UNFINISHED_TOOL_CALL (Some true).

(** The error results for the calls not in [answered]. *)
Definition missing_results calls (answered : list string) : list (ContentBlock V) :=
  map unfinished_result (List.filter (λ id, negb (bool_decide (id ∈ answered))) calls).

(** The loop's body for an assistant message making [calls]: what becomes of [history[i + 1..]]. *)
Definition answer_calls calls rest : list (AnthropicMessage V) :=
  match rest with
  | next :: later =>
      if is_user next then
        let '(next, later) := move_late_results calls next later in
        match missing_results calls (tool_results (content next)) with
        | [] => next :: later
        | missing => Build_AnthropicMessage (role next) (app missing (content next)) :: later
        end
      else
        match missing_results calls [] with
        | [] => rest
        | missing => Build_AnthropicMessage "user" missing :: rest
        end
  | [] =>
      match missing_results calls [] with
      | [] => rest
      | missing => Build_AnthropicMessage "user" missing :: rest
      end
  end.

Fixpoint answer_loop (fuel : nat) h : list (AnthropicMessage V) :=
  match fuel, h with
  | 0%nat, _ => h
  | _, [] => []
  | S fuel, m :: rest =>
      let rest := if is_assistant m then answer_calls (tool_calls (content m)) rest else rest in
      m :: answer_loop fuel rest
  end.

(** Each message is visited, and each assistant message adds at most one. *)
Definition answer_fuel h : nat := (length h + length (List.filter is_assistant h))%nat.

Definition answer_unfinished_tool_calls h : list (AnthropicMessage V) := answer_loop (answer_fuel h) h.

(** ** What is sent of each message *)

Definition is_blank_text b : bool := match b with Text text => is_blank text | _ => false end.

Definition without_blank_text blocks : list (ContentBlock V) :=
  List.filter (λ b, negb (is_blank_text b)) blocks.

Definition strip_foreign_thinking blocks (strip : bool) : list (ContentBlock V) :=
  if strip then strip_thinking blocks else blocks.

(** A stored block as the API takes it. *)
Definition block_for_request b : ContentBlock V :=
  match b with
  | CompactionSummary summary _ _ => Text summary
  | CompactionPlaceholder text => Text text
  | ToolUse id name input => ToolUse id (safe_tool_name name) input
  | other => other
  end.

(** A parsed message: its id, role and blocks. *)
Definition Parsed : Type := Z * string * list (ContentBlock V).

Variable parse_blocks : string → Result (list (ContentBlock V)) E.

Definition parse_message (m : Message) : Result Parsed E :=
  let? bs := blocks parse_blocks m in Ok (msg_id m, msg_role m, bs).

Definition covers b : option Z :=
  match b with CompactionSummary _ through _ => Some through | _ => None end.

Definition latest_boundary (parsed : list Parsed) : option Z :=
  max_i64 (omap covers (concat (map snd parsed))).

Definition after_boundary (boundary : option Z) (p : Parsed) : bool :=
  match boundary with None => true | Some boundary => bool_decide (boundary < fst (fst p))%Z end.

Definition strips (through : option Z) (id : Z) : bool :=
  match through with Some through => bool_decide (id ≤ through)%Z | None => false end.

(** The history's [map] over one message. *)
Definition message_for_request (through : option Z) (p : Parsed) : AnthropicMessage V :=
  let '(id, role, bs) := p in
  Build_AnthropicMessage role (map block_for_request (strip_foreign_thinking bs (strips through id))).

(** Its [filter_map]: a blank assistant message is left out. *)
Definition without_blank_reply m : option (AnthropicMessage V) :=
  if is_assistant m then
    match without_blank_text (content m) with
    | [] => None
    | content => Some (Build_AnthropicMessage (role m) content)
    end
  else Some m.

Definition history_for_request (messages : list Message) (through : option Z)
    : Result (list (AnthropicMessage V)) E :=
  let? parsed := collect_results parse_message messages in
  let boundary := latest_boundary parsed in
  Ok (answer_unfinished_tool_calls
        (omap without_blank_reply
           (map (message_for_request through) (List.filter (after_boundary boundary) parsed)))).
End History.

(** ** The run of user messages after a message *)

Section Runs.
Context {V : Type}.
Implicit Types (b : ContentBlock V) (m next : AnthropicMessage V)
  (h rest later : list (AnthropicMessage V)) (calls : list string).

Fixpoint user_run h : list (AnthropicMessage V) :=
  match h with m :: rest => if is_user m then m :: user_run rest else [] | [] => [] end.
Fixpoint after_run h : list (AnthropicMessage V) :=
  match h with m :: rest => if is_user m then after_run rest else h | [] => [] end.

Definition all_blocks h : list (ContentBlock V) := concat (map content h).

(** The calls of each assistant message with no result before the next assistant message. *)
Definition unanswered_calls calls rest : list string :=
  List.filter (λ id, negb (bool_decide (id ∈ tool_results (all_blocks (user_run rest))))) calls.
Fixpoint unanswered h : list string :=
  match h with
  | [] => []
  | m :: rest =>
      app (if is_assistant m then unanswered_calls (tool_calls (content m)) rest else []) (unanswered rest)
  end.

Lemma user_not_assistant m : is_user m = true → is_assistant m = false.
Proof. unfold is_user, is_assistant. intros H%bool_decide_eq_true_1. by rewrite H. Qed.

Lemma run_split h : app (user_run h) (after_run h) = h.
Proof. induction h as [|m h IH]; [done|]. cbn. destruct (is_user m); [|done]. cbn. by rewrite IH. Qed.

Lemma user_run_users h : Forall (λ m, is_user m = true) (user_run h).
Proof. induction h as [|m h IH]; cbn; [done|]. destruct (is_user m) eqn:E; [by constructor|done]. Qed.

Lemma after_run_head h : match after_run h with m :: _ => is_user m = false | [] => True end.
Proof. induction h as [|m h IH]; cbn; [done|]. by destruct (is_user m) eqn:E. Qed.

Lemma run_app us h :
  Forall (λ m, is_user m = true) us → match h with m :: _ => is_user m = false | [] => True end →
  user_run (app us h) = us ∧ after_run (app us h) = h.
Proof.
  intros Hus Hh. induction Hus as [|m us Hm _ [IH1 IH2]]; cbn.
  - destruct h as [|m h]; [done|]. cbn. by rewrite Hh.
  - by rewrite Hm, IH1, IH2.
Qed.

Lemma all_blocks_app h rest : all_blocks (app h rest) = app (all_blocks h) (all_blocks rest).
Proof. unfold all_blocks. by rewrite map_app, concat_app. Qed.

Lemma elem_tool_results id (bs : list (ContentBlock V)) : id ∈ tool_results bs ↔ ∃ c e, ToolResult id c e ∈ bs.
Proof.
  unfold tool_results. rewrite list_elem_of_omap. split.
  - intros (b & Hb & E). destruct b; try done. injection E as ->. eauto.
  - intros (c & e & Hb). by eexists.
Qed.

Lemma tool_results_app (bs cs : list (ContentBlock V)) : tool_results (app bs cs) = app (tool_results bs) (tool_results cs).
Proof. apply omap_app. Qed.

Lemma app_perm_pieces {A} (missing moved c kept run : list A) :
  app moved kept ≡ₚ run → app (app missing (app moved c)) kept ≡ₚ app (app c run) missing.
Proof.
  intros <-. rewrite <- !app_assoc, Permutation_app_comm, <- !app_assoc.
  by rewrite Permutation_app_swap_app, (app_assoc c).
Qed.

(** ** What the loops leave *)

Lemma take_late_shape (late : ContentBlock V → bool) later :
  ∃ us, take_late late later = (List.filter late (all_blocks (user_run later)), app us (after_run later))
    ∧ Forall (λ m, is_user m = true) us ∧ Forall (λ m, content m ≠ []) us
    ∧ all_blocks us = List.filter (λ b, negb (late b)) (all_blocks (user_run later))
    ∧ (length us ≤ length (user_run later))%nat.
Proof.
  induction later as [|m later (us & IH & Hu & Hne & Hb & Hl)]; [by exists []|].
  cbn. destruct (is_user m) eqn:E; [|by exists []]. rewrite IH.
  change (concat (map content (m :: user_run later))) with (app (content m) (all_blocks (user_run later))).
  rewrite !List.filter_app. destruct (List.filter (λ b, negb (late b)) (content m)) as [|b bs] eqn:Ek.
  - exists us. cbn. conjs; [done..|]. lia.
  - exists (Build_AnthropicMessage (role m) (b :: bs) :: us). conjs.
    + done.
    + by constructor.
    + by constructor.
    + cbn. by rewrite <- Hb.
    + cbn. lia.
Qed.

Lemma late_results calls next later id :
  id ∈ calls →
  id ∈ tool_results (app (List.filter (is_late calls next) (all_blocks (user_run later))) (content next))
  ↔ id ∈ tool_results (app (content next) (all_blocks (user_run later))).
Proof.
  intros Hid. rewrite !tool_results_app, !elem_of_app, !elem_tool_results. split.
  - intros [(c & e & Hb)|?]; [|by left]. right. apply elem_list_filter in Hb as [? _]. eauto.
  - intros [?|(c & e & Hb)]; [by right|].
    destruct (decide (id ∈ tool_results (content next))) as [Hin|Hnot].
    + right. by apply elem_tool_results.
    + left. exists c, e. apply elem_list_filter. split; [done|]. cbn.
      by rewrite bool_decide_eq_true_2, bool_decide_eq_false_2.
Qed.

Lemma missing_ext calls (a a' : list string) :
  (∀ id, id ∈ calls → id ∈ a ↔ id ∈ a') →
  missing_results (V := V) calls a
  = map unfinished_result (List.filter (λ id, negb (bool_decide (id ∈ a'))) calls).
Proof.
  intros H. unfold missing_results. f_equal. apply filter_ext_in. intros id Hid%list_elem_of_In.
  f_equal. by apply bool_decide_ext, H.
Qed.

Lemma tool_results_missing calls : tool_results (map (unfinished_result (V := V)) calls) = calls.
Proof. induction calls as [|c calls IH]; [done|]. cbn. by f_equal. Qed.

Lemma all_answered calls (bs : list (ContentBlock V)) missing :
  missing = missing_results calls (tool_results bs) → ∀ id, id ∈ calls → id ∈ tool_results (app missing bs).
Proof.
  intros -> id Hid. rewrite tool_results_app. apply elem_of_app. unfold missing_results.
  rewrite tool_results_missing, elem_list_filter.
  destruct (decide (id ∈ tool_results bs)); [by right|]. left. by rewrite bool_decide_eq_false_2.
Qed.

(** An assistant message's calls are settled in the run after it, which only gains the
    missing results; nothing past the run changes. *)
Lemma answer_calls_shape calls rest :
  ∃ us, answer_calls calls rest = app us (after_run rest)
    ∧ Forall (λ m, is_user m = true) us ∧ Forall (λ m, content m ≠ []) (tail us)
    ∧ all_blocks us ≡ₚ app (all_blocks (user_run rest)) (map unfinished_result (unanswered_calls calls rest))
    ∧ (length us ≤ S (length (user_run rest)))%nat
    ∧ (calls ≠ [] → ∃ n us', us = n :: us' ∧ ∀ id, id ∈ calls → id ∈ tool_results (content n)).
Proof.
  assert (∀ rest, match rest with m :: _ => is_user m = false | [] => True end →
    ∃ us, match missing_results calls [] with
          | [] => rest | missing => Build_AnthropicMessage "user" missing :: rest end = app us (after_run rest)
      ∧ Forall (λ m, is_user m = true) us ∧ Forall (λ m, content m ≠ []) (tail us)
      ∧ all_blocks us ≡ₚ app (all_blocks (user_run rest)) (map unfinished_result (unanswered_calls calls rest))
      ∧ (length us ≤ S (length (user_run rest)))%nat
      ∧ (calls ≠ [] → ∃ n us', us = n :: us' ∧ ∀ id, id ∈ calls → id ∈ tool_results (content n))) as Hinsert.
  { clear rest. intros rest Hrest. destruct (run_app [] rest) as [Hrun Hafter]; [done|done|]. cbn in Hrun, Hafter.
    unfold unanswered_calls. rewrite Hrun, Hafter. change (tool_results (all_blocks [])) with (@nil string).
    change (all_blocks []) with (@nil (ContentBlock V)).
    pose proof (all_answered calls [] _ eq_refl) as Hall. rewrite app_nil_r in Hall. cbn in Hall.
    unfold missing_results in *.
    destruct (map unfinished_result _) as [|b bs] eqn:E; cbn in Hall.
    - exists []. cbn. conjs; [done|done|done|done|lia|].
      intros Hne. destruct calls as [|c calls]; [done|]. exfalso. eapply not_elem_of_nil, (Hall c). left.
    - exists [Build_AnthropicMessage "user" (b :: bs)]. cbn. conjs; [done|by repeat constructor|done| |lia|].
      + unfold all_blocks. cbn. by rewrite app_nil_r.
      + intros _. eexists _, []. split; [done|]. cbn. exact Hall. }
  destruct rest as [|next later]; [by apply Hinsert|]. cbn [answer_calls].
  destruct (is_user next) eqn:Hn; [|by apply Hinsert].
  unfold move_late_results. destruct (take_late_shape (is_late calls next) later) as (us & -> & Hu & Hne & Hb & Hl).
  set (moved := List.filter (is_late calls next) (all_blocks (user_run later))) in *.
  replace (match moved with [] => next | _ => Build_AnthropicMessage (role next) (app moved (content next)) end)
    with (Build_AnthropicMessage (role next) (app moved (content next))).
  2:{ destruct moved; [by destruct next|done]. }
  cbn [content role].
  assert (missing_results (V := V) calls (tool_results (app moved (content next)))
          = map unfinished_result (unanswered_calls calls (next :: later))) as Hm.
  { cbn [unanswered_calls user_run]. unfold unanswered_calls. cbn [user_run]. rewrite Hn. apply missing_ext.
    intros id Hid. by apply late_results. }
  exists (Build_AnthropicMessage (role next)
            (app (map unfinished_result (unanswered_calls calls (next :: later))) (app moved (content next))) :: us).
  conjs.
  - rewrite Hm. cbn [after_run]. rewrite Hn. by destruct (map unfinished_result _).
  - constructor; [|done]. exact Hn.
  - done.
  - cbn [all_blocks map concat content user_run]. rewrite Hn. fold (all_blocks us). rewrite Hb.
    cbn [all_blocks map concat]. fold (all_blocks (user_run later)).
    apply app_perm_pieces, filter_partition_perm.
  - cbn. rewrite Hn. cbn. lia.
  - intros _. eexists _, us. split; [done|]. cbn [content]. rewrite <- Hm. by apply all_answered.
Qed.

(** ** The loop *)

Lemma assistants_app us h :
  Forall (λ m, is_user m = true) us →
  List.filter is_assistant (app us h) = List.filter is_assistant h.
Proof.
  intros Hus. rewrite List.filter_app, (list_filter_none is_assistant us); [done|].
  eapply Forall_impl; [exact Hus|]. intros m. apply user_not_assistant.
Qed.

Lemma assistants_after_run h : List.filter is_assistant (after_run h) = List.filter is_assistant h.
Proof. rewrite <- (run_split h) at 2. by rewrite assistants_app by apply user_run_users. Qed.

Lemma answer_calls_fuel calls rest : (answer_fuel (answer_calls calls rest) ≤ S (answer_fuel rest))%nat.
Proof.
  destruct (answer_calls_shape calls rest) as (us & -> & Hus & _ & _ & Hl & _).
  unfold answer_fuel. rewrite assistants_app, assistants_after_run, length_app by done.
  pose proof (f_equal length (run_split rest)) as E. rewrite length_app in E. lia.
Qed.

(** More fuel than [answer_fuel] changes nothing: the loop has ended by then. *)
Lemma answer_loop_enough h fuel : (answer_fuel h ≤ fuel)%nat → answer_loop fuel h = answer_loop (answer_fuel h) h.
Proof.
  remember (answer_fuel h) as n eqn:Hn. assert (answer_fuel h ≤ n)%nat as Hle by lia. clear Hn.
  revert h fuel Hle. induction n as [|n IH]; intros h fuel Hle Hf.
  - destruct h; [by destruct fuel|]. unfold answer_fuel in Hle. cbn in Hle. lia.
  - destruct h as [|m rest]; [by destruct fuel|]. destruct fuel as [|fuel]; [lia|]. cbn [answer_loop]. f_equal.
    assert (answer_fuel (if is_assistant m then answer_calls (tool_calls (content m)) rest else rest) ≤ n)%nat.
    { pose proof (answer_calls_fuel (tool_calls (content m)) rest). unfold answer_fuel in *. cbn in Hle.
      destruct (is_assistant m); cbn in Hle; lia. }
    by rewrite (IH _ fuel) by lia.
Qed.

Lemma answer_unfinished_cons m rest :
  answer_unfinished_tool_calls (m :: rest)
  = m :: answer_unfinished_tool_calls (if is_assistant m then answer_calls (tool_calls (content m)) rest else rest).
Proof.
  unfold answer_unfinished_tool_calls.
  rewrite <- (answer_loop_enough (m :: rest) (S (answer_fuel (m :: rest)))) by lia.
  cbn [answer_loop]. f_equal. rewrite (answer_loop_enough _ (answer_fuel (m :: rest))); [done|].
  pose proof (answer_calls_fuel (tool_calls (content m)) rest). unfold answer_fuel in *. cbn.
  destruct (is_assistant m); cbn; lia.
Qed.

Lemma answer_unfinished_users us h :
  Forall (λ m, is_user m = true) us →
  answer_unfinished_tool_calls (app us h) = app us (answer_unfinished_tool_calls h).
Proof.
  induction 1 as [|m us Hm _ IH]; [done|]. cbn [app]. rewrite answer_unfinished_cons, (user_not_assistant m Hm). by rewrite IH.
Qed.

(** The history's rebuilding, run by run: an assistant message, the run after it as
    [answer_calls_shape] says, and the rest. *)
Lemma answer_unfinished_assistant m rest :
  is_assistant m = true →
  ∃ us, answer_unfinished_tool_calls (m :: rest) = m :: app us (answer_unfinished_tool_calls (after_run rest))
    ∧ Forall (λ m, is_user m = true) us ∧ Forall (λ m, content m ≠ []) (tail us)
    ∧ all_blocks us ≡ₚ app (all_blocks (user_run rest))
                           (map unfinished_result (unanswered_calls (tool_calls (content m)) rest))
    ∧ (tool_calls (content m) ≠ [] →
       ∃ n us', us = n :: us' ∧ ∀ id, id ∈ tool_calls (content m) → id ∈ tool_results (content n)).
Proof.
  intros Hm. destruct (answer_calls_shape (tool_calls (content m)) rest) as (us & E & Hus & Hne & Hp & _ & Hc).
  exists us. rewrite answer_unfinished_cons, Hm, E, answer_unfinished_users by done. by conjs.
Qed.

(** Induction over a history a run at a time. *)
Lemma runs_ind (P : list (AnthropicMessage V) → Prop) :
  P [] → (∀ m rest, is_assistant m = false → P rest → P (m :: rest)) →
  (∀ m rest, is_assistant m = true → P (after_run rest) → P (m :: rest)) → ∀ h, P h.
Proof.
  intros Hnil Hother Hasst h. remember (length h) as n eqn:Hn. assert (length h ≤ n)%nat as Hle by lia. clear Hn.
  revert h Hle. induction n as [|n IH]; intros [|m rest] Hle; cbn in Hle; [done|lia|done|].
  destruct (is_assistant m) eqn:E; [apply Hasst; [done|]|apply Hother; [done|]]; apply IH; [|lia].
  pose proof (f_equal length (run_split rest)) as El. rewrite length_app in El. lia.
Qed.

Lemma answer_unfinished_head h :
  match answer_unfinished_tool_calls h with m :: _ => hd_error h = Some m | [] => h = [] end.
Proof. destruct h as [|m rest]; [done|]. by rewrite answer_unfinished_cons. Qed.

Lemma unanswered_users us h :
  Forall (λ m, is_user m = true) us → unanswered (app us h) = unanswered h.
Proof. induction 1 as [|m us Hm _ IH]; [done|]. cbn. by rewrite (user_not_assistant m Hm). Qed.

Lemma unanswered_after_run h : unanswered (after_run h) = unanswered h.
Proof. rewrite <- (run_split h) at 2. by rewrite unanswered_users by apply user_run_users. Qed.

Lemma answer_unfinished_blocks h :
  all_blocks (answer_unfinished_tool_calls h) ≡ₚ app (all_blocks h) (map unfinished_result (unanswered h)).
Proof.
  induction h as [|m rest Hm IH|m rest Hm IH] using runs_ind; [done| |].
  - rewrite answer_unfinished_cons, Hm. cbn. fold (all_blocks rest). rewrite Hm. cbn.
    fold (all_blocks (answer_unfinished_tool_calls rest)). by rewrite IH, app_assoc.
  - destruct (answer_unfinished_assistant m rest Hm) as (us & -> & _ & _ & Hp & _).
    cbn [all_blocks map concat]. fold (all_blocks (app us (answer_unfinished_tool_calls (after_run rest)))).
    fold (all_blocks rest). rewrite all_blocks_app, Hp, IH. cbn [unanswered]. rewrite Hm, unanswered_after_run, map_app.
    rewrite <- (run_split rest) at 5. rewrite all_blocks_app, <- !app_assoc. f_equiv. f_equiv.
    by rewrite Permutation_app_swap_app.
Qed.

Lemma answer_unfinished_assistants h :
  List.filter is_assistant (answer_unfinished_tool_calls h) = List.filter is_assistant h.
Proof.
  induction h as [|m rest Hm IH|m rest Hm IH] using runs_ind; [done| |].
  - rewrite answer_unfinished_cons, Hm. cbn. by rewrite Hm, IH.
  - destruct (answer_unfinished_assistant m rest Hm) as (us & -> & Hus & _). cbn. rewrite Hm.
    by rewrite assistants_app, IH, assistants_after_run by done.
Qed.

Lemma answer_unfinished_answers h pre m post :
  answer_unfinished_tool_calls h = app pre (m :: post) → is_assistant m = true → tool_calls (content m) ≠ [] →
  ∃ n post', post = n :: post' ∧ is_user n = true
    ∧ ∀ id, id ∈ tool_calls (content m) → id ∈ tool_results (content n).
Proof.
  revert pre. induction h as [|m' rest Hm' IH|m' rest Hm' IH] using runs_ind; intros pre.
  - by destruct pre.
  - rewrite answer_unfinished_cons, Hm'. destruct pre as [|p pre]; cbn; intros [= -> E]; [congruence|].
    by apply (IH pre).
  - destruct (answer_unfinished_assistant m' rest Hm') as (us & -> & Hus & _ & _ & Hc).
    destruct pre as [|p pre]; cbn; intros [= -> E] Hm Hne.
    + destruct (Hc Hne) as (n & us' & -> & Hall). inversion Hus; subst. exists n. cbn. eauto.
    + revert pre E. clear Hc. induction Hus as [|u us Hu _ IHu]; intros pre E; [by apply (IH pre)|].
      destruct pre as [|q pre]; cbn in E; injection E as -> E.
      * by rewrite user_not_assistant in Hm.
      * by apply (IHu pre).
Qed.

(** ** An answered history stays as it is *)

Lemma take_late_nothing (late : ContentBlock V → bool) us h :
  (∀ b, b ∈ all_blocks us → late b = false) →
  Forall (λ m, is_user m = true) us → Forall (λ m, content m ≠ []) us →
  match h with m :: _ => is_user m = false | [] => True end →
  take_late late (app us h) = ([], app us h).
Proof.
  intros Hlate Hus Hne Hh. induction Hus as [|m us Hm Hus IH]; cbn.
  - destruct h as [|m h]; [done|]. cbn. by rewrite Hh.
  - inversion Hne as [|? ? Hc Hne']; subst. rewrite Hm, IH; [|intros b Hb|done].
    2:{ apply Hlate. cbn. apply elem_of_app. by right. }
    rewrite list_filter_none, list_filter_all; [by destruct m as [r [|b bs]]| |];
      apply Forall_forall; intros b Hb; [apply negb_true_iff|]; apply Hlate; cbn; apply elem_of_app; by left.
Qed.

Lemma missing_none calls (answered : list string) :
  (∀ id, id ∈ calls → id ∈ answered) → missing_results (V := V) calls answered = [].
Proof.
  intros H. unfold missing_results. rewrite list_filter_none; [done|]. apply Forall_forall. intros id Hid.
  apply negb_false_iff, bool_decide_eq_true_2. auto.
Qed.

Lemma answer_calls_answered calls us h :
  Forall (λ m, is_user m = true) us → Forall (λ m, content m ≠ []) (tail us) →
  match h with m :: _ => is_user m = false | [] => True end →
  (calls ≠ [] → ∃ n us', us = n :: us' ∧ ∀ id, id ∈ calls → id ∈ tool_results (content n)) →
  answer_calls calls (app us h) = app us h.
Proof.
  intros Hus Hne Hh Hc. destruct us as [|n us]; cbn.
  - destruct calls as [|c calls]; [|by destruct (Hc ltac:(done)) as (? & ? & [=] & _)].
    destruct h as [|m h]; [done|]. cbn. by rewrite Hh.
  - assert (∀ id, id ∈ calls → id ∈ tool_results (content n)) as Hall.
    { intros id Hid. destruct Hc as (n' & us' & [= <- <-] & Hall); [|auto]. intros ->. by apply not_elem_of_nil in Hid. }
    inversion Hus as [|? ? Hn Hus']; subst. rewrite Hn. unfold move_late_results.
    rewrite take_late_nothing; [by rewrite missing_none| |done|done|done].
    intros b _. destruct b; try done. cbn. apply andb_false_iff.
    destruct (decide (tool_use_id ∈ calls)); [right|left; by apply bool_decide_eq_false_2].
    apply negb_false_iff, bool_decide_eq_true_2. auto.
Qed.

Lemma answer_unfinished_idemp h :
  answer_unfinished_tool_calls (answer_unfinished_tool_calls h) = answer_unfinished_tool_calls h.
Proof.
  induction h as [|m rest Hm IH|m rest Hm IH] using runs_ind; [done| |].
  - by rewrite answer_unfinished_cons, Hm, answer_unfinished_cons, Hm, IH.
  - destruct (answer_unfinished_assistant m rest Hm) as (us & -> & Hus & Hne & _ & Hc).
    rewrite answer_unfinished_cons, Hm, answer_calls_answered, answer_unfinished_users, IH; try done.
    pose proof (answer_unfinished_head (after_run rest)) as Hh. pose proof (after_run_head rest) as Hr.
    destruct (answer_unfinished_tool_calls (after_run rest)), (after_run rest); cbn in *; congruence.
Qed.

(** ** Theorems *)

(** C5. Every call is answered in the next message.  Whatever was saved after it, each
    assistant message of a request that makes calls is followed at once by a user message
    with a result for every one of them; the assistant messages are those of the history, in
    order; no block is lost, and exactly the calls no result was saved for before the next
    assistant message get the error result; and an answered history is left as it is. *)
Theorem every_call_is_answered h :
  let out := answer_unfinished_tool_calls h in
  (∀ pre m post, out = app pre (m :: post) → is_assistant m = true → tool_calls (content m) ≠ [] →
     ∃ n post', post = n :: post' ∧ role n = "user"
       ∧ ∀ id, id ∈ tool_calls (content m) → id ∈ tool_results (content n))
  ∧ List.filter is_assistant out = List.filter is_assistant h
  ∧ all_blocks out ≡ₚ app (all_blocks h) (map unfinished_result (unanswered h))
  ∧ answer_unfinished_tool_calls out = out.
Proof.
  cbn zeta. conjs.
  - intros pre m post E Hm Hne. destruct (answer_unfinished_answers h pre m post E Hm Hne) as (n & post' & -> & Hn & ?).
    apply bool_decide_eq_true_1 in Hn. eauto.
  - apply answer_unfinished_assistants.
  - apply answer_unfinished_blocks.
  - apply answer_unfinished_idemp.
Qed.

End Runs.

Lemma max_i64_spec (l : list Z) :
  match max_i64 l with Some x => x ∈ l ∧ ∀ y, y ∈ l → (y ≤ x)%Z | None => l = [] end.
Proof.
  unfold max_i64.
  assert (∀ l best, match fold_left (λ best x, Some (match best with Some b => Z.max b x | None => x end)) l best with
     | Some x => (x ∈ l ∨ best = Some x) ∧ (∀ y, y ∈ l → (y ≤ x)%Z) ∧ (∀ b, best = Some b → (b ≤ x)%Z)
     | None => l = [] ∧ best = None end) as H.
  { clear l. induction l as [|y l IH]; intros best; cbn.
    - destruct best; [|done]. conjs; [by right|by intros ? ?%not_elem_of_nil|by intros ? [= ->]].
    - specialize (IH (Some (match best with Some b => Z.max b y | None => y end))).
      destruct (fold_left _ l _) as [x|]; [|by destruct IH].
      destruct IH as (Hin & Hl & Hb). specialize (Hb _ eq_refl). conjs.
      + destruct Hin as [?|[= Hin]]; [left; by right|]. destruct best as [b|]; [|left; subst; left].
        destruct (Z.max_spec b y) as [[_ Hm]|[_ Hm]]; rewrite Hm in Hin; subst; [left; left|by right].
      + intros z [->|Hz]%elem_of_cons; [destruct best; lia|auto].
      + intros b ->. lia. }
  specialize (H l None). destruct (fold_left _ l None) as [x|]; [|tauto].
  destruct H as ([?|?] & ? & _); [by split|done].
Qed.

Section Request.
Context {V E : Type}.
Variable parse_blocks : string → Result (list (ContentBlock V)) E.
Implicit Types (b : ContentBlock V) (m : AnthropicMessage V) (p : Parsed (V := V)) (parsed : list (Parsed (V := V))).

(** A block the Messages API knows. *)
Definition request_block b : Prop :=
  match b with CompactionSummary _ _ _ | CompactionPlaceholder _ => False | _ => True end.
(** A name the provider takes: 1 to 128 letters, digits, underscores and dashes. *)
Definition provider_name (name : string) : Prop :=
  (1 ≤ String.length name ≤ MAX_TOOL_NAME)%nat ∧ all_bytes is_name_char name = true.
(** The name a call saved under [saved] is sent by: its own, where the provider takes it or
    it is no MCP tool's, and otherwise the safe one its tool is offered by. *)
Definition sent_name (saved name : string) : Prop :=
  name = saved ∧ (provider_name saved ∨ parse_tool_name saved = None)
  ∨ ¬ provider_name saved ∧ provider_name name
    ∧ ∃ server tool, parse_tool_name saved = Some (server, tool) ∧ name = namespaced_tool_name server tool.

(** What [p]'s message sends: its blocks, stripped and translated. *)
Definition sent_blocks (through : option Z) p : list (ContentBlock V) :=
  content (message_for_request through p).

Lemma block_for_request_ok b : request_block (block_for_request b).
Proof. by destruct b. Qed.
Lemma fits_provider name : fits_tool_name name = true ↔ provider_name name.
Proof. unfold fits_tool_name, provider_name. rewrite !andb_true_iff, !Nat.leb_le. tauto. Qed.
Lemma sent_safe_name saved : sent_name saved (safe_tool_name saved).
Proof.
  unfold sent_name, safe_tool_name. rewrite <- !fits_provider. destruct (fits_tool_name saved) eqn:Hfits; [left; auto|].
  destruct (parse_tool_name saved) as [[server tool]|]; [right|left; auto].
  split_and!; [done|apply fits_provider, namespaced_tool_name_fits|by exists server, tool].
Qed.
Lemma strip_thinking_call id name input (bs : list (ContentBlock V)) : ToolUse id name input ∈ strip_thinking bs → ToolUse id name input ∈ bs.
Proof.
  unfold strip_thinking. set (l := omap _ bs). intros Hin. assert (ToolUse id name input ∈ l) as Hl.
  { destruct l; [|done]. by apply list_elem_of_singleton in Hin. }
  apply list_elem_of_omap in Hl as (b & Hb & Hs). destruct b; cbn in Hs; try (by simplify_eq). all: by repeat case_match.
Qed.
Lemma sent_call through p id name input : ToolUse id name input ∈ sent_blocks through p →
  ∃ saved, ToolUse id saved input ∈ snd p ∧ sent_name saved name.
Proof.
  destruct p as [[i r] bs]. unfold sent_blocks. cbn [content message_for_request snd].
  intros (b & Hb & Hin)%list_elem_of_fmap. destruct b; try done. injection Hb as -> -> ->. eexists. split; [|apply sent_safe_name].
  unfold strip_foreign_thinking in Hin. destruct (strips through i); [|done]. by apply strip_thinking_call.
Qed.

Lemma block_for_request_thinking b : is_thinking (block_for_request b) = is_thinking b.
Proof. by destruct b. Qed.

Lemma without_blank_reply_Some m m' :
  without_blank_reply m = Some m' →
  role m' = role m ∧ (is_assistant m = false → m' = m)
  ∧ (is_assistant m = true → content m' = without_blank_text (content m) ∧ content m' ≠ []).
Proof.
  unfold without_blank_reply. destruct (is_assistant m); [|by intros [= ->]].
  destruct (without_blank_text (content m)) as [|b bs]; [done|]. intros [= <-]. by conjs.
Qed.

(** A parsed message the history keeps, and what is sent of it. *)
Lemma kept_messages through boundary parsed m :
  m ∈ omap without_blank_reply (map (message_for_request through) (List.filter (after_boundary boundary) parsed)) ↔
  ∃ p, p ∈ parsed ∧ after_boundary boundary p = true ∧ without_blank_reply (message_for_request through p) = Some m.
Proof.
  rewrite list_elem_of_omap. split.
  - intros (m0 & Hm0 & E0). apply list_elem_of_fmap in Hm0 as (p & -> & Hp).
    apply elem_list_filter in Hp as [Hp Hb]. eauto.
  - intros (p & Hp & Hb & E0). eexists. split; [|exact E0]. apply list_elem_of_fmap. exists p. split; [done|].
    by apply elem_list_filter.
Qed.

Lemma elem_all_blocks b (h : list (AnthropicMessage V)) : b ∈ all_blocks h ↔ ∃ m, m ∈ h ∧ b ∈ content m.
Proof.
  unfold all_blocks. rewrite list_elem_of_In, in_concat. split.
  - intros (bs & Hbs%list_elem_of_In & Hb%list_elem_of_In). apply list_elem_of_fmap in Hbs as (m & -> & ?). eauto.
  - intros (m & Hm & Hb). exists (content m). rewrite <- !list_elem_of_In. split; [|done].
    apply list_elem_of_fmap. eauto.
Qed.

Lemma elem_covers parsed (c : Z) :
  c ∈ omap covers (concat (map snd parsed)) ↔ ∃ p s r, p ∈ parsed ∧ CompactionSummary s c r ∈ snd p.
Proof.
  rewrite list_elem_of_omap. split.
  - intros (b & Hb & Hc). apply list_elem_of_In, in_concat in Hb as (bs & Hbs & Hb).
    apply list_elem_of_In in Hbs, Hb. apply list_elem_of_fmap in Hbs as (p & -> & Hp).
    destruct b; try done. injection Hc as ->. eauto.
  - intros (p & s & r & Hp & Hb). exists (CompactionSummary s c r). split; [|done]. apply list_elem_of_In, in_concat.
    exists (snd p). rewrite <- !list_elem_of_In. split; [|done]. apply list_elem_of_fmap. eauto.
Qed.

(** A message is past the latest boundary when it is past every summary's. *)
Lemma after_boundary_spec parsed p :
  after_boundary (latest_boundary parsed) p = true ↔
  ∀ q s c r, q ∈ parsed → CompactionSummary s c r ∈ snd q → (c < fst (fst p))%Z.
Proof.
  unfold latest_boundary. pose proof (max_i64_spec (omap covers (concat (map snd parsed)))) as Hmax.
  destruct (max_i64 _) as [x|]; cbn.
  - destruct Hmax as [Hin Hmax]. rewrite bool_decide_eq_true. split.
    + intros Hx q s c r Hq Hb. assert (c ≤ x)%Z; [|lia]. apply Hmax, elem_covers. eauto.
    + intros Hall. apply elem_covers in Hin as (q & s & r & Hq & Hb). eauto.
  - split; [|done]. intros _ q s c r Hq Hb. exfalso. apply (not_elem_of_nil c). rewrite <- Hmax. apply elem_covers. eauto.
Qed.

Lemma kept_blocks_from through parsed b :
  b ∈ all_blocks (omap without_blank_reply
        (map (message_for_request through) (List.filter (after_boundary (latest_boundary parsed)) parsed))) →
  ∃ p, p ∈ parsed ∧ after_boundary (latest_boundary parsed) p = true ∧ b ∈ sent_blocks through p.
Proof.
  intros Hb. apply elem_all_blocks in Hb as (m & Hm & Hb). apply kept_messages in Hm as (p & Hpin & Hpb & E0).
  exists p. conjs; [done..|]. apply without_blank_reply_Some in E0 as (_ & Hu & Ha). unfold sent_blocks.
  destruct (is_assistant (message_for_request through p)) eqn:Hr; [|by rewrite <- Hu].
  destruct Ha as [Ha _]; [done|]. rewrite Ha in Hb. by apply elem_list_filter in Hb as [? _].
Qed.

(** C39. What a request sends is what the provider takes.  Rebuilding fails exactly when
    some saved message doesn't parse, with such a message's error; otherwise every block
    sent is one the API knows; each call sent is a saved one, under its own name or, where
    that is an MCP tool's the provider wouldn't take, under the name it would (a name that
    is neither goes as it was saved); no reply sent is empty or
    holds blank text; each block sent is the error result of an unanswered call or comes
    from a message past the latest summary's boundary; thinking comes only from messages
    past the one another model's was stripped through; and every block of a user message
    past the boundary is sent. *)
Theorem request_is_well_typed (messages : list Message) (through : option Z) :
  match collect_results (parse_message parse_blocks) messages with
  | Err e => history_for_request parse_blocks messages through = Err e ∧ ∃ row, row ∈ messages ∧ blocks parse_blocks row = Err e
  | Ok parsed =>
      ∃ out, history_for_request parse_blocks messages through = Ok out
      ∧ Forall request_block (all_blocks out)
      ∧ (∀ id name input, ToolUse id name input ∈ all_blocks out →
           ∃ p saved, p ∈ parsed ∧ ToolUse id saved input ∈ snd p ∧ sent_name saved name)
      ∧ (∀ m, m ∈ out → is_assistant m = true → content m ≠ [] ∧ Forall (λ b, is_blank_text b = false) (content m))
      ∧ (∀ b, b ∈ all_blocks out →
           (∃ id, b = unfinished_result id)
           ∨ ∃ p, p ∈ parsed ∧ b ∈ sent_blocks through p
               ∧ (∀ q s c r, q ∈ parsed → CompactionSummary s c r ∈ snd q → (c < fst (fst p))%Z)
               ∧ (is_thinking b = true → ∀ t, through = Some t → (t < fst (fst p))%Z))
      ∧ (∀ p, p ∈ parsed → snd (fst p) = "user" →
           (∀ q s c r, q ∈ parsed → CompactionSummary s c r ∈ snd q → (c < fst (fst p))%Z) →
           ∀ b, b ∈ sent_blocks through p → b ∈ all_blocks out)
  end.
Proof.
  unfold history_for_request. destruct (collect_results _ messages) as [parsed|e] eqn:Hp; cbn [and_then].
  2:{ split; [done|]. apply collect_results_Err in Hp as (m & Hm & E0). exists m. split; [done|].
      unfold parse_message in E0. destruct (blocks parse_blocks m); cbn in E0; congruence. }
  eexists. split; [done|].
  set (kept := omap _ _). pose proof (answer_unfinished_blocks kept) as Hperm.
  pose proof (after_boundary_spec parsed) as Hboundary. pose proof (kept_blocks_from through parsed) as Hfrom.
  conjs.
  - rewrite Hperm. apply Forall_app. split; [|by apply Forall_forall; intros b (? & -> & _)%list_elem_of_fmap].
    apply Forall_forall. intros b Hb. apply Hfrom in Hb as ([[id r] bs] & _ & _ & Hb).
    apply list_elem_of_fmap in Hb as (b0 & -> & _). apply block_for_request_ok.
  - intros id name input Hb. rewrite Hperm in Hb. apply elem_of_app in Hb as [Hb|(? & ? & _)%list_elem_of_fmap]; [|done].
    apply Hfrom in Hb as (p & Hpin & _ & (saved & Hs & Hn)%sent_call). by exists p, saved.
  - intros m Hm Hr.
    assert (m ∈ List.filter is_assistant (answer_unfinished_tool_calls kept)) as Hf by by apply elem_list_filter.
    rewrite answer_unfinished_assistants in Hf. apply elem_list_filter in Hf as [Hf _].
    apply kept_messages in Hf as (p & _ & _ & E0). apply without_blank_reply_Some in E0 as (Er & _ & Ha).
    destruct Ha as [Ec Hne]; [unfold is_assistant in *; by rewrite <- Er|]. split; [done|]. rewrite Ec.
    apply Forall_forall. intros b Hb. apply elem_list_filter in Hb as [_ Hb]. by apply negb_true_iff.
  - intros b Hb. rewrite Hperm in Hb. apply elem_of_app in Hb as [Hb|(id & -> & _)%list_elem_of_fmap]; [right|left; eauto].
    apply Hfrom in Hb as (p & Hpin & Hpb & Hb). exists p. conjs; [done|done|by apply Hboundary|].
    intros Ht t ->. destruct p as [[id r] bs]. cbn in *. apply list_elem_of_fmap in Hb as (b0 & -> & Hb0).
    rewrite block_for_request_thinking in Ht. apply Z.lt_nge. intros Hle. rewrite bool_decide_eq_true_2 in Hb0 by done.
    pose proof (strip_thinking_no_thinking bs) as Hn. rewrite Forall_forall in Hn. rewrite (Hn b0) in Ht; done.
  - intros p Hpin Hr Hb b Hbin. rewrite Hperm. apply elem_of_app. left. apply elem_all_blocks.
    exists (message_for_request through p). split; [|done]. apply kept_messages. exists p. conjs; [done|by apply Hboundary|].
    unfold without_blank_reply. destruct p as [[id r] bs]. cbn in Hr. subst r. done.
Qed.
End Request.
