(* ===== verification/Providers.v ===== *)
(** * Providers: a turn's model, and the window smelt believes it has

    [src/src/providers.rs], [src/src/providers/server/] and the statements of
    [src/src/db/providers.rs] that keep a model's windows: what a turn knows of its model,
    the thinking a request carries, the cap on a reply, the context window a turn uses, and
    the learned window's life (saved, disproved, forgotten).

    The database is the two tables those statements read and write, keyed as their primary
    keys are; the JSON of a llama.cpp server's [/props] is read by a parameter.  Times aren't
    modelled. *)

From S2P Require Import Prelude RustStr Json Types Limiter.
Local Open Scope string_scope.
Local Open Scope Z_scope.

Definition ASSUMED_CONTEXT_WINDOW : Z := 200000.
Definition UNKNOWN_OUTPUT_CAP : Z := 16384.
Definition I32_MAX : Z := 2147483647.

Inductive ProviderKind := Anthropic | Ollama | LlamaCpp | Other | ClaudeCli.
#[export] Instance ProviderKind_eq_dec : EqDecision ProviderKind.
Proof. solve_decision. Defined.

Definition ProviderKind_ALL : list ProviderKind := [Anthropic; Ollama; LlamaCpp; Other; ClaudeCli].
Definition kind_as_str (k : ProviderKind) : string :=
  match k with
  | Anthropic => "anthropic" | Ollama => "ollama" | LlamaCpp => "llama_cpp" | Other => "other"
  | ClaudeCli => "claude_cli"
  end.
Definition kind_parse (value : string) : option ProviderKind :=
  List.find (λ k, bool_decide (kind_as_str k = value)) ProviderKind_ALL.
Definition is_http (k : ProviderKind) : bool := negb (bool_decide (k = ClaudeCli)).

(** [i32] columns hold a count; only a positive one counts. *)
Definition positive (value : option Z) : option Z :=
  v ← value; if bool_decide (0 < v) then Some v else None.
Arguments positive : simpl never.
(** [u32 → i32], [None] when it doesn't fit. *)
Definition to_column (value : option Z) : option Z :=
  v ← value; if bool_decide (v ≤ I32_MAX) then Some v else None.

(** [LlamaServerInfo]'s fields a turn reads. *)
Record LlamaServerInfo := { total_slots : option Z; template_caps : list (string * bool) }.
Definition cap_is_on (name : string) (caps : LlamaServerInfo) : bool :=
  match List.find (λ p, bool_decide (fst p = name)) (template_caps caps) with
  | Some (_, on) => on
  | None => false
  end.
Definition supports_reasoning_effort : LlamaServerInfo → bool := cap_is_on "supports_reasoning_effort".
Definition supports_preserve_reasoning : LlamaServerInfo → bool := cap_is_on "supports_preserve_reasoning".
Definition LLAMA_CPP_EFFORTS : list Effort := [Low; Medium; High].

(** ** The thinking a request carries *)

Record TemplateSettings := { template_effort : option Effort; template_preserve_thinking : option bool }.
Definition default_template : TemplateSettings := Build_TemplateSettings None None.

(** What a turn knows of its model; its endpoint and price source aren't read here. *)
Record TurnModel := {
  provider_id : Z;
  base_url : string;
  turn_model : string;
  thinking : bool;
  turn_prompt_caching : bool;
  turn_effort : option Effort;
  kind : ProviderKind;
  output_cap : option Z;
  reasoning_cap : option Z;
  output_cap_is_models_own : bool;
  template : option TemplateSettings;
  context_window : Z;
  thinking_stripped_through : option Z;
  adaptive_thinking : bool;
}.
#[export] Instance TurnModel_eta : Eta TurnModel := λ m,
  Build_TurnModel (provider_id m) (base_url m) (turn_model m) (thinking m) (turn_prompt_caching m) (turn_effort m)
    (kind m) (output_cap m) (reasoning_cap m) (output_cap_is_models_own m) (template m) (context_window m)
    (thinking_stripped_through m) (adaptive_thinking m).

Definition REASONING_SHARE : Z * Z := (3, 4).
Definition MIN_THINKING_BUDGET : Z := 1024.
Definition MIN_ANSWER_TOKENS : Z := 4096.

(** The [u64] product cast back to [u32]: [thinking_within_its_budget] shows it fits. *)
Definition reasoning_budget (reply_budget : Z) (cap : option Z) : Z :=
  let '(share, of_) := REASONING_SHARE in
  let automatic := (reply_budget * share / of_) `mod` 4294967296 in
  let budget := Z.min automatic (sat_sub reply_budget MIN_ANSWER_TOKENS) in
  match cap with Some cap => Z.min budget cap | None => budget end.

Definition turn_thinking_config (m : TurnModel) (reply_budget : Z) : option ThinkingConfig :=
  if negb (thinking m) then None
  else
    let budget := reasoning_budget reply_budget (reasoning_cap m) in
    match kind m with
    | LlamaCpp => if bool_decide (budget = 0) then None else Some (Enabled budget)
    | _ =>
        if negb (adaptive_thinking m) then
          if bool_decide (MIN_THINKING_BUDGET ≤ budget) then Some (Enabled budget) else None
        else Some Adaptive
    end.

Definition turn_template_kwargs (m : TurnModel) (thinking_on : bool) : option ChatTemplateKwargs :=
  if negb (bool_decide (kind m = LlamaCpp)) then None
  else
    let t := default default_template (template m) in
    let kwargs :=
      Build_ChatTemplateKwargs (if negb thinking_on then Some false else None)
        (if thinking_on then template_effort t else None) (template_preserve_thinking t) in
    if kwargs_is_empty kwargs then None else Some kwargs.

(** ** The rows *)

Record InferenceProvider := {
  provider_kind : string;
  provider_base_url : string;
  provider_prompt_caching : bool;
  keep_reasoning : bool;
  server_caps_json : option string;
  max_concurrent_requests : option Z;
}.

Record ProviderModelRow := {
  row_thinking : option bool;
  row_context_window : option Z;
  reported_context_window : option Z;
  reported_thinking : option bool;
  row_effort : option string;
  row_max_output : option Z;
  reported_max_output : option Z;
  row_reasoning_budget : option Z;
  reported_adaptive_thinking : option bool;
  learned_context_window : option Z;
  learned_reason : option string;
  learned_conversation : option Z;
}.
#[export] Instance ProviderModelRow_eta : Eta ProviderModelRow := λ r,
  Build_ProviderModelRow (row_thinking r) (row_context_window r) (reported_context_window r) (reported_thinking r)
    (row_effort r) (row_max_output r) (reported_max_output r) (row_reasoning_budget r) (reported_adaptive_thinking r)
    (learned_context_window r) (learned_reason r) (learned_conversation r).
(** A row an [INSERT] that names only the key makes. *)
Definition empty_row : ProviderModelRow :=
  Build_ProviderModelRow None None None None None None None None None None None None.

Section Rows.
(** [serde_json::from_value::<LlamaServerInfo>] of the stored column. *)
Variable parse_caps : string → option LlamaServerInfo.

Definition server_caps (p : InferenceProvider) : option LlamaServerInfo := json ← server_caps_json p; parse_caps json.

Definition template_settings (p : InferenceProvider) (row : option ProviderModelRow) : TemplateSettings :=
  match server_caps p with
  | None => default_template
  | Some caps =>
      Build_TemplateSettings
        (r ← row; text ← row_effort r; effort ← effort_parse text;
         if bool_decide (effort ∈ LLAMA_CPP_EFFORTS) && supports_reasoning_effort caps then Some effort else None)
        (if supports_preserve_reasoning caps then Some (keep_reasoning p) else None)
  end.

Definition resolved_max (p : InferenceProvider) : option Z :=
  n ← max_concurrent_requests p;
  n ← (if bool_decide (n = 0) then caps ← server_caps p; total_slots caps
       else if bool_decide (0 ≤ n) then Some n else None);
  if bool_decide (0 < n) then Some n else None.

Definition context_window_for (model : string) : option Z :=
  if starts_with "claude-" model then Some 200000 else None.

(** [Option::or]. *)
Definition or_else {A} (o p : option A) : option A := match o with Some x => Some x | None => p end.

(** The window a turn uses, and whether anything sized it. *)
Definition believed_window (model : string) (row : option ProviderModelRow) : Z * bool :=
  match or_else
    (r ← row; or_else (positive (row_context_window r))
               (or_else (positive (learned_context_window r)) (positive (reported_context_window r))))
    (context_window_for model) with
  | Some window => (window, true)
  | None => (ASSUMED_CONTEXT_WINDOW, false)
  end.

Definition reply_cap (k : ProviderKind) (model : string) (row : option ProviderModelRow) : option Z :=
  let reported := r ← row; positive (reported_max_output r) in
  let users :=
    users ← (r ← row; positive (row_max_output r));
    Some (match k, reported with Anthropic, Some reported => Z.min users reported | _, _ => users end) in
  or_else users (or_else reported
    (if match k with Anthropic | Other => true | _ => false end || negb (snd (believed_window model row))
     then Some UNKNOWN_OUTPUT_CAP else None)).

Definition thinks (row : option ProviderModelRow) : bool :=
  default true (r ← row; or_else (row_thinking r) (reported_thinking r)).

(** [resolve_once] once its rows are read. *)
Definition turn_model_of (id : Z) (model : string) (p : InferenceProvider) (row : option ProviderModelRow)
    (stripped_through : option Z) : TurnModel :=
  let k := default Other (kind_parse (provider_kind p)) in
  let reported := r ← row; positive (reported_max_output r) in
  Build_TurnModel id (provider_base_url p) model (thinks row) (provider_prompt_caching p)
    (match k with
     | Anthropic | ClaudeCli => r ← row; text ← row_effort r; effort_parse text
     | _ => None
     end)
    k (reply_cap k model row) (r ← row; positive (row_reasoning_budget r))
    (bool_decide (k = Anthropic) && is_some reported && bool_decide (reported = reply_cap k model row))
    (if bool_decide (k = LlamaCpp) then Some (template_settings p row) else None)
    (fst (believed_window model row)) stripped_through
    (negb (bool_decide ((r ← row; reported_adaptive_thinking r) = Some false))).
End Rows.

(** ** The learned window's statements *)

Record Db := { providers : gmap Z InferenceProvider; models : gmap (Z * string) ProviderModelRow }.
#[export] Instance Db_eta : Eta Db := λ d, Build_Db (providers d) (models d).

(** [EXISTS (SELECT 1 FROM inference_providers WHERE id = $1 AND base_url = $4)]. *)
Definition answers_at (db : Db) (id : Z) (url : string) : bool :=
  match providers db !! id with Some p => bool_decide (provider_base_url p = url) | None => false end.

(** The [COALESCE] of the guard: the window a save has to be under. *)
Definition guard_window (row : ProviderModelRow) (unsized : Z) : Z :=
  default unsized (or_else (positive (learned_context_window row))
    (or_else (positive (row_context_window row)) (positive (reported_context_window row)))).

Inductive WindowSource := Refusal | WindowStop | OllamaPs.
Definition source_as_str (s : WindowSource) : string :=
  match s with Refusal => "refusal" | WindowStop => "window_stop" | OllamaPs => "ollama_ps" end.

(** [db::save_learned_context_window]: whether it wrote a row. *)
Definition save_learned_context_window (id : Z) (url model : string) (window : Z) (reason : string)
    (conversation unsized : Z) (db : Db) : bool * Db :=
  let window := Z.min window I32_MAX in
  let unsized := Z.min unsized I32_MAX in
  let row := default empty_row (models db !! (id, model)) in
  if answers_at db id url && bool_decide (window < guard_window row unsized) then
    (true, db <| models ::= <[(id, model) := row <| learned_context_window := Some window |>
        <| learned_reason := Some reason |> <| learned_conversation := Some conversation |>]> |>)
  else (false, db).

(** The four learned columns set to [NULL]. *)
Definition forget_learned (row : ProviderModelRow) : ProviderModelRow :=
  row <| learned_context_window := None |> <| learned_reason := None |> <| learned_conversation := None |>.

(** [db::clear_learned_context_window]. *)
Definition clear_learned_context_window (id : Z) (model : string) (db : Db) : bool * Db :=
  match models db !! (id, model) with
  | Some row =>
      if is_some (learned_context_window row)
      then (true, db <| models ::= <[(id, model) := forget_learned row]> |>) else (false, db)
  | None => (false, db)
  end.

(** [db::clear_learned_context_window_below]. *)
Definition clear_learned_context_window_below (id : Z) (url model : string) (measured : Z) (db : Db) : bool * Db :=
  match models db !! (id, model) with
  | Some row =>
      match learned_context_window row with
      | Some learned =>
          if bool_decide (learned < measured) && answers_at db id url
          then (true, db <| models ::= <[(id, model) := forget_learned row]> |>) else (false, db)
      | None => (false, db)
      end
  | None => (false, db)
  end.

(** [providers::learn_context_window]. *)
Definition learn_context_window (m : TurnModel) (window : Z) (source : WindowSource) (conversation : Z) : Db → bool * Db :=
  save_learned_context_window (provider_id m) (base_url m) (turn_model m) window (source_as_str source) conversation
    (fst (believed_window (turn_model m) None)).

(** The size of a whole call: the sum of its usage, saturating as an [i64]. *)
Definition measured_call (u : TokenUsage) : Z :=
  i64_sat_add (i64_sat_add (i64_sat_add (input_tokens u) (output_tokens u)) (cache_creation_input_tokens u))
    (cache_read_input_tokens u).

(** [providers::learned_window_beaten]; a failed statement is swallowed, so it changes nothing. *)
Definition learned_window_beaten (m : TurnModel) (u : TokenUsage) (db : Db) : Db :=
  snd (clear_learned_context_window_below (provider_id m) (base_url m) (turn_model m) (measured_call u) db).

(** ** A model's settings *)

Definition token_count (value : option Z) (min : Z) (error : string) : Result (option Z) string :=
  match value with
  | None => Ok None
  | Some n => if bool_decide (n ≤ I32_MAX) && bool_decide (min ≤ n) then Ok (Some n) else Err error
  end.

Record ModelSettings := {
  set_thinking : option bool; set_context_window : option Z; set_effort : option Effort;
  set_max_output : option Z; set_reasoning_budget : option Z;
}.

(** [db::set_provider_model_overrides]. *)
Definition set_provider_model_overrides (id : Z) (model : string) (thinking : option bool) (context_window : option Z)
    (effort : option string) (max_output reasoning : option Z) (db : Db) : Db :=
  let row := default empty_row (models db !! (id, model)) in
  db <| models ::= <[(id, model) := row <| row_thinking := thinking |> <| row_context_window := context_window |>
        <| row_effort := effort |> <| row_max_output := max_output |> <| row_reasoning_budget := reasoning |>]> |>.

(** [set_model_settings], of a provider that exists. *)
Definition set_model_settings (id : Z) (model : string) (s : ModelSettings) (db : Db) : Result Db string :=
  let model := trim model in
  if bool_decide (model = "") then Err "Enter the model's id."
  else
    let? context_window := token_count (set_context_window s) 1024 "A context window is a number of tokens, at least 1024." in
    let? max_output := token_count (set_max_output s) 1024 "Max reply tokens is a number of tokens, at least 1024." in
    let? reasoning := token_count (set_reasoning_budget s) 1 "A reasoning budget is a number of tokens, at least 1." in
    Ok (set_provider_model_overrides id model (set_thinking s) context_window (effort_as_str <$> set_effort s)
          max_output reasoning db).

(** ** Lemmas *)

Lemma reasoning_budget_small reply_budget cap :
  is_u32 reply_budget →
  reasoning_budget reply_budget cap
  = match cap with
    | Some cap => Z.min (Z.min (reply_budget * 3 / 4) (sat_sub reply_budget 4096)) cap
    | None => Z.min (reply_budget * 3 / 4) (sat_sub reply_budget 4096)
    end.
Proof.
  intros H. unfold reasoning_budget, REASONING_SHARE, MIN_ANSWER_TOKENS.
  rewrite (Z.mod_small (reply_budget * 3 / 4)); [done|]. zlia.
Qed.

Lemma positive_Some v w : positive v = Some w ↔ v = Some w ∧ 0 < w.
Proof. unfold positive. destruct v; cbn; [|naive_solver]. case_bool_decide; naive_solver. Qed.

Lemma believed_user model row u :
  positive (row_context_window row) = Some u → believed_window model (Some row) = (u, true).
Proof. intros H. unfold believed_window. cbn. by rewrite H. Qed.

(** Without the user's own window, the guard of a save is the window believed. *)
Lemma guard_is_belief model row :
  positive (row_context_window row) = None →
  guard_window row (fst (believed_window model None)) = fst (believed_window model (Some row)).
Proof.
  intros H. unfold guard_window, believed_window. cbn. rewrite H. cbn.
  destruct (positive (learned_context_window row)), (positive (reported_context_window row)), (context_window_for model);
    done.
Qed.

Lemma unsized_fits model : Z.min (fst (believed_window model None)) I32_MAX = fst (believed_window model None).
Proof. unfold believed_window, context_window_for. by destruct (starts_with "claude-" model). Qed.

(** ** Theorems *)

(** Thinking fits its reply.  Whatever a reply's budget, the [u64] arithmetic doesn't
    wrap; a thinking budget sent is positive, at most three quarters of the reply's and the
    user's cap, leaves at least 4,096 tokens to answer in, and is at least the 1,024 the API
    takes unless the server is llama.cpp; adaptive thinking goes only to a model that takes
    it; and no thinking is sent exactly when it's off or its budget would be too small, which
    a llama.cpp template is then told. *)
Theorem thinking_within_its_budget m reply_budget :
  is_u32 reply_budget → (∀ c, reasoning_cap m = Some c → is_u32 c) →
  match turn_thinking_config m reply_budget with
  | Some (Enabled b) =>
      thinking m = true ∧ 0 < b ∧ 4 * b ≤ 3 * reply_budget ∧ b + MIN_ANSWER_TOKENS ≤ reply_budget
      ∧ (∀ c, reasoning_cap m = Some c → b ≤ c) ∧ (kind m ≠ LlamaCpp → adaptive_thinking m = false ∧ 1024 ≤ b)
  | Some Adaptive => thinking m = true ∧ kind m ≠ LlamaCpp ∧ adaptive_thinking m = true
  | None =>
      (thinking m = false
       ∨ kind m = LlamaCpp ∧ (reply_budget ≤ 4096 ∨ reasoning_cap m = Some 0)
       ∨ kind m ≠ LlamaCpp ∧ adaptive_thinking m = false
         ∧ (reply_budget < 5120 ∨ ∃ c, reasoning_cap m = Some c ∧ c < 1024))
      ∧ (kind m = LlamaCpp → enable_thinking <$> turn_template_kwargs m false = Some (Some false))
  end.
Proof.
  intros Hr Hc. unfold turn_thinking_config. rewrite reasoning_budget_small by done.
  set (b := match reasoning_cap m with Some _ => _ | None => _ end).
  assert (kind m = LlamaCpp → enable_thinking <$> turn_template_kwargs m false = Some (Some false)) as Ht.
  { intros Hk. unfold turn_template_kwargs. rewrite Hk, bool_decide_eq_true_2 by done. cbn.
    unfold kwargs_is_empty. by rewrite bool_decide_eq_false_2. }
  assert (0 ≤ b ∧ 4 * b ≤ 3 * reply_budget ∧ (0 < b → b + 4096 ≤ reply_budget)
    ∧ (∀ c, reasoning_cap m = Some c → b ≤ c)
    ∧ (b = 0 → reply_budget ≤ 4096 ∨ reasoning_cap m = Some 0)
    ∧ (b < 1024 → reply_budget < 5120 ∨ ∃ c, reasoning_cap m = Some c ∧ c < 1024)) as (Hb0 & Hb1 & Hb2 & Hb3 & Hb4 & Hb5).
  { subst b. unfold is_u32, sat_sub in *. destruct (reasoning_cap m) as [c|] eqn:Ec.
    - specialize (Hc c eq_refl). pose proof (Z.div_mod (reply_budget * 3) 4 ltac:(lia)).
      pose proof (Z.mod_pos_bound (reply_budget * 3) 4 ltac:(lia)). conjs; try lia.
      + intros ? [= ->]. lia.
      + intros Hb. destruct (decide (c = 0)) as [->|]; [by right|]. left. lia.
      + intros Hb. destruct (decide (c < 1024)); [right; eauto|]. left. lia.
    - pose proof (Z.div_mod (reply_budget * 3) 4 ltac:(lia)).
      pose proof (Z.mod_pos_bound (reply_budget * 3) 4 ltac:(lia)). conjs; try lia; try done; intros; left; lia. }
  clearbody b. unfold MIN_THINKING_BUDGET, MIN_ANSWER_TOKENS in *.
  destruct (thinking m); cbn; [|by auto].
  assert (∀ (A B : option ThinkingConfig),
    match kind m with LlamaCpp => A | _ => B end = if bool_decide (kind m = LlamaCpp) then A else B) as ->
    by (intros A B; by destruct (kind m)).
  case_bool_decide as Hk.
  - case_bool_decide as Hz; [split; [right; left; auto|done]|]. conjs; [done|lia|lia|apply Hb2; lia|done|done].
  - destruct (adaptive_thinking m) eqn:Ea; [by conjs|]. cbn. case_bool_decide as Hz.
    + conjs; [done|lia|lia|apply Hb2; lia|done|done].
    + split; [|done]. right. right. conjs; [done|done|apply Hb5; lia].
Qed.

(** Learning only lowers the window believed.  A window a learner saves is written, for
    this model only and in the learned columns only, exactly when the provider still answers
    at the turn's address and the window is under the one that counts; the belief never
    rises by it, becomes that window when the user set none, and is the user's own window
    whenever they set one, before and after; a call that filled more than the learned window
    forgets it, and nothing else. *)
Theorem learning_only_lowers m window source conversation db :
  0 < window →
  let row d := models d !! (provider_id m, turn_model m) in
  let believed d := fst (believed_window (turn_model m) (row d)) in
  let '(wrote, after) := learn_context_window m window source conversation db in
  (wrote = true ↔ answers_at db (provider_id m) (base_url m) = true
     ∧ Z.min window I32_MAX < guard_window (default empty_row (row db)) (fst (believed_window (turn_model m) None)))
  ∧ (wrote = false → after = db)
  ∧ believed after ≤ believed db
  ∧ (wrote = true → (positive (r ← row db; row_context_window r) = None → believed after = Z.min window I32_MAX)
      ∧ (forget_learned <$> row after) = Some (forget_learned (default empty_row (row db))))
  ∧ (∀ u, positive (r ← row db; row_context_window r) = Some u → believed db = u ∧ believed after = u)
  ∧ (∀ k, k ≠ (provider_id m, turn_model m) → models after !! k = models db !! k)
  ∧ (∀ u, row (learned_window_beaten m u db) = row db
       ∨ row (learned_window_beaten m u db) = forget_learned <$> row db
         ∧ ∃ r l, row db = Some r ∧ learned_context_window r = Some l ∧ l < measured_call u).
Proof.
  intros Hw. cbn zeta. unfold learn_context_window, save_learned_context_window. rewrite unsized_fits.
  set (key := (provider_id m, turn_model m)). set (r0 := default empty_row (models db !! key)).
  assert (fst (believed_window (turn_model m) (models db !! key)) = fst (believed_window (turn_model m) (Some r0))) as Hr0.
  { subst r0. by destruct (models db !! key). }
  assert ((r ← models db !! key; row_context_window r) = row_context_window r0) as Hu0.
  { subst r0. by destruct (models db !! key). }
  assert (∀ u, models (learned_window_beaten m u db) !! key = models db !! key
       ∨ models (learned_window_beaten m u db) !! key = forget_learned <$> models db !! key
         ∧ ∃ r l, models db !! key = Some r ∧ learned_context_window r = Some l ∧ l < measured_call u) as Hbeaten.
  { intros u. unfold learned_window_beaten, clear_learned_context_window_below. fold key.
    destruct (models db !! key) as [r|] eqn:E; [|left; exact E].
    destruct (learned_context_window r) as [l|] eqn:El; [|left; exact E].
    destruct (bool_decide (l < measured_call u)) eqn:Hlt; [|left; exact E]. cbn.
    destruct (answers_at _ _ _); [|left; exact E]. right. cbn. rewrite lookup_insert_eq.
    apply bool_decide_eq_true_1 in Hlt. split; [done|eauto]. }
  rewrite Hu0, Hr0.
  destruct (answers_at _ _ _ && _) eqn:Hc.
  - apply andb_true_iff in Hc as [? Hlt]. apply bool_decide_eq_true_1 in Hlt. cbn. rewrite lookup_insert_eq. cbn.
    set (w := Z.min window I32_MAX) in *. assert (0 < w) by (subst w; unfold I32_MAX; lia).
    assert (positive (Some w) = Some w) as Hpos by by apply positive_Some.
    conjs; [done|done| | | | |done].
    + unfold believed_window at 1. cbn. rewrite Hpos. destruct (positive (row_context_window r0)) as [u|] eqn:Eu; cbn.
      * by rewrite (believed_user _ _ u Eu).
      * rewrite <- guard_is_belief by done. lia.
    + intros _. split; [|done]. intros Hn. unfold believed_window. cbn. by rewrite Hn, Hpos.
    + intros u Eu. rewrite (believed_user _ _ u Eu). split; [done|]. by rewrite (believed_user _ _ u).
    + intros k Hk. by rewrite lookup_insert_ne.
  - conjs; try done.
    + split; [done|]. intros [H1 H2]. rewrite H1, bool_decide_eq_true_2 in Hc; done.
    + by rewrite Hr0.
    + intros u Eu. by rewrite Hr0, (believed_user _ _ u Eu).
Qed.

(** ** Witnesses *)

Definition sample_model : TurnModel :=
  Build_TurnModel 1 "http://localhost" "m" true false None Anthropic (Some 16384) None false None 200000 None false.
Definition sample_provider : InferenceProvider := Build_InferenceProvider "anthropic" "http://localhost" false false None None.
Definition sample_db : Db := Build_Db {[1 := sample_provider]} ∅.

Lemma thinking_within_its_budget_witness :
  turn_thinking_config sample_model 16384 = Some (Enabled 12288) ∧ 12288 + MIN_ANSWER_TOKENS ≤ 16384.
Proof.
  split; [reflexivity|].
  pose proof (thinking_within_its_budget sample_model 16384 ltac:(unfold is_u32, U32_MAX; lia) ltac:(done)) as H.
  change (turn_thinking_config sample_model 16384) with (Some (Enabled 12288)) in H. apply H.
Defined.

Lemma learning_only_lowers_witness :
  let '(wrote, after) := learn_context_window sample_model 32768 Refusal 7 sample_db in
  wrote = true ∧ fst (believed_window "m" (models after !! (1, "m"))) = 32768.
Proof.
  pose proof (learning_only_lowers sample_model 32768 Refusal 7 sample_db ltac:(done)) as H. cbn zeta in H.
  destruct (learn_context_window sample_model 32768 Refusal 7 sample_db) as [wrote after] eqn:E.
  destruct H as (Hw & _ & _ & Hb & _). assert (wrote = true) as -> by (apply Hw; split; [vm_compute; reflexivity|vm_compute; reflexivity]).
  split; [done|]. destruct (Hb eq_refl) as [H _]. apply H. vm_compute. reflexivity.
Defined.
