(* ===== verification/Overflow.v ===== *)
(** * Overflow: what a turn learns of its model's window

    [src/src/turn/overflow.rs]: which stops mean the window ran out, what a stopped reply
    measured and when that is evidence enough to learn a window from, the repetition tell,
    and Ollama's quiet truncation.  The repeat evidence ([WINDOW_STOP_CANDIDATES]) is a map
    the learner reads and writes; the statements are those of [Providers], on a database
    that answers; the spans the decisions are traced on aren't modelled, the decisions are. *)

From S2P Require Import Prelude RustStr Json Types Providers.
Local Open Scope string_scope.
Local Open Scope Z_scope.

Definition WINDOW_STOP_SLACK : Z := 64.
Definition MIN_PLAUSIBLE_WINDOW : Z := 1024.
Definition WINDOW_STOP_MARGIN : Z := 4096.
Definition MIN_WINDOW_STOP_OUTPUT : Z := 32.
Definition DEGENERATE_TAIL_TOKENS : nat := 40.
Definition DEGENERATE_REPEATS : nat := 24.
Definition OLLAMA_CHECK_MIN_ESTIMATE : Z := 8192.

Definition window_stop (k : ProviderKind) (stop_reason : string) (written budget : Z) : bool :=
  if bool_decide (stop_reason = "model_context_window_exceeded") then true
  else if bool_decide (stop_reason = "max_tokens") then
    bool_decide (k = LlamaCpp) && bool_decide (0 < written) && bool_decide (i64_add written WINDOW_STOP_SLACK < budget)
  else false.

Definition reported_per_request (reported : option Z) (k : ProviderKind) (slots : option Z) : option Z :=
  reported ← positive reported;
  match k, slots with
  | LlamaCpp, Some slots => Some (if bool_decide (1 < slots) then reported / slots else reported)
  | _, _ => Some reported
  end.

Definition stop_reads_plausible (measured : Z) (reported : option Z) : bool :=
  match reported with Some w => bool_decide (Z.abs (measured - w) ≤ WINDOW_STOP_MARGIN) | None => false end.

(** ** The repetition tell *)

Definition is_ascii_punctuation (c : string) : bool :=
  match c with
  | String a "" => byte_in 33 47 a || byte_in 58 64 a || byte_in 91 96 a || byte_in 123 126 a
  | _ => false
  end.

(** [text.split(f)] over characters. *)
Fixpoint split_chars (f : string → bool) (chars : list string) : list string :=
  match chars with
  | [] => [""]
  | c :: chars =>
      match split_chars f chars with
      | piece :: pieces => if f c then "" :: piece :: pieces else (c +:+ piece) :: pieces
      | [] => [c]
      end
  end.

Definition reply_words (text : string) : list string :=
  List.filter (λ t, negb (bool_decide (t = "")))
    (split_chars (λ c, is_blank c || is_ascii_punctuation c) (str_chars text)).

(** [tail.iter().any(...)] over the counts so far. *)
Fixpoint repeats_in (counts : gmap string nat) (tail : list string) : bool :=
  match tail with
  | [] => false
  | t :: tail =>
      let n := S (default 0%nat (counts !! t)) in
      if (DEGENERATE_REPEATS <=? n)%nat then true else repeats_in (<[t := n]> counts) tail
  end.

Definition reply_tail (text : string) : list string :=
  let words := reply_words text in drop (length words - DEGENERATE_TAIL_TOKENS) words.
Definition looks_degenerate (text : string) : bool := repeats_in ∅ (reply_tail text).

Definition reply_text {V} (content : list (ContentBlock V)) : string :=
  join " " (omap (λ b, match b with Text text => Some text | _ => None end) content).

(** ** Learning *)

(** [learn_as]: the window named, the turn's copy and the database after. *)
Definition learn_as (m : TurnModel) (window : option Z) (source : WindowSource) (conversation : Z) (db : Db)
    : option Z * TurnModel * Db :=
  match window with
  | None => (None, m, db)
  | Some window =>
      let m := if bool_decide (window < context_window m) then m <| context_window := window |> else m in
      (Some window, m, snd (learn_context_window m window source conversation db))
  end.

(** [learn]: a refusal's. *)
Definition learn (m : TurnModel) (window : option Z) (conversation : Z) (db : Db) : option Z * TurnModel * Db :=
  learn_as m window Refusal conversation db.

Inductive Decision := IgnoredShort | IgnoredDegenerate | NotPlausible | Learned | Candidate | TurnOnly.

(** [WINDOW_STOP_CANDIDATES]: by provider and model, the size and the turn that measured it. *)
Notation Candidates := (gmap (Z * string) (Z * Z)).

Section Learning.
Context {V : Type}.
Variable parse_caps : string → option LlamaServerInfo.
Implicit Types (content : list (ContentBlock V)).

(** [reported_per_request_for]'s second answer. *)
Definition reported_per_request_for (m : TurnModel) (db : Db) : option Z :=
  let reported := row ← models db !! (provider_id m, turn_model m); positive (reported_context_window row) in
  let slots :=
    if bool_decide (kind m = LlamaCpp)
    then p ← providers db !! provider_id m; caps ← server_caps parse_caps p; total_slots caps
    else None in
  reported_per_request reported (kind m) slots.

(** A stop is the repeat of an earlier turn's. *)
Definition is_repeat (candidates : Candidates) (m : TurnModel) (stop_turn measured : Z) : bool :=
  match candidates !! (provider_id m, turn_model m) with
  | Some (prev, prev_turn) =>
      negb (bool_decide (prev_turn = stop_turn)) && bool_decide (Z.abs (prev - measured) ≤ WINDOW_STOP_MARGIN)
  | None => false
  end.

Definition learn_window_stop (stop_turn : Z) (m : TurnModel) (usage : TokenUsage) content (stop_reason : string)
    (conversation : Z) (candidates : Candidates) (db : Db) : Decision * TurnModel * Candidates * Db :=
  let measured := measured_call usage in
  let window := default U32_MAX (u32_try_from measured) in
  if bool_decide (output_tokens usage < MIN_WINDOW_STOP_OUTPUT) then (IgnoredShort, m, candidates, db)
  else if looks_degenerate (reply_text content) then (IgnoredDegenerate, m, candidates, db)
  else if bool_decide (measured < MIN_PLAUSIBLE_WINDOW) then (NotPlausible, m, candidates, db)
  else
    let per_request := reported_per_request_for m db in
    let key := (provider_id m, turn_model m) in
    let save := bool_decide (stop_reason = "model_context_window_exceeded") || stop_reads_plausible measured per_request in
    let '(repeats, candidates) :=
      if save || is_repeat candidates m stop_turn measured then (true, delete key candidates)
      else (false, <[key := (measured, stop_turn)]> candidates) in
    if repeats then
      let '(_, m, db) := learn_as m (Some window) WindowStop conversation db in (Learned, m, candidates, db)
    else if is_some per_request then (Candidate, m, candidates, db)
    else (TurnOnly, m <| context_window ::= λ w, Z.min w window |>, candidates, db).

Definition ollama_tell_says_truncated (estimate measured : Z) : bool :=
  bool_decide (OLLAMA_CHECK_MIN_ESTIMATE ≤ estimate) && bool_decide (measured < estimate / 2).

(** [learn_ollama_window]: [loaded] is what [/api/ps] answers, [None] when it can't be asked. *)
Definition learn_ollama_window (m : TurnModel) (estimate : Z) (usage : TokenUsage) (loaded : option Z)
    (conversation : Z) (db : Db) : TurnModel * Db :=
  let measured :=
    Z.max 0 (i64_sat_add (i64_sat_add (input_tokens usage) (cache_creation_input_tokens usage))
               (cache_read_input_tokens usage)) in
  if negb (bool_decide (kind m = Ollama)) then (m, db)
  else if negb (ollama_tell_says_truncated estimate measured) then (m, db)
  else
    match loaded with
    | Some window =>
        if bool_decide (window < context_window m)
        then let '(_, m, db) := learn_as m (Some window) OllamaPs conversation db in (m, db)
        else (m, db)
    | None => (m, db)
    end.

(** ** Stops, in the order they happen *)

Record Stop := { stop_turn : Z; stop_model : TurnModel; stop_usage : TokenUsage;
                 stop_content : list (ContentBlock V); stop_reason : string; stop_conversation : Z }.

Definition stop_step (s : Candidates * Db) (e : Stop) : Decision * TurnModel * Candidates * Db :=
  learn_window_stop (stop_turn e) (stop_model e) (stop_usage e) (stop_content e) (stop_reason e) (stop_conversation e)
    (fst s) (snd s).

Definition run_stops (stops : list Stop) (s : Candidates * Db) : Candidates * Db :=
  fold_left (λ s e, let '(_, _, cs, db) := stop_step s e in (cs, db)) stops s.

(** A stop that measured something: a real reply, not a loop, of a plausible size. *)
Definition is_evidence (e : Stop) : Prop :=
  MIN_WINDOW_STOP_OUTPUT ≤ output_tokens (stop_usage e)
  ∧ looks_degenerate (reply_text (stop_content e)) = false
  ∧ MIN_PLAUSIBLE_WINDOW ≤ measured_call (stop_usage e).

Definition stop_key (e : Stop) : Z * string := (provider_id (stop_model e), turn_model (stop_model e)).

(** ** Lemmas *)

Lemma repeats_in_spec tail (counts : gmap string nat) :
  (∀ t, (default 0%nat (counts !! t) < DEGENERATE_REPEATS)%nat) →
  repeats_in counts tail = true ↔
  ∃ t, t ∈ tail ∧ (DEGENERATE_REPEATS ≤ default 0%nat (counts !! t) + length (filter (t =.) tail))%nat.
Proof.
  revert counts. induction tail as [|t tail IH]; intros counts Hc; cbn [repeats_in].
  - split; [done|]. by intros (t & ?%not_elem_of_nil & _).
  - cbn zeta. destruct (DEGENERATE_REPEATS <=? S (default 0 (counts !! t)))%nat eqn:E.
    + split; [intros _|done]. apply Nat.leb_le in E. exists t. split; [left|]. rewrite filter_cons_True by done. cbn. lia.
    + apply Nat.leb_gt in E. rewrite IH.
      2:{ intros u. destruct (decide (t = u)) as [->|]; [by rewrite lookup_insert_eq|by rewrite lookup_insert_ne]. }
      split.
      * intros (u & Hu & Hn). exists u. split; [by right|]. destruct (decide (t = u)) as [->|].
        -- rewrite lookup_insert_eq in Hn. rewrite filter_cons_True by done. cbn in *. lia.
        -- rewrite lookup_insert_ne in Hn by done. by rewrite filter_cons_False by done.
      * intros (u & Hu & Hn). destruct (decide (t = u)) as [->|Hne].
        -- rewrite filter_cons_True in Hn by done. cbn in Hn. exists u. rewrite lookup_insert_eq. cbn. split; [|lia].
           destruct (filter (u =.) tail) as [|v l] eqn:Ef; [cbn in Hn; lia|].
           assert (v ∈ filter (u =.) tail) as Hv by (rewrite Ef; left).
           apply list_elem_of_filter in Hv as [<- ?]. done.
        -- apply elem_of_cons in Hu as [->|Hu]; [done|]. exists u. rewrite lookup_insert_ne by done.
           rewrite filter_cons_False in Hn by done. by split.
Qed.

Lemma looks_degenerate_spec text :
  looks_degenerate text = true ↔
  ∃ t, t ∈ reply_tail text ∧ (DEGENERATE_REPEATS ≤ length (filter (t =.) (reply_tail text)))%nat.
Proof. unfold looks_degenerate. rewrite repeats_in_spec; [done|]. intros t. rewrite lookup_empty. cbn. unfold DEGENERATE_REPEATS. lia. Qed.

Lemma learn_as_lowers m window source conversation db :
  let '(_, m', _) := learn_as m window source conversation db in
  context_window m' ≤ context_window m ∧ (∀ w, window = Some w → context_window m' ≤ w).
Proof.
  unfold learn_as. destruct window as [w|]; [|done]. case_bool_decide; cbn; split; try lia; intros ? [= ->]; lia.
Qed.

(** Every candidate is an earlier stop that measured something. *)
Definition candidates_from (stops : list Stop) (cs : Candidates) : Prop :=
  ∀ key size turn, cs !! key = Some (size, turn) →
    ∃ e, e ∈ stops ∧ stop_key e = key ∧ stop_turn e = turn ∧ measured_call (stop_usage e) = size ∧ is_evidence e.

Lemma stop_step_candidates stops e s :
  candidates_from stops (fst s) →
  let '(_, _, cs, _) := stop_step s e in candidates_from (app stops [e]) cs.
Proof.
  intros Hc. destruct s as [cs db]. cbn in Hc. unfold stop_step, learn_window_stop. cbn zeta.
  assert (candidates_from (app stops [e]) cs) as Hkeep.
  { intros k size turn Hk. destruct (Hc k size turn Hk) as (e' & ? & ?). exists e'. split; [apply elem_of_app; by left|done]. }
  destruct (bool_decide (output_tokens _ < _)) eqn:E1; [done|]. destruct (looks_degenerate _) eqn:E2; [done|].
  destruct (bool_decide (measured_call _ < _)) eqn:E3; [done|]. bool_to_prop.
  destruct (_ || is_repeat _ _ _ _).
  - cbn. intros k size turn Hk. apply lookup_delete_Some in Hk as [_ Hk]. by apply Hkeep.
  - assert (candidates_from (app stops [e]) (<[stop_key e := (measured_call (stop_usage e), stop_turn e)]> cs)) as Hnew.
    { intros k size turn Hk. apply lookup_insert_Some in Hk as [(<- & [= <- <-])|[_ Hk]]; [|by apply Hkeep].
      exists e. conjs; [apply elem_of_app; right; left|done|done|done|unfold is_evidence; conjs; [lia|done|lia]]. }
    by destruct (is_some _).
Qed.

Lemma run_stops_candidates stops db : candidates_from stops (fst (run_stops stops (∅, db))).
Proof.
  induction stops as [|e stops IH] using rev_ind; [intros k ? ? Hk; unfold run_stops in Hk; cbn in Hk; by rewrite lookup_empty in Hk|].
  unfold run_stops in *. rewrite fold_left_app. cbn.
  pose proof (stop_step_candidates stops e _ IH) as H. by destruct (stop_step _ e) as [[[? ?] ?] ?].
Qed.

(** ** Theorems *)

(** A window stop teaches only on evidence.  After any stops of any turns, one more is
    learned from only when it measured something itself (at least 32 tokens written, a
    plausible size, and not a loop of one word filling 24 of the last 40) and either the
    server said its window was full, or the size is within the margin of what the server
    reports per request, or an earlier stop of another turn on the same provider and model,
    which measured something too, was within the margin of it.  Any other stop leaves every
    row as it was; and no stop raises the turn's own window. *)
Theorem stops_teach_on_evidence (before : list Stop) (db0 : Db) (e : Stop) :
  let s := run_stops before (∅, db0) in
  let '(decision, m', _, db') := stop_step s e in
  context_window m' ≤ context_window (stop_model e)
  ∧ (decision = Learned →
      is_evidence e
      ∧ (stop_reason e = "model_context_window_exceeded"
         ∨ (∃ w, reported_per_request_for (stop_model e) (snd s) = Some w
              ∧ Z.abs (measured_call (stop_usage e) - w) ≤ WINDOW_STOP_MARGIN)
         ∨ (∃ e', e' ∈ before ∧ is_evidence e' ∧ stop_key e' = stop_key e ∧ stop_turn e' ≠ stop_turn e
              ∧ Z.abs (measured_call (stop_usage e') - measured_call (stop_usage e)) ≤ WINDOW_STOP_MARGIN)))
  ∧ (decision ≠ Learned → db' = snd s)
  ∧ (looks_degenerate (reply_text (stop_content e)) = true ↔
       ∃ t, t ∈ reply_tail (reply_text (stop_content e))
          ∧ (24 ≤ length (filter (t =.) (reply_tail (reply_text (stop_content e)))))%nat).
Proof.
  cbn zeta. pose proof (run_stops_candidates before db0) as Hc. destruct (run_stops before (∅, db0)) as [cs db].
  cbn in Hc. pose proof (looks_degenerate_spec (reply_text (stop_content e))) as Hdeg.
  unfold stop_step, learn_window_stop. cbn zeta.
  destruct (bool_decide (output_tokens _ < _)) eqn:E1; [by conjs|].
  destruct (looks_degenerate (reply_text (stop_content e))) eqn:E2; [by conjs|].
  destruct (bool_decide (measured_call _ < _)) eqn:E3; [by conjs|]. bool_to_prop.
  destruct (_ || is_repeat _ _ _ _) eqn:Es.
  - pose proof (learn_as_lowers (stop_model e) (Some (default U32_MAX (u32_try_from (measured_call (stop_usage e)))))
      WindowStop (stop_conversation e) db) as Hl.
    cbn zeta. destruct (learn_as _ _ _ _ _) as [[? m'] db']. destruct Hl as [Hl _].
    split; [exact Hl|]. split; [intros _|done].
    split; [unfold is_evidence; conjs; [lia|done|lia]|]. apply orb_true_iff in Es as [[Es|Es]%orb_true_iff|Es].
    + left. by apply bool_decide_eq_true_1 in Es.
    + right. left. unfold stop_reads_plausible in Es. destruct (reported_per_request_for _ _) as [w|]; [|done].
      exists w. split; [done|]. by apply bool_decide_eq_true_1 in Es.
    + right. right. unfold is_repeat in Es. cbn [fst] in Es.
      destruct (cs !! (provider_id (stop_model e), turn_model (stop_model e))) as [[prev turn]|] eqn:Ek; [|done].
      apply andb_true_iff in Es as [Et Em]. bool_to_prop.
      destruct (Hc _ _ _ Ek) as (e' & ? & Hk & <- & <- & ?). exists e'. by conjs.
  - destruct (is_some _); cbn; (conjs; [lia|done|done|done]).
Qed.
End Learning.
