(* ===== verification/Questions.v ===== *)
(** * Questions: what [ask_user] asks, and what its card answers

    [src/src/questions.rs]: reading a call's questions against the limits, checking the
    card's answers, and wording the result the model gets.  [serde]'s derived reader and the
    [{:?}] of a string, which escapes by Unicode's tables, are parameters. *)

From S2P Require Import Prelude RustStr Json.
Local Open Scope string_scope.

Definition ASK_USER : string := "ask_user".
(** [agents::ASK_PARENT]. *)
Definition ASK_PARENT : string := "ask_parent".
Definition MAX_QUESTIONS : nat := 4.
Definition MAX_HEADER_CHARS : nat := 30.
Definition MIN_OPTIONS : nat := 2.
Definition MAX_OPTIONS : nat := 4.

Record QuestionOption := { label : string; option_description : option string }.
Record Question := { question : string; header : string; options : list QuestionOption; multi_select : bool }.
Record QuestionAnswer := { selected : list string; other : option string }.

Section Questions.
Context {V : Type} `{Json V}.
(** [serde_json::from_value::<Vec<Question>>], its error as text. *)
Variable read_questions : V → Result (list Question) string.
(** [format!] of a [str] with [{:?}]. *)
Variable debug_str : string → string.

(** The first [j] whose label an earlier option has. *)
Fixpoint repeated_label (before : list string) (options : list QuestionOption) : option string :=
  match options with
  | [] => None
  | o :: options =>
      if bool_decide (label o ∈ before) then Some (label o) else repeated_label (before ++ [label o])%list options
  end.

(** The loop's body for the [n]th question, from 1. *)
Definition check_question (n : nat) (q : Question) : option string :=
  if is_blank (question q) then Some ("question " +:+ pretty n +:+ " has an empty question")
  else if is_blank (header q) then Some ("question " +:+ pretty n +:+ " has an empty header")
  else if (MAX_HEADER_CHARS <? chars_count (header q))%nat
  then Some ("question " +:+ pretty n +:+ "'s header is longer than " +:+ pretty MAX_HEADER_CHARS +:+ " characters")
  else if negb (bool_decide (options q = []))
          && negb ((MIN_OPTIONS <=? length (options q))%nat && (length (options q) <=? MAX_OPTIONS)%nat)
  then Some ("question " +:+ pretty n +:+ " offers " +:+ pretty (length (options q)) +:+ " options: offer "
             +:+ pretty MIN_OPTIONS +:+ " to " +:+ pretty MAX_OPTIONS +:+ ", or none for free text")
  else if existsb (λ o, is_blank (label o)) (options q)
  then Some ("question " +:+ pretty n +:+ " has an option with an empty label")
  else match repeated_label [] (options q) with
       | Some repeated =>
           Some ("question " +:+ pretty n +:+ "'s option labels must be unique (" +:+ debug_str repeated +:+ " repeats)")
       | None =>
           if multi_select q && bool_decide (options q = [])
           then Some ("question " +:+ pretty n +:+ " sets multi_select but offers no options") else None
       end.

Fixpoint check_questions (n : nat) (qs : list Question) : option string :=
  match qs with
  | [] => None
  | q :: qs => match check_question n q with Some e => Some e | None => check_questions (S n) qs end
  end.

Definition parse_questions (input : V) : Result (list Question) string :=
  match json_get input "questions" with
  | None => Err "missing field: questions"
  | Some questions =>
      let? qs := map_err (λ e, "invalid questions: " +:+ e) (read_questions questions) in
      if bool_decide (qs = []) || (MAX_QUESTIONS <? length qs)%nat
      then Err ("ask 1 to " +:+ pretty MAX_QUESTIONS +:+ " questions in one call (got " +:+ pretty (length qs) +:+ ")")
      else match check_questions 1 qs with Some e => Err e | None => Ok qs end
  end.

(** What was written in "Other", if anything was. *)
Definition wrote (a : QuestionAnswer) : option string :=
  t ← other a; if is_blank t then None else Some (trim t).

Definition check_answer (q : Question) (a : QuestionAnswer) : option string :=
  match List.find (λ l, negb (existsb (λ o, bool_decide (label o = l)) (options q))) (selected a) with
  | Some l => Some (debug_str l +:+ " isn't one of the choices for " +:+ debug_str (header q))
  | None =>
      if negb (multi_select q) && (1 <? length (selected a))%nat then Some ("choose one option for " +:+ debug_str (header q))
      else if bool_decide (selected a = []) && negb (is_some (wrote a))
      then Some ("choose or write an answer for " +:+ debug_str (header q))
      else None
  end.

Fixpoint check_answers (pairs : list (Question * QuestionAnswer)) : option string :=
  match pairs with
  | [] => None
  | (q, a) :: pairs => match check_answer q a with Some e => Some e | None => check_answers pairs end
  end.

Definition validate_answers (qs : list Question) (answers : list QuestionAnswer) : Result unit string :=
  if negb (length answers =? length qs)%nat
  then Err ("answer all " +:+ pretty (length qs) +:+ " questions (got " +:+ pretty (length answers) +:+ " answers)")
  else match check_answers (zip qs answers) with Some e => Err e | None => Ok () end.

(** The words for one answer. *)
Definition answer_text (a : QuestionAnswer) : string :=
  match bool_decide (selected a = []), wrote a with
  | false, Some text => join ", " (selected a) +:+ "; they also wrote: " +:+ debug_str text
  | false, None => join ", " (selected a)
  | true, Some text => "they wrote: " +:+ debug_str text
  | true, None => "no answer"
  end.

Fixpoint answer_lines (n : nat) (pairs : list (Question * QuestionAnswer)) : list string :=
  match pairs with
  | [] => []
  | (q, a) :: pairs => (pretty n +:+ ". " +:+ header q +:+ ": " +:+ answer_text a) :: answer_lines (S n) pairs
  end.

Definition answered_result (qs : list Question) (answers : list QuestionAnswer) : string :=
  fold_left (λ result line, result +:+ String newline line) (answer_lines 1 (zip qs answers)) "The user answered:".

(** ** What the checks accept *)

Definition question_ok (q : Question) : Prop :=
  is_blank (question q) = false ∧ is_blank (header q) = false ∧ (chars_count (header q) ≤ MAX_HEADER_CHARS)%nat
  ∧ (options q = [] ∨ (MIN_OPTIONS ≤ length (options q) ≤ MAX_OPTIONS)%nat)
  ∧ Forall (λ o, is_blank (label o) = false) (options q)
  ∧ NoDup (map label (options q))
  ∧ (multi_select q = true → options q ≠ []).

Definition answer_ok (q : Question) (a : QuestionAnswer) : Prop :=
  (∀ l, l ∈ selected a → l ∈ map label (options q))
  ∧ (multi_select q = false → (length (selected a) ≤ 1)%nat)
  ∧ (selected a ≠ [] ∨ ∃ t, other a = Some t ∧ is_blank t = false).

(** ** Lemmas *)

Lemma repeated_label_None before os :
  NoDup before → repeated_label before os = None ↔ NoDup (before ++ map label os)%list.
Proof.
  revert before. induction os as [|o os IH]; intros before Hb; cbn.
  - by rewrite app_nil_r.
  - case_bool_decide as Ho.
    + split; [done|]. intros (_ & Hd & _)%NoDup_app. exfalso. apply (Hd (label o)); [done|left].
    + rewrite IH, <- app_assoc; [done|]. apply NoDup_app. conjs; [done| |apply NoDup_singleton].
      intros x Hx ->%list_elem_of_singleton. done.
Qed.

Lemma check_question_None n q : check_question n q = None ↔ question_ok q.
Proof.
  unfold check_question, question_ok.
  destruct (is_blank (question q)); [split; [done|by intros (? & _)]|].
  destruct (is_blank (header q)); [split; [done|by intros (_ & ? & _)]|].
  destruct (_ <? _)%nat eqn:Eh; [apply Nat.ltb_lt in Eh; split; [done|intros (_ & _ & ? & _); lia]|].
  apply Nat.ltb_ge in Eh.
  destruct (negb _ && negb _) eqn:Eo.
  { apply andb_true_iff in Eo as [En Er]. bool_to_prop. split; [done|]. intros (_ & _ & _ & Hr & _). exfalso.
    destruct Hr as [|[]]; [done|]. destruct Er as [Er|Er]; apply Nat.leb_gt in Er; lia. }
  destruct (existsb _ _) eqn:Eb.
  { split; [done|]. intros (_ & _ & _ & _ & Hf & _). apply existsb_exists in Eb as (o & Ho & Hb).
    rewrite Forall_forall in Hf. apply list_elem_of_In in Ho. by rewrite Hf in Hb. }
  assert (Forall (λ o, is_blank (label o) = false) (options q)) as Hf.
  { apply Forall_forall. intros o Ho. apply not_true_iff_false. intros Hb.
    apply not_true_iff_false in Eb. apply Eb, existsb_exists. exists o. by rewrite <- list_elem_of_In. }
  assert (options q = [] ∨ (MIN_OPTIONS ≤ length (options q) ≤ MAX_OPTIONS)%nat) as Hr.
  { apply andb_false_iff in Eo as [Eo|Eo]; bool_to_prop; [by left|right]. rewrite !Nat.leb_le in *. lia. }
  pose proof (repeated_label_None [] (options q) ltac:(constructor)) as Hrep. cbn in Hrep.
  destruct (repeated_label [] (options q)) as [r|].
  { split; [done|]. intros (_ & _ & _ & _ & _ & Hd & _). by apply Hrep in Hd. }
  destruct (multi_select q && _) eqn:Em.
  - apply andb_true_iff in Em as [Em Eo']. bool_to_prop. split; [done|]. intros (_ & _ & _ & _ & _ & _ & Hm). by destruct (Hm Em).
  - split; [intros _|done]. conjs; [done..|by apply Hrep|]. intros Hm. rewrite Hm in Em. cbn in Em. by bool_to_prop.
Qed.

Lemma check_questions_None n qs : check_questions n qs = None ↔ Forall question_ok qs.
Proof.
  revert n. induction qs as [|q qs IH]; intros n; cbn; [done|].
  rewrite Forall_cons, <- (check_question_None n), <- (IH (S n)). destruct (check_question n q); naive_solver.
Qed.

Lemma wrote_Some a : is_some (wrote a) = true ↔ ∃ t, other a = Some t ∧ is_blank t = false.
Proof. unfold wrote. destruct (other a) as [t|]; cbn; [|naive_solver]. destruct (is_blank t) eqn:E; naive_solver. Qed.

Lemma find_none_iff {A} (f : A → bool) l : List.find f l = None ↔ ∀ x, x ∈ l → f x = false.
Proof.
  split; [intros Hn x Hx; apply (List.find_none f l Hn), list_elem_of_In, Hx|]. intros Hl.
  destruct (List.find f l) as [x|] eqn:E; [|done]. apply List.find_some in E as [Hx Hf].
  rewrite Hl in Hf; [done|by apply list_elem_of_In].
Qed.

Lemma check_answer_None q a : check_answer q a = None ↔ answer_ok q a.
Proof.
  unfold check_answer, answer_ok.
  pose proof (find_none_iff (λ l, negb (existsb (λ o, bool_decide (label o = l)) (options q))) (selected a)) as Hfind.
  assert (∀ l, negb (existsb (λ o, bool_decide (label o = l)) (options q)) = false ↔ l ∈ map label (options q)) as Hin.
  { intros l. rewrite negb_false_iff, existsb_exists, list_elem_of_fmap. setoid_rewrite bool_decide_eq_true.
    setoid_rewrite <- list_elem_of_In. naive_solver. }
  setoid_rewrite Hin in Hfind.
  destruct (List.find _ _) as [l|]; [split; [done|]; intros (Hs & _); by apply Hfind in Hs|].
  assert (∀ l, l ∈ selected a → l ∈ map label (options q)) as Hs by by apply Hfind.
  destruct (negb (multi_select q) && _) eqn:Em.
  { apply andb_true_iff in Em as [Em El]. apply Nat.ltb_lt in El. bool_to_prop. split; [done|].
    intros (_ & Hm & _). specialize (Hm Em). lia. }
  destruct (bool_decide (selected a = []) && _) eqn:Ew.
  - apply andb_true_iff in Ew as [E1 E2]. bool_to_prop. split; [done|]. intros (_ & _ & [?|Hw]); [done|].
    apply wrote_Some in Hw. congruence.
  - split; [intros _|done]. conjs; [done| |].
    + intros Hm. rewrite Hm in Em. cbn [negb andb] in Em. apply Nat.ltb_ge in Em. lia.
    + apply andb_false_iff in Ew as [Ew|Ew]; bool_to_prop; [by left|right]. by apply wrote_Some.
Qed.

Lemma check_answers_None qs answers :
  length answers = length qs → check_answers (zip qs answers) = None ↔ Forall2 answer_ok qs answers.
Proof.
  revert answers. induction qs as [|q qs IH]; intros [|a answers]; cbn; try done; intros [= Hl].
  rewrite Forall2_cons, <- check_answer_None, <- IH by done. destruct (check_answer q a); naive_solver.
Qed.

(** ** Theorems *)

(** A question asked is one the card can show and its answer one the model can read.
    [parse_questions] accepts exactly the calls whose [questions] field reads as one to four
    questions within every limit (their text and header not blank, the header at most 30
    characters, no options or two to four, with distinct labels that aren't blank, and
    multi-select only with options), and gives them as read; [validate_answers] accepts
    exactly one answer per question, of offered labels, at most one unless multi-select,
    with something chosen or written; and the result of accepted answers has a line for
    each question, none of which says there was no answer. *)
Theorem questions_are_checked (input : V) (qs : list Question) (answers : list QuestionAnswer) :
  (parse_questions input = Ok qs ↔
     ∃ v, json_get input "questions" = Some v ∧ read_questions v = Ok qs
       ∧ (1 ≤ length qs ≤ MAX_QUESTIONS)%nat ∧ Forall question_ok qs)
  ∧ (validate_answers qs answers = Ok () ↔ Forall2 answer_ok qs answers)
  ∧ (validate_answers qs answers = Ok () →
       length (answer_lines 1 (zip qs answers)) = length qs
       ∧ Forall (λ a, selected a ≠ [] ∨ is_some (wrote a) = true) answers).
Proof.
  assert (validate_answers qs answers = Ok () ↔ Forall2 answer_ok qs answers) as Hv.
  { unfold validate_answers. destruct (length answers =? length qs)%nat eqn:El; cbn.
    - apply Nat.eqb_eq in El. rewrite <- check_answers_None by done. destruct (check_answers _); naive_solver.
    - apply Nat.eqb_neq in El. split; [done|]. intros Hf%Forall2_length. congruence. }
  conjs; [|done|].
  - unfold parse_questions. destruct (json_get input "questions") as [v|]; [|naive_solver].
    destruct (read_questions v) as [qs'|e] eqn:Er; cbn [map_err and_then].
    2:{ split; [done|]. intros (v' & [= <-] & Er' & _). congruence. }
    destruct (bool_decide (qs' = []) || _) eqn:Eq.
    + split; [done|]. intros (v' & [= <-] & Er' & Hl & _). rewrite Er in Er'. injection Er' as ->.
      apply orb_true_iff in Eq as [Eq|Eq]; bool_to_prop; [by subst; cbn [length] in Hl; lia|]. apply Nat.ltb_lt in Eq. lia.
    + apply orb_false_iff in Eq as [En El]. apply Nat.ltb_ge in El. bool_to_prop.
      pose proof (check_questions_None 1 qs') as Hc. destruct (check_questions 1 qs').
      * split; [done|]. intros (v' & [= <-] & Er' & _ & Hf). rewrite Er in Er'. injection Er' as ->. by apply Hc in Hf.
      * split.
        -- intros [= <-]. exists v. conjs; [done|done| |done|by apply Hc]. destruct qs'; [done|]. cbn [length] in *. lia.
        -- intros (v' & [= <-] & Er' & _). congruence.
  - rewrite Hv. intros Hf. split.
    + clear Hv. generalize 1%nat. induction Hf as [|q a qs' as' _ _ IH]; intros n; [done|]. cbn. by rewrite IH.
    + clear Hv. induction Hf as [|q a qs' as' (_ & _ & Ha) _ IH]; constructor; [|done].
      destruct Ha as [?|Ha]; [by left|right]. by apply wrote_Some.
Qed.
End Questions.
