(* ===== verification/CompactText.v ===== *)
(** * CompactText: what a compaction puts in place of a conversation

    [src/src/turn/compaction.rs] and [src/src/turn/compaction_transcript.rs]: the transcript
    the summarization call reads, held to its budget; the user's and the parent's own words
    and the unanswered messages a continuation quotes, held to theirs; and the three messages
    that replace the history.

    Lengths are in characters, as the code counts them ([chars_count]).  The parser of a
    message's content is a parameter, as in [Models]. *)

From S2P Require Import Prelude RustStr Json Types Models Notices Providers Budget Questions History.
Local Open Scope string_scope.

(** [s.chars().count()], as a [usize]. *)
Definition chars (s : string) : Z := Z.of_nat (chars_count s).

(** [text.chars().take(max).collect()]. *)
Definition first_chars (text : string) (max : Z) : string := take_chars (Z.to_nat max) text.

(** [s.chars().skip(n)]: a continuation byte goes with the character dropped before it. *)
Fixpoint skip_chars (n : nat) (s : string) : string :=
  match s with
  | EmptyString => EmptyString
  | String a s' =>
      if is_continuation a then skip_chars n s' else match n with O => s | S n => skip_chars n s' end
  end.

(** [fetch_guard::truncate]. *)
Definition truncate (text : string) (max : Z) : string * bool :=
  if bool_decide (max < chars text)%Z then (first_chars text max, true) else (text, false).

Definition COMPACTION_PLACEHOLDER_PROMPT : string := "Summarize the conversation so far.".
Definition COMPACTION_CONTINUATION_PROMPT : string := "Continue based on the summary above.".
Definition SUMMARY_COVERS_THE_REST : string := "; the summary covers the rest".
Definition QUOTE_SEPARATOR : string :=
  String newline (String newline ("---" +:+ String newline (String newline ""))).
Definition blank_line : string := String newline (String newline "").
Definition CONTINUATION_TYPED_MAX_CHARS : Z := 12000.
Definition CONTINUATION_QUOTE_MAX_CHARS : Z := 4000.
Definition SUMMARY_MAX_TOKENS : Z := 2048.
Definition THINKING_ROOM : Z := 4096.

Definition quote_to (text : string) (max : Z) (rest : string) : string :=
  match truncate text max with
  | (kept, true) =>
      kept +:+ String newline "[cut to its first " +:+ show_unsigned max +:+ " characters" +:+ rest +:+ "]"
  | (whole, false) => whole
  end.

Definition quote (text : string) : string := quote_to text CONTINUATION_QUOTE_MAX_CHARS SUMMARY_COVERS_THE_REST.

Record Typed := { quotes : list string; omitted : Z }.
Definition default_typed : Typed := Build_Typed [] 0.

Definition typed_budget (context_window : Z) : Z := Z.min CONTINUATION_TYPED_MAX_CHARS (context_window `div` 8).

(** ** The messages of a compaction *)

Definition continuation_prompt (typed : Typed) (unanswered : list string) : string :=
  let prompt :=
    match quotes typed with
    | [] => COMPACTION_CONTINUATION_PROMPT
    | _ =>
        COMPACTION_CONTINUATION_PROMPT
        +:+ " For reference, what the user (or your parent) wrote earlier in this conversation, word for word, with their answers to your questions: the corrections and constraints in them still hold, but the summary says which requests are already done, so don't redo those."
        +:+ blank_line +:+ join QUOTE_SEPARATOR (quotes typed)
        +:+ (if bool_decide (0 < omitted typed)%Z then
               blank_line +:+ "(" +:+ show_unsigned (omitted typed) +:+ " more they wrote in between "
               +:+ (if bool_decide (omitted typed = 1%Z) then "is" else "are")
               +:+ " left out here; the summary covers "
               +:+ (if bool_decide (omitted typed = 1%Z) then "it" else "them") +:+ ".)"
             else "")
    end in
  match unanswered with
  | [] => prompt
  | _ =>
      prompt +:+ (match quotes typed with [] => " " | _ => blank_line end)
      +:+ "The summary includes these latest messages, which you haven't answered yet; respond to them now:"
      +:+ blank_line +:+ join blank_line (map quote unanswered)
  end.

Section Messages.
Context {V E : Type} `{Json V}.
Implicit Types (b : ContentBlock V) (bs : list (ContentBlock V)) (messages : list Message).

Definition compaction_messages (summary : string) (covers_through_message_id : Z) (typed : Typed)
    (unanswered : list string) (refused : option string) : list (string * list (ContentBlock V)) :=
  [("user", [CompactionPlaceholder COMPACTION_PLACEHOLDER_PROMPT]);
   ("assistant", [CompactionSummary summary covers_through_message_id refused]);
   ("user", [CompactionPlaceholder (continuation_prompt typed unanswered)])].

(** ** What the user and the parent wrote *)

Definition PARENT_MESSAGE_START : string := "Message from your parent:".
Definition SERVER_TEXT_STARTS : list string := ["Report from "; "Message from agent #"; "Question from "].

Definition is_typed (text : string) : bool :=
  starts_with PARENT_MESSAGE_START text
  || negb (starts_with NOTICE_MARK text) && negb (existsb (λ start, starts_with start text) SERVER_TEXT_STARTS).

Definition NOT_ANSWERED : string := "The user didn't answer these questions. Their message follows.".
Definition NOT_ANSWERED_BY_PARENT : string :=
  "Your parent hasn't answered; the user wrote to you instead, and their message follows. A later reply from your parent arrives as a message.".

Variable parse_blocks : string → Result (list (ContentBlock V)) E.

(** [m.blocks().unwrap_or_default()]. *)
Definition blocks_or_default (m : Message) : list (ContentBlock V) :=
  match blocks parse_blocks m with Ok bs => bs | Err _ => [] end.

Definition is_users (m : Message) : bool := bool_decide (msg_role m = "user").

(** [messages.iter().rev().take_while(|m| m.role == "user").count()]. *)
Fixpoint leading_users messages : nat :=
  match messages with m :: rest => if is_users m then S (leading_users rest) else O | [] => O end.
Definition tail_users messages : nat := leading_users (reverse messages).

Definition is_stop b : bool :=
  match b with Text text => bool_decide (users_text text = STOP_NOTICE) | _ => false end.

(** What the scan of the messages has so far: the questions asked, the words quoted, and how
    many of them a final reply has answered. *)
Record Scan := {
  questions : gset string; all : list string; answered_upto : nat; answered_before : nat; last_was_final : bool;
}.
#[export] Instance Scan_eta : Eta Scan := λ s,
  Build_Scan (questions s) (all s) (answered_upto s) (answered_before s) (last_was_final s).
Definition empty_scan : Scan := Build_Scan ∅ [] 0 0 false.

Definition asked_in bs : list string :=
  omap (λ b, match b with
             | ToolUse id name _ => if bool_decide (name = ASK_USER) || bool_decide (name = ASK_PARENT) then Some id else None
             | _ => None
             end) bs.

(** A message that isn't the user's. *)
Definition scan_reply bs (s : Scan) : Scan :=
  let s := s <| questions ::= λ q, q ∪ list_to_set (asked_in bs) |> in
  if existsb is_tool_use bs then s <| last_was_final := false |>
  else s <| answered_before := answered_upto s |> <| answered_upto := length (all s) |> <| last_was_final := true |>.

(** The words a block of the user's is quoted for: typed, or answering a question. *)
Definition words_of (asked : gset string) b : option string :=
  match b with
  | Text text => if is_typed text && negb (is_blank text) then Some text else None
  | ToolResult id content is_error =>
      if bool_decide (id ∈ asked) && negb (bool_decide (is_error = Some true))
         && negb (bool_decide (content = NOT_ANSWERED)) && negb (bool_decide (content = NOT_ANSWERED_BY_PARENT))
      then Some content else None
  | _ => None
  end.

Definition scan_block (in_tail : bool) (s : Scan) b : Scan :=
  if is_stop b then
    let upto := if last_was_final s then answered_before s else answered_upto s in
    let s := s <| all ::= take upto |> in
    s <| answered_upto := length (all s) |>
  else if in_tail then s
  else match words_of (questions s) b with Some text => s <| all ::= λ l, app l [text] |> | None => s end.

Definition scan_message (in_tail : bool) (s : Scan) (m : Message) : Scan :=
  let bs := blocks_or_default m in
  if negb (is_users m) then scan_reply bs s
  else
    let s := if existsb is_stop bs then s else s <| last_was_final := false |> in
    fold_left (scan_block in_tail) bs s.

(** The scan of all the messages, the unanswered tail's stops included. *)
Definition scan messages : list string :=
  let answered := (length messages - tail_users messages)%nat in
  all (fold_left (scan_message true) (drop answered messages)
         (fold_left (scan_message false) (take answered messages) empty_scan)).

(** The newest that still fit, [rest] newest first: the room used and the quotes. *)
Fixpoint newest_that_fit (budget : Z) (after_cut : string) (rest : list string) (used : Z) : list string :=
  match rest with
  | [] => []
  | text :: rest =>
      let quoted := quote_to text (Z.min CONTINUATION_QUOTE_MAX_CHARS budget) after_cut in
      let size := (chars quoted + str_len QUOTE_SEPARATOR)%Z in
      if bool_decide (budget < used + size)%Z then newest_that_fit budget after_cut rest used
      else quoted :: newest_that_fit budget after_cut rest (used + size)%Z
  end.

Definition typed_within messages (budget : Z) (after_cut : string) : Typed :=
  match scan messages with
  | [] => default_typed
  | first :: rest =>
      let first := quote_to first (Z.max (budget `div` 2) 1) after_cut in
      let newest := newest_that_fit budget after_cut (reverse rest) (chars first) in
      Build_Typed (first :: reverse newest) (Z.of_nat (length rest) - Z.of_nat (length newest))%Z
  end.

Definition typed_user_text messages (context_window : Z) : Typed :=
  typed_within messages (typed_budget context_window) SUMMARY_COVERS_THE_REST.

(** ** What hasn't been answered *)

Definition texts_of bs : list string := omap (λ b, match b with Text text => Some text | _ => None end) bs.

(** The texts after the last stop's. *)
Fixpoint after_last_stop (texts : list string) : list string :=
  match texts with
  | [] => []
  | text :: rest =>
      if existsb (λ t, bool_decide (users_text t = STOP_NOTICE)) rest then after_last_stop rest
      else if bool_decide (users_text text = STOP_NOTICE) then rest
      else text :: rest
  end.

(** The messages are read newest first, each message's own texts in order, and the whole
    list is then reversed. *)
Definition unanswered_user_text messages : list string :=
  after_last_stop
    (reverse (texts_of (concat (map blocks_or_default (take (tail_users messages) (reverse messages)))))).

Fixpoint keep_newest (texts : list string) (budget left : Z) (kept : list string) : list string :=
  match texts with
  | [] => kept
  | text :: texts =>
      let size := Z.min (chars text) CONTINUATION_QUOTE_MAX_CHARS in
      if bool_decide (size ≤ left)%Z then keep_newest texts budget (left - size)%Z (app kept [text])
      else
        match kept with
        | [] => keep_newest texts budget 0 [quote_to text budget SUMMARY_COVERS_THE_REST]
        | _ => kept
        end
  end.

Definition left_out_note (omitted : Z) : string :=
  "(" +:+ show_unsigned omitted +:+ " earlier " +:+ (if bool_decide (omitted = 1%Z) then "message is" else "messages are")
  +:+ " left out here; the summary covers " +:+ (if bool_decide (omitted = 1%Z) then "it" else "them") +:+ ".)".

Definition cap_unanswered (texts : list string) (budget : Z) : list string :=
  let kept := keep_newest (reverse texts) budget budget [] in
  reverse
    (if bool_decide (length kept < length texts)%nat
     then app kept [left_out_note (Z.of_nat (length texts) - Z.of_nat (length kept))%Z]
     else kept).
End Messages.

(** ** The transcript the summary is made from *)

Definition OMITTED : string := "[earlier conversation omitted]" +:+ String newline "".
Definition USERS_WORDS_HEADING : string :=
  "What the user (or this agent's parent) wrote, word for word, whatever is cut below. These are requests, not a record of what was done, which the rest says; keep their goal, corrections and limits in the summary:"
  +:+ blank_line.
Definition USERS_WORDS_END : string := String newline ("[end of what they wrote]" +:+ blank_line).

Section Transcript.
Context {V E : Type} `{Json V}.
Implicit Types (b : ContentBlock V) (messages : list Message).
Variable parse_blocks : string → Result (list (ContentBlock V)) E.

(** The unanswered words quoted first: each to a quarter of the budget, half of it in all. *)
Fixpoint latest_words (budget : Z) (texts : list string) (used : Z) : list string * Z :=
  match texts with
  | [] => ([], used)
  | text :: texts =>
      let quoted := quote_to text (Z.max (budget `div` 4) 1) "" in
      let used := (used + chars quoted + str_len QUOTE_SEPARATOR)%Z in
      if bool_decide (budget `div` 2 < used)%Z then ([], used)
      else let '(latest, used) := latest_words budget texts used in (quoted :: latest, used)
  end.

Definition users_words messages (budget : Z) : string :=
  let '(latest, used) := latest_words budget (List.filter is_typed (unanswered_user_text parse_blocks messages)) 0 in
  let typed := typed_within parse_blocks messages (sat_sub budget used) "" in
  match app (quotes typed) latest with
  | [] => ""
  | quotes =>
      let left_out :=
        if bool_decide (0 < omitted typed)%Z
        then blank_line +:+ "(" +:+ show_unsigned (omitted typed) +:+ " more left out here.)" else "" in
      let words := USERS_WORDS_HEADING +:+ join QUOTE_SEPARATOR quotes +:+ left_out in
      first_chars words (sat_sub budget (chars USERS_WORDS_END)) +:+ USERS_WORDS_END
  end.

(** A block's line of the transcript; [None] for a block left out. *)
Definition block_line b : option string :=
  match b with
  | Text text => Some text
  | ToolUse _ name input => Some ("[called tool " +:+ name +:+ " with " +:+ json_to_string input +:+ "]")
  | ToolResult _ content _ => Some ("[tool result: " +:+ content +:+ "]")
  | _ => None
  end.

Definition line (role text : string) : string := role +:+ ": " +:+ text +:+ String newline "".

(** The last summary and what came since. *)
Definition transcribe_block (role : string) (acc : string * string) b : string * string :=
  let '(summary, since) := acc in
  match b with
  | CompactionSummary text _ _ => (line role text, since)
  | _ => match block_line b with Some text => (summary, since +:+ line role text) | None => (summary, since) end
  end.
Definition transcribe (acc : string * string) (m : Message) : string * string :=
  fold_left (transcribe_block (msg_role m)) (blocks_or_default parse_blocks m) acc.

(** The last boundary, the last summary, and what came since it. *)
Definition boundary_of messages : option Z :=
  max_i64 (omap covers (concat (map (blocks_or_default parse_blocks) messages))).
Definition is_since (latest_boundary : option Z) (m : Message) : bool :=
  match latest_boundary with Some boundary => bool_decide (boundary < msg_id m)%Z | None => true end.
Definition transcribed messages : string * string :=
  fold_left transcribe (List.filter (is_since (boundary_of messages)) messages) ("", "").

Definition compaction_transcript messages (max_chars : Z) : string :=
  let '(summary, since) := transcribed messages in
  if bool_decide (boundary_of messages = None) && bool_decide (chars since ≤ max_chars)%Z then since
  else
    let head := users_words messages (max_chars `div` 4) +:+ first_chars summary (max_chars `div` 4) in
    let room := sat_sub max_chars (chars head) in
    let head :=
      if bool_decide (chars since ≤ room)%Z then head +:+ since
      else
        let keep := sat_sub room (chars OMITTED) in
        head +:+ OMITTED +:+ skip_chars (Z.to_nat (chars since - keep)) since in
    first_chars head max_chars.
End Transcript.

Definition compaction_transcript_budget (context_window : Z) (kind : ProviderKind) : Z :=
  let room := match kind with ClaudeCli => SUMMARY_MAX_TOKENS + THINKING_ROOM + 4096 | _ => 8192 end%Z in
  (sat_sub context_window room * 3)%Z.

(** ** A stop calls off what it stopped *)

Section Stops.
Context {V E : Type} `{Json V}.
Implicit Types (b : ContentBlock V) (bs : list (ContentBlock V)) (messages : list Message).
Variable parse_blocks : string → Result (list (ContentBlock V)) E.

(** What the scan looks at, in order: a reply with no call, a reply with calls, a user
    message with no stop in it, words to quote, a stop. *)
Inductive Said := Final | Calls | Wrote | Words (text : string) | Stopped.

Definition said_by_block (in_tail : bool) (asked : gset string) b : list Said :=
  if is_stop b then [Stopped]
  else if in_tail then [] else match words_of asked b with Some text => [Words text] | None => [] end.

Definition said_by_message (in_tail : bool) (asked : gset string) (m : Message) : gset string * list Said :=
  let bs := blocks_or_default parse_blocks m in
  if negb (is_users m) then (asked ∪ list_to_set (asked_in bs), [if existsb is_tool_use bs then Calls else Final])
  else (asked, app (if existsb is_stop bs then [] else [Wrote]) (concat (map (said_by_block in_tail asked) bs))).

Fixpoint said_by (in_tail : bool) (asked : gset string) messages : gset string * list Said :=
  match messages with
  | [] => (asked, [])
  | m :: rest =>
      let '(asked, said) := said_by_message in_tail asked m in
      let '(asked, more) := said_by in_tail asked rest in (asked, app said more)
  end.

Definition said messages : list Said :=
  let answered := (length messages - tail_users messages)%nat in
  let '(asked, said) := said_by false ∅ (take answered messages) in
  app said (snd (said_by true asked (drop answered messages))).

(** Reading back from the newest: nothing is called off; what comes before a final reply
    stays; or a stop was just read, which calls off a final reply it follows at once too. *)
Inductive CalledOff := Nothing | SinceFinal | SinceStopped.

Fixpoint still_standing (newest_first : list Said) (off : CalledOff) : list string :=
  match newest_first with
  | [] => []
  | Final :: rest => still_standing rest (match off with SinceStopped => SinceFinal | _ => Nothing end)
  | Calls :: rest | Wrote :: rest => still_standing rest (match off with SinceStopped => SinceFinal | off => off end)
  | Words text :: rest =>
      app (still_standing rest off) (match off with Nothing => [text] | _ => [] end)
  | Stopped :: rest => still_standing rest SinceStopped
  end.

(** The scan's step on what was said. *)
Definition scan_said (s : Scan) (e : Said) : Scan :=
  match e with
  | Final => s <| answered_before := answered_upto s |> <| answered_upto := length (all s) |> <| last_was_final := true |>
  | Calls | Wrote => s <| last_was_final := false |>
  | Words text => s <| all ::= λ l, app l [text] |>
  | Stopped =>
      let s := s <| all ::= take (if last_was_final s then answered_before s else answered_upto s) |> in
      s <| answered_upto := length (all s) |>
  end.

Definition scan_agrees (newest_first : list Said) (s : Scan) : Prop :=
  all s = still_standing newest_first Nothing
  ∧ take (answered_upto s) (all s) = still_standing newest_first SinceFinal
  ∧ take (if last_was_final s then answered_before s else answered_upto s) (all s)
    = still_standing newest_first SinceStopped
  ∧ (answered_before s ≤ answered_upto s ≤ length (all s))%nat.

Lemma scan_said_agrees l s e : scan_agrees l s → scan_agrees (e :: l) (scan_said s e).
Proof.
  intros (Hall & Hupto & Hstop & Hle). destruct e; unfold scan_agrees, scan_said in *; cbn.
  - rewrite take_ge by lia. conjs; try done; lia.
  - conjs; try done; lia.
  - conjs; try done; lia.
  - rewrite !take_app_le by (destruct (last_was_final s); lia).
    rewrite length_app, !app_nil_r. conjs; try done; [by rewrite Hall|lia|cbn; lia].
  - rewrite length_take, Hstop.
    assert (Hk : ((if last_was_final s then answered_before s else answered_upto s) ≤ length (all s))%nat)
      by (destruct (last_was_final s); lia).
    set (k := if last_was_final s then answered_before s else answered_upto s) in *.
    assert (length (still_standing l SinceStopped) = k) as Hlen by (rewrite <- Hstop, length_take; lia).
    conjs; try done; try (apply take_ge); destruct (last_was_final s); try (apply take_ge); unfold k; lia.
Qed.

Lemma questions_kept l s : questions (fold_left scan_said l s) = questions s.
Proof. revert s. induction l as [|e l IH]; intros s; [done|]. cbn [fold_left]. rewrite IH. by destruct e. Qed.

Lemma scan_blocks_said in_tail bs s :
  fold_left (scan_block in_tail) bs s
  = fold_left scan_said (concat (map (said_by_block in_tail (questions s)) bs)) s.
Proof.
  revert s. induction bs as [|b bs IH]; intros s; [done|]. cbn [fold_left map concat]. rewrite fold_left_app.
  assert (Hb : scan_block in_tail s b = fold_left scan_said (said_by_block in_tail (questions s) b) s).
  { unfold scan_block, said_by_block. destruct (is_stop b), in_tail; try done. by destruct (words_of _ b). }
  by rewrite IH, Hb, questions_kept.
Qed.

Lemma scan_message_said in_tail s m :
  let '(asked, said) := said_by_message in_tail (questions s) m in
  scan_message parse_blocks in_tail s m = fold_left scan_said said (s <| questions := asked |>).
Proof.
  unfold said_by_message, scan_message. destruct s as [q l u b f]. destruct (is_users m); cbn [negb].
  - rewrite scan_blocks_said, fold_left_app. by destruct (existsb is_stop _).
  - unfold scan_reply. by destruct (existsb is_tool_use _).
Qed.

Lemma scan_said_questions l s asked :
  fold_left scan_said l s <| questions := asked |> = fold_left scan_said l (s <| questions := asked |>).
Proof. revert s. induction l as [|e l IH]; intros s; [done|]. cbn [fold_left]. rewrite IH. by destruct e. Qed.

Lemma scan_messages_said in_tail messages s :
  let '(asked, said) := said_by in_tail (questions s) messages in
  fold_left (scan_message parse_blocks in_tail) messages s = fold_left scan_said said (s <| questions := asked |>).
Proof.
  revert s. induction messages as [|m rest IH]; intros s; cbn [said_by fold_left]; [by destruct s|].
  pose proof (scan_message_said in_tail s m) as Hm. destruct (said_by_message _ _ m) as [asked said_m].
  rewrite Hm. specialize (IH (fold_left scan_said said_m (s <| questions := asked |>))).
  rewrite questions_kept in IH. change (questions (s <| questions := asked |>)) with asked in IH.
  destruct (said_by in_tail asked rest) as [asked' more]. by rewrite IH, fold_left_app, scan_said_questions.
Qed.

(** What a compaction quotes of the user's and the parent's words, before it is cut to
    size, is what no stop called off: a stop calls off exactly the words since the model's
    last reply with no call, or, when it stops such a reply itself, since the one before. *)
Theorem stops_call_off_what_they_stopped messages :
  scan parse_blocks messages = still_standing (reverse (said messages)) Nothing.
Proof.
  unfold scan, said. set (n := (_ - _)%nat).
  pose proof (scan_messages_said false (take n messages) empty_scan) as Ht.
  change (questions empty_scan) with (∅ : gset string) in Ht.
  destruct (said_by false ∅ (take n messages)) as [asked answered]. rewrite Ht.
  set (s := fold_left scan_said answered _).
  pose proof (scan_messages_said true (drop n messages) s) as Hd.
  replace (questions s) with asked in Hd by (unfold s; by rewrite questions_kept).
  destruct (said_by true asked (drop n messages)) as [asked' tail]. cbn [snd]. rewrite Hd.
  unfold s. rewrite scan_said_questions, <- fold_left_app.
  assert (H0 : scan_agrees [] (empty_scan <| questions := asked |> <| questions := asked' |>)) by (unfold scan_agrees; cbn; naive_solver lia).
  revert H0. set (l := app answered tail). set (s0 := _ <| questions := asked' |>). rewrite <- (app_nil_r (reverse l)).
  generalize (@nil Said) s0. induction l as [|e l IH]; intros k s1 Hk; [by destruct Hk|].
  cbn [fold_left]. rewrite reverse_cons, <- app_assoc. apply IH. by apply scan_said_agrees.
Qed.
End Stops.

(** ** What is quoted fits *)

Lemma chars_app s t : chars (s +:+ t) = (chars s + chars t)%Z.
Proof. unfold chars. rewrite chars_count_app. lia. Qed.

Lemma chars_nonneg s : (0 ≤ chars s)%Z.
Proof. unfold chars. lia. Qed.

Lemma first_chars_le s n : (0 ≤ n)%Z → (chars (first_chars s n) ≤ n)%Z.
Proof. intros Hn. unfold chars, first_chars. pose proof (take_chars_count (Z.to_nat n) s). lia. Qed.

Lemma first_chars_all s n : (chars s ≤ n)%Z → first_chars s n = s.
Proof. intros Hn. apply take_chars_all. unfold chars in *. lia. Qed.

(** The characters of [texts] joined with a separator, the separator before each counted. *)
Definition joined_chars (texts : list string) : Z :=
  foldr (λ text n, chars text + str_len QUOTE_SEPARATOR + n)%Z 0%Z texts.

Lemma joined_chars_nonneg texts : (0 ≤ joined_chars texts)%Z.
Proof.
  induction texts as [|t l IH]; cbn [joined_chars foldr]; [done|]. fold (joined_chars l).
  pose proof (chars_nonneg t). pose proof (str_len_nonneg QUOTE_SEPARATOR). lia.
Qed.

Lemma join_chars text texts :
  chars (join QUOTE_SEPARATOR (text :: texts)) = (chars text + joined_chars texts)%Z.
Proof.
  revert text. induction texts as [|t l IH]; intros text; [cbn; lia|].
  change (join QUOTE_SEPARATOR (text :: t :: l)) with (text +:+ QUOTE_SEPARATOR +:+ join QUOTE_SEPARATOR (t :: l)).
  rewrite !chars_app, IH. cbn [joined_chars foldr]. fold (joined_chars l).
  assert (chars QUOTE_SEPARATOR = str_len QUOTE_SEPARATOR) as -> by reflexivity. lia.
Qed.

Lemma joined_chars_app l l' : joined_chars (app l l') = (joined_chars l + joined_chars l')%Z.
Proof. induction l as [|t l IH]; cbn [joined_chars foldr app]; [done|]. fold (joined_chars (app l l')) (joined_chars l). lia. Qed.

Lemma joined_chars_reverse l : joined_chars (reverse l) = joined_chars l.
Proof. induction l as [|t l IH]; [done|]. rewrite reverse_cons, joined_chars_app, IH. cbn [joined_chars foldr]. fold (joined_chars l). lia. Qed.

(** What is quoted of [texts] in all. *)
Definition quoted_chars (texts : list string) : Z :=
  foldr (λ t n, Z.min (chars t) CONTINUATION_QUOTE_MAX_CHARS + n)%Z 0%Z texts.

Lemma quoted_chars_app l l' : quoted_chars (app l l') = (quoted_chars l + quoted_chars l')%Z.
Proof. induction l as [|t l IH]; cbn [quoted_chars foldr app]; [done|]. fold (quoted_chars (app l l')) (quoted_chars l). lia. Qed.

Lemma quoted_chars_reverse l : quoted_chars (reverse l) = quoted_chars l.
Proof. induction l as [|t l IH]; [done|]. rewrite reverse_cons, quoted_chars_app, IH. cbn [quoted_chars foldr]. fold (quoted_chars l). lia. Qed.

Lemma quoted_chars_nonneg l : (0 ≤ quoted_chars l)%Z.
Proof.
  induction l as [|t l IH]; cbn [quoted_chars foldr]; [done|]. fold (quoted_chars l).
  pose proof (chars_nonneg t). unfold CONTINUATION_QUOTE_MAX_CHARS in *. lia.
Qed.

Lemma newest_that_fit_spec budget after_cut rest : ∀ used,
  let newest := newest_that_fit budget after_cut rest used in
  (used ≤ budget → used + joined_chars newest ≤ budget)%Z
  ∧ ∃ kept, kept `sublist_of` rest ∧ newest = map (λ text, quote_to text (Z.min CONTINUATION_QUOTE_MAX_CHARS budget) after_cut) kept.
Proof.
  induction rest as [|text rest IH]; intros used; cbn [newest_that_fit].
  { split; [cbn; lia|]. by exists []. }
  case_bool_decide as Hfit.
  - destruct (IH used) as (? & kept & ? & ?). split; [done|]. exists kept. split; [by constructor|done].
  - destruct (IH (used + (chars (quote_to text (Z.min CONTINUATION_QUOTE_MAX_CHARS budget) after_cut) + str_len QUOTE_SEPARATOR))%Z)
      as (Hle & kept & Hsub & Heq).
    split; [cbn [joined_chars foldr]; fold (joined_chars (newest_that_fit budget after_cut rest
      (used + (chars (quote_to text (Z.min CONTINUATION_QUOTE_MAX_CHARS budget) after_cut) + str_len QUOTE_SEPARATOR))%Z)); lia|].
    exists (text :: kept). split; [by constructor|]. cbn [map]. by f_equal.
Qed.

Lemma no_room_left l :
  (quoted_chars l ≤ 0)%Z → Forall (λ t, chars t = 0%Z) l.
Proof.
  induction l as [|t l IH]; [done|]. cbn [quoted_chars foldr]. fold (quoted_chars l). intros Hle.
  pose proof (quoted_chars_nonneg l). pose proof (chars_nonneg t).
  unfold CONTINUATION_QUOTE_MAX_CHARS in *. constructor; [lia|]. apply IH. lia.
Qed.

Lemma keep_newest_spec budget : ∀ texts left kept, (0 ≤ left)%Z →
  ∃ whole older, texts = app whole older
  ∧ (keep_newest texts budget left kept = app kept whole
     ∧ (quoted_chars whole ≤ left)%Z
     ∧ (kept = [] → texts ≠ [] → whole ≠ [])
     ∨ kept = [] ∧ ∃ text rest, whole = text :: rest ∧ (left < chars text)%Z ∧ Forall (λ t, chars t = 0%Z) rest
       ∧ keep_newest texts budget left kept = quote_to text budget SUMMARY_COVERS_THE_REST :: rest).
Proof.
  induction texts as [|text texts IH]; intros left kept Hleft; cbn [keep_newest].
  { exists [], []. split; [done|]. left. rewrite app_nil_r. done. }
  case_bool_decide as Hfit.
  - pose proof (chars_nonneg text) as Hnn.
    destruct (IH (left - Z.min (chars text) CONTINUATION_QUOTE_MAX_CHARS)%Z (app kept [text]) ltac:(lia))
      as (whole & older & -> & [(Heq & Hsum & _)|(Hk & _)]); [|by destruct kept].
    exists (text :: whole), older. split; [done|]. left. rewrite Heq, <- app_assoc. conjs; [done|cbn [quoted_chars foldr]; fold (quoted_chars whole); lia|done].
  - destruct kept as [|k kept].
    + destruct (IH 0%Z [quote_to text budget SUMMARY_COVERS_THE_REST] ltac:(lia))
        as (whole & older & -> & [(Heq & Hsum & _)|(Hk & _)]); [|done].
      exists (text :: whole), older. split; [done|]. right. split; [done|]. exists text, whole. rewrite Heq.
      conjs; try done; [lia|]. by apply no_room_left.
    + exists [], (text :: texts). split; [done|]. left. rewrite app_nil_r. done.
Qed.

Lemma sublist_reverse {A} (l k : list A) : l `sublist_of` k → reverse l `sublist_of` reverse k.
Proof.
  induction 1 as [|x l k _ IH|x l k _ IH]; [constructor| |]; rewrite !reverse_cons.
  - by apply sublist_app.
  - by apply sublist_inserts_r.
Qed.

Lemma cap_unanswered_spec texts budget :
  (0 ≤ budget)%Z →
  ∃ older newest, texts = app older newest ∧ (texts ≠ [] → newest ≠ [])
  ∧ ∃ kept, cap_unanswered texts budget
            = app (match older with [] => [] | _ => [left_out_note (Z.of_nat (length older))] end) kept
  ∧ (kept = newest ∧ (quoted_chars newest ≤ budget)%Z
     ∨ ∃ empties text, newest = app empties [text] ∧ Forall (λ t, chars t = 0%Z) empties ∧ (budget < chars text)%Z
       ∧ kept = app empties [quote_to text budget SUMMARY_COVERS_THE_REST]).
Proof.
  intros Hb. unfold cap_unanswered.
  destruct (keep_newest_spec budget (reverse texts) budget [] Hb) as (whole & older & Heq & Hkept).
  assert (Ht : texts = app (reverse older) (reverse whole)) by (by rewrite <- reverse_app, <- Heq, reverse_involutive).
  exists (reverse older), (reverse whole).
  assert (Hlen : length (keep_newest (reverse texts) budget budget []) = length whole).
  { destruct Hkept as [(-> & _)|(_ & text & rest & -> & _ & _ & ->)]; done. }
  conjs; [done| |].
  - intros Hne Hw. apply (f_equal reverse) in Hw. rewrite reverse_involutive in Hw. cbn in Hw. subst whole.
    destruct Hkept as [(_ & _ & Hk)|(_ & ? & ? & ? & _)]; [|done]. apply Hk; [done| |done].
    intros Hr. apply (f_equal reverse) in Hr. by rewrite reverse_involutive in Hr.
  - exists (reverse (keep_newest (reverse texts) budget budget [])). split.
    + assert (Hl : length texts = (length older + length whole)%nat) by (rewrite Ht, length_app, !length_reverse; done).
      rewrite Hlen, Hl.
      destruct older as [|o older]; [rewrite bool_decide_eq_false_2 by (cbn; lia); done|].
      rewrite bool_decide_eq_true_2 by (cbn; lia). rewrite reverse_app.
      destruct (reverse (o :: older)) as [|x l] eqn:Hr; [by apply (f_equal length) in Hr; rewrite length_reverse in Hr|].
      apply (f_equal length) in Hr. rewrite length_reverse in Hr. cbn in *. do 2 f_equal. lia.
    + destruct Hkept as [(-> & Hsum & _)|(_ & text & rest & -> & Hlt & Hall & ->)].
      * left. by rewrite quoted_chars_reverse.
      * right. exists (reverse rest), text. rewrite !reverse_cons. conjs; try done. by apply Forall_reverse.
Qed.

Section QuotesFit.
Context {V E : Type} `{Json V}.
Variable parse_blocks : string → Result (list (ContentBlock V)) E.
Implicit Types (messages : list Message).

(** What a compaction quotes is held to its budgets.  Of what was typed, the first is
    always quoted, then, in order, what of the rest fits: their text with its separators is
    within the budget whenever the first alone is, and what is left out is counted.  Of the
    unanswered messages, the newest are kept, in order: whole ones within the budget in all,
    counting what is quoted of each, or the newest alone, cut to the budget, with only empty
    ones before it; and a note leads them when some are left out. *)
Theorem quotes_fit_their_budgets messages budget after_cut :
  (let typed := typed_within parse_blocks messages budget after_cut in
   match scan parse_blocks messages with
   | [] => typed = default_typed
   | first :: rest =>
       let first := quote_to first (Z.max (budget `div` 2) 1) after_cut in
       (∃ kept, kept `sublist_of` rest
          ∧ quotes typed = first :: map (λ text, quote_to text (Z.min CONTINUATION_QUOTE_MAX_CHARS budget) after_cut) kept
          ∧ omitted typed = (Z.of_nat (length rest) - Z.of_nat (length kept))%Z)
       ∧ ((chars first ≤ budget)%Z → (chars (join QUOTE_SEPARATOR (quotes typed)) ≤ budget)%Z)
   end)
  ∧ ∀ texts, (0 ≤ budget)%Z →
    ∃ older newest, texts = app older newest ∧ (texts ≠ [] → newest ≠ [])
    ∧ ∃ kept, cap_unanswered texts budget
              = app (match older with [] => [] | _ => [left_out_note (Z.of_nat (length older))] end) kept
    ∧ (kept = newest ∧ (quoted_chars newest ≤ budget)%Z
       ∨ ∃ empties text, newest = app empties [text] ∧ Forall (λ t, chars t = 0%Z) empties ∧ (budget < chars text)%Z
         ∧ kept = app empties [quote_to text budget SUMMARY_COVERS_THE_REST]).
Proof.
  split; [|intros texts; apply cap_unanswered_spec].
  cbv zeta. unfold typed_within. destruct (scan parse_blocks messages) as [|first rest]; [done|]. cbn [quotes omitted].
  set (first' := quote_to first _ _).
  destruct (newest_that_fit_spec budget after_cut (reverse rest) (chars first')) as (Hfit & kept & Hsub & Heq).
  cbv zeta in *. split.
  - exists (reverse kept). rewrite <- (reverse_involutive rest) at 1. conjs; [by apply sublist_reverse| |].
    + rewrite Heq. f_equal. symmetry. apply fmap_reverse.
    + by rewrite Heq, length_map, length_reverse.
  - intros Hfirst. rewrite join_chars, joined_chars_reverse. by apply Hfit.
Qed.
End QuotesFit.

(** ** The transcript *)

Lemma skip_chars_count n s : chars_count (skip_chars n s) = (chars_count s - n)%nat.
Proof.
  revert n. induction s as [|a s IH]; intros n; cbn; [done|]. destruct (is_continuation a) eqn:Ha; [apply IH|].
  destruct n; cbn; rewrite ?Ha; [done|]. apply IH.
Qed.

Lemma chars_skip n s : chars (skip_chars n s) = Z.max 0 (chars s - Z.of_nat n).
Proof. unfold chars. rewrite skip_chars_count. lia. Qed.

Lemma marks_chars : chars OMITTED = 31%Z ∧ chars USERS_WORDS_END = 27%Z.
Proof. split; vm_compute; reflexivity. Qed.

Lemma skip_chars_suffix n s : ∃ before, s = before +:+ skip_chars n s.
Proof.
  revert n. induction s as [|a s IH]; intros n; cbn; [by exists ""|].
  destruct (is_continuation a); [|destruct n; [by exists ""|]];
    (edestruct IH as (before & Heq); exists (String a before); rewrite str_app_cons; f_equal; exact Heq).
Qed.

Section TranscriptFits.
Context {V E : Type} `{Json V}.
Variable parse_blocks : string → Result (list (ContentBlock V)) E.
Implicit Types (messages : list Message).

Lemma users_words_fit messages budget :
  (chars USERS_WORDS_END ≤ budget)%Z → (chars (users_words parse_blocks messages budget) ≤ budget)%Z.
Proof.
  intros Hb. assert (0 ≤ budget)%Z as H0 by (pose proof (chars_nonneg USERS_WORDS_END); lia). unfold users_words.
  destruct (latest_words _ _ _) as [latest used]. destruct (app _ latest) as [|q l]; [done|].
  rewrite chars_app. set (words := USERS_WORDS_HEADING +:+ _).
  pose proof (first_chars_le words (sat_sub budget (chars USERS_WORDS_END))). unfold sat_sub in *. lia.
Qed.

Lemma transcript_fits messages max_chars :
  (0 ≤ max_chars)%Z → (chars (compaction_transcript parse_blocks messages max_chars) ≤ max_chars)%Z.
Proof.
  intros Hmax. unfold compaction_transcript. destruct (transcribed parse_blocks messages) as [summary since]. cbv zeta.
  destruct (bool_decide (boundary_of _ _ = None) && _) eqn:Hw; [|by apply first_chars_le].
  by apply andb_true_iff in Hw as [_ ?%bool_decide_eq_true].
Qed.

(** A transcript never has more than its characters.  With room for the words that close
    it off, it is everything said, where nothing was compacted before and that fits, or it
    keeps whole what the user and the parent wrote and the start of the last summary, a
    quarter each at most, followed by everything since that summary, or by as much of its
    end as fills the room exactly. *)
Theorem transcript_keeps_what_matters messages max_chars :
  let '(summary, since) := transcribed parse_blocks messages in
  let transcript := compaction_transcript parse_blocks messages max_chars in
  let head := users_words parse_blocks messages (max_chars `div` 4) +:+ first_chars summary (max_chars `div` 4) in
  ((0 ≤ max_chars)%Z → (chars transcript ≤ max_chars)%Z)
  ∧ ((4 * chars OMITTED ≤ max_chars)%Z →
     (boundary_of parse_blocks messages = None ∧ transcript = since)
     ∨ transcript = head +:+ since
     ∨ ∃ before ending, since = before +:+ ending ∧ transcript = head +:+ OMITTED +:+ ending
       ∧ chars transcript = max_chars).
Proof.
  pose proof (transcript_fits messages max_chars) as Hfits. revert Hfits.
  unfold compaction_transcript. destruct (transcribed parse_blocks messages) as [summary since]. cbv zeta.
  set (head := users_words _ _ _ +:+ _). intros Hfits. split; [done|]. clear Hfits.
  intros Hmax. destruct marks_chars as [HO HE].
  destruct (bool_decide (boundary_of _ _ = None) && _) eqn:Hw.
  { left. apply andb_true_iff in Hw as [?%bool_decide_eq_true _]. done. }
  right. assert (Hhead : (chars head ≤ max_chars `div` 2)%Z).
  { unfold head. rewrite chars_app. pose proof (users_words_fit messages (max_chars `div` 4) ltac:(zlia)).
    pose proof (first_chars_le summary (max_chars `div` 4) ltac:(zlia)). zlia. }
  pose proof (chars_nonneg head). pose proof (chars_nonneg since). unfold sat_sub. rewrite !Z.max_r by zlia.
  clear Hw. case_bool_decide as Hroom.
  - left. rewrite first_chars_all; [done|]. rewrite chars_app. lia.
  - right. set (n := Z.to_nat _). destruct (skip_chars_suffix n since) as (before & Hs).
    exists before, (skip_chars n since). split; [done|].
    assert (Hc : (chars (head +:+ OMITTED +:+ skip_chars n since) = max_chars)%Z).
    { rewrite !chars_app, chars_skip. unfold n. zlia. }
    rewrite first_chars_all by lia. done.
Qed.
End TranscriptFits.

(** ** A compaction takes the history's place *)

Section Replaces.
Context {V E : Type}.
Variable parse_blocks : string → Result (list (ContentBlock V)) E.
Implicit Types (messages rows later : list Message) (through : option Z).

(** A message a compaction up to [n] covers. *)
Definition covered_by (n : Z) (m : Message) : Prop :=
  (msg_id m ≤ n)%Z ∧ ∃ bs, blocks parse_blocks m = Ok bs ∧ ∀ x, x ∈ omap covers bs → (x ≤ n)%Z.

(** A saved row of [compaction_messages]. *)
Definition is_row (m : Message) (row : string * list (ContentBlock V)) : Prop :=
  msg_role m = fst row ∧ blocks parse_blocks m = Ok (snd row).

Lemma max_i64_iff l x : max_i64 l = Some x ↔ x ∈ l ∧ ∀ y, y ∈ l → (y ≤ x)%Z.
Proof.
  pose proof (max_i64_spec l) as Hs. destruct (max_i64 l) as [m|].
  - destruct Hs as [Hm Hle]. split; [by intros [= <-]|]. intros [Hx Hlex]. f_equal.
    specialize (Hle x Hx). specialize (Hlex m Hm). lia.
  - subst l. split; [done|]. intros [Hx _]. by apply not_elem_of_nil in Hx.
Qed.

(** Boundaries at most [n] before one that is at least [n] don't show. *)
Lemma max_i64_app_le l k n x : (∀ y, y ∈ l → (y ≤ n)%Z) → x ∈ k → (n ≤ x)%Z → max_i64 (app l k) = max_i64 k.
Proof.
  intros Hl Hx Hn. pose proof (max_i64_spec k) as Hk. destruct (max_i64 k) as [m|].
  - destruct Hk as [Hm Hle]. apply max_i64_iff. split; [apply elem_of_app; by right|].
    intros y [Hy|Hy]%elem_of_app; [|by apply Hle]. specialize (Hl y Hy). specialize (Hle x Hx). lia.
  - subst k. by apply not_elem_of_nil in Hx.
Qed.

Lemma collect_results_app {A B C} (f : A → Result B C) l k :
  collect_results f (app l k) = let? xs := collect_results f l in let? ys := collect_results f k in Ok (app xs ys).
Proof.
  induction l as [|a l IH]; cbn; [by destruct (collect_results f k)|].
  destruct (f a); [|done]. cbn. rewrite IH. destruct (collect_results f l); [|done]. cbn. by destruct (collect_results f k).
Qed.

Lemma covered_parse n messages :
  Forall (covered_by n) messages →
  ∃ parsed, collect_results (parse_message parse_blocks) messages = Ok parsed
  ∧ Forall (λ p : Parsed, (fst (fst p) ≤ n)%Z) parsed
  ∧ ∀ x, x ∈ omap covers (concat (map snd parsed)) → (x ≤ n)%Z.
Proof.
  induction 1 as [|m messages (Hid & bs & Hb & Hc) _ IH].
  { exists []. conjs; [done|done|]. by intros x ?%elem_of_nil. }
  destruct IH as (parsed & Hp & Hids & Hcs). exists ((msg_id m, msg_role m, bs) :: parsed). cbn.
  unfold parse_message at 1. rewrite Hb. cbn. rewrite Hp. conjs; [done|by constructor|].
  intros x. rewrite omap_app, elem_of_app. intros [Hx|Hx]; [by apply Hc|by apply Hcs].
Qed.

Lemma covered_never_shows messages rows through n row bs :
  Forall (covered_by n) messages → row ∈ rows → blocks parse_blocks row = Ok bs → n ∈ omap covers bs →
  history_for_request parse_blocks (app messages rows) through = history_for_request parse_blocks rows through.
Proof.
  intros Hms Hrow Hbs Hn. unfold history_for_request. rewrite collect_results_app.
  destruct (covered_parse n messages Hms) as (parsed & -> & Hid & Hc). cbn [and_then].
  destruct (collect_results _ rows) as [rest|e] eqn:Hrest; [|done]. cbn [and_then].
  assert (Hin : n ∈ omap covers (concat (map snd rest))).
  { apply collect_results_Ok in Hrest. destruct (proj1 (list_elem_of_lookup _ _) Hrow) as (i & Hi).
    destruct (Forall2_lookup_l _ _ _ _ _ Hrest Hi) as (q & Hq & Hpq). unfold parse_message in Hpq. rewrite Hbs in Hpq.
    cbn in Hpq. simplify_eq. apply list_elem_of_omap. apply list_elem_of_omap in Hn as (x & Hx & Hcov).
    exists x. split; [|done]. apply list_elem_of_In, in_concat. exists bs. split; [|by apply list_elem_of_In].
    apply in_map_iff. exists (msg_id row, msg_role row, bs). split; [done|]. apply list_elem_of_In.
    by eapply list_elem_of_lookup_2. }
  assert (Hb : latest_boundary (app parsed rest) = latest_boundary rest).
  { unfold latest_boundary. rewrite map_app, concat_app, omap_app. apply (max_i64_app_le _ _ n n); [done|done|lia]. }
  rewrite Hb, List.filter_app. assert (List.filter (after_boundary (latest_boundary rest)) parsed = []) as ->; [|done].
  unfold latest_boundary. pose proof (max_i64_spec (omap covers (concat (map snd rest)))) as Hm.
  destruct (max_i64 _) as [m|]; [|rewrite Hm in Hin; by apply not_elem_of_nil in Hin].
  destruct Hm as [_ Hm]. specialize (Hm n Hin). clear -Hid Hm. induction Hid as [|q l Hq _ IH]; [done|].
  cbn [List.filter after_boundary]. rewrite bool_decide_eq_false_2 by lia. exact IH.
Qed.

Lemma strip_compaction (b : bool) (x : ContentBlock V) :
  covers x ≠ None ∨ (∃ t, x = CompactionPlaceholder t) → strip_foreign_thinking [x] b = [x].
Proof. intros Hx. destruct b; [|done]. destruct x; try done; cbn in Hx; naive_solver. Qed.

(** Once a compaction's three messages are saved, a request's history never shows what
    they cover: it is the history of those messages and what was saved since, and, before
    anything was, exactly the placeholder, the summary and the prompt to carry on. *)
Theorem compaction_replaces_history messages rows later through n summary typed unanswered refused :
  Forall (covered_by n) messages →
  Forall2 is_row rows (compaction_messages summary n typed unanswered refused) →
  Forall (λ m, n < msg_id m)%Z rows →
  history_for_request parse_blocks (app messages (app rows later)) through
  = history_for_request parse_blocks (app rows later) through
  ∧ (is_blank summary = false →
     history_for_request parse_blocks (app messages rows) through
     = Ok [Build_AnthropicMessage "user" [Text COMPACTION_PLACEHOLDER_PROMPT];
           Build_AnthropicMessage "assistant" [Text summary];
           Build_AnthropicMessage "user" [Text (continuation_prompt typed unanswered)]]).
Proof.
  intros Hms Hrows Hids.
  inversion Hrows as [|p ? ? ? [Hpr Hpb] H1]; subst. inversion H1 as [|s ? ? ? [Hsr Hsb] H2]; subst.
  inversion H2 as [|c ? ? ? [Hcr Hcb] H3]; subst. inversion H3; subst. clear H1 H2 H3 Hrows.
  assert (Heq : ∀ later, history_for_request parse_blocks (app messages (app [p; s; c] later)) through
                         = history_for_request parse_blocks (app [p; s; c] later) through).
  { intros more. eapply (covered_never_shows _ _ _ n s); [done|by right; left|done|]. by left. }
  split; [apply Heq|]. intros Hblank. specialize (Heq []). rewrite !app_nil_r in Heq. rewrite Heq. clear Heq.
  unfold history_for_request. cbn [app collect_results]. unfold parse_message. rewrite Hpb, Hsb, Hcb. cbn [and_then].
  rewrite Hpr, Hsr, Hcr. inversion Hids as [|? ? Hp H1]; subst. inversion H1 as [|? ? Hs H2]; subst.
  inversion H2 as [|? ? Hc _]; subst. cbn -[is_blank]. rewrite !bool_decide_eq_true_2 by lia. cbn -[is_blank].
  rewrite !strip_compaction by (cbn; eauto). unfold without_blank_reply, without_blank_text. cbn -[is_blank].
  by rewrite Hblank.
Qed.
End Replaces.

(** A conversation of one message, compacted. *)
Definition sample_blocks (text : string) : Result (list (ContentBlock JTree)) () :=
  if bool_decide (text = "hello") then Ok [Text "hello"]
  else if bool_decide (text = "ask") then Ok [CompactionPlaceholder COMPACTION_PLACEHOLDER_PROMPT]
  else if bool_decide (text = "summary") then Ok [CompactionSummary "They said hello." 1 None]
  else Ok [CompactionPlaceholder (continuation_prompt default_typed [])].
Definition sample_row (id : Z) (role content : string) : Message := Build_Message id 1 role content 0.

Lemma compaction_replaces_history_witness :
  history_for_request sample_blocks
    [sample_row 1 "user" "hello"; sample_row 2 "user" "ask"; sample_row 3 "assistant" "summary"; sample_row 4 "user" "on"] None
  = Ok [Build_AnthropicMessage "user" [Text COMPACTION_PLACEHOLDER_PROMPT];
        Build_AnthropicMessage "assistant" [Text "They said hello."];
        Build_AnthropicMessage "user" [Text COMPACTION_CONTINUATION_PROMPT]].
Proof.
  apply (proj2 (compaction_replaces_history sample_blocks [sample_row 1 "user" "hello"]
    [sample_row 2 "user" "ask"; sample_row 3 "assistant" "summary"; sample_row 4 "user" "on"] [] None 1
    "They said hello." default_typed [] None
    ltac:(repeat constructor; cbn; [lia|eexists; split; [reflexivity|intros x Hx; inversion Hx]])
    ltac:(repeat constructor) ltac:(repeat constructor; cbn; lia))).
  vm_compute. reflexivity.
Defined.

(** ** What the code gets wrong *)

(** The messages are read newest first but each message's texts in order, and the whole is
    then reversed: two texts of one unanswered message are quoted in the wrong order. *)
Lemma texts_of_one_message_are_reversed :
  unanswered_user_text (λ _, Ok [Text "first"; Text "second"] : Result (list (ContentBlock JTree)) ()) [sample_row 1 "user" "x"]
  = ["second"; "first"].
Proof. vm_compute. reflexivity. Qed.

(** A window of at most 8192 tokens leaves the summarization call no transcript at all, and
    its summary replaces the history all the same. *)
Lemma small_window_summarizes_nothing {V E} `{Json V} (parse_blocks : string → Result (list (ContentBlock V)) E)
    (messages : list Message) (window : Z) (kind : ProviderKind) :
  (window ≤ 8192)%Z →
  chars (compaction_transcript parse_blocks messages (compaction_transcript_budget window kind)) = 0%Z.
Proof.
  intros Hw. assert (compaction_transcript_budget window kind = 0)%Z as ->.
  { unfold compaction_transcript_budget, sat_sub, SUMMARY_MAX_TOKENS, THINKING_ROOM. destruct kind; lia. }
  pose proof (transcript_fits parse_blocks messages 0 ltac:(lia)).
  pose proof (chars_nonneg (compaction_transcript parse_blocks messages 0)). lia.
Qed.
