(* ===== verification/Notify.v ===== *)
(** * Notify: the notices a turn is told

    [src/src/turn/notify.rs]: the words of what is saved at the top of each pass of the turn
    loop, for the commands that finished or wait untouched and for what other agents sent. *)

From S2P Require Import Prelude RustStr Types Notices CompactText.
Local Open Scope string_scope.

(** A row of [terminal_commands] that reached its end. *)
Record FinishedCommand := { finished_id : string; status : string; exit_code : option Z }.

(** One still running, its idle notice due. *)
Record IdleCommand := {
  idle_id : string; command : string; running_for_secs : Z; untouched_for_secs : Z; stdout_lines : Z; stderr_lines : Z;
}.

(** A row of [agent_messages]. *)
Record AgentMessage := { message_kind : string; from_label : string; from_conversation_id : option Z; body : string }.

Definition KIND_REPORT : string := "report".
Definition KIND_MESSAGE : string := "message".
Definition KIND_QUESTION : string := "question".

Definition finished_text (c : FinishedCommand) : string :=
  mark_notice
    (if bool_decide (status c = "finished") then
       "Terminal command " +:+ finished_id c +:+ " finished: exit code "
       +:+ match exit_code c with Some code => pretty code | None => "unknown" end +:+ "."
     else
       "Terminal command " +:+ finished_id c
       +:+ "'s outcome is unknown — the terminal became unreachable while it was running.").

(** [format!("{n} {unit}")], with its plural. *)
Definition count (n : Z) (unit_ : string) : string :=
  if bool_decide (n = 1%Z) then pretty n +:+ " " +:+ unit_ else pretty n +:+ " " +:+ unit_ +:+ "s".

Definition spoken (big small : Z) (big_unit small_unit : string) : string :=
  if bool_decide (small = 0%Z) then count big big_unit
  else count big big_unit +:+ " " +:+ count small small_unit.

Definition format_duration (secs : Z) : string :=
  let secs := Z.max secs 0 in
  if bool_decide (secs < 60)%Z then count secs "second"
  else if bool_decide (secs < 3600)%Z then spoken (secs `div` 60) (secs `mod` 60) "minute" "second"
  else if bool_decide (secs < 86400)%Z then spoken (secs `div` 3600) ((secs `mod` 3600) `div` 60) "hour" "minute"
  else spoken (secs `div` 86400) ((secs `mod` 86400) `div` 3600) "day" "hour".

Definition IDLE_NOTICE_FRAGMENT : string := "is still running and hasn't been touched in".

(** [tools::shown_command]. *)
Definition SHOWN_CHARS : Z := 80.
Definition shown_command (command : string) : string :=
  first_chars command SHOWN_CHARS +:+ (if bool_decide (SHOWN_CHARS < chars command)%Z then "…" else "").

Definition idle_text (c : IdleCommand) : string :=
  mark_notice
    ("Terminal command " +:+ idle_id c +:+ " (" +:+ dquote +:+ shown_command (command c) +:+ dquote
     +:+ ", running for " +:+ format_duration (running_for_secs c) +:+ ") " +:+ IDLE_NOTICE_FRAGMENT +:+ " "
     +:+ format_duration (untouched_for_secs c) +:+ ": " +:+ pretty (stdout_lines c) +:+ " lines on stdout, "
     +:+ pretty (stderr_lines c)
     +:+ " on stderr. Nothing stopped it and smelt won't stop it. Read what it has printed with read_terminal_output, check it with terminal_command_status, interrupt it with send_signal (INT, then KILL if it ignores that), or run your next command in another terminal. To stop these notices for it, call set_idle_notice with idle_notice_seconds 0 or a longer interval.").

Definition agent_message_text (row : AgentMessage) : string :=
  if bool_decide (message_kind row = KIND_REPORT) then
    "Report from " +:+ from_label row +:+ ":" +:+ blank_line +:+ body row
  else if bool_decide (message_kind row = KIND_MESSAGE) then
    "Message from " +:+ from_label row +:+ ":" +:+ blank_line +:+ body row
  else if bool_decide (message_kind row = KIND_QUESTION) then
    match from_conversation_id row with
    | Some from =>
        "Question from " +:+ from_label row +:+ ", which waits for your answer (reply with message_agent to "
        +:+ pretty from +:+ "):" +:+ blank_line +:+ body row
    | None => "Question from " +:+ from_label row +:+ " (since deleted):" +:+ blank_line +:+ body row
    end
  else mark_notice ("Notice: " +:+ body row).

(** ** What a notice is read back as *)

Lemma is_typed_mark text : is_typed (mark_notice text) = false.
Proof.
  unfold is_typed, mark_notice. rewrite (starts_with_app NOTICE_MARK text).
  by assert (starts_with PARENT_MESSAGE_START (NOTICE_MARK +:+ text) = false) as -> by reflexivity.
Qed.

Lemma is_typed_parent text : is_typed (PARENT_MESSAGE_START +:+ text) = true.
Proof. unfold is_typed. by rewrite starts_with_app. Qed.

Lemma is_typed_server start text :
  start ∈ SERVER_TEXT_STARTS → starts_with PARENT_MESSAGE_START (start +:+ text) = false → is_typed (start +:+ text) = false.
Proof.
  intros Hin Hp. unfold is_typed. rewrite Hp. cbn [orb].
  assert (existsb (λ s, starts_with s (start +:+ text)) SERVER_TEXT_STARTS = true) as ->; [|by rewrite andb_false_r].
  apply existsb_exists. exists start. split; [by apply list_elem_of_In|apply starts_with_app].
Qed.

Lemma agent_message_is_typed row :
  from_label row = "your parent" ∨ (∃ rest, from_label row = "agent #" +:+ rest) →
  is_typed (agent_message_text row) = bool_decide (message_kind row = KIND_MESSAGE) && bool_decide (from_label row = "your parent").
Proof.
  destruct row as [kind label from body]. unfold agent_message_text. cbn [message_kind from_label from_conversation_id Notify.body].
  intros Hlabel. case_bool_decide as Hr; [subst kind|].
  { rewrite (is_typed_server "Report from "); [done|set_solver|reflexivity]. }
  case_bool_decide as Hm; [subst kind; cbn [andb]|].
  { destruct Hlabel as [->|[rest ->]].
    - rewrite bool_decide_eq_true_2 by done. apply (is_typed_parent (blank_line +:+ body)).
    - rewrite bool_decide_eq_false_2 by done.
      apply (is_typed_server "Message from agent #" (rest +:+ ":" +:+ blank_line +:+ body)); [set_solver|reflexivity]. }
  case_bool_decide as Hq; [|apply is_typed_mark].
  destruct from; (rewrite (is_typed_server "Question from "); [done|set_solver|reflexivity]).
Qed.

(** A compaction never quotes a notice smelt wrote as the user's own words: of all that a
    turn is told of commands and agents, only a message from the agent's parent counts as
    typed. *)
Theorem only_a_parents_message_is_typed finished idle row :
  is_typed (finished_text finished) = false
  ∧ is_typed (idle_text idle) = false
  ∧ (from_label row = "your parent" ∨ (∃ rest, from_label row = "agent #" +:+ rest) →
     is_typed (agent_message_text row) = true ↔ message_kind row = KIND_MESSAGE ∧ from_label row = "your parent").
Proof.
  conjs; [apply is_typed_mark|apply is_typed_mark|]. intros Hlabel. rewrite (agent_message_is_typed _ Hlabel).
  by rewrite andb_true_iff, !bool_decide_eq_true.
Qed.
