(* ===== verification/Reply.v ===== *)
(** * Reply: what a turn does with a model's reply

    [src/src/turn/reply.rs]: saving a reply and what its calls get when it was cut off, the
    notice of a reply smelt stopped, running the calls, and what follows: the calls, the
    model called again with a correction or a nudge, or the turn's end.

    A turn's own variables are the state [Turn] of a small state-and-error monad: what an
    error leaves saved stays saved.  What the code asks of the rest of the program (whether a
    save fails, whether a question is allowed or recorded, what a tool returns) is an
    argument that may look at the whole state. *)

From S2P Require Import Stream TurnState.
From S2P Require Import Prelude RustStr Json Types Budget ToolNames Notices TextCalls TextCallNotice Models History.
From S2P Require Import Providers Overflow Questions.
Local Open Scope string_scope.

Definition FINISH : string := "finish".
Definition NOTIFY_USER : string := "notify_user".
Definition CUT_OFF_TOOL_CALL : string :=
  "Not run: your reply was cut off before it finished, so none of its tool calls ran. Make the call again if it's still needed.".

(** Corrections in a row, and whether a reply with no text and no call was nudged since the
    last real call. *)
Record TextCallStreak := { corrections : nat; nudged : bool }.
#[export] Instance TextCallStreak_eta : Eta TextCallStreak := λ s, Build_TextCallStreak (corrections s) (nudged s).
Definition default_streak : TextCallStreak := Build_TextCallStreak 0 false.

(** [TextCallStreak::after_calls]: the error it ends the turn with, and the streak after. *)
Definition after_calls (unknown : option string) (s : TextCallStreak) : option string * TextCallStreak :=
  match unknown with
  | Some name =>
      if bool_decide (corrections s = MAX_TEXT_CALL_CORRECTIONS) then (Some (unoffered_bound_error name), s)
      else (None, s <| corrections ::= S |>)
  | None => (None, Build_TextCallStreak 0 false)
  end.

Inductive NextStep := RunTools (correction : option string) | CallAgain | EndTurn.

Section Reply.
Context {V : Type} `{Json V}.
Implicit Types (b : ContentBlock V) (bs acc : list (ContentBlock V)).

(** What a turn keeps as it goes: the messages it saved, what is new since the last reply,
    the reasons it noted that the user is needed, the streaming reply's copy, the streak. *)
Record Turn := {
  persisted : list (AnthropicMessage V);
  pending_new_content : list (ContentBlock V);
  noted : list TurnState.Attention;
  in_progress : option string;
  streak : TextCallStreak;
}.
#[export] Instance Turn_eta : Eta Turn := λ t,
  Build_Turn (persisted t) (pending_new_content t) (noted t) (in_progress t) (streak t).

Definition M (A : Type) : Type := Turn → Result A string * Turn.
Definition ret {A} (x : A) : M A := λ t, (Ok x, t).
Definition fail {A} (e : string) : M A := λ t, (Err e, t).
Definition bind {A B} (m : M A) (f : A → M B) : M B :=
  λ t, match m t with (Ok x, t) => f x t | (Err e, t) => (Err e, t) end.
Definition modify (f : Turn → Turn) : M () := λ t, (Ok (), f t).
Definition get : M Turn := λ t, (Ok t, t).
(** A [Result] with [?]. *)
Definition lift {A} (r : Turn → Result A string) : M A := λ t, (r t, t).

(** [db::create_message] and [record_saved]: its error when the save fails. *)
Variable create_message : Turn → AnthropicMessage V → option string.

Definition save (role : string) bs : M () :=
  λ t, let m := Build_AnthropicMessage role bs in
       match create_message t m with
       | Some e => (Err e, t)
       | None => (Ok (), t <| persisted ::= λ l, app l [m] |>)
       end.

(** ** Saving *)

Definition not_run_result (id : string) : ContentBlock V := ToolResult id CUT_OFF_TOOL_CALL (Some true).
Definition is_refusal (stop_reason : string) : bool := bool_decide (stop_reason = "refusal").

Definition save_reply (turn : Stream.StreamedTurn (V := V)) : M () :=
  let reply := without_blank_text (Stream.turn_content turn) in
  bind (match reply with [] => ret () | _ => save "assistant" reply end) (λ _,
  bind (modify (λ t, t <| in_progress := None |>)) (λ _,
  if Stream.is_cut_off (Stream.turn_stop_reason turn) || is_refusal (Stream.turn_stop_reason turn) then
    match map not_run_result (tool_calls (Stream.turn_content turn)) with
    | [] => ret ()
    | not_run => save "user" not_run
    end
  else ret ())).

(** Where a reply was cut off, and by what. *)
Definition cut_off_by (m : TurnModel) (turn : Stream.StreamedTurn (V := V)) (budget : ReplyBudget) : option (Z * ReplyLimit) :=
  let reason := Stream.turn_stop_reason turn in
  let written := output_tokens (Stream.turn_usage turn) in
  if negb (Stream.is_cut_off reason) then None
  else if window_stop (kind m) reason written (tokens budget) then
    Some (default (tokens budget) (w ← u32_try_from written; if bool_decide (0 < w)%Z then Some w else None), RoomLeft)
  else if match u32_try_from written with Some w => bool_decide (tokens budget < w)%Z | None => false end then
    Some (default (tokens budget) (u32_try_from written), LaunchCap)
  else
    Some (tokens budget,
          match limit budget with
          | OutputCap => if output_cap_is_models_own m then ModelMaximum else OutputCap
          | limit => limit
          end).

Definition stop_notice (m : TurnModel) (turn : Stream.StreamedTurn (V := V)) (budget : ReplyBudget) : option string :=
  match cut_off_by m turn budget with
  | Some (tokens, limit) => Some (cut_off_notice tokens limit (Stream.cut_off_call turn))
  | None =>
      if is_refusal (Stream.turn_stop_reason turn) then Some (refusal_notice (Stream.cut_off_call turn)) else None
  end.

Definition save_stop_notice (m : TurnModel) (turn : Stream.StreamedTurn (V := V)) (budget : ReplyBudget)
    (carries_on : bool) : M () :=
  match stop_notice m turn budget with
  | None => ret ()
  | Some notice =>
      bind (save "user" [Text notice]) (λ _,
      if carries_on then ret ()
      else modify (λ t, t <| noted ::= λ l, app l
             [if Stream.is_cut_off (Stream.turn_stop_reason turn) then TurnState.CutOff else TurnState.Refused] |>))
  end.

(** [why_reply_stopped]'s reading of the last message saved. *)
Definition why_reply_stopped (saved : list (AnthropicMessage V)) : option string :=
  m ← last saved;
  match content m with
  | [Text text] =>
      let dropped (call : option string) :=
        match call with
        | Some name => ", in the middle of a call to `" +:+ name +:+ "`, which didn't run"
        | None => ""
        end in
      match parse_refusal_notice text with
      | Some call => Some ("the model provider's safety system refused its reply" +:+ dropped call)
      | None =>
          '(tokens, limit, call) ← parse_cut_off_notice text;
          Some ("its reply was cut off at " +:+ show_unsigned tokens +:+ " tokens, " +:+ reason limit +:+ dropped call)
      end
  | _ => None
  end.

(** [save_notice]. *)
Definition save_notice (notice : string) : M () :=
  bind (save "user" [Text notice]) (λ _,
  modify (λ t, t <| pending_new_content ::= λ l, app l [Text notice] |>)).

(** ** Running the calls *)

Definition is_question (name : string) : bool := bool_decide (name = ASK_USER) || bool_decide (name = ASK_PARENT).

Record RanTools := { results : list (ContentBlock V); ends : bool; asked : option string; unknown : option string }.

(** [question_allowed]'s refusal; [ask_user]'s questions; recording them, which fails the
    turn; [ask_parent]'s refusal; a tool's result, by the call's id. *)
Variable question_denied : Turn → string → V → option string.
Variable read_questions : V → Result (list Question) string.
Variable debug_str : string → string.
Variable ask : Turn → string → list Question → option string.
Variable ask_parent : Turn → string → V → option string.
Variable execute : Turn → string → string → V → Result string string.
Variable to_lowercase : string → string.

Definition error_result (id message : string) : ContentBlock V := ToolResult id message (Some true).

Definition ONE_SET : string := "ask one set of questions at a time: put them all in one ask_user call".
Definition ONE_QUESTION : string :=
  "ask one question at a time: ask_user and ask_parent each end your turn, so call only one of them, once".

(** The first loop over the reply's blocks: the questions.  The results so far, and the
    question recorded: its name and id. *)
Fixpoint ask_questions bs (acc : list (ContentBlock V)) (asked : option (string * string))
    : M (list (ContentBlock V) * option (string * string)) :=
  match bs with
  | [] => ret (acc, asked)
  | ToolUse id name input :: bs =>
      if negb (is_question name) then ask_questions bs acc asked
      else
        bind get (λ t,
        match question_denied t name input with
        | Some denied => ask_questions bs (app acc [error_result id denied]) asked
        | None =>
            let refuse e := ask_questions bs (app acc [error_result id e]) asked in
            match asked with
            | Some (first, _) =>
                refuse (if bool_decide (first = name) && bool_decide (name = ASK_USER) then ONE_SET else ONE_QUESTION)
            | None =>
                if bool_decide (name = ASK_USER) then
                  match parse_questions read_questions debug_str input with
                  | Ok questions =>
                      match ask t id questions with
                      | Some e => fail e
                      | None => ask_questions bs acc (Some (name, id))
                      end
                  | Err e => refuse e
                  end
                else
                  match ask_parent t id input with
                  | Some e => refuse e
                  | None => ask_questions bs acc (Some (name, id))
                  end
            end
        end)
  | _ :: bs => ask_questions bs acc asked
  end.

(** A call by a name no tool has, or that isn't offered. *)
Definition call_is_unknown (offered : list string) (name : string) (result : Result string string) : bool :=
  match result with
  | Err message => is_unknown_name_error message || is_unoffered_tool_of_an_offered_server name offered
  | Ok _ => false
  end.

Record Ran := { ran_results : list (ContentBlock V); ran_finished : bool; first_unknown : option string; all_unknown : bool }.

(** One pass of the second loop, on a call that isn't a question. *)
Definition run_call (offered : list string) (t : Turn) (id name : string) (input : V) (r : Ran) : Ran :=
  let result := execute t id name input in
  let unknown := call_is_unknown offered name result in
  let block :=
    match result with
    | Ok output => ToolResult id output None
    | Err message => error_result id (if unknown then unoffered_call_result to_lowercase message name offered else message)
    end in
  Build_Ran (app (ran_results r) [block])
    (ran_finished r || ((bool_decide (name = FINISH) || bool_decide (name = NOTIFY_USER)) && is_ok result))
    (if unknown then match first_unknown r with Some n => Some n | None => Some name end else first_unknown r)
    (all_unknown r && unknown).

Fixpoint run_calls (offered : list string) bs (t : Turn) (r : Ran) : Ran :=
  match bs with
  | [] => r
  | ToolUse id name input :: bs =>
      run_calls offered bs t (if is_question name then r else run_call offered t id name input r)
  | _ :: bs => run_calls offered bs t r
  end.

Definition has_question bs : bool :=
  existsb (λ b, match b with ToolUse _ name _ => is_question name | _ => false end) bs.

Definition run_tools (turn : Stream.StreamedTurn (V := V)) (offered : list string) : M RanTools :=
  let bs := Stream.turn_content turn in
  bind (ask_questions bs [] None) (λ '(acc, asked),
  bind get (λ t,
  let r := run_calls offered bs t (Build_Ran acc false None (negb (has_question bs))) in
  ret (Build_RanTools (ran_results r) (is_some asked || ran_finished r) (snd <$> asked)
         (if all_unknown r then first_unknown r else None)))).

(** ** What follows a reply *)

(** [serde_json]'s stream reader, for [find]. *)
Variable first_value : string → option V.

Definition text_calls bs : list TextCall :=
  concat (omap (λ b, match b with Text text => Some (find first_value text) | _ => None end) bs).

Definition call_names bs : list string := omap (λ b, match b with ToolUse _ name _ => Some name | _ => None end) bs.

Definition is_answer b : bool := match b with Text text => negb (is_blank (mask_think text)) | _ => false end.

Definition after_reply (turn : Stream.StreamedTurn (V := V)) (offered : list string) : M NextStep :=
  let reason := Stream.turn_stop_reason turn in
  let bs := Stream.turn_content turn in
  if Stream.is_cut_off reason || is_refusal reason then ret EndTurn
  else if existsb is_tool_use bs then
    if negb (bool_decide (reason = "tool_use")) then ret EndTurn
    else
      let made := call_names bs in
      let calls :=
        List.filter (λ c, match c with Some n => negb (bool_decide (n ∈ made)) | None => false end) (text_calls bs) in
      ret (RunTools (match calls with [] => None | _ => Some (text_call_notice to_lowercase calls offered) end))
  else
    match text_calls bs with
    | [] =>
        bind get (λ t,
        if existsb is_answer bs || nudged (streak t) then ret EndTurn
        else
          bind (modify (λ t, t <| streak := Build_TextCallStreak 0 true |>)) (λ _,
          bind (save_notice empty_reply_notice) (λ _, ret CallAgain)))
    | calls =>
        bind (save_notice (text_call_notice to_lowercase calls offered)) (λ _,
        bind get (λ t,
        if bool_decide (corrections (streak t) = MAX_TEXT_CALL_CORRECTIONS) then fail (bound_error calls)
        else bind (modify (λ t, t <| streak ::= λ s, s <| corrections ::= S |> |>)) (λ _, ret CallAgain)))
    end.

(** ** Every call gets its result *)

(** The calls among [bs], in order. *)
Definition calls_of bs : list (string * string * V) :=
  omap (λ b, match b with ToolUse id name input => Some (id, name, input) | _ => None end) bs.
Definition call_id (c : string * string * V) : string := c.1.1.
Definition call_name (c : string * string * V) : string := c.1.2.
Definition asks (c : string * string * V) : bool := is_question (call_name c).
Definition executed (t : Turn) (c : string * string * V) : Result string string := execute t (call_id c) (call_name c) c.2.
(** A call that names no offered tool; a question is never one. *)
Definition names_no_tool (offered : list string) (t : Turn) (c : string * string * V) : bool :=
  negb (asks c) && call_is_unknown offered (call_name c) (executed t c).
(** A call that ends the turn, made by an agent that finished. *)
Definition finishes (t : Turn) (c : string * string * V) : bool :=
  negb (asks c) && (bool_decide (call_name c = FINISH) || bool_decide (call_name c = NOTIFY_USER)) && is_ok (executed t c).

Lemma call_ids bs : tool_calls bs = map call_id (calls_of bs).
Proof. induction bs as [|[] bs IH]; cbn in *; try done; by f_equal. Qed.

(** What the first loop leaves: each question answered, refused, or recorded. *)
Definition asked_well bs (t : Turn) acc (asked : option (string * string)) (out : Result (list (ContentBlock V) * option (string * string)) string * Turn) : Prop :=
  match out with
  | (Ok (acc', asked'), t') =>
      t' = t
      ∧ app (tool_results acc') (option_list (snd <$> asked'))
        ≡ₚ app (app (tool_results acc) (option_list (snd <$> asked))) (map call_id (List.filter asks (calls_of bs)))
      ∧ (asked ≠ None → asked' = asked)
      ∧ (asked = None → ∀ name id, asked' = Some (name, id) →
           ∃ input, (id, name, input) ∈ calls_of bs ∧ is_question name = true ∧ question_denied t name input = None)
  | (Err e, t') => t' = t ∧ asked = None ∧ ∃ id questions, ask t id questions = Some e
  end.

Lemma asked_skip b bs t acc asked out :
  List.filter asks (calls_of [b]) = [] → asked_well bs t acc asked out → asked_well (b :: bs) t acc asked out.
Proof.
  intros Hb Hout.
  assert (Hf : List.filter asks (calls_of (b :: bs)) = List.filter asks (calls_of bs)).
  { change (b :: bs) with (app [b] bs). unfold calls_of in *. by rewrite omap_app, List.filter_app, Hb. }
  destruct out as [[[acc' asked']|e] t']; [|done]. unfold asked_well in *. rewrite Hf.
  destruct Hout as (-> & ? & ? & Hn). conjs; try done. intros HN name id Ha.
  destruct (Hn HN name id Ha) as (input & Hin & ?). exists input. split; [|done].
  change (b :: bs) with (app [b] bs). unfold calls_of. rewrite omap_app. by apply elem_of_app; right.
Qed.

Lemma calls_use id name input bs : calls_of (ToolUse id name input :: bs) = (id, name, input) :: calls_of bs.
Proof. done. Qed.

Lemma filter_asks_call id name input l :
  is_question name = true → List.filter asks ((id, name, input) :: l) = (id, name, input) :: List.filter asks l.
Proof. intros Hq. cbn. change (asks (id, name, input)) with (is_question name). by rewrite Hq. Qed.

Lemma asked_refuse id name input e bs t acc asked out :
  is_question name = true → asked_well bs t (app acc [error_result id e]) asked out →
  asked_well (ToolUse id name input :: bs) t acc asked out.
Proof.
  intros Hq Hout. destruct out as [[[acc' asked']|e'] t']; [|done]. unfold asked_well in *.
  destruct Hout as (-> & Hp & ? & Hn). conjs; try done.
  - rewrite Hp, tool_results_app, calls_use, filter_asks_call by done. cbn. solve_Permutation.
  - intros HN n i Ha. destruct (Hn HN n i Ha) as (input' & Hin & ?). exists input'. split; [|done].
    rewrite calls_use. by right.
Qed.

Lemma asked_record id name input bs t acc out :
  is_question name = true → question_denied t name input = None → asked_well bs t acc (Some (name, id)) out →
  asked_well (ToolUse id name input :: bs) t acc None out.
Proof.
  intros Hq Hd Hout. destruct out as [[[acc' asked']|e'] t']; [|naive_solver]. unfold asked_well in *.
  destruct Hout as (-> & Hp & Hs & _). specialize (Hs ltac:(done)) as ->. conjs; try done.
  - rewrite Hp, calls_use, filter_asks_call by done. cbn. solve_Permutation.
  - intros _ n i [= <- <-]. exists input. split; [|done]. rewrite calls_use. by left.
Qed.

Lemma ask_questions_spec bs : ∀ acc asked t, asked_well bs t acc asked (ask_questions bs acc asked t).
Proof.
  induction bs as [|b bs IH]; intros acc asked t.
  { cbn. rewrite app_nil_r. naive_solver. }
  destruct b as [| id name input| | | |]; cbn [ask_questions]; try (by apply asked_skip).
  destruct (is_question name) eqn:Hq; cbn [negb];
    [|apply asked_skip; [cbn; unfold asks; cbn; by rewrite Hq|done]].
  unfold bind at 1. cbn [get].
  destruct (question_denied t name input) as [denied|] eqn:Hd; [by eapply asked_refuse|].
  destruct asked as [[first i]|]; [by eapply asked_refuse|].
  case_bool_decide.
  - destruct (parse_questions _ _ _) as [qs|e]; [|by eapply asked_refuse].
    destruct (ask t id qs) as [e|] eqn:Ha; [cbn; naive_solver|by apply asked_record].
  - destruct (ask_parent t id input) as [e|]; [by eapply asked_refuse|by apply asked_record].
Qed.
(** The second loop, over the calls themselves. *)
Definition ordinary (l : list (string * string * V)) : list (string * string * V) := List.filter (λ c, negb (asks c)) l.

Lemma ordinary_cons id name input l :
  ordinary ((id, name, input) :: l) = if is_question name then ordinary l else (id, name, input) :: ordinary l.
Proof. unfold ordinary. cbn. change (asks (id, name, input)) with (is_question name). by destruct (is_question name). Qed.

Lemma finishes_cons t id name input l :
  existsb (finishes t) ((id, name, input) :: l)
  = negb (is_question name) && (bool_decide (name = FINISH) || bool_decide (name = NOTIFY_USER))
      && is_ok (execute t id name input) || existsb (finishes t) l.
Proof. done. Qed.

Lemma names_call offered t id name input :
  is_question name = false → names_no_tool offered t (id, name, input) = call_is_unknown offered name (execute t id name input).
Proof. intros Hq. unfold names_no_tool. change (asks (id, name, input)) with (is_question name). by rewrite Hq. Qed.

Lemma run_calls_spec offered t bs : ∀ r,
  let calls := ordinary (calls_of bs) in
  let ran := run_calls offered bs t r in
  tool_results (ran_results ran) = app (tool_results (ran_results r)) (map call_id calls)
  ∧ ran_finished ran = ran_finished r || existsb (finishes t) (calls_of bs)
  ∧ all_unknown ran = all_unknown r && forallb (names_no_tool offered t) calls
  ∧ first_unknown ran = match first_unknown r with
                        | Some n => Some n
                        | None => call_name <$> head (List.filter (names_no_tool offered t) calls)
                        end.
Proof.
  induction bs as [|b bs IH]; intros r; cbn [run_calls].
  { cbn. rewrite app_nil_r, orb_false_r, andb_true_r. conjs; try done. by destruct (first_unknown r). }
  destruct b as [| id name input| | | |]; try apply IH.
  rewrite calls_use, ordinary_cons, finishes_cons. destruct (is_question name) eqn:Hq; cbn [negb andb orb]; [apply IH|].
  destruct (IH (run_call offered t id name input r)) as (-> & -> & -> & ->). clear IH.
  cbn [map forallb List.filter]. rewrite (names_call _ _ _ _ _ Hq).
  cbn [run_call ran_results ran_finished all_unknown first_unknown].
  conjs.
  - rewrite tool_results_app, <- app_assoc. f_equal. by destruct (execute t id name input).
  - by rewrite orb_assoc.
  - by rewrite andb_assoc.
  - destruct (first_unknown r); [by destruct (call_is_unknown _ _ _)|]. by destruct (call_is_unknown _ _ _).
Qed.

Lemma has_question_spec bs : has_question bs = existsb asks (calls_of bs).
Proof. induction bs as [|[]]; cbn in *; try done. by f_equal. Qed.

Lemma partition_calls l : app (List.filter asks l) (ordinary l) ≡ₚ l.
Proof.
  induction l as [|c l IH]; [done|]. unfold ordinary in *. cbn. destruct (asks c); cbn; [by f_equiv|].
  by rewrite <- Permutation_middle, IH.
Qed.

Lemma no_questions l : existsb asks l = false → ordinary l = l.
Proof. induction l as [|c l IH]; cbn; [done|]. intros [-> ?]%orb_false_iff. cbn. by f_equal; apply IH. Qed.

Lemma all_name_no_tool offered t l :
  negb (existsb asks l) && forallb (names_no_tool offered t) (ordinary l) = forallb (names_no_tool offered t) l.
Proof.
  induction l as [|c l IH]; [done|]. cbn [existsb forallb]. rewrite <- IH. clear IH. unfold ordinary. cbn [List.filter].
  assert (names_no_tool offered t c = negb (asks c) && names_no_tool offered t c) as Hc
    by (unfold names_no_tool; by destruct (asks c)).
  destruct (asks c); cbn in *; [by rewrite Hc|]. by destruct (existsb asks l), (names_no_tool offered t c).
Qed.

Lemma filter_all {A} (f : A → bool) (l : list A) : forallb f l = true → List.filter f l = l.
Proof. induction l as [|x l IH]; cbn; [done|]. intros [-> ?]%andb_true_iff. f_equal. by apply IH. Qed.

Lemma run_tools_ran (turn : Stream.StreamedTurn (V := V)) offered t r t' :
  run_tools turn offered t = (r, t') →
  t' = t
  ∧ ∀ ran, r = Ok ran →
      app (tool_results (results ran)) (option_list (asked ran)) ≡ₚ tool_calls (Stream.turn_content turn)
      ∧ (asked ran ≠ None → ends ran = true).
Proof.
  unfold run_tools, bind. set (bs := Stream.turn_content turn). pose proof (ask_questions_spec bs [] None t) as Hq.
  destruct (ask_questions bs [] None t) as [[[acc asked]|e] t0]; cbn in Hq.
  2:{ destruct Hq as (-> & _). intros [= <- <-]. split; [done|]. by intros ran [=]. }
  destruct Hq as (-> & Hp & _ & Ha). cbn [get ret]. intros [= <- <-]. split; [done|]. intros ran [= <-].
  cbn [results Reply.asked ends]. set (r := Build_Ran _ _ _ _).
  destruct (run_calls_spec offered t bs r) as (Hr & Hf & _). split; [|destruct asked as [[]|]; [done|by intros []]].
  rewrite Hr. cbn. rewrite call_ids. etransitivity; [|exact (Permutation_map call_id (partition_calls (calls_of bs)))].
  rewrite map_app, <- Hp. solve_Permutation.
Qed.

(** Running a reply's calls gives each call exactly one result, the recorded question
    excepted, whose result is its answer, and leaves the turn's own variables as they were.
    At most one question is recorded, an allowed one.  The turn ends exactly when a question
    was recorded or an agent's own last call went through.  The correction bound counts the
    reply exactly when every call it makes names no tool, under the first one's name.  It
    fails only on a question that couldn't be recorded. *)
Theorem run_tools_answers_each_call (turn : Stream.StreamedTurn (V := V)) offered t :
  let calls := calls_of (Stream.turn_content turn) in
  match run_tools turn offered t with
  | (Ok ran, t') =>
      t' = t
      ∧ app (tool_results (results ran)) (option_list (asked ran)) ≡ₚ tool_calls (Stream.turn_content turn)
      ∧ (∀ id, asked ran = Some id →
           ∃ name input, (id, name, input) ∈ calls ∧ is_question name = true ∧ question_denied t name input = None)
      ∧ ends ran = is_some (asked ran) || existsb (finishes t) calls
      ∧ unknown ran = (if forallb (names_no_tool offered t) calls then call_name <$> head calls else None)
  | (Err e, t') => t' = t ∧ ∃ id questions, ask t id questions = Some e
  end.
Proof.
  cbv zeta. unfold run_tools, bind. set (bs := Stream.turn_content turn).
  pose proof (ask_questions_spec bs [] None t) as Hq.
  destruct (ask_questions bs [] None t) as [[[acc asked]|e] t']; cbn in Hq; [|naive_solver].
  destruct Hq as (-> & Hp & _ & Ha). cbn [get ret results Reply.asked ends unknown].
  set (r := Build_Ran _ _ _ _). destruct (run_calls_spec offered t bs r) as (Hr & -> & Hall & Hfirst).
  conjs; try done.
  - rewrite Hr. cbn. rewrite call_ids.
    etransitivity; [|exact (Permutation_map call_id (partition_calls (calls_of bs)))].
    rewrite map_app, <- Hp. solve_Permutation.
  - intros id Hid. destruct asked as [[n i]|]; [|done]. cbn in Hid. simplify_eq.
    destruct (Ha eq_refl n id eq_refl) as (input & ?). by exists n, input.
  - by destruct asked as [[]|].
  - rewrite Hall, Hfirst. unfold r. cbn [all_unknown first_unknown]. rewrite has_question_spec.
    rewrite all_name_no_tool.
    destruct (forallb (names_no_tool offered t) (calls_of bs)) eqn:Hf; [|done].
    assert (existsb asks (calls_of bs) = false) as Hn.
    { apply not_true_iff_false. intros (c & Hin & Hc)%existsb_exists.
      rewrite forallb_forall in Hf. specialize (Hf c Hin). unfold names_no_tool in Hf. by rewrite Hc in Hf. }
    rewrite (no_questions _ Hn). by rewrite (filter_all _ _ Hf).
Qed.
End Reply.
