(* ===== verification/TurnLoop.v ===== *)
(** * TurnLoop: a turn, from its message to its end

    [src/src/turn/run.rs] ([run_turn_loop]), with the steps it is made of:
    [turn/questions.rs] (a question's answer taken before anything else), [turn/notify.rs]
    (the notices drained), [turn/compaction.rs] ([compact], [summarize]), [turn/reply.rs]
    ([build_request], [apply_budget], [build_request_with_room]), [turn/call.rs]
    ([call_model]) and [turn/overflow.rs] ([recover]).

    The turn's own variables, with the records it shares with the rest of the process
    (the compaction progress, the database's providers, the window-stop candidates, the
    pending question), are the state [Loop] of a state-and-error monad.  The rest of the
    program and the providers are [Outside]: what each call of it gives may depend on its
    arguments and on [world], which every call moves on.  Slots, telemetry, the CLI run a
    Claude Code turn holds, and what is published to tabs are left out. *)

From S2P Require Import Stream TurnState.
From S2P Require Import Prelude RustStr Json Types Budget Compaction ToolNames Notices TextCalls TextCallNotice Models.
From S2P Require Import History Providers Overflow Questions CompactText Notify Reply.
Local Open Scope string_scope.

(** [anthropic::overflow::Overflow]. *)
Record Refused := { window_named : option Z; input_named : option Z; refusal_message : string }.

(** [turn::call::CallError]. *)
Inductive CallError := TooBig (overflow : Refused) | Failed (e : string).

(** [db::StoredQuestion], the conversation's row of [pending_questions]. *)
Record StoredQuestion := {
  question_id : string; asked_of_parent : bool; asked_questions : list Question; answer : option (list QuestionAnswer);
}.
#[export] Instance StoredQuestion_eta : Eta StoredQuestion := λ q,
  Build_StoredQuestion (question_id q) (asked_of_parent q) (asked_questions q) (answer q).

(** Why the loop goes round again. *)
Inductive Why := CarriedOn | Corrected | RanTheTools (unknown : option string).
Inductive Step := Returned | Again (why : Why).

Definition TOOL_CALL_PARSE_RETRIES : nat := 2.
Definition is_ollama_thinking_tool_call_corruption (message : string) : bool :=
  contains "error parsing tool call" message.

Definition PARENT_ANSWERED : string := "Your parent answered:".
Definition COMPACTION_SYSTEM_PROMPT : string :=
  "You are compacting an AI coding agent's conversation history to free up context window space. Write a concise summary of the conversation so far: the user's original goal, key decisions made, the current state of any files or code changed, and any unresolved next steps. You MUST explicitly mention, by its exact id, every sandbox pod and terminal listed below as currently live — never omit or paraphrase an id, since later tool calls still need a working reference to it. Write the summary as plain prose.".

Section TurnLoop.
Context {V W : Type} `{Json V}.
Implicit Types (b : ContentBlock V) (bs : list (ContentBlock V)) (m : TurnModel) (u : TokenUsage).
Notation StreamedTurn := (Stream.StreamedTurn (V := V)).

(** ** What the turn keeps *)

Record Loop := {
  world : W;
  turn : Turn (V := V);
  pending_question : option StoredQuestion;
  activity_owed : bool;
  last_known_usage : option TokenUsage;
  resolved_model : option TurnModel;
  progress : CompactionProgress;
  generation : option Z;
  steps : nat;
  db : Db;
  candidates : Candidates;
}.
#[export] Instance Loop_eta : Eta Loop := λ l,
  Build_Loop (world l) (turn l) (pending_question l) (activity_owed l) (last_known_usage l) (resolved_model l)
    (progress l) (generation l) (steps l) (db l) (candidates l).

(** ** What it is not *)

Record Outside := {
  next : W → W;
  (** The turn's own: the database insert, questions and tools, as in [Reply]. *)
  create_message : W → Turn (V := V) → AnthropicMessage V → option string;
  question_denied : W → Turn (V := V) → string → V → option string;
  read_questions : V → Result (list Question) string;
  debug_str : string → string;
  ask : W → Turn (V := V) → string → list Question → option string;
  ask_parent : W → Turn (V := V) → string → V → option string;
  execute : W → Turn (V := V) → string → string → V → Result string string;
  to_lowercase : string → string;
  first_value : string → option V;
  (** An answer recorded by now for the question that waits; a failed read of its row. *)
  answer_recorded : W → option (list QuestionAnswer);
  question_read_fails : W → option string;
  (** The rows to drain, and whether each one's notice was saved by its mark. *)
  unnotified_finished_terminal_commands : W → Result (list FinishedCommand) string;
  idle_commands_due : W → Result (list IdleCommand) string;
  undelivered_agent_messages : W → Result (list AgentMessage) string;
  save_command_notice : W → string → list (ContentBlock V) → Result bool string;
  save_idle_notice : W → string → list (ContentBlock V) → Result bool string;
  deliver_agent_message : W → AgentMessage → list (ContentBlock V) → Result bool string;
  take_turn_generation : W → option Z;
  resolve_turn_model : W → Result TurnModel string;
  (** The saved messages, the parser of their content, and the prompt's other parts. *)
  list_messages : W → Result (list Message) string;
  parse_blocks : string → Result (list (ContentBlock V)) string;
  system_prompt : W → string → string;
  tool_definitions : W → list (ToolDefinition V);
  tools_text : list (ToolDefinition V) → option string;
  describe_live_state : W → string;
  clear_conversation_usage : W → option string;
  (** The providers' answers: a streamed reply and the text relayed while it came. *)
  stream : W → TurnModel → CreateMessageRequest V → Result StreamedTurn (Stream.ModelError Refused);
  relayed : W → option string;
  claude_cli : W → TurnModel → CreateMessageRequest V → Result StreamedTurn CallError;
  record_call : W → option string;
  loaded_window : W → option Z;
  parse_caps : string → option LlamaServerInfo;
}.
Variable o : Outside.
Variable conversation_id : Z.

(** ** The monad *)

Definition L (A : Type) : Type := Loop → Result A string * Loop.
Definition ok {A} (x : A) : L A := λ l, (Ok x, l).
Definition err {A} (e : string) : L A := λ l, (Err e, l).
Definition andThen {A B} (m : L A) (f : A → L B) : L B :=
  λ l, match m l with (Ok x, l) => f x l | (Err e, l) => (Err e, l) end.
Notation "'let!' x := m 'in' k" := (andThen m (λ x, k)) (at level 200, x name, right associativity).
Definition read {A} (f : Loop → A) : L A := λ l, (Ok (f l), l).
Definition write (f : Loop → Loop) : L () := λ l, (Ok (), f l).
(** A call out of the turn. *)
Definition call {A} (f : W → A) : L A := λ l, (Ok (f (world l)), l <| world ::= next o |>).
Definition or_fail {A} (r : Result A string) : L A := match r with Ok x => ok x | Err e => err e end.
Definition unless {A} (e : option string) (k : L A) : L A := match e with Some e => err e | None => k end.
(** [with_compaction_progress]. *)
Definition with_progress {A} (f : CompactionProgress → A * CompactionProgress) : L A :=
  λ l, let '(x, p) := f (progress l) in (Ok x, l <| progress := p |>).
Definition on_progress (f : CompactionProgress → CompactionProgress) : L () := write (λ l, l <| progress ::= f |>).
(** A step of [Reply]'s. *)
Definition in_turn {A} (m : W → M (V := V) A) : L A :=
  λ l, let '(r, t) := m (world l) (turn l) in (r, l <| turn := t |> <| world ::= next o |>).
Definition on_turn (f : Turn (V := V) → Turn (V := V)) : L () := write (λ l, l <| turn ::= f |>).

Definition save_message (role : string) bs : L () := in_turn (λ w, save (create_message o w) role bs).

(** ** Questions ([turn/questions.rs]) *)

Definition question_result (q : StoredQuestion) : ContentBlock V :=
  ToolResult (question_id q)
    (match answer q with
     | Some answers =>
         if asked_of_parent q then
           PARENT_ANSWERED +:+ blank_line +:+ default "" (a ← head answers; other a)
         else answered_result (debug_str o) (asked_questions q) answers
     | None => if asked_of_parent q then NOT_ANSWERED_BY_PARENT else NOT_ANSWERED
     end) None.

(** The row as it reads now: an answer to a waiting question may have been recorded. *)
Definition question_now : L (option StoredQuestion) :=
  let! fails := call (question_read_fails o) in
  unless fails
    (let! recorded := call (answer_recorded o) in
     let! _ := write (λ l, l <| pending_question ::= λ q,
       (λ q, match answer q with None => q <| answer := recorded |> | Some _ => q end) <$> q |>) in
     read pending_question).

(** [save_turn_message] with [db::create_message_taking_question]: what it saved. *)
Definition save_turn_message (new_message : option (AnthropicMessage V)) (from_user : bool) : L (option (list (ContentBlock V))) :=
  let include_waiting := from_user && is_some new_message in
  let '(role, content) := match new_message with Some m => (role m, content m) | None => ("user", []) end in
  let! question := question_now in
  let taken := q ← question; if include_waiting || is_some (answer q) then Some q else None in
  match app (option_list (question_result <$> taken)) content with
  | [] => ok None
  | blocks =>
      let! _ := save_message role blocks in
      let! _ := write (λ l, if is_some taken then l <| pending_question := None |> else l) in
      ok (Some blocks)
  end.

(** Whether a question still waits.  The loop has fuel, two passes, and [spent] stands for
    what it would do past them: nothing reaches it ([inner_loops_end]). *)
Fixpoint take_answer_loop (spent : L bool) (fuel : nat) : L bool :=
  match fuel with
  | O => spent
  | S fuel =>
      let! saved := save_turn_message None false in
      let! _ := match saved with
                | Some content => on_turn (λ t, t <| pending_new_content ::= λ l, app l content |>)
                | None => ok ()
                end in
      let! question := question_now in
      match question with
      | None => ok false
      | Some q => if is_some (answer q) then take_answer_loop spent fuel else ok true
      end
  end.
Definition take_answer_or_wait : L bool := take_answer_loop (err "") 2.

(** ** Notices ([turn/notify.rs]) *)

(** One row's notice, saved with its mark. *)
Definition drain_row (deliver : W → list (ContentBlock V) → Result bool string) (text : string) (owes : bool) : L () :=
  let content := [Text text] in
  let! saved := call (λ w, deliver w content) in
  let! saved := or_fail saved in
  if negb saved then ok ()
  else
    let! _ := on_turn (λ t, t <| pending_new_content ::= λ l, app l content |>
                              <| persisted ::= λ l, app l [Build_AnthropicMessage "user" content] |>) in
    if owes then write (λ l, l <| activity_owed := true |>) else ok ().

Fixpoint for_each {R} (step : R → L ()) (rows : list R) : L () :=
  match rows with [] => ok () | row :: rows => let! _ := step row in for_each step rows end.

Definition drain_unnotified_terminal_commands : L () :=
  let! rows := call (unnotified_finished_terminal_commands o) in
  let! rows := or_fail rows in
  for_each (λ c, drain_row (λ w, save_command_notice o w (finished_id c)) (finished_text c) true) rows.

Definition drain_idle_command_notices : L () :=
  let! rows := call (idle_commands_due o) in
  let! rows := or_fail rows in
  for_each (λ c, drain_row (λ w, save_idle_notice o w (idle_id c)) (idle_text c) false) rows.

Definition drain_agent_messages : L () :=
  let! rows := call (undelivered_agent_messages o) in
  let! rows := or_fail rows in
  for_each (λ row, drain_row (λ w, deliver_agent_message o w row) (agent_message_text row) true) rows.

(** ** Compaction ([turn/compaction.rs]) *)

(** The turn's copy of its model, resolved before any step that reads it. *)
Definition set_model m : L () := write (λ l, l <| resolved_model := Some m |>).

(** [overflow::learn], on the turn's model. *)
Definition learn_window m (window : option Z) : L (option Z * TurnModel) :=
  λ l, let '(named, m, d) := learn m window conversation_id (db l) in
       (Ok (named, m), l <| resolved_model := Some m |> <| db := d |>).

(** [claude_cli::summary::checked]. *)
Definition checked (kind : ProviderKind) (summary stop_reason : string) : Result string (Stream.ModelError Refused) :=
  if negb (bool_decide (kind = ClaudeCli)) then Ok summary
  else if bool_decide (stop_reason = "model_context_window_exceeded") then
    Err (Stream.OverflowError (Build_Refused None None "the summary stopped at the model's context window"))
  else
    match (if is_blank summary then Some "came back empty"
           else if Stream.is_cut_off stop_reason then Some "was cut off" else None) with
    | Some why =>
        Err (Stream.OtherError ("Couldn't compact the conversation: its summary " +:+ why
          +:+ ", so the history was kept as it is. Send another message to try again."))
    | None => Ok summary
    end.

Definition summarization_request m (prompt : string) : CreateMessageRequest V :=
  Build_CreateMessageRequest (turn_model m) SUMMARY_MAX_TOKENS (Some COMPACTION_SYSTEM_PROMPT)
    [Build_AnthropicMessage "user" [Text prompt]] true [] None None (turn_template_kwargs m false) false.

Definition summarize m (transcript : string) : L (Result string (Stream.ModelError Refused)) :=
  let! live_state := call (describe_live_state o) in
  let prompt := "Conversation so far:" +:+ String newline transcript +:+ blank_line
    +:+ "Currently live (preserve these exact ids in your summary):" +:+ String newline live_state in
  let! reply := call (λ w, stream o w m (summarization_request m prompt)) in
  match reply with
  | Err e => ok (Err e)
  | Ok turn =>
      let! fails := call (record_call o) in
      match fails with
      | Some e => ok (Err (Stream.OtherError e))
      | None =>
          let summary := default "" (head (texts_of (Stream.turn_content turn))) in
          ok (checked (kind m) summary (Stream.turn_stop_reason turn))
      end
  end.

(** The error of a compaction whose second summary request was refused too. *)
Definition compaction_too_big m (window : option Z) (message : string) : string :=
  "Couldn't compact the conversation: even the summary request didn't fit `" +:+ turn_model m
  +:+ "`'s context window"
  +:+ match window with Some w => " (" +:+ grouped w +:+ " tokens)" | None => "" end
  +:+ ". The server said: " +:+ message.

(** The summary, asked for again with a smaller transcript after a refusal, and the reason the
    divider gives. *)
Definition summary_of m (messages : list Message) (refused : option string) : L (string * TurnModel * option string) :=
  let transcript := compaction_transcript (parse_blocks o) messages (compaction_transcript_budget (context_window m) (kind m)) in
  let! first := summarize m transcript in
  match first with
  | Ok summary => ok (summary, m, refused)
  | Err (Stream.OtherError e) => err e
  | Err (Stream.OverflowError overflow) =>
      let! learned := learn_window m (window_named overflow) in
      let '(named, m) := learned in
      let budget :=
        match named with Some w => compaction_transcript_budget w (kind m) | None => (chars transcript `div` 2)%Z end in
      let! second := summarize m (compaction_transcript (parse_blocks o) messages budget) in
      match second with
      | Ok summary =>
          ok (summary, m, match refused with Some r => Some r | None => Some (refused_reason named) end)
      | Err (Stream.OverflowError again) =>
          let! _ := learn_window m (window_named again) in
          err (compaction_too_big m (match window_named again with Some w => Some w | None => named end)
                 (refusal_message again))
      | Err (Stream.OtherError e) => err e
      end
  end.

(** [db::create_message] outside the turn's own list: a compaction's rows. *)
Definition insert_row (row : string * list (ContentBlock V)) : L () :=
  let! fails := in_turn (λ w t, (Ok (create_message o w t (Build_AnthropicMessage (fst row) (snd row))), t)) in
  unless fails (ok ()).

(** [compact_conversation]: the turn's model after. *)
Definition compact_conversation m (refused : option string) : L TurnModel :=
  let! messages := call (list_messages o) in
  let! messages := or_fail messages in
  match last messages with
  | None => ok m
  | Some last =>
      let! blocks := or_fail (blocks (parse_blocks o) last) in
      if negb (is_safe_compaction_boundary blocks) then ok m
      else
        let! made := summary_of m messages refused in
        let '(summary, m, refused) := made in
        let unanswered := cap_unanswered (unanswered_user_text (parse_blocks o) messages) (typed_budget (context_window m)) in
        let typed := typed_user_text (parse_blocks o) messages (context_window m) in
        let! _ := for_each insert_row (compaction_messages summary (msg_id last) typed unanswered refused) in
        let! fails := call (clear_conversation_usage o) in
        unless fails (ok m)
  end.

(** ** The request ([turn/reply.rs]) *)

Definition apply_budget (request : CreateMessageRequest V) m (budget : ReplyBudget) : CreateMessageRequest V :=
  let request := request <| max_tokens := tokens budget |> in
  let request := request <| thinking_config := turn_thinking_config m (max_tokens request) |> in
  request <| chat_template_kwargs := turn_template_kwargs m (is_some (thinking_config request)) |>.

Definition build_request m (last_known_usage : option TokenUsage) bs (room_only : bool) (undercount : Z)
    : L (CreateMessageRequest V * ReplyBudget) :=
  let! messages := call (list_messages o) in
  let! messages := or_fail messages in
  let! history := or_fail (history_for_request (parse_blocks o) messages (thinking_stripped_through m)) in
  let! system := call (λ w, system_prompt o w (turn_model m)) in
  let! tools := call (tool_definitions o) in
  let request :=
    Build_CreateMessageRequest (turn_model m) MIN_REPLY_TOKENS (Some system) history true tools None
      (turn_effort m) (turn_template_kwargs m (thinking m)) (turn_prompt_caching m) in
  let projected :=
    match projected_input last_known_usage (estimate_tokens bs) with
    | Some projected => projected
    | None => u64_add (estimate_request_tokens (tools_text o) request) undercount
    end in
  let budget := budget_for (context_window m) projected (output_cap m) room_only in
  ok (apply_budget request m budget, budget).

(** The state of [build_request_with_room]'s loop: the model, the usage, whether it compacted. *)
Record Room := { room_model : TurnModel; room_usage : option TokenUsage; room_compacted : bool }.

(** Two passes again. *)
Fixpoint room_loop (spent : L (CreateMessageRequest V * ReplyBudget * Room)) (fuel : nat) (r : Room) bs (hold_to_room : bool) (refused : option string) (undercount : Z)
    : L (CreateMessageRequest V * ReplyBudget * Room) :=
  match fuel with
  | O => spent
  | S fuel =>
      let m := room_model r in
      let window := context_window m in
      let! at_room := with_progress (room_only_at window) in
      let room_only := at_room || hold_to_room in
      let! built := build_request m (room_usage r) bs room_only undercount in
      let '(request, budget) := built in
      let size := u64_add (estimate_request_tokens (tools_text o) request) undercount in
      let! decided := with_progress (λ p, before_sending p (turn_model m) window (output_cap m) room_only budget size (room_compacted r)) in
      match decided with
      | Send sent =>
          ok (if bool_decide (sent = budget) then request else apply_budget request m sent, sent, r)
      | CompactFirst =>
          let! m := compact_conversation m refused in
          let! _ := on_progress (if is_some refused then refusal_compacted (context_window m) else compacted (context_window m)) in
          room_loop spent fuel (Build_Room m None true) bs hold_to_room refused undercount
      | Refuse why => err why
      end
  end.
Definition build_request_with_room (r : Room) bs (hold_to_room : bool) (refused : option string) (undercount : Z)
    : L (CreateMessageRequest V * ReplyBudget * Room) :=
  room_loop (err "") 2 r bs hold_to_room refused undercount.

(** ** The call ([turn/call.rs]) *)

(** A stream's end: the text relayed while it came is in progress. *)
Definition stream_for_turn m (request : CreateMessageRequest V) : L (Result StreamedTurn (Stream.ModelError Refused)) :=
  let! text := call (relayed o) in
  let! reply := call (λ w, stream o w m request) in
  let! _ := on_turn (λ t, t <| in_progress := text |>) in
  ok reply.

Definition error_text (e : Stream.ModelError Refused) : string :=
  match e with Stream.OverflowError overflow => refusal_message overflow | Stream.OtherError e => e end.

(** The attempts left, after the one being made. *)
Fixpoint call_attempts (retries : nat) m (request : CreateMessageRequest V) : L (Result StreamedTurn CallError * CreateMessageRequest V) :=
  let! _ := on_turn (λ t, t <| in_progress := None |>) in
  let! reply := stream_for_turn m request in
  match reply with
  | Ok turn => ok (Ok turn, request)
  | Err (Stream.OverflowError overflow) => ok (Err (TooBig overflow), request)
  | Err e =>
      match retries with
      | S retries =>
          if is_ollama_thinking_tool_call_corruption (error_text e) then
            call_attempts retries m (request <| thinking_config := None |> <| chat_template_kwargs := turn_template_kwargs m false |>)
          else ok (Err (Failed (error_text e)), request)
      | O => ok (Err (Failed (error_text e)), request)
      end
  end.

Definition call_model m (request : CreateMessageRequest V) : L (Result StreamedTurn CallError * CreateMessageRequest V) :=
  if bool_decide (kind m = ClaudeCli) then
    let! _ := on_turn (λ t, t <| in_progress := None |>) in
    let! text := call (relayed o) in
    let! reply := call (λ w, claude_cli o w m request) in
    let! _ := on_turn (λ t, t <| in_progress := text |>) in
    ok (reply, request)
  else call_attempts TOOL_CALL_PARSE_RETRIES m request.

(** ** A refusal answered ([turn/overflow.rs]) *)

Record Recovered := { recovered_turn : StreamedTurn; recovered_budget : ReplyBudget; recovered_model : TurnModel; recovered_compacted : bool }.

(** What the refusal has the retry do: the model, whether it compacts first, whether it keeps
    to the room. *)
Definition answer_refusal m (named : option Z) (refused : CreateMessageRequest V) (input : Z) : L (TurnModel * bool * bool) :=
  match named with
  | Some _ =>
      let alone := estimate_request_tokens (tools_text o) (without_messages refused) in
      match after_named_refusal (turn_model m) (context_window m) alone input with
      | Budget.TooSmall why =>
          let! _ := on_progress (mark_too_small alone (context_window m)) in err why
      | Retry compact => ok (m, compact, true)
      end
  | None =>
      match guessed_window input (context_window m) with
      | Some assumed =>
          let believed := context_window m in
          let m := m <| context_window := assumed |> in
          let! _ := set_model m in
          let! _ := on_progress (guessed believed assumed) in
          ok (m, true, false)
      | None => ok (m, true, false)
      end
  end.

Definition retry_usage (compacted : bool) (projected : option Z) (input : Z) : option TokenUsage :=
  if compacted then None
  else
    let size := match projected with Some p => Z.max p input | None => input end in
    Some (Build_TokenUsage (default I64_MAX (i64_try_from size)) 0 0 0).

Definition recover m (last_known_usage : option TokenUsage) bs (refused : CreateMessageRequest V) (overflow : Refused) : L Recovered :=
  let! learned := learn_window m (window_named overflow) in
  let '(named, m) := learned in
  let input := default (estimate_request_tokens (tools_text o) refused) (input_named overflow) in
  let! answered := answer_refusal m named refused input in
  let '(m, compacts, hold_to_room) := answered in
  let! m :=
    (if compacts : bool then
       let! m := compact_conversation m (Some (refused_reason named)) in
       let! _ := on_progress (refusal_compacted (context_window m)) in ok m
     else ok m) in
  let projected := projected_input last_known_usage (estimate_tokens bs) in
  let undercount :=
    match input_named overflow with Some input => sat_sub input (estimate_request_tokens (tools_text o) refused) | None => 0%Z end in
  let! built := build_request_with_room (Build_Room m (retry_usage compacts projected input) compacts) [] hold_to_room
                  (Some (refused_reason named)) undercount in
  let '(request, budget, r) := built in
  let m := room_model r in
  let! called := call_model m request in
  match fst called with
  | Ok turn => let! _ := on_progress retry_taken in ok (Build_Recovered turn budget m (room_compacted r))
  | Err (TooBig again) =>
      let! _ := on_progress (Compaction.refused (input_named again)) in
      let! _ := learn_window m (window_named again) in
      err (still_did_not_fit (turn_model m) (match window_named again with Some w => Some w | None => named end)
             (room_compacted r) (refusal_message again))
  | Err (Failed e) => err e
  end.

(** ** One pass of the loop ([turn/run.rs]) *)

(** What a pass does before it knows its model: a waiting question ends the turn, notices are
    drained, and a wake with nothing to tell ends too.  Whether the pass goes on. *)
Definition open_pass (is_wake : bool) : L bool :=
  let! waits := take_answer_or_wait in
  if waits : bool then ok false
  else
    let! _ := drain_unnotified_terminal_commands in
    let! _ := drain_idle_command_notices in
    let! _ := drain_agent_messages in
    let! saved := read (λ l, persisted (turn l)) in
    match saved with
    | [] => if is_wake then ok false else ok true
    | _ => ok true
    end.

(** The turn's generation, taken once, and its model, resolved once and kept. *)
Definition know_model : L TurnModel :=
  let! generation_ := read generation in
  let! _ := match generation_ with
            | None => let! taken := call (take_turn_generation o) in write (λ l, l <| generation := taken |>)
            | Some _ => ok ()
            end in
  let! resolved := read resolved_model in
  let! m := match resolved with
            | Some m => ok m
            | None => let! r := call (resolve_turn_model o) in or_fail r
            end in
  let! _ := set_model m in
  let! _ := write (λ l, l <| steps ::= S |>) in
  ok m.

(** The check before the request is built: the turn's model, and whether it compacted. *)
Definition size_up m : L (TurnModel * bool) :=
  let! usage := read last_known_usage in
  let! bs := read (λ l, pending_new_content (turn l)) in
  let projected := projected_input usage (estimate_tokens bs) in
  let! decided := with_progress (Compaction.step (turn_model m) (context_window m) projected) in
  match decided with
  | Go => ok (m, false)
  | Stuck why => err why
  | Compact =>
      let! m := compact_conversation m None in
      let! _ := on_progress (compacted (context_window m)) in
      let! _ := write (λ l, l <| last_known_usage := None |>) in
      ok (m, true)
  end.

(** A reply got: the model, its budget, and the size that could be freed. *)
Record Got := { got_model : TurnModel; got_turn : StreamedTurn; got_budget : ReplyBudget; got_sized : option Z; got_offered : list string }.

(** [learn_ollama_window] and [learn_window_stop], on the turn's model. *)
Definition learn_loaded m (request : CreateMessageRequest V) (turn : StreamedTurn) (loaded : option Z) : L TurnModel :=
  λ l, let '(m, d) := learn_ollama_window m (estimate_request_tokens (tools_text o) request) (Stream.turn_usage turn)
                        loaded conversation_id (db l) in
       (Ok m, l <| resolved_model := Some m |> <| db := d |>).
Definition learn_stop (window_stop_turn : Z) m (turn : StreamedTurn) : L TurnModel :=
  λ l, let '(_, m, cs, d) := learn_window_stop (parse_caps o) window_stop_turn m (Stream.turn_usage turn)
                               (Stream.turn_content turn) (Stream.turn_stop_reason turn) conversation_id (candidates l) (db l) in
       (Ok m, l <| resolved_model := Some m |> <| candidates := cs |> <| db := d |>).

Definition get_reply m (has_compacted : bool) : L Got :=
  let! usage := read last_known_usage in
  let! bs := read (λ l, pending_new_content (turn l)) in
  let! built := build_request_with_room (Build_Room m usage has_compacted) bs false None 0 in
  let '(request, budget, r) := built in
  let! _ := write (λ l, l <| last_known_usage := room_usage r |>) in
  let m := room_model r in
  let sized := projected_input (room_usage r) (estimate_tokens bs) in
  let offered := map tool_name (tools request) in
  let! called := call_model m request in
  let '(reply, request) := called in
  match reply with
  | Ok turn =>
      let! loaded := call (loaded_window o) in
      let! m := learn_loaded m request turn loaded in
      let! _ := on_progress step_taken in
      ok (Build_Got m turn budget sized offered)
  | Err (TooBig overflow) =>
      let! why := with_progress (why_refused_out (turn_model m) (context_window m)) in
      unless why
        (let! _ := on_progress (Compaction.refused (input_named overflow)) in
         let! recovered := recover m (room_usage r) bs request overflow in
         ok (Build_Got (recovered_model recovered) (recovered_turn recovered) (recovered_budget recovered)
               (if recovered_compacted recovered then None else sized) offered))
  | Err (Failed e) => err e
  end.

(** A reply saved, with what it teaches and measures: the turn's model. *)
Definition keep_reply (window_stop_turn : Z) (g : Got) : L TurnModel :=
  let turn := got_turn g in
  let usage := Stream.turn_usage turn in
  let! m :=
    (if window_stop (kind (got_model g)) (Stream.turn_stop_reason turn) (output_tokens usage) (tokens (got_budget g)) then
       learn_stop window_stop_turn (got_model g) turn
     else ok (got_model g)) in
  let! _ := set_model m in
  let! _ := in_turn (λ w, save_reply (create_message o w) turn) in
  let! fails := call (record_call o) in
  unless fails
    (let! _ := write (λ l, l <| db ::= learned_window_beaten m usage |>) in
     let! _ := on_progress (measured usage (context_window m)) in
     let! _ := write (λ l, l <| last_known_usage := Some usage |>) in
     let! _ := on_turn (λ t, t <| pending_new_content := [] |>) in
     ok m).

(** A reply the room cut off may carry on, after it's said. *)
Definition carry_on m (g : Got) : L bool :=
  let cut_off := Stream.is_cut_off (Stream.turn_stop_reason (got_turn g)) in
  let! carries_on := with_progress (λ p,
    let p := if cut_off then p else reply_finished p in
    if cut_off && bool_decide (limit (got_budget g) = RoomLeft) then cut_for_room (got_sized g) (context_window m) p
    else (false, p)) in
  let! _ := in_turn (λ w, save_stop_notice (create_message o w) m (got_turn g) (got_budget g) carries_on) in
  if carries_on : bool then ok true
  else
    let! p := read progress in
    match (if cut_off then why_if_stuck (turn_model m) (context_window m) p else None) with
    | Some why => err why
    | None => ok false
    end.

(** The streak after a reply's calls ran. *)
Definition count_calls (ran : RanTools (V := V)) : L () :=
  in_turn (λ _ t, let '(e, s) := after_calls (unknown ran) (streak t) in
                  (match e with Some e => Err e | None => Ok () end, t <| streak := s |>)).

(** The calls run, their results saved, and the correction told after them. *)
Definition tool_pass (g : Got) (correction : option string) : L Step :=
  let! ran := in_turn (λ w, run_tools (question_denied o w) (read_questions o) (debug_str o) (ask o w) (ask_parent o w)
                              (execute o w) (to_lowercase o) (got_turn g) (got_offered g)) in
  let! _ := match results ran with [] => ok () | bs => save_message "user" bs end in
  let! _ := on_turn (λ t, t <| pending_new_content := results ran |>) in
  let! _ := match correction with
            | Some notice => in_turn (λ w, save_notice (create_message o w) notice)
            | None => ok ()
            end in
  let! _ := count_calls ran in
  ok (if ends ran then Returned else Again (RanTheTools (unknown ran))).

(** What follows a reply that doesn't carry on. *)
Definition go_on (g : Got) : L Step :=
  let! next_step := in_turn (λ w, after_reply (create_message o w) (to_lowercase o) (first_value o) (got_turn g) (got_offered g)) in
  match next_step with
  | RunTools correction => tool_pass g correction
  | CallAgain => ok (Again Corrected)
  | EndTurn => ok Returned
  end.

Definition pass (is_wake : bool) (window_stop_turn : Z) : L Step :=
  let! goes_on := open_pass is_wake in
  if negb goes_on then ok Returned
  else
    let! m := know_model in
    let! sized := size_up m in
    let! g := get_reply (fst sized) (snd sized) in
    let! m := keep_reply window_stop_turn g in
    let! carries_on := carry_on m g in
    if carries_on : bool then ok (Again CarriedOn) else go_on g.

Definition ran_out (max_turns : nat) : string :=
  "tool-use loop exceeded " +:+ pretty max_turns +:+ " turns without reaching a final reply".

Fixpoint passes (is_wake : bool) (window_stop_turn : Z) (max_turns left_ : nat) : L () :=
  match left_ with
  | O => err (ran_out max_turns)
  | S left_ =>
      let! step := pass is_wake window_stop_turn in
      match step with Returned => ok () | Again _ => passes is_wake window_stop_turn max_turns left_ end
  end.

Definition MAX_TURNS : nat := Z.to_nat 10000.

Definition start_turn (new_content : option (list (ContentBlock V))) : L () :=
  on_turn (λ t, t <| pending_new_content := default [] new_content |> <| streak := default_streak |>).

Definition run_turn_loop (new_content : option (list (ContentBlock V))) (window_stop_turn : Z) (max_turns : nat) : L () :=
  let! _ := start_turn new_content in
  passes (negb (is_some new_content)) window_stop_turn max_turns max_turns.

(** ** How a step moves the state *)

Definition moves {A} (R : Loop → Loop → Prop) (c : L A) : Prop := ∀ l, R l (snd (c l)).

Lemma andThen_Ok {A B} (c : L A) (f : A → L B) l y l' :
  andThen c f l = (Ok y, l') → ∃ x l0, c l = (Ok x, l0) ∧ f x l0 = (Ok y, l').
Proof. unfold andThen. destruct (c l) as [[x|e] l0]; [by eauto|done]. Qed.

Lemma moves_to {A} (R : Loop → Loop → Prop) (c : L A) l r l' : moves R c → c l = (r, l') → R l l'.
Proof. intros Hc Hl. specialize (Hc l). by rewrite Hl in Hc. Qed.

Section Moves.
Context (R : Loop → Loop → Prop) `{!PreOrder R}.

Lemma moves_ok {A} (x : A) : moves R (ok x).
Proof. intros l. cbn. reflexivity. Qed.
Lemma moves_err {A} e : moves R (err (A := A) e).
Proof. intros l. cbn. reflexivity. Qed.
Lemma moves_read {A} (f : Loop → A) : moves R (read f).
Proof. intros l. cbn. reflexivity. Qed.
Lemma moves_or_fail {A} (r : Result A string) : moves R (or_fail r).
Proof. destruct r; [apply moves_ok|apply moves_err]. Qed.
Lemma moves_unless {A} e (c : L A) : moves R c → moves R (unless e c).
Proof. intros Hc. destruct e; [apply moves_err|done]. Qed.
Lemma moves_andThen {A B} (c : L A) (f : A → L B) : moves R c → (∀ x, moves R (f x)) → moves R (andThen c f).
Proof.
  intros Hc Hf l. specialize (Hc l). unfold andThen. destruct (c l) as [[x|e] l']; [|done].
  etransitivity; [exact Hc|apply Hf].
Qed.
Lemma moves_write f : (∀ l, R l (f l)) → moves R (write f).
Proof. done. Qed.
Lemma moves_on_turn f : (∀ l, R l (l <| turn ::= f |>)) → moves R (on_turn f).
Proof. done. Qed.
Lemma moves_on_progress f : (∀ l, R l (l <| progress ::= f |>)) → moves R (on_progress f).
Proof. done. Qed.
Lemma moves_with_progress {A} (f : CompactionProgress → A * CompactionProgress) :
  (∀ l, R l (l <| progress := snd (f (progress l)) |>)) → moves R (with_progress f).
Proof. intros Hf l. specialize (Hf l). unfold with_progress. by destruct (f (progress l)). Qed.
Lemma moves_for_each {X} (step : X → L ()) rows : (∀ x, moves R (step x)) → moves R (for_each step rows).
Proof. intros Hs. induction rows as [|x rows IH]; cbn; [apply moves_ok|]. by apply moves_andThen. Qed.
Lemma moves_in_turn {A} (c : W → M A) :
  (∀ l, R l (l <| turn := snd (c (world l) (turn l)) |> <| world := next o (world l) |>)) → moves R (in_turn c).
Proof. intros Hc l. specialize (Hc l). unfold in_turn. by destruct (c (world l) (turn l)). Qed.
Lemma moves_call {A} (f : W → A) : (∀ l w, R l (l <| world := w |>)) → moves R (call f).
Proof. intros Hw l. apply Hw. Qed.
Lemma moves_learn_window m window :
  (∀ l m d, R l (l <| resolved_model := Some m |> <| db := d |>)) → moves R (learn_window m window).
Proof. intros Hl l. unfold learn_window. destruct (learn m window conversation_id (db l)) as [[named m'] d]. apply Hl. Qed.
Lemma moves_learn_loaded m request turn loaded :
  (∀ l m d, R l (l <| resolved_model := Some m |> <| db := d |>)) → moves R (learn_loaded m request turn loaded).
Proof. intros Hl l. unfold learn_loaded. destruct (learn_ollama_window _ _ _ _ _ _) as [m' d]. apply Hl. Qed.
Lemma moves_learn_stop n m turn :
  (∀ l m cs d, R l (l <| resolved_model := Some m |> <| candidates := cs |> <| db := d |>)) → moves R (learn_stop n m turn).
Proof.
  intros Hl l. unfold learn_stop. destruct (learn_window_stop _ _ _ _ _ _ _ _ _) as [[[dec m'] cs] d]. apply Hl.
Qed.
End Moves.

(** A field a step leaves alone. *)
Definition same {A} (f : Loop → A) (l l' : Loop) : Prop := f l' = f l.
#[export] Instance same_preorder {A} (f : Loop → A) : PreOrder (same f).
Proof. split; [by intros l|]. intros l l' l'' H1 H2. unfold same in *. congruence. Qed.

(** The same of a step of [Reply]'s. *)
Definition turns {A} (R : Turn (V := V) → Turn (V := V) → Prop) (c : M A) : Prop := ∀ t, R t (snd (c t)).

Section Turns.
Context (R : Turn (V := V) → Turn (V := V) → Prop) `{!PreOrder R}.
Lemma turns_ret {A} (x : A) : turns R (ret x).
Proof. intros t. cbn. reflexivity. Qed.
Lemma turns_fail {A} e : turns R (fail (A := A) e).
Proof. intros t. cbn. reflexivity. Qed.
Lemma turns_get : turns R get.
Proof. intros t. cbn. reflexivity. Qed.
Lemma turns_modify f : (∀ t, R t (f t)) → turns R (modify f).
Proof. done. Qed.
Lemma turns_bind {A B} (c : M A) (f : A → M B) : turns R c → (∀ x, turns R (f x)) → turns R (bind c f).
Proof.
  intros Hc Hf t. specialize (Hc t). unfold bind. destruct (c t) as [[x|e] t']; [|done].
  etransitivity; [exact Hc|apply Hf].
Qed.
Lemma turns_save cm role bs :
  (∀ t, R t (t <| persisted ::= λ l, app l [Build_AnthropicMessage role bs] |>)) → turns R (save cm role bs).
Proof. intros Hs t. unfold save. destruct (cm t _); [cbn; reflexivity|apply Hs]. Qed.
End Turns.

Definition same_turn {A} (f : Turn (V := V) → A) (t t' : Turn) : Prop := f t' = f t.
#[export] Instance same_turn_preorder {A} (f : Turn → A) : PreOrder (same_turn f).
Proof. split; [by intros t|]. intros t t' t'' H1 H2. unfold same_turn in *. congruence. Qed.

Lemma in_turn_same {A B} (f : Turn → B) (c : W → M A) :
  (∀ w, turns (same_turn f) (c w)) → moves (same (λ l : Loop, f (turn l))) (in_turn c).
Proof. intros Hc l. specialize (Hc (world l) (turn l)). unfold in_turn. by destruct (c (world l) (turn l)). Qed.

Lemma in_turn_apart {A B} (f : Loop → B) (c : W → M A) :
  (∀ l t w, f (l <| turn := t |> <| world := w |>) = f l) → moves (same f) (in_turn c).
Proof. intros Hc l. unfold in_turn. destruct (c (world l) (turn l)). apply Hc. Qed.

Create HintDb moves.
(** Through a step's structure, to its writes. *)
Ltac walk :=
  repeat first
    [ solve [eauto with moves nocore] | apply moves_ok | apply moves_err | apply moves_read | apply moves_or_fail
    | apply moves_unless | apply moves_for_each
    | apply moves_andThen | lazymatch goal with |- PreOrder _ => apply _ | |- ∀ _, moves _ _ => intros ? end
    | progress cbv zeta
    | match goal with |- context [let '(_, _) := ?x in _] => destruct x eqn:? end
    | match goal with |- moves _ (match ?x with _ => _ end) => destruct x eqn:? end ];
  try (solve [apply in_turn_same; intros ?; eauto with moves nocore]);
  try (first [apply moves_learn_window | apply moves_learn_loaded | apply moves_learn_stop
    | apply moves_write | apply moves_on_turn | apply moves_in_turn | apply moves_call | apply moves_with_progress | apply moves_on_progress];
       try apply _; intros; try done;
       try (solve [repeat case_match; first [done | eauto with moves nocore]])).

Ltac walk_turn :=
  repeat first
    [ solve [eauto with moves nocore] | apply turns_ret | apply turns_fail | apply turns_get
    | apply turns_bind | lazymatch goal with |- PreOrder _ => apply _ | |- ∀ _, turns _ _ => intros ? end
    | progress cbv zeta
    | match goal with |- turns _ (let '(_, _) := ?x in _) => destruct x eqn:? end
    | match goal with |- turns _ (match ?x with _ => _ end) => destruct x eqn:? end ];
  try (first [apply turns_save | apply turns_modify]; try apply _; intros; try done;
       try (solve [repeat case_match; first [done | eauto with moves nocore]])).

(** What the primitive steps do. *)
Lemma ok_run {A} (x y : A) l l' : ok x l = (Ok y, l') → y = x ∧ l' = l.
Proof. by intros [= <- <-]. Qed.
Lemma err_run {A} e (y : A) l l' : err e l ≠ (Ok y, l').
Proof. done. Qed.
Lemma write_run f x l l' : write f l = (Ok x, l') → l' = f l.
Proof. by intros [= <- <-]. Qed.
Lemma on_turn_run f x l l' : on_turn f l = (Ok x, l') → l' = l <| turn ::= f |>.
Proof. by intros [= <- <-]. Qed.
Lemma on_progress_run f x l l' : on_progress f l = (Ok x, l') → l' = l <| progress ::= f |>.
Proof. by intros [= <- <-]. Qed.
Lemma with_progress_run {A} (f : CompactionProgress → A * CompactionProgress) x l l' :
  with_progress f l = (Ok x, l') → f (progress l) = (x, progress l').
Proof. unfold with_progress. destruct (f (progress l)). by intros [= <- <-]. Qed.
Lemma unless_run {A} e (c : L A) y l l' : unless e c l = (Ok y, l') → e = None ∧ c l = (Ok y, l').
Proof. by destruct e. Qed.
Lemma in_turn_run {A} (c : W → M A) y l l' :
  in_turn c l = (Ok y, l') → c (world l) (turn l) = (Ok y, turn l').
Proof. unfold in_turn. destruct (c (world l) (turn l)). by intros [= <- <-]. Qed.
Lemma or_fail_run {A} (r : Result A string) x l l' : or_fail r l = (Ok x, l') → r = Ok x ∧ l' = l.
Proof. destruct r; by intros [= -> ->]. Qed.
Lemma read_run {A} (f : Loop → A) x l l' : read f l = (Ok x, l') → x = f l ∧ l' = l.
Proof. by intros [= <- <-]. Qed.
Lemma call_run {A} (f : W → A) x l l' : call f l = (Ok x, l') → x = f (world l) ∧ l' = l <| world := next o (world l) |>.
Proof. by intros [= <- <-]. Qed.
Lemma andThen_run {A B} (c : L A) (f : A → L B) l :
  andThen c f l = match c l with (Ok x, l') => f x l' | (Err e, l') => (Err e, l') end.
Proof. done. Qed.
Lemma on_turn_eq f l : on_turn f l = (Ok (), l <| turn ::= f |>).
Proof. done. Qed.

#[local] Opaque moves ok err read write call with_progress on_progress in_turn on_turn andThen or_fail unless for_each turns ret fail bind modify get save.

(** *** The streak: only what follows a reply moves it *)

Notation keeps_streak := (moves (same (λ l : Loop, streak (turn l)))).

Lemma save_reply_streak cm turn : turns (same_turn streak) (save_reply cm turn).
Proof. unfold save_reply. walk_turn. Qed.
Lemma save_stop_notice_streak cm m turn budget c : turns (same_turn streak) (save_stop_notice cm m turn budget c).
Proof. unfold save_stop_notice. walk_turn. Qed.

Lemma save_message_streak role bs : keeps_streak (save_message role bs).
Proof. apply (in_turn_same streak). intros w. by apply turns_save; [apply _|]. Qed.

#[local] Hint Resolve save_message_streak save_reply_streak save_stop_notice_streak : moves.

Lemma compact_streak m refused : keeps_streak (compact_conversation m refused).
Proof. unfold compact_conversation, summary_of, summarize, insert_row. walk. Qed.

Lemma take_answer_streak : keeps_streak take_answer_or_wait.
Proof.
  unfold take_answer_or_wait. generalize 2. intros n. induction n as [|fuel IH]; cbn [take_answer_loop]; [apply moves_err, _|].
  unfold save_turn_message, question_now. walk.
Qed.
#[local] Hint Resolve compact_streak take_answer_streak : moves.

Lemma open_pass_streak is_wake : keeps_streak (open_pass is_wake).
Proof.
  unfold open_pass, drain_unnotified_terminal_commands, drain_idle_command_notices, drain_agent_messages, drain_row. walk.
Qed.

Lemma know_model_streak : keeps_streak know_model.
Proof. unfold know_model, set_model. walk. Qed.

Lemma size_up_streak m : keeps_streak (size_up m).
Proof. unfold size_up. walk. Qed.

Lemma build_request_streak m usage bs r n : keeps_streak (build_request m usage bs r n).
Proof. unfold build_request. walk. Qed.
#[local] Hint Resolve build_request_streak : moves.

Lemma build_with_room_streak r bs h refused n : keeps_streak (build_request_with_room r bs h refused n).
Proof.
  unfold build_request_with_room. generalize 2. intros fuel. revert r.
  induction fuel as [|fuel IH]; intros r; cbn [room_loop]; walk.
Qed.

Lemma call_model_streak m request : keeps_streak (call_model m request).
Proof.
  unfold call_model. destruct (bool_decide _); [walk|]. generalize TOOL_CALL_PARSE_RETRIES. intros n.
  revert request. induction n as [|n IH]; intros request; cbn [call_attempts]; unfold stream_for_turn; walk.
Qed.
#[local] Hint Resolve build_with_room_streak call_model_streak : moves.

Lemma recover_streak m usage bs request overflow : keeps_streak (recover m usage bs request overflow).
Proof. unfold recover, answer_refusal, set_model. walk. Qed.
#[local] Hint Resolve recover_streak : moves.

Lemma get_reply_streak m c : keeps_streak (get_reply m c).
Proof. unfold get_reply. walk. Qed.

Lemma keep_reply_streak n g : keeps_streak (keep_reply n g).
Proof. unfold keep_reply, set_model. walk. Qed.

Lemma carry_on_streak m g : keeps_streak (carry_on m g).
Proof. unfold carry_on. walk. Qed.

(** *** The room: a carried-on reply isn't carried on again *)

(** A reply cut off for room was retried, or nothing measured yet says compacting is tight. *)
Definition quiet (p : CompactionProgress) : Prop := room_retried p = true ∨ tight p = false ∧ tight_results p = 0%Z.
Definition keeps_quiet (l l' : Loop) : Prop := quiet (progress l) → quiet (progress l').
#[local] Instance keeps_quiet_preorder : PreOrder keeps_quiet.
Proof. split; [intros l Hq; exact Hq|]. intros l l' l'' H1 H2 Hq. by apply H2, H1. Qed.

Lemma sync_quiet w p : quiet p → quiet (sync w p).
Proof. intros Hq. unfold sync. repeat case_match; try done; by right. Qed.

Lemma step_quiet model w projected p : quiet p → quiet (snd (Compaction.step model w projected p)).
Proof. unfold Compaction.step. intros Hq. apply (sync_quiet w) in Hq. repeat case_match; done. Qed.
Lemma compacted_quiet w p : quiet p → quiet (compacted w p).
Proof. intros Hq. by apply (sync_quiet w) in Hq. Qed.
Lemma refusal_compacted_quiet w p : quiet p → quiet (refusal_compacted w p).
Proof. intros Hq. by apply (sync_quiet w) in Hq. Qed.
Lemma step_taken_quiet p : quiet p → quiet (step_taken p).
Proof. done. Qed.
Lemma retry_taken_quiet p : quiet p → quiet (retry_taken p).
Proof. done. Qed.
Lemma refused_quiet input p : quiet p → quiet (Compaction.refused input p).
Proof. unfold Compaction.refused. by destruct (believing p). Qed.
Lemma mark_too_small_quiet alone w p : quiet p → quiet (mark_too_small alone w p).
Proof. intros Hq. by apply (sync_quiet w) in Hq. Qed.
Lemma why_refused_out_quiet model w p : quiet p → quiet (snd (why_refused_out model w p)).
Proof. intros Hq. apply (sync_quiet w) in Hq. unfold why_refused_out. by destruct (_ <? _)%Z. Qed.
Lemma guessed_quiet believed g p : quiet (guessed believed g p).
Proof. by right. Qed.
Lemma room_only_at_quiet w p : quiet p → quiet (snd (room_only_at w p)).
Proof. intros Hq. by apply (sync_quiet w) in Hq. Qed.
Lemma before_sending_quiet model w cap ro budget size c p :
  quiet p → quiet (snd (before_sending p model w cap ro budget size c)).
Proof.
  intros Hq. unfold before_sending, floor_fired. apply (sync_quiet w) in Hq as Hs. repeat (case_match; simplify_eq/=); done.
Qed.

(** One measure is not enough to call it tight, and then no cut-off reply carries on. *)
Lemma measured_not_tight u w p : quiet p → room_retried (measured u w p) = true ∨ tight (measured u w p) = false.
Proof.
  intros Hq. apply (sync_quiet w) in Hq. unfold measured. revert Hq. generalize (sync w p). intros q Hq.
  unfold quiet in Hq. repeat case_match; cbn; try (destruct Hq as [?|[? ?]]; by auto);
    (destruct Hq as [?|[-> ->]]; [by left|right; reflexivity]).
Qed.

Lemma no_second_carry sized w p :
  room_retried p = true ∨ tight p = false → fst (cut_for_room sized w p) = false.
Proof.
  intros Hp. assert (Hs : room_retried (sync w p) = true ∨ tight (sync w p) = false).
  { unfold sync. repeat case_match; try done; by right. }
  unfold cut_for_room, room_only. revert Hs. generalize (sync w p). intros q [Hr|Ht].
  - rewrite Hr, orb_true_r. done.
  - rewrite Ht. done.
Qed.

Lemma carried_quiet sized w p p' : cut_for_room sized w p = (true, p') → quiet p'.
Proof. unfold cut_for_room. case_match; [done|]. intros [= <-]. by left. Qed.

#[local] Hint Resolve step_quiet compacted_quiet refusal_compacted_quiet step_taken_quiet retry_taken_quiet refused_quiet
  mark_too_small_quiet why_refused_out_quiet guessed_quiet room_only_at_quiet before_sending_quiet : moves.
#[local] Hint Extern 1 (keeps_quiet _ _) => (let Hq := fresh in intros Hq; exact Hq) : moves.
#[local] Hint Extern 2 (keeps_quiet _ _) =>
  (let Hq := fresh in intros Hq; cbn [progress set_field] in *; solve [eauto with moves nocore]) : moves.

Notation stays_quiet := (moves keeps_quiet).

Lemma apart_quiet {A} (c : L A) : moves (same progress) c → stays_quiet c.
Proof. Transparent moves. intros Hc l Hq. specialize (Hc l). unfold same in Hc. by rewrite Hc. Opaque moves. Qed.

Lemma save_message_progress role bs : moves (same progress) (save_message role bs).
Proof. by apply in_turn_apart. Qed.
#[local] Hint Resolve save_message_progress : moves.

Lemma open_pass_progress is_wake : moves (same progress) (open_pass is_wake).
Proof.
  unfold open_pass, drain_unnotified_terminal_commands, drain_idle_command_notices, drain_agent_messages, drain_row.
  assert (Ht : moves (same progress) (take_answer_or_wait)).
  { unfold take_answer_or_wait. generalize 2. intros n.
    induction n as [|fuel IH]; cbn [take_answer_loop]; [apply moves_err, _|].
    unfold save_turn_message, question_now. walk. }
  walk.
Qed.

Lemma know_model_progress : moves (same progress) know_model.
Proof. unfold know_model, set_model. walk. Qed.

Lemma compact_progress m refused : moves (same progress) (compact_conversation m refused).
Proof. unfold compact_conversation, summary_of, summarize, insert_row. walk. Qed.
#[local] Hint Resolve compact_progress : moves.
#[local] Hint Extern 3 (moves keeps_quiet _) => (apply apart_quiet; solve [eauto with moves nocore]) : moves.

Lemma size_up_quiet m : stays_quiet (size_up m).
Proof. unfold size_up. walk. Qed.

Lemma build_request_progress m usage bs r n : moves (same progress) (build_request m usage bs r n).
Proof. unfold build_request. walk. Qed.
#[local] Hint Resolve build_request_progress : moves.

Lemma build_with_room_quiet r bs h refused n : stays_quiet (build_request_with_room r bs h refused n).
Proof.
  unfold build_request_with_room. generalize 2. intros fuel. revert r.
  induction fuel as [|fuel IH]; intros r; cbn [room_loop]; walk.
Qed.

Lemma call_model_progress m request : moves (same progress) (call_model m request).
Proof.
  unfold call_model. destruct (bool_decide _); [walk|]. generalize TOOL_CALL_PARSE_RETRIES. intros n.
  revert request. induction n as [|n IH]; intros request; cbn [call_attempts]; unfold stream_for_turn; walk.
Qed.
#[local] Hint Resolve build_with_room_quiet call_model_progress : moves.

Lemma recover_quiet m usage bs request overflow : stays_quiet (recover m usage bs request overflow).
Proof. unfold recover, answer_refusal, set_model. walk. Qed.
#[local] Hint Resolve recover_quiet : moves.

Lemma get_reply_quiet m c : stays_quiet (get_reply m c).
Proof. unfold get_reply. walk. Qed.

(** ** What a pass that goes round again did *)

(** How many more replies that call nothing real can have the model called again. *)
Definition patience (s : TextCallStreak) : nat :=
  ((if nudged s then 0 else S MAX_TEXT_CALL_CORRECTIONS) + (MAX_TEXT_CALL_CORRECTIONS - corrections s))%nat.
Definition streak_ok (s : TextCallStreak) : Prop := (corrections s ≤ MAX_TEXT_CALL_CORRECTIONS)%nat.

Transparent turns ret fail bind modify get save.
Lemma after_reply_streak cm turn offered t step t' :
  after_reply cm (to_lowercase o) (first_value o) turn offered t = (Ok step, t') →
  match step with
  | CallAgain => streak_ok (streak t) → streak_ok (streak t') ∧ (patience (streak t') < patience (streak t))%nat
  | _ => streak t' = streak t
  end.
Proof.
  unfold after_reply. destruct (_ || _); [by intros [= <- <-]|].
  destruct (existsb is_tool_use _). { destruct (negb _); by intros [= <- <-]. }
  unfold save_notice, save, bind, modify, get, ret, fail. unfold patience, streak_ok.
  destruct (text_calls _ _) as [|c calls].
  - destruct (existsb is_answer _ || nudged (streak t)) eqn:Ha; [by intros [= <- <-]|].
    apply orb_false_iff in Ha as [_ Hn]. destruct (cm _ _); [done|]. intros [= <- <-]. intros Hok.
    cbn. rewrite Hn. unfold MAX_TEXT_CALL_CORRECTIONS in *. lia.
  - destruct (cm _ _); [done|]. cbn -[MAX_TEXT_CALL_CORRECTIONS]. case_bool_decide as Hmax; [done|]. intros [= <- <-]. intros Hok.
    cbn -[MAX_TEXT_CALL_CORRECTIONS] in *. unfold MAX_TEXT_CALL_CORRECTIONS in *. destruct (nudged (streak t)); lia.
Qed.
Opaque turns ret fail bind modify get save.

Lemma after_calls_streak unknown s e s' :
  after_calls unknown s = (e, s') →
  match unknown with
  | Some _ => e = None → streak_ok s → streak_ok s' ∧ (patience s' < patience s)%nat
  | None => e = None ∧ s' = default_streak
  end.
Proof.
  unfold after_calls. destruct unknown; [|by intros [= <- <-]].
  case_bool_decide as Hmax; intros [= <- <-]; [done|]. intros _ Hok. unfold patience, streak_ok in *. cbn -[MAX_TEXT_CALL_CORRECTIONS] in *.
  unfold MAX_TEXT_CALL_CORRECTIONS in *. destruct (nudged s); lia.
Qed.

(** A step that went through, one [andThen] at a time. *)
Ltac through H :=
  let x := fresh "x" in let l := fresh "l" in let H1 := fresh "Hs" in
  apply andThen_Ok in H as (x & l & H1 & H).

Lemma run_tools_moves (R : Turn → Turn → Prop) `{!PreOrder R} denied rq dq a ap ex tl turn offered :
  turns R (run_tools denied rq dq a ap ex tl turn offered).
Proof.
  Transparent turns. intros t. destruct (run_tools _ _ _ _ _ _ _ turn offered t) as [r t'] eqn:Hr.
  apply (run_tools_ran (λ _ _, None) _ _ _ _ _ _ _ (λ _, None)) in Hr as [-> _]. cbn. reflexivity. Opaque turns.
Qed.
#[local] Hint Extern 1 (turns _ (run_tools _ _ _ _ _ _ _ _ _)) => (apply run_tools_moves, _) : moves.

Lemma save_notice_streak cm notice : turns (same_turn streak) (save_notice cm notice).
Proof. unfold save_notice. walk_turn. Qed.
#[local] Hint Resolve save_notice_streak : moves.

Lemma count_calls_streak ran l l' :
  count_calls ran l = (Ok (), l') →
  match unknown ran with
  | Some _ => streak_ok (streak (turn l)) →
      streak_ok (streak (turn l')) ∧ (patience (streak (turn l')) < patience (streak (turn l)))%nat
  | None => streak (turn l') = default_streak
  end.
Proof.
  unfold count_calls. intros Hc%in_turn_run. cbv beta in Hc.
  destruct (after_calls (unknown ran) (streak (turn l))) as [e s] eqn:Ha. apply after_calls_streak in Ha.
  destruct e; [done|]. injection Hc as <-. destruct (unknown ran); [by apply Ha|]. by destruct Ha as [_ ->].
Qed.

Lemma tool_pass_streak g correction l step l' :
  tool_pass g correction l = (Ok step, l') →
  step = Returned ∨ ∃ unknown, step = Again (RanTheTools unknown)
     ∧ match unknown with
       | Some _ => streak_ok (streak (turn l)) →
           streak_ok (streak (turn l')) ∧ (patience (streak (turn l')) < patience (streak (turn l)))%nat
       | None => streak (turn l') = default_streak
       end.
Proof.
  unfold tool_pass. intros Ht. through Ht. through Ht. through Ht. through Ht. through Ht.
  assert (Hk : streak (turn l3) = streak (turn l)).
  { set (R := same (λ l : Loop, streak (turn l))).
    apply (moves_to R) in Hs; [|unfold R; walk]. apply (moves_to R) in Hs0; [|unfold R; walk].
    apply (moves_to R) in Hs1; [|unfold R; walk]. apply (moves_to R) in Hs2; [|unfold R; walk].
    unfold R, same in *. congruence. }
  rewrite <- Hk. destruct x3. apply count_calls_streak in Hs3.
  apply ok_run in Ht as [-> ->]. destruct (ends x); [by left|right; by eauto].
Qed.

Lemma go_on_streak g l step l' :
  go_on g l = (Ok step, l') →
  match step with
  | Returned => True
  | Again CarriedOn => False
  | Again (RanTheTools None) => streak (turn l') = default_streak
  | Again _ => streak_ok (streak (turn l)) →
      streak_ok (streak (turn l')) ∧ (patience (streak (turn l')) < patience (streak (turn l)))%nat
  end.
Proof.
  unfold go_on. intros Hg. through Hg. apply in_turn_run, after_reply_streak in Hs. destruct x as [correction| |].
  - apply tool_pass_streak in Hg as [->|(unknown & -> & Hu)]; [done|]. rewrite Hs in Hu. by destruct unknown.
  - by apply ok_run in Hg as [-> ->].
  - by apply ok_run in Hg as [-> ->].
Qed.

Lemma keep_reply_quiet n g l m l' :
  keep_reply n g l = (Ok m, l') → quiet (progress l) → room_retried (progress l') = true ∨ tight (progress l') = false.
Proof.
  unfold keep_reply, set_model. intros Hk Hq. through Hk. through Hk. through Hk. through Hk.
  apply unless_run in Hk as [_ Hk]. through Hk. through Hk. through Hk. through Hk.
  assert (Hp : progress l4 = progress l).
  { set (R := same progress).
    apply (moves_to R) in Hs; [|unfold R; walk]. apply (moves_to R) in Hs0; [|unfold R; walk].
    apply (moves_to R) in Hs1; [|by apply in_turn_apart]. apply (moves_to R) in Hs2; [|unfold R; walk].
    apply (moves_to R) in Hs3; [|unfold R; walk]. unfold R, same in *. congruence. }
  assert (Hl : progress l' = progress l5).
  { apply ok_run in Hk as [_ ->]. apply write_run in Hs5. apply on_turn_run in Hs6. by subst. }
  apply on_progress_run in Hs4. rewrite Hl, Hs4. cbn. rewrite Hp. by apply measured_not_tight.
Qed.

Lemma carry_on_carries m g l c l' :
  carry_on m g l = (Ok c, l') → c = true →
  quiet (progress l') ∧ ¬ (room_retried (progress l) = true ∨ tight (progress l) = false).
Proof.
  unfold carry_on. intros Hc ->. through Hc. through Hc.
  assert (Hp : progress l1 = progress l0) by by apply (moves_to (same progress)) in Hs0; [|by apply in_turn_apart].
  destruct x as [].
  2:{ through Hc. destruct (if Stream.is_cut_off _ then _ else _); [by apply err_run in Hc|by apply ok_run in Hc as [? _]]. }
  apply ok_run in Hc as [_ ->]. rewrite Hp. apply with_progress_run in Hs. cbv beta zeta in Hs.
  destruct (Stream.is_cut_off _); cbn [andb] in Hs; [|done].
  destruct (bool_decide (limit (got_budget g) = RoomLeft)); [|done].
  split.
  - by apply carried_quiet in Hs.
  - intros Hno. apply (no_second_carry (got_sized g) (context_window m)) in Hno. by rewrite Hs in Hno.
Qed.

(** What a pass that goes round again did to the streak and to the room. *)
Lemma pass_again is_wake n l why l' :
  pass is_wake n l = (Ok (Again why), l') →
  match why with
  | CarriedOn => streak (turn l') = streak (turn l) ∧ quiet (progress l') ∧ ¬ quiet (progress l)
  | RanTheTools None => streak (turn l') = default_streak
  | _ => streak_ok (streak (turn l)) →
      streak_ok (streak (turn l')) ∧ (patience (streak (turn l')) < patience (streak (turn l)))%nat
  end.
Proof.
  unfold pass. intros Hp. through Hp. destruct x; cbn [negb] in Hp; [|by apply ok_run in Hp as [? _]].
  through Hp. through Hp. through Hp. through Hp. through Hp.
  set (R := same (λ l : Loop, streak (turn l))).
  assert (Hk : streak (turn l5) = streak (turn l)).
  { apply (moves_to R) in Hs; [|apply open_pass_streak]. apply (moves_to R) in Hs0; [|apply know_model_streak].
    apply (moves_to R) in Hs1; [|apply size_up_streak]. apply (moves_to R) in Hs2; [|apply get_reply_streak].
    apply (moves_to R) in Hs3; [|apply keep_reply_streak]. apply (moves_to R) in Hs4; [|apply carry_on_streak].
    unfold R, same in *. congruence. }
  destruct x3 as [].
  - apply ok_run in Hp as [[= ->] ->]. split; [done|].
    destruct (carry_on_carries _ _ _ _ _ Hs4 eq_refl) as [Hq Hn]. split; [done|]. intros Hq0. apply Hn.
    apply (keep_reply_quiet _ _ _ _ _ Hs3).
    apply (moves_to keeps_quiet) in Hs; [|apply apart_quiet, open_pass_progress].
    apply (moves_to keeps_quiet) in Hs0; [|apply apart_quiet, know_model_progress].
    apply (moves_to keeps_quiet) in Hs1; [|apply size_up_quiet]. apply (moves_to keeps_quiet) in Hs2; [|apply get_reply_quiet].
    by apply Hs2, Hs1, Hs0, Hs.
  - apply go_on_streak in Hp. rewrite Hk in Hp. by destruct why as [| |[]].
Qed.

(** ** How long a turn goes on *)

(** The passes of a turn that went round again, and why each did. *)
Inductive rounds (is_wake : bool) (window_stop_turn : Z) : Loop → list Why → Loop → Prop :=
  | no_rounds l : rounds is_wake window_stop_turn l [] l
  | one_round l why l' whys l'' :
      pass is_wake window_stop_turn l = (Ok (Again why), l') → rounds is_wake window_stop_turn l' whys l'' →
      rounds is_wake window_stop_turn l (why :: whys) l''.

(** The most passes in a row that go round again with no tool run. *)
Definition MAX_IDLE_ROUNDS : nat := 4 * MAX_TEXT_CALL_CORRECTIONS + 3.

Lemma rounds_ok is_wake n l whys l' : rounds is_wake n l whys l' → streak_ok (streak (turn l)) → streak_ok (streak (turn l')).
Proof.
  induction 1 as [|l why l1 whys l' Hp _ IH]; [done|]. intros Hok. apply IH. apply pass_again in Hp.
  destruct why as [| |[]]; [destruct Hp as (-> & _); done|by apply Hp|by apply Hp|]. rewrite Hp. unfold streak_ok. cbn. lia.
Qed.

Lemma rounds_app is_wake n l (a c : list Why) l' :
  rounds is_wake n l (app a c) l' → ∃ l1, rounds is_wake n l a l1 ∧ rounds is_wake n l1 c l'.
Proof.
  revert l. induction a as [|w a IH]; intros l Hr; [exists l; by split; [constructor|]|].
  inversion Hr as [|? ? l1 ? ? Hp Hrest]; subst. destruct (IH _ Hrest) as (l2 & ? & ?). exists l2. split; [by econstructor|done].
Qed.

Lemma idle_rounds is_wake n l whys l' :
  rounds is_wake n l whys l' → RanTheTools None ∉ whys → streak_ok (streak (turn l)) →
  (length whys ≤ S (2 * patience (streak (turn l))))%nat
  ∧ (quiet (progress l) → (length whys ≤ 2 * patience (streak (turn l)))%nat).
Proof.
  induction 1 as [|l why l1 whys l' Hp _ IH]; intros Hidle Hok; [cbn; lia|].
  apply not_elem_of_cons in Hidle as [Hw Hidle]. specialize (IH Hidle). apply pass_again in Hp. cbn [length].
  destruct why as [| |[name|]]; [|..|done].
  - destruct Hp as (Hs & Hq & Hn). rewrite Hs in IH. destruct (IH Hok) as [_ IHq]. specialize (IHq Hq). split; [lia|done].
  - destruct (Hp Hok) as [Hok1 Hlt]. destruct (IH Hok1) as [IH1 _]. lia.
  - destruct (Hp Hok) as [Hok1 Hlt]. destruct (IH Hok1) as [IH1 _]. lia.
Qed.

Lemma passes_rounds is_wake n max left_ l :
  let '(r, l') := passes is_wake n max left_ l in
  ∃ whys l1, rounds is_wake n l whys l1 ∧
    match r with
    | Ok _ => (length whys < left_)%nat ∧ pass is_wake n l1 = (Ok Returned, l')
    | Err e => (length whys < left_)%nat ∧ pass is_wake n l1 = (Err e, l')
               ∨ length whys = left_ ∧ e = ran_out max ∧ l' = l1
    end.
Proof.
  revert l. induction left_ as [|left_ IH]; intros l; cbn [passes].
  { exists [], l. split; [constructor|]. right. done. }
  rewrite andThen_run. destruct (pass is_wake n l) as [[step|e] l1] eqn:Hp.
  2:{ exists [], l. split; [constructor|]. left. cbn. split; [lia|done]. }
  destruct step as [|why].
  { exists [], l. split; [constructor|]. cbn. split; [lia|done]. }
  specialize (IH l1). destruct (passes is_wake n max left_ l1) as [r l'].
  destruct IH as (whys & l2 & Hr & Hend). exists (why :: whys), l2. split; [by econstructor|].
  destruct r; cbn [length]; [destruct Hend; split; [lia|done]|].
  destruct Hend as [[? ?]|(? & ? & ?)]; [left; split; [lia|done]|right; split; [lia|done]].
Qed.

(** C2. A turn ends.  Whatever the rest of the program and the provider do, a turn is at most
    [max_turns] passes: it returns, it fails in a pass, or it fails saying it ran out.  And no
    provider can keep it calling the model without running a tool: of any passes in a row
    that each went round again, at most fifteen ran no call of an offered tool. *)
Theorem turns_end new_content window_stop_turn max_turns l :
  let is_wake := negb (is_some new_content) in
  let start := snd (start_turn new_content l) in
  let '(r, l') := run_turn_loop new_content window_stop_turn max_turns l in
  ∃ whys l1, rounds is_wake window_stop_turn start whys l1
  ∧ (length whys ≤ max_turns)%nat
  ∧ match r with
    | Ok _ => pass is_wake window_stop_turn l1 = (Ok Returned, l')
    | Err e => pass is_wake window_stop_turn l1 = (Err e, l') ∨ length whys = max_turns ∧ e = ran_out max_turns
    end
  ∧ (∀ before idle after, whys = app before (app idle after) → RanTheTools None ∉ idle → (length idle ≤ MAX_IDLE_ROUNDS)%nat).
Proof.
  cbv zeta. unfold run_turn_loop. set (start := snd (start_turn new_content l)).
  assert (Hrun : ∀ k : L (), andThen (start_turn new_content) (λ _, k) l = k start).
  { intros k. unfold start, start_turn. by rewrite andThen_run, on_turn_eq. }
  rewrite Hrun. pose proof (passes_rounds (negb (is_some new_content)) window_stop_turn max_turns max_turns start) as Hp.
  destruct (passes _ _ _ _ start) as [r l']. destruct Hp as (whys & l1 & Hr & Hend). exists whys, l1.
  conjs; [done| | |].
  - destruct r; [lia|]. destruct Hend as [[? _]|[? _]]; lia.
  - destruct r; [by destruct Hend|]. destruct Hend as [[_ ?]|(? & ? & _)]; [by left|by right].
  - intros before idle after -> Hidle. apply rounds_app in Hr as (la & Hra & Hrb). apply rounds_app in Hrb as (lb & Hrb & _).
    assert (Hok : streak_ok (streak (turn la))).
    { apply rounds_ok in Hra; [done|]. unfold streak_ok, start, start_turn. rewrite on_turn_eq. cbn. lia. }
    destruct (idle_rounds _ _ _ _ _ Hrb Hidle Hok) as [Hlen _]. unfold patience, MAX_IDLE_ROUNDS in *.
    destruct (nudged _); lia.
Qed.

(** ** The loops inside a pass *)

Lemma andThen_ext {A B} (c : L A) (f g : A → L B) l :
  (∀ x l', c l = (Ok x, l') → f x l' = g x l') → andThen c f l = andThen c g l.
Proof. intros Hfg. rewrite !andThen_run. destruct (c l) as [[x|e] l'] eqn:Hc; [by apply Hfg|done]. Qed.

Definition answered (q : option StoredQuestion) : Prop := is_Some (q ← q; answer q).

Lemma question_now_run q l l' :
  question_now l = (Ok q, l') →
  q = pending_question l' ∧ (pending_question l = None → q = None) ∧ (answered (pending_question l) → answered q).
Proof.
  unfold question_now. intros Hq. through Hq. apply call_run in Hs as [_ ->]. apply unless_run in Hq as [_ Hq].
  through Hq. apply call_run in Hs as [_ ->]. through Hq. apply write_run in Hs. apply read_run in Hq as [-> ->]. subst.
  cbn. destruct (pending_question l) as [q|]; [|conjs; [done|done|intros Hq; exact Hq]]. cbn. conjs; [done|done|].
  unfold answered. cbn. intros [a Ha]. rewrite Ha. cbn. by rewrite Ha.
Qed.

Lemma save_message_question role bs x l l' : save_message role bs l = (Ok x, l') → pending_question l' = pending_question l.
Proof. intros Hs. by apply (moves_to (same pending_question)) in Hs; [|by apply in_turn_apart]. Qed.

Lemma save_turn_message_takes saved l l' :
  save_turn_message None false l = (Ok saved, l') → answered (pending_question l) → pending_question l' = None.
Proof.
  unfold save_turn_message. cbv zeta. cbn [andb]. intros Hs Ha. through Hs. rename l0 into l1.
  apply question_now_run in Hs0 as (-> & _ & Hanswered). specialize (Hanswered Ha). clear Ha.
  unfold answered in Hanswered. destruct (pending_question l1) as [q|] eqn:Hq; cbn in *; [|by destruct Hanswered].
  destruct Hanswered as [a Ha]. rewrite Ha in Hs. cbn in Hs. through Hs. through Hs.
  apply ok_run in Hs as [_ ->]. apply write_run in Hs1. by subst.
Qed.

(** A pass that starts with the answer recorded takes it and is the last. *)
Lemma answered_is_last spent spent' k k' l :
  answered (pending_question l) → take_answer_loop spent (S k) l = take_answer_loop spent' (S k') l.
Proof.
  intros Ha. cbn [take_answer_loop]. apply andThen_ext. intros saved l1 Hs. apply save_turn_message_takes in Hs; [|done].
  apply andThen_ext. intros x l2 H2. apply andThen_ext. intros q l3 H3. apply question_now_run in H3 as (_ & Hq & _).
  rewrite Hq; [done|]. assert (pending_question l2 = pending_question l1) as ->; [|done].
  destruct saved; [apply on_turn_run in H2|apply ok_run in H2 as [_ H2]]; by subst.
Qed.

(** The loops inside a pass end on their own, within the two passes their fuel allows: what
    they would do past it changes nothing.  A waiting question is answered at most once while
    the turn holds the conversation, and a request that compacted is settled by the floor. *)
Theorem inner_loops_end more l :
  (∀ spent, take_answer_loop spent (2 + more) l = take_answer_or_wait l)
  ∧ ∀ spent r bs hold_to_room refused undercount,
      room_loop spent (2 + more) r bs hold_to_room refused undercount l
      = build_request_with_room r bs hold_to_room refused undercount l.
Proof.
  split.
  - intros spent. unfold take_answer_or_wait. cbn [take_answer_loop Nat.add].
    apply andThen_ext. intros saved l1 _. apply andThen_ext. intros x l2 _. apply andThen_ext. intros q l3 Hq.
    apply question_now_run in Hq as (-> & _ & _). destruct (pending_question l3) as [q|] eqn:Hq; [|done].
    destruct (answer q) as [a|] eqn:Ha; [|done]. cbn [is_some]. apply (answered_is_last spent (err "") more 0). rewrite Hq. unfold answered. cbn. by rewrite Ha.
  - intros spent r bs hold refused n. unfold build_request_with_room. cbn [room_loop Nat.add].
    apply andThen_ext. intros at_room l1 _. apply andThen_ext. intros [request budget] l2 _.
    apply andThen_ext. intros decided l3 _. destruct decided; try done.
    apply andThen_ext. intros m l4 _. apply andThen_ext. intros x l5 _.
    apply andThen_ext. intros at_room' l6 _. apply andThen_ext. intros [request' budget'] l7 _.
    apply andThen_ext. intros decided' l8 Hd. cbn [room_compacted] in Hd. apply with_progress_run in Hd.
    destruct decided'; try done. exfalso. revert Hd. unfold before_sending. cbn [room_compacted negb].
    repeat case_match; intros [=].
Qed.

(** ** A turn's calls are answered before the model is called again *)

Implicit Types (h us before after : list (AnthropicMessage V)).
Notation users us := (Forall (λ m : AnthropicMessage V, is_user m = true) us).

Lemma user_run_app h rest : ∃ more, user_run (app h rest) = app (user_run h) more.
Proof.
  induction h as [|m h (more & IH)]; cbn; [by eexists|]. destruct (is_user m); [|by exists []].
  exists more. by rewrite IH.
Qed.

Lemma user_run_all us : users us → user_run us = us.
Proof. induction 1 as [|m us Hm _ IH]; cbn; [done|]. by rewrite Hm, IH. Qed.

(** What is appended hides no result: it can only answer more. *)
Lemma unanswered_app h rest : unanswered (app h rest) ⊆ app (unanswered h) (unanswered rest).
Proof.
  induction h as [|m h IH]; cbn; [done|]. intros id. rewrite <- app_assoc, !elem_of_app. intros [Hid|Hid].
  - left. destruct (is_assistant m); [|done]. unfold unanswered_calls in *. rewrite elem_list_filter in *.
    destruct Hid as [Hid Hno%negb_true_iff%bool_decide_eq_false]. split; [done|].
    apply negb_true_iff, bool_decide_eq_false. intros Hin. apply Hno. destruct (user_run_app h rest) as [more ->].
    rewrite all_blocks_app, tool_results_app. apply elem_of_app. by left.
  - right. apply elem_of_app. by apply IH.
Qed.

Definition reply_message bs : list (AnthropicMessage V) := match bs with [] => [] | _ => [Build_AnthropicMessage "assistant" bs] end.

(** A round's messages: what was told before the reply, the reply, and what follows it. *)
Lemma round_answered h before bs after :
  users before → users after → (∀ id, id ∈ tool_calls bs → id ∈ tool_results (all_blocks after)) →
  unanswered (app h (app before (app (reply_message bs) after))) ⊆ unanswered h.
Proof.
  intros Hb Ha Hc id Hid. apply unanswered_app, elem_of_app in Hid as [Hid|Hid]; [done|exfalso]. revert Hid.
  rewrite unanswered_users by done. assert (Hafter : unanswered after = []).
  { rewrite <- (app_nil_r after). by rewrite unanswered_users. }
  destruct bs as [|b bs]; cbn [reply_message app]; [rewrite Hafter; apply not_elem_of_nil|].
  cbn [unanswered is_assistant role]. rewrite Hafter, app_nil_r. unfold is_assistant. cbn [role content].
  rewrite bool_decide_eq_true_2 by done. unfold unanswered_calls. rewrite elem_list_filter, user_run_all by done.
  intros [Hid Hno%negb_true_iff%bool_decide_eq_false]. by apply Hno, Hc.
Qed.

Lemma tool_calls_without_blank bs : tool_calls (without_blank_text bs) = tool_calls bs.
Proof.
  induction bs as [|b bs IH]; [done|]. unfold without_blank_text in *. cbn. destruct b; cbn; try done; [|by f_equal].
  by destruct (is_blank text).
Qed.

(** *** What each step saves *)

(** Only user messages are added. *)
Definition tells (l l' : Loop) : Prop := ∃ us, persisted (turn l') = app (persisted (turn l)) us ∧ users us.
#[local] Instance tells_preorder : PreOrder tells.
Proof.
  split; [intros l; exists []; by rewrite app_nil_r|]. intros l l' l'' (us & H1 & Hu) (us' & H2 & Hu').
  exists (app us us'). rewrite H2, H1, app_assoc. split; [done|by apply Forall_app].
Qed.
Definition tells_turn (t t' : Turn) : Prop := ∃ us, persisted t' = app (persisted t) us ∧ users us.
#[local] Instance tells_turn_preorder : PreOrder tells_turn.
Proof.
  split; [intros l; exists []; by rewrite app_nil_r|]. intros l l' l'' (us & H1 & Hu) (us' & H2 & Hu').
  exists (app us us'). rewrite H2, H1, app_assoc. split; [done|by apply Forall_app].
Qed.

Lemma in_turn_tells {A} (c : W → M A) : (∀ w, turns tells_turn (c w)) → moves tells (in_turn c).
Proof.
  Transparent moves turns in_turn. intros Hc l. specialize (Hc (world l) (turn l)). unfold in_turn.
  by destruct (c (world l) (turn l)). Opaque moves turns in_turn.
Qed.

Lemma same_tells {A} (c : L A) : moves (same (λ l : Loop, persisted (turn l))) c → moves tells c.
Proof.
  Transparent moves. intros Hc l. specialize (Hc l). exists []. rewrite app_nil_r. by split. Opaque moves.
Qed.

Lemma tells_user t bs : tells_turn t (t <| persisted ::= λ l, app l [Build_AnthropicMessage "user" bs] |>).
Proof. exists [Build_AnthropicMessage "user" bs]. split; [done|]. by repeat constructor. Qed.

#[local] Hint Extern 1 (tells _ _) => (exists []; rewrite app_nil_r; split; [reflexivity|constructor]) : moves.
#[local] Hint Extern 2 (tells _ _) => (eexists [_]; split; [reflexivity|repeat constructor]) : moves.
#[local] Hint Extern 1 (tells_turn _ _) => (exists []; rewrite app_nil_r; split; [reflexivity|constructor]) : moves.
#[local] Hint Extern 2 (tells_turn _ _) => (eexists [_]; split; [reflexivity|repeat constructor]) : moves.
#[local] Hint Extern 3 (moves tells (in_turn _)) => (apply in_turn_tells; intros ?; solve [eauto with moves nocore]) : moves.

Lemma save_tells cm bs : turns tells_turn (save cm "user" bs).
Proof. apply turns_save; [apply _|]. intros t. apply tells_user. Qed.
#[local] Hint Resolve save_tells : moves.

Lemma save_message_tells bs : moves tells (save_message "user" bs).
Proof. apply in_turn_tells. intros w. apply save_tells. Qed.
#[local] Hint Resolve save_message_tells : moves.

Lemma open_pass_tells is_wake : moves tells (open_pass is_wake).
Proof.
  unfold open_pass, drain_unnotified_terminal_commands, drain_idle_command_notices, drain_agent_messages, drain_row.
  assert (Ht : moves tells take_answer_or_wait).
  { unfold take_answer_or_wait. generalize 2. intros n.
    induction n as [|fuel IH]; cbn [take_answer_loop]; [apply moves_err, _|].
    unfold save_turn_message, question_now. cbv zeta. walk. }
  walk.
Qed.

Lemma know_model_tells : moves tells know_model.
Proof. unfold know_model, set_model. walk. Qed.

Lemma compact_tells m refused : moves tells (compact_conversation m refused).
Proof.
  unfold compact_conversation, summary_of, summarize, insert_row.
  assert (Hi : ∀ (row : string * list (ContentBlock V)) e,
    turns tells_turn (λ t, (Ok (create_message o e t (Build_AnthropicMessage row.1 row.2)), t))).
  { Transparent turns. intros row e t. eauto with moves nocore. Opaque turns. }
  walk.
Qed.
#[local] Hint Resolve compact_tells : moves.

Lemma size_up_tells m : moves tells (size_up m).
Proof. unfold size_up. walk. Qed.

Lemma build_with_room_tells r bs hold refused n : moves tells (build_request_with_room r bs hold refused n).
Proof.
  unfold build_request_with_room, build_request. generalize 2. intros fuel. revert r.
  induction fuel as [|fuel IH]; intros r; cbn [room_loop]; unfold build_request; walk.
Qed.

Lemma call_model_tells m request : moves tells (call_model m request).
Proof.
  unfold call_model. destruct (bool_decide _); [walk|]. generalize TOOL_CALL_PARSE_RETRIES. intros n.
  revert request. induction n as [|n IH]; intros request; cbn [call_attempts]; unfold stream_for_turn; walk.
Qed.
#[local] Hint Resolve build_with_room_tells call_model_tells : moves.

Lemma recover_tells m usage bs request overflow : moves tells (recover m usage bs request overflow).
Proof. unfold recover, answer_refusal, set_model. walk. Qed.
#[local] Hint Resolve recover_tells : moves.

Lemma get_reply_tells m c : moves tells (get_reply m c).
Proof. unfold get_reply. walk. Qed.

Lemma save_stop_notice_tells cm m turn budget c : turns tells_turn (save_stop_notice cm m turn budget c).
Proof. unfold save_stop_notice. walk_turn. Qed.
Lemma save_notice_tells cm notice : turns tells_turn (save_notice cm notice).
Proof. unfold save_notice. walk_turn. Qed.
#[local] Hint Resolve save_stop_notice_tells save_notice_tells : moves.

Lemma carry_on_tells m g : moves tells (carry_on m g).
Proof. unfold carry_on. walk. Qed.

Lemma after_reply_tells cm turn offered : turns tells_turn (after_reply cm (to_lowercase o) (first_value o) turn offered).
Proof. unfold after_reply. walk_turn. Qed.
#[local] Hint Resolve after_reply_tells : moves.

Lemma tool_pass_tells g correction : moves tells (tool_pass g correction).
Proof. unfold tool_pass, count_calls. walk. Qed.
#[local] Hint Resolve tool_pass_tells : moves.

Lemma go_on_tells g : moves tells (go_on g).
Proof. unfold go_on. walk. Qed.

Lemma not_run_results ids : tool_results (map (not_run_result (V := V)) ids) = ids.
Proof. induction ids as [|id ids IH]; [done|]. unfold tool_results in *. cbn. by f_equal. Qed.

Lemma save_reply_saves cm turn t t' :
  save_reply cm turn t = (Ok (), t') →
  ∃ us, persisted t' = app (persisted t) (app (reply_message (without_blank_text (Stream.turn_content turn))) us) ∧ users us
  ∧ (Stream.is_cut_off (Stream.turn_stop_reason turn) || is_refusal (Stream.turn_stop_reason turn) = true →
     ∀ id, id ∈ tool_calls (Stream.turn_content turn) → id ∈ tool_results (all_blocks us)).
Proof.
  Transparent bind save ret modify. unfold save_reply. cbv zeta. unfold bind, modify, ret, save. Opaque bind save ret modify.
  set (stopped := _ || _). set (reply := without_blank_text _).
  assert (Htail : ∀ t0 : Turn,
    (if stopped then match map not_run_result (tool_calls (Stream.turn_content turn)) with
       | [] => λ t, (Ok (), t)
       | c :: l => λ t, match cm t (Build_AnthropicMessage "user" (c :: l)) with
                        | Some e => (Err e, t)
                        | None => (Ok (), t <| persisted ::= λ p, app p [Build_AnthropicMessage "user" (c :: l)] |>) end
       end else λ t, (Ok (), t)) t0 = (Ok (), t') →
    ∃ us, persisted t' = app (persisted t0) us ∧ users us
    ∧ (stopped = true → ∀ id, id ∈ tool_calls (Stream.turn_content turn) → id ∈ tool_results (all_blocks us))).
  { intros t0. pose proof (not_run_results (tool_calls (Stream.turn_content turn))) as Hids. destruct stopped.
    - destruct (map _ _) as [|c l]; [intros [= <-]; exists []; rewrite app_nil_r, <- Hids; conjs; [done|done|by intros _ id ?%elem_of_nil]|].
      destruct (cm t0 _); [done|]. intros [= <-]. eexists [_]. conjs; [done|by repeat constructor|].
      intros _ id. unfold all_blocks. cbn [map concat content]. by rewrite app_nil_r, Hids.
    - intros [= <-]. exists []. rewrite app_nil_r. by conjs. }
  destruct reply as [|b bs] eqn:Hreply; cbn [reply_message app].
  - intros Hs. by apply Htail in Hs.
  - destruct (cm t _); [done|]. intros Hs. apply Htail in Hs as (us & Hp & Hu & Hc). exists us. conjs; [|done|done].
    rewrite Hp. cbn. by rewrite <- app_assoc.
Qed.

Lemma keep_reply_saves n g l m l' :
  keep_reply n g l = (Ok m, l') →
  ∃ us, persisted (turn l') = app (persisted (turn l)) (app (reply_message (without_blank_text (Stream.turn_content (got_turn g)))) us)
  ∧ users us
  ∧ (Stream.is_cut_off (Stream.turn_stop_reason (got_turn g)) || is_refusal (Stream.turn_stop_reason (got_turn g)) = true →
     ∀ id, id ∈ tool_calls (Stream.turn_content (got_turn g)) → id ∈ tool_results (all_blocks us)).
Proof.
  unfold keep_reply, set_model. intros Hk. through Hk. through Hk. through Hk. through Hk.
  apply unless_run in Hk as [_ Hk]. set (R := same (λ l : Loop, persisted (turn l))).
  apply (moves_to R) in Hs; [|unfold R; walk]. apply (moves_to R) in Hs0; [|unfold R; walk].
  apply (moves_to R) in Hs2; [|unfold R; walk]. apply (moves_to R) in Hk; [|unfold R; walk].
  apply in_turn_run in Hs1. destruct x1. apply save_reply_saves in Hs1. unfold R, same in *. by rewrite Hk, Hs2, <- Hs, <- Hs0.
Qed.

(** Nothing saved is taken back. *)
Definition grows (l l' : Loop) : Prop := persisted (turn l) `prefix_of` persisted (turn l').
#[local] Instance grows_preorder : PreOrder grows.
Proof. split; [intros l; unfold grows; reflexivity|]. intros l l' l'' H1 H2. unfold grows in *. by etransitivity. Qed.

Lemma tells_grows {A} (c : L A) : moves tells c → moves grows c.
Proof. Transparent moves. intros Hc l. destruct (Hc l) as (us & Hp & _). unfold grows. rewrite Hp. by eexists. Opaque moves. Qed.

Definition grows_turn (t t' : Turn (V := V)) : Prop := persisted t `prefix_of` persisted t'.
#[local] Instance grows_turn_preorder : PreOrder grows_turn.
Proof. split; [intros l; unfold grows_turn; reflexivity|]. intros l l' l'' H1 H2. unfold grows_turn in *. by etransitivity. Qed.

Lemma save_reply_grows cm turn : turns grows_turn (save_reply cm turn).
Proof. unfold save_reply. walk_turn; unfold grows_turn; first [reflexivity|by eexists]. Qed.

Lemma in_turn_grows {A} (c : W → M A) : (∀ w, turns grows_turn (c w)) → moves grows (in_turn c).
Proof.
  Transparent moves turns in_turn. intros Hc l. specialize (Hc (world l) (turn l)). unfold in_turn.
  by destruct (c (world l) (turn l)). Opaque moves turns in_turn.
Qed.

Lemma keep_reply_grows n g : moves grows (keep_reply n g).
Proof.
  unfold keep_reply, set_model. pose proof (λ cm turn, in_turn_grows _ (λ w, save_reply_grows (cm w) turn)) as Hs. walk.
  all: unfold grows; done.
Qed.

Lemma pass_grows is_wake n : moves grows (pass is_wake n).
Proof.
  unfold pass. pose proof (open_pass_tells is_wake) as H1. pose proof know_model_tells as H2. pose proof size_up_tells as H3.
  pose proof get_reply_tells as H4. pose proof keep_reply_grows as H5. pose proof carry_on_tells as H6. pose proof go_on_tells as H7.
  apply tells_grows in H1, H2. assert (H3' := λ m, tells_grows _ (H3 m)). assert (H4' := λ m c, tells_grows _ (H4 m c)).
  assert (H6' := λ m g, tells_grows _ (H6 m g)). assert (H7' := λ g, tells_grows _ (H7 g)). walk.
Qed.

Lemma save_message_run role bs x l l' :
  save_message role bs l = (Ok x, l') → persisted (turn l') = app (persisted (turn l)) [Build_AnthropicMessage role bs].
Proof.
  intros Hs. apply in_turn_run in Hs. revert Hs. Transparent save. unfold save. Opaque save.
  destruct (create_message o _ _ _); [done|]. intros [= _ Ht]. by rewrite <- Ht.
Qed.

(** What a round's tail saves answers what its reply called. *)
Definition answers (g : Got) (l l' : Loop) : Prop :=
  ∃ us, persisted (turn l') = app (persisted (turn l)) us ∧ users us
  ∧ ∀ id, id ∈ tool_calls (Stream.turn_content (got_turn g)) → id ∈ tool_results (all_blocks us).

Lemma tool_pass_answers g correction why l l' : tool_pass g correction l = (Ok (Again why), l') → answers g l l'.
Proof.
  unfold tool_pass. intros Ht. through Ht. through Ht. through Ht. through Ht. through Ht.
  apply ok_run in Ht as [Hend ->]. destruct (ends x) eqn:Hends; [done|].
  apply in_turn_run in Hs.
  apply (run_tools_ran (λ _ _, None) _ _ _ _ _ _ _ (λ _, None)) in Hs as [Hsame Hran].
  destruct (Hran x eq_refl) as [Hperm Hasked]. destruct (asked x); [by rewrite Hasked in Hends|].
  cbn [option_list] in Hperm. rewrite app_nil_r in Hperm.
  set (R := tells). assert (H2 : tells l1 l4).
  { apply (moves_to tells) in Hs1; [|walk]. apply (moves_to tells) in Hs2; [|walk]. apply (moves_to tells) in Hs3; [|unfold count_calls; walk].
    etransitivity; [exact Hs1|]. by etransitivity. }
  destruct H2 as (us & Hp & Hu). unfold answers. rewrite Hp, <- Hsame. clear -Hs0 Hu Hperm.
  destruct (results x) as [|b bs] eqn:Hr.
  - apply ok_run in Hs0 as [_ ->]. exists us. conjs; [done|done|]. intros id. rewrite <- Hperm. by intros ?%elem_of_nil.
  - apply save_message_run in Hs0. rewrite Hs0, <- app_assoc. eexists. split; [done|]. split; [by constructor|].
    intros id. rewrite <- Hperm. intros Hid. rewrite all_blocks_app, tool_results_app. apply elem_of_app. left.
    unfold all_blocks. cbn [map concat content]. by rewrite app_nil_r.
Qed.

Lemma no_tool_use bs : existsb is_tool_use bs = false → tool_calls bs = [].
Proof. induction bs as [|[] bs IH]; cbn; try done. Qed.

Lemma after_reply_saves cm turn offered t step t' :
  after_reply cm (to_lowercase o) (first_value o) turn offered t = (Ok step, t') →
  match step with
  | CallAgain => tool_calls (Stream.turn_content turn) = []
  | RunTools _ => persisted t' = persisted t
  | EndTurn => True
  end.
Proof.
  Transparent ret fail bind modify get save.
  unfold after_reply. destruct (_ || _); [by intros [= <- <-]|].
  destruct (existsb is_tool_use _) eqn:Hno. { destruct (negb _); by intros [= <- <-]. }
  apply no_tool_use in Hno. unfold save_notice, save, bind, modify, get, ret, fail. Opaque ret fail bind modify get save.
  destruct (text_calls _ _) as [|c calls].
  - destruct (existsb is_answer _ || _); [by intros [= <- <-]|]. destruct (cm _ _); [done|]. by intros [= <- <-].
  - destruct (cm _ _); [done|]. cbn -[MAX_TEXT_CALL_CORRECTIONS]. case_bool_decide; [done|]. by intros [= <- <-].
Qed.

Lemma go_on_answers g why l l' : go_on g l = (Ok (Again why), l') → answers g l l'.
Proof.
  intros Hg. pose proof (moves_to _ _ _ _ _ (go_on_tells g) Hg) as (us0 & Hp0 & Hu0). unfold go_on in Hg. through Hg.
  apply in_turn_run, after_reply_saves in Hs. destruct x as [correction| |].
  - apply tool_pass_answers in Hg. unfold answers in *. by rewrite Hs in Hg.
  - exists us0. conjs; [done|done|]. rewrite Hs. by intros id ?%elem_of_nil.
  - by apply ok_run in Hg as [? _].
Qed.

Lemma pass_answers is_wake n why l l' :
  pass is_wake n l = (Ok (Again why), l') → unanswered (persisted (turn l')) ⊆ unanswered (persisted (turn l)).
Proof.
  unfold pass. intros Hp. through Hp. destruct x; cbn [negb] in Hp; [|by apply ok_run in Hp as [? _]].
  through Hp. through Hp. through Hp. through Hp. through Hp.
  apply (moves_to tells) in Hs; [|apply open_pass_tells]. apply (moves_to tells) in Hs0; [|apply know_model_tells].
  apply (moves_to tells) in Hs1; [|apply size_up_tells]. apply (moves_to tells) in Hs2; [|apply get_reply_tells].
  assert (Hb : tells l l3) by (do 3 (etransitivity; [eassumption|]); done). clear Hs Hs0 Hs1 Hs2.
  destruct Hb as (before & Hb & Hbu). apply keep_reply_saves in Hs3 as (us & Hk & Hku & Hstopped).
  pose proof (moves_to tells _ _ _ _ (carry_on_tells _ _) Hs4) as (more & Hc & Hcu).
  destruct x3 as [].
  - apply ok_run in Hp as [_ ->]. rewrite Hc, Hk, Hb, <- !app_assoc. apply round_answered; [done|by apply Forall_app|].
    rewrite tool_calls_without_blank. intros id Hid. rewrite all_blocks_app, tool_results_app. apply elem_of_app. left.
    apply Hstopped; [|done]. clear -Hs4. unfold carry_on in Hs4. through Hs4. through Hs4.
    destruct x; [|through Hs4; destruct (if Stream.is_cut_off _ then _ else _); [by apply err_run in Hs4|by apply ok_run in Hs4 as [? _]]].
    apply with_progress_run in Hs. cbv beta zeta in Hs. by destruct (Stream.is_cut_off _).
  - apply go_on_answers in Hp as (us' & Hg & Hgu & Hans). rewrite Hg, Hc, Hk, Hb, <- !app_assoc.
    apply round_answered; [done|by rewrite !Forall_app|].
    rewrite tool_calls_without_blank. intros id Hid. rewrite !all_blocks_app, !tool_results_app, !elem_of_app. right. right. by apply Hans.
Qed.

(** C1. A turn never calls the model again with a call of its own unanswered, and unsays
    nothing.  Every pass, however it ends, keeps the messages saved before it; and as often as
    the loop goes round, no reply of the turn has a call that the messages right after it
    don't answer, other than one unanswered when the turn began. *)
Theorem rounds_answer_their_calls is_wake window_stop_turn l :
  persisted (turn l) `prefix_of` persisted (turn (snd (pass is_wake window_stop_turn l)))
  ∧ ∀ whys l', rounds is_wake window_stop_turn l whys l' →
      unanswered (persisted (turn l')) ⊆ unanswered (persisted (turn l)).
Proof.
  split; [exact (pass_grows is_wake window_stop_turn l)|]. intros whys l'. induction 1 as [|l why l1 whys l' Hp _ IH]; [done|].
  etransitivity; [exact IH|]. by eapply pass_answers.
Qed.

(** ** A waiting question *)

Lemma save_turn_message_none saved l l' :
  save_turn_message None false l = (Ok saved, l') → is_Some (pending_question l') → saved = None ∧ turn l' = turn l.
Proof.
  unfold save_turn_message. cbv zeta. cbn [andb]. intros Hs Hq. through Hs. rename l0 into l1.
  apply (moves_to (same turn)) in Hs0 as Ht; [|unfold question_now; walk].
  apply question_now_run in Hs0 as (-> & _ & _).
  destruct (pending_question l1) as [q|] eqn:Hrow; cbn in Hs; [destruct (answer q) eqn:Ha; cbn in Hs|].
  - through Hs. through Hs. apply ok_run in Hs as [_ ->]. apply write_run in Hs1. subst. by destruct Hq.
  - by apply ok_run in Hs as [-> ->].
  - by apply ok_run in Hs as [-> ->].
Qed.

Lemma question_now_turn q l l' :
  question_now l = (Ok q, l') → turn l' = turn l ∧ (is_Some (pending_question l') → is_Some (pending_question l)).
Proof.
  intros Hq. apply (moves_to (same turn)) in Hq as Ht; [|unfold question_now; walk]. split; [done|].
  apply question_now_run in Hq as (-> & Hn & _). destruct (pending_question l); [done|]. by rewrite Hn.
Qed.

Lemma take_answer_run fuel : ∀ waits l l',
  take_answer_loop (err "") fuel l = (Ok waits, l') →
  if waits : bool then turn l' = turn l ∧ ∃ q, pending_question l' = Some q ∧ answer q = None
  else pending_question l' = None.
Proof.
  induction fuel as [|fuel IH]; cbn [take_answer_loop]; intros waits l l' Ht; [by apply err_run in Ht|].
  through Ht. through Ht. through Ht.
  assert (Hkept : is_Some (pending_question l2) → turn l2 = turn l).
  { intros Hq. apply question_now_turn in Hs1 as [-> Hrow]. specialize (Hrow Hq).
    assert (H1 : is_Some (pending_question l0)).
    { destruct x; [apply on_turn_run in Hs0|apply ok_run in Hs0 as [_ Hs0]]; by subst. }
    destruct (save_turn_message_none _ _ _ Hs H1) as [-> <-]. by apply ok_run in Hs0 as [_ ->]. }
  apply question_now_run in Hs1 as (-> & _ & _). destruct (pending_question l2) as [q|] eqn:Hq.
  - destruct (answer q) eqn:Ha; cbn [is_some] in Ht.
    + apply IH in Ht. destruct waits; [|done]. destruct Ht as [-> ?]. split; [|done]. by apply Hkept.
    + apply ok_run in Ht as [-> ->]. split; [by apply Hkept|]. by exists q.
  - apply ok_run in Ht as [-> ->]. done.
Qed.

Lemma drains_question is_wake waits l l' :
  (if waits : bool then ok false
   else
     let! _ := drain_unnotified_terminal_commands in
     let! _ := drain_idle_command_notices in
     let! _ := drain_agent_messages in
     let! saved := read (λ l, persisted (turn l)) in
     match saved with [] => if is_wake : bool then ok false else ok true | _ => ok true end) l = (Ok true, l') →
  waits = false ∧ pending_question l' = pending_question l.
Proof.
  destruct waits; [by intros [? _]%ok_run|]. intros Hd. split; [done|].
  apply (moves_to (same pending_question)) in Hd; [done|].
  unfold drain_unnotified_terminal_commands, drain_idle_command_notices, drain_agent_messages, drain_row. walk.
Qed.

(** A question the user hasn't answered stops the turn: the model is called only once the
    conversation waits on nothing, and a pass that ends because a question still waits has
    saved nothing, drained nothing and told the model nothing new.  Any other pass that ends
    before the model is called is a wake's that found nothing to tell. *)
Theorem a_waiting_question_stops_the_turn is_wake l :
  match open_pass is_wake l with
  | (Ok true, l') => pending_question l' = None
  | (Ok false, l') =>
      turn l' = turn l ∧ (∃ q, pending_question l' = Some q ∧ answer q = None)
      ∨ is_wake = true ∧ persisted (turn l') = []
  | (Err _, _) => True
  end.
Proof.
  destruct (open_pass is_wake l) as [[[]|e] l'] eqn:Hp; [| |done].
  - unfold open_pass in Hp. through Hp. apply drains_question in Hp as [-> ->]. by apply take_answer_run in Hs.
  - unfold open_pass in Hp. through Hp. apply take_answer_run in Hs. destruct x.
    + apply ok_run in Hp as [_ ->]. by left.
    + right. through Hp. through Hp. through Hp. through Hp. apply read_run in Hs3 as [-> ->].
      destruct (persisted (turn l3)) eqn:Hl; [|by apply ok_run in Hp as [? _]].
      destruct is_wake; apply ok_run in Hp as [? ->]; done.
Qed.

(** ** The requests *)

Lemma apply_budget_fits request m budget :
  max_tokens (apply_budget request m budget) = tokens budget
  ∧ thinking_config (apply_budget request m budget) = turn_thinking_config m (tokens budget)
  ∧ messages (apply_budget request m budget) = messages request.
Proof. done. Qed.

(** What a request [build_request_with_room] gives is: a history rebuilt from the saved
    messages, and the budget and thinking it was let out with. *)
Definition whole_request (request : CreateMessageRequest V) m (sent : ReplyBudget) : Prop :=
  max_tokens request = tokens sent
  ∧ thinking_config request = turn_thinking_config m (tokens sent)
  ∧ ∃ rows, history_for_request (parse_blocks o) rows (thinking_stripped_through m) = Ok (messages request).

Lemma build_request_whole m usage bs ro n request budget l l' :
  build_request m usage bs ro n l = (Ok (request, budget), l') → whole_request request m budget.
Proof.
  unfold build_request. intros Hb. through Hb. through Hb. through Hb. through Hb. through Hb.
  apply or_fail_run in Hs1 as [Hh _]. apply ok_run in Hb as [Hx _]. injection Hx as -> ->.
  unfold whole_request. conjs; [done|done|by exists x0].
Qed.

Lemma room_loop_whole fuel : ∀ r bs hold refused n request sent r' l l',
  room_loop (err "") fuel r bs hold refused n l = (Ok (request, sent, r'), l') → whole_request request (room_model r') sent.
Proof.
  induction fuel as [|fuel IH]; cbn [room_loop]; intros r bs hold refused n request sent r' l l' Hr; [by apply err_run in Hr|].
  through Hr. through Hr. destruct x0 as [request0 budget]. apply build_request_whole in Hs0. through Hr.
  destruct x0 as [sent0| |why].
  - apply ok_run in Hr as [[= -> -> ->] _]. case_bool_decide; [by subst|].
    destruct Hs0 as (_ & _ & rows & Hrows). unfold whole_request. conjs; [done|done|]. by exists rows.
  - through Hr. through Hr. by apply IH in Hr.
  - by apply err_run in Hr.
Qed.

(** Every request a turn sends for a reply, the first or the retry a refusal gets, is
    whole: every call in it is answered in the next message, and it asks for the tokens of the
    budget it was let out with and the thinking that goes with them. *)
Theorem requests_are_whole r bs hold_to_room refused undercount l :
  match build_request_with_room r bs hold_to_room refused undercount l with
  | (Ok (request, sent, r'), _) =>
      max_tokens request = tokens sent
      ∧ thinking_config request = turn_thinking_config (room_model r') (tokens sent)
      ∧ (∀ pre reply post, messages request = app pre (reply :: post) → is_assistant reply = true → tool_calls (content reply) ≠ [] →
           ∃ next post', post = next :: post' ∧ is_user next = true
             ∧ ∀ id, id ∈ tool_calls (content reply) → id ∈ tool_results (content next))
  | (Err _, _) => True
  end.
Proof.
  destruct (build_request_with_room _ _ _ _ _ l) as [[[[request sent] r']|e] l'] eqn:Hb; [|done].
  apply room_loop_whole in Hb as (? & ? & rows & Hrows). conjs; [done|done|]. intros pre reply post Hm Ha Hc.
  unfold history_for_request in Hrows. destruct (collect_results _ rows); [|done]. cbn in Hrows. injection Hrows as Hrows.
  destruct (answer_unfinished_answers _ pre reply post (eq_trans Hrows Hm) Ha Hc) as (next & post' & -> & Hn & Hids).
  by exists next, post'.
Qed.
End TurnLoop.
