(* ===== verification/McpCalls.v ===== *)
(** * McpCalls: what a command's scripts did with MCP tools

    [src/src/api/mcp_calls.rs]: the counts of recorded calls as one summary, and the
    summary as the line the sandbox panel and the model are given. *)

From S2P Require Import Prelude RustStr.
Local Open Scope string_scope.

Definition MAX_TOOLS_NAMED : nat := 4.

Record McpCallSummary := {
  sum_calls : Z;
  sum_tools : list (string * Z);
  sum_refused : Z;
  sum_tool_errors : Z;
  sum_failed : Z;
  sum_unknown : Z;
  sum_limited : Z;
}.
#[export] Instance McpCallSummary_eta : Eta McpCallSummary := λ s,
  Build_McpCallSummary (sum_calls s) (sum_tools s) (sum_refused s) (sum_tool_errors s)
    (sum_failed s) (sum_unknown s) (sum_limited s).
#[export] Instance McpCallSummary_eq_dec : EqDecision McpCallSummary.
Proof. solve_decision. Defined.
Definition default_summary : McpCallSummary := Build_McpCallSummary 0 [] 0 0 0 0 0.

(** A tool's recorded calls with one outcome; [stale] is a [running] one past the agent's
    wait. *)
Record McpCallCount := {
  mc_server : string;
  mc_tool : string;
  mc_outcome : string;
  mc_stale : bool;
  mc_count : Z;
}.

Section Sums.
Local Open Scope Z_scope.

(** The outcome's own counter. *)
Definition count_outcome (c : McpCallCount) (s : McpCallSummary) : McpCallSummary :=
  if bool_decide (mc_outcome c = "refused") then s <| sum_refused ::= λ n, i64_add n (mc_count c) |>
  else if bool_decide (mc_outcome c = "tool_error") then s <| sum_tool_errors ::= λ n, i64_add n (mc_count c) |>
  else if bool_decide (mc_outcome c = "failed") then s <| sum_failed ::= λ n, i64_add n (mc_count c) |>
  else if bool_decide (mc_outcome c = "running") && mc_stale c then s <| sum_unknown ::= λ n, i64_add n (mc_count c) |>
  else s.

(** [tools.iter_mut().find(..)], or one more entry. *)
Fixpoint count_tool (name : string) (n : Z) (tools : list (string * Z)) : list (string * Z) :=
  match tools with
  | [] => [(name, n)]
  | (t, m) :: rest => if bool_decide (t = name) then (t, i64_add m n) :: rest else (t, m) :: count_tool name n rest
  end.

Definition tool_name_of (c : McpCallCount) : string := mc_server c +:+ "/" +:+ mc_tool c.

(** One pass of the loop. *)
Definition count_call (acc : McpCallSummary * list (string * Z)) (c : McpCallCount)
    : McpCallSummary * list (string * Z) :=
  let '(s, tools) := acc in
  if bool_decide (mc_outcome c = "limited") then (s <| sum_limited ::= λ n, i64_add n (mc_count c) |>, tools)
  else
    let s := count_outcome c (s <| sum_calls ::= λ n, i64_add n (mc_count c) |>) in
    (s, count_tool (tool_name_of c) (mc_count c) tools).

(** [m.cmp(n).then_with(|| a.cmp(b))]. *)
Definition most_first (x y : string * Z) : bool :=
  let '(a, n) := x in
  let '(b, m) := y in
  match m ?= n with Lt => true | Gt => false | Eq => str_le a b end.

Definition from_counts (counts : list McpCallCount) : option McpCallSummary :=
  let '(s, tools) := fold_left count_call counts (default_summary, []) in
  if (sum_calls s =? 0) && (sum_limited s =? 0) then None
  else Some (s <| sum_tools := sort_by most_first tools |>).
End Sums.

(** [{n}] of an [i64]. *)
Definition show_i64 (n : Z) : string :=
  if (n <? 0)%Z then "-" +:+ show_unsigned (- n) else show_unsigned n.
Definition plural (n : Z) (one many : string) : string :=
  if (n =? 1)%Z then show_i64 n +:+ " " +:+ one else show_i64 n +:+ " " +:+ many.

(** ["×"], two bytes of UTF-8, and ["·"]. *)
Definition TIMES : string := String (ascii_of_nat 195) (String (ascii_of_nat 151) "").
Definition MIDDLE_DOT : string := String (ascii_of_nat 194) (String (ascii_of_nat 183) "").

Definition wrong_part (p : Z * string * string) : option string :=
  let '(n, one, many) := p in
  if (0 <? n)%Z then Some (plural n one many) else None.

Definition summary_text (s : McpCallSummary) : string :=
  let named := map (λ '(tool, n), tool +:+ " " +:+ TIMES +:+ show_i64 n) (take MAX_TOOLS_NAMED (sum_tools s)) in
  let others := sat_sub (Z.of_nat (length (sum_tools s))) (Z.of_nat MAX_TOOLS_NAMED) in
  let named := if (0 <? others)%Z then app named [plural others "other tool" "other tools"] else named in
  let parts := [ "MCP: " +:+ plural (sum_calls s) "call" "calls" ] in
  let parts := if bool_decide (named = []) then parts else app parts [join ", " named] in
  let wrong := omap wrong_part
    [(sum_refused s, "refused", "refused");
     (sum_tool_errors s, "tool error", "tool errors");
     (sum_failed s, "failed", "failed");
     (sum_unknown s, "outcome unknown", "outcome unknown");
     (sum_limited s, "held back by a limit", "held back by a limit")] in
  join (" " +:+ MIDDLE_DOT +:+ " ") (app parts wrong).
