(* ===== verification/ChatPage.v ===== *)
(** * ChatPage: the chat page's state of one conversation

    [src/src/frontend/pages/chat/state.rs], with the live events of
    [src/src/events/mod.rs], the snapshot of [src/src/api/sandbox.rs] and the send's
    helpers of [src/src/frontend/pages/chat/actions.rs]: what each event, load and send
    does to the messages shown, the streaming reply, the error lines and the sandbox panel.

    A store of signals is the record of its values.  The panels' own rows that no operation
    here looks into (todos, repos, the context detail) are those of their modules or type
    parameters; reading and writing a message's blocks as JSON are parameters. *)

From S2P Require Import TurnState.
From S2P Require Import Prelude RustStr Types Models Notices Questions McpCalls.
Local Open Scope string_scope.

(** ** What the page is told ([events::ConversationEvent], [api::sandbox]) *)

Inductive TodoStatus := Pending | InProgress | Completed.
Record TodoItem := { todo_content : string; todo_status : TodoStatus }.

Inductive RepoStatus := Cloning | Ready | RepoFailed.
Record TrustRequest := { trust_id : Z; trust_path : string; trust_content : string; trust_hash : string; is_repo : bool }.
Record RepoSummary := {
  repo_id : Z;
  repo_summary_url : string;
  repo_path : string;
  requested_branch : option string;
  branch : option string;
  commit : option string;
  repo_status : RepoStatus;
  repo_error : option string;
  agents_files : list string;
  loaded_instructions : list string;
  trust_requests : list TrustRequest;
}.

Record PendingQuestion := { tool_use_id : string; questions : list Question }.

Record SandboxPreview := { port : Z; host : option string; preview_url : string }.
#[export] Instance SandboxPreview_eq_dec : EqDecision SandboxPreview.
Proof. solve_decision. Defined.

Record ContextUsageSnapshot := { snapshot_usage : option TokenUsage; snapshot_window : Z }.

Inductive ConversationEvent :=
  | MessagesAppended (messages : list Message)
  | SandboxPodUpdate (pod_id : Z) (status : string) (node : option string) (terminated : bool)
  | SandboxPreviewUpdate (pod_id : Z) (previews : list SandboxPreview)
  | SandboxTerminalUpdate (pod_id terminal_id : Z) (status : string) (terminated : bool)
  | SandboxCommandUpdate (terminal_id : Z) (command_id : string) (command : option string) (status : string)
      (exit_code : option Z) (stream latest_output : option string) (position : option Z)
  | SandboxMcpCalls (command_id : string) (summary : McpCallSummary)
  | NotificationDeliveryFailed (detail : string)
  | ContextUsageUpdate (usage : TokenUsage) (context_window : Z)
  | TodoListUpdate (items : list TodoItem)
  | BrowsingSessionUpdate (open : bool)
  | BrowsingUrlUpdate (url : string)
  | ReposUpdate (repos : list RepoSummary)
  | PodsChanged
  | QuestionUpdate (question : option PendingQuestion)
  | QuestionsChanged
  | NeedsUser (conversation_id : Z) (attention : Attention) (generation : Z)
  | ConversationsChanged
  | ModelChanged
  | ProvidersChanged
  | TurnsChanged
  | TurnState (running : bool) (elapsed : Z)
  | ReplyReset
  | ReplyDelta (text : string) (offset : Z)
  | TurnError (message : string)
  | Unknown.

Record SandboxOutputLine := { line_stream : string; line_data : string; line_seq : Z }.
Record SandboxCommandSummary := {
  cs_command_id : string;
  cs_command : string;
  cs_status : string;
  cs_exit_code : option Z;
  cs_output : list SandboxOutputLine;
  cs_mcp_calls : option McpCallSummary;
}.
Record SandboxTerminalSummary := {
  ts_terminal_id : Z;
  ts_pod_id : Z;
  ts_status : string;
  ts_commands : list SandboxCommandSummary;
}.
Record SandboxPodSummary := {
  ps_pod_id : Z;
  ps_status : string;
  ps_node : option string;
  ps_terminals : list SandboxTerminalSummary;
  ps_previews : list SandboxPreview;
}.
Record SandboxSnapshot := { snapshot_pods : list SandboxPodSummary }.

(** ** The panel's entries *)

Record SandboxPodPanelEntry := {
  pp_pod_id : Z;
  pp_status : string;
  pp_node : option string;
  pp_previews : list SandboxPreview;
}.
#[export] Instance SandboxPodPanelEntry_eta : Eta SandboxPodPanelEntry := λ p,
  Build_SandboxPodPanelEntry (pp_pod_id p) (pp_status p) (pp_node p) (pp_previews p).
(** [seq]: the agent's per-command number of the line, when known. *)
Record SandboxOutputLinePanelEntry := { lp_stream : string; lp_data : string; lp_seq : option Z }.
Record SandboxCommandPanelEntry := {
  cp_command_id : string;
  cp_command : string;
  cp_status : string;
  cp_exit_code : option Z;
  cp_output : list SandboxOutputLinePanelEntry;
  cp_mcp_calls : option McpCallSummary;
}.
#[export] Instance SandboxCommandPanelEntry_eta : Eta SandboxCommandPanelEntry := λ c,
  Build_SandboxCommandPanelEntry (cp_command_id c) (cp_command c) (cp_status c) (cp_exit_code c)
    (cp_output c) (cp_mcp_calls c).
Record SandboxTerminalPanelEntry := {
  tp_terminal_id : Z;
  tp_pod_id : Z;
  tp_status : string;
  tp_commands : list SandboxCommandPanelEntry;
}.
#[export] Instance SandboxTerminalPanelEntry_eta : Eta SandboxTerminalPanelEntry := λ t,
  Build_SandboxTerminalPanelEntry (tp_terminal_id t) (tp_pod_id t) (tp_status t) (tp_commands t).

(** ** Lists changed in place *)

Lemma sublist_map {A B} (f : A → B) (l k : list A) : l `sublist_of` k → map f l `sublist_of` map f k.
Proof. induction 1; cbn; by constructor. Qed.

(** [iter_mut().find(p)]: [f] of the first entry with [p], or [None]. *)
Fixpoint update_first {A} (p : A → bool) (f : A → A) (l : list A) : option (list A) :=
  match l with
  | [] => None
  | x :: l => if p x then Some (f x :: l) else (λ l, x :: l) <$> update_first p f l
  end.
(** [iter_mut().rev().find(p)]. *)
Definition update_last {A} (p : A → bool) (f : A → A) (l : list A) : option (list A) :=
  reverse <$> update_first p f (reverse l).
(** The entry with [p] changed by [f], or a new one pushed. *)
Definition upsert {A} (p : A → bool) (f : A → A) (new : A) (l : list A) : list A :=
  default (app l [new]) (update_first p f l).
(** The entry with [p], if there is one, changed by [f]. *)
Definition update_found {A} (p : A → bool) (f : A → A) (l : list A) : list A := default l (update_first p f l).

Definition is_pod (pod_id : Z) (p : SandboxPodPanelEntry) : bool := (pp_pod_id p =? pod_id)%Z.
Definition is_terminal (terminal_id : Z) (t : SandboxTerminalPanelEntry) : bool := (tp_terminal_id t =? terminal_id)%Z.
Definition is_command (command_id : string) (c : SandboxCommandPanelEntry) : bool := bool_decide (cp_command_id c = command_id).

(** The panel's two lists. *)
Record Panel := { pods : list SandboxPodPanelEntry; terminals : list SandboxTerminalPanelEntry }.
#[export] Instance Panel_eta : Eta Panel := λ p, Build_Panel (pods p) (terminals p).

(** ** The sandbox panel *)

Definition line_entry (l : SandboxOutputLine) : SandboxOutputLinePanelEntry :=
  Build_SandboxOutputLinePanelEntry (line_stream l) (line_data l) (Some (line_seq l)).
Definition command_entry (c : SandboxCommandSummary) : SandboxCommandPanelEntry :=
  Build_SandboxCommandPanelEntry (cs_command_id c) (cs_command c) (cs_status c) (cs_exit_code c)
    (map line_entry (cs_output c)) (cs_mcp_calls c).
Definition terminal_entry (t : SandboxTerminalSummary) : SandboxTerminalPanelEntry :=
  Build_SandboxTerminalPanelEntry (ts_terminal_id t) (ts_pod_id t) (ts_status t) (map command_entry (ts_commands t)).
Definition pod_entry (p : SandboxPodSummary) : SandboxPodPanelEntry :=
  Build_SandboxPodPanelEntry (ps_pod_id p) (ps_status p) (ps_node p) (ps_previews p).

Definition merge_terminal (terminals : list SandboxTerminalPanelEntry) (t : SandboxTerminalSummary)
    : list SandboxTerminalPanelEntry :=
  upsert (is_terminal (ts_terminal_id t))
    (λ e, e <| tp_pod_id := ts_pod_id t |> <| tp_status := ts_status t |>
            <| tp_commands := map command_entry (ts_commands t) |>)
    (terminal_entry t) terminals.
Definition merge_pod (panel : Panel) (p : SandboxPodSummary) : Panel :=
  let panel := panel <| pods ::=
    upsert (is_pod (ps_pod_id p))
      (λ e, e <| pp_status := ps_status p |> <| pp_node := ps_node p |> <| pp_previews := ps_previews p |>)
      (pod_entry p) |> in
  panel <| terminals ::= λ ts, fold_left merge_terminal (ps_terminals p) ts |>.

Definition merge_sandbox_snapshot (panel : Panel) (snapshot : SandboxSnapshot) : Panel :=
  let in_snapshot p := existsb (λ s, (ps_pod_id s =? pp_pod_id p)%Z) (snapshot_pods snapshot) in
  let terminal_in_snapshot t :=
    existsb (λ s, (ts_terminal_id s =? tp_terminal_id t)%Z) (mjoin (map ps_terminals (snapshot_pods snapshot))) in
  let panel := Build_Panel (List.filter in_snapshot (pods panel)) (List.filter terminal_in_snapshot (terminals panel)) in
  fold_left merge_pod (snapshot_pods snapshot) panel.

Definition apply_sandbox_pod_update (pod_id : Z) (status : string) (node : option string) (terminated : bool)
    (panel : Panel) : Panel :=
  if terminated then
    Build_Panel (List.filter (λ p, negb (pp_pod_id p =? pod_id)%Z) (pods panel))
      (List.filter (λ t, negb (tp_pod_id t =? pod_id)%Z) (terminals panel))
  else
    panel <| pods ::=
      upsert (is_pod pod_id)
        (λ e, let e := e <| pp_status := status |> in if is_some node then e <| pp_node := node |> else e)
        (Build_SandboxPodPanelEntry pod_id status node []) |>.

Definition apply_sandbox_preview_update (pod_id : Z) (previews : list SandboxPreview)
    : list SandboxPodPanelEntry → list SandboxPodPanelEntry :=
  update_found (is_pod pod_id) (λ e, e <| pp_previews := previews |>).

Definition apply_sandbox_terminal_update (pod_id terminal_id : Z) (status : string) (terminated : bool)
    (terminals : list SandboxTerminalPanelEntry) : list SandboxTerminalPanelEntry :=
  if terminated then List.filter (λ t, negb (tp_terminal_id t =? terminal_id)%Z) terminals
  else upsert (is_terminal terminal_id) (λ e, e <| tp_pod_id := pod_id |> <| tp_status := status |>)
         (Build_SandboxTerminalPanelEntry terminal_id pod_id status []) terminals.

(** The first command with this id of any terminal. *)
Definition apply_sandbox_mcp_calls (command_id : string) (summary : McpCallSummary)
    : list SandboxTerminalPanelEntry → list SandboxTerminalPanelEntry :=
  update_found (λ t, existsb (is_command command_id) (tp_commands t))
    (λ t, t <| tp_commands ::= update_found (is_command command_id) (λ c, c <| cp_mcp_calls := Some summary |>) |>).

(** [iter().filter_map(|l| l.seq).max()]. *)
Definition last_seq (output : list SandboxOutputLinePanelEntry) : option Z :=
  fold_left (λ best l, match lp_seq l, best with
                       | Some s, Some b => Some (Z.max b s)
                       | Some s, None => Some s
                       | None, _ => best
                       end) output None.

(** An output line, a finish or a lost command, on the command it is about. *)
Definition update_command (status : string) (exit_code : option Z) (stream latest_output : option string)
    (position : option Z) (c : SandboxCommandPanelEntry) : SandboxCommandPanelEntry :=
  match stream, latest_output with
  | Some stream, Some data =>
      let seen := match position, last_seq (cp_output c) with
                  | Some seq, Some last => (seq <=? last)%Z
                  | _, _ => false
                  end in
      if seen then c
      else c <| cp_output ::= λ out, app out [Build_SandboxOutputLinePanelEntry stream data position] |>
  | _, _ => c <| cp_status := status |> <| cp_exit_code := exit_code |>
  end.

(** On the terminal's own history. *)
Definition update_history (command_id : string) (command : option string) (status : string) (exit_code : option Z)
    (stream latest_output : option string) (position : option Z) (commands : list SandboxCommandPanelEntry)
    : list SandboxCommandPanelEntry :=
  match command with
  | Some command =>
      if existsb (is_command command_id) commands then commands
      else app commands [Build_SandboxCommandPanelEntry command_id command status exit_code [] None]
  | None =>
      default commands
        (update_last (is_command command_id) (update_command status exit_code stream latest_output position) commands)
  end.

Definition apply_sandbox_command_update (terminal_id : Z) (command_id : string) (command : option string)
    (status : string) (exit_code : option Z) (stream latest_output : option string) (position : option Z)
    : list SandboxTerminalPanelEntry → list SandboxTerminalPanelEntry :=
  update_found (is_terminal terminal_id)
    (λ t, t <| tp_commands ::= update_history command_id command status exit_code stream latest_output position |>).

(** ** Error lines *)

(** [turn]: the conversations whose line is a turn's. *)
Record ChatErrors := { lines : gmap Z string; turn_lines : gset Z }.
#[export] Instance ChatErrors_eta : Eta ChatErrors := λ e, Build_ChatErrors (lines e) (turn_lines e).
Definition no_errors : ChatErrors := Build_ChatErrors ∅ ∅.

Definition clear_turn_error (id : Z) (e : ChatErrors) : ChatErrors :=
  if bool_decide (id ∈ turn_lines e) then
    e <| turn_lines ::= λ s, s ∖ {[id]} |> <| lines ::= delete id |>
  else e.
Definition set_turn_error (id : Z) (message : string) (e : ChatErrors) : ChatErrors :=
  if bool_decide (message = TURN_FAILED_NOTED) then clear_turn_error id e
  else e <| lines ::= <[id := message]> |> <| turn_lines ::= λ s, s ∪ {[id]} |>.
Definition set_local_error (id : Z) (message : string) (e : ChatErrors) : ChatErrors :=
  e <| lines ::= <[id := message]> |> <| turn_lines ::= λ s, s ∖ {[id]} |>.
Definition clear_errors (id : Z) (e : ChatErrors) : ChatErrors :=
  e <| turn_lines ::= λ s, s ∖ {[id]} |> <| lines ::= delete id |>.

(** ** The streaming reply *)

(** [apply_reply_delta]: only the part of [text] past what is had. *)
Definition apply_reply_delta (offset : Z) (text : string) (reply : option string) : option string :=
  let current := default "" reply in
  let have := str_len current in
  if (have <=? offset)%Z then Some (current +:+ text)
  else
    let already := Z.to_nat (have - offset) in
    if (already <? String.length text)%nat && is_char_boundary text already
    then Some (current +:+ str_drop already text)
    else Some current.

(** ** Messages *)

Section Messages.
Context {V : Type} `{EqDecision V}.
(** [serde_json::from_str::<Vec<ContentBlock>>] and [serde_json::to_string]. *)
Variable parse_blocks : string → Result (list (ContentBlock V)) string.
Variable write_blocks : list (ContentBlock V) → option string.

#[export] Instance ContentBlock_eq_dec : EqDecision (ContentBlock V).
Proof. solve_decision. Defined.

Definition is_tool_result (b : ContentBlock V) : bool := match b with ToolResult _ _ _ => true | _ => false end.

Definition sent_part (m : Message) : Result (list (ContentBlock V)) string :=
  match blocks parse_blocks m with
  | Ok bs => Ok (List.filter (λ b, negb (is_tool_result b)) bs)
  | Err _ => Err (msg_content m)
  end.
#[export] Instance sent_part_eq_dec : EqDecision (Result (list (ContentBlock V)) string).
Proof. solve_decision. Defined.

Definition has_id (id : Z) (m : Message) : bool := (msg_id m =? id)%Z.

Definition push_new (existing : list Message) (m : Message) : list Message :=
  if existsb (has_id (msg_id m)) existing then existing else app existing [m].
Definition merge_messages_by_id (existing incoming : list Message) : list Message :=
  fold_left push_new incoming existing.

(** The optimistic copy [saved] replaces: [position(..)] of its test. *)
Definition is_copy_of (saved m : Message) : bool :=
  (msg_id m <? 0)%Z && bool_decide (msg_role m = msg_role saved) && bool_decide (sent_part m = sent_part saved).
Fixpoint remove_first {A} (p : A → bool) (l : list A) : list A :=
  match l with
  | [] => []
  | x :: l => if p x then l else x :: remove_first p l
  end.
Definition replace_copy (existing : list Message) (saved : Message) : list Message :=
  if negb (bool_decide (msg_role saved = "user")) || existsb (has_id (msg_id saved)) existing then existing
  else remove_first (is_copy_of saved) existing.

Definition accept_saved_messages (existing incoming : list Message) : list Message :=
  merge_messages_by_id (fold_left replace_copy incoming existing) incoming.

Definition apply_loaded_messages (current loaded : list Message) (conversation_id : Z) : list Message :=
  let newer :=
    List.filter (λ m, negb (existsb (has_id (msg_id m)) loaded))
      (List.filter (λ m, (msg_conversation m =? conversation_id)%Z && (0 <? msg_id m)%Z) current) in
  app loaded newer.

(** [now]: [chrono::Utc::now()]. *)
Definition optimistic_copy (now temp_id conversation_id : Z) (content : string) : option Message :=
  (λ content, Build_Message temp_id conversation_id "user" content now)
    <$> write_blocks [Text (users_text content)].

(** A failed send: its copy withdrawn, and what the box holds after. *)
Definition withdraw_unsent (messages : list Message) (temp_id : Z) : list Message :=
  List.filter (λ m, negb (has_id temp_id m)) messages.
Definition is_still_the_last_send (next_temp_id temp_id : Z) : bool := (next_temp_id =? i64_wrap (temp_id - 1))%Z.
Definition draft_after_failed_send (draft sent : string) (another_send_since : bool) : option string :=
  if negb another_send_since && is_blank draft then Some sent else None.

(** ** The state *)

(** [ContextDetail]: [ContextDetailSnapshot], which nothing here looks into. *)
Context {ContextDetail : Type}.

Record ConversationState := {
  conversation : option Z;
  messages : list Message;
  load_error : option string;
  streaming_reply : option string;
  turn_running : bool;
  turn_state_known : bool;
  turn_elapsed : Z;
  notification_delivery_error : option string;
  todos : list TodoItem;
  pending_question : option PendingQuestion;
  repo_url : string;
  repo_branch : string;
  repo_dir : string;
  repo_action_error : option string;
  repos : list RepoSummary;
  sandbox_pods : list SandboxPodPanelEntry;
  sandbox_terminals : list SandboxTerminalPanelEntry;
  pending_pod_stop : option Z;
  pod_stop_error : option string;
  browsing_session_open : bool;
  browsing_url : option string;
  browsing_frame : option string;
  address_draft : string;
  address_editing : bool;
  address_pending : bool;
  address_error : option string;
  context_usage : option ContextUsageSnapshot;
  context_detail : option (Result ContextDetail string);
  context_detail_open : bool;
  layout_snap_pending : bool;
  live : option (Z * Z);
}.
#[export] Instance ConversationState_eta : Eta ConversationState := λ s,
  Build_ConversationState (conversation s) (messages s) (load_error s) (streaming_reply s) (turn_running s)
    (turn_state_known s) (turn_elapsed s) (notification_delivery_error s) (todos s) (pending_question s)
    (repo_url s) (repo_branch s) (repo_dir s) (repo_action_error s) (repos s) (sandbox_pods s)
    (sandbox_terminals s) (pending_pod_stop s) (pod_stop_error s) (browsing_session_open s)
    (browsing_url s) (browsing_frame s) (address_draft s) (address_editing s) (address_pending s)
    (address_error s) (context_usage s) (context_detail s) (context_detail_open s) (layout_snap_pending s)
    (live s).
Definition default_state : ConversationState :=
  Build_ConversationState None [] None None false false 0 None [] None "" "" "" None [] [] [] None None
    false None None "" false false None None None false false None.
(** The reset of a switch to [id]. *)
Definition switched_to (id : Z) : ConversationState := default_state <| conversation := Some id |>.

Definition change_sandbox_panel (change : Panel → Panel) (s : ConversationState) : ConversationState :=
  let panel := change (Build_Panel (sandbox_pods s) (sandbox_terminals s)) in
  s <| sandbox_pods := pods panel |> <| sandbox_terminals := terminals panel |>.

(** What an event asks of the page beyond this state. *)
Inductive EventEffect :=
  | NoEffect
  | SidebarChanged
  | PodsMoved
  | TurnsMoved
  | QuestionsMoved
  | PickerChanged
  | ShowTurnError (message : string)
  | TurnStarted
  | Attend (conversation_id : Z) (attention : Attention) (generation : Z)
  | StaleBundle.

Definition apply_event (s : ConversationState) (e : ConversationEvent) : EventEffect * ConversationState :=
  match e with
  | MessagesAppended rows =>
      let s := if existsb (λ m, bool_decide (msg_role m = "assistant")) rows
               then s <| streaming_reply := None |> else s in
      (SidebarChanged, s <| messages ::= λ ms, accept_saved_messages ms rows |>)
  | SandboxPodUpdate pod_id status node terminated =>
      (NoEffect, change_sandbox_panel (apply_sandbox_pod_update pod_id status node terminated) s)
  | SandboxPreviewUpdate pod_id previews =>
      (NoEffect, s <| sandbox_pods ::= apply_sandbox_preview_update pod_id previews |>)
  | SandboxTerminalUpdate pod_id terminal_id status terminated =>
      (NoEffect, s <| sandbox_terminals ::= apply_sandbox_terminal_update pod_id terminal_id status terminated |>)
  | SandboxCommandUpdate terminal_id command_id command status exit_code stream latest_output position =>
      (NoEffect, s <| sandbox_terminals ::=
         apply_sandbox_command_update terminal_id command_id command status exit_code stream latest_output position |>)
  | SandboxMcpCalls command_id summary =>
      (NoEffect, s <| sandbox_terminals ::= apply_sandbox_mcp_calls command_id summary |>)
  | NotificationDeliveryFailed detail => (NoEffect, s <| notification_delivery_error := Some detail |>)
  | ContextUsageUpdate usage window =>
      (NoEffect, s <| context_usage := Some (Build_ContextUsageSnapshot (Some usage) window) |>)
  | TodoListUpdate items => (NoEffect, s <| todos := items |>)
  | BrowsingSessionUpdate open =>
      let s := s <| browsing_session_open := open |> in
      (NoEffect, if open then s else s <| browsing_frame := None |> <| browsing_url := None |>)
  | BrowsingUrlUpdate url => (NoEffect, s <| browsing_url := Some url |>)
  | ReposUpdate rs => (NoEffect, s <| repos := rs |>)
  | QuestionUpdate question => (NoEffect, s <| pending_question := question |>)
  | TurnState running elapsed =>
      let s := s <| turn_running := running |> <| turn_state_known := true |> <| turn_elapsed := elapsed |> in
      if running then (TurnStarted, s) else (NoEffect, s <| streaming_reply := None |>)
  | ReplyReset => (NoEffect, s <| streaming_reply := Some "" |>)
  | ReplyDelta text offset => (NoEffect, s <| streaming_reply ::= apply_reply_delta offset text |>)
  | TurnError message =>
      if negb (bool_decide (message = TURN_STOPPED)) && negb (bool_decide (message = TURN_FAILED_NOTED))
      then (ShowTurnError message, s) else (NoEffect, s)
  | PodsChanged => (PodsMoved, s)
  | TurnsChanged => (TurnsMoved, s)
  | QuestionsChanged => (QuestionsMoved, s)
  | NeedsUser conversation_id attention generation => (Attend conversation_id attention generation, s)
  | ConversationsChanged => (SidebarChanged, s)
  | ModelChanged | ProvidersChanged => (PickerChanged, s)
  | Unknown => (StaleBundle, s)
  end.
Definition apply_events (es : list ConversationEvent) (s : ConversationState) : ConversationState :=
  fold_left (λ s e, snd (apply_event s e)) es s.

(** What the page does with its error lines on an effect ([use_conversation_events]). *)
Definition effect_on_errors (id : Z) (effect : EventEffect) (errors : ChatErrors) : ChatErrors :=
  match effect with
  | ShowTurnError message => set_turn_error id message errors
  | TurnStarted => clear_turn_error id errors
  | _ => errors
  end.

(** ** Messages: what the lists keep *)

Lemma push_new_ids l m : NoDup (map msg_id l) → NoDup (map msg_id (push_new l m)).
Proof.
  unfold push_new. destruct (existsb _ l) eqn:He; [done|]. intros Hl. rewrite map_app.
  apply NoDup_app. conjs; [done| |apply NoDup_singleton]. intros id Hid ->%list_elem_of_singleton.
  apply list_elem_of_fmap in Hid as (x & Hx & Hin). apply not_true_iff_false in He. apply He, existsb_exists.
  exists x. split; [by apply list_elem_of_In|]. unfold has_id. rewrite <- Hx. apply Z.eqb_refl.
Qed.

Lemma existsb_has_id id (l : list Message) : existsb (has_id id) l = true ↔ id ∈ map msg_id l.
Proof.
  rewrite existsb_exists, list_elem_of_fmap. unfold has_id. setoid_rewrite Z.eqb_eq. setoid_rewrite <- list_elem_of_In. naive_solver.
Qed.
Lemma existsb_no_id id (l : list Message) : existsb (has_id id) l = false ↔ id ∉ map msg_id l.
Proof. by rewrite <- existsb_has_id, not_true_iff_false. Qed.

(** What is shown after a merge: what was, then the new ones, in order. *)
Lemma merge_spec existing incoming :
  ∃ added, merge_messages_by_id existing incoming = app existing added ∧ added `sublist_of` incoming
    ∧ (∀ m, m ∈ added → msg_id m ∉ map msg_id existing)
    ∧ (∀ m, m ∈ incoming → msg_id m ∈ map msg_id (app existing added))
    ∧ (NoDup (map msg_id existing) → NoDup (map msg_id (app existing added))).
Proof.
  revert existing. induction incoming as [|m incoming IH]; intros existing.
  { exists []. rewrite app_nil_r. conjs; [done|constructor|by intros m ?%not_elem_of_nil..|done]. }
  cbn [merge_messages_by_id fold_left]. fold (merge_messages_by_id (push_new existing m) incoming).
  destruct (IH (push_new existing m)) as (added & Heq & Hsub & Hnew & Hall & Hnd).
  pose proof (push_new_ids existing m) as Hpush. unfold push_new in *. destruct (existsb _ existing) eqn:He.
  - exists added. conjs; [done|by constructor|done| |auto]. intros x [->|Hx]%elem_of_cons; [|auto].
    apply existsb_has_id in He. rewrite map_app. apply elem_of_app. by left.
  - exists (m :: added). rewrite <- app_assoc in *. cbn [app] in *. conjs; [done|by constructor| | |auto].
    + apply existsb_no_id in He. intros x [->|Hx]%elem_of_cons; [done|]. intros Hin. apply (Hnew x Hx).
      rewrite map_app. apply elem_of_app. by left.
    + intros x [->|Hx]%elem_of_cons; [|auto]. rewrite map_app. apply elem_of_app. right. by left.
Qed.

Lemma remove_first_sublist {A} (p : A → bool) (l : list A) : remove_first p l `sublist_of` l.
Proof. induction l as [|x l IH]; cbn; [done|]. destruct (p x); by constructor. Qed.
Lemma remove_first_kept {A} (p : A → bool) (l : list A) x : x ∈ l → p x = false → x ∈ remove_first p l.
Proof.
  induction l as [|y l IH]; cbn; [done|]. intros [->|Hx]%elem_of_cons Hp; [rewrite Hp; by left|].
  destruct (p y); [done|]. right. auto.
Qed.
Lemma remove_first_length {A} (p q : A → bool) (l : list A) :
  (∀ x, p x = true → q x = true) →
  length (List.filter q (remove_first p l)) = (length (List.filter q l) - if existsb p l then 1 else 0)%nat.
Proof.
  intros Hpq. induction l as [|x l IH]; cbn; [done|]. destruct (p x) eqn:Hp; cbn.
  - rewrite (Hpq x Hp). cbn. lia.
  - destruct (q x); cbn; rewrite IH; [|done]. destruct (existsb p l) eqn:He; [|lia].
    enough (0 < length (List.filter q l))%nat by lia. apply existsb_exists in He as (y & Hy & Hpy).
    destruct (List.filter q l) eqn:Hf; cbn; [|lia].
    assert (In y (List.filter q l)) as Hin by (apply filter_In; auto). by rewrite Hf in Hin.
Qed.
Lemma remove_first_other {A} (p q : A → bool) (l : list A) :
  (∀ x, p x = true → q x = false) → List.filter q (remove_first p l) = List.filter q l.
Proof.
  intros Hpq. induction l as [|x l IH]; cbn; [done|]. destruct (p x) eqn:Hp; cbn; [by rewrite (Hpq x Hp)|by rewrite IH].
Qed.

(** The optimistic copies with the sent part [part]. *)
Definition copy_of (part : Result (list (ContentBlock V)) string) (m : Message) : bool :=
  (msg_id m <? 0)%Z && bool_decide (msg_role m = "user") && bool_decide (sent_part m = part).
Definition copies (part : Result (list (ContentBlock V)) string) (l : list Message) : nat := length (List.filter (copy_of part) l).
(** The user's rows among [incoming] that weren't shown yet, with that sent part. *)
Definition new_sent (part : Result (list (ContentBlock V)) string) (existing incoming : list Message) : nat :=
  length (List.filter (λ m, bool_decide (msg_role m = "user") && negb (existsb (has_id (msg_id m)) existing)
                            && bool_decide (sent_part m = part)) incoming).

Lemma is_copy_of_user saved m :
  msg_role saved = "user" → is_copy_of saved m = copy_of (sent_part saved) m.
Proof. intros Hr. unfold is_copy_of, copy_of. by rewrite Hr. Qed.

Lemma replace_copy_ids existing saved id :
  (0 < id)%Z → existsb (has_id id) (replace_copy existing saved) = existsb (has_id id) existing.
Proof.
  intros Hid. unfold replace_copy. destruct (_ || _); [done|].
  apply eq_true_iff_eq. rewrite !existsb_exists. split; intros (x & Hx & He); exists x; (split; [|done]).
  - apply list_elem_of_In. eapply sublist_subseteq; [apply remove_first_sublist|]. by apply list_elem_of_In.
  - apply list_elem_of_In, remove_first_kept; [by apply list_elem_of_In|]. unfold has_id, is_copy_of in *.
    apply Z.eqb_eq in He. destruct (Z.ltb_spec (msg_id x) 0); [lia|done].
Qed.

Lemma replace_copy_copies part existing saved :
  copies part (replace_copy existing saved)
  = (copies part existing - new_sent part existing [saved])%nat.
Proof.
  unfold replace_copy, new_sent. cbn. destruct (bool_decide (msg_role saved = "user")) eqn:Hr; cbn; [|by rewrite Nat.sub_0_r].
  apply bool_decide_eq_true in Hr. destruct (existsb _ existing); cbn; [by rewrite Nat.sub_0_r|].
  unfold copies. destruct (bool_decide (sent_part saved = part)) eqn:Hs; cbn; bool_to_prop.
  - rewrite (remove_first_length (is_copy_of saved)); [|intros x; rewrite is_copy_of_user by done; by rewrite Hs].
    destruct (existsb (is_copy_of saved) existing) eqn:He; [done|].
    enough (length (List.filter (copy_of part) existing) = 0)%nat by lia.
    destruct (List.filter (copy_of part) existing) as [|x l] eqn:Hf; [done|]. exfalso.
    assert (In x (List.filter (copy_of part) existing)) as Hx by (rewrite Hf; by left).
    apply filter_In in Hx as [Hx Hp]. apply not_true_iff_false in He. apply He, existsb_exists. exists x.
    split; [done|]. rewrite is_copy_of_user by done. by rewrite Hs.
  - rewrite remove_first_other; [lia|]. intros x. rewrite is_copy_of_user by done. unfold copy_of.
    rewrite !andb_true_iff, !bool_decide_eq_true. intros [_ Hx]. rewrite andb_false_iff, bool_decide_eq_false. right. congruence.
Qed.

Lemma new_sent_cons part existing m incoming :
  new_sent part existing (m :: incoming) = (new_sent part existing [m] + new_sent part existing incoming)%nat.
Proof. unfold new_sent. cbn. by destruct (_ && _ && _). Qed.

Lemma new_sent_replaced part existing saved incoming :
  Forall (λ m, 0 < msg_id m)%Z incoming →
  new_sent part (replace_copy existing saved) incoming = new_sent part existing incoming.
Proof.
  intros Hpos. unfold new_sent. f_equal. induction Hpos as [|m incoming Hm _ IH]; [done|]. cbn.
  by rewrite IH, replace_copy_ids.
Qed.

Lemma replace_copies_spec existing incoming :
  let kept := fold_left replace_copy incoming existing in
  kept `sublist_of` existing
  ∧ (∀ m, m ∈ existing → m ∈ kept
       ∨ (msg_id m < 0)%Z ∧ ∃ saved, saved ∈ incoming ∧ msg_role saved = "user" ∧ sent_part saved = sent_part m)
  ∧ (Forall (λ m, 0 < msg_id m)%Z incoming →
       (∀ part, copies part kept = (copies part existing - new_sent part existing incoming)%nat)).
Proof.
  cbn zeta. revert existing. induction incoming as [|saved incoming IH]; intros existing; cbn [fold_left].
  { conjs; [done|auto|]. intros _ part. unfold new_sent. cbn. lia. }
  destruct (IH (replace_copy existing saved)) as (Hsub & Hkept & Hcopies). conjs.
  - etransitivity; [exact Hsub|]. unfold replace_copy. destruct (_ || _); [done|apply remove_first_sublist].
  - intros m Hm. assert (m ∈ replace_copy existing saved
      ∨ (msg_id m < 0)%Z ∧ msg_role saved = "user" ∧ sent_part saved = sent_part m) as [Hin|(Hid & Hr & Hs)].
    + unfold replace_copy. destruct (negb _ || _) eqn:Hnot; [by left|]. bool_to_prop.
      destruct (is_copy_of saved m) eqn:Hc; [|left; by apply remove_first_kept].
      unfold is_copy_of in Hc. bool_to_prop. right. conjs; [done|done|congruence].
    + destruct (Hkept m Hin) as [|(? & s' & ? & ?)]; [by left|]. right. split; [done|]. exists s'. split; [by right|done].
    + right. split; [done|]. exists saved. split; [by left|done].
  - intros Hpos part. inversion Hpos; subst. rewrite Hcopies, replace_copy_copies, new_sent_replaced by done.
    rewrite (new_sent_cons part existing saved incoming). lia.
Qed.

(** A message is shown once.  Saved messages taken in, in whatever order and however
    often they arrive: each is shown, none twice, after what was shown, which stays but for
    optimistic copies; of the copies of one sent text exactly as many go as new rows of that
    text came.  A load keeps every saved message of the conversation already shown, and only
    those. *)
Theorem messages_are_shown_once existing incoming conversation_id :
  (let shown := accept_saved_messages existing incoming in
   (NoDup (map msg_id existing) → NoDup (map msg_id shown))
   ∧ (∀ m, m ∈ incoming → msg_id m ∈ map msg_id shown)
   ∧ (∃ kept added, shown = app kept added ∧ kept `sublist_of` existing ∧ added `sublist_of` incoming)
   ∧ (∀ m, m ∈ existing → m ∈ shown
        ∨ (msg_id m < 0)%Z ∧ ∃ saved, saved ∈ incoming ∧ msg_role saved = "user" ∧ sent_part saved = sent_part m)
   ∧ (Forall (λ m, 0 < msg_id m)%Z incoming →
        ∀ part, copies part shown = (copies part existing - new_sent part existing incoming)%nat))
  ∧ (let shown := apply_loaded_messages existing incoming conversation_id in
     (NoDup (map msg_id existing) → NoDup (map msg_id incoming) → NoDup (map msg_id shown))
     ∧ (∃ kept, shown = app incoming kept ∧ kept `sublist_of` existing)
     ∧ ∀ m, m ∈ existing → msg_conversation m = conversation_id → (0 < msg_id m)%Z → msg_id m ∈ map msg_id shown).
Proof.
  cbn zeta. split.
  - unfold accept_saved_messages. destruct (replace_copies_spec existing incoming) as (Hsub & Hkept & Hcopies).
    set (kept := fold_left replace_copy incoming existing) in *.
    destruct (merge_spec kept incoming) as (added & Heq & Hadd & Hnew & Hall & Hnd). rewrite Heq. conjs.
    + intros He. apply Hnd. eapply sublist_NoDup; [exact He|]. by apply sublist_map.
    + exact Hall.
    + by exists kept, added.
    + intros m Hm. destruct (Hkept m Hm) as [?|?]; [left; apply elem_of_app; by left|by right].
    + intros Hpos part. specialize (Hcopies Hpos part). rewrite <- Hcopies. unfold copies. rewrite List.filter_app, length_app.
      rewrite (list_filter_none (copy_of part) added); [cbn; lia|]. apply Forall_forall. intros m Hm.
      rewrite Forall_forall in Hpos. specialize (Hpos m (sublist_subseteq _ _ Hadd m Hm)). cbn beta in Hpos.
      unfold copy_of. by destruct (Z.ltb_spec (msg_id m) 0); [lia|].
  - unfold apply_loaded_messages. set (kept := List.filter _ (List.filter _ existing)).
    assert (kept `sublist_of` existing) as Hsub by (etransitivity; apply list_filter_sublist). conjs.
    + intros He Hi. rewrite map_app. apply NoDup_app. conjs; [done| |eapply sublist_NoDup; [exact He|by apply sublist_map]].
      intros id Hid Hk. apply list_elem_of_fmap in Hk as (m & -> & Hm). apply elem_list_filter in Hm as [_ Hm].
      apply negb_true_iff, existsb_no_id in Hm. done.
    + by exists kept.
    + intros m Hm Hc Hid. rewrite map_app. apply elem_of_app. destruct (existsb (has_id (msg_id m)) incoming) eqn:He.
      * left. by apply existsb_has_id.
      * right. apply list_elem_of_fmap. exists m. split; [done|]. apply elem_list_filter. split; [|by rewrite He].
        apply elem_list_filter. split; [done|]. rewrite (proj2 (Z.eqb_eq _ _) Hc). cbn. by apply Z.ltb_lt.
Qed.
End Messages.
