(* ===== verification/ChatPanel.v ===== *)
(** * ChatPanel: what the chat page's panels promise

    Theorems about [ChatPage]: the sandbox panel's rows stay distinct and its output in
    order under every live event and snapshot, a snapshot is authoritative, and the error
    lines are a map from conversations to a line of one of two kinds.  What output replayed
    after a snapshot shows is in [PanelSnapshot]. *)

From stdpp Require Import sorting.
From S2P Require Import TurnState.
From S2P Require Import Prelude RustStr Types Models Notices Questions McpCalls ChatPage.
Local Open Scope Z_scope.

(** ** Lists changed in place *)

Section InPlace.
Context {A : Type}.
Implicit Types (l : list A) (p : A → bool) (f : A → A).

Lemma update_first_None p f l : update_first p f l = None ↔ Forall (λ x, p x = false) l.
Proof.
  induction l as [|x l IH]; cbn; [by split; [constructor|]|]. rewrite Forall_cons. destruct (p x); [by split; intros; naive_solver|].
  rewrite fmap_None, IH. naive_solver.
Qed.
Lemma update_first_Some p f l l' :
  update_first p f l = Some l' ↔
  ∃ before x after, l = app before (x :: after) ∧ Forall (λ x, p x = false) before ∧ p x = true
    ∧ l' = app before (f x :: after).
Proof.
  revert l'. induction l as [|x l IH]; intros l'; cbn.
  { split; [done|]. by intros ([|] & ? & ? & ? & _). }
  destruct (p x) eqn:Hp.
  - split; [intros [= <-]; by exists [], x, l|]. intros ([|y b] & z & a & [= -> ->] & Hb & Hz & ->); [done|].
    inversion Hb; congruence.
  - rewrite fmap_Some. setoid_rewrite IH. split.
    + intros (? & (b & y & a & -> & Hb & Hy & ->) & ->). exists (x :: b), y, a. conjs; [done|by constructor|done|done].
    + intros ([|z b] & y & a & [= -> ->] & Hb & Hy & ->); [congruence|]. inversion Hb; subst.
      eexists. split; [|done]. by exists b, y, a.
Qed.

Lemma update_found_map {B} (key : A → B) p f l : (∀ x, key (f x) = key x) → map key (update_found p f l) = map key l.
Proof.
  intros Hf. unfold update_found. destruct (update_first p f l) as [l'|] eqn:Hu; cbn; [|done].
  apply update_first_Some in Hu as (b & x & a & -> & _ & _ & ->). rewrite !map_app. cbn. by rewrite Hf.
Qed.
Lemma update_found_Forall (P : A → Prop) p f l : (∀ x, P x → P (f x)) → Forall P l → Forall P (update_found p f l).
Proof.
  intros Hf Hl. unfold update_found. destruct (update_first p f l) as [l'|] eqn:Hu; cbn; [|done].
  apply update_first_Some in Hu as (b & x & a & -> & _ & _ & ->).
  rewrite !Forall_app, !Forall_cons in *. naive_solver.
Qed.
Lemma update_last_found p f l : default l (update_last p f l) = reverse (update_found p f (reverse l)).
Proof.
  unfold update_last, update_found. destruct (update_first p f (reverse l)); cbn; [done|]. symmetry. apply reverse_involutive.
Qed.

Lemma filter_Forall (P : A → Prop) p l : Forall P l → Forall P (List.filter p l).
Proof. rewrite !Forall_forall. intros Hl x [Hx _]%elem_list_filter. auto. Qed.

(** An upsert by key puts the new entry and keeps the others. *)
Lemma upsert_perm (key : A → Z) f new l :
  NoDup (map key l) → (∀ x, key x = key new → f x = new) →
  upsert (λ x, key x =? key new) f new l ≡ₚ new :: List.filter (λ x, negb (key x =? key new)) l.
Proof.
  intros Hnd Hf. unfold upsert. destruct (update_first _ f l) as [l'|] eqn:Hu; cbn.
  - apply update_first_Some in Hu as (b & x & a & -> & Hb & Hx & ->). apply Z.eqb_eq in Hx. rewrite (Hf x Hx).
    rewrite map_app in Hnd. cbn in Hnd. apply NoDup_app in Hnd as (_ & Hba & Ha). inversion Ha as [|? ? Hxa _]; subst.
    rewrite List.filter_app. cbn. rewrite (proj2 (Z.eqb_eq _ _) Hx). cbn.
    rewrite !list_filter_all.
    + symmetry. apply Permutation_middle.
    + apply Forall_forall. intros y Hy. apply negb_true_iff, Z.eqb_neq. intros He. apply Hxa. rewrite Hx, <- He.
      apply list_elem_of_fmap. by exists y.
    + apply Forall_forall. intros y Hy. rewrite Forall_forall in Hb. by rewrite (Hb y Hy).
  - apply update_first_None in Hu. rewrite list_filter_all.
    + by rewrite Permutation_app_comm.
    + eapply Forall_impl; [exact Hu|]. cbn. by intros x ->.
Qed.

Lemma upsert_keys (key : A → Z) f new l :
  (∀ x, key (f x) = key x) → NoDup (map key l) → NoDup (map key (upsert (λ x, key x =? key new) f new l)).
Proof.
  intros Hf Hnd. unfold upsert. destruct (update_first _ f l) as [l'|] eqn:Hu; cbn.
  - pose proof (update_found_map key (λ x, key x =? key new) f l Hf) as Hm. unfold update_found in Hm.
    rewrite Hu in Hm. cbn in Hm. by rewrite Hm.
  - apply update_first_None in Hu. rewrite map_app. apply NoDup_app. conjs; [done| |apply NoDup_singleton].
    intros k Hk ->%list_elem_of_singleton. apply list_elem_of_fmap in Hk as (x & Hx & Hin). rewrite Forall_forall in Hu.
    specialize (Hu x Hin). cbn in Hu. apply Z.eqb_neq in Hu. congruence.
Qed.
Lemma upsert_Forall (P : A → Prop) p f new l :
  P new → (∀ x, P x → P (f x)) → Forall P l → Forall P (upsert p f new l).
Proof.
  intros Hn Hf Hl. unfold upsert. pose proof (update_found_Forall P p f l Hf Hl) as Hu. unfold update_found in Hu.
  destruct (update_first p f l); cbn in *; [done|]. apply Forall_app. by split; [|constructor].
Qed.

(** Upserting a list of entries with distinct keys. *)
Lemma fold_upsert_perm {S} (key : A → Z) (entry : S → A) (set : S → A → A) (ss : list S) l :
  (∀ s x, key x = key (entry s) → set s x = entry s) →
  NoDup (map key l) → NoDup (map (λ s, key (entry s)) ss) →
  (∀ x, x ∈ l → key x ∈ map (λ s, key (entry s)) ss) →
  fold_left (λ l s, upsert (λ x, key x =? key (entry s)) (set s) (entry s) l) ss l ≡ₚ map entry ss.
Proof.
  intros Hset Hl Hss Hin.
  enough (fold_left (λ l s, upsert (λ x, key x =? key (entry s)) (set s) (entry s) l) ss l
          ≡ₚ app (map entry ss) (List.filter (λ x, bool_decide (key x ∉ map (λ s, key (entry s)) ss)) l)) as ->.
  { rewrite list_filter_none; [by rewrite app_nil_r|]. apply Forall_forall. intros x Hx. apply bool_decide_eq_false.
    intros Hn. apply Hn, Hin, Hx. }
  clear Hin. revert l Hl. induction ss as [|s ss IH]; intros l Hl; cbn [fold_left map].
  { rewrite list_filter_all; [done|]. apply Forall_forall. intros x _. apply bool_decide_eq_true, not_elem_of_nil. }
  inversion Hss as [|? ? Hs Hss']; subst.
  pose proof (upsert_perm key (set s) (entry s) l Hl (λ x, Hset s x)) as Hu.
  rewrite IH; [|done|].
  - rewrite Hu. cbn [List.filter]. rewrite bool_decide_eq_true_2 by done. rewrite <- Permutation_middle. cbn [app].
    apply Permutation_skip. apply Permutation_app_head.
    assert (∀ l, List.filter (λ x, bool_decide (key x ∉ map (λ s, key (entry s)) ss)) (List.filter (λ x, negb (key x =? key (entry s))) l)
      = List.filter (λ x, bool_decide (key x ∉ key (entry s) :: map (λ s, key (entry s)) ss)) l) as ->; [|done].
    clear. intros l. induction l as [|x l IH]; [done|]. cbn [List.filter].
    destruct (Z.eqb_spec (key x) (key (entry s))) as [He|He]; cbn.
    + rewrite bool_decide_eq_false_2; [done|]. rewrite He. intros Hn. apply Hn. by left.
    + rewrite IH.
      rewrite (bool_decide_ext (key x ∉ key (entry s) :: map (λ s, key (entry s)) ss) (key x ∉ map (λ s, key (entry s)) ss)); [done|].
      rewrite elem_of_cons. tauto.
  - rewrite Hu. cbn [map]. constructor.
    + intros Hk. apply list_elem_of_fmap in Hk as (x & Hx & Hk). apply elem_list_filter in Hk as [_ Hk].
      apply negb_true_iff, Z.eqb_neq in Hk. congruence.
    + eapply sublist_NoDup; [exact Hl|]. apply sublist_map, list_filter_sublist.
Qed.
End InPlace.

(** ** Error lines *)

Section Errors.

Inductive LineKind := OfTurn | OfTab.
Inductive ErrorOp :=
  | TurnFailed (id : Z) (message : string)
  | TabFailed (id : Z) (message : string)
  | TurnBegan (id : Z)
  | Sent (id : Z).

(** The abstract lines: at most one a conversation, of one kind. *)
Definition spec_error (op : ErrorOp) (m : gmap Z (LineKind * string)) : gmap Z (LineKind * string) :=
  let without_turns id := match m !! id with Some (OfTurn, _) => delete id m | _ => m end in
  match op with
  | TurnFailed id message =>
      if bool_decide (message = TURN_FAILED_NOTED) then without_turns id else <[id := (OfTurn, message)]> m
  | TabFailed id message => <[id := (OfTab, message)]> m
  | TurnBegan id => without_turns id
  | Sent id => delete id m
  end.
Definition run_error (op : ErrorOp) : ChatErrors → ChatErrors :=
  match op with
  | TurnFailed id message => set_turn_error id message
  | TabFailed id message => set_local_error id message
  | TurnBegan id => clear_turn_error id
  | Sent id => clear_errors id
  end.

(** The record refines the map. *)
Definition line_of (e : ChatErrors) (id : Z) : option (LineKind * string) :=
  (λ message, (if bool_decide (id ∈ turn_lines e) then OfTurn else OfTab, message)) <$> lines e !! id.
Definition refines (e : ChatErrors) (m : gmap Z (LineKind * string)) : Prop :=
  turn_lines e ⊆ dom (lines e) ∧ ∀ id, m !! id = line_of e id.

(** A change to the line of [id] alone. *)
Lemma refines_at id e m e' m' :
  refines e m → turn_lines e' ⊆ dom (lines e') → m' !! id = line_of e' id →
  (∀ i, i ≠ id → m' !! i = m !! i ∧ lines e' !! i = lines e !! i ∧ (i ∈ turn_lines e' ↔ i ∈ turn_lines e)) →
  refines e' m'.
Proof.
  intros [_ Hm] Hd Hid Ho. split; [done|]. intros i. destruct (decide (i = id)) as [->|Hi]; [done|].
  destruct (Ho i Hi) as (-> & Hl & Ht). rewrite (Hm i). unfold line_of. rewrite Hl. by rewrite (bool_decide_ext _ _ Ht).
Qed.

Lemma clear_turn_error_refines id e m :
  refines e m → refines (clear_turn_error id e) (match m !! id with Some (OfTurn, _) => delete id m | _ => m end).
Proof.
  intros Hr. pose proof Hr as [Hd Hm]. unfold clear_turn_error. specialize (Hm id). unfold line_of in Hm.
  rewrite Hm. case_bool_decide as Hid; cbn; [|by destruct (lines e !! id)].
  assert (id ∈ dom (lines e)) as [message Hl]%elem_of_dom by set_solver. rewrite Hl. cbn.
  apply (refines_at id e m); [done|cbn; set_solver|unfold line_of; cbn; by rewrite !lookup_delete_eq|].
  intros i Hi. cbn. conjs; [by rewrite lookup_delete_ne..|set_solver].
Qed.

Lemma run_error_refines op e m : refines e m → refines (run_error op e) (spec_error op m).
Proof.
  intros Hr. pose proof Hr as [Hd _]. destruct op as [id message|id message|id|id]; cbn [run_error spec_error].
  - unfold set_turn_error. case_bool_decide; [by apply clear_turn_error_refines|].
    apply (refines_at id e m); [done|cbn; set_solver| |].
    + unfold line_of. cbn. rewrite !lookup_insert_eq. cbn. by rewrite bool_decide_eq_true_2 by set_solver.
    + intros i Hi. cbn. conjs; [by rewrite lookup_insert_ne..|set_solver].
  - apply (refines_at id e m); [done|cbn; set_solver| |].
    + unfold line_of. cbn. rewrite !lookup_insert_eq. cbn. by rewrite bool_decide_eq_false_2 by set_solver.
    + intros i Hi. cbn. conjs; [by rewrite lookup_insert_ne..|set_solver].
  - by apply clear_turn_error_refines.
  - apply (refines_at id e m); [done|cbn; set_solver|unfold line_of; cbn; by rewrite !lookup_delete_eq|].
    intros i Hi. cbn. conjs; [by rewrite lookup_delete_ne..|set_solver].
Qed.

(** The error lines implement a map from conversations to one line of one kind.  After
    any failures, sends and turns, what is shown is what the map holds: a turn's error until
    a later turn starts or this tab sends, one only this tab saw until this tab sends, and
    none of a failure the conversation itself notes. *)
Theorem error_lines_refine_a_map (ops : list ErrorOp) :
  let e := fold_left (λ e op, run_error op e) ops no_errors in
  let m := fold_left (λ m op, spec_error op m) ops ∅ in
  (∀ id, lines e !! id = snd <$> m !! id) ∧ (∀ id, id ∈ turn_lines e ↔ ∃ message, m !! id = Some (OfTurn, message)).
Proof.
  assert (∀ e m, refines e m →
    refines (fold_left (λ e op, run_error op e) ops e) (fold_left (λ m op, spec_error op m) ops m)) as Hrun.
  { induction ops as [|op ops IH]; intros e m Hr; cbn; [done|]. by apply IH, run_error_refines. }
  cbn zeta. destruct (Hrun no_errors ∅) as [Hd Hm]; [by split|].
  set (e := fold_left _ ops no_errors) in *. split; intros id; rewrite (Hm id); unfold line_of.
  - by destruct (lines e !! id).
  - split.
    + intros Hid. assert (id ∈ dom (lines e)) as [message Hl]%elem_of_dom by set_solver.
      exists message. rewrite Hl. cbn. by rewrite bool_decide_eq_true_2.
    + intros [message Hl]. destruct (lines e !! id); [|done]. cbn in Hl. by case_bool_decide.
Qed.
End Errors.

(** ** The sandbox panel *)

Section Sandbox.
Context {V : Type} `{EqDecision V}.
Variable parse_blocks : string → Result (list (ContentBlock V)) string.
Context {ContextDetail : Type}.
Abbreviation State := (ConversationState (ContextDetail := ContextDetail)).

(** The lines with a number are in its order, none twice. *)
Definition command_ok (c : SandboxCommandPanelEntry) : Prop := StronglySorted Z.lt (omap lp_seq (cp_output c)).
Definition terminal_ok (t : SandboxTerminalPanelEntry) : Prop :=
  NoDup (map cp_command_id (tp_commands t)) ∧ Forall command_ok (tp_commands t).
Definition panel_ok (p : Panel) : Prop :=
  NoDup (map pp_pod_id (pods p)) ∧ NoDup (map tp_terminal_id (terminals p)) ∧ Forall terminal_ok (terminals p).
Definition panel_of (s : State) : Panel := Build_Panel (sandbox_pods s) (sandbox_terminals s).

Definition snapshot_terminals (s : SandboxSnapshot) : list SandboxTerminalSummary :=
  mjoin (map ps_terminals (snapshot_pods s)).
Definition snapshot_ok (s : SandboxSnapshot) : Prop :=
  panel_ok (Build_Panel (map pod_entry (snapshot_pods s)) (map terminal_entry (snapshot_terminals s))).

Lemma last_seq_from best output :
  fold_left (λ best l, match lp_seq l, best with
                       | Some s, Some b => Some (Z.max b s)
                       | Some s, None => Some s
                       | None, _ => best
                       end) output best
  = fold_left (λ best s, Some (match best with Some b => Z.max b s | None => s end)) (omap lp_seq output) best.
Proof.
  revert best. induction output as [|l output IH]; intros best; cbn; [done|]. rewrite IH.
  destruct (lp_seq l) as [s|]; cbn; [by destruct best|done].
Qed.
Lemma max_seq_spec (seqs : list Z) best m :
  fold_left (λ best s, Some (match best with Some b => Z.max b s | None => s end)) seqs best = m →
  match m with
  | Some m => (∀ s, s ∈ seqs → s ≤ m) ∧ (∀ b, best = Some b → b ≤ m) ∧ (m ∈ seqs ∨ best = Some m)
  | None => seqs = [] ∧ best = None
  end.
Proof.
  revert best. induction seqs as [|s seqs IH]; intros best; cbn.
  { intros ->. destruct m as [m|]; [|done]. conjs; [by intros s ?%not_elem_of_nil|by intros b [= ->]|by right]. }
  intros Hm. apply IH in Hm. destruct m as [m|]; [|by destruct Hm]. destruct Hm as (Hs & Hb & Hin).
  specialize (Hb _ eq_refl). conjs.
  - intros x [->|Hx]%elem_of_cons; [destruct best; lia|auto].
  - intros b ->. lia.
  - destruct Hin as [?|[= <-]]; [left; by right|]. destruct best as [b|]; [|left; by left].
    destruct (Z.max_spec b s) as [[_ ->]|[_ ->]]; [left; by left|by right].
Qed.
Lemma last_seq_spec output :
  match last_seq output with
  | Some m => m ∈ omap lp_seq output ∧ ∀ s, s ∈ omap lp_seq output → s ≤ m
  | None => omap lp_seq output = []
  end.
Proof.
  unfold last_seq. rewrite last_seq_from.
  pose proof (max_seq_spec (omap lp_seq output) None _ eq_refl) as Hs. destruct (fold_left _ _ None) as [m|]; [|by destruct Hs].
  destruct Hs as (Hs & _ & [Hin|?]); [by split|done].
Qed.

Lemma sorted_snoc (l : list Z) x : StronglySorted Z.lt l → (∀ y, y ∈ l → y < x) → StronglySorted Z.lt (app l [x]).
Proof.
  intros Hl Hx. apply StronglySorted_app_2; [|done|by repeat constructor].
  intros y z Hy ->%list_elem_of_singleton. auto.
Qed.

Lemma update_command_ok status exit_code stream data position c :
  command_ok c → command_ok (update_command status exit_code stream data position c).
Proof.
  intros Hc. unfold update_command. destruct stream as [stream|], data as [data|]; try exact Hc.
  pose proof (last_seq_spec (cp_output c)) as Hs. destruct position as [seq|]; cbn.
  - destruct (last_seq (cp_output c)) as [m|].
    + destruct (Z.leb_spec seq m); [done|]. unfold command_ok. cbn. rewrite omap_app. cbn. apply sorted_snoc; [exact Hc|].
      intros y Hy. destruct Hs as [_ Hs]. specialize (Hs y Hy). lia.
    + unfold command_ok. cbn. rewrite omap_app, Hs. cbn. by repeat constructor.
  - unfold command_ok. cbn. rewrite omap_app. cbn. by rewrite app_nil_r.
Qed.
Lemma update_command_id status exit_code stream data position c :
  cp_command_id (update_command status exit_code stream data position c) = cp_command_id c.
Proof. unfold update_command. by repeat case_match. Qed.

Lemma update_history_ok id command status exit_code stream data position commands :
  NoDup (map cp_command_id commands) ∧ Forall command_ok commands →
  let after := update_history id command status exit_code stream data position commands in
  NoDup (map cp_command_id after) ∧ Forall command_ok after.
Proof.
  intros [Hnd Hok]. cbn zeta. unfold update_history. destruct command as [command|].
  - destruct (existsb _ commands) eqn:He; [done|]. split.
    + rewrite map_app. apply NoDup_app. conjs; [done| |apply NoDup_singleton]. intros k Hk ->%list_elem_of_singleton.
      apply list_elem_of_fmap in Hk as (c & Hc & Hin). apply not_true_iff_false in He. apply He, existsb_exists.
      exists c. split; [by apply list_elem_of_In|]. unfold is_command. cbn in Hc. by apply bool_decide_eq_true.
    + apply Forall_app. split; [done|]. constructor; [constructor|done].
  - rewrite update_last_found. split.
    + rewrite <- (reverse_involutive commands) in Hnd. revert Hnd. generalize (reverse commands). intros l.
      assert (∀ l, map cp_command_id (reverse l) = reverse (map cp_command_id l)) as Hrev.
      { intros k. apply (fmap_reverse cp_command_id). }
      rewrite !Hrev, update_found_map; [done|]. intros x. apply update_command_id.
    + apply Forall_reverse, update_found_Forall; [intros x; apply update_command_ok|by apply Forall_reverse].
Qed.

(** Each live change keeps the panel in order. *)
Lemma pod_update_ok pod_id status node terminated p :
  panel_ok p → panel_ok (apply_sandbox_pod_update pod_id status node terminated p).
Proof.
  intros (Hp & Ht & Hts). unfold apply_sandbox_pod_update. destruct terminated.
  - unfold panel_ok. conjs; cbn.
    + eapply sublist_NoDup; [exact Hp|]. apply sublist_map, list_filter_sublist.
    + eapply sublist_NoDup; [exact Ht|]. apply sublist_map, list_filter_sublist.
    + by apply filter_Forall.
  - unfold panel_ok. conjs; [|done|done]. cbn.
    apply (upsert_keys pp_pod_id _ (Build_SandboxPodPanelEntry pod_id status node [])); [|done]. by destruct node.
Qed.
Lemma terminals_ok p f :
  panel_ok p →
  (∀ ts, NoDup (map tp_terminal_id ts) → NoDup (map tp_terminal_id (f ts))) →
  (∀ ts, Forall terminal_ok ts → Forall terminal_ok (f ts)) →
  panel_ok (p <| terminals ::= f |>).
Proof. intros (Hp & Ht & Hts) Hf Hg. unfold panel_ok. conjs; cbn; auto. Qed.
Lemma terminals_found_ok p q f :
  panel_ok p → (∀ t, tp_terminal_id (f t) = tp_terminal_id t) → (∀ t, terminal_ok t → terminal_ok (f t)) →
  panel_ok (p <| terminals ::= update_found q f |>).
Proof.
  intros Hp Hid Hok. apply terminals_ok; [done| |].
  - intros ts. by rewrite update_found_map.
  - intros ts. by apply update_found_Forall.
Qed.
Lemma terminal_update_ok pod_id terminal_id status terminated p :
  panel_ok p → panel_ok (p <| terminals ::= apply_sandbox_terminal_update pod_id terminal_id status terminated |>).
Proof.
  intros Hp. unfold apply_sandbox_terminal_update. destruct terminated; apply terminals_ok; try done.
  - intros ts Hnd. eapply sublist_NoDup; [exact Hnd|]. apply sublist_map, list_filter_sublist.
  - intros ts Hok. by apply filter_Forall.
  - intros ts. by apply (upsert_keys tp_terminal_id _ (Build_SandboxTerminalPanelEntry terminal_id pod_id status [])).
  - intros ts. apply upsert_Forall; [|done]. split; cbn; [constructor|done].
Qed.
Lemma event_ok (s : State) e : panel_ok (panel_of s) → panel_ok (panel_of (snd (apply_event parse_blocks s e))).
Proof.
  intros Hp. destruct e; cbn [apply_event]; try exact Hp.
  - by case_match.
  - exact (pod_update_ok pod_id status node terminated _ Hp).
  - destruct Hp as (Hp & Ht). split; [|exact Ht]. cbn. unfold apply_sandbox_preview_update. by rewrite update_found_map.
  - exact (terminal_update_ok pod_id terminal_id status terminated _ Hp).
  - apply (terminals_found_ok _ (is_terminal terminal_id) _ Hp); [done|]. intros t Ht. by apply update_history_ok.
  - apply (terminals_found_ok _ _ _ Hp); [done|]. intros t [Hnd Hok]. split; cbn.
    + by rewrite update_found_map.
    + by apply update_found_Forall.
  - by destruct open.
  - by destruct running.
  - by case_match.
Qed.

(** A snapshot's pods, and its terminals as one list. *)
Lemma merge_pods_split ps p :
  fold_left merge_pod ps p
  = Build_Panel (fold_left (λ l s, upsert (is_pod (ps_pod_id s))
                   (λ e, e <| pp_status := ps_status s |> <| pp_node := ps_node s |> <| pp_previews := ps_previews s |>)
                   (pod_entry s) l) ps (pods p))
                (fold_left merge_terminal (mjoin (map ps_terminals ps)) (terminals p)).
Proof.
  revert p. induction ps as [|s ps IH]; intros p; cbn [fold_left]; [by destruct p|].
  rewrite IH. cbn. by rewrite fold_left_app.
Qed.

Lemma snapshot_pods_perm p s :
  NoDup (map pp_pod_id (pods p)) → NoDup (map pp_pod_id (map pod_entry (snapshot_pods s))) →
  pods (merge_sandbox_snapshot p s) ≡ₚ map pod_entry (snapshot_pods s).
Proof.
  intros Hp Hs. unfold merge_sandbox_snapshot. rewrite merge_pods_split. cbn [pods].
  apply (fold_upsert_perm pp_pod_id pod_entry
    (λ s e, e <| pp_status := ps_status s |> <| pp_node := ps_node s |> <| pp_previews := ps_previews s |>)).
  - intros q [pod_id st n pv]. cbn. by intros ->.
  - eapply sublist_NoDup; [exact Hp|]. apply sublist_map, list_filter_sublist.
  - by rewrite map_map in Hs.
  - intros x [_ Hx]%elem_list_filter. apply existsb_exists in Hx as (q & Hq & Hid). apply Z.eqb_eq in Hid.
    apply list_elem_of_fmap. exists q. split; [by rewrite <- Hid|by apply list_elem_of_In].
Qed.
Lemma snapshot_terminals_perm p s :
  NoDup (map tp_terminal_id (terminals p)) → NoDup (map tp_terminal_id (map terminal_entry (snapshot_terminals s))) →
  terminals (merge_sandbox_snapshot p s) ≡ₚ map terminal_entry (snapshot_terminals s).
Proof.
  intros Hp Hs. unfold merge_sandbox_snapshot. rewrite merge_pods_split. cbn [terminals].
  apply (fold_upsert_perm tp_terminal_id terminal_entry
    (λ t e, e <| tp_pod_id := ts_pod_id t |> <| tp_status := ts_status t |> <| tp_commands := map command_entry (ts_commands t) |>)).
  - intros q [id pod st cs]. cbn. by intros ->.
  - eapply sublist_NoDup; [exact Hp|]. apply sublist_map, list_filter_sublist.
  - by rewrite map_map in Hs.
  - intros x [_ Hx]%elem_list_filter. apply existsb_exists in Hx as (q & Hq & Hid). apply Z.eqb_eq in Hid.
    apply list_elem_of_fmap. exists q. split; [by rewrite <- Hid|by apply list_elem_of_In].
Qed.

(** The sandbox panel stays in order.  Whatever live events arrive, no pod, terminal or
    command of a terminal shows twice and no line of output twice or before an earlier one;
    and a snapshot is authoritative: the panel after it is exactly the snapshot, whatever it
    showed before. *)
Theorem panel_stays_in_order (s : State) (es : list ConversationEvent) (p : Panel) (snapshot : SandboxSnapshot) :
  panel_ok (panel_of (default_state (ContextDetail := ContextDetail)))
  ∧ (panel_ok (panel_of s) → panel_ok (panel_of (apply_events parse_blocks es s)))
  ∧ (panel_ok p → snapshot_ok snapshot →
       let after := merge_sandbox_snapshot p snapshot in
       panel_ok after
       ∧ pods after ≡ₚ map pod_entry (snapshot_pods snapshot)
       ∧ terminals after ≡ₚ map terminal_entry (snapshot_terminals snapshot)).
Proof.
  conjs.
  - unfold panel_ok. cbn. conjs; constructor.
  - revert s. induction es as [|e es IH]; intros s Hs; cbn; [done|]. by apply IH, event_ok.
  - intros (Hp & Ht & _) (Hsp & Hst & Hso). cbn zeta.
    pose proof (snapshot_pods_perm p snapshot Hp Hsp) as Hpods.
    pose proof (snapshot_terminals_perm p snapshot Ht Hst) as Hts. cbn in Hsp, Hst, Hso. conjs; [|done|done].
    unfold panel_ok. rewrite Hpods, Hts. by conjs.
Qed.

(** ** Replayed output *)

(** The live event of a line. *)
Definition line_event (terminal_id : Z) (command_id status : string) (l : SandboxOutputLine) : ConversationEvent :=
  SandboxCommandUpdate terminal_id command_id None status None (Some (line_stream l)) (Some (line_data l)) (Some (line_seq l)).
Definition replay (status : string) (ls : list SandboxOutputLine) (c : SandboxCommandPanelEntry) : SandboxCommandPanelEntry :=
  fold_left (λ c l, update_command status None (Some (line_stream l)) (Some (line_data l)) (Some (line_seq l)) c) ls c.

Lemma line_seqs ls : omap lp_seq (map line_entry ls) = map line_seq ls.
Proof. induction ls as [|l ls IH]; [done|]. cbn. by rewrite IH. Qed.

(** Lines not past what is had add nothing; lines past it are added, in order. *)
Lemma replay_old status ls c m :
  last_seq (cp_output c) = Some m → (∀ l, l ∈ ls → line_seq l ≤ m) → replay status ls c = c.
Proof.
  intros Hm. induction ls as [|l ls IH]; intros Hls; [done|]. cbn. rewrite Hm.
  rewrite (proj2 (Z.leb_le _ _)) by (apply Hls; by left). apply IH. intros x Hx. apply Hls. by right.
Qed.
Lemma replay_new status ls c :
  StronglySorted Z.lt (app (omap lp_seq (cp_output c)) (map line_seq ls)) →
  replay status ls c = c <| cp_output ::= λ out, app out (map line_entry ls) |>.
Proof.
  revert c. induction ls as [|l ls IH]; intros c Hs; cbn [replay fold_left].
  { destruct c. unfold set_field. cbn. by rewrite app_nil_r. }
  assert (update_command status None (Some (line_stream l)) (Some (line_data l)) (Some (line_seq l)) c
          = c <| cp_output ::= λ out, app out [line_entry l] |>) as ->.
  { unfold update_command. pose proof (last_seq_spec (cp_output c)) as Hl. destruct (last_seq (cp_output c)) as [m|]; [|done].
    destruct (Z.leb_spec (line_seq l) m) as [Hle|]; [|done]. destruct Hl as [Hm _].
    pose proof (StronglySorted_app_1_elem_of _ _ _ m (line_seq l) Hs Hm (list_elem_of_here _ _)). lia. }
  unfold replay in IH. rewrite IH.
  - destruct c. unfold set_field. cbn. by rewrite <- app_assoc.
  - cbn. rewrite omap_app. cbn. by rewrite <- app_assoc.
Qed.

(** One event of a line changes its command, and nothing else. *)
Definition with_command (s : State) before t after newer (c : SandboxCommandPanelEntry) older : State :=
  s <| sandbox_terminals := app before (t <| tp_commands := app newer (c :: older) |> :: after) |>.

Lemma history_at command_id status l newer c older :
  Forall (λ c, is_command command_id c = false) older → cp_command_id c = command_id →
  update_history command_id None status None (Some (line_stream l)) (Some (line_data l)) (Some (line_seq l)) (app newer (c :: older))
  = app newer (replay status [l] c :: older).
Proof.
  intros Ho Hid. cbn [update_history]. rewrite update_last_found, reverse_app, reverse_cons, <- app_assoc. unfold update_found.
  rewrite (proj2 (update_first_Some _ _ _ (app (reverse older) (replay status [l] c :: reverse newer)))).
  - change (reverse (app (reverse older) (replay status [l] c :: reverse newer)) = app newer (replay status [l] c :: older)).
    by rewrite reverse_app, reverse_cons, !reverse_involutive, <- app_assoc.
  - exists (reverse older), c, (reverse newer). conjs; [done|by apply Forall_reverse|by apply bool_decide_eq_true|done].
Qed.

Lemma line_event_at (s : State) terminal_id command_id status l before t after newer c older :
  Forall (λ t, is_terminal terminal_id t = false) before → tp_terminal_id t = terminal_id →
  Forall (λ c, is_command command_id c = false) older → cp_command_id c = command_id →
  snd (apply_event parse_blocks (with_command s before t after newer c older) (line_event terminal_id command_id status l))
  = with_command s before t after newer (replay status [l] c) older.
Proof.
  intros Hb Ht Ho Hid. unfold line_event, with_command. cbn [apply_event snd].
  change (s <| sandbox_terminals := apply_sandbox_command_update terminal_id command_id None status None
             (Some (line_stream l)) (Some (line_data l)) (Some (line_seq l))
             (app before (t <| tp_commands := app newer (c :: older) |> :: after)) |> = 
          s <| sandbox_terminals := app before (t <| tp_commands := app newer (replay status [l] c :: older) |> :: after) |>).
  unfold apply_sandbox_command_update, update_found.
  rewrite (proj2 (update_first_Some _ _ _ (app before (t <| tp_commands := app newer (replay status [l] c :: older) |> :: after)))); [done|].
  exists before, (t <| tp_commands := app newer (c :: older) |>), after. conjs; [done|done|by apply Z.eqb_eq|]. do 2 f_equal.
  rewrite <- (history_at command_id status l newer c older Ho Hid). done.
Qed.

Lemma line_events_at (s : State) terminal_id command_id status ls before t after newer c older :
  Forall (λ t, is_terminal terminal_id t = false) before → tp_terminal_id t = terminal_id →
  Forall (λ c, is_command command_id c = false) older → cp_command_id c = command_id →
  apply_events parse_blocks (map (line_event terminal_id command_id status) ls) (with_command s before t after newer c older)
  = with_command s before t after newer (replay status ls c) older.
Proof.
  intros Hb Ht Ho. revert c. induction ls as [|l ls IH]; intros c Hid; [done|].
  cbn [map apply_events fold_left]. rewrite line_event_at by done. apply IH. unfold replay. cbn [fold_left].
  by rewrite update_command_id.
Qed.

End Sandbox.
