(* ===== verification/LiveReply.v ===== *)
(** * LiveReply: a reply as a tab sees it stream

    The server's side of a streaming reply ([TurnState], over every interleaving of
    [TurnSystem]) and the page's ([ChatPage.apply_event]), put together.  A tab subscribes
    to a conversation's events, then fetches the reply so far, then applies every event
    since it subscribed, some of them older than what it fetched
    ([src/src/frontend/pages/chat/live.rs]).  What the server publishes itself around a
    model call ([src/src/turn/call.rs], [lifecycle.rs], [reply.rs], [run.rs]) is [Publishes]. *)

From stdpp Require Import functions fin_maps.
From S2P Require Import Prelude RustStr Types Models Notices Compaction TurnState TurnSystem TurnGuarantees.
From S2P Require Import ChatPage.
Local Open Scope Z_scope.

Section LiveReply.
Context {C R M W : Type} `{WatchLaws C R} `{FairMutexLaws M W}.
Context {V : Type} `{EqDecision V}.
Variable parse_blocks : string → Result (list (ContentBlock V)) string.
Context {ContextDetail : Type}.
Abbreviation Sys := (@Sys C R M W).
Abbreviation World := (@World C M).
Abbreviation State := (ConversationState (ContextDetail := ContextDetail)).
Abbreviation Wire := ChatPage.ConversationEvent.
Implicit Types (s : Sys) (w : World).

(** ** The page's half *)

(** What an event does to the streaming reply. *)
Definition reply_effect (r : option string) (e : Wire) : option string :=
  match e with
  | MessagesAppended rows => if existsb (λ m, bool_decide (msg_role m = "assistant"%string)) rows then None else r
  | ChatPage.TurnState running _ => if running then r else None
  | ReplyReset => Some ""%string
  | ChatPage.ReplyDelta text offset => apply_reply_delta offset text r
  | _ => r
  end.
(** Events that replace it whatever it was, and ones that never touch it. *)
Definition sets (e : Wire) : bool :=
  match e with
  | MessagesAppended rows => existsb (λ m, bool_decide (msg_role m = "assistant"%string)) rows
  | ChatPage.TurnState running _ => negb running
  | ReplyReset => true
  | _ => false
  end.
Definition untouched (e : Wire) : bool :=
  negb (sets e) && match e with ChatPage.ReplyDelta _ _ => false | _ => true end.

Lemma apply_event_reply (st : State) e :
  streaming_reply (snd (apply_event parse_blocks st e)) = reply_effect (streaming_reply st) e.
Proof. destruct e; cbn; try done; by repeat case_match. Qed.
Lemma apply_events_reply (es : list Wire) (st : State) :
  streaming_reply (apply_events parse_blocks es st) = fold_left reply_effect es (streaming_reply st).
Proof.
  revert st. induction es as [|e es IH]; intros st; [done|].
  cbn [apply_events fold_left]. unfold apply_events in IH. by rewrite IH, apply_event_reply.
Qed.

(** The text shown; [None] and an empty reply show the same. *)
Definition text_of (r : option string) : string := default ""%string r.

Lemma reply_effect_text r r' e : text_of r = text_of r' → text_of (reply_effect r e) = text_of (reply_effect r' e).
Proof.
  intros Ht. destruct e; cbn; try done; try (by case_match). unfold apply_reply_delta. unfold text_of in *. by rewrite Ht.
Qed.
Lemma effects_text es r r' :
  text_of r = text_of r' → text_of (fold_left reply_effect es r) = text_of (fold_left reply_effect es r').
Proof.
  revert r r'. induction es as [|e es IH]; intros r r' Ht; cbn; [done|]. by apply IH, reply_effect_text.
Qed.
Lemma sets_effect r r' e : sets e = true → reply_effect r e = reply_effect r' e.
Proof. destruct e; cbn; try done; [by intros ->|by destruct running]. Qed.
Lemma effects_after_set es r r' :
  existsb sets es = true → fold_left reply_effect es r = fold_left reply_effect es r'.
Proof.
  revert r r'. induction es as [|e es IH]; intros r r'; cbn; [done|]. intros [Hs|Hs]%orb_true_iff; [|by apply IH].
  by rewrite (sets_effect r r' e Hs).
Qed.

(** What a tab that heard everything shows; deltas that start where the text before ends. *)
Definition heard (l : list Wire) : option string := fold_left reply_effect l None.
Definition delta_fits (r : option string) (e : Wire) : Prop :=
  match e with ChatPage.ReplyDelta _ offset => offset = str_len (text_of r) | _ => True end.
Definition deltas_ok (l : list Wire) : Prop := ∀ pre e post, l = app pre (e :: post) → delta_fits (heard pre) e.

Lemma heard_snoc l e : heard (app l [e]) = reply_effect (heard l) e.
Proof. unfold heard. by rewrite fold_left_app. Qed.
Lemma heard_app l k : heard (app l k) = fold_left reply_effect k (heard l).
Proof. unfold heard. by rewrite fold_left_app. Qed.
Lemma deltas_ok_snoc l e : deltas_ok l → delta_fits (heard l) e → deltas_ok (app l [e]).
Proof.
  intros Hl He pre e' post Heq. destruct post as [|x post _] using rev_ind.
  - apply app_inj_tail in Heq as [-> ->]. done.
  - rewrite app_comm_cons, app_assoc in Heq. apply app_inj_tail in Heq as [-> _]. by eapply Hl.
Qed.
Lemma deltas_ok_app_l l k : deltas_ok (app l k) → deltas_ok l.
Proof. intros Hl pre e post ->. apply (Hl pre e (app post k)). by rewrite <- app_assoc. Qed.

(** Without a setting event a fitting one only makes the text longer. *)
Lemma effect_grows r e :
  sets e = false → delta_fits r e →
  str_len (text_of (reply_effect r e))
  = str_len (text_of r) + match e with ChatPage.ReplyDelta text _ => str_len text | _ => 0 end.
Proof.
  intros Hs Hd. destruct e; cbn [reply_effect sets delta_fits] in *; try lia; try (rewrite Hs; lia);
    try (destruct running; [lia|done]).
  unfold apply_reply_delta, text_of in *. rewrite Hd, Z.leb_refl. cbn [default]. by rewrite <- str_len_app.
Qed.

(** Events whose text is already had add nothing. *)
Lemma had_already pre es r :
  deltas_ok (app pre es) → existsb sets es = false →
  str_len (text_of (heard (app pre es))) ≤ str_len (text_of r) →
  text_of (fold_left reply_effect es r) = text_of r
  ∧ str_len (text_of (heard pre)) ≤ str_len (text_of (heard (app pre es))).
Proof.
  revert pre r. induction es as [|e es IH]; intros pre r Hd Hs Hle; cbn [fold_left]; [by rewrite app_nil_r in *|].
  cbn [existsb] in Hs. apply orb_false_iff in Hs as [He Hs]. rewrite cons_middle, app_assoc in Hd, Hle.
  pose proof (Hd pre e es ltac:(by rewrite <- app_assoc)) as Hfit.
  pose proof (effect_grows (heard pre) e He Hfit) as Hg. rewrite <- heard_snoc in Hg.
  assert (text_of (reply_effect r e) = text_of r ∧ str_len (text_of (heard pre)) ≤ str_len (text_of (heard (app pre [e])))) as [Hr Hpre].
  { destruct (IH (app pre [e]) r Hd Hs Hle) as [_ Hlast]. split.
    - destruct e; cbn [reply_effect sets] in He |- *; try done; try (by rewrite He); try (by destruct running).
      cbn [delta_fits] in Hfit. unfold apply_reply_delta. fold (text_of r). rewrite Hfit in *. pose proof (str_len_nonneg text).
      destruct (Z.leb_spec (str_len (text_of r)) (str_len (text_of (heard pre)))) as [Hh|Hh].
      + assert (str_len text = 0) as Hz by lia. unfold str_len in Hz. destruct text; [|cbn in Hz; lia]. cbn. apply str_app_nil_r.
      + replace (_ <? _)%nat with false; [done|]. symmetry. apply Nat.ltb_ge. unfold str_len in *. lia.
    - rewrite Hg. destruct e; try lia. pose proof (str_len_nonneg text). lia. }
  destruct (IH (app pre [e]) (reply_effect r e) Hd Hs ltac:(by rewrite Hr)) as [Hes Hlast].
  rewrite Hes, cons_middle, app_assoc. split; [done|lia].
Qed.

(** ** The server's half *)

(** What the turn state publishes, as the wire carries it. *)
Definition wire (e : TurnState.ConversationEvent) : Wire :=
  match e with
  | TurnState.TurnState running elapsed => ChatPage.TurnState running elapsed
  | TurnState.ReplyDelta text offset => ChatPage.ReplyDelta text offset
  | TurnState.TurnError message => ChatPage.TurnError message
  end.
(** What a step told conversation [c]'s tabs. *)
Definition news (c : Z) s s' : list Wire :=
  map (λ p, wire (snd p)) (List.filter (λ p, fst p =? c) (drop (length (told (world s))) (told (world s')))).

(** Between a model call's critical sections: a reply saved and published but not cleared
    yet, or cleared but not said to be.  Neither has a point where the turn can stop. *)
Inductive Phase := Settled | Saved | Cleared.
Record Server := { sys : Sys; log : list Wire; phase : Phase }.

Definition reply_of (c : Z) s : option string := rt_reply (entry c (world s)).

(** The turn state's own operations.  [None] is a call a turn doesn't make there. *)
Definition next_phase (c : Z) (o : op) s s' (p : Phase) : option Phase :=
  match o with
  | AppendReply c' _ => if bool_decide (c' = c) then match p with Settled => Some Settled | _ => None end else Some p
  | ClearReply c' => if bool_decide (c' = c) then Some (match p with Saved => Settled | _ => Cleared end) else Some p
  | DropTurn _ => if busy c s && negb (busy c s') then match p with Saved => None | _ => Some Settled end else Some p
  | _ => Some p
  end.
(** What is published beside them. *)
Definition published_phase (c : Z) (e : Wire) s (p : Phase) : option Phase :=
  match e with
  | MessagesAppended _ =>
      if sets e then match reply_of c s, p with
                     | None, _ => Some p
                     | Some _, Settled => Some Saved
                     | Some _, _ => None
                     end
      else Some p
  | ReplyReset => match reply_of c s with None => Some Settled | Some _ => None end
  | _ => if untouched e then Some p else None
  end.

Inductive live_step (c : Z) : Server → Server → Prop :=
  | Calls o srv s' p :
      step o (sys srv) = Some s' → next_phase c o (sys srv) s' (phase srv) = Some p →
      live_step c srv (Build_Server s' (app (log srv) (news c (sys srv) s')) p)
  | Publishes e srv p :
      published_phase c e (sys srv) (phase srv) = Some p →
      live_step c srv (Build_Server (sys srv) (app (log srv) [e]) p).
Definition live_steps (c : Z) : Server → Server → Prop := rtc (live_step c).
Definition start_server : Server := Build_Server empty_sys [] Settled.

(** ** What a step tells *)

Lemma told_update {T} c (F : ConversationRuntime → World → T * ConversationRuntime * World) w :
  (∀ rt, told (snd (F rt w)) = told w) → told (snd (update_existing_with c F w)) = told w.
Proof.
  intros HF. unfold update_existing_with. destruct (runtimes w !! c) as [rt|]; [|done]. specialize (HF rt).
  by destruct (F rt w) as [[x rt'] w'].
Qed.
Lemma told_set_existing c f w : told (set_existing c f w) = told w.
Proof. exact (told_update c (λ rt w, (tt, f rt, w)) w (λ _, eq_refl)). Qed.

Definition tells (o : op) s s' (es : list (Z * TurnState.ConversationEvent)) : Prop :=
  match o with
  | AppendReply c d => es = [(c, TurnState.ReplyDelta d (str_len (text_of (reply_of c s))))]
  | ShowError c m => es = [(c, TurnState.TurnError m)]
  | StartByUser c | StartUnlessPaused c => es = [] ∨ es = [(c, TurnState.TurnState true 0)]
  | DropTurn i => ∃ r, running s !! i = Some r ∧ es = if busy (conv r) s' then [] else [(conv r, TurnState.TurnState false 0)]
  | _ => es = []
  end.

Lemma start_tells s s' c adm :
  start_turn c adm s = Some s' →
  (∃ es, told (world s') = app (told (world s)) es ∧ (es = [] ∨ es = [(c, TurnState.TurnState true 0)]))
  ∧ ∀ c', reply_of c' s' = reply_of c' s.
Proof.
  intros Hs. unfold start_turn, admit_turn, with_runtime in Hs. case_bool_decide; [|done]. fold (entry c (world s)) in Hs.
  destruct (stop_receiver _ (world s)) as [[[a rx] rt2] w2] eqn:E2.
  destruct (stop_receiver_spec (W := W) _ _ _ _ _ _ E2) as ((st & _ & Hrt2) & Hr2 & _ & Ht2 & _).
  destruct (lock_or_new rt2 w2) as [[lk rt3] w3] eqn:E3.
  destruct (lock_or_new_spec _ _ _ _ _ E3) as (Hrt3 & Hr3 & _ & Ht3 & _).
  destruct (join_lock lk (clone_arc lk w3)) as [p w4] eqn:E4. unfold join_lock in E4.
  destruct (queue_on_spec _ _ _ _ E4) as (Hr4 & _ & Ht4 & _). change (told (clone_arc _ _)) with (told w3) in Ht4.
  change (runtimes (clone_arc _ _)) with (runtimes w3) in Hr4.
  assert (told w4 = told (world s)) as Hw4 by congruence.
  assert (runtimes w4 = runtimes (world s)) as Hrt4 by congruence.
  assert (rt_reply rt3 = reply_of c s) as Hreply by (rewrite Hrt3, Hrt2; by destruct adm).
  assert (∀ rt c', rt_reply rt = reply_of c s →
    rt_reply (default default_runtime ((<[c := rt]> (runtimes (world s)) : gmap Z ConversationRuntime) !! c')) = reply_of c' s) as Hins.
  { intros rt c' Hrt. destruct (decide (c = c')) as [<-|]; [by rewrite lookup_insert_eq|by rewrite lookup_insert_ne]. }
  unfold start_spell in Hs. destruct adm, (rt_paused (entry c (world s))); cbn [fst snd] in Hs.
  3: { injection Hs as <-. split; [exists []; cbn; rewrite ?app_nil_r; by split; [|left]|].
       intros c'. by apply (Hins (entry c (world s))). }
  all: destruct (rt_turns_in_flight rt3 =? 1); cbn [fst snd] in Hs; injection Hs as <-; split.
  1,5,9: eexists; split; [cbn; by rewrite Hw4|by right].
  2,5,8: exists []; rewrite app_nil_r; split; [cbn; try case_match; exact Hw4|by left].
  all: intros c'; unfold reply_of at 1, entry; cbn [world set_field]; try case_match; cbn; rewrite Hrt4; by apply Hins.
Qed.

Lemma drop_tells s s' i :
  sys_inv s → step (DropTurn i) s = Some s' →
  ∃ es, told (world s') = app (told (world s)) es ∧ tells (DropTurn i) s s' es.
Proof.
  intros Hinv Hs. cbn in Hs. destruct (running s !! i) as [r|] eqn:Hi; [|done]. cbn in Hs.
  destruct (body r); [done|]. injection Hs as Hs.
  assert (world s' = drop_turn (turn r) (world s) ∧ running s' = delete i (running s)) as [Hw Hr] by by rewrite <- Hs.
  clear Hs. destruct (running_entry s i r Hinv Hi) as (rt & Hrt & _ & Hcount).
  destruct (stop_listens _ _ _ _ (inv_stop _ Hinv) i r Hi) as (a & rx & Hst & _).
  destruct (drop_turn_spec (turn r) (world s) rt a rx Hrt Hst ltac:(lia)) as (_ & _ & _ & _ & _ & _ & _ & Ht & _).
  change (conversation_id (turn r)) with (conv r) in Ht.
  assert ((rt_turns_in_flight rt - 1 =? 0) = negb (busy (conv r) s')) as Hlast.
  { unfold busy. rewrite Hr. fold (turns_of (conv r) (delete i (running s))). rewrite Hcount.
    apply eq_true_iff_eq. rewrite negb_true_iff, Z.eqb_eq, Nat.ltb_ge. lia. }
  rewrite Hlast in Ht. eexists. split; [|exists r; split; [done|reflexivity]]. rewrite Hw, Ht.
  destruct (busy _ _); cbn; by rewrite ?app_nil_r.
Qed.

Lemma step_tells s s' o :
  sys_inv s → step o s = Some s' → ∃ es, told (world s') = app (told (world s)) es ∧ tells o s s' es.
Proof.
  intros Hinv Hs.
  assert (told (world s') = told (world s) → tells o s s' [] → ∃ es, told (world s') = app (told (world s)) es ∧ tells o s s' es) as Hnone.
  { intros Ht Hes. exists []. by rewrite app_nil_r. }
  destruct o; try (by apply (start_tells _ _ _ _ Hs)); try (by eapply drop_tells);
    try (cbn in Hs; injection Hs as <-; apply Hnone; [|done]; rewrite on_world_eq; cbn; set_ops; apply told_set_existing);
    try (cbn in Hs; apply in_turn_some in Hs as [_ ->]; apply Hnone; [|done]; rewrite on_world_eq; cbn; set_ops; apply told_set_existing).
  - cbn in Hs. destruct (running s !! i); [|done]. cbn in Hs. repeat (case_match; try done). injection Hs as <-. by apply Hnone.
  - cbn in Hs. destruct (running s !! i) as [r|]; [|done]. cbn in Hs. destruct (body r) as [p|]; [|done].
    injection Hs as <-. apply Hnone; [|done]. by destruct (drop_place_spec (Some p) (world s)) as (_ & _ & ? & _).
  - cbn in Hs. unfold lock_outside, conversation_lock, with_runtime in Hs. fold (entry c (world s)) in Hs.
    destruct (lock_or_new (entry c (world s)) (world s)) as [[a rt1] w1] eqn:E.
    destruct (lock_or_new_spec _ _ _ _ _ E) as (_ & _ & _ & Ht1 & _). cbn [fst snd] in Hs.
    destruct (queue_on a _) as [p w3] eqn:Eq in Hs. injection Hs as <-. apply Hnone; [|done].
    destruct (queue_on_spec _ _ _ _ Eq) as (_ & _ & Ht3 & _). cbn. rewrite Ht3. exact Ht1.
  - cbn in Hs. destruct (outside s !! i); [|done]. injection Hs as <-. by apply Hnone.
  - injection Hs as <-. apply Hnone; [|done]. rewrite on_world_eq. cbn. apply told_update. intros rt.
    destruct (release_idle rt (world s)) as [rt' w'] eqn:E. by destruct (release_idle_spec (W := W) _ _ _ _ E) as (_ & _ & ? & _).
  - injection Hs as <-. apply Hnone; [|done]. rewrite on_world_eq. cbn. unfold stop_turn_now, with_runtime. fold (entry c (world s)).
    change (rt_stops (?r <| rt_paused := true |>)) with (rt_stops r). by destruct (rt_stops (entry c (world s))).
  - injection Hs as <-. by apply Hnone.
  - injection Hs as <-. apply Hnone; [|done]. rewrite on_world_eq. cbn. unfold forget_conversation_lock. apply told_update. intros rt. cbn.
    destruct (drop_stops_spec (W := W) (R := R) (rt_stops rt) (drop_lock_field (rt_lock rt) (world s))) as (_ & _ & -> & _).
    by destruct (drop_lock_field_spec (W := W) (rt_lock rt) (world s)) as (_ & _ & -> & _).
  - injection Hs as <-. apply Hnone; [|done]. rewrite on_world_eq. cbn. unfold note_stop, with_runtime. fold (entry c (world s)).
    destruct (stops_or_new (entry c (world s)) (world s)) as [[st rt1] w1] eqn:E.
    by destruct (stops_or_new_spec (R := R) (W := W) _ _ _ _ _ E) as (_ & _ & _ & ? & _).
  - cbn in Hs. apply in_turn_some in Hs as [_ ->]. by eexists.
  - injection Hs as <-. apply Hnone; [|done]. rewrite on_world_eq. cbn. unfold note_trust_decided.
    match goal with |- context [update_existing_with c ?f ?w] =>
      pose proof (told_update c f w) as Ht; destruct (update_existing_with c f w) as [x w'] end.
    cbn [snd] in Ht. transitivity (told w'); [by destruct (bool_decide _)|]. apply Ht. intros rt. by destruct (rt_published rt) as [[? []]|].
  - injection Hs as <-. apply Hnone; [|done]. rewrite on_world_eq. cbn. unfold take_activity_owed.
    match goal with |- context [update_existing_with c ?f ?w] =>
      pose proof (told_update c f w) as Ht; destruct (update_existing_with c f w) as [x w'] end. by apply Ht.
  - injection Hs as <-. apply Hnone; [|done]. rewrite on_world_eq. cbn. unfold take_turn_generation.
    match goal with |- context [update_existing_with c ?f ?w] =>
      pose proof (told_update c f w) as Ht; destruct (update_existing_with c f w) as [x w'] end.
    apply Ht. intros rt. by case_match.
  - injection Hs as <-. by eexists.
  - injection Hs as <-. by apply Hnone.
  - injection Hs as <-. by apply Hnone.
Qed.

(** ** What a step does to the reply *)

Lemma start_other s s' c c' adm :
  start_turn c' adm s = Some s' → c' ≠ c → (turns_of c (running s') ≤ turns_of c (running s))%nat.
Proof.
  unfold start_turn. case_bool_decide; [|done]. intros Hs Hne. revert Hs.
  destruct (admit_turn c' adm (world s)) as [[[t g]|] w] eqn:E; intros [= <-]; [|done].
  change (turns_of c (<[next_id s := Build_Running t None]> (running s)) ≤ turns_of c (running s))%nat.
  assert (conv (Build_Running t None) = c') as Hc.
  { unfold admit_turn in E. destruct (with_runtime c' _ (world s)) as [[[[[[? ?] ?] ?] ?]|] ?]; by simplify_eq. }
  unfold turns_of. rewrite <- insert_delete_eq, cnt_insert by (by rewrite lookup_delete_eq).
  rewrite bool_decide_eq_false_2 by congruence. cbn.
  destruct (running s !! next_id s) as [r|] eqn:Er; [|by rewrite delete_id]. rewrite (cnt_delete _ _ _ r Er). lia.
Qed.

(** Only an admission makes a conversation busier. *)
Lemma turns_of_step s s' o c :
  step o s = Some s' →
  o = StartByUser c ∨ o = StartUnlessPaused c ∨ (turns_of c (running s') ≤ turns_of c (running s))%nat.
Proof.
  intros Hs. destruct o; cbn in Hs; try (injection Hs as <-; auto); try (apply in_turn_some in Hs as [_ ->]; auto).
  - destruct (decide (c0 = c)) as [->|Hne]; [by left|]. right. right. by eapply start_other.
  - destruct (decide (c0 = c)) as [->|Hne]; [by right; left|]. right. right. by eapply start_other.
  - destruct (running s !! i) as [r|] eqn:E; [|done]. cbn in Hs. destruct (body r); [done|].
    destruct (place (turn r)); [|done]. injection Hs as <-. unfold turns_of. cbn. rewrite (cnt_update _ _ _ r) by done. auto.
  - destruct (running s !! i) as [r|] eqn:E; [|done]. cbn in Hs. destruct (body r); [|done]. injection Hs as <-.
    unfold turns_of. cbn. rewrite (cnt_update _ _ _ r) by done. auto.
  - destruct (running s !! i) as [r|] eqn:E; [|done]. cbn in Hs. destruct (body r); [done|]. injection Hs as <-.
    unfold turns_of. cbn. rewrite (cnt_delete _ _ _ r E). right. right. lia.
  - destruct (lock_outside c0 (world s)). injection Hs as <-. auto.
  - destruct (outside s !! i); [|done]. injection Hs as <-. auto.
Qed.

Lemma reply_after s s' c o :
  sys_inv s → step o s = Some s' → reply_of c s' = if busy c s' then reply_step c (reply_of c s) o else None.
Proof.
  intros Hinv Hs. pose proof (step_inv _ _ _ Hinv Hs) as Hinv'. unfold busy. fold (turns_of c (running s')).
  destruct (Nat.ltb_spec 0 (turns_of c (running s'))) as [Hb'|Hb'].
  2: { apply (spell_idle _ _ _ (inv_spell _ Hinv') c). lia. }
  destruct (decide (turns_of c (running s) = 0)%nat) as [Hb|Hb].
  2: { exact (f_equal snd (shown_step_spec s s' c o Hinv Hs ltac:(lia) Hb')). }
  destruct (turns_of_step s s' o c Hs) as [->|[->|?]]; [| |lia]; cbn; by apply (start_tells s s' c _ Hs).
Qed.

Lemma not_busy_reply s c : sys_inv s → busy c s = false → reply_of c s = None.
Proof. intros Hinv Hb. apply (spell_idle _ _ _ (inv_spell _ Hinv) c). by apply Nat.ltb_ge in Hb; unfold turns_of; lia. Qed.

Lemma drop_busy s s' i r c :
  step (DropTurn i) s = Some s' → running s !! i = Some r → busy (conv r) s = true ∧ (conv r ≠ c → busy c s' = busy c s).
Proof.
  intros Hs Hi. split.
  - unfold busy. apply Nat.ltb_lt, cnt_pos. exists i, r. split; [done|]. by apply bool_decide_eq_true.
  - intros Hne. cbn in Hs. rewrite Hi in Hs. cbn in Hs. destruct (body r); [done|]. injection Hs as <-. unfold busy. cbn [running].
    rewrite (cnt_delete _ (running s) i r Hi), bool_decide_eq_false_2 by done. done.
Qed.

(** Only a turn's end makes it less busy. *)
Lemma keeps_busy s s' o c :
  sys_inv s → step o s = Some s' → (∀ i, o ≠ DropTurn i) → busy c s = true → busy c s' = true.
Proof.
  intros Hinv Hs Hno. unfold busy. rewrite !Nat.ltb_lt. fold (turns_of c (running s)) (turns_of c (running s')).
  enough (turns_of c (running s) ≤ turns_of c (running s'))%nat by lia.
  assert (∀ c' adm, start_turn c' adm s = Some s' → (turns_of c (running s) ≤ turns_of c (running s'))%nat) as Hstart.
  { intros c' adm. unfold start_turn. case_bool_decide as Hsize; [|done].
    destruct (admit_turn c' adm (world s)) as [[[t g]|] w]; intros [= <-]; [|done].
    change (turns_of c (running s) ≤ turns_of c (<[next_id s := Build_Running t None]> (running s)))%nat.
    unfold turns_of. rewrite cnt_insert; [lia|]. destruct (running s !! next_id s) eqn:Er; [|done].
    assert (next_id s < next_id s)%nat; [apply (inv_ids _ Hinv); left; by eexists|lia]. }
  destruct o; cbn in Hs; eauto; try (injection Hs as <-; done); try (apply in_turn_some in Hs as [_ ->]; done).
  - destruct (running s !! i) as [r|] eqn:E; [|done]. cbn in Hs. destruct (body r); [done|].
    destruct (place (turn r)); [|done]. injection Hs as <-. unfold turns_of. cbn. by rewrite (cnt_update _ _ _ r).
  - destruct (running s !! i) as [r|] eqn:E; [|done]. cbn in Hs. destruct (body r); [|done]. injection Hs as <-.
    unfold turns_of. cbn. by rewrite (cnt_update _ _ _ r).
  - by destruct (Hno i).
  - destruct (lock_outside c0 (world s)). injection Hs as <-. done.
  - destruct (outside s !! i); [|done]. injection Hs as <-. done.
Qed.

(** What a step tells the tabs of [c]. *)
Lemma news_of s s' o c :
  sys_inv s → step o s = Some s' →
  news c s s' =
    match o with
    | AppendReply c' d => if c' =? c then [ChatPage.ReplyDelta d (str_len (text_of (reply_of c' s)))] else []
    | DropTurn _ => if busy c s && negb (busy c s') then [ChatPage.TurnState false 0] else []
    | _ => news c s s'
    end ∧ match o with AppendReply _ _ | DropTurn _ => True | _ => Forall (λ e, untouched e = true) (news c s s') end.
Proof.
  intros Hinv Hs. destruct (step_tells s s' o Hinv Hs) as (es & Ht & Hes).
  assert (news c s s' = map (λ p, wire (snd p)) (List.filter (λ p, fst p =? c) es)) as Hn.
  { unfold news. by rewrite Ht, drop_app_length. }
  assert (∀ p, p = [] ∨ (∃ c' e, p = [(c', e)] ∧ untouched (wire e) = true) →
    Forall (λ e, untouched e = true) (map (λ p, wire (snd p)) (List.filter (λ p, fst p =? c) p))) as Hquiet.
  { intros p [->|(c' & e & -> & He)]; [constructor|]. cbn. by destruct (c' =? c); repeat constructor. }
  destruct o; try (split; [done|]; rewrite Hn; apply Hquiet; cbn in Hes; try (by left)).
  - destruct Hes as [-> | ->]; [by left|right; by eexists _, _].
  - destruct Hes as [-> | ->]; [by left|right; by eexists _, _].
  - split; [|done]. destruct Hes as (r & Hi & ->). rewrite Hn.
    destruct (drop_busy s s' i r c Hs Hi) as [Hbusy Hother].
    destruct (decide (conv r = c)) as [<-|Hne].
    + rewrite Hbusy. destruct (busy (conv r) s'); cbn [map List.filter fst snd wire andb negb]; [done|].
      by rewrite Z.eqb_refl.
    + rewrite (Hother Hne), andb_negb_r. destruct (busy (conv r) s'); cbn [map List.filter fst snd wire]; [done|].
      by rewrite (proj2 (Z.eqb_neq _ _) Hne).
  - split; [|done]. rewrite Hn. cbn in Hes. rewrite Hes. cbn. by destruct (c0 =? c).
  - right. rewrite Hes. by eexists _, _.
Qed.

(** ** The two halves together *)

(** What a tab that heard everything shows agrees with the server's reply, except inside
    the two gaps. *)
Record live_inv (c : Z) (srv : Server) : Prop := {
  live_sys : sys_inv (sys srv);
  live_deltas : deltas_ok (log srv);
  live_agrees :
    match phase srv with
    | Settled => text_of (heard (log srv)) = text_of (reply_of c (sys srv))
    | Saved => text_of (heard (log srv)) = ""%string
    | Cleared => reply_of c (sys srv) = None
    end;
}.

Lemma untouched_effect e r : untouched e = true → reply_effect r e = r ∧ sets e = false ∧ ∀ r, delta_fits r e.
Proof.
  unfold untouched. destruct e; cbn; try done; [by destruct (existsb _ _)|by destruct running].
Qed.
Lemma untouched_effects es r : Forall (λ e, untouched e = true) es → fold_left reply_effect es r = r.
Proof.
  induction 1 as [|e es He _ IH]; [done|]. cbn. by rewrite (proj1 (untouched_effect e r He)).
Qed.
Lemma deltas_ok_app l es : deltas_ok l → Forall (λ e, untouched e = true) es → deltas_ok (app l es).
Proof.
  intros Hl Hes. revert l Hl. induction Hes as [|e es He _ IH]; intros l Hl; [by rewrite app_nil_r|].
  rewrite cons_middle, app_assoc. apply IH, deltas_ok_snoc; [done|]. by apply untouched_effect with (r := None).
Qed.

Lemma calls_inv c o srv s' p :
  live_inv c srv → step o (sys srv) = Some s' → next_phase c o (sys srv) s' (phase srv) = Some p →
  live_inv c (Build_Server s' (app (log srv) (news c (sys srv) s')) p).
Proof.
  intros [Hsys Hdeltas Hagrees] Hs Hp. pose proof (reply_after _ _ c _ Hsys Hs) as Hr.
  destruct (news_of _ _ _ c Hsys Hs) as [Hn Hquiet]. split; cbn [sys log phase]; [by eapply step_inv| |].
  - destruct o; try (by apply deltas_ok_app).
    + rewrite Hn. destruct (_ && _); [|by rewrite app_nil_r]. by apply deltas_ok_snoc.
    + rewrite Hn. destruct (Z.eqb_spec c0 c) as [->|]; [|by rewrite app_nil_r]. apply deltas_ok_snoc; [done|].
      cbn in Hp. rewrite bool_decide_eq_true_2 in Hp by done. destruct (phase srv); try done. cbn. by rewrite Hagrees.
  - assert (reply_of c s' = reply_of c (sys srv) → next_phase c o (sys srv) s' (phase srv) = Some (phase srv) →
      Forall (λ e, untouched e = true) (news c (sys srv) s') →
      match p with
      | Settled => text_of (heard (app (log srv) (news c (sys srv) s'))) = text_of (reply_of c s')
      | Saved => text_of (heard (app (log srv) (news c (sys srv) s'))) = ""%string
      | Cleared => reply_of c s' = None
      end) as Hsame.
    { intros Hrep Hph Hq. rewrite Hph in Hp. injection Hp as <-. rewrite Hrep, heard_app, untouched_effects by done. done. }
    destruct (busy c s') eqn:Hb'.
    + destruct o; try (by apply Hsame).
      * rewrite andb_false_r in Hn. apply Hsame; [done| |by rewrite Hn]. cbn [next_phase]. by rewrite Hb', andb_false_r.
      * cbn [next_phase reply_step] in *. rewrite Hn. destruct (Z.eqb_spec c0 c) as [->|Hne].
        -- rewrite bool_decide_eq_true_2 in Hp, Hr by done. destruct (phase srv); try done. injection Hp as <-.
           rewrite heard_snoc, Hr. cbn [reply_effect]. unfold apply_reply_delta. fold (text_of (heard (log srv))).
           rewrite Hagrees, Z.leb_refl. done.
        -- rewrite bool_decide_eq_false_2 in Hp, Hr by done. injection Hp as <-. rewrite app_nil_r. destruct (phase srv); congruence.
      * cbn [next_phase reply_step] in *. case_bool_decide; [|by apply Hsame].
        injection Hp as <-. rewrite Hr, heard_app, untouched_effects by done. by destruct (phase srv).
    + destruct (busy c (sys srv)) eqn:Hb.
      * destruct o; try (rewrite (keeps_busy _ _ _ c Hsys Hs ltac:(done) Hb) in Hb'; done).
        cbn [next_phase] in Hp. rewrite Hb, Hb' in Hp. cbn [andb negb] in Hp, Hn. rewrite Hn, Hr, heard_snoc.
        by destruct (phase srv); simplify_eq.
      * rewrite <- (not_busy_reply _ c Hsys Hb) in Hr. destruct o; try (by apply Hsame).
        -- rewrite andb_false_l in Hn. apply Hsame; [done| |by rewrite Hn]. cbn [next_phase]. by rewrite ?Hb.
        -- apply in_turn_some in Hs as [Hbusy ->]. cbn [next_phase] in Hp. destruct (Z.eqb_spec c0 c) as [->|Hne]; [unfold busy in Hb; apply Nat.ltb_ge in Hb; unfold turns_of in Hbusy; lia|].
           apply Hsame; [done| |by rewrite Hn]. cbn [next_phase]. by rewrite bool_decide_eq_false_2.
        -- cbn [next_phase] in Hp. case_bool_decide; [|apply Hsame; [done| |done]; cbn [next_phase]; by rewrite bool_decide_eq_false_2].
           injection Hp as <-. rewrite Hr, (not_busy_reply _ c Hsys Hb), heard_app, untouched_effects by done.
           by destruct (phase srv).
Qed.

Lemma publishes_inv c e srv p :
  live_inv c srv → published_phase c e (sys srv) (phase srv) = Some p →
  live_inv c (Build_Server (sys srv) (app (log srv) [e]) p).
Proof.
  intros [Hsys Hdeltas Hagrees] Hp.
  assert (∀ r, delta_fits r e) as Hfits by (intros r; by destruct e).
  split; cbn [sys log phase]; [done|by apply deltas_ok_snoc|]. rewrite heard_snoc.
  assert (untouched e = true → p = phase srv →
    match p with
    | Settled => text_of (reply_effect (heard (log srv)) e) = text_of (reply_of c (sys srv))
    | Saved => text_of (reply_effect (heard (log srv)) e) = ""%string
    | Cleared => reply_of c (sys srv) = None
    end) as Hsame.
  { intros Hu ->. by rewrite (proj1 (untouched_effect e (heard (log srv)) Hu)). }
  destruct e; cbn [published_phase] in Hp; try (by injection Hp as <-; apply Hsame); try done.
  - destruct (sets (MessagesAppended messages)) eqn:Hs.
    + cbn in Hs |- *. rewrite Hs. destruct (reply_of c (sys srv)) eqn:Hr, (phase srv); simplify_eq; done.
    + injection Hp as <-. apply Hsame; [|done]. unfold untouched. by rewrite Hs.
  - destruct running; [|done]. injection Hp as <-. by apply Hsame.
  - destruct (reply_of c (sys srv)) eqn:Hr; [done|]. by injection Hp as <-.
Qed.

Lemma live_step_inv c srv srv' : live_inv c srv → live_step c srv srv' → live_inv c srv'.
Proof. intros Hinv Hs. destruct Hs; [by eapply calls_inv|by apply publishes_inv]. Qed.
Lemma live_steps_inv c srv srv' : live_inv c srv → live_steps c srv srv' → live_inv c srv'.
Proof. intros Hinv. induction 1 as [|x y z Hs _ IH]; [done|]. apply IH. by eapply live_step_inv. Qed.
Lemma start_live c : live_inv c start_server.
Proof. split; cbn; [apply empty_inv|by intros [] ? ? ?|done]. Qed.

(** The log only grows, and a phase is entered or left by an event that sets the reply. *)
Lemma live_step_log c srv srv' :
  sys_inv (sys srv) → live_step c srv srv' →
  ∃ es, log srv' = app (log srv) es
    ∧ (phase srv' = Saved → phase srv = Saved ∨ existsb sets es = true)
    ∧ (phase srv = Cleared → phase srv' = Cleared ∨ existsb sets es = true).
Proof.
  intros Hinv Hstep. revert Hinv. destruct Hstep as [o srv0 s' p Hs Hp|e srv0 p Hp]; intros Hinv;
    (eexists; split; [reflexivity|]); cbn [phase sys log] in *.
  - destruct (news_of _ _ _ c Hinv Hs) as [Hn _]. split.
    + intros ->. left. destruct o; cbn [next_phase] in Hp; try congruence.
      * destruct (_ && _); [by destruct (phase srv0)|congruence].
      * case_bool_decide; [by destruct (phase srv0)|congruence].
      * case_bool_decide; [by destruct (phase srv0)|congruence].
    + intros Hc. rewrite Hc in Hp. destruct o; cbn [next_phase] in Hp; try (left; congruence).
      * destruct (busy c (sys srv0)), (busy c s'); cbn [andb negb] in *; try (left; congruence). right. by rewrite Hn.
      * case_bool_decide; [done|left; congruence].
      * case_bool_decide; left; congruence.
  - split.
    + intros ->. destruct e; try (cbn in Hp; left; congruence); try done.
      * cbn [published_phase] in Hp. destruct (sets (MessagesAppended messages)) eqn:Hs; [right; cbn in *; by rewrite Hs|left; congruence].
      * destruct running; [left; cbn in Hp; congruence|done].
      * cbn in Hp. by destruct (reply_of c (sys srv0)).
    + intros Hc. rewrite Hc in Hp. destruct e; try (cbn in Hp; left; congruence); try done; try by right.
      * cbn [published_phase] in Hp. destruct (sets (MessagesAppended messages)); [|left; congruence].
        destruct (reply_of c (sys srv0)); [done|left; congruence].
      * destruct running; [left; cbn in Hp; congruence|done].
Qed.
Lemma live_steps_log c srv srv' :
  live_inv c srv → live_steps c srv srv' →
  ∃ es, log srv' = app (log srv) es
    ∧ (phase srv' = Saved → phase srv = Saved ∨ existsb sets es = true)
    ∧ (phase srv = Cleared → phase srv' = Cleared ∨ existsb sets es = true).
Proof.
  intros Hinv. induction 1 as [x|x y z Hs _ IH].
  { exists []. rewrite app_nil_r. auto. }
  pose proof (live_step_inv c x y Hinv Hs) as Hy. destruct (IH Hy) as (es' & Hl' & Ha' & Hb').
  destruct (live_step_log c x y (live_sys _ _ Hinv) Hs) as (es & Hl & Ha & Hb).
  exists (app es es'). rewrite Hl', Hl, app_assoc. conjs; [done| |].
  - intros Hz. rewrite existsb_app, orb_true_iff. destruct (Ha' Hz) as [Hy'|]; [|auto]. destruct (Ha Hy'); auto.
  - intros Hx. rewrite existsb_app, orb_true_iff. destruct (Hb Hx) as [Hy'|]; [|auto]. destruct (Hb' Hy'); auto.
Qed.

Lemma reply_in_progress_text c s : text_of (reply_in_progress c (world s)) = text_of (reply_of c s).
Proof.
  unfold reply_in_progress, reply_of, entry, read_runtime. destruct (runtimes (world s) !! c) as [rt|]; [|done]. cbn.
  destruct (rt_reply rt) as [text|]; [|done]. cbn. by case_bool_decide; subst.
Qed.

(** C36. A tab that connects mid-reply catches up.  Whatever else every conversation does
    meanwhile: a tab that subscribes to a conversation's events, then fetches the reply so
    far, then applies every event since it subscribed, the ones its text already has
    included, shows exactly the text the server has, with nothing missing or twice, at every
    moment the turn can be waiting in; unless it subscribed between a reply's being
    published as a message and its being cleared. *)
Theorem late_tabs_catch_up c subscribed fetched last (tab : State) :
  live_steps c start_server subscribed → live_steps c subscribed fetched → live_steps c fetched last →
  phase subscribed ≠ Saved → phase last = Settled →
  streaming_reply tab = reply_in_progress c (world (sys fetched)) →
  text_of (streaming_reply (apply_events parse_blocks (drop (length (log subscribed)) (log last)) tab))
  = text_of (reply_in_progress c (world (sys last))).
Proof.
  intros Hj Hk Hn Hnot Hlast Htab.
  pose proof (live_steps_inv _ _ _ (start_live c) Hj) as Ij. pose proof (live_steps_inv _ _ _ Ij Hk) as Ik.
  pose proof (live_steps_inv _ _ _ Ik Hn) as In.
  destruct (live_steps_log c _ _ Ij Hk) as (es & Hes & Hsaved & _).
  destruct (live_steps_log c _ _ Ik Hn) as (es' & Hes' & _ & Hcleared).
  rewrite apply_events_reply, Htab, !reply_in_progress_text.
  assert (log last = app (log subscribed) (app es es')) as Hl by (by rewrite Hes', Hes, app_assoc).
  pose proof (live_agrees _ _ In) as Hagrees. rewrite Hlast in Hagrees. rewrite <- Hagrees, Hl, drop_app_length, heard_app.
  destruct (existsb sets (app es es')) eqn:Hsets.
  { f_equal. by apply effects_after_set. }
  rewrite existsb_app in Hsets. apply orb_false_iff in Hsets as [Hs1 Hs2].
  assert (phase fetched = Settled) as Hph.
  { destruct (phase fetched); [done| |].
    - destruct (Hsaved eq_refl) as [?|?]; congruence.
    - destruct (Hcleared eq_refl) as [?|?]; congruence. }
  pose proof (live_agrees _ _ Ik) as Hf. rewrite Hph in Hf.
  rewrite !fold_left_app. apply effects_text. rewrite <- heard_app, <- Hes, Hf, <- reply_in_progress_text.
  pose proof (live_deltas _ _ Ik) as Hd. rewrite Hes in Hd, Hf.
  destruct (had_already (log subscribed) es (reply_in_progress c (world (sys fetched))) Hd Hs1) as [Heq _]; [|done].
  by rewrite Hf, reply_in_progress_text.
Qed.

(** Calls alone, computed. *)
Definition live_call (c : Z) (srv : Server) (o : op) : option Server :=
  s' ← step o (sys srv);
  p ← next_phase c o (sys srv) s' (phase srv);
  Some (Build_Server s' (app (log srv) (news c (sys srv) s')) p).
Fixpoint live_calls (c : Z) (ops : list op) (srv : Server) : option Server :=
  match ops with
  | [] => Some srv
  | o :: ops => srv' ← live_call c srv o; live_calls c ops srv'
  end.
Lemma live_calls_steps c ops srv srv' : live_calls c ops srv = Some srv' → live_steps c srv srv'.
Proof.
  revert srv. induction ops as [|o ops IH]; intros srv; cbn; [intros [= ->]; constructor|].
  intros (srv1 & Ho & Hs)%bind_Some. eapply rtc_l; [|by apply IH]. unfold live_call in Ho.
  apply bind_Some in Ho as (s' & Hs' & Ho). apply bind_Some in Ho as (p & Hp & [= <-]). by econstructor.
Qed.
End LiveReply.

(** ** Witness *)

Definition live_start : @Server CountChannel nat (list nat) nat := start_server.
Definition live_subscribed := default live_start (live_calls 7 [StartByUser 7; AppendReply 7 "He"] live_start).
Definition live_fetched := default live_start (live_calls 7 [AppendReply 7 "llo"; NoteAttention 7 Failed] live_subscribed).
Definition live_last := default live_start (live_calls 7 [StartUnlessPaused 8; AppendReply 7 ", you"] live_fetched).
Definition late_tab : ConversationState (ContextDetail := unit) := default_state <| streaming_reply := Some "Hello"%string |>.

Lemma late_tabs_catch_up_witness :
  text_of (streaming_reply (apply_events (λ _, Err ""%string : Result (list (ContentBlock unit)) string)
    (drop (length (log live_subscribed)) (log live_last)) late_tab)) = "Hello, you"%string.
Proof.
  transitivity (text_of (reply_in_progress 7 (world (sys live_last)))); [|vm_compute; reflexivity].
  apply (late_tabs_catch_up _ 7 live_subscribed live_fetched live_last late_tab);
    [apply (live_calls_steps 7 [StartByUser 7; AppendReply 7 "He"]), default_spec; vm_compute; reflexivity
    |apply (live_calls_steps 7 [AppendReply 7 "llo"; NoteAttention 7 Failed]), default_spec; vm_compute; reflexivity
    |apply (live_calls_steps 7 [StartUnlessPaused 8; AppendReply 7 ", you"]), default_spec; vm_compute; reflexivity
    |vm_compute; discriminate|vm_compute; reflexivity|vm_compute; reflexivity].
Defined.
