(* ===== verification/AgentProtocol.v ===== *)
(** * AgentProtocol: the sandbox agent's wire protocol

    [src/src/agent_protocol.rs]: every message smelt and the agent in a sandbox pod send each
    other, and the version the agent says it speaks.  Their JSON is serde's and isn't
    modelled. *)

From S2P Require Import Prelude RustStr.
Local Open Scope string_scope.

Record ProtocolVersion := { major : Z; minor : Z }.
Definition PROTOCOL_VERSION : ProtocolVersion := Build_ProtocolVersion 1 1.
Definition version_to_string (v : ProtocolVersion) : string := show_unsigned (major v) +:+ "." +:+ show_unsigned (minor v).

Inductive Stream := Stdout | Stderr.
#[export] Instance Stream_eq_dec : EqDecision Stream.
Proof. solve_decision. Defined.
Definition stream_as_str (s : Stream) : string := match s with Stdout => "stdout" | Stderr => "stderr" end.

Inductive McpRequest := McpList (server : option string) | McpCall (body : string).

(** ** Replies *)

Record FileContents := { fc_lines : list string; fc_total_lines : nat; fc_hash : string }.
Record DirEntry := { de_name : string; de_is_dir : bool; de_size : option Z }.
Record GrepMatch := { gm_path : string; gm_line : Z; gm_text : string }.
Record SkippedFile := { sf_path : string; sf_reason : string }.
Record GlobResult := { gl_paths : list string; gl_total : nat; gl_scan_capped : bool }.
Record GrepResult := { gr_matches : list GrepMatch; gr_total : nat; gr_scan_capped : bool; gr_skipped : list SkippedFile }.

Inductive Reply :=
  | TerminalCreated
  | TerminalTerminated
  | FileRead (contents : FileContents)
  | FileWritten (hash : string)
  | FileEdited (hash : string)
  | DirectoryListed (entries : list DirEntry)
  | GlobMatched (result : GlobResult)
  | GrepMatched (result : GrepResult)
  | ReplyError (message : string)
  | UnknownReply.

Inductive ClientMessage :=
  | CreateTerminal (request_id : Z) (terminal_id : string)
  | TerminateTerminal (request_id : Z) (terminal_id : string)
  | Command (terminal_id id command : string)
  | Signal (terminal_id id signal : string)
  | ReadFile (request_id : Z) (path : string) (offset limit : Z)
  | WriteFile (request_id : Z) (path content : string) (expected_hash : option string)
  | EditFile (request_id : Z) (path old_string new_string : string) (replace_all : bool) (expected_hash : string) (expected_line : option Z)
  | ListDirectory (request_id : Z) (path : string)
  | Glob (request_id : Z) (path pattern : string) (offset limit : Z)
  | Grep (request_id : Z) (path pattern : string) (glob : option string) (case_insensitive : bool) (offset limit : Z)
  | McpResponse (call_id status : Z) (body : string).

Inductive AgentMessage :=
  | Hello (version : ProtocolVersion)
  | Output (id terminal_id : string) (stream : Stream) (seq : Z) (data : string)
  | Exit (id terminal_id : string) (code : Z)
  | ReplyTo (request_id : Z) (result : Reply)
  | ProtocolError (request_id : option Z) (message : string)
  | McpRequested (call_id : Z) (command_id : option string) (request : McpRequest)
  | UnknownMessage.

#[export] Instance ProtocolVersion_eq_dec : EqDecision ProtocolVersion.
Proof. solve_decision. Defined.
#[export] Instance McpRequest_eq_dec : EqDecision McpRequest.
Proof. solve_decision. Defined.
#[export] Instance FileContents_eq_dec : EqDecision FileContents.
Proof. solve_decision. Defined.
#[export] Instance DirEntry_eq_dec : EqDecision DirEntry.
Proof. solve_decision. Defined.
#[export] Instance GrepMatch_eq_dec : EqDecision GrepMatch.
Proof. solve_decision. Defined.
#[export] Instance SkippedFile_eq_dec : EqDecision SkippedFile.
Proof. solve_decision. Defined.
#[export] Instance GlobResult_eq_dec : EqDecision GlobResult.
Proof. solve_decision. Defined.
#[export] Instance GrepResult_eq_dec : EqDecision GrepResult.
Proof. solve_decision. Defined.
#[export] Instance Reply_eq_dec : EqDecision Reply.
Proof. solve_decision. Defined.
#[export] Instance AgentMessage_eq_dec : EqDecision AgentMessage.
Proof. solve_decision. Defined.
