(* ===== verification/AgentOutput.v ===== *)
(** * AgentOutput: a command's output in pieces

    [fill_piece] and [take_piece] of [src/src/bin/sandbox_agent/commands.rs]: how the
    sandbox agent cuts what a shell writes to one of its pipes into the lines, and the
    pieces of long lines, it sends; and how far an ended shell's pipe is read.

    A pipe is the reads it will give, in order, and whether it's closed after them; the
    instants are milliseconds given from outside.  The lossy UTF-8 decoding is a parameter,
    with the law that it leaves valid text as it is. *)

From S2P Require Import Prelude RustStr.
Local Open Scope string_scope.

Definition MAX_OUTPUT_CHUNK : nat := 64 * 1024.
Definition MARKER_TAIL : nat := 64.
Definition GRACE_QUIET : Z := 500.
Definition GRACE_MAX : Z := 1000.

(** ** How far a pipe is read *)

Inductive Grace := NotYet | Running (quiet_until ends : Z) | Over.
Record ReadSoFar := { pulled : Z; until : option Z; grace : Grace }.
Definition default_read : ReadSoFar := Build_ReadSoFar 0 None NotYet.

Definition end_at (buffered : nat) (in_pipe : option nat) (read : ReadSoFar) : ReadSoFar :=
  match in_pipe with
  | Some in_pipe =>
      Build_ReadSoFar (pulled read) (Some (u64_add (u64_add (pulled read) (Z.of_nat buffered)) (Z.of_nat in_pipe))) (grace read)
  | None => read
  end.
Definition start_grace (now : Z) (read : ReadSoFar) : bool * ReadSoFar :=
  match grace read with
  | NotYet => (true, Build_ReadSoFar (pulled read) None (Running (now + GRACE_QUIET) (now + GRACE_MAX)))
  | _ => (false, read)
  end.
Definition saw_output (now : Z) (read : ReadSoFar) : ReadSoFar :=
  match grace read with
  | Running _ ends => Build_ReadSoFar (pulled read) (until read) (Running (now + GRACE_QUIET) ends)
  | _ => read
  end.
Definition grace_deadline (read : ReadSoFar) : option Z :=
  match grace read with Running quiet_until ends => Some (Z.min quiet_until ends) | _ => None end.
Definition end_grace (read : ReadSoFar) : ReadSoFar := Build_ReadSoFar (pulled read) (Some (pulled read)) Over.
Definition left (read : ReadSoFar) : option Z := (λ until, sat_sub until (pulled read)) <$> until read.

(** ** The pipe and its buffered reader *)

(** [reads]: what the next reads give, or an error; after them, the end of the stream if
    it's [closed], and a wait for more if it isn't. *)
Record Pipe := { buffered : string; reads : list (option string); closed : bool }.

Inductive Available := Bytes (bytes : string) | Failed | Pending.
(** [fill_buf]: what's buffered, or the next read when nothing is. *)
Definition fill_buf (pipe : Pipe) : Available * Pipe :=
  if negb (bool_decide (buffered pipe = "")) then (Bytes (buffered pipe), pipe)
  else
    match reads pipe with
    | Some bytes :: rest => (Bytes bytes, Build_Pipe bytes rest (closed pipe))
    | None :: rest => (Failed, Build_Pipe "" rest (closed pipe))
    | [] => (if closed pipe then Bytes "" else Pending, pipe)
    end.
Definition consume (n : nat) (pipe : Pipe) : Pipe := Build_Pipe (str_drop n (buffered pipe)) (reads pipe) (closed pipe).

(** ** Pieces *)

Definition last_is (a : ascii) (buf : string) : bool := ends_with (String a "") buf.

(** [Ok(true)], [Ok(false)], [Err(_)], and the await that waits. *)
Inductive Filled := HasPiece | AtEnd | ReadFailed | Waiting.

Fixpoint fill_loop (fuel : nat) (now : Z) (pipe : Pipe) (buf : string) (read : ReadSoFar) : Filled * (Pipe * string * ReadSoFar) :=
  match fuel with
  | O => (Waiting, (pipe, buf, read))
  | S fuel =>
      if last_is newline buf || (MAX_OUTPUT_CHUNK <=? String.length buf)%nat then (HasPiece, (pipe, buf, read))
      else if bool_decide (left read = Some 0%Z) then
        ((if bool_decide (buf = "") then AtEnd else HasPiece), (pipe, buf, read))
      else
        match fill_buf pipe with
        | (Pending, pipe) => (Waiting, (pipe, buf, read))
        | (Failed, pipe) => (ReadFailed, (pipe, buf, read))
        | (Bytes available, pipe) =>
            if bool_decide (available = "") then ((if bool_decide (buf = "") then AtEnd else HasPiece), (pipe, buf, read))
            else
              let room := Nat.min (MAX_OUTPUT_CHUNK - String.length buf) (String.length available) in
              let room := match left read with Some left => Nat.min room (Z.to_nat left) | None => room end in
              let take := match str_find (String newline "") (str_take room available) with Some at_ => S at_ | None => room end in
              let read := saw_output now (Build_ReadSoFar (u64_add (pulled read) (Z.of_nat take)) (until read) (grace read)) in
              fill_loop fuel now (consume take pipe) (buf +:+ str_take take available) read
        end
  end.
Definition fill_piece (now : Z) (pipe : Pipe) (buf : string) (read : ReadSoFar) : Filled * (Pipe * string * ReadSoFar) :=
  fill_loop (MAX_OUTPUT_CHUNK + 1) now pipe buf read.

(** Where a long line is cut: before the character its tail starts in, if one starts near. *)
Definition starts_here (buf : string) (i : nat) : bool :=
  match String.get i buf with Some a => negb (is_continuation a) | None => false end.
Definition cut_at (buf : string) : nat :=
  let cut := (String.length buf - MARKER_TAIL)%nat in
  match List.find (starts_here buf) (reverse (seq (cut - 3) (cut - (cut - 3) + 1))) with
  | Some i => if (0 <? i)%nat then i else cut
  | None => cut
  end.

Section TakePiece.
Variable lossy : string → string.

(** A whole line without its end, [Lines]' way. *)
Definition without_end (buf : string) : string :=
  match strip_suffix (String newline "") buf with
  | Some buf => default buf (strip_suffix (String (ascii_of_nat 13) "") buf)
  | None => buf
  end.
Definition take_piece (buf : string) : string * string :=
  if last_is newline buf then (lossy (without_end buf), "")
  else if (MAX_OUTPUT_CHUNK <=? String.length buf)%nat then
    let at_ := cut_at buf in (lossy (str_take at_ buf), str_drop at_ buf)
  else (lossy buf, "").

(** A stream read on its own: each piece filled and taken, until none comes. *)
Fixpoint read_pieces (fuel : nat) (now : Z) (pipe : Pipe) (buf : string) (read : ReadSoFar) : list string * Filled :=
  match fuel with
  | O => ([], Waiting)
  | S fuel =>
      match fill_piece now pipe buf read with
      | (HasPiece, (pipe, buf, read)) =>
          let '(piece, buf) := take_piece buf in
          let '(pieces, last) := read_pieces fuel now pipe buf read in (piece :: pieces, last)
      | (other, _) => ([], other)
      end
  end.
End TakePiece.

(** ** Lines *)

(** The bytes up to the first newline, with it. *)
Fixpoint line_length (s : string) : nat :=
  match s with
  | EmptyString => 0
  | String a s => if Ascii.eqb a newline then 1 else S (line_length s)
  end.
(** At most one line, ended at most at its last byte. *)
Definition one_line (s : string) : Prop := line_length s = String.length s.

Lemma last_is_true a s : last_is a s = true ↔ ∃ b, s = b +:+ String a "".
Proof.
  unfold last_is, ends_with. split.
  - destruct (strip_suffix _ s) as [b|] eqn:Hb; [|done]. intros _. exists b. by apply strip_suffix_Some.
  - intros [b ->]. by rewrite strip_suffix_app.
Qed.
Lemma last_is_cons c a s : a ≠ c → last_is c (String a s) = last_is c s.
Proof.
  intros Ha. apply eq_true_iff_eq. rewrite !last_is_true. split.
  - intros [[|b t] Hb]; cbn in Hb; injection Hb as -> Hs; [done|]. subst s. by exists t.
  - intros [t ->]. by exists (String a t).
Qed.
Lemma line_length_le s : (line_length s ≤ String.length s)%nat.
Proof. induction s as [|a s IH]; cbn; [done|]. destruct (Ascii.eqb _ _); lia. Qed.
Lemma line_length_pos s : s ≠ "" → (1 ≤ line_length s)%nat.
Proof. destruct s as [|a s]; [done|]. cbn. destruct (Ascii.eqb _ _); lia. Qed.
Lemma line_length_take n s : line_length (str_take n s) = Nat.min n (line_length s).
Proof.
  revert n. induction s as [|a s IH]; intros [|n]; cbn; try done.
  destruct (Ascii.eqb _ _); [by rewrite Nat.min_0_r || done|by rewrite IH].
Qed.
Lemma one_line_drop n s : one_line s → one_line (str_drop n s).
Proof.
  unfold one_line. revert s. induction n as [|n IH]; intros [|a s]; cbn; try done.
  destruct (Ascii.eqb _ _); intros [= Hs]; apply IH; [|done]. destruct s; [done|discriminate Hs].
Qed.
Lemma line_length_app s t : one_line s →
  line_length (s +:+ t) = if last_is newline s then String.length s else (String.length s + line_length t)%nat.
Proof.
  unfold one_line. induction s as [|a s IH]; intros Hs; [done|]. rewrite str_app_cons. cbn [line_length String.length] in *.
  destruct (Ascii.eqb_spec a newline) as [-> | Ha].
  - injection Hs as Hs. destruct s; [done|discriminate Hs].
  - injection Hs as Hs. rewrite (IH Hs), (last_is_cons newline a s) by (intros ->; congruence).
    by destruct (last_is newline s).
Qed.
Lemma one_line_app s t : one_line s → last_is newline s = false → one_line t → one_line (s +:+ t).
Proof. intros Hs Hl Ht. unfold one_line. rewrite (line_length_app _ _ Hs), Hl, str_length_app. by rewrite Ht. Qed.
Lemma line_length_find s :
  match str_find (String newline "") s with Some at_ => S at_ | None => String.length s end = line_length s.
Proof.
  unfold str_find. induction s as [|a s IH]; [done|]. rewrite split_once_char_cons, Ascii.eqb_sym. cbn [line_length String.length].
  destruct (Ascii.eqb a newline) eqn:Ha; [done|]. rewrite <-IH. by destruct (split_once _ s) as [[b c]|].
Qed.

(** ** What one fill reads *)

Lemma chunk_bounds : (MARKER_TAIL + 3 < MAX_OUTPUT_CHUNK)%nat.
Proof. apply Nat.ltb_lt. vm_compute. reflexivity. Qed.
#[local] Opaque MAX_OUTPUT_CHUNK.

Definition window (s : string) : string := str_take (Nat.min MAX_OUTPUT_CHUNK (line_length s)) s.

Fixpoint all_reads (reads : list (option string)) : string :=
  match reads with
  | Some bytes :: reads => bytes +:+ all_reads reads
  | _ => ""
  end.
Definition readable (pipe : Pipe) : Prop := Forall (λ bytes, bytes ≠ None ∧ bytes ≠ Some "") (reads pipe).
Definition pipe_bytes (pipe : Pipe) : string := buffered pipe +:+ all_reads (reads pipe).
(** What's still to be read: up to [until], where there is one. *)
Definition visible (pipe : Pipe) (read : ReadSoFar) : string :=
  match left read with Some left => str_take (Z.to_nat left) (pipe_bytes pipe) | None => pipe_bytes pipe end.
(** The pipe's end can be seen: it's closed, or all up to [until] is in it. *)
Definition ends (pipe : Pipe) (read : ReadSoFar) : Prop :=
  closed pipe = true ∨ ∃ left', left read = Some left' ∧ (Z.to_nat left' ≤ String.length (pipe_bytes pipe))%nat.
Definition in_range (pipe : Pipe) (read : ReadSoFar) : Prop :=
  (0 ≤ pulled read)%Z ∧ (pulled read + str_len (pipe_bytes pipe) ≤ U64_MAX)%Z.

Lemma str_take_all n s : (String.length s ≤ n)%nat → str_take n s = s.
Proof. revert s. induction n as [|n IH]; intros [|a s]; cbn; intros; try done; [lia|]. rewrite IH; [done|lia]. Qed.
Lemma str_take_app_l n s t : (n ≤ String.length s)%nat → str_take n (s +:+ t) = str_take n s.
Proof.
  revert s. induction n as [|n IH]; intros [|a s]; intros; try done; [cbn in *; lia|].
  rewrite str_app_cons. cbn [str_take str_drop String.length] in *. rewrite IH; [done|lia].
Qed.
Lemma str_drop_app_l n s t : (n ≤ String.length s)%nat → str_drop n (s +:+ t) = str_drop n s +:+ t.
Proof.
  revert s. induction n as [|n IH]; intros [|a s]; intros; try done; [cbn in *; lia|].
  rewrite str_app_cons. cbn [str_take str_drop String.length] in *. rewrite IH; [done|lia].
Qed.
Lemma str_take_plus n m s : str_take (n + m) s = str_take n s +:+ str_take m (str_drop n s).
Proof. revert s. induction n as [|n IH]; intros [|a s]; cbn; try done; [by destruct m|]. by rewrite IH. Qed.
Lemma str_take_app_r s t n : str_take (String.length s + n) (s +:+ t) = s +:+ str_take n t.
Proof. by rewrite str_take_plus, str_take_app, str_drop_app. Qed.

Lemma window_full s t : one_line s → last_is newline s = true ∨ (MAX_OUTPUT_CHUNK ≤ String.length s)%nat →
  (String.length s ≤ MAX_OUTPUT_CHUNK)%nat → window (s +:+ t) = s.
Proof.
  intros Hs Hfull Hle. unfold window. rewrite (line_length_app _ _ Hs).
  assert (∀ n, n = String.length s → str_take n (s +:+ t) = s) as Ht by (intros ? ->; apply str_take_app).
  apply Ht. destruct (last_is newline s); destruct Hfull; try done; lia.
Qed.
Lemma window_all s : one_line s → (String.length s ≤ MAX_OUTPUT_CHUNK)%nat → window s = s.
Proof. intros Hs Hle. unfold window. apply str_take_all. rewrite Hs. lia. Qed.

Lemma fill_buf_spec pipe : readable pipe →
  let '(available, pipe') := fill_buf pipe in
  readable pipe' ∧ closed pipe' = closed pipe ∧ pipe_bytes pipe' = pipe_bytes pipe
  ∧ match available with
    | Bytes bytes => buffered pipe' = bytes ∧ (bytes = "" → closed pipe = true ∧ pipe_bytes pipe = "")
    | Failed => False
    | Pending => closed pipe = false ∧ pipe_bytes pipe = ""
    end.
Proof.
  intros Hr. unfold fill_buf, pipe_bytes. case_bool_decide as Hb; cbn [negb]; [|by conjs].
  rewrite Hb. destruct (reads pipe) as [|[bytes|] rest] eqn:Hrs; [|unfold readable in *..]; rewrite ?Hrs in *.
  - destruct (closed pipe) eqn:Hc; cbn; rewrite ?Hrs, ?Hb; by conjs.
  - apply Forall_cons in Hr as [[_ Hne] Hr]. cbn. conjs; try done; intros ->; done.
  - apply Forall_cons in Hr as [[Hne _] _]. done.
Qed.

Lemma left_nonneg read left' : left read = Some left' → (0 ≤ left')%Z.
Proof. unfold left. destruct (until read); [|done]. intros [= <-]. unfold sat_sub. lia. Qed.
Lemma left_pulled now n read :
  (0 ≤ pulled read)%Z → (pulled read + Z.of_nat n ≤ U64_MAX)%Z →
  left (saw_output now (Build_ReadSoFar (u64_add (pulled read) (Z.of_nat n)) (until read) (grace read)))
  = (λ left', sat_sub left' (Z.of_nat n)) <$> left read
  ∧ pulled (saw_output now (Build_ReadSoFar (u64_add (pulled read) (Z.of_nat n)) (until read) (grace read)))
    = (pulled read + Z.of_nat n)%Z.
Proof.
  intros H0 Hmax.
  assert (u64_add (pulled read) (Z.of_nat n) = (pulled read + Z.of_nat n)%Z) as Hadd
    by (unfold u64_add; apply Z.mod_small; unfold U64_MAX in Hmax; lia).
  unfold saw_output, left. cbn [grace until pulled]. rewrite Hadd. destruct (grace read); cbn; (split; [|done]);
    (destruct (until read); cbn; [|done]); f_equal; unfold sat_sub; lia.
Qed.

(** What one read moves into the buffer comes off the front of what's visible. *)
Lemma visible_consume now n pipe read :
  (n ≤ String.length (buffered pipe))%nat →
  (∀ left', left read = Some left' → (n ≤ Z.to_nat left')%nat) → in_range pipe read →
  let read' := saw_output now (Build_ReadSoFar (u64_add (pulled read) (Z.of_nat n)) (until read) (grace read)) in
  visible pipe read = str_take n (buffered pipe) +:+ visible (consume n pipe) read'
  ∧ in_range (consume n pipe) read' ∧ (ends pipe read → ends (consume n pipe) read').
Proof.
  intros Hn Hleft [H0 Hmax]. cbn zeta.
  assert (String.length (pipe_bytes (consume n pipe)) = String.length (pipe_bytes pipe) - n)%nat as Hlen.
  { unfold pipe_bytes, consume. cbn [buffered reads]. rewrite !str_length_app, str_drop_length. lia. }
  assert (n ≤ String.length (pipe_bytes pipe))%nat as Hn' by (unfold pipe_bytes; rewrite str_length_app; lia).
  unfold str_len in Hmax.
  destruct (left_pulled now n read) as [Hl Hp]; [done|lia|].
  assert (pipe_bytes pipe = str_take n (buffered pipe) +:+ pipe_bytes (consume n pipe)) as Hbytes.
  { unfold pipe_bytes, consume. cbn [buffered reads]. by rewrite <-str_app_assoc, str_take_drop. }
  conjs.
  - unfold visible. rewrite Hl. destruct (left read) as [left'|]; cbn [fmap option_fmap option_map]; [|done].
    specialize (Hleft _ eq_refl). unfold sat_sub.
    replace (Z.to_nat left') with (String.length (str_take n (buffered pipe)) + Z.to_nat (Z.max 0 (left' - Z.of_nat n)))%nat
      by (rewrite str_take_length; lia).
    rewrite Hbytes. by rewrite str_take_app_r.
  - split; [rewrite Hp; lia|]. rewrite Hp. unfold str_len. rewrite Hlen. lia.
  - intros [Hc|(left' & Hl' & Hle)]; [by left|]. right. rewrite Hl, Hl'. eexists. split; [done|].
    rewrite Hlen. unfold sat_sub. lia.
Qed.

Lemma fill_loop_spec fuel now pipe buf read :
  readable pipe → in_range pipe read → one_line buf → (String.length buf ≤ MAX_OUTPUT_CHUNK)%nat →
  (MAX_OUTPUT_CHUNK - String.length buf < fuel)%nat →
  let '(filled, (pipe', buf', read')) := fill_loop fuel now pipe buf read in
  readable pipe' ∧ in_range pipe' read' ∧ (ends pipe read → ends pipe' read')
  ∧ buf' +:+ visible pipe' read' = buf +:+ visible pipe read
  ∧ match filled with
    | HasPiece => buf' = window (buf +:+ visible pipe read) ∧ buf' ≠ ""
    | AtEnd => buf = "" ∧ visible pipe read = ""
    | Waiting => ~ ends pipe read
    | ReadFailed => False
    end.
Proof.
  revert pipe buf read. induction fuel as [|fuel IH]; intros pipe buf read Hr Hrange Hline Hle Hfuel; [lia|]. cbn [fill_loop].
  destruct (last_is newline buf || (MAX_OUTPUT_CHUNK <=? String.length buf)%nat) eqn:Hfull.
  { conjs; try done.
    - symmetry. apply window_full; [done| |done]. apply orb_true_iff in Hfull as [Hf|Hf]; [by left|right]. by apply Nat.leb_le.
    - intros ->. pose proof chunk_bounds. apply orb_true_iff in Hfull as [Hf|Hf]; [done|]. apply Nat.leb_le in Hf. cbn in Hf. lia. }
  apply orb_false_iff in Hfull as [Hlast Hshort]. apply Nat.leb_gt in Hshort.
  assert (∀ s, visible pipe read = s → s = "" → let filled := if bool_decide (buf = "") then AtEnd else HasPiece in
    match filled with
    | HasPiece => buf = window (buf +:+ visible pipe read) ∧ buf ≠ ""
    | AtEnd => buf = "" ∧ visible pipe read = "" | Waiting => ~ ends pipe read | ReadFailed => False end) as Hend.
  { intros s Hs ->. rewrite Hs, str_app_nil_r. cbn. case_bool_decide; [done|]. split; [|done]. symmetry. by apply window_all. }
  destruct (bool_decide_reflect (left read = Some 0%Z)) as [Hzero|Hzero].
  { assert (visible pipe read = "") as Hv by (unfold visible; by rewrite Hzero). conjs; try done. exact (Hend _ Hv eq_refl). }
  pose proof (fill_buf_spec pipe Hr) as Hf. destruct (fill_buf pipe) as [available pipe1].
  destruct Hf as (Hr1 & Hc1 & Hb1 & Hav).
  assert (∀ r, visible pipe1 r = visible pipe r) as Hvis by (intros; unfold visible; by rewrite Hb1).
  assert (∀ r, ends pipe1 r ↔ ends pipe r) as Hends by (intros; unfold ends; by rewrite Hb1, Hc1).
  assert (∀ r, in_range pipe1 r ↔ in_range pipe r) as Hrg by (intros; unfold in_range; by rewrite Hb1).
  assert (pipe_bytes pipe = "" → visible pipe read = "") as Hempty.
  { intros He. unfold visible. rewrite He. destruct (left read) as [l|]; [by destruct (Z.to_nat l)|done]. }
  destruct available as [bytes| |]; [|done|].
  - destruct Hav as [Hbuf Hnone]. destruct (bool_decide_reflect (bytes = "")) as [Hbytes|Hbytes].
    { destruct (Hnone Hbytes) as [Hc He]. conjs; try done; [by apply Hrg|by rewrite Hends|by rewrite Hvis|].
      exact (Hend _ (Hempty He) eq_refl). }
    set (room := match left read with Some l => _ | None => _ end).
    set (taken := match str_find _ _ with Some at_ => S at_ | None => room end).
    assert (room ≤ MAX_OUTPUT_CHUNK - String.length buf ∧ room ≤ String.length bytes ∧ 1 ≤ room
            ∧ ∀ l, left read = Some l → room ≤ Z.to_nat l)%nat as (Hroom1 & Hroom2 & Hroom3 & Hroom4).
    { assert (1 ≤ String.length bytes)%nat by (destruct bytes; [done|cbn; lia]). unfold room.
      destruct (left read) as [l|] eqn:Hl; [|conjs; [lia|lia|lia|done]]. pose proof (left_nonneg _ _ Hl).
      assert (l ≠ 0)%Z by congruence. conjs; [lia|lia|lia|]. intros ? [= <-]. lia. }
    assert (taken = Nat.min room (line_length bytes)) as Htaken.
    { unfold taken. rewrite <-line_length_take, <-line_length_find. destruct (str_find _ _); [done|].
      rewrite str_take_length. lia. }
    assert (1 ≤ taken ≤ room)%nat as Htake by (pose proof (line_length_pos bytes Hbytes); lia).
    clearbody taken room.
    destruct (visible_consume now taken pipe1 read) as (Hv & Hrange1 & Hends1);
      [rewrite Hbuf; lia|intros l Hl; specialize (Hroom4 l Hl); lia|by apply Hrg|]. cbn zeta in *.
    set (read1 := saw_output now _) in *. rewrite Hbuf in Hv.
    assert (one_line (str_take taken bytes)) as Hone.
    { unfold one_line. rewrite line_length_take, str_take_length. lia. }
    specialize (IH (consume taken pipe1) (buf +:+ str_take taken bytes) read1).
    destruct (fill_loop fuel now _ _ _) as [filled [[pipe2 buf2] read2]].
    destruct IH as (Hr2 & Hrange2 & Hends2 & Hsame & Hwhat).
    + exact Hr1.
    + done.
    + by apply one_line_app.
    + rewrite str_length_app, str_take_length. lia.
    + rewrite str_length_app, str_take_length. lia.
    + rewrite str_app_assoc, <-Hv, Hvis in Hsame, Hwhat. conjs; [done|done| |done|].
      * intros He. apply Hends2, Hends1. by apply Hends.
      * destruct filled; [done| | |].
        -- destruct Hwhat as [He _]. exfalso. apply (f_equal String.length) in He. rewrite str_length_app, str_take_length in He.
           cbn in He. lia.
        -- done.
        -- intros He. apply Hwhat, Hends1. by apply Hends.
  - destruct Hav as [Hc He]. conjs; [done|by apply Hrg|by rewrite Hends|by rewrite Hvis|].
    intros [Hc'|(l & Hl & Hlen)]; [congruence|]. rewrite He in Hlen. cbn in Hlen. pose proof (left_nonneg _ _ Hl).
    apply Hzero. rewrite Hl. f_equal. lia.
Qed.

(** ** The pieces, from the bytes alone *)

Definition piece_length (buf : string) : nat :=
  if last_is newline buf || (String.length buf <? MAX_OUTPUT_CHUNK)%nat then String.length buf else cut_at buf.
Fixpoint cut_pieces (fuel : nat) (bytes : string) : list string :=
  match fuel with
  | O => []
  | S fuel =>
      if bool_decide (bytes = "") then []
      else
        let n := piece_length (window bytes) in
        str_take n bytes :: cut_pieces fuel (str_drop n bytes)
  end.
Definition pieces_of (bytes : string) : list string := cut_pieces (String.length bytes) bytes.

Lemma window_length s : String.length (window s) = Nat.min MAX_OUTPUT_CHUNK (line_length s).
Proof. unfold window. rewrite str_take_length. pose proof (line_length_le s). lia. Qed.
Lemma window_one_line s : one_line (window s).
Proof. unfold one_line. rewrite window_length. unfold window. rewrite line_length_take. lia. Qed.
Lemma window_take s n : (n ≤ String.length (window s))%nat → str_take n (window s) = str_take n s.
Proof.
  intros Hn. rewrite <-(str_take_drop (Nat.min MAX_OUTPUT_CHUNK (line_length s)) s) at 2. by rewrite str_take_app_l.
Qed.
Lemma window_app s : window s +:+ str_drop (String.length (window s)) s = s.
Proof. rewrite window_length. apply str_take_drop. Qed.
Lemma window_nil s : window s = "" → s = "".
Proof.
  intros Hw. destruct (decide (s = "")) as [|Hs]; [done|]. apply (f_equal String.length) in Hw. rewrite window_length in Hw. cbn in Hw.
  pose proof (line_length_pos s Hs). pose proof chunk_bounds. lia.
Qed.

Lemma cut_at_spec buf : (MARKER_TAIL + 3 < String.length buf)%nat →
  let cut := (String.length buf - MARKER_TAIL)%nat in
  (cut - 3 ≤ cut_at buf ≤ cut)%nat
  ∧ (starts_here buf (cut_at buf) = true ∨ ∀ j, (cut - 3 ≤ j ≤ cut)%nat → starts_here buf j = false).
Proof.
  intros Hlen. cbn zeta. unfold cut_at. set (cut := (String.length buf - MARKER_TAIL)%nat).
  assert (3 < cut)%nat by lia.
  assert (∀ j, j ∈ reverse (seq (cut - 3) (cut - (cut - 3) + 1)) ↔ (cut - 3 ≤ j ≤ cut)%nat) as Hin
    by (intros j; rewrite elem_of_reverse, elem_of_seq; lia).
  destruct (List.find _ _) as [i|] eqn:Hf.
  - apply List.find_some in Hf as [Hi Hs]. apply list_elem_of_In, Hin in Hi.
    destruct (Nat.ltb_spec 0 i); [|lia]. split; [done|by left].
  - split; [lia|]. right. intros j Hj. apply Hin, list_elem_of_In in Hj. exact (List.find_none _ _ Hf j Hj).
Qed.
Lemma piece_length_le buf : (piece_length buf ≤ String.length buf)%nat ∧ (buf ≠ "" → 1 ≤ piece_length buf)%nat.
Proof.
  unfold piece_length. destruct (last_is newline buf || _) eqn:Hs.
  - split; [lia|]. destruct buf; [done|cbn; lia].
  - apply orb_false_iff in Hs as [_ Hs]. apply Nat.ltb_ge in Hs. pose proof chunk_bounds.
    destruct (cut_at_spec buf) as [Hc _]; [lia|]. lia.
Qed.
Lemma cut_pieces_fuel fuel bytes : (String.length bytes ≤ fuel)%nat → cut_pieces fuel bytes = pieces_of bytes.
Proof.
  unfold pieces_of. remember (String.length bytes) as n eqn:Hn. assert (String.length bytes ≤ n)%nat as Hle by lia. clear Hn.
  intros Hfuel. revert fuel bytes Hle Hfuel. induction n as [|n IH]; intros [|fuel] bytes Hle Hfuel; cbn; try done; try lia.
  - destruct bytes; [done|]. cbn in Hle. lia.
  - case_bool_decide as Hb; [done|]. f_equal. apply IH; [|lia].
    destruct (piece_length_le (window bytes)) as [_ H1]. rewrite str_drop_length. specialize (H1 ltac:(by intros ?%window_nil)). lia.
Qed.
(** The first piece, and the rest. *)
Lemma pieces_of_cons bytes : bytes ≠ "" →
  let n := piece_length (window bytes) in
  pieces_of bytes = str_take n bytes :: pieces_of (str_drop n bytes) ∧ (1 ≤ n ≤ String.length bytes)%nat.
Proof.
  intros Hb. cbn zeta. destruct (piece_length_le (window bytes)) as [Hle H1]. specialize (H1 ltac:(by intros ?%window_nil)).
  rewrite window_length in Hle. pose proof (line_length_le bytes). split; [|lia].
  unfold pieces_of at 1. destruct (String.length bytes) as [|n] eqn:Hlen; [by destruct bytes|]. cbn [cut_pieces].
  rewrite bool_decide_eq_false_2 by done. f_equal. apply cut_pieces_fuel. rewrite str_drop_length. lia.
Qed.

Lemma without_end_open buf : last_is newline buf = false → without_end buf = buf.
Proof.
  intros Hl. unfold without_end. destruct (strip_suffix _ buf) as [b|] eqn:Hs; [|done]. apply strip_suffix_Some in Hs.
  apply not_true_iff_false in Hl. destruct Hl. apply last_is_true. by exists b.
Qed.
Lemma last_is_take n s : one_line s → (n < String.length s)%nat → last_is newline (str_take n s) = false.
Proof.
  intros Hs Hn. apply not_true_iff_false. intros [b Hb]%last_is_true. unfold one_line in Hs.
  pose proof (line_length_app (str_take n s) (str_drop n s)) as Happ. rewrite str_take_drop in Happ.
  rewrite (proj2 (last_is_true _ _) (ex_intro _ b Hb)) in Happ. rewrite str_take_length in Happ.
  rewrite Happ in Hs; [lia|]. unfold one_line. rewrite line_length_take, str_take_length. lia.
Qed.
Lemma take_piece_spec lossy buf : one_line buf → buf ≠ "" →
  take_piece lossy buf = (lossy (without_end (str_take (piece_length buf) buf)), str_drop (piece_length buf) buf).
Proof.
  intros Hline Hne. unfold take_piece, piece_length. destruct (last_is newline buf) eqn:Hl; cbn [orb].
  - by rewrite str_take_all, str_drop_all by lia.
  - rewrite Nat.ltb_antisym. destruct (Nat.leb_spec MAX_OUTPUT_CHUNK (String.length buf)) as [Hlong|Hshort]; cbn [negb].
    + pose proof chunk_bounds. destruct (cut_at_spec buf) as [Hc _]; [lia|]. rewrite without_end_open; [done|].
      apply last_is_take; [done|]. assert (0 < MARKER_TAIL)%nat by (cbv; lia). lia.
    + rewrite str_take_all, str_drop_all by lia. by rewrite without_end_open.
Qed.

Lemma read_pieces_spec lossy fuel now pipe buf read :
  readable pipe → in_range pipe read → one_line buf → (String.length buf ≤ MAX_OUTPUT_CHUNK)%nat → ends pipe read →
  (String.length (buf +:+ visible pipe read) < fuel)%nat →
  read_pieces lossy fuel now pipe buf read
  = (map (λ piece, lossy (without_end piece)) (pieces_of (buf +:+ visible pipe read)), AtEnd).
Proof.
  revert pipe buf read. induction fuel as [|fuel IH]; intros pipe buf read Hr Hrange Hline Hle Hends Hfuel; [lia|]. cbn [read_pieces].
  unfold fill_piece. pose proof (fill_loop_spec (MAX_OUTPUT_CHUNK + 1) now pipe buf read Hr Hrange Hline Hle ltac:(lia)) as Hf.
  destruct (fill_loop _ _ _ _ _) as [filled [[pipe1 buf1] read1]]. destruct Hf as (Hr1 & Hrange1 & Hends1 & Hsame & Hwhat).
  destruct filled; [|by destruct Hwhat as [-> ->]|done|done].
  destruct Hwhat as [Hbuf Hne].
  assert (buf +:+ visible pipe read ≠ "") as Htotal by (intros He; rewrite He in Hbuf; by subst buf1).
  destruct (pieces_of_cons _ Htotal) as [Hpieces Hn]. rewrite <-Hbuf in Hpieces, Hn.
  assert (one_line buf1) as Hline1 by (rewrite Hbuf; apply window_one_line).
  rewrite (take_piece_spec _ _ Hline1 Hne). destruct (piece_length_le buf1) as [Hlen _].
  rewrite <-Hsame in Hpieces, Hn, Hfuel |- *. rewrite str_take_app_l, str_drop_app_l in Hpieces by done.
  rewrite IH; [by rewrite Hpieces|done|done|by apply one_line_drop| |by apply Hends1|].
  - rewrite str_drop_length, Hbuf, window_length. lia.
  - rewrite !str_length_app, str_drop_length in *. lia.
Qed.

(** ** Valid text is cut between characters *)

Lemma byte_in_true lo hi a : byte_in lo hi a = true ↔ (lo ≤ nat_of_ascii a ≤ hi)%nat.
Proof. unfold byte_in. rewrite andb_true_iff, !Nat.leb_le. lia. Qed.
Lemma not_continuation lo hi a : byte_in lo hi a = true → (hi < 128)%nat ∨ (191 < lo)%nat → is_continuation a = false.
Proof.
  intros Ha Hr. apply byte_in_true in Ha. apply not_true_iff_false. unfold is_continuation. rewrite byte_in_true. lia.
Qed.
Lemma continuation_within lo hi a : byte_in lo hi a = true → (128 ≤ lo)%nat → (hi ≤ 191)%nat → is_continuation a = true.
Proof. intros Ha Hlo Hhi. apply byte_in_true in Ha. unfold is_continuation. apply byte_in_true. lia. Qed.

(** The first character of a valid text, and the rest. *)
Lemma valid_utf8_cons s : valid_utf8 s = true → s ≠ "" →
  ∃ a t rest, s = String a (t +:+ rest) ∧ is_continuation a = false ∧ all_bytes is_continuation t = true
    ∧ (String.length t ≤ 3)%nat ∧ valid_utf8 rest = true
    ∧ ∀ rest', valid_utf8 rest' = true → valid_utf8 (String a (t +:+ rest')) = true.
Proof.
  destruct s as [|a s1]; [done|]. cbn [valid_utf8]. intros Hv _.
  destruct (byte_in 0 127 a) eqn:Ha1.
  { exists a, "", s1. conjs; [done|eapply not_continuation; [done|lia]|done|cbn; lia|done|]. intros r Hr. rewrite ?str_app_cons, str_app_nil_l. cbn [valid_utf8]. by rewrite Ha1. }
  destruct s1 as [|b s2]; [done|]. destruct (byte_in 194 223 a) eqn:Ha2.
  { apply andb_true_iff in Hv as [Hb Hv]. exists a, (String b ""), s2.
    conjs; [done|eapply not_continuation; [done|lia]|cbn; by rewrite Hb|cbn; lia|done|]. intros r Hr. rewrite ?str_app_cons, str_app_nil_l. cbn [valid_utf8]. by rewrite Ha1, Ha2, Hb. }
  destruct s2 as [|c s3]; [done|].
  destruct ((if byte_in 224 224 a then byte_in 160 191 b else if byte_in 237 237 a then byte_in 128 159 b
             else byte_in 225 239 a && is_continuation b) && is_continuation c) eqn:Ha3.
  { exists a, (String b (String c "")), s3. apply andb_true_iff in Ha3 as Hsplit. destruct Hsplit as [Hb Hc].
    assert (is_continuation a = false ∧ is_continuation b = true) as [Hna Hnb].
    { destruct (byte_in 224 224 a) eqn:H224; [split; [eapply not_continuation; [done|lia]|eapply continuation_within; [done|lia|lia]]|].
      destruct (byte_in 237 237 a) eqn:H237; [split; [eapply not_continuation; [done|lia]|eapply continuation_within; [done|lia|lia]]|].
      apply andb_true_iff in Hb as [H225 Hb]. split; [eapply not_continuation; [done|lia]|done]. }
    conjs; [done|done|cbn; by rewrite Hnb, Hc|cbn; lia|done|]. intros r Hr. rewrite ?str_app_cons, str_app_nil_l. cbn [valid_utf8]. by rewrite Ha1, Ha2, Ha3. }
  destruct s3 as [|d s4]; [done|]. apply andb_true_iff in Hv as [Hd Hv].
  exists a, (String b (String c (String d ""))), s4. apply andb_true_iff in Hd as Hsplit. destruct Hsplit as [Hc' Hd'].
  apply andb_true_iff in Hc' as [Hb Hc].
  assert (is_continuation a = false ∧ is_continuation b = true) as [Hna Hnb].
  { destruct (byte_in 240 240 a) eqn:H240; [split; [eapply not_continuation; [done|lia]|eapply continuation_within; [done|lia|lia]]|].
    destruct (byte_in 244 244 a) eqn:H244; [split; [eapply not_continuation; [done|lia]|eapply continuation_within; [done|lia|lia]]|].
    apply andb_true_iff in Hb as [H241 Hb]. split; [eapply not_continuation; [done|lia]|done]. }
  conjs; [done|done|cbn; by rewrite Hnb, Hc, Hd'|cbn; lia|done|]. intros r Hr. rewrite ?str_app_cons, str_app_nil_l. cbn [valid_utf8]. by rewrite Ha1, Ha2, Ha3, Hd.
Qed.

(** A valid text cut before a character leaves two. *)
Lemma valid_utf8_app s t : valid_utf8 (s +:+ t) = true → starts_char t = true → valid_utf8 s = true ∧ valid_utf8 t = true.
Proof.
  remember (String.length s) as n eqn:Hn. revert s Hn. induction n as [n IH] using lt_wf_ind. intros s -> Hv Ht.
  destruct (decide (s = "")) as [->|Hs]; [done|].
  destruct (valid_utf8_cons _ Hv) as (a & u & rest & Heq & Ha & Hu & _ & Hrest & Hany); [by destruct s|].
  destruct s as [|a' s]; [done|]. rewrite str_app_cons in Heq. injection Heq as -> Heq.
  destruct (decide (String.length u ≤ String.length s)%nat) as [Hle|Hgt].
  - pose proof (f_equal (str_drop (String.length u)) Heq) as Hd. rewrite str_drop_app, str_drop_app_l in Hd by done.
    pose proof (f_equal (str_take (String.length u)) Heq) as Htk. rewrite str_take_app, str_take_app_l in Htk by done.
    destruct (IH (String.length (str_drop (String.length u) s))) with (s := str_drop (String.length u) s) as [Hv1 Hv2].
    + rewrite str_drop_length. cbn. lia.
    + done.
    + by rewrite Hd.
    + done.
    + split; [|done]. rewrite <-(str_take_drop (String.length u) s), Htk. by apply Hany.
  - exfalso. pose proof (f_equal (str_drop (String.length s)) Heq) as Hd. rewrite str_drop_app, str_drop_app_l in Hd by lia.
    assert (∀ n v, all_bytes is_continuation v = true → all_bytes is_continuation (str_drop n v) = true) as Hdrop.
    { clear. induction n as [|n IH]; intros [|b v]; cbn; try done. intros [_ Hv]%andb_true_iff. by apply IH. }
    specialize (Hdrop (String.length s) u Hu). pose proof (str_drop_length (String.length s) u) as Hl.
    destruct (str_drop (String.length s) u) as [|b v]; [cbn in Hl; lia|]. cbn [all_bytes] in Hdrop. apply andb_true_iff in Hdrop as [Hb _].
    rewrite Hd, str_app_cons in Ht. unfold starts_char in Ht. by rewrite Hb in Ht.
Qed.

Lemma starts_here_drop s i : (i < String.length s)%nat → starts_here s i = starts_char (str_drop i s).
Proof.
  unfold starts_here. revert i. induction s as [|a s IH]; intros [|i] Hi; cbn in *; try done; try lia. apply IH. lia.
Qed.
(** Of four bytes in a row of a valid text, one starts a character. *)
Lemma valid_utf8_starts s i : valid_utf8 s = true → (i + 3 < String.length s)%nat →
  ∃ j, (i ≤ j ≤ i + 3)%nat ∧ starts_here s j = true.
Proof.
  remember (String.length s) as n eqn:Hn. revert s i Hn. induction n as [n IH] using lt_wf_ind. intros s i -> Hv Hi.
  destruct (valid_utf8_cons s Hv) as (a & u & rest & -> & Ha & _ & Hu & Hrest & _); [by intros ->; cbn in Hi; lia|].
  cbn [String.length] in Hi. rewrite str_length_app in Hi.
  destruct (decide (i = 0%nat)) as [->|Hi0]; [exists 0%nat; unfold starts_here; cbn; rewrite Ha; by split; [lia|]|].
  assert (∀ k, starts_here (String a (u +:+ rest)) (S (String.length u) + k) = starts_here rest k) as Hshift.
  { intros k. unfold starts_here. cbn. clear. induction u as [|b u IH]; cbn; [done|]. apply IH. }
  destruct (decide (i ≤ String.length u)%nat) as [Hle|Hgt].
  - exists (S (String.length u) + 0)%nat. rewrite Hshift. split; [lia|].
    destruct (valid_utf8_cons rest Hrest) as (b & v & rest' & -> & Hb & _); [by intros ->; cbn in Hi; lia|].
    unfold starts_here. cbn. by rewrite Hb.
  - destruct (IH (String.length rest)) with (s := rest) (i := (i - S (String.length u))%nat) as (j & Hj & Hs);
      [cbn; rewrite str_length_app; lia|done|done|lia|].
    exists (S (String.length u) + j)%nat. rewrite Hshift. split; [lia|done].
Qed.

Lemma valid_starts_char s : valid_utf8 s = true → starts_char s = true.
Proof.
  intros Hv. destruct (decide (s = "")) as [->|Hs]; [done|].
  destruct (valid_utf8_cons s Hv Hs) as (a & t & rest & -> & Ha & _). unfold starts_char. by rewrite Ha.
Qed.
Lemma starts_here_take n s j : (j < n)%nat → starts_here (str_take n s) j = starts_here s j.
Proof.
  unfold starts_here. revert s j. induction n as [|n IH]; intros [|a s] [|j] Hj; cbn; try done; try lia. apply IH. lia.
Qed.
(** A piece ends where a character does. *)
Lemma piece_cut_between bytes : valid_utf8 bytes = true → bytes ≠ "" →
  starts_char (str_drop (piece_length (window bytes)) bytes) = true.
Proof.
  intros Hv Hne. unfold piece_length. destruct (last_is newline (window bytes)) eqn:Hl; cbn [orb].
  - apply last_is_true in Hl as [b Hb]. pose proof (window_app bytes) as Happ. rewrite Hb, str_app_assoc in Happ at 1.
    rewrite <-Happ in Hv. apply valid_utf8_app in Hv as [_ Hv]; [|done]. apply valid_starts_char. exact Hv.
  - destruct (Nat.ltb_spec (String.length (window bytes)) MAX_OUTPUT_CHUNK) as [Hs|Hlong].
    + rewrite str_drop_all; [done|]. rewrite window_length in *. rewrite <-line_length_find.
      destruct (str_find (String newline "") bytes) as [at_|] eqn:Hfind.
      * exfalso. assert (line_length bytes = S at_) as Hll by (rewrite <-line_length_find; by rewrite Hfind).
        unfold window in Hl. rewrite Hll in *. unfold str_find in Hfind.
        destruct (split_once _ bytes) as [[b rest]|] eqn:Hso; [|done]. injection Hfind as <-.
        apply split_once_Some in Hso as ->. apply not_true_iff_false in Hl. destruct Hl. apply last_is_true. exists b.
        rewrite Nat.min_r by lia. replace (S (String.length b)) with (String.length b + 1)%nat by lia. by rewrite str_take_app_r.
      * pose proof (line_length_le bytes). assert (line_length bytes = String.length bytes) by (rewrite <-line_length_find; by rewrite Hfind). lia.
    + pose proof chunk_bounds. destruct (cut_at_spec (window bytes)) as [Hc Hs]; [lia|].
      assert (∀ j, (j ≤ String.length (window bytes) - MARKER_TAIL)%nat → starts_here (window bytes) j = starts_here bytes j) as Hsame.
      { intros j Hj. unfold window at 1. apply starts_here_take. rewrite <-window_length. change MARKER_TAIL with 64 in *. lia. }
      pose proof (window_length bytes). pose proof (line_length_le bytes). change MARKER_TAIL with 64 in *.
      rewrite <-starts_here_drop by lia. destruct Hs as [Hs|Hs]; [by rewrite <-Hsame by lia|].
      destruct (valid_utf8_starts bytes (String.length (window bytes) - 64 - 3)) as (j & Hj & Hj'); [done|lia|].
      rewrite <-Hsame, Hs in Hj' by lia. done.
Qed.

(** Where the first line of a text with a newline in it ends. *)
Lemma line_length_before u v :
  last_is newline (str_take (line_length (u +:+ String newline v)) (u +:+ String newline v)) = true
  ∧ (line_length (u +:+ String newline v) ≤ S (String.length u))%nat.
Proof.
  induction u as [|a u [IH1 IH2]]; [done|]. rewrite str_app_cons. cbn [line_length str_take String.length].
  destruct (Ascii.eqb_spec a newline) as [-> |Ha]; [split; [done|lia]|]. cbn [str_take]. rewrite last_is_cons by done. split; [done|lia].
Qed.
Lemma line_length_open s t : contains (String newline "") s = false → line_length (s +:+ t) = (String.length s + line_length t)%nat.
Proof.
  induction s as [|a s IH]; [done|]. rewrite contains_char_cons, str_app_cons. cbn [line_length String.length].
  rewrite Ascii.eqb_sym. intros [Ha Hs]%orb_false_iff. by rewrite Ha, IH.
Qed.
Lemma line_length_split s t : (line_length (s +:+ t) ≤ String.length s)%nat ∨ line_length (s +:+ t) = (String.length s + line_length t)%nat.
Proof.
  induction s as [|a s IH]; [by right|]. rewrite str_app_cons. cbn [line_length String.length].
  destruct (Ascii.eqb a newline); [left; lia|]. destruct IH; [left|right]; lia.
Qed.

Lemma concat_cons x l : String.concat "" (x :: l) = x +:+ String.concat "" l.
Proof. cbn [String.concat]. destruct l; [by rewrite str_app_nil_r|done]. Qed.

(** A short end of a line is never cut: the piece it's in ends with the line. *)
Lemma mark_whole pre mark post :
  contains (String newline "") mark = false → (String.length mark ≤ MARKER_TAIL)%nat →
  ∃ ps before qs, pieces_of (pre +:+ mark +:+ String newline post) = app ps ((before +:+ mark +:+ String newline "") :: qs)
    ∧ String.concat "" ps +:+ before = pre.
Proof.
  intros Hmark Hshort. remember (String.length pre) as k eqn:Hk. revert pre Hk.
  induction k as [k IH] using lt_wf_ind. intros pre ->. set (bytes := pre +:+ mark +:+ String newline post).
  assert (bytes ≠ "") as Hne by (unfold bytes; destruct pre; [by destruct mark|done]).
  destruct (pieces_of_cons bytes Hne) as [Hpieces Hn]. set (n := piece_length (window bytes)) in *.
  assert (String.length bytes = String.length pre + String.length mark + S (String.length post))%nat as Hlen
    by (unfold bytes; rewrite !str_length_app; cbn; lia).
  assert (n ≤ String.length pre ∨ n = String.length pre + String.length mark + 1)%nat as [Hle|Heq].
  { destruct (line_length_before (pre +:+ mark) post) as [Hl Hbound]. rewrite str_app_assoc in Hl, Hbound.
    change (pre +:+ mark +:+ String newline post) with bytes in Hl, Hbound. rewrite str_length_app in Hbound.
    assert (line_length bytes ≤ String.length pre ∨ line_length bytes = String.length pre + String.length mark + 1)%nat as Hcases.
    { unfold bytes. destruct (line_length_split pre (mark +:+ String newline post)) as [H|H]; [by left|right].
      rewrite H, line_length_open by done. change (line_length (String newline post)) with 1%nat. lia. }
    unfold n, piece_length. pose proof (window_length bytes) as Hw. pose proof chunk_bounds.
    destruct (last_is newline (window bytes)) eqn:Hlw; cbn [orb].
    - destruct (decide (line_length bytes ≤ MAX_OUTPUT_CHUNK)%nat); [lia|]. exfalso.
      rewrite Nat.min_l in Hw by lia. assert (last_is newline (window bytes) = false); [|congruence].
      assert (window bytes = str_take MAX_OUTPUT_CHUNK (str_take (line_length bytes) bytes)) as ->.
      { unfold window. rewrite Nat.min_l by lia. rewrite <-(str_take_drop (line_length bytes) bytes) at 1.
        apply str_take_app_l. rewrite str_take_length. pose proof (line_length_le bytes). lia. }
      pose proof (line_length_le bytes).
      apply last_is_take; [|rewrite str_take_length; lia]. unfold one_line. rewrite line_length_take, str_take_length. lia.
    - destruct (decide (line_length bytes ≤ MAX_OUTPUT_CHUNK)%nat) as [Hs|Hbig].
      + exfalso. unfold window in Hlw. rewrite Nat.min_r in Hlw by done. congruence.
      + destruct (Nat.ltb_spec (String.length (window bytes)) MAX_OUTPUT_CHUNK); [lia|].
        destruct (cut_at_spec (window bytes)) as [Hc _]; [lia|]. left. lia. }
  - destruct (IH (String.length (str_drop n pre))) with (pre := str_drop n pre) as (ps & before & qs & Hrest & Hpre);
      [rewrite str_drop_length; lia|done|].
    exists (str_take n pre :: ps), before, qs. rewrite Hpieces. unfold bytes. rewrite str_take_app_l, str_drop_app_l, Hrest by done.
    split; [done|]. by rewrite concat_cons, str_app_assoc, Hpre, str_take_drop.
  - exists [], pre, (pieces_of post). rewrite Hpieces, Heq. unfold bytes. split; [|done].
    assert (pre +:+ mark +:+ String newline post = (pre +:+ mark +:+ String newline "") +:+ post) as -> by (rewrite !str_app_assoc; done).
    assert (String.length pre + String.length mark + 1 = String.length (pre +:+ mark +:+ String newline ""))%nat as ->
      by (rewrite !str_length_app; cbn; lia).
    by rewrite str_take_app, str_drop_app.
Qed.

(** ** The properties *)

(** What a shell writes is cut into the same pieces however it arrives.  Whatever reads
    a pipe gives its bytes in, and wherever the waits for more fall between them, the pieces
    taken are those of the bytes alone, and the reader then sees the end; of an ended
    shell's pipe, exactly what was in it when the shell was reaped is read, and nothing a
    job writes after. *)
Theorem reads_do_not_matter (lossy : string → string) (fuel : nat) now pipe read
    (Hreads : readable pipe) (Hrange : in_range pipe read) (Hends : ends pipe read)
    (Hfuel : (String.length (visible pipe read) < fuel)%nat) :
  read_pieces lossy fuel now pipe "" read
  = (map (λ piece, lossy (without_end piece)) (pieces_of (visible pipe read)), AtEnd).
Proof. exact (read_pieces_spec lossy fuel now pipe "" read Hreads Hrange eq_refl ltac:(cbn; lia) Hends Hfuel). Qed.

(** The pieces sent of a shell's output are all of it, in order, none empty or too long,
    each within one line; a marker at a line's end is never split between two; and valid
    text is cut only between characters, so no character is lost in decoding a piece. *)
Theorem pieces_are_whole (bytes : string) :
  let pieces := pieces_of bytes in
  String.concat "" pieces = bytes
  ∧ Forall (λ piece, piece ≠ "" ∧ one_line piece ∧ (String.length piece ≤ MAX_OUTPUT_CHUNK)%nat) pieces
  ∧ (∀ pre mark post,
       bytes = pre +:+ mark +:+ String newline post → contains (String newline "") mark = false →
       (String.length mark ≤ MARKER_TAIL)%nat →
       ∃ ps before qs, pieces = app ps ((before +:+ mark +:+ String newline "") :: qs)
         ∧ String.concat "" ps +:+ before = pre)
  ∧ (valid_utf8 bytes = true → Forall (λ piece, valid_utf8 piece = true) pieces).
Proof.
  cbn zeta. conjs.
  - remember (String.length bytes) as k eqn:Hk. revert bytes Hk. induction k as [k IH] using lt_wf_ind. intros bytes ->.
    destruct (decide (bytes = "")) as [->|Hne]; [done|]. destruct (pieces_of_cons bytes Hne) as [-> Hn].
    rewrite concat_cons, (IH (String.length (str_drop (piece_length (window bytes)) bytes))); [apply str_take_drop|rewrite str_drop_length; lia|done].
  - remember (String.length bytes) as k eqn:Hk. revert bytes Hk. induction k as [k IH] using lt_wf_ind. intros bytes ->.
    destruct (decide (bytes = "")) as [->|Hne]; [done|]. destruct (pieces_of_cons bytes Hne) as [-> Hn].
    destruct (piece_length_le (window bytes)) as [Hle _]. constructor.
    + rewrite <-window_take by done. conjs.
      * intros He. apply (f_equal String.length) in He. rewrite str_take_length in He. cbn in He. lia.
      * unfold one_line. rewrite line_length_take, str_take_length. by rewrite (window_one_line bytes).
      * rewrite str_take_length, window_length. lia.
    + eapply IH; [|done]. rewrite str_drop_length. lia.
  - intros pre mark post -> Hmark Hshort. by apply mark_whole.
  - remember (String.length bytes) as k eqn:Hk. revert bytes Hk. induction k as [k IH] using lt_wf_ind. intros bytes -> Hv.
    destruct (decide (bytes = "")) as [->|Hne]; [done|]. destruct (pieces_of_cons bytes Hne) as [-> Hn].
    pose proof (piece_cut_between bytes Hv Hne) as Hcut. rewrite <-(str_take_drop (piece_length (window bytes)) bytes) in Hv at 1.
    apply valid_utf8_app in Hv as [Hv1 Hv2]; [|done]. constructor; [done|]. eapply IH; [|done|done]. rewrite str_drop_length. lia.
Qed.

(** A shell reaped with [done] and a newline in its pipe, which a job then writes on to. *)
Definition held_pipe : Pipe := Build_Pipe "" [Some "bui"; Some "lding"; Some ("!" +:+ String newline "done" +:+ String newline "job")] false.
Definition reaped_read : ReadSoFar := end_at 0 (Some 15) default_read.

Lemma reads_do_not_matter_witness :
  visible held_pipe reaped_read = "building!" +:+ String newline "done" +:+ String newline ""
  ∧ read_pieces id 20 0 held_pipe "" reaped_read = (["building!"; "done"], AtEnd).
Proof.
  assert (visible held_pipe reaped_read = "building!" +:+ String newline "done" +:+ String newline "") as Hv by (vm_compute; reflexivity).
  split; [exact Hv|]. rewrite (reads_do_not_matter id 20 0 held_pipe reaped_read).
  - rewrite Hv. vm_compute. reflexivity.
  - repeat constructor; discriminate.
  - vm_compute. split; discriminate.
  - right. exists 15%Z. split; [reflexivity|]. vm_compute. lia.
  - rewrite Hv. vm_compute. lia.
Defined.
