(* ===== verification/AgentFiles.v ===== *)
(** * AgentFiles: the sandbox agent's file operations

    [src/src/bin/sandbox_agent/files.rs]: reading, writing and editing a file against a
    content hash, listing a directory, and the glob and grep walks, with their replies
    (AgentProtocol).

    The file system is an interface [FileSystem] with the laws the operations rely on; what
    a walk or a directory finds is the list of entries it yields, errors included.  SHA-256,
    the compiled glob and regex and the operating system's error texts are parameters.  A
    handler's calls run one after the other: another process writing between a handler's
    hash check and its write isn't modelled. *)

From S2P Require Import Prelude RustStr AgentProtocol.
Local Open Scope string_scope.

(** ** Limits *)

Definition reply_error (message : string) : Reply := ReplyError message.

Definition MAX_FILE_SIZE_BYTES : Z := 262144.
Definition MAX_DIR_ENTRIES : nat := 1000.
Definition MAX_GREP_FILE_SIZE_BYTES : Z := 5242880.
Definition MAX_GLOB_SCAN : nat := 2000.
Definition MAX_GREP_SCAN : nat := 1000.

(** ** Editing a text *)

(** Each pass of the loop finds one match at or after [search_from], and looks on past it. *)
Fixpoint matches_from (fuel : nat) (haystack needle : string) (search_from : nat) : list nat :=
  match fuel with
  | O => []
  | S fuel =>
      match str_find needle (str_drop search_from haystack) with
      | None => []
      | Some pos =>
          let offset := (search_from + pos)%nat in
          offset :: matches_from fuel haystack needle (offset + String.length needle)
      end
  end.
Definition find_matches (haystack needle : string) : list nat :=
  if bool_decide (needle = "") then [] else matches_from (S (String.length haystack)) haystack needle 0.

Definition count_newlines (s : string) : nat := length (List.filter (λ a, Ascii.eqb a newline) (String.list_ascii_of_string s)).
Definition byte_offset_to_line (text : string) (offset : nat) : Z :=
  u32_add 1 (Z.of_nat (count_newlines (str_take offset text)) `mod` 4294967296).

Inductive EditError := NotFound | Ambiguous (count : nat) | NoMatchAtLine (line : Z).

(** [content.replace(old, new)]. *)
Definition replace_str (old new content : string) : string := join new (split_str old content).

Definition replace_at (content old new : string) (offset : nat) : string :=
  str_take offset content +:+ new +:+ str_drop (offset + String.length old) content.

Definition apply_edit (content old_string new_string : string) (replace_all : bool) (expected_line : option Z)
    : Result string EditError :=
  match find_matches content old_string with
  | [] => Err NotFound
  | first :: rest =>
      let matches := first :: rest in
      if replace_all then Ok (replace_str old_string new_string content)
      else
        let? offset :=
          match expected_line with
          | Some line =>
              match List.find (λ offset, (byte_offset_to_line content offset =? line)%Z) matches with
              | Some offset => Ok offset
              | None => Err (NoMatchAtLine line)
              end
          | None => if (1 <? length matches)%nat then Err (Ambiguous (length matches)) else Ok first
          end in
        Ok (replace_at content old_string new_string offset)
  end.

Definition edit_error_message (err : EditError) : string :=
  match err with
  | NotFound => "old_string not found in file"
  | Ambiguous count =>
      "old_string matches " +:+ show_unsigned (Z.of_nat count)
      +:+ " times; add more surrounding context, set replace_all, or set expected_line to target one occurrence"
  | NoMatchAtLine line => "old_string does not match at line " +:+ show_unsigned line
  end.

(** ** Pages *)

Definition paginate_slice {T} (items : list T) (offset limit : Z) : list T * nat :=
  (take (Z.to_nat limit) (drop (Z.to_nat (sat_sub offset 1)) items), length items).
Definition paginate_lines (content : string) (offset limit : Z) : list string * nat :=
  let all_lines := str_lines content in
  let total := length all_lines in
  (take (Z.to_nat limit) (drop (Z.to_nat (sat_sub offset 1)) all_lines), total).

(** [sort_by(|a, b| a.name.cmp(&b.name))]. *)
Definition sort_entries (entries : list DirEntry) : list DirEntry :=
  sort_by (λ a b, str_le (de_name a) (de_name b)) entries.

(** ** Paths *)

(** [Path::new(path).parent()], written with single separators: the components but the
    last, where empty and later [.] ones don't count. *)
Definition path_components (path : string) : list string :=
  match split_on (λ a, Ascii.eqb a "/") path with
  | [] => []
  | first :: rest =>
      app (if bool_decide (first = "") then [] else [first])
        (List.filter (λ c, negb (bool_decide (c = "")) && negb (bool_decide (c = "."))) rest)
  end.
Definition path_parent (path : string) : option string :=
  match reverse (path_components path) with
  | [] => None
  | _ :: before =>
      Some ((if starts_with "/" path then "/" else "") +:+ join "/" (reverse before))
  end.

(** ** The file system *)

(** [fs_read], [fs_write] and [fs_create_dirs] fail with the operating system's text; what
    a failed write leaves is the file system's. *)
Class FileSystem (F : Type) := {
  fs_read : string → F → Result string string;
  fs_write : string → string → F → Result unit string * F;
  fs_create_dirs : string → F → Result unit string * F;
}.
Class FileSystemLaws (F : Type) `{FileSystem F} := {
  fs_read_written path bytes fs fs' : fs_write path bytes fs = (Ok (), fs') → fs_read path fs' = Ok bytes;
}.

Section Handlers.
Context {F : Type} `{FileSystemLaws F}.
(** SHA-256 of the bytes, in hex. *)
Variable hash_content : string → string.

(** ** Reading, writing and editing *)

Definition too_long (path : string) : string :=
  path +:+ " exceeds the " +:+ show_unsigned MAX_FILE_SIZE_BYTES +:+ "-byte size limit".

Definition handle_read_file (path : string) (offset limit : Z) (fs : F) : Reply :=
  match fs_read path fs with
  | Err e => reply_error ("failed to read " +:+ path +:+ ": " +:+ e)
  | Ok bytes =>
      if (MAX_FILE_SIZE_BYTES <? str_len bytes)%Z then reply_error (too_long path)
      else if negb (valid_utf8 bytes) then reply_error (path +:+ " is not valid UTF-8")
      else
        let '(lines, total_lines) := paginate_lines bytes offset limit in
        FileRead (Build_FileContents lines total_lines (hash_content bytes))
  end.

Definition changed (path expected current verb : string) : string :=
  path +:+ " has changed since it was last read (expected hash " +:+ expected +:+ ", found " +:+ current
  +:+ "); read_file again before " +:+ verb.

(** The hash check of [handle_write_file]: why it refuses. *)
Definition write_refused (path : string) (expected_hash : option string) (fs : F) : option string :=
  match expected_hash with
  | None => None
  | Some expected =>
      match fs_read path fs with
      | Ok current =>
          if bool_decide (hash_content current = expected) then None
          else Some (changed path expected (hash_content current) "writing")
      | Err e => Some ("failed to read " +:+ path +:+ " for hash check: " +:+ e)
      end
  end.
(** The parent directories, where the path names some. *)
Definition create_parents (path : string) (fs : F) : Result unit string * F :=
  match path_parent path with
  | Some parent => if bool_decide (parent = "") then (Ok (), fs) else fs_create_dirs parent fs
  | None => (Ok (), fs)
  end.

Definition handle_write_file (path content : string) (expected_hash : option string) (fs : F) : Reply * F :=
  if (MAX_FILE_SIZE_BYTES <? str_len content)%Z then
    (reply_error ("content exceeds the " +:+ show_unsigned MAX_FILE_SIZE_BYTES +:+ "-byte size limit"), fs)
  else
    match write_refused path expected_hash fs with
    | Some why => (reply_error why, fs)
    | None =>
        match create_parents path fs with
        | (Err e, fs) => (reply_error ("failed to create parent directories for " +:+ path +:+ ": " +:+ e), fs)
        | (Ok _, fs) =>
            match fs_write path content fs with
            | (Err e, fs) => (reply_error ("failed to write " +:+ path +:+ ": " +:+ e), fs)
            | (Ok _, fs) => (FileWritten (hash_content content), fs)
            end
        end
    end.

Definition handle_edit_file (path old_string new_string : string) (replace_all : bool) (expected_hash : string)
    (expected_line : option Z) (fs : F) : Reply * F :=
  match fs_read path fs with
  | Err e => (reply_error ("failed to read " +:+ path +:+ ": " +:+ e), fs)
  | Ok bytes =>
      let current_hash := hash_content bytes in
      if negb (bool_decide (current_hash = expected_hash)) then
        (reply_error (changed path expected_hash current_hash "editing"), fs)
      else if negb (valid_utf8 bytes) then (reply_error (path +:+ " is not valid UTF-8"), fs)
      else
        match apply_edit bytes old_string new_string replace_all expected_line with
        | Err edit_err => (reply_error (edit_error_message edit_err), fs)
        | Ok new_content =>
            match fs_write path new_content fs with
            | (Err e, fs) => (reply_error ("failed to write " +:+ path +:+ ": " +:+ e), fs)
            | (Ok _, fs) => (FileEdited (hash_content new_content), fs)
            end
        end
  end.

(** ** Listing a directory *)

(** What [next_entry] yields of an entry: its lossy name, whether its type is a directory's
    (no, when it couldn't be asked), its length when that can be. *)
Record RawEntry := { re_name : string; re_is_dir : bool; re_len : option Z }.

Definition list_failed (path e : string) : string := "failed to read directory " +:+ path +:+ ": " +:+ e.

Fixpoint list_entries (path : string) (found : list (Result RawEntry string)) (entries : list DirEntry)
    : Result (list DirEntry) string :=
  match found with
  | [] => Ok entries
  | Err e :: _ => Err (list_failed path e)
  | Ok entry :: found =>
      if (MAX_DIR_ENTRIES <=? length entries)%nat then
        Err (path +:+ " has more than " +:+ show_unsigned (Z.of_nat MAX_DIR_ENTRIES) +:+ " entries")
      else
        let size := if re_is_dir entry then None else re_len entry in
        list_entries path found (app entries [Build_DirEntry (re_name entry) (re_is_dir entry) size])
  end.
Definition handle_list_directory (path : string) (read_dir : Result (list (Result RawEntry string)) string) : Reply :=
  match read_dir with
  | Err e => reply_error (list_failed path e)
  | Ok found =>
      match list_entries path found [] with
      | Err message => reply_error message
      | Ok entries => DirectoryListed (sort_entries entries)
      end
  end.

(** ** The walks *)

(** An entry the walk yields, or an error, skipped: its path relative to the root, the path
    as shown, whether it's a directory, its length and its bytes where they can be had. *)
Record Walked := {
  wk_relative : string;
  wk_path : string;
  wk_is_dir : bool;
  wk_len : option Z;
  wk_bytes : option string;
}.

Fixpoint walk_glob_from (is_match : string → bool) (walker : list (option Walked)) (paths : list string)
    : list string * bool :=
  match walker with
  | [] => (paths, false)
  | None :: walker => walk_glob_from is_match walker paths
  | Some entry :: walker =>
      if wk_is_dir entry then walk_glob_from is_match walker paths
      else if negb (is_match (wk_relative entry)) then walk_glob_from is_match walker paths
      else if (MAX_GLOB_SCAN <=? length paths)%nat then (paths, true)
      else walk_glob_from is_match walker (app paths [wk_path entry])
  end.
Definition walk_glob (is_match : string → bool) (walker : list (option Walked)) : list string * bool :=
  walk_glob_from is_match walker [].

(** One file's matches, up to [budget], and whether lines were left unchecked. *)
Fixpoint grep_lines (is_match : string → bool) (budget : nat) (i : nat) (lines : list string) (matches : list (Z * string))
    : list (Z * string) * bool :=
  match lines with
  | [] => (matches, false)
  | line :: lines =>
      if (budget <=? length matches)%nat then (matches, true)
      else
        let number := u32_add (Z.of_nat i `mod` 4294967296) 1 in
        grep_lines is_match budget (S i) lines (if is_match line then app matches [(number, line)] else matches)
  end.
Definition grep_content (content : string) (is_match : string → bool) (budget : nat) : list (Z * string) * bool :=
  grep_lines is_match budget 0 (str_lines content) [].

Definition too_large (size : Z) : string :=
  "too large (" +:+ show_unsigned size +:+ " bytes > " +:+ show_unsigned MAX_GREP_FILE_SIZE_BYTES +:+ " byte limit)".

(** What one entry adds: its matches and whether lines were left, or why it's skipped. *)
Definition grep_entry (is_match : string → bool) (glob : option (string → bool)) (budget : nat) (entry : Walked)
    : list GrepMatch * bool * list SkippedFile :=
  let nothing := ([], false, []) in
  if wk_is_dir entry then nothing
  else if match glob with Some g => negb (g (wk_relative entry)) | None => false end then nothing
  else
    match wk_len entry with
    | None => nothing
    | Some size =>
        if (MAX_GREP_FILE_SIZE_BYTES <? size)%Z then ([], false, [Build_SkippedFile (wk_path entry) (too_large size)])
        else
          match wk_bytes entry with
          | None => nothing
          | Some bytes =>
              if negb (valid_utf8 bytes) then ([], false, [Build_SkippedFile (wk_path entry) "binary"])
              else
                let '(file_matches, file_capped) := grep_content bytes is_match budget in
                (map (λ '(line, text), Build_GrepMatch (wk_path entry) line text) file_matches, file_capped, [])
          end
    end.
Fixpoint walk_grep_from (is_match : string → bool) (glob : option (string → bool)) (walker : list (option Walked))
    (matches : list GrepMatch) (scan_capped : bool) (skipped : list SkippedFile)
    : list GrepMatch * bool * list SkippedFile :=
  match walker with
  | [] => (matches, scan_capped, skipped)
  | entry :: walker =>
      if (MAX_GREP_SCAN <=? length matches)%nat then (matches, true, skipped)
      else
        match entry with
        | None => walk_grep_from is_match glob walker matches scan_capped skipped
        | Some entry =>
            let '(found, capped, left_out) := grep_entry is_match glob (MAX_GREP_SCAN - length matches) entry in
            walk_grep_from is_match glob walker (app matches found) (scan_capped || capped) (app skipped left_out)
        end
  end.
Definition walk_grep (is_match : string → bool) (glob : option (string → bool)) (walker : list (option Walked))
    : list GrepMatch * bool * list SkippedFile :=
  walk_grep_from is_match glob walker [] false [].

(** [compile_glob_pattern]'s and [compile_grep_pattern]'s errors; [debug_str]: [{:?}] of the
    pattern; [walk]: the tree as the walk yields it, or the join error. *)
Variable debug_str : string → string.
Definition compile_glob_pattern {M} (compiled : Result M string) (pattern : string) : Result M string :=
  map_err (λ e, "invalid glob pattern " +:+ debug_str pattern +:+ ": " +:+ e) compiled.
Definition compile_grep_pattern {M} (compiled : Result M string) (pattern : string) : Result M string :=
  map_err (λ e, "invalid regex pattern " +:+ debug_str pattern +:+ ": " +:+ e) compiled.
Definition WALK_FAILED : string := "internal error walking directory".

Definition handle_glob (compiled : Result (string → bool) string) (pattern : string) (offset limit : Z)
    (walk : option (list (option Walked))) : Reply :=
  match compile_glob_pattern compiled pattern with
  | Err e => reply_error e
  | Ok matcher =>
      match walk with
      | None => reply_error WALK_FAILED
      | Some walker =>
          let '(all_paths, scan_capped) := walk_glob matcher walker in
          let '(paths, total) := paginate_slice all_paths offset limit in
          GlobMatched (Build_GlobResult paths total scan_capped)
      end
  end.

(** [glob]: the filter's pattern with what it compiles to. *)
Definition handle_grep (compiled : Result (string → bool) string) (pattern : string)
    (glob : option (string * Result (string → bool) string)) (offset limit : Z)
    (walk : option (list (option Walked))) : Reply :=
  match compile_grep_pattern compiled pattern with
  | Err e => reply_error e
  | Ok is_match =>
      let glob_matcher := match glob with
                          | None => Ok None
                          | Some (p, g) => let? m := compile_glob_pattern g p in Ok (Some m)
                          end in
      match glob_matcher with
      | Err e => reply_error e
      | Ok glob =>
          match walk with
          | None => reply_error WALK_FAILED
          | Some walker =>
              let '(all_matches, scan_capped, skipped) := walk_grep is_match glob walker in
              let '(matches, total) := paginate_slice all_matches offset limit in
              GrepMatched (Build_GrepResult matches total scan_capped skipped)
          end
      end
  end.

(** ** Editing: what the matches are *)

(** The offsets of [needle] between the pieces it splits a text into. *)
Fixpoint between (needle : string) (at_ : nat) (pieces : list string) : list nat :=
  match pieces with
  | piece :: ((_ :: _) as rest) =>
      let offset := (at_ + String.length piece)%nat in
      offset :: between needle (offset + String.length needle) rest
  | _ => []
  end.


Lemma split_pieces p s fuel :
  p ≠ "" → (String.length s ≤ fuel)%nat → Forall (λ piece, contains p piece = false) (split_str_fuel fuel p s).
Proof.
  intros Hp. revert s. induction fuel as [|fuel IH]; intros s Hs; cbn.
  { repeat constructor. destruct s; [|cbn in Hs; lia]. unfold contains. cbn. by destruct p. }
  destruct (split_once p s) as [[b a]|] eqn:E.
  - constructor; [by eapply split_once_first|]. apply IH. apply split_once_Some in E as ->. rewrite !str_length_app in Hs.
    destruct p; [done|]. cbn in Hs. lia.
  - repeat constructor. by apply split_once_None.
Qed.

Lemma matches_from_S fuel haystack needle from :
  matches_from (S fuel) haystack needle from =
  match str_find needle (str_drop from haystack) with
  | None => []
  | Some pos => (from + pos)%nat :: matches_from fuel haystack needle (from + pos + String.length needle)
  end.
Proof. done. Qed.

Lemma matches_between fuel h needle from :
  needle ≠ "" → (String.length (str_drop from h) ≤ fuel)%nat →
  matches_from (S fuel) h needle from = between needle from (split_str_fuel fuel needle (str_drop from h)).
Proof.
  intros Hn. revert from. induction fuel as [|fuel IH]; intros from Hl.
  { cbn [matches_from split_str_fuel between]. unfold str_find. destruct (str_drop from h); [|cbn in Hl; lia]. by destruct needle. }
  rewrite matches_from_S. cbn [split_str_fuel]. unfold str_find. destruct (split_once needle (str_drop from h)) as [[b a]|] eqn:E; [|done].
  cbn [fmap option_fmap option_map]. pose proof (split_once_Some _ _ _ _ E) as Hs.
  assert (str_drop (from + String.length b + String.length needle) h = a) as Hd.
  { rewrite <- !str_drop_drop, Hs, str_drop_app, str_drop_app. done. }
  rewrite IH, Hd.
  - by destruct (split_str_fuel fuel needle a) eqn:Ep; [destruct fuel; cbn in Ep; repeat case_match|].
  - rewrite Hd. rewrite Hs, !str_length_app in Hl. destruct needle; [done|]. cbn in Hl. lia.
Qed.

Lemma find_matches_between content old :
  find_matches content old = if bool_decide (old = "") then [] else between old 0 (split_str old content).
Proof. unfold find_matches. case_bool_decide; [done|]. by rewrite matches_between. Qed.

Lemma between_cons needle at_ p q pieces :
  between needle at_ (p :: q :: pieces)
  = (at_ + String.length p)%nat :: between needle (at_ + String.length p + String.length needle) (q :: pieces).
Proof. done. Qed.
Lemma between_length needle at_ pieces : length (between needle at_ pieces) = (length pieces - 1)%nat.
Proof.
  revert at_. induction pieces as [|p [|q pieces] IH]; intros at_; [done..|].
  rewrite between_cons. cbn [length]. rewrite IH. cbn. lia.
Qed.
(** Each offset has the needle at it. *)
Lemma between_at needle pieces at_ o :
  o ∈ between needle at_ pieces →
  ∃ before after, join needle pieces = before +:+ needle +:+ after ∧ o = (at_ + String.length before)%nat.
Proof.
  revert at_. induction pieces as [|p [|q pieces] IH]; intros at_; try by intros ?%not_elem_of_nil.
  rewrite between_cons. intros [->|Ho]%elem_of_cons.
  - exists p, (join needle (q :: pieces)). done.
  - apply IH in Ho as (b & a & Hj & ->). exists (p +:+ needle +:+ b), a.
    change (join needle (p :: q :: pieces)) with (p +:+ needle +:+ join needle (q :: pieces)).
    rewrite Hj, !str_app_assoc, !str_length_app. split; [done|lia].
Qed.

Lemma replace_at_app before old new after :
  replace_at (before +:+ old +:+ after) old new (String.length before) = before +:+ new +:+ after.
Proof.
  unfold replace_at. rewrite str_take_app, <- str_drop_drop, str_drop_app, str_drop_app. done.
Qed.
Lemma split_str_not_nil p s : split_str p s ≠ [].
Proof. unfold split_str. destruct (String.length s); cbn; repeat case_match; done. Qed.
Lemma split_str_join p s : join p (split_str p s) = s.
Proof. apply split_str_fuel_join. Qed.
Lemma split_str_one p s : p ≠ "" → length (split_str p s) = 1%nat ↔ contains p s = false.
Proof.
  intros Hp. unfold split_str. destruct s as [|a s]; [by destruct p|]. cbn [String.length split_str_fuel].
  destruct (split_once p (String a s)) as [[b r]|] eqn:E.
  - unfold contains. rewrite E. split; [|done]. intros Hl. cbn in Hl.
    assert (split_str_fuel (String.length s) p r ≠ []) as Hne by (destruct (String.length s); cbn; repeat case_match; done).
    destruct (split_str_fuel _ p r); [done|cbn in Hl; lia].
  - unfold contains. by rewrite E.
Qed.

(** An edit does what it says or says why not.  With [old_string] splitting the file
    into pieces, none of which holds it: replacing all joins them with [new_string];
    otherwise exactly one occurrence is replaced and nothing else changes, the one on the
    line asked for, or the only one there is.  The errors are exact: not found when there is
    none (or [old_string] is empty), ambiguous with their number when there are several and
    no line was asked for, and no match at a line on which none starts. *)
Theorem edits_do_what_they_say content old_string new_string replace_all expected_line :
  let pieces := split_str old_string content in
  content = join old_string pieces
  ∧ (old_string ≠ "" → Forall (λ piece, contains old_string piece = false) pieces)
  ∧ match apply_edit content old_string new_string replace_all expected_line with
    | Ok result =>
        old_string ≠ "" ∧ contains old_string content = true
        ∧ if replace_all then result = join new_string pieces
          else ∃ before after,
              content = before +:+ old_string +:+ after ∧ result = before +:+ new_string +:+ after
              ∧ match expected_line with
                | Some line => byte_offset_to_line content (String.length before) = line
                | None => length pieces = 2%nat
                end
    | Err NotFound => old_string = "" ∨ contains old_string content = false
    | Err (Ambiguous count) =>
        replace_all = false ∧ expected_line = None ∧ count = (length pieces - 1)%nat ∧ (2 ≤ count)%nat
    | Err (NoMatchAtLine line) =>
        replace_all = false ∧ expected_line = Some line
        ∧ ∀ offset, offset ∈ find_matches content old_string → byte_offset_to_line content offset ≠ line
    end.
Proof.
  cbn zeta. split; [by rewrite split_str_join|]. split; [intros Hne; by apply split_pieces|].
  unfold apply_edit. pose proof (find_matches_between content old_string) as Hm.
  case_bool_decide as Hold; [rewrite Hm; by left|].
  pose proof (between_length old_string 0 (split_str old_string content)) as Hlen. rewrite <- Hm in Hlen.
  pose proof (split_str_one old_string content Hold) as Hone. pose proof (split_str_not_nil old_string content) as Hnil.
  assert (∀ o, o ∈ find_matches content old_string → ∃ before after,
    content = before +:+ old_string +:+ after ∧ o = String.length before) as Hat.
  { intros o Ho. rewrite Hm in Ho. apply between_at in Ho as (b & a & Hj & ->). rewrite split_str_join in Hj. by exists b, a. }
  destruct (find_matches content old_string) as [|first rest] eqn:Hf.
  { right. apply Hone. cbn in Hlen. destruct (split_str old_string content) as [|? []]; try done. }
  assert (contains old_string content = true) as Hc.
  { apply not_false_iff_true. intros Hn. apply Hone in Hn. cbn in Hlen. lia. }
  destruct replace_all; [done|].
  assert (∀ o, o ∈ first :: rest → ∃ before after, content = before +:+ old_string +:+ after
    ∧ replace_at content old_string new_string o = before +:+ new_string +:+ after ∧ o = String.length before) as Hrep.
  { intros o Ho. destruct (Hat o Ho) as (b & a & Heq & ->). exists b, a. conjs; [done| |done]. rewrite Heq. apply replace_at_app. }
  destruct expected_line as [line|].
  - destruct (List.find _ (first :: rest)) as [o|] eqn:Hfind; cbn [and_then].
    + apply List.find_some in Hfind as [Hin Hl]. apply list_elem_of_In in Hin. apply Z.eqb_eq in Hl.
      destruct (Hrep o Hin) as (b & a & Heq & Hr & ->). conjs; [done|done|]. by exists b, a.
    + conjs; [done|done|]. intros o Ho Hl. apply list_elem_of_In in Ho.
      pose proof (List.find_none _ _ Hfind o Ho) as Hn. cbn beta in Hn. by rewrite Hl, Z.eqb_refl in Hn.
  - destruct (Nat.ltb_spec 1 (length (first :: rest))) as [Hlt|Hge]; cbn [and_then].
    + conjs; [done|done|exact Hlen|cbn in *; lia].
    + destruct (Hrep first ltac:(left)) as (b & a & Heq & Hr & _). conjs; [done|done|]. exists b, a. conjs; [done|done|].
      cbn in Hlen, Hge. lia.
Qed.

(** ** Writing: only over what was read *)

(** C37. A file is only written over what was read.  An edit or a write with a hash changes
    the file only when its content then still has that hash: on success the file holds the
    edited (or given) text, and the hash answered is its own, so it opens the next edit; a
    refusal leaves the file system as it was, but for what a failed write or a failed
    creation of its parents left.  And what is written, or edited to no more than
    [MAX_FILE_SIZE_BYTES], reads back, page by page, under the same hash; what an edit made
    larger, which nothing refuses, is too large to read. *)
Theorem writes_only_over_what_was_read (path text old_string new_string : string) replace_all expected (expected_hash : option string)
    expected_line (offset limit : Z) (fs : F) :
  (let '(reply, fs') := handle_edit_file path old_string new_string replace_all expected expected_line fs in
   match reply with
   | FileEdited hash =>
       ∃ bytes edited, fs_read path fs = Ok bytes ∧ hash_content bytes = expected
         ∧ apply_edit bytes old_string new_string replace_all expected_line = Ok edited
         ∧ fs_read path fs' = Ok edited ∧ hash = hash_content edited
       ∧ (valid_utf8 edited = true → (str_len edited ≤ MAX_FILE_SIZE_BYTES)%Z →
            handle_read_file path offset limit fs'
            = FileRead (Build_FileContents (fst (paginate_lines edited offset limit)) (length (str_lines edited)) hash))
       ∧ ((MAX_FILE_SIZE_BYTES < str_len edited)%Z → ∃ why, handle_read_file path offset limit fs' = ReplyError why)
   | ReplyError _ => fs' = fs ∨ ∃ bytes e, hash_content bytes = expected ∧ fs_read path fs = Ok bytes
       ∧ (∃ edited, fs_write path edited fs = (Err e, fs'))
   | _ => False
   end)
  ∧ (let '(reply, fs') := handle_write_file path text expected_hash fs in
     match reply with
     | FileWritten hash =>
         fs_read path fs' = Ok text ∧ hash = hash_content text ∧ (str_len text ≤ MAX_FILE_SIZE_BYTES)%Z
         ∧ (∀ h, expected_hash = Some h → ∃ bytes, fs_read path fs = Ok bytes ∧ hash_content bytes = h)
         ∧ (valid_utf8 text = true →
              handle_read_file path offset limit fs'
              = FileRead (Build_FileContents (fst (paginate_lines text offset limit)) (length (str_lines text)) hash))
     | ReplyError _ =>
         fs' = fs
         ∨ (∃ e, create_parents path fs = (Err e, fs'))
         ∨ ∃ e fs1, create_parents path fs = (Ok (), fs1) ∧ fs_write path text fs1 = (Err e, fs')
     | _ => False
     end).
Proof.
  split.
  - unfold handle_edit_file. destruct (fs_read path fs) as [bytes|e] eqn:Hr; [|by left].
    case_bool_decide as Hh; cbn [negb]; [|by left]. destruct (valid_utf8 bytes); cbn [negb]; [|by left].
    destruct (apply_edit _ _ _ _ _) as [edited|err] eqn:Ha; [|by left].
    destruct (fs_write path edited fs) as [[[]|e] fs'] eqn:Hw.
    + pose proof (fs_read_written _ _ _ _ Hw) as Hback. exists bytes, edited. conjs; try done; unfold handle_read_file; rewrite Hback.
      * intros Hv Hsize. rewrite Hv. by destruct (Z.ltb_spec MAX_FILE_SIZE_BYTES (str_len edited)); [lia|].
      * intros Hsize. destruct (Z.ltb_spec MAX_FILE_SIZE_BYTES (str_len edited)); [by eexists|lia].
    + right. exists bytes, e. conjs; [done|done|]. by exists edited.
  - unfold handle_write_file. destruct (Z.ltb_spec MAX_FILE_SIZE_BYTES (str_len text)) as [Hlong|Hshort]; [by left|].
    destruct (write_refused path expected_hash fs) as [why|] eqn:Hre; [by left|].
    destruct (create_parents path fs) as [[[]|e] fs1] eqn:Hp; [|by right; left; exists e].
    destruct (fs_write path text fs1) as [[[]|e] fs'] eqn:Hw; [|by right; right; exists e, fs1].
    pose proof (fs_read_written _ _ _ _ Hw) as Hback. conjs; try done.
    + intros h ->. unfold write_refused in Hre. destruct (fs_read path fs) as [bytes|e]; [|done].
      case_bool_decide as Hb; [|done]. by exists bytes.
    + intros Hv. unfold handle_read_file. rewrite Hback, Hv. by destruct (Z.ltb_spec MAX_FILE_SIZE_BYTES (str_len text)); [lia|].
Qed.

(** ** Searching: everything, or it says so *)

(** All the matches of a file's lines, and of an entry. *)
Fixpoint matching_lines (is_match : string → bool) (i : nat) (lines : list string) : list (Z * string) :=
  match lines with
  | [] => []
  | line :: lines =>
      app (if is_match line then [(u32_add (Z.of_nat i `mod` 4294967296) 1, line)] else [])
        (matching_lines is_match (S i) lines)
  end.
Definition readable (glob : option (string → bool)) (entry : Walked) : option string :=
  if wk_is_dir entry || match glob with Some g => negb (g (wk_relative entry)) | None => false end then None
  else match wk_len entry, wk_bytes entry with
       | Some size, Some bytes => if (size <=? MAX_GREP_FILE_SIZE_BYTES)%Z && valid_utf8 bytes then Some bytes else None
       | _, _ => None
       end.
Definition entry_matches (is_match : string → bool) (glob : option (string → bool)) (entry : option Walked) : list GrepMatch :=
  match entry with
  | Some entry =>
      match readable glob entry with
      | Some bytes => map (λ '(line, text), Build_GrepMatch (wk_path entry) line text) (matching_lines is_match 0 (str_lines bytes))
      | None => []
      end
  | None => []
  end.
Definition entry_skipped (glob : option (string → bool)) (entry : option Walked) : list SkippedFile :=
  match entry with
  | Some entry => snd (grep_entry (λ _, false) glob 1 entry)
  | None => []
  end.

Lemma grep_lines_spec is_match budget i lines matches :
  (length matches ≤ budget)%nat →
  let '(found, capped) := grep_lines is_match budget i lines matches in
  (length found ≤ budget)%nat
  ∧ found `prefix_of` app matches (matching_lines is_match i lines)
  ∧ (capped = false → found = app matches (matching_lines is_match i lines)).
Proof.
  revert i matches. induction lines as [|line lines IH]; intros i matches Hle; cbn [grep_lines matching_lines].
  { rewrite app_nil_r. done. }
  destruct (Nat.leb_spec budget (length matches)).
  { conjs; [done|by apply prefix_app_r|done]. }
  specialize (IH (S i) (if is_match line then app matches [(u32_add (Z.of_nat i `mod` 4294967296) 1, line)] else matches)).
  destruct (grep_lines _ _ _ _ _) as [found capped]. destruct IH as (Hl & Hp & Hc).
  { destruct (is_match line); [rewrite length_app; cbn; lia|done]. }
  rewrite app_assoc. destruct (is_match line); rewrite ?app_nil_r; by conjs.
Qed.

Lemma grep_entry_spec is_match glob budget entry :
  (1 ≤ budget)%nat →
  let '(found, capped, skipped) := grep_entry is_match glob budget entry in
  (length found ≤ budget)%nat
  ∧ found `prefix_of` entry_matches is_match glob (Some entry)
  ∧ (capped = false → found = entry_matches is_match glob (Some entry))
  ∧ skipped = entry_skipped glob (Some entry).
Proof.
  intros Hb. unfold entry_skipped, entry_matches, readable, grep_entry.
  destruct (wk_is_dir entry); cbn [orb]; [cbn; conjs; by try lia|].
  destruct (match glob with Some g => negb (g (wk_relative entry)) | None => false end); [cbn; conjs; by try lia|].
  destruct (wk_len entry) as [size|]; [|cbn; conjs; by try lia].
  rewrite Z.leb_antisym. destruct (Z.ltb_spec MAX_GREP_FILE_SIZE_BYTES size); cbn [andb negb].
  { destruct (wk_bytes entry); cbn; conjs; by try lia. }
  destruct (wk_bytes entry) as [bytes|]; [|cbn; conjs; by try lia].
  destruct (valid_utf8 bytes); cbn [negb]; [|cbn; conjs; by try lia].
  pose proof (grep_lines_spec is_match budget 0 (str_lines bytes) [] ltac:(cbn; lia)) as Hs. unfold grep_content.
  destruct (grep_lines is_match budget 0 (str_lines bytes) []) as [found capped].
  destruct (grep_lines (λ _, false) 1 0 (str_lines bytes) []) as [found' capped'].
  destruct Hs as (Hl & [rest Hp] & Hc). cbn in Hp, Hc. conjs; [by rewrite length_map| |by intros ->%Hc|done].
  rewrite Hp, map_app. by apply prefix_app_r.
Qed.

Lemma walk_grep_spec is_match glob walker matches capped skipped :
  (length matches ≤ MAX_GREP_SCAN)%nat →
  let '(found, capped', skipped') := walk_grep_from is_match glob walker matches capped skipped in
  (length found ≤ MAX_GREP_SCAN)%nat
  ∧ (capped' = false → capped = false
      ∧ found = app matches (mjoin (map (entry_matches is_match glob) walker))
      ∧ skipped' = app skipped (mjoin (map (entry_skipped glob) walker)))
  ∧ ∃ read, found `sublist_of` app matches read ∧ read `sublist_of` mjoin (map (entry_matches is_match glob) walker).
Proof.
  revert matches capped skipped. induction walker as [|entry walker IH]; intros matches capped skipped Hle; cbn [walk_grep_from].
  { cbn. rewrite !app_nil_r. conjs; [done|by intros ->|]. exists []. by rewrite app_nil_r. }
  destruct (Nat.leb_spec MAX_GREP_SCAN (length matches)).
  { conjs; [done|done|]. exists []. rewrite app_nil_r. split; [done|apply sublist_nil_l]. }
  destruct entry as [entry|]; [|cbn [map mjoin list_join entry_matches entry_skipped app]; by apply IH].
  pose proof (grep_entry_spec is_match glob (MAX_GREP_SCAN - length matches) entry ltac:(lia)) as He.
  destruct (grep_entry _ _ _ _) as [[found capped1] left_out]. destruct He as (Hl & Hp & Hc & Hs).
  specialize (IH (app matches found) (capped || capped1) (app skipped left_out) ltac:(rewrite length_app; lia)).
  destruct (walk_grep_from _ _ _ _ _ _) as [[all capped2] skipped2]. destruct IH as (Hl2 & Hc2 & read & Hr & Hsub).
  change (mjoin (map (entry_matches is_match glob) (Some entry :: walker)))
    with (app (entry_matches is_match glob (Some entry)) (mjoin (map (entry_matches is_match glob) walker))).
  change (mjoin (map (entry_skipped glob) (Some entry :: walker)))
    with (app (entry_skipped glob (Some entry)) (mjoin (map (entry_skipped glob) walker))).
  conjs; [done| |].
  - intros Hno. destruct (Hc2 Hno) as ([-> Hone]%orb_false_iff & -> & ->). rewrite (Hc Hone), Hs, !app_assoc. done.
  - exists (app found read). rewrite app_assoc. split; [done|]. apply sublist_app; [|done].
    destruct Hp as [rest ->]. by apply sublist_inserts_r.
Qed.

(** A search finds everything or says it stopped.  Grep never reports more than its
    ceiling, and only real matches, in the order of the walk; unless it says it was capped,
    it reports every matching line of every file the walk reads, and names every file it
    left out as too large or not text.  The pages of its answer tile what it found. *)
Theorem a_search_is_whole_or_says_so is_match glob walker (limit : nat) pages :
  let '(matches, scan_capped, skipped) := walk_grep is_match glob walker in
  let all := mjoin (map (entry_matches is_match glob) walker) in
  (length matches ≤ MAX_GREP_SCAN)%nat
  ∧ matches `sublist_of` all
  ∧ (scan_capped = false → matches = all ∧ skipped = mjoin (map (entry_skipped glob) walker))
  ∧ mjoin (map (λ page, fst (paginate_slice matches (1 + Z.of_nat (page * limit)) (Z.of_nat limit))) (seq 0 pages))
    = take (pages * limit) matches.
Proof.
  unfold walk_grep. pose proof (walk_grep_spec is_match glob walker [] false [] ltac:(cbn; lia)) as Hs.
  destruct (walk_grep_from _ _ _ _ _ _) as [[matches capped] skipped]. destruct Hs as (Hl & Hc & read & Hr & Hsub). cbn zeta. conjs.
  - done.
  - etransitivity; [exact Hr|exact Hsub].
  - intros Hno. destruct (Hc Hno) as (_ & -> & ->). done.
  - clear. induction pages as [|pages IH]; [done|]. rewrite seq_S, map_app. cbn [map]. rewrite join_app. cbn [mjoin list_join].
    change (mjoin (map (λ page, fst (paginate_slice matches (1 + Z.of_nat (page * limit)) (Z.of_nat limit))) (seq 0 pages)))
      with (mjoin (map (λ page, fst (paginate_slice matches (1 + Z.of_nat (page * limit)) (Z.of_nat limit))) (seq 0 pages))).
    rewrite IH, app_nil_r. cbn [paginate_slice fst Nat.add]. unfold sat_sub.
    replace (Z.to_nat (Z.max 0 (1 + Z.of_nat (pages * limit) - 1))) with (pages * limit)%nat by lia.
    rewrite Nat2Z.id, take_take_drop. f_equal. lia.
Qed.
End Handlers.

(** ** A file system of files alone *)

#[local] Instance flat_file_system : FileSystem (gmap string string) := {
  fs_read path fs := match fs !! path with Some bytes => Ok bytes | None => Err "No such file or directory (os error 2)" end;
  fs_write path bytes fs := (Ok (), <[path := bytes]> fs);
  fs_create_dirs path fs := (Ok (), fs);
}.
#[local] Instance flat_file_system_laws : FileSystemLaws (gmap string string).
Proof. split. intros path bytes fs fs' [= <-]. cbn. by rewrite lookup_insert_eq. Qed.

Definition notes : gmap string string := {["/notes.txt" := "buy milk" +:+ String newline "buy eggs"]}.
Definition length_hash (bytes : string) : string := show_unsigned (str_len bytes).

Lemma writes_only_over_what_was_read_witness :
  fs_read "/notes.txt" notes = Ok ("buy milk" +:+ String newline "buy eggs")
  ∧ (let '(reply, fs') := handle_edit_file length_hash "/notes.txt" "buy" "sell" false "17" (Some 2%Z) notes in
     reply = FileEdited "18" ∧ fs_read "/notes.txt" fs' = Ok ("buy milk" +:+ String newline "sell eggs"))
  ∧ (let '(reply, fs') := handle_write_file length_hash "/new/list.txt" "soap" None notes in
     fs_read "/new/list.txt" fs' = Ok "soap"
     ∧ handle_read_file length_hash "/new/list.txt" 1 10 fs' = FileRead (Build_FileContents ["soap"] 1 "4")).
Proof.
  assert (fs_read "/notes.txt" notes = Ok ("buy milk" +:+ String newline "buy eggs")) as Hnotes by (vm_compute; reflexivity).
  conjs; [exact Hnotes| |].
  - pose proof (proj1 (writes_only_over_what_was_read length_hash "/notes.txt" "" "buy" "sell" false "17" None (Some 2%Z) 1%Z 10%Z notes)) as Hw.
    assert (fst (handle_edit_file length_hash "/notes.txt" "buy" "sell" false "17" (Some 2%Z) notes) = FileEdited "18") as Hreply
      by (vm_compute; reflexivity).
    destruct (handle_edit_file _ _ _ _ _ _ _ _) as [reply fs']. cbn [fst] in Hreply. subst reply.
    destruct Hw as (bytes & edited & Hread & _ & Hedit & Hr & _). rewrite Hnotes in Hread. injection Hread as <-.
    assert (apply_edit ("buy milk" +:+ String newline "buy eggs") "buy" "sell" false (Some 2%Z)
            = Ok ("buy milk" +:+ String newline "sell eggs")) as Hedited by (vm_compute; reflexivity).
    rewrite Hedited in Hedit. injection Hedit as <-. by split.
  - pose proof (proj2 (writes_only_over_what_was_read length_hash "/new/list.txt" "soap" "" "" false "" None None 1%Z 10%Z notes)) as Hw.
    assert (fst (handle_write_file length_hash "/new/list.txt" "soap" None notes) = FileWritten "4") as Hreply
      by (vm_compute; reflexivity).
    destruct (handle_write_file _ _ _ _ _) as [reply fs']. cbn [fst] in Hreply. subst reply.
    destruct Hw as (Hr & _ & _ & _ & Hread). split; [exact Hr|]. rewrite Hread; vm_compute; reflexivity.
Defined.
