(* ===== verification/AgentCommands.v ===== *)
(** * AgentCommands: the commands of a sandbox terminal

    [src/src/bin/sandbox_agent/shell.rs] and the reader of [commands.rs]: a terminal's shell,
    the command in flight in it, the two markers its end is known by, and the events sent of
    it; the terminals, and which shell a command goes to.

    A shell and its reader are one record, [Shell]: its first three fields are what
    [start_command] shares with the reader, the others [run_reader]'s own.  One arm of the
    reader's [select!], with the check for a completed command after it, is one step, and a
    claim is another; what the kernel and the clock decide (what a pipe gives, whether its
    writers are gone, the shell's status, which deadline passed) is in the step.  Cutting
    the output into pieces is AgentOutput's.  A claim that falls between an arm's reading of
    the marker and of the command's id isn't modelled: it could only give an idle shell's
    stray line the new command's id. *)

From S2P Require Import Prelude RustStr AgentProtocol AgentOutput AgentFiles.
Local Open Scope string_scope.

(** ** Markers *)

Definition MARKER_PREFIX : string := "__smelt_done__:".
(** [nonce]: twelve bytes of a hash, in hex. *)
Definition new_marker (nonce : string) : string := MARKER_PREFIX +:+ nonce +:+ ":".

(** [str::parse::<i32>]. *)
Definition I32_MAX : Z := 2147483647.
Definition parse_i32 (s : string) : option Z :=
  match strip_prefix "-" s with
  | Some digits =>
      if bool_decide (digits = "") then None else Z.opp <$> parse_digits (I32_MAX + 1) 0 digits
  | None => parse_unsigned I32_MAX s
  end.

Inductive Tag := TagO | TagE.
Definition split_marker (line marker : string) : option (string * Tag * Z) :=
  '(before, rest) ← rsplit_once marker line;
  '(tag, code) ← split_once ":" rest;
  tag ← (if bool_decide (tag = "o") then Some TagO else if bool_decide (tag = "e") then Some TagE else None);
  code ← parse_i32 code;
  Some (before, tag, code).

Inductive EndMarker := MarkerOut (code : Z) | MarkerErr (code : Z) | Stale.
Record Ending := {
  code : option Z;
  out_seen : bool;
  err_seen : bool;
  deadline : option Z;
  previous : option string;
}.
Definition default_ending : Ending := Build_Ending None false false None None.
Definition STDERR_MARKER_WAIT : Z := 1000.

Definition find (ending : Ending) (marker : option string) (line : string) : option (string * EndMarker) :=
  match (m ← marker; split_marker line m) with
  | Some (before, tag, code) => Some (before, match tag with TagO => MarkerOut code | TagE => MarkerErr code end)
  | None => '(before, _, _) ← (m ← previous ending; split_marker line m); Some (before, Stale)
  end.
Definition note (now : Z) (meaning : EndMarker) (ending : Ending) : Ending :=
  let noted (out err : bool) (c : Z) :=
    Build_Ending (Some (default c (code ending))) out err (Some (default (now + STDERR_MARKER_WAIT)%Z (deadline ending))) (previous ending) in
  match meaning with
  | MarkerOut c => noted true (err_seen ending) c
  | MarkerErr c => noted (out_seen ending) true c
  | Stale => ending
  end.
Definition give_up_waiting (ending : Ending) : Ending :=
  Build_Ending (code ending) true true (deadline ending) (previous ending).
(** The exit code, the marker left and the ending. *)
Definition complete (marker : option string) (ending : Ending) : option Z * option string * Ending :=
  if negb (out_seen ending && err_seen ending) then (None, marker, ending)
  else
    match code ending with
    | None => (None, marker, ending)
    | Some c => (Some c, None, Build_Ending None false false None marker)
    end.

(** ** A shell and its reader *)

Inductive ShellEvent :=
  | Line (terminal_id id : string) (stream : Stream) (seq : Z) (data : string)
  | Marker (terminal_id : string) (id : option string) (exit_code : Z).

Record PipeEnd := { open : bool; held : bool; read_so_far : ReadSoFar }.
#[export] Instance PipeEnd_eta : Eta PipeEnd := λ p, Build_PipeEnd (open p) (held p) (read_so_far p).
Definition new_pipe : PipeEnd := Build_PipeEnd true false default_read.

Record Shell := {
  current : option string;
  marker : option string;
  ended : bool;
  ending : Ending;
  seq : Z;
  stdout : PipeEnd;
  stderr : PipeEnd;
  exit : option Z;
}.
#[export] Instance Shell_eta : Eta Shell := λ s,
  Build_Shell (current s) (marker s) (ended s) (ending s) (seq s) (stdout s) (stderr s) (exit s).
Definition new_shell : Shell := Build_Shell None None false default_ending 0 new_pipe new_pipe None.

Definition pipe (stream : Stream) (s : Shell) : PipeEnd := match stream with Stdout => stdout s | Stderr => stderr s end.
Definition set_pipe (stream : Stream) (p : PipeEnd) (s : Shell) : Shell :=
  match stream with Stdout => s <| stdout := p |> | Stderr => s <| stderr := p |> end.

Section Reader.
Variable terminal_id : string.

(** The [Ok(false) | Err(_)] case: the pipe's end, or that of an ended shell's output. *)
Definition pipe_ended (stream : Stream) (now : Z) (writers_gone : bool) (s : Shell) : Shell :=
  let p := pipe stream s in
  let held_now := is_some (exit s) && negb writers_gone in
  let '(goes_on, read) := if held_now then start_grace now (read_so_far p) else (false, read_so_far p) in
  set_pipe stream (if goes_on then p <| read_so_far := read |> else Build_PipeEnd false held_now read) s.

(** The [Ok(true)] case, with the piece taken. *)
Definition piece_read (stream : Stream) (now : Z) (line : string) (s : Shell) : Shell * list ShellEvent :=
  let '(data, meaning) :=
    match find (ending s) (marker s) line with
    | Some (before, meaning) => (before, Some meaning)
    | None => (line, None)
    end in
  let sends := negb (is_some meaning) || negb (bool_decide (data = "")) in
  let s1 := if sends then s <| seq := u64_add (seq s) 1 |> else s in
  let sent := if sends then [Line terminal_id (default "" (current s)) stream (seq s1) data] else [] in
  (match meaning with Some meaning => s1 <| ending ::= note now meaning |> | None => s1 end, sent).

(** The shell reaped: [ended] under [current]'s lock, and each pipe's end as it is now. *)
Definition reaped (status : Z) (out_buffered : nat) (out_unread : option nat) (err_buffered : nat) (err_unread : option nat) (s : Shell) : Shell :=
  s <| exit := Some status |> <| ended := true |>
    <| stdout ::= λ p, p <| read_so_far := end_at out_buffered out_unread (read_so_far p) |> |>
    <| stderr ::= λ p, p <| read_so_far := end_at err_buffered err_unread (read_so_far p) |> |>.

Inductive Arm :=
  | PipeEnded (stream : Stream) (now : Z) (writers_gone : bool)
  | PieceRead (stream : Stream) (now : Z) (line : string)
  | GraceOver (stream : Stream)
  | MarkerLate
  | ShellReaped (status : Z) (out_buffered : nat) (out_unread : option nat) (err_buffered : nat) (err_unread : option nat).

(** An arm's guard, and that its timer runs. *)
Definition enabled (a : Arm) (s : Shell) : bool :=
  match a with
  | PipeEnded stream _ _ | PieceRead stream _ _ => open (pipe stream s)
  | GraceOver stream => open (pipe stream s) && is_some (grace_deadline (read_so_far (pipe stream s)))
  | MarkerLate => is_some (deadline (ending s))
  | ShellReaped _ _ _ _ _ => negb (is_some (exit s))
  end.
Definition arm_body (a : Arm) (s : Shell) : Shell * list ShellEvent :=
  match a with
  | PipeEnded stream now writers_gone => (pipe_ended stream now writers_gone s, [])
  | PieceRead stream now line => piece_read stream now line s
  | GraceOver stream =>
      let p := pipe stream s in (set_pipe stream (p <| read_so_far ::= end_grace |>) s, [])
  | MarkerLate => (s <| ending ::= give_up_waiting |>, [])
  | ShellReaped status ob ou eb eu => (reaped status ob ou eb eu s, [])
  end.
(** The check after each arm: a completed command's exit, and [seq] over. *)
Definition after_arm (s : Shell) : Shell * list ShellEvent :=
  let '(exit_code, marker_left, started_over) := complete (marker s) (ending s) in
  let s := s <| marker := marker_left |> <| ending := started_over |> in
  match exit_code with
  | Some exit_code => (s <| current := None |> <| seq := 0%Z |>, [Marker terminal_id (current s) exit_code])
  | None => (s, [])
  end.
Definition select (a : Arm) (s : Shell) : Shell * list ShellEvent :=
  let '(s, sent) := arm_body a s in
  let '(s, marked) := after_arm s in (s, app sent marked).

Definition exited_note (code : Z) (jobs_left : bool) : string :=
  let code := (if (code <? 0)%Z then "-" else "") +:+ show_unsigned (Z.abs code) in
  if jobs_left then
    "smelt: this terminal's shell exited (status " +:+ code +:+ "), and background jobs it started are still running; their output is no longer shown (redirect a job's output to a file to keep it), and the new shell's `jobs` won't list them (stop one with `kill <pid>` or `pkill`). Its next command runs in a new shell, with the working directory and variables reset"
  else
    "smelt: this terminal's shell exited (status " +:+ code +:+ "); its next command runs in a new shell, with the working directory and variables reset".
Definition finish_ended_shell (code : Z) (jobs_left : bool) (s : Shell) : Shell * list ShellEvent :=
  let in_flight := is_some (marker s) in
  let id := current s in
  (s <| ended := true |> <| marker := None |> <| current := None |>,
   if in_flight then
     [Line terminal_id (default "" id) Stderr (u64_add (seq s) 1) (exited_note code jobs_left); Marker terminal_id id code]
   else []).
(** After the loop: the shell's status ([waited], where its pipes closed before it was
    reaped); a command ended between its two markers did finish, and one still in flight
    ends with the shell. *)
Definition finish_reader (waited : Z) (s : Shell) : Shell * list ShellEvent :=
  let jobs_left := held (stdout s) || held (stderr s) in
  let code_of_shell := default waited (exit s) in
  let '(s, marked) :=
    match code (ending s) with
    | Some exit_code =>
        (s <| ending := Build_Ending None (out_seen (ending s)) (err_seen (ending s)) (deadline (ending s)) (previous (ending s)) |>
           <| marker := None |> <| current := None |> <| seq := 0%Z |>,
         [Marker terminal_id (current s) exit_code])
    | None => (s, [])
    end in
  let '(s, finished) := finish_ended_shell code_of_shell jobs_left s in (s, app marked finished).

(** ** Claiming a command *)

Inductive Claim := Claimed | ShellEnded | InFlight.
(** [start_command], once it holds [current]'s lock. *)
Definition claim (id marker_of_it : string) (s : Shell) : Claim * Shell :=
  if ended s then (ShellEnded, s)
  else if is_some (current s) then (InFlight, s)
  else (Claimed, s <| current := Some id |> <| marker := Some marker_of_it |>).

(** A shell's life: arms and claims, as they come. *)
Inductive Step := Arms (a : Arm) | Claims (id marker : string).
Fixpoint run_shell (steps : list Step) (s : Shell) : Shell * list string * list ShellEvent :=
  match steps with
  | [] => (s, [], [])
  | Arms a :: steps =>
      let '(s, sent) := select a s in
      let '(s, accepted, events) := run_shell steps s in (s, accepted, app sent events)
  | Claims id m :: steps =>
      let '(claimed, s) := claim id m s in
      let '(s, accepted, events) := run_shell steps s in
      (s, app (match claimed with Claimed => [id] | _ => [] end) accepted, events)
  end.
End Reader.

(** ** Each command ends once *)

(** The commands the exits name, in order. *)
Definition exits (events : list ShellEvent) : list (option string) :=
  omap (λ e, match e with Marker _ id _ => Some id | Line _ _ _ _ _ => None end) events.
Definition seq_after (seq : Z) (events : list ShellEvent) : Z :=
  foldl (λ seq e, match e with Line _ _ _ n _ => n | Marker _ _ _ => 0%Z end) seq events.
(** The events of commands [ids]: lines numbered on from [seq], each of the command now
    running or of none, and one exit for each command, in order. *)
Fixpoint told (ids : list string) (seq : Z) (events : list ShellEvent) : Prop :=
  match events with
  | [] => True
  | Line _ id _ n _ :: events => n = u64_add seq 1 ∧ (id = "" ∨ head ids = Some id) ∧ told ids n events
  | Marker _ id _ :: events => (∃ first, id = Some first ∧ head ids = Some first) ∧ told (tail ids) 0 events
  end.

Lemma told_app ids seq e1 e2 :
  told ids seq (app e1 e2) ↔ told ids seq e1 ∧ told (drop (length (exits e1)) ids) (seq_after seq e1) e2.
Proof.
  revert ids seq. induction e1 as [|[t id st n d|t id c] e1 IH]; intros ids seq; cbn [app told].
  - change (drop (length (exits [])) ids) with (drop 0 ids). rewrite drop_0. unfold seq_after. cbn [foldl]. tauto.
  - change (exits (Line t id st n d :: e1)) with (exits e1). cbn [seq_after foldl]. rewrite IH. unfold seq_after. tauto.
  - change (exits (Marker t id c :: e1)) with (id :: exits e1). cbn [seq_after foldl length]. rewrite IH.
    destruct ids; cbn [tail drop]; [rewrite drop_nil|]; unfold seq_after; tauto.
Qed.
Lemma told_more ids more seq events : told ids seq events → told (app ids more) seq events.
Proof.
  revert ids seq. induction events as [|[t id st n d|t id c] events IH]; intros ids seq; cbn [told]; [done| |].
  - intros (-> & Hid & Ht). conjs; [done| |by apply IH]. destruct Hid as [->|Hid]; [by left|right]. by destruct ids.
  - intros [(first & -> & Hh) Ht]. destruct ids as [|i ids]; [done|]. split; [by exists first|]. by apply IH.
Qed.
Lemma exits_app e1 e2 : exits (app e1 e2) = app (exits e1) (exits e2).
Proof.
  unfold exits. induction e1 as [|[] e1 IH]; [done|exact IH|]. cbn. by f_equal.
Qed.

(** What holds of a shell that has accepted [accepted] and sent [events]. *)
Record kept (s : Shell) (accepted : list string) (events : list ShellEvent) : Prop := {
  kept_exits : map Some accepted = app (exits events) (match current s with Some id => [Some id] | None => [] end);
  kept_marker : is_some (marker s) = is_some (current s);
  kept_code : is_some (code (ending s)) = true → is_some (marker s) = true;
  kept_told : told accepted 0 events;
  kept_seq : seq s = seq_after 0 events;
}.

Lemma kept_rest s accepted events : kept s accepted events →
  drop (length (exits events)) accepted = match current s with Some id => [id] | None => [] end.
Proof.
  intros [Hexits _ _ _ _]. apply (f_equal (drop (length (exits events)))) in Hexits.
  rewrite drop_app_length, skipn_map in Hexits. destruct (drop _ accepted) as [|x l]; destruct (current s); try done.
  cbn in Hexits. injection Hexits as -> Hl. by destruct l.
Qed.

(** A step that sends lines of the current command. *)
Lemma kept_line t s s' accepted events sent :
  kept s accepted events →
  current s' = current s → marker s' = marker s → (is_some (code (ending s')) = true → is_some (marker s) = true) →
  (sent = [] ∧ seq s' = seq s ∨ ∃ stream data, sent = [Line t (default "" (current s)) stream (seq s') data] ∧ seq s' = u64_add (seq s) 1) →
  kept s' accepted (app events sent).
Proof.
  intros Hk Hc Hm Hcode Hsent. pose proof (kept_rest _ _ _ Hk) as Hrest. destruct Hk as [H1 H2 H3 H4 H5].
  destruct Hsent as [[-> Hseq]|(stream & data & -> & Hseq)].
  - rewrite app_nil_r. split; rewrite ?Hc, ?Hm, ?Hseq; done.
  - split; rewrite ?exits_app, ?Hc, ?Hm; cbn [exits omap list_omap]; rewrite ?app_nil_r; try done.
    + apply told_app. split; [done|]. cbn [told]. rewrite <-H5. conjs; [done| |done]. rewrite Hrest.
      destruct (current s); [by right|by left].
    + unfold seq_after. by rewrite foldl_app.
Qed.
(** A step that ends the current command. *)
Lemma kept_exit t s s' accepted events c :
  kept s accepted events → is_some (marker s) = true →
  current s' = None → marker s' = None → code (ending s') = None → seq s' = 0%Z →
  kept s' accepted (app events [Marker t (current s) c]).
Proof.
  intros Hk Hm Hc' Hm' Hcode' Hseq. pose proof (kept_rest _ _ _ Hk) as Hrest. destruct Hk as [H1 H2 H3 H4 H5].
  rewrite Hm in H2. destruct (current s) as [id|]; [|done].
  split; rewrite ?exits_app, ?Hc', ?Hm', ?Hcode'; try done.
  - cbn. by rewrite app_nil_r.
  - apply told_app. split; [done|]. cbn [told]. rewrite Hrest. split; [by exists id|done].
  - rewrite Hseq. unfold seq_after. by rewrite foldl_app.
Qed.

Lemma kept_arm t a s accepted events :
  kept s accepted events →
  let '(s', sent) := select t a s in kept s' accepted (app events sent).
Proof.
  intros Hk. unfold select.
  assert (∀ s', current s' = current s → marker s' = marker s → ending s' = ending s → seq s' = seq s → kept s' accepted events) as Hsame.
  { intros s' Hc Hm He Hs. rewrite <-(app_nil_r events). eapply (kept_line t s s'); try done; [|by left].
    rewrite He. by destruct Hk. }
  assert (let '(s1, sent) := arm_body t a s in kept s1 accepted (app events sent)) as Hbody.
  { destruct a as [stream now gone|stream now line|stream| |]; cbn [arm_body]; rewrite ?app_nil_r.
    - unfold pipe_ended. destruct (if is_some (exit s) && negb gone then _ else _) as [goes_on read].
      by apply Hsame; destruct stream, goes_on.
    - unfold piece_read. destruct (find _ _ _) as [[before meaning]|] eqn:Hf.
      + set (s1 := if negb _ || _ then _ else s).
        assert (current s1 = current s ∧ marker s1 = marker s ∧ ending s1 = ending s) as (E1 & E2 & E3) by (unfold s1; by case_match).
        eapply (kept_line t s); [done|done|done| |].
        * change (ending (s1 <| ending ::= note now meaning |>)) with (note now meaning (ending s1)). rewrite E3.
          destruct meaning; cbn; [| |by destruct Hk];
            intros _; unfold find in Hf; destruct (marker s); cbn in Hf |- *; try done;
            destruct (previous (ending s)); cbn in Hf; try done; by destruct (split_marker _ _) as [[[] ]|].
        * change (seq (s1 <| ending ::= note now meaning |>)) with (seq s1). unfold s1. cbn [negb is_some orb].
          case_bool_decide; cbn [negb]; [by left|right]. by eexists _, _.
      + eapply (kept_line t s); [done|done|done|by destruct Hk|]. right. by eexists _, _.
    - apply Hsame; by destruct stream.
    - rewrite <-(app_nil_r events). eapply (kept_line t s); try done; [by destruct Hk|by left].
    - by apply Hsame. }
  destruct (arm_body t a s) as [s1 sent]. unfold after_arm, complete.
  destruct (negb (out_seen (ending s1) && err_seen (ending s1))).
  { rewrite app_nil_r. destruct s1, ending0. exact Hbody. }
  destruct (code (ending s1)) as [c|] eqn:Hcode.
  - rewrite app_assoc. eapply (kept_exit t s1); try done. apply Hbody. by rewrite Hcode.
  - rewrite app_nil_r. by destruct s1, ending0.
Qed.

Lemma kept_run t steps s accepted events :
  kept s accepted events →
  let '(s', more, sent) := run_shell t steps s in kept s' (app accepted more) (app events sent).
Proof.
  revert s accepted events. induction steps as [|[a|id m] steps IH]; intros s accepted events Hk; cbn [run_shell].
  - by rewrite !app_nil_r.
  - pose proof (kept_arm t a s accepted events Hk) as Ha. destruct (select t a s) as [s1 sent]. specialize (IH s1 _ _ Ha).
    destruct (run_shell t steps s1) as [[s2 more] later]. by rewrite app_assoc.
  - unfold claim. destruct (ended s) eqn:He; [|destruct (current s) as [now|] eqn:Hc; cbn [is_some]].
    1,2: specialize (IH s _ _ Hk); destruct (run_shell t steps s) as [[s2 more] later]; exact IH.
    destruct Hk as [H1 H2 H3 H4 H5]. rewrite Hc in *.
    match goal with |- context [run_shell t steps ?s1] => specialize (IH s1 (app accepted [id]) events); destruct (run_shell t steps s1) as [[s2 more] later] end.
    rewrite <-app_assoc in IH. apply IH. split; try done.
    + rewrite map_app. cbn. by rewrite H1, app_nil_r.
    + by apply told_more.
Qed.

Lemma run_shell_kept (terminal_id : string) (steps : list Step) :
  let '(s, accepted, events) := run_shell terminal_id steps new_shell in
  map Some accepted = app (exits events) (match current s with Some id => [Some id] | None => [] end) ∧ told accepted 0 events.
Proof.
  pose proof (kept_run terminal_id steps new_shell [] []) as Hrun. destruct (run_shell _ _ _) as [[s accepted] events].
  cbn [app] in Hrun. assert (kept s accepted events) as [] by (apply Hrun; by split). done.
Qed.

(** C7. Each command a terminal accepts ends exactly once, in the order it took them.
    Whatever its pipes give and whichever timers pass, the exits sent are those of the
    commands claimed but for the one still running; lines are numbered from one after each
    exit and carry the command then running; and once the reader has finished, the shell
    runs nothing, every command it took has had its exit, and it takes no more. *)
Theorem each_command_ends_once (terminal_id : string) (steps : list Step) (waited : Z) :
  let '(s, accepted, events) := run_shell terminal_id steps new_shell in
  map Some accepted = app (exits events) (match current s with Some id => [Some id] | None => [] end)
  ∧ told accepted 0 events
  ∧ let '(s', last) := finish_reader terminal_id waited s in
    exits (app events last) = map Some accepted
    ∧ told accepted 0 (app events last)
    ∧ current s' = None
    ∧ ∀ id m, claim id m s' = (ShellEnded, s').
Proof.
  pose proof (kept_run terminal_id steps new_shell [] []) as Hrun. destruct (run_shell _ _ _) as [[s accepted] events].
  cbn [app] in Hrun. assert (kept s accepted events) as Hk by (apply Hrun; by split). clear Hrun.
  conjs; [by destruct Hk|by destruct Hk|]. unfold finish_reader.
  set (marked := match code (ending s) with Some _ => _ | None => _ end).
  assert (kept (fst marked) accepted (app events (snd marked))) as Hm.
  { unfold marked. destruct (code (ending s)) as [c|] eqn:Hc; cbn [fst snd]; [|by rewrite app_nil_r].
    apply kept_exit with (s := s); [done| |done|done|done|done]. destruct Hk as [_ _ H3 _ _]. apply H3. by rewrite Hc. }
  destruct marked as [s1 sent]. cbn [fst snd] in Hm. unfold finish_ended_shell. rewrite app_assoc.
  destruct Hm as [H1 H2 H3 H4 H5] eqn:Heq. pose proof (kept_rest _ _ _ Hm) as Hrest. clear Heq.
  rewrite H2. destruct (current s1) as [id|] eqn:Hid; cbn [is_some].
  - conjs; [|apply told_app; split; [done|]|done|done].
    + rewrite exits_app. done.
    + rewrite Hrest. cbn [told default]. rewrite <-H5. conjs; [done|by right|by exists id|done].
  - rewrite app_nil_r in *. by conjs.
Qed.

(** ** A marker read back *)

Definition is_hex : ascii → bool := λ a, byte_in 48 57 a || byte_in 97 102 a.
Definition underscore : ascii := "_".

(** The length up to the first underscore. *)
Fixpoint before_underscore (s : string) : nat :=
  match s with
  | EmptyString => 0
  | String a s => if Ascii.eqb a underscore then 0 else S (before_underscore s)
  end.
Definition no_underscore (s : string) : bool := all_bytes (λ a, negb (Ascii.eqb a underscore)) s.

Lemma before_underscore_app s t : no_underscore s = true → before_underscore (s +:+ t) = (String.length s + before_underscore t)%nat.
Proof.
  unfold no_underscore. induction s as [|a s IH]; [done|]. rewrite str_app_cons. cbn [all_bytes before_underscore String.length].
  intros [Ha Hs]%andb_true_iff. apply negb_true_iff in Ha. by rewrite Ha, IH.
Qed.
Lemma before_underscore_le s t : (before_underscore (s +:+ t) ≤ String.length s + before_underscore t)%nat.
Proof.
  induction s as [|a s IH]; [done|]. rewrite str_app_cons. cbn [before_underscore String.length]. destruct (Ascii.eqb _ _); lia.
Qed.
Lemma no_underscore_app s t : no_underscore (s +:+ t) = no_underscore s && no_underscore t.
Proof.
  unfold no_underscore. induction s as [|a s IH]; [done|]. rewrite str_app_cons. cbn [all_bytes]. by rewrite IH, andb_assoc.
Qed.
Lemma no_underscore_reverse s : no_underscore (reverse_str s) = no_underscore s.
Proof.
  induction s as [|a s IH]; [done|]. change (String a s) with (String a "" +:+ s). rewrite reverse_str_app, !no_underscore_app, IH.
  apply andb_comm.
Qed.
(** [split_once] splits at the first occurrence. *)
Lemma split_once_earliest p u v before after : split_once p (u +:+ p +:+ v) = Some (before, after) → (String.length before ≤ String.length u)%nat.
Proof.
  revert before. induction u as [|a u IH]; intros before.
  - rewrite str_app_nil_l. destruct (p +:+ v) as [|b w] eqn:Hw.
    + destruct p; [|done]. cbn. by intros [= <- <-].
    + cbn [split_once]. rewrite <-Hw, strip_prefix_app. by intros [= <- <-].
  - rewrite str_app_cons. cbn [split_once]. destruct (strip_prefix _ _); [intros [= <- <-]; cbn; lia|].
    destruct (split_once p _) as [[b c]|]; [|done]. intros [= <- <-]. cbn. specialize (IH b eq_refl). lia.
Qed.

Lemma no_underscore_all f s : f underscore = false → all_bytes f s = true → no_underscore s = true.
Proof.
  intros Hf. unfold no_underscore. induction s as [|a s IH]; [done|]. cbn [all_bytes]. intros [Ha Hs]%andb_true_iff.
  rewrite IH by done. destruct (Ascii.eqb_spec a underscore); [congruence|done].
Qed.
Lemma reverse_marker nonce : all_bytes is_hex nonce = true →
  ∀ u, before_underscore (reverse_str (new_marker nonce) +:+ u) = (2 + String.length nonce)%nat.
Proof.
  intros Hn u. unfold new_marker. rewrite !reverse_str_app.
  assert (∀ v, before_underscore (reverse_str MARKER_PREFIX +:+ v) = 1%nat) as Hp by done.
  assert (no_underscore nonce = true) as Hnu by (by apply (no_underscore_all is_hex)).
  rewrite !str_app_assoc, !before_underscore_app, Hp by (by rewrite ?no_underscore_reverse).
  rewrite !reverse_str_length. cbn. lia.
Qed.
(** The last marker in a line is the one at its end. *)
Lemma rsplit_once_marker nonce before rest : all_bytes is_hex nonce = true → no_underscore rest = true →
  rsplit_once (new_marker nonce) (before +:+ new_marker nonce +:+ rest) = Some (before, rest).
Proof.
  intros Hn Hrest. unfold rsplit_once. rewrite !reverse_str_app. set (m := reverse_str (new_marker nonce)).
  rewrite str_app_assoc. destruct (split_once m _) as [[u v]|] eqn:Hs.
  - pose proof (split_once_earliest _ _ _ _ _ Hs) as Hle. apply split_once_Some in Hs.
    pose proof (f_equal before_underscore Hs) as Hbu.
    rewrite before_underscore_app in Hbu by (by rewrite no_underscore_reverse).
    pose proof (before_underscore_le u (m +:+ v)) as Hle2. unfold m in Hbu, Hle2. rewrite !reverse_marker in Hbu, Hle2 by done.
    assert (String.length u = String.length (reverse_str rest)) as Hlen by lia.
    pose proof (f_equal (str_take (String.length u)) Hs) as Ht. rewrite str_take_app, Hlen, str_take_app in Ht. subst u.
    apply str_app_inv_l, str_app_inv_l in Hs. subst v. by rewrite !reverse_str_involutive.
  - apply split_once_None in Hs. exfalso. unfold contains in Hs.
    assert (is_some (split_once m (reverse_str rest +:+ m +:+ reverse_str before)) = true) as Hsome; [|by destruct (split_once _ _)].
    clear. generalize (reverse_str rest) as u. generalize (reverse_str before) as v. intros v u. induction u as [|a u IH].
    + rewrite str_app_nil_l. destruct (m +:+ v) eqn:Hm; [by destruct m|]. cbn [split_once]. by rewrite <-Hm, strip_prefix_app.
    + rewrite str_app_cons. cbn [split_once]. destruct (strip_prefix _ _); [done|]. by destruct (split_once m _) as [[]|].
Qed.
Definition tag_text (tag : Tag) : string := match tag with TagO => "o" | TagE => "e" end.
(** What the payload prints for an exit status, read back. *)
Lemma split_marker_printed nonce before tag c : all_bytes is_hex nonce = true → (0 ≤ c ≤ 255)%Z →
  split_marker (before +:+ new_marker nonce +:+ tag_text tag +:+ ":" +:+ show_unsigned c) (new_marker nonce) = Some (before, tag, c).
Proof.
  intros Hn Hc. unfold split_marker. rewrite rsplit_once_marker.
  - cbn [mbind option_bind]. change (":" +:+ show_unsigned c) with (String ":" (show_unsigned c)).
    rewrite (split_once_char_app ":" (tag_text tag)) by (by destruct tag). cbn [mbind option_bind].
    assert (parse_i32 (show_unsigned c) = Some c) as Hp.
    { unfold parse_i32. pose proof (show_unsigned_digits c) as Hd. destruct (show_unsigned c) as [|a s] eqn:Hs.
      - cbn. pose proof (parse_show_unsigned 255 c Hc) as Hp. by rewrite Hs in Hp.
      - destruct (strip_prefix "-" (String a s)) as [r|] eqn:Hr.
        + apply strip_prefix_Some in Hr. rewrite Hr in Hd. by cbn in Hd.
        + rewrite <-Hs. apply parse_show_unsigned. unfold I32_MAX. lia. }
    destruct tag; cbn; by rewrite Hp.
  - done.
  - rewrite !no_underscore_app. assert (no_underscore (show_unsigned c) = true) as ->
      by (apply (no_underscore_all is_ascii_digit); [done|apply show_unsigned_digits]). by destruct tag.
Qed.

(** ** A command's output, and its end *)

(** A piece: its stream, when it was read, and its text. *)
Definition Piece : Type := Stream * Z * string.
Definition piece_arms (pieces : list Piece) : list Step := map (λ '(stream, now, line), Arms (PieceRead stream now line)) pieces.
Definition nonblank (s : string) : list string := if bool_decide (s = "") then [] else [s].
(** What's shown of a piece that has no marker of the command in flight: all of it, but for
    a late marker of the command before ([p]). *)
Definition heard_of (p : option string) (line : string) : list string :=
  match (m ← p; split_marker line m) with Some (before, _, _) => nonblank before | None => [line] end.
Definition heard (p : option string) (pieces : list Piece) : list (Stream * string) :=
  mjoin (map (λ '(stream, _, line), map (pair stream) (heard_of p line)) pieces).
Fixpoint numbered (t id : string) (seq : Z) (lines : list (Stream * string)) : list ShellEvent :=
  match lines with
  | [] => []
  | (stream, data) :: lines => Line t id stream (u64_add seq 1) data :: numbered t id (u64_add seq 1) lines
  end.
Definition count_on (seq : Z) {A} (lines : list A) : Z := foldl (λ seq _, u64_add seq 1) seq lines.

Lemma numbered_app t id seq l1 l2 :
  numbered t id seq (app l1 l2) = app (numbered t id seq l1) (numbered t id (count_on seq l1) l2).
Proof. revert seq. induction l1 as [|[st d] l1 IH]; intros seq; [done|]. cbn. by rewrite IH. Qed.
Lemma count_on_app {A} seq (l1 l2 : list A) : count_on seq (app l1 l2) = count_on (count_on seq l1) l2.
Proof. unfold count_on. by rewrite foldl_app. Qed.
Lemma run_shell_app t steps1 steps2 s :
  run_shell t (app steps1 steps2) s
  = let '(s1, accepted1, events1) := run_shell t steps1 s in
    let '(s2, accepted2, events2) := run_shell t steps2 s1 in (s2, app accepted1 accepted2, app events1 events2).
Proof.
  revert s. induction steps1 as [|[a|id m] steps1 IH]; intros s; cbn [app run_shell].
  - by destruct (run_shell t steps2 s) as [[]].
  - destruct (select t a s) as [s1 sent]. rewrite IH. destruct (run_shell t steps1 s1) as [[]].
    destruct (run_shell t steps2 _) as [[]]. by rewrite app_assoc.
  - destruct (claim id m s) as [claimed s1]. rewrite IH. destruct (run_shell t steps1 s1) as [[]].
    destruct (run_shell t steps2 _) as [[]]. by rewrite app_assoc.
Qed.

(** A shell with a command in flight, whose other marker hasn't come. *)
Record in_flight (s : Shell) (id m : string) : Prop := {
  fl_current : current s = Some id;
  fl_marker : marker s = Some m;
  fl_waiting : out_seen (ending s) && err_seen (ending s) = false;
}.

Lemma piece_unmarked t id m s stream now line :
  in_flight s id m → split_marker line m = None →
  let lines := map (pair stream) (heard_of (previous (ending s)) line) in
  select t (PieceRead stream now line) s = (s <| seq := count_on (seq s) lines |>, numbered t id (seq s) lines).
Proof.
  intros [Hc Hm Hw] Hline. cbn zeta. unfold select, arm_body, piece_read, find, heard_of, nonblank. rewrite Hm.
  cbn [mbind option_bind]. rewrite Hline.
  destruct (previous (ending s) ≫= λ m0, split_marker line m0) as [[[before tag] c]|]; cbn [mbind option_bind is_some negb orb note].
  - destruct (bool_decide_reflect (before = "")) as [->|Hb]; cbn [negb map numbered count_on foldl].
    + unfold after_arm, complete. destruct s, ending0. cbn in Hw |- *. by rewrite Hw.
    + unfold after_arm, complete. destruct s, ending0. cbn in Hc, Hw |- *. by rewrite Hw, Hc.
  - unfold after_arm, complete. destruct s, ending0. cbn in Hc, Hw |- *. by rewrite Hw, Hc.
Qed.
Lemma pieces_unmarked t id m s pieces :
  in_flight s id m → Forall (λ '(_, _, line), split_marker line m = None) pieces →
  let lines := heard (previous (ending s)) pieces in
  run_shell t (piece_arms pieces) s = (s <| seq := count_on (seq s) lines |>, [], numbered t id (seq s) lines).
Proof.
  intros Hf Hp. cbn zeta. revert s Hf. induction pieces as [|[[stream now] line] pieces IH]; intros s Hf.
  { cbn. by destruct s. }
  apply Forall_cons in Hp as [Hline Hp]. cbn [piece_arms map run_shell].
  rewrite (piece_unmarked t id m s) by done. change (heard (previous (ending s)) ((stream, now, line) :: pieces))
    with (app (map (pair stream) (heard_of (previous (ending s)) line)) (heard (previous (ending s)) pieces)).
  rewrite numbered_app, count_on_app. fold (piece_arms pieces). rewrite (IH Hp); [|destruct s; by destruct Hf]. by destruct s.
Qed.
(** The piece with a marker of the command at its end. *)
Lemma piece_marked t id m s stream now line before tag c :
  in_flight s id m → split_marker line m = Some (before, tag, c) →
  let lines := map (pair stream) (nonblank before) in
  let meaning := match tag with TagO => MarkerOut c | TagE => MarkerErr c end in
  select t (PieceRead stream now line) s
  = let '(s', marked) := after_arm t (s <| seq := count_on (seq s) lines |> <| ending ::= note now meaning |>) in
    (s', app (numbered t id (seq s) lines) marked).
Proof.
  intros [Hc Hm Hw] Hline. cbn zeta. unfold select, arm_body, piece_read, find, nonblank. rewrite Hm.
  cbn [mbind option_bind]. rewrite Hline. cbn [is_some negb orb].
  destruct (bool_decide_reflect (before = "")) as [->|Hb]; cbn [negb map numbered count_on foldl]; destruct s; cbn in Hc |- *; by rewrite ?Hc.
Qed.

(** What the payload prints at a command's end, after the output it follows. *)
Definition printed (m before : string) (tag : Tag) (c : Z) : string := before +:+ m +:+ tag_text tag +:+ ":" +:+ show_unsigned c.
Definition unmarked (m : string) : list Piece → Prop := Forall (λ '(_, _, line), split_marker line m = None).

(** A command claimed and read up to its first marker. *)
Definition half_done (id m : string) (p : option string) (tag : Tag) (c now : Z) (lines : list (Stream * string)) (s : Shell) : Shell :=
  s <| current := Some id |> <| marker := Some m |> <| seq := count_on (seq s) lines |>
    <| ending := Build_Ending (Some c) (match tag with TagO => true | TagE => false end) (match tag with TagO => false | TagE => true end)
                   (Some (now + STDERR_MARKER_WAIT)%Z) p |>.
Lemma half_done_in_flight id m p tag c now lines s : in_flight (half_done id m p tag c now lines s) id m.
Proof. by destruct tag. Qed.

Lemma run_to_first_marker t id m s p first stream now before tag c :
  current s = None ∧ ended s = false ∧ ending s = Build_Ending None false false None p →
  split_marker (printed m before tag c) m = Some (before, tag, c) → unmarked m first →
  let shown := app (heard p first) (map (pair stream) (nonblank before)) in
  run_shell t (app (Claims id m :: piece_arms first) [Arms (PieceRead stream now (printed m before tag c))]) s
  = (half_done id m p tag c now shown s, [id], numbered t id (seq s) shown).
Proof.
  intros (Hc & He & Hend) Hprinted Hfirst. cbn zeta. set (s0 := s <| current := Some id |> <| marker := Some m |>).
  assert (in_flight s0 id m ∧ previous (ending s0) = p) as [Hf0 Hp0].
  { split; [split; try done|]; change (ending s0) with (ending s); by rewrite Hend. }
  pose proof (pieces_unmarked t id m s0 first Hf0 Hfirst) as Hrun. cbn zeta in Hrun. rewrite Hp0 in Hrun.
  change (seq s0) with (seq s) in Hrun. cbn [app run_shell]. unfold claim. rewrite He, Hc. cbn [is_some].
  fold s0. rewrite run_shell_app, Hrun. cbn [run_shell].
  rewrite (piece_marked t id m _ _ _ _ before tag c); [|destruct s; by destruct Hf0|done].
  rewrite numbered_app. unfold half_done. rewrite count_on_app. destruct s as [cur mar en e sq so se ex]. cbn in Hend. subst e.
  destruct tag; cbn; by rewrite !app_nil_r.
Qed.

(** The second marker, or the wait for it over. *)
Lemma run_second_marker t id m p s tag c now1 lines rest stream now before :
  let other := match tag with TagO => TagE | TagE => TagO end in
  let sh := half_done id m p tag c now1 lines s in
  let idle := s <| ending := Build_Ending None false false None (Some m) |> <| current := None |> <| marker := None |> <| seq := 0%Z |> in
  split_marker (printed m before other c) m = Some (before, other, c) → unmarked m rest →
  run_shell t (app (piece_arms rest) [Arms (PieceRead stream now (printed m before other c))]) sh
    = (idle, [], app (numbered t id (seq sh) (app (heard p rest) (map (pair stream) (nonblank before)))) [Marker t (Some id) c])
  ∧ run_shell t (app (piece_arms rest) [Arms MarkerLate]) sh
    = (idle, [], app (numbered t id (seq sh) (heard p rest)) [Marker t (Some id) c]).
Proof.
  cbn zeta. intros Hprinted Hrest. pose proof (half_done_in_flight id m p tag c now1 lines s) as Hf.
  set (sh := half_done id m p tag c now1 lines s) in *.
  pose proof (pieces_unmarked t id m sh rest Hf Hrest) as Hrun. cbn zeta in Hrun.
  replace (previous (ending sh)) with p in Hrun by (by destruct tag).
  split; rewrite run_shell_app, Hrun; cbn [run_shell].
  - rewrite (piece_marked t id m _ _ _ _ before (match tag with TagO => TagE | TagE => TagO end) c); [|by destruct tag|exact Hprinted].
    rewrite numbered_app. destruct tag; destruct s; cbn; by rewrite !app_nil_r, !app_assoc.
  - unfold sh. destruct tag; destruct s; cbn; by rewrite ?app_nil_r.
Qed.

(** A command ends once both its markers have come, with the code they carry.  Whatever
    it writes to its two pipes, and however the pieces of one fall between those of the
    other, every line of both is sent, in the order read, before its exit; the markers are
    taken out of them, whichever stream each arrives on, and so is a late one of the command
    before.  If the second marker doesn't come in time, the exit is sent all the same. *)
Theorem a_command_ends_with_its_code (t id nonce : string) (s : Shell) (p : option string) (first rest : list Piece)
    (stream1 stream2 : Stream) (now1 now2 : Z) (before1 before2 : string) (tag : Tag) (c : Z)
    (Hidle : current s = None ∧ ended s = false ∧ ending s = Build_Ending None false false None p)
    (Hnonce : all_bytes is_hex nonce = true) (Hcode : (0 ≤ c ≤ 255)%Z)
    (Hfirst : unmarked (new_marker nonce) first) (Hrest : unmarked (new_marker nonce) rest) :
  let m := new_marker nonce in
  let other := match tag with TagO => TagE | TagE => TagO end in
  let idle := s <| ending := Build_Ending None false false None (Some m) |> <| current := None |> <| marker := None |> <| seq := 0%Z |> in
  let start := app (Claims id m :: piece_arms first) [Arms (PieceRead stream1 now1 (printed m before1 tag c))] in
  let shown := app (heard p first) (map (pair stream1) (nonblank before1)) in
  run_shell t (app start (app (piece_arms rest) [Arms (PieceRead stream2 now2 (printed m before2 other c))])) s
    = (idle, [id],
       app (numbered t id (seq s) (app shown (app (heard p rest) (map (pair stream2) (nonblank before2))))) [Marker t (Some id) c])
  ∧ run_shell t (app start (app (piece_arms rest) [Arms MarkerLate])) s
    = (idle, [id], app (numbered t id (seq s) (app shown (heard p rest))) [Marker t (Some id) c]).
Proof.
  cbn zeta. set (m := new_marker nonce) in *. set (other := match tag with TagO => TagE | TagE => TagO end).
  assert (∀ before tag, split_marker (printed m before tag c) m = Some (before, tag, c)) as Hprinted
    by (intros; by apply split_marker_printed).
  pose proof (run_to_first_marker t id m s p first stream1 now1 before1 tag c Hidle (Hprinted _ _) Hfirst) as Hstart. cbn zeta in Hstart.
  set (shown := app (heard p first) _) in *.
  destruct (run_second_marker t id m p s tag c now1 shown rest stream2 now2 before2 (Hprinted _ _) Hrest) as [Hend Hlate].
  rewrite !(run_shell_app t (app _ [Arms (PieceRead stream1 _ _)])), Hstart. fold other in Hend. rewrite Hend, Hlate.
  change (seq (half_done id m p tag c now1 shown s)) with (count_on (seq s) shown).
  by rewrite !(numbered_app t id (seq s) shown), !app_assoc.
Qed.

Lemma a_command_ends_with_its_code_witness :
  let m := new_marker "0123456789ab0123456789ab" in
  snd (run_shell "t1"
         [Claims "c1" m; Arms (PieceRead Stdout 5 "building"); Arms (PieceRead Stderr 6 "warning: unused");
          Arms (PieceRead Stdout 7 (printed m "done" TagO 3)); Arms (PieceRead Stderr 8 "late words");
          Arms (PieceRead Stderr 9 (printed m "" TagE 3))] new_shell)
  = [Line "t1" "c1" Stdout 1 "building"; Line "t1" "c1" Stderr 2 "warning: unused"; Line "t1" "c1" Stdout 3 "done";
     Line "t1" "c1" Stderr 4 "late words"; Marker "t1" (Some "c1") 3].
Proof.
  cbn zeta. set (m := new_marker "0123456789ab0123456789ab").
  pose proof (a_command_ends_with_its_code "t1" "c1" "0123456789ab0123456789ab" new_shell None
    [(Stdout, 5%Z, "building"); (Stderr, 6%Z, "warning: unused")] [(Stderr, 8%Z, "late words")]
    Stdout Stderr 7 9 "done" "" TagO 3 ltac:(done) ltac:(vm_compute; reflexivity) ltac:(lia)
    ltac:(repeat constructor) ltac:(repeat constructor)) as [Hrun _].
  cbn [app piece_arms map] in Hrun. fold m in Hrun. rewrite Hrun. vm_compute. reflexivity.
Defined.

(** ** The terminals *)

(** A shell's number stands for its [Arc] and its [bash_pid]; [sent]: what has been put on
    the events channel outside the readers. *)
Record AppState := {
  terminals : gmap string nat;
  shells : gmap nat Shell;
  next_shell : nat;
  sent_events : list ShellEvent;
}.
#[export] Instance AppState_eta : Eta AppState := λ w, Build_AppState (terminals w) (shells w) (next_shell w) (sent_events w).

(** [spawned]: whether [bash] started and took its setup. *)
Definition spawn_shell (spawned : Result unit string) (w : AppState) : Result nat string * AppState :=
  match spawned with
  | Err message => (Err message, w)
  | Ok _ => (Ok (next_shell w), w <| shells ::= <[next_shell w := new_shell]> |> <| next_shell ::= S |>)
  end.
Definition create_terminal (spawned : Result unit string) (terminal_id : string) (w : AppState) : Reply * AppState :=
  if is_some (terminals w !! terminal_id) then (reply_error "terminal_id already exists", w)
  else
    match spawn_shell spawned w with
    | (Err message, w) => (reply_error message, w)
    | (Ok shell, w) => (TerminalCreated, w <| terminals ::= <[terminal_id := shell]> |>)
    end.
(** Also the shell whose group is killed. *)
Definition terminate_terminal (terminal_id : string) (w : AppState) : Reply * option nat * AppState :=
  let shell := terminals w !! terminal_id in
  let w := w <| terminals ::= delete terminal_id |> in
  match shell with
  | None => (reply_error "unknown terminal_id", None, w)
  | Some n =>
      match shells w !! n with
      | Some s => (TerminalTerminated, if ended s then None else Some n, w)
      | None => (TerminalTerminated, None, w)
      end
  end.
Definition shell_for_command (spawned : Result unit string) (terminal_id : string) (w : AppState) : option (Result nat string) * AppState :=
  match terminals w !! terminal_id with
  | None => (None, w)
  | Some n =>
      if negb (match shells w !! n with Some s => ended s | None => false end) then (Some (Ok n), w)
      else
        match spawn_shell spawned w with
        | (Ok new, w) => (Some (Ok new), w <| terminals ::= <[terminal_id := new]> |>)
        | (Err message, w) => (Some (Err message), w)
        end
  end.

Inductive Started := StartedIn (shell : nat) | UnknownTerminal | CantStart | AnotherInFlight | StillTrying.
(** Each round: whether a new shell would start, and what happens between finding the shell
    and taking its lock; a shell found ended under the lock is another round. *)
Fixpoint start_command (rounds : list (Result unit string * (AppState → AppState))) (terminal_id id m : string) (w : AppState)
    : Started * AppState :=
  match rounds with
  | [] => (StillTrying, w)
  | (spawned, between) :: rounds =>
      match shell_for_command spawned terminal_id w with
      | (None, w) => (UnknownTerminal, w)
      | (Some (Err message), w) =>
          (CantStart, w <| sent_events ::= λ sent, app sent
             [Line terminal_id id Stderr 1 ("smelt: " +:+ message); Marker terminal_id (Some id) 127] |>)
      | (Some (Ok n), w) =>
          let w := between w in
          match shells w !! n with
          | None => (StillTrying, w)
          | Some s =>
              match claim id m s with
              | (ShellEnded, _) => start_command rounds terminal_id id m w
              | (InFlight, _) => (AnotherInFlight, w)
              | (Claimed, s) => (StartedIn n, w <| shells ::= <[n := s]> |>)
              end
          end
      end
  end.

(** A command started is the one in flight of a live shell. *)
Lemma start_command_starts rounds terminal_id id m (w : AppState) :
  let '(started, w') := start_command rounds terminal_id id m w in
  match started with
  | StartedIn n => ∃ s, shells w' !! n = Some s ∧ current s = Some id ∧ marker s = Some m ∧ ended s = false
  | _ => True
  end.
Proof.
  revert w. induction rounds as [|[spawned between] rounds IH]; intros w; cbn [start_command]; [done|].
  destruct (shell_for_command spawned terminal_id w) as [[[n|message]|] w1]; [|done..].
  destruct (shells (between w1) !! n) as [s|]; [|done]. unfold claim.
  destruct (ended s) eqn:He; [apply IH|]. destruct (is_some (current s)); [done|].
  eexists. conjs; [apply lookup_insert_eq|done..].
Qed.

Inductive UnixSignal := SIGINT | SIGTERM | SIGKILL.
Definition parse_signal (name : string) : option UnixSignal :=
  if bool_decide (name = "INT") then Some SIGINT
  else if bool_decide (name = "TERM") then Some SIGTERM
  else if bool_decide (name = "KILL") then Some SIGKILL else None.
Definition SIGNAL_DISCOVERY_RETRIES : nat := 10.
(** [split_whitespace], of the kernel's ASCII. *)
Definition fields (s : string) : list string := List.filter (λ f, negb (bool_decide (f = ""))) (split_on ws1 s).
(** [stat]: the process's [/proc/<pid>/stat], when it can be read. *)
Definition pgid_of (stat : option string) : option Z :=
  stat ← stat; '(_, after_comm) ← rsplit_once ")" stat; pgrp ← fields after_comm !! 2; parse_i32 pgrp.
(** [children]: the file of the shell's children at each look. *)
Fixpoint first_child (looks : list (option string)) : option Z :=
  match looks with
  | [] => None
  | contents :: looks =>
      match (c ← contents; first ← head (fields c); parse_i32 first) with
      | Some pid => Some pid
      | None => first_child looks
      end
  end.
Definition discover_current_job_pgid (children : nat → option string) (stat : Z → option string) : option Z :=
  pid ← first_child (map children (List.seq 0 SIGNAL_DISCOVERY_RETRIES)); Some (default pid (pgid_of (stat pid))).
(** The process group signalled, and what with. *)
Definition signal_current_command (children : nat → nat → option string) (stat : Z → option string)
    (terminal_id id signal : string) (w : AppState) : option (Z * UnixSignal) :=
  n ← terminals w !! terminal_id; s ← shells w !! n;
  if ended s then None
  else if negb (bool_decide (current s = Some id)) then None
  else sig ← parse_signal signal; pgid ← discover_current_job_pgid (children n) stat; Some (pgid, sig).

(** A command goes to its terminal's live shell, or hears at once why not.  However the
    shells end and start meanwhile, a command started is the one in flight of a shell that
    hasn't ended and ran nothing; it's refused only when that shell runs another, with
    nothing changed, or when the terminal is unknown; one whose new shell couldn't start
    gets a line saying so and exit 127.  With nothing in between, the first try settles it. *)
Theorem commands_go_to_live_shells rounds terminal_id id m (w : AppState) :
  (let '(started, w') := start_command rounds terminal_id id m w in
   match started with
   | StartedIn n =>
       ∃ w1 s, shells w1 !! n = Some s ∧ ended s = false ∧ current s = None
         ∧ w' = w1 <| shells ::= <[n := s <| current := Some id |> <| marker := Some m |>]> |>
   | AnotherInFlight => ∃ n s other, shells w' !! n = Some s ∧ ended s = false ∧ current s = Some other
   | UnknownTerminal => terminals w' !! terminal_id = None
   | CantStart =>
       ∃ w1 message, w' = w1 <| sent_events ::= λ sent, app sent
         [Line terminal_id id Stderr 1 ("smelt: " +:+ message); Marker terminal_id (Some id) 127] |>
   | StillTrying => True
   end)
  ∧ ∀ spawned, (∀ n, terminals w !! terminal_id = Some n → is_some (shells w !! n) = true) →
      fst (start_command [(spawned, λ w, w)] terminal_id id m w) ≠ StillTrying.
Proof.
  split.
  - revert w. induction rounds as [|[spawned between] rounds IH]; intros w; cbn [start_command]; [done|].
    destruct (shell_for_command spawned terminal_id w) as [[[n|message]|] w1] eqn:Hs.
    + destruct (shells (between w1) !! n) as [s|] eqn:Hn; [|done]. unfold claim.
      destruct (ended s) eqn:He; [apply IH|]. destruct (current s) as [other|] eqn:Hc; cbn [is_some].
      * by exists n, s, other.
      * by exists (between w1), s.
    + by exists w1, message.
    + unfold shell_for_command in Hs. destruct (terminals w !! terminal_id) as [n|] eqn:Ht; [|injection Hs as <-; exact Ht].
      destruct (negb _); [done|]. by destruct (spawn_shell spawned w) as [[]].
  - intros spawned Hknown. cbn [start_command]. unfold shell_for_command.
    destruct (terminals w !! terminal_id) as [n|]; [|done]. specialize (Hknown n eq_refl).
    destruct (shells w !! n) as [s|] eqn:Hn; [|done]. destruct (ended s) eqn:He; cbn [negb].
    + destruct spawned as [[]|message]; cbn [spawn_shell]; [|done]. cbn. rewrite lookup_insert_eq. by cbn.
    + rewrite Hn. unfold claim. rewrite He. by destruct (is_some (current s)).
Qed.
