(* ===== verification/AgentClient.v ===== *)
(** * AgentClient: the sandbox agent's connections to smelt

    [src/src/bin/sandbox_agent/client.rs]: one connection at a time, the newest one, which
    the shells' events are sent on; and what becomes of an event whose send fails.

    A connection's task is a phase (greeting, waiting in its [select!], or sending an event),
    and each await it may be left at is between two steps, so that an older connection's
    send can fail after a newer one has taken over.  A send that returned [Ok] is accepted;
    it arrives only if smelt still reads the socket, which the agent can't tell.  Replies and script MCP calls don't go
    through the events and aren't modelled, and no message fails to serialize. *)

From S2P Require Import Prelude RustStr AgentProtocol AgentCommands.
Local Open Scope string_scope.

Definition event_message (event : ShellEvent) : option AgentMessage :=
  match event with
  | Line terminal_id id stream seq data => Some (Output id terminal_id stream seq data)
  | Marker terminal_id id exit_code => id ← id; Some (Exit id terminal_id exit_code)
  end.

(** ** The agent's state and its connections *)

Inductive Phase := Greeting | Waiting | Sending (message : AgentMessage).
(** [replaced]: a newer connection has told this one to close. *)
Record Connection := { replaced : bool; phase : Phase }.

Record Agent := {
  events_rx : list ShellEvent;
  live : option nat;
  next_connection : nat;
  unsent : option AgentMessage;
  unsent_ready : bool;
  connections : gmap nat Connection;
  accepted : list (AgentMessage * bool);
}.
#[export] Instance Agent_eta : Eta Agent := λ a,
  Build_Agent (events_rx a) (live a) (next_connection a) (unsent a) (unsent_ready a) (connections a) (accepted a).
Definition new_state : Agent := Build_Agent [] None 0 None false ∅ [].

(** The newest connection is the live one; the one before is told. *)
Definition take_over (a : Agent) : Agent :=
  let id := next_connection a in
  let told :=
    match live a with
    | Some previous => alter (λ c, Build_Connection true (phase c)) previous (connections a)
    | None => connections a
    end in
  a <| next_connection := S id |> <| live := Some id |> <| connections := <[id := Build_Connection false Greeting]> told |>.
Definition release (id : nat) (a : Agent) : Agent := if bool_decide (live a = Some id) then a <| live := None |> else a.
(** The task over. *)
Definition close (id : nat) (a : Agent) : Agent := release id (a <| connections ::= delete id |>).

Definition set_phase (id : nat) (p : Phase) (a : Agent) : Agent :=
  a <| connections ::= alter (λ c, Build_Connection (replaced c) p) id |>.
(** [send_unsent]: the event kept is taken, and its send begun. *)
Definition send_unsent (id : nat) (a : Agent) : Agent :=
  match unsent a with
  | Some message => set_phase id (Sending message) (a <| unsent := None |>)
  | None => set_phase id Waiting a
  end.

(** What happens next: a shell's event, a new connection, or one arm of a connection's
    [select!] or the end of its send.  [Closed]: the peer closed, or receiving failed.
    [Sent]: the send returned [Ok], and whether smelt gets the message: one the kernel took
    for a socket smelt had abandoned doesn't arrive. *)
Inductive ClientStep :=
  | Produced (event : ShellEvent)
  | Connected
  | Greeted (id : nat)
  | Replaced (id : nat)
  | UnsentReady (id : nat)
  | EventTaken (id : nat)
  | Closed (id : nat)
  | Sent (id : nat) (arrives : bool)
  | SendFailed (id : nat).

(** [biased]: a connection told to close takes no other arm. *)
Definition client_step (step : ClientStep) (a : Agent) : Agent :=
  match step with
  | Produced event => a <| events_rx ::= λ events, app events [event] |>
  | Connected => take_over a
  | Greeted id =>
      match connections a !! id with
      | Some (Build_Connection _ Greeting) => send_unsent id a
      | _ => a
      end
  | Replaced id =>
      match connections a !! id with
      | Some (Build_Connection true Waiting) => close id a
      | _ => a
      end
  | UnsentReady id =>
      match connections a !! id with
      | Some (Build_Connection false Waiting) =>
          if unsent_ready a then send_unsent id (a <| unsent_ready := false |>) else a
      | _ => a
      end
  | EventTaken id =>
      match connections a !! id, events_rx a with
      | Some (Build_Connection false Waiting), event :: events =>
          let a := a <| events_rx := events |> in
          match event_message event with Some message => set_phase id (Sending message) a | None => a end
      | _, _ => a
      end
  | Closed id =>
      match connections a !! id with
      | Some (Build_Connection false Waiting) => close id a
      | _ => a
      end
  | Sent id arrives =>
      match connections a !! id with
      | Some (Build_Connection _ (Sending message)) => set_phase id Waiting a <| accepted ::= λ sent, app sent [(message, arrives)] |>
      | _ => a
      end
  | SendFailed id =>
      match connections a !! id with
      | Some (Build_Connection _ (Sending message)) => close id a <| unsent := Some message |> <| unsent_ready := true |>
      | _ => a
      end
  end.
Definition client_run (steps : list ClientStep) (a : Agent) : Agent := foldl (flip client_step) a steps.

(** ** What becomes of the events *)

Definition produced (steps : list ClientStep) : list AgentMessage :=
  omap (λ step, match step with Produced event => event_message event | _ => None end) steps.
Definition opt_list {A} (o : option A) : list A := match o with Some x => [x] | None => [] end.
Definition message_of (c : Connection) : option AgentMessage := match phase c with Sending message => Some message | _ => None end.
Definition sending (a : Agent) : list AgentMessage := omap (λ '(_, c), message_of c) (map_to_list (connections a)).
(** What a step overwrites: the event kept already when another's send fails. *)
Definition overwrites (step : ClientStep) (a : Agent) : list AgentMessage :=
  match step with
  | SendFailed id => match (c ← connections a !! id; message_of c) with Some _ => opt_list (unsent a) | None => [] end
  | _ => []
  end.
Fixpoint overwritten (steps : list ClientStep) (a : Agent) : list AgentMessage :=
  match steps with
  | [] => []
  | step :: steps => app (overwrites step a) (overwritten steps (client_step step a))
  end.
(** No connection opens while another is still open. *)
Fixpoint one_at_a_time (steps : list ClientStep) (a : Agent) : Prop :=
  match steps with
  | [] => True
  | step :: steps =>
      match step with Connected => connections a = ∅ | _ => True end ∧ one_at_a_time steps (client_step step a)
  end.

(** What smelt got, and what a socket it had abandoned took. *)
Definition delivered (a : Agent) : list AgentMessage := omap (λ '(message, arrives), if arrives : bool then Some message else None) (accepted a).
Definition lost (a : Agent) : list AgentMessage := omap (λ '(message, arrives), if arrives : bool then None else Some message) (accepted a).
(** What the agent still has, and that with everything its sends took. *)
Definition held_events (a : Agent) : list AgentMessage := app (sending a) (app (opt_list (unsent a)) (omap event_message (events_rx a))).
Definition kept_events (a : Agent) : list AgentMessage := app (map fst (accepted a)) (held_events a).

(** ** The connections' sends *)

Definition sending_of (m : gmap nat Connection) : list AgentMessage := omap (λ '(_, c), message_of c) (map_to_list m).
Lemma sending_of_perm l1 l2 : l1 ≡ₚ l2 →
  omap (λ '((_, c) : nat * Connection), message_of c) l1 ≡ₚ omap (λ '((_, c) : nat * Connection), message_of c) l2.
Proof. by intros ->. Qed.
Lemma sending_insert_new i c m : m !! i = None → sending_of (<[i := c]> m) ≡ₚ app (opt_list (message_of c)) (sending_of m).
Proof.
  intros Hi. unfold sending_of. rewrite (sending_of_perm _ _ (map_to_list_insert m i c Hi)). cbn. by destruct (message_of c).
Qed.
Lemma sending_lookup i c m : m !! i = Some c → sending_of m ≡ₚ app (opt_list (message_of c)) (sending_of (delete i m)).
Proof. intros Hi. rewrite <-(insert_delete_id m i c Hi) at 1. apply sending_insert_new. apply lookup_delete_eq. Qed.
Lemma sending_alter i c f m : m !! i = Some c →
  sending_of (alter f i m) ≡ₚ app (opt_list (message_of (f c))) (sending_of (delete i m)).
Proof.
  intros Hi. assert (alter f i m = <[i := f c]> (delete i m)) as ->.
  { rewrite insert_delete_eq. apply map_eq. intros j. destruct (decide (i = j)) as [<-|Hj].
    - by rewrite lookup_alter_eq, Hi, lookup_insert_eq.
    - by rewrite lookup_alter_ne, lookup_insert_ne. }
  apply sending_insert_new. apply lookup_delete_eq.
Qed.
Lemma sending_alter_same i f m : (∀ c, message_of (f c) = message_of c) → sending_of (alter f i m) ≡ₚ sending_of m.
Proof.
  intros Hf. destruct (m !! i) as [c|] eqn:Hi.
  - by rewrite (sending_alter i c f m Hi), Hf, <-sending_lookup.
  - replace (alter f i m) with m; [done|]. symmetry. by apply alter_id_None || apply map_eq; intros j; destruct (decide (i = j)) as [<-|Hj];
      [rewrite lookup_alter_eq, Hi|rewrite lookup_alter_ne].
Qed.

(** Two lists of messages are permutations when each message occurs as often in both. *)
Definition occurs (x : AgentMessage) (l : list AgentMessage) : nat := count_occ AgentMessage_eq_dec l x.
Lemma occurs_app x l k : occurs x (app l k) = (occurs x l + occurs x k)%nat.
Proof. apply count_occ_app. Qed.
Lemma occurs_cons x m l : occurs x (m :: l) = (occurs x [m] + occurs x l)%nat.
Proof. apply (occurs_app x [m]). Qed.
Lemma occurs_perm l k : l ≡ₚ k ↔ ∀ x, occurs x l = occurs x k.
Proof. apply Permutation_count_occ. Qed.
Ltac count_messages :=
  apply occurs_perm; let x := fresh "x" in intros x; cbn [opt_list app] in *;
  repeat match goal with H : _ ≡ₚ _ |- _ => rewrite occurs_perm in H; specialize (H x) end;
  rewrite ?occurs_app in *;
  repeat match goal with
  | |- context [occurs x (?m :: ?l)] => lazymatch l with [] => fail | _ => rewrite (occurs_cons x m l) end
  | H : context [occurs x (?m :: ?l)] |- _ => lazymatch l with [] => fail | _ => rewrite (occurs_cons x m l) in H end
  end; change (occurs x []) with 0%nat in *; lia.

Lemma sending_close id a : sending (close id a) = sending_of (delete id (connections a)).
Proof. unfold close, release. by case_bool_decide. Qed.
Lemma send_unsent_kept id c a : connections a !! id = Some c → message_of c = None → kept_events (send_unsent id a) ≡ₚ kept_events a.
Proof.
  intros Hc Hm. unfold send_unsent, kept_events, held_events. pose proof (sending_lookup id c (connections a) Hc) as H1. rewrite Hm in H1.
  destruct (unsent a) as [message|] eqn:Hu; cbn [accepted events_rx unsent set_phase].
  - pose proof (sending_alter id c (λ c, Build_Connection (replaced c) (Sending message)) (connections a) Hc) as H2.
    change (sending (set_phase id (Sending message) (a <| unsent := None |>)))
      with (sending_of (alter (λ c, Build_Connection (replaced c) (Sending message)) id (connections a))).
    change (sending a) with (sending_of (connections a)).
    change (accepted (set_phase id (Sending message) (a <| unsent := None |>))) with (accepted a).
    change (unsent (set_phase id (Sending message) (a <| unsent := None |>))) with (@None AgentMessage).
    change (events_rx (set_phase id (Sending message) (a <| unsent := None |>))) with (events_rx a).
    cbn [message_of phase] in H2. count_messages.
  - pose proof (sending_alter id c (λ c, Build_Connection (replaced c) Waiting) (connections a) Hc) as H2.
    change (sending (set_phase id Waiting a)) with (sending_of (alter (λ c, Build_Connection (replaced c) Waiting) id (connections a))).
    change (sending a) with (sending_of (connections a)).
    change (accepted (set_phase id Waiting a)) with (accepted a).
    change (unsent (set_phase id Waiting a)) with (unsent a). rewrite Hu.
    change (events_rx (set_phase id Waiting a)) with (events_rx a). cbn [message_of phase] in H2. count_messages.
Qed.

(** Connections are numbered as they come. *)
Definition numbered_below (a : Agent) : Prop := ∀ id, is_some (connections a !! id) = true → (id < next_connection a)%nat.

Lemma numbered_step step a : numbered_below a → numbered_below (client_step step a).
Proof.
  intros Hn.
  assert (∀ id p a', connections a' = connections a → next_connection a' = next_connection a → numbered_below (set_phase id p a')) as Hphase.
  { intros id p a' Hc Hx j. unfold set_phase, set_field. cbn [connections next_connection]. rewrite lookup_alter_some, Hc, Hx. apply Hn. }
  assert (∀ id a', connections a' = connections a → next_connection a' = next_connection a → numbered_below (close id a')) as Hclose.
  { intros id a' Hc Hx j. unfold close, release. case_bool_decide; unfold set_field; cbn [connections next_connection]; rewrite Hc, Hx;
      intros Hj; apply Hn; by eapply lookup_delete_some. }
  assert (∀ id a', connections a' = connections a → next_connection a' = next_connection a → numbered_below (send_unsent id a')) as Hsend.
  { intros id a' Hc Hx. unfold send_unsent. destruct (unsent a'); by apply Hphase. }
  destruct step as [event| |id|id|id|id|id|id arrives|id]; cbn [client_step];
    try (repeat case_match; first [exact Hn|by apply Hphase|by apply Hclose|by apply Hsend|exact (Hclose id a eq_refl eq_refl)|exact (Hphase id Waiting a eq_refl eq_refl)]).
  intros j. unfold take_over, set_field. cbn [connections next_connection]. destruct (decide (next_connection a = j)) as [<-|Hj]; [lia|].
    rewrite lookup_insert_ne by done. destruct (live a); rewrite ?lookup_alter_some; intros Hs; apply Hn in Hs; lia.
Qed.

Lemma kept_step step a : numbered_below a →
  app (kept_events (client_step step a)) (overwrites step a) ≡ₚ app (kept_events a) (produced [step]).
Proof.
  intros Hn. destruct step as [event| |id|id|id|id|id|id arrives|id]; cbn [client_step overwrites produced omap list_omap]; rewrite ?app_nil_r.
  - unfold kept_events, held_events. change (sending (a <| events_rx ::= _ |>)) with (sending a). unfold set_field.
    cbn [accepted unsent events_rx]. rewrite omap_app. cbn. destruct (event_message event); count_messages.
  - unfold take_over, kept_events, held_events, set_field. cbn [accepted unsent events_rx].
    set (told := match live a with Some _ => _ | None => _ end).
    assert (sending_of told ≡ₚ sending_of (connections a) ∧ told !! next_connection a = None) as [Htold Hfresh].
    { assert (connections a !! next_connection a = None) as Hnone.
      { destruct (connections a !! next_connection a) eqn:Hx; [|done]. specialize (Hn (next_connection a)). rewrite Hx in Hn. specialize (Hn eq_refl). lia. }
      unfold told. destruct (live a) as [l|]; [|done]. split; [by apply sending_alter_same|].
      pose proof (lookup_alter_some (λ c, Build_Connection true (phase c)) l (next_connection a) (connections a)) as Hs.
      rewrite Hnone in Hs. by destruct (alter _ l _ !! _). }
    pose proof (sending_insert_new (next_connection a) (Build_Connection false Greeting) told Hfresh) as Hnew. cbn [message_of phase] in Hnew.
    change (sending (Build_Agent _ _ _ _ _ ?m _)) with (sending_of m). change (sending a) with (sending_of (connections a)). count_messages.
  - destruct (connections a !! id) as [[r []]|] eqn:Hc; try done. by apply (send_unsent_kept id (Build_Connection r Greeting)).
  - destruct (connections a !! id) as [[[] []]|] eqn:Hc; try done. unfold kept_events, held_events. rewrite sending_close.
    pose proof (sending_lookup id _ _ Hc) as H1. cbn [message_of phase] in H1. change (sending a) with (sending_of (connections a)).
    unfold close, release, set_field. case_bool_decide; cbn [accepted unsent events_rx]; count_messages.
  - destruct (connections a !! id) as [[[] []]|] eqn:Hc; try done. destruct (unsent_ready a); [|done].
    by rewrite (send_unsent_kept id (Build_Connection false Waiting)).
  - destruct (connections a !! id) as [[[] []]|] eqn:Hc; try done. destruct (events_rx a) as [|event events] eqn:Hq; [done|].
    pose proof (sending_lookup id _ _ Hc) as H1. cbn [message_of phase] in H1. unfold kept_events, held_events. rewrite Hq. cbn [omap list_omap].
    destruct (event_message event) as [message|]; [|by (unfold sending, set_field; cbn)].
    pose proof (sending_alter id _ (λ c, Build_Connection (replaced c) (Sending message)) _ Hc) as H2. cbn [message_of phase] in H2.
    unfold set_phase, set_field. cbn [accepted unsent events_rx].
    change (sending (Build_Agent _ _ _ _ _ ?m _)) with (sending_of m). change (sending a) with (sending_of (connections a)).
    cbn [connections]. count_messages.
  - destruct (connections a !! id) as [[[] []]|] eqn:Hc; try done. unfold kept_events, held_events. rewrite sending_close.
    pose proof (sending_lookup id _ _ Hc) as H1. cbn [message_of phase] in H1. change (sending a) with (sending_of (connections a)).
    unfold close, release, set_field. case_bool_decide; cbn [accepted unsent events_rx]; count_messages.
  - destruct (connections a !! id) as [[r []]|] eqn:Hc; try done. unfold kept_events, held_events.
    pose proof (sending_lookup id _ _ Hc) as H1. cbn [message_of phase] in H1.
    pose proof (sending_alter id _ (λ c, Build_Connection (replaced c) Waiting) _ Hc) as H2. cbn [message_of phase] in H2.
    unfold set_phase, set_field. cbn [accepted unsent events_rx].
    change (sending (Build_Agent _ _ _ _ _ ?m _)) with (sending_of m). change (sending a) with (sending_of (connections a)).
    cbn [connections]. rewrite map_app. cbn [map fst]. count_messages.
  - destruct (connections a !! id) as [[r []]|] eqn:Hc; cbn [mbind option_bind message_of phase]; rewrite ?app_nil_r; try done.
    pose proof (sending_lookup id _ _ Hc) as H1. cbn [message_of phase] in H1. unfold kept_events, held_events.
    assert (sending (close id a <| unsent := Some message |> <| unsent_ready := true |>) = sending_of (delete id (connections a))) as ->
      by (unfold close, release, set_field; by case_bool_decide).
    change (sending a) with (sending_of (connections a)).
    unfold close, release, set_field. case_bool_decide; cbn [accepted unsent events_rx]; count_messages.
Qed.

(** ** One connection after another *)

Inductive single (a : Agent) : Prop :=
  | NoConnection : connections a = ∅ → live a = None → single a
  | OneConnection id p :
      connections a = {[id := Build_Connection false p]} → live a = Some id → (p ≠ Greeting → unsent a = None) → single a.

Lemma sending_singleton id c : sending_of {[id := c]} = opt_list (message_of c).
Proof. unfold sending_of. rewrite map_to_list_singleton. cbn. by destruct (message_of c). Qed.

Definition kept_as (a a' : Agent) (more : list AgentMessage) : Prop := single a' ∧ kept_events a' = app (kept_events a) more.

Lemma single_close id p a : connections a = {[id := Build_Connection false p]} → live a = Some id →
  connections (close id a) = ∅ ∧ live (close id a) = None.
Proof.
  intros Hc Hl. unfold close, release, set_field. cbn [live connections]. rewrite bool_decide_eq_true_2 by done. cbn [live connections].
  by rewrite Hc, delete_singleton_eq.
Qed.
Lemma single_phase id p q a : connections a = {[id := Build_Connection false p]} →
  connections (set_phase id q a) = {[id := Build_Connection false q]}.
Proof. intros Hc. unfold set_phase, set_field. cbn [connections]. by rewrite Hc, alter_singleton_eq. Qed.
Lemma single_send_unsent id p a : connections a = {[id := Build_Connection false p]} → live a = Some id →
  message_of (Build_Connection false p) = None → kept_as a (send_unsent id a) [].
Proof.
  intros Hc Hl Hp. unfold kept_as, kept_events, held_events, sending. rewrite app_nil_r. fold (sending_of (connections a)).
  rewrite Hc, sending_singleton, Hp. unfold send_unsent. destruct (unsent a) as [m|] eqn:Hu.
  - split; [eapply (OneConnection _ id (Sending m)); [by apply (single_phase id p)|done|done]|].
    fold (sending_of (connections (set_phase id (Sending m) (a <| unsent := None |>)))).
    rewrite (single_phase id p (Sending m) (a <| unsent := None |>)) by done. by rewrite sending_singleton.
  - split; [eapply (OneConnection _ id Waiting); [by apply (single_phase id p)|done|done]|].
    fold (sending_of (connections (set_phase id Waiting a))).
    rewrite (single_phase id p Waiting a) by done. rewrite sending_singleton. cbn. by rewrite Hu.
Qed.

Lemma single_step step a : single a → (step = Connected → connections a = ∅) →
  kept_as a (client_step step a) (produced [step]) ∧ overwrites step a = [].
Proof.
  intros Hs Hopen.
  assert (kept_as a a []) as Hsame by (split; [done|by rewrite app_nil_r]).
  destruct Hs as [Hc Hl|id p Hc Hl Hu].
  { destruct step as [event| |id|id|id|id|id|id arrives|id]; cbn [client_step overwrites produced omap list_omap];
      rewrite ?Hc, ?lookup_empty; try done.
    - split; [|done]. split; [by apply NoConnection|]. unfold kept_events, held_events, set_field. cbn [accepted unsent events_rx].
      rewrite omap_app, !app_assoc. done.
    - split; [|done]. unfold take_over. rewrite Hl, Hc. split.
      + by eapply (OneConnection _ (next_connection a) Greeting).
      + unfold kept_events, held_events, sending, set_field. cbn [connections delivered unsent events_rx]. rewrite app_nil_r, Hc.
        assert (omap (λ '(_, c), message_of c) (map_to_list (<[next_connection a := Build_Connection false Greeting]> (∅ : gmap nat Connection))) = []) as ->
          by exact (sending_singleton (next_connection a) (Build_Connection false Greeting)).
        done. }
  assert (∀ j, connections a !! j = if decide (j = id) then Some (Build_Connection false p) else None) as Hlook.
  { intros j. rewrite Hc. destruct (decide (j = id)) as [->|Hj]; [apply lookup_singleton_eq|by apply lookup_singleton_ne]. }
  assert (sending a = opt_list (message_of (Build_Connection false p))) as Hsend by (rewrite <-(sending_singleton id); unfold sending; by rewrite Hc).
  destruct step as [event| |j|j|j|j|j|j arrives|j]; cbn [client_step overwrites produced omap list_omap];
    try (rewrite Hlook; destruct (decide (j = id)) as [->|]; [|done]; destruct p; try done; cbn [mbind option_bind message_of phase]).
  - split; [|done]. split; [by eapply OneConnection|]. unfold kept_events, held_events, set_field. cbn [accepted unsent events_rx].
    rewrite omap_app, !app_assoc. done.
  - specialize (Hopen eq_refl). rewrite Hopen in Hc. exfalso. apply (f_equal (lookup id)) in Hc.
    by rewrite lookup_empty, lookup_singleton_eq in Hc.
  - split; [|done]. by apply (single_send_unsent id Greeting).
  - split; [|done]. destruct (unsent_ready a); [|done].
    change (kept_as (a <| unsent_ready := false |>) (send_unsent id (a <| unsent_ready := false |>)) []).
    by apply (single_send_unsent id Waiting).
  - split; [|done]. destruct (events_rx a) as [|event events] eqn:Hq; [done|]. unfold kept_as, kept_events, held_events. rewrite Hsend, Hq, (Hu ltac:(done)).
    cbn [omap list_omap message_of phase opt_list app]. rewrite app_nil_r.
    destruct (event_message event) as [message|].
    + split; [eapply (OneConnection _ id (Sending message)); [by apply (single_phase id Waiting)|done|]|].
      * intros _. by apply Hu.
      * unfold sending. rewrite (single_phase id Waiting) by done. fold (sending_of {[id := Build_Connection false (Sending message)]}).
        rewrite sending_singleton. change (unsent (set_phase _ _ _)) with (unsent a). by rewrite (Hu ltac:(done)).
    + split; [by eapply (OneConnection _ id Waiting)|]. change (unsent (a <| events_rx := events |>)) with (unsent a).
      rewrite (Hu ltac:(done)). change (sending (a <| events_rx := events |>)) with (sending a). by rewrite Hsend.
  - split; [|done]. destruct (single_close id Waiting a Hc Hl) as [Hc' Hl']. split; [by apply NoConnection|].
    unfold kept_events, held_events. rewrite Hsend, app_nil_r. unfold sending. rewrite Hc'. unfold close, release, set_field. by case_bool_decide.
  - split; [|done]. split; [eapply (OneConnection _ id Waiting); [by apply (single_phase id (Sending message))|done|intros _; by apply Hu]|].
    unfold kept_events, held_events. rewrite Hsend. change (unsent (set_phase id Waiting a <| accepted ::= _ |>)) with (unsent a).
    rewrite (Hu ltac:(done)). unfold sending.
    change (connections (set_phase id Waiting a <| accepted ::= _ |>)) with (connections (set_phase id Waiting a)).
    rewrite (single_phase id (Sending message) Waiting a Hc). fold (sending_of {[id := Build_Connection false Waiting]}).
    rewrite sending_singleton. unfold set_field. cbn [accepted events_rx message_of phase opt_list app set_phase]. by rewrite app_nil_r, map_app, <-app_assoc.
  - rewrite (Hu ltac:(done)). split; [|done]. destruct (single_close id (Sending message) a Hc Hl) as [Hc' Hl']. split; [by apply NoConnection|].
    unfold kept_events, held_events. rewrite Hsend, (Hu ltac:(done)), app_nil_r. unfold sending.
    change (connections (close id a <| unsent := _ |> <| unsent_ready := _ |>)) with (connections (close id a)). rewrite Hc'.
    unfold close, release, set_field. by case_bool_decide.
Qed.

Lemma produced_cons step steps : produced (step :: steps) = app (produced [step]) (produced steps).
Proof. unfold produced. cbn. by destruct (match step with Produced event => event_message event | _ => None end). Qed.
Lemma run_keeps steps a : numbered_below a →
  app (kept_events (client_run steps a)) (overwritten steps a) ≡ₚ app (kept_events a) (produced steps).
Proof.
  revert a. induction steps as [|step steps IH]; intros a Hn; [done|]. cbn [overwritten]. rewrite produced_cons.
  change (client_run (step :: steps) a) with (client_run steps (client_step step a)).
  pose proof (kept_step step a Hn) as Hstep. specialize (IH _ (numbered_step step a Hn)). count_messages.
Qed.
Lemma run_single steps a : single a → one_at_a_time steps a →
  single (client_run steps a) ∧ kept_events (client_run steps a) = app (kept_events a) (produced steps) ∧ overwritten steps a = [].
Proof.
  revert a. induction steps as [|step steps IH]; intros a Hs Hone; [by rewrite app_nil_r|]. cbn [overwritten]. rewrite produced_cons.
  change (client_run (step :: steps) a) with (client_run steps (client_step step a)). destruct Hone as [Hopen Hone].
  destruct (single_step step a Hs) as [[Hs' Hk] Hov]; [by intros ->|]. destruct (IH _ Hs' Hone) as (Hs2 & Hk2 & Hov2).
  conjs; [done| |by rewrite Hov, Hov2]. by rewrite Hk2, Hk, app_assoc.
Qed.

Lemma accepted_apart a : map fst (accepted a) ≡ₚ app (delivered a) (lost a).
Proof.
  unfold delivered, lost. induction (accepted a) as [|[m [|]] l IH]; [done|..]; cbn; rewrite IH; [done|].
  apply Permutation_middle.
Qed.
Lemma accepted_step step a : accepted (client_step step a) = accepted a ∨ ∃ id m arrives, step = Sent id arrives ∧ accepted (client_step step a) = app (accepted a) [(m, arrives)].
Proof.
  destruct step as [event| |id|id|id|id|id|id arrives|id]; cbn [client_step]; unfold send_unsent, close, release; repeat case_match; subst; try by left.
  right. by eexists _, _, _.
Qed.
Lemma all_arrive steps a : (∀ id, Sent id false ∉ steps) → Forall (λ s, snd s = true) (accepted a) →
  let a' := client_run steps a in delivered a' = map fst (accepted a') ∧ lost a' = [].
Proof.
  cbn zeta. revert a. induction steps as [|step steps IH]; intros a Hs Ha.
  - cbn. unfold delivered, lost. induction Ha as [|[m arrives] l Hm Hl [IH1 IH2]]; [done|]. cbn in Hm. subst. cbn. by rewrite IH1, IH2.
  - change (client_run (step :: steps) a) with (client_run steps (client_step step a)). apply IH; [intros id Hin; by apply (Hs id); right|].
    destruct (accepted_step step a) as [->|(id & m & [|] & -> & ->)]; [done|apply Forall_app; by repeat constructor|]. exfalso. apply (Hs id). by left.
Qed.

(** C8. No event is lost but one overwritten or sent into an abandoned socket.  Whatever
    connections open, close and fail, and however their sends overlap, every event a shell
    produced is in exactly one place, once: it reached smelt; or it is being sent, kept for
    the next connection or still queued; or a socket smelt had abandoned took it, its send
    having returned [Ok]; or a second failed send wrote over it in the one slot.  While no
    connection opens before the last one has closed none is written over, and the sends and
    then what is held are in the order produced; and with no send into an abandoned socket
    either, nothing is lost: smelt has got the first of them and the rest are held. *)
Theorem events_are_kept (steps : list ClientStep) :
  let a := client_run steps new_state in
  app (delivered a) (app (held_events a) (app (lost a) (overwritten steps new_state))) ≡ₚ produced steps
  ∧ (one_at_a_time steps new_state →
       overwritten steps new_state = []
       ∧ app (map fst (accepted a)) (held_events a) = produced steps
       ∧ ((∀ id, Sent id false ∉ steps) → lost a = [] ∧ app (delivered a) (held_events a) = produced steps)).
Proof.
  cbn zeta. split.
  - pose proof (run_keeps steps new_state) as Hk. assert (numbered_below new_state) as Hn by (intros id; unfold new_state; cbn [connections]; by rewrite lookup_empty).
    specialize (Hk Hn). unfold kept_events in Hk. pose proof (accepted_apart (client_run steps new_state)) as Ha.
    change (app (map fst (accepted new_state)) (held_events new_state)) with (@nil AgentMessage) in Hk. count_messages.
  - intros Hone. destruct (run_single steps new_state) as (_ & Hk & Hov); [by apply NoConnection|done|]. conjs; [done|done|].
    intros Harrive. destruct (all_arrive steps new_state Harrive) as [Hd Hl]; [by constructor|]. by rewrite Hd.
Qed.

(** An exit is kept after an older connection's send fails, and a newer one's failed send
    writes over it: the command stays running in smelt's records. *)
Lemma two_failed_sends_lose_an_exit :
  let steps := [Produced (Marker "t1" (Some "c1") 0); Produced (Marker "t2" (Some "c2") 0);
                Connected; Greeted 0; EventTaken 0; Connected; Greeted 1; EventTaken 1; SendFailed 0; SendFailed 1;
                Connected; Greeted 2; Sent 2 true] in
  delivered (client_run steps new_state) = [Exit "c2" "t2" 0] ∧ overwritten steps new_state = [Exit "c1" "t1" 0].
Proof. vm_compute. done. Qed.

(** ** Catching up *)

(** A new connection's steps when its sends succeed. *)
Definition catch_up (a : Agent) : list ClientStep :=
  let id := next_connection a in
  Connected :: Greeted id ::
  app (match unsent a with Some _ => [Sent id true] | None => [] end)
    (mjoin (map (λ event, EventTaken id :: match event_message event with Some _ => [Sent id true] | None => [] end) (events_rx a))).

Lemma client_run_app steps1 steps2 a : client_run (app steps1 steps2) a = client_run steps2 (client_run steps1 a).
Proof. apply foldl_app. Qed.
Definition arrived (message : AgentMessage) : AgentMessage * bool := (message, true).
Lemma delivered_arrived a a' messages : accepted a' = app (accepted a) (map arrived messages) → delivered a' = app (delivered a) messages.
Proof. intros Ha. unfold delivered. rewrite Ha, omap_app. f_equal. clear Ha. induction messages as [|m l IH]; [done|]. cbn. f_equal. exact IH. Qed.
Lemma take_all id a : connections a = {[id := Build_Connection false Waiting]} →
  let a' := client_run (mjoin (map (λ event, EventTaken id :: match event_message event with Some _ => [Sent id true] | None => [] end) (events_rx a))) a in
  accepted a' = app (accepted a) (map arrived (omap event_message (events_rx a))) ∧ events_rx a' = [] ∧ unsent a' = unsent a.
Proof.
  cbn zeta. remember (events_rx a) as events eqn:Hq. revert a Hq. induction events as [|event events IH]; intros a Hq Hc.
  { cbn. by rewrite app_nil_r. }
  change (mjoin (map ?f (event :: events))) with (app (f event) (mjoin (map f events))). cbn beta. rewrite client_run_app.
  change (client_run (EventTaken id :: ?steps) a) with (client_run steps (client_step (EventTaken id) a)).
  set (a1 := client_step (EventTaken id) a).
  assert (a1 = match event_message event with
               | Some message => set_phase id (Sending message) (a <| events_rx := events |>) | None => a <| events_rx := events |> end) as Ha1.
  { unfold a1, client_step. by rewrite Hc, lookup_singleton_eq, <-Hq. }
  destruct (event_message event) as [message|] eqn:Hm.
  - change (client_run [Sent id true] a1) with (client_step (Sent id true) a1). set (a2 := client_step (Sent id true) a1).
    assert (a2 = set_phase id Waiting a1 <| accepted ::= λ sent, app sent [(message, true)] |>) as Ha2.
    { unfold a2, client_step. rewrite Ha1, (single_phase id Waiting) by done. by rewrite lookup_singleton_eq. }
    assert (connections a2 = {[id := Build_Connection false Waiting]}) as Hc2.
    { rewrite Ha2, Ha1. change (connections (set_phase id Waiting ?b <| accepted ::= _ |>)) with (connections (set_phase id Waiting b)).
      apply (single_phase id (Sending message)). by apply (single_phase id Waiting). }
    destruct (IH a2) as (Hd & He & Hu); [by rewrite Ha2, Ha1|done|]. rewrite Hd, He, Hu.
    cbn [omap list_omap]. rewrite Hm, Ha2, Ha1. conjs; [|done|done]. unfold set_phase, set_field. cbn [accepted map]. by rewrite <-app_assoc.
  - destruct (IH a1) as (Hd & He & Hu); [by rewrite Ha1|by rewrite Ha1|]. change (client_run [] a1) with a1. rewrite Hd, He, Hu.
    cbn [omap list_omap]. by rewrite Hm, Ha1.
Qed.

(** A new connection catches up.  When no connection is open, the next one to open, its
    sends succeeding, delivers the event a failed send left and then everything queued
    meanwhile, in order, and leaves nothing. *)
Theorem a_new_connection_catches_up (a : Agent) (Hnone : connections a = ∅ ∧ live a = None) :
  let a' := client_run (catch_up a) a in
  delivered a' = app (delivered a) (app (opt_list (unsent a)) (omap event_message (events_rx a)))
  ∧ events_rx a' = [] ∧ unsent a' = None.
Proof.
  destruct Hnone as [Hc Hl]. cbn zeta. unfold catch_up. set (id := next_connection a).
  set (a1 := take_over a).
  assert (connections a1 = {[id := Build_Connection false Greeting]}) as Hc1 by (unfold a1, take_over; rewrite Hl, Hc; done).
  change (client_run (Connected :: ?steps) a) with (client_run steps a1).
  change (client_run (Greeted id :: ?steps) a1) with (client_run steps (client_step (Greeted id) a1)).
  cbn [client_step]. rewrite Hc1, lookup_singleton_eq. unfold send_unsent. change (unsent a1) with (unsent a).
  destruct (unsent a) as [message|] eqn:Hu.
  - set (a2 := set_phase id (Sending message) _).
    assert (connections a2 = {[id := Build_Connection false (Sending message)]}) as Hc2 by (by apply (single_phase id Greeting)).
    change (client_run (app [Sent id true] ?steps) a2) with (client_run steps (client_step (Sent id true) a2)).
    cbn [client_step]. rewrite Hc2, lookup_singleton_eq. set (a3 := _ <| accepted ::= _ |>).
    destruct (take_all id a3) as (Hd & He & Hn); [by apply (single_phase id (Sending message))|].
    change (events_rx a3) with (events_rx a) in *. rewrite (delivered_arrived _ _ _ Hd), He, Hn. conjs; [|done|done].
    rewrite (delivered_arrived a a3 [message]) by done. by rewrite <-app_assoc.
  - set (a2 := set_phase id Waiting a1).
    destruct (take_all id a2) as (Hd & He & Hn); [by apply (single_phase id Greeting)|].
    change (events_rx a2) with (events_rx a) in *. cbn [app]. rewrite (delivered_arrived _ _ _ Hd), He, Hn. done.
Qed.

Definition left_with_an_exit : Agent :=
  client_run [Produced (Marker "t1" (Some "c1") 0); Connected; Greeted 0; EventTaken 0; SendFailed 0;
              Produced (Line "t2" "c2" Stdout 1 "ready"); Produced (Marker "t2" (Some "c2") 3)] new_state.
Lemma a_new_connection_catches_up_witness :
  connections left_with_an_exit = ∅
  ∧ delivered (client_run (catch_up left_with_an_exit) left_with_an_exit)
    = [Exit "c1" "t1" 0; Output "c2" "t2" Stdout 1 "ready"; Exit "c2" "t2" 3].
Proof.
  assert (connections left_with_an_exit = ∅ ∧ live left_with_an_exit = None) as Hnone by (vm_compute; split; reflexivity).
  split; [exact (proj1 Hnone)|].
  rewrite (proj1 (a_new_connection_catches_up left_with_an_exit Hnone)). vm_compute. reflexivity.
Defined.
