(* ===== verification/AgentScripts.v ===== *)
(** * AgentScripts: the MCP calls of scripts in a sandbox

    [src/src/bin/sandbox_agent/mcp.rs]: a script's call goes up the connection smelt holds
    to the agent, and waits there for smelt's answer; and which terminal command a calling
    process belongs to.

    A call's oneshot is two halves: its sender is its entry in [waiting], its receiver its
    entry in [inbox], with the answer once one was sent.  What one function does under its
    locks is one step, and so is a call's return.  HTTP, the socket and JSON's text are
    outside; [rx_open] are the connections whose end of the request channel is still there. *)

From S2P Require Import Prelude RustStr Json AgentProtocol AgentFiles AgentCommands.
Local Open Scope string_scope.

Definition MAX_WAITING : nat := 16.
Definition CALL_WAIT_SECS : Z := 180.
Definition MAX_ANCESTRY : nat := 64.

Section Scripts.
Context {V : Type} `{Json V}.

Definition Answer : Type := Z * string.
Definition json_error (message : string) (outcome : option string) : string :=
  let body := json_object [("error", json_string message)] in
  json_to_string (match outcome with Some outcome => json_set "outcome" (json_string outcome) body | None => body end).
Definition outcome_unknown (why : string) : Answer := (503%Z, json_error (why +:+ "; the call may or may not have run") (Some "unknown")).

Record McpCalls := {
  link : option nat;
  rx_open : gset nat;
  waiting : gmap Z nat;
  next_call_id : Z;
  inbox : gmap Z (option Answer);
  sent : list (nat * AgentMessage);
  returned : list (Z * Answer);
}.
#[local] Instance McpCalls_eta : Eta McpCalls := λ m,
  Build_McpCalls (link m) (rx_open m) (waiting m) (next_call_id m) (inbox m) (sent m) (returned m).
Definition no_calls : McpCalls := Build_McpCalls None ∅ ∅ 0 ∅ [] [].

(** [waiter.send(answer)]: to nobody when the call has gone. *)
Definition tell (answer : Answer) (call_id : Z) (inbox : gmap Z (option Answer)) : gmap Z (option Answer) :=
  alter (λ _, Some answer) call_id inbox.
Definition fail_waiting (which : nat → bool) (why : string) (m : McpCalls) : McpCalls :=
  let failed := filter (λ '(_, sent_on), which sent_on = true) (waiting m) in
  m <| waiting ::= filter (λ '(_, sent_on), which sent_on = false) |>
    <| inbox ::= λ i, map_imap (λ call_id told, match failed !! call_id with Some _ => Some (Some (outcome_unknown why)) | None => Some told end) i |>.

Definition attach (connection : nat) (m : McpCalls) : McpCalls :=
  fail_waiting (λ sent_on, negb (sent_on =? connection)%nat) "a newer connection from smelt replaced the one this call went up"
    (m <| link := Some connection |> <| rx_open ::= λ o, {[connection]} ∪ o |>).
Definition detach (connection : nat) (m : McpCalls) : McpCalls :=
  let m := if bool_decide (link m = Some connection) then m <| link := None |> else m in
  fail_waiting (λ sent_on, (sent_on =? connection)%nat) "smelt's connection to this sandbox closed while the call waited" m.
Definition answer (connection : nat) (call_id status : Z) (body : string) (m : McpCalls) : McpCalls :=
  match waiting m !! call_id with
  | Some sent_on =>
      if (sent_on =? connection)%nat then m <| waiting ::= delete call_id |> <| inbox ::= tell (status, body) call_id |> else m
  | None => m
  end.

(** A call's answer: its future is over. *)
Definition return_call (call_id : Z) (a : Answer) (m : McpCalls) : McpCalls :=
  m <| waiting ::= delete call_id |> <| inbox ::= delete call_id |> <| returned ::= λ r, app r [(call_id, a)] |>.

Definition NOT_CONNECTED : Answer :=
  (503%Z, json_error "smelt isn't connected to this sandbox right now (it reconnects when it restarts, or when the model next uses the sandbox); nothing was sent" (Some "not_sent")).
Definition too_many : Answer :=
  (429%Z, json_error (show_unsigned (Z.of_nat MAX_WAITING) +:+ " MCP calls are already waiting in this sandbox") None).

(** [call] up to its wait, under the link's lock. *)
Definition begin_call (command_id : option string) (request : McpRequest) (m : McpCalls) : McpCalls :=
  let call_id := next_call_id m in
  let m := m <| next_call_id := u64_add call_id 1 |> <| inbox ::= <[call_id := None]> |> in
  match link m with
  | None => return_call call_id NOT_CONNECTED m
  | Some connection =>
      if (MAX_WAITING <=? size (waiting m))%nat then return_call call_id too_many m
      else if bool_decide (connection ∈ rx_open m) then
        m <| waiting ::= <[call_id := connection]> |>
          <| sent ::= λ s, app s [(connection, McpRequested call_id command_id request)] |>
      else return_call call_id (outcome_unknown "smelt's connection to this sandbox closed as the call was sent") m
  end.
(** The wait: an answer sent, the sender dropped, or the time over; and the script gone. *)
Definition poll_call (call_id : Z) (m : McpCalls) : McpCalls :=
  match inbox m !! call_id with
  | Some (Some a) => return_call call_id a m
  | Some None =>
      if is_some (waiting m !! call_id) then m
      else return_call call_id (outcome_unknown "the call was dropped while it waited") m
  | None => m
  end.
Definition call_timed_out (call_id : Z) (m : McpCalls) : McpCalls :=
  match inbox m !! call_id with
  | Some None => return_call call_id (outcome_unknown ("smelt didn't answer within " +:+ show_unsigned CALL_WAIT_SECS +:+ "s")) m
  | _ => m
  end.
Definition script_left (call_id : Z) (m : McpCalls) : McpCalls :=
  m <| waiting ::= delete call_id |> <| inbox ::= delete call_id |>.

(** ** Which command a process belongs to *)

(** [parent_of], from the process's [/proc/<pid>/stat]. *)
Definition parent_of (stat : option string) : option Z :=
  stat ← stat; '(_, after_comm) ← rsplit_once ")" stat; ppid ← fields after_comm !! 1; parse_i32 ppid.
(** [pid_of]: the shells' [bash_pid]s. *)
Fixpoint command_for_pid_from (fuel : nat) (stat : Z → option string) (own : Z) (shells_here : list (Z * Shell)) (at_ : Z) : option string :=
  match fuel with
  | O => None
  | S fuel =>
      if (at_ <=? 1)%Z || (at_ =? own)%Z then None
      else
        match List.find (λ '(bash_pid, s), (bash_pid =? at_)%Z && negb (ended s)) shells_here with
        | Some (_, s) => current s
        | None => parent ← parent_of (stat at_); command_for_pid_from fuel stat own shells_here parent
        end
  end.
Definition command_for_pid (stat : Z → option string) (own : Z) (pid_of : nat → Z) (w : AppState) (pid : Z) : option string :=
  let shells_here := omap (λ '(_, n), s ← shells w !! n; Some (pid_of n, s)) (map_to_list (terminals w)) in
  command_for_pid_from MAX_ANCESTRY stat own shells_here pid.

(** ** A run *)

Inductive CallStep :=
  | Attached (connection : nat)
  | RxDropped (connection : nat)
  | Detached (connection : nat)
  | Answered (connection : nat) (call_id status : Z) (body : string)
  | Begun (command_id : option string) (request : McpRequest)
  | Polled (call_id : Z)
  | TimedOut (call_id : Z)
  | ScriptLeft (call_id : Z).
Definition call_step (step : CallStep) (m : McpCalls) : McpCalls :=
  match step with
  | Attached c => attach c m
  | RxDropped c => m <| rx_open ::= λ o, o ∖ {[c]} |>
  | Detached c => detach c m
  | Answered c id status body => answer c id status body m
  | Begun command_id request => begin_call command_id request m
  | Polled id => poll_call id m
  | TimedOut id => call_timed_out id m
  | ScriptLeft id => script_left id m
  end.
Definition call_run (steps : list CallStep) (m : McpCalls) : McpCalls := foldl (flip call_step) m steps.

(** ** Every call is answered *)

Lemma fail_waiting_lookup which why m id c :
  waiting (fail_waiting which why m) !! id = Some c ↔ waiting m !! id = Some c ∧ which c = false.
Proof. unfold fail_waiting, set_field. cbn [waiting]. by rewrite map_lookup_filter_Some. Qed.
Lemma fail_inbox_lookup which why m id :
  inbox (fail_waiting which why m) !! id
  = told ← inbox m !! id; Some (match waiting m !! id with Some c => if which c then Some (outcome_unknown why) else told | None => told end).
Proof.
  unfold fail_waiting, set_field. cbn [inbox]. rewrite map_lookup_imap. destruct (inbox m !! id) as [told|]; [|done]. cbn.
  rewrite map_lookup_filter. destruct (waiting m !! id) as [c|]; [|done]. cbn. case_guard as Hw; [by rewrite Hw|by destruct (which c)].
Qed.

(** What the agent itself answers. *)
Definition own_answer (a : Answer) : Prop := a = NOT_CONNECTED ∨ a = too_many ∨ ∃ why, a = outcome_unknown why.
(** Where an answer came from: the agent, or the connection its call went up. *)
Definition answer_of (steps : list CallStep) (sent_up : list (nat * AgentMessage)) (id : Z) (a : Answer) : Prop :=
  own_answer a
  ∨ ∃ c command_id request, (c, McpRequested id command_id request) ∈ sent_up ∧ Answered c id (fst a) (snd a) ∈ steps.

Record calls_ok (steps : list CallStep) (m : McpCalls) : Prop := {
  ok_waiting id c : waiting m !! id = Some c →
    inbox m !! id = Some None ∧ ∃ command_id request, (c, McpRequested id command_id request) ∈ sent m;
  ok_inbox id : inbox m !! id = Some None → is_some (waiting m !! id) = true;
  ok_size : (size (waiting m) ≤ MAX_WAITING)%nat;
  ok_next : (0 ≤ next_call_id m)%Z;
  ok_ids id : is_some (inbox m !! id) = true ∨ id ∈ map fst (returned m) → (id < next_call_id m)%Z;
  ok_once : NoDup (map fst (returned m));
  ok_apart id : is_some (inbox m !! id) = true → id ∉ map fst (returned m);
  ok_told id a : inbox m !! id = Some (Some a) ∨ (id, a) ∈ returned m → answer_of steps (sent m) id a;
  ok_all id : (0 ≤ id < next_call_id m)%Z →
    is_some (inbox m !! id) = true ∨ id ∈ map fst (returned m) ∨ ScriptLeft id ∈ steps;
}.
(** Every call waits on the live connection. *)
Definition on_link (m : McpCalls) : Prop := ∀ id c, waiting m !! id = Some c → link m = Some c.

Lemma answer_of_more steps step sent_up id a : answer_of steps sent_up id a → answer_of (app steps [step]) sent_up id a.
Proof. intros [Ho|(c & cmd & req & Hs & Ha)]; [by left|right]. exists c, cmd, req. rewrite elem_of_app. tauto. Qed.
Lemma ok_more steps step m : calls_ok steps m → calls_ok (app steps [step]) m.
Proof.
  intros []. split; try done.
  - intros id a Ha. by apply answer_of_more, ok_told0.
  - intros id Hid. rewrite elem_of_app. destruct (ok_all0 id Hid) as [|[|]]; tauto.
Qed.

Lemma ok_fail steps which why m : calls_ok steps m → calls_ok steps (fail_waiting which why m).
Proof.
  intros Hok. pose proof Hok as []. split; try done.
  - intros id c [Hw Hc]%fail_waiting_lookup. destruct (ok_waiting0 id c Hw) as [Hi Hs]. rewrite fail_inbox_lookup, Hi. cbn.
    by rewrite Hw, Hc.
  - intros id. rewrite fail_inbox_lookup. destruct (inbox m !! id) as [[a|]|] eqn:Hi; cbn [mbind option_bind]; [|intros Hnone|done].
    + by destruct (waiting m !! id) as [c|]; [destruct (which c)|].
    + pose proof (ok_inbox0 id Hi) as Hw. destruct (waiting m !! id) as [c|] eqn:Hwid; [|done]. destruct (which c) eqn:Hc; [done|].
      by rewrite (proj2 (fail_waiting_lookup which why m id c) (conj Hwid Hc)).
  - etransitivity; [|exact ok_size0]. apply map_subseteq_size. unfold fail_waiting, set_field. cbn [waiting]. apply map_filter_subseteq.
  - intros id [Hi|Hi]; apply ok_ids0; [left|by right]. rewrite fail_inbox_lookup in Hi. by destruct (inbox m !! id).
  - intros id Hi. apply ok_apart0. rewrite fail_inbox_lookup in Hi. by destruct (inbox m !! id).
  - intros id a [Ha|Ha]; [|by apply ok_told0; right]. rewrite fail_inbox_lookup in Ha.
    destruct (inbox m !! id) as [told|] eqn:Hi; [|done]. cbn in Ha. injection Ha as Ha.
    destruct (waiting m !! id) as [c|]; [destruct (which c)|]; [|apply ok_told0; left; congruence..].
    injection Ha as <-. left. right. right. by exists why.
  - intros id Hid. destruct (ok_all0 id Hid) as [Hi|Hi]; [left|by right]. rewrite fail_inbox_lookup. by destruct (inbox m !! id).
Qed.
Lemma on_link_fail which why m : (∀ id c, waiting m !! id = Some c → which c = false → link m = Some c) → on_link (fail_waiting which why m).
Proof. intros Hl id c [Hw Hc]%fail_waiting_lookup. by apply Hl with id. Qed.

Lemma ok_return steps id a m : calls_ok steps m → is_some (inbox m !! id) = true → answer_of steps (sent m) id a → calls_ok steps (return_call id a m).
Proof.
  intros Hok Hin Ha. pose proof Hok as []. unfold return_call. split; unfold set_field; cbn [waiting inbox returned sent next_call_id]; try done.
  - intros i c [Hne Hw]%lookup_delete_Some. rewrite lookup_delete_ne by done. by apply ok_waiting0.
  - intros i [Hne Hi]%lookup_delete_Some. rewrite lookup_delete_ne by done. by apply ok_inbox0.
  - etransitivity; [|exact ok_size0]. apply map_subseteq_size, delete_subseteq.
  - intros i. rewrite map_app, elem_of_app. intros [Hi|[Hi|Hi%list_elem_of_singleton]].
    + apply ok_ids0. left. by eapply lookup_delete_some.
    + apply ok_ids0. by right.
    + cbn in Hi. subst i. apply ok_ids0. by left.
  - rewrite map_app. apply NoDup_app. conjs; [done| |apply NoDup_singleton].
    intros i Hi ->%list_elem_of_singleton. by apply (ok_apart0 id).
  - intros i Hi. rewrite map_app, elem_of_app. intros [Hr| ->%list_elem_of_singleton].
    + apply (ok_apart0 i); [by eapply lookup_delete_some|done].
    + cbn in Hi. by rewrite lookup_delete_eq in Hi.
  - intros i b. rewrite elem_of_app. intros [[Hne Hb]%lookup_delete_Some|[Hb|[= -> ->]%list_elem_of_singleton]]; [| |done]; apply ok_told0; [by left|by right].
  - intros i Hi. rewrite map_app, elem_of_app. destruct (decide (i = id)) as [->|Hne]; [right; left; right; by apply list_elem_of_singleton|].
    rewrite lookup_delete_ne by done. destruct (ok_all0 i Hi) as [|[|]]; tauto.
Qed.

Lemma ok_same steps m m' : calls_ok steps m →
  waiting m' = waiting m → inbox m' = inbox m → next_call_id m' = next_call_id m → sent m' = sent m → returned m' = returned m →
  calls_ok steps m'.
Proof. intros [] Hw Hi Hn Hs Hr. by split; rewrite ?Hw, ?Hi, ?Hn, ?Hs, ?Hr. Qed.

Lemma ok_answer steps m id c status body : calls_ok steps m → waiting m !! id = Some c → Answered c id status body ∈ steps →
  calls_ok steps (m <| waiting ::= delete id |> <| inbox ::= tell (status, body) id |>).
Proof.
  intros Hok Hw Hstep. pose proof Hok as []. destruct (ok_waiting0 id c Hw) as [Hin (cmd & req & Hs)].
  split; unfold set_field, tell; cbn [waiting inbox returned sent next_call_id]; try done.
  - intros i c' [Hne Hw']%lookup_delete_Some. rewrite lookup_alter_ne by done. by apply ok_waiting0.
  - intros i Hi. destruct (decide (id = i)) as [<-|Hne]; [by rewrite lookup_alter_eq, Hin in Hi|].
    rewrite lookup_alter_ne in Hi by done. rewrite lookup_delete_ne by done. by apply ok_inbox0.
  - etransitivity; [|exact ok_size0]. apply map_subseteq_size, delete_subseteq.
  - intros i. rewrite lookup_alter_some. apply ok_ids0.
  - intros i. rewrite lookup_alter_some. apply ok_apart0.
  - intros i a [Ha|Ha]; [|apply ok_told0; by right]. destruct (decide (id = i)) as [<-|Hne].
    + rewrite lookup_alter_eq, Hin in Ha. injection Ha as <-. right. by exists c, cmd, req.
    + rewrite lookup_alter_ne in Ha by done. apply ok_told0. by left.
  - intros i Hi. rewrite lookup_alter_some. by apply ok_all0.
Qed.

Lemma ok_fresh steps m : calls_ok steps m →
  inbox m !! next_call_id m = None ∧ waiting m !! next_call_id m = None ∧ next_call_id m ∉ map fst (returned m).
Proof.
  intros []. assert (inbox m !! next_call_id m = None) as Hi.
  { destruct (inbox m !! next_call_id m) eqn:Hi; [|done]. specialize (ok_ids0 (next_call_id m)). rewrite Hi in ok_ids0.
    specialize (ok_ids0 (or_introl eq_refl)). lia. }
  conjs; [done| |].
  - destruct (waiting m !! next_call_id m) eqn:Hw; [|done]. destruct (ok_waiting0 _ _ Hw). congruence.
  - intros Hr. specialize (ok_ids0 (next_call_id m) (or_intror Hr)). lia.
Qed.
(** A call answered at once. *)
Lemma ok_refused steps m a : calls_ok steps m → (next_call_id m < U64_MAX)%Z → own_answer a →
  calls_ok steps (return_call (next_call_id m) a
    (m <| next_call_id := u64_add (next_call_id m) 1 |> <| inbox ::= <[next_call_id m := None]> |>)).
Proof.
  intros Hok Hmax Ha. destruct (ok_fresh _ _ Hok) as (Hi & Hw & Hr). pose proof Hok as []. set (id := next_call_id m) in *.
  assert (u64_add id 1 = id + 1)%Z as Hadd by (unfold u64_add; apply Z.mod_small; unfold U64_MAX in Hmax; lia).
  unfold return_call. split; unfold set_field; cbn [waiting inbox returned sent next_call_id]; rewrite ?delete_insert_id, ?(delete_id _ _ Hw), ?Hadd by done; try done.
  - lia.
  - intros i. rewrite map_app, elem_of_app. intros [Hx|[Hx|Hx%list_elem_of_singleton]]; [| |cbn in Hx; lia].
    + specialize (ok_ids0 i (or_introl Hx)). lia.
    + specialize (ok_ids0 i (or_intror Hx)). lia.
  - rewrite map_app. apply NoDup_app. conjs; [done| |apply NoDup_singleton]. intros i Hx ->%list_elem_of_singleton. done.
  - intros i Hx. rewrite map_app, elem_of_app. intros [Hy| ->%list_elem_of_singleton]; [by apply (ok_apart0 i)|]. cbn in Hx. by rewrite Hi in Hx.
  - intros i b. rewrite elem_of_app. intros [Hb|[Hb|[= -> ->]%list_elem_of_singleton]]; [apply ok_told0; by left|apply ok_told0; by right|by left].
  - intros i Hx. rewrite map_app, elem_of_app. destruct (decide (i = id)) as [->|Hne]; [right; left; right; by apply list_elem_of_singleton|].
    destruct (ok_all0 i ltac:(lia)) as [|[|]]; tauto.
Qed.
(** A call sent up. *)
Lemma ok_sent steps m c command_id request : calls_ok steps m → (next_call_id m < U64_MAX)%Z → (size (waiting m) < MAX_WAITING)%nat →
  calls_ok steps (m <| next_call_id := u64_add (next_call_id m) 1 |> <| inbox ::= <[next_call_id m := None]> |>
                    <| waiting ::= <[next_call_id m := c]> |>
                    <| sent ::= λ s, app s [(c, McpRequested (next_call_id m) command_id request)] |>).
Proof.
  intros Hok Hmax Hsize. destruct (ok_fresh _ _ Hok) as (Hi & Hw & Hr). pose proof Hok as []. set (id := next_call_id m) in *.
  assert (u64_add id 1 = id + 1)%Z as Hadd by (unfold u64_add; apply Z.mod_small; unfold U64_MAX in Hmax; lia).
  split; unfold set_field; cbn [waiting inbox returned sent next_call_id]; rewrite ?Hadd; try done.
  - intros i c'. rewrite !lookup_insert_Some. intros [[<- <-]|[Hne Hx]].
    + split; [by left|]. exists command_id, request. apply elem_of_app. right. by apply list_elem_of_singleton.
    + destruct (ok_waiting0 i c' Hx) as [? (cmd & req & Hs)]. split; [by right|]. exists cmd, req. apply elem_of_app. by left.
  - intros i. rewrite lookup_insert_Some. intros [[<- _]|[Hne Hx]]; [by rewrite lookup_insert_eq|]. rewrite lookup_insert_ne by done. by apply ok_inbox0.
  - rewrite map_size_insert_None by done. lia.
  - lia.
  - intros i [Hx|Hx]; [|specialize (ok_ids0 i (or_intror Hx)); lia]. destruct (decide (id = i)) as [<-|Hne]; [lia|].
    rewrite lookup_insert_ne in Hx by done. specialize (ok_ids0 i (or_introl Hx)). lia.
  - intros i Hx. destruct (decide (id = i)) as [<-|Hne]; [done|]. rewrite lookup_insert_ne in Hx by done. by apply ok_apart0.
  - intros i a [Ha|Ha].
    + apply lookup_insert_Some in Ha as [[_ Ha]|[_ Ha]]; [done|]. destruct (ok_told0 i a (or_introl Ha)) as [|(c' & cmd & req & Hs & Hst)]; [by left|].
      right. exists c', cmd, req. rewrite elem_of_app. tauto.
    + destruct (ok_told0 i a (or_intror Ha)) as [|(c' & cmd & req & Hs & Hst)]; [by left|]. right. exists c', cmd, req. rewrite elem_of_app. tauto.
  - intros i Hx. destruct (decide (id = i)) as [<-|Hne]; [left; by rewrite lookup_insert_eq|]. rewrite lookup_insert_ne by done. apply ok_all0. lia.
Qed.

Lemma own_unknown why : own_answer (outcome_unknown why).
Proof. right. right. by exists why. Qed.
Lemma answer_of_own steps sent_up id a : own_answer a → answer_of steps sent_up id a.
Proof. by left. Qed.

Lemma on_link_delete id m m' : on_link m → link m' = link m → waiting m' = delete id (waiting m) → on_link m'.
Proof. intros Hl Hk Hw i c. rewrite Hw, Hk. intros [_ Hi]%lookup_delete_Some. by apply Hl with i. Qed.

Lemma ok_step steps step m : calls_ok steps m → on_link m → (next_call_id m < U64_MAX)%Z →
  calls_ok (app steps [step]) (call_step step m) ∧ on_link (call_step step m).
Proof.
  intros Hok Hl Hmax. pose proof (ok_more steps step m Hok) as Hok1.
  destruct step as [c|c|c|c id status body|command_id request|id|id|id]; cbn [call_step].
  - split; [apply ok_fail; by eapply ok_same|]. apply on_link_fail. intros id c' Hw Hc. cbn [link set_field].
    apply negb_false_iff, Nat.eqb_eq in Hc. by subst c'.
  - split; [by eapply ok_same|exact Hl].
  - unfold detach. case_bool_decide as Hc; (split; [apply ok_fail; by eapply ok_same|]); apply on_link_fail; intros id c' Hw Hne; cbn [link set_field].
    + apply Hl in Hw. rewrite Hc in Hw. injection Hw as ->. by rewrite Nat.eqb_refl in Hne.
    + by apply Hl with id.
  - unfold answer. destruct (waiting m !! id) as [c'|] eqn:Hw; [|done]. destruct (Nat.eqb_spec c' c) as [->|]; [|done]. split.
    + apply ok_answer with c; [done|done|]. apply elem_of_app. right. by apply list_elem_of_singleton.
    + by eapply (on_link_delete id m).
  - unfold begin_call. change (link (m <| next_call_id := _ |> <| inbox ::= _ |>)) with (link m).
    destruct (ok_fresh _ _ Hok) as (_ & Hw & _).
    assert (∀ a, on_link (return_call (next_call_id m) a (m <| next_call_id := u64_add (next_call_id m) 1 |> <| inbox ::= <[next_call_id m := None]> |>))) as Hret
      by (intros a; by eapply (on_link_delete (next_call_id m) m)).
    destruct (link m) as [c|] eqn:Hlink; [|split; [apply ok_refused; [done|done|by left]|apply Hret]].
    change (waiting (m <| next_call_id := _ |> <| inbox ::= _ |>)) with (waiting m).
    destruct (Nat.leb_spec MAX_WAITING (size (waiting m))); [split; [apply ok_refused; [done|done|right; by left]|apply Hret]|].
    change (rx_open (m <| next_call_id := _ |> <| inbox ::= _ |>)) with (rx_open m).
    case_bool_decide; [|split; [apply ok_refused; [done|done|apply own_unknown]|apply Hret]].
    split; [by apply ok_sent|]. intros i c' Hi. change (<[next_call_id m := c]> (waiting m) !! i = Some c') in Hi.
    apply lookup_insert_Some in Hi as [[_ <-]|[_ Hi]]; [done|]. exact (Hl i c' Hi).
  - unfold poll_call. destruct (inbox m !! id) as [[a|]|] eqn:Hi; [| |done].
    + split; [|by eapply (on_link_delete id m)]. apply ok_return; [done|by rewrite Hi|]. destruct Hok1. apply ok_told0. by left.
    + destruct (is_some (waiting m !! id)); [done|]. split; [|by eapply (on_link_delete id m)].
      apply ok_return; [done|by rewrite Hi|apply answer_of_own, own_unknown].
  - unfold call_timed_out. destruct (inbox m !! id) as [[a|]|] eqn:Hi; [done| |done]. split; [|by eapply (on_link_delete id m)].
    apply ok_return; [done|by rewrite Hi|apply answer_of_own, own_unknown].
  - split; [|by eapply (on_link_delete id m)]. unfold script_left. destruct Hok1.
    split; unfold set_field; cbn [waiting inbox returned sent next_call_id]; try done.
    + intros i c [Hne Hw]%lookup_delete_Some. rewrite lookup_delete_ne by done. by apply ok_waiting0.
    + intros i [Hne Hi]%lookup_delete_Some. rewrite lookup_delete_ne by done. by apply ok_inbox0.
    + etransitivity; [|exact ok_size0]. apply map_subseteq_size, delete_subseteq.
    + intros i [Hi|Hi]; apply ok_ids0; [left; by eapply lookup_delete_some|by right].
    + intros i Hi. apply ok_apart0. by eapply lookup_delete_some.
    + intros i a [[_ Ha]%lookup_delete_Some|Ha]; apply ok_told0; [by left|by right].
    + intros i Hx. destruct (decide (id = i)) as [<-|Hne]; [right; right; apply elem_of_app; right; by apply list_elem_of_singleton|].
      rewrite lookup_delete_ne by done. by apply ok_all0.
Qed.

Lemma ok_none : calls_ok [] no_calls.
Proof.
  unfold no_calls. split; cbn [waiting inbox returned sent next_call_id]; try done.
  all: try (intros; rewrite ?lookup_empty in *; done).
  - rewrite map_size_empty. lia.
  - intros id [Hx|Hx]; [by rewrite lookup_empty in Hx|by apply not_elem_of_nil in Hx].
  - constructor.
  - intros id a [Hx|Hx]; [by rewrite lookup_empty in Hx|by apply not_elem_of_nil in Hx].
  - intros id ?. lia.
Qed.
Lemma next_call_id_step step m : (0 ≤ next_call_id m < U64_MAX)%Z → (next_call_id (call_step step m) ≤ next_call_id m + 1)%Z.
Proof.
  intros Hr. assert (u64_add (next_call_id m) 1 = next_call_id m + 1)%Z as Hadd by (unfold u64_add; apply Z.mod_small; unfold U64_MAX in Hr; lia).
  destruct step; cbn [call_step]; unfold attach, detach, answer, begin_call, poll_call, call_timed_out, script_left, fail_waiting, return_call;
    repeat (case_match || case_bool_decide); unfold set_field; cbn [next_call_id]; lia.
Qed.

(** Every script's call is answered, once, by the one it asked.  However connections
    come and go and calls are made, answered, timed out and left: each call made has
    returned once, is still on, or was left by its script; what it got is the agent's own
    refusal or smelt's answer to it on the very connection it went up; calls wait only on
    the live connection, at most sixteen; and none waits with nothing left to answer it. *)
Theorem script_calls_are_answered_once (steps : list CallStep) (Hfew : (Z.of_nat (length steps) ≤ U64_MAX)%Z) :
  let m := call_run steps no_calls in
  NoDup (map fst (returned m))
  ∧ (∀ id, (0 ≤ id < next_call_id m)%Z → is_some (inbox m !! id) = true ∨ id ∈ map fst (returned m) ∨ ScriptLeft id ∈ steps)
  ∧ (∀ id, is_some (inbox m !! id) = true → id ∉ map fst (returned m))
  ∧ (∀ id a, (id, a) ∈ returned m → answer_of steps (sent m) id a)
  ∧ (∀ id c, waiting m !! id = Some c → link m = Some c) ∧ (size (waiting m) ≤ MAX_WAITING)%nat
  ∧ (∀ id, inbox m !! id = Some None → is_some (waiting m !! id) = true).
Proof.
  assert (calls_ok steps (call_run steps no_calls) ∧ on_link (call_run steps no_calls)
          ∧ (next_call_id (call_run steps no_calls) ≤ Z.of_nat (length steps))%Z) as (Hok & Hl & _).
  { induction steps as [|step steps IH] using rev_ind.
    - conjs; [exact ok_none|intros ? ?; unfold call_run, no_calls; cbn [foldl waiting]; by rewrite lookup_empty|done].
    - rewrite length_app in *. cbn [length] in *. destruct IH as (Hok & Hl & Hn); [lia|].
      unfold call_run in *. rewrite foldl_app. cbn [foldl flip]. set (m := foldl (flip call_step) no_calls steps) in *.
      pose proof Hok as []. destruct (ok_step steps step m Hok Hl) as [Hok' Hl']; [lia|]. conjs; [done|done|].
      pose proof (next_call_id_step step m ltac:(lia)). lia. }
  cbn zeta. destruct Hok. conjs; try done. intros id a Ha. apply ok_told0. by right.
Qed.

End Scripts.

Lemma script_calls_are_answered_once_witness :
  let steps := [Attached 0; Begun None (McpCall "{}"); Answered 1 0 200 "no"; Answered 0 0 200 "yes"; Polled 0] in
  returned (call_run (V := JTree) steps no_calls) = [(0%Z, (200%Z, "yes"))] ∧ NoDup (map fst (returned (call_run (V := JTree) steps no_calls))).
Proof.
  cbn zeta. split; [vm_compute; reflexivity|].
  apply (script_calls_are_answered_once (V := JTree) [Attached 0; Begun None (McpCall "{}"); Answered 1 0 200 "no"; Answered 0 0 200 "yes"; Polled 0]).
  vm_compute. discriminate.
Defined.
