(* ===== verification/AgentDispatch.v ===== *)
(** * AgentDispatch: what the sandbox agent does with smelt's messages

    [src/src/bin/sandbox_agent/client.rs]'s [handle_client_message] over the handlers of
    AgentFiles, AgentCommands and AgentScripts, the text a command becomes in its shell
    ([shell.rs]), and the script endpoints of [mcp.rs].

    One message is handled at a time on its connection; what the shells' readers do
    meanwhile is in [rounds].  serde's reading of a message, the file trees walked, [bash]
    starting, the compiled patterns and [/proc] are the [World]'s. *)

From S2P Require Import Prelude RustStr Json AgentProtocol AgentFiles AgentCommands AgentScripts.
Local Open Scope string_scope.

(** ** A command's text *)

Definition quote : ascii := ascii_of_nat 39.
Definition backslash : ascii := ascii_of_nat 92.
Definition shell_quote (s : string) : string :=
  String quote (replace_str (String quote "") (String quote (String backslash (String quote (String quote "")))) s +:+ String quote "").

Definition payload (command marker : string) : string :=
  let m := shell_quote marker in
  let status := dquote +:+ "$__smelt_rc" +:+ dquote in
  "eval " +:+ shell_quote command +:+ " </dev/null" +:+ String newline ("__smelt_rc=$?; printf '%so:%s\n' " +:+ m +:+ " " +:+ status
  +:+ "; printf '%se:%s\n' " +:+ m +:+ " " +:+ status +:+ " >&2; unset __smelt_rc" +:+ String newline "").

(** *** How [bash] reads a word

    Outside quotes a quote opens a quoted run, a backslash takes the next character as it
    is, and a blank or an operator ends the word; a quoted run is taken as it is up to the
    next quote.  The word and what follows it; [None] where a quote is left open or the
    character would be expanded. *)
Definition ends_word (a : ascii) : bool :=
  existsb (Ascii.eqb a) (String.list_ascii_of_string (String newline (String (ascii_of_nat 9) " <>|&;()"))).
Definition is_expanded (a : ascii) : bool :=
  existsb (Ascii.eqb a) (String.list_ascii_of_string (dquote +:+ "$`*?[~!{#=%")).
Fixpoint read_word (quoted : bool) (s : string) : option (string * string) :=
  match s with
  | EmptyString => if quoted then None else Some ("", "")
  | String a s' =>
      let keep c rest := '(word, after) ← rest; Some (String c word, after) in
      if quoted then (if Ascii.eqb a quote then read_word false s' else keep a (read_word true s'))
      else if Ascii.eqb a quote then read_word true s'
      else if Ascii.eqb a backslash then match s' with String c s'' => keep c (read_word false s'') | EmptyString => None end
      else if ends_word a then Some ("", s)
      else if is_expanded a then None
      else keep a (read_word false s')
  end.

(** ** A quoted text reads back *)

Definition doubled (a : ascii) : string := if Ascii.eqb a quote then String quote (String backslash (String quote (String quote ""))) else String a "".
Fixpoint quoted_text (s : string) : string :=
  match s with EmptyString => "" | String a s => doubled a +:+ quoted_text s end.

Lemma split_once_char c a s :
  split_once (String c "") (String a s)
  = if Ascii.eqb c a then Some ("", s) else '(before, after) ← split_once (String c "") s; Some (String a before, after).
Proof. cbn [split_once strip_prefix]. destruct (Ascii.eqb c a); [done|]. by destruct (split_once _ s) as [[]|]. Qed.
Lemma split_str_fuel_more fuel fuel' c s : (String.length s ≤ fuel)%nat → (String.length s ≤ fuel')%nat →
  split_str_fuel fuel (String c "") s = split_str_fuel fuel' (String c "") s.
Proof.
  revert fuel' s. induction fuel as [|fuel IH]; intros fuel' s Hf Hf'.
  { destruct s; [|cbn in Hf; lia]. by destruct fuel'. }
  destruct fuel' as [|fuel']; [by destruct s; [|cbn in Hf'; lia]|]. cbn [split_str_fuel].
  destruct (split_once (String c "") s) as [[b a]|] eqn:E; [|done]. f_equal. apply split_once_Some in E as ->.
  rewrite !str_length_app in Hf, Hf'. cbn [String.length] in Hf, Hf'. apply IH; lia.
Qed.
Lemma split_str_fuel_cons fuel c a s :
  Ascii.eqb c a = false → (String.length s ≤ fuel)%nat →
  split_str_fuel (S fuel) (String c "") (String a s)
  = match split_str_fuel fuel (String c "") s with part :: parts => String a part :: parts | [] => [] end.
Proof.
  intros Hc Hl. cbn [split_str_fuel]. rewrite split_once_char, Hc. destruct fuel as [|fuel].
  - by destruct s; [|cbn in Hl; lia].
  - cbn [split_str_fuel]. destruct (split_once (String c "") s) as [[b after]|] eqn:E; [|done]. cbn. f_equal.
    apply split_once_Some in E as ->. rewrite !str_length_app in Hl. cbn [String.length] in Hl. apply (split_str_fuel_more (S fuel)); lia.
Qed.
Lemma split_fuel_not_nil fuel p s : split_str_fuel fuel p s ≠ [].
Proof. destruct fuel; cbn; [done|]. by destruct (split_once p s) as [[]|]. Qed.

Lemma join_cons_char sep a part parts : join sep (String a part :: parts) = String a (join sep (part :: parts)).
Proof. by destruct parts. Qed.
Lemma replace_quotes s :
  replace_str (String quote "") (String quote (String backslash (String quote (String quote "")))) s = quoted_text s.
Proof.
  unfold replace_str, split_str. induction s as [|a s IH]; [done|]. cbn [String.length quoted_text]. unfold doubled.
  destruct (Ascii.eqb_spec a quote) as [->|Hne].
  - cbn [split_str_fuel]. rewrite split_once_char, Ascii.eqb_refl. rewrite <-IH.
    destruct (split_str_fuel (String.length s) (String quote "") s) as [|part parts] eqn:E; [by apply split_fuel_not_nil in E|].
    done.
  - rewrite split_str_fuel_cons; [|by apply Ascii.eqb_neq; congruence|done].
    destruct (split_str_fuel (String.length s) (String quote "") s) as [|part parts] eqn:E; [by apply split_fuel_not_nil in E|].
    rewrite join_cons_char, IH. done.
Qed.

Lemma read_quoted s rest word after :
  read_word false rest = Some (word, after) → read_word true (quoted_text s +:+ String quote rest) = Some (s +:+ word, after).
Proof.
  intros Hr. induction s as [|a s IH].
  - cbn [quoted_text]. change ("" +:+ String quote rest) with (String quote rest). cbn [read_word]. by rewrite Ascii.eqb_refl.
  - cbn [quoted_text]. unfold doubled. destruct (Ascii.eqb_spec a quote) as [->|Hne].
    + rewrite !str_app_cons, str_app_nil_l. change (read_word true (String quote ?x)) with (read_word false x).
      change (read_word false (String backslash (String quote ?x)))
        with ('(word, after) ← read_word false x; Some (String quote word, after)).
      change (read_word false (String quote ?x)) with (read_word true x). by rewrite IH.
    + rewrite !str_app_cons, str_app_nil_l. cbn [read_word]. rewrite (proj2 (Ascii.eqb_neq a quote) Hne). by rewrite IH.
Qed.
Lemma read_shell_quote s rest : read_word false (shell_quote s +:+ String " " rest) = Some (s, String " " rest).
Proof.
  unfold shell_quote. rewrite replace_quotes, str_app_cons. cbn [read_word]. rewrite Ascii.eqb_refl, str_app_assoc.
  rewrite <-(str_app_nil_r s) at 2. by apply read_quoted.
Qed.

(** ** The host and what it asks of the world *)

Record Host {F : Type} := {
  app_state : AppState;
  fs : F;
  mcp : McpCalls;
  stdin : list (nat * string);
  signalled : list (Z * UnixSignal);
}.
Arguments Host : clear implicits.
#[export] Instance Host_eta {F} : Eta (Host F) := λ h, Build_Host F (app_state h) (fs h) (mcp h) (stdin h) (signalled h).

Record World {V : Type} := {
  parse_message : string → Result ClientMessage string;
  parse_value : string → option V;
  hash_content : string → string;
  debug_str : string → string;
  spawned : Result unit string;
  rounds : list (Result unit string * (AppState → AppState));
  nonce : string;
  compiled_glob : string → Result (string → bool) string;
  compiled_regex : string → bool → Result (string → bool) string;
  read_dir : string → Result (list (Result RawEntry string)) string;
  walk : string → option (list (option Walked));
  children : nat → nat → option string;
  stat : Z → option string;
  own_pid : Z;
  bash_pid : nat → Z;
}.
Arguments World : clear implicits.

Section Dispatch.
Context {F V : Type} `{FileSystemLaws F} `{Json V}.
Variable env : World V.

Definition new_host (fs : F) : Host F :=
  Build_Host F {| terminals := ∅; shells := ∅; next_shell := 0; sent_events := [] |} fs no_calls [] [].

(** A started command's text goes to its shell. *)
Definition run_command (terminal_id id command : string) (h : Host F) : Host F :=
  let m := new_marker (nonce env) in
  let '(started, w) := start_command (rounds env) terminal_id id m (app_state h) in
  let h := h <| app_state := w |> in
  match started with StartedIn n => h <| stdin ::= λ s, app s [(n, payload command m)] |> | _ => h end.
Definition run_signal (terminal_id id signal : string) (h : Host F) : Host F :=
  match signal_current_command (children env) (stat env) terminal_id id signal (app_state h) with
  | Some sent => h <| signalled ::= λ s, app s [sent] |>
  | None => h
  end.
(** The group of the terminated shell: its [bash]'s. *)
Definition run_terminate (terminal_id : string) (h : Host F) : Reply * Host F :=
  let '(reply, killed, w) := terminate_terminal terminal_id (app_state h) in
  let h := h <| app_state := w |> in
  (reply, match killed with Some n => h <| signalled ::= λ s, app s [(bash_pid env n, SIGKILL)] |> | None => h end).

(** A request's reply with its id, or [None] for the messages that get none. *)
Definition handle_message (connection : nat) (msg : ClientMessage) (h : Host F) : Host F * option (Z * Reply) :=
  let read id reply := (h, Some (id, reply)) in
  let wrote id '(reply, fs') := (h <| fs := fs' |>, Some (id, reply)) in
  match msg with
  | Command terminal_id id command => (run_command terminal_id id command h, None)
  | Signal terminal_id id signal => (run_signal terminal_id id signal h, None)
  | McpResponse call_id status body => (h <| mcp ::= answer connection call_id status body |>, None)
  | CreateTerminal id terminal_id =>
      let '(reply, w) := create_terminal (spawned env) terminal_id (app_state h) in
      (h <| app_state := w |>, Some (id, reply))
  | TerminateTerminal id terminal_id => let '(reply, h) := run_terminate terminal_id h in (h, Some (id, reply))
  | ReadFile id path offset limit => read id (handle_read_file (hash_content env) path offset limit (fs h))
  | WriteFile id path content expected_hash =>
      wrote id (handle_write_file (hash_content env) path content expected_hash (fs h))
  | EditFile id path old_string new_string replace_all expected_hash expected_line =>
      wrote id (handle_edit_file (hash_content env) path old_string new_string replace_all expected_hash expected_line (fs h))
  | ListDirectory id path => read id (handle_list_directory path (read_dir env path))
  | Glob id path pattern offset limit =>
      read id (handle_glob (debug_str env) (compiled_glob env pattern) pattern offset limit (walk env path))
  | Grep id path pattern glob case_insensitive offset limit =>
      read id (handle_grep (debug_str env) (compiled_regex env pattern case_insensitive) pattern
                 ((λ g, (g, compiled_glob env g)) <$> glob) offset limit (walk env path))
  end.
Definition handle_client_message (connection : nat) (text : string) (h : Host F) : Host F * list AgentMessage :=
  match parse_message env text with
  | Err e =>
      let request_id := value ← parse_value env text; id ← json_get value "request_id"; json_as_u64 id in
      (h, [ProtocolError request_id e])
  | Ok msg =>
      let '(h, reply) := handle_message connection msg h in
      (h, match reply with Some (request_id, result) => [ReplyTo request_id result] | None => [] end)
  end.

(** The script endpoints up to the wait; [peer]: the calling process. *)
Definition caller (peer : option Z) (h : Host F) : option string :=
  pid ← peer; command_for_pid (stat env) (own_pid env) (bash_pid env) (app_state h) pid.
Definition list_tools (peer : option Z) (server : option string) (h : Host F) : Host F :=
  h <| mcp ::= begin_call (V := V) (caller peer h) (McpList server) |>.
Definition call_tool (peer : option Z) (body : string) (h : Host F) : Host F :=
  h <| mcp ::= begin_call (V := V) (caller peer h) (McpCall body) |>.
(** [StatusCode::from_u16] takes 100 to 999. *)
Definition respond (a : Answer) : Answer :=
  let '(status, body) := a in (if (100 <=? status)%Z && (status <=? 999)%Z then status else 502%Z, body).

(** ** A message is answered as it asks *)

Definition request_id_of (msg : ClientMessage) : option Z :=
  match msg with
  | CreateTerminal id _ | TerminateTerminal id _ | ReadFile id _ _ _ | WriteFile id _ _ _ | EditFile id _ _ _ _ _ _
  | ListDirectory id _ | Glob id _ _ _ _ | Grep id _ _ _ _ _ _ => Some id
  | Command _ _ _ | Signal _ _ _ | McpResponse _ _ _ => None
  end.
(** The kind of reply a message asks for. *)
Definition fits (msg : ClientMessage) (r : Reply) : Prop :=
  match r with
  | ReplyError _ => True
  | UnknownReply => False
  | _ =>
      match msg, r with
      | CreateTerminal _ _, TerminalCreated | TerminateTerminal _ _, TerminalTerminated | ReadFile _ _ _ _, FileRead _
      | WriteFile _ _ _ _, FileWritten _ | EditFile _ _ _ _ _ _ _, FileEdited _ | ListDirectory _ _, DirectoryListed _
      | Glob _ _ _ _ _, GlobMatched _ | Grep _ _ _ _ _ _ _, GrepMatched _ => True
      | _, _ => False
      end
  end.
(** The part of the host a message may change. *)
Definition leaves (msg : ClientMessage) (h h' : Host F) : Prop :=
  match msg with
  | CreateTerminal _ _ => h' = h <| app_state := app_state h' |>
  | TerminateTerminal _ _ => h' = h <| app_state := app_state h' |> <| signalled := signalled h' |>
  | Command _ _ _ => h' = h <| app_state := app_state h' |> <| stdin := stdin h' |>
  | Signal _ _ _ => h' = h <| signalled := signalled h' |>
  | WriteFile _ _ _ _ | EditFile _ _ _ _ _ _ _ => h' = h <| fs := fs h' |>
  | McpResponse _ _ _ => h' = h <| mcp := mcp h' |>
  | ReadFile _ _ _ _ | ListDirectory _ _ | Glob _ _ _ _ _ | Grep _ _ _ _ _ _ _ => h' = h
  end.

Lemma write_file_fits path content expected fs' id :
  fits (WriteFile id path content expected) (fst (handle_write_file (hash_content env) path content expected fs')).
Proof. unfold handle_write_file. by repeat (case_match; subst). Qed.
Lemma edit_file_fits path old new all hash line fs' id :
  fits (EditFile id path old new all hash line) (fst (handle_edit_file (hash_content env) path old new all hash line fs')).
Proof. unfold handle_edit_file. by repeat (case_match; subst). Qed.

Lemma message_answered connection msg (h : Host F) :
  let '(h', reply) := handle_message connection msg h in
  leaves msg h h' ∧ match reply with Some (id, r) => request_id_of msg = Some id ∧ fits msg r | None => request_id_of msg = None end.
Proof.
  destruct h as [w fs' calls inputs sig]. destruct msg; cbn [handle_message].
  - unfold create_terminal, spawn_shell. by repeat (case_match; simplify_eq/=).
  - unfold run_terminate, terminate_terminal. by repeat (case_match; simplify_eq/=).
  - unfold run_command. destruct (start_command _ _ _ _ _) as [[] w']; by split.
  - unfold run_signal. destruct (signal_current_command _ _ _ _ _ _); by split.
  - unfold handle_read_file. by repeat (case_match; simplify_eq/=).
  - pose proof (write_file_fits path content expected_hash fs' request_id) as Hf. cbn [fs].
    destruct (handle_write_file _ _ _ _ _) as [r fs'']. by split.
  - pose proof (edit_file_fits path old_string new_string replace_all expected_hash expected_line fs' request_id) as Hf. cbn [fs].
    destruct (handle_edit_file _ _ _ _ _ _ _ _) as [r fs'']. by split.
  - unfold handle_list_directory. by repeat (case_match; simplify_eq/=).
  - unfold handle_glob. by repeat (case_match; simplify_eq/=).
  - unfold handle_grep. by repeat (case_match; simplify_eq/=).
  - by split.
Qed.

(** Each of smelt's messages is answered as it asks.  A request gets exactly one reply,
    with its own id and of its own kind or an error; a command, a signal and an MCP answer
    get none; a message that doesn't parse gets an error, with the request's id where one
    can be read, and changes nothing; and each changes only its own part of the agent: the
    reading requests nothing at all, the writing ones only files. *)
Theorem messages_are_answered_as_they_ask connection text (h : Host F) :
  let '(h', sent) := handle_client_message connection text h in
  match parse_message env text with
  | Err e => h' = h ∧ ∃ request_id, sent = [ProtocolError request_id e]
  | Ok msg =>
      leaves msg h h'
      ∧ match request_id_of msg with
        | Some id => ∃ r, sent = [ReplyTo id r] ∧ fits msg r
        | None => sent = []
        end
  end.
Proof.
  unfold handle_client_message. destruct (parse_message env text) as [msg|e]; [|by eauto].
  pose proof (message_answered connection msg h) as Hm. destruct (handle_message connection msg h) as [h' [[id r]|]]; destruct Hm as [Hl Hr].
  - destruct Hr as [-> Hf]. split; [done|]. by exists r.
  - by rewrite Hr.
Qed.
(** A command reaches its shell as it was given, whatever its text.  A command message
    either starts nothing, or claims a live shell and writes it one line: [eval] of a word
    that [bash] reads back as exactly the command, and nothing of it further; then the two
    [printf]s whose word it reads back as the marker the shell's record now waits for. *)
Theorem commands_reach_their_shell terminal_id id command (h : Host F) :
  let h' := run_command terminal_id id command h in
  stdin h' = stdin h
  ∨ ∃ n s line out err,
      let m := new_marker (nonce env) in
      let status := dquote +:+ "$__smelt_rc" +:+ dquote in
      stdin h' = app (stdin h) [(n, "eval " +:+ line)]
      ∧ read_word false line = Some (command, " </dev/null" +:+ String newline ("__smelt_rc=$?; printf '%so:%s\n' " +:+ out))
      ∧ read_word false out = Some (m, " " +:+ status +:+ "; printf '%se:%s\n' " +:+ err)
      ∧ read_word false err = Some (m, " " +:+ status +:+ " >&2; unset __smelt_rc" +:+ String newline "")
      ∧ shells (app_state h') !! n = Some s ∧ current s = Some id ∧ marker s = Some m ∧ ended s = false.
Proof.
  cbn zeta. unfold run_command. pose proof (start_command_starts (rounds env) terminal_id id (new_marker (nonce env)) (app_state h)) as Hs.
  destruct (start_command _ _ _ _ _) as [[n| | | |] w]; [right|by left..]. destruct Hs as (s & Hn & Hc & Hm & He).
  eexists n, s, _, _, _. conjs; [reflexivity|apply (read_shell_quote command)|apply read_shell_quote|apply read_shell_quote|done..].
Qed.
End Dispatch.
