(* ===== verification/PodRegistry.v ===== *)
(** * PodRegistry: smelt's connections to its pods' agents

    [src/src/sandbox/agent/registry.rs], with the tasks of [agent.rs] that use it: a
    connector of [connect_with_retry], under its pod's [pod_connect_lock], that dials and
    registers; a connection's reader, which fails its waiters when the socket ends and then
    looks in the registry; a teardown ([terminate_pod_as] of [manager/terminate.rs]), which
    marks the pod, takes its connection out and closes it.

    Each critical section of the registry's lock is one step, and so is each other point a
    task may be overtaken at: the dial, the socket's end, a close after the registry's lock
    is let go.  A dialled connection is registered with no await in between, but by another
    thread than the reader's, so the socket may end between. *)

From S2P Require Import Prelude RustStr AgentProtocol.
Local Open Scope string_scope.

Record Outdated := { found : option ProtocolVersion; image : option string }.
Inductive Refused := TornDown | Ended.

(** A connection's reader: reading; past [fail_pending], with its look in the registry to
    come; past that; or stopped by [close]. *)
Inductive ReaderAt := Reading | SocketOver | Looked | Stopped.
#[export] Instance ReaderAt_eq_dec : EqDecision ReaderAt.
Proof. solve_decision. Defined.

(** [takes_requests]: [pending] is still there. *)
Record TerminalConnection := { pod_id : Z; takes_requests : bool; reader : ReaderAt }.
#[export] Instance TerminalConnection_eta : Eta TerminalConnection := λ c,
  Build_TerminalConnection (pod_id c) (takes_requests c) (reader c).

(** What the holder of a pod's connect lock is at. *)
Inductive Connector := Dialing | Offering (conn : nat).

(** [closing]: taken out of the registry, and not yet closed. *)
Record Registry := {
  connections : gmap Z nat;
  torn_down : gset Z;
  outdated : gmap Z Outdated;
  conns : gmap nat TerminalConnection;
  next_conn : nat;
  connectors : gmap Z Connector;
  closing : gset nat;
}.
#[export] Instance Registry_eta : Eta Registry := λ r,
  Build_Registry (connections r) (torn_down r) (outdated r) (conns r) (next_conn r) (connectors r) (closing r).
Definition empty_registry : Registry := Build_Registry ∅ ∅ ∅ ∅ 0 ∅ ∅.

Definition registry_get (pod : Z) (r : Registry) : option nat := connections r !! pod.

Definition fail_pending (id : nat) (r : Registry) : Registry := r <| conns ::= alter (λ c, c <| takes_requests := false |>) id |>.
(** [close]: the reader stops where it reads; past its socket's end it still looks. *)
Definition stop_reader (at_ : ReaderAt) : ReaderAt := match at_ with Reading => Stopped | _ => at_ end.
Definition close (id : nat) (r : Registry) : Registry :=
  fail_pending id r <| conns ::= alter (λ c, c <| reader ::= stop_reader |>) id |>.

Definition register (pod : Z) (id : nat) (r : Registry) : Result unit Refused * Registry :=
  if bool_decide (pod ∈ torn_down r) then (Err TornDown, r)
  else if match conns r !! id with Some c => negb (takes_requests c) | None => true end then (Err Ended, r)
  else (Ok (), r <| connections ::= <[pod := id]> |>).
(** Up to the [close] of the connection taken out. *)
Definition deregister (pod : Z) (r : Registry) : Registry :=
  let taken := connections r !! pod in
  r <| torn_down ::= λ t, {[pod]} ∪ t |> <| outdated ::= delete pod |> <| connections ::= delete pod |>
    <| closing ::= λ c, match taken with Some id => {[id]} ∪ c | None => c end |>.
Definition deregister_if_current (pod : Z) (id : nat) (r : Registry) : bool * Registry :=
  if bool_decide (connections r !! pod = Some id) then (true, r <| connections ::= delete pod |>) else (false, r).

(** ** The tasks' steps *)

Inductive RegistryStep :=
  | Begin (pod : Z)
  | Dialled (pod : Z)
  | GaveUp (pod : Z)
  | FoundOutdated (pod : Z) (o : Outdated) (certain : bool)
  | ImageRead (pod : Z) (image : option string)
  | Offered (pod : Z)
  | SocketEnded (id : nat)
  | ReaderLooks (id : nat)
  | TeardownBegins (pod : Z)
  | Closes (id : nat)
  | TeardownFailed (pod : Z).

Definition let_go (pod : Z) (r : Registry) : Registry := r <| connectors ::= delete pod |>.
(** [Begin]: the lock taken; a pod connected, or known to be outdated, is left at once.
    [Offered]: registered, or refused: [TornDown] closes it and gives up, [Ended] is a
    failed attempt. *)
Definition registry_step (step : RegistryStep) (r : Registry) : Registry :=
  match step with
  | Begin pod =>
      if is_some (connectors r !! pod) || is_some (connections r !! pod) || is_some (outdated r !! pod) then r
      else r <| connectors ::= <[pod := Dialing]> |>
  | Dialled pod =>
      match connectors r !! pod with
      | Some Dialing =>
          r <| conns ::= <[next_conn r := Build_TerminalConnection pod true Reading]> |> <| next_conn ::= S |>
            <| connectors ::= <[pod := Offering (next_conn r)]> |>
      | _ => r
      end
  | GaveUp pod => match connectors r !! pod with Some Dialing => let_go pod r | _ => r end
  | FoundOutdated pod o certain =>
      match connectors r !! pod with
      | Some Dialing =>
          let_go pod (if certain && negb (bool_decide (pod ∈ torn_down r)) then r <| outdated ::= <[pod := o]> |> else r)
      | _ => r
      end
  | ImageRead pod image => r <| outdated ::= alter (λ o, Build_Outdated (found o) image) pod |>
  | Offered pod =>
      match connectors r !! pod with
      | Some (Offering id) =>
          match register pod id r with
          | (Ok _, r) => let_go pod r
          | (Err TornDown, r) => let_go pod (close id r)
          | (Err Ended, r) => r <| connectors ::= <[pod := Dialing]> |>
          end
      | _ => r
      end
  | SocketEnded id =>
      match conns r !! id with
      | Some (Build_TerminalConnection _ _ Reading) => fail_pending id r <| conns ::= alter (λ c, c <| reader := SocketOver |>) id |>
      | _ => r
      end
  | ReaderLooks id =>
      match conns r !! id with
      | Some (Build_TerminalConnection pod _ SocketOver) =>
          snd (deregister_if_current pod id r) <| conns ::= alter (λ c, c <| reader := Looked |>) id |>
      | _ => r
      end
  | TeardownBegins pod => deregister pod r
  | Closes id => if bool_decide (id ∈ closing r) then close id r <| closing ::= λ c, c ∖ {[id]} |> else r
  | TeardownFailed pod => r <| torn_down ::= λ t, t ∖ {[pod]} |>
  end.
Definition registry_run (steps : list RegistryStep) (r : Registry) : Registry := foldl (flip registry_step) r steps.

(** ** The invariant *)

Record registry_ok (r : Registry) : Prop := {
  ok_registered pod id : connections r !! pod = Some id →
    ∃ c, conns r !! id = Some c ∧ pod_id c = pod ∧ (reader c = Reading ∨ reader c = SocketOver) ∧ id ∉ closing r;
  ok_torn pod : pod ∈ torn_down r → connections r !! pod = None ∧ outdated r !! pod = None;
  ok_outdated pod : is_some (outdated r !! pod) = true → connections r !! pod = None;
  ok_connector pod k : connectors r !! pod = Some k → connections r !! pod = None ∧ outdated r !! pod = None;
  ok_offered pod id : connectors r !! pod = Some (Offering id) →
    ∃ c, conns r !! id = Some c ∧ pod_id c = pod ∧ reader c ≠ Stopped ∧ id ∉ closing r;
  ok_open id c : conns r !! id = Some c → reader c = Reading →
    connections r !! pod_id c = Some id ∨ connectors r !! pod_id c = Some (Offering id) ∨ id ∈ closing r;
  ok_takes id c : conns r !! id = Some c → takes_requests c = bool_decide (reader c = Reading);
  ok_fresh id : is_some (conns r !! id) = true ∨ id ∈ closing r → (id < next_conn r)%nat;
}.

Lemma alter_inv (f : TerminalConnection → TerminalConnection) id j (m : gmap nat TerminalConnection) c :
  alter f id m !! j = Some c → ∃ c0, m !! j = Some c0 ∧ c = (if decide (j = id) then f c0 else c0).
Proof.
  destruct (decide (j = id)) as [->|Hne]; [|rewrite lookup_alter_ne by done; by exists c].
  rewrite lookup_alter_eq. destruct (m !! id) as [c0|]; [|done]. intros [= <-]. by exists c0.
Qed.
Lemma alter_at (f : TerminalConnection → TerminalConnection) id j (m : gmap nat TerminalConnection) c0 :
  m !! j = Some c0 → alter f id m !! j = Some (if decide (j = id) then f c0 else c0).
Proof.
  intros Hj. destruct (decide (j = id)) as [->|Hne]; [by rewrite lookup_alter_eq, Hj|by rewrite lookup_alter_ne].
Qed.

(** A step on one connection's own fields. *)
Lemma ok_alter r f id :
  registry_ok r →
  (∀ c, pod_id (f c) = pod_id c ∧ takes_requests (f c) = bool_decide (reader (f c) = Reading) ∧ (reader (f c) = Reading → reader c = Reading)) →
  (∀ c pod, conns r !! id = Some c → connections r !! pod = Some id → reader (f c) = Reading ∨ reader (f c) = SocketOver) →
  (∀ c pod, conns r !! id = Some c → connectors r !! pod = Some (Offering id) → reader (f c) ≠ Stopped) →
  registry_ok (r <| conns ::= alter f id |>).
Proof.
  intros [] Hf Hreg Hoff. split; unfold set_field; cbn [connections torn_down outdated conns next_conn connectors closing]; try done.
  - intros pod j Hj. destruct (ok_registered0 pod j Hj) as (c & Hc & Hp & Hr & Hcl). eexists. conjs; [by apply alter_at|..|done].
    + destruct (decide _); [|done]. destruct (Hf c) as (-> & _). done.
    + destruct (decide (j = id)) as [->|]; [|done]. by eapply Hreg.
  - intros pod j Hj. destruct (ok_offered0 pod j Hj) as (c & Hc & Hp & Hr & Hcl). eexists. conjs; [by apply alter_at|..|done].
    + destruct (decide _); [|done]. destruct (Hf c) as (-> & _). done.
    + destruct (decide (j = id)) as [->|]; [|done]. by eapply Hoff.
  - intros j c (c0 & Hc & ->)%alter_inv. destruct (decide (j = id)) as [->|]; [|by apply ok_open0].
    destruct (Hf c0) as (-> & _ & Hread). intros Hr. by apply ok_open0; [|apply Hread].
  - intros j c (c0 & Hc & ->)%alter_inv. destruct (decide (j = id)); [by destruct (Hf c0) as (_ & -> & _)|by eapply ok_takes0].
  - intros j [Hj|Hj]; apply ok_fresh0; [left|by right]. by rewrite lookup_alter_some in Hj.
Qed.

Lemma alter_twice (f g h : TerminalConnection → TerminalConnection) id (m : gmap nat TerminalConnection) :
  (∀ c, f (g c) = h c) → alter f id (alter g id m) = alter h id m.
Proof.
  intros Hh. apply map_eq. intros j. destruct (decide (id = j)) as [<-|Hne].
  - rewrite !lookup_alter_eq. destruct (m !! id) as [c|]; [|done]. cbn. by rewrite Hh.
  - by rewrite !lookup_alter_ne.
Qed.

Definition closed (c : TerminalConnection) : TerminalConnection :=
  Build_TerminalConnection (pod_id c) false (stop_reader (reader c)).
Lemma close_eq id r : close id r = r <| conns ::= alter closed id |>.
Proof.
  unfold close, fail_pending, set_field. cbn. f_equal. by apply alter_twice.
Qed.
Definition ended (c : TerminalConnection) : TerminalConnection := Build_TerminalConnection (pod_id c) false SocketOver.
Lemma socket_ended_eq id r :
  fail_pending id r <| conns ::= alter (λ c, c <| reader := SocketOver |>) id |> = r <| conns ::= alter ended id |>.
Proof.
  unfold fail_pending, set_field. cbn. f_equal. by apply alter_twice.
Qed.

(** A connection neither registered nor being offered may be closed. *)
Lemma ok_close r id :
  registry_ok r → (∀ pod, connections r !! pod ≠ Some id) → (∀ pod, connectors r !! pod ≠ Some (Offering id)) → registry_ok (close id r).
Proof.
  intros Hok Hreg Hoff. rewrite close_eq. apply ok_alter; [done|intros []..|].
  - conjs; cbn; [done|by destruct reader0..].
  - intros pod _ Hp. by apply Hreg in Hp.
  - intros c pod _ Hp. by apply Hoff in Hp.
Qed.
Lemma ok_let_go r pod : registry_ok r → (∀ id, connectors r !! pod ≠ Some (Offering id)) → registry_ok (let_go pod r).
Proof.
  intros [] Hoff. split; unfold let_go, set_field; cbn [connections torn_down outdated conns next_conn connectors closing]; try done.
  - intros p k [_ Hk]%lookup_delete_Some. by eapply ok_connector0.
  - intros p id [_ Hk]%lookup_delete_Some. by eapply ok_offered0.
  - intros id c Hc Hr. destruct (ok_open0 id c Hc Hr) as [|[Ho|]]; [by left| |by right; right].
    right. left. rewrite lookup_delete_ne; [done|]. intros ->. by apply Hoff in Ho.
Qed.

Lemma ok_begin r pod : registry_ok r → connectors r !! pod = None → connections r !! pod = None → outdated r !! pod = None →
  registry_ok (r <| connectors ::= <[pod := Dialing]> |>).
Proof.
  intros [] Hk Hc Ho. split; unfold set_field; cbn [connections torn_down outdated conns next_conn connectors closing]; try done.
  - intros p k [[<- _]|[_ Hp]]%lookup_insert_Some; [done|by eapply ok_connector0].
  - intros p id [[_ ?]|[_ Hp]]%lookup_insert_Some; [done|by eapply ok_offered0].
  - intros id c Hid Hr. destruct (ok_open0 id c Hid Hr) as [|[Hof|]]; [by left| |by right; right].
    right. left. rewrite lookup_insert_ne; [done|]. intros ->. congruence.
Qed.
Lemma ok_dialled r pod : registry_ok r → connectors r !! pod = Some Dialing →
  registry_ok (r <| conns ::= <[next_conn r := Build_TerminalConnection pod true Reading]> |> <| next_conn ::= S |>
                 <| connectors ::= <[pod := Offering (next_conn r)]> |>).
Proof.
  intros Hok Hk. pose proof Hok as [].
  assert (conns r !! next_conn r = None) as Hnew.
  { destruct (conns r !! next_conn r) eqn:Hc; [|done]. specialize (ok_fresh0 (next_conn r)). rewrite Hc in ok_fresh0.
    specialize (ok_fresh0 (or_introl eq_refl)). lia. }
  assert (next_conn r ∉ closing r) as Hncl by (intros Hx; specialize (ok_fresh0 _ (or_intror Hx)); lia).
  split; unfold set_field; cbn [connections torn_down outdated conns next_conn connectors closing]; try done.
  - intros p id Hp. destruct (ok_registered0 p id Hp) as (c & Hc & Hrest). exists c. split; [|done].
    rewrite lookup_insert_ne; [done|congruence].
  - intros p k [[<- _]|[_ Hp]]%lookup_insert_Some; by eapply ok_connector0.
  - intros p id [[<- [= <-]]|[Hne Hp]]%lookup_insert_Some.
    + eexists. rewrite lookup_insert_eq. by conjs.
    + destruct (ok_offered0 p id Hp) as (c & Hc & Hrest). exists c. split; [|done]. rewrite lookup_insert_ne; [done|congruence].
  - intros id c [[<- <-]|[Hne Hc]]%lookup_insert_Some Hr.
    + right. left. cbn. by rewrite lookup_insert_eq.
    + destruct (ok_open0 id c Hc Hr) as [|[Ho|]]; [by left| |by right; right]. right. left.
      rewrite lookup_insert_ne; [done|]. intros ->. congruence.
  - intros id c [[_ <-]|[_ Hc]]%lookup_insert_Some; [done|by eapply ok_takes0].
  - intros id [Hx|Hx].
    + destruct (decide (id = next_conn r)) as [->|Hne]; [lia|]. rewrite lookup_insert_ne in Hx by done. specialize (ok_fresh0 id (or_introl Hx)). lia.
    + specialize (ok_fresh0 id (or_intror Hx)). lia.
Qed.
Lemma ok_learned r pod o : registry_ok r → pod ∉ torn_down r → connectors r !! pod = Some Dialing →
  registry_ok (let_go pod (r <| outdated ::= <[pod := o]> |>)).
Proof.
  intros [] Ht Hk. destruct (ok_connector0 pod _ Hk) as [Hc Ho].
  split; unfold let_go, set_field; cbn [connections torn_down outdated conns next_conn connectors closing]; try done.
  - intros p Hp. rewrite lookup_insert_ne by (by intros ->). by apply ok_torn0.
  - intros p Hp. destruct (decide (pod = p)) as [->|Hne]; [done|]. rewrite lookup_insert_ne in Hp by done. by apply ok_outdated0.
  - intros p k [Hne Hp]%lookup_delete_Some. rewrite lookup_insert_ne by done. by eapply ok_connector0.
  - intros p id [_ Hp]%lookup_delete_Some. by eapply ok_offered0.
  - intros id c Hid Hr. destruct (ok_open0 id c Hid Hr) as [|[Hof|]]; [by left| |by right; right].
    right. left. rewrite lookup_delete_ne; [done|]. intros ->. congruence.
Qed.
Lemma ok_registers r pod id c : registry_ok r → pod ∉ torn_down r → connectors r !! pod = Some (Offering id) →
  conns r !! id = Some c → takes_requests c = true → registry_ok (let_go pod (r <| connections ::= <[pod := id]> |>)).
Proof.
  intros Hok Ht Hk Hc Htakes. pose proof Hok as []. destruct (ok_connector0 pod _ Hk) as [Hcn Ho].
  destruct (ok_offered0 pod id Hk) as (c' & Hc' & Hp & Hs & Hcl). rewrite Hc in Hc'. injection Hc' as <-.
  pose proof (ok_takes0 id c Hc) as Hr. rewrite Htakes in Hr. symmetry in Hr. apply bool_decide_eq_true in Hr.
  split; unfold let_go, set_field; cbn [connections torn_down outdated conns next_conn connectors closing]; try done.
  - intros p j [[<- <-]|[_ Hj]]%lookup_insert_Some; [|by apply ok_registered0]. exists c. conjs; [done|done|by left|done].
  - intros p Hx. rewrite lookup_insert_ne by (by intros ->). by apply ok_torn0.
  - intros p Hx. rewrite lookup_insert_ne; [by apply ok_outdated0|]. intros ->. by rewrite Ho in Hx.
  - intros p k [Hne Hx]%lookup_delete_Some. rewrite lookup_insert_ne by done. by eapply ok_connector0.
  - intros p j [_ Hx]%lookup_delete_Some. by apply ok_offered0.
  - intros j cj Hj Hrj. destruct (decide (pod_id cj = pod)) as [Hpj|Hne].
    + rewrite Hpj, lookup_insert_eq. destruct (ok_open0 j cj Hj Hrj) as [Hx|[Hx|]]; [congruence| |by right; right].
      rewrite Hpj in Hx. left. congruence.
    + rewrite lookup_insert_ne, lookup_delete_ne by done. by apply ok_open0.
Qed.
Lemma ok_offer_failed r pod id c : registry_ok r → connectors r !! pod = Some (Offering id) → conns r !! id = Some c →
  takes_requests c = false → registry_ok (r <| connectors ::= <[pod := Dialing]> |>).
Proof.
  intros [] Hk Hc Ht. destruct (ok_connector0 pod _ Hk) as [Hcn Ho].
  split; unfold set_field; cbn [connections torn_down outdated conns next_conn connectors closing]; try done.
  - intros p k [[<- _]|[_ Hp]]%lookup_insert_Some; [done|by eapply ok_connector0].
  - intros p j [[_ ?]|[_ Hp]]%lookup_insert_Some; [done|by eapply ok_offered0].
  - intros j cj Hj Hr. destruct (ok_open0 j cj Hj Hr) as [|[Hof|]]; [by left| |by right; right]. right. left.
    rewrite lookup_insert_ne; [done|]. intros Heq. rewrite <-Heq, Hk in Hof. injection Hof as ->. rewrite Hc in Hj. injection Hj as ->.
    specialize (ok_takes0 j cj Hc). rewrite bool_decide_eq_true_2 in ok_takes0 by done. congruence.
Qed.
Lemma ok_deregister r pod : registry_ok r → registry_ok (deregister pod r).
Proof.
  intros Hok. pose proof Hok as []. unfold deregister. set (taken := connections r !! pod) in *.
  set (cl := match taken with Some id => {[id]} ∪ closing r | None => closing r end).
  assert (∀ id, id ∈ cl → taken = Some id ∨ id ∈ closing r) as Hcl.
  { intros id. unfold cl. destruct taken; set_solver. }
  assert (∀ id, id ∈ closing r → id ∈ cl) as Hmore by (intros id; unfold cl; destruct taken; set_solver).
  split; unfold set_field; cbn [connections torn_down outdated conns next_conn connectors closing]; fold cl; try done.
  - intros p id [Hne Hp]%lookup_delete_Some. destruct (ok_registered0 p id Hp) as (c & Hc & Hpod & Hr & Hncl). exists c. conjs; [done..|].
    intros [Ht|]%Hcl; [|done]. destruct (ok_registered0 pod id Ht) as (c' & Hc' & Hpod' & _). congruence.
  - intros p Hp. rewrite !lookup_delete_None. destruct (decide (pod = p)) as [|Hne]; [tauto|].
    destruct (ok_torn0 p); [set_solver|tauto].
  - intros p Hp. apply lookup_delete_None. destruct (decide (pod = p)) as [|Hne]; [tauto|]. right. apply ok_outdated0.
    by rewrite lookup_delete_ne in Hp.
  - intros p k Hk. rewrite !lookup_delete_None. destruct (ok_connector0 p k Hk). tauto.
  - intros p id Hk. destruct (ok_offered0 p id Hk) as (c & Hc & Hpod & Hr & Hncl). exists c. conjs; [done..|].
    intros [Ht|]%Hcl; [|done]. destruct (ok_registered0 pod id Ht) as (c' & Hc' & Hpod' & _).
    destruct (ok_connector0 p _ Hk) as [Hno _]. assert (pod = p) as -> by congruence. unfold taken in Ht. congruence.
  - intros id c Hc Hr. destruct (ok_open0 id c Hc Hr) as [Hreg|[|]]; [|by right; left|by right; right; apply Hmore].
    destruct (decide (pod = pod_id c)) as [Heq|Hne]; [|left; by rewrite lookup_delete_ne].
    right. right. unfold cl, taken. rewrite Heq, Hreg. set_solver.
  - intros id [Hx|[Ht|Hx]%Hcl]; apply ok_fresh0; [by left| |by right]. left.
    destruct (ok_registered0 pod id Ht) as (c & -> & _). done.
Qed.
Lemma ok_looks r id pod takes : registry_ok r → conns r !! id = Some (Build_TerminalConnection pod takes SocketOver) →
  registry_ok (snd (deregister_if_current pod id r) <| conns ::= alter (λ c, c <| reader := Looked |>) id |>).
Proof.
  intros Hok Hc. assert (registry_ok (snd (deregister_if_current pod id r))) as Hok1.
  { unfold deregister_if_current. case_bool_decide as Hcur; [|done]. cbn [snd]. destruct Hok.
    split; unfold set_field; cbn [connections torn_down outdated conns next_conn connectors closing]; try done.
    - intros p j [_ Hp]%lookup_delete_Some. by apply ok_registered0.
    - intros p Hp. destruct (ok_torn0 p Hp). by rewrite lookup_delete_None; tauto.
    - intros p Hp. rewrite lookup_delete_None. right. by apply ok_outdated0.
    - intros p k Hk. destruct (ok_connector0 p k Hk). rewrite lookup_delete_None. tauto.
    - intros j cj Hj Hr. destruct (ok_open0 j cj Hj Hr) as [Hreg|[|]]; [|by right; left|by right; right]. left.
      rewrite lookup_delete_ne; [done|]. intros Heq. rewrite <-Heq, Hcur in Hreg. injection Hreg as <-. rewrite Hc in Hj.
      by injection Hj as <-. }
  assert (conns (snd (deregister_if_current pod id r)) = conns r) as Hsame by (unfold deregister_if_current; by case_bool_decide).
  pose proof (ok_takes _ Hok _ _ Hc) as Htakes. cbn in Htakes.
  assert (registry_ok (snd (deregister_if_current pod id r) <| conns ::= alter (λ _, Build_TerminalConnection pod false Looked) id |>)) as Hdone.
  { destruct Hok1. split; unfold set_field; cbn [connections torn_down outdated conns next_conn connectors closing]; try done.
    - intros p j Hj. destruct (ok_registered0 p j Hj) as (c & Hcj & Hrest). exists c. split; [|done]. rewrite lookup_alter_ne; [done|].
      intros <-. assert (pod_id c = p) as Hp by apply Hrest. rewrite Hsame, Hc in Hcj. injection Hcj as <-. cbn in Hp. subst p.
      unfold deregister_if_current in Hj. case_bool_decide as Hcur; [|done]. cbn [snd] in Hj. by apply (lookup_delete_Some (connections r) pod pod id) in Hj as [].
    - intros p j Hj. destruct (ok_offered0 p j Hj) as (c & Hcj & Hp & Hr & Hcl). eexists. conjs; [by apply alter_at|..|done].
      + destruct (decide (j = id)) as [->|]; [|done]. rewrite Hsame, Hc in Hcj. injection Hcj as <-. exact Hp.
      + by destruct (decide (j = id)).
    - intros j c (c0 & Hj & ->)%alter_inv. destruct (decide (j = id)); [done|]. by apply ok_open0.
    - intros j c (c0 & Hj & ->)%alter_inv. destruct (decide (j = id)); [done|]. by eapply ok_takes0.
    - intros j [Hj|Hj]; apply ok_fresh0; [left|by right]. by rewrite lookup_alter_some in Hj. }
  match goal with |- registry_ok (?a <| conns ::= alter ?f id |>) =>
    replace (a <| conns ::= alter f id |>) with (a <| conns ::= alter (λ _, Build_TerminalConnection pod false Looked) id |>); [done|] end.
  unfold set_field. f_equal. apply map_eq. intros j. destruct (decide (id = j)) as [<-|]; [|by rewrite !lookup_alter_ne].
  rewrite !lookup_alter_eq, Hsame, Hc. cbn. by rewrite Htakes.
Qed.

Lemma ok_image r pod image : registry_ok r → registry_ok (r <| outdated ::= alter (λ o, Build_Outdated (found o) image) pod |>).
Proof.
  intros [].
  assert (∀ p, alter (λ o, Build_Outdated (found o) image) pod (outdated r) !! p = None ↔ outdated r !! p = None) as Hnone.
  { intros p. pose proof (lookup_alter_some (λ o, Build_Outdated (found o) image) pod p (outdated r)) as Hs.
    destruct (alter _ pod (outdated r) !! p), (outdated r !! p); by cbn in Hs. }
  split; unfold set_field; cbn [connections torn_down outdated conns next_conn connectors closing]; try done.
  - intros p Hp. rewrite Hnone. by apply ok_torn0.
  - intros p Hp. rewrite lookup_alter_some in Hp. by apply ok_outdated0.
  - intros p k Hk. rewrite Hnone. by eapply ok_connector0.
Qed.
Lemma ok_unmarked r pod : registry_ok r → registry_ok (r <| torn_down ::= λ t, t ∖ {[pod]} |>).
Proof. intros []. split; try done. intros p Hp. apply ok_torn0. revert Hp. unfold set_field. cbn. set_solver. Qed.
Lemma ok_closed_one r id : registry_ok r → id ∈ closing r → registry_ok (close id r <| closing ::= λ c, c ∖ {[id]} |>).
Proof.
  intros Hok Hin. assert (registry_ok (close id r)) as Hcl.
  { apply ok_close; [done|..]; intros pod Hp; destruct Hok.
    - destruct (ok_registered0 pod id Hp) as (c & _ & _ & _ & Hn). done.
    - destruct (ok_offered0 pod id Hp) as (c & _ & _ & _ & Hn). done. }
  rewrite close_eq in *. destruct Hcl. split; unfold set_field in *; cbn [connections torn_down outdated conns next_conn connectors closing] in *; try done.
  - intros p j Hj. destruct (ok_registered0 p j Hj) as (c & Hc & Hp & Hr & Hn). exists c. conjs; [done..|]. set_solver.
  - intros p j Hj. destruct (ok_offered0 p j Hj) as (c & Hc & Hp & Hr & Hn). exists c. conjs; [done..|]. set_solver.
  - intros j c Hc Hr. destruct (ok_open0 j c Hc Hr) as [|[|Hj]]; [by left|by right; left|]. right. right.
    apply elem_of_difference. split; [done|]. intros ->%elem_of_singleton. apply alter_inv in Hc as (c0 & Hc & ->).
    rewrite decide_True in Hr by done. unfold closed in Hr. cbn in Hr. by destruct (reader c0).
  - intros j Hj. apply ok_fresh0. destruct Hj; [by left|right; set_solver].
Qed.

(** A refused offer: the connection closed and the lock let go. *)
Lemma ok_torn_offer r pod id : registry_ok r → connectors r !! pod = Some (Offering id) → registry_ok (let_go pod (r <| conns ::= alter closed id |>)).
Proof.
  intros Hok Hk. pose proof Hok as []. destruct (ok_connector0 pod _ Hk) as [Hno _]. destruct (ok_offered0 pod id Hk) as (c & Hc & Hp & _).
  split; unfold let_go, set_field; cbn [connections torn_down outdated conns next_conn connectors closing]; try done.
  - intros p j Hj. destruct (ok_registered0 p j Hj) as (cj & Hcj & Hpj & Hrest). exists cj. split; [|done]. rewrite lookup_alter_ne; [done|].
    intros ->. congruence.
  - intros p k [_ Hx]%lookup_delete_Some. by eapply ok_connector0.
  - intros p j [Hne Hj]%lookup_delete_Some. destruct (ok_offered0 p j Hj) as (cj & Hcj & Hpj & Hrest). exists cj. split; [|done].
    rewrite lookup_alter_ne; [done|]. intros ->. congruence.
  - intros j cj (c0 & Hcj & ->)%alter_inv. destruct (decide (j = id)) as [->|Hne]; [by unfold closed; cbn; destruct (reader c0)|].
    intros Hr. destruct (ok_open0 j c0 Hcj Hr) as [|[Hof|]]; [by left| |by right; right]. right. left.
    rewrite lookup_delete_ne; [done|]. intros Heq. congruence.
  - intros j cj (c0 & Hcj & ->)%alter_inv. destruct (decide (j = id)) as [->|Hne]; [by unfold closed; cbn; destruct (reader c0)|by eapply ok_takes0].
  - intros j [Hj|Hj]; apply ok_fresh0; [left|by right]. by rewrite lookup_alter_some in Hj.
Qed.

Lemma ok_registry_step step r : registry_ok r → registry_ok (registry_step step r).
Proof.
  intros Hok. destruct step as [pod|pod|pod|pod o certain|pod i|pod|id|id|pod|id|pod]; cbn [registry_step].
  - destruct (connectors r !! pod) eqn:Hk; [done|]. destruct (connections r !! pod) eqn:Hc; [done|].
    destruct (outdated r !! pod) eqn:Ho; [done|]. by apply ok_begin.
  - destruct (connectors r !! pod) as [[]|] eqn:Hk; [|done..]. by apply ok_dialled.
  - destruct (connectors r !! pod) as [[]|] eqn:Hk; [|done..]. apply ok_let_go; [done|]. by intros id; rewrite Hk.
  - destruct (connectors r !! pod) as [[]|] eqn:Hk; [|done..]. destruct certain; cbn [andb];
      [destruct (bool_decide_reflect (pod ∈ torn_down r))|]; cbn [negb].
    + apply ok_let_go; [done|]. by intros id; rewrite Hk.
    + by apply ok_learned.
    + apply ok_let_go; [done|]. by intros id; rewrite Hk.
  - by apply ok_image.
  - destruct (connectors r !! pod) as [[|id]|] eqn:Hk; [done| |done]. destruct (ok_offered _ Hok _ _ Hk) as (c & Hc & Hp & Hr & Hcl).
    unfold register. case_bool_decide as Ht.
    + rewrite close_eq. by apply ok_torn_offer.
    + rewrite Hc. destruct (takes_requests c) eqn:Htk; cbn [negb].
      * by eapply ok_registers.
      * by eapply ok_offer_failed.
  - destruct (conns r !! id) as [[pod takes []]|] eqn:Hc; try done. rewrite socket_ended_eq. apply ok_alter; [done|by intros []|by right|done].
  - destruct (conns r !! id) as [[pod takes []]|] eqn:Hc; try done. by eapply ok_looks.
  - by apply ok_deregister.
  - case_bool_decide; [|done]. by apply ok_closed_one.
  - by apply ok_unmarked.
Qed.

Lemma registry_ok_run steps r : registry_ok r → registry_ok (registry_run steps r).
Proof. revert r. induction steps as [|step steps IH]; intros r Hok; [done|]. by apply IH, ok_registry_step. Qed.
Lemma ok_empty : registry_ok empty_registry.
Proof. by split; intros; cbn in *; repeat match goal with H : context [∅ !! _] |- _ => rewrite lookup_empty in H end; try done; set_solver. Qed.

(** The registry never keeps a dead connection and never loses a live one.  However
    connects, socket ends and teardowns overtake each other: a pod's registered connection
    is one to that pod, and when its socket has ended its reader has still to look, and so
    takes it out; a pod torn down has none, nor a remembered outdated agent, and a pod
    whose agent is outdated has none; no connection is registered over another; and every
    open socket is its pod's registered connection, the one its pod's connector is about to
    offer, or one about to be closed, so a pod has at most one besides those. *)
Theorem registry_is_sound (steps : list RegistryStep) :
  let r := registry_run steps empty_registry in
  (∀ pod id, registry_get pod r = Some id →
     ∃ c, conns r !! id = Some c ∧ pod_id c = pod
       ∧ (reader c = Reading ∧ takes_requests c = true
          ∨ reader c = SocketOver ∧ registry_get pod (registry_step (ReaderLooks id) r) = None))
  ∧ (∀ pod, pod ∈ torn_down r → registry_get pod r = None ∧ outdated r !! pod = None)
  ∧ (∀ pod, is_some (outdated r !! pod) = true → registry_get pod r = None)
  ∧ (∀ pod, is_some (connectors r !! pod) = true → registry_get pod r = None)
  ∧ (∀ id c, conns r !! id = Some c → reader c = Reading →
       registry_get (pod_id c) r = Some id ∨ connectors r !! pod_id c = Some (Offering id) ∨ id ∈ closing r)
  ∧ (∀ id1 id2 c1 c2, conns r !! id1 = Some c1 → conns r !! id2 = Some c2 → pod_id c1 = pod_id c2 →
       reader c1 = Reading → reader c2 = Reading → id1 ∉ closing r → id2 ∉ closing r → id1 = id2).
Proof.
  cbn zeta. set (r := registry_run steps empty_registry). pose proof (registry_ok_run steps _ ok_empty) as Hok. fold r in Hok.
  unfold registry_get. conjs; try (by destruct Hok).
  - intros pod id Hp. destruct (ok_registered _ Hok _ _ Hp) as (c & Hc & Hpod & [Hr|Hr] & _); exists c; conjs; [done|done|left|done|done|right].
    + split; [done|]. rewrite (ok_takes _ Hok _ _ Hc). by apply bool_decide_eq_true.
    + split; [done|]. cbn [registry_step]. rewrite Hc. destruct c as [p takes rd]. cbn in Hpod, Hr. subst p rd.
      unfold deregister_if_current. rewrite bool_decide_eq_true_2 by done. apply (lookup_delete_eq (connections r)).
  - intros pod Hk. destruct (connectors r !! pod) as [k|] eqn:E; [|done]. by destruct (ok_connector _ Hok _ _ E).
  - intros id1 id2 c1 c2 H1 H2 Hp Hr1 Hr2 Hn1 Hn2.
    destruct (ok_open _ Hok _ _ H1 Hr1) as [G1|[G1|]], (ok_open _ Hok _ _ H2 Hr2) as [G2|[G2|]]; try done; rewrite Hp in G1.
    + congruence.
    + destruct (ok_connector _ Hok _ _ G2). congruence.
    + destruct (ok_connector _ Hok _ _ G1). congruence.
    + congruence.
Qed.

(** ** A torn-down pod *)

Lemma torn_down_stays pod step r : step ≠ TeardownFailed pod → pod ∈ torn_down r → pod ∈ torn_down (registry_step step r).
Proof.
  intros Hne Hin. destruct step as [p|p|p|p o certain|p i|p|id|id|p|id|p]; cbn [registry_step];
    unfold let_go, deregister, deregister_if_current, register, close, fail_pending;
    repeat (case_match || case_bool_decide); simplify_eq; unfold set_field; cbn; try done; try set_solver.
Qed.

(** C10. A torn-down pod stays disconnected.  From a teardown on, unless one fails, the pod
    has no registered connection and nothing is remembered of its agent, whatever step of a
    connect, a reader or another teardown comes next: a connection being offered is refused
    and closed, a connect that finds the agent outdated doesn't note it, and any other
    connection still open is about to be closed. *)
Theorem torn_down_pods_stay_disconnected (before after : list RegistryStep) (pod : Z) (Hdone : TeardownFailed pod ∉ after) :
  let r := registry_run (app before (TeardownBegins pod :: after)) empty_registry in
  registry_get pod r = None ∧ outdated r !! pod = None
  ∧ (∀ step, step ≠ TeardownFailed pod → registry_get pod (registry_step step r) = None ∧ outdated (registry_step step r) !! pod = None)
  ∧ (∀ id c, conns r !! id = Some c → pod_id c = pod → reader c = Reading →
       id ∈ closing r
       ∨ connectors r !! pod = Some (Offering id)
         ∧ ∀ c', conns (registry_step (Offered pod) r) !! id = Some c' → reader c' = Stopped ∧ takes_requests c' = false)
  ∧ (∀ id c', id ∈ closing r → conns (registry_step (Closes id) r) !! id = Some c' → reader c' ≠ Reading ∧ takes_requests c' = false).
Proof.
  cbn zeta. set (r := registry_run _ _). pose proof (registry_ok_run (app before (TeardownBegins pod :: after)) _ ok_empty) as Hok. fold r in Hok.
  assert (pod ∈ torn_down r) as Ht.
  { unfold r, registry_run. rewrite foldl_app. cbn [foldl flip]. set (r0 := foldl _ _ before). clear r Hok.
    assert (pod ∈ torn_down (registry_step (TeardownBegins pod) r0)) as H0 by (unfold registry_step, deregister, set_field; cbn; set_solver).
    revert H0. generalize (registry_step (TeardownBegins pod) r0). induction after as [|step after IH]; intros r Hr; [done|].
    cbn [foldl flip]. apply IH; [set_solver|]. apply torn_down_stays; [set_solver|done]. }
  assert (∀ id, connectors r !! pod = Some (Offering id) → registry_step (Offered pod) r = let_go pod (close id r)) as Hrefused.
  { intros id Hk. cbn [registry_step]. rewrite Hk. unfold register. by rewrite bool_decide_eq_true_2. }
  destruct (ok_torn _ Hok _ Ht) as [Hno Hout]. conjs.
  - exact Hno.
  - exact Hout.
  - intros step Hstep. pose proof (ok_registry_step step r Hok) as Hok'. apply (ok_torn _ Hok'). by apply torn_down_stays.
  - intros id c Hc Hp Hr. destruct (ok_open _ Hok _ _ Hc Hr) as [Hreg|[Hof|]]; [unfold registry_get in *; congruence| |by left].
    right. rewrite Hp in Hof. split; [done|]. intros c'. rewrite (Hrefused id Hof), close_eq. unfold let_go, set_field. cbn.
    rewrite lookup_alter_eq, Hc. cbn [fmap option_fmap option_map]. intros [= <-]. unfold closed. cbn [reader takes_requests]. by rewrite Hr.
  - intros id c' Hin. cbn [registry_step]. rewrite bool_decide_eq_true_2 by done. rewrite close_eq. unfold set_field. cbn.
    intros (c0 & Hc & ->)%alter_inv. rewrite decide_True by done. unfold closed. cbn. by destruct (reader c0).
Qed.

Lemma torn_down_pods_stay_disconnected_witness :
  let before := [Begin 3; Dialled 3] in
  let r := registry_run (app before [TeardownBegins 3; SocketEnded 7]) empty_registry in
  connectors r !! 3%Z = Some (Offering 0) ∧ registry_get 3 (registry_step (Offered 3) r) = None ∧ outdated r !! 3%Z = None.
Proof.
  cbn zeta. split; [vm_compute; reflexivity|].
  destruct (torn_down_pods_stay_disconnected [Begin 3; Dialled 3] [SocketEnded 7] 3) as (_ & Hout & Hstep & _).
  { apply not_elem_of_cons. split; [done|apply not_elem_of_nil]. }
  split; [exact (proj1 (Hstep (Offered 3) ltac:(discriminate)))|exact Hout].
Defined.

(** Of two teardowns of one pod, the one that fails takes back the mark of the one that
    didn't: a connect that dialled before them is registered after both. *)
Lemma a_failed_teardown_takes_back_anothers_mark :
  let r := registry_run [Begin 3; Dialled 3; TeardownBegins 3; TeardownBegins 3; TeardownFailed 3; Offered 3] empty_registry in
  registry_get 3 r = Some 0%nat.
Proof. vm_compute. reflexivity. Qed.
