(* ===== verification/PodRequests.v ===== *)
(** * PodRequests: smelt's requests to a pod's agent

    [src/src/sandbox/agent.rs]'s [TerminalConnection::request] and what ends its wait, with
    the pick each tool of [files.rs] makes of its reply.

    A request's oneshot is two halves: its sender is its entry in [pending], its receiver
    its entry in [inbox], with the reply once one was sent.  What is done under [pending]'s
    lock is one step, and so are a request's return, its time running out, and its caller
    going away.  JSON's text is outside; [encode_error]: serde's, were a message not to
    encode. *)

From S2P Require Import Prelude RustStr AgentProtocol.
Local Open Scope string_scope.

Inductive AgentRequestError :=
  | Timeout
  | Disconnected
  | Rejected (message : string)
  | UnexpectedReply (action : string)
  | Unencodable (e : string).
#[export] Instance AgentRequestError_eq_dec : EqDecision AgentRequestError.
Proof. solve_decision. Defined.

Definition ACK_TIMEOUT_SECS : Z := 10.
Definition agent_request_error_text (e : AgentRequestError) : string :=
  match e with
  | Timeout => "the sandbox agent didn't answer within " +:+ show_unsigned ACK_TIMEOUT_SECS +:+ "s; the pod may be overloaded. Try again."
  | Disconnected => "the connection to the sandbox agent dropped during the request. Try again; if the pod stopped, you'll be told separately."
  | Rejected message => message
  | UnexpectedReply action => "the sandbox agent answered " +:+ action +:+ " with a different kind of reply (a smelt bug)"
  | Unencodable e => "smelt couldn't encode its request to the sandbox agent (" +:+ e +:+ "; a smelt bug)"
  end.

Definition Outcome : Type := Result Reply AgentRequestError.

Record Requests := {
  next_request_id : Z;
  pending : option (gset Z);
  inbox : gmap Z (option Reply);
  writer_gone : bool;
  outgoing : list ClientMessage;
  outcomes : list (Z * Outcome);
}.
#[export] Instance Requests_eta : Eta Requests := λ r,
  Build_Requests (next_request_id r) (pending r) (inbox r) (writer_gone r) (outgoing r) (outcomes r).
Definition new_requests : Requests := Build_Requests 1 (Some ∅) ∅ false [] [].

Definition forget (id : Z) (r : Requests) : Requests := r <| pending ::= fmap (λ p, p ∖ {[id]}) |>.
Definition send (encode_error : option string) (message : ClientMessage) (r : Requests) : Result unit AgentRequestError * Requests :=
  match encode_error with
  | Some e => (Err (Unencodable e), r)
  | None =>
      if writer_gone r then (Err Disconnected, r) else (Ok (), r <| outgoing ::= λ o, app o [message] |>)
  end.
(** The request's future over. *)
Definition settle (id : Z) (o : Outcome) (r : Requests) : Requests :=
  r <| inbox ::= delete id |> <| outcomes ::= λ l, app l [(id, o)] |>.

(** [request_message_within] up to its wait. *)
Definition begin_request (encode_error : option string) (build : Z → ClientMessage) (r : Requests) : Requests :=
  let request_id := next_request_id r in
  let message := build request_id in
  let r := r <| next_request_id := u64_add request_id 1 |> in
  match pending r with
  | None => settle request_id (Err Disconnected) r
  | Some _ =>
      let r := r <| pending ::= fmap (λ p, {[request_id]} ∪ p) |> <| inbox ::= <[request_id := None]> |> in
      match send encode_error message r with
      | (Err e, r) => settle request_id (Err e) (forget request_id r)
      | (Ok _, r) => r
      end
  end.
Definition outcome_of (reply : Reply) : Outcome :=
  match reply with ReplyError message => Err (Rejected message) | reply => Ok reply end.
(** Whether the request's sender is still there. *)
Definition awaited (id : Z) (r : Requests) : bool :=
  match pending r with Some p => bool_decide (id ∈ p) | None => false end.
(** The wait: a reply sent, or the sender dropped; [timeout] looks at it first. *)
Definition poll_request (id : Z) (r : Requests) : Requests :=
  match inbox r !! id with
  | Some (Some reply) => settle id (outcome_of reply) r
  | Some None => if awaited id r then r else settle id (Err Disconnected) r
  | None => r
  end.
Definition request_timed_out (id : Z) (r : Requests) : Requests :=
  match inbox r !! id with
  | Some None => if awaited id r then settle id (Err Timeout) (forget id r) else poll_request id r
  | _ => poll_request id r
  end.
Definition resolve (id : Z) (reply : Reply) (r : Requests) : Requests :=
  if awaited id r then forget id r <| inbox ::= alter (λ _, Some reply) id |> else r.
Definition fail_pending (r : Requests) : Requests := r <| pending := None |>.

Inductive RequestStep :=
  | Requested (encode_error : option string) (build : Z → ClientMessage)
  | Resolved (id : Z) (reply : Reply)
  | ConnectionEnded
  | WriterEnded
  | Polled (id : Z)
  | TimedOut (id : Z)
  | CallerLeft (id : Z).
Definition request_step (step : RequestStep) (r : Requests) : Requests :=
  match step with
  | Requested e build => begin_request e build r
  | Resolved id reply => resolve id reply r
  | ConnectionEnded => fail_pending r
  | WriterEnded => r <| writer_gone := true |>
  | Polled id => poll_request id r
  | TimedOut id => request_timed_out id r
  | CallerLeft id => r <| inbox ::= delete id |>
  end.
Definition request_run (steps : list RequestStep) (r : Requests) : Requests := foldl (flip request_step) r steps.

(** ** What a tool makes of its reply *)

Definition expect_reply {T} (result : Outcome) (action : string) (pick : Reply → option T) : Result T AgentRequestError :=
  let? reply := result in
  match pick reply with Some x => Ok x | None => Err (UnexpectedReply action) end.

Definition pick_created (r : Reply) : option unit := match r with TerminalCreated => Some () | _ => None end.
Definition pick_terminated (r : Reply) : option unit := match r with TerminalTerminated => Some () | _ => None end.
Definition pick_read (r : Reply) : option FileContents := match r with FileRead contents => Some contents | _ => None end.
Definition pick_written (r : Reply) : option string := match r with FileWritten hash => Some hash | _ => None end.
Definition pick_edited (r : Reply) : option string := match r with FileEdited hash => Some hash | _ => None end.
Definition pick_listed (r : Reply) : option (list DirEntry) := match r with DirectoryListed entries => Some entries | _ => None end.
Definition pick_globbed (r : Reply) : option GlobResult := match r with GlobMatched result => Some result | _ => None end.
Definition pick_grepped (r : Reply) : option GrepResult := match r with GrepMatched result => Some result | _ => None end.

(** ** Every request ends once *)

(** Where an outcome came from. *)
Definition outcome_from (steps : list RequestStep) (id : Z) (o : Outcome) : Prop :=
  match o with
  | Ok reply => Resolved id reply ∈ steps ∧ ∀ message, reply ≠ ReplyError message
  | Err (Rejected message) => Resolved id (ReplyError message) ∈ steps
  | Err Timeout => TimedOut id ∈ steps
  | Err Disconnected => ConnectionEnded ∈ steps ∨ WriterEnded ∈ steps
  | Err (Unencodable e) => ∃ build, Requested (Some e) build ∈ steps
  | Err (UnexpectedReply _) => False
  end.

Record requests_ok (steps : list RequestStep) (r : Requests) : Prop := {
  ok_next : (1 ≤ next_request_id r)%Z;
  ok_ids id : awaited id r = true ∨ is_some (inbox r !! id) = true ∨ id ∈ map fst (outcomes r) → (id < next_request_id r)%Z;
  ok_once : NoDup (map fst (outcomes r));
  ok_apart id : is_some (inbox r !! id) = true → id ∉ map fst (outcomes r);
  ok_awaited id : awaited id r = true → inbox r !! id = None ∨ inbox r !! id = Some None;
  ok_settled id : id ∈ map fst (outcomes r) → awaited id r = false;
  ok_waits id : inbox r !! id = Some None → awaited id r = true ∨ pending r = None;
  ok_from id o : (id, o) ∈ outcomes r → outcome_from steps id o;
  ok_told id reply : inbox r !! id = Some (Some reply) → Resolved id reply ∈ steps;
  ok_ended : pending r = None → ConnectionEnded ∈ steps;
  ok_writer : writer_gone r = true → WriterEnded ∈ steps;
  ok_all id : (1 ≤ id < next_request_id r)%Z →
    is_some (inbox r !! id) = true ∨ id ∈ map fst (outcomes r) ∨ CallerLeft id ∈ steps;
}.

Lemma outcome_more steps step id o : outcome_from steps id o → outcome_from (app steps [step]) id o.
Proof.
  destruct o as [reply|[]]; cbn; rewrite ?elem_of_app; try tauto. intros [build H]. exists build. rewrite elem_of_app. by left.
Qed.
Lemma requests_more steps step r : requests_ok steps r → requests_ok (app steps [step]) r.
Proof.
  intros []. split; try done.
  - intros id o Ho. by apply outcome_more, ok_from0.
  - intros id reply Hr. apply elem_of_app. left. by apply ok_told0.
  - intros Hp. apply elem_of_app. left. by apply ok_ended0.
  - intros Hp. apply elem_of_app. left. by apply ok_writer0.
  - intros id Hid. rewrite elem_of_app. destruct (ok_all0 id Hid) as [|[|]]; tauto.
Qed.

Lemma awaited_forget i id r : awaited i (forget id r) = awaited i r && negb (bool_decide (i = id)).
Proof.
  unfold awaited, forget, set_field. cbn [pending]. destruct (pending r) as [p|]; [|done]. cbn.
  repeat case_bool_decide; set_solver.
Qed.
Lemma forget_unawaited id r : awaited id r = false → forget id r = r.
Proof.
  unfold awaited, forget, set_field. destruct r as [n [p|] i w o l]; cbn; [|done]. case_bool_decide; [done|]. intros _.
  repeat f_equal. set_solver.
Qed.
Lemma awaited_settle i id o r : awaited i (settle id o r) = awaited i r.
Proof. done. Qed.

(** A waiting request settled, and forgotten. *)
Lemma ok_forget_settle steps r id o : requests_ok steps r → is_some (inbox r !! id) = true → outcome_from steps id o →
  requests_ok steps (settle id o (forget id r)).
Proof.
  intros [] Hi Ho. set (r' := settle id o (forget id r)).
  assert (inbox r' = delete id (inbox r)) as Ei by done.
  assert (outcomes r' = app (outcomes r) [(id, o)]) as Eo by done.
  assert (∀ i, awaited i r' = awaited i r && negb (bool_decide (i = id))) as Ea by (intros i; apply awaited_forget).
  assert (pending r' = None → pending r = None) as Ep by (cbn; by destruct (pending r)).
  split; try done.
  - intros i. rewrite Ei, Ea, Eo, map_app, elem_of_app. intros [[Hx _]%andb_true_iff|[Hx|[Hx|Hx%list_elem_of_singleton]]].
    + apply ok_ids0. by left.
    + apply ok_ids0. right. left. by eapply lookup_delete_some.
    + apply ok_ids0. right. by right.
    + cbn in Hx. subst i. apply ok_ids0. right. by left.
  - rewrite Eo, map_app. apply NoDup_app. conjs; [done| |apply NoDup_singleton]. intros i Hx ->%list_elem_of_singleton. by apply (ok_apart0 id).
  - intros i. rewrite Ei, Eo, map_app, elem_of_app. intros Hx [Hy| ->%list_elem_of_singleton].
    + apply (ok_apart0 i); [by eapply lookup_delete_some|done].
    + cbn in Hx. by rewrite lookup_delete_eq in Hx.
  - intros i. rewrite Ea, Ei. intros [Hx Hne]%andb_true_iff. rewrite negb_true_iff, bool_decide_eq_false in Hne.
    rewrite lookup_delete_ne by done. by apply ok_awaited0.
  - intros i. rewrite Ea, Eo, map_app, elem_of_app. intros [Hx| ->%list_elem_of_singleton].
    + by rewrite ok_settled0.
    + cbn. by rewrite bool_decide_eq_true_2, andb_false_r.
  - intros i. rewrite Ei, Ea. intros [Hne Hx]%lookup_delete_Some. rewrite bool_decide_eq_false_2, andb_true_r by done.
    destruct (ok_waits0 i Hx) as [|Hp]; [by left|right]. cbn. by rewrite Hp.
  - intros i o'. rewrite Eo, elem_of_app. intros [Hx|[= -> ->]%list_elem_of_singleton]; [by apply ok_from0|done].
  - intros i reply. rewrite Ei. intros [Hne Hx]%lookup_delete_Some. by apply ok_told0.
  - intros Hp. apply ok_ended0. by apply Ep.
  - intros i Hx. rewrite Ei, Eo, map_app, elem_of_app.
    destruct (decide (id = i)) as [<-|Hne]; [right; left; right; by apply list_elem_of_singleton|].
    rewrite lookup_delete_ne by done. destruct (ok_all0 i Hx) as [|[|]]; tauto.
Qed.
Lemma ok_settle steps r id o : requests_ok steps r → is_some (inbox r !! id) = true → awaited id r = false → outcome_from steps id o →
  requests_ok steps (settle id o r).
Proof. intros Hok Hi Ha Ho. rewrite <-(forget_unawaited id r Ha). by apply ok_forget_settle. Qed.

Lemma requests_fresh steps r : requests_ok steps r →
  awaited (next_request_id r) r = false ∧ inbox r !! next_request_id r = None ∧ next_request_id r ∉ map fst (outcomes r).
Proof.
  intros []. pose proof (ok_ids0 (next_request_id r)) as Hn. conjs.
  - destruct (awaited _ r); [|done]. specialize (Hn (or_introl eq_refl)). lia.
  - destruct (inbox r !! _); [|done]. specialize (Hn (or_intror (or_introl eq_refl))). lia.
  - intros Hx. specialize (Hn (or_intror (or_intror Hx))). lia.
Qed.
(** The request's id taken, and its wait begun where one can be. *)
Definition issued (r : Requests) : Requests :=
  r <| next_request_id := u64_add (next_request_id r) 1 |>
    <| pending ::= fmap (λ p, {[next_request_id r]} ∪ p) |> <| inbox ::= <[next_request_id r := None]> |>.
Lemma awaited_issued i r : awaited i (issued r) = match pending r with Some _ => bool_decide (i = next_request_id r) || awaited i r | None => false end.
Proof.
  unfold awaited, issued, set_field. cbn [pending]. destruct (pending r) as [p|]; [|done]. cbn.
  repeat case_bool_decide; set_solver.
Qed.
Lemma ok_issued steps r : requests_ok steps r → (next_request_id r < U64_MAX)%Z → requests_ok steps (issued r).
Proof.
  intros Hok Hmax. destruct (requests_fresh _ _ Hok) as (Ha & Hi & Ho). pose proof Hok as [].
  assert (u64_add (next_request_id r) 1 = next_request_id r + 1)%Z as Hadd by (unfold u64_add; apply Z.mod_small; unfold U64_MAX in Hmax; lia).
  assert (∀ i, awaited i (issued r) = true → i = next_request_id r ∨ awaited i r = true) as Haw.
  { intros i. rewrite awaited_issued. destruct (pending r); [|done]. intros [->%bool_decide_eq_true|]%orb_true_iff; tauto. }
  split; try (unfold issued, set_field; cbn [next_request_id writer_gone outgoing outcomes]; rewrite ?Hadd; done).
  - unfold issued, set_field. cbn. lia.
  - intros i Hx. change (i < u64_add (next_request_id r) 1)%Z. rewrite Hadd.
    destruct Hx as [[->|Hx]%Haw|[Hx|Hx]]; [lia| | |].
    + specialize (ok_ids0 i (or_introl Hx)). lia.
    + change (is_some (<[next_request_id r := None]> (inbox r) !! i) = true) in Hx.
      destruct (decide (next_request_id r = i)) as [<-|Hne]; [lia|]. rewrite lookup_insert_ne in Hx by done.
      specialize (ok_ids0 i (or_intror (or_introl Hx))). lia.
    + specialize (ok_ids0 i (or_intror (or_intror Hx))). lia.
  - intros i Hx. change (is_some (<[next_request_id r := None]> (inbox r) !! i) = true) in Hx.
    destruct (decide (next_request_id r = i)) as [<-|Hne]; [done|]. rewrite lookup_insert_ne in Hx by done. by apply ok_apart0.
  - intros i Hx. change (<[next_request_id r := None]> (inbox r) !! i = None ∨ <[next_request_id r := None]> (inbox r) !! i = Some None).
    destruct (decide (next_request_id r = i)) as [<-|Hne]; [right; apply lookup_insert_eq|]. rewrite lookup_insert_ne by done.
    apply ok_awaited0. destruct (Haw i Hx) as [->|]; done.
  - intros i Hx. pose proof (ok_settled0 i Hx) as Hs. rewrite awaited_issued. destruct (pending r); [|done]. rewrite Hs, orb_false_r.
    apply bool_decide_eq_false. intros ->. done.
  - intros i. change (inbox (issued r)) with (<[next_request_id r := None]> (inbox r)). rewrite awaited_issued.
    change (pending (issued r)) with (fmap (λ p, {[next_request_id r]} ∪ p) (pending r)).
    destruct (pending r) as [p|] eqn:Hp; [|by right]. destruct (decide (next_request_id r = i)) as [<-|Hne].
    + intros _. left. by rewrite bool_decide_eq_true_2.
    + rewrite lookup_insert_ne by done. intros Hx. left. destruct (ok_waits0 i Hx) as [->|]; [|done]. apply orb_true_r.
  - intros i reply. change (inbox (issued r)) with (<[next_request_id r := None]> (inbox r)).
    intros [[_ ?]|[_ Hx]]%lookup_insert_Some; [done|by apply ok_told0].
  - change (pending (issued r)) with (fmap (λ p, {[next_request_id r]} ∪ p) (pending r)). intros Hp. apply ok_ended0. by destruct (pending r).
  - intros i. change (next_request_id (issued r)) with (u64_add (next_request_id r) 1). rewrite Hadd. intros Hx.
    change (inbox (issued r)) with (<[next_request_id r := None]> (inbox r)).
    destruct (decide (next_request_id r = i)) as [<-|Hne]; [left; by rewrite lookup_insert_eq|]. rewrite lookup_insert_ne by done. apply ok_all0. lia.
Qed.
Lemma begin_request_eq e build r :
  begin_request e build r
  = match pending r with
    | None => settle (next_request_id r) (Err Disconnected) (issued r)
    | Some _ =>
        match e, writer_gone r with
        | Some e, _ => settle (next_request_id r) (Err (Unencodable e)) (forget (next_request_id r) (issued r))
        | None, true => settle (next_request_id r) (Err Disconnected) (forget (next_request_id r) (issued r))
        | None, false => issued r <| outgoing ::= λ o, app o [build (next_request_id r)] |>
        end
    end.
Proof.
  unfold begin_request, send, issued. destruct r as [n [p|] i [] o l], e; cbn; unfold settle, set_field; cbn; try done;
    f_equal; apply map_eq; intros j; destruct (decide (n = j)) as [<-|Hne]; by rewrite ?lookup_delete_eq, ?lookup_delete_ne, ?lookup_insert_ne.
Qed.
Lemma requests_same steps r r' : requests_ok steps r → next_request_id r' = next_request_id r → pending r' = pending r → inbox r' = inbox r →
  writer_gone r' = writer_gone r → outcomes r' = outcomes r → requests_ok steps r'.
Proof.
  intros [] E1 E2 E3 E4 E5. assert (∀ i, awaited i r' = awaited i r) as E6 by (intros i; unfold awaited; by rewrite E2).
  split; intros *; rewrite ?E1, ?E2, ?E3, ?E4, ?E5, ?E6; eauto.
Qed.

Lemma ok_polled steps r id : requests_ok steps r → requests_ok steps (poll_request id r).
Proof.
  intros Hok. pose proof Hok as []. unfold poll_request. destruct (inbox r !! id) as [[reply|]|] eqn:Hi; [| |done].
  - apply ok_settle; [done|by rewrite Hi| |].
    + destruct (awaited id r) eqn:Ha; [|done]. destruct (ok_awaited0 id Ha); congruence.
    + specialize (ok_told0 id reply Hi). destruct reply; cbn; try done; by split.
  - destruct (awaited id r) eqn:Ha; [done|]. apply ok_settle; [done|by rewrite Hi|done|].
    left. destruct (ok_waits0 id Hi); [congruence|auto].
Qed.
Lemma ok_resolved steps r id reply : requests_ok steps r → Resolved id reply ∈ steps → requests_ok steps (resolve id reply r).
Proof.
  intros Hok Hin. unfold resolve. destruct (awaited id r) eqn:Ha; [|done]. pose proof Hok as [].
  set (r' := forget id r <| inbox ::= alter (λ _, Some reply) id |>).
  assert (inbox r' = alter (λ _, Some reply) id (inbox r)) as Ei by done.
  assert (∀ i, awaited i r' = awaited i r && negb (bool_decide (i = id))) as Ea by (intros i; apply (awaited_forget i id r)).
  assert (pending r' = None → pending r = None) as Ep by (cbn; by destruct (pending r)).
  split; try done.
  - intros i. rewrite Ea, Ei, lookup_alter_some. intros [[Hx _]%andb_true_iff|Hx]; apply ok_ids0; tauto.
  - intros i. rewrite Ei, lookup_alter_some. apply ok_apart0.
  - intros i. rewrite Ea, Ei. intros [Hx Hne]%andb_true_iff. rewrite negb_true_iff, bool_decide_eq_false in Hne.
    rewrite lookup_alter_ne by done. by apply ok_awaited0.
  - intros i Hx. rewrite Ea. by rewrite ok_settled0.
  - intros i. rewrite Ei, Ea. destruct (decide (i = id)) as [->|Hne]; [rewrite lookup_alter_eq; by destruct (inbox r !! id)|].
    rewrite lookup_alter_ne by done. intros Hx. rewrite bool_decide_eq_false_2, andb_true_r by done.
    destruct (ok_waits0 i Hx) as [|Hp]; [by left|right]. cbn. by rewrite Hp.
  - intros i told. rewrite Ei. destruct (decide (i = id)) as [->|Hne]; [rewrite lookup_alter_eq; destruct (inbox r !! id); [by intros [= <-]|done]|].
    rewrite lookup_alter_ne by done. apply ok_told0.
  - intros Hp. apply ok_ended0. by apply Ep.
  - intros i Hx. rewrite Ei, lookup_alter_some. by apply ok_all0.
Qed.

Lemma ok_request_step steps step r : requests_ok steps r → (next_request_id r < U64_MAX)%Z →
  requests_ok (app steps [step]) (request_step step r).
Proof.
  intros Hok0 Hmax. pose proof (requests_more steps step r Hok0) as Hok. assert (step ∈ app steps [step]) as Hin by (apply elem_of_app; right; by apply list_elem_of_singleton).
  destruct step as [e build|id reply| | |id|id|id]; cbn [request_step].
  - rewrite begin_request_eq. pose proof (ok_issued _ _ Hok Hmax) as Hi.
    assert (is_some (inbox (issued r) !! next_request_id r) = true) as Hs by (cbn; by rewrite lookup_insert_eq).
    destruct (pending r) as [p|] eqn:Hp; [destruct e as [e|]; [|destruct (writer_gone r) eqn:Hw]|].
    + apply ok_forget_settle; [done..|]. by exists build.
    + apply ok_forget_settle; [done..|]. right. destruct Hok. auto.
    + by eapply requests_same.
    + apply ok_settle; [done|done| |]; [by rewrite awaited_issued, Hp|]. left. destruct Hok. auto.
  - by apply ok_resolved.
  - destruct Hok. split; try done; unfold fail_pending, set_field; cbn [awaited pending inbox outcomes]; try (by right).
    intros id [?|Hx]; [done|]. apply ok_ids0. by right.
  - destruct Hok. by split.
  - by apply ok_polled.
  - unfold request_timed_out. destruct (inbox r !! id) as [[reply|]|] eqn:Hi; [by apply ok_polled| |by apply ok_polled].
    destruct (awaited id r) eqn:Ha; [|by apply ok_polled]. apply ok_forget_settle; [done|by rewrite Hi|done].
  - destruct Hok. split; try done; unfold set_field; cbn [inbox]; change (awaited ?i (Build_Requests _ (pending r) _ _ _ _)) with (awaited i r).
    + intros i [Hx|[Hx|Hx]]; apply ok_ids0; [by left|right; left; by eapply lookup_delete_some|right; by right].
    + intros i Hx. apply ok_apart0. by eapply lookup_delete_some.
    + intros i Hx. destruct (decide (id = i)) as [<-|]; [left; apply lookup_delete_eq|]. rewrite lookup_delete_ne by done. by apply ok_awaited0.
    + intros i [Hne Hx]%lookup_delete_Some. by apply ok_waits0.
    + intros i reply [Hne Hx]%lookup_delete_Some. by apply ok_told0.
    + intros i Hx. destruct (decide (id = i)) as [<-|Hne]; [right; right; done|]. rewrite lookup_delete_ne by done. by apply ok_all0.
Qed.

Lemma next_request_id_step step r : (1 ≤ next_request_id r < U64_MAX)%Z → (next_request_id (request_step step r) ≤ next_request_id r + 1)%Z.
Proof.
  intros Hr. assert (u64_add (next_request_id r) 1 = next_request_id r + 1)%Z as Hadd by (unfold u64_add; apply Z.mod_small; unfold U64_MAX in Hr; lia).
  destruct step; cbn [request_step]; [rewrite begin_request_eq| | | | | |]; unfold poll_request, request_timed_out, poll_request, resolve, settle, forget, fail_pending;
    repeat case_match; unfold issued, set_field; cbn [next_request_id]; rewrite ?Hadd; lia.
Qed.

(** C9. Every request to an agent ends once, with its own answer.  However requests, replies,
    time-outs and the connection's end overtake each other: each request issued has at most
    one outcome, and has one, is still waiting, or was left by its caller; a reply it gets
    is one the agent sent under its own id, the agent's refusal comes back as such, a
    time-out only after its time and a disconnection only after the socket ended; a reply
    that comes after it ended changes nothing; and once the connection has ended none waits
    on, but ends disconnected when next looked at, and a new one ends so at once. *)
Theorem requests_end_once (steps : list RequestStep) (Hfew : (Z.of_nat (length steps) < U64_MAX)%Z) :
  let r := request_run steps new_requests in
  NoDup (map fst (outcomes r))
  ∧ (∀ id o, (id, o) ∈ outcomes r → outcome_from steps id o)
  ∧ (∀ id, (1 ≤ id < next_request_id r)%Z → is_some (inbox r !! id) = true ∨ id ∈ map fst (outcomes r) ∨ CallerLeft id ∈ steps)
  ∧ (∀ id reply, id ∈ map fst (outcomes r) → is_some (inbox r !! id) = false ∧ resolve id reply r = r)
  ∧ (pending r = None → ∀ id,
       (inbox r !! id = Some None → (id, Err Disconnected) ∈ outcomes (poll_request id r))
       ∧ ∀ e build, (next_request_id r, Err Disconnected) ∈ outcomes (begin_request e build r)).
Proof.
  assert (requests_ok steps (request_run steps new_requests)
          ∧ (next_request_id (request_run steps new_requests) ≤ 1 + Z.of_nat (length steps))%Z) as [Hok _].
  { induction steps as [|step steps IH] using rev_ind.
    - split; [|done]. unfold request_run, new_requests. cbn [foldl]. split; cbn; try done.
      + intros id [Hx|[Hx|Hx]]; [by rewrite bool_decide_eq_false_2 in Hx by set_solver|by rewrite lookup_empty in Hx|by apply not_elem_of_nil in Hx].
      + constructor.
      + intros id o Hx. by apply not_elem_of_nil in Hx.
      + intros id ?. lia.
    - rewrite length_app in *. cbn [length] in *. destruct IH as (Hok & Hn); [lia|].
      unfold request_run in *. rewrite foldl_app. cbn [foldl flip]. set (r := foldl (flip request_step) new_requests steps) in *.
      pose proof (ok_next _ _ Hok). split; [apply ok_request_step; [done|lia]|]. pose proof (next_request_id_step step r ltac:(lia)). lia. }
  cbn zeta. set (r := request_run steps new_requests) in *. pose proof Hok as []. conjs; try done.
  - intros id reply Hid. pose proof (ok_settled0 id Hid) as Ha. unfold resolve. rewrite Ha. split; [|done].
    destruct (inbox r !! id) eqn:Hi; [|done]. exfalso. apply (ok_apart0 id); [by rewrite Hi|done].
  - intros Hp id. split.
    + intros Hi. unfold poll_request, awaited. rewrite Hi, Hp. cbn. apply elem_of_app. right. by apply list_elem_of_singleton.
    + intros e build. rewrite begin_request_eq, Hp. cbn. apply elem_of_app. right. by apply list_elem_of_singleton.
Qed.

Lemma requests_end_once_witness :
  let steps := [Requested None (λ id, ListDirectory id "/"); Requested None (λ id, ListDirectory id "/etc"); Resolved 2 (DirectoryListed []);
                Polled 2; Resolved 2 TerminalCreated; ConnectionEnded; Polled 1] in
  outcomes (request_run steps new_requests) = [(2%Z, Ok (DirectoryListed [])); (1%Z, Err Disconnected)]
  ∧ NoDup (map fst (outcomes (request_run steps new_requests))).
Proof.
  cbn zeta. split; [vm_compute; reflexivity|].
  apply (requests_end_once [Requested None (λ id, ListDirectory id "/"); Requested None (λ id, ListDirectory id "/etc"); Resolved 2 (DirectoryListed []);
                Polled 2; Resolved 2 TerminalCreated; ConnectionEnded; Polled 1]). vm_compute. reflexivity.
Defined.
