(* ===== verification/SandboxDb.v ===== *)
(** * SandboxDb: the records of pods, terminals and commands

    [src/src/db/sandbox.rs]: each of its queries, on the four tables as lists of rows in id
    order.  A query is PostgreSQL's meaning of its text: an [UPDATE] changes the rows its
    [WHERE] takes and answers with them, [now()] is the statement's, an aggregate over no
    rows is NULL and [GREATEST] passes NULLs over.  Times are microseconds.  The tables'
    own constraints refuse an insert: a second live pod for a conversation, an unknown pod
    or command, a command id used before.

    What other tables say is in the record too: the conversations cloning a repository, the
    finished agents with when they finished.  A query that fails changes nothing, and its
    callers' models say what they do then.  Rows deleted with their conversation, and the
    previews shared of a pod, aren't modelled. *)

From S2P Require Import Prelude RustStr AgentProtocol.
Local Open Scope string_scope.

(** ** The tables *)

Record PodRow := {
  pod_row : Z;
  pod_conversation : Z;
  pod_created_at : Z;
  pod_terminated_at : option Z;
  last_active_at : option Z;
  quietly_stopped_at : option Z;
  storage_removal_started_at : option Z;
}.
#[export] Instance PodRow_eta : Eta PodRow := λ p,
  Build_PodRow (pod_row p) (pod_conversation p) (pod_created_at p) (pod_terminated_at p) (last_active_at p) (quietly_stopped_at p)
    (storage_removal_started_at p).
Record TerminalRow := {
  terminal_row : Z;
  terminal_pod : Z;
  terminal_created_at : Z;
  terminal_terminated_at : option Z;
}.
#[export] Instance TerminalRow_eta : Eta TerminalRow := λ t,
  Build_TerminalRow (terminal_row t) (terminal_pod t) (terminal_created_at t) (terminal_terminated_at t).

Inductive CommandStatus := Running | Finished | Lost.
#[export] Instance CommandStatus_eq_dec : EqDecision CommandStatus.
Proof. solve_decision. Defined.

Record TerminalCommand := {
  command_conversation : Z;
  command_terminal : Z;
  command_id : string;
  command_text : string;
  status : CommandStatus;
  exit_code : option Z;
  notified_at : option Z;
  idle_notice_secs : Z;
  touched_at : option Z;
  idle_notice_at : option Z;
  command_created_at : Z;
  finished_at : option Z;
}.
#[export] Instance TerminalCommand_eta : Eta TerminalCommand := λ c,
  Build_TerminalCommand (command_conversation c) (command_terminal c) (command_id c) (command_text c) (status c) (exit_code c)
    (notified_at c) (idle_notice_secs c) (touched_at c) (idle_notice_at c) (command_created_at c) (finished_at c).
Record EventRow := { event_command : string; event_stream : Stream; event_seq : Z; event_data : string }.

Record SandboxDb := {
  pods : list PodRow;
  terminals : list TerminalRow;
  commands : list TerminalCommand;
  events : list EventRow;
  next_pod : Z;
  next_terminal : Z;
  cloning : list Z;
  finished_agents : list (Z * Z);
}.
#[export] Instance SandboxDb_eta : Eta SandboxDb := λ d,
  Build_SandboxDb (pods d) (terminals d) (commands d) (events d) (next_pod d) (next_terminal d) (cloning d) (finished_agents d).

Definition is_none {A} (o : option A) : bool := negb (is_some o).
Definition pod_live (p : PodRow) : bool := is_none (pod_terminated_at p).
Definition terminal_live (t : TerminalRow) : bool := is_none (terminal_terminated_at t).

(** [UPDATE … SET f WHERE p RETURNING *]. *)
Definition update_where {A} (p : A → bool) (f : A → A) (rows : list A) : list A := map (λ r, if p r then f r else r) rows.
Definition returning {A} (p : A → bool) (f : A → A) (rows : list A) : list A := map f (List.filter p rows).

Definition greatest (times : list (option Z)) : option Z :=
  foldr (λ t latest, match t, latest with Some t, Some l => Some (Z.max t l) | Some t, None => Some t | None, l => l end) None times.
Definition MICROS : Z := 1000000.

(** ** Pods *)

Definition create_sandbox_pod (now conversation_id : Z) (d : SandboxDb) : Result PodRow unit * SandboxDb :=
  if existsb (λ p, (pod_conversation p =? conversation_id)%Z && pod_live p) (pods d) then (Err (), d)
  else
    let row := Build_PodRow (next_pod d) conversation_id now None None None None in
    (Ok row, d <| pods ::= λ l, app l [row] |> <| next_pod ::= Z.succ |>).

Inductive PodEnd := Plain | Quiet | ByUser.
Definition end_takes (how : PodEnd) (pod_id : Z) (p : PodRow) : bool :=
  (pod_row p =? pod_id)%Z && match how with Quiet => pod_live p | _ => true end.
Definition end_row (how : PodEnd) (now : Z) (p : PodRow) : PodRow :=
  match how with
  | Plain => p <| pod_terminated_at := Some now |>
  | Quiet => p <| pod_terminated_at := Some now |> <| quietly_stopped_at := Some now |>
  | ByUser => p <| pod_terminated_at := Some (default now (pod_terminated_at p)) |> <| quietly_stopped_at := None |>
  end.
Definition terminate_sandbox_pod_as (now pod_id : Z) (how : PodEnd) (d : SandboxDb) : option PodRow * SandboxDb :=
  (head (returning (end_takes how pod_id) (end_row how now) (pods d)),
   d <| pods ::= update_where (end_takes how pod_id) (end_row how now) |>).
Definition terminate_sandbox_pod (now pod_id : Z) (d : SandboxDb) : option PodRow * SandboxDb :=
  terminate_sandbox_pod_as now pod_id Plain d.

Definition live_sandbox_pod_ids (d : SandboxDb) : list Z := map pod_row (List.filter pod_live (pods d)).
Definition live_pods_older_than (now min_age_secs : Z) (d : SandboxDb) : list PodRow :=
  List.filter (λ p, pod_live p && (pod_created_at p <? now - min_age_secs * MICROS)%Z) (pods d).
Definition sandbox_pod_is_live (pod_id : Z) (d : SandboxDb) : bool :=
  existsb (λ p, (pod_row p =? pod_id)%Z && pod_live p) (pods d).
Definition list_sandbox_pods (conversation_id : Z) (d : SandboxDb) : list PodRow :=
  List.filter (λ p, (pod_conversation p =? conversation_id)%Z && pod_live p) (pods d).
(** [SELECT DISTINCT … ORDER BY]. *)
Definition conversations_with_live_pods (d : SandboxDb) : list Z :=
  remove_dups (sort_by Z.leb (map pod_conversation (List.filter pod_live (pods d)))).
Definition sandbox_pod_conversation_id (pod_id : Z) (d : SandboxDb) : option Z :=
  pod_conversation <$> List.find (λ p, (pod_row p =? pod_id)%Z) (pods d).
Definition flush_pod_activity (now : Z) (conversation_ids : list Z) (d : SandboxDb) : SandboxDb :=
  d <| pods ::= update_where (λ p, existsb (Z.eqb (pod_conversation p)) conversation_ids && pod_live p)
                  (λ p, p <| last_active_at := Some now |>) |>.

(** ** Terminals *)

Definition create_sandbox_terminal (now pod_id : Z) (d : SandboxDb) : Result TerminalRow unit * SandboxDb :=
  if existsb (λ p, (pod_row p =? pod_id)%Z) (pods d) then
    let row := Build_TerminalRow (next_terminal d) pod_id now None in
    (Ok row, d <| terminals ::= λ l, app l [row] |> <| next_terminal ::= Z.succ |>)
  else (Err (), d).
Definition terminate_sandbox_terminal (now terminal_id : Z) (d : SandboxDb) : SandboxDb :=
  d <| terminals ::= update_where (λ t, (terminal_row t =? terminal_id)%Z) (λ t, t <| terminal_terminated_at := Some now |>) |>.
Definition list_sandbox_terminals_for_pod (pod_id : Z) (d : SandboxDb) : list TerminalRow :=
  List.filter (λ t, (terminal_pod t =? pod_id)%Z && terminal_live t) (terminals d).
Definition find_pod (pod_id : Z) (d : SandboxDb) : option PodRow := List.find (λ p, (pod_row p =? pod_id)%Z) (pods d).
Definition find_terminal (terminal_id : Z) (d : SandboxDb) : option TerminalRow :=
  List.find (λ t, (terminal_row t =? terminal_id)%Z) (terminals d).
Definition list_sandbox_terminals_for_conversation (conversation_id : Z) (d : SandboxDb) : list TerminalRow :=
  List.filter (λ t, terminal_live t
    && match find_pod (terminal_pod t) d with Some p => (pod_conversation p =? conversation_id)%Z | None => false end) (terminals d).
Definition sandbox_terminal_pod_id (terminal_id : Z) (d : SandboxDb) : option Z := terminal_pod <$> find_terminal terminal_id d.
Definition terminal_conversation_id (terminal_id : Z) (d : SandboxDb) : option Z :=
  t ← find_terminal terminal_id d; pod_conversation <$> find_pod (terminal_pod t) d.
(** The pod, whether the terminal is closed, and whether its pod has ended. *)
Definition terminal_pod_state (terminal_id : Z) (d : SandboxDb) : option (Z * bool * bool) :=
  t ← find_terminal terminal_id d; p ← find_pod (terminal_pod t) d;
  Some (terminal_pod t, negb (terminal_live t), negb (pod_live p)).

(** ** Commands *)

Definition named (id : string) (c : TerminalCommand) : bool := bool_decide (command_id c = id).
Definition is_running (c : TerminalCommand) : bool := bool_decide (status c = Running).

Definition create_terminal_command (now conversation_id terminal_id : Z) (id text : string) (notice_secs : Z) (d : SandboxDb)
    : Result TerminalCommand unit * SandboxDb :=
  if existsb (named id) (commands d) || negb (is_some (find_terminal terminal_id d)) || (notice_secs <? 0)%Z then (Err (), d)
  else
    let row := Build_TerminalCommand conversation_id terminal_id id text Running None None notice_secs None None now None in
    (Ok row, d <| commands ::= λ l, app l [row] |>).
Definition terminal_command_is_running (terminal_id : Z) (d : SandboxDb) : option TerminalCommand :=
  List.find (λ c, (command_terminal c =? terminal_id)%Z && is_running c) (commands d).
Definition append_terminal_event (id : string) (stream : Stream) (seq : Z) (data : string) (d : SandboxDb) : Result unit unit * SandboxDb :=
  if existsb (named id) (commands d) then (Ok (), d <| events ::= λ l, app l [Build_EventRow id stream seq data] |>)
  else (Err (), d).
Definition mark_terminal_command_finished (now : Z) (id : string) (code : Z) (d : SandboxDb) : SandboxDb :=
  d <| commands ::= update_where (named id) (λ c, c <| status := Finished |> <| exit_code := Some code |> <| finished_at := Some now |>) |>.
Definition mark_terminal_command_lost (now : Z) (id : string) (d : SandboxDb) : SandboxDb :=
  d <| commands ::= update_where (λ c, named id c && is_running c) (λ c, c <| status := Lost |> <| finished_at := Some now |>) |>.
Definition get_terminal_command (id : string) (d : SandboxDb) : option TerminalCommand := List.find (named id) (commands d).
Definition list_terminal_commands (terminal_id limit : Z) (d : SandboxDb) : list TerminalCommand :=
  take (Z.to_nat limit) (reverse (List.filter (λ c, (command_terminal c =? terminal_id)%Z) (commands d))).

(** *** A command's output *)

Definition lines_of (id : string) (streams : list Stream) (d : SandboxDb) : list EventRow :=
  List.filter (λ e, bool_decide (event_command e = id) && bool_decide (event_stream e ∈ streams)) (events d).
(** Of equal [seq]s, which a command's output doesn't have, in any order. *)
Definition read_terminal_output (id : string) (streams : list Stream) (offset limit : Z) (d : SandboxDb) : list EventRow :=
  take (Z.to_nat limit) (drop (Z.to_nat offset) (sort_by (λ a b, (event_seq a <=? event_seq b)%Z) (lines_of id streams d))).

Definition untouched_for_secs (now : Z) (c : TerminalCommand) : Z :=
  ((now - Z.max (command_created_at c) (default (command_created_at c) (touched_at c))) / MICROS)%Z.
Record TerminalCommandStatus := {
  st_status : CommandStatus;
  st_exit_code : option Z;
  stdout_lines : Z;
  stderr_lines : Z;
  st_idle_notice_secs : Z;
  untouched_for_seconds : option Z;
}.
Definition terminal_command_status (now : Z) (id : string) (d : SandboxDb) : option TerminalCommandStatus :=
  c ← get_terminal_command id d;
  Some (Build_TerminalCommandStatus (status c) (exit_code c)
          (Z.of_nat (length (lines_of id [Stdout] d))) (Z.of_nat (length (lines_of id [Stderr] d)))
          (idle_notice_secs c) (if is_running c then Some (untouched_for_secs now c) else None)).

(** *** A command's end, told once *)

Definition unnotified_end (c : TerminalCommand) : bool := negb (is_running c) && is_none (notified_at c).
Definition unnotified_finished_terminal_commands (conversation_id : Z) (d : SandboxDb) : list TerminalCommand :=
  List.filter (λ c, (command_conversation c =? conversation_id)%Z && unnotified_end c) (commands d).
(** Whether the notice was saved; the message itself is the conversation's. *)
Definition save_command_notice (now : Z) (id : string) (d : SandboxDb) : bool * SandboxDb :=
  let takes := λ c, named id c && is_none (notified_at c) in
  if existsb takes (commands d) then (true, d <| commands ::= update_where takes (λ c, c <| notified_at := Some now |>) |>)
  else (false, d).

(** *** Idle notices *)

Definition idle_clock (c : TerminalCommand) : Z :=
  Z.max (command_created_at c)
    (Z.max (default (command_created_at c) (touched_at c)) (default (command_created_at c) (idle_notice_at c))).
Definition idle_notice_due (now : Z) (c : TerminalCommand) : bool :=
  is_running c && (0 <? idle_notice_secs c)%Z && (idle_notice_secs c * MICROS <=? now - idle_clock c)%Z.

(** [asked]: an answered question no turn has taken; [messages]: an agent's report or
    notice not yet delivered. *)
Definition wake_has_work (now conversation_id : Z) (asked messages : bool) (d : SandboxDb) : bool :=
  existsb (λ c, (command_conversation c =? conversation_id)%Z && unnotified_end c) (commands d)
  || existsb (λ c, (command_conversation c =? conversation_id)%Z && idle_notice_due now c) (commands d)
  || asked || messages.
(** [ORDER BY tc.conversation_id, tc.id]. *)
Definition idle_commands_to_notice (now : Z) (d : SandboxDb) : list (Z * string) :=
  sort_by (λ a b, (fst a <=? fst b)%Z) (map (λ c, (command_conversation c, command_id c)) (List.filter (idle_notice_due now) (commands d))).
Record IdleCommand := {
  ic_command_id : string;
  ic_command : string;
  ic_stdout_lines : Z;
  ic_stderr_lines : Z;
  running_for_secs : Z;
  ic_untouched_for_secs : Z;
}.
Definition idle_commands_due (now conversation_id : Z) (d : SandboxDb) : list IdleCommand :=
  map (λ c, Build_IdleCommand (command_id c) (command_text c)
              (Z.of_nat (length (lines_of (command_id c) [Stdout] d))) (Z.of_nat (length (lines_of (command_id c) [Stderr] d)))
              ((now - command_created_at c) / MICROS)%Z (untouched_for_secs now c))
    (List.filter (λ c, (command_conversation c =? conversation_id)%Z && idle_notice_due now c) (commands d)).
Definition touch_terminal_command (now : Z) (id : string) (d : SandboxDb) : SandboxDb :=
  d <| commands ::= update_where (λ c, named id c && is_running c) (λ c, c <| touched_at := Some now |>) |>.
(** The row re-timed, and the [CHECK] on its interval. *)
Definition set_terminal_command_notice_secs (now : Z) (id : string) (secs : Z) (d : SandboxDb)
    : Result (option TerminalCommand) unit * SandboxDb :=
  let takes := λ c, named id c && is_running c in
  let set := λ c, c <| idle_notice_secs := secs |> <| touched_at := Some now |> in
  if existsb takes (commands d) && (secs <? 0)%Z then (Err (), d)
  else (Ok (head (returning takes set (commands d))), d <| commands ::= update_where takes set |>).
Definition save_idle_notice (now : Z) (id : string) (d : SandboxDb) : bool * SandboxDb :=
  let takes := λ c, named id c && idle_notice_due now c in
  if existsb takes (commands d) then (true, d <| commands ::= update_where takes (λ c, c <| idle_notice_at := Some now |>) |>)
  else (false, d).

(** ** Quiet stops *)

(** The commands of a pod's terminals. *)
Definition pod_commands (pod_id : Z) (d : SandboxDb) : list TerminalCommand :=
  List.filter (λ c, match find_terminal (command_terminal c) d with Some t => (terminal_pod t =? pod_id)%Z | None => false end) (commands d).
Definition pod_idle_since (p : PodRow) (d : SandboxDb) : Z :=
  default (pod_created_at p)
    (greatest [Some (pod_created_at p); last_active_at p;
               greatest (map (λ c, greatest [Some (command_created_at c); finished_at c]) (pod_commands (pod_row p) d))]).
Definition pod_busy (p : PodRow) (d : SandboxDb) : bool :=
  existsb (Z.eqb (pod_conversation p)) (cloning d) || existsb is_running (pod_commands (pod_row p) d).
Definition QUIET_STOP_PASS_SECS : Z := 60.
Definition FINISHED_GRACE_SECS : Z := 2 * QUIET_STOP_PASS_SECS.
Definition pod_finished (p : PodRow) (d : SandboxDb) : bool :=
  existsb (λ '(conversation_id, state_changed_at),
    (conversation_id =? pod_conversation p)%Z
    && (pod_created_at p <=? state_changed_at)%Z
    && match last_active_at p with
       | None => true
       | Some active =>
           let ended := greatest (map finished_at
             (List.filter (λ c, (command_created_at c <=? state_changed_at)%Z) (pod_commands (pod_row p) d))) in
           (active <=? default state_changed_at (greatest [Some state_changed_at; ended]) + FINISHED_GRACE_SECS * MICROS)%Z
       end
    && negb (existsb (λ c, (state_changed_at <? command_created_at c)%Z) (pod_commands (pod_row p) d))) (finished_agents d).
Definition pod_idle_past (now minutes : Z) (p : PodRow) (d : SandboxDb) : bool :=
  (0 <? minutes)%Z && (minutes * 60 * MICROS <=? now - pod_idle_since p d)%Z.
Inductive QuietStopKind := Idle | AgentFinished.
#[export] Instance QuietStopKind_eq_dec : EqDecision QuietStopKind.
Proof. solve_decision. Defined.
Definition I32_LIMIT : Z := 2147483647.
Definition minutes_param (minutes : Z) : Z := Z.min I32_LIMIT minutes.

Definition pod_order (a b : PodRow) : bool :=
  (pod_created_at a <? pod_created_at b)%Z || ((pod_created_at a =? pod_created_at b)%Z && (pod_row a <=? pod_row b)%Z).
Definition quiet_stop_candidates (now minutes : Z) (d : SandboxDb) : list (Z * Z * QuietStopKind) :=
  map (λ p, (pod_row p, pod_conversation p, if pod_finished p d then AgentFinished else Idle))
    (sort_by pod_order (List.filter (λ p, pod_live p && negb (pod_busy p d)
      && (pod_finished p d || pod_idle_past now (minutes_param minutes) p d)) (pods d))).
Definition pod_still_stoppable (now pod_id : Z) (kind : QuietStopKind) (minutes : Z) (d : SandboxDb) : bool :=
  existsb (λ p, (pod_row p =? pod_id)%Z && pod_live p && negb (pod_busy p d)
    && match kind with Idle => pod_idle_past now (minutes_param minutes) p d | AgentFinished => pod_finished p d end) (pods d).

(** ** Facts on rows *)

Lemma in_update {A} (p : A → bool) (f : A → A) rows r :
  r ∈ update_where p f rows ↔ ∃ r0, r0 ∈ rows ∧ r = (if p r0 then f r0 else r0).
Proof. unfold update_where. rewrite list_elem_of_In, in_map_iff. setoid_rewrite list_elem_of_In. split; intros (x & ? & ?); exists x; by split. Qed.
Lemma existsb_true {A} (p : A → bool) rows : existsb p rows = true ↔ ∃ r, r ∈ rows ∧ p r = true.
Proof. rewrite existsb_exists. by setoid_rewrite list_elem_of_In. Qed.
Lemma existsb_false {A} (p : A → bool) rows : existsb p rows = false ↔ ∀ r, r ∈ rows → p r = false.
Proof.
  split.
  - intros He r Hr. destruct (p r) eqn:Hp; [|done]. assert (existsb p rows = true) by (apply existsb_true; by exists r). congruence.
  - intros Hall. destruct (existsb p rows) eqn:He; [|done]. apply existsb_true in He as (r & Hr & Hp). by rewrite Hall in Hp.
Qed.
Lemma in_filter {A} (f : A → bool) (l : list A) x : x ∈ List.filter f l ↔ x ∈ l ∧ f x = true.
Proof. apply elem_list_filter. Qed.
Lemma named_true id c : named id c = true ↔ command_id c = id.
Proof. apply bool_decide_eq_true. Qed.
Lemma update_ids p f rows : (∀ c, command_id (f c) = command_id c) → map command_id (update_where p f rows) = map command_id rows.
Proof. intros Hf. unfold update_where. rewrite map_map. apply map_ext. intros c. by destruct (p c). Qed.
Lemma same_command rows c1 c2 : NoDup (map command_id rows) → c1 ∈ rows → c2 ∈ rows → command_id c1 = command_id c2 → c1 = c2.
Proof.
  intros Hnd H1 H2 He. induction rows as [|c rows IH]; [by apply not_elem_of_nil in H1|]. cbn in Hnd. apply NoDup_cons in Hnd as [Hc Hnd].
  assert (∀ x, x ∈ rows → command_id x ∈ map command_id rows) as Hin by (intros x Hx; by apply list_elem_of_In, in_map, list_elem_of_In).
  apply elem_of_cons in H1 as [->|H1], H2 as [->|H2]; try done; [..|by apply IH]; exfalso; apply Hc; [rewrite He|rewrite <-He]; by apply Hin.
Qed.

(** ** What is done to commands *)

Inductive CommandStep :=
  | Started (conversation_id terminal_id : Z) (id text : string) (notice_secs : Z)
  | Printed (id : string) (stream : Stream) (seq : Z) (data : string)
  | Ended (id : string) (code : Z)
  | WasLost (id : string)
  | Touched (id : string)
  | Retimed (id : string) (secs : Z)
  | EndTold (id : string)
  | IdleTold (id : string).
(** The database after a step at a time, and the command whose end's notice it saved, or
    whose idle notice. *)
Definition command_step (now : Z) (step : CommandStep) (d : SandboxDb) : SandboxDb * option string * option string :=
  match step with
  | Started conv term id text secs => (snd (create_terminal_command now conv term id text secs d), None, None)
  | Printed id stream seq data => (snd (append_terminal_event id stream seq data d), None, None)
  | Ended id code => (mark_terminal_command_finished now id code d, None, None)
  | WasLost id => (mark_terminal_command_lost now id d, None, None)
  | Touched id => (touch_terminal_command now id d, None, None)
  | Retimed id secs => (snd (set_terminal_command_notice_secs now id secs d), None, None)
  | EndTold id => let '(saved, d) := save_command_notice now id d in (d, if saved then Some id else None, None)
  | IdleTold id => let '(saved, d) := save_idle_notice now id d in (d, None, if saved then Some id else None)
  end.
(** A run: the database, the ends told, and the idle notices told with when. *)
Fixpoint command_run (steps : list (Z * CommandStep)) (d : SandboxDb) : SandboxDb * list string * list (Z * string) :=
  match steps with
  | [] => (d, [], [])
  | (now, step) :: steps =>
      let '(d, told, idle) := command_step now step d in
      let '(d, ends, idles) := command_run steps d in
      (d, app (option_list told) ends, app (map (pair now) (option_list idle)) idles)
  end.

(** What holds of a database after the ends in [told]. *)
Record commands_ok (d : SandboxDb) (told : list string) : Prop := {
  ok_ids : NoDup (map command_id (commands d));
  ok_told : NoDup told;
  ok_known id : id ∈ told → ∃ c, c ∈ commands d ∧ command_id c = id;
  ok_notified c : c ∈ commands d → is_none (notified_at c) = true ↔ command_id c ∉ told;
}.

(** A step that keeps the ids and leaves what was told as it was. *)
Lemma ok_update d told p f : commands_ok d told → (∀ c, command_id (f c) = command_id c ∧ notified_at (f c) = notified_at c) →
  commands_ok (d <| commands ::= update_where p f |>) told.
Proof.
  intros [] Hf. split; unfold set_field; cbn [commands]; [|done|..].
  - rewrite update_ids; [done|]. intros c. apply Hf.
  - intros id Hid. destruct (ok_known0 id Hid) as (c & Hc & <-). exists (if p c then f c else c). split; [|destruct (p c); [apply Hf|done]].
    apply in_update. by exists c.
  - intros c (c0 & Hc & ->)%in_update. destruct (Hf c0) as [Hid Hn]. destruct (p c0); [rewrite Hid, Hn|]; by apply ok_notified0.
Qed.
Lemma ok_command_step now step d told : commands_ok d told →
  let '(d', ended, _) := command_step now step d in commands_ok d' (app told (option_list ended)).
Proof.
  intros Hok. destruct step as [conv term id text secs|id stream seq data|id code|id|id|id secs|id|id]; cbn [command_step option_list]; rewrite ?app_nil_r.
  - unfold create_terminal_command. destruct (existsb (named id) (commands d)) eqn:He; cbn [orb]; [done|].
    destruct (negb (is_some (find_terminal term d)) || (secs <? 0)%Z); [done|]. destruct Hok. cbn [snd].
    rewrite existsb_false in He.
    assert (∀ c, c ∈ commands d → command_id c ≠ id) as Hne.
    { intros c Hc Hid. specialize (He c Hc). by rewrite (proj2 (named_true id c) Hid) in He. }
    split; unfold set_field; cbn [commands]; [|done|..].
    + rewrite map_app. apply NoDup_app. conjs; [done| |apply NoDup_singleton]. intros i Hi ->%list_elem_of_singleton.
      apply list_elem_of_In, in_map_iff in Hi as (c & Hid & Hc). apply (Hne c); [by apply list_elem_of_In|done].
    + intros i Hi. destruct (ok_known0 i Hi) as (c & Hc & Hid). exists c. split; [apply elem_of_app; by left|done].
    + intros c [Hc|Hc%list_elem_of_singleton]%elem_of_app; [by apply ok_notified0|]. subst c. cbn. split; [|done]. intros _ Hi.
      destruct (ok_known0 id Hi) as (c & Hc & Hid). by apply (Hne c).
  - unfold append_terminal_event. destruct (existsb (named id) (commands d)); [|done]. destruct Hok. by split.
  - by apply ok_update.
  - by apply ok_update.
  - by apply ok_update.
  - unfold set_terminal_command_notice_secs. destruct (existsb _ _ && _); [done|]. by apply ok_update.
  - unfold save_command_notice. destruct (existsb _ (commands d)) eqn:He; cbn [option_list]; [|by rewrite app_nil_r].
    apply existsb_true in He as (c & Hc & [Hn Hnone]%andb_true_iff). apply named_true in Hn. destruct Hok.
    assert (id ∉ told) as Hnew by (rewrite <-Hn; by apply ok_notified0).
    split; unfold set_field; cbn [commands].
    + by rewrite update_ids.
    + apply NoDup_app. conjs; [done| |apply NoDup_singleton]. by intros i Hi ->%list_elem_of_singleton.
    + intros i Hi. assert (∃ c, c ∈ commands d ∧ command_id c = i) as (c1 & Hc1 & Hid).
      { apply elem_of_app in Hi as [Hi|Hi%list_elem_of_singleton]; [by apply ok_known0|]. exists c. by subst i. }
      exists (if named id c1 && is_none (notified_at c1) then c1 <| notified_at := Some now |> else c1). split; [apply in_update; by exists c1|].
      by destruct (named id c1 && _).
    + intros c1 (c0 & Hc0 & ->)%in_update. destruct (named id c0) eqn:Hid0; cbn [andb].
      * pose proof (proj1 (named_true _ _) Hid0) as Hid. destruct (is_none (notified_at c0)) eqn:H0.
        -- cbn [notified_at set_field command_id]. split; [done|]. intros Hx. exfalso. apply Hx. apply elem_of_app. right.
           apply list_elem_of_singleton. exact Hid.
        -- split; [congruence|]. intros Hx. exfalso. apply Hx. apply elem_of_app. right. apply list_elem_of_singleton. exact Hid.
      * rewrite (ok_notified0 c0 Hc0). split; intros Hx Hin; apply Hx; [|apply elem_of_app; by left].
        apply elem_of_app in Hin as [|Heq%list_elem_of_singleton]; [done|]. apply (proj2 (named_true id c0)) in Heq. congruence.
  - unfold save_idle_notice. destruct (existsb _ (commands d)); cbn [option_list]; rewrite app_nil_r; [|done]. by apply ok_update.
Qed.
Lemma ok_command_run steps d told : commands_ok d told →
  let '(d', ends, _) := command_run steps d in commands_ok d' (app told ends).
Proof.
  revert d told. induction steps as [|[now step] steps IH]; intros d told Hok; cbn [command_run]; [by rewrite app_nil_r|].
  pose proof (ok_command_step now step d told Hok) as Hs. destruct (command_step now step d) as [[d1 ended] idle].
  specialize (IH d1 _ Hs). destruct (command_run steps d1) as [[d2 ends] idles]. by rewrite app_assoc.
Qed.

Definition no_commands (d : SandboxDb) : SandboxDb := d <| commands := [] |>.
Lemma ok_no_commands d : commands_ok (no_commands d) [].
Proof. split; cbn; [constructor|constructor|..]; intros x Hx; by apply not_elem_of_nil in Hx. Qed.
Lemma run_ok steps d : let '(d', ends, _) := command_run steps (no_commands d) in commands_ok d' ends.
Proof. apply (ok_command_run steps (no_commands d) [] (ok_no_commands d)). Qed.

(** Each command's end is told once.  Whatever is done to commands and in whatever
    order, a lost command that turns out to have finished included, at most one notice of
    a command's end is saved; an ended command is listed for its conversation's next turn,
    and makes its wake do work, until that notice is saved, which it then can be, and is
    not listed from then on. *)
Theorem each_end_is_told_once (steps : list (Z * CommandStep)) (d0 : SandboxDb) :
  let '(d, ends, _) := command_run steps (no_commands d0) in
  NoDup ends
  ∧ ∀ c, c ∈ commands d → status c ≠ Running →
      (c ∈ unnotified_finished_terminal_commands (command_conversation c) d ↔ command_id c ∉ ends)
      ∧ ∀ now, let '(saved, d') := save_command_notice now (command_id c) d in
          (saved = true ↔ command_id c ∉ ends)
          ∧ (command_id c ∉ ends → wake_has_work now (command_conversation c) false false d = true)
          ∧ ∀ c' conversation_id, c' ∈ unnotified_finished_terminal_commands conversation_id d' → command_id c' ≠ command_id c.
Proof.
  pose proof (run_ok steps d0) as Hok. destruct (command_run steps (no_commands d0)) as [[d ends] idles]. pose proof Hok as [].
  split; [done|]. intros c Hc Hst.
  assert (unnotified_end c = true ↔ command_id c ∉ ends) as Hun.
  { rewrite <-(ok_notified0 c Hc). unfold unnotified_end, is_running. rewrite bool_decide_eq_false_2 by done. done. }
  split.
  - unfold unnotified_finished_terminal_commands. rewrite in_filter, andb_true_iff, Z.eqb_refl, Hun. tauto.
  - intros now. unfold save_command_notice. destruct (existsb _ (commands d)) eqn:He; conjs.
    + split; [|done]. intros _. apply existsb_true in He as (c0 & Hc0 & [Hn H0]%andb_true_iff). apply named_true in Hn. rewrite <-Hn. by apply ok_notified0.
    + intros Hnew. unfold wake_has_work. rewrite (proj2 (existsb_true _ _)); [done|]. exists c. split; [done|]. by rewrite Z.eqb_refl, (proj2 Hun).
    + intros c' conv [(c0 & Hc0 & ->)%in_update [_ Hx]%andb_true_iff]%in_filter.
      destruct (named (command_id c) c0) eqn:Hid0; cbn [andb] in *.
      * destruct (is_none (notified_at c0)) eqn:H0; unfold unnotified_end in Hx; cbn in Hx; [by rewrite andb_false_r in Hx|].
        by rewrite H0, andb_false_r in Hx.
      * intros Heq. apply (proj2 (named_true _ _)) in Heq. congruence.
    + split; [done|]. intros Hnew. rewrite existsb_false in He. specialize (He c Hc).
      by rewrite (proj2 (named_true _ c) eq_refl), (proj2 (ok_notified0 c Hc)) in He.
    + intros Hnew. unfold wake_has_work. rewrite (proj2 (existsb_true _ _)); [done|]. exists c. split; [done|]. by rewrite Z.eqb_refl, (proj2 Hun).
    + intros c' conv [Hc' [_ Hx]%andb_true_iff]%in_filter Hid. rewrite existsb_false in He. specialize (He c' Hc').
      rewrite (proj2 (named_true _ c') Hid) in He. unfold unnotified_end in Hx. apply andb_true_iff in Hx as [_ Hx]. by rewrite Hx in He.
Qed.

Lemma due_iff now c : idle_notice_due now c = true ↔ status c = Running ∧ (0 < idle_notice_secs c)%Z ∧ (idle_clock c + idle_notice_secs c * MICROS ≤ now)%Z.
Proof.
  unfold idle_notice_due, is_running. rewrite !andb_true_iff, bool_decide_eq_true, Z.ltb_lt, Z.leb_le. unfold MICROS. intuition lia.
Qed.

(** C40. Idle notices come when they are due.  The watch's list, a turn's own and the guard
    that saves one agree on the due commands; a notice is due for a running command exactly
    from its interval after it was last touched, noticed or started; so one saved, a touch
    or a re-timing each put the next off by the whole interval, a command nobody touches is
    noticed again at the end of each, and none comes for a command that has ended or whose
    interval is 0. *)
Theorem idle_notices_come_when_due (steps : list (Z * CommandStep)) (d0 : SandboxDb) (now : Z) :
  let '(d, _, _) := command_run steps (no_commands d0) in
  ∀ c, c ∈ commands d →
    let id := command_id c in
    (idle_notice_due now c = true ↔ status c = Running ∧ (0 < idle_notice_secs c)%Z ∧ (idle_clock c + idle_notice_secs c * MICROS ≤ now)%Z)
    ∧ (idle_notice_due now c = true ↔ (command_conversation c, id) ∈ idle_commands_to_notice now d)
    ∧ (idle_notice_due now c = true ↔ id ∈ map ic_command_id (idle_commands_due now (command_conversation c) d))
    ∧ fst (save_idle_notice now id d) = idle_notice_due now c
    ∧ (∀ later c', c' ∈ commands (snd (save_idle_notice now id d)) → command_id c' = id → idle_notice_due now c = true →
         idle_notice_due later c' = true ↔ (now + idle_notice_secs c * MICROS ≤ later)%Z)
    ∧ (∀ later c', c' ∈ commands (touch_terminal_command now id d) → command_id c' = id →
         idle_notice_due later c' = true → (now + idle_notice_secs c * MICROS ≤ later)%Z)
    ∧ ∀ later secs c', c' ∈ commands (snd (set_terminal_command_notice_secs now id secs d)) → command_id c' = id → (0 ≤ secs)%Z →
         idle_notice_due later c' = true → (now + secs * MICROS ≤ later)%Z.
Proof.
  pose proof (run_ok steps d0) as Hok. destruct (command_run steps (no_commands d0)) as [[d ends] idles]. destruct Hok. intros c Hc id.
  assert (∀ c0, c0 ∈ commands d → named id c0 = true → c0 = c) as Hsame.
  { intros c0 Hc0 Hn%named_true. by apply (same_command (commands d)). }
  assert (named id c = true) as Hnc by by apply named_true.
  assert (∀ now', existsb (λ c0, named id c0 && idle_notice_due now' c0) (commands d) = idle_notice_due now' c) as Hex.
  { intros now'. destruct (idle_notice_due now' c) eqn:Hd.
    - apply existsb_true. exists c. by rewrite Hnc, Hd.
    - apply existsb_false. intros c0 Hc0. destruct (named id c0) eqn:Hn; [|done]. by rewrite (Hsame c0 Hc0 Hn). }
  assert (∀ p f c', c' ∈ update_where p f (commands d) → (∀ c0, command_id (f c0) = command_id c0) → command_id c' = id → c' = if p c then f c else c) as Hrow.
  { intros p f c' (c0 & Hc0 & ->)%in_update Hf Hid. rewrite <-(Hsame c0); [done|done|]. apply named_true. by destruct (p c0); rewrite ?Hf in Hid. }
  conjs.
  - apply due_iff.
  - unfold idle_commands_to_notice. rewrite sort_by_perm, list_elem_of_In, in_map_iff. split.
    + intros Hd. exists c. split; [done|]. by apply list_elem_of_In, in_filter.
    + intros (c0 & [= _ Hid] & [Hc0 Hd]%list_elem_of_In%in_filter). rewrite <-(Hsame c0); [done|done|by apply named_true].
  - unfold idle_commands_due. rewrite map_map, list_elem_of_In, in_map_iff. split.
    + intros Hd. exists c. split; [done|]. apply list_elem_of_In, in_filter. by rewrite Z.eqb_refl, Hd.
    + intros (c0 & Hid & [Hc0 [_ Hd]%andb_true_iff]%list_elem_of_In%in_filter). rewrite <-(Hsame c0); [done|done|by apply named_true].
  - unfold save_idle_notice. rewrite Hex. by destruct (idle_notice_due now c).
  - intros later c' Hc' Hid Hd. unfold save_idle_notice in Hc'. rewrite Hex, Hd in Hc'. cbn [snd] in Hc'.
    change (c' ∈ update_where (λ c0, named id c0 && idle_notice_due now c0) (λ c0, c0 <| idle_notice_at := Some now |>) (commands d)) in Hc'.
    apply Hrow in Hc' as ->; [|done|done]. rewrite Hnc, Hd. cbn [andb]. apply due_iff in Hd as (Hr & Hs & Hclock).
    rewrite due_iff. unfold idle_clock, set_field in *. cbn. unfold MICROS in *. split; [lia|]. intros Hl. conjs; [done|done|]. lia.
  - intros later c' Hc' Hid Hd.
    change (c' ∈ update_where (λ c0, named id c0 && is_running c0) (λ c0, c0 <| touched_at := Some now |>) (commands d)) in Hc'.
    apply Hrow in Hc' as ->; [|done|done]. rewrite Hnc in Hd. cbn [andb] in Hd.
    destruct (is_running c) eqn:Hr; apply due_iff in Hd as (Hst & Hs & Hclock); [|unfold is_running in Hr; by rewrite Hst in Hr].
    unfold idle_clock, set_field in Hclock. cbn in Hclock. lia.
  - intros later secs c' Hc' Hid Hsecs Hd. unfold set_terminal_command_notice_secs in Hc'.
    replace (secs <? 0)%Z with false in Hc' by lia. rewrite andb_false_r in Hc'. cbn [snd] in Hc'.
    change (c' ∈ update_where (λ c0, named id c0 && is_running c0) (λ c0, c0 <| idle_notice_secs := secs |> <| touched_at := Some now |>) (commands d)) in Hc'.
    apply Hrow in Hc' as ->; [|done|done]. rewrite Hnc in Hd. cbn [andb] in Hd.
    destruct (is_running c) eqn:Hr; apply due_iff in Hd as (Hst & Hs & Hclock); [|unfold is_running in Hr; by rewrite Hst in Hr].
    unfold idle_clock, set_field in Hclock. cbn in Hclock. lia.
Qed.

(** ** Quiet stops *)

Lemma default_greatest created times : (created ≤ default created (greatest (Some created :: times)))%Z
  ∧ ∀ t, Some t ∈ times → (t ≤ default created (greatest (Some created :: times)))%Z.
Proof.
  assert (∀ l t, Some t ∈ l → ∃ g, greatest l = Some g ∧ (t ≤ g)%Z) as Hmax.
  { induction l as [|o l IH]; intros t Ht; [by apply not_elem_of_nil in Ht|]. apply elem_of_cons in Ht as [<-|Ht].
    - cbn. fold (greatest l). destruct (greatest l) as [g|]; eexists; (split; [done|lia]).
    - destruct (IH t Ht) as (g & Hg & Hle). cbn. fold (greatest l). rewrite Hg. destruct o; eexists; (split; [done|lia]). }
  split; [|intros t Ht].
  - destruct (Hmax (Some created :: times) created) as (g & -> & Hle); [apply elem_of_cons; by left|done].
  - destruct (Hmax (Some created :: times) t) as (g & -> & Hle); [apply elem_of_cons; by right|done].
Qed.
(** Everything the database saw of a pod is at or before [pod_idle_since]. *)
Lemma idle_since_covers p d :
  (pod_created_at p ≤ pod_idle_since p d)%Z
  ∧ (∀ t, last_active_at p = Some t → (t ≤ pod_idle_since p d)%Z)
  ∧ ∀ c, c ∈ pod_commands (pod_row p) d →
      (command_created_at c ≤ pod_idle_since p d)%Z ∧ ∀ t, finished_at c = Some t → (t ≤ pod_idle_since p d)%Z.
Proof.
  unfold pod_idle_since. set (cmds := greatest (map _ _)).
  destruct (default_greatest (pod_created_at p) [last_active_at p; cmds]) as [H1 H2]. conjs; [done| |].
  - intros t Ht. apply H2. rewrite Ht. apply elem_of_cons. by left.
  - intros c Hc.
    assert (∀ t, Some t ∈ [Some (command_created_at c); finished_at c] → (t ≤ default (pod_created_at p) (greatest [Some (pod_created_at p); last_active_at p; cmds]))%Z) as Hle.
    { intros t Ht. assert (∃ g, greatest [Some (command_created_at c); finished_at c] = Some g ∧ (t ≤ g)%Z) as (g & Hg & Htg).
      { apply elem_of_cons in Ht as [[= ->]|Ht%list_elem_of_singleton]; cbn; destruct (finished_at c); try done; eexists; (split; [done|]); simplify_eq; lia. }
      assert (∀ l, Some g ∈ l → ∃ m, greatest l = Some m ∧ (g ≤ m)%Z) as Hmem.
      { induction l as [|o l IH]; intros Hin; [by apply not_elem_of_nil in Hin|]. apply elem_of_cons in Hin as [<-|Hin].
        - cbn. fold (greatest l). destruct (greatest l); eexists; (split; [done|lia]).
        - destruct (IH Hin) as (m & Hm & Hle). cbn. fold (greatest l). rewrite Hm. destruct o; eexists; (split; [done|lia]). }
      destruct (Hmem (map (λ c, greatest [Some (command_created_at c); finished_at c]) (pod_commands (pod_row p) d))) as (m & Hm & Hgm).
      { apply list_elem_of_In, in_map_iff. exists c. split; [done|]. by apply list_elem_of_In. }
      specialize (H2 m). unfold cmds in H2 at 1. rewrite Hm in H2. specialize (H2 ltac:(apply elem_of_cons; right; by apply list_elem_of_singleton)). lia. }
    split; [apply Hle; apply elem_of_cons; by left|]. intros t Ht. apply Hle. rewrite Ht. apply elem_of_cons. right. by apply list_elem_of_singleton.
Qed.

(** A quiet stop takes only a pod nothing has used.  A candidate is a live pod with no
    command running and no repository cloning; one listed as idle has seen no start,
    command, command's end or noted use for the whole threshold, and with the threshold 0
    there is none; the re-check under the locks agrees with the list it was read from; and
    however its row is ended, by whom and how often, once the user has stopped it its
    storage is not marked for removal. *)
Theorem quiet_stops_spare_what_is_used (now minutes : Z) (d : SandboxDb) :
  (∀ pod conversation_id kind, (pod, conversation_id, kind) ∈ quiet_stop_candidates now minutes d →
     ∃ p, p ∈ pods d ∧ pod_row p = pod ∧ pod_conversation p = conversation_id ∧ pod_live p = true
       ∧ (∀ c, c ∈ pod_commands pod d → status c ≠ Running) ∧ conversation_id ∉ cloning d
       ∧ (kind = Idle → (0 < minutes)%Z
          ∧ let limit := (now - minutes_param minutes * 60 * MICROS)%Z in
            (pod_created_at p ≤ limit)%Z ∧ (∀ t, last_active_at p = Some t → (t ≤ limit)%Z)
            ∧ ∀ c, c ∈ pod_commands pod d → (command_created_at c ≤ limit)%Z ∧ ∀ t, finished_at c = Some t → (t ≤ limit)%Z))
  ∧ (∀ pod, (∃ conversation_id kind, (pod, conversation_id, kind) ∈ quiet_stop_candidates now minutes d)
       ↔ pod_still_stoppable now pod Idle minutes d = true ∨ pod_still_stoppable now pod AgentFinished minutes d = true)
  ∧ ∀ pod ends p, ByUser ∈ map snd ends →
      p ∈ pods (foldl (λ d '(at_, how), snd (terminate_sandbox_pod_as at_ pod how d)) d ends) → pod_row p = pod →
      pod_live p = false ∧ quietly_stopped_at p = None.
Proof.
  assert (∀ pod conversation_id kind, (pod, conversation_id, kind) ∈ quiet_stop_candidates now minutes d ↔
    ∃ p, p ∈ pods d ∧ pod_row p = pod ∧ pod_conversation p = conversation_id ∧ pod_live p = true ∧ pod_busy p d = false
      ∧ (pod_finished p d || pod_idle_past now (minutes_param minutes) p d) = true
      ∧ kind = if pod_finished p d then AgentFinished else Idle) as Hcand.
  { intros pod conv kind. unfold quiet_stop_candidates. rewrite list_elem_of_In, in_map_iff. setoid_rewrite <-list_elem_of_In.
    setoid_rewrite sort_by_perm. setoid_rewrite in_filter. setoid_rewrite andb_true_iff. setoid_rewrite andb_true_iff. setoid_rewrite negb_true_iff.
    split.
    - intros (p & [= <- <- <-] & Hp & [Hl Hb] & Hs). exists p. by conjs.
    - intros (p & Hp & <- & <- & Hl & Hb & Hs & ->). exists p. by conjs. }
  conjs.
  - intros pod conv kind (p & Hp & <- & <- & Hl & Hb & Hs & ->)%Hcand. exists p. unfold pod_busy in Hb. apply orb_false_iff in Hb as [Hcl Hrun].
    conjs; try done.
    + intros c Hc Hst. rewrite existsb_false in Hrun. specialize (Hrun c Hc). unfold is_running in Hrun. by rewrite bool_decide_eq_true_2 in Hrun.
    + intros Hin. rewrite existsb_false in Hcl. specialize (Hcl _ Hin). by rewrite Z.eqb_refl in Hcl.
    + destruct (pod_finished p d); [done|]. intros _. cbn [orb] in Hs. unfold pod_idle_past in Hs.
      apply andb_true_iff in Hs as [H0%Z.ltb_lt Hm%Z.leb_le]. destruct (idle_since_covers p d) as (H1 & H2 & H3).
      split; [unfold minutes_param in H0; lia|]. cbn zeta. conjs; [lia|intros t Ht; specialize (H2 t Ht); lia|].
      intros c Hc. destruct (H3 c Hc) as [H4 H5]. split; [lia|]. intros t Ht. specialize (H5 t Ht). lia.
  - intros pod. unfold pod_still_stoppable. rewrite !existsb_true. split.
    + intros (conv & kind & (p & Hp & Hid & _ & Hl & Hb & Hs & _)%Hcand).
      apply orb_true_iff in Hs as [Hs|Hs]; [right|left]; exists p; (split; [done|]); by rewrite Hid, Z.eqb_refl, Hl, Hb, Hs.
    + intros [(p & Hp & [[[Hid Hl]%andb_true_iff Hb]%andb_true_iff Hs]%andb_true_iff)|(p & Hp & [[[Hid Hl]%andb_true_iff Hb]%andb_true_iff Hs]%andb_true_iff)];
        apply Z.eqb_eq in Hid; apply negb_true_iff in Hb; eexists _, _; apply Hcand; exists p; conjs; try done; rewrite Hs; by rewrite ?orb_true_r.
  - intros pod ends. assert (∀ d0 : SandboxDb, (ByUser ∈ map snd ends ∨ ∀ p, p ∈ pods d0 → pod_row p = pod → pod_live p = false ∧ quietly_stopped_at p = None) →
      ∀ p, p ∈ pods (foldl (λ d '(at_, how), snd (terminate_sandbox_pod_as at_ pod how d)) d0 ends) → pod_row p = pod →
        pod_live p = false ∧ quietly_stopped_at p = None) as Hgen.
    { induction ends as [|[at_ how] ends IH]; intros d0 Hwhen p; cbn [foldl].
      { destruct Hwhen as [Hx|Hx]; [by apply not_elem_of_nil in Hx|]. apply Hx. }
      apply IH. assert (∀ p1, p1 ∈ pods (snd (terminate_sandbox_pod_as at_ pod how d0)) →
        ∃ p0, p0 ∈ pods d0 ∧ p1 = if end_takes how pod p0 then end_row how at_ p0 else p0) as Hrows by (intros p1; apply in_update).
      destruct how; [| |right].
      - destruct Hwhen as [Hx|Hx]; [left; apply elem_of_cons in Hx as [?|]; done|right].
        intros p1 (p0 & Hp0 & ->)%Hrows Hid. unfold end_takes in *. rewrite andb_true_r in *.
        destruct (pod_row p0 =? pod)%Z eqn:He; [|by apply Hx]. apply Z.eqb_eq in He. destruct (Hx p0 Hp0 He) as [_ Hq].
        split; [done|]. exact Hq.
      - destruct Hwhen as [Hx|Hx]; [left; apply elem_of_cons in Hx as [?|]; done|right].
        intros p1 (p0 & Hp0 & ->)%Hrows Hid. unfold end_takes in *.
        destruct (pod_row p0 =? pod)%Z eqn:He; [|by apply Hx]. apply Z.eqb_eq in He. destruct (Hx p0 Hp0 He) as [Hl Hq].
        rewrite Hl. cbn [andb]. by split.
      - intros p1 (p0 & Hp0 & ->)%Hrows Hid. unfold end_takes in *. rewrite andb_true_r in *.
        destruct (pod_row p0 =? pod)%Z eqn:He; [by split|]. apply Z.eqb_neq in He. done. }
    intros p Hb. apply Hgen. by left.
Qed.
