(* ===== verification/PodMessages.v ===== *)
(** * PodMessages: what smelt makes of an agent's messages

    [src/src/sandbox/agent.rs]'s [read_hello] and [handle_agent_message]: the version check a
    connection starts with, and the agent's events recorded, published and waking their
    conversation.  serde's reading of a message is a parameter; a script's MCP call is
    passed on.  [db_ok]: whether the database took the query.  Above [i64]'s range a line's
    number wraps, as the code's cast does. *)

From stdpp Require Import sorting.
From S2P Require Import Prelude RustStr AgentProtocol AgentCommands AgentClient PodRequests ChatPage SandboxDb.
Local Open Scope string_scope.

(** [str::parse::<i64>]. *)
Definition parse_i64 (s : string) : option Z :=
  match strip_prefix "-" s with
  | Some digits => if bool_decide (digits = "") then None else Z.opp <$> parse_digits (I64_MAX + 1) 0 digits
  | None => parse_unsigned I64_MAX s
  end.

(** ** The hello *)

Inductive ConnectError :=
  | Failed (e : string)
  | OutdatedAgent (found : option ProtocolVersion) (certain : bool).
(** The first message: the text of one, [None] a close or a socket error [e] before any, and
    whether the wait ran out. *)
Inductive FirstMessage := FirstText (text : string) | SocketFailed (e : string) | HelloTimedOut.
Definition read_hello (parse : string → Result AgentMessage string) (first : FirstMessage) : Result ProtocolVersion ConnectError :=
  match first with
  | HelloTimedOut => Err (OutdatedAgent None false)
  | SocketFailed e => Err (Failed e)
  | FirstText text =>
      match parse text with
      | Ok (Hello version) =>
          if (major version =? major PROTOCOL_VERSION)%Z then Ok version else Err (OutdatedAgent (Some version) true)
      | _ => Err (OutdatedAgent None true)
      end
  end.

(** ** A connection's messages *)

Record Smelt := {
  db : SandboxDb;
  published : list (Z * ConversationEvent);
  woken : list Z;
  requests : Requests;
  script_calls : list (Z * option string * McpRequest);
}.
#[export] Instance Smelt_eta : Eta Smelt := λ s,
  Build_Smelt (db s) (published s) (woken s) (requests s) (script_calls s).
Definition publish (conversation_id : Z) (event : ConversationEvent) (s : Smelt) : Smelt :=
  s <| published ::= λ p, app p [(conversation_id, event)] |>.

Definition UNREADABLE (message : string) : string :=
  "the sandbox agent couldn't read smelt's request (" +:+ message +:+ "); this is a smelt bug".

Definition handle_agent_message (now conversation_id : Z) (db_ok : bool) (msg : AgentMessage) (s : Smelt) : Smelt :=
  match msg with
  | Output id terminal_id stream seq data =>
      let seq := i64_wrap seq in
      let s := if db_ok then s <| db ::= λ d, snd (append_terminal_event id stream seq data d) |> else s in
      match parse_i64 terminal_id with
      | Some terminal_id =>
          publish conversation_id (SandboxCommandUpdate terminal_id id None "running" None (Some (stream_as_str stream)) (Some data) (Some seq)) s
      | None => s
      end
  | Exit id terminal_id code =>
      let s := if db_ok then s <| db ::= mark_terminal_command_finished now id code |> else s in
      let s := match parse_i64 terminal_id with
               | Some terminal_id =>
                   publish conversation_id (SandboxCommandUpdate terminal_id id None "finished" (Some code) None None None) s
               | None => s
               end in
      s <| woken ::= λ w, app w [conversation_id] |>
  | ReplyTo request_id result => s <| requests ::= resolve request_id result |>
  | ProtocolError (Some request_id) message => s <| requests ::= resolve request_id (ReplyError (UNREADABLE message)) |>
  | ProtocolError None _ => s
  | McpRequested call_id command_id request => s <| script_calls ::= λ c, app c [(call_id, command_id, request)] |>
  | Hello _ | UnknownMessage => s
  end.
(** One that doesn't parse is ignored. *)
Definition handle_text (parse : string → Result AgentMessage string) (now conversation_id : Z) (db_ok : bool) (text : string) (s : Smelt) : Smelt :=
  match parse text with Ok msg => handle_agent_message now conversation_id db_ok msg s | Err _ => s end.

(** ** What a terminal does is recorded *)

(** The agent's events delivered on a connection, the database up. *)
Definition deliver (now conversation_id : Z) (sent : list ShellEvent) (s : Smelt) : Smelt :=
  foldl (λ s event, match event_message event with Some msg => handle_agent_message now conversation_id true msg s | None => s end) s sent.

(** The rows the lines of command [id] become. *)
Definition printed_rows (id : string) (sent : list ShellEvent) : list EventRow :=
  omap (λ event, match event with
                 | Line _ i stream seq data => if bool_decide (i = id) then Some (Build_EventRow id stream (i64_wrap seq) data) else None
                 | Marker _ _ _ => None
                 end) sent.
Definition exit_codes (id : string) (sent : list ShellEvent) : list Z :=
  omap (λ event, match event with Marker _ (Some i) code => if bool_decide (i = id) then Some code else None | _ => None end) sent.

Definition both : list Stream := [Stdout; Stderr].
Lemma lines_of_both id (d : SandboxDb) : lines_of id both d = List.filter (λ e, bool_decide (event_command e = id)) (SandboxDb.events d).
Proof.
  unfold lines_of. apply List.filter_ext. intros e. rewrite (bool_decide_eq_true_2 (event_stream e ∈ both)); [by rewrite andb_true_r|].
  unfold both. destruct (event_stream e); set_solver.
Qed.
Lemma lines_of_append id i stream seq data (d : SandboxDb) :
  is_some (get_terminal_command i d) = true →
  lines_of id both (snd (append_terminal_event i stream seq data d))
  = app (lines_of id both d) (if bool_decide (i = id) then [Build_EventRow id stream seq data] else []).
Proof.
  intros Hi. unfold append_terminal_event.
  assert (existsb (named i) (SandboxDb.commands d) = true) as ->.
  { apply existsb_true. unfold get_terminal_command in Hi. destruct (List.find (named i) (SandboxDb.commands d)) as [c|] eqn:Hf; [|done].
    apply List.find_some in Hf as [Hc Hn]. exists c. by rewrite list_elem_of_In. }
  rewrite !lines_of_both. unfold set_field. cbn [snd SandboxDb.events]. rewrite List.filter_app. cbn. by case_bool_decide as Hx; [subst|].
Qed.
Lemma append_unknown i stream seq data (d : SandboxDb) :
  get_terminal_command i d = None → snd (append_terminal_event i stream seq data d) = d.
Proof.
  intros Hi. unfold append_terminal_event. destruct (existsb (named i) (SandboxDb.commands d)) eqn:He; [|done].
  apply existsb_true in He as (c & Hc & Hn). pose proof (List.find_none _ _ Hi c). rewrite Hn in H. by discriminate H; apply list_elem_of_In.
Qed.
Lemma get_append id i stream seq data (d : SandboxDb) :
  get_terminal_command id (snd (append_terminal_event i stream seq data d)) = get_terminal_command id d.
Proof. unfold append_terminal_event. by destruct (existsb _ _). Qed.
Lemma get_finished now id i code (d : SandboxDb) :
  get_terminal_command id (mark_terminal_command_finished now i code d)
  = if bool_decide (i = id)
    then (λ c, c <| SandboxDb.status := Finished |> <| exit_code := Some code |> <| finished_at := Some now |>) <$> get_terminal_command id d
    else get_terminal_command id d.
Proof.
  unfold get_terminal_command, mark_terminal_command_finished, set_field at 1. cbn [SandboxDb.commands].
  induction (SandboxDb.commands d) as [|c l IH]; [by case_bool_decide|]. cbn [update_where map List.find].
  destruct (named i c) eqn:Hn; fold (update_where (named i)).
  - apply named_true in Hn. case_bool_decide as Hi.
    + subst i id. unfold named at 1. cbn. rewrite bool_decide_eq_true_2 by done. by rewrite (proj2 (named_true _ c) eq_refl).
    + assert (named id c = false) as Hf by (apply bool_decide_eq_false; congruence).
      unfold named at 1. cbn. rewrite (bool_decide_eq_false_2 (command_id c = id)) by congruence. rewrite Hf. exact IH.
  - destruct (named id c) eqn:Hid; [|exact IH]. apply named_true in Hid. rewrite bool_decide_eq_false_2; [done|].
    intros ->. rewrite (proj2 (named_true id c) Hid) in Hn. done.
Qed.
Lemma lines_of_finished id streams now i code (d : SandboxDb) : lines_of id streams (mark_terminal_command_finished now i code d) = lines_of id streams d.
Proof. done. Qed.

Lemma exit_messages event : event_message event = match event with
  | Line terminal_id id stream seq data => Some (Output id terminal_id stream seq data)
  | Marker terminal_id (Some id) code => Some (Exit id terminal_id code)
  | Marker _ None _ => None
  end.
Proof. by destruct event as [|t [|] c]. Qed.

Definition end_with (now : Z) (o : option TerminalCommand) (code : Z) : option TerminalCommand :=
  (λ c, c <| SandboxDb.status := Finished |> <| exit_code := Some code |> <| finished_at := Some now |>) <$> o.
Lemma end_with_some now o code : is_some (end_with now o code) = is_some o.
Proof. by destruct o. Qed.

(** What one event does to a command's rows. *)
Lemma deliver_one now conv event s id :
  is_some (get_terminal_command id (db s)) = true →
  let s' := deliver now conv [event] s in
  lines_of id both (db s') = app (lines_of id both (db s)) (printed_rows id [event])
  ∧ get_terminal_command id (db s') = foldl (end_with now) (get_terminal_command id (db s)) (exit_codes id [event])
  ∧ length (woken s') = (length (woken s) + length (omap (λ e, e) (exits [event])))%nat.
Proof.
  intros Hid. cbn [deliver foldl]. rewrite exit_messages. destruct event as [t i stream seq data|t [i|] code].
  - assert (let s' := handle_agent_message now conv true (Output i t stream seq data) s in
      db s' = snd (append_terminal_event i stream (i64_wrap seq) data (db s)) ∧ woken s' = woken s) as [Hdb Hw].
    { cbn [handle_agent_message]. by destruct (parse_i64 t). }
    rewrite Hdb, Hw, get_append. conjs; [|done|cbn; lia]. cbn [printed_rows omap list_omap].
    destruct (get_terminal_command i (db s)) as [c|] eqn:Hi.
    + rewrite lines_of_append by (by rewrite Hi). by case_bool_decide.
    + rewrite append_unknown by done. rewrite bool_decide_eq_false_2; [by rewrite app_nil_r|]. intros ->. by rewrite Hi in Hid.
  - assert (let s' := handle_agent_message now conv true (Exit i t code) s in
      db s' = mark_terminal_command_finished now i code (db s) ∧ woken s' = app (woken s) [conv]) as [Hdb Hw].
    { cbn [handle_agent_message]. by destruct (parse_i64 t). }
    rewrite Hdb, Hw, get_finished, lines_of_finished, app_nil_r. conjs; [done| |].
    + cbn [exit_codes omap list_omap]. by case_bool_decide as Hi.
    + rewrite length_app. done.
  - rewrite app_nil_r. conjs; [done|done|cbn; lia].
Qed.
Lemma deliver_app now conv e1 e2 s : deliver now conv (app e1 e2) s = deliver now conv e2 (deliver now conv e1 s).
Proof. apply foldl_app. Qed.
Lemma deliver_all now conv sent s id :
  is_some (get_terminal_command id (db s)) = true →
  let s' := deliver now conv sent s in
  lines_of id both (db s') = app (lines_of id both (db s)) (printed_rows id sent)
  ∧ get_terminal_command id (db s') = foldl (end_with now) (get_terminal_command id (db s)) (exit_codes id sent)
  ∧ length (woken s') = (length (woken s) + length (omap (λ e, e) (exits sent)))%nat.
Proof.
  cbn zeta. revert s. induction sent as [|event sent IH]; intros s Hid; [cbn; by rewrite app_nil_r, Nat.add_0_r|].
  change (event :: sent) with (app [event] sent). rewrite deliver_app. destruct (deliver_one now conv event s id Hid) as (H1 & H2 & H3).
  assert (is_some (get_terminal_command id (db (deliver now conv [event] s))) = true) as Hid'.
  { rewrite H2. clear -Hid. revert Hid. generalize (get_terminal_command id (db s)). induction (exit_codes id [event]) as [|c l IH]; intros o Ho; [done|].
    cbn. apply IH. by rewrite end_with_some. }
  destruct (IH _ Hid') as (G1 & G2 & G3). unfold printed_rows, exit_codes in *. rewrite G1, G2, G3, H1, H2, H3. conjs.
  - by rewrite omap_app, app_assoc.
  - by rewrite omap_app, foldl_app.
  - rewrite exits_app, omap_app, length_app. lia.
Qed.

(** *** The lines of a command are numbered upwards *)

Lemma told_no_lines id ids seq sent : told ids seq sent → id ≠ "" → id ∉ ids → printed_rows id sent = [].
Proof.
  intros Ht Hne. revert ids seq Ht. induction sent as [|[t i st n d|t i c] sent IH]; intros ids seq Ht Hid; [done|..]; cbn [told] in Ht.
  - destruct Ht as (_ & Hi & Ht). cbn [printed_rows omap list_omap]. rewrite bool_decide_eq_false_2; [by eapply IH|].
    intros ->. destruct Hi as [->|Hi]; [done|]. destruct ids as [|j ids]; [done|]. injection Hi as ->. apply Hid. by left.
  - destruct Ht as [_ Ht]. cbn [printed_rows omap list_omap]. eapply IH; [done|]. intros Hx. apply Hid. destruct ids; [done|]. by right.
Qed.
Lemma told_sorted id ids seq sent :
  told ids seq sent → id ≠ "" → NoDup ids → (0 ≤ seq)%Z → (seq + Z.of_nat (length sent) ≤ I64_MAX)%Z →
  StronglySorted Z.lt (map event_seq (printed_rows id sent))
  ∧ Forall (λ n, (if bool_decide (head ids = Some id) then seq else 0) < n)%Z (map event_seq (printed_rows id sent)).
Proof.
  intros Ht Hne. revert ids seq Ht. induction sent as [|[t i st n d|t i c] sent IH]; intros ids seq Ht Hnd Hseq Hlen; [by repeat constructor|..];
    cbn [told length] in *.
  - destruct Ht as (Hn & Hi & Ht).
    assert (n = seq + 1)%Z as Hn1 by (rewrite Hn; unfold u64_add; apply Z.mod_small; unfold I64_MAX in Hlen; lia).
    assert (i64_wrap n = n) as Hw by (unfold i64_wrap; rewrite Z.mod_small; unfold I64_MAX in Hlen; lia).
    destruct (IH ids n Ht Hnd ltac:(lia) ltac:(lia)) as [Hs Hf]. cbn [printed_rows omap list_omap]. fold (printed_rows id sent).
    destruct (bool_decide_reflect (i = id)) as [->|Hii].
    + destruct Hi as [->|Hh]; [done|]. rewrite bool_decide_eq_true_2 in Hf by done. cbn [map event_seq]. rewrite Hw. split.
      * by constructor.
      * rewrite bool_decide_eq_true_2 by done. constructor; [lia|]. eapply Forall_impl; [exact Hf|]. cbn. lia.
    + split; [done|]. eapply Forall_impl; [exact Hf|]. cbn. intros m. case_bool_decide; lia.
  - destruct Ht as [(first & -> & Hh) Ht]. destruct ids as [|j ids]; [done|]. injection Hh as ->. cbn [tail] in Ht.
    apply NoDup_cons in Hnd as [Hj Hnd]. cbn [printed_rows omap list_omap]. fold (printed_rows id sent).
    destruct (decide (first = id)) as [->|Hii].
    + rewrite (told_no_lines id ids 0 sent Ht Hne Hj). by repeat constructor.
    + destruct (IH ids 0%Z Ht Hnd ltac:(lia) ltac:(lia)) as [Hs Hf]. split; [done|]. cbn [head]. rewrite bool_decide_eq_false_2 by congruence.
      eapply Forall_impl; [exact Hf|]. cbn. intros m. case_bool_decide; lia.
Qed.
Lemma sorted_kept l : StronglySorted Z.lt (map event_seq l) → sort_by (λ a b, (event_seq a <=? event_seq b)%Z) l = l.
Proof.
  induction l as [|e l IH]; [done|]. cbn [map]. intros Hs. apply StronglySorted_inv in Hs as [Hs Hf]. cbn [sort_by foldr].
  fold (sort_by (λ a b, (event_seq a <=? event_seq b)%Z) l). rewrite IH by done. destruct l as [|e' l]; [done|]. cbn [insert_by].
  cbn [map] in Hf. inversion Hf; subst. by rewrite (proj2 (Z.leb_le _ _)) by lia.
Qed.

(** *** A command's exit *)

Lemma no_exit id sent : Some id ∉ exits sent → exit_codes id sent = [].
Proof.
  induction sent as [|[t i st n d|t [i|] c] sent IH]; [done|exact IH| |].
  - intros Hx. apply not_elem_of_cons in Hx as [Hi Hx]. cbn [exit_codes omap list_omap].
    rewrite bool_decide_eq_false_2 by congruence. by apply IH.
  - intros Hx. apply not_elem_of_cons in Hx as [_ Hx]. by apply IH.
Qed.
Lemma one_exit id sent : NoDup (exits sent) → Some id ∈ exits sent → ∃ t code, Marker t (Some id) code ∈ sent ∧ exit_codes id sent = [code].
Proof.
  induction sent as [|[t i st n d|t [i|] c] sent IH]; intros Hnd Hin; [by apply not_elem_of_nil in Hin|..].
  - destruct (IH Hnd Hin) as (t' & code & Hm & He). exists t', code. split; [by right|done].
  - change (exits (Marker t (Some i) c :: sent)) with (Some i :: exits sent) in *. apply NoDup_cons in Hnd as [Hi Hnd].
    cbn [exit_codes omap list_omap]. fold (exit_codes id sent). destruct (bool_decide_reflect (i = id)) as [->|Hne].
    + exists t, c. split; [by left|]. by rewrite no_exit.
    + apply elem_of_cons in Hin as [[= ->]|Hin]; [done|]. destruct (IH Hnd Hin) as (t' & code & Hm & He). exists t', code. split; [by right|done].
  - change (exits (Marker t None c :: sent)) with (None :: exits sent) in *. apply NoDup_cons in Hnd as [Hi Hnd].
    apply elem_of_cons in Hin as [?|Hin]; [done|]. destruct (IH Hnd Hin) as (t' & code & Hm & He). exists t', code. split; [by right|done].
Qed.

(** *** What the tabs are told *)

(** A terminal's own line and exit, as the conversation's tabs get them. *)
Definition line_update (tid : Z) (row : EventRow) : ConversationEvent :=
  SandboxCommandUpdate tid (event_command row) None "running" None (Some (stream_as_str (event_stream row))) (Some (event_data row)) (Some (event_seq row)).
Definition exit_update (tid : Z) (id : string) (code : Z) : ConversationEvent :=
  SandboxCommandUpdate tid id None "finished" (Some code) None None None.
Definition updates_of (tid : Z) (sent : list ShellEvent) : list ConversationEvent :=
  omap (λ event, match event with
                 | Line _ id stream seq data => Some (line_update tid (Build_EventRow id stream (i64_wrap seq) data))
                 | Marker _ id code => (λ i, exit_update tid i code) <$> id
                 end) sent.
Definition update_about (id : string) (event : ConversationEvent) : bool :=
  match event with SandboxCommandUpdate _ i _ _ _ _ _ _ => bool_decide (i = id) | _ => false end.

Definition sent_by (t : string) (event : ShellEvent) : Prop :=
  match event with Line t' _ _ _ _ | Marker t' _ _ => t' = t end.
Lemma select_sent_by t a s : Forall (sent_by t) (snd (select t a s)).
Proof.
  assert (Forall (sent_by t) (snd (arm_body t a s))) as Ha.
  { destruct a; try by constructor. cbn. unfold piece_read. destruct (find _ _ _) as [[d m]|]; cbn; [destruct (bool_decide (d = "")); cbn|]; by repeat constructor. }
  unfold select. destruct (arm_body t a s) as [s1 sent]. unfold after_arm. destruct (complete _ _) as [[[c|] ?] ?]; cbn in *; apply Forall_app; by repeat constructor.
Qed.
Lemma run_shell_sent_by t steps s : Forall (sent_by t) (snd (run_shell t steps s)).
Proof.
  revert s. induction steps as [|[a|id m] steps IH]; intros s; cbn [run_shell]; [by constructor| |].
  - pose proof (select_sent_by t a s) as Ha. destruct (select t a s) as [s1 sent]. specialize (IH s1).
    destruct (run_shell t steps s1) as [[s2 accepted] events]. by apply Forall_app.
  - destruct (claim id m s) as [claimed s1]. specialize (IH s1). by destruct (run_shell t steps s1) as [[s2 accepted] events].
Qed.

Lemma deliver_told now conv t tid sent s :
  parse_i64 t = Some tid → Forall (sent_by t) sent →
  let s' := deliver now conv sent s in
  published s' = app (published s) (map (pair conv) (updates_of tid sent))
  ∧ woken s' = app (woken s) (replicate (length (omap (λ e, e) (exits sent))) conv).
Proof.
  cbn zeta. intros Ht Hf. revert s. induction Hf as [|event sent Hev _ IH]; intros s; [cbn; by rewrite !app_nil_r|].
  change (event :: sent) with (app [event] sent). rewrite deliver_app. destruct (IH (deliver now conv [event] s)) as [-> ->].
  unfold updates_of. rewrite exits_app, !omap_app, map_app, length_app, replicate_add, !app_assoc. unfold deliver. cbn [foldl].
  destruct event as [t' i st n d|t' [i|] c]; cbn in Hev; try subst t'; cbn; rewrite ?Ht, ?app_nil_r; by split.
Qed.
Lemma updates_in_order id tid ids seq sent :
  told ids seq sent → id ≠ "" → NoDup ids →
  List.filter (update_about id) (updates_of tid sent) = app (map (line_update tid) (printed_rows id sent)) (map (exit_update tid id) (exit_codes id sent)).
Proof.
  intros Ht Hne. revert ids seq Ht. induction sent as [|[t i st n d|t i c] sent IH]; intros ids seq Ht Hnd; [done|..]; cbn [told] in Ht.
  - destruct Ht as (_ & Hi & Ht). specialize (IH ids n Ht Hnd).
    unfold updates_of, printed_rows, exit_codes in *. cbn. case_bool_decide as Hid; [subst i; cbn; by rewrite IH|exact IH].
  - destruct Ht as [(first & -> & Hh) Ht]. destruct ids as [|j ids]; [done|]. injection Hh as ->. cbn [tail] in Ht.
    apply NoDup_cons in Hnd as [Hj Hnd]. specialize (IH ids 0%Z Ht Hnd). pose proof (told_no_lines id ids 0 sent Ht Hne) as Hno.
    unfold updates_of, printed_rows, exit_codes in *. cbn. case_bool_decide as Hid; [subst first|exact IH].
    rewrite Hno in * by done. cbn in *. by rewrite IH.
Qed.

(** C6. What a terminal does is what smelt records and tells.  Whatever its shell's pipes
    give and whichever timers pass, once the agent's events have reached smelt, each command
    the terminal took reads back as exactly the lines the agent sent of it, in the order
    they were printed, numbered upwards; it is finished with the code its markers carried, or
    still running if it is the one in flight.  What its conversation's tabs were sent is
    those lines and exits and nothing else: of each command its lines, in order and under
    the numbers they are recorded by, then its exit.  And the conversation was woken once
    for each command that ended. *)
Theorem what_a_terminal_does_is_recorded (t : string) (tid : Z) (steps : list Step) (now conv : Z) (s : Smelt) :
  let '(shell, accepted, sent) := run_shell t steps new_shell in
  parse_i64 t = Some tid →
  NoDup accepted → "" ∉ accepted → (Z.of_nat (length sent) ≤ I64_MAX)%Z →
  (∀ id, id ∈ accepted → ∃ c, get_terminal_command id (db s) = Some c ∧ SandboxDb.status c = SandboxDb.Running ∧ lines_of id both (db s) = []) →
  let s' := deliver now conv sent s in
  published s' = app (published s) (map (pair conv) (updates_of tid sent))
  ∧ woken s' = app (woken s) (replicate (length (omap (λ e, e) (exits sent))) conv)
  ∧ ∀ id, id ∈ accepted →
    read_terminal_output id both 0 (Z.of_nat (length (printed_rows id sent))) (db s') = printed_rows id sent
    ∧ StronglySorted Z.lt (map event_seq (printed_rows id sent))
    ∧ ∃ c, get_terminal_command id (db s') = Some c
      ∧ (current shell = Some id ∧ SandboxDb.status c = SandboxDb.Running
         ∧ List.filter (update_about id) (updates_of tid sent) = map (line_update tid) (printed_rows id sent)
         ∨ current shell ≠ Some id ∧ SandboxDb.status c = Finished
           ∧ ∃ t' code, Marker t' (Some id) code ∈ sent ∧ exit_code c = Some code
             ∧ List.filter (update_about id) (updates_of tid sent) = app (map (line_update tid) (printed_rows id sent)) [exit_update tid id code]).
Proof.
  pose proof (run_shell_kept t steps) as Hrun. pose proof (run_shell_sent_by t steps new_shell) as Hby.
  destruct (run_shell t steps new_shell) as [[shell accepted] sent].
  destruct Hrun as [Hexits Htold]. intros Hpt Hnd Hne Hlen Hdb. cbn zeta.
  destruct (deliver_told now conv t tid sent s Hpt Hby) as [Hpub Hwoken]. conjs; [done|done|]. intros id Hid.
  assert (id ≠ "") as Hid0 by (intros ->; done). pose proof (updates_in_order id tid accepted 0 sent Htold Hid0 Hnd) as Hups.
  destruct (Hdb id Hid) as (c & Hc & Hst & Hl). destruct (deliver_all now conv sent s id ltac:(by rewrite Hc)) as (H1 & H2 & H3).
  rewrite Hl in H1. cbn [app] in H1. destruct (told_sorted id accepted 0 sent Htold Hid0 Hnd ltac:(lia) ltac:(lia)) as [Hs _].
  assert (NoDup (map Some accepted)) as Hnds by (apply NoDup_fmap_2; [by intros ?? [= ->]|done]). rewrite Hexits in Hnds.
  apply NoDup_app in Hnds as (Hnde & Hapart & _).
  assert (Some id ∈ map Some accepted) as Hin by (apply list_elem_of_fmap; by exists id). rewrite Hexits in Hin. conjs; [|done|].
  - unfold read_terminal_output. rewrite H1, sorted_kept by done. rewrite drop_0, Nat2Z.id, firstn_all. done.
  - apply elem_of_app in Hin as [Hin|Hin].
    + destruct (one_exit id sent Hnde Hin) as (t' & code & Hm & He). rewrite He in Hups. rewrite H2, He, Hc. cbn. eexists. split; [done|]. right.
      conjs; [|done|by exists t', code]. intros Hcur. apply (Hapart (Some id) Hin). rewrite Hcur. by apply list_elem_of_singleton.
    + destruct (current shell) as [cur|] eqn:Hcur; [|by apply not_elem_of_nil in Hin]. apply list_elem_of_singleton in Hin. injection Hin as ->.
      assert (exit_codes cur sent = []) as He by (apply no_exit; intros Hx; apply (Hapart (Some cur) Hx); by apply list_elem_of_singleton).
      rewrite He, app_nil_r in Hups. rewrite H2, He, Hc. cbn. exists c. split; [done|by left].
Qed.

Definition one_command : Smelt :=
  Build_Smelt
    (Build_SandboxDb [] [Build_TerminalRow 7 3 0 None]
       [SandboxDb.Build_TerminalCommand 1 7 "c1" "make" SandboxDb.Running None None 300 None None 0 None] [] 4 8 [] [])
    [] [] new_requests [].
Definition two_lines : list Step :=
  let m := new_marker "0123456789ab0123456789ab" in
  [Claims "c1" m; Arms (PieceRead Stdout 5 "building"); Arms (PieceRead Stderr 6 "warning: unused");
   Arms (PieceRead Stdout 7 (m +:+ "o:0")); Arms (PieceRead Stderr 8 (m +:+ "e:0"))].

Lemma what_a_terminal_does_is_recorded_witness :
  let '(shell, accepted, sent) := run_shell "7" two_lines new_shell in
  accepted = ["c1"] ∧ printed_rows "c1" sent = [Build_EventRow "c1" Stdout 1 "building"; Build_EventRow "c1" Stderr 2 "warning: unused"]
  ∧ read_terminal_output "c1" both 0 (Z.of_nat (length (printed_rows "c1" sent))) (db (deliver 9 1 sent one_command)) = printed_rows "c1" sent
  ∧ published (deliver 9 1 sent one_command) = app (published one_command) (map (pair 1%Z) (updates_of 7 sent)).
Proof.
  pose proof (what_a_terminal_does_is_recorded "7" 7 two_lines 9 1 one_command) as Hthm.
  destruct (run_shell "7" two_lines new_shell) as [[shell accepted] sent] eqn:Hrun. vm_compute in Hrun. injection Hrun as <- <- <-.
  destruct (Hthm eq_refl (NoDup_singleton "c1") ltac:(by intros ?%list_elem_of_singleton) ltac:(vm_compute; discriminate)
    ltac:(intros id ->%list_elem_of_singleton; eexists; conjs; vm_compute; reflexivity)) as (Hpub & _ & Hread).
  conjs; [reflexivity|vm_compute; reflexivity|exact (proj1 (Hread "c1" ltac:(by left)))|exact Hpub].
Defined.
