(* ===== verification/SandboxErrors.v ===== *)
(** * SandboxErrors: why a sandbox call failed, and what the model is told

    [src/src/sandbox/mod.rs]'s error types with their texts, the ownership of a cluster
    object of [spec/ownership.rs], the image names [agent.rs] and [spec/images.rs] compare,
    and what [agent/registry.rs] makes of an agent's version.  Another library's error is
    the text it displays as; the image this build is named after is a parameter. *)

From S2P Require Import Prelude RustStr McpCalls AgentProtocol PodRegistry PodRequests.
Local Open Scope string_scope.

(** ** Ownership *)

Inductive Ownership := Ours | Unlabelled | Foreign.
#[export] Instance Ownership_eq_dec : EqDecision Ownership.
Proof. solve_decision. Defined.
(** [db::SmeltInstance]. *)
Record SmeltInstance := { instance_id : string; owns_unlabelled : bool }.
Definition INSTANCE_LABEL : string := "smelt/instance".
Definition ownership (labels : gmap string string) (instance : string) : Ownership :=
  match labels !! INSTANCE_LABEL with
  | None => Unlabelled
  | Some label => if negb (bool_decide (instance = "")) && bool_decide (label = instance) then Ours else Foreign
  end.
Definition counts_as_ours (labels : gmap string string) (instance : SmeltInstance) : bool :=
  match ownership labels (instance_id instance) with Ours => true | Unlabelled => owns_unlabelled instance | Foreign => false end.
Definition instance_labels (instance : string) : gmap string string := {[INSTANCE_LABEL := instance]}.

(** ** Images *)

(** The text after the last ['/'], [s.rsplit('/').next()]. *)
Definition last_part (s : string) : string := match rsplit_once "/" s with Some (_, last) => last | None => s end.
Definition first_part (s : string) : string := match split_once "/" s with Some (first, _) => first | None => s end.
Definition has_upper (s : string) : bool := existsb is_ascii_uppercase (String.list_ascii_of_string s).
Definition full_image_name (reference : string) : string :=
  let reference := trim reference in
  let '(name, digest) := match split_once "@" reference with Some (name, digest) => (name, Some digest) | None => (reference, None) end in
  let name := match strip_prefix "index.docker.io/" name with Some path => "docker.io/" +:+ path | None => name end in
  let first := first_part name in
  let has_registry := contains "/" name
    && (contains "." first || contains ":" first || bool_decide (first = "localhost") || has_upper first) in
  let full :=
    if has_registry then
      match strip_prefix "docker.io/" name with
      | Some path => if contains "/" path then name else "docker.io/library/" +:+ path
      | None => name
      end
    else if contains "/" name then "docker.io/" +:+ name
    else "docker.io/library/" +:+ name in
  match digest with
  | Some digest => full +:+ "@" +:+ digest
  | None => if contains ":" (last_part full) then full else full +:+ ":latest"
  end.

Inductive PodImage := Older | SameAsNew (image : string) | UnknownImage.
#[export] Instance PodImage_eq_dec : EqDecision PodImage.
Proof. solve_decision. Defined.
Definition judge_image (image : option string) (new : string) : PodImage :=
  match image with
  | Some image => if bool_decide (full_image_name image = full_image_name new) then SameAsNew image else Older
  | None => UnknownImage
  end.
Definition how_to_build (own_sandbox_image image : string) : string :=
  let full := full_image_name image in
  if bool_decide (full ∈ map full_image_name [own_sandbox_image; "docker.io/library/docker:29-dind"]) then
    "tell the user to build it with scripts/build-sandbox-image.sh, from the checkout smelt runs from."
  else if bool_decide (full = "docker.io/library/smelt-sandbox:latest") then
    "tell the user to build it with scripts/build-sandbox-image.sh --latest, from the checkout smelt runs from, or to unset SANDBOX_IMAGE."
  else
    "SANDBOX_IMAGE or SANDBOX_DOCKER_IMAGE names it, and scripts/build-sandbox-image.sh doesn't make it: tell the user to replace or import that image, or to unset the setting.".

(** ** Errors *)

Inductive SandboxError :=
  | Kube (e : string)
  | SandboxTimeout (detail : option string)
  | ExistingPodNotRunning (phase : string)
  | Io (e : string)
  | WebSocket (e : string)
  | Db (e : string)
  | PodAlreadyExists
  | InvalidMountPath (reason : string)
  | StartFailed (reason : string)
  | GitSetup (reason : string)
  | AgentConnectTimeout
  | NotInitialized
  | NoStream (what : string)
  | NotOurs (name : string) (of_ : Ownership).
#[export] Instance SandboxError_eq_dec : EqDecision SandboxError.
Proof. solve_decision. Defined.

Definition AGENT_CONNECT_TIMEOUT_SECS : Z := 10.
Definition sandbox_error_text (e : SandboxError) : string :=
  match e with
  | Kube e => "kubernetes API error: " +:+ e
  | AgentConnectTimeout => "timed out connecting to the sandbox agent after " +:+ show_unsigned AGENT_CONNECT_TIMEOUT_SECS +:+ "s"
  | SandboxTimeout None => "timed out waiting for pod to become Running"
  | SandboxTimeout (Some detail) => "timed out waiting for pod to become Running (" +:+ detail +:+ ")"
  | ExistingPodNotRunning phase => "existing sandbox pod is not Running (phase: " +:+ phase +:+ ")"
  | Io e => "I/O error on an exec's or port-forward's stream: " +:+ e
  | WebSocket e => "WebSocket error talking to sandbox agent: " +:+ e
  | Db e => "database error: " +:+ e
  | PodAlreadyExists => "a pod already exists for this conversation; call terminate_pod first"
  | InvalidMountPath reason => "invalid mount path: " +:+ reason
  | StartFailed reason => "sandbox pod failed to start: " +:+ reason
  | GitSetup reason => "couldn't set up git in the pod: " +:+ reason
  | NotInitialized => "the sandbox isn't set up yet (sandbox::init() hasn't run)"
  | NoStream what => "kube gave no stream for " +:+ what
  | NotOurs name Unlabelled =>
      name +:+ " has no smelt/instance label: it was made before SME-115 and this smelt database hasn't adopted it, so it isn't used. Restarting smelt retries the adoption."
  | NotOurs name _ =>
      name +:+ " belongs to another smelt database sharing this cluster, so this sandbox can't use it (SME-115)"
  end.

Inductive TerminalError :=
  | Sandbox (e : SandboxError)
  | NoPod
  | NoTerminal
  | TerminalStillExists
  | CommandStillRunning
  | StaleTerminal (terminal_id pod_id : Z) (live_pod : option Z) (terminal_closed : bool)
  | AgentFailed (e : AgentRequestError)
  | AgentOutdated (found : option ProtocolVersion) (image : PodImage)
  | AgentTooOld (needs found : ProtocolVersion)
  | AgentUnreachable
  | StalePod (pod_id live_pod : Z)
  | AgentPort (port : Z).

Definition outdated_error (default_sandbox_image : string) (o : Outdated) : TerminalError :=
  AgentOutdated (found o) (judge_image (image o) default_sandbox_image).

Definition terminal_error_text (own_sandbox_image : string) (e : TerminalError) : string :=
  match e with
  | Sandbox e => sandbox_error_text e
  | NoPod => "no such pod (it doesn't exist, isn't Running, or was already terminated)"
  | NoTerminal => "no such terminal"
  | TerminalStillExists => "this pod still has a live terminal; call terminate_terminal on it first"
  | CommandStillRunning => "a command is still running in this terminal; send_signal or wait for it to finish first"
  | StaleTerminal terminal_id _ (Some live_pod) true =>
      "terminal " +:+ show_i64 terminal_id +:+ " has been terminated; your pod " +:+ show_i64 live_pod
      +:+ " is running — call create_terminal for a new one."
  | StaleTerminal terminal_id pod_id (Some live_pod) false =>
      "terminal " +:+ show_i64 terminal_id +:+ " belonged to pod " +:+ show_i64 pod_id +:+ ", which has stopped; your pod "
      +:+ show_i64 live_pod +:+ " is running — use list_terminals to see your terminals, or create_terminal for a new one."
  | StaleTerminal terminal_id pod_id None _ =>
      "terminal " +:+ show_i64 terminal_id +:+ " belonged to pod " +:+ show_i64 pod_id
      +:+ ", which has stopped; this conversation has no running pod — call create_pod, then create_terminal."
  | AgentFailed e => agent_request_error_text e
  | AgentOutdated found image =>
      let found := match found with
                   | Some version => "protocol " +:+ version_to_string version
                   | None => "an agent from before the protocol was versioned"
                   end in
      "this sandbox runs an incompatible sandbox agent (" +:+ found +:+ "; smelt needs protocol " +:+ show_unsigned (major PROTOCOL_VERSION)
      +:+ ".x), so its terminals and file tools can't be used."
      +:+ match image with
          | SameAsNew image =>
              " Its image " +:+ image +:+ " is the one a new pod would get, so recreating the pod won't help until that image is rebuilt. Don't retry: "
              +:+ how_to_build own_sandbox_image image
              +:+ " Once it's rebuilt, call terminate_pod, then create_pod: this pod still runs the old build. /workspace is kept."
          | Older => " Call terminate_pod, then create_pod, for a sandbox that works; /workspace is kept."
          | UnknownImage =>
              " Call terminate_pod, then create_pod, for a sandbox that works; /workspace is kept. If a new pod is refused too, don't retry: tell the user the sandbox image needs rebuilding with scripts/build-sandbox-image.sh."
          end
  | AgentTooOld needs found =>
      "this needs a newer sandbox agent (protocol " +:+ version_to_string needs +:+ " or later; this sandbox has "
      +:+ version_to_string found +:+ "). Call terminate_pod, then create_pod, to get one; /workspace is kept."
  | AgentUnreachable =>
      "the sandbox's agent couldn't be reached, so its pod was stopped (a notice says why, if the cluster gave a reason). Call create_pod for a new one."
  | StalePod pod_id live_pod =>
      "pod " +:+ show_i64 pod_id +:+ " has stopped; your pod " +:+ show_i64 live_pod
      +:+ " is running — use list_terminals to see your terminals, or create_terminal for a new one."
  | AgentPort port =>
      "port " +:+ show_unsigned port
      +:+ " is smelt's own sandbox agent, which can't be opened from a browser or a preview; run your server on another port"
  end.

(** ** An agent's version *)

Inductive AgentStatus :=
  | Current (version : string)
  | RestartRecommended (version : string)
  | RestartRequired (version : option string) (rebuild_image : bool).
Definition describe (s : AgentStatus) : string :=
  match s with
  | Current version => "agent " +:+ version
  | RestartRecommended version => "agent " +:+ version +:+ ", restart for new features"
  | RestartRequired version rebuild_image =>
      let agent := match version with Some version => "agent " +:+ version | None => "old agent" end in
      agent +:+ ", " +:+ if rebuild_image then "rebuild the image, then restart" else "restart required"
  end.
Definition classify_agent (agent smelt : ProtocolVersion) : AgentStatus :=
  let version := version_to_string agent in
  if (minor agent <? minor smelt)%Z then RestartRecommended version else Current version.
(** [version]: the agent's hello, of a connection. *)
Definition agent_status (default_sandbox_image : string) (version : nat → option ProtocolVersion) (pod_id : Z) (r : Registry)
    : option AgentStatus :=
  match outdated r !! pod_id with
  | Some o =>
      Some (RestartRequired (version_to_string <$> found o)
              match judge_image (image o) default_sandbox_image with SameAsNew _ => true | _ => false end)
  | None => conn ← registry_get pod_id r; agent ← version conn; Some (classify_agent agent PROTOCOL_VERSION)
  end.
Definition require_minor (agent : ProtocolVersion) (minor_ : Z) : Result unit TerminalError :=
  if (minor_ <=? minor agent)%Z then Ok () else Err (AgentTooOld (Build_ProtocolVersion (major PROTOCOL_VERSION) minor_) agent).

(** ** Facts on image names *)

Example full_names :
  map full_image_name ["smelt-sandbox"; "index.docker.io/smelt-sandbox:src-1"; "me/app"; "localhost/app"; "reg.io:5000/app@sha256:ab"; "docker.io/app"]
  = ["docker.io/library/smelt-sandbox:latest"; "docker.io/library/smelt-sandbox:src-1"; "docker.io/me/app:latest"; "localhost/app:latest";
     "reg.io:5000/app@sha256:ab"; "docker.io/library/app:latest"].
Proof. vm_compute. reflexivity. Qed.
