(* ===== verification/PodLifecycle.v ===== *)
(** * PodLifecycle: a pod's end

    How a pod's record, terminals, commands and connection go when it is terminated, stopped
    by the user, found crashed or found gone: [close_pod_terminals], [handle_crash_cleanup]
    and [close_if_gone] of [src/src/sandbox/watch.rs], [terminate_pod_as] and its callers of
    [manager/terminate.rs], [stop_pod_for_user] of [manager/teardown.rs], and
    [clean_up_and_terminate_pod] of [agent.rs].

    A call is a function of the state with an error or a value ([let*]).  Every query takes
    the next of [faults], the text of an error or none; one that fails changes nothing.  The
    cluster's delete is a call too, so it may change the state as other tasks would while it
    is awaited. *)

From stdpp Require Import sorting.
From S2P Require Import Prelude RustStr Notices McpCalls AgentProtocol ChatPage SandboxDb PodRegistry PodMessages SandboxErrors.
Local Open Scope string_scope.

(** ** Calls *)

(** Saved between turns; saved and answered; and a wake for the notices of finished commands. *)
Inductive Notice := Save (text : string) | Deliver (text : string) | Wake.
(** [pods_changed]: the times [AppEvent::PodsChanged] was published; [saved]: the messages
    saved to conversations in place, each as its notice's text. *)
Record Life := {
  db : SandboxDb;
  registry : Registry;
  published : list (Z * ConversationEvent);
  pods_changed : nat;
  notified : list (Z * list Notice);
  saved : list (Z * string);
  now : Z;
  faults : list (option string);
}.
#[export] Instance Life_eta : Eta Life := λ s,
  Build_Life (db s) (registry s) (published s) (pods_changed s) (notified s) (saved s) (now s) (faults s).

Definition Call (T : Type) : Type := Life → T * Life.
Definition ret {T} (x : T) : Call T := λ s, (x, s).
Definition andThen {T U} (m : Call T) (k : T → Call U) : Call U := λ s, let '(x, s) := m s in k x s.
Notation "'let*' x := m 'in' k" := (andThen m (λ x, k)) (at level 200, x name, right associativity) : smelt_scope.
Definition write (f : Life → Life) : Call unit := λ s, ((), f s).
Definition get {T} (f : Life → T) : Call T := λ s, (f s, s).
(** The [?] operator, in a call. *)
Definition try_ {T U E} (m : Call (Result T E)) (k : T → Call (Result U E)) : Call (Result U E) :=
  andThen m (λ r, match r with Ok x => k x | Err e => ret (Err e) end).
Notation "'let?*' x := m 'in' k" := (try_ m (λ x, k)) (at level 200, x name, right associativity) : smelt_scope.
Definition fails_as {T E F} (f : E → F) (m : Call (Result T E)) : Call (Result T F) :=
  let* r := m in ret (map_err f r).

Definition query {T} (f : Z → SandboxDb → T * SandboxDb) : Call (Result T string) := λ s,
  match faults s with
  | Some e :: rest => (Err e, s <| faults := rest |>)
  | _ => let '(x, d) := f (now s) (db s) in (Ok x, s <| faults ::= tail |> <| db := d |>)
  end.
Definition read {T} (f : Z → SandboxDb → T) : Call (Result T string) := query (λ now d, (f now d, d)).
Definition update (f : Z → SandboxDb → SandboxDb) : Call (Result unit string) := query (λ now d, ((), f now d)).

Definition publish (conversation_id : Z) (event : ConversationEvent) : Call unit :=
  write (λ s, s <| published ::= λ p, app p [(conversation_id, event)] |>).
Definition publish_pods_changed : Call unit := write (λ s, s <| pods_changed ::= S |>).
Definition notify (conversation_id : Z) (notices : list Notice) : Call unit :=
  write (λ s, s <| notified ::= λ l, app l [(conversation_id, notices)] |>).
(** A registry operation, and the connection it took out closed. *)
Definition close_taken (r : Registry) : Registry := foldl (λ r id, registry_step (Closes id) r) r (elements (closing r)).
Definition deregister_pod (pod_id : Z) : Call unit := write (λ s, s <| registry ::= λ r, close_taken (deregister pod_id r) |>).

(** ** Ending a pod *)

Definition db_error {T} (m : Call (Result T string)) : Call (Result T SandboxError) := fails_as Db m.
Definition terminal_db_error {T} (m : Call (Result T string)) : Call (Result T TerminalError) := fails_as (λ e, Sandbox (Db e)) m.

Definition close_terminal (pod_id : Z) (conversation_id : option Z) (t : TerminalRow) : Call unit :=
  let* running := read (λ _, terminal_command_is_running (terminal_row t)) in
  let* _ := match running with
            | Ok (Some c) => update (λ now, mark_terminal_command_lost now (command_id c))
            | _ => ret (Ok ())
            end in
  let* _ := update (λ now, terminate_sandbox_terminal now (terminal_row t)) in
  match conversation_id with
  | Some conversation_id => publish conversation_id (SandboxTerminalUpdate pod_id (terminal_row t) "disconnected" true)
  | None => ret ()
  end.
Fixpoint for_each {A} (f : A → Call unit) (l : list A) : Call unit :=
  match l with [] => ret () | x :: l => let* _ := f x in for_each f l end.
Definition close_pod_terminals (pod_id : Z) : Call (option Z * bool) :=
  let* conversation_id := read (λ _, sandbox_pod_conversation_id pod_id) in
  let conversation_id := match conversation_id with Ok c => c | Err _ => None end in
  let* terminals := read (λ _, list_sandbox_terminals_for_pod pod_id) in
  let terminals := match terminals with Ok l => l | Err _ => [] end in
  let* _ := for_each (close_terminal pod_id conversation_id) terminals in
  ret (conversation_id, negb (Nat.eqb (length terminals) 0)).

(** The row its update answered with, [None] also for a quiet stop of an ended one. *)
Definition terminate_pod_as (pod_id : Z) (how : PodEnd) (delete : Call (Result unit SandboxError)) : Call (Result (option PodRow) SandboxError) :=
  let* _ := deregister_pod pod_id in
  let* closed :=
    (let?* _ := delete in db_error (query (λ now, terminate_sandbox_pod_as now pod_id how))) in
  let* _ := if is_ok closed then ret () else write (λ s, s <| registry ::= registry_step (TeardownFailed pod_id) |>) in
  let?* row := ret closed in
  let* _ := match row with
            | Some row =>
                let* _ := publish (pod_conversation row) (SandboxPodUpdate pod_id "terminated" None true) in
                publish_pods_changed
            | None => ret ()
            end in
  ret (Ok row).
Definition terminate_pod_with (pod_id : Z) (delete : Call (Result unit SandboxError)) : Call (Result (option PodRow) SandboxError) :=
  terminate_pod_as pod_id Plain delete.

(** [delete]: the pod's delete on the cluster, of each pod. *)
Section Deleting.
Context (delete : Z → Call (Result unit SandboxError)).

Definition force_terminate_pod (pod_id : Z) : Call (Result (option PodRow) SandboxError) := terminate_pod_with pod_id (delete pod_id).

Definition resolve_pod_id (existing : list PodRow) : Result Z TerminalError :=
  match existing with p :: _ => Ok (pod_row p) | [] => Err NoPod end.
Definition conversation_pod_id (conversation_id : Z) : Call (Result Z TerminalError) :=
  let?* existing := terminal_db_error (read (λ _, list_sandbox_pods conversation_id)) in
  ret (resolve_pod_id existing).
Definition terminate_pod (conversation_id : Z) : Call (Result unit TerminalError) :=
  let?* pod_id := conversation_pod_id conversation_id in
  let?* live_terminals := terminal_db_error (read (λ _, list_sandbox_terminals_for_pod pod_id)) in
  if negb (Nat.eqb (length live_terminals) 0) then ret (Err TerminalStillExists)
  else
    let?* row := fails_as Sandbox (force_terminate_pod pod_id) in
    ret (match row with Some _ => Ok () | None => Err NoPod end).

Definition user_stop_notice (pod_id : Z) : string :=
  mark_notice ("The user stopped sandbox pod " +:+ show_i64 pod_id
    +:+ ". Its terminals, and any files outside /workspace and mounted volumes, are gone. Create a new pod if you need one.").
Definition stop_pod_for_user_with (pod_id : Z) (delete : Call (Result unit SandboxError)) : Call (Result unit TerminalError) :=
  let?* live := terminal_db_error (read (λ _, sandbox_pod_is_live pod_id)) in
  if negb live then ret (Err NoPod)
  else
    let?* _ := fails_as Sandbox (terminate_pod_as pod_id ByUser delete) in
    let* closed := close_pod_terminals pod_id in
    let* _ := match fst closed with
              | Some conversation_id => notify conversation_id [Save (user_stop_notice pod_id)]
              | None => ret ()
              end in
    ret (Ok ()).
Definition stop_pod_for_user (pod_id : Z) : Call (Result unit TerminalError) := stop_pod_for_user_with pod_id (delete pod_id).

Definition crash_notice (pod_id : Z) (reason : option string) : string :=
  mark_notice ("Sandbox pod " +:+ show_i64 pod_id +:+ " stopped unexpectedly"
    +:+ match reason with Some reason => " (" +:+ reason +:+ ")" | None => "" end
    +:+ "; every terminal running in it is no longer available.").
Definition handle_crash_cleanup (pod_id : Z) (reason : option string) : Call unit :=
  let* closed := close_pod_terminals pod_id in
  let* _ := match fst closed with
            | Some conversation_id =>
                notify conversation_id (app (if snd closed then [Save (crash_notice pod_id reason)] else []) [Wake])
            | None => ret ()
            end in
  deregister_pod pod_id.
Definition clean_up_and_terminate_pod (pod_id : Z) (reason : option string) : Call unit :=
  let* _ := handle_crash_cleanup pod_id reason in
  let* _ := force_terminate_pod pod_id in
  ret ().

(** [running]: whether the cluster has a pod of the name that counts as this database's
    and hasn't finished. *)
Definition close_if_gone_with (instance : Call (Result SmeltInstance string)) (running : Call (Result bool string)) (pod_id : Z) : Call unit :=
  let* live := read (λ _, sandbox_pod_is_live pod_id) in
  match live with
  | Ok true =>
      let* connected := get (λ s, is_some (registry_get pod_id (registry s))) in
      if connected then ret ()
      else
        let* instance := instance in
        match instance with
        | Err _ => ret ()
        | Ok _ =>
            let* running := running in
            match running with
            | Ok true | Err _ => ret ()
            | Ok false =>
                let* _ := close_pod_terminals pod_id in
                let* _ := force_terminate_pod pod_id in
                ret ()
            end
        end
  | _ => ret ()
  end.
End Deleting.

(** ** A pod's status in the cluster *)

(** What is read of a container's status and of its pod's. *)
Record ContainerStatus := { container : string; current_end : option (option string); last_end : option (option string) }.
Record PodStatus := { phase : option string; containers : option (list ContainerStatus); pod_reason : option string }.
(** [pod]: the pod object's status, of one that exists. *)
Definition decide_pod_death_reason (pod : option (option PodStatus)) : option (option string) :=
  match pod with
  | None => Some None
  | Some status =>
      let sandbox := statuses ← (status ≫= containers);
        match List.find (λ c, bool_decide (container c = "sandbox")) statuses with Some c => Some c | None => head statuses end in
      let ended := sandbox ≫= current_end in
      if negb (bool_decide (status ≫= phase = Some "Failed")) && negb (is_some ended) then None
      else
        let reason := match ended with Some r => r | None => default None (sandbox ≫= last_end) end in
        Some (match reason with Some r => Some r | None => status ≫= pod_reason end)
  end.
Definition pod_has_finished (status : option PodStatus) : bool :=
  match status ≫= phase with Some p => bool_decide (p ∈ ["Succeeded"; "Failed"]) | None => false end.
(** Of the pod's name. *)
Definition watched_pod_id (name : option string) : option Z :=
  name ← name; rest ← strip_prefix "sandbox-" name; parse_i64 rest.

(** ** Closing a pod's terminals, as one change of the records *)

(** What running smelt keeps true of the records: ids distinct, one command of a terminal
    running at a time. *)
Record records_ok (d : SandboxDb) : Prop := {
  rk_ids : NoDup (map command_id (commands d));
  rk_one : ∀ c1 c2, c1 ∈ commands d → c2 ∈ commands d → command_terminal c1 = command_terminal c2 →
             is_running c1 = true → is_running c2 = true → c1 = c2;
}.
Definition lost (now : Z) (c : TerminalCommand) : TerminalCommand := c <| status := Lost |> <| finished_at := Some now |>.
Definition runs_in (ids : list Z) (c : TerminalCommand) : bool := is_running c && existsb (Z.eqb (command_terminal c)) ids.
Definition close_rows (now : Z) (ids : list Z) (d : SandboxDb) : SandboxDb :=
  d <| commands ::= update_where (runs_in ids) (lost now) |>
    <| terminals ::= update_where (λ t, existsb (Z.eqb (terminal_row t)) ids) (λ t, t <| terminal_terminated_at := Some now |>) |>.
Definition close_row (now i : Z) (d : SandboxDb) : SandboxDb :=
  terminate_sandbox_terminal now i
    match terminal_command_is_running i d with Some c => mark_terminal_command_lost now (command_id c) d | None => d end.

Lemma update_where_ext {A} (p q : A → bool) (f : A → A) rows :
  (∀ r, r ∈ rows → p r = q r) → update_where p f rows = update_where q f rows.
Proof. intros Heq. unfold update_where. apply map_ext_in. intros r Hr%list_elem_of_In. by rewrite Heq. Qed.
Lemma update_where_none {A} (p : A → bool) (f : A → A) rows : (∀ r, r ∈ rows → p r = false) → update_where p f rows = rows.
Proof. intros Heq. rewrite (update_where_ext p (λ _, false)); [|done]. unfold update_where. apply map_id. Qed.
Lemma close_row_eq now i d : records_ok d → close_row now i d = close_rows now [i] d.
Proof.
  intros [Hids Hone]. unfold close_row, close_rows.
  assert (Hc : commands match terminal_command_is_running i d with Some c => mark_terminal_command_lost now (command_id c) d | None => d end
               = update_where (runs_in [i]) (lost now) (commands d)
             ∧ terminals match terminal_command_is_running i d with Some c => mark_terminal_command_lost now (command_id c) d | None => d end = terminals d).
  { unfold terminal_command_is_running. destruct (List.find _ (commands d)) as [c|] eqn:Hf; (split; [|done]).
    - apply find_some in Hf as [Hin%list_elem_of_In Hc]. apply andb_true_iff in Hc as [Ht%Z.eqb_eq Hr].
      unfold mark_terminal_command_lost. cbn. apply update_where_ext. intros r Hrin. unfold runs_in. cbn [existsb].
      rewrite orb_false_r. destruct (is_running r) eqn:Er; [|by rewrite andb_false_r]. rewrite andb_true_r.
      destruct (Z.eqb_spec (command_terminal r) i) as [E|E]; cbn.
      + apply named_true. f_equal. eapply Hone; eauto. congruence.
      + apply not_true_is_false. intros Hn%named_true. apply E. rewrite <-Ht. f_equal. eapply same_command; eauto.
    - symmetry. apply update_where_none. intros r Hr%list_elem_of_In. pose proof (find_none _ _ Hf r Hr) as Hn. cbn in Hn.
      unfold runs_in. cbn. rewrite orb_false_r, andb_comm. done. }
  unfold terminate_sandbox_terminal. destruct Hc as [Hc Ht].
  destruct (terminal_command_is_running i d); unfold mark_terminal_command_lost, set_field in *; destruct d; cbn in *;
    (f_equal; [apply map_ext; intros r; by rewrite orb_false_r|exact Hc]).
Qed.

Lemma records_ok_close now ids d : records_ok d → records_ok (close_rows now ids d).
Proof.
  intros [Hids Hone]. split; cbn.
  - by rewrite update_ids.
  - intros c1 c2 (d1 & H1 & ->)%in_update (d2 & H2 & ->)%in_update.
    destruct (runs_in ids d1), (runs_in ids d2); cbn; try done. by apply Hone.
Qed.
Lemma records_ok_same d d' : records_ok d → commands d' = commands d → records_ok d'.
Proof. intros [] He. split; by rewrite He. Qed.
Lemma close_rows_twice now ids1 ids2 d : close_rows now ids2 (close_rows now ids1 d) = close_rows now (app ids1 ids2) d.
Proof.
  assert (Hex : ∀ i, existsb (Z.eqb i) ids1 || existsb (Z.eqb i) ids2 = existsb (Z.eqb i) (app ids1 ids2)) by (intros; by rewrite existsb_app).
  unfold close_rows, set_field. cbn. f_equal.
  - unfold update_where. rewrite map_map. apply map_ext. intros t. rewrite <-Hex.
    destruct (existsb (Z.eqb (terminal_row t)) ids1); cbn; [by destruct (existsb _ ids2)|done].
  - unfold update_where. rewrite map_map. apply map_ext. intros c. unfold runs_in. rewrite <-Hex.
    destruct (is_running c) eqn:E, (existsb (Z.eqb (command_terminal c)) ids1); cbn; by rewrite ?E.
Qed.
Lemma close_rows_fold now ids d : records_ok d → foldl (λ d i, close_row now i d) d ids = close_rows now ids d.
Proof.
  intros Hok. revert d Hok. induction ids as [|i ids IH]; intros d Hok; cbn [foldl].
  - unfold close_rows, set_field. rewrite !update_where_none; [by destruct d|done|]. intros c _. unfold runs_in. apply andb_false_r.
  - rewrite close_row_eq by done. rewrite IH by by apply records_ok_close. by rewrite close_rows_twice.
Qed.

(** ** The calls while the database answers *)

Lemma query_ok {T} (f : Z → SandboxDb → T * SandboxDb) s : faults s = [] →
  query f s = (Ok (fst (f (now s) (db s))), s <| db := snd (f (now s) (db s)) |>).
Proof. intros Hf. unfold query. rewrite Hf. destruct (f (now s) (db s)) as [x d]. destruct s. cbn in *. by subst. Qed.
Lemma read_ok {T} (f : Z → SandboxDb → T) s : faults s = [] → read f s = (Ok (f (now s) (db s)), s).
Proof. intros Hf. unfold read. rewrite query_ok by done. by destruct s. Qed.

(** A read that answered is the records'. *)
Lemma read_answers {T} (f : Z → SandboxDb → T) s x s' : read f s = (Ok x, s') → x = f (now s) (db s) ∧ db s' = db s ∧ now s' = now s.
Proof. unfold read, query. destruct (faults s) as [|[e|] rest]; [| |]; intros [= <- <-]; by destruct s. Qed.

(** What is published of a terminal closed, where the conversation is known. *)
Definition closures (pod_id : Z) (conversation_id : option Z) (rows : list TerminalRow) : list (Z * ConversationEvent) :=
  match conversation_id with
  | Some c => map (λ t, (c, SandboxTerminalUpdate pod_id (terminal_row t) "disconnected" true)) rows
  | None => []
  end.
Definition closed_state (pod_id : Z) (conversation_id : option Z) (rows : list TerminalRow) (s : Life) : Life :=
  s <| db ::= close_rows (now s) (map terminal_row rows) |> <| published ::= λ p, app p (closures pod_id conversation_id rows) |>.

Lemma close_terminal_ok pod_id conv t s : faults s = [] →
  close_terminal pod_id conv t s
  = ((), s <| db ::= close_row (now s) (terminal_row t) |> <| published ::= λ p, app p (closures pod_id conv [t]) |>).
Proof.
  intros Hf. unfold close_terminal, andThen. rewrite read_ok by done. unfold close_row, update, ret, publish, write.
  destruct (terminal_command_is_running (terminal_row t) (db s)) as [c|] eqn:Hc.
  - rewrite query_ok by done. rewrite query_ok by done. unfold closures. destruct conv, s; unfold set_field; cbn in *; rewrite Hc; cbn; by rewrite ?app_nil_r.
  - rewrite query_ok by done. unfold closures. destruct conv, s; unfold set_field; cbn in *; rewrite Hc; cbn; by rewrite ?app_nil_r.
Qed.
Lemma for_each_close pod_id conv rows s : faults s = [] → records_ok (db s) →
  for_each (close_terminal pod_id conv) rows s = ((), closed_state pod_id conv rows s).
Proof.
  intros Hf Hok. unfold closed_state.
  assert (for_each (close_terminal pod_id conv) rows s
          = ((), s <| db := foldl (λ d i, close_row (now s) i d) (db s) (map terminal_row rows) |>
                   <| published ::= λ p, app p (closures pod_id conv rows) |>)) as ->.
  { clear Hok. revert s Hf. induction rows as [|t rows IH]; intros s Hf; cbn [for_each].
    - unfold closures. destruct s; cbn in *. destruct conv; unfold set_field; cbn; by rewrite app_nil_r.
    - unfold andThen. rewrite close_terminal_ok by done. rewrite IH by by destruct s. f_equal. unfold closures.
      destruct s, conv; unfold set_field; cbn; by rewrite <-?app_assoc. }
  rewrite close_rows_fold by done. by destruct s.
Qed.
Definition is_nil {A} (l : list A) : bool := Nat.eqb (length l) 0.
Lemma close_pod_terminals_ok pod_id s : faults s = [] → records_ok (db s) →
  let rows := list_sandbox_terminals_for_pod pod_id (db s) in
  let conv := sandbox_pod_conversation_id pod_id (db s) in
  close_pod_terminals pod_id s = ((conv, negb (is_nil rows)), closed_state pod_id conv rows s).
Proof.
  intros Hf Hok rows conv. unfold close_pod_terminals, andThen. rewrite read_ok by done. rewrite read_ok by done.
  by rewrite for_each_close.
Qed.

(** ** The registry's part *)

Lemma close_taken_kept r : connections (close_taken r) = connections r ∧ torn_down (close_taken r) = torn_down r.
Proof.
  unfold close_taken. generalize (elements (closing r)) as ids. intros ids. revert r.
  induction ids as [|id ids IH]; intros r; cbn [foldl]; [done|]. destruct (IH (registry_step (Closes id) r)) as [-> ->].
  cbn [registry_step]. destruct (bool_decide_reflect (id ∈ closing r)); by split.
Qed.
Definition gone_from (pod_id : Z) (r : Registry) : Prop := registry_get pod_id r = None ∧ pod_id ∈ torn_down r.
Lemma deregistered pod_id r : gone_from pod_id (close_taken (deregister pod_id r)).
Proof.
  destruct (close_taken_kept (deregister pod_id r)) as [Hc Ht]. unfold gone_from, registry_get. rewrite Hc, Ht. split; cbn; [apply lookup_delete_eq|set_solver].
Qed.

(** ** What an ending leaves *)

Inductive Ending := UserStop | Crash (reason : option string) | Gone (instance : SmeltInstance).
Definition end_pod (ending : Ending) (delete : Call (Result unit SandboxError)) (pod_id : Z) : Call bool :=
  match ending with
  | UserStop => let* r := stop_pod_for_user_with pod_id delete in ret (is_ok r)
  | Crash reason => let* _ := clean_up_and_terminate_pod (λ _, delete) pod_id reason in ret true
  | Gone instance => let* _ := close_if_gone_with (λ _, delete) (ret (Ok instance)) (ret (Ok false)) pod_id in ret true
  end.
Definition pod_end_of (ending : Ending) : PodEnd := match ending with UserStop => ByUser | _ => Plain end.
Definition notices_of (ending : Ending) (pod_id : Z) (had_terminals : bool) : list (list Notice) :=
  match ending with
  | UserStop => [[Save (user_stop_notice pod_id)]]
  | Crash reason => [app (if had_terminals then [Save (crash_notice pod_id reason)] else []) [Wake]]
  | Gone _ => []
  end.
Definition live_pod_row (pod_id : Z) (p : PodRow) (d : SandboxDb) : Prop :=
  NoDup (map pod_row (pods d)) ∧ p ∈ pods d ∧ pod_row p = pod_id ∧ pod_live p = true.

Lemma row_found {A} (key : A → Z) (rows : list A) r : NoDup (map key rows) → r ∈ rows →
  List.find (λ x, (key x =? key r)%Z) rows = Some r ∧ List.filter (λ x, (key x =? key r)%Z) rows = [r].
Proof.
  intros Hnd Hr. induction rows as [|x rows IH]; [by apply not_elem_of_nil in Hr|]. cbn in Hnd. apply NoDup_cons in Hnd as [Hx Hnd].
  assert (∀ y, y ∈ rows → key y ≠ key x) as Hne by (intros y Hy He; apply Hx; rewrite <-He; by apply list_elem_of_In, in_map, list_elem_of_In).
  cbn. apply elem_of_cons in Hr as [->|Hr].
  - rewrite Z.eqb_refl. split; [done|]. f_equal. apply list_filter_none, Forall_forall. intros y Hy. apply Z.eqb_neq. by apply Hne.
  - destruct (Z.eqb_spec (key x) (key r)) as [E|E]; [by destruct (Hne r Hr)|]. by apply IH.
Qed.
Lemma pod_found pod_id p d : live_pod_row pod_id p d →
  sandbox_pod_conversation_id pod_id d = Some (pod_conversation p) ∧ sandbox_pod_is_live pod_id d = true.
Proof.
  intros (Hnd & Hin & <- & Hlive). destruct (row_found pod_row (pods d) p Hnd Hin) as [Hf _]. split.
  - unfold sandbox_pod_conversation_id. by rewrite Hf.
  - apply existsb_true. exists p. by rewrite Z.eqb_refl.
Qed.
Lemma pod_ended pod_id p how now d : live_pod_row pod_id p d → how ≠ Quiet →
  terminate_sandbox_pod_as now pod_id how d
  = (Some (end_row how now p), d <| pods ::= update_where (λ q, (pod_row q =? pod_id)%Z) (end_row how now) |>).
Proof.
  intros (Hnd & Hin & <- & Hlive) Hq. unfold terminate_sandbox_pod_as, returning.
  assert (∀ q, end_takes how (pod_row p) q = (pod_row q =? pod_row p)%Z) as Ht by (intros q; unfold end_takes; destruct how; [|done|]; apply andb_true_r).
  f_equal.
  - rewrite (List.filter_ext (end_takes how (pod_row p)) (λ q, (pod_row q =? pod_row p)%Z)) by done.
    by rewrite (proj2 (row_found pod_row (pods d) p Hnd Hin)).
  - unfold set_field. f_equal. apply update_where_ext. intros q _. apply Ht.
Qed.

(** The records after an ending at [now]. *)
Definition ended_records (now pod_id : Z) (how : PodEnd) (ids : list Z) (d : SandboxDb) : SandboxDb :=
  close_rows now ids d <| pods ::= update_where (λ q, (pod_row q =? pod_id)%Z) (end_row how now) |>.
Definition ended_event (pod_id : Z) (p : PodRow) : Z * ConversationEvent :=
  (pod_conversation p, SandboxPodUpdate pod_id "terminated" None true).

Lemma conversation_kept i q how now d :
  sandbox_pod_conversation_id i (d <| pods ::= update_where q (end_row how now) |>) = sandbox_pod_conversation_id i d.
Proof.
  unfold sandbox_pod_conversation_id, set_field. cbn. unfold update_where. induction (pods d) as [|p rows IH]; [done|]. cbn.
  assert (pod_row (if q p then end_row how now p else p) = pod_row p ∧ pod_conversation (if q p then end_row how now p else p) = pod_conversation p)
    as [-> Hc] by (by destruct (q p), how).
  destruct (pod_row p =? i)%Z; [|done]. cbn. by rewrite Hc.
Qed.
(** What each part of an ending does to the state. *)
Definition row_ended (pod_id : Z) (how : PodEnd) (p : PodRow) (s : Life) : Life :=
  Build_Life (db s <| pods ::= update_where (λ q, (pod_row q =? pod_id)%Z) (end_row how (now s)) |>)
    (close_taken (deregister pod_id (registry s))) (app (published s) [ended_event pod_id p]) (S (pods_changed s)) (notified s) (saved s) (now s) (faults s).
Definition notified_of (conversation_id : Z) (notices : list Notice) (s : Life) : Life :=
  s <| notified ::= λ l, app l [(conversation_id, notices)] |>.

Lemma terminate_pod_as_ok pod_id p how s : faults s = [] → live_pod_row pod_id p (db s) → how ≠ Quiet →
  terminate_pod_as pod_id how (ret (Ok ())) s = (Ok (Some (end_row how (now s) p)), row_ended pod_id how p s).
Proof.
  intros Hf Hlive Hq. unfold terminate_pod_as, deregister_pod, andThen, try_, db_error, fails_as, write, ret, publish, publish_pods_changed, andThen.
  rewrite query_ok by done. change (db (s <| registry ::= _ |>)) with (db s). change (now (s <| registry ::= _ |>)) with (now s).
  rewrite (pod_ended pod_id p how (now s)) by done. unfold row_ended. destruct s; unfold set_field; cbn. by destruct how.
Qed.
Lemma stop_ok pod_id p s : faults s = [] → records_ok (db s) → live_pod_row pod_id p (db s) →
  stop_pod_for_user_with pod_id (ret (Ok ())) s
  = (Ok (), notified_of (pod_conversation p) [Save (user_stop_notice pod_id)]
              (closed_state pod_id (Some (pod_conversation p)) (list_sandbox_terminals_for_pod pod_id (db s)) (row_ended pod_id ByUser p s))).
Proof.
  intros Hf Hok Hlive. destruct (pod_found _ _ _ Hlive) as [Hconv Hl].
  unfold stop_pod_for_user_with, try_, terminal_db_error, fails_as, andThen. rewrite read_ok by done. rewrite Hl. cbn [map_err negb ret].
  rewrite (terminate_pod_as_ok pod_id p) by done. cbn [map_err ret].
  assert (Hrows : list_sandbox_terminals_for_pod pod_id (db (row_ended pod_id ByUser p s)) = list_sandbox_terminals_for_pod pod_id (db s)) by done.
  assert (Hc : sandbox_pod_conversation_id pod_id (db (row_ended pod_id ByUser p s)) = Some (pod_conversation p)) by (by rewrite <-Hconv; apply conversation_kept).
  rewrite close_pod_terminals_ok; [|exact Hf|by eapply records_ok_same]. rewrite Hrows, Hc. done.
Qed.
Definition had_terminals (pod_id : Z) (s : Life) : bool := negb (is_nil (list_sandbox_terminals_for_pod pod_id (db s))).
Definition crash_notices (pod_id : Z) (reason : option string) (had : bool) : list Notice :=
  app (if had then [Save (crash_notice pod_id reason)] else []) [Wake].
Definition disconnected (pod_id : Z) (s : Life) : Life := s <| registry ::= λ r, close_taken (deregister pod_id r) |>.
Lemma crash_ok pod_id p reason s : faults s = [] → records_ok (db s) → live_pod_row pod_id p (db s) →
  clean_up_and_terminate_pod (λ _, ret (Ok ())) pod_id reason s
  = ((), row_ended pod_id Plain p (disconnected pod_id (notified_of (pod_conversation p) (crash_notices pod_id reason (had_terminals pod_id s))
           (closed_state pod_id (Some (pod_conversation p)) (list_sandbox_terminals_for_pod pod_id (db s)) s)))).
Proof.
  intros Hf Hok Hlive. destruct (pod_found _ _ _ Hlive) as [Hconv Hl].
  unfold clean_up_and_terminate_pod, handle_crash_cleanup, force_terminate_pod, terminate_pod_with, andThen.
  rewrite close_pod_terminals_ok by done. rewrite Hconv. cbn [fst snd]. unfold notify, write, deregister_pod, write.
  fold (had_terminals pod_id s). fold (crash_notices pod_id reason (had_terminals pod_id s)).
  fold (notified_of (pod_conversation p) (crash_notices pod_id reason (had_terminals pod_id s))
         (closed_state pod_id (Some (pod_conversation p)) (list_sandbox_terminals_for_pod pod_id (db s)) s)).
  match goal with |- context [set_field registry ?f ?x] => change (set_field registry f x) with (disconnected pod_id x) end.
  rewrite (terminate_pod_as_ok pod_id p); [done|exact Hf|exact Hlive|done].
Qed.
Lemma gone_ok pod_id p instance s : faults s = [] → records_ok (db s) → live_pod_row pod_id p (db s) → registry_get pod_id (registry s) = None →
  close_if_gone_with (λ _, ret (Ok ())) (ret (Ok instance)) (ret (Ok false)) pod_id s
  = ((), row_ended pod_id Plain p (closed_state pod_id (Some (pod_conversation p)) (list_sandbox_terminals_for_pod pod_id (db s)) s)).
Proof.
  intros Hf Hok Hlive Hgone. destruct (pod_found _ _ _ Hlive) as [Hconv Hl].
  unfold close_if_gone_with, andThen, get. rewrite read_ok by done. rewrite Hl, Hgone. cbn [is_some ret].
  rewrite close_pod_terminals_ok by done. rewrite Hconv. unfold force_terminate_pod, terminate_pod_with.
  rewrite (terminate_pod_as_ok pod_id p); [done|exact Hf|exact Hlive|done].
Qed.
Lemma end_pod_ok ending pod_id p s : faults s = [] → records_ok (db s) → live_pod_row pod_id p (db s) →
  (∀ instance, ending = Gone instance → registry_get pod_id (registry s) = None) →
  let rows := list_sandbox_terminals_for_pod pod_id (db s) in
  let '(done_, s') := end_pod ending (ret (Ok ())) pod_id s in
  done_ = true ∧ db s' = ended_records (now s) pod_id (pod_end_of ending) (map terminal_row rows) (db s)
  ∧ published s' ≡ₚ app (published s) (ended_event pod_id p :: closures pod_id (Some (pod_conversation p)) rows)
  ∧ notified s' = app (notified s) (map (pair (pod_conversation p)) (notices_of ending pod_id (negb (is_nil rows))))
  ∧ gone_from pod_id (registry s').
Proof.
  intros Hf Hok Hlive Hgone rows. subst rows. destruct ending as [|reason|instance]; cbn [end_pod pod_end_of notices_of]; unfold andThen.
  - rewrite (stop_ok pod_id p) by done. cbn [ret is_ok]. conjs; [done..| | |].
    + cbn [published notified_of closed_state row_ended set_field]. unfold closed_state, set_field. cbn. by rewrite <-app_assoc.
    + done.
    + apply deregistered.
  - rewrite (crash_ok pod_id p) by done. cbn [ret]. conjs; [done..| | |].
    + unfold row_ended, disconnected, notified_of, closed_state, set_field. cbn [published]. rewrite <-app_assoc. f_equiv. symmetry. apply Permutation_cons_append.
    + done.
    + apply deregistered.
  - rewrite (gone_ok pod_id p instance) by (done || by apply (Hgone instance)). cbn [ret]. conjs; [done..| | |].
    + unfold row_ended, closed_state, set_field. cbn [published]. rewrite <-app_assoc. f_equiv. symmetry. apply Permutation_cons_append.
    + unfold row_ended, closed_state, set_field. cbn [notified map]. by rewrite app_nil_r.
    + apply deregistered.
Qed.

Lemma in_close_rows now ids d c : c ∈ commands (close_rows now ids d) ↔ ∃ c0, c0 ∈ commands d ∧ c = if runs_in ids c0 then lost now c0 else c0.
Proof. apply in_update. Qed.

(** C29. A pod's end leaves nothing open, and its model is told once.  Stopped by the user,
    found crashed or found gone, while the database and the cluster answer: the pod's row
    is ended and no other pod's; none of its terminals is open, no command runs in one, and
    each command that ran there is lost; nothing else in the records changes; smelt is
    disconnected from it and stays so; its tabs are told of each terminal closed and of the
    pod's end; and the model is sent the user's stop, or the crash where it had terminals
    open with a wake, or nothing for a pod that was gone. *)
Theorem an_ended_pod_leaves_nothing_open (ending : Ending) (pod_id : Z) (p : PodRow) (s : Life)
    (Hup : faults s = []) (Hok : records_ok (db s)) (Hlive : live_pod_row pod_id p (db s))
    (Hgone : ∀ instance, ending = Gone instance → registry_get pod_id (registry s) = None) :
  let rows := list_sandbox_terminals_for_pod pod_id (db s) in
  let '(done_, s') := end_pod ending (ret (Ok ())) pod_id s in
  done_ = true
  ∧ (∀ q, q ∈ pods (db s') ↔ q = end_row (pod_end_of ending) (now s) p ∨ (q ∈ pods (db s) ∧ pod_row q ≠ pod_id))
  ∧ list_sandbox_terminals_for_pod pod_id (db s') = []
  ∧ (∀ t c, t ∈ rows → c ∈ commands (db s') → command_terminal c = terminal_row t → status c ≠ Running)
  ∧ (∀ c, c ∈ commands (db s) → status c = Running → (∃ t, t ∈ rows ∧ command_terminal c = terminal_row t) → lost (now s) c ∈ commands (db s'))
  ∧ (∀ c, c ∈ commands (db s) → (status c = Running → ∀ t, t ∈ rows → command_terminal c ≠ terminal_row t) → c ∈ commands (db s'))
  ∧ (∀ t, t ∈ terminals (db s) → terminal_row t ∉ map terminal_row rows → t ∈ terminals (db s'))
  ∧ SandboxDb.events (db s') = SandboxDb.events (db s)
  ∧ registry_get pod_id (registry s') = None ∧ pod_id ∈ torn_down (registry s')
  ∧ published s' ≡ₚ app (published s) (ended_event pod_id p :: closures pod_id (Some (pod_conversation p)) rows)
  ∧ notified s' = app (notified s) (map (pair (pod_conversation p)) (notices_of ending pod_id (negb (is_nil rows)))).
Proof.
  intros rows. pose proof (end_pod_ok ending pod_id p s Hup Hok Hlive Hgone) as Hend. fold rows in Hend.
  destruct (end_pod ending (ret (Ok ())) pod_id s) as [done_ s']. destruct Hend as (-> & Hdb & Hpub & Hnot & [Hreg Htorn]).
  destruct Hlive as (Hnd & Hin & Hid & Hlive). rewrite Hdb. unfold ended_records.
  assert (Hrows : ∀ i, existsb (Z.eqb i) (map terminal_row rows) = true ↔ ∃ t, t ∈ rows ∧ i = terminal_row t).
  { intros i. rewrite existsb_true. split; [intros (x & Hx & He%Z.eqb_eq)|intros (t & Ht & ->)].
    - apply list_elem_of_In, in_map_iff in Hx as (t & <- & Ht). exists t. by rewrite list_elem_of_In.
    - exists (terminal_row t). rewrite Z.eqb_refl. split; [|done]. by apply list_elem_of_In, in_map, list_elem_of_In. }
  conjs; try done.
  - intros q. change (pods (_ <| pods ::= _ |>)) with (update_where (λ q, (pod_row q =? pod_id)%Z) (end_row (pod_end_of ending) (now s)) (pods (db s))).
    rewrite in_update. split.
    + intros (q0 & Hq0 & ->). destruct (Z.eqb_spec (pod_row q0) pod_id) as [E|E]; [left|by right]. f_equal.
      pose proof (row_found pod_row (pods (db s)) p Hnd Hin) as [H1 _]. rewrite <-Hid in E.
      pose proof (row_found pod_row (pods (db s)) q0 Hnd Hq0) as [H2 _]. rewrite E in H2. congruence.
    + intros [->|[Hq Hne]]; [exists p; by rewrite Hid, Z.eqb_refl|]. exists q. by rewrite (proj2 (Z.eqb_neq _ _) Hne).
  - apply list_filter_none, Forall_forall. intros t (t0 & Ht0 & ->)%in_update.
    destruct (existsb (Z.eqb (terminal_row t0)) _) eqn:E; [apply andb_false_r|]. apply not_true_is_false. intros Hl.
    apply not_true_iff_false in E. apply E, Hrows. exists t0. split; [|done]. by apply in_filter.
  - intros t c Ht (c0 & Hc0 & ->)%in_close_rows Heq. destruct (runs_in _ c0) eqn:E; [done|]. intros Hs.
    apply not_true_iff_false in E. apply E. unfold runs_in. apply andb_true_iff. split; [by apply bool_decide_eq_true|]. apply Hrows. by exists t.
  - intros c Hc Hs Ht. apply in_close_rows. exists c. split; [done|].
    assert (runs_in (map terminal_row rows) c = true) as ->; [|done]. apply andb_true_iff. split; [by apply bool_decide_eq_true|by apply Hrows].
  - intros c Hc Hno. apply in_close_rows. exists c. split; [done|]. destruct (runs_in _ c) eqn:E; [|done].
    apply andb_true_iff in E as [Hr%bool_decide_eq_true (t & Ht & He)%Hrows]. by destruct (Hno Hr t).
  - intros t Ht Hno. apply in_update. exists t. split; [done|]. destruct (existsb _ _) eqn:E; [|done].
    apply Hrows in E as (t1 & Ht1 & He). destruct Hno. rewrite He. by apply list_elem_of_In, in_map, list_elem_of_In.
Qed.

(** A pod with two terminals, one of them running a command. *)
Definition busy_pod : Life :=
  Build_Life
    (Build_SandboxDb [Build_PodRow 1 7 0 None None None None; Build_PodRow 2 8 0 None None None None]
       [Build_TerminalRow 1 1 0 None; Build_TerminalRow 2 2 0 None; Build_TerminalRow 3 1 0 None]
       [Build_TerminalCommand 7 3 "a" "make" Running None None 0 None None 5 None] [] 3 4 [] [])
    empty_registry [] 0 [] [] 60 [].
Lemma busy_pod_ok : records_ok (db busy_pod).
Proof. split; [apply NoDup_singleton|]. by intros c1 c2 ->%list_elem_of_singleton ->%list_elem_of_singleton. Qed.
Lemma busy_pod_live : live_pod_row 1 (Build_PodRow 1 7 0 None None None None) (db busy_pod).
Proof. split; [apply (bool_decide_unpack (NoDup [1%Z; 2%Z])); vm_compute; exact I|]. split; [left|done]. Qed.
Lemma an_ended_pod_leaves_nothing_open_witness :
  let '(_, s') := end_pod (Crash (Some "OOMKilled")) (ret (Ok ())) 1 busy_pod in
  list_sandbox_terminals_for_pod 1 (db s') = []
  ∧ lost 60 (Build_TerminalCommand 7 3 "a" "make" Running None None 0 None None 5 None) ∈ commands (db s')
  ∧ notified s' = [(7%Z, [Save (crash_notice 1 (Some "OOMKilled")); Wake])].
Proof.
  pose proof (an_ended_pod_leaves_nothing_open (Crash (Some "OOMKilled")) 1 (Build_PodRow 1 7 0 None None None None) busy_pod eq_refl) as H.
  specialize (H busy_pod_ok busy_pod_live ltac:(done)). destruct (end_pod _ _ _ _) as [done_ s'].
  destruct H as (_ & _ & Hrows & _ & Hlost & _ & _ & _ & _ & _ & _ & Hnot). split; [exact Hrows|]. split; [|exact Hnot].
  apply Hlost; [left|done|]. exists (Build_TerminalRow 3 1 0 None). split; [right; left|done].
Defined.

(** ** A delete that fails *)

(** The registry while a pod's delete is awaited, and after it failed. *)
Definition let_back (pod_id : Z) (s : Life) : Life := s <| registry ::= registry_step (TeardownFailed pod_id) |>.
Lemma terminate_pod_as_failed pod_id how e s :
  terminate_pod_as pod_id how (ret (Err e)) s = (Err e, let_back pod_id (disconnected pod_id s)).
Proof. done. Qed.

(** C38. A terminate or a user's stop that fails leaves the pod as it was.  When the cluster's delete fails, or
    the row can't be ended after it, a terminate and the user's stop answer with the error
    and change no record, publish nothing and tell the model nothing; and the pod can be
    connected to again, though its connection is gone. *)
Theorem a_failed_end_changes_nothing (pod_id : Z) (how : PodEnd) (deleted : Result unit SandboxError) (fails : list (option string))
    (e : SandboxError) (s : Life)
    (Hfails : match deleted with Err e' => e = e' | Ok _ => ∃ why, e = Db why ∧ head fails = Some (Some why) end)
    (Hlive : sandbox_pod_is_live pod_id (db s) = true) :
  let unchanged s' := db s' = db s ∧ published s' = published s ∧ pods_changed s' = pods_changed s ∧ notified s' = notified s
                      ∧ pod_id ∉ torn_down (registry s') ∧ registry_get pod_id (registry s') = None in
  (let '(r, s') := terminate_pod_as pod_id how (ret deleted) (s <| faults := fails |>) in r = Err e ∧ unchanged s')
  ∧ (let '(r, s') := stop_pod_for_user_with pod_id (ret deleted) (s <| faults := None :: fails |>) in r = Err (Sandbox e) ∧ unchanged s').
Proof.
  assert (Hend : ∀ how s1, faults s1 = fails →
            let '(r, s') := terminate_pod_as pod_id how (ret deleted) s1 in
            r = Err e ∧ db s' = db s1 ∧ published s' = published s1 ∧ pods_changed s' = pods_changed s1 ∧ notified s' = notified s1
            ∧ pod_id ∉ torn_down (registry s') ∧ registry_get pod_id (registry s') = None).
  { intros how1 s1 Hf. destruct (deregistered pod_id (registry s1)) as [Hreg Htorn].
    unfold terminate_pod_as, try_, db_error, fails_as, andThen, deregister_pod, write. destruct deleted as [[]|e'].
    - destruct Hfails as (why & -> & Hw). destruct fails as [|[w|] f]; cbn in Hw; try done. injection Hw as ->.
      unfold query. cbn [ret]. change (faults (s1 <| registry ::= _ |>)) with (faults s1). rewrite Hf. cbn. conjs; try done. set_solver.
    - subst e'. cbn. conjs; try done. set_solver. }
  split.
  - specialize (Hend how (s <| faults := fails |>) eq_refl). by destruct (terminate_pod_as _ _ _ _) as [r s'].
  - unfold stop_pod_for_user_with, try_, terminal_db_error, fails_as, andThen.
    assert (read (λ _, sandbox_pod_is_live pod_id) (s <| faults := None :: fails |>) = (Ok true, s <| faults := fails |>)) as ->
      by (unfold read, query; cbn; rewrite Hlive; by destruct s).
    cbn [map_err negb ret]. specialize (Hend ByUser (s <| faults := fails |>) eq_refl).
    destruct (terminate_pod_as _ _ _ _) as [r s']. by destruct Hend as (-> & Hrest).
Qed.
Lemma a_failed_end_changes_nothing_witness :
  let '(r, s') := stop_pod_for_user_with 1 (ret (Err (Kube "gone away"))) (busy_pod <| faults := [None] |>) in
  r = Err (Sandbox (Kube "gone away")) ∧ db s' = db busy_pod ∧ notified s' = [].
Proof.
  pose proof (a_failed_end_changes_nothing 1 Plain (Err (Kube "gone away")) [] (Kube "gone away") busy_pod eq_refl eq_refl) as [_ H].
  destruct (stop_pod_for_user_with _ _ _) as [r s']. destruct H as (Hr & Hdb & _ & _ & Hn & _). split; [exact Hr|]. split; [exact Hdb|exact Hn].
Defined.
