(* ===== verification/PodConnect.v ===== *)
(** * PodConnect: connecting to a pod's agent

    [connect_with_retry] of [src/src/sandbox/agent.rs] with its callers and
    [stale_pod_or_unreachable]: up to three attempts to reach a pod's agent, and what each
    way of failing means.  The [AgentDialer] of the source is an interface here too, with
    what each attempt's dial gives and what the cluster answers as its fields; what other
    tasks do to the registry during an attempt is one of them.  The port-forward and the
    handshake are in a dial's outcome. *)

From S2P Require Import Prelude RustStr AgentProtocol SandboxDb PodRegistry PodMessages SandboxErrors PodLifecycle.
Local Open Scope string_scope.

Inductive ConnectMode := First | Reconnect | Startup.
#[export] Instance ConnectMode_eq_dec : EqDecision ConnectMode.
Proof. solve_decision. Defined.

(** [AgentDialer]: what attempt [n] meets.  [dial]: the first message, or why there is no
    stream; [DialTimeout] the whole of it running out.  [meanwhile]: what other tasks do to
    the registry until the dial is through; [ends_early]: whether the socket ends before the
    connection is registered; [image_read]: what they do while the image is read. *)
Inductive Dialled := Opened (first : FirstMessage) | DialFailed (e : SandboxError) | DialTimeout.
Record Dialer := {
  dial : nat → Dialled;
  meanwhile : nat → list RegistryStep;
  ends_early : nat → bool;
  image_read : list RegistryStep;
  pod_running : Result bool SandboxError;
  death_reason : nat → option (option string);
  pod_image : option string;
}.

Definition RECONNECT_ATTEMPTS : nat := 3.

(** [Failed] of [ConnectError], with the error it carries. *)
Inductive Failure := Failed (e : SandboxError) | FoundOld (found : option ProtocolVersion) (certain : bool).

Section Connecting.
Context (parse : string → Result AgentMessage string) (delete : Z → Call (Result unit SandboxError)).
Context (default_sandbox_image row_not_found connection_closed : string) (instance : Result SmeltInstance string).
Context (start_under_way : bool) (dialer : Dialer).

(** [connect], up to the tasks it starts: the connection's id. *)
Definition connect (pod_id : Z) (attempt : nat) : Call (Result nat Failure) :=
  let* conversation := read (λ _, sandbox_pod_conversation_id pod_id) in
  match conversation with
  | Err e => ret (Err (Failed (Db e)))
  | Ok None => ret (Err (Failed (Db row_not_found)))
  | Ok (Some _) =>
      let* _ := write (λ s, s <| registry ::= registry_run (meanwhile dialer attempt) |>) in
      match dial dialer attempt with
      | DialFailed e => ret (Err (Failed e))
      | DialTimeout => ret (Err (Failed AgentConnectTimeout))
      | Opened first =>
          match read_hello parse first with
          | Ok _ =>
              let* id := get (λ s, next_conn (registry s)) in
              let* _ := write (λ s, s <| registry ::= λ r,
                          r <| conns ::= <[id := Build_TerminalConnection pod_id true Reading]> |> <| next_conn ::= S |> |>) in
              let* _ := write (λ s, if ends_early dialer attempt then s <| registry ::= registry_step (SocketEnded id) |> else s) in
              ret (Ok id)
          | Err (PodMessages.Failed e) => ret (Err (Failed (WebSocket e)))
          | Err (OutdatedAgent found certain) => ret (Err (FoundOld found certain))
          end
      end
  end.

Definition stale_pod_or_unreachable (pod_id : Z) : Call TerminalError :=
  let* conversation_id := read (λ _, sandbox_pod_conversation_id pod_id) in
  match conversation_id with
  | Ok (Some conversation_id) =>
      let* live := conversation_pod_id conversation_id in
      ret (match live with
           | Ok live_pod => if (live_pod =? pod_id)%Z then AgentUnreachable else StalePod pod_id live_pod
           | Err _ => AgentUnreachable
           end)
  | _ => ret AgentUnreachable
  end.
Definition leave_pod (pod_id : Z) (reason : option string) : Call (Result nat TerminalError) :=
  let* _ := clean_up_and_terminate_pod delete pod_id reason in
  let* e := stale_pod_or_unreachable pod_id in
  ret (Err e).

Definition register_conn (pod_id : Z) (id : nat) : Call (Result unit Refused) := λ s,
  let '(r, reg) := register pod_id id (registry s) in (r, s <| registry := reg |>).
Definition close_conn (id : nat) : Call unit := write (λ s, s <| registry ::= close id |>).

(** One attempt: its outcome, or the error to go on after. *)
Definition attempt (mode : ConnectMode) (pod_id : Z) (n : nat) : Call (Result nat TerminalError + SandboxError) :=
  let* dialled := connect pod_id n in
  let* failure :=
    match dialled with
    | Ok id =>
        let* registered := register_conn pod_id id in
        match registered with
        | Ok _ => ret (inl (Ok id))
        | Err TornDown => let* _ := close_conn id in ret (inl (Err NoPod))
        | Err Ended => ret (inr (Failed (WebSocket connection_closed)))
        end
    | Err e => ret (inr e)
    end in
  match failure with
  | inl outcome => ret (inl outcome)
  | inr (FoundOld found certain) =>
      let o := Build_Outdated found (pod_image dialer) in
      let* _ := write (λ s, s <| registry ::= registry_run (image_read dialer) |>) in
      let* _ := if certain then write (λ s, s <| registry ::= λ r,
                    if bool_decide (pod_id ∈ torn_down r) then r else r <| outdated ::= <[pod_id := o]> |> |>)
                else ret () in
      ret (inl (Err (outdated_error default_sandbox_image o)))
  | inr (Failed e) =>
      match mode, death_reason dialer n with
      | First, _ | _, None => ret (inr e)
      | _, Some reason => let* r := leave_pod pod_id reason in ret (inl r)
      end
  end.
(** The attempts from [n] on, [remaining] of them. *)
Fixpoint attempts (mode : ConnectMode) (pod_id : Z) (n remaining : nat) (last_err : option SandboxError) : Call (Result nat TerminalError) :=
  match remaining with
  | S remaining =>
      let* tried := attempt mode pod_id n in
      match tried with
      | inl outcome => ret outcome
      | inr e => attempts mode pod_id (S n) remaining (Some e)
      end
  | O =>
      match mode with
      | First => ret (Err (match last_err with Some e => Sandbox e | None => AgentUnreachable end))
      | Startup => ret (Err AgentUnreachable)
      | Reconnect => leave_pod pod_id None
      end
  end.

Definition known_outdated (pod_id : Z) (s : Life) : option TerminalError :=
  match outdated (registry s) !! pod_id with
  | Some o => if is_some (image o) then Some (outdated_error default_sandbox_image o) else None
  | None => None
  end.
(** What is checked before dialling, the connect lock held. *)
Definition connect_locked (mode : ConnectMode) (pod_id : Z) : Call (Result nat TerminalError) :=
  let* connected := get (λ s, registry_get pod_id (registry s)) in
  match connected with
  | Some id => ret (Ok id)
  | None =>
      let* known := get (known_outdated pod_id) in
      match known with
      | Some e => ret (Err e)
      | None =>
          if negb (bool_decide (mode = First)) && start_under_way then ret (Err NoPod)
          else
            let?* _ := terminal_db_error (ret instance) in
            let* known := get (λ s, outdated (registry s) !! pod_id) in
            match known with
            | Some o =>
                let o := Build_Outdated (found o) (pod_image dialer) in
                let* _ := write (λ s, s <| registry ::= registry_run (image_read dialer) |>) in
                let* _ := write (λ s, s <| registry ::= registry_step (ImageRead pod_id (pod_image dialer)) |>) in
                ret (Err (outdated_error default_sandbox_image o))
            | None =>
                match mode, pod_running dialer with
                | First, Err e => ret (Err (Sandbox e))
                | First, Ok false => ret (Err NoPod)
                | _, _ => attempts mode pod_id 0 RECONNECT_ATTEMPTS None
                end
            end
      end
  end.
Definition connect_with_retry (pod_id : Z) (mode : ConnectMode) : Call (Result nat TerminalError) :=
  let* known := get (known_outdated pod_id) in
  match known with Some e => ret (Err e) | None => connect_locked mode pod_id end.

Definition reconnect_if_needed (pod_id : Z) : Call (Result nat TerminalError) :=
  let* connected := get (λ s, registry_get pod_id (registry s)) in
  match connected with Some id => ret (Ok id) | None => connect_with_retry pod_id Reconnect end.
Definition ensure_pod_connection (pod_id : Z) : Call (Result nat TerminalError) :=
  let* connected := get (λ s, registry_get pod_id (registry s)) in
  match connected with Some id => ret (Ok id) | None => connect_with_retry pod_id First end.
(** [connecting]: another caller holds the pod's connect lock. *)
Definition try_reconnect (connecting : bool) (pod_id : Z) : Call unit :=
  let* known := get (λ s, is_some (registry_get pod_id (registry s)) || is_some (known_outdated pod_id s)) in
  if known || connecting then ret () else let* _ := reconnect_if_needed pod_id in ret ().
End Connecting.

(** ** Calls that change no record and tell nobody *)

Definition told (s : Life) := (db s, published s, pods_changed s, notified s, saved s).
Definition keeps {T} (m : Call T) : Prop := ∀ s, told (snd (m s)) = told s.

Lemma keeps_ret {T} (x : T) : keeps (ret x).
Proof. done. Qed.
Lemma keeps_get {T} (f : Life → T) : keeps (get f).
Proof. done. Qed.
Lemma keeps_bind {T U} (m : Call T) (k : T → Call U) : keeps m → (∀ x, keeps (k x)) → keeps (andThen m k).
Proof. intros Hm Hk s. unfold andThen. specialize (Hm s). destruct (m s) as [x s1]. cbn in Hm. by rewrite Hk. Qed.
Lemma keeps_try {T U E} (m : Call (Result T E)) (k : T → Call (Result U E)) : keeps m → (∀ x, keeps (k x)) → keeps (try_ m k).
Proof. intros Hm Hk. apply keeps_bind; [done|]. intros [x|e]; [apply Hk|apply keeps_ret]. Qed.
Lemma keeps_fails_as {T E F} (f : E → F) (m : Call (Result T E)) : keeps m → keeps (fails_as f m).
Proof. intros Hm. apply keeps_bind; [done|]. intros. apply keeps_ret. Qed.
Lemma keeps_read {T} (f : Z → SandboxDb → T) : keeps (read f).
Proof. intros s. unfold read, query. destruct (faults s) as [|[e|] rest]; by destruct s. Qed.
Lemma keeps_registry (f : Registry → Registry) : keeps (write (λ s, s <| registry ::= f |>)).
Proof. done. Qed.
Ltac keep :=
  repeat (intros; first [assumption | lazymatch goal with
  | |- keeps (ret _) => apply keeps_ret
  | |- keeps (get _) => apply keeps_get
  | |- keeps (read _) => apply keeps_read
  | |- keeps (write (λ s, set_field registry _ s)) => apply keeps_registry
  | |- keeps (andThen _ _) => apply keeps_bind
  | |- keeps (try_ _ _) => apply keeps_try
  | |- keeps (fails_as _ _) => apply keeps_fails_as
  | |- keeps (match _ with _ => _ end) => case_match
  end]).

Section Facts.
Context (parse : string → Result AgentMessage string) (delete : Z → Call (Result unit SandboxError)).
Context (default_sandbox_image row_not_found connection_closed : string) (instance : Result SmeltInstance string).

Notation connect_with_retry' := (connect_with_retry parse delete default_sandbox_image row_not_found connection_closed instance).
Notation attempts' := (attempts parse delete default_sandbox_image row_not_found connection_closed).
Notation attempt' := (attempt parse delete default_sandbox_image row_not_found connection_closed).
Notation connect' := (connect parse row_not_found).

Lemma keeps_connect dialer pod_id n : keeps (connect' dialer pod_id n).
Proof. unfold connect. keep; intros s; unfold write; cbn; by destruct (ends_early dialer n). Qed.
Lemma keeps_register pod_id id : keeps (register_conn pod_id id).
Proof. intros s. unfold register_conn. by destruct (register pod_id id (registry s)). Qed.
Lemma keeps_attempt dialer mode pod_id n : mode = First ∨ death_reason dialer n = None → keeps (attempt' dialer mode pod_id n).
Proof.
  intros Hmode. unfold attempt. apply keeps_bind; [apply keeps_connect|]. intros dialled. apply keeps_bind.
  - destruct dialled; [|keep]. apply keeps_bind; [apply keeps_register|]. unfold close_conn; keep.
  - intros [o|[e|found certain]]; [keep| |destruct certain; keep].
    destruct mode, (death_reason dialer n); try apply keeps_ret; by destruct Hmode.
Qed.
Lemma keeps_attempts dialer mode pod_id n remaining last_err : mode ≠ Reconnect →
  (mode = First ∨ ∀ i, n ≤ i < n + remaining → death_reason dialer i = None) →
  keeps (attempts' dialer mode pod_id n remaining last_err).
Proof.
  intros Hm. revert n last_err. induction remaining as [|remaining IH]; intros n last_err Hd; cbn [attempts].
  - destruct mode; [keep|done|keep].
  - apply keeps_bind.
    + apply keeps_attempt. destruct Hd as [|Hd]; [by left|right; apply Hd; lia].
    + intros [o|e]; [keep|]. apply IH. destruct Hd as [|Hd]; [by left|right; intros i Hi; apply Hd; lia].
Qed.

(** What an attempt that connects leaves. *)
Lemma attempt_connected dialer mode pod_id n s id s' : attempt' dialer mode pod_id n s = (inl (Ok id), s') →
  registry_get pod_id (registry s') = Some id ∧ pod_id ∉ torn_down (registry s').
Proof.
  unfold attempt, andThen. destruct (connect' dialer pod_id n s) as [[conn|f] s1].
  - unfold register_conn. destruct (register pod_id conn (registry s1)) as [[[]|[]] reg] eqn:Hr; cbn.
    + intros [= <- <-]. unfold register in Hr. destruct (bool_decide_reflect (pod_id ∈ torn_down (registry s1))); [done|].
      destruct (conns (registry s1) !! conn) as [c|]; [|done]. destruct (negb (takes_requests c)); [done|]. injection Hr as <-.
      split; [|done]. unfold registry_get. cbn. apply lookup_insert_eq.
    + done.
    + destruct mode, (death_reason dialer n) as [reason|]; unfold leave_pod, andThen, ret; repeat case_match; try done; congruence.
  - destruct f as [e|found certain]; cbn.
    + destruct mode, (death_reason dialer n) as [reason|]; unfold leave_pod, andThen, ret; repeat case_match; try done; congruence.
    + unfold write. by destruct certain.
Qed.
Lemma attempts_connected dialer mode pod_id remaining n last_err s id s' : attempts' dialer mode pod_id n remaining last_err s = (Ok id, s') →
  registry_get pod_id (registry s') = Some id ∧ pod_id ∉ torn_down (registry s').
Proof.
  revert n last_err s. induction remaining as [|remaining IH]; intros n last_err s; cbn [attempts].
  - destruct mode; unfold leave_pod, andThen, ret; repeat case_match; try done; congruence.
  - unfold andThen. destruct (attempt' dialer mode pod_id n s) as [[o|e] s1] eqn:Ha; cbn; [|apply IH].
    intros [= -> ->]. by eapply attempt_connected.
Qed.
Lemma attempts_first dialer dialer' mode pod_id remaining n last_err s :
  (∀ i, n ≤ i < n + remaining → dial dialer i = dial dialer' i ∧ meanwhile dialer i = meanwhile dialer' i
                                 ∧ ends_early dialer i = ends_early dialer' i ∧ death_reason dialer i = death_reason dialer' i) →
  pod_image dialer = pod_image dialer' → image_read dialer = image_read dialer' →
  attempts' dialer mode pod_id n remaining last_err s = attempts' dialer' mode pod_id n remaining last_err s.
Proof.
  revert n last_err s. induction remaining as [|remaining IH]; intros n last_err s Hd Hi Hr; [done|]. cbn [attempts]. unfold andThen.
  destruct (Hd n ltac:(lia)) as (H1 & H2 & H3 & H4).
  assert (connect' dialer pod_id n s = connect' dialer' pod_id n s) as Hc by (unfold connect; by rewrite H1, H2, H3).
  assert (attempt' dialer mode pod_id n s = attempt' dialer' mode pod_id n s) as ->
    by (unfold attempt, andThen; rewrite Hc, H4, Hi, Hr; done).
  destruct (attempt' dialer' mode pod_id n s) as [[o|e] s1]; [done|]. apply IH; [|done..]. intros i Hle. apply Hd. lia.
Qed.

Lemma keeps_connect_with_retry dialer start_under_way mode pod_id :
  mode = First ∨ mode = Startup ∧ (∀ n, (n < 3)%nat → death_reason dialer n = None) → keeps (connect_with_retry' start_under_way dialer pod_id mode).
Proof.
  intros Hm. unfold connect_with_retry, connect_locked, terminal_db_error.
  assert (keeps (attempts' dialer mode pod_id 0 RECONNECT_ATTEMPTS None)) as Hat.
  { apply keeps_attempts; [by destruct Hm as [->|[-> _]]|]. destruct Hm as [|[_ Hd]]; [by left|right]. intros i [_ Hi]. by apply Hd. }
  keep; congruence.
Qed.
(** A connect that gives a connection has stopped nothing. *)
Lemma give_up_errs pod_id reason s : ∃ e, fst (leave_pod delete pod_id reason s) = Err e.
Proof.
  unfold leave_pod, andThen. destruct (clean_up_and_terminate_pod delete pod_id reason s) as [[] s1].
  destruct (stale_pod_or_unreachable pod_id s1) as [e s2]. by exists e.
Qed.
Lemma attempt_keeps_or_errs dialer mode pod_id n s o s' : attempt' dialer mode pod_id n s = (o, s') → told s' = told s ∨ ∃ e, o = inl (Err e).
Proof.
  intros Ha. destruct (decide (mode = First ∨ death_reason dialer n = None)) as [Hq|Hd].
  { left. pose proof (keeps_attempt dialer mode pod_id n Hq s) as Hk. by rewrite Ha in Hk. }
  destruct (death_reason dialer n) as [reason|] eqn:Hr; [|tauto].
  unfold attempt, andThen in Ha. pose proof (keeps_connect dialer pod_id n s) as Hk. destruct (connect' dialer pod_id n s) as [[id|f] s1]; cbn in Hk.
  - unfold register_conn in Ha. destruct (register pod_id id (registry s1)) as [[[]|[]] reg]; cbn in Ha; try (injection Ha as <- <-; by left).
    rewrite Hr in Ha. right. destruct mode; [tauto|..]; unfold andThen in Ha; destruct (give_up_errs pod_id reason (s1 <| registry := reg |>)) as [e He];
      (change (set_field registry _ s1) with (s1 <| registry := reg |>) in Ha || idtac); destruct (leave_pod _ _ _ _) as [r s2]; cbn in He; subst r; injection Ha as <- <-; by exists e.
  - destruct f as [e|found certain]; cbn in Ha.
    + rewrite Hr in Ha. right. destruct mode; [tauto|..]; unfold andThen in Ha; destruct (give_up_errs pod_id reason s1) as [e1 He];
        destruct (leave_pod _ _ _ _) as [r s2]; cbn in He; subst r; injection Ha as <- <-; by exists e1.
    + right. destruct certain; injection Ha as <- <-; by eexists.
Qed.
Lemma attempts_ok_keeps dialer mode pod_id remaining n last_err s id s' : attempts' dialer mode pod_id n remaining last_err s = (Ok id, s') → told s' = told s.
Proof.
  revert n last_err s. induction remaining as [|remaining IH]; intros n last_err s; cbn [attempts].
  - destruct mode; [done|  |done]. intros Hg. destruct (give_up_errs pod_id None s) as [e He]. by rewrite Hg in He.
  - unfold andThen. destruct (attempt' dialer mode pod_id n s) as [o s1] eqn:Ha. apply attempt_keeps_or_errs in Ha as [Hk|[e ->]]; [|done].
    destruct o as [o|e]; [intros [= -> <-]; done|]. intros Hat. apply IH in Hat. congruence.
Qed.
Lemma connect_ok_keeps dialer start_under_way mode pod_id s id s' :
  connect_with_retry' start_under_way dialer pod_id mode s = (Ok id, s') → told s' = told s.
Proof.
  unfold connect_with_retry, connect_locked, try_, terminal_db_error, fails_as, andThen, get, ret.
  destruct (known_outdated default_sandbox_image pod_id s) eqn:Hk; [done|]. cbv beta iota zeta.
  destruct (registry_get pod_id (registry s)); [by intros [= _ <-]|]. rewrite Hk. destruct (negb (bool_decide (mode = First)) && start_under_way); [done|].
  destruct instance; [|done]. cbn [map_err]. destruct (outdated (registry s) !! pod_id); [done|].
  intros Hc. assert (attempts' dialer mode pod_id 0 RECONNECT_ATTEMPTS None s = (Ok id, s')) as Ha%attempts_ok_keeps; [|done].
  destruct mode, (pod_running dialer) as [[]|]; done.
Qed.

(** Connecting never stops a pod for merely not answering, unless a caller needs it.
    A terminal's first connect, and the one at startup while the cluster confirms no death,
    change no record and tell nobody, however they end.  A connection answered is the one
    registered for the pod, and of a pod not torn down if it is a new one.  A pod still
    starting is left alone by every later caller.  And three attempts are all that is made:
    what a fourth would meet changes nothing. *)
Theorem connecting_spares_live_pods (dialer : Dialer) (start_under_way : bool) (mode : ConnectMode) (pod_id : Z) (s : Life) :
  let '(r, s') := connect_with_retry' start_under_way dialer pod_id mode s in
  (mode = First ∨ mode = Startup ∧ (∀ n, (n < 3)%nat → death_reason dialer n = None) → told s' = told s)
  ∧ (∀ id, r = Ok id → registry_get pod_id (registry s') = Some id
       ∧ (registry_get pod_id (registry s) = Some id ∨ pod_id ∉ torn_down (registry s')))
  ∧ (start_under_way = true → mode ≠ First → told s' = told s ∧ registry s' = registry s
       ∧ ∀ id, r = Ok id → registry_get pod_id (registry s) = Some id)
  ∧ (∀ dialer', pod_running dialer' = pod_running dialer → pod_image dialer' = pod_image dialer → image_read dialer' = image_read dialer →
       (∀ n, (n < 3)%nat → dial dialer' n = dial dialer n ∧ meanwhile dialer' n = meanwhile dialer n
                      ∧ ends_early dialer' n = ends_early dialer n ∧ death_reason dialer' n = death_reason dialer n) →
       connect_with_retry' start_under_way dialer' pod_id mode s = (r, s')).
Proof.
  destruct (connect_with_retry' start_under_way dialer pod_id mode s) as [r s'] eqn:Hc.
  unfold connect_with_retry, connect_locked, andThen, get, ret in Hc. cbv beta iota zeta in Hc. conjs.
  - intros Hm. pose proof (keeps_connect_with_retry dialer start_under_way mode pod_id Hm s) as Hk.
    unfold connect_with_retry, connect_locked, andThen, get, ret in Hk. cbv beta iota zeta in Hk. by rewrite Hc in Hk.
  - intros id ->. destruct (known_outdated default_sandbox_image pod_id s) eqn:Hk; [done|]. cbv beta iota zeta in Hc.
    destruct (registry_get pod_id (registry s)) as [id0|] eqn:Hreg.
    { cbn in Hc. injection Hc as -> <-. rewrite Hreg. split; [done|by left]. }
    rewrite Hk in Hc. destruct (negb (bool_decide (mode = First)) && start_under_way); [done|].
    unfold try_, terminal_db_error, fails_as, andThen, ret in Hc. destruct instance; cbn in Hc; [|done].
    destruct (outdated (registry s) !! pod_id); [done|].
    assert (attempts' dialer mode pod_id 0 RECONNECT_ATTEMPTS None s = (Ok id, s')) as [H1 H2]%attempts_connected; [|split; [done|by right]].
    destruct mode, (pod_running dialer) as [[]|]; done.
  - intros -> Hm. destruct (known_outdated default_sandbox_image pod_id s) eqn:Hk; [injection Hc as <- <-; by conjs|]. cbv beta iota zeta in Hc.
    destruct (registry_get pod_id (registry s)) as [id0|]; [injection Hc as <- <-; conjs; naive_solver|].
    rewrite Hk in Hc. rewrite bool_decide_false in Hc by done. injection Hc as <- <-. by conjs.
  - intros dialer' Hrun Hi Hr Hd. rewrite <-Hc. unfold connect_with_retry, connect_locked, andThen, get, try_, terminal_db_error, fails_as, andThen, ret.
    rewrite Hrun, Hi, Hr.
    assert (∀ s, attempts' dialer' mode pod_id 0 RECONNECT_ATTEMPTS None s = attempts' dialer mode pod_id 0 RECONNECT_ATTEMPTS None s) as Hat.
    { intros s1. apply attempts_first; [|done..]. intros i [_ Hle]. destruct (Hd i Hle) as (? & ? & ? & ?). by conjs. }
    repeat (case_match; try done); rewrite Hat; done.
Qed.
End Facts.

(** ** Giving up on a pod *)

(** A dial that gets no message, and so is worth another. *)
Definition never_opens (d : Dialled) : Prop :=
  match d with Opened (SocketFailed _) | DialFailed _ | DialTimeout => True | _ => False end.
(** The reason the cluster gave at the first attempt it confirmed the death at, in [fuel]
    attempts from [n]; else none. *)
Fixpoint verdict (dialer : Dialer) (n fuel : nat) : option string :=
  match fuel with
  | O => None
  | S fuel => match death_reason dialer n with Some reason => reason | None => verdict dialer (S n) fuel end
  end.
(** What a caller is told of a pod given up on, by the records after. *)
Definition given_up_error (pod_id conversation_id : Z) (d : SandboxDb) : TerminalError :=
  match list_sandbox_pods conversation_id d with
  | q :: _ => if (pod_row q =? pod_id)%Z then AgentUnreachable else StalePod pod_id (pod_row q)
  | [] => AgentUnreachable
  end.
(** What giving up on [pod_id], live in [s], leaves. *)
Definition given_up (pod_id : Z) (p : PodRow) (reason : option string) (s : Life) (r : Result nat TerminalError) (s' : Life) : Prop :=
  db s' = ended_records (now s) pod_id Plain (map terminal_row (list_sandbox_terminals_for_pod pod_id (db s))) (db s)
  ∧ r = Err (given_up_error pod_id (pod_conversation p) (db s'))
  ∧ notified s' = app (notified s) [(pod_conversation p, crash_notices pod_id reason (had_terminals pod_id s))]
  ∧ gone_from pod_id (registry s').

Lemma give_up_ok pod_id p reason s : faults s = [] → records_ok (db s) → live_pod_row pod_id p (db s) →
  let '(r, s') := leave_pod (λ _, ret (Ok ())) pod_id reason s in given_up pod_id p reason s r s'.
Proof.
  intros Hf Hok Hlive. unfold leave_pod, stale_pod_or_unreachable, andThen. rewrite (crash_ok pod_id p) by done.
  match goal with |- context [row_ended pod_id Plain p ?x] => set (s1 := row_ended pod_id Plain p x) end.
  assert (Hf1 : faults s1 = []) by done. rewrite read_ok by done.
  assert (sandbox_pod_conversation_id pod_id (db s1) = Some (pod_conversation p)) as ->.
  { rewrite <-(proj1 (pod_found _ _ _ Hlive)). exact (conversation_kept pod_id _ Plain (now s) (db s)). }
  unfold conversation_pod_id, try_, terminal_db_error, fails_as, andThen. rewrite read_ok by done. cbn [map_err ret].
  unfold given_up, given_up_error. destruct (list_sandbox_pods (pod_conversation p) (db s1)) as [|q rows]; cbn [resolve_pod_id].
  - conjs; [done..|apply deregistered].
  - conjs; [done| |done|apply deregistered]. by destruct (pod_row q =? pod_id)%Z.
Qed.
Lemma given_up_same pod_id p reason s1 s r s' : told s1 = told s → now s1 = now s → given_up pod_id p reason s1 r s' → given_up pod_id p reason s r s'.
Proof. intros [= Hd _ _ Hn _] Hnow (H1 & H2 & H3 & H4). unfold given_up, had_terminals in *. rewrite Hd, Hnow, Hn in *. by conjs. Qed.

Section GivingUp.
Context (parse : string → Result AgentMessage string) (image row_not_found connection_closed : string) (instance : SmeltInstance).
Context (dialer : Dialer) (pod_id : Z) (p : PodRow) (Hdials : ∀ n, n < 3 → never_opens (dial dialer n)).

(** After [meanwhile]. *)
Definition waited (n : nat) (s : Life) : Life := s <| registry ::= registry_run (meanwhile dialer n) |>.
Lemma attempt_fails n s : (n < 3)%nat → faults s = [] → live_pod_row pod_id p (db s) →
  ∃ e, attempt parse (λ _, ret (Ok ())) image row_not_found connection_closed dialer Reconnect pod_id n s
       = match death_reason dialer n with
         | None => (inr e, waited n s)
         | Some reason => let '(r, s') := leave_pod (λ _, ret (Ok ())) pod_id reason (waited n s) in (inl r, s')
         end.
Proof.
  intros Hn Hf Hlive. specialize (Hdials n Hn). unfold attempt, connect, andThen. rewrite read_ok by done.
  rewrite (proj1 (pod_found _ _ _ Hlive)). unfold write, ret. fold (waited n s). destruct (dial dialer n) as [first|e|]; [|eexists e..|eexists AgentConnectTimeout].
  - destruct first as [text|e|]; try done. exists (WebSocket e). cbn. by destruct (death_reason dialer n).
  - by destruct (death_reason dialer n).
  - by destruct (death_reason dialer n).
Qed.
Lemma attempts_fail fuel n last_err s : (n + fuel ≤ 3)%nat → faults s = [] → records_ok (db s) → live_pod_row pod_id p (db s) →
  let '(r, s') := attempts parse (λ _, ret (Ok ())) image row_not_found connection_closed dialer Reconnect pod_id n fuel last_err s in
  given_up pod_id p (verdict dialer n fuel) s r s'.
Proof.
  revert n last_err s. induction fuel as [|fuel IH]; intros n last_err s Hn Hf Hok Hlive; cbn [attempts verdict]; [by apply give_up_ok|].
  unfold andThen. destruct (attempt_fails n s ltac:(lia) Hf Hlive) as (e & ->). destruct (death_reason dialer n) as [reason|].
  - pose proof (give_up_ok pod_id p reason (waited n s) Hf Hok Hlive) as Hg. destruct (leave_pod _ _ _ _) as [r s']. by eapply given_up_same.
  - specialize (IH (S n) (Some e) (waited n s) ltac:(lia) Hf Hok Hlive). destruct (attempts _ _ _ _ _ _ _ _ _ _ _) as [r s']. by eapply given_up_same.
Qed.

(** A pod whose agent can't be reached is stopped, and its caller told what to do.  When
    every attempt of a caller that needs the agent fails, or the cluster confirms the death
    at one, the pod is ended like a crash, with the reason the cluster gave, its terminals
    closed and commands lost; it is disconnected for good; and the caller is told of the
    conversation's live pod if it has another, else that none runs. *)
Theorem an_unreachable_pod_is_stopped (s : Life) (Hup : faults s = []) (Hok : records_ok (db s)) (Hlive : live_pod_row pod_id p (db s))
    (Hnew : registry_get pod_id (registry s) = None ∧ outdated (registry s) !! pod_id = None) :
  let '(r, s') := connect_with_retry parse (λ _, ret (Ok ())) image row_not_found connection_closed (Ok instance) false dialer pod_id Reconnect s in
  given_up pod_id p (verdict dialer 0 3) s r s'
  ∧ ((∀ q, q ∈ pods (db s) → pod_conversation q = pod_conversation p → pod_live q = true → pod_row q = pod_id) → r = Err AgentUnreachable).
Proof.
  destruct Hnew as [Hreg Hout]. unfold connect_with_retry, connect_locked, known_outdated, andThen, get, try_, terminal_db_error, fails_as, andThen, ret.
  rewrite Hout, Hreg. cbv beta iota zeta. rewrite Hout. cbn [negb bool_decide andb map_err]. rewrite andb_false_r. cbv beta iota zeta. rewrite Hout.
  pose proof (attempts_fail 3 0 None s ltac:(lia) Hup Hok Hlive) as Ha. unfold ret in Ha. change RECONNECT_ATTEMPTS with 3.
  destruct (attempts _ _ _ _ _ _ _ _ _ _ _) as [r s']. split; [done|]. intros Hone. destruct Ha as (Hdb & -> & _ & _). f_equal.
  unfold given_up_error. assert (list_sandbox_pods (pod_conversation p) (db s') = []) as ->; [|done].
  apply list_filter_none, Forall_forall. intros q Hq. rewrite Hdb in Hq. apply in_update in Hq as (q0 & Hq0 & ->).
  destruct (Z.eqb_spec (pod_row q0) pod_id) as [E|E]; [apply andb_false_r|].
  destruct (Z.eqb_spec (pod_conversation q0) (pod_conversation p)) as [Ec|]; [|done]. cbn. apply not_true_is_false. intros Hl. by apply E, Hone.
Qed.
End GivingUp.

(** Three dials refused, and a pod the cluster knows to have run out of memory by the second. *)
Definition refusing : Dialer :=
  Build_Dialer (λ _, DialFailed (Kube "refused")) (λ _, []) (λ _, false) [] (Ok true)
    (λ n, if Nat.eqb n 1 then Some (Some "OOMKilled") else None) None.
Lemma an_unreachable_pod_is_stopped_witness :
  let '(r, s') := connect_with_retry (λ _, Err "") (λ _, ret (Ok ())) "img" "none" "closed" (Ok (Build_SmeltInstance "a" false)) false refusing 1 Reconnect busy_pod in
  r = Err AgentUnreachable ∧ notified s' = [(7%Z, [Save (crash_notice 1 (Some "OOMKilled")); Wake])].
Proof.
  pose proof (an_unreachable_pod_is_stopped (λ _, Err "") "img" "none" "closed" (Build_SmeltInstance "a" false) refusing 1
    (Build_PodRow 1 7 0 None None None None) ltac:(by intros n Hn) busy_pod eq_refl) as H.
  specialize (H busy_pod_ok busy_pod_live ltac:(done)). destruct (connect_with_retry _ _ _ _ _ _ _ _ _ _ _) as [r s'].
  destruct H as [(_ & _ & Hn & _) Hr]. split; [|exact Hn]. apply Hr. intros q Hq He _.
  apply elem_of_cons in Hq as [->| ->%list_elem_of_singleton]; [done|]. by cbn in He.
Defined.
