(* ===== verification/Terminals.v ===== *)
(** * Terminals: opening and closing them, and starting commands in them

    [src/src/sandbox/files.rs]: [create_terminal], [terminate_terminal], [list_terminals],
    [send_command], [refuse_stale_terminal], [run_command] and [send_signal].  They reach a
    pod's agent through [AgentLink], the interface of the connections: a connect that at
    most ends commands, and changes no record when it connects, a request and a send.  [PodConnect] implements it. *)

From S2P Require Import Prelude RustStr McpCalls AgentProtocol ChatPage PodRequests SandboxDb PodRegistry PodMessages SandboxErrors PodLifecycle PodConnect.
Local Open Scope string_scope.

(** ** The interface *)

(** Commands only end from [d] to [d']: none is started, renamed or moved. *)
Definition only_ends (d d' : SandboxDb) : Prop :=
  Forall2 (λ c c', command_id c' = command_id c ∧ command_terminal c' = command_terminal c ∧ (is_running c' = true → c' = c))
    (commands d) (commands d').
Definition ends_only {T} (m : Call T) : Prop := ∀ s, only_ends (db s) (db (snd (m s))).

(** [reconnect], [ensure]: [reconnect_if_needed], [ensure_pod_connection]. *)
Class AgentLink := {
  reconnect : Z → Call (Result nat TerminalError);
  ensure : Z → Call (Result nat TerminalError);
  request : nat → (Z → ClientMessage) → Call Outcome;
  send_message : nat → ClientMessage → Call (Result unit AgentRequestError);
  conversation_of : nat → Z;
  reconnect_ends pod_id : ends_only (reconnect pod_id);
  reconnect_connected pod_id s conn s' : reconnect pod_id s = (Ok conn, s') → told s' = told s;
  ensure_keeps pod_id : keeps (ensure pod_id);
  request_keeps conn build : keeps (request conn build);
  send_keeps conn message : keeps (send_message conn message);
}.

(** ** Facts on the interface *)

Lemma only_ends_refl d : only_ends d d.
Proof. unfold only_ends. induction (commands d); constructor; auto. Qed.
Lemma only_ends_trans d1 d2 d3 : only_ends d1 d2 → only_ends d2 d3 → only_ends d1 d3.
Proof.
  unfold only_ends. generalize (commands d1), (commands d2), (commands d3). intros l1 l2 l3 H12. revert l3.
  induction H12 as [|c1 c2 l1 l2 (? & ? & Hc) _ IH]; intros l3 H23; inversion H23 as [|? c3 ? l3' (? & ? & Hc') Hl]; subst; constructor; [|by apply IH].
  conjs; [congruence..|]. intros Hr. specialize (Hc' Hr). subst c3. by apply Hc.
Qed.
Lemma only_ends_update d p f : (∀ c, command_id (f c) = command_id c ∧ command_terminal (f c) = command_terminal c ∧ is_running (f c) = false) →
  only_ends d (d <| commands ::= update_where p f |>).
Proof.
  intros Hf. unfold only_ends, set_field. cbn. induction (commands d) as [|c l IH]; constructor; [|done].
  destruct (Hf c) as (? & ? & Hr). destruct (p c); [|done]. conjs; [done..|]. by rewrite Hr.
Qed.
Lemma only_ends_records_ok d d' : only_ends d d' → records_ok d → records_ok d'.
Proof.
  intros Hends [Hids Hone]. assert (Hold : ∀ c', c' ∈ commands d' → is_running c' = true → c' ∈ commands d).
  { intros c' Hc' Hr. destruct (proj1 (list_elem_of_lookup _ _) Hc') as [i Hi].
    destruct (Forall2_lookup_r _ _ _ _ _ Hends Hi) as (c & Hi' & _ & _ & Hc). rewrite (Hc Hr). by eapply list_elem_of_lookup_2. }
  split.
  - assert (map command_id (commands d') = map command_id (commands d)) as ->; [|done].
    clear Hids Hone Hold. unfold only_ends in Hends. induction Hends as [|c c' l l' (He & _) _ IH]; [done|]. cbn. by rewrite He, IH.
  - intros c1 c2 H1 H2 Ht Hr1 Hr2. apply Hone; auto.
Qed.
Lemma ends_only_keeps {T} (m : Call T) : keeps m → ends_only m.
Proof. intros Hk s. pose proof (f_equal (λ x, fst (fst (fst (fst x)))) (Hk s)) as Hd. cbn in Hd. rewrite Hd. apply only_ends_refl. Qed.
Lemma ends_only_bind {T U} (m : Call T) (k : T → Call U) : ends_only m → (∀ x, ends_only (k x)) → ends_only (andThen m k).
Proof. intros Hm Hk s. unfold andThen. specialize (Hm s). destruct (m s) as [x s1]. eapply only_ends_trans; [exact Hm|apply Hk]. Qed.
Lemma ends_only_try {T U E} (m : Call (Result T E)) (k : T → Call (Result U E)) : ends_only m → (∀ x, ends_only (k x)) → ends_only (try_ m k).
Proof. intros Hm Hk. apply ends_only_bind; [done|]. intros [x|e]; [apply Hk|by apply ends_only_keeps]. Qed.
Lemma ends_only_query {T} (f : Z → SandboxDb → T * SandboxDb) : (∀ now d, only_ends d (snd (f now d))) → ends_only (query f).
Proof.
  intros Hf s. unfold query. specialize (Hf (now s) (db s)).
  destruct (faults s) as [|[e|] rest]; [|apply only_ends_refl|]; by destruct (f (now s) (db s)).
Qed.
Lemma ends_only_lost id : ends_only (update (λ now, mark_terminal_command_lost now id)).
Proof. apply ends_only_query. intros now d. by apply only_ends_update. Qed.
Lemma ends_only_same {T} (f : Z → SandboxDb → T * SandboxDb) : (∀ now d, commands (snd (f now d)) = commands d) → ends_only (query f).
Proof. intros Hf. apply ends_only_query. intros now d. unfold only_ends. rewrite Hf. apply only_ends_refl. Qed.
Lemma keeps_publish_ends conversation_id event : ends_only (publish conversation_id event).
Proof. intros s. apply only_ends_refl. Qed.

Section Terminals.
Context {link : AgentLink}.
(** What the database says of a row it refuses, and the errors' texts. *)
Context (refused : string) (error_text : TerminalError → string).

Definition inserted {T} (m : Call (Result (Result T unit) string)) : Call (Result T TerminalError) :=
  let* r := m in
  ret (match r with Ok (Ok row) => Ok row | Ok (Err _) => Err (Sandbox (Db refused)) | Err e => Err (Sandbox (Db e)) end).

(** ** Terminals *)

Definition create_terminal (conversation_id : Z) : Call (Result Z TerminalError) :=
  let?* pod_id := conversation_pod_id conversation_id in
  let?* conn := ensure pod_id in
  let?* row := inserted (query (λ now, create_sandbox_terminal now pod_id)) in
  let terminal_id := terminal_row row in
  let* created := request conn (λ request_id, CreateTerminal request_id (show_i64 terminal_id)) in
  match expect_reply created "create_terminal" pick_created with
  | Err e =>
      let* _ := update (λ now, terminate_sandbox_terminal now terminal_id) in
      ret (Err (AgentFailed e))
  | Ok _ =>
      let* _ := publish (conversation_of conn) (SandboxTerminalUpdate pod_id terminal_id "connected" false) in
      ret (Ok terminal_id)
  end.
Definition terminate_terminal (terminal_id : Z) : Call (Result unit TerminalError) :=
  let?* pod_id := terminal_db_error (read (λ _, sandbox_terminal_pod_id terminal_id)) in
  match pod_id with
  | None => ret (Err NoTerminal)
  | Some pod_id =>
      let?* live := terminal_db_error (read (λ _, list_sandbox_terminals_for_pod pod_id)) in
      if negb (existsb (λ t, (terminal_row t =? terminal_id)%Z) live) then ret (Ok ())
      else
        let* running := read (λ _, terminal_command_is_running terminal_id) in
        match running with
        | Ok (Some _) => ret (Err CommandStillRunning)
        | _ =>
            let?* conn := reconnect pod_id in
            let* terminated := request conn (λ request_id, TerminateTerminal request_id (show_i64 terminal_id)) in
            match expect_reply terminated "terminate_terminal" pick_terminated with
            | Err e => ret (Err (AgentFailed e))
            | Ok _ =>
                let?* _ := terminal_db_error (update (λ now, terminate_sandbox_terminal now terminal_id)) in
                let* _ := publish (conversation_of conn) (SandboxTerminalUpdate pod_id terminal_id "disconnected" true) in
                ret (Ok ())
            end
        end
  end.
Record TerminalInfo := { ti_terminal_id : Z; ti_pod_id : Z; ti_status : string }.
Definition list_terminals (conversation_id : Z) : Call (Result (list TerminalInfo) SandboxError) :=
  let?* rows := db_error (read (λ _, list_sandbox_terminals_for_conversation conversation_id)) in
  let* r := get registry in
  ret (Ok (map (λ t, Build_TerminalInfo (terminal_row t) (terminal_pod t)
                       (if is_some (registry_get (terminal_pod t) r) then "connected" else "disconnected")) rows)).

(** ** Commands *)

Definition send_command (terminal_id : Z) (command_id command : string) : Call (Result unit TerminalError) :=
  let?* pod_id := terminal_db_error (read (λ _, sandbox_terminal_pod_id terminal_id)) in
  match pod_id with
  | None => ret (Err NoTerminal)
  | Some pod_id =>
      let?* conn := reconnect pod_id in
      fails_as AgentFailed (send_message conn (Command (show_i64 terminal_id) command_id command))
  end.

Definition live_pod_or_propagate (live : Result Z TerminalError) : Result (option Z) TerminalError :=
  match live with Ok pod_id => Ok (Some pod_id) | Err NoPod => Ok None | Err e => Err e end.
Definition refuse_stale_terminal (terminal_id : Z) : Call (Result unit TerminalError) :=
  let?* state := terminal_db_error (read (λ _, terminal_pod_state terminal_id)) in
  match state with
  | None => ret (Err NoTerminal)
  | Some (pod_id, terminal_closed, pod_ended) =>
      if negb (terminal_closed || pod_ended) then ret (Ok ())
      else
        let?* conversation_id := terminal_db_error (read (λ _, sandbox_pod_conversation_id pod_id)) in
        match conversation_id with
        | None => ret (Err NoTerminal)
        | Some conversation_id =>
            let* live := conversation_pod_id conversation_id in
            let?* live := ret (live_pod_or_propagate live) in
            ret (Err (StaleTerminal terminal_id pod_id live (terminal_closed && negb pod_ended)))
        end
  end.

Inductive RunCommandError := Busy (running : TerminalCommand) | RunFailed (e : string).
Definition publish_command_update (conversation_id terminal_id : Z) (command_id : string) (command : option string) (status : string) : Call unit :=
  publish conversation_id (SandboxCommandUpdate terminal_id command_id command status None None None None).
(** A send that failed: the row marked lost, and told so only once it says so. *)
Definition mark_unsent (conversation_id terminal_id : Z) (id : string) : Call unit :=
  let* marked := update (λ now, mark_terminal_command_lost now id) in
  match marked with
  | Ok _ => publish_command_update conversation_id terminal_id id None "lost"
  | Err _ => ret ()
  end.
Definition run_command (conversation_id terminal_id : Z) (id command : string) (idle_notice_secs : Z) : Call (Result unit RunCommandError) :=
  let* stale := refuse_stale_terminal terminal_id in
  match stale with
  | Err e => ret (Err (RunFailed (error_text e)))
  | Ok _ =>
      let* running := read (λ _, terminal_command_is_running terminal_id) in
      match running with
      | Err e => ret (Err (RunFailed e))
      | Ok (Some running) => ret (Err (Busy running))
      | Ok None =>
          let* created := query (λ now, create_terminal_command now conversation_id terminal_id id command idle_notice_secs) in
          match created with
          | Err e => ret (Err (RunFailed e))
          | Ok (Err _) => ret (Err (RunFailed refused))
          | Ok (Ok _) =>
              let* _ := publish_command_update conversation_id terminal_id id (Some command) "running" in
              let* sent := send_command terminal_id id command in
              match sent with
              | Ok _ => ret (Ok ())
              | Err e =>
                  let* _ := mark_unsent conversation_id terminal_id id in
                  ret (Err (RunFailed (error_text e)))
              end
          end
      end
  end.
Definition send_signal (terminal_id : Z) (command_id signal : string) : Call (Result unit TerminalError) :=
  let?* _ := refuse_stale_terminal terminal_id in
  let?* pod_id := terminal_db_error (read (λ _, sandbox_terminal_pod_id terminal_id)) in
  match pod_id with
  | None => ret (Err NoTerminal)
  | Some pod_id =>
      let?* conn := reconnect pod_id in
      fails_as AgentFailed (send_message conn (Signal (show_i64 terminal_id) command_id signal))
  end.

(** ** Stale terminals *)

(** A call that only reads. *)
Definition passive {T} (m : Call T) : Prop := ∀ s, told (snd (m s)) = told s ∧ registry (snd (m s)) = registry s ∧ now (snd (m s)) = now s.
Lemma passive_read {T} (f : Z → SandboxDb → T) : passive (read f).
Proof. intros s. unfold read, query. destruct (faults s) as [|[e|] rest]; by destruct s. Qed.
Lemma passive_ret {T} (x : T) : passive (ret x).
Proof. by intros s. Qed.
Lemma passive_bind {T U} (m : Call T) (k : T → Call U) : passive m → (∀ x, passive (k x)) → passive (andThen m k).
Proof.
  intros Hm Hk s. unfold andThen. destruct (Hm s) as (H1 & H2 & H3). destruct (m s) as [x s1]. cbn in *. destruct (Hk x s1) as (-> & -> & ->). by rewrite H1, H2, H3.
Qed.
Lemma passive_try {T U E} (m : Call (Result T E)) (k : T → Call (Result U E)) : passive m → (∀ x, passive (k x)) → passive (try_ m k).
Proof. intros Hm Hk. apply passive_bind; [done|]. intros [x|e]; [apply Hk|apply passive_ret]. Qed.
Lemma passive_fails_as {T E F} (f : E → F) (m : Call (Result T E)) : passive m → passive (fails_as f m).
Proof. intros Hm. apply passive_bind; [done|]. intros. apply passive_ret. Qed.
Ltac only_reads :=
  repeat (intros; lazymatch goal with
  | |- passive (ret _) => apply passive_ret
  | |- passive (read _) => apply passive_read
  | |- passive (andThen _ _) => apply passive_bind
  | |- passive (try_ _ _) => apply passive_try
  | |- passive (fails_as _ _) => apply passive_fails_as
  | |- passive (match _ with _ => _ end) => case_match
  end).
Lemma passive_refuse terminal_id : passive (refuse_stale_terminal terminal_id).
Proof. unfold refuse_stale_terminal, terminal_db_error, conversation_pod_id, terminal_db_error. only_reads. Qed.

(** What is said of a stale terminal is so: it is closed or its pod has ended, and the live
    pod named, or that there is none, is what the records show. *)
Definition stale_is_true (terminal_id : Z) (d : SandboxDb) (e : TerminalError) : Prop :=
  match e with
  | StaleTerminal t pod_id live closed =>
      t = terminal_id ∧ ∃ terminal_closed pod_ended conversation_id,
        terminal_pod_state terminal_id d = Some (pod_id, terminal_closed, pod_ended) ∧ terminal_closed || pod_ended = true
        ∧ closed = terminal_closed && negb pod_ended
        ∧ sandbox_pod_conversation_id pod_id d = Some conversation_id ∧ live = pod_row <$> head (list_sandbox_pods conversation_id d)
  | _ => True
  end.
Lemma pod_state_conversation terminal_id d pod_id closed ended : terminal_pod_state terminal_id d = Some (pod_id, closed, ended) →
  is_some (sandbox_pod_conversation_id pod_id d) = true.
Proof.
  unfold terminal_pod_state, sandbox_pod_conversation_id, find_pod. destruct (find_terminal terminal_id d) as [t|]; [|done]. cbn.
  destruct (List.find (λ p, (pod_row p =? terminal_pod t)%Z) (pods d)) as [p|] eqn:Hp; [|done]. cbn. intros [= <- _ _]. by rewrite Hp.
Qed.

Lemma refuse_says_so terminal_id s r s' : refuse_stale_terminal terminal_id s = (r, s') →
  (r = Ok () → ∃ pod_id, terminal_pod_state terminal_id (db s) = Some (pod_id, false, false)) ∧ ∀ e, r = Err e → stale_is_true terminal_id (db s) e.
Proof.
  intros Hrun. unfold refuse_stale_terminal, conversation_pod_id, terminal_db_error, fails_as, try_, andThen, ret in Hrun.
  destruct (read (λ _, terminal_pod_state terminal_id) s) as [[state|e] s1] eqn:H1; cbn in Hrun; [|injection Hrun as <- <-; split; [done|by intros ? [= <-]]].
  apply read_answers in H1 as (Hst & Hd1 & _).
  destruct state as [[[pod_id closed] ended]|]; cbn in Hrun; [|injection Hrun as <- <-; split; [done|by intros ? [= <-]]].
  destruct (closed || ended) eqn:Hstale; cbn in Hrun.
  2: { injection Hrun as <- <-. apply orb_false_iff in Hstale as [-> ->]. split; [|done]. intros _. by exists pod_id. }
  destruct (read (λ _, sandbox_pod_conversation_id pod_id) s1) as [[conv|e] s2] eqn:H2; cbn in Hrun; [|injection Hrun as <- <-; split; [done|by intros ? [= <-]]].
  apply read_answers in H2 as (Hcv & Hd2 & _).
  destruct conv as [conv|]; cbn in Hrun; [|injection Hrun as <- <-; split; [done|by intros ? [= <-]]].
  destruct (read (λ _, list_sandbox_pods conv) s2) as [[live|e] s3] eqn:H3; cbn in Hrun; [|injection Hrun as <- <-; split; [done|by intros ? [= <-]]].
  apply read_answers in H3 as (Hlv & _ & _). rewrite Hd2, Hd1 in Hlv. rewrite Hd1 in Hcv.
  assert (r = Err (StaleTerminal terminal_id pod_id (pod_row <$> head live) (closed && negb ended))) as -> by (destruct live; by injection Hrun as <- <-).
  split; [done|]. intros e [= <-]. split; [done|]. exists closed, ended, conv. rewrite <-Hst, <-Hcv, <-Hlv. by conjs.
Qed.

(** A command aimed at a stale terminal is refused before anything is done.  One whose
    terminal is closed or whose pod has ended changes no record and no connection, dials
    nothing and tells nobody, whether it is a command or a signal; what the model is told
    of it is true, and that no pod runs is never said because a read failed; and while the
    database answers only a live terminal of a live pod passes. *)
Theorem stale_terminals_are_refused (terminal_id : Z) (s : Life) :
  let '(r, s') := refuse_stale_terminal terminal_id s in
  told s' = told s ∧ registry s' = registry s
  ∧ (r = Ok () → ∃ pod_id, terminal_pod_state terminal_id (db s) = Some (pod_id, false, false))
  ∧ (∀ e, r = Err e → stale_is_true terminal_id (db s) e
       ∧ (∀ conversation_id id command secs, run_command conversation_id terminal_id id command secs s = (Err (RunFailed (error_text e)), s'))
       ∧ ∀ id signal, send_signal terminal_id id signal s = (Err e, s'))
  ∧ (faults s = [] → (∃ pod_id, terminal_pod_state terminal_id (db s) = Some (pod_id, false, false)) ∨ (∃ e, r = Err e
       ∧ match terminal_pod_state terminal_id (db s) with
         | None => e = NoTerminal
         | Some _ => ∃ pod_id live closed, e = StaleTerminal terminal_id pod_id live closed
         end)).
Proof.
  destruct (passive_refuse terminal_id s) as (Ht & Hreg & _). destruct (refuse_stale_terminal terminal_id s) as [r s'] eqn:Hrun. cbn in Ht, Hreg.
  destruct (refuse_says_so _ _ _ _ Hrun) as [Hok Herr]. conjs; [done..| |].
  - intros e ->. conjs; [by apply Herr| |].
    + intros. unfold run_command, andThen. by rewrite Hrun.
    + intros. unfold send_signal, try_, andThen. by rewrite Hrun.
  - intros Hf. unfold refuse_stale_terminal, conversation_pod_id, terminal_db_error, fails_as, try_, andThen, ret in Hrun.
    rewrite read_ok in Hrun by done. destruct (terminal_pod_state terminal_id (db s)) as [[[pod_id closed] ended]|] eqn:Hst; cbn in Hrun.
    2: { injection Hrun as <- <-. right. by eexists. }
    destruct (closed || ended) eqn:Hstale; cbn in Hrun; [right|left; apply orb_false_iff in Hstale as [-> ->]; by eexists].
    pose proof (pod_state_conversation _ _ _ _ _ Hst) as Hc. rewrite read_ok in Hrun by done.
    destruct (sandbox_pod_conversation_id pod_id (db s)) as [conv|]; [|done]. cbn in Hrun. rewrite read_ok in Hrun by done. cbn in Hrun.
    destruct (list_sandbox_pods conv (db s)); injection Hrun as <- <-; eexists; split; try done; by do 3 eexists.
Qed.

(** ** Starting a command *)

Lemma create_ok now conversation_id terminal_id id text secs d c d' :
  create_terminal_command now conversation_id terminal_id id text secs d = (Ok c, d') →
  c = Build_TerminalCommand conversation_id terminal_id id text Running None None secs None None now None
  ∧ commands d' = app (commands d) [c] ∧ existsb (named id) (commands d) = false.
Proof.
  unfold create_terminal_command. destruct (existsb (named id) (commands d)); cbn [orb]; [done|].
  destruct (negb (is_some (find_terminal terminal_id d)) || (secs <? 0)%Z); [done|]. by intros [= <- <-].
Qed.
Lemma create_refused now conversation_id terminal_id id text secs d e d' :
  create_terminal_command now conversation_id terminal_id id text secs d = (Err e, d') → d' = d.
Proof. unfold create_terminal_command. destruct (_ || _ || _)%bool; congruence. Qed.
Lemma create_records_ok now conversation_id terminal_id id text secs d c d' : records_ok d →
  terminal_command_is_running terminal_id d = None → create_terminal_command now conversation_id terminal_id id text secs d = (Ok c, d') → records_ok d'.
Proof.
  intros [Hids Hone] Hidle (-> & Hc & Hnew)%create_ok. pose proof (proj1 (existsb_false _ _) Hnew) as Hn.
  assert (Hfree : ∀ c, c ∈ commands d → command_terminal c = terminal_id → is_running c = true → False).
  { intros c Hin%list_elem_of_In Ht Hr. pose proof (find_none _ _ Hidle c Hin) as Hf. cbn in Hf. by rewrite Ht, Z.eqb_refl, Hr in Hf. }
  split; rewrite Hc.
  - rewrite map_app. apply NoDup_app. conjs; [done| |apply NoDup_singleton]. intros i Hi ->%list_elem_of_singleton.
    apply list_elem_of_In, in_map_iff in Hi as (c & Hid & Hin%list_elem_of_In). specialize (Hn c Hin). by rewrite (proj2 (named_true id c) Hid) in Hn.
  - intros c1 c2 [H1| ->%list_elem_of_singleton]%elem_of_app [H2| ->%list_elem_of_singleton]%elem_of_app; cbn; [by apply Hone| | |done].
    + intros Ht Hr _. by destruct (Hfree c1 H1 Ht Hr).
    + intros Ht _ Hr. by destruct (Hfree c2 H2 (eq_sym Ht) Hr).
Qed.
Lemma ends_only_send terminal_id id command : ends_only (send_command terminal_id id command).
Proof.
  unfold send_command, terminal_db_error, fails_as. apply ends_only_try; [apply ends_only_keeps; keep|]. intros [pod_id|]; [|apply ends_only_keeps; keep].
  apply ends_only_try; [apply reconnect_ends|]. intros conn. apply ends_only_keeps, keeps_bind; [apply send_keeps|]. keep.
Qed.
Lemma send_command_ok terminal_id id command s s' : send_command terminal_id id command s = (Ok (), s') →
  told s' = told s ∧ ∃ conn s1, send_message conn (Command (show_i64 terminal_id) id command) s1 = (Ok (), s').
Proof.
  unfold send_command, terminal_db_error, fails_as, try_, andThen, ret.
  pose proof (keeps_read (λ _, sandbox_terminal_pod_id terminal_id) s) as H1.
  destruct (read _ s) as [[[pod_id|]|e] s1]; cbn in *; try done.
  destruct (reconnect pod_id s1) as [[conn|e] s2] eqn:H2; [|done]. apply reconnect_connected in H2.
  pose proof (send_keeps conn (Command (show_i64 terminal_id) id command) s2) as H3.
  destruct (send_message conn _ s2) as [[[]|e] s3] eqn:Hs; cbn in *; [|done]. intros [= <-]. split; [congruence|]. by exists conn, s2.
Qed.
Lemma mark_unsent_marks conversation_id terminal_id id s :
  let '(_, s') := mark_unsent conversation_id terminal_id id s in
  only_ends (db s) (db s')
  ∧ ((∀ c, c ∈ commands (db s') → command_id c = id → status c ≠ Running)
       ∧ published s' = app (published s) [(conversation_id, SandboxCommandUpdate terminal_id id None "lost" None None None None)]
     ∨ ∃ why rest, faults s = Some why :: rest ∧ told s' = told s).
Proof.
  unfold mark_unsent, andThen, update, query.
  assert (Hlost : ∀ d, only_ends d (mark_terminal_command_lost (now s) id d)
            ∧ ∀ c, c ∈ commands (mark_terminal_command_lost (now s) id d) → command_id c = id → status c ≠ Running).
  { intros d. split; [by apply only_ends_update|]. intros c (c0 & Hc0 & ->)%in_update Hid Hs.
    destruct (named id c0) eqn:Hn; cbn in *; [|by rewrite (proj2 (named_true id c0) Hid) in Hn].
    destruct (is_running c0) eqn:Hr; [done|]. by apply bool_decide_eq_false_1 in Hr. }
  destruct (Hlost (db s)) as [H1 H2]. destruct (faults s) as [|[e|] rest]; cbn; [by auto| |by auto]. split; [apply only_ends_refl|right; by exists e, rest].
Qed.

(** C31. Commands start one at a time, and none is left running that wasn't sent.  Whatever
    the connection does and whichever queries fail: a terminal never gets a second running
    command; one busy is left as it was, and its command named; one started has its row,
    was announced once and was sent; and when the send fails the row no longer says running
    and its tabs are told so, unless marking it failed, and then they aren't. *)
Theorem commands_start_one_at_a_time (conversation_id terminal_id : Z) (id command : string) (secs : Z) (s : Life) (Hok : records_ok (db s)) :
  let '(r, s') := run_command conversation_id terminal_id id command secs s in
  let row := Build_TerminalCommand conversation_id terminal_id id command Running None None secs None None (now s) None in
  let started := (conversation_id, SandboxCommandUpdate terminal_id id (Some command) "running" None None None None) in
  let lost_ := (conversation_id, SandboxCommandUpdate terminal_id id None "lost" None None None None) in
  records_ok (db s')
  ∧ match r with
    | Err (Busy c) => told s' = told s ∧ c ∈ commands (db s) ∧ command_terminal c = terminal_id ∧ status c = Running
    | Ok _ =>
        terminal_command_is_running terminal_id (db s) = None ∧ commands (db s') = app (commands (db s)) [row]
        ∧ published s' = app (published s) [started] ∧ notified s' = notified s
        ∧ ∃ conn s1, send_message conn (Command (show_i64 terminal_id) id command) s1 = (Ok (), s')
    | Err (RunFailed _) =>
        told s' = told s
        ∨ terminal_command_is_running terminal_id (db s) = None
          ∧ ∃ e s1 s2, send_command terminal_id id command s1 = (Err e, s2)
              ∧ commands (db s1) = app (commands (db s)) [row] ∧ published s1 = app (published s) [started]
              ∧ ((∀ c, c ∈ commands (db s') → command_id c = id → status c ≠ Running) ∧ published s' = app (published s2) [lost_]
                 ∨ ∃ why rest, faults s2 = Some why :: rest ∧ told s' = told s2)
    end.
Proof.
  unfold run_command, andThen. destruct (passive_refuse terminal_id s) as (Ht1 & _ & Hn1).
  assert (Hok' : ∀ s', told s' = told s → records_ok (db s')) by (by intros s' [= Hd _ _ _ _]; rewrite Hd).
  destruct (refuse_stale_terminal terminal_id s) as [[[]|e] sa]; cbn [snd] in Ht1, Hn1; [|split; [by apply Hok'|by left]].
  pose proof (passive_read (λ _, terminal_command_is_running terminal_id) sa) as (Ht2 & _ & Hn2).
  destruct (read (λ _, terminal_command_is_running terminal_id) sa) as [[running|e] sb] eqn:Hread; cbn [snd] in Ht2, Hn2; rewrite Ht1 in Ht2;
    [|split; [by apply Hok'|by left]].
  apply read_answers in Hread as (-> & _ & _). injection Ht1 as -> _ _ _ _.
  destruct (terminal_command_is_running terminal_id (db s)) as [c|] eqn:Hidle.
  { split; [by apply Hok'|]. split; [done|]. apply find_some in Hidle as [Hc%list_elem_of_In [Ht Hr]%andb_true_iff].
    split; [done|]. split; [by apply Z.eqb_eq|by apply (bool_decide_eq_true_1 _)]. }
  destruct (query _ sb) as [created sc] eqn:Hq. rewrite Hn1 in Hn2.
  assert (match created with
          | Ok (Ok _) => ∃ c d, create_terminal_command (now s) conversation_id terminal_id id command secs (db s) = (Ok c, d) ∧ db sc = d
                                  ∧ published sc = published s ∧ notified sc = notified s
          | _ => told sc = told s
          end) as Hcreated.
  { injection Ht2 as Hd Hp Hpc Hno Hsv. unfold query in Hq. rewrite Hn2, Hd in Hq.
    destruct (create_terminal_command (now s) conversation_id terminal_id id command secs (db s)) as [[c|[]] d] eqn:Hc;
      (destruct (faults sb) as [|[e|] rest]; injection Hq as <- <-; unfold told; cbn; [..|]; [|congruence|]).
    1, 2: by exists c, d.
    all: apply create_refused in Hc as ->; congruence. }
  destruct created as [[c0|[]]|e]; [|split; [by apply Hok'|by left]..]. destruct Hcreated as (c & d & Hc & <- & Hp & Hno).
  pose proof (create_ok _ _ _ _ _ _ _ _ _ Hc) as (-> & Hcmds & _). pose proof (create_records_ok _ _ _ _ _ _ _ _ _ Hok Hidle Hc) as Hok1.
  unfold publish_command_update at 1, publish, write.
  match goal with |- context [send_command terminal_id id command ?x] => set (s1 := x) end.
  pose proof (ends_only_send terminal_id id command s1) as Hends. destruct (send_command terminal_id id command s1) as [[[]|e] s2] eqn:Hsend; cbn [snd ret] in *.
  - apply send_command_ok in Hsend as [[= Hd2 Hp2 _ Hn2' _] Hsent]. split; [by eapply only_ends_records_ok|]. rewrite Hd2, Hp2, Hn2'.
    conjs; [done..| |done|done]. cbn. by rewrite Hp.
  - pose proof (mark_unsent_marks conversation_id terminal_id id s2) as Hm. unfold andThen. destruct (mark_unsent conversation_id terminal_id id s2) as [[] s3].
    destruct Hm as [Hm3 Hm]. split; [eapply only_ends_records_ok; [|exact Hok1]; by eapply only_ends_trans|]. right. split; [done|].
    exists e, s1, s2. conjs; [done..| |done]. cbn. by rewrite Hp.
Qed.
End Terminals.

(** ** The connections implement the interface *)

Ltac end_only :=
  repeat (intros; lazymatch goal with
  | |- ends_only (ret _) => apply ends_only_keeps, keeps_ret
  | |- ends_only (get _) => apply ends_only_keeps, keeps_get
  | |- ends_only (read _) => apply ends_only_keeps, keeps_read
  | |- ends_only (andThen _ _) => apply ends_only_bind
  | |- ends_only (try_ _ _) => apply ends_only_try
  | |- ends_only (write (λ s, set_field _ _ s)) => intros ?; apply only_ends_refl
  | |- ends_only (update (λ now, mark_terminal_command_lost now _)) => apply ends_only_lost
  | |- ends_only (query _) => apply ends_only_same; done
  | |- ends_only (match _ with _ => _ end) => case_match
  end).

Section Connected.
Context (parse : string → Result AgentMessage string) (delete : Z → Call (Result unit SandboxError)) (Hdelete : ∀ pod_id, ends_only (delete pod_id)).
Context (image row_not_found connection_closed : string) (instance : Result SmeltInstance string).
Context (start_under_way : Z → bool) (dialer : Z → Dialer).
Context (pod_request : nat → (Z → ClientMessage) → Call Outcome) (pod_send : nat → ClientMessage → Call (Result unit AgentRequestError)).
Context (conversation : nat → Z).
Context (Hrequest : ∀ conn build, keeps (pod_request conn build)) (Hsend : ∀ conn message, keeps (pod_send conn message)).

Lemma for_each_ends {A} (f : A → Call unit) l : (∀ x, ends_only (f x)) → ends_only (for_each f l).
Proof. intros Hf. induction l as [|x l IH]; cbn; [by end_only|]. by apply ends_only_bind. Qed.
Lemma close_pod_terminals_ends pod_id : ends_only (close_pod_terminals pod_id).
Proof. unfold close_pod_terminals. end_only. apply for_each_ends. intros t. unfold close_terminal, publish. end_only; by apply ends_only_same. Qed.
Lemma terminate_pod_as_ends pod_id how : ends_only (terminate_pod_as pod_id how (delete pod_id)).
Proof. unfold terminate_pod_as, deregister_pod, db_error, fails_as, publish, publish_pods_changed. end_only. apply Hdelete. Qed.
Lemma give_up_ends pod_id reason : ends_only (leave_pod delete pod_id reason).
Proof.
  unfold leave_pod, clean_up_and_terminate_pod, handle_crash_cleanup, notify, deregister_pod, force_terminate_pod, terminate_pod_with, stale_pod_or_unreachable,
    conversation_pod_id, terminal_db_error, fails_as.
  end_only; [apply close_pod_terminals_ends|apply terminate_pod_as_ends].
Qed.
Lemma attempt_ends mode pod_id n : ends_only (attempt parse delete image row_not_found connection_closed (dialer pod_id) mode pod_id n).
Proof.
  unfold attempt. apply ends_only_bind; [apply ends_only_keeps, keeps_connect|]. intros dialled. end_only;
    first [apply ends_only_keeps, keeps_register|apply give_up_ends|unfold close_conn; end_only].
Qed.
Lemma connect_ends pod_id mode :
  ends_only (connect_with_retry parse delete image row_not_found connection_closed instance (start_under_way pod_id) (dialer pod_id) pod_id mode).
Proof.
  assert (Hat : ∀ fuel n last_err, ends_only (attempts parse delete image row_not_found connection_closed (dialer pod_id) mode pod_id n fuel last_err)).
  { induction fuel as [|fuel IH]; intros n last_err; cbn [attempts]; [end_only; apply give_up_ends|].
    apply ends_only_bind; [apply attempt_ends|]. intros [o|e]; [end_only|apply IH]. }
  unfold connect_with_retry, connect_locked, terminal_db_error, fails_as. end_only; apply Hat.
Qed.

#[export] Instance pod_link : AgentLink.
Proof.
  refine {|
    reconnect pod_id := reconnect_if_needed parse delete image row_not_found connection_closed instance (start_under_way pod_id) (dialer pod_id) pod_id;
    ensure pod_id := ensure_pod_connection parse delete image row_not_found connection_closed instance (start_under_way pod_id) (dialer pod_id) pod_id;
    request := pod_request; send_message := pod_send; conversation_of := conversation;
  |}.
  - intros pod_id. unfold reconnect_if_needed. end_only. apply connect_ends.
  - intros pod_id s conn s'. unfold reconnect_if_needed, andThen, get. destruct (registry_get pod_id (registry s)); [by intros [= _ <-]|apply connect_ok_keeps].
  - intros pod_id. unfold ensure_pod_connection. keep. apply keeps_connect_with_retry. by left.
  - exact Hrequest.
  - exact Hsend.
Defined.
End Connected.

(** ** Runs that are met *)

(** A connection whose sends come to [sent]. *)
Definition up_link (sent : Result unit AgentRequestError) : AgentLink.
Proof.
  refine (Build_AgentLink (λ _, ret (Ok O)) (λ _, ret (Ok O)) (λ _ _, ret (Err Disconnected)) (λ _ _, ret sent) (λ _, 7%Z) _ _ _ _ _);
    [intros ?; apply ends_only_keeps, keeps_ret|by intros ? ? ? ? [= _ <-]|intros; apply keeps_ret..].
Defined.
Definition run_on (sent : Result unit AgentRequestError) (terminal_id : Z) : Result unit RunCommandError * Life :=
  run_command (link := up_link sent) "refused" (λ _, "down") 7 terminal_id "b" "ls" 60 busy_pod.
Lemma commands_start_one_at_a_time_witness :
  (∃ c, fst (run_on (Err Disconnected) 3) = Err (Busy c) ∧ told (snd (run_on (Err Disconnected) 3)) = told busy_pod
        ∧ command_terminal c = 3%Z)
  ∧ records_ok (db (snd (run_on (Err Disconnected) 1)))
  ∧ fst (run_on (Err Disconnected) 1) = Err (RunFailed "down")
  ∧ map snd (published (snd (run_on (Err Disconnected) 1))) =
      [SandboxCommandUpdate 1 "b" (Some "ls") "running" None None None None; SandboxCommandUpdate 1 "b" None "lost" None None None None]
  ∧ fst (run_on (Ok ()) 1) = Ok () ∧ is_some (terminal_command_is_running 1 (db (snd (run_on (Ok ()) 1)))) = true.
Proof.
  split; [|split; [|split; [|split; [|split]]]]; [| |vm_compute; reflexivity..].
  - pose proof (@commands_start_one_at_a_time (up_link (Err Disconnected)) "refused" (λ _, "down") 7 3 "b" "ls" 60 busy_pod busy_pod_ok) as H.
    unfold run_on. destruct (run_command _ _ 7 3 "b" "ls" 60 busy_pod) as [r s'] eqn:E. vm_compute in E. injection E as <- <-.
    destruct H as [_ (Ht & _ & H & _)]. exact (ex_intro _ _ (conj eq_refl (conj Ht H))).
  - pose proof (@commands_start_one_at_a_time (up_link (Err Disconnected)) "refused" (λ _, "down") 7 1 "b" "ls" 60 busy_pod busy_pod_ok) as H.
    unfold run_on. destruct (run_command _ _ 7 1 "b" "ls" 60 busy_pod) as [r s']. exact (proj1 H).
Defined.
