(* ===== verification/PanelSnapshot.v ===== *)
(** * PanelSnapshot: the sandbox panel's snapshot, and the events around it

    [src/src/api/sandbox.rs]: the pods, terminals and commands a chat page asks for when it
    opens or reconnects, and what its panel shows of a command once the events since are
    applied.  A command's summary is read by several queries, each at a moment of its own:
    [SummaryReads] holds the records each one finds, [None] where it fails.  The cluster's
    and the registry's part, [list_pods], [list_terminals] after [try_reconnect], and the
    preview links, are what they answer. *)

From stdpp Require Import sorting.
From S2P Require Import Prelude RustStr Types AgentProtocol SandboxDb PodMessages Terminals McpCalls ChatPage ChatPanel.
Local Open Scope string_scope.

(** ** The snapshot *)

Definition SNAPSHOT_TAIL_LINES : Z := 200.
Definition HISTORY_LIMIT : Z := 20.

(** The status column's text. *)
Definition command_status_text (s : CommandStatus) : string :=
  match s with Running => "running" | Finished => "finished" | Lost => "lost" end.
Definition output_line (e : EventRow) : SandboxOutputLine :=
  Build_SandboxOutputLine (stream_as_str (event_stream e)) (event_data e) (event_seq e).

(** What each query of a summary finds, and the script calls' summary. *)
Record SummaryReads := {
  status_read : option (Z * SandboxDb);
  stdout_read : option SandboxDb;
  stderr_read : option SandboxDb;
  script_read : option McpCallSummary;
}.
Definition read_tail (id : string) (stream : Stream) (lines : Z) (read : option SandboxDb) : list EventRow :=
  let offset := Z.max 0 (lines - SNAPSHOT_TAIL_LINES) in
  match read with Some d => read_terminal_output id [stream] offset SNAPSHOT_TAIL_LINES d | None => [] end.
Definition by_seq (a b : EventRow) : bool := (event_seq a <=? event_seq b)%Z.
Definition fetch_command_summary (command : TerminalCommand) (reads : SummaryReads) : option SandboxCommandSummary :=
  let id := command_id command in
  '(now, d) ← status_read reads;
  status ← terminal_command_status now id d;
  let stdout := read_tail id Stdout (stdout_lines status) (stdout_read reads) in
  let stderr := read_tail id Stderr (stderr_lines status) (stderr_read reads) in
  Some {| cs_command_id := id; cs_command := command_text command; cs_status := command_status_text (st_status status);
          cs_exit_code := st_exit_code status; cs_output := map output_line (sort_by by_seq (app stdout stderr));
          cs_mcp_calls := script_read reads |}.
(** Oldest first. *)
Definition fetch_terminal_command_history (terminal_id : Z) (listed : option SandboxDb) (reads : string → SummaryReads) : list SandboxCommandSummary :=
  match listed with
  | None => []
  | Some d =>
      omap (λ command, fetch_command_summary command (reads (command_id command)))
        (reverse (list_terminal_commands terminal_id HISTORY_LIMIT d))
  end.

(** What is read here of [list_pods]'s entries. *)
Record PodInfo := { pi_pod_id : Z; pi_status : string; pi_node : option string }.
Fixpoint terminals_by_pod (history : Z → list SandboxCommandSummary) (terminals : list TerminalInfo) (by_pod : gmap Z (list SandboxTerminalSummary))
    : gmap Z (list SandboxTerminalSummary) :=
  match terminals with
  | [] => by_pod
  | t :: terminals =>
      let summary := Build_SandboxTerminalSummary (ti_terminal_id t) (ti_pod_id t) (ti_status t) (history (ti_terminal_id t)) in
      terminals_by_pod history terminals (<[ti_pod_id t := app (default [] (by_pod !! ti_pod_id t)) [summary]]> by_pod)
  end.
(** [links]: a pod's preview links, [None] with previews off; a failed read of them fails the whole. *)
Fixpoint pod_summaries (links : option (Z → Result (list SandboxPreview) string)) (pods : list PodInfo) (by_pod : gmap Z (list SandboxTerminalSummary))
    : Result (list SandboxPodSummary) string :=
  match pods with
  | [] => Ok []
  | pod :: pods =>
      let? previews := match links with Some links => links (pi_pod_id pod) | None => Ok [] end in
      let summary := Build_SandboxPodSummary (pi_pod_id pod) (pi_status pod) (pi_node pod) (default [] (by_pod !! pi_pod_id pod)) previews in
      let? summaries := pod_summaries links pods (delete (pi_pod_id pod) by_pod) in
      Ok (summary :: summaries)
  end.
Definition get_sandbox_state (pods : Result (list PodInfo) string) (terminals : Result (list TerminalInfo) string)
    (history : Z → list SandboxCommandSummary) (links : option (Z → Result (list SandboxPreview) string)) : Result SandboxSnapshot string :=
  let? pods := pods in
  let? terminals := terminals in
  let? summaries := pod_summaries links pods (terminals_by_pod history terminals ∅) in
  Ok (Build_SandboxSnapshot summaries).

(** ** A command's tails *)

Definition of_stream (stream : Stream) (e : EventRow) : bool := bool_decide (event_stream e = stream).
Lemma lines_of_stream id stream (d : SandboxDb) : lines_of id [stream] d = List.filter (of_stream stream) (lines_of id both d).
Proof.
  rewrite lines_of_both. unfold lines_of, of_stream. induction (SandboxDb.events d) as [|e l IH]; [done|]. cbn [List.filter].
  destruct (bool_decide (event_command e = id)); cbn [andb List.filter]; [|exact IH].
  rewrite (bool_decide_ext (event_stream e ∈ [stream]) (event_stream e = stream)) by apply list_elem_of_singleton.
  by destruct (bool_decide _); rewrite IH.
Qed.
Lemma filter_sorted (f : EventRow → bool) rows : StronglySorted Z.lt (map event_seq rows) → StronglySorted Z.lt (map event_seq (List.filter f rows)).
Proof.
  induction rows as [|e rows IH]; [done|]. cbn [map List.filter]. intros [Hs Hf]%StronglySorted_inv. destruct (f e); [|by apply IH].
  cbn [map]. constructor; [by apply IH|]. rewrite Forall_fmap in Hf |- *. apply Forall_forall. intros x [Hx _]%elem_list_filter.
  rewrite Forall_forall in Hf. by apply Hf.
Qed.
Lemma sorted_part (l k : list EventRow) : StronglySorted Z.lt (map event_seq (app l k)) →
  StronglySorted Z.lt (map event_seq l) ∧ StronglySorted Z.lt (map event_seq k) ∧ ∀ x y, x ∈ l → y ∈ k → (event_seq x < event_seq y)%Z.
Proof.
  rewrite map_app. intros (Hxy & Hl & Hk)%StronglySorted_app. split_and!; [done|done|]. intros x y Hx Hy.
  apply Hxy; apply list_elem_of_fmap; by eexists.
Qed.
Lemma take_sorted n rows : StronglySorted Z.lt (map event_seq rows) → StronglySorted Z.lt (map event_seq (take n rows)).
Proof. intros Hs. rewrite <- (take_drop n rows) in Hs. by apply sorted_part in Hs as (? & _). Qed.
Lemma seq_inj rows x y : StronglySorted Z.lt (map event_seq rows) → x ∈ rows → y ∈ rows → event_seq x = event_seq y → x = y.
Proof.
  induction rows as [|e rows IH]; [by intros _ ?%not_elem_of_nil|]. cbn [map]. intros [Hs Hf]%StronglySorted_inv. rewrite Forall_fmap, Forall_forall in Hf.
  intros [->|Hx]%elem_of_cons [->|Hy]%elem_of_cons He; [done| | |by apply IH]; [apply Hf in Hy|apply Hf in Hx]; cbn in *; lia.
Qed.

(** A tail read at [k] lines, its offset counted at [k0]: it has every line of its stream there
    was then but those with [SNAPSHOT_TAIL_LINES] of it after them. *)
Definition tail_rows (stream : Stream) (rows : list EventRow) (k0 k : nat) : list EventRow :=
  let seen := List.filter (of_stream stream) (take k0 rows) in
  take (Z.to_nat SNAPSHOT_TAIL_LINES) (drop (Z.to_nat (Z.max 0 (Z.of_nat (length seen) - SNAPSHOT_TAIL_LINES))) (List.filter (of_stream stream) (take k rows))).
Lemma read_tail_rows id stream rows k0 k d0 d :
  StronglySorted Z.lt (map event_seq rows) → lines_of id both d0 = take k0 rows → lines_of id both d = take k rows →
  read_tail id stream (Z.of_nat (length (lines_of id [stream] d0))) (Some d) = tail_rows stream rows k0 k.
Proof.
  intros Hs H0 Hk. unfold read_tail, tail_rows, read_terminal_output. rewrite !lines_of_stream, H0, Hk.
  rewrite sorted_kept by by apply filter_sorted, take_sorted. done.
Qed.
Lemma tail_in stream rows k0 k e : e ∈ tail_rows stream rows k0 k → e ∈ take k rows ∧ event_stream e = stream.
Proof.
  unfold tail_rows. intros He%subseteq_take%subseteq_drop%elem_list_filter. destruct He as [He Hs]. split; [done|].
  by apply bool_decide_eq_true in Hs.
Qed.
Lemma tail_sorted stream rows k0 k : StronglySorted Z.lt (map event_seq rows) → StronglySorted Z.lt (map event_seq (tail_rows stream rows k0 k)).
Proof.
  intros Hs. unfold tail_rows. apply take_sorted. set (n := Z.to_nat _). apply (take_sorted k), (filter_sorted (of_stream stream)) in Hs.
  rewrite <- (take_drop n (List.filter _ _)) in Hs. by apply sorted_part in Hs as (_ & ? & _).
Qed.
Definition later_of (e e' : EventRow) : bool := of_stream (event_stream e) e' && (event_seq e <? event_seq e')%Z.
Lemma filter_length_sublist (f : EventRow → bool) l k : l `sublist_of` k → Forall (λ x, f x = true) l → (length l ≤ length (List.filter f k))%nat.
Proof.
  induction 1 as [|x l k Hl IH|x l k Hl IH]; intros Hf; cbn; [lia| |].
  - apply Forall_cons in Hf as [-> Hf]. cbn. apply IH in Hf. lia.
  - apply IH in Hf. destruct (f x); cbn; lia.
Qed.
Lemma tail_whole rows k0 k e :
  StronglySorted Z.lt (map event_seq rows) → (k0 ≤ k)%nat → e ∈ take k0 rows →
  e ∈ tail_rows (event_stream e) rows k0 k ∨ (Z.to_nat SNAPSHOT_TAIL_LINES ≤ length (List.filter (later_of e) (take k0 rows)))%nat.
Proof.
  intros Hs Hk He. set (seen := List.filter (of_stream (event_stream e)) (take k0 rows)).
  assert (e ∈ seen) as [i Hi]%list_elem_of_lookup by (apply elem_list_filter; split; [done|by apply bool_decide_eq_true]).
  pose proof (lookup_lt_Some _ _ _ Hi) as Hlt. set (n := Z.to_nat (Z.max 0 (Z.of_nat (length seen) - SNAPSHOT_TAIL_LINES))).
  assert (∃ more, List.filter (of_stream (event_stream e)) (take k rows) = app seen more) as [more Hmore].
  { exists (List.filter (of_stream (event_stream e)) (take (k - k0) (drop k0 rows))). unfold seen. rewrite <- List.filter_app. f_equal.
    replace k with (k0 + (k - k0))%nat at 1 by lia. symmetry; apply take_take_drop. }
  destruct (decide (n ≤ i)%nat) as [Hni|Hni].
  - left. unfold tail_rows. fold seen. fold n. rewrite Hmore. apply list_elem_of_lookup. exists (i - n)%nat.
    rewrite lookup_take_lt by (unfold n, SNAPSHOT_TAIL_LINES in *; lia). rewrite lookup_drop. replace (n + (i - n))%nat with i by lia.
    by apply lookup_app_l_Some.
  - right. transitivity (length (drop (S i) seen)).
    { rewrite length_drop. unfold n, SNAPSHOT_TAIL_LINES in *. lia. }
    apply filter_length_sublist; [etransitivity; [apply sublist_drop|apply list_filter_sublist]|].
    apply Forall_forall. intros x Hx. assert (x ∈ seen) as Hseen by by eapply subseteq_drop. apply elem_list_filter in Hseen as [_ Hst].
    unfold later_of. rewrite Hst. apply Z.ltb_lt. apply (take_sorted k0), (filter_sorted (of_stream (event_stream e))) in Hs. fold seen in Hs.
    rewrite <- (take_drop_middle seen i e Hi) in Hs. apply sorted_part in Hs as (_ & Hs & _). cbn [map] in Hs.
    apply StronglySorted_inv in Hs as [_ Hf]. rewrite Forall_fmap, Forall_forall in Hf. by apply Hf.
Qed.

(** The rows of a summary: its tails merged. *)
Definition summary_rows (rows : list EventRow) (k0 k1 k2 : nat) : list EventRow :=
  sort_by by_seq (app (tail_rows Stdout rows k0 k1) (tail_rows Stderr rows k0 k2)).
Lemma summary_in rows k0 k1 k2 e : e ∈ summary_rows rows k0 k1 k2 ↔ e ∈ tail_rows Stdout rows k0 k1 ∨ e ∈ tail_rows Stderr rows k0 k2.
Proof. unfold summary_rows. by rewrite sort_by_perm, elem_of_app. Qed.
Lemma summary_known rows k0 k1 k2 e : (k1 ≤ k2)%nat → e ∈ summary_rows rows k0 k1 k2 → e ∈ take k2 rows.
Proof.
  intros Hk [[He _]%tail_in|[He _]%tail_in]%summary_in; [|done].
  assert (take k1 rows = take k1 (take k2 rows)) as Ht by (rewrite take_take; f_equal; lia). rewrite Ht in He. by eapply subseteq_take.
Qed.
Lemma nodup_sorted l : sorted_by by_seq l → NoDup (map event_seq l) → StronglySorted Z.lt (map event_seq l).
Proof.
  induction l as [|e l IH]; [constructor|]. cbn [map sorted_by]. intros [He Hl] [Hn Hnd]%NoDup_cons. constructor; [by apply IH|].
  rewrite Forall_fmap. apply Forall_forall. intros x Hx. specialize (He x Hx). unfold by_seq in He. apply Z.leb_le in He. cbn.
  assert (event_seq e ≠ event_seq x) by (intros Heq; apply Hn; rewrite Heq; apply list_elem_of_fmap; by exists x). lia.
Qed.
Lemma sorted_nodup (l : list Z) : StronglySorted Z.lt l → NoDup l.
Proof.
  induction 1 as [|x l _ IH Hf]; constructor; [|done]. rewrite Forall_forall in Hf. intros Hx%Hf. lia.
Qed.
Lemma summary_sorted rows k0 k1 k2 : StronglySorted Z.lt (map event_seq rows) → StronglySorted Z.lt (map event_seq (summary_rows rows k0 k1 k2)).
Proof.
  intros Hs. apply nodup_sorted.
  - apply sort_by_sorted; unfold by_seq.
    + intros x y Hxy%Z.leb_gt. apply Z.leb_le. lia.
    + intros x y z Hxy%Z.leb_le Hyz%Z.leb_le. apply Z.leb_le. lia.
  - unfold summary_rows. rewrite sort_by_perm, map_app. apply NoDup_app. split_and!; [by apply sorted_nodup, tail_sorted| |by apply sorted_nodup, tail_sorted].
    intros n (x & -> & [Hx Hsx]%tail_in)%list_elem_of_fmap (y & He & [Hy Hsy]%tail_in)%list_elem_of_fmap.
    assert (x = y) as -> by (apply (seq_inj rows); [done|by eapply subseteq_take|by eapply subseteq_take|done]). congruence.
Qed.

(** ** What the page then shows *)

(** The lines past those had: every one, where none is. *)
Definition past (had : option Z) (e : EventRow) : bool := match had with Some m => (m <? event_seq e)%Z | None => true end.
Definition shown_seq (rows : list EventRow) : option Z := last_seq (map line_entry (map output_line rows)).
Lemma shown_seqs rows : omap lp_seq (map line_entry (map output_line rows)) = map event_seq rows.
Proof. rewrite line_seqs, map_map. done. Qed.
Lemma replay_past status ls shown c :
  StronglySorted Z.lt (map event_seq ls) → StronglySorted Z.lt (map event_seq shown) → cp_output c = map line_entry (map output_line shown) →
  replay status (map output_line ls) c = c <| cp_output := map line_entry (map output_line (app shown (List.filter (past (shown_seq shown)) ls))) |>.
Proof.
  intros Hls Hsh Hc. induction ls as [|e ls IH].
  { cbn. rewrite app_nil_r, <- Hc. by destruct c. }
  pose proof (last_seq_spec (cp_output c)) as Hl. rewrite Hc, shown_seqs in Hl. fold (shown_seq shown) in Hl.
  cbn [map] in Hls. pose proof Hls as [Hls' Hf]%StronglySorted_inv.
  destruct (past (shown_seq shown) e) eqn:Hp.
  - assert (List.filter (past (shown_seq shown)) (e :: ls) = e :: ls) as Hall.
    { apply list_filter_all, Forall_cons. split; [done|]. rewrite Forall_fmap in Hf. eapply Forall_impl; [exact Hf|]. intros x Hx. cbn in Hx.
      unfold past in *. destruct (shown_seq shown); [|done]. apply Z.ltb_lt in Hp. apply Z.ltb_lt. lia. }
    rewrite Hall, replay_new.
    + destruct c. unfold set_field. cbn in *. subst. f_equal. by rewrite !map_app.
    + rewrite Hc, shown_seqs, map_map. apply StronglySorted_app_2; [|done|done]. intros x y Hx Hy.
      apply (list_elem_of_fmap event_seq) in Hy as (z & -> & Hz). unfold past in Hp. destruct (shown_seq shown) as [m|]; [|rewrite Hl in Hx; by apply not_elem_of_nil in Hx].
      destruct Hl as [_ Hm]. specialize (Hm x Hx). apply Z.ltb_lt in Hp. apply elem_of_cons in Hz as [->|Hz]; [cbn; lia|].
      rewrite Forall_fmap, Forall_forall in Hf. specialize (Hf z Hz). cbn in Hf |- *. lia.
  - cbn [List.filter map]. rewrite Hp. unfold past in Hp. destruct (shown_seq shown) as [m|] eqn:Hm; [|done]. apply Z.ltb_ge in Hp.
    change (replay status (output_line e :: map output_line ls) c) with (replay status (map output_line ls) (replay status [output_line e] c)).
    rewrite (replay_old status [output_line e] c m); [by apply IH| |by intros l ->%list_elem_of_singleton]. by rewrite Hc.
Qed.
Definition panel_rows (rows : list EventRow) (k0 k1 k2 : nat) : list EventRow :=
  let shown := summary_rows rows k0 k1 k2 in app shown (List.filter (past (shown_seq shown)) rows).
Lemma had_at_first rows k0 k1 k2 e :
  StronglySorted Z.lt (map event_seq rows) → (k0 ≤ k1)%nat → (k1 ≤ k2)%nat → e ∈ take k0 rows → past (shown_seq (summary_rows rows k0 k1 k2)) e = false.
Proof.
  intros Hs H1 H2 He. set (last_of := List.filter (of_stream (event_stream e)) (take k0 rows)).
  assert (∃ x, x ∈ summary_rows rows k0 k1 k2 ∧ (event_seq e ≤ event_seq x)%Z) as (x & Hx & Hle).
  { assert (e ∈ last_of) as Hin by (apply elem_list_filter; split; [done|by apply bool_decide_eq_true]).
    destruct (last last_of) as [x|] eqn:Hl; [|apply last_None in Hl; rewrite Hl in Hin; by apply not_elem_of_nil in Hin].
    apply last_Some in Hl as [before Hl]. pose proof Hs as Hsl. apply (take_sorted k0), (filter_sorted (of_stream (event_stream e))) in Hsl.
    fold last_of in Hsl. rewrite Hl in Hsl, Hin. apply sorted_part in Hsl as (_ & _ & Hsl).
    assert (x ∈ last_of) as [Hxin Hxs]%elem_list_filter by (rewrite Hl; apply elem_of_app; right; by left). apply bool_decide_eq_true in Hxs.
    exists x. split.
    - assert (Hno : List.filter (later_of x) (take k0 rows) = []).
      { destruct (List.filter (later_of x) (take k0 rows)) as [|y ys] eqn:Hf; [done|]. exfalso.
        assert (y ∈ List.filter (later_of x) (take k0 rows)) as [Hy Hyl]%elem_list_filter by (rewrite Hf; by left).
        unfold later_of in Hyl. apply andb_true_iff in Hyl as [Hys Hlt%Z.ltb_lt]. rewrite Hxs in Hys.
        assert (y ∈ last_of) as Hyin by by apply elem_list_filter. rewrite Hl in Hyin. apply elem_of_app in Hyin as [Hyb|Hyx%list_elem_of_singleton].
        - specialize (Hsl y x Hyb ltac:(by left)). lia.
        - subst. lia. }
      apply summary_in. destruct (event_stream x) eqn:Hst.
      + left. destruct (tail_whole rows k0 k1 x Hs H1 Hxin) as [Ht|Ht]; [by rewrite Hst in Ht|]. rewrite Hno in Ht. unfold SNAPSHOT_TAIL_LINES in Ht. cbn [length] in Ht. lia.
      + right. destruct (tail_whole rows k0 k2 x Hs ltac:(lia) Hxin) as [Ht|Ht]; [by rewrite Hst in Ht|]. rewrite Hno in Ht. unfold SNAPSHOT_TAIL_LINES in Ht. cbn [length] in Ht. lia.
    - apply elem_of_app in Hin as [Hin| ->%list_elem_of_singleton]; [|lia]. specialize (Hsl e x Hin ltac:(by left)). lia. }
  pose proof (last_seq_spec (map line_entry (map output_line (summary_rows rows k0 k1 k2)))) as Hl. rewrite shown_seqs in Hl.
  fold (shown_seq (summary_rows rows k0 k1 k2)) in Hl. assert (event_seq x ∈ map event_seq (summary_rows rows k0 k1 k2)) as Hxm by (apply list_elem_of_fmap; by exists x).
  unfold past. destruct (shown_seq _) as [m|]; [|rewrite Hl in Hxm; by apply not_elem_of_nil in Hxm]. destruct Hl as [_ Hl]. specialize (Hl _ Hxm). apply Z.ltb_ge. lia.
Qed.
Lemma panel_rows_spec rows k0 k1 k2 :
  StronglySorted Z.lt (map event_seq rows) → (k0 ≤ k1)%nat → (k1 ≤ k2)%nat →
  StronglySorted Z.lt (map event_seq (panel_rows rows k0 k1 k2))
  ∧ (∀ e, e ∈ panel_rows rows k0 k1 k2 → e ∈ rows)
  ∧ ∀ e, e ∈ rows → e ∉ panel_rows rows k0 k1 k2 →
      (Z.to_nat SNAPSHOT_TAIL_LINES ≤ length (List.filter (later_of e) (take k0 rows)))%nat ∨ e ∈ drop k0 (take k2 rows).
Proof.
  intros Hs H1 H2. unfold panel_rows. set (shown := summary_rows rows k0 k1 k2).
  pose proof (last_seq_spec (map line_entry (map output_line shown))) as Hl. rewrite shown_seqs in Hl. fold (shown_seq shown) in Hl. split_and!.
  - rewrite map_app. apply StronglySorted_app_2; [|by apply summary_sorted|by apply filter_sorted].
    intros x y Hx (z & -> & [Hz Hp]%elem_list_filter)%list_elem_of_fmap. unfold past in Hp.
    destruct (shown_seq shown) as [m|]; [|rewrite Hl in Hx; by apply not_elem_of_nil in Hx]. destruct Hl as [_ Hl]. specialize (Hl _ Hx).
    apply Z.ltb_lt in Hp. lia.
  - intros e [He|[He _]%elem_list_filter]%elem_of_app; [|done]. apply summary_known in He; [|done]. by eapply subseteq_take.
  - intros e He Hno. assert (e ∉ shown ∧ past (shown_seq shown) e = false) as [Hns Hnp].
    { split; [intros Hx; apply Hno, elem_of_app; by left|]. apply not_true_iff_false. intros Hx. apply Hno, elem_of_app. right. by apply elem_list_filter. }
    rewrite <- (take_drop k0 rows) in He. apply elem_of_app in He as [He|He].
    + left. destruct (tail_whole rows k0 (match event_stream e with Stdout => k1 | Stderr => k2 end) e Hs) as [Ht|Ht]; [destruct (event_stream e); lia|done| |done].
      exfalso. apply Hns, summary_in. destruct (event_stream e); [by left|by right].
    + right. assert (drop k0 rows = app (drop k0 (take k2 rows)) (drop k2 rows)) as Hd.
      { rewrite <- (take_drop k2 rows) at 1. destruct (decide (k2 ≤ length rows)%nat).
        - apply drop_app_le. rewrite length_take. lia.
        - rewrite (drop_ge rows k2), !app_nil_r by lia. done. }
      rewrite Hd in He. apply elem_of_app in He as [He|He]; [done|]. exfalso. unfold past in Hnp.
      destruct (shown_seq shown) as [m|]; [|done]. apply Z.ltb_ge in Hnp. destruct Hl as [(x & -> & Hx)%list_elem_of_fmap _].
      apply summary_known in Hx; [|done]. rewrite <- (take_drop k2 rows) in Hs. apply sorted_part in Hs as (_ & _ & Hs).
      specialize (Hs x e Hx He). lia.
Qed.

Section Page.
Context {V : Type} `{EqDecision V}.
Variable parse_blocks : string → Result (list (ContentBlock V)) string.
Context {ContextDetail : Type}.
Abbreviation State := (ConversationState (ContextDetail := ContextDetail)).

(** The page's state once it has taken a snapshot in. *)
Definition with_snapshot (snapshot : SandboxSnapshot) (s : State) : State :=
  let p := merge_sandbox_snapshot (panel_of s) snapshot in
  s <| sandbox_pods := ChatPage.pods p |> <| sandbox_terminals := ChatPage.terminals p |>.

(** C35. Output replayed after a snapshot shows once.  Take a tab that subscribed when the
    first [j] lines of a running command were out, then asked for a snapshot, whose reads of
    that command, its counts, its stdout and its stderr, found its first [k0], [k1] and [k2]
    lines, each no fewer than the one before; took the snapshot in; and then got the event
    of every line since it subscribed.  It shows lines of the command only, in order and none
    twice, and every one but those already 200 lines back in their stream at the first read,
    and those written between the first read and the last, of which it may miss some: so
    none but the old ones where nothing was written meanwhile.  Nothing else of the page
    changes after the snapshot, the command's status included. *)
Theorem replayed_output_shows_once (s : State) snapshot t c command scripts now d0 d1 d2 rows j k0 k1 k2 :
  let id := command_id command in
  let s1 := with_snapshot snapshot s in
  panel_ok (panel_of s) → snapshot_ok snapshot → t ∈ snapshot_terminals snapshot → c ∈ ts_commands t →
  fetch_command_summary command (Build_SummaryReads (Some (now, d0)) (Some d1) (Some d2) scripts) = Some c →
  StronglySorted Z.lt (map event_seq rows) →
  lines_of id both d0 = take k0 rows → lines_of id both d1 = take k1 rows → lines_of id both d2 = take k2 rows →
  (j ≤ k0)%nat → (k0 ≤ k1)%nat → (k1 ≤ k2)%nat →
  ∃ before after newer older shown,
    sandbox_terminals s1 = app before (terminal_entry t :: after)
    ∧ tp_commands (terminal_entry t) = app newer (command_entry c :: older)
    ∧ apply_events parse_blocks (map (λ e, line_event (ts_terminal_id t) id "running" (output_line e)) (drop j rows)) s1
      = with_command s1 before (terminal_entry t) after newer (command_entry c <| cp_output := map line_entry (map output_line shown) |>) older
    ∧ StronglySorted Z.lt (map event_seq shown)
    ∧ (∀ e, e ∈ shown → e ∈ rows)
    ∧ ∀ e, e ∈ rows → e ∉ shown →
        (200 ≤ length (List.filter (λ e', bool_decide (event_stream e' = event_stream e) && (event_seq e <? event_seq e')%Z) (take k0 rows)))%nat
        ∨ e ∈ drop k0 (take k2 rows).
Proof.
  cbn zeta. intros Hp Hsnap Ht Hc Hfetch Hs H0 H1 H2 Hj Hk1 Hk2.
  assert (cs_command_id c = command_id command ∧ cs_output c = map output_line (summary_rows rows k0 k1 k2)) as [Hid Hout].
  { unfold fetch_command_summary in Hfetch. cbn [status_read stdout_read stderr_read mbind option_bind] in Hfetch. unfold terminal_command_status in Hfetch.
    destruct (get_terminal_command _ d0) as [row|]; [|done]. cbn [mbind option_bind stdout_lines stderr_lines] in Hfetch. injection Hfetch as <-. split; [done|].
    unfold summary_rows. by rewrite <- (read_tail_rows _ Stdout rows k0 k1 d0 d1 Hs H0 H1), <- (read_tail_rows _ Stderr rows k0 k2 d0 d2 Hs H0 H2). }
  destruct Hp as (_ & Hpt & _). pose proof Hsnap as (_ & Hst & Hso). cbn in Hst, Hso.
  pose proof (snapshot_terminals_perm _ _ Hpt Hst) as Hperm.
  set (s1 := with_snapshot snapshot s). change (ChatPage.terminals (merge_sandbox_snapshot (panel_of s) snapshot)) with (sandbox_terminals s1) in Hperm.
  assert (terminal_entry t ∈ sandbox_terminals s1) as (before & after & Hbefore)%list_elem_of_split by (rewrite Hperm; apply list_elem_of_fmap; by exists t).
  assert (command_entry c ∈ tp_commands (terminal_entry t)) as (newer & older & Hnewer)%list_elem_of_split by (apply list_elem_of_fmap; by exists c).
  destruct (panel_rows_spec rows k0 k1 k2 Hs Hk1 Hk2) as (Hsorted & Hin & Hmiss).
  exists before, after, newer, older, (panel_rows rows k0 k1 k2). split_and!; [done|done| |done|done|exact Hmiss].
  assert (s1 = with_command s1 before (terminal_entry t) after newer (command_entry c) older) as Heq.
  { unfold with_command. rewrite <- Hnewer. assert (terminal_entry t <| tp_commands := tp_commands (terminal_entry t) |> = terminal_entry t) as -> by by destruct t.
    rewrite <- Hbefore. by destruct s1. }
  rewrite <- (map_map output_line (line_event (ts_terminal_id t) (command_id command) "running")). rewrite Heq at 1.
  rewrite line_events_at.
  - unfold panel_rows. rewrite (replay_past _ _ (summary_rows rows k0 k1 k2)).
    + set (f := past (shown_seq (summary_rows rows k0 k1 k2))). assert (List.filter f (take j rows) = []) as Hold.
      { apply list_filter_none, Forall_forall. intros e He. apply (had_at_first rows k0 k1 k2); try done.
        assert (take j rows = take j (take k0 rows)) as Htj by (rewrite take_take; f_equal; lia). rewrite Htj in He. by eapply subseteq_take. }
      assert (List.filter f rows = List.filter f (drop j rows)) as ->; [|done].
      rewrite <- (take_drop j rows) at 1. by rewrite List.filter_app, Hold.
    + rewrite <- (take_drop j rows) in Hs. by apply sorted_part in Hs as (_ & ? & _).
    + by apply summary_sorted.
    + cbn [command_entry cp_output]. by rewrite Hout.
  - assert (NoDup (map tp_terminal_id (sandbox_terminals s1))) as Hnd by (by rewrite Hperm). rewrite Hbefore, map_app in Hnd.
    apply NoDup_app in Hnd as (_ & Hnd & _). apply Forall_forall. intros x Hx. apply Z.eqb_neq. intros He. apply (Hnd (ts_terminal_id t)); [|left].
    apply list_elem_of_fmap. by exists x.
  - done.
  - rewrite Forall_forall in Hso. destruct (Hso (terminal_entry t)) as [Hcs _]; [apply list_elem_of_fmap; by exists t|].
    rewrite Hnewer, map_app in Hcs. apply NoDup_app in Hcs as (_ & _ & Hcs). cbn [map] in Hcs. apply NoDup_cons in Hcs as [Hn _].
    apply Forall_forall. intros x Hx. apply bool_decide_eq_false. intros He. apply Hn. cbn [cp_command_id command_entry]. rewrite Hid, <- He.
    apply list_elem_of_fmap. by exists x.
  - done.
Qed.
End Page.

(** ** Examples *)

Definition no_blocks_read (_ : string) : Result (list (ContentBlock unit)) string := Err "".
Definition sample_rows : list EventRow :=
  [Build_EventRow "c-1" Stdout 1 "one"; Build_EventRow "c-1" Stderr 2 "two"; Build_EventRow "c-1" Stdout 5 "three"].
Definition sample_make : TerminalCommand :=
  SandboxDb.Build_TerminalCommand 1 7 "c-1" "make" SandboxDb.Running None None 300 None None 0 None.
Definition sample_records (rows : list EventRow) : SandboxDb := Build_SandboxDb [] [] [sample_make] rows 4 8 [] [].
Definition sample_summary (d0 d1 d2 : list EventRow) : option SandboxCommandSummary :=
  fetch_command_summary sample_make (Build_SummaryReads (Some (9%Z, sample_records d0)) (Some (sample_records d1)) (Some (sample_records d2)) None).
Definition sample_snapshot (c : option SandboxCommandSummary) : SandboxSnapshot :=
  Build_SandboxSnapshot [Build_SandboxPodSummary 3 "Running" None [Build_SandboxTerminalSummary 7 3 "connected" (match c with Some c => [c] | None => [] end)] []].
Definition sample_page (c : option SandboxCommandSummary) : ConversationState (ContextDetail := unit) :=
  with_snapshot (sample_snapshot c) default_state.
Definition lines_shown (s : ConversationState (ContextDetail := unit)) : list string :=
  map lp_data (mjoin (map cp_output (mjoin (map tp_commands (sandbox_terminals s))))).

Lemma replayed_output_shows_once_witness :
  ∃ before t after newer c older shown,
    apply_events no_blocks_read (map (λ e, line_event 7 "c-1" "running" (output_line e)) (drop 1 sample_rows))
      (sample_page (sample_summary (take 2 sample_rows) (take 2 sample_rows) (take 2 sample_rows)))
    = with_command (sample_page (sample_summary (take 2 sample_rows) (take 2 sample_rows) (take 2 sample_rows))) before t after newer
        (c <| cp_output := map line_entry (map output_line shown) |>) older
    ∧ StronglySorted Z.lt (map event_seq shown).
Proof.
  destruct (sample_summary (take 2 sample_rows) (take 2 sample_rows) (take 2 sample_rows)) as [c|] eqn:Hc; [|vm_compute in Hc; discriminate].
  pose proof (replayed_output_shows_once (ContextDetail := unit) no_blocks_read default_state (sample_snapshot (Some c)) (Build_SandboxTerminalSummary 7 3 "connected" [c]) c
    sample_make None 9 (sample_records (take 2 sample_rows)) (sample_records (take 2 sample_rows)) (sample_records (take 2 sample_rows)) sample_rows 1 2 2 2) as H.
  cbv zeta in H. vm_compute in Hc. destruct H as (before & after & newer & older & shown & _ & _ & Hshown & Hsorted & _).
  - unfold panel_ok. cbn. repeat constructor.
  - injection Hc as <-. unfold snapshot_ok, panel_ok, terminal_ok, command_ok. cbn. repeat constructor; try lia; by apply not_elem_of_nil.
  - by left.
  - by left.
  - rewrite <- Hc. vm_compute. reflexivity.
  - cbn. repeat constructor.
  - vm_compute. reflexivity.
  - vm_compute. reflexivity.
  - vm_compute. reflexivity.
  - lia.
  - lia.
  - lia.
  - exists before, (terminal_entry (Build_SandboxTerminalSummary 7 3 "connected" [c])), after, newer, (command_entry c), older, shown. split; [exact Hshown|exact Hsorted].
Defined.

(** A line of stdout written between the two reads, under a line of stderr the second finds,
    is in no snapshot, and its event is skipped as had. *)
Lemma a_line_between_the_reads_is_lost :
  let page := sample_page (sample_summary [] [] (take 2 sample_rows)) in
  lines_shown (apply_events no_blocks_read (map (λ e, line_event 7 "c-1" "running" (output_line e)) sample_rows) page) = ["two"; "three"].
Proof. vm_compute. reflexivity. Qed.
