(* ===== verification/PodCreate.v ===== *)
(** * PodCreate: starting a pod

    [create_pod_attempt], [create_pod_now], [create_pod] and [start_or_get_pod] of
    [src/src/sandbox/manager/create.rs]: the guard, the record made before the pod, each
    step of the start, and the record closed again when one fails.  What the cluster and
    the pod answer are the steps of [Start], calls that may take time and so may find pods
    ended by others meanwhile; the limits and volumes a start uses are theirs.  The start
    lock is held for the whole of it. *)

From S2P Require Import Prelude RustStr ChatPage SandboxDb SandboxErrors PodLifecycle PodConnect.
Local Open Scope string_scope.

(** What a start asks for, in the order of its use. *)
Record Start := {
  manager : Result unit SandboxError;
  instance : Result unit string;
  sandbox_volumes : Call (Result unit string);
  conversation_volume_mounts : Call (Result unit string);
  pods_gone : Call (Result unit SandboxError);
  ensure_pvcs : Call (Result unit SandboxError);
  ensure_volume_claims : Call (Result unit SandboxError);
  create_with_docker : Z → Call (Result unit SandboxError);
  install : Z → Call (Result unit string);
  delete_created : Z → Call unit;
  conversation_exists : Call (Result bool string);
  teardown : Call unit;
  node_of : Z → Call (option string);
}.

Section Starting.
Context (start : Start).

Definition check_pod_guard (existing : list PodRow) : Result unit SandboxError :=
  match existing with [] => Ok () | _ => Err PodAlreadyExists end.
Definition stopped_while_starting : SandboxError := StartFailed "the sandbox was stopped while it was starting".
Definition unwrap_or {T} (default : T) (m : Call (Result T string)) : Call T :=
  let* r := m in ret (match r with Ok x => x | Err _ => default end).
Definition is_live (pod_id : Z) : Call bool := unwrap_or true (read (λ _, sandbox_pod_is_live pod_id)).
Definition start_error (pod_id : Z) (e : SandboxError) : Call SandboxError :=
  let* live := is_live pod_id in
  ret (if live then e else stopped_while_starting).
Definition close_record (pod_id : Z) : Call unit :=
  let* _ := query (λ now, terminate_sandbox_pod now pod_id) in ret ().
Definition failed_start (pod_id : Z) (e : SandboxError) : Call (Result Z SandboxError) :=
  let* _ := close_record pod_id in ret (Err e).
(** A step before the pod is made, whose failure closes the record. *)
Definition step_or_close (pod_id : Z) (step : Call (Result unit SandboxError)) (k : Call (Result Z SandboxError)) : Call (Result Z SandboxError) :=
  let* r := step in
  match r with Ok _ => k | Err e => failed_start pod_id e end.

(** The pod made: its git setup, and whether it is still wanted. *)
Definition pod_made (conversation_id pod_id : Z) : Call (Result Z SandboxError) :=
  let* installed := install start pod_id in
  match installed with
  | Err e =>
      let* e := start_error pod_id (GitSetup e) in
      let* _ := delete_created start pod_id in
      failed_start pod_id e
  | Ok _ =>
      let* live := is_live pod_id in
      if negb live then
        let* _ := delete_created start pod_id in
        ret (Err stopped_while_starting)
      else
        let* exists_ := unwrap_or true (conversation_exists start) in
        if negb exists_ then
          let* _ := teardown start in
          ret (Err (StartFailed "the conversation was deleted while its sandbox was starting"))
        else
          let* node := node_of start pod_id in
          let* _ := publish conversation_id (SandboxPodUpdate pod_id "Running" node false) in
          let* _ := publish_pods_changed in
          ret (Ok pod_id)
  end.
Definition create_row (conversation_id : Z) : Call (Result PodRow SandboxError) :=
  let* row := query (λ now, create_sandbox_pod now conversation_id) in
  ret (match row with Ok (Ok row) => Ok row | Ok (Err _) => Err PodAlreadyExists | Err e => Err (Db e) end).
Definition create_pod_attempt (conversation_id : Z) : Call (Result Z SandboxError) :=
  let?* existing := db_error (read (λ _, list_sandbox_pods conversation_id)) in
  let?* _ := ret (check_pod_guard existing) in
  let?* _ := ret (manager start) in
  let?* _ := db_error (ret (instance start)) in
  let?* row := create_row conversation_id in
  let pod_id := pod_row row in
  let?* _ := db_error (sandbox_volumes start) in
  let?* _ := db_error (conversation_volume_mounts start) in
  step_or_close pod_id (pods_gone start)
    (step_or_close pod_id (ensure_pvcs start)
       (step_or_close pod_id (ensure_volume_claims start)
          (let* created := create_with_docker start pod_id in
           match created with
           | Ok _ => pod_made conversation_id pod_id
           | Err e => let* e := start_error pod_id e in failed_start pod_id e
           end))).

Definition create_pod_now (conversation_id : Z) : Call (Result Z SandboxError) :=
  let* result := create_pod_attempt conversation_id in
  match result with
  | Ok pod_id => ret (Ok pod_id)
  | Err e =>
      let* exists_ := unwrap_or true (conversation_exists start) in
      let* _ := if negb exists_ && is_ok (manager start) then teardown start else ret () in
      ret (Err e)
  end.
Definition create_pod (conversation_id : Z) : Call (Result Z SandboxError) := create_pod_now conversation_id.
Definition start_or_get_pod (conversation_id : Z) : Call (Result Z SandboxError) :=
  let* live := conversation_pod_id conversation_id in
  match live with Ok pod_id => ret (Ok pod_id) | Err _ => create_pod_now conversation_id end.
End Starting.

(** ** What a start may find done meanwhile *)

(** Pods only end from [d] to [d']. *)
Definition pods_end (d d' : SandboxDb) : Prop :=
  Forall2 (λ p p', pod_row p' = pod_row p ∧ pod_conversation p' = pod_conversation p ∧ (pod_live p' = true → p' = p)) (pods d) (pods d').
(** A call that answers, without queries failing, and in which pods only end. *)
Definition steady {T} (m : Call T) : Prop := ∀ s, faults s = [] → faults (snd (m s)) = [] ∧ pods_end (db s) (db (snd (m s))).
Record steady_start (start : Start) : Prop := {
  st_volumes : steady (sandbox_volumes start);
  st_mounts : steady (conversation_volume_mounts start);
  st_gone : steady (pods_gone start);
  st_pvcs : steady (ensure_pvcs start);
  st_claims : steady (ensure_volume_claims start);
  st_create i : steady (create_with_docker start i);
  st_install i : steady (install start i);
  st_delete i : steady (delete_created start i);
  st_exists : steady (conversation_exists start);
  st_teardown : steady (teardown start);
  st_node i : steady (node_of start i);
}.

Lemma pods_end_refl d : pods_end d d.
Proof. unfold pods_end. induction (pods d); constructor; auto. Qed.
Lemma pods_end_trans d1 d2 d3 : pods_end d1 d2 → pods_end d2 d3 → pods_end d1 d3.
Proof.
  unfold pods_end. generalize (pods d1), (pods d2), (pods d3). intros l1 l2 l3 H12. revert l3.
  induction H12 as [|c1 c2 l1 l2 (? & ? & Hc) _ IH]; intros l3 H23; inversion H23 as [|? c3 ? l3' (? & ? & Hc') Hl]; subst; constructor; [|by apply IH].
  conjs; [congruence..|]. intros Hr. specialize (Hc' Hr). subst c3. by apply Hc.
Qed.
Lemma pods_end_live d d' p : pods_end d d' → p ∈ pods d' → pod_live p = true → p ∈ pods d.
Proof.
  intros He Hp Hl. destruct (proj1 (list_elem_of_lookup _ _) Hp) as [i Hi].
  destruct (Forall2_lookup_r _ _ _ _ _ He Hi) as (p0 & Hi0 & _ & _ & Heq). rewrite (Heq Hl). by eapply list_elem_of_lookup_2.
Qed.
Lemma pods_end_closed now i d : pods_end d (snd (terminate_sandbox_pod now i d)).
Proof.
  unfold pods_end, terminate_sandbox_pod, terminate_sandbox_pod_as, set_field. cbn. induction (pods d) as [|p l IH]; constructor; [|done].
  by destruct (end_takes Plain i p).
Qed.

(** The state [s'] reached from [s] by a steady call. *)
Definition steadily (s s' : Life) : Prop := faults s = [] → faults s' = [] ∧ pods_end (db s) (db s').
Lemma steadily_trans s1 s2 s3 : steadily s1 s2 → steadily s2 s3 → steadily s1 s3.
Proof. intros H1 H2 Hf. destruct (H1 Hf) as [Hf2 He]. destruct (H2 Hf2) as [Hf3 He']. split; [done|by eapply pods_end_trans]. Qed.
Lemma steady_bind {T U} (m : Call T) (k : T → Call U) : steady m → (∀ x, steady (k x)) → steady (andThen m k).
Proof.
  intros Hm Hk s Hf. unfold andThen. destruct (Hm s Hf) as [Hf1 He]. destruct (m s) as [x s1]. destruct (Hk x s1 Hf1) as [? ?].
  split; [done|by eapply pods_end_trans].
Qed.
Lemma steady_ret {T} (x : T) : steady (ret x).
Proof. intros s Hf. split; [done|apply pods_end_refl]. Qed.
Lemma steady_read {T} (f : Z → SandboxDb → T) : steady (read f).
Proof. intros s Hf. rewrite read_ok by done. split; [done|apply pods_end_refl]. Qed.
Lemma steady_write (f : Life → Life) : (∀ s, faults (f s) = faults s ∧ db (f s) = db s) → steady (write f).
Proof. intros Hw s Hf. cbn. destruct (Hw s) as [-> ->]. split; [done|apply pods_end_refl]. Qed.
Lemma steady_unwrap {T} (x : T) m : steady m → steady (unwrap_or x m).
Proof. intros Hm. apply steady_bind; [done|]. intros. apply steady_ret. Qed.

(** No row of id [i] is live. *)
Definition dead (i : Z) (d : SandboxDb) : Prop := ∀ p, p ∈ pods d → pod_row p = i → pod_live p = false.
Lemma dead_later i d d' : pods_end d d' → dead i d → dead i d'.
Proof.
  intros He Hd p Hp Hi. destruct (pod_live p) eqn:Hl; [|done]. pose proof (pods_end_live _ _ _ He Hp Hl) as Hp0. by rewrite (Hd p Hp0 Hi) in Hl.
Qed.
Lemma dead_iff i d : sandbox_pod_is_live i d = false ↔ dead i d.
Proof.
  unfold sandbox_pod_is_live. rewrite existsb_false. split; intros Hd p Hp; specialize (Hd p Hp).
  - intros E. by rewrite E, Z.eqb_refl in Hd.
  - destruct (Z.eqb_spec (pod_row p) i) as [E|E]; [by apply Hd|done].
Qed.
Lemma failed_start_closes i (e : SandboxError) s : faults s = [] →
  let '(r, s') := failed_start i e s in r = Err e ∧ faults s' = [] ∧ pods_end (db s) (db s') ∧ dead i (db s').
Proof.
  intros Hf. unfold failed_start, close_record, andThen. rewrite query_ok by done. cbn [ret]. conjs; [done|done|apply pods_end_closed|].
  intros p (p0 & Hp0 & ->)%in_update Hi. unfold end_takes in *. destruct (Z.eqb_spec (pod_row p0) i) as [E|E]; [done|]. cbn in *. congruence.
Qed.

(** What a start may leave of the row it made: it running, or it live after a failure that
    doesn't close it. *)
Section Facts.
Context (start : Start) (Hsteady : steady_start start).
Definition DELETED : SandboxError := StartFailed "the conversation was deleted while its sandbox was starting".

(** After the row [i] was made in [d]: no failure but the deleted conversation's leaves it live. *)
Definition settled (i : Z) (d : SandboxDb) (out : Result Z SandboxError * Life) : Prop :=
  let '(r, s') := out in
  faults s' = [] ∧ pods_end d (db s') ∧ match r with Ok j => j = i | Err e => e = DELETED ∨ dead i (db s') end.
Lemma settled_from i d d' out : pods_end d d' → settled i d' out → settled i d out.
Proof. destruct out as [r s']. intros He (Hf & He' & Hr). split; [done|]. split; [by eapply pods_end_trans|done]. Qed.
Lemma settled_failed i e s : faults s = [] → settled i (db s) (failed_start i e s).
Proof.
  intros Hf. pose proof (failed_start_closes i e s Hf) as H. destruct (failed_start i e s) as [r s']. destruct H as (-> & Hf' & He & Hd).
  split; [done|]. split; [done|]. by right.
Qed.
Lemma settled_after {T} i s (m : Call T) (k : T → Call (Result Z SandboxError)) : steady m → faults s = [] →
  (∀ s1, faults s1 = [] → settled i (db s1) (k (fst (m s)) s1)) → settled i (db s) (andThen m k s).
Proof.
  intros Hm Hf Hk. unfold andThen. destruct (Hm s Hf) as [Hf1 He]. destruct (m s) as [x s1]. cbn in *. eapply settled_from; [exact He|]. by apply Hk.
Qed.
Lemma settled_step i step k s : steady step → faults s = [] → (∀ s1, faults s1 = [] → settled i (db s1) (k s1)) → settled i (db s) (step_or_close i step k s).
Proof.
  intros Hst Hf Hk. apply (settled_after i s step _ Hst Hf). intros s1 Hf1. destruct (fst (step s)); [by apply Hk|by apply settled_failed].
Qed.
Lemma settled_start_error i e (k : SandboxError → Call (Result Z SandboxError)) s : faults s = [] →
  (∀ e1 s1, faults s1 = [] → settled i (db s1) (k e1 s1)) → settled i (db s) (andThen (start_error i e) k s).
Proof.
  intros Hf Hk. apply settled_after; [|done|intros; by apply Hk]. apply steady_bind; [apply steady_unwrap, steady_read|]. intros. apply steady_ret.
Qed.
Lemma settled_made conversation_id i s : faults s = [] → settled i (db s) (pod_made start conversation_id i s).
Proof.
  intros Hf. destruct Hsteady. apply settled_after; [apply st_install0|done|]. intros s1 Hf1. destruct (fst (install start i s)) as [[]|e].
  - unfold is_live, unwrap_or at 1, andThen at 1 2. rewrite read_ok by done. cbn [ret]. destruct (sandbox_pod_is_live i (db s1)) eqn:Hl; cbn [negb].
    + apply settled_after; [by apply steady_unwrap|done|]. intros s2 Hf2.
      destruct (fst (unwrap_or true (conversation_exists start) s1)); cbn [negb].
      * apply settled_after; [done|done|]. intros s3 Hf3. split; [done|]. split; [apply pods_end_refl|done].
      * apply settled_after; [done|done|]. intros s3 Hf3. split; [done|]. split; [apply pods_end_refl|]. by left.
    + apply dead_iff in Hl. unfold andThen. destruct (st_delete0 i s1 Hf1) as [Hf2 He]. destruct (delete_created start i s1) as [[] s2].
      split; [done|]. split; [done|]. right. by eapply dead_later.
  - apply settled_start_error; [done|]. intros e1 s2 Hf2. apply settled_after; [done|done|]. intros s3 Hf3. by apply settled_failed.
Qed.

(** A start that fails at a read of the volumes. *)
Definition volumes_unread (r : Result Z SandboxError) : Prop :=
  ∃ e s1, r = Err (Db e) ∧ (fst (sandbox_volumes start s1) = Err e ∨ fst (conversation_volume_mounts start s1) = Err e).
Definition ended_well (i : Z) (d : SandboxDb) (out : Result Z SandboxError * Life) : Prop :=
  let '(r, s') := out in
  faults s' = [] ∧ pods_end d (db s') ∧ match r with Ok j => j = i | Err e => e = DELETED ∨ dead i (db s') ∨ volumes_unread r end.
Lemma settled_well i d out : settled i d out → ended_well i d out.
Proof. destruct out as [[j|e] s']; intros (Hf & He & Hr); (split; [done|]); (split; [done|]); [done|]. destruct Hr; auto. Qed.
Lemma volumes_read i s (m : Call (Result unit string)) (k : unit → Call (Result Z SandboxError)) :
  (∀ e s1, fst (m s1) = Err e → volumes_unread (Err (Db e))) → steady m → faults s = [] →
  (∀ s1, faults s1 = [] → ended_well i (db s1) (k () s1)) → ended_well i (db s) (try_ (db_error m) k s).
Proof.
  intros Hun Hm Hf Hk. unfold try_, db_error, fails_as, andThen. destruct (Hm s Hf) as [Hf1 He]. specialize (Hun). destruct (m s) as [[[]|e] s1] eqn:Hms; cbn in *.
  - specialize (Hk s1 Hf1). destruct (k () s1) as [r s2]. destruct Hk as (Hf2 & He2 & Hr). split; [done|]. split; [by eapply pods_end_trans|done].
  - split; [done|]. split; [done|]. right. right. apply (Hun e s). by rewrite Hms.
Qed.
Lemma row_made conversation_id s : faults s = [] →
  let row := Build_PodRow (next_pod (db s)) conversation_id (now s) None None None None in
  let '(r, s') := create_row conversation_id s in
  match r with
  | Ok row' => row' = row ∧ faults s' = [] ∧ pods (db s') = app (pods (db s)) [row]
  | Err e => e = PodAlreadyExists ∧ db s' = db s
  end.
Proof.
  intros Hf row. unfold create_row, andThen. rewrite query_ok by done. unfold create_sandbox_pod. destruct (existsb _ (pods (db s))); cbn; by destruct s.
Qed.

(** C32. A start that fails leaves no pod behind.  Whatever the cluster answers at each step
    and whatever is stopped meanwhile, a second pod is refused and changes nothing; else of
    the rows live after a start only one can be new, the one it made, and only if the start
    succeeded and answers with it, or the conversation was deleted and takes it along, or
    the volumes to mount couldn't be read: then the row made is left live with no pod. *)
Theorem a_failed_start_leaves_no_pod (conversation_id : Z) (s : Life) (Hup : faults s = []) :
  let row := Build_PodRow (next_pod (db s)) conversation_id (now s) None None None None in
  let '(r, s') := create_pod_attempt start conversation_id s in
  (list_sandbox_pods conversation_id (db s) ≠ [] → r = Err PodAlreadyExists ∧ db s' = db s)
  ∧ (∀ i, r = Ok i → i = pod_row row)
  ∧ (∀ p, p ∈ pods (db s') → pod_live p = true →
       p ∈ pods (db s) ∨ p = row ∧ (r = Ok (pod_row row) ∨ r = Err DELETED ∨ volumes_unread r)).
Proof.
  intros row. destruct (create_pod_attempt start conversation_id s) as [r s'] eqn:Hrun.
  unfold create_pod_attempt in Hrun. unfold try_ at 1, db_error, fails_as, andThen at 1 2 in Hrun. rewrite read_ok in Hrun by done. cbn [map_err ret] in Hrun.
  destruct (list_sandbox_pods conversation_id (db s)) as [|p0 rows].
  2: { unfold try_, andThen, ret in Hrun. cbn in Hrun. injection Hrun as <- <-. conjs; [done|done|]. by left. }
  split; [done|]. cbn [check_pod_guard] in Hrun. unfold try_ at 1, andThen at 1, ret at 1 in Hrun.
  unfold try_ at 1, andThen at 1, ret at 1 in Hrun. destruct (manager start) as [[]|e]; [|injection Hrun as <- <-; split; [done|by left]].
  unfold try_ at 1, andThen at 1 2, ret at 1 2 in Hrun. destruct (instance start) as [[]|e]; [|injection Hrun as <- <-; split; [done|by left]].
  cbn [map_err] in Hrun. unfold try_ at 1, andThen at 1 in Hrun. pose proof (row_made conversation_id s Hup) as Hrow. fold row in Hrow.
  destruct (create_row conversation_id s) as [[row'|e] s1]; [|destruct Hrow as [-> Hd]; injection Hrun as <- <-; split; [done|left; by rewrite <-Hd]].
  destruct Hrow as (-> & Hf1 & Hpods). destruct Hsteady.
  assert (ended_well (pod_row row) (db s1) (r, s')) as (_ & He & Hr).
  { rewrite <-Hrun. apply volumes_read; [intros e s2 Hv; exists e, s2; auto|done|done|]. intros s2 Hf2.
    apply volumes_read; [intros e s3 Hv; exists e, s3; auto|done|done|]. intros s3 Hf3. apply settled_well.
    repeat (apply settled_step; [done|done|]; clear s3 Hf3; intros s3 Hf3). apply settled_after; [done|done|]. intros s4 Hf4.
    destruct (fst _) as [[]|e]; [by apply settled_made|]. apply settled_start_error; [done|]. intros e1 s5 Hf5. by apply settled_failed. }
  split; [intros i ->; done|]. intros p Hp Hl. pose proof (pods_end_live _ _ _ He Hp Hl) as Hin. rewrite Hpods in Hin.
  apply elem_of_app in Hin as [Hin| ->%list_elem_of_singleton]; [by left|]. right. split; [done|].
  destruct r as [i|e]; [left; by rewrite Hr|right]. destruct Hr as [->|[Hd|Hv]]; [by left| |by right]. by rewrite (Hd row Hp eq_refl) in Hl.
Qed.
End Facts.

(** A cluster that does all it is asked, and a database that times out on the volumes. *)
Definition unread : Start :=
  Build_Start (Ok ()) (Ok ()) (ret (Err "pool timed out")) (ret (Ok ())) (ret (Ok ())) (ret (Ok ())) (ret (Ok ()))
    (λ _, ret (Ok ())) (λ _, ret (Ok ())) (λ _, ret ()) (ret (Ok true)) (ret ()) (λ _, ret None).
Lemma unread_steady : steady_start unread.
Proof. split; intros; apply steady_ret. Qed.
Lemma a_failed_start_leaves_no_pod_witness :
  let row := Build_PodRow 3 9 60 None None None None in
  let '(r, s') := create_pod_attempt unread 9 busy_pod in
  (∀ p, p ∈ pods (db s') → pod_live p = true → p ∈ pods (db busy_pod) ∨ p = row ∧ (r = Ok 3%Z ∨ r = Err DELETED ∨ volumes_unread unread r))
  ∧ r = Err (Db "pool timed out") ∧ row ∈ pods (db s') ∧ pod_live row = true.
Proof.
  pose proof (a_failed_start_leaves_no_pod unread unread_steady 9 busy_pod eq_refl) as H.
  assert (create_pod_attempt unread 9 busy_pod = (Err (Db "pool timed out"), busy_pod <| db := snd (create_sandbox_pod 60 9 (db busy_pod)) |>)) as E
    by (vm_compute; reflexivity).
  rewrite E in *. destruct H as (_ & _ & H). split; [exact H|]. split; [reflexivity|]. split; [right; right; left|reflexivity].
Defined.
