(* ===== verification/QuietStop.v ===== *)
(** * QuietStop: stopping a pod quietly

    [src/src/sandbox/quiet_stop.rs] and the settings of [idle_notice.rs] and
    [storage_grace.rs]: the activity noted in memory and flushed to the records, the idle
    pass and the stop at an agent's finish, each under the conversation's turn lock and its
    start lock, with the re-check under both.  Whether a turn runs and whether a lock is
    free are what a stop meets, [Locks]; waiting for one is being given it. *)

From S2P Require Import Prelude RustStr Notices McpCalls Models ChatPage SandboxDb PodRegistry PodMessages SandboxErrors PodLifecycle PodConnect.
Local Open Scope string_scope.

(** ** Settings *)

Definition is_setting (setting : option string) : option string :=
  match setting with Some s => if bool_decide (s = "") then None else Some s | None => None end.
Definition DEFAULT_IDLE_STOP_MINUTES : Z := 60.
Definition MAX_IDLE_STOP_MINUTES : Z := 7 * 24 * 60.
(** A whole number from 0 to [max], else [default_]. *)
Definition number_up_to (max default_ : Z) (setting : option string) : Z :=
  match is_setting setting with
  | None => default_
  | Some s =>
      match parse_i64 s with
      | Some n => if (0 <=? n)%Z && (n <=? max)%Z then default default_ (u32_try_from n) else default_
      | None => default_
      end
  end.
Definition idle_stop_minutes_from (setting : option string) : Z := number_up_to MAX_IDLE_STOP_MINUTES DEFAULT_IDLE_STOP_MINUTES setting.
Definition DEFAULT_SANDBOX_STORAGE_REMOVAL_DAYS : Z := 7.
Definition MAX_SANDBOX_STORAGE_REMOVAL_DAYS : Z := 365.
Definition storage_removal_days_from (setting : option string) : Z :=
  number_up_to MAX_SANDBOX_STORAGE_REMOVAL_DAYS DEFAULT_SANDBOX_STORAGE_REMOVAL_DAYS setting.
Definition MAX_IDLE_NOTICE_MINUTES : Z := 24 * 60.
Definition DEFAULT_IDLE_NOTICE_SECS : Z := 300.
Definition idle_notice_secs_from (setting : option string) : Z :=
  match is_setting setting with
  | None => DEFAULT_IDLE_NOTICE_SECS
  | Some s =>
      match parse_i64 s with
      | Some minutes =>
          if (minutes =? 0)%Z then 0%Z
          else if (0 <? minutes)%Z && (minutes <=? MAX_IDLE_NOTICE_MINUTES)%Z then (minutes * 60)%Z
          else DEFAULT_IDLE_NOTICE_SECS
      | None => DEFAULT_IDLE_NOTICE_SECS
      end
  end.

(** ** Noted activity *)

(** The notes beside the state, and the calls on both. *)
Definition Noted (T : Type) : Type := gset Z → Life → T * gset Z * Life.
Definition note (conversation_id : Z) (notes : gset Z) : gset Z := {[conversation_id]} ∪ notes.
Definition flush_conversation (conversation_id : Z) : Noted bool := λ notes s,
  if bool_decide (conversation_id ∈ notes) then
    match update (λ now, flush_pod_activity now [conversation_id]) s with
    | (Ok _, s) => (true, notes ∖ {[conversation_id]}, s)
    | (Err _, s) => (false, notes, s)
    end
  else (true, notes, s).
Definition flush : Noted bool := λ notes s,
  if bool_decide (notes = ∅) then (true, notes, s)
  else
    match update (λ now, flush_pod_activity now (elements notes)) s with
    | (Ok _, s) => (true, notes ∖ notes, s)
    | (Err _, s) => (false, notes, s)
    end.

(** ** The stop *)

Inductive StopReason := IdleFor (minutes : Z) | ByFinish.
Definition reason_of (kind : QuietStopKind) (minutes : Z) : StopReason :=
  match kind with Idle => IdleFor minutes | AgentFinished => ByFinish end.
Definition kind_of (reason : StopReason) : QuietStopKind := match reason with IdleFor _ => Idle | ByFinish => AgentFinished end.
Definition minutes_of (reason : StopReason) : Z := match reason with IdleFor minutes => minutes | ByFinish => 0 end.
Definition KEPT : string :=
  "/workspace, Docker's images, build cache and volumes, and mounted volumes are kept; terminals, background processes and containers, installed packages and files elsewhere are gone.".
Definition stop_notice (reason : StopReason) (pod_id : Z) : string :=
  match reason with
  | IdleFor minutes =>
      mark_notice ("Sandbox pod " +:+ show_i64 pod_id +:+ " was stopped after " +:+ show_unsigned minutes
        +:+ " minutes with no activity and no command running. " +:+ KEPT
        +:+ " create_pod (or clone_repo) starts a new pod with /workspace as it was.")
  | ByFinish =>
      mark_notice ("Sandbox pod " +:+ show_i64 pod_id +:+ " was stopped because you finished. " +:+ KEPT
        +:+ " If you're given more work, create_pod (or clone_repo) starts a new pod with /workspace as it was.")
  end.

(** What a stop meets: a turn run or queued before, the turn lock free, the start lock free,
    a turn admitted while they were taken. *)
Record Locks := { running : bool; turn_lock : bool; start_lock : bool; admitted : bool }.
Definition all_clear (l : Locks) : bool := negb (running l) && turn_lock l && start_lock l && negb (admitted l).

Definition QUIET_STOP_DELETE_TIMEOUT_SECS : Z := 30.
(** [delete] given up on: [None] where it took longer; [secs] as it is shown. *)
Definition bounded (secs : string) (delete : Call (option (Result unit SandboxError))) : Call (Result unit SandboxError) :=
  let* r := delete in
  ret (match r with Some r => r | None => Err (SandboxTimeout (Some ("the cluster didn't answer the pod's delete within " +:+ secs +:+ " s"))) end).

Section Stopping.
(** Whether a conversation is still there, the row its notice becomes, and the delete. *)
Context (conversation_exists : Z → Call (Result bool string)) (message_of : Z → string → Message) (delete : Z → Call (Result unit SandboxError)).

(** [create_message_in_place] of a notice, unless its conversation is gone. *)
Definition save_in_place (conversation_id : Z) (text : string) : Call unit :=
  let* exists_ := conversation_exists conversation_id in
  match exists_ with
  | Ok true =>
      let* inserted := query (λ _ d, ((), d)) in
      match inserted with
      | Ok _ =>
          let* _ := write (λ s, s <| saved ::= λ l, app l [(conversation_id, text)] |>) in
          publish conversation_id (MessagesAppended [message_of conversation_id text])
      | Err _ => ret ()
      end
  | _ => ret ()
  end.
Definition stop_locked (pod_id conversation_id : Z) (reason : StopReason) : Call bool :=
  let* ended := terminate_pod_as pod_id Quiet (delete pod_id) in
  match ended with
  | Ok (Some _) =>
      let* _ := close_pod_terminals pod_id in
      let* _ := save_in_place conversation_id (stop_notice reason pod_id) in
      ret true
  | _ => ret false
  end.

(** The re-check, and the stop it allows. *)
Definition recheck_and_stop (pod_id conversation_id : Z) (reason : StopReason) : Call bool :=
  let* still := read (λ now, pod_still_stoppable now pod_id (kind_of reason) (minutes_of reason)) in
  match still with Ok true => stop_locked pod_id conversation_id reason | _ => ret false end.
Definition stop_candidate (locks : Locks) (pod_id conversation_id : Z) (reason : StopReason) : Noted bool := λ notes s,
  if negb (all_clear locks) then (false, notes, s)
  else
    match flush notes s with
    | (false, notes, s) => (false, notes, s)
    | (true, notes, s) => let '(stopped, s) := recheck_and_stop pod_id conversation_id reason s in (stopped, notes, s)
    end.
(** The candidates of a pass, one after the other. *)
Fixpoint stop_candidates (locks : Z → Locks) (minutes : Z) (candidates : list (Z * Z * QuietStopKind)) : Noted (list Z) := λ notes s,
  match candidates with
  | [] => ([], notes, s)
  | (pod_id, conversation_id, kind) :: rest =>
      let '(stopped, notes, s) := stop_candidate (locks pod_id) pod_id conversation_id (reason_of kind minutes) notes s in
      let '(others, notes, s) := stop_candidates locks minutes rest notes s in
      (if stopped then pod_id :: others else others, notes, s)
  end.
Definition stop_idle_pods_once_with (locks : Z → Locks) (minutes : Z) : Noted (list Z) := λ notes s,
  let '(_, notes, s) := flush notes s in
  match read (λ now, quiet_stop_candidates now minutes) s with
  | (Err _, s) => ([], notes, s)
  | (Ok candidates, s) => stop_candidates locks minutes candidates notes s
  end.
(** Both locks waited for. *)
Definition stop_finished_agent_pod_with (conversation_id : Z) : Noted bool := λ notes s,
  match read (λ _, list_sandbox_pods conversation_id) s with
  | (Ok (p :: _), s) =>
      match flush_conversation conversation_id notes s with
      | (false, notes, s) => (false, notes, s)
      | (true, notes, s) => let '(stopped, s) := recheck_and_stop (pod_row p) conversation_id ByFinish s in (stopped, notes, s)
      end
  | (_, s) => (false, notes, s)
  end.
End Stopping.

(** ** What a quiet stop takes *)

Lemma stoppable now pod_id kind minutes d : pod_still_stoppable now pod_id kind minutes d = true →
  ∃ p, p ∈ pods d ∧ pod_row p = pod_id ∧ pod_live p = true ∧ pod_busy p d = false
    ∧ (kind = Idle → (0 < minutes)%Z ∧ ∀ t, last_active_at p = Some t → (t < now)%Z).
Proof.
  unfold pod_still_stoppable. intros (p & Hp & [[[Hid%Z.eqb_eq Hl]%andb_true_iff Hb%negb_true_iff]%andb_true_iff Hk]%andb_true_iff)%existsb_true.
  exists p. conjs; try done. intros ->. unfold pod_idle_past in Hk. apply andb_true_iff in Hk as [H0%Z.ltb_lt Hm%Z.leb_le].
  destruct (idle_since_covers p d) as (_ & H2 & _). unfold minutes_param in *. split; [lia|]. intros t Ht. specialize (H2 t Ht). unfold MICROS in Hm. lia.
Qed.

(** The pod [p] of [d], unused: no command runs in it and nothing is cloned to it. *)
Definition unused (p : PodRow) (d : SandboxDb) : Prop :=
  pod_live p = true ∧ (∀ c, c ∈ pod_commands (pod_row p) d → status c ≠ Running) ∧ pod_conversation p ∉ cloning d.
Lemma unbusy_unused p d : pod_live p = true → pod_busy p d = false → unused p d.
Proof.
  intros Hl [Hcl Hrun]%orb_false_iff. unfold unused. conjs; [done| |].
  - intros c Hc Hst. rewrite existsb_false in Hrun. specialize (Hrun c Hc). unfold is_running in Hrun. by rewrite bool_decide_eq_true_2 in Hrun.
  - intros Hin. rewrite existsb_false in Hcl. specialize (Hcl _ Hin). by rewrite Z.eqb_refl in Hcl.
Qed.
(** What is noted in [notes] written to [d] at [at_]: each pod is one of before, and used
    since if its conversation was noted. *)
Definition noted_in (notes : gset Z) (at_ : Z) (d d' : SandboxDb) : Prop :=
  commands d' = commands d ∧ terminals d' = terminals d ∧ cloning d' = cloning d
  ∧ ∀ p', p' ∈ pods d' → ∃ p, p ∈ pods d ∧ pod_row p' = pod_row p ∧ pod_conversation p' = pod_conversation p ∧ pod_live p' = pod_live p
      ∧ (pod_conversation p ∈ notes → pod_live p = true → last_active_at p' = Some at_).
Lemma flushed_rows ids at_ d : noted_in (list_to_set ids) at_ d (flush_pod_activity at_ ids d).
Proof.
  unfold noted_in. conjs; [done..|]. intros p' (p & Hp & ->)%in_update. exists p. destruct (existsb (Z.eqb (pod_conversation p)) ids) eqn:E; cbn [andb].
  - destruct (pod_live p) eqn:El; conjs; done || exact El.
  - conjs; try done. intros Hin%elem_of_list_to_set. rewrite existsb_false in E. specialize (E _ Hin). by rewrite Z.eqb_refl in E.
Qed.
(** What a flush leaves beside the records. *)
Definition beside (s : Life) := (registry s, published s, pods_changed s, notified s, saved s, now s).
Lemma flush_ok notes s : let '(ok, notes', s') := flush notes s in
  beside s' = beside s ∧ if ok then noted_in notes (now s) (db s) (db s') else db s' = db s ∧ notes' = notes.
Proof.
  assert (Hid : ∀ n, n = ∅ → noted_in n (now s) (db s) (db s)) by (intros n ->; unfold noted_in; conjs; [done..|]; intros p Hp; exists p; conjs; set_solver).
  unfold flush. destruct (bool_decide_reflect (notes = ∅)) as [E|E]; [split; [done|by apply Hid]|].
  assert (Hfl : noted_in notes (now s) (db s) (flush_pod_activity (now s) (elements notes) (db s))).
  { destruct (flushed_rows (elements notes) (now s) (db s)) as (H1 & H2 & H3 & H4). unfold noted_in. conjs; [done..|]. intros p' Hp'.
    destruct (H4 p' Hp') as (p & ? & ? & ? & ? & Hx). exists p. conjs; try done. intros Hin. apply Hx. by apply elem_of_list_to_set, elem_of_elements. }
  unfold update, query. destruct (faults s) as [|[e|] rest]; by split.
Qed.
Lemma unused_before notes at_ d d' p' : noted_in notes at_ d d' → p' ∈ pods d' → unused p' d' →
  ∃ p, p ∈ pods d ∧ pod_row p = pod_row p' ∧ pod_conversation p = pod_conversation p' ∧ unused p d
    ∧ (pod_conversation p ∈ notes → last_active_at p' = Some at_).
Proof.
  intros (Hc & Ht & Hcl & Hp) Hin (Hl & Hrun & Hno). destruct (Hp p' Hin) as (p & Hpin & Hr & Hcv & Hlv & Hx). exists p.
  rewrite Hlv in Hl. split; [done|]. split; [done|]. split; [done|]. split; [|intros; by apply Hx]. split; [done|]. unfold pod_commands, find_terminal in *. rewrite Hc, Ht, Hr in Hrun. rewrite Hcv, Hcl in Hno. by split.
Qed.

Section Stops.
Context (conversation_exists : Z → Call (Result bool string)) (message_of : Z → string → Message) (delete : Z → Call (Result unit SandboxError)).
(** What other tasks do while the cluster is awaited isn't told by this one. *)
Context (Hexists : ∀ c, keeps (conversation_exists c)) (Hdelete : ∀ i s, saved (snd (delete i s)) = saved s ∧ notified (snd (delete i s)) = notified s).

Notation stop_locked' := (stop_locked conversation_exists message_of delete).
Notation recheck' := (recheck_and_stop conversation_exists message_of delete).

Lemma keeps_notes {T} (m : Call T) s : keeps m → saved (snd (m s)) = saved s ∧ notified (snd (m s)) = notified s.
Proof. intros Hk. specialize (Hk s). unfold told in Hk. by injection Hk. Qed.
Lemma query_notes {T} (f : Z → SandboxDb → T * SandboxDb) s : saved (snd (query f s)) = saved s ∧ notified (snd (query f s)) = notified s.
Proof. unfold query. destruct (faults s) as [|[e|] rest]; [destruct (f (now s) (db s))|..]; [done..|destruct (f (now s) (db s))]; done. Qed.
(** Calls that save and send no notice. *)
Definition silent {T} (m : Call T) : Prop := ∀ s, saved (snd (m s)) = saved s ∧ notified (snd (m s)) = notified s.
Lemma silent_bind {T U} (m : Call T) (k : T → Call U) : silent m → (∀ x, silent (k x)) → silent (andThen m k).
Proof. intros Hm Hk s. unfold andThen. destruct (Hm s) as [H1 H2]. destruct (m s) as [x s1]. cbn in *. destruct (Hk x s1) as [-> ->]. by rewrite H1, H2. Qed.
Lemma silent_close pod_id : silent (close_pod_terminals pod_id).
Proof.
  assert (Hq : ∀ T (f : Z → SandboxDb → T * SandboxDb), silent (query f)) by (intros T f s; apply query_notes).
  unfold close_pod_terminals. apply silent_bind; [apply Hq|]. intros conv. apply silent_bind; [apply Hq|]. intros rows. apply silent_bind; [|done].
  generalize (match rows with Ok l => l | Err _ => [] end). intros l. induction l as [|t l IH]; cbn [for_each]; [done|]. apply silent_bind; [|done].
  unfold close_terminal. apply silent_bind; [apply Hq|]. intros [[c|]|e]; (apply silent_bind; [by first [apply Hq|done]|]); intros _; (apply silent_bind; [apply Hq|]);
    intros _; destruct conv as [[c'|]|]; done.
Qed.
Lemma save_in_place_once conversation_id text s :
  let '(_, s') := save_in_place conversation_exists message_of conversation_id text s in
  notified s' = notified s ∧ (saved s' = saved s ∨ saved s' = app (saved s) [(conversation_id, text)]).
Proof.
  unfold save_in_place, andThen. destruct (keeps_notes _ s (Hexists conversation_id)) as [H1 H2].
  destruct (conversation_exists conversation_id s) as [[[]|e] s1]; cbn in *; [|by split; [|left]..].
  destruct (query_notes (λ _ d, ((), d)) s1) as [H3 H4]. destruct (query _ s1) as [[[]|e] s2]; cbn in *; rewrite ?H3, ?H4, H1, H2; [|by split; [|left]].
  split; [done|]. by right.
Qed.
(** A stop that ended the row found it live after the delete. *)
Lemma stop_locked_once pod_id conversation_id reason s :
  let '(stopped, s') := stop_locked' pod_id conversation_id reason s in
  notified s' = notified s
  ∧ if stopped then (saved s' = saved s ∨ saved s' = app (saved s) [(conversation_id, stop_notice reason pod_id)])
                    ∧ sandbox_pod_is_live pod_id (db (snd (delete pod_id (disconnected pod_id s)))) = true
    else saved s' = saved s.
Proof.
  unfold stop_locked, terminate_pod_as, deregister_pod, try_, db_error, fails_as, andThen, write, ret.
  change (s <| registry ::= λ r, close_taken (deregister pod_id r) |>) with (disconnected pod_id s).
  destruct (Hdelete pod_id (disconnected pod_id s)) as [H1 H2].
  change (saved (disconnected pod_id s)) with (saved s) in H1. change (notified (disconnected pod_id s)) with (notified s) in H2. destruct (delete pod_id (disconnected pod_id s)) as [[[]|e] s1]; cbn [snd] in *; [|by split].
  destruct (query_notes (λ now, terminate_sandbox_pod_as now pod_id Quiet) s1) as [H3 H4].
  destruct (query (λ now, terminate_sandbox_pod_as now pod_id Quiet) s1) as [[row|e] s2] eqn:Hq; cbn [snd map_err is_ok] in *; [|cbn; split; congruence].
  assert (row = fst (terminate_sandbox_pod_as (now s1) pod_id Quiet (db s1))) as Hrow.
  { unfold query in Hq. destruct (faults s1) as [|[w|] rest]; [|done|]; by injection Hq as <- _. }
  destruct row as [row|]; [|split; congruence]. unfold publish, publish_pods_changed, write. 
  match goal with |- context [close_pod_terminals pod_id ?x] => destruct (silent_close pod_id x) as [H5 H6]; destruct (close_pod_terminals pod_id x) as [cl s3] end.
  cbn in H5, H6. pose proof (save_in_place_once conversation_id (stop_notice reason pod_id) s3) as Hs. destruct (save_in_place _ _ _ _ s3) as [[] s4].
  destruct Hs as [Hn Hs]. split; [congruence|]. split; [destruct Hs as [->| ->]; [left|right]; congruence|].
  symmetry in Hrow. unfold terminate_sandbox_pod_as, returning in Hrow. cbn in Hrow.
  destruct (List.filter (end_takes Quiet pod_id) (pods (db s1))) as [|q l] eqn:Hf; [done|]. apply existsb_true. exists q.
  assert (q ∈ List.filter (end_takes Quiet pod_id) (pods (db s1))) as [Hq1 Hq2]%in_filter by (rewrite Hf; left). by split.
Qed.
Lemma recheck_once pod_id conversation_id reason s :
  let '(stopped, s') := recheck' pod_id conversation_id reason s in
  notified s' = notified s
  ∧ if stopped then (saved s' = saved s ∨ saved s' = app (saved s) [(conversation_id, stop_notice reason pod_id)])
                    ∧ pod_still_stoppable (now s) pod_id (kind_of reason) (minutes_of reason) (db s) = true
                    ∧ ∃ s1, db s1 = db s ∧ sandbox_pod_is_live pod_id (db (snd (delete pod_id s1))) = true
    else saved s' = saved s.
Proof.
  unfold recheck_and_stop, andThen. destruct (query_notes (λ now d, (pod_still_stoppable now pod_id (kind_of reason) (minutes_of reason) d, d)) s) as [H1 H2].
  fold (read (λ now, pod_still_stoppable now pod_id (kind_of reason) (minutes_of reason))) in H1, H2.
  destruct (read _ s) as [[[]|e] s1] eqn:Hr; cbn [snd ret] in *; [|by split..].
  apply read_answers in Hr as (Hs & Hd & Hn). pose proof (stop_locked_once pod_id conversation_id reason s1) as Hst.
  destruct (stop_locked' pod_id conversation_id reason s1) as [[] s2]; destruct Hst as [Hn2 Hsv]; (split; [congruence|]); [|congruence].
  destruct Hsv as [Hsv Hl]. conjs; [by rewrite <-H1|done|]. by exists (disconnected pod_id s1).
Qed.

(** C30. A quiet stop takes only a pod that is live and unused, and tells of it once.
    Whatever happens while the cluster deletes the pod: one stopped was stopped with no turn
    running or admitted and both locks held; by records and notes it was live, with no
    command running and nothing cloning, and for an idle stop its conversation was not even
    noted since; its row was still live once its pod was deleted, so a stop of the user's
    that came first has nothing marked or told; the notice is saved at most once and wakes
    nobody; and a stop that doesn't happen saves none. *)
Theorem quiet_stops_take_only_unused_pods (locks : Locks) (pod_id conversation_id : Z) (reason : StopReason) (notes : gset Z) (s : Life) :
  let '(stopped, _, s') := stop_candidate conversation_exists message_of delete locks pod_id conversation_id reason notes s in
  notified s' = notified s
  ∧ (stopped = false → saved s' = saved s)
  ∧ (stopped = true →
       all_clear locks = true
       ∧ (∃ p, p ∈ pods (db s) ∧ pod_row p = pod_id ∧ unused p (db s) ∧ (∀ minutes, reason = IdleFor minutes → pod_conversation p ∉ notes))
       ∧ (∃ s1, sandbox_pod_is_live pod_id (db (snd (delete pod_id s1))) = true)
       ∧ (saved s' = saved s ∨ saved s' = app (saved s) [(conversation_id, stop_notice reason pod_id)])).
Proof.
  unfold stop_candidate. destruct (all_clear locks) eqn:Hclear; cbn [negb]; [|done].
  pose proof (flush_ok notes s) as Hf. destruct (flush notes s) as [[[] notes'] s1]; destruct Hf as [Hb Hrows]; injection Hb as _ _ _ Hno Hsa Hnow; [|by rewrite Hno, Hsa].
  pose proof (recheck_once pod_id conversation_id reason s1) as Hr. destruct (recheck' pod_id conversation_id reason s1) as [stopped s2].
  destruct Hr as [Hn Hs]. rewrite Hno, Hsa in *. conjs; [done|by intros ->|]. intros ->. destruct Hs as (Hsv & Hst & s3 & _ & Hl).
  apply stoppable in Hst as (p' & Hp' & Hid & Hlive & Hbusy & Hidle). pose proof (unbusy_unused p' _ Hlive Hbusy) as Hun.
  destruct (unused_before _ _ _ _ _ Hrows Hp' Hun) as (p & Hp & Hr & Hcv & Hup & Hact). conjs; [done| |by exists s3|done].
  exists p. conjs; [done|congruence|done|]. intros minutes -> Hin. destruct (Hidle eq_refl) as [_ Hlt]. specialize (Hlt _ (Hact Hin)). lia.
Qed.
End Stops.

(** A pod unused for an hour and a minute, its conversation not noted, and one that is. *)
Definition idle_pod : Life :=
  Build_Life (Build_SandboxDb [Build_PodRow 1 7 0 None None None None] [] [] [] 2 1 [] []) empty_registry [] 0 [] [] (3660 * MICROS) [].
Definition clear : Locks := Build_Locks false true true false.
Definition some_message (conversation_id : Z) (text : string) : Message := Build_Message 1 conversation_id "user" text 0.
Definition stop_idle_pod (notes : gset Z) : bool * gset Z * Life :=
  stop_candidate (λ _, ret (Ok true)) some_message (λ _, ret (Ok ())) clear 1 7 (IdleFor 60) notes idle_pod.
Lemma quiet_stops_take_only_unused_pods_witness :
  (let '(stopped, _, s') := stop_idle_pod ∅ in
   notified s' = notified idle_pod
   ∧ (stopped = true → saved s' = saved idle_pod ∨ saved s' = app (saved idle_pod) [(7%Z, stop_notice (IdleFor 60) 1)]))
  ∧ fst (fst (stop_idle_pod ∅)) = true ∧ fst (fst (stop_idle_pod {[7%Z]})) = false.
Proof.
  split.
  - pose proof (quiet_stops_take_only_unused_pods (λ _, ret (Ok true)) some_message (λ _, ret (Ok ())) (λ _, keeps_ret _) (λ _ _, conj eq_refl eq_refl)
      clear 1 7 (IdleFor 60) ∅ idle_pod) as H. fold (stop_idle_pod ∅) in H. destruct (stop_idle_pod ∅) as [[stopped notes] s'].
    destruct H as (Hn & _ & H). split; [exact Hn|]. intros Hst. exact (proj2 (proj2 (proj2 (H Hst)))).
  - split; vm_compute; reflexivity.
Defined.
