(* ===== verification/StorageGrace.v ===== *)
(** * StorageGrace: removing a stopped sandbox's storage

    The queries of [src/src/db/storage_grace.rs], the removal of a conversation's two claims
    of [sandbox/manager/storage.rs] with [remove_conversation_claim] of [sandbox/claims.rs],
    and the hourly pass of [sandbox/storage_grace.rs] that removes the storage of
    conversations stopped quietly long ago and tells their models once.

    The cluster's answers are the fields of [Cluster]; a removal given up on is [None]. *)

From S2P Require Import Prelude RustStr Notices McpCalls Models ChatPage SandboxDb PodRegistry SandboxErrors PodLifecycle PodConnect QuietStop.
Local Open Scope string_scope.

(** ** The queries *)

Section Queries.
(** Whether a conversation's row is there. *)
Context (exists_ : Z → bool).
Definition DAY_SECS : Z := 86400.
Definition days_param (days : Z) : Z := Z.min I32_LIMIT days.
Definition is_latest (p : PodRow) (d : SandboxDb) : bool :=
  negb (existsb (λ q, (pod_conversation q =? pod_conversation p)%Z && (pod_row p <? pod_row q)%Z) (pods d)).
Definition removal_due (now days : Z) (d : SandboxDb) (p : PodRow) : bool :=
  match quietly_stopped_at p with
  | None => false
  | Some at_ => (0 <? days_param days)%Z && (at_ <=? now - days_param days * DAY_SECS * MICROS)%Z && is_latest p d && exists_ (pod_conversation p)
  end.
Definition stopped_first (a b : PodRow) : bool :=
  let at_ p := default 0%Z (quietly_stopped_at p) in
  (at_ a <? at_ b)%Z || ((at_ a =? at_ b)%Z && (pod_row a <=? pod_row b)%Z).
Definition storage_removal_candidates (now days : Z) (d : SandboxDb) : list (Z * Z) :=
  map (λ p, (pod_conversation p, pod_row p)) (sort_by stopped_first (List.filter (removal_due now days d) (pods d))).
Definition storage_removal_still_due (now pod_id days : Z) (d : SandboxDb) : bool :=
  existsb (λ p, (pod_row p =? pod_id)%Z && removal_due now days d p) (pods d).
End Queries.
Definition of_pod (pod_id : Z) (p : PodRow) : bool := (pod_row p =? pod_id)%Z.
(** Whether an earlier attempt was recorded. *)
Definition start_storage_removal (now pod_id : Z) (d : SandboxDb) : bool * SandboxDb :=
  (match List.find (of_pod pod_id) (pods d) with Some p => is_some (storage_removal_started_at p) | None => false end,
   d <| pods ::= update_where (of_pod pod_id) (λ p, p <| storage_removal_started_at ::= λ at_, Some (default now at_) |>) |>).
Definition forget_storage_removal_attempt (pod_id : Z) (d : SandboxDb) : SandboxDb :=
  d <| pods ::= update_where (of_pod pod_id) (λ p, p <| storage_removal_started_at := None |>) |>.
Definition unmarked (p : PodRow) : PodRow := p <| quietly_stopped_at := None |> <| storage_removal_started_at := None |>.
Definition clear_conversation_quiet_stop_marks (conversation_id : Z) (d : SandboxDb) : SandboxDb :=
  d <| pods ::= update_where (λ p, (pod_conversation p =? conversation_id)%Z
                  && (is_some (quietly_stopped_at p) || is_some (storage_removal_started_at p))) unmarked |>.
Definition clear_pod_quiet_stop_mark (pod_id : Z) (d : SandboxDb) : SandboxDb := d <| pods ::= update_where (of_pod pod_id) unmarked |>.
(** Each conversation's latest row, where that one has ended. *)
Definition last_pod_stops (d : SandboxDb) : list (Z * (Z * option Z)) :=
  omap (λ p, ended ← pod_terminated_at p; Some (pod_conversation p, (ended, quietly_stopped_at p))) (List.filter (λ p, is_latest p d) (pods d)).

(** ** A removal *)

Record StorageRemoval := {
  pod_stopped : bool;
  lsp_pods_stopped : Z;
  claims_deleted : Z;
  claims_failed : Z;
  workspace_gone : bool;
}.
#[export] Instance StorageRemoval_eta : Eta StorageRemoval := λ r,
  Build_StorageRemoval (pod_stopped r) (lsp_pods_stopped r) (claims_deleted r) (claims_failed r) (workspace_gone r).
#[export] Instance StorageRemoval_eq_dec : EqDecision StorageRemoval.
Proof. solve_decision. Defined.
Definition default_removal : StorageRemoval := Build_StorageRemoval false 0 0 0 false.

Inductive ClaimRemoval := ClaimDeleted | AlreadyGone | ClaimFailed | ForeignClaim.
(** What is read of an object: whether it is being deleted, its labels, its uid. *)
Record Object := { deleting : bool; labels : gmap string string; uid : option string }.
(** [claim]: what the read of it gave; [delete]: whether the delete of an uid was accepted. *)
Definition remove_conversation_claim (claim : Result (option Object) string) (delete : string → bool) (instance : string) : ClaimRemoval :=
  match claim with
  | Ok None => AlreadyGone
  | Ok (Some claim) =>
      if deleting claim then AlreadyGone
      else
        match ownership (labels claim) instance, uid claim with
        | Ours, Some uid => if delete uid then ClaimDeleted else ClaimFailed
        | Ours, None | Unlabelled, _ => ClaimFailed
        | Foreign, _ => ForeignClaim
        end
  | Err _ => ClaimFailed
  end.
Definition count_claim (is_workspace : bool) (c : ClaimRemoval) (removal : StorageRemoval * bool) : StorageRemoval * bool :=
  let '(r, workspace_gone) := removal in
  match c with
  | ClaimDeleted => (r <| claims_deleted ::= Z.succ |>, workspace_gone)
  | ClaimFailed => (r <| claims_failed ::= Z.succ |>, workspace_gone && negb is_workspace)
  | AlreadyGone => (r, workspace_gone)
  | ForeignClaim => (r, workspace_gone && negb is_workspace)
  end.

(** [pods_gone]: the wait for the pods; [docker], [workspace]: what each claim's delete came to. *)
Record Cluster := {
  manager : Result unit SandboxError;
  instance : Result SmeltInstance string;
  lsp_pods : Call (Result (list Object) string);
  pods_gone : Call (Result unit string);
  docker : Call ClaimRemoval;
  workspace : Call ClaimRemoval;
  fail_repos : Call (Result Z string);
}.

Section Removing.
Context (cluster : Cluster) (conversation_exists : Z → Call (Result bool string)) (delete : Z → Call (Result unit SandboxError)).

Fixpoint stop_pods (rows : list PodRow) (removal : StorageRemoval) : Call (Result StorageRemoval SandboxError) :=
  match rows with
  | [] => ret (Ok removal)
  | row :: rows =>
      let?* _ := force_terminate_pod delete (pod_row row) in
      let* _ := close_pod_terminals (pod_row row) in
      stop_pods rows (removal <| pod_stopped := true |>)
  end.
Definition ours_running (instance : string) (o : Object) : bool :=
  bool_decide (ownership (labels o) instance = Ours) && negb (deleting o).
Definition REMOVED_NOTICE : string :=
  mark_notice "The user removed this conversation's sandbox storage: /workspace and the Docker images, build cache and volumes are gone. Repos there need cloning again; the next sandbox starts with fresh empty volumes.".
Definition remove_conversation_storage_locked (conversation_id : Z) : Call (Result StorageRemoval SandboxError) :=
  let?* _ := ret (manager cluster) in
  let?* there := db_error (conversation_exists conversation_id) in
  if negb there then ret (Ok default_removal)
  else
    let?* instance := db_error (ret (instance cluster)) in
    let?* rows := db_error (read (λ _, list_sandbox_pods conversation_id)) in
    let?* removal := stop_pods rows default_removal in
    let* listed := lsp_pods cluster in
    let removal := removal <| lsp_pods_stopped :=
      match listed with
      | Ok pods => Z.min 255 (Z.of_nat (length (List.filter (ours_running (instance_id instance)) pods)))
      | Err _ => 0%Z
      end |> in
    let* gone := pods_gone cluster in
    match gone with
    | Err _ => ret (Err (SandboxTimeout (Some "the conversation's pods are still stopping; try again")))
    | Ok _ =>
        let* docker_claim := docker cluster in
        let* workspace_claim := workspace cluster in
        let '(removal, gone_) := count_claim true workspace_claim (count_claim false docker_claim (removal, true)) in
        let* _ := if gone_ then (let* _ := fail_repos cluster in ret ()) else ret () in
        let* _ := if pod_stopped removal && gone_ then notify conversation_id [Save REMOVED_NOTICE] else ret () in
        let* _ := if bool_decide (removal = default_removal) then ret () else publish_pods_changed in
        ret (Ok (removal <| workspace_gone := gone_ |>))
    end.
(** By the user, the start lock held. *)
Definition remove_conversation_storage (conversation_id : Z) : Call (Result StorageRemoval SandboxError) :=
  let?* removal := remove_conversation_storage_locked conversation_id in
  let* _ := if (claims_failed removal =? 0)%Z then update (λ _, clear_conversation_quiet_stop_marks conversation_id) else ret (Ok ()) in
  ret (Ok removal).
End Removing.

(** ** The pass *)

Definition grace_notice (pod_id days : Z) : string :=
  mark_notice ("Sandbox pod " +:+ show_i64 pod_id +:+ "'s storage was removed after " +:+ show_unsigned days
    +:+ " days stopped. /workspace and Docker's images, build cache and volumes are gone; repos cloned there need cloning again. The next sandbox starts fresh with empty volumes.").

Section Pass.
Context (exists_ : Z → bool) (conversation_exists : Z → Call (Result bool string)) (message_of : Z → string → Message).
(** The removal of a conversation, given up on in [None]. *)
Context (remove : Z → Call (option (Result StorageRemoval SandboxError))).

(** The attempt's outcome, settled. *)
Definition settle (days pod_id conversation_id : Z) (tried_before : bool) (outcome : option (Result StorageRemoval SandboxError)) : Call bool :=
  match outcome with
  | None => ret false
  | Some (Err _) =>
      let* _ := if tried_before then ret (Ok ()) else update (λ _, forget_storage_removal_attempt pod_id) in
      ret false
  | Some (Ok removal) =>
      if (0 <? claims_failed removal)%Z then ret false
      else
        let deleted := (0 <? claims_deleted removal)%Z || tried_before in
        let* forgotten := update (λ _, forget_storage_removal_attempt pod_id) in
        match forgotten with
        | Err _ => ret false
        | Ok _ =>
            let* _ := if deleted && workspace_gone removal && negb (pod_stopped removal)
                      then save_in_place conversation_exists message_of conversation_id (grace_notice pod_id days) else ret () in
            let* cleared := update (λ _, clear_pod_quiet_stop_mark pod_id) in
            ret (is_ok cleared)
        end
  end.
Definition grace_attempt (locks : Locks) (days pod_id conversation_id : Z) : Call bool :=
  if negb (all_clear locks) then ret false
  else
    let* due := read (λ now, storage_removal_still_due exists_ now pod_id days) in
    match due with
    | Ok true =>
        let* tried_before := query (λ now, start_storage_removal now pod_id) in
        match tried_before with
        | Err _ => ret false
        | Ok tried_before =>
            let* outcome := remove conversation_id in
            settle days pod_id conversation_id tried_before outcome
        end
    | _ => ret false
    end.
Fixpoint attempt_each (locks : Z → Locks) (days : Z) (candidates : list (Z * Z)) : Call (list Z) :=
  match candidates with
  | [] => ret []
  | (conversation_id, pod_id) :: rest =>
      let* settled := grace_attempt (locks pod_id) days pod_id conversation_id in
      let* others := attempt_each locks days rest in
      ret (if settled then conversation_id :: others else others)
  end.
Definition remove_expired_storage_once_with (locks : Z → Locks) (days : Z) : Call (list Z) :=
  if (days =? 0)%Z then ret []
  else
    let* candidates := read (λ now, storage_removal_candidates exists_ now days) in
    match candidates with
    | Err _ => ret []
    | Ok candidates => attempt_each locks days candidates
    end.
End Pass.

(** ** One notice per stop *)

Definition started (pod_id : Z) (d : SandboxDb) : bool :=
  match List.find (of_pod pod_id) (pods d) with Some p => is_some (storage_removal_started_at p) | None => false end.
Lemma started_update pod_id (f : PodRow → PodRow) d : (∀ p, pod_row (f p) = pod_row p) →
  started pod_id (d <| pods ::= update_where (of_pod pod_id) f |>)
  = match List.find (of_pod pod_id) (pods d) with Some p => is_some (storage_removal_started_at (f p)) | None => false end.
Proof.
  intros Hf. unfold started, set_field. cbn. unfold update_where. induction (pods d) as [|p l IH]; [done|]. cbn.
  destruct (of_pod pod_id p) eqn:E; cbn; [|by rewrite E]. unfold of_pod in *. by rewrite Hf, E.
Qed.
Lemma started_forgotten pod_id d : started pod_id (forget_storage_removal_attempt pod_id d) = false.
Proof. unfold forget_storage_removal_attempt. rewrite started_update by done. by destruct (List.find _ _). Qed.
Lemma started_cleared pod_id d : started pod_id (clear_pod_quiet_stop_mark pod_id d) = false.
Proof. unfold clear_pod_quiet_stop_mark. rewrite started_update by done. by destruct (List.find _ _). Qed.

(** An attempt at a mark: what it meets, when, which of its queries fail, and what the
    removal came to. *)
Record Attempt := { at_ : Z; met : Locks; fails : list (option string); outcome : option (Result StorageRemoval SandboxError) }.
(** Its forgetting of itself, its third query, isn't one of them. *)
Definition forgets (a : Attempt) : Prop := match fails a !! 2 with Some (Some _) => False | _ => True end.
(** A removal that came to its end and left no claim, and one that found none to delete. *)
Definition settles (a : Attempt) : bool := match outcome a with Some (Ok r) => negb (0 <? claims_failed r)%Z | _ => false end.
Definition finds_nothing (a : Attempt) : bool :=
  match outcome a with Some (Ok r) => negb (0 <? claims_failed r)%Z && negb (0 <? claims_deleted r)%Z | Some (Err _) => true | None => false end.

Section Once.
Context (exists_ : Z → bool) (conversation_exists : Z → Call (Result bool string)) (message_of : Z → string → Message).
Context (Hexists : ∀ c, keeps (conversation_exists c)) (days pod_id conversation_id : Z).

Definition try_removal (a : Attempt) (s : Life) : Life :=
  snd (grace_attempt exists_ conversation_exists message_of (λ _, ret (outcome a)) (met a) days pod_id conversation_id
         (s <| now := at_ a |> <| faults := fails a |>)).
Definition try_each (attempts : list Attempt) (s : Life) : Life := foldl (λ s a, try_removal a s) s attempts.

Lemma save_keeps_db c text s : db (snd (save_in_place conversation_exists message_of c text s)) = db s.
Proof.
  unfold save_in_place, andThen. pose proof (Hexists c s) as Hk. unfold told in Hk. destruct (conversation_exists c s) as [[[]|e] s1]; cbn in *; [|by injection Hk..].
  injection Hk as Hd _ _ _ _. unfold query. destruct (faults s1) as [|[e|] rest]; cbn; done.
Qed.
(** The next query isn't one that fails. *)
Definition answers (s : Life) : Prop := match head (faults s) with Some (Some _) => False | _ => True end.
Lemma query_answers {T} (f : Z → SandboxDb → T * SandboxDb) s : answers s →
  query f s = (Ok (fst (f (now s) (db s))), s <| faults ::= tail |> <| db := snd (f (now s) (db s)) |>).
Proof. unfold answers, query. destruct (faults s) as [|[e|] rest]; cbn; intros Ha; [|done|]; by destruct (f (now s) (db s)). Qed.
Lemma query_cases {T} (f : Z → SandboxDb → T * SandboxDb) s : let '(r, s') := query f s in
  faults s' = tail (faults s) ∧ saved s' = saved s ∧ now s' = now s
  ∧ match r with Ok x => x = fst (f (now s) (db s)) ∧ db s' = snd (f (now s) (db s)) | Err _ => db s' = db s end.
Proof. unfold query. destruct (faults s) as [|[e|] rest] eqn:E; try destruct (f (now s) (db s)) eqn:Ef; cbn; rewrite ?E; done. Qed.

(** What an attempt leaves: of the notices, and of its record. *)
Definition once (a : Attempt) (tried : bool) (s s' : Life) : Prop :=
  (saved s' = saved s ∧ (tried = false → settles a || finds_nothing a = true → started pod_id (db s') = false))
  ∨ ∃ c, saved s' = app (saved s) [c] ∧ settles a = true ∧ started pod_id (db s') = false ∧ (finds_nothing a = false ∨ tried = true).
Lemma settle_once a tried s : answers s →
  once a tried s (snd (settle conversation_exists message_of days pod_id conversation_id tried (outcome a) s)).
Proof.
  intros Ha. unfold settle, once, settles, finds_nothing. destruct (outcome a) as [[r|e]|]; [|left|left; by split].
  - destruct (0 <? claims_failed r)%Z; [left; by split|]. cbn [negb andb orb]. unfold update, andThen. rewrite query_answers by done. cbn [fst snd ret].
    set (s1 := _ <| db := _ |>). assert (H1 : saved s1 = saved s ∧ started pod_id (db s1) = false) by (split; [done|apply started_forgotten]).
    destruct (_ && workspace_gone r && negb (pod_stopped r)) eqn:Hsave.
    + pose proof (save_in_place_once conversation_exists message_of Hexists conversation_id (grace_notice pod_id days) s1) as Hs.
      pose proof (save_keeps_db conversation_id (grace_notice pod_id days) s1) as Hd.
      destruct (save_in_place _ _ _ _ s1) as [[] s2]. cbn in Hd. destruct Hs as [_ Hs]. destruct H1 as [H1 H2].
      pose proof (query_cases (λ _ d, ((), clear_pod_quiet_stop_mark pod_id d)) s2) as Hq. cbn in Hq |- *.
      destruct (query _ s2) as [r2 s3]. destruct Hq as (_ & Hsv & _ & Hdb). cbn.
      assert (started pod_id (db s3) = false) as Hst by (destruct r2; [destruct Hdb as [_ ->]; apply started_cleared|rewrite Hdb, Hd; exact H2]).
      destruct Hs as [Hs|Hs]; [left; split; [congruence|done]|right]. eexists. split; [by rewrite Hsv, Hs, H1|]. conjs; [done..|].
      apply andb_true_iff in Hsave as [[[->| ->]%orb_true_iff _]%andb_true_iff _]; [by left|by right].
    + pose proof (query_cases (λ _ d, ((), clear_pod_quiet_stop_mark pod_id d)) s1) as Hq. cbn in Hq |- *.
      destruct (query _ s1) as [r2 s3]. destruct Hq as (_ & Hsv & _ & Hdb). left. cbn. split; [by rewrite Hsv|]. intros _ _.
      destruct r2; [destruct Hdb as [_ ->]; apply started_cleared|rewrite Hdb; apply H1].
  - unfold update, andThen. destruct tried; [done|]. rewrite query_answers by done. split; [done|]. intros _ _. apply started_forgotten.
Qed.
Lemma try_removal_once a s : forgets a → once a (started pod_id (db s)) s (try_removal a s).
Proof.
  intros Hforget. unfold try_removal, grace_attempt. destruct (negb (all_clear (met a))); [by left|]. unfold andThen, read.
  set (s0 := s <| now := at_ a |> <| faults := fails a |>).
  pose proof (query_cases (λ now d, (storage_removal_still_due exists_ now pod_id days d, d)) s0) as Hq. destruct (query _ s0) as [due s1].
  destruct Hq as (Hf1 & Hsv1 & _ & Hd1). assert (db s1 = db s) as Hdb1 by (destruct due; [by destruct Hd1 as [_ Hd1]|done]).
  destruct due as [[]|e]; [|left; cbn; rewrite Hdb1; by split..].
  pose proof (query_cases (λ now, start_storage_removal now pod_id) s1) as Hq. destruct (query _ s1) as [tried s2].
  destruct Hq as (Hf2 & Hsv2 & _ & Hd2). destruct tried as [tried|e]; [|left; cbn; rewrite Hd2, Hdb1; split; [change (saved s2 = saved s); rewrite Hsv2, Hsv1; done|done]].
  destruct Hd2 as [-> Hd2]. unfold ret. change (fst (start_storage_removal (now s1) pod_id (db s1))) with (started pod_id (db s1)). rewrite Hdb1.
  assert (answers s2) as Ha.
  { unfold answers. rewrite Hf2, Hf1. unfold forgets in Hforget. change (faults s0) with (fails a). by destruct (fails a) as [|f1 [|f2 [|f3 l]]]. }
  pose proof (settle_once a (started pod_id (db s)) s2 Ha) as Ho. unfold once in *. rewrite Hsv2, Hsv1 in Ho. exact Ho.
Qed.

(** Deleted claims stay deleted, and no removal that found them gone is given up on. *)
Fixpoint claims_stay_gone (attempts : list Attempt) : Prop :=
  match attempts with
  | [] => True
  | a :: rest => (settles a = true → Forall (λ b, finds_nothing b = true) rest) ∧ claims_stay_gone rest
  end.
Lemma quiet_after_notice attempts s : Forall forgets attempts → Forall (λ b, finds_nothing b = true) attempts →
  started pod_id (db s) = false → saved (try_each attempts s) = saved s.
Proof.
  intros Hf. revert s. induction Hf as [|a rest Ha _ IH]; intros s Hn Hs; [done|]. apply Forall_cons in Hn as [Hna Hn]. cbn [try_each foldl].
  pose proof (try_removal_once a s Ha) as [[Hsv Hst]|(c & _ & _ & _ & [He|He])]; [|congruence..].
  change (saved (try_each rest (try_removal a s)) = saved s). rewrite IH, Hsv; [done..|]. apply Hst; [done|]. by rewrite Hna, orb_true_r.
Qed.
Lemma one_after_settled attempts s : Forall forgets attempts → Forall (λ b, finds_nothing b = true) attempts →
  (length (saved (try_each attempts s)) <= S (length (saved s)))%nat.
Proof.
  intros Hf. revert s. induction Hf as [|a rest Ha Hf IH]; intros s Hn; [cbn; lia|]. apply Forall_cons in Hn as [Hna Hn]. cbn [try_each foldl].
  change (length (saved (try_each rest (try_removal a s))) <= S (length (saved s)))%nat.
  pose proof (try_removal_once a s Ha) as [[Hsv _]|(c & Hsv & _ & Hst & _)]; [rewrite <- Hsv; by apply IH|].
  rewrite quiet_after_notice, Hsv, length_app by done. cbn. lia.
Qed.
Lemma one_notice attempts s : Forall forgets attempts → claims_stay_gone attempts →
  (length (saved (try_each attempts s)) <= S (length (saved s)))%nat.
Proof.
  intros Hf. revert s. induction Hf as [|a rest Ha Hf IH]; intros s Hc; [cbn; lia|]. destruct Hc as [Hset Hc]. cbn [try_each foldl].
  change (length (saved (try_each rest (try_removal a s))) <= S (length (saved s)))%nat.
  pose proof (try_removal_once a s Ha) as [[Hsv _]|(c & Hsv & Hs & Hst & _)]; [rewrite <- Hsv; by apply IH|].
  rewrite quiet_after_notice, Hsv, length_app by eauto. cbn. lia.
Qed.
End Once.

(** A pod stopped by itself forty days ago. *)
Definition stopped_pod : Life :=
  Build_Life (Build_SandboxDb [Build_PodRow 1 7 0 (Some 1%Z) (Some 0%Z) (Some 1%Z) None] [] [] [] 2 1 [] []) empty_registry [] 0 [] []
    (40 * DAY_SECS * MICROS) [].
Definition attempt (fails : list (option string)) (outcome : option (Result StorageRemoval SandboxError)) : Attempt :=
  Build_Attempt (40 * DAY_SECS * MICROS) clear fails outcome.
Definition removal (deleted : Z) : option (Result StorageRemoval SandboxError) := Some (Ok (Build_StorageRemoval false 0 deleted 0 true)).
Definition try_stopped : list Attempt → Life :=
  λ attempts, try_each (λ _, true) (λ _, ret (Ok true)) some_message 30%Z 1%Z 7%Z attempts stopped_pod.

(** C33. Once the claims are deleted, no attempt is given up on, and each records its end, a mark
    is told of at most once, however often its clearing fails.  An attempt given up on after
    a failed clearing (the cluster stalls) is told of again: its record credits it with the
    deletion the first was told of. *)
Theorem one_notice_per_stop :
  (∀ exists_ conversation_exists message_of days pod_id conversation_id attempts s,
     (∀ c, keeps (conversation_exists c)) → Forall forgets attempts → claims_stay_gone attempts →
     (length (saved (try_each exists_ conversation_exists message_of days pod_id conversation_id attempts s)) <= S (length (saved s)))%nat)
  ∧ (let attempts := [attempt [None; None; None; None; Some "down"] (removal 2); attempt [] None; attempt [] (removal 0)] in
     Forall forgets attempts
     ∧ saved (try_stopped attempts) = [(7%Z, grace_notice 1 30); (7%Z, grace_notice 1 30)]).
Proof.
  split; [intros; by apply one_notice|]. split; [by repeat constructor|vm_compute; reflexivity].
Qed.
Lemma one_notice_per_stop_witness :
  let attempts := [attempt [] None; attempt [None; None; None; None; Some "down"] (removal 2); attempt [] (Some (Err (Kube "gone away"))); attempt [] (removal 0)] in
  (length (saved (try_stopped attempts)) <= 1)%nat ∧ saved (try_stopped attempts) = [(7%Z, grace_notice 1 30)].
Proof.
  split; [|vm_compute; reflexivity]. apply (proj1 one_notice_per_stop (λ _, true) (λ _, ret (Ok true)) some_message 30%Z 1%Z 7%Z _ stopped_pod).
  - intros c. apply keeps_ret.
  - by repeat constructor.
  - cbn. conjs; try done; intros _; by repeat constructor.
Defined.

(** ** What is removed *)

Section Due.
Context (exists_ : Z → bool) (conversation_exists : Z → Call (Result bool string)) (message_of : Z → string → Message).

Lemma still_due_is now pod_id days d : storage_removal_still_due exists_ now pod_id days d = true →
  ∃ p stopped_at, p ∈ pods d ∧ pod_row p = pod_id ∧ quietly_stopped_at p = Some stopped_at ∧ (0 < days)%Z
    ∧ (stopped_at <= now - Z.min I32_LIMIT days * DAY_SECS * MICROS)%Z ∧ exists_ (pod_conversation p) = true
    ∧ ∀ q, q ∈ pods d → pod_conversation q = pod_conversation p → (pod_row q <= pod_row p)%Z.
Proof.
  unfold storage_removal_still_due. intros (p & Hp & [Hid Hdue]%andb_true_iff)%existsb_exists. unfold removal_due in Hdue.
  destruct (quietly_stopped_at p) as [at1|] eqn:Hq; [|done]. apply andb_true_iff in Hdue as [[[Hpos Hle]%andb_true_iff Hlast]%andb_true_iff He].
  exists p, at1. unfold days_param in *. conjs; [by apply list_elem_of_In|lia|done|lia|lia|done|].
  intros q Hin Hc. unfold is_latest in Hlast. apply negb_true_iff in Hlast. destruct (decide (pod_row q <= pod_row p)%Z) as [|Hn]; [done|].
  assert (existsb (λ q, (pod_conversation q =? pod_conversation p)%Z && (pod_row p <? pod_row q)%Z) (pods d) = true) as Hx; [|congruence].
  apply existsb_exists. exists q. split; [by apply list_elem_of_In|]. apply andb_true_iff. split; lia.
Qed.

(** What a removal would come to matters only where no lock is held and the pod's row, the
    conversation's latest, was stopped by itself the setting's days ago or longer: otherwise
    nothing is removed, told of or recorded, and with the setting at 0 nothing ever is. *)
Theorem only_expired_storage_is_removed remove locks days pod_id conversation_id s :
  (∃ remove', grace_attempt exists_ conversation_exists message_of remove locks days pod_id conversation_id s
              ≠ grace_attempt exists_ conversation_exists message_of remove' locks days pod_id conversation_id s)
  ∨ db (snd (grace_attempt exists_ conversation_exists message_of remove locks days pod_id conversation_id s)) ≠ db s →
  all_clear locks = true
  ∧ ∃ p stopped_at, p ∈ pods (db s) ∧ pod_row p = pod_id ∧ quietly_stopped_at p = Some stopped_at ∧ (0 < days)%Z
    ∧ (stopped_at <= now s - Z.min I32_LIMIT days * DAY_SECS * MICROS)%Z ∧ exists_ (pod_conversation p) = true
    ∧ ∀ q, q ∈ pods (db s) → pod_conversation q = pod_conversation p → (pod_row q <= pod_row p)%Z.
Proof.
  intros H. unfold grace_attempt in H. destruct (all_clear locks); cbn [negb] in H; [|by destruct H as [[? H]|H]]. split; [done|].
  apply still_due_is. unfold andThen, read in H. pose proof (query_cases (λ now d, (storage_removal_still_due exists_ now pod_id days d, d)) s) as Hq.
  destruct (query _ s) as [due s1]. destruct Hq as (_ & _ & _ & Hd).
  destruct due as [[]|e]; [by destruct Hd|..]; destruct H as [[? H]|H]; [done| |done|]; cbn in H; [by destruct Hd as [_ Hd]|by rewrite Hd in H].
Qed.
End Due.
Lemma only_expired_storage_is_removed_witness :
  all_clear clear = true
  ∧ (∃ p stopped_at, p ∈ pods (db stopped_pod) ∧ pod_row p = 1%Z ∧ quietly_stopped_at p = Some stopped_at ∧ (0 < 30)%Z
     ∧ (stopped_at <= now stopped_pod - Z.min I32_LIMIT 30 * DAY_SECS * MICROS)%Z ∧ true = true
     ∧ ∀ q, q ∈ pods (db stopped_pod) → pod_conversation q = pod_conversation p → (pod_row q <= pod_row p)%Z).
Proof.
  apply (only_expired_storage_is_removed (λ _, true) (λ _, ret (Ok true)) some_message (λ _, ret (removal 2)) clear 30%Z 1%Z 7%Z stopped_pod).
  right. vm_compute. discriminate.
Defined.
