(* ===== verification/PodWatch.v ===== *)
(** * PodWatch: the watch of the cluster's pods

    [watch_pods] of [src/src/sandbox/watch.rs], one event of its stream at a time, with the
    bookkeeping of Docker's restarts ([sandbox/claims.rs]) and of stopped language servers
    ([lsp/pods.rs]), the tasks it starts, and the pass for idle commands.

    A pod is what is read of its object ([Pod]); what the cluster answers later is a
    parameter.  The spans of events and the stream's own retries are not modelled. *)

From S2P Require Import Prelude RustStr Notices McpCalls AgentProtocol ChatPage SandboxDb PodRegistry PodMessages SandboxErrors PodLifecycle PodConnect.
Local Open Scope string_scope.

(** ** Pods, as watched *)

(** A container's restarts, why it last ended if it is not running, and why it ended before. *)
Record DockerStatus := { restart_count : Z; state_ended : option (option string); last_ended : option (option string) }.
Record Pod := {
  pod_name_ : option string;
  pod_uid : option string;
  pod_labels : option (gmap string string);
  pod_annotations : option (gmap string string);
  pod_deleting : bool;
  pod_status : option PodStatus;
  docker_status : option DockerStatus;
}.
Definition pod_id_of (p : Pod) : option Z := watched_pod_id (pod_name_ p).
Definition finished (p : Pod) : bool := pod_has_finished (pod_status p).

(** ** Docker's restarts *)

Definition docker_restart_to_report (p : Pod) (last_reported : Z) : option (Z * option string) :=
  docker ← docker_status p;
  if (restart_count docker <=? last_reported)%Z then None else Some (restart_count docker, default None (last_ended docker)).
Record DockerSeen := { restarts : Z; exit_reason : option string }.
#[export] Instance DockerSeen_eta : Eta DockerSeen := λ s, Build_DockerSeen (restarts s) (exit_reason s).
#[export] Instance DockerSeen_eq_dec : EqDecision DockerSeen.
Proof. solve_decision. Defined.
Definition default_seen : DockerSeen := Build_DockerSeen 0 None.
Inductive DockerRestart := Report (pod_id : Z) (reason : string) | Recheck (pod_id : Z).
#[export] Instance DockerRestart_eq_dec : EqDecision DockerRestart.
Proof. solve_decision. Defined.

Definition or_else {T} (a b : option T) : option T := match a with Some x => Some x | None => b end.
Definition exited (p : Pod) : option string := c ← docker_status p; default None (state_ended c).
(** A known pod's entry, after one look at it. *)
Definition note_docker (pod_id : Z) (known : bool) (entry : DockerSeen) (p : Pod) (initial : bool) : option DockerRestart * DockerSeen :=
  let entry := match exited p with Some r => entry <| exit_reason := Some r |> | None => entry end in
  match docker_restart_to_report p (restarts entry) with
  | None => (None, entry)
  | Some (count, reason) =>
      let entry := entry <| restarts := count |> in
      if initial && negb known then (None, entry)
      else if finished p then (None, entry)
      else
        (Some (match or_else reason (exit_reason entry) with Some reason => Report pod_id reason | None => Recheck pod_id end),
         entry <| exit_reason := None |>)
  end.
Definition note_docker_restarts (seen : gmap Z DockerSeen) (p : Pod) (initial : bool) : option DockerRestart * gmap Z DockerSeen :=
  match pod_id_of p with
  | None => (None, seen)
  | Some pod_id =>
      let '(restart, entry) := note_docker pod_id (is_some (seen !! pod_id)) (default default_seen (seen !! pod_id)) p initial in
      (restart, <[pod_id := entry]> seen)
  end.
Definition forget_unlisted_docker (seen : gmap Z DockerSeen) (listed : gset Z) : gmap Z DockerSeen :=
  filter (λ '(pod_id, _), pod_id ∈ listed) seen.

(** ** Language servers that stopped *)

Definition LSP_OF_LABEL : string := "smelt/lsp-of".
Definition LSP_SERVER_LABEL : string := "smelt/lsp-server".
Definition READY_ANNOTATION : string := "smelt/lsp-ready".
Definition stop_reason (p : Pod) : option string :=
  status ← pod_status p;
  match pod_reason status with
  | Some reason => Some reason
  | None =>
      cs ← containers status; c ← head cs; ended ← current_end c; reason ← ended;
      Some (if bool_decide (reason = "Completed") then "evicted by its node, most likely" else reason)
  end.
Definition stop_explanation (reason : option string) : string :=
  match reason with
  | Some reason =>
      if bool_decide (reason = "OOMKilled")
      then " (OOMKilled: it ran out of memory; the user can raise its memory limit on the Language servers page)"
      else " (" +:+ reason +:+ ")"
  | None => ""
  end.
Record ServerStopped := { server_conversation : Z; server_notice : string }.
Definition server_stopped_notice (server : string) (reason : option string) : string :=
  mark_notice ("Language server " +:+ server +:+ " stopped" +:+ stop_explanation reason
    +:+ ". The sandbox is unaffected. start_language_server starts it again.").
Definition note_server_stop (seen : gset string) (p : Pod) (initial : bool) : option ServerStopped * gset string :=
  let stop :=
    labels ← pod_labels p; of_ ← labels !! LSP_OF_LABEL; conversation_id ← parse_i64 of_; server ← labels !! LSP_SERVER_LABEL;
    status ← pod_status p; _ ← phase status;
    if pod_deleting p || negb (finished p) then None
    else _ ← pod_annotations p ≫= lookup READY_ANNOTATION; uid ← pod_uid p; Some (conversation_id, server, uid) in
  match stop with
  | None => (None, seen)
  | Some (conversation_id, server, uid) =>
      if bool_decide (uid ∈ seen) || initial then (None, {[uid]} ∪ seen)
      else (Some (Build_ServerStopped conversation_id (server_stopped_notice server (stop_reason p))), {[uid]} ∪ seen)
  end.

(** ** The watch *)

Inductive WatchEvent := InitEvent | InitApply (p : Pod) | InitDone | Apply (p : Pod) | Delete (p : Pod) | WatchError.
(** [listed]: the unfinished pods of the listing under way, or of the last one. *)
Record Watch := { listed : gset Z; docker_restarts : gmap Z DockerSeen; stopped_servers : gset string }.
#[export] Instance Watch_eta : Eta Watch := λ w, Build_Watch (listed w) (docker_restarts w) (stopped_servers w).
Definition new_watch : Watch := Build_Watch ∅ ∅ ∅.
(** The tasks an event starts, each running after a wait of its own. *)
Inductive Task := CloseAfterGrace (pod_id : Z) | RecheckDocker (pod_id : Z).
Definition RECONCILE_MIN_AGE_SECS : Z := 300.

Definition docker_notice (pod_id : Z) (reason : option string) : string :=
  mark_notice ("Docker in sandbox pod " +:+ show_i64 pod_id +:+ " was restarted"
    +:+ match reason with Some r => " (" +:+ r +:+ ")" | None => "" end
    +:+ ", so the containers it was running have stopped. Images, terminals and /workspace are unaffected. Every container shares Docker's memory limit; a pod created with a larger docker_memory_limit gives them more.").
Definition report_docker_restart (pod_id : Z) (reason : option string) : Call unit :=
  let* conversation := read (λ _, sandbox_pod_conversation_id pod_id) in
  match conversation with
  | Ok (Some conversation_id) => notify conversation_id [Deliver (docker_notice pod_id reason)]
  | _ => ret ()
  end.

(** [set_up]: whether there is a manager; [running], [get_pod]: reads of a pod on the cluster. *)
Section Watching.
Context (set_up : bool) (instance : Call (Result SmeltInstance string)).
Context (delete : Z → Call (Result unit SandboxError)) (running : Z → Call (Result bool string)) (get_pod : Z → Call (Result (option Pod) string)).

Definition close_if_gone (pod_id : Z) : Call unit := if set_up then close_if_gone_with delete instance (running pod_id) pod_id else ret ().
Definition recheck_docker_restart (pod_id : Z) : Call unit :=
  let* pod := get_pod pod_id in
  match pod with
  | Ok None => ret ()
  | Ok (Some pod) => report_docker_restart pod_id (docker_restart_to_report pod 0 ≫= snd)
  | Err _ => report_docker_restart pod_id None
  end.
Definition handle_docker_restart (restart : DockerRestart) : Call (list Task) :=
  match restart with
  | Report pod_id reason => let* _ := report_docker_restart pod_id (Some reason) in ret []
  | Recheck pod_id => ret (if set_up then [RecheckDocker pod_id] else [])
  end.
Definition run_task (t : Task) : Call unit :=
  match t with CloseAfterGrace pod_id => close_if_gone pod_id | RecheckDocker pod_id => recheck_docker_restart pod_id end.

Definition note_docker_event (p : Pod) (initial : bool) (w : Watch) : Call (Watch * list Task) :=
  let '(restart, seen) := note_docker_restarts (docker_restarts w) p initial in
  let* tasks := match restart with Some restart => handle_docker_restart restart | None => ret [] end in
  ret (w <| docker_restarts := seen |>, tasks).
Definition close_later (p : Pod) : list Task := match pod_id_of p with Some pod_id => [CloseAfterGrace pod_id] | None => [] end.
Definition reconcile (listed : gset Z) : Call unit :=
  let* rows := read (λ now, live_pods_older_than now RECONCILE_MIN_AGE_SECS) in
  match rows with
  | Ok rows => for_each (λ row, close_if_gone (pod_row row)) (List.filter (λ row, negb (bool_decide (pod_row row ∈ listed))) rows)
  | Err _ => ret ()
  end.
Definition watch_event (e : WatchEvent) (w : Watch) : Call (Watch * list Task) :=
  match e with
  | InitEvent => ret (w <| listed := ∅ |>, [])
  | InitApply p =>
      let* noted := note_docker_event p true w in
      let '(w, tasks) := noted in
      let w := w <| stopped_servers := snd (note_server_stop (stopped_servers w) p true) |> in
      ret (match pod_id_of p with
           | Some pod_id => if negb (finished p) then w <| listed ::= λ l, {[pod_id]} ∪ l |> else w
           | None => w
           end, tasks)
  | InitDone =>
      let w := w <| docker_restarts ::= λ seen, forget_unlisted_docker seen (listed w) |> in
      let* _ := reconcile (listed w) in
      ret (w, [])
  | Apply p =>
      if finished p then
        let '(stopped, seen) := note_server_stop (stopped_servers w) p false in
        let* _ := match stopped with
                  | Some stopped => notify (server_conversation stopped) [Deliver (server_notice stopped)]
                  | None => ret ()
                  end in
        ret (w <| stopped_servers := seen |>, close_later p)
      else note_docker_event p false w
  | Delete p =>
      ret (match pod_id_of p with Some pod_id => w <| docker_restarts ::= base.delete pod_id |> | None => w end, close_later p)
  | WatchError => ret (w, [])
  end.

(** The watch with its tasks: events, and any task started running once. *)
Inductive WatchStep := Event (e : WatchEvent) | TaskRuns (i : nat).
Definition watch_step (st : WatchStep) (ws : Watch * list Task) : Call (Watch * list Task) :=
  let '(w, tasks) := ws in
  match st with
  | Event e => let* next := watch_event e w in ret (fst next, app tasks (snd next))
  | TaskRuns i =>
      match tasks !! i with
      | Some t => let* _ := run_task t in ret (w, base.delete i tasks)
      | None => ret (w, tasks)
      end
  end.
Fixpoint watch_run (steps : list WatchStep) (ws : Watch * list Task) : Call (Watch * list Task) :=
  match steps with
  | [] => ret ws
  | st :: steps => let* ws := watch_step st ws in watch_run steps ws
  end.

(** ** Idle commands *)

(** [paused]: the conversations the user has stopped. *)
Fixpoint wake_each (paused : Z → bool) (question_waits : Z → Call (Result bool string)) (due : list (Z * string)) (woken : list Z) : Call (list Z) :=
  match due with
  | [] => ret woken
  | (conversation_id, _) :: due =>
      if bool_decide (conversation_id ∈ woken) || paused conversation_id then wake_each paused question_waits due woken
      else
        let* waits := question_waits conversation_id in
        match waits with
        | Ok true => wake_each paused question_waits due woken
        | _ =>
            let* _ := notify conversation_id [Wake] in
            wake_each paused question_waits due (app woken [conversation_id])
        end
  end.
Definition notice_idle_commands_once (paused : Z → bool) (question_waits : Z → Call (Result bool string)) : Call (list Z) :=
  let* due := read (λ now, idle_commands_to_notice now) in
  match due with
  | Ok due => wake_each paused question_waits due []
  | Err _ => ret []
  end.
End Watching.

(** ** What is reported of Docker *)

(** A look at a pod: whether of a listing, and the pod. *)
Definition Look : Type := bool * Pod.
Definition count_of (o : Look) : Z := match docker_status (snd o) with Some d => restart_count d | None => 0%Z end.
Definition most (l : list Look) : Z := foldr Z.max 0%Z (map count_of l).
(** Whether a look after [before] is of a restart told of: more restarts than any look
    before, of a pod still running, and no starting point. *)
Definition tells (before : list Look) (o : Look) : bool :=
  is_some (docker_status (snd o)) && (most before <? count_of o)%Z && negb (finished (snd o)) && negb (fst o && Nat.eqb (length before) 0).
(** The looks since the last one told of. *)
Definition untold (looks : list Look) : list Look :=
  snd (foldl (λ '(before, since) o, (app before [o], if tells before o then [] else app since [o])) ([], []) looks).
Definition told_reason (before : list Look) (o : Look) : option string :=
  or_else (d ← docker_status (snd o); default None (last_ended d)) (last (omap (λ o, exited (snd o)) (app (untold before) [o]))).
Definition restart_told (pod_id : Z) (before : list Look) (o : Look) : option DockerRestart :=
  if tells before o
  then Some (match told_reason before o with Some reason => Report pod_id reason | None => Recheck pod_id end)
  else None.

(** The looks at a pod since it was forgotten: deleted, or missing from a listing. *)
Definition look_at (pod_id : Z) (e : WatchEvent) : option Look :=
  match e with
  | InitApply p => if bool_decide (pod_id_of p = Some pod_id) then Some (true, p) else None
  | Apply p => if bool_decide (pod_id_of p = Some pod_id) && negb (finished p) then Some (false, p) else None
  | _ => None
  end.
Definition list_event (e : WatchEvent) (l : gset Z) : gset Z :=
  match e with
  | InitEvent => ∅
  | InitApply p => match pod_id_of p with Some pod_id => if negb (finished p) then {[pod_id]} ∪ l else l | None => l end
  | _ => l
  end.
Definition forgets_pod (pod_id : Z) (e : WatchEvent) (l : gset Z) : bool :=
  match e with
  | Delete p => bool_decide (pod_id_of p = Some pod_id)
  | InitDone => negb (bool_decide (pod_id ∈ l))
  | _ => false
  end.
Definition look_on (pod_id : Z) (looks : list Look) (l : gset Z) (e : WatchEvent) : list Look :=
  if forgets_pod pod_id e l then [] else match look_at pod_id e with Some o => app looks [o] | None => looks end.
(** The looks at a pod that stand after the events, and the pods listed by then. *)
Definition looks_after (pod_id : Z) (events : list WatchEvent) : list Look * gset Z :=
  foldl (λ '(looks, l) e, (look_on pod_id looks l e, list_event e l)) ([], ∅) events.

(** What a watch holds of a pod. *)
Definition seen_of (looks : list Look) : option DockerSeen :=
  match looks with [] => None | _ => Some (Build_DockerSeen (most looks) (last (omap (λ o, exited (snd o)) (untold looks)))) end.

Lemma untold_fst looks : fst (foldl (λ '(before, since) o, (app before [o], if tells before o then [] else app since [o])) (([] : list Look), ([] : list Look)) looks) = looks.
Proof. induction looks as [|o looks IH] using rev_ind; [done|]. rewrite foldl_app. cbn. destruct (foldl _ _ looks). cbn in *. by rewrite IH. Qed.
Lemma untold_snoc looks o : untold (app looks [o]) = if tells looks o then [] else app (untold looks) [o].
Proof. unfold untold. rewrite foldl_app. pose proof (untold_fst looks) as H. destruct (foldl _ _ looks). cbn in *. by rewrite H. Qed.
Lemma most_snoc looks o : most (app looks [o]) = Z.max (most looks) (count_of o).
Proof. unfold most. induction looks as [|o1 looks IH]; cbn; [lia|]. cbn in IH. lia. Qed.
Lemma most_pos looks : (0 <= most looks)%Z.
Proof. unfold most. induction looks; cbn in *; lia. Qed.
Lemma most_in looks o : o ∈ looks → (count_of o <= most looks)%Z.
Proof. unfold most. induction 1; cbn in *; lia. Qed.
Lemma last_exit l o : last (omap (λ o : Look, exited (snd o)) (app l [o])) = or_else (exited (snd o)) (last (omap (λ o, exited (snd o)) l)).
Proof. rewrite omap_app. cbn. destruct (exited (snd o)); cbn; [by rewrite last_snoc|by rewrite app_nil_r]. Qed.
Lemma seen_of_snoc looks o : seen_of (app looks [o]) =
  Some (Build_DockerSeen (Z.max (most looks) (count_of o))
          (if tells looks o then None else or_else (exited (snd o)) (last (omap (λ o, exited (snd o)) (untold looks))))).
Proof.
  unfold seen_of. rewrite untold_snoc, most_snoc. destruct (app looks [o]) eqn:E; [by destruct looks|]. destruct (tells looks o); [done|]. by rewrite last_exit.
Qed.
(** One look: what it tells, and what is held after it. *)
Lemma note_docker_tells pod_id looks p initial :
  let '(restart, entry) := note_docker pod_id (is_some (seen_of looks)) (default default_seen (seen_of looks)) p initial in
  restart = restart_told pod_id looks (initial, p) ∧ Some entry = seen_of (app looks [(initial, p)]).
Proof.
  pose proof (most_pos looks) as Hpos.
  assert (default default_seen (seen_of looks) = Build_DockerSeen (most looks) (last (omap (λ o, exited (snd o)) (untold looks)))
          ∧ negb (is_some (seen_of looks)) = Nat.eqb (length looks) 0) as [-> Hknown] by by destruct looks.
  rewrite seen_of_snoc. unfold note_docker, restart_told, told_reason, docker_restart_to_report, tells. rewrite last_exit, Hknown. cbn [fst snd].
  set (held := last _). assert (∀ n, match exited p with Some r => Build_DockerSeen n held <| exit_reason := Some r |> | None => Build_DockerSeen n held end
                                  = Build_DockerSeen n (or_else (exited p) held)) as -> by (intros n; by destruct (exited p)).
  cbn [restarts exit_reason]. unfold count_of. cbn [snd]. destruct (docker_status p) as [d|] eqn:Hd; cbn; [|split; [done|by rewrite Z.max_l by lia]].
  destruct (Z.leb_spec (restart_count d) (most looks)); destruct (Z.ltb_spec (most looks) (restart_count d)); cbn; [lia| | |lia].
  - split; [done|]. by rewrite Z.max_l by lia.
  - rewrite Z.max_r by lia. destruct (initial && _); cbn; [by rewrite andb_false_r|]. by destruct (finished p).
Qed.

(** The watch's bookkeeping is that of its events. *)
Definition events_of (steps : list WatchStep) : list WatchEvent := omap (λ st, match st with Event e => Some e | TaskRuns _ => None end) steps.
Definition keeps_track (events : list WatchEvent) (w : Watch) : Prop :=
  ∀ pod_id, docker_restarts w !! pod_id = seen_of (fst (looks_after pod_id events)) ∧ listed w = snd (looks_after pod_id events).
(** What an event's look at Docker tells, if it looks. *)
Definition event_tells (events : list WatchEvent) (e : WatchEvent) : option DockerRestart :=
  match e with
  | InitApply p | Apply p =>
      pod_id ← pod_id_of p; o ← look_at pod_id e; restart_told pod_id (fst (looks_after pod_id events)) o
  | _ => None
  end.
Lemma looks_snoc pod_id events e :
  looks_after pod_id (app events [e]) =
  (look_on pod_id (fst (looks_after pod_id events)) (snd (looks_after pod_id events)) e, list_event e (snd (looks_after pod_id events))).
Proof. unfold looks_after. rewrite foldl_app. cbn. by destruct (foldl _ _ events). Qed.

Section Tracking.
Context (set_up : bool) (instance : Call (Result SmeltInstance string)).
Context (delete : Z → Call (Result unit SandboxError)) (running : Z → Call (Result bool string)) (get_pod : Z → Call (Result (option Pod) string)).
Abbreviation event := (watch_event set_up instance delete running).

Lemma note_restarts_track events w p initial : keeps_track events w →
  let '(restart, seen) := note_docker_restarts (docker_restarts w) p initial in
  restart = (pod_id ← pod_id_of p; restart_told pod_id (fst (looks_after pod_id events)) (initial, p))
  ∧ ∀ pod_id, seen !! pod_id = seen_of (if bool_decide (pod_id_of p = Some pod_id) then app (fst (looks_after pod_id events)) [(initial, p)] else fst (looks_after pod_id events)).
Proof.
  intros Hk. unfold note_docker_restarts. destruct (pod_id_of p) as [i|] eqn:Hi; [|split; [done|]; intros j; rewrite bool_decide_eq_false_2 by done; apply Hk].
  destruct (Hk i) as [-> _]. pose proof (note_docker_tells i (fst (looks_after i events)) p initial) as Hn. destruct (note_docker _ _ _ _ _) as [restart entry].
  destruct Hn as [-> He]. split; [done|]. intros j. destruct (decide (j = i)) as [->|Hne].
  - rewrite bool_decide_eq_true_2 by done. by rewrite lookup_insert_eq.
  - rewrite bool_decide_eq_false_2 by congruence. rewrite lookup_insert_ne by done. apply Hk.
Qed.
(** What the watch of an event changes, its tellings aside. *)
Lemma note_event_watch p initial w s :
  fst (fst (note_docker_event set_up p initial w s)) = w <| docker_restarts := snd (note_docker_restarts (docker_restarts w) p initial) |>.
Proof. unfold note_docker_event, andThen. destruct (note_docker_restarts _ _ _) as [restart seen]. destruct restart as [r|]; [by destruct (handle_docker_restart set_up r s)|done]. Qed.
Lemma watch_event_tracks events e w s : keeps_track events w → keeps_track (app events [e]) (fst (fst (event e w s))).
Proof.
  intros Hk pod_id. rewrite looks_snoc. unfold look_on. destruct (Hk pod_id) as [Hd Hl]. destruct e as [|p| |p|p|]; cbn [watch_event forgets_pod look_at list_event fst snd ret].
  - done.
  - unfold andThen. pose proof (note_event_watch p true w s) as Hw. destruct (note_docker_event _ _ _ _ _) as [[w1 tasks] s1]. cbn in Hw |- *. subst w1.
    pose proof (note_restarts_track events w p true Hk) as Hn. destruct (note_docker_restarts _ _ _) as [restart seen]. destruct Hn as [_ Hn].
    specialize (Hn pod_id). destruct (pod_id_of p) as [i|]; [destruct (negb (finished p))|]; cbn; rewrite Hn; (split; [by destruct (bool_decide _)|by rewrite ?Hl]).
  - unfold andThen. destruct (reconcile _ _ _ _ _ s) as [[] s1]. cbn. split; [|done]. unfold forget_unlisted_docker. rewrite <- Hl.
    destruct (decide (pod_id ∈ listed w)).
    + rewrite bool_decide_eq_true_2 by done. cbn. rewrite <- Hd. apply option_eq. intros x. rewrite map_lookup_filter_Some. naive_solver.
    + rewrite bool_decide_eq_false_2 by done. cbn. apply map_lookup_filter_None_2. right. naive_solver.
  - destruct (finished p) eqn:Hf; cbn [negb].
    + rewrite andb_false_r. unfold andThen. destruct (note_server_stop _ _ _) as [stopped seen]. by destruct stopped.
    + rewrite andb_true_r. rewrite note_event_watch. pose proof (note_restarts_track events w p false Hk) as Hn. destruct (note_docker_restarts _ _ _) as [restart seen].
      destruct Hn as [_ Hn]. cbn. rewrite Hn. split; [by destruct (bool_decide _)|done].
  - destruct (pod_id_of p) as [i|]; cbn; [|by rewrite bool_decide_eq_false_2 by done]. destruct (decide (i = pod_id)) as [->|Hne].
    + rewrite bool_decide_eq_true_2 by done. by rewrite lookup_delete_eq.
    + rewrite bool_decide_eq_false_2 by congruence. by rewrite lookup_delete_ne.
  - done.
Qed.
Lemma watch_run_tracks steps events ws s : keeps_track events (fst ws) →
  keeps_track (app events (events_of steps)) (fst (fst (watch_run set_up instance delete running get_pod steps ws s))).
Proof.
  revert events ws s. induction steps as [|st steps IH]; intros events ws s Hk; [by rewrite app_nil_r|]. cbn [watch_run]. unfold andThen.
  destruct ws as [w tasks], st as [e|i]; cbn [watch_step].
  - change (events_of (Event e :: steps)) with (app [e] (events_of steps)). rewrite (assoc_L app).
    pose proof (watch_event_tracks events e w s Hk) as Hk1. unfold andThen. destruct (event e w s) as [[w1 tasks1] s1]. exact (IH _ (w1, app tasks tasks1) _ Hk1).
  - change (events_of (TaskRuns i :: steps)) with (events_of steps). unfold andThen. destruct (tasks !! i) as [t|]; [|exact (IH _ _ _ Hk)].
    destruct (run_task _ _ _ _ _ t s) as [[] s1]. cbv beta iota delta [ret]. match goal with |- context [watch_run _ _ _ _ _ steps ?x ?y] => exact (IH events x y Hk) end.
Qed.
End Tracking.

(** *** Told *)

Definition looks (e : WatchEvent) : bool := match e with InitApply _ => true | Apply p => negb (finished p) | _ => false end.
Definition docker_told (d : SandboxDb) (r : option DockerRestart) : list (Z * list Notice) :=
  match r with
  | Some (Report pod_id why) =>
      match sandbox_pod_conversation_id pod_id d with Some c => [(c, [Deliver (docker_notice pod_id (Some why))])] | None => [] end
  | _ => []
  end.
Definition docker_tasks (set_up : bool) (r : option DockerRestart) : list Task :=
  match r with Some (Recheck pod_id) => if set_up then [RecheckDocker pod_id] else [] | _ => [] end.
Lemma tells_more before o after o' : tells before o = true → tells (app before (o :: after)) o' = true → (count_of o < count_of o')%Z.
Proof.
  unfold tells. intros _ [[[_ H%Z.ltb_lt]%andb_true_iff _]%andb_true_iff _]%andb_true_iff.
  pose proof (most_in (app before (o :: after)) o ltac:(set_solver)). lia.
Qed.
Lemma note_event_tells set_up events w p initial s : keeps_track events w → faults s = [] →
  let '((_, new), s') := note_docker_event set_up p initial w s in
  let restart := pod_id ← pod_id_of p; restart_told pod_id (fst (looks_after pod_id events)) (initial, p) in
  notified s' = app (notified s) (docker_told (db s) restart) ∧ new = docker_tasks set_up restart.
Proof.
  intros Hk Hf. unfold note_docker_event. pose proof (note_restarts_track events w p initial Hk) as Hn. destruct (note_docker_restarts _ _ _) as [restart seen].
  destruct Hn as [-> _]. set (restart := _ ≫= _). destruct restart as [[i why|i]|]; cbn; [|by rewrite app_nil_r..].
  unfold report_docker_restart, read, query, andThen. rewrite Hf. cbn. destruct (sandbox_pod_conversation_id i (db s)); cbn; [done|by rewrite app_nil_r].
Qed.

(** C34. Each restart of a pod's Docker is told of once.  Whatever the watch's stream brings
    and its tasks do, what it tells of a pod depends on the looks at that pod since it was
    last forgotten: a look is of a restart just when it shows more restarts than each before
    it, of a pod still running, and isn't the first of a listing.  So no count is told of
    twice; the reason told is the one Kubernetes gives for the last exit, or the latest exit
    seen since the last restart told of; and with neither, the pod is read again later. *)
Theorem docker_restarts_are_reported_once set_up instance delete running get_pod (steps : list WatchStep) (s : Life) :
  let '((w, _), s') := watch_run set_up instance delete running get_pod steps (new_watch, []) s in
  let events := events_of steps in
  (∀ e, looks e = true → faults s' = [] →
     let '((_, new), s'') := watch_event set_up instance delete running e w s' in
     notified s'' = app (notified s') (docker_told (db s') (event_tells events e))
     ∧ new = docker_tasks set_up (event_tells events e))
  ∧ ∀ before o after o', tells before o = true → tells (app before (o :: after)) o' = true → (count_of o < count_of o')%Z.
Proof.
  pose proof (watch_run_tracks set_up instance delete running get_pod steps [] (new_watch, []) s) as Hk.
  destruct (watch_run _ _ _ _ _ steps _ s) as [[w tasks] s']. cbn in Hk. specialize (Hk (λ _, conj eq_refl eq_refl)).
  split; [|exact tells_more]. intros e He Hf. destruct e as [|p| |p|p|]; try done; cbn [watch_event event_tells looks look_at] in *.
  - pose proof (note_event_tells set_up _ w p true s' Hk Hf) as Hn. unfold andThen. destruct (note_docker_event _ _ _ _ _) as [[w1 new] s1]. cbn.
    destruct Hn as [-> ->]. destruct (pod_id_of p); cbn; [by rewrite bool_decide_eq_true_2|done].
  - apply negb_true_iff in He. rewrite He. pose proof (note_event_tells set_up _ w p false s' Hk Hf) as Hn. destruct (note_docker_event _ _ _ _ _) as [[w1 new] s1].
    destruct Hn as [-> ->]. destruct (pod_id_of p); cbn; [by rewrite bool_decide_eq_true_2|done].
Qed.

(** ** What the watch closes *)

Section Kept.
Context (set_up : bool) (instance : Call (Result SmeltInstance string)).
Context (delete : Z → Call (Result unit SandboxError)) (running : Z → Call (Result bool string)) (get_pod : Z → Call (Result (option Pod) string)).
Context (i : Z).

(** What is kept of the pod [i]: its live record, and [C] of the connections. *)
Context (C : Registry → Prop).
Context (HC : ∀ j r, j ≠ i → C r → C (close_taken (deregister j r))) (HT : ∀ j r, C r → C (registry_step (TeardownFailed j) r)).
Definition kept (s : Life) : Prop := sandbox_pod_is_live i (db s) = true ∧ C (registry s).
Definition spares {T} (m : Call T) : Prop := ∀ s, kept s → kept (snd (m s)).
(** The cluster, asked of any pod, and the delete of another. *)
Context (Hinstance : spares instance) (Hrunning : ∀ j, spares (running j)) (Hget : ∀ j, spares (get_pod j)) (Hdelete : ∀ j, j ≠ i → spares (delete j)).

Lemma spares_ret {T} (x : T) : spares (ret x).
Proof. by intros s H. Qed.
Lemma spares_get {T} (f : Life → T) : spares (get f).
Proof. by intros s H. Qed.
Lemma spares_bind {T U} (m : Call T) (k : T → Call U) : spares m → (∀ x, spares (k x)) → spares (andThen m k).
Proof. intros Hm Hk s H. unfold andThen. specialize (Hm s H). destruct (m s) as [x s1]. by apply Hk. Qed.
Lemma spares_try {T U E} (m : Call (Result T E)) (k : T → Call (Result U E)) : spares m → (∀ x, spares (k x)) → spares (try_ m k).
Proof. intros Hm Hk. apply spares_bind; [done|]. intros [x|e]; [apply Hk|apply spares_ret]. Qed.
Lemma spares_query {T} (f : Z → SandboxDb → T * SandboxDb) :
  (∀ now d, sandbox_pod_is_live i d = true → sandbox_pod_is_live i (snd (f now d)) = true) → spares (query f).
Proof.
  intros Hf s [Hl Hc]. unfold query. specialize (Hf (now s) (db s) Hl).
  destruct (faults s) as [|[e|] rest]; [destruct (f (now s) (db s))| |destruct (f (now s) (db s))]; by split.
Qed.
Lemma spares_read {T} (f : Z → SandboxDb → T) : spares (read f).
Proof. by apply spares_query. Qed.
Lemma spares_update (f : Z → SandboxDb → SandboxDb) : (∀ now d, pods (f now d) = pods d) → spares (update f).
Proof. intros Hf. apply spares_query. intros now d. unfold sandbox_pod_is_live. cbn. by rewrite Hf. Qed.
Lemma spares_tell {T} (m : Call T) : (∀ s, db (snd (m s)) = db s ∧ registry (snd (m s)) = registry s) → spares m.
Proof. intros Hm s [Hl Hc]. destruct (Hm s) as [Hd Hr]. split; rewrite ?Hd, ?Hr; done. Qed.
Lemma spares_for_each {A} (f : A → Call unit) l : (∀ x, x ∈ l → spares (f x)) → spares (for_each f l).
Proof. induction l as [|x l IH]; intros Hf; [apply spares_ret|]. apply spares_bind; [apply Hf; left|]. intros _. apply IH. intros y Hy. apply Hf. by right. Qed.
Lemma spares_deregister j : j ≠ i → spares (deregister_pod j).
Proof. intros Hj s [Hl Hc]. split; [done|]. by apply HC. Qed.
Lemma live_after_end now j how d : j ≠ i → sandbox_pod_is_live i d = true → sandbox_pod_is_live i (snd (terminate_sandbox_pod_as now j how d)) = true.
Proof.
  intros Hj. unfold sandbox_pod_is_live. intros (p & Hp & [Hid%Z.eqb_eq Hlive]%andb_true_iff)%existsb_exists. apply existsb_exists. exists p.
  split; [|by rewrite Hid, Z.eqb_refl]. cbn. unfold update_where. apply in_map_iff. exists p. split; [|done].
  unfold end_takes. by rewrite (proj2 (Z.eqb_neq _ _)) by congruence.
Qed.
Ltac spare :=
  repeat match goal with
  | |- spares (ret _) => apply spares_ret
  | |- spares (get _) => apply spares_get
  | |- spares (read _) => apply spares_read
  | |- spares (andThen _ _) => apply spares_bind
  | |- spares (try_ _ _) => apply spares_try
  | |- spares (publish _ _) => by apply spares_tell
  | |- spares publish_pods_changed => by apply spares_tell
  | |- spares (notify _ _) => by apply spares_tell
  | |- spares (update _) => by apply spares_update
  | |- spares (match ?x with _ => _ end) => destruct x
  | |- ∀ _, _ => intros ?
  end.
Lemma spares_close_terminals j : spares (close_pod_terminals j).
Proof. unfold close_pod_terminals. spare. apply spares_for_each. intros t _. unfold close_terminal. spare. Qed.
Lemma spares_terminate j : j ≠ i → spares (force_terminate_pod delete j).
Proof.
  intros Hj. unfold force_terminate_pod, terminate_pod_with, terminate_pod_as, db_error, fails_as. apply spares_bind; [by apply spares_deregister|intros _].
  apply spares_bind; [spare; [by apply Hdelete|apply spares_query; intros; by apply live_after_end]|]. intros closed. spare.
  intros s [Hl Hc]. split; [done|by apply HT].
Qed.
(** The pod [i] itself isn't closed when its call keeps it. *)
Definition call_keeps : Prop := spares (close_if_gone set_up instance delete running i).
Lemma spares_close_other j : j ≠ i → spares (close_if_gone set_up instance delete running j).
Proof.
  intros Hj. unfold close_if_gone. destruct set_up; [|apply spares_ret]. unfold close_if_gone_with.
  spare; [apply Hinstance|apply Hrunning|apply spares_close_terminals|by apply spares_terminate].
Qed.
Lemma spares_reconcile listed s :
  (i ∈ listed ∨ ∀ p, p ∈ pods (db s) → pod_row p = i → (now s - RECONCILE_MIN_AGE_SECS * MICROS <= pod_created_at p)%Z) →
  kept s → kept (snd (reconcile set_up instance delete running listed s)).
Proof.
  intros Hnew Hk. unfold reconcile, andThen, read, query. set (rows := live_pods_older_than _ _ _).
  assert (∀ row, row ∈ List.filter (λ row, negb (bool_decide (pod_row row ∈ listed))) rows → pod_row row ≠ i) as Hne.
  { intros row [Hin Hlisted]%elem_list_filter Hi. apply negb_true_iff, bool_decide_eq_false_1 in Hlisted. rewrite Hi in Hlisted.
    destruct Hnew as [|Hnew]; [done|]. apply elem_list_filter in Hin as [Hin [_ Hold%Z.ltb_lt]%andb_true_iff]. specialize (Hnew row Hin Hi). lia. }
  pose proof (spares_for_each _ _ (λ row Hrow, spares_close_other _ (Hne row Hrow))) as Hall.
  destruct (faults s) as [|[e|] rest]; [by apply Hall|done|by apply Hall].
Qed.
Context (Hself : call_keeps).
Lemma spares_close_if_gone j : spares (close_if_gone set_up instance delete running j).
Proof. destruct (decide (j = i)) as [->|Hj]; [exact Hself|by apply spares_close_other]. Qed.
Lemma spares_report j reason : spares (report_docker_restart j reason).
Proof. unfold report_docker_restart. spare. Qed.
Lemma spares_task t : spares (run_task set_up instance delete running get_pod t).
Proof.
  destruct t as [j|j]; [apply spares_close_if_gone|]. cbn. unfold recheck_docker_restart. apply spares_bind; [apply Hget|].
  intros [[p|]|e]; [apply spares_report|apply spares_ret|apply spares_report].
Qed.
Lemma spares_note p initial w : spares (note_docker_event set_up p initial w).
Proof.
  unfold note_docker_event. destruct (note_docker_restarts _ _ _) as [[[j why|j]|] seen]; cbn [handle_docker_restart]; spare. apply spares_report.
Qed.
Lemma spares_event e w : spares (watch_event set_up instance delete running e w).
Proof.
  destruct e as [|p| |p|p|]; cbn [watch_event]; try apply spares_ret.
  - apply spares_bind; [apply spares_note|]. intros [w1 tasks]. apply spares_ret.
  - apply spares_bind; [|intros _; apply spares_ret]. unfold reconcile. apply spares_bind; [apply spares_read|].
    intros [rows|e]; [|apply spares_ret]. apply spares_for_each. intros row _. apply spares_close_if_gone.
  - destruct (finished p); [|apply spares_note]. destruct (note_server_stop _ _ _) as [[stopped|] seen]; spare.
Qed.
Lemma spares_run steps ws : spares (watch_run set_up instance delete running get_pod steps ws).
Proof.
  revert ws. induction steps as [|st steps IH]; intros ws; [apply spares_ret|]. cbn [watch_run]. apply spares_bind; [|intros ws'; apply IH].
  destruct ws as [w tasks], st as [e|n]; cbn [watch_step]; [apply spares_bind; [apply spares_event|intros ?; apply spares_ret]|].
  destruct (tasks !! n); [|apply spares_ret]. apply spares_bind; [apply spares_task|intros ?; apply spares_ret].
Qed.

End Kept.

Section Spared.
Context (set_up : bool) (instance : Call (Result SmeltInstance string)).
Context (delete : Z → Call (Result unit SandboxError)) (running : Z → Call (Result bool string)) (get_pod : Z → Call (Result (option Pod) string)).
Context (i : Z).
(** Connected to, or never said to be gone when the cluster is asked again. *)
Definition there (r : Registry) : Prop := is_some (registry_get i r) = true ∨ ∀ s, fst (running i s) ≠ Ok false.
Definition spared : Life → Prop := kept i there.
(** A call that leaves the pod's record and connection alone. *)
Definition leaves {T} (m : Call T) : Prop := spares i (λ _, True) m ∧ spares i there m.
Context (Hinstance : leaves instance) (Hrunning : ∀ j, leaves (running j)) (Hget : ∀ j, leaves (get_pod j)) (Hdelete : ∀ j, j ≠ i → leaves (delete j)).

Lemma there_deregister j r : j ≠ i → there r → there (close_taken (deregister j r)).
Proof.
  intros Hj [Hc|Hc]; [left|by right]. unfold registry_get in *. rewrite (proj1 (close_taken_kept _)). cbn. by rewrite lookup_delete_ne.
Qed.
Lemma self_spared : call_keeps set_up instance delete running i there.
Proof.
  unfold call_keeps, close_if_gone. destruct set_up; [|by intros s H]. unfold close_if_gone_with. intros s Hs. unfold andThen at 1.
  pose proof (spares_read i there (λ _, sandbox_pod_is_live i) s Hs) as Hs1.
  destruct (read _ s) as [[[]|e] s1]; cbn in Hs1 |- *; try exact Hs1. destruct (is_some (registry_get i (registry s1))) eqn:Hconn; [exact Hs1|].
  unfold andThen at 1. pose proof (proj2 Hinstance s1 Hs1) as Hs2. destruct (instance s1) as [[inst|e] s2]; cbn in Hs2 |- *; [|exact Hs2].
  unfold andThen at 1. pose proof (proj2 (Hrunning i) s2 Hs2) as Hs3. destruct Hs1 as [_ [Hc|Hc]]; [by rewrite Hconn in Hc|]. specialize (Hc s2).
  destruct (running i s2) as [[[]|e] s3]; cbn in Hs3, Hc |- *; [exact Hs3|done|exact Hs3].
Qed.

(** The watch never closes a pod that is there.  Whatever its stream brings, however its
    tasks interleave and whichever queries fail: a live pod that smelt is connected to, or
    that the cluster, asked again, doesn't say is gone, keeps its record and its
    connection.  And whatever the cluster says, the listing's reconciliation closes no pod
    the listing had, nor one made in the last five minutes. *)
Theorem the_watch_spares_what_is_there (steps : list WatchStep) (ws : Watch * list Task) (s : Life) :
  (spared s → spared (snd (watch_run set_up instance delete running get_pod steps ws s)))
  ∧ ∀ listed, sandbox_pod_is_live i (db s) = true →
      (i ∈ listed ∨ ∀ p, p ∈ pods (db s) → pod_row p = i → (now s - 300 * 1000000 <= pod_created_at p)%Z) →
      sandbox_pod_is_live i (db (snd (reconcile set_up instance delete running listed s))) = true.
Proof.
  split.
  - apply spares_run; [apply there_deregister|done|apply Hinstance|intros; apply Hrunning|intros; apply Hget|intros; by apply Hdelete|exact self_spared].
  - intros listed Hl Hnew. apply (spares_reconcile set_up instance delete running i (λ _, True)); [done..|apply Hinstance|intros; apply Hrunning|intros; by apply Hdelete|exact Hnew|done].
Qed.
End Spared.

(** ** Runs that are met *)

Definition watched (docker : option DockerStatus) (phase : string) : Pod :=
  Build_Pod (Some "sandbox-1") (Some "u1") None None false (Some (Build_PodStatus (Some phase) None None)) docker.
(** The cluster in which no pod is found any more. *)
Definition an_instance : Call (Result SmeltInstance string) := ret (Ok (Build_SmeltInstance "a" true)).
Definition deleted : Z → Call (Result unit SandboxError) := λ _, ret (Ok ()).
Definition none_running : Z → Call (Result bool string) := λ _, ret (Ok false).
Definition no_pod : Z → Call (Result (option Pod) string) := λ _, ret (Ok None).
Definition run_watch (steps : list WatchStep) (s : Life) : Watch * list Task * Life :=
  watch_run true an_instance deleted none_running no_pod steps (new_watch, []) s.
Definition docker_dies : list WatchStep :=
  [Event InitEvent; Event (InitApply (watched (Some (Build_DockerStatus 2 None None)) "Running")); Event InitDone;
   Event (Apply (watched (Some (Build_DockerStatus 2 (Some (Some "OOMKilled")) None)) "Running"))].
Definition docker_back : WatchEvent := Apply (watched (Some (Build_DockerStatus 3 None None)) "Running").
Lemma docker_restarts_are_reported_once_witness :
  (let '((w, _), s') := run_watch docker_dies busy_pod in
   let '((_, new), s'') := watch_event true an_instance deleted none_running docker_back w s' in
   notified s'' = app (notified s') [(7%Z, [Deliver (docker_notice 1 (Some "OOMKilled"))])] ∧ new = [])
  ∧ notified (snd (run_watch (app docker_dies [Event docker_back; Event docker_back]) busy_pod)) = [(7%Z, [Deliver (docker_notice 1 (Some "OOMKilled"))])].
Proof.
  split; [|vm_compute; reflexivity].
  pose proof (docker_restarts_are_reported_once true an_instance deleted none_running no_pod docker_dies busy_pod) as H.
  unfold run_watch. destruct (watch_run _ _ _ _ _ docker_dies _ busy_pod) as [[w tasks] s'] eqn:E. destruct H as [H _].
  assert (faults s' = [] ∧ sandbox_pod_conversation_id 1 (db s') = Some 7%Z) as [Hf Hc]
    by (apply (f_equal snd) in E; cbn [snd] in E; rewrite <- E; vm_compute; done).
  specialize (H docker_back eq_refl Hf). destruct (watch_event _ _ _ _ docker_back w s') as [[w1 new] s'']. destruct H as [-> ->].
  assert (event_tells (events_of docker_dies) docker_back = Some (Report 1 "OOMKilled")) as -> by (vm_compute; reflexivity).
  cbn. by rewrite Hc.
Defined.

Definition connected_pod : Life :=
  busy_pod <| now := (400 * MICROS)%Z |> <| registry ::= λ r, r <| connections := {[1%Z := O]} |> |>.
Definition pods_go : list WatchStep :=
  [Event InitEvent; Event InitDone; Event (Delete (watched None "Failed")); TaskRuns 0].
Lemma the_watch_spares_what_is_there_witness :
  spared none_running 1 (snd (run_watch pods_go connected_pod))
  ∧ sandbox_pod_is_live 2 (db (snd (run_watch pods_go connected_pod))) = false
  ∧ sandbox_pod_is_live 1 (db (snd (run_watch pods_go (connected_pod <| registry := empty_registry |>)))) = false
  ∧ sandbox_pod_is_live 2 (db (snd (reconcile true an_instance deleted none_running {[2%Z]} connected_pod))) = true.
Proof.
  assert (∀ i {T} (x : T), leaves none_running i (ret x)) as Hl by (intros; split; by intros ? ?).
  split; [|split; [vm_compute; reflexivity|split; [vm_compute; reflexivity|]]].
  - apply (the_watch_spares_what_is_there true an_instance deleted none_running no_pod 1); try (intros; apply Hl).
    split; [vm_compute; reflexivity|left; vm_compute; reflexivity].
  - apply (the_watch_spares_what_is_there true an_instance deleted none_running no_pod 2); try (intros; apply Hl); [exact pods_go|exact (new_watch, [])|vm_compute; reflexivity|].
    left. set_solver.
Defined.
