(* ===== verification/AgentTree.v ===== *)
(** * AgentTree: the records of a conversation's agents

    The transactions of [src/src/db/agents]: a conversation's children and their [agents]
    rows, the queue of what agents and smelt write to each other, and the questions asked.
    Each transaction is one function of the tables ([Tables]); one that refuses rolls back
    and changes nothing.  The row locks a transaction takes make it one step: every other
    that writes its rows lands wholly before or after it.

    A conversation's title, which a saved message may set, is left out.  JSON is a parameter, as are whether the user trusts a repository and the commands that
    run ([SandboxDb]). *)

From S2P Require Import Prelude RustStr Notices McpCalls Models Questions Notify ChatPage SandboxDb.
Local Open Scope string_scope.

(** ** The tables *)

Inductive AgentState := AGENT_STARTING | AGENT_ACTIVE | AGENT_FINISHED | AGENT_STOPPED | AGENT_FAILED.
#[export] Instance AgentState_eq_dec : EqDecision AgentState.
Proof. solve_decision. Defined.
Definition state_text (s : AgentState) : string :=
  match s with
  | AGENT_STARTING => "starting"
  | AGENT_ACTIVE => "active"
  | AGENT_FINISHED => "finished"
  | AGENT_STOPPED => "stopped"
  | AGENT_FAILED => "failed"
  end.
Definition KIND_NOTICE : string := "notice".
Definition ASKED_OF_PARENT : string := "parent".
Definition CREDENTIAL_GIT_SSH : string := "git-ssh".

Record Conv := {
  conv : Z;
  parent_id : option Z;
  deleting_at : option Z;
  paused_at : option Z;
  conv_model : option (Z * string);
}.
#[export] Instance Conv_eta : Eta Conv := λ c, Build_Conv (conv c) (parent_id c) (deleting_at c) (paused_at c) (conv_model c).

(** [V]: JSON. *)
Section Rows.
Context {V : Type}.
Record PersonaSnapshot := { name : string; path : string; commit : option string; persona_text : string; settings : V }.
Record Agent := {
  agent : Z;
  root_id : Z;
  depth : Z;
  brief : string;
  persona_name : option string;
  snapshot : option PersonaSnapshot;
  state : AgentState;
  state_changed_at : Z;
  started_at : option Z;
  rule_chain : option V;
  credentials : option (list string);
}.
#[export] Instance Agent_eta : Eta Agent := λ a,
  Build_Agent (agent a) (root_id a) (depth a) (brief a) (persona_name a) (snapshot a) (state a) (state_changed_at a) (started_at a) (rule_chain a) (credentials a).
End Rows.
Arguments PersonaSnapshot : clear implicits.
Arguments Agent : clear implicits.

(** A row of [agent_messages]. *)
Record Queued := {
  queued : Z;
  to_ : Z;
  from_ : option Z;
  label_ : string;
  kind : string;
  text : string;
  queued_at : Z;
  delivered_at : option Z;
  delivered_message_id : option Z;
}.
#[export] Instance Queued_eta : Eta Queued := λ q,
  Build_Queued (queued q) (to_ q) (from_ q) (label_ q) (kind q) (text q) (queued_at q) (delivered_at q) (delivered_message_id q).
(** A row of [pending_questions]; [asked_of]: who, as stored. *)
Record Pending := {
  asker : Z;
  tool_use_id : string;
  asked : list Question;
  asked_of : string;
  answer : option (list QuestionAnswer);
  asked_at : Z;
}.
#[export] Instance Pending_eta : Eta Pending := λ q, Build_Pending (asker q) (tool_use_id q) (asked q) (asked_of q) (answer q) (asked_at q).
Record AgentVolume := { volume : Z; owner_conversation_id : Z; volume_name : string; mount_path : string }.
Record Checkout := { checkout_conversation : Z; checkout_url : string; checkout_key : string; checkout_branch : option string; checkout_dir : string }.

(** [transcript]: the messages; [cards]: the trust cards asked for, each a conversation and
    the checkout it is about; [checkouts]: the rows made [cloning]. *)
Record Tables (V : Type) := {
  convs : list Conv;
  agents : list (Agent V);
  queue : list Queued;
  questions : list Pending;
  transcript : list Message;
  volumes : list AgentVolume;
  mounts : list (Z * Z);
  checkouts : list Checkout;
  cards : list (Z * Z);
  next_conv : Z;
  next_queued : Z;
  next_message : Z;
  next_volume : Z;
}.
Arguments convs {V}. Arguments agents {V}. Arguments queue {V}. Arguments questions {V}. Arguments transcript {V}. Arguments volumes {V}.
Arguments mounts {V}. Arguments checkouts {V}. Arguments cards {V}. Arguments next_conv {V}. Arguments next_queued {V}. Arguments next_message {V}. Arguments next_volume {V}.
Arguments Build_Tables {V}.
#[export] Instance Tables_eta {V} : Eta (Tables V) := λ t,
  Build_Tables (convs t) (agents t) (queue t) (questions t) (transcript t) (volumes t) (mounts t) (checkouts t) (cards t) (next_conv t) (next_queued t) (next_message t) (next_volume t).

Section Reads.
Context {V : Type}.
Definition conversation (id : Z) (t : Tables V) : option Conv := List.find (λ c, (conv c =? id)%Z) (convs t).
Definition agent_row (id : Z) (t : Tables V) : option (Agent V) := List.find (λ a, (agent a =? id)%Z) (agents t).
Definition conversation_parent (id : Z) (t : Tables V) : option Z := conversation id t ≫= parent_id.
Definition agent_state (id : Z) (t : Tables V) : option AgentState := state <$> agent_row id t.
Definition exists_conv (id : Z) (t : Tables V) : bool := is_some (conversation id t).
(** The agents with a given parent, by id. *)
Definition children_in (states : list AgentState) (parent : Z) (t : Tables V) : list (Agent V) :=
  sort_by (λ a b, (agent a <=? agent b)%Z)
    (List.filter (λ a, bool_decide (state a ∈ states) && bool_decide (conversation_parent (agent a) t = Some parent)) (agents t)).
End Reads.

(** ** Writes the transactions share *)

Section Writes.
Context {V : Type}.
(** A text block's message, as stored. *)
Context (content_of : string → string).

Definition queue_agent_message (now to : Z) (from : option Z) (label kind body : string) (t : Tables V) : Tables V :=
  t <| queue ::= λ q, app q [Build_Queued (next_queued t) to from label kind body now None None] |> <| next_queued ::= Z.succ |>.
Definition queue_notice (now to from : Z) (label body : string) : Tables V → Tables V := queue_agent_message now to (Some from) label KIND_NOTICE body.
Definition save_message (now id : Z) (text : string) (t : Tables V) : Message * Tables V :=
  let m := Build_Message (next_message t) id "user" (content_of text) now in
  (m, t <| transcript ::= λ l, app l [m] |> <| next_message ::= Z.succ |>).
(** [UPDATE agents SET state = … WHERE … AND state IN (…)]: whether a row was, and the tables. *)
Definition set_state (now : Z) (ids : Z → bool) (was : list AgentState) (to : AgentState) (t : Tables V) : bool * Tables V :=
  let takes a := ids (agent a) && bool_decide (state a ∈ was) in
  (existsb takes (agents t), t <| agents ::= update_where takes (λ a, a <| state := to |> <| state_changed_at := now |>) |>).
Definition is_id (id : Z) : Z → bool := Z.eqb id.

(** *** The credentials' chain bit *)

Definition agent_credentials (id : Z) (t : Tables V) : option (option (list string)) := credentials <$> agent_row id t.
Definition carries (credentials : option (list string)) : bool :=
  match credentials with None => true | Some l => existsb (String.eqb CREDENTIAL_GIT_SSH) l end.
Definition narrow_agent_credentials (child : Z) (wants_git_ssh : bool) (t : Tables V) : bool * Tables V :=
  let takes (a : Agent V) := (agent a =? child)%Z && bool_decide (state a = AGENT_STARTING) in
  (existsb takes (agents t),
   t <| agents ::= update_where takes (λ a, a <| credentials := Some (if wants_git_ssh && carries (credentials a) then [CREDENTIAL_GIT_SSH] else []) |>) |>).
Definition clear_agent_credentials (child : Z) (t : Tables V) : bool * Tables V :=
  let takes (a : Agent V) := (agent a =? child)%Z && is_none (started_at a) in
  (existsb takes (agents t), t <| agents ::= update_where takes (λ a, a <| credentials := Some [] |>) |>).

(** ** Starting a child *)

(** Of [NewChild]: the checkout's remote as its key, and the parent's row of it. *)
Record NewRepo := { repo_url : string; remote_key : string; repo_dir : string; repo_branch : option string; parent_repo_id : Z }.
Record NewChild := {
  caller : Z;
  new_brief : string;
  new_persona : option string;
  new_model : option (Z * string);
  repo : option NewRepo;
  max_depth : Z;
  new_volumes : list string;
}.
Inductive CreateChild := Created (child : Z) | Refused (why : string) (asked_user : bool).
(** [for_child]: the rules a child takes of its parent's; [debug]: [{:?}] of a name; [trust]:
    what the user decided of a remote. *)
Context (for_child : option V → option V) (debug : string → string) (trust : string → option bool).

Definition volumes_of (id : Z) (t : Tables V) : list AgentVolume :=
  List.filter (λ v, existsb (λ '(c, v'), (c =? id)%Z && (v' =? volume v)%Z) (mounts t)) (volumes t).
Definition agent_volumes_held_for (id : Z) (names : list string) (t : Tables V) : list AgentVolume :=
  sort_by (λ a b, (volume a <=? volume b)%Z) (List.filter (λ v, bool_decide (volume_name v ∈ names)) (volumes_of id t)).
(** Whether the caller may start an agent, and why not. *)
Definition refusal (new : NewChild) (t : Tables V) : option string :=
  match conversation (caller new) t with
  | None => Some "this conversation no longer exists"
  | Some c =>
      if is_some (deleting_at c) then Some "this conversation is being deleted"
      else
        match agent_row (caller new) t with
        | Some a =>
            if bool_decide (state a = AGENT_STOPPED) then Some "you were stopped, so you can't start an agent"
            else if (max_depth new <=? depth a)%Z
            then Some ("start_agent can't go deeper than " +:+ show_i64 (max_depth new) +:+ " levels of agents (you're at depth " +:+ show_i64 (depth a) +:+ ")")
            else None
        | None =>
            if is_some (parent_id c)
            then Some "this conversation has a parent but no agent row, so its depth is unknown — start_agent needs a conversation smelt started"
            else None
        end
  end.
Definition repo_refusal (new : NewChild) : option (string * bool) :=
  r ← repo new;
  match trust (remote_key r) with
  | Some true => None
  | Some false => Some ("the user declined to trust " +:+ repo_url r +:+ ", so no agent can work on it", false)
  | None =>
      Some ("the user hasn't decided whether to trust " +:+ repo_url r +:+ ", so no agent can work on it yet: a card is asking them in this conversation now. You'll get a message when they decide; call start_agent again then.", true)
  end.
Definition volume_refusal (new : NewChild) (held : list AgentVolume) : option string :=
  missing ← List.find (λ n, negb (existsb (λ v, String.eqb (volume_name v) n) held)) (new_volumes new);
  Some ("you don't hold a volume named " +:+ debug missing +:+ ": create_volume makes one, and you can pass only volumes you hold").
Definition create_child (now : Z) (new : NewChild) (t : Tables V) : CreateChild * Tables V :=
  match refusal new t with
  | Some why => (Refused why false, t)
  | None =>
      match repo_refusal new with
      | Some (why, asked) =>
          (Refused why asked,
           match repo new with Some r => if asked then t <| cards ::= λ c, app c [(caller new, parent_repo_id r)] |> else t | None => t end)
      | None =>
          let passed := agent_volumes_held_for (caller new) (new_volumes new) t in
          match volume_refusal new passed with
          | Some why => (Refused why false, t)
          | None =>
              let child := next_conv t in
              let row :=
                match agent_row (caller new) t with
                | Some a => Build_Agent child (root_id a) (depth a + 1) (new_brief new) (new_persona new) None AGENT_STARTING now None (for_child (rule_chain a))
                              (Some (if carries (credentials a) then [CREDENTIAL_GIT_SSH] else []))
                | None => Build_Agent child (caller new) 1 (new_brief new) (new_persona new) None AGENT_STARTING now None None (Some [CREDENTIAL_GIT_SSH])
                end in
              let t := t <| convs ::= λ c, app c [Build_Conv child (Some (caller new)) None None (new_model new)] |> <| next_conv ::= Z.succ |>
                         <| agents ::= λ a, app a [row] |> in
              let t := snd (save_message now child (users_text (new_brief new)) t) in
              let t := t <| mounts ::= λ m, app m (map (λ v, (child, volume v)) passed) |>
                         <| checkouts ::= λ l, app l (match repo new with Some r => [Build_Checkout child (repo_url r) (remote_key r) (repo_branch r) (repo_dir r)] | None => [] end) |> in
              (Created child, t)
          end
      end
  end.

Record StartDone := { notice : string; persona : option (PersonaSnapshot V); done_model : option (Z * string); parent_notice : option string; done_label : string }.
(** [add_tools]: the persona's tool rules joined to its chain, if it has any. *)
Context (add_tools : V → option V → option V).
Definition both_exist (parent child : Z) (t : Tables V) : bool := exists_conv parent t && exists_conv child t.
Definition complete_start (now child parent : Z) (d : StartDone) (t : Tables V) : bool * Tables V :=
  let takes (a : Agent V) := (agent a =? child)%Z && bool_decide (state a = AGENT_STARTING) in
  if negb (both_exist parent child t && existsb takes (agents t)) then (false, t)
  else
    let t := t <| agents ::= update_where takes (λ a, a <| state := AGENT_ACTIVE |> <| started_at := Some now |> <| state_changed_at := now |>
                  <| persona_name ::= λ n, match persona d with Some p => Some (name p) | None => n end |> <| snapshot := persona d |>
                  <| rule_chain ::= λ c, match persona d with Some p => add_tools (settings p) c | None => c end |>) |> in
    let t := match done_model d with
             | Some m => t <| convs ::= update_where (λ c, (conv c =? child)%Z) (λ c, c <| conv_model := Some m |>) |>
             | None => t
             end in
    let t := queue_agent_message now child None "smelt" KIND_NOTICE (notice d) t in
    (true, match parent_notice d with Some n => queue_agent_message now parent (Some child) (done_label d) KIND_NOTICE n t | None => t end).
Definition fail_start (now child parent : Z) (label text : string) (t : Tables V) : bool * Tables V :=
  let '(failed, t') := set_state now (is_id child) [AGENT_STARTING] AGENT_FAILED t in
  if negb (both_exist parent child t && failed) then (false, t)
  else
    let t := queue_agent_message now parent (Some child) label KIND_REPORT text t' in
    (true, snd (save_message now child (mark_notice text) t)).
Definition starting_agents (t : Tables V) : list (Z * Z) :=
  sort_by (λ a b, (fst a <=? fst b)%Z)
    (omap (λ a : Agent V, if bool_decide (state a = AGENT_STARTING) then parent ← conversation_parent (agent a) t; Some (agent a, parent) else None) (agents t)).

(** ** Finishing *)

Inductive Finish :=
  | ReportQueued (parent : Z)
  | NotActive (was : option AgentState)
  | MessageWaiting
  | AgentsRunning (running : list (Z * AgentState))
  | CommandsRunning (running : list (string * string * Z)).
(** A time as whole seconds, the nearest: [EXTRACT(EPOCH …)::BIGINT] of a time not negative. *)
Definition rounded_secs (micros : Z) : Z := ((micros + MICROS / 2) / MICROS)%Z.
(** [FINISH_RUNNING_COMMANDS_SQL]: each with the seconds it has run. *)
Definition running_commands (now child : Z) (d : SandboxDb) : list (string * string * Z) :=
  map (λ c, (command_id c, command_text c, rounded_secs (now - command_created_at c)))
    (List.filter (λ c, (command_conversation c =? child)%Z && is_running c) (commands d)).
Definition unread_by (child : Z) (t : Tables V) : bool :=
  existsb (λ q, (to_ q =? child)%Z && is_none (delivered_at q) && bool_decide (kind q ∈ [KIND_MESSAGE; KIND_QUESTION; KIND_REPORT])) (queue t)
  || existsb (λ q, (asker q =? child)%Z && is_some (answer q)) (questions t).
Definition finish_agent (now child : Z) (label report : string) (d : SandboxDb) (t : Tables V) : Finish * Tables V :=
  match conversation_parent child t with
  | None => (NotActive None, t)
  | Some parent =>
      if negb (both_exist parent child t) then (NotActive None, t)
      else
        let '(finished, t') := set_state now (is_id child) [AGENT_ACTIVE] AGENT_FINISHED t in
        if negb finished then (NotActive (agent_state child t), t)
        else
          match running_commands now child d with
          | (_ :: _) as running => (CommandsRunning running, t)
          | [] =>
              match children_in [AGENT_STARTING; AGENT_ACTIVE] child t' with
              | (_ :: _) as running => (AgentsRunning (map (λ a, (agent a, state a)) running), t)
              | [] =>
                  if unread_by child t' then (MessageWaiting, t)
                  else (ReportQueued parent, queue_agent_message now parent (Some child) label KIND_REPORT report t')
              end
          end
  end.
Inductive FollowUp := FollowUpQueued (parent : Z) | StateChanged (to : AgentState) | Gone.
Definition report_after_finish (now child : Z) (label report : string) (t : Tables V) : FollowUp * Tables V :=
  match conversation_parent child t with
  | None => (Gone, t)
  | Some parent =>
      if negb (both_exist parent child t) then (Gone, t)
      else
        match agent_state child t with
        | Some AGENT_FINISHED => (FollowUpQueued parent, queue_agent_message now parent (Some child) label KIND_REPORT report t)
        | Some other => (StateChanged other, t)
        | None => (Gone, t)
        end
  end.

(** ** Stopping, and taking up again *)

(** The conversations whose parent was found and that weren't. *)
Definition found_under (found : list Z) (t : Tables V) : list Z :=
  map conv (List.filter (λ c, match parent_id c with Some p => bool_decide (p ∈ found) | None => false end && negb (bool_decide (conv c ∈ found))) (convs t)).
Fixpoint descend (fuel : nat) (found : list Z) (t : Tables V) : list Z :=
  match fuel with
  | O => found
  | S fuel => match found_under found t with [] => found | new => descend fuel (app found new) t end
  end.
(** [id] first, then those under it by id: each round finds one of the conversations, or is the last. *)
Definition subtree_ids (id : Z) (t : Tables V) : list Z :=
  id :: sort_by Z.leb (List.filter (λ i, negb (i =? id)%Z) (if exists_conv id t then descend (length (convs t)) [id] t else [])).
Definition in_ids (ids : list Z) (id : Z) : bool := bool_decide (id ∈ ids).
Inductive StopSubtree := NotYourChild | AlreadyEnded (was : AgentState) | SubtreeStopped (ids : list Z).
Definition is_child_of (caller id : Z) (t : Tables V) : bool :=
  is_some (agent_row id t) && bool_decide (conversation_parent id t = Some caller).
Definition stop_subtree (now caller id : Z) (t : Tables V) : StopSubtree * Tables V :=
  if negb (is_child_of caller id t) then (NotYourChild, t)
  else
    match agent_state id t with
    | None => (NotYourChild, t)
    | Some ((AGENT_STOPPED | AGENT_FAILED) as was) => (AlreadyEnded was, t)
    | Some _ =>
        let subtree := subtree_ids id t in
        (SubtreeStopped subtree, snd (set_state now (in_ids subtree) [AGENT_STARTING; AGENT_ACTIVE; AGENT_FINISHED] AGENT_STOPPED t))
    end.
Definition reactivate_agent (now id : Z) (t : Tables V) : bool * Tables V :=
  let takes (a : Agent V) := (agent a =? id)%Z && bool_decide (state a ∈ [AGENT_FINISHED; AGENT_STOPPED]) && is_some (started_at a) in
  (existsb takes (agents t), t <| agents ::= update_where takes (λ a, a <| state := AGENT_ACTIVE |> <| state_changed_at := now |>) |>).
Definition reactivate_finished (now id : Z) (t : Tables V) : Tables V := snd (set_state now (is_id id) [AGENT_FINISHED] AGENT_ACTIVE t).

(** ** Messages *)

Inductive Recipient := Parent | Child (id : Z).
Inductive MessageOutcome :=
  | MessageQueued (recipient : Z)
  | Answered (child : Z)
  | NoParent
  | NotMyChild (id : Z)
  | Deleted (id : Z)
  | Ended (id : Z) (was : AgentState).
Definition recipient_of (caller : Z) (to : Recipient) (t : Tables V) : Z + MessageOutcome :=
  match to with
  | Parent => match conversation_parent caller t with Some p => inl p | None => inr NoParent end
  | Child id => if bool_decide (conversation_parent id t = Some caller) then inl id else inr (NotMyChild id)
  end.
(** A question to its parent still open, whose row in the parent's queue is delivered. *)
Definition read_question (child parent : Z) (t : Tables V) (q : Pending) : bool :=
  (asker q =? child)%Z && String.eqb (asked_of q) ASKED_OF_PARENT && is_none (answer q)
  && existsb (λ m, (to_ m =? parent)%Z && bool_decide (from_ m = Some child) && String.eqb (kind m) KIND_QUESTION && (queued_at m =? asked_at q)%Z
                   && is_some (delivered_at m)) (queue t).
Definition message_agent (now caller : Z) (to : Recipient) (label text : string) (t : Tables V) : MessageOutcome * Tables V :=
  match recipient_of caller to t with
  | inr refused => (refused, t)
  | inl recipient =>
      if negb (both_exist caller recipient t) then (Deleted recipient, t)
      else if is_some (conversation recipient t ≫= deleting_at) then (Deleted recipient, t)
      else
        match agent_state recipient t with
        | Some ((AGENT_STOPPED | AGENT_FAILED) as was) => (Ended recipient was, t)
        | _ =>
            let t := snd (set_state now (is_id recipient) [AGENT_FINISHED] AGENT_ACTIVE t) in
            let answers := match to with Child _ => existsb (read_question recipient caller t) (questions t) | Parent => false end in
            if answers
            then (Answered recipient,
                  t <| questions ::= update_where (read_question recipient caller t) (λ q, q <| answer := Some [Build_QuestionAnswer [] (Some text)] |>) |>)
            else (MessageQueued recipient, queue_agent_message now recipient (Some caller) label KIND_MESSAGE text t)
        end
  end.
Inductive AskParent := Asked (parent : Z) | AskerHasNoParent | AskerNotActive (was : option AgentState) | ParentEnded (why : string).
(** [INSERT … ON CONFLICT DO UPDATE]: one question of a conversation at a time. *)
Definition upsert_pending_question (now id : Z) (use : string) (qs : list Question) (of_ : string) (t : Tables V) : Tables V :=
  let q := Build_Pending id use qs of_ None now in
  let mine q := (asker q =? id)%Z in
  t <| questions ::= λ l, if existsb mine l then update_where mine (λ _, q) l else app l [q] |>.
Definition ask_parent (now child : Z) (use question label : string) (t : Tables V) : AskParent * Tables V :=
  match conversation_parent child t with
  | None => (AskerHasNoParent, t)
  | Some parent =>
      if negb (both_exist parent child t) then (AskerNotActive None, t)
      else if negb (bool_decide (agent_state child t = Some AGENT_ACTIVE)) then (AskerNotActive (agent_state child t), t)
      else if is_some (conversation parent t ≫= deleting_at) then (ParentEnded "deleted", t)
      else
        match agent_state parent t with
        | Some ((AGENT_STOPPED | AGENT_FAILED) as was) => (ParentEnded (state_text was), t)
        | _ =>
            let asked := [Build_Question question "Question for your parent" [] false] in
            let t := upsert_pending_question now child use asked ASKED_OF_PARENT t in
            (Asked parent, queue_agent_message now parent (Some child) label KIND_QUESTION question t)
        end
  end.
(** A turn takes its conversation's question: answered, or any. *)
Definition take_pending_question (id : Z) (include_waiting : bool) (t : Tables V) : option Pending * Tables V :=
  let takes q := (asker q =? id)%Z && (is_some (answer q) || include_waiting) in
  (List.find takes (questions t), t <| questions ::= List.filter (λ q, negb (takes q)) |>).

(** *** Delivering them *)

Definition undelivered_agent_messages (to : Z) (t : Tables V) : list Queued :=
  sort_by (λ a b, (queued a <=? queued b)%Z) (List.filter (λ q, (to_ q =? to)%Z && is_none (delivered_at q)) (queue t)).
(** [content]: the message it becomes, as stored. *)
Definition deliver_agent_message (now : Z) (row : Queued) (content : string) (t : Tables V) : option Message * Tables V :=
  let takes q := (queued q =? queued row)%Z && is_none (delivered_at q) in
  if negb (exists_conv (to_ row) t && existsb takes (queue t)) then (None, t)
  else
    let m := Build_Message (next_message t) (to_ row) "user" content now in
    (Some m,
     t <| transcript ::= λ l, app l [m] |> <| next_message ::= Z.succ |>
       <| queue ::= update_where takes (λ q, q <| delivered_at := Some now |> <| delivered_message_id := Some (msg_id m) |>) |>).
Definition conversations_with_queued_messages (t : Tables V) : list Z :=
  sort_by Z.leb (map conv (List.filter (λ c,
    is_none (paused_at c) && negb (bool_decide (agent_state (conv c) t = Some AGENT_STOPPED))
    && (existsb (λ m, (to_ m =? conv c)%Z && is_none (delivered_at m)) (queue t)
        || is_some (agent_row (conv c) t) && existsb (λ q, (asker q =? conv c)%Z && is_some (answer q)) (questions t))) (convs t))).

(** *** What a restart cut off, and a turn's end *)

(** The message with the largest id of [id]'s, of those [of_]. *)
Definition last_message (of_ : Message → bool) (id : Z) (t : Tables V) : option Message :=
  foldl (λ best m, match best with Some b => if (msg_id b <? msg_id m)%Z then Some m else best | None => Some m end) None
    (List.filter (λ m, (msg_conversation m =? id)%Z && of_ m) (transcript t)).
(** [LIKE '%before_after%']: [before], any one character, [after]. *)
Definition like_here (before after s : string) : bool :=
  match str_chars <$> strip_prefix before s with Some (_ :: rest) => starts_with after (join "" rest) | _ => false end.
Fixpoint like (before after s : string) : bool :=
  like_here before after s || match s with EmptyString => false | String _ s => like before after s end.
Definition quoted (s : string) : string := dquote +:+ s +:+ dquote.
Definition block_like (before after : string) : string → bool := like (quoted "type" +:+ ":" +:+ dquote +:+ before) (after +:+ dquote).
Definition cut_off (t : Tables V) (m : Message) : bool :=
  String.eqb (msg_role m) "user"
    && (block_like "tool" "result" (msg_content m) || existsb (λ d, bool_decide (delivered_message_id d = Some (msg_id m))) (queue t))
  || String.eqb (msg_role m) "assistant" && block_like "tool" "use" (msg_content m).
Definition cut_off_agents (body : string) (t : Tables V) : list Z :=
  sort_by Z.leb (map conv (List.filter (λ c,
    bool_decide (agent_state (conv c) t = Some AGENT_ACTIVE) && is_none (paused_at c) && is_none (deleting_at c)
    && match last_message (λ _, true) (conv c) t with Some m => cut_off t m | None => false end
    && negb (existsb (λ q, (asker q =? conv c)%Z) (questions t))
    && negb (existsb (λ m, (to_ m =? conv c)%Z && is_none (delivered_at m) && String.eqb (kind m) KIND_NOTICE && String.eqb (text m) body) (queue t))) (convs t))).
Definition queue_restart_notices (now : Z) (body : string) (t : Tables V) : list Z * Tables V :=
  let told := cut_off_agents body t in
  (told, foldl (λ t id, queue_agent_message now id None "smelt" KIND_NOTICE body t) t told).
(** [has_card]: an AGENTS.md card waits in it; [text_of]: the text of a stored message. *)
Definition idle_agent_without_report (has_card : Z → bool) (text_of : string → string) (id : Z) (d : SandboxDb) (t : Tables V) : option (Z * string) :=
  parent ← conversation_parent id t;
  if bool_decide (agent_state id t = Some AGENT_ACTIVE)
     && negb (existsb (λ q, (asker q =? id)%Z && is_none (answer q)) (questions t))
     && negb (has_card id)
     && bool_decide (running_commands 0 id d = [])
     && bool_decide (children_in [AGENT_STARTING; AGENT_ACTIVE] id t = [])
  then Some (parent, take_chars 500 (match last_message (λ m, String.eqb (msg_role m) "assistant") id t with Some m => text_of (msg_content m) | None => "" end))
  else None.
Definition agent_persona_path (id : Z) (t : Tables V) : option string := path <$> (agent_row id t ≫= snapshot).

(** ** Deleting a subtree *)

Record Deleting := { subtree : list Z; deleted_parent : option Z; stopped : list (Z * AgentState) }.
Definition mark_subtree_deleting (now id : Z) (t : Tables V) : option Deleting * Tables V :=
  if negb (exists_conv id t) then (None, t)
  else
    let subtree := subtree_ids id t in
    let stopped := map (λ a, (agent a, state a)) (sort_by (λ a b, (agent a <=? agent b)%Z)
                     (List.filter (λ a : Agent V, in_ids subtree (agent a) && bool_decide (state a ∈ [AGENT_ACTIVE; AGENT_FINISHED])) (agents t))) in
    let t' := t <| convs ::= update_where (λ c, in_ids subtree (conv c)) (λ c, c <| deleting_at := Some now |>) |> in
    (Some (Build_Deleting subtree (conversation_parent id t) stopped),
     snd (set_state now (in_ids subtree) [AGENT_STARTING; AGENT_ACTIVE; AGENT_FINISHED] AGENT_STOPPED t')).
Definition unmark_subtree_deleting (now : Z) (d : Deleting) (t : Tables V) : Tables V :=
  foldl (λ t '(id, was), snd (set_state now (is_id id) [AGENT_STOPPED] was t))
    (t <| convs ::= update_where (λ c, in_ids (subtree d) (conv c)) (λ c, c <| deleting_at := None |>) |>) (stopped d).
(** The delete of a conversation's row, with all its cascade takes along. *)
Definition delete_conversation (id : Z) (t : Tables V) : Tables V :=
  let gone := in_ids (if exists_conv id t then subtree_ids id t else []) in
  let volumes_gone v := gone (owner_conversation_id v) in
  t <| convs ::= List.filter (λ c, negb (gone (conv c))) |>
    <| agents ::= List.filter (λ a, negb (gone (agent a) || gone (root_id a))) |>
    <| queue ::= λ q, map (λ m, m <| from_ ::= λ f, if match f with Some i => gone i | None => false end then None else f |>)
                       (List.filter (λ m, negb (gone (to_ m))) q) |>
    <| questions ::= List.filter (λ q, negb (gone (asker q))) |>
    <| transcript ::= List.filter (λ m, negb (gone (msg_conversation m))) |>
    <| mounts ::= List.filter (λ '(c, v), negb (gone c || existsb (λ w, (volume w =? v)%Z && volumes_gone w) (volumes t))) |>
    <| volumes ::= List.filter (λ v, negb (volumes_gone v)) |>
    <| checkouts ::= List.filter (λ k, negb (gone (checkout_conversation k))) |>.
Definition delete_subtree_rows (now id : Z) (d : Deleting) (label : string) (t : Tables V) : Tables V :=
  if negb (exists_conv id t) then t
  else
    let t := match deleted_parent d with
             | Some parent => if exists_conv parent t then queue_agent_message now parent (Some id) label KIND_NOTICE ("the user deleted " +:+ label) t else t
             | None => t
             end in
    delete_conversation id t.
End Writes.
