(* ===== verification/VolumePaths.v ===== *)
(** * VolumePaths: where a volume may be mounted

    Models [src/src/sandbox/spec/mounts.rs]: the path a volume's mount is stored with, and the
    volumes of a pod's spec.  [{:?}] of a string is a parameter.  What is proved: the path a
    model's volume is stored with is the one form of its place, and no place of smelt's. *)

From S2P Require Import Prelude RustStr McpCalls.
Local Open Scope string_scope.

(** ** Paths *)

Definition SANDBOX_HOME : string := "/home/sandbox".
Definition WORKSPACE_DIR : string := "/workspace".
Definition WORKSPACE_VOLUME : string := "workspace".
Definition DOCKER_SOCK_DIR : string := "/run/docker-sock".
Definition DOCKER_DATA_VOLUME : string := "docker-data".

Definition is_slash (a : ascii) : bool := Ascii.eqb a "/".
(** The parts a path keeps: [split('/')] without the empty ones and the [.]s. *)
Definition kept_part (part : string) : bool := negb (String.eqb part "") && negb (String.eqb part ".").
Definition path_parts (path : string) : list string := List.filter kept_part (split_on is_slash path).
Definition resolve_mount_path (path : string) : string :=
  if String.eqb path "~" then SANDBOX_HOME
  else match strip_prefix "~/" path with Some rest => SANDBOX_HOME +:+ "/" +:+ rest | None => path end.
Definition normalize_mount_path (path : string) : string :=
  if negb (starts_with "/" path) then path
  else match path_parts path with [] => "/" | parts => "/" +:+ join "/" parts end.
Definition RESERVED_MODEL_MOUNT_DIRS : list string :=
  [WORKSPACE_DIR; "/etc/smelt"; DOCKER_SOCK_DIR; "/run/docker"; "/run/containerd"; "/run/smelt"; "/run"; "/etc"; "/usr"; "/bin"; "/lib"; "/lib64";
   "/sbin"; "/proc"; "/sys"; "/dev"; "/var/lib/docker"].
Definition RESERVED_GLOBAL_MOUNT_DIRS : list string := ["/run"].
Definition at_or_under (path dir : string) : bool := String.eqb path dir || starts_with (dir +:+ "/") path.
Definition reserved_global_mount_path (path : string) : option string := List.find (at_or_under path) RESERVED_GLOBAL_MOUNT_DIRS.
(** [max_by_key]: the last of the longest. *)
Definition longest (dirs : list string) : option string :=
  foldl (λ best d, match best with Some b => if (str_len d <? str_len b)%Z then Some b else Some d | None => Some d end) None dirs.
Definition reserved_mount_path (path : string) : option string := longest (List.filter (at_or_under path) RESERVED_MODEL_MOUNT_DIRS).

Section Paths.
Context (debug : string → string).
Definition validate_mount_path (path : string) : Result unit string :=
  if negb (starts_with "/" path) then Err (debug path +:+ " must be an absolute path (start with / or ~)")
  else if String.eqb path "/" then Err "a volume can't be mounted over the root directory"
  else if existsb (λ part, String.eqb part "..") (split_on is_slash path) then Err (debug path +:+ " must not contain ..")
  else Ok tt.
Definition model_volume_mount_path (path : string) : Result string string :=
  let path := normalize_mount_path (resolve_mount_path path) in
  and_then (validate_mount_path path) (λ _,
    match reserved_mount_path path with
    | Some dir => Err (debug path +:+ " is at or under " +:+ debug dir +:+ ", which a volume can't be mounted over")
    | None => Ok path
    end).

(** ** The volumes of a pod's spec *)

(** Of a volume of the spec: its name, and the claim behind it; a mount: its volume and path. *)
Record SpecVolume := { spec_name : string; claim_name : string }.
Record VolumeMount := { mounted : string; mounted_at : string }.
Definition mount (volume path : string) : VolumeMount := Build_VolumeMount volume path.
Definition sandbox_volume_pvc_name (id : Z) : string := "sandbox-volume-" +:+ show_i64 id.
Definition agent_volume_pvc_name (id : Z) : string := "agent-volume-" +:+ show_i64 id.
(** Of each volume its id and path. *)
Definition volume_mounts_for (volumes : list (Z * string)) : list SpecVolume * list VolumeMount :=
  List.split (map (λ '(id, path), (Build_SpecVolume ("volume-" +:+ show_i64 id) (sandbox_volume_pvc_name id), mount ("volume-" +:+ show_i64 id) path)) volumes).
Definition agent_volume_mounts_for (volumes : list (Z * string)) : list SpecVolume * list VolumeMount :=
  List.split (map (λ '(id, path), (Build_SpecVolume (agent_volume_pvc_name id) (agent_volume_pvc_name id), mount (agent_volume_pvc_name id) path)) volumes).
End Paths.

(** ** Splitting and joining *)

Fixpoint no_slash (s : string) : bool := match s with EmptyString => true | String a s => negb (is_slash a) && no_slash s end.
Lemma split_on_ne f s : split_on f s ≠ [].
Proof. destruct s as [|a s]; cbn; [done|]. destruct (f a); [done|]. by destruct (split_on f s). Qed.
Lemma split_parts s part : part ∈ split_on is_slash s → no_slash part = true.
Proof.
  revert part. induction s as [|a s IH]; intros part; cbn; [by intros ->%list_elem_of_singleton|]. destruct (is_slash a) eqn:Ha.
  - intros [->|Hin]%elem_of_cons; [done|by apply IH].
  - destruct (split_on is_slash s) as [|p ps] eqn:E; [by apply split_on_ne in E|]. intros [->|Hin]%elem_of_cons; [cbn; rewrite Ha; apply IH; left|apply IH; by right].
Qed.
Lemma split_no_slash part : no_slash part = true → split_on is_slash part = [part].
Proof. induction part as [|a part IH]; cbn; [done|]. intros [Ha%negb_true_iff Hp]%andb_true_iff. by rewrite Ha, IH. Qed.
Lemma split_slash part rest : no_slash part = true → split_on is_slash (part +:+ "/" +:+ rest) = part :: split_on is_slash rest.
Proof.
  induction part as [|a part IH]; [done|]. cbn [no_slash]. intros [Ha%negb_true_iff Hp]%andb_true_iff. rewrite str_app_cons. cbn [split_on]. by rewrite Ha, IH.
Qed.
Lemma split_join parts : parts ≠ [] → Forall (λ p, no_slash p = true) parts → split_on is_slash (join "/" parts) = parts.
Proof.
  intros Hne Hf. induction Hf as [|p parts Hp Hf IH]; [done|]. destruct parts as [|q parts]; [by apply split_no_slash|].
  change (join "/" (p :: q :: parts)) with (p +:+ "/" +:+ join "/" (q :: parts)). rewrite split_slash by done. by rewrite IH.
Qed.
Lemma parts_ok path : Forall (λ p, no_slash p = true ∧ kept_part p = true) (path_parts path).
Proof. apply Forall_forall. intros p [Hin Hk]%elem_list_filter. split; [by eapply split_parts|done]. Qed.
Lemma filter_kept parts : Forall (λ p, kept_part p = true) parts → List.filter kept_part parts = parts.
Proof. induction 1 as [|p parts Hp _ IH]; [done|]. cbn. by rewrite Hp, IH. Qed.
Lemma parts_normal path : starts_with "/" path = true → path_parts (normalize_mount_path path) = path_parts path.
Proof.
  intros Hs. unfold normalize_mount_path. rewrite Hs. cbn [negb]. pose proof (parts_ok path) as Hok. destruct (path_parts path) as [|p ps] eqn:E; [done|].
  unfold path_parts at 1. change ("/" +:+ join "/" (p :: ps)) with (EmptyString +:+ "/" +:+ join "/" (p :: ps)). rewrite split_slash by done.
  rewrite split_join; [|done|by eapply Forall_impl; [exact Hok|intros ? []]]. change (List.filter kept_part ("" :: p :: ps)) with (List.filter kept_part (p :: ps)).
  apply filter_kept. eapply Forall_impl; [exact Hok|by intros ? []].
Qed.
Lemma normal_absolute path : starts_with "/" path = true → normalize_mount_path path = "/" +:+ join "/" (path_parts path).
Proof. intros Hs. unfold normalize_mount_path. rewrite Hs. cbn [negb]. by destruct (path_parts path). Qed.
Lemma normalize_starts path : starts_with "/" (normalize_mount_path path) = starts_with "/" path.
Proof.
  unfold normalize_mount_path. destruct (starts_with "/" path) eqn:E; cbn [negb]; [|done]. destruct (path_parts path); [done|].
  apply starts_with_true. by eexists.
Qed.
Lemma normal_again path : normalize_mount_path (normalize_mount_path path) = normalize_mount_path path.
Proof.
  destruct (starts_with "/" path) eqn:Hs.
  - rewrite (normal_absolute (normalize_mount_path path)) by (by rewrite normalize_starts). by rewrite parts_normal, <- normal_absolute.
  - assert (normalize_mount_path path = path) as E by (unfold normalize_mount_path; by rewrite Hs). by rewrite !E.
Qed.
Lemma longest_none dirs : longest dirs = None → dirs = [].
Proof.
  destruct dirs as [|d dirs]; [done|]. unfold longest. cbn [foldl]. intros H. exfalso. revert d H. induction dirs as [|e dirs IH]; intros b; cbn [foldl]; [done|].
  destruct (str_len e <? str_len b)%Z; apply IH.
Qed.
Lemma not_reserved path dir : reserved_mount_path path = None → dir ∈ RESERVED_MODEL_MOUNT_DIRS → at_or_under path dir = false.
Proof.
  intros Hr%longest_none Hin. destruct (at_or_under path dir) eqn:E; [|done].
  assert (dir ∈ List.filter (at_or_under path) RESERVED_MODEL_MOUNT_DIRS) as Hd by (by apply elem_list_filter). rewrite Hr in Hd. by apply not_elem_of_nil in Hd.
Qed.
Lemma validate_ok debug path : validate_mount_path debug path = Ok tt → starts_with "/" path = true ∧ path ≠ "/" ∧ ".." ∉ split_on is_slash path.
Proof.
  unfold validate_mount_path. destruct (starts_with "/" path); cbn [negb]; [|done]. destruct (String.eqb_spec path "/"); [done|].
  destruct (existsb _ _) eqn:E; [done|]. intros _. split; [done|]. split; [done|]. intros Hin%list_elem_of_In.
  enough (existsb (λ part, String.eqb part "..") (split_on is_slash path) = true) by congruence. apply existsb_exists. by exists "..".
Qed.

(** The path a model's volume is stored with is absolute, the one form of its place (no
    empty part, no [.], no [..], nothing after the last part), not the root, and neither
    smelt's nor the system's directories nor anything in them: what the pod needs is
    never hidden.  Every other spelling of the place is stored the same, so two volumes at
    one place are seen to be. *)
Theorem model_volumes_mount_in_free_places debug path stored :
  model_volume_mount_path debug path = Ok stored →
  let parts := path_parts (resolve_mount_path path) in
  stored = "/" +:+ join "/" parts ∧ parts ≠ [] ∧ split_on is_slash stored = "" :: parts ∧ normalize_mount_path stored = stored
  ∧ Forall (λ p, p ≠ "" ∧ p ≠ "." ∧ p ≠ ".." ∧ no_slash p = true) parts
  ∧ (∀ dir rest, dir ∈ RESERVED_MODEL_MOUNT_DIRS → stored ≠ dir ∧ stored ≠ dir +:+ "/" +:+ rest)
  ∧ ∀ path', starts_with "/" (resolve_mount_path path') = true → path_parts (resolve_mount_path path') = parts →
      model_volume_mount_path debug path' = Ok stored.
Proof.
  intros H parts. unfold model_volume_mount_path in H |- *. set (typed := resolve_mount_path path) in *.
  destruct (validate_mount_path debug (normalize_mount_path typed)) as [[]|] eqn:Hv; cbn [and_then] in H; [|done].
  destruct (reserved_mount_path _) eqn:Hr; [done|]. injection H as <-. pose proof (validate_ok _ _ Hv) as (Hs & Hroot & Hdots).
  rewrite normalize_starts in Hs. pose proof (normal_absolute typed Hs) as Hn. fold parts in Hn.
  assert (parts ≠ []) as Hne by (intros E; rewrite E in Hn; by rewrite Hn in Hroot).
  assert (Forall (λ p, no_slash p = true ∧ kept_part p = true) parts) as Hok by apply parts_ok.
  assert (split_on is_slash (normalize_mount_path typed) = "" :: parts) as Hsplit.
  { rewrite Hn. change ("/" +:+ ?r) with (EmptyString +:+ "/" +:+ r). rewrite split_slash by done. f_equal. apply split_join; [done|].
    eapply Forall_impl; [exact Hok|by intros ? []]. }
  conjs; try done; [apply normal_again| | |].
  - apply Forall_forall. intros p Hp. pose proof (proj1 (Forall_forall _ _) Hok p Hp) as [Hnsl Hk]. apply andb_true_iff in Hk as [H1%negb_true_iff%String.eqb_neq H2%negb_true_iff%String.eqb_neq].
    conjs; try done. intros ->. apply Hdots. rewrite Hsplit. by right.
  - intros dir rest Hd. pose proof (not_reserved _ _ Hr Hd) as Hu. apply orb_false_iff in Hu as [Hu1%String.eqb_neq Hu2]. split; [done|]. intros E.
    enough (starts_with (dir +:+ "/") (normalize_mount_path typed) = true) by congruence. apply starts_with_true. exists rest. by rewrite E, str_app_assoc.
  - intros path' Hs' Hp'. assert (normalize_mount_path (resolve_mount_path path') = normalize_mount_path typed) as -> by (rewrite (normal_absolute (resolve_mount_path path')), Hp' by done; done).
    by rewrite Hv, Hr.
Qed.
Lemma model_volumes_mount_in_free_places_witness :
  let stored := "/home/sandbox/cache" in
  stored = "/" +:+ join "/" ["home"; "sandbox"; "cache"] ∧ model_volume_mount_path id "/home//sandbox/./cache/" = Ok stored.
Proof.
  split; [done|]. destruct (model_volumes_mount_in_free_places id "~/cache" "/home/sandbox/cache" ltac:(by vm_compute)) as (_ & _ & _ & _ & _ & _ & H).
  by apply H; vm_compute.
Defined.
Lemma nested_mounts_are_refused :
  model_volume_mount_path id "/etc/smelt/keys" = Err "/etc/smelt/keys is at or under /etc/smelt, which a volume can't be mounted over"
  ∧ model_volume_mount_path id "/lib64x" = Ok "/lib64x" ∧ reserved_global_mount_path "/run/x" = Some "/run".
Proof. by vm_compute. Qed.
