(* ===== verification/AgentVolumes.v ===== *)
(** * AgentVolumes: the volumes agents make and pass on

    Models [src/src/db/agents/volumes.rs] on the [Tables] of [AgentTree], and the tools
    [create_volume] and [delete_volume] of [src/src/agents/volumes.rs].  The database refuses
    what the migration's constraints do (a name its owner has, one not of the letters
    allowed, an owner gone), with an error that is a parameter; the cluster's answers are
    parameters too.  A conversation's tools run one after another, so a tool is one step
    between those of the others. *)

From S2P Require Import Prelude RustStr Notices McpCalls Models Questions Notify ChatPage SandboxDb AgentTree VolumePaths.
Local Open Scope string_scope.

(** ** The rows *)

Section Db.
Context {V : Type}.
Implicit Types t : Tables V.

Definition list_conversation_volume_mounts (id : Z) t : list AgentVolume := sort_by (λ a b, (volume a <=? volume b)%Z) (volumes_of id t).
Definition agent_volume_held_by (id : Z) (name : string) t : option AgentVolume := List.find (λ v, String.eqb (volume_name v) name) (volumes_of id t).
Definition volume_mounted_at (id : Z) (path : string) t : bool := existsb (λ v, String.eqb (mount_path v) path) (volumes_of id t).
(** The name the migration's check and the tool allow. *)
Definition name_char (a : ascii) : bool := is_ascii_alphanumeric a || Ascii.eqb a "-" || Ascii.eqb a "_".
Definition valid_volume_name (name : string) : bool := (1 <=? chars_count name)%nat && (chars_count name <=? 64)%nat && all_bytes name_char name.
Definition owns_name (id : Z) (name : string) (v : AgentVolume) : bool := (owner_conversation_id v =? id)%Z && String.eqb (volume_name v) name.
Definition create_agent_volume_with_owner_mount (id : Z) (name path : string) t : option AgentVolume * Tables V :=
  if negb (exists_conv id t) || negb (valid_volume_name name) || existsb (owns_name id name) (volumes t) then (None, t)
  else
    let v := Build_AgentVolume (next_volume t) id name path in
    (Some v, t <| volumes ::= λ l, app l [v] |> <| next_volume ::= Z.succ |> <| mounts ::= λ m, app m [(id, volume v)] |>).
(** A volume's row gone, and every mount of it. *)
Definition drop_volumes (gone : AgentVolume → bool) t : Tables V :=
  t <| volumes ::= List.filter (λ v, negb (gone v)) |>
    <| mounts ::= List.filter (λ '(_, id), negb (existsb (λ v, (volume v =? id)%Z && gone v) (volumes t))) |>.
Definition delete_agent_volume_row (owner id : Z) t : bool * Tables V :=
  let takes v := (volume v =? id)%Z && (owner_conversation_id v =? owner)%Z in
  (existsb takes (volumes t), drop_volumes takes t).
Definition agent_volume_ids_of (subtree : list Z) t : list Z :=
  sort_by Z.leb (map volume (List.filter (λ v, in_ids subtree (owner_conversation_id v)) (volumes t))).
Inductive DeleteAgentVolume := VolumeDeleted (v : AgentVolume) | VolumeNotFound | VolumeHeldBy (holders : list (Z * AgentState)).
(** The agents starting or working that mount it, but for [id]. *)
Definition holders (id : Z) (v : AgentVolume) t : list (Z * AgentState) :=
  map (λ a, (agent a, state a)) (sort_by (λ a b : Agent V, (agent a <=? agent b)%Z)
    (List.filter (λ a : Agent V, bool_decide ((agent a, volume v) ∈ mounts t) && negb (agent a =? id)%Z && bool_decide (state a ∈ [AGENT_STARTING; AGENT_ACTIVE]))
       (agents t))).
Definition delete_agent_volume_if_unused (id : Z) (name : string) t : DeleteAgentVolume * Tables V :=
  match List.find (owns_name id name) (volumes t) with
  | None => (VolumeNotFound, t)
  | Some v =>
      match holders id v t with
      | (_ :: _) as held => (VolumeHeldBy held, t)
      | [] => (VolumeDeleted v, drop_volumes (λ w, (volume w =? volume v)%Z) t)
      end
  end.
End Db.

(** ** The tools *)

Definition argument (input : option string) (field : string) : Result string string :=
  match input with Some s => Ok s | None => Err (field +:+ " is required, as a string") end.
(** Of the read of its pods, if it was made. *)
Definition holds_a_live_pod (pods : option (list PodRow)) : bool := match pods with Some (_ :: _) => true | _ => false end.
Definition create_sentence (live_pod : bool) : string :=
  if live_pod
  then "Your pod is already running, and Kubernetes can't add a volume to a live pod, so it mounts there from your next start: terminate_pod then create_pod when you're ready (/workspace is a claim and survives)."
  else "It mounts there when your pod next starts.".
Definition delete_sentence (live_pod claim_gone : bool) : string :=
  (if claim_gone then "its row, every mount row and its claim are gone."
   else "its row and every mount row are gone; its claim could not be deleted — the startup sweep takes it once this conversation is deleted.")
  +:+ " " +:+ (if live_pod then "A pod that's already running keeps what it mounted until its next start." else "Nothing mounts it now.").

Section Tools.
Context {V : Type} (debug : string → string) (db_error : string).
Implicit Types t : Tables V.

(** What is outside: the global volumes (name and path), the manager's or instance's error,
    the claim's, the pods read. *)
Record Outside := { globals : list (string * string); no_manager : option string; claim_error : option string; pods_read : option (list PodRow) }.
Definition volume_refused (id : Z) (name path : string) (o : Outside) t : option string :=
  match List.find (λ '(_, p), String.eqb p path) (globals o) with
  | Some (global, _) => Some (debug path +:+ " is where the global volume " +:+ debug global +:+ " mounts, in every pod; pick another path")
  | None =>
      if volume_mounted_at id path t
      then Some ("you already mount a volume at " +:+ debug path +:+ "; a pod mounts one volume per path, so pick another")
      else
        held ← agent_volume_held_by id name t;
        Some ("you already mount a volume named " +:+ debug name +:+ " (at " +:+ debug (mount_path held) +:+ ", created by conversation #"
              +:+ show_i64 (owner_conversation_id held) +:+ "); names are unique across everything you mount, so pass that one to your agents instead of making a second")
  end.
Definition create_volume (id : Z) (name_ path_ : option string) (o : Outside) t : Result string string * Tables V :=
  match and_then (argument name_ "name") (λ name, and_then (argument path_ "mount_path") (λ typed,
    if negb (valid_volume_name name)
    then Err ("a volume name is 1-64 letters, digits, '-' and '_', not " +:+ debug name)
    else and_then (model_volume_mount_path debug typed) (λ path,
      match volume_refused id name path o t with
      | Some why => Err why
      | None => match no_manager o with Some e => Err e | None => Ok (name, path) end
      end)))
  with
  | Err e => (Err e, t)
  | Ok (name, path) =>
      match create_agent_volume_with_owner_mount id name path t with
      | (None, t) => (Err db_error, t)
      | (Some v, t) =>
          match claim_error o with
          | Some e => (Err e, snd (delete_agent_volume_row id (volume v) t))
          | None =>
              (Ok ("volume " +:+ debug name +:+ " created at " +:+ debug path +:+ ". " +:+ create_sentence (holds_a_live_pod (pods_read o))), t)
          end
      end
  end.
Definition holder_text '((id, s) : Z * AgentState) : string := "conversation #" +:+ show_i64 id +:+ " (" +:+ state_text s +:+ ")".
(** The claim is gone when the manager and the instance were read and its delete worked. *)
Definition delete_own (id : Z) (name : string) (o : Outside) t : Result string string * Tables V :=
  match delete_agent_volume_if_unused id name t with
  | (VolumeNotFound, t) =>
      (Err ("no volume named " +:+ debug name +:+ " that you created. create_volume makes one, and delete_volume deletes only what it created — a volume passed to you is deleted by the conversation that created it."), t)
  | (VolumeHeldBy held, t) =>
      (Err (debug name +:+ " is still mounted by " +:+ join ", " (map holder_text held) +:+ " — stop or finish "
            +:+ (if (length held =? 1)%nat then "it" else "them") +:+ " first, then delete it."), t)
  | (VolumeDeleted _, t) =>
      let claim_gone := is_none (no_manager o) && is_none (claim_error o) in
      (Ok ("volume " +:+ debug name +:+ " deleted: " +:+ delete_sentence (holds_a_live_pod (pods_read o)) claim_gone), t)
  end.
Definition delete_volume (id : Z) (name_ : option string) (o : Outside) t : Result string string * Tables V :=
  match argument name_ "name" with
  | Err e => (Err e, t)
  | Ok name =>
      match agent_volume_held_by id name t with
      | Some other =>
          if negb (owner_conversation_id other =? id)%Z
          then (Err (debug name +:+ " was created by conversation #" +:+ show_i64 (owner_conversation_id other)
                     +:+ ", so only that conversation can delete it; you hold it as a mount, and your mount row goes with its creator's subtree"), t)
          else delete_own id name o t
      | None => delete_own id name o t
      end
  end.
End Tools.
