(* ===== verification/AgentGuarantees.v ===== *)
(** * AgentGuarantees: what the agents' records promise

    Every sequence of the transactions of [AgentTree], as steps on the tables and the
    deletes under way: the tree of conversations stays whole, an agent's state moves only
    as it may, a finish leaves nothing behind it, and a stop reaches everything below. *)

From S2P Require Import Prelude RustStr Notices McpCalls Models Questions Notify ChatPage SandboxDb AgentTree VolumePaths AgentVolumes.
Local Open Scope string_scope.

(** ** Steps *)

Section Steps.
Context {V : Type} (content_of : string → string) (for_child : option V → option V) (debug : string → string) (trust : string → option bool)
  (add_tools : V → option V → option V) (db_error : string).
Implicit Types t : Tables V.

Inductive Tx :=
  | NewConversation
  | CreateChild (new : NewChild)
  | CompleteStart (child parent : Z) (d : StartDone (V := V))
  | FailStart (child parent : Z) (label text : string)
  | FinishAgent (child : Z) (label report : string) (d : SandboxDb)
  | ReportAfterFinish (child : Z) (label report : string)
  | StopAgent (caller id : Z)
  | Reactivate (id : Z)
  | ReactivateFinished (id : Z)
  | MessageAgent (caller : Z) (to : Recipient) (label text : string)
  | AskParentTx (child : Z) (use question label : string)
  | TakeQuestion (id : Z) (include_waiting : bool)
  | QueueNotice (to from : Z) (label body : string)
  | Deliver (id : Z) (content : string)
  | NarrowCredentials (child : Z) (wants_git_ssh : bool)
  | ClearCredentials (child : Z)
  | CreateVolume (id : Z) (name path : option string) (o : Outside)
  | RestartNotices (body : string)
  | DeleteVolume (id : Z) (name : option string) (o : Outside)
  | MarkDeleting (id : Z)
  | Unmark (i : nat)
  | DeleteRows (i : nat) (label : string).
(** [Deliver]: of a row read before, by its id; its recipient and words never change.
    [deletes]: the deletes marked and neither done nor undone, with what each deletes. *)
Record World := { tables : Tables V; deletes : list (Z * Deleting) }.
#[local] Instance World_eta : Eta World := λ w, Build_World (tables w) (deletes w).

Definition tx_step (now : Z) (tx : Tx) (w : World) : World :=
  let t := tables w in
  let on t := Build_World t (deletes w) in
  match tx with
  | NewConversation => on (t <| convs ::= λ c, app c [Build_Conv (next_conv t) None None None None] |> <| next_conv ::= Z.succ |>)
  | CreateChild new => on (snd (create_child content_of for_child debug trust now new t))
  | CompleteStart child parent d => on (snd (complete_start add_tools now child parent d t))
  | FailStart child parent label text => on (snd (fail_start content_of now child parent label text t))
  | FinishAgent child label report d => on (snd (finish_agent now child label report d t))
  | ReportAfterFinish child label report => on (snd (report_after_finish now child label report t))
  | StopAgent caller id => on (snd (stop_subtree now caller id t))
  | Reactivate id => on (snd (reactivate_agent now id t))
  | ReactivateFinished id => on (reactivate_finished now id t)
  | MessageAgent caller to label text => on (snd (message_agent now caller to label text t))
  | AskParentTx child use question label => on (snd (ask_parent now child use question label t))
  | TakeQuestion id include => on (snd (take_pending_question id include t))
  | QueueNotice to from label body => on (queue_notice now to from label body t)
  | Deliver id content =>
      match List.find (λ q, (queued q =? id)%Z) (queue t) with
      | Some row => on (snd (deliver_agent_message now row content t))
      | None => w
      end
  | NarrowCredentials child wants => on (snd (narrow_agent_credentials child wants t))
  | ClearCredentials child => on (snd (clear_agent_credentials child t))
  | RestartNotices body => on (snd (queue_restart_notices now body t))
  | CreateVolume id name path o => on (snd (create_volume debug db_error id name path o t))
  | DeleteVolume id name o => on (snd (delete_volume debug id name o t))
  | MarkDeleting id =>
      match mark_subtree_deleting now id t with
      | (Some d, t) => Build_World t (app (deletes w) [(id, d)])
      | (None, t) => on t
      end
  | Unmark i =>
      match deletes w !! i with
      | Some (_, d) => Build_World (unmark_subtree_deleting now d t) (delete i (deletes w))
      | None => w
      end
  | DeleteRows i label =>
      match deletes w !! i with
      | Some (id, d) => Build_World (delete_subtree_rows now id d label t) (delete i (deletes w))
      | None => w
      end
  end.
Fixpoint tx_run (txs : list (Z * Tx)) (w : World) : World :=
  match txs with [] => w | (now, tx) :: txs => tx_run txs (tx_step now tx w) end.
Definition no_tables : Tables V := Build_Tables [] [] [] [] [] [] [] [] [] 1 1 1 1.
Definition no_world : World := Build_World no_tables [].
(** Every start asked for within [limit]. *)
Definition within (limit : Z) (tx : Tx) : Prop := match tx with CreateChild new => (max_depth new <= limit)%Z | _ => True end.

(** The volume tools leave all but the volumes and their mounts. *)
Definition apart (t t' : Tables V) : Prop :=
  convs t' = convs t ∧ agents t' = agents t ∧ queue t' = queue t ∧ transcript t' = transcript t
  ∧ next_conv t' = next_conv t ∧ next_queued t' = next_queued t ∧ next_message t' = next_message t.
Lemma create_volume_apart id name path o t : apart t (snd (create_volume debug db_error id name path o t)).
Proof.
  unfold create_volume. destruct (and_then _ _) as [[n p]|e]; [|done]. unfold create_agent_volume_with_owner_mount. destruct (_ || _); [done|].
  by destruct (claim_error o).
Qed.
Lemma delete_volume_apart id name o t : apart t (snd (delete_volume debug id name o t)).
Proof.
  unfold delete_volume. destruct (argument name "name") as [n|]; [|done].
  assert (apart t (snd (delete_own debug id n o t))) as H.
  { unfold delete_own, delete_agent_volume_if_unused. destruct (List.find _ _) as [v|]; [|done]. by destruct (holders id v t). }
  destruct (agent_volume_held_by id n t) as [w|]; [|done]. by destruct (negb _).
Qed.

(** The notices of a restart are only queued. *)
Lemma restart_rest now body t : let t' := snd (queue_restart_notices now body t) in
  convs t' = convs t ∧ agents t' = agents t ∧ transcript t' = transcript t ∧ volumes t' = volumes t ∧ mounts t' = mounts t
  ∧ next_conv t' = next_conv t ∧ next_message t' = next_message t ∧ next_volume t' = next_volume t.
Proof.
  cbn. generalize (cut_off_agents body t). intros told. revert t. induction told as [|id told IH]; intros t; [done|].
  cbn [foldl]. destruct (IH (queue_agent_message now id None "smelt" KIND_NOTICE body t)) as (-> & -> & -> & -> & -> & -> & -> & ->). done.
Qed.

(** ** The shape of the tree *)

Definition convs_shape (t : Tables V) : list (Z * option Z) := map (λ c, (conv c, parent_id c)) (convs t).
Definition agents_shape (t : Tables V) : list (Z * (Z * Z)) := map (λ a, (agent a, (root_id a, depth a))) (agents t).
Definition placed (cs : list (Z * option Z)) (ags : list (Z * (Z * Z))) (p r d : Z) : Prop :=
  (p, (r, d - 1)%Z) ∈ ags ∨ (d = 1%Z ∧ r = p ∧ (p, None) ∈ cs).
(** Ids distinct and in the order they were given; each parent there, and before its
    children; each agent below its parent's row, under the same root, within the limit. *)
Record whole (limit : Z) (cs : list (Z * option Z)) (ags : list (Z * (Z * Z))) (next : Z) : Prop := {
  whole_ids : NoDup cs.*1;
  whole_next : ∀ i p, (i, p) ∈ cs → (i < next)%Z;
  whole_parents : ∀ i p, (i, Some p) ∈ cs → (p < i)%Z ∧ p ∈ cs.*1;
  whole_agents : NoDup ags.*1;
  whole_placed : ∀ i r d, (i, (r, d)) ∈ ags → ∃ p, (i, Some p) ∈ cs ∧ placed cs ags p r d;
  whole_depth : ∀ i r d, (i, (r, d)) ∈ ags → (1 <= d <= limit)%Z;
}.
Definition whole_tables (limit : Z) (t : Tables V) : Prop := whole limit (convs_shape t) (agents_shape t) (next_conv t).
Definition same_shape (t t' : Tables V) : Prop :=
  convs_shape t' = convs_shape t ∧ agents_shape t' = agents_shape t ∧ next_conv t' = next_conv t.

Lemma whole_same limit t t' : same_shape t t' → whole_tables limit t → whole_tables limit t'.
Proof. intros (Hc & Ha & Hn). unfold whole_tables. by rewrite Hc, Ha, Hn. Qed.
Lemma whole_root limit cs ags next : whole limit cs ags next → whole limit (app cs [(next, None)]) ags (Z.succ next).
Proof.
  intros [H1 H2 H3 H4 H5 H6]. split.
  - rewrite fmap_app. apply NoDup_app. split; [done|]. split; [|apply NoDup_singleton].
    intros i ([j p] & -> & Hin)%list_elem_of_fmap Hi. apply list_elem_of_singleton in Hi. cbn in Hi. apply H2 in Hin. lia.
  - intros i p [Hin|Hin%list_elem_of_singleton]%elem_of_app; [apply H2 in Hin; lia|]. injection Hin as -> ->. lia.
  - intros i p [Hin|Hin%list_elem_of_singleton]%elem_of_app; [|done]. apply H3 in Hin as [Hlt Hp]. split; [done|]. rewrite fmap_app. set_solver.
  - done.
  - intros i r d Hin. apply H5 in Hin as (p & Hp & Hpl). exists p. split; [set_solver|]. unfold placed in *. set_solver.
  - done.
Qed.
Lemma whole_child limit cs ags next p r d : whole limit cs ags next → p ∈ cs.*1 → placed cs ags p r d → (1 <= d <= limit)%Z →
  whole limit (app cs [(next, Some p)]) (app ags [(next, (r, d))]) (Z.succ next).
Proof.
  intros [H1 H2 H3 H4 H5 H6] Hp Hpl Hd. assert (p < next)%Z as Hlt by (apply list_elem_of_fmap in Hp as ([j q] & -> & Hin); by apply H2 in Hin).
  split.
  - rewrite fmap_app. apply NoDup_app. split; [done|]. split; [|apply NoDup_singleton].
    intros i ([j q] & -> & Hin)%list_elem_of_fmap Hi. apply list_elem_of_singleton in Hi. cbn in Hi. apply H2 in Hin. lia.
  - intros i q [Hin|Hin%list_elem_of_singleton]%elem_of_app; [apply H2 in Hin; lia|]. injection Hin as -> ->. lia.
  - intros i q Hin. rewrite fmap_app. apply elem_of_app in Hin as [Hin|Hin%list_elem_of_singleton]; [apply H3 in Hin; set_solver|].
    injection Hin as -> ->. set_solver.
  - rewrite fmap_app. apply NoDup_app. split; [done|]. split; [|apply NoDup_singleton].
    intros i ([j [r' d']] & -> & Hin)%list_elem_of_fmap Hi. apply list_elem_of_singleton in Hi. cbn in Hi. apply H5 in Hin as (q & Hq & _). apply H2 in Hq. lia.
  - intros i r' d' [Hin|Hin%list_elem_of_singleton]%elem_of_app.
    + apply H5 in Hin as (q & Hq & Hpl'). exists q. split; [set_solver|]. unfold placed in *. set_solver.
    + injection Hin as -> -> ->. exists p. split; [set_solver|]. unfold placed in *. set_solver.
  - intros i r' d' [Hin|Hin%list_elem_of_singleton]%elem_of_app; [by eapply H6|]. injection Hin as -> -> ->. done.
Qed.
(** Rows gone with all below them. *)
Lemma whole_gone limit cs ags next (gone : Z → bool) : whole limit cs ags next → (∀ i p, (i, Some p) ∈ cs → gone p = true → gone i = true) →
  whole limit (List.filter (λ c, negb (gone (fst c))) cs) (List.filter (λ a, negb (gone (fst a) || gone (fst (snd a)))) ags) next.
Proof.
  intros [H1 H2 H3 H4 H5 H6] Hclosed. split.
  - eapply sublist_NoDup; [exact H1|]. apply fmap_sublist, list_filter_sublist.
  - intros i p [Hin _]%elem_list_filter. by eapply H2.
  - intros i p [Hin Hi]%elem_list_filter. pose proof (H3 _ _ Hin) as [Hlt Hp]. split; [done|].
    apply list_elem_of_fmap in Hp as ([j q] & Hj & Hq). cbn in Hj. subst j. apply list_elem_of_fmap. exists (p, q). split; [done|]. apply elem_list_filter. split; [done|].
    cbn in *. apply negb_true_iff in Hi. apply negb_true_iff. destruct (gone p) eqn:Hg; [|done]. by rewrite (Hclosed _ _ Hin Hg) in Hi.
  - eapply sublist_NoDup; [exact H4|]. apply fmap_sublist, list_filter_sublist.
  - intros i r d [Hin Hi]%elem_list_filter. cbn in Hi. apply negb_true_iff, orb_false_iff in Hi as [Hi Hr]. apply H5 in Hin as (p & Hp & Hpl).
    assert (gone p = false) as Hgp by (destruct (gone p) eqn:Hg; [|done]; by rewrite (Hclosed _ _ Hp Hg) in Hi).
    exists p. split; [apply elem_list_filter; cbn; by rewrite Hi|]. destruct Hpl as [Hpl|(-> & -> & Hpl)]; [left|right]; [|conjs; [done..|]];
      apply elem_list_filter; cbn; rewrite Hgp, ?Hr; done.
  - intros i r d [Hin _]%elem_list_filter. by eapply H6.
Qed.

(** *** Below a conversation *)

Lemma found_in found (t : Tables V) i : i ∈ found_under found t ↔ (∃ p, (i, Some p) ∈ convs_shape t ∧ p ∈ found) ∧ i ∉ found.
Proof.
  unfold found_under, convs_shape. split.
  - intros (c & -> & [Hin Hc]%elem_list_filter)%list_elem_of_fmap. apply andb_true_iff in Hc as [Hp Hn%negb_true_iff%bool_decide_eq_false_1].
    split; [|done]. destruct (parent_id c) as [p|] eqn:E; [|done]. exists p. split; [|by apply (bool_decide_eq_true_1 (p ∈ found))].
    apply list_elem_of_fmap. exists c. by rewrite E.
  - intros [(p & (c & [= -> Hp] & Hin)%list_elem_of_fmap & Hf) Hn]. apply list_elem_of_fmap. exists c. split; [done|]. apply elem_list_filter. split; [done|].
    rewrite <- Hp. by rewrite (bool_decide_eq_true_2 (p ∈ found)), (bool_decide_eq_false_2 (conv c ∈ found)) by done.
Qed.
Definition closed_under (t : Tables V) (ids : list Z) : Prop := ∀ i p, (i, Some p) ∈ convs_shape t → p ∈ ids → i ∈ ids.
Definition unfound (found : list Z) (t : Tables V) : list Conv := List.filter (λ c, negb (bool_decide (conv c ∈ found))) (convs t).
Lemma unfound_less found new t : new ≠ [] → (∀ i, i ∈ new → i ∉ found ∧ ∃ c, c ∈ convs t ∧ conv c = i) →
  length (unfound (app found new) t) < length (unfound found t).
Proof.
  intros Hne Hnew. destruct new as [|i new]; [done|]. destruct (Hnew i) as [Hi (c & Hc & Hci)]; [left|]. unfold unfound.
  assert (∀ l, length (List.filter (λ c, negb (bool_decide (conv c ∈ app found (i :: new)))) l) <= length (List.filter (λ c, negb (bool_decide (conv c ∈ found))) l)) as Hle.
  { induction l as [|x l IH]; cbn; [lia|]. repeat case_bool_decide; cbn; try lia. set_solver. }
  clear Hne Hnew. induction Hc as [c l|c x l _ IH]; cbn; specialize (Hle l).
  - rewrite (bool_decide_eq_false_2 (conv c ∈ found)) by (by rewrite Hci). rewrite bool_decide_eq_true_2 by set_solver. cbn. lia.
  - specialize (IH Hci). repeat case_bool_decide; cbn; try lia. set_solver.
Qed.
Lemma descend_closed fuel found (t : Tables V) : length (unfound found t) <= fuel → closed_under t (descend fuel found t).
Proof.
  revert found. induction fuel as [|fuel IH]; intros found Hfuel; cbn [descend].
  - intros i p Hin Hp. destruct (decide (i ∈ found)) as [|Hn]; [done|]. assert (length (unfound found t) = 0) as H0%nil_length_inv by lia.
    assert (i ∈ found_under found t) as (c & -> & Hc)%list_elem_of_fmap by (apply found_in; split; [by exists p|done]).
    apply elem_list_filter in Hc as [Hc _]. assert (c ∈ unfound found t) as Hu by (apply elem_list_filter; split; [done|]; by rewrite (bool_decide_eq_false_2 (conv c ∈ found))). rewrite H0 in Hu. by apply not_elem_of_nil in Hu.
  - destruct (found_under found t) as [|i l] eqn:Hf.
    + intros i p Hin Hp. destruct (decide (i ∈ found)) as [|Hn]; [done|]. assert (i ∈ found_under found t) as Hx by (apply found_in; split; [by exists p|done]). rewrite Hf in Hx. by apply not_elem_of_nil in Hx.
    + apply IH. pose proof (unfound_less found (i :: l) t) as Hless. enough (length (unfound (app found (i :: l)) t) < length (unfound found t)) by lia.
      apply Hless; [done|]. intros j Hj. rewrite <- Hf in Hj. apply found_in in Hj as [(p & (c & [= -> _] & Hc)%list_elem_of_fmap & _) Hn]. split; [done|]. by exists c.
Qed.
Lemma descend_found fuel found (t : Tables V) i : i ∈ found → i ∈ descend fuel found t.
Proof. revert found. induction fuel as [|fuel IH]; intros found Hi; cbn; [done|]. destruct (found_under found t); [done|]. apply IH. set_solver. Qed.
(** Only those below: each found has its parent found, but the first. *)
Lemma descend_below fuel found (t : Tables V) i : i ∈ descend fuel found t → i ∈ found ∨ ∃ p, (i, Some p) ∈ convs_shape t ∧ p ∈ descend fuel found t.
Proof.
  revert found. induction fuel as [|fuel IH]; intros found; cbn; [auto|]. destruct (found_under found t) as [|j l] eqn:Hf; [auto|].
  intros [[Hi|Hi]%elem_of_app|(p & Hp & Hin)]%IH; [by left| |right; by exists p]. rewrite <- Hf in Hi. apply found_in in Hi as [(p & Hp & Hin) _].
  right. exists p. split; [done|]. apply descend_found. set_solver.
Qed.
Lemma exists_conv_in id (t : Tables V) : exists_conv id t = true ↔ id ∈ (convs_shape t).*1.
Proof.
  unfold exists_conv, conversation, convs_shape. rewrite list_elem_of_fmap. split.
  - destruct (List.find _ _) as [c|] eqn:E; [|done]. apply find_some in E as [Hin%list_elem_of_In Hid%Z.eqb_eq]. intros _. exists (conv c, parent_id c).
    split; [done|]. apply list_elem_of_fmap. by exists c.
  - intros ([i p] & -> & (c & [= -> ->] & Hc)%list_elem_of_fmap). destruct (List.find _ _) eqn:E; [done|]. apply list_elem_of_In in Hc.
    pose proof (find_none _ _ E _ Hc) as Hn. cbn in Hn. by rewrite Z.eqb_refl in Hn.
Qed.
Lemma in_subtree id (t : Tables V) i : exists_conv id t = true → i ∈ subtree_ids id t ↔ i ∈ descend (length (convs t)) [id] t.
Proof.
  intros He. unfold subtree_ids. rewrite He, elem_of_cons. rewrite (sort_by_perm Z.leb _). rewrite elem_list_filter. split.
  - intros [->|[Hi _]]; [apply descend_found; set_solver|done].
  - intros Hi. destruct (decide (i = id)) as [->|Hne]; [by left|]. right. split; [done|]. apply negb_true_iff. lia.
Qed.
Lemma subtree_closed id (t : Tables V) : exists_conv id t = true → closed_under t (subtree_ids id t).
Proof.
  intros He i p Hin Hp. rewrite in_subtree in Hp |- * by done. eapply descend_closed; [|done|done]. unfold unfound.
  apply filter_length_le.
Qed.

(** *** Each transaction keeps the tree whole *)

Lemma same_refl t : same_shape t t.
Proof. done. Qed.
Lemma same_trans t1 t2 t3 : same_shape t1 t2 → same_shape t2 t3 → same_shape t1 t3.
Proof. intros (H1 & H2 & H3) (H4 & H5 & H6). split; [congruence|]. split; congruence. Qed.
Lemma agents_update (takes : Agent V → bool) (f : Agent V → Agent V) t :
  (∀ a, (agent (f a), (root_id (f a), depth (f a))) = (agent a, (root_id a, depth a))) → same_shape t (t <| agents ::= update_where takes f |>).
Proof.
  intros Hf. split; [done|]. split; [|done]. unfold agents_shape, update_where. cbn. rewrite map_map. apply map_ext. intros a. by destruct (takes a).
Qed.
Lemma convs_update (takes : Conv → bool) (f : Conv → Conv) t :
  (∀ c, (conv (f c), parent_id (f c)) = (conv c, parent_id c)) → same_shape t (t <| convs ::= update_where takes f |>).
Proof.
  intros Hf. split; [|done]. unfold convs_shape, update_where. cbn. rewrite map_map. apply map_ext. intros c. by destruct (takes c).
Qed.
Lemma set_state_same now ids was to t : same_shape t (snd (set_state now ids was to t)).
Proof. by apply agents_update. Qed.
Lemma finish_same now child label report d t : same_shape t (snd (finish_agent now child label report d t)).
Proof.
  unfold finish_agent. destruct (conversation_parent child t); [|done]. destruct (negb _); [done|]. pose proof (set_state_same now (is_id child) [AGENT_ACTIVE] AGENT_FINISHED t) as Hs.
  destruct (set_state _ _ _ _ t) as [[] t']; cbn [negb]; [|done]. destruct (running_commands _ _ _); [|done]. destruct (children_in _ _ _); [|done].
  by destruct (unread_by child t').
Qed.
Lemma complete_same now child parent d t : same_shape t (snd (complete_start add_tools now child parent d t)).
Proof.
  unfold complete_start. destruct (negb _); [done|]. cbn [snd].
  destruct (done_model d), (parent_notice d); (split; [|split]); unfold convs_shape, agents_shape, update_where; cbn; rewrite ?map_map;
    first [done|apply map_ext; intros ?; by case_match].
Qed.
Lemma message_same now caller to label text t : same_shape t (snd (message_agent now caller to label text t)).
Proof.
  unfold message_agent. destruct (recipient_of caller to t) as [recipient|]; [|done]. destruct (negb _); [done|]. destruct (is_some _); [done|].
  pose proof (set_state_same now (is_id recipient) [AGENT_FINISHED] AGENT_ACTIVE t) as Hs.
  destruct (agent_state recipient t) as [[]|]; try done; by destruct (match to with Child _ => _ | Parent => _ end).
Qed.
Lemma unmark_same now d t : same_shape t (unmark_subtree_deleting now d t).
Proof.
  unfold unmark_subtree_deleting. eapply same_trans; [by apply (convs_update (λ c, in_ids (subtree d) (conv c)) (λ c, c <| deleting_at := None |>))|].
  generalize (stopped d) as l. intros l. generalize (t <| convs ::= update_where (λ c, in_ids (subtree d) (conv c)) (λ c, c <| deleting_at := None |>) |>) as t0.
  induction l as [|[i was] l IH]; intros t0; [done|]. cbn. eapply same_trans; [|apply IH]. apply set_state_same.
Qed.
Lemma mark_same now id t : same_shape t (snd (mark_subtree_deleting now id t)).
Proof. unfold mark_subtree_deleting. destruct (negb _); [done|]. cbn [snd]. eapply same_trans; [|apply set_state_same]. by apply convs_update. Qed.

Lemma filter_shape {A B} (f : A → B) (p : B → bool) l : map f (List.filter (λ x, p (f x)) l) = List.filter p (map f l).
Proof. induction l as [|x l IH]; cbn; [done|]. destruct (p (f x)); cbn; by rewrite IH. Qed.
Lemma delete_whole limit id t : whole_tables limit t → whole_tables limit (delete_conversation id t).
Proof.
  intros Hw. set (gone := in_ids (if exists_conv id t then subtree_ids id t else [])).
  assert (convs_shape (delete_conversation id t) = List.filter (λ c, negb (gone (fst c))) (convs_shape t)) as Hc
    by apply (filter_shape (λ c, (conv c, parent_id c)) (λ c, negb (gone (fst c)))).
  assert (agents_shape (delete_conversation id t) = List.filter (λ a, negb (gone (fst a) || gone (fst (snd a)))) (agents_shape t)) as Ha
    by apply (filter_shape (λ a, (agent a, (root_id a, depth a))) (λ a, negb (gone (fst a) || gone (fst (snd a))))).
  unfold whole_tables. rewrite Hc, Ha. apply whole_gone; [done|]. intros i p Hin Hp%bool_decide_eq_true_1. apply bool_decide_eq_true_2.
  destruct (exists_conv id t) eqn:He; [|by apply not_elem_of_nil in Hp]. by eapply subtree_closed.
Qed.
Lemma find_agent id t a : agent_row id t = Some a → a ∈ agents t ∧ agent a = id.
Proof. intros [Hin%list_elem_of_In Hid%Z.eqb_eq]%find_some. done. Qed.
Lemma find_conv id (t : Tables V) c : conversation id t = Some c → c ∈ convs t ∧ conv c = id.
Proof. intros [Hin%list_elem_of_In Hid%Z.eqb_eq]%find_some. done. Qed.
Lemma create_whole limit now new t : (1 <= limit)%Z → (max_depth new <= limit)%Z → whole_tables limit t →
  whole_tables limit (snd (create_child content_of for_child debug trust now new t)).
Proof.
  intros Hl Hmax Hw. unfold create_child. destruct (refusal new t) as [why|] eqn:Hr; [done|].
  destruct (repo_refusal trust new) as [[why []]|]; [by destruct (repo new)..|]. destruct (volume_refusal _ _ _); [done|]. cbn [snd].
  unfold refusal in Hr. destruct (conversation (caller new) t) as [c|] eqn:Hc; [|done]. destruct (is_some (deleting_at c)); [done|].
  apply find_conv in Hc as [Hc Hid].
  assert (caller new ∈ (convs_shape t).*1) as Hin.
  { apply list_elem_of_fmap. exists (conv c, parent_id c). split; [done|]. apply list_elem_of_fmap. by exists c. }
  unfold whole_tables in *. destruct (agent_row (caller new) t) as [a|] eqn:Ha.
  - case_bool_decide; [done|]. destruct (Z.leb_spec (max_depth new) (depth a)); [done|]. apply find_agent in Ha as [Ha Haid].
    assert ((caller new, (root_id a, depth a)) ∈ agents_shape t) as Hrow by (apply list_elem_of_fmap; exists a; by rewrite Haid).
    pose proof (whole_depth _ _ _ _ Hw _ _ _ Hrow) as Hd.
    pose proof (whole_child limit (convs_shape t) (agents_shape t) (next_conv t) (caller new) (root_id a) (depth a + 1) Hw Hin) as Hw'.
    unfold convs_shape, agents_shape in *. cbn. rewrite !map_app. apply Hw'; [left|lia]. by replace (depth a + 1 - 1)%Z with (depth a) by lia.
  - destruct (parent_id c) eqn:Hp; [done|].
    pose proof (whole_child limit (convs_shape t) (agents_shape t) (next_conv t) (caller new) (caller new) 1 Hw Hin) as Hw'.
    unfold convs_shape, agents_shape in *. cbn. rewrite !map_app. apply Hw'; [right|lia]. conjs; [done..|]. apply list_elem_of_fmap. exists c. by rewrite Hp, Hid.
Qed.
Lemma apart_same t t' : apart t t' → same_shape t t'.
Proof. intros (Hc & Ha & _ & _ & Hn & _). unfold same_shape, convs_shape, agents_shape. by rewrite Hc, Ha. Qed.
Lemma step_whole limit now tx w : (1 <= limit)%Z → within limit tx → whole_tables limit (tables w) → whole_tables limit (tables (tx_step now tx w)).
Proof.
  intros Hl Hin Hw. destruct tx; cbn [tx_step tables]; try (by eapply whole_same; [|exact Hw]).
  - unfold whole_tables, convs_shape. cbn. rewrite map_app. by apply (whole_root limit (convs_shape (tables w)) (agents_shape (tables w))).
  - by apply create_whole.
  - eapply whole_same; [apply complete_same|done].
  - eapply whole_same; [|exact Hw]. unfold fail_start. pose proof (set_state_same now (is_id child) [AGENT_STARTING] AGENT_FAILED (tables w)) as Hs.
    destruct (set_state _ _ _ _ _) as [failed t']. by destruct (negb _).
  - eapply whole_same; [apply finish_same|done].
  - eapply whole_same; [|exact Hw]. unfold report_after_finish. destruct (conversation_parent _ _); [|done]. destruct (negb _); [done|]. by destruct (agent_state _ _) as [[]|].
  - eapply whole_same; [|exact Hw]. unfold stop_subtree. destruct (negb _); [done|].
    destruct (agent_state _ _) as [[]|]; cbn [snd]; first [apply set_state_same|done].
  - eapply whole_same; [|exact Hw]. by apply agents_update.
  - eapply whole_same; [|exact Hw]. apply set_state_same.
  - eapply whole_same; [apply message_same|done].
  - eapply whole_same; [|exact Hw]. unfold ask_parent. destruct (conversation_parent _ _); [|done]. do 3 (destruct (negb _) || destruct (is_some _); [done|]).
    by destruct (agent_state _ _) as [[]|].
  - destruct (List.find _ _) as [row|]; [|done]. eapply whole_same; [|exact Hw]. cbn. unfold deliver_agent_message. by destruct (negb _).
  - eapply whole_same; [|exact Hw]. by apply agents_update.
  - eapply whole_same; [|exact Hw]. by apply agents_update.
  - eapply whole_same; [apply apart_same, create_volume_apart|done].
  - destruct (restart_rest now body (tables w)) as (Hc & Ha & _ & _ & _ & Hn & _). eapply whole_same; [|exact Hw]. unfold same_shape, convs_shape, agents_shape. by rewrite Hc, Ha, Hn.
  - eapply whole_same; [apply apart_same, delete_volume_apart|done].
  - pose proof (mark_same now id (tables w)) as Hs. destruct (mark_subtree_deleting _ _ _) as [[d|] t]; cbn in *; by eapply whole_same.
  - destruct (deletes w !! i) as [[id d]|]; [|done]. cbn. eapply whole_same; [apply unmark_same|done].
  - destruct (deletes w !! i) as [[id d]|]; [|done]. cbn. unfold delete_subtree_rows. destruct (negb _); [done|]. apply delete_whole.
    destruct (deleted_parent d) as [p|]; [|done]. by destruct (exists_conv p (tables w)).
Qed.
Lemma tx_run_app txs1 txs2 w : tx_run (app txs1 txs2) w = tx_run txs2 (tx_run txs1 w).
Proof. revert w. induction txs1 as [|[now tx] txs1 IH]; intros w; [done|]. cbn. apply IH. Qed.
Lemma run_whole limit txs : (1 <= limit)%Z → Forall (λ tx : Z * Tx, within limit (snd tx)) txs → whole_tables limit (tables (tx_run txs no_world)).
Proof.
  intros Hl. enough (∀ w, whole_tables limit (tables w) → Forall (λ tx : Z * Tx, within limit (snd tx)) txs → whole_tables limit (tables (tx_run txs w))) as H.
  { intros Hin. apply H; [|done]. split; cbn; try (intros; by set_solver); apply NoDup_nil_2. }
  induction txs as [|[now tx] txs IH]; intros w Hw Hin; [done|]. apply Forall_cons in Hin as [Htx Hin]. cbn. apply IH; [|done]. by apply step_whole.
Qed.
Lemma some_limit txs : ∃ limit, (1 <= limit)%Z ∧ Forall (λ tx : Z * Tx, within limit (snd tx)) txs.
Proof.
  induction txs as [|[now tx] txs (limit & Hl & IH)]; [by exists 1%Z|].
  exists (match tx with CreateChild new => Z.max limit (max_depth new) | _ => limit end). split; [destruct tx; lia|]. apply Forall_cons. split; [destruct tx; cbn; try done; lia|].
  eapply Forall_impl; [exact IH|]. intros [n tx'] Hw. destruct tx'; cbn in *; try done. destruct tx; lia.
Qed.

(** ** What an agent's state does *)

(** A start that hasn't ended, or failed, never started; one working or done has. *)
Definition lives (a : Agent V) : Prop :=
  match state a with AGENT_STARTING | AGENT_FAILED => started_at a = None | AGENT_ACTIVE | AGENT_FINISHED => started_at a ≠ None | AGENT_STOPPED => True end.
Definition moves : list (AgentState * AgentState) :=
  [(AGENT_STARTING, AGENT_ACTIVE); (AGENT_STARTING, AGENT_FAILED); (AGENT_STARTING, AGENT_STOPPED);
   (AGENT_ACTIVE, AGENT_FINISHED); (AGENT_ACTIVE, AGENT_STOPPED); (AGENT_FINISHED, AGENT_ACTIVE); (AGENT_FINISHED, AGENT_STOPPED);
   (AGENT_STOPPED, AGENT_ACTIVE); (AGENT_STOPPED, AGENT_FINISHED)].
Definition may_move (a a' : Agent V) : Prop :=
  agent a' = agent a
  ∧ (state a' = state a ∧ started_at a' = started_at a
     ∨ (state a, state a') ∈ moves
       ∧ (started_at a' = started_at a ∧ (state a = AGENT_STOPPED → started_at a ≠ None) ∧ (state a = AGENT_STARTING → state a' ≠ AGENT_ACTIVE)
          ∨ state a = AGENT_STARTING ∧ state a' = AGENT_ACTIVE ∧ started_at a' ≠ None)).
Definition new_agent (t : Tables V) (a : Agent V) : Prop := agent a = next_conv t ∧ state a = AGENT_STARTING ∧ started_at a = None.
(** Each agent after is one from before that moved as it may, or new. *)
Definition evolves (t t' : Tables V) : Prop :=
  (next_conv t <= next_conv t')%Z
  ∧ ∀ a', a' ∈ agents t' → (∃ a, a ∈ agents t ∧ may_move a a') ∨ new_agent t a' ∧ (next_conv t < next_conv t')%Z.
Definition remembers (t : Tables V) (d : Deleting) : Prop :=
  ∀ i was, (i, was) ∈ stopped d → was ∈ [AGENT_ACTIVE; AGENT_FINISHED] ∧ (i < next_conv t)%Z ∧ ∀ a, a ∈ agents t → agent a = i → started_at a ≠ None.
Record world_ok (w : World) : Prop := {
  ok_lives : ∀ a, a ∈ agents (tables w) → lives a ∧ (agent a < next_conv (tables w))%Z;
  ok_deletes : ∀ id d, (id, d) ∈ deletes w → remembers (tables w) d;
}.
Lemma may_stay a : may_move a a.
Proof. split; [done|by left]. Qed.
Lemma evolves_refl t : evolves t t.
Proof. split; [lia|]. intros a Ha. left. exists a. split; [done|apply may_stay]. Qed.
Lemma evolves_same t t' : agents t' = agents t → next_conv t' = next_conv t → evolves t t'.
Proof. intros Ha Hn. split; [lia|]. rewrite Ha. intros a Hin. left. exists a. split; [done|apply may_stay]. Qed.
Lemma evolves_update (takes : Agent V → bool) f t : (∀ a, takes a = true → lives a → may_move a (f a)) → (∀ a, a ∈ agents t → lives a) →
  evolves t (t <| agents ::= update_where takes f |>).
Proof.
  intros Hf Hl. split; [cbn; lia|]. intros a' (a & Ha & ->)%in_update. left. exists a. split; [done|]. destruct (takes a) eqn:E; [|apply may_stay]. by apply Hf, Hl.
Qed.
Lemma may_move_lives a a' : lives a → may_move a a' → lives a'.
Proof.
  unfold may_move, lives, moves. intros Hl [_ [[-> ->]|[Hm Hs]]]; [done|]. rewrite !elem_of_cons, elem_of_nil in Hm.
  destruct Hm as [Hm|[Hm|[Hm|[Hm|[Hm|[Hm|[Hm|[Hm|[Hm|[]]]]]]]]]]; injection Hm as H1 H2; rewrite H1 in Hl, Hs; rewrite H2 in Hs |- *;
    destruct Hs as [(Hs1 & Hs & Hn)|(Hs1 & Hs2 & Hs)]; rewrite ?Hs1; try done; first [by apply Hs|by destruct (Hn eq_refl)].
Qed.
Lemma set_state_evolves now ids was to t : (∀ s, s ∈ was → (s, to) ∈ moves ∧ s ≠ AGENT_STOPPED ∧ (s = AGENT_STARTING → to ≠ AGENT_ACTIVE)) → (∀ a, a ∈ agents t → lives a) →
  evolves t (snd (set_state now ids was to t)).
Proof.
  intros Hw Hl. apply evolves_update; [|done]. intros a [_ Hin%bool_decide_eq_true_1]%andb_true_iff _. apply Hw in Hin as (Hin & Hn & Ha). split; [done|]. right.
  split; [done|]. left. by split.
Qed.
Lemma evolves_ext t t' t'' : agents t'' = agents t' → next_conv t'' = next_conv t' → evolves t t' → evolves t t''.
Proof. intros Ha Hn [H1 H2]. unfold evolves. rewrite Ha, Hn. by split. Qed.
Lemma may_move_started a a' : may_move a a' → started_at a ≠ None → started_at a' ≠ None.
Proof. intros [_ [[_ ->]|[_ [(-> & _)|(_ & _ & H)]]]]; done. Qed.
Lemma remembers_evolves t t' d : evolves t t' → remembers t d → remembers t' d.
Proof.
  intros [Hn He] Hd i was Hin. destruct (Hd i was Hin) as (Hw & Hi & Hs). split; [done|]. split; [lia|]. intros a' Ha' Hid.
  destruct (He a' Ha') as [(a & Ha & Hm)|[(Hnew & _) _]]; [|lia]. eapply may_move_started; [exact Hm|]. apply Hs; [done|]. by rewrite <- (proj1 Hm).
Qed.
Lemma lives_evolves t t' : evolves t t' → (∀ a, a ∈ agents t → lives a ∧ (agent a < next_conv t)%Z) →
  ∀ a, a ∈ agents t' → lives a ∧ (agent a < next_conv t')%Z.
Proof.
  intros [Hn He] Hl a' Ha'. destruct (He a' Ha') as [(a & Ha & Hm)|[(Hid & Hs & Hst) Hlt]].
  - destruct (Hl a Ha) as [H1 H2]. split; [by eapply may_move_lives|]. rewrite (proj1 Hm). lia.
  - split; [|lia]. unfold lives. by rewrite Hs.
Qed.
Lemma unmark_evolves now d t : remembers t d → (∀ a, a ∈ agents t → lives a) → evolves t (unmark_subtree_deleting now d t).
Proof.
  intros Hd Hl. unfold unmark_subtree_deleting. set (t0 := t <| convs ::= _ |>).
  assert (∀ l t1, (∀ i was, (i, was) ∈ l → was ∈ [AGENT_ACTIVE; AGENT_FINISHED]) →
            next_conv (foldl (λ t '(id, was), snd (set_state now (is_id id) [AGENT_STOPPED] was t)) t1 l) = next_conv t1
            ∧ ∀ a', a' ∈ agents (foldl (λ t '(id, was), snd (set_state now (is_id id) [AGENT_STOPPED] was t)) t1 l) →
                ∃ a, a ∈ agents t1 ∧ agent a' = agent a ∧ started_at a' = started_at a
                  ∧ (state a' = state a ∨ state a = AGENT_STOPPED ∧ (agent a, state a') ∈ l)) as Hfold.
  { induction l as [|[i was] l IH]; intros t1 Hw; cbn; [split; [done|]; intros a Ha; exists a; conjs; [done..|by left]|].
    destruct (IH (snd (set_state now (is_id i) [AGENT_STOPPED] was t1)) ltac:(set_solver)) as [Hn IH']. split; [exact Hn|]. intros a' Ha'.
    destruct (IH' a' Ha') as (a1 & (a & Ha & ->)%in_update & Hid & Hst & Hs). exists a. split; [done|].
    destruct (is_id i (agent a) && bool_decide (state a ∈ [AGENT_STOPPED])) eqn:Htakes; cbn in *; [|conjs; [done..|]; destruct Hs as [Hs|[Hs1 Hs2]]; [by left|right; set_solver]].
    conjs; [done..|]. right. apply andb_true_iff in Htakes as [Hi%Z.eqb_eq Hs1%bool_decide_eq_true_1]. split; [set_solver|].
    specialize (Hw i was ltac:(left)). destruct Hs as [Hs|[Hs _]]; [|set_solver]. rewrite Hs, <- Hi. left. }
  destruct (Hfold (stopped d) t0) as [Hn Ha]; [intros i was Hin; by apply (Hd i was)|]. split; [by rewrite Hn|]. intros a' Ha'. left.
  destruct (Ha a' Ha') as (a & Hin & Hid & Hst & Hs). exists a. split; [done|]. split; [done|]. destruct Hs as [Hs|[Hs1 Hs2]]; [left; by split|right].
  destruct (Hd _ _ Hs2) as (Hw & _ & Hstart). split.
  - rewrite Hs1. rewrite !elem_of_cons, elem_of_nil in Hw. unfold moves. destruct Hw as [->|[->|[]]]; set_solver.
  - left. conjs; [done|intros _; by apply Hstart|by rewrite Hs1].
Qed.
Lemma create_evolves now new t : evolves t (snd (create_child content_of for_child debug trust now new t)).
Proof.
  unfold create_child. destruct (refusal new t); [apply evolves_refl|]. destruct (repo_refusal trust new) as [[why []]|].
  - destruct (repo new); [by apply evolves_same|apply evolves_refl].
  - destruct (repo new); apply evolves_refl.
  - destruct (volume_refusal _ _ _); [apply evolves_refl|]. cbn [snd]. split; [cbn; lia|]. intros a Ha. cbn in Ha.
    apply elem_of_app in Ha as [Ha|Ha%list_elem_of_singleton]; [left; exists a; split; [done|apply may_stay]|right]. split; [|cbn; lia].
    destruct (agent_row (caller new) t); subst a; done.
Qed.
Lemma complete_evolves now child parent d t : (∀ a, a ∈ agents t → lives a) → evolves t (snd (complete_start add_tools now child parent d t)).
Proof.
  intros Hl. unfold complete_start. destruct (negb _); [apply evolves_refl|]. cbn [snd].
  set (f := λ a : Agent V, a <| state := AGENT_ACTIVE |> <| started_at := _ |> <| state_changed_at := _ |> <| persona_name ::= _ |> <| snapshot := _ |> <| rule_chain ::= _ |>).
  eapply (evolves_ext t (t <| agents ::= update_where (λ a : Agent V, (agent a =? child)%Z && bool_decide (state a = AGENT_STARTING)) f |>));
    [by destruct (done_model d), (parent_notice d)..|]. apply evolves_update; [|done].
  intros a [_ Hs%bool_decide_eq_true_1]%andb_true_iff _. split; [done|]. right. rewrite Hs. unfold moves. split; [left|by right].
Qed.
Lemma finish_evolves now child label report d t : (∀ a, a ∈ agents t → lives a) → evolves t (snd (finish_agent now child label report d t)).
Proof.
  intros Hl. unfold finish_agent. destruct (conversation_parent child t); [|apply evolves_refl]. destruct (negb _); [apply evolves_refl|].
  assert (evolves t (snd (set_state now (is_id child) [AGENT_ACTIVE] AGENT_FINISHED t))) as Hs.
  { apply set_state_evolves; [|done]. intros s ->%list_elem_of_singleton. unfold moves. split; [set_solver|done]. }
  destruct (set_state _ _ _ _ t) as [[] t']; cbn [negb]; [|apply evolves_refl]. destruct (running_commands _ _ _); [|apply evolves_refl].
  destruct (children_in _ _ _); [|apply evolves_refl]. destruct (unread_by child t'); [apply evolves_refl|]. by eapply evolves_ext; [| |exact Hs].
Qed.
Lemma stop_moves s : s ∈ [AGENT_STARTING; AGENT_ACTIVE; AGENT_FINISHED] → (s, AGENT_STOPPED) ∈ moves ∧ s ≠ AGENT_STOPPED ∧ (s = AGENT_STARTING → AGENT_STOPPED ≠ AGENT_ACTIVE).
Proof. rewrite !elem_of_cons, elem_of_nil. unfold moves. intros [->|[->|[->|[]]]]; (split; [set_solver|done]). Qed.
Lemma message_evolves now caller to label text t : (∀ a, a ∈ agents t → lives a) → evolves t (snd (message_agent now caller to label text t)).
Proof.
  intros Hl. unfold message_agent. destruct (recipient_of caller to t) as [recipient|]; [|apply evolves_refl]. destruct (negb _); [apply evolves_refl|].
  destruct (is_some _); [apply evolves_refl|].
  assert (evolves t (snd (set_state now (is_id recipient) [AGENT_FINISHED] AGENT_ACTIVE t))) as Hs.
  { apply set_state_evolves; [|done]. intros s ->%list_elem_of_singleton. unfold moves. split; [set_solver|done]. }
  destruct (agent_state recipient t) as [[]|]; try apply evolves_refl; (destruct (match to with Child _ => _ | Parent => _ end); by eapply evolves_ext; [| |exact Hs]).
Qed.
Lemma step_evolves now tx w : world_ok w → evolves (tables w) (tables (tx_step now tx w)).
Proof.
  intros [Hok Hd]. assert (Hl : ∀ a, a ∈ agents (tables w) → lives a) by (intros; by apply Hok).
  destruct tx; cbn [tx_step tables]; try (by apply evolves_same).
  - split; [cbn; lia|]. intros a Ha. left. exists a. split; [done|apply may_stay].
  - apply create_evolves.
  - by apply complete_evolves.
  - unfold fail_start. assert (evolves (tables w) (snd (set_state now (is_id child) [AGENT_STARTING] AGENT_FAILED (tables w)))) as Hs.
    { apply set_state_evolves; [|done]. intros s ->%list_elem_of_singleton. unfold moves. split; [set_solver|done]. }
    destruct (set_state _ _ _ _ _) as [failed t']. destruct (negb _); [apply evolves_refl|]. by eapply evolves_ext; [| |exact Hs].
  - by apply finish_evolves.
  - unfold report_after_finish. destruct (conversation_parent _ _); [|apply evolves_refl]. destruct (negb _); [apply evolves_refl|].
    by destruct (agent_state _ _) as [[]|]; apply evolves_same.
  - unfold stop_subtree. destruct (negb _); [apply evolves_refl|]. destruct (agent_state _ _) as [[]|]; try apply evolves_refl; apply set_state_evolves; auto using stop_moves.
  - apply evolves_update; [|done]. intros a [[_ Hs%bool_decide_eq_true_1]%andb_true_iff Hst]%andb_true_iff _. split; [done|]. right.
    rewrite !elem_of_cons, elem_of_nil in Hs. unfold moves. split; [destruct Hs as [->|[->|[]]]; set_solver|]. left. cbn. conjs; [done|by destruct (started_at a)|].
    destruct Hs as [->|[->|[]]]; done.
  - apply set_state_evolves; [|done]. intros s ->%list_elem_of_singleton. unfold moves. split; [set_solver|done].
  - by apply message_evolves.
  - unfold ask_parent. destruct (conversation_parent _ _); [|apply evolves_refl]. do 3 (destruct (negb _) || destruct (is_some _); [apply evolves_refl|]).
    by destruct (agent_state _ _) as [[]|]; apply evolves_same.
  - destruct (List.find _ _) as [row|]; [|apply evolves_refl]. cbn. unfold deliver_agent_message. by destruct (negb _); apply evolves_same.
  - apply evolves_update; [|done]. intros a _ _. split; [done|]. by left.
  - apply evolves_update; [|done]. intros a _ _. split; [done|]. by left.
  - destruct (create_volume_apart id name path o (tables w)) as (_ & Ha & _ & _ & Hn & _). by apply evolves_same.
  - destruct (restart_rest now body (tables w)) as (_ & Ha & _ & _ & _ & Hn & _). by apply evolves_same.
  - destruct (delete_volume_apart id name o (tables w)) as (_ & Ha & _ & _ & Hn & _). by apply evolves_same.
  - unfold mark_subtree_deleting. destruct (negb _); [apply evolves_refl|]. cbn [tables].
    match goal with |- evolves _ (snd (set_state _ _ _ _ ?t1)) => pose proof (set_state_evolves now (in_ids (subtree_ids id (tables w))) [AGENT_STARTING; AGENT_ACTIVE; AGENT_FINISHED] AGENT_STOPPED t1 stop_moves Hl) as [H1 H2] end.
    by split.
  - destruct (deletes w !! i) as [[id d]|] eqn:Hi; [|apply evolves_refl]. cbn. apply unmark_evolves; [|done]. eapply Hd. by eapply list_elem_of_lookup_2.
  - destruct (deletes w !! i) as [[id d]|]; [|apply evolves_refl]. cbn. unfold delete_subtree_rows. destruct (negb _); [apply evolves_refl|].
    set (t1 := match deleted_parent d with Some _ => _ | None => _ end). assert (agents t1 = agents (tables w) ∧ next_conv t1 = next_conv (tables w)) as [Ha Hn]
      by (unfold t1; destruct (deleted_parent d) as [p|]; [by destruct (exists_conv p _)|done]).
    split; [cbn; lia|]. intros a' Ha'. cbn in Ha'. apply elem_list_filter in Ha' as [Ha' _]. rewrite Ha in Ha'. left. exists a'. split; [done|apply may_stay].
Qed.
Lemma agent_unique t a a' : NoDup (agents_shape t).*1 → a ∈ agents t → a' ∈ agents t → agent a = agent a' → a = a'.
Proof.
  unfold agents_shape. rewrite <- list_fmap_compose. cbn. intros Hnd Ha Ha' Hid. apply list_elem_of_lookup in Ha as [i Hi], Ha' as [j Hj].
  enough (i = j) by congruence. eapply NoDup_lookup; [exact Hnd| |]; rewrite list_lookup_fmap; [by rewrite Hi|rewrite Hj; cbn; by rewrite <- Hid].
Qed.
Lemma mark_remembers now id t d t' : NoDup (agents_shape t).*1 → (∀ a, a ∈ agents t → lives a ∧ (agent a < next_conv t)%Z) →
  mark_subtree_deleting now id t = (Some d, t') → remembers t d.
Proof.
  intros Hnd Hl. unfold mark_subtree_deleting. destruct (negb _); [done|]. intros [= <- _] i was. cbn.
  intros (a & [= -> ->] & Ha)%list_elem_of_fmap. rewrite (sort_by_perm _ _) in Ha. apply elem_list_filter in Ha as [Ha [_ Hs%bool_decide_eq_true_1]%andb_true_iff].
  destruct (Hl a Ha) as [Hlives Hlt]. conjs; [done|done|]. intros a' Ha' Hid. rewrite (agent_unique t a' a) by done.
  unfold lives in Hlives. rewrite !elem_of_cons, elem_of_nil in Hs. by destruct Hs as [Hs|[Hs|[]]]; rewrite Hs in Hlives.
Qed.
Lemma step_ok now tx w : NoDup (agents_shape (tables w)).*1 → world_ok w → world_ok (tx_step now tx w).
Proof.
  intros Hnd Hw. pose proof (step_evolves now tx w Hw) as He. destruct Hw as [Hok Hd]. split; [by apply (lives_evolves _ _ He)|].
  assert (∀ id d, (id, d) ∈ deletes w → remembers (tables (tx_step now tx w)) d) as Hold by (intros; eapply remembers_evolves; [exact He|by eapply Hd]).
  intros j d0 Hin. destruct tx; cbn [tx_step deletes] in Hin; try (by eapply Hold).
  - destruct (List.find _ _); by eapply Hold.
  - cbn [tx_step] in *. destruct (mark_subtree_deleting now id (tables w)) as [[d|] t'] eqn:Hm; cbn [deletes] in Hin; [|by eapply Hold].
    apply elem_of_app in Hin as [Hin|Hin%list_elem_of_singleton]; [by eapply Hold|]. injection Hin as -> ->.
    eapply remembers_evolves; [exact He|]. by eapply mark_remembers.
  - destruct (deletes w !! i) as [[id d]|] eqn:Hi; cbn [deletes] in Hin; [|by eapply Hold]. eapply Hold. by eapply list_elem_of_delete_inv.
  - destruct (deletes w !! i) as [[id d]|] eqn:Hi; cbn [deletes] in Hin; [|by eapply Hold]. eapply Hold. by eapply list_elem_of_delete_inv.
Qed.
Lemma run_distinct txs : NoDup (agents_shape (tables (tx_run txs no_world))).*1.
Proof. destruct (some_limit txs) as (limit & Hl & Hin). by apply (whole_agents _ _ _ _ (run_whole limit txs Hl Hin)). Qed.
Lemma world_run_ok txs : world_ok (tx_run txs no_world).
Proof.
  induction txs as [|[now tx] txs IH] using rev_ind; [split; cbn; intros; by set_solver|]. rewrite tx_run_app. cbn. apply step_ok; [apply run_distinct|done].
Qed.

(** C25. The tree of conversations stays whole.  Whatever transactions run, in any order and
    whichever are refused: ids are distinct, every parent is there and was made before its
    children, every agent's row belongs to a child, one level below its parent's row and
    under the same root, and no agent is deeper than the limit starts were asked with; so
    a deleted conversation leaves no agent of its tree behind. *)
Theorem the_tree_stays_whole (limit : Z) (txs : list (Z * Tx)) :
  (1 <= limit)%Z → Forall (λ tx : Z * Tx, within limit (snd tx)) txs → whole_tables limit (tables (tx_run txs no_world)).
Proof. apply run_whole. Qed.

(** C22. An agent's state moves only as it may.  In every run: a failed start stays failed;
    an agent that never started is never working nor finished, and one stopped during its
    start is never taken up again; an agent only becomes finished from working, or from
    stopped, as a delete that failed puts it back; and no transaction brings back an agent
    whose row is gone. *)
Theorem agents_move_as_they_may (txs : list (Z * Tx)) (now : Z) (tx : Tx) :
  let w := tx_run txs no_world in
  (∀ a, a ∈ agents (tables w) → lives a)
  ∧ ∀ a', a' ∈ agents (tables (tx_step now tx w)) →
      (∃ a, a ∈ agents (tables w) ∧ may_move a a')
      ∨ (agent a' = next_conv (tables w) ∧ (∀ a, a ∈ agents (tables w) → agent a ≠ agent a') ∧ state a' = AGENT_STARTING ∧ started_at a' = None).
Proof.
  intros w. pose proof (world_run_ok txs) as Hok. fold w in Hok. split; [intros a Ha; by apply (ok_lives w Hok)|].
  intros a' Ha'. destruct (proj2 (step_evolves now tx w Hok) a' Ha') as [Hm|[(Hid & Hs & Hst) _]]; [by left|right]. conjs; [done| |done|done].
  intros a Ha. pose proof (proj2 (ok_lives w Hok a Ha)). lia.
Qed.

(** ** What single transactions promise *)

Lemma agent_row_of t a : NoDup (agents_shape t).*1 → a ∈ agents t → agent_row (agent a) t = Some a.
Proof.
  intros Hnd Ha. destruct (agent_row (agent a) t) as [b|] eqn:E.
  - apply find_agent in E as [Hb Hid]. f_equal. by eapply agent_unique.
  - apply list_elem_of_In in Ha. pose proof (find_none _ _ E _ Ha) as Hn. cbn in Hn. by rewrite Z.eqb_refl in Hn.
Qed.
Lemma parent_kept t t' i : convs t' = convs t → conversation_parent i t' = conversation_parent i t.
Proof. intros Hc. unfold conversation_parent, conversation. by rewrite Hc. Qed.
Lemma parent_shape t i p : conversation_parent i t = Some p → (i, Some p) ∈ convs_shape t.
Proof.
  unfold conversation_parent, conversation, convs_shape. destruct (List.find _ _) as [c|] eqn:E; [|done]. cbn. intros Hp.
  apply find_some in E as [Hin%list_elem_of_In <-%Z.eqb_eq]. apply list_elem_of_fmap. exists c. by rewrite <- Hp.
Qed.
Lemma shape_parent t i p : NoDup (convs_shape t).*1 → (i, Some p) ∈ convs_shape t → conversation_parent i t = Some p.
Proof.
  intros Hnd Hin. assert (exists_conv i t = true) as He by (apply exists_conv_in, list_elem_of_fmap; by exists (i, Some p)).
  unfold exists_conv in He. destruct (conversation i t) as [c|] eqn:E; [|done]. unfold conversation_parent. rewrite E. cbn.
  apply find_some in E as [Hc%list_elem_of_In Hid%Z.eqb_eq]. assert ((i, parent_id c) ∈ convs_shape t) as Hc' by (apply list_elem_of_fmap; exists c; by rewrite <- Hid).
  apply list_elem_of_lookup in Hin as [n Hn], Hc' as [m Hm]. assert (n = m) as <-; [|congruence].
  eapply NoDup_lookup; [exact Hnd| |]; rewrite list_lookup_fmap; [by rewrite Hn|by rewrite Hm].
Qed.
Lemma set_state_row now ids was to t id : agent_state id (snd (set_state now ids was to t)) =
  (λ s, if ids id && bool_decide (s ∈ was) then to else s) <$> agent_state id t.
Proof.
  unfold agent_state, agent_row, set_state, update_where. cbn. induction (agents t) as [|a l IH]; cbn; [done|].
  destruct (ids (agent a) && bool_decide (state a ∈ was)) eqn:E; cbn; (destruct (Z.eqb_spec (agent a) id) as [<-|]; [cbn; by rewrite E|exact IH]).
Qed.
Lemma set_state_took now id was to t : NoDup (agents_shape t).*1 → fst (set_state now (is_id id) was to t) = true →
  ∃ s, agent_state id t = Some s ∧ s ∈ was.
Proof.
  intros Hnd (a & Ha & [Hi%Z.eqb_eq Hs%bool_decide_eq_true_1]%andb_true_iff)%existsb_exists. apply list_elem_of_In in Ha. exists (state a). split; [|done].
  unfold agent_state. by rewrite Hi, (agent_row_of t a).
Qed.
Lemma existsb_false_in {A} (f : A → bool) l x : existsb f l = false → x ∈ l → f x = false.
Proof. rewrite existsb_false. auto. Qed.
Lemma none_filtered {A} (f : A → bool) l x : List.filter f l = [] → x ∈ l → f x = false.
Proof. intros H Hx. destruct (f x) eqn:E; [|done]. assert (x ∈ List.filter f l) as Hin by (by apply elem_list_filter). rewrite H in Hin. by apply not_elem_of_nil in Hin. Qed.
Lemma sorted_nil {A} (le : A → A → bool) l : sort_by le l = [] → l = [].
Proof. intros H. pose proof (sort_by_perm le l) as Hp. rewrite H in Hp. by apply Permutation_nil in Hp. Qed.
Lemma children_none states p t a : children_in states p t = [] → a ∈ agents t → conversation_parent (agent a) t = Some p → state a ∉ states.
Proof.
  intros H%sorted_nil Ha Hp. pose proof (none_filtered _ _ _ H Ha) as Hf. cbn in Hf. rewrite (bool_decide_eq_true_2 (_ = Some p)), andb_true_r in Hf by done.
  by apply bool_decide_eq_false_1 in Hf.
Qed.

(** C20. An agent's finish leaves nothing of it going on.  When it is accepted: the agent was
    working and is now finished, every other agent is as it was, and exactly one report is
    queued, to its parent; none of its commands runs, none of its own agents is starting
    or working, no message, question or report is undelivered to it and no answer
    untaken.  Refused, it changes nothing, and what it names as running is not empty. *)
Theorem finishing_leaves_nothing_behind (txs : list (Z * Tx)) (now child : Z) (label report : string) (d : SandboxDb) :
  let t := tables (tx_run txs no_world) in
  match finish_agent now child label report d t with
  | (ReportQueued parent, t') =>
      conversation_parent child t = Some parent
      ∧ agent_state child t = Some AGENT_ACTIVE ∧ agent_state child t' = Some AGENT_FINISHED
      ∧ (∀ i, i ≠ child → agent_state i t' = agent_state i t)
      ∧ queue t' = app (queue t) [Build_Queued (next_queued t) parent (Some child) label KIND_REPORT report now None None]
      ∧ transcript t' = transcript t ∧ questions t' = questions t ∧ convs t' = convs t
      ∧ (∀ c, c ∈ commands d → command_conversation c = child → is_running c = false)
      ∧ (∀ a, a ∈ agents t → conversation_parent (agent a) t = Some child → state a ∉ [AGENT_STARTING; AGENT_ACTIVE])
      ∧ (∀ q, q ∈ queue t → to_ q = child → delivered_at q = None → kind q ∉ [KIND_MESSAGE; KIND_QUESTION; KIND_REPORT])
      ∧ (∀ q, q ∈ questions t → asker q = child → answer q = None)
  | (AgentsRunning [], _) | (CommandsRunning [], _) => False
  | (_, t') => t' = t
  end.
Proof.
  intros t. pose proof (run_distinct txs) as Hnd. fold t in Hnd. destruct (some_limit txs) as (limit & Hl & Hin). pose proof (run_whole limit txs Hl Hin) as Hw. fold t in Hw.
  unfold finish_agent. destruct (conversation_parent child t) as [parent|] eqn:Hp; [|done]. destruct (negb (both_exist parent child t)); [done|].
  pose proof (set_state_row now (is_id child) [AGENT_ACTIVE] AGENT_FINISHED t) as Hrow. pose proof (set_state_took now child [AGENT_ACTIVE] AGENT_FINISHED t Hnd) as Htook.
  assert (∀ a, a ∈ agents t → agent a ≠ child → a ∈ agents (snd (set_state now (is_id child) [AGENT_ACTIVE] AGENT_FINISHED t))) as Hkept.
  { intros a Ha Hne. apply list_elem_of_fmap. exists a. split; [|done]. unfold is_id. by rewrite (proj2 (Z.eqb_neq child (agent a))). }
  assert (∀ i, conversation_parent i (snd (set_state now (is_id child) [AGENT_ACTIVE] AGENT_FINISHED t)) = conversation_parent i t) as Hpar by done.
  assert (convs (snd (set_state now (is_id child) [AGENT_ACTIVE] AGENT_FINISHED t)) = convs t ∧ queue (snd (set_state now (is_id child) [AGENT_ACTIVE] AGENT_FINISHED t)) = queue t ∧ transcript (snd (set_state now (is_id child) [AGENT_ACTIVE] AGENT_FINISHED t)) = transcript t
    ∧ questions (snd (set_state now (is_id child) [AGENT_ACTIVE] AGENT_FINISHED t)) = questions t ∧ next_queued (snd (set_state now (is_id child) [AGENT_ACTIVE] AGENT_FINISHED t)) = next_queued t) as (Hc & Hq & Htr & Hqs & Hn) by done.
  destruct (set_state now (is_id child) _ _ t) as [finished t'] eqn:Hset. cbn [snd fst] in *. destruct finished; cbn [negb]; [|done].
  destruct (running_commands now child d) eqn:Hcmd; [|done]. destruct (children_in _ child t') as [|a l] eqn:Hch; [|by cbn].
  destruct (unread_by child t') eqn:Hun; [done|]. destruct (Htook eq_refl) as (s & Hs & ->%list_elem_of_singleton).
  apply orb_false_iff in Hun as [Hun1 Hun2]. rewrite Hq in Hun1. rewrite Hqs in Hun2. conjs; try done.
  - etransitivity; [exact (Hrow child)|]. rewrite Hs. cbn. unfold is_id. by rewrite Z.eqb_refl.
  - intros i Hi. etransitivity; [exact (Hrow i)|]. unfold is_id. rewrite (proj2 (Z.eqb_neq child i)) by done. by destruct (agent_state i t).
  - cbn. by rewrite Hq, Hn.
  - intros c Hcin <-. apply map_eq_nil in Hcmd. pose proof (none_filtered _ _ _ Hcmd Hcin) as Hf. cbn in Hf. by rewrite Z.eqb_refl in Hf.
  - intros a Ha Hpa. assert (agent a ≠ child) as Hne.
    { intros E. rewrite E in Hpa. apply parent_shape, (whole_parents _ _ _ _ Hw) in Hpa. lia. }
    eapply children_none; [exact Hch|by apply Hkept|by rewrite Hpar].
  - intros q Hin' <- Hdel Hk. pose proof (existsb_false_in _ _ _ Hun1 Hin') as Hf. cbn in Hf. rewrite Z.eqb_refl, Hdel, (bool_decide_eq_true_2 (kind q ∈ _)) in Hf by done. done.
  - intros q Hin' <-. pose proof (existsb_false_in _ _ _ Hun2 Hin') as Hf. cbn in Hf. rewrite Z.eqb_refl in Hf. by destruct (answer q).
Qed.

(** *** A stop *)

(** [i] is [id], or a conversation below it. *)
Inductive below t (id : Z) : Z → Prop :=
  | below_self : below t id id
  | below_child i p : (i, Some p) ∈ convs_shape t → below t id p → below t id i.
Lemma descend_is_below t id fuel found i : (∀ j, j ∈ found → below t id j) → i ∈ descend fuel found t → below t id i.
Proof.
  revert found. induction fuel as [|fuel IH]; intros found Hb; cbn; [apply Hb|]. destruct (found_under found t) as [|j l] eqn:Hf; [apply Hb|].
  apply IH. intros k [Hk|Hk]%elem_of_app; [by apply Hb|]. rewrite <- Hf in Hk. apply found_in in Hk as [(p & Hp & Hin) _]. eapply below_child; [done|by apply Hb].
Qed.
Lemma subtree_is_below t id i : exists_conv id t = true → i ∈ subtree_ids id t ↔ below t id i.
Proof.
  intros He. split.
  - rewrite in_subtree by done. apply descend_is_below. intros j ->%list_elem_of_singleton. constructor.
  - induction 1 as [|i p Hin _ IH]; [rewrite in_subtree by done; apply descend_found; set_solver|]. by eapply subtree_closed.
Qed.

(** C26. A stop reaches everything below.  An agent's parent that stops it stops, in the same
    step, exactly the agents of the conversations at or below it (found in as many rounds
    as there are conversations, at most): none of them is left starting, working or
    finished, one that failed stays failed, and every agent elsewhere is as it was.
    Refused, it changes nothing, and an agent said to have ended had: it was stopped
    or failed. *)
Theorem a_stop_reaches_everything_below (txs : list (Z * Tx)) (now caller id : Z) :
  let t := tables (tx_run txs no_world) in
  match stop_subtree now caller id t with
  | (SubtreeStopped ids, t') =>
      conversation_parent id t = Some caller
      ∧ (∀ i, i ∈ ids ↔ below t id i) ∧ convs t' = convs t
      ∧ ∀ i, agent_state i t' = match agent_state i t with
                                | Some AGENT_FAILED => Some AGENT_FAILED
                                | Some s => Some (if in_ids ids i then AGENT_STOPPED else s)
                                | None => None
                                end
  | (AlreadyEnded was, t') => t' = t ∧ agent_state id t = Some was ∧ was ∈ [AGENT_STOPPED; AGENT_FAILED]
  | (NotYourChild, t') => t' = t ∧ (agent_state id t = None ∨ conversation_parent id t ≠ Some caller)
  end.
Proof.
  intros t. unfold stop_subtree. destruct (is_child_of caller id t) eqn:Hc; cbn [negb].
  2:{ split; [done|]. unfold is_child_of in Hc. unfold agent_state. destruct (agent_row id t); [|by left]. right. by apply bool_decide_eq_false_1 in Hc. }
  apply andb_true_iff in Hc as [_ Hp%bool_decide_eq_true_1]. assert (exists_conv id t = true) as He.
  { apply exists_conv_in, list_elem_of_fmap. exists (id, Some caller). split; [done|]. by apply parent_shape. }
  assert (∀ i, agent_state i (snd (set_state now (in_ids (subtree_ids id t)) [AGENT_STARTING; AGENT_ACTIVE; AGENT_FINISHED] AGENT_STOPPED t))
    = match agent_state i t with Some AGENT_FAILED => Some AGENT_FAILED | Some s => Some (if in_ids (subtree_ids id t) i then AGENT_STOPPED else s) | None => None end) as Hs.
  { intros i. rewrite set_state_row. destruct (agent_state i t) as [[]|]; cbn; by destruct (in_ids (subtree_ids id t) i). }
  destruct (agent_state id t) as [[]|] eqn:Hst; try (split; [done|by left]); try (split; [done|split; [done|set_solver]]);
    (conjs; [done|intros i; by apply subtree_is_below|done|exact Hs]).
Qed.

(** ** What is written is delivered, once *)

Definition answered_by (messages : list Message) (q : Queued) : Prop :=
  match delivered_at q, delivered_message_id q with
  | None, None => True
  | Some _, Some i => ∃ m, m ∈ messages ∧ msg_id m = i ∧ msg_conversation m = to_ q
  | _, _ => False
  end.
(** Ids distinct and given in order; a row delivered, with the message it became, in the
    transcript of the conversation it was written to; and no message what two became. *)
Record mail_ok t : Prop := {
  mail_ids : NoDup (map queued (queue t));
  mail_next : ∀ q, q ∈ queue t → (queued q < next_queued t)%Z;
  mail_messages : NoDup (map msg_id (transcript t));
  mail_next_message : ∀ m, m ∈ transcript t → (msg_id m < next_message t)%Z;
  mail_delivered : ∀ q, q ∈ queue t → answered_by (transcript t) q;
  mail_once : ∀ q1 q2 i, q1 ∈ queue t → q2 ∈ queue t → delivered_message_id q1 = Some i → delivered_message_id q2 = Some i → queued q1 = queued q2;
}.
(** A row is the one it was, and delivered as it was if it was; who wrote it may be deleted. *)
Definition same_letter (q q' : Queued) : Prop :=
  queued q' = queued q ∧ to_ q' = to_ q ∧ label_ q' = label_ q ∧ kind q' = kind q ∧ text q' = text q ∧ queued_at q' = queued_at q
  ∧ (from_ q' = from_ q ∨ from_ q' = None)
  ∧ (delivered_at q ≠ None → delivered_at q' = delivered_at q ∧ delivered_message_id q' = delivered_message_id q).
Definition keeps t t' : Prop := (mail_ok t → mail_ok t') ∧ ∀ q, q ∈ queue t → ∃ q', q' ∈ queue t' ∧ same_letter q q'.

Lemma same_letter_refl q : same_letter q q.
Proof. unfold same_letter. conjs; try done. by left. Qed.
Lemma same_letter_trans q1 q2 q3 : same_letter q1 q2 → same_letter q2 q3 → same_letter q1 q3.
Proof.
  intros (Hid & Ht & Hl & Hk & Hx & Ha & Hf & Hd) (H1 & H2 & H3 & H4 & H5 & H6 & Hf' & Hd'). unfold same_letter. conjs; try congruence.
  - destruct Hf' as [->| ->]; [done|by right].
  - intros Hn. destruct (Hd Hn) as [E1 E2]. rewrite <- E1, <- E2. apply Hd'. by rewrite E1.
Qed.
Lemma keeps_same t t' : queue t' = queue t → transcript t' = transcript t → next_queued t' = next_queued t → next_message t' = next_message t → keeps t t'.
Proof.
  intros Hq Ht Hn Hm. split; [intros [H1 H2 H3 H4 H5 H6]; split; by rewrite ?Hq, ?Ht, ?Hn, ?Hm|]. rewrite Hq. intros q Hin. exists q. split; [done|apply same_letter_refl].
Qed.
Lemma keeps_trans t1 t2 t3 : keeps t1 t2 → keeps t2 t3 → keeps t1 t3.
Proof.
  intros [H1 H2] [H3 H4]. split; [auto|]. intros q Hq. destruct (H2 q Hq) as (q' & Hq' & Hs). destruct (H4 q' Hq') as (q'' & Hq'' & Hs').
  exists q''. split; [done|]. by eapply same_letter_trans.
Qed.
Lemma keeps_refl t : keeps t t.
Proof. by apply keeps_same. Qed.
Lemma nodup_snoc {A B} (f : A → B) l x : NoDup (map f l) → (∀ y, y ∈ l → f y ≠ f x) → NoDup (map f (app l [x])).
Proof.
  intros Hnd Hx. rewrite map_app. apply NoDup_app. split; [done|]. split; [|apply NoDup_singleton].
  intros y (z & -> & Hz)%list_elem_of_fmap Hy%list_elem_of_singleton. by apply (Hx z).
Qed.
Lemma keeps_queued now to from label kd body t t' : keeps t t' → keeps t (queue_agent_message now to from label kd body t').
Proof.
  intros Hk. eapply keeps_trans; [exact Hk|]. clear Hk t. rename t' into t. split.
  - intros [H1 H2 H3 H4 H5 H6]. split; cbn; try done.
    + apply nodup_snoc; [done|]. intros q Hq%H2. cbn. lia.
    + intros q [Hq%H2| ->%list_elem_of_singleton]%elem_of_app; cbn; lia.
    + intros q [Hq| ->%list_elem_of_singleton]%elem_of_app; [by apply H5|done].
    + intros q1 q2 i [Hq1| ->%list_elem_of_singleton]%elem_of_app [Hq2| ->%list_elem_of_singleton]%elem_of_app; try done. by apply H6.
  - intros q Hq. exists q. split; [cbn; set_solver|apply same_letter_refl].
Qed.
Lemma answered_more ms m q : answered_by ms q → answered_by (app ms [m]) q.
Proof. unfold answered_by. destruct (delivered_at q), (delivered_message_id q); try done. intros (m' & Hm & H). exists m'. split; [set_solver|done]. Qed.
Lemma keeps_saved now id text t t' : keeps t t' → keeps t (snd (save_message content_of now id text t')).
Proof.
  intros Hk. eapply keeps_trans; [exact Hk|]. clear Hk t. rename t' into t. split.
  - intros [H1 H2 H3 H4 H5 H6]. split; cbn; try done.
    + apply nodup_snoc; [done|]. intros m Hm%H4. cbn. lia.
    + intros m [Hm%H4| ->%list_elem_of_singleton]%elem_of_app; cbn; lia.
    + intros q Hq. by apply answered_more, H5.
  - intros q Hq. exists q. split; [done|apply same_letter_refl].
Qed.
Lemma keeps_delivered now row content t : row ∈ queue t → keeps t (snd (deliver_agent_message now row content t)).
Proof.
  intros Hrow. unfold deliver_agent_message. destruct (negb _); [apply keeps_refl|]. cbn [snd]. split.
  - intros [H1 H2 H3 H4 H5 H6].
    assert (∀ q, q ∈ queue t → queued q = queued row → q = row) as Hone.
    { intros q [i Hi]%list_elem_of_lookup Hid. apply list_elem_of_lookup in Hrow as [j Hj]. enough (i = j) by congruence.
      eapply NoDup_lookup; [exact H1| |]; rewrite list_lookup_fmap; [by rewrite Hi|rewrite Hj; cbn; by rewrite <- Hid]. }
    split; cbn.
    + unfold update_where. rewrite map_map. erewrite map_ext; [exact H1|]. intros q. cbn. by destruct (_ && _).
    + intros q (q0 & Hq & ->)%in_update. apply H2 in Hq. by destruct (_ && _).
    + apply nodup_snoc; [done|]. intros m Hm%H4. cbn. lia.
    + intros m [Hm%H4| ->%list_elem_of_singleton]%elem_of_app; cbn; lia.
    + intros q (q0 & Hq & ->)%in_update. destruct (_ && _) eqn:E; [|by apply answered_more, H5]. apply andb_true_iff in E as [Hid%Z.eqb_eq _].
      apply Hone in Hid; [subst q0|done]. eexists. split; [apply elem_of_app; right; by apply list_elem_of_singleton|done].
    + assert (∀ q, q ∈ queue t → delivered_message_id q = Some (next_message t) → False) as Hnew.
      { intros q Hq Hd. specialize (H5 q Hq). unfold answered_by in H5. rewrite Hd in H5. destruct (delivered_at q); [|done]. destruct H5 as (m & Hm%H4 & Hi & _). lia. }
      intros q1 q2 i (q3 & Hq3 & ->)%in_update (q4 & Hq4 & ->)%in_update.
      destruct ((queued q3 =? queued row)%Z && _) eqn:E3, ((queued q4 =? queued row)%Z && _) eqn:E4; cbn.
      * apply andb_true_iff in E3 as [->%Z.eqb_eq _], E4 as [->%Z.eqb_eq _]. done.
      * intros [= <-] Hd. by destruct (Hnew q4).
      * intros Hd [= <-]. by destruct (Hnew q3).
      * by apply H6.
  - intros q Hq. exists (if (queued q =? queued row)%Z && is_none (delivered_at q) then q <| delivered_at := Some now |> <| delivered_message_id := Some (next_message t) |> else q).
    split; [apply list_elem_of_fmap; by exists q|]. destruct (_ && _) eqn:E; [|apply same_letter_refl]. unfold same_letter. cbn. conjs; try done; [by left|].
    apply andb_true_iff in E as [_ E]. by destruct (delivered_at q).
Qed.
Lemma delete_mail id t : let gone := in_ids (if exists_conv id t then subtree_ids id t else []) in
  (mail_ok t → mail_ok (delete_conversation id t))
  ∧ (∀ i, i ∈ (convs_shape (delete_conversation id t)).*1 → gone i = false)
  ∧ ∀ q, q ∈ queue t → gone (to_ q) = false → ∃ q', q' ∈ queue (delete_conversation id t) ∧ same_letter q q'.
Proof.
  intros gone. set (cut := λ q : Queued, q <| from_ ::= λ f, if match f with Some i => gone i | None => false end then None else f |>).
  assert (∀ q, q ∈ queue (delete_conversation id t) ↔ ∃ q0, q = cut q0 ∧ q0 ∈ queue t ∧ gone (to_ q0) = false) as Hq.
  { intros q. change (queue (delete_conversation id t)) with (map cut (List.filter (λ m, negb (gone (to_ m))) (queue t))). rewrite list_elem_of_fmap.
    setoid_rewrite elem_list_filter. setoid_rewrite negb_true_iff. done. }
  split; [|split].
  - intros [H1 H2 H3 H4 H5 H6]. split.
    + change (queue (delete_conversation id t)) with (map cut (List.filter (λ m, negb (gone (to_ m))) (queue t))). rewrite map_map. cbn.
      eapply sublist_NoDup; [exact H1|]. apply fmap_sublist, list_filter_sublist.
    + intros q (q0 & -> & Hin & _)%Hq. exact (H2 q0 Hin).
    + eapply sublist_NoDup; [exact H3|]. apply fmap_sublist, list_filter_sublist.
    + intros m [Hm _]%elem_list_filter. by apply H4.
    + intros q (q0 & -> & Hin & Hg)%Hq. apply H5 in Hin. unfold answered_by in *. cbn. destruct (delivered_at q0), (delivered_message_id q0); try done.
      destruct Hin as (m & Hm & Hid & Hc). exists m. split; [|done]. apply elem_list_filter. split; [done|]. fold gone. by rewrite Hc, Hg.
    + intros q1 q2 i (q3 & -> & Hin3 & _)%Hq (q4 & -> & Hin4 & _)%Hq. cbn. by apply H6.
  - intros i ([j p] & -> & (c & [= -> ->] & [_ Hc]%elem_list_filter)%list_elem_of_fmap)%list_elem_of_fmap. by apply negb_true_iff.
  - intros q Hin Hg. exists (cut q). split; [apply Hq; by exists q|]. unfold same_letter. cbn. conjs; try done.
    destruct (from_ q) as [j|]; [|by left]. cbn. destruct (gone j); [by right|by left].
Qed.
Lemma create_keeps now new t : keeps t (snd (create_child content_of for_child debug trust now new t)).
Proof.
  unfold create_child. destruct (refusal new t); [apply keeps_refl|]. destruct (repo_refusal trust new) as [[why []]|].
  - destruct (repo new); [by apply keeps_same|apply keeps_refl].
  - destruct (repo new); apply keeps_refl.
  - destruct (volume_refusal _ _ _); [apply keeps_refl|]. cbn [snd]. set (child := next_conv t). set (row := match agent_row _ _ with Some _ => _ | None => _ end).
    set (t1 := t <| convs ::= _ |> <| next_conv ::= _ |> <| agents ::= _ |>). apply keeps_trans with (snd (save_message content_of now child (users_text (new_brief new)) t1)); [|by apply keeps_same].
    apply keeps_saved. by apply keeps_same.
Qed.
Lemma complete_keeps now child parent d t : keeps t (snd (complete_start add_tools now child parent d t)).
Proof.
  unfold complete_start. destruct (negb _); [apply keeps_refl|]. cbn [snd].
  set (t1 := match done_model d with Some _ => _ | None => _ end). assert (keeps t t1) as Hk by (unfold t1; by destruct (done_model d); apply keeps_same).
  destruct (parent_notice d); by repeat (apply keeps_queued || exact Hk).
Qed.
Lemma message_keeps now caller to label text t : keeps t (snd (message_agent now caller to label text t)).
Proof.
  unfold message_agent. destruct (recipient_of caller to t) as [recipient|]; [|apply keeps_refl]. destruct (negb _); [apply keeps_refl|].
  destruct (is_some _); [apply keeps_refl|]. destruct (agent_state recipient t) as [[]|]; try apply keeps_refl;
    (destruct (match to with Child _ => _ | Parent => _ end); [by apply keeps_same|apply keeps_queued; by apply keeps_same]).
Qed.
Lemma ask_keeps now child use question label t : keeps t (snd (ask_parent now child use question label t)).
Proof.
  unfold ask_parent. destruct (conversation_parent _ _); [|apply keeps_refl]. do 3 (destruct (negb _) || destruct (is_some _); [apply keeps_refl|]).
  destruct (agent_state _ _) as [[]|]; try apply keeps_refl; (apply keeps_queued; by apply keeps_same).
Qed.
Lemma unmark_keeps now d t : keeps t (unmark_subtree_deleting now d t).
Proof.
  unfold unmark_subtree_deleting. set (t0 := t <| convs ::= _ |>). apply keeps_trans with t0; [by apply keeps_same|].
  generalize t0. induction (stopped d) as [|[i was] l IH]; intros t1; cbn; [apply keeps_refl|]. eapply keeps_trans; [|apply IH]. by apply keeps_same.
Qed.
Lemma finish_keeps now child label report d t : keeps t (snd (finish_agent now child label report d t)).
Proof.
  unfold finish_agent. destruct (conversation_parent child t); [|apply keeps_refl]. destruct (negb _); [apply keeps_refl|].
  assert (keeps t (snd (set_state now (is_id child) [AGENT_ACTIVE] AGENT_FINISHED t))) as Hs by (by apply keeps_same).
  destruct (set_state _ _ _ _ t) as [[] t']; cbn [negb]; [|apply keeps_refl]. destruct (running_commands _ _ _); [|apply keeps_refl].
  destruct (children_in _ _ t'); [|apply keeps_refl]. destruct (unread_by child t'); [apply keeps_refl|]. by apply keeps_queued.
Qed.
Lemma fail_keeps now child parent label text t : keeps t (snd (fail_start content_of now child parent label text t)).
Proof.
  unfold fail_start. assert (keeps t (snd (set_state now (is_id child) [AGENT_STARTING] AGENT_FAILED t))) as Hs by (by apply keeps_same).
  destruct (set_state _ _ _ _ t) as [failed t']. destruct (negb _); [apply keeps_refl|]. by apply keeps_saved, keeps_queued.
Qed.
(** The ways a step may end for the queue: kept, or gone with the conversation. *)
Definition carries_on t t' : Prop :=
  (mail_ok t → mail_ok t') ∧ ∀ q, q ∈ queue t → (∃ q', q' ∈ queue t' ∧ same_letter q q') ∨ (to_ q ∉ (convs_shape t').*1).
Lemma keeps_carries t t' : keeps t t' → carries_on t t'.
Proof. intros [H1 H2]. split; [done|]. intros q Hq. left. by apply H2. Qed.
Lemma rows_carry now id d label t : carries_on t (delete_subtree_rows now id d label t).
Proof.
  unfold delete_subtree_rows. destruct (negb _); [apply keeps_carries, keeps_refl|]. set (t1 := match deleted_parent d with Some _ => _ | None => _ end).
  assert (keeps t t1) as [Hk1 Hk2].
  { unfold t1. destruct (deleted_parent d) as [p|]; [|apply keeps_refl]. destruct (exists_conv p t); [apply keeps_queued|]; apply keeps_refl. }
  destruct (delete_mail id t1) as (Hm & Hc & Hd). split; [auto|]. intros q Hq. destruct (Hk2 q Hq) as (q' & Hq' & Hs). pose proof Hs as (_ & Hto & _). rewrite <- Hto.
  match type of Hd with (∀ q, _ → ?g (to_ q) = false → _) => destruct (g (to_ q')) eqn:Hg end.
  - right. intros Hin%Hc. congruence.
  - left. destruct (Hd q' Hq' Hg) as (q'' & Hq'' & Hs'). exists q''. split; [done|]. by eapply same_letter_trans.
Qed.
Lemma step_carries now tx w : carries_on (tables w) (tables (tx_step now tx w)).
Proof.
  destruct tx; cbn [tx_step tables]; try (by apply keeps_carries, keeps_same);
    lazymatch goal with |- context [delete_subtree_rows] => idtac | _ => apply keeps_carries end.
  - apply create_keeps.
  - apply complete_keeps.
  - apply fail_keeps.
  - apply finish_keeps.
  - unfold report_after_finish. destruct (conversation_parent _ _); [|apply keeps_refl]. destruct (negb _); [apply keeps_refl|].
    destruct (agent_state _ _) as [[]|]; try apply keeps_refl. apply keeps_queued, keeps_refl.
  - unfold stop_subtree. destruct (negb _); [apply keeps_refl|]. destruct (agent_state _ _) as [[]|]; by apply keeps_same.
  - apply message_keeps.
  - apply ask_keeps.
  - apply keeps_queued, keeps_refl.
  - destruct (List.find _ _) as [row|] eqn:E; [|apply keeps_refl]. apply find_some in E as [Hin%list_elem_of_In _]. by apply keeps_delivered.
  - destruct (create_volume_apart id name path o (tables w)) as (_ & _ & Hq & Ht & _ & Hn & Hm). by apply keeps_same.
  - cbn. generalize (cut_off_agents body (tables w)). intros told. assert (∀ t1, keeps (tables w) t1 → keeps (tables w) (foldl (λ t id, queue_agent_message now id None "smelt" KIND_NOTICE body t) t1 told)) as Hk;
    [|apply Hk, keeps_refl]. induction told as [|id told IH]; intros t1 Hk; [done|]. cbn [foldl]. by apply IH, keeps_queued.
  - destruct (delete_volume_apart id name o (tables w)) as (_ & _ & Hq & Ht & _ & Hn & Hm). by apply keeps_same.
  - unfold mark_subtree_deleting. destruct (negb _); by apply keeps_same.
  - destruct (deletes w !! i) as [[id d]|]; [apply unmark_keeps|apply keeps_refl].
  - destruct (deletes w !! i) as [[id d]|]; [apply rows_carry|apply keeps_carries, keeps_refl].
Qed.

Lemma run_mail txs : mail_ok (tables (tx_run txs no_world)).
Proof.
  induction txs as [|[now tx] txs IH] using rev_ind.
  - split; cbn; try (intros; by set_solver); apply NoDup_nil_2.
  - rewrite tx_run_app. by apply step_carries.
Qed.

(** C21. What agents write to each other is delivered, and once.  In every run, no two rows of
    the queue became the same message; a delivered row's message is in the transcript of
    the conversation it was written to, and an undelivered one has none.  No transaction
    loses a row: each is there after it, the same words to the same recipient, and as
    delivered as it was, unless its recipient is deleted. *)
Theorem letters_are_delivered_once (txs : list (Z * Tx)) (now : Z) (tx : Tx) :
  let t := tables (tx_run txs no_world) in
  let t' := tables (tx_step now tx (tx_run txs no_world)) in
  mail_ok t' ∧ ∀ q, q ∈ queue t → (∃ q', q' ∈ queue t' ∧ same_letter q q') ∨ to_ q ∉ (convs_shape t').*1.
Proof.
  intros t t'. destruct (step_carries now tx (tx_run txs no_world)) as [Hm Hk]. split; [|exact Hk]. apply Hm, run_mail.
Qed.
End Steps.

(** ** A run *)

Definition a_run : list (Z * Tx (V := unit)) :=
  [(1%Z, NewConversation); (2%Z, CreateChild (Build_NewChild 1 "the work" None None None 2 []));
   (3%Z, CompleteStart 2 1 (Build_StartDone (V := unit) "started" None None None "an agent"))].
Definition after (txs : list (Z * Tx (V := unit))) : World (V := unit) := tx_run id id id (λ _, None) (λ _ c, c) "" txs no_world.

Lemma the_tree_stays_whole_witness : agent_state 2 (tables (after a_run)) = Some AGENT_ACTIVE ∧ whole_tables 2 (tables (after a_run)).
Proof. split; [by vm_compute|]. apply the_tree_stays_whole; [lia|]. repeat constructor; cbn; lia. Defined.
(** A finish accepted, and one refused. *)
Lemma a_finish :
  fst (finish_agent 4 2 "an agent" "done" (Build_SandboxDb [] [] [] [] 1 1 [] []) (tables (after a_run))) = ReportQueued 1
  ∧ fst (finish_agent 5 2 "an agent" "done" (Build_SandboxDb [] [] [] [] 1 1 [] []) (tables (after (app a_run [(4%Z, MessageAgent 1 (Child 2) "you" "wait")])))) = MessageWaiting.
Proof. by vm_compute. Qed.
(** A stop that comes while a delete of the agent is under way is told the agent was
    already stopped; the delete failing then takes the agent up again. *)
Lemma a_stop_during_a_failed_delete_is_undone :
  let w := after (app a_run [(4%Z, MarkDeleting 2)]) in
  fst (stop_subtree 5 1 2 (tables w)) = AlreadyEnded AGENT_STOPPED
  ∧ agent_state 2 (tables (after (app a_run [(4%Z, MarkDeleting 2); (5%Z, StopAgent 1 2); (6%Z, Unmark 0)]))) = Some AGENT_ACTIVE.
Proof. by vm_compute. Qed.
