(* ===== verification/VolumeGuarantees.v ===== *)
(** * VolumeGuarantees: what the agents' volumes promise

    In every run of the transactions and tools of [AgentGuarantees]: the rows of volumes and
    mounts fit together and with the conversations, what one conversation mounts never
    clashes, and a volume another's agent works with stays. *)

From S2P Require Import Prelude RustStr Notices McpCalls Models Questions Notify ChatPage SandboxDb AgentTree VolumePaths AgentVolumes AgentGuarantees.
Local Open Scope string_scope.

Section Volumes.
Context {V : Type} (content_of : string → string) (for_child : option V → option V) (debug : string → string) (trust : string → option bool)
  (add_tools : V → option V → option V) (db_error : string).
Implicit Types t : Tables V.

(** ** What holds of the rows *)

Definition at_free_place (path : string) : Prop := ∀ dir, dir ∈ RESERVED_MODEL_MOUNT_DIRS → at_or_under path dir = false.
(** Of conversations [ids]. *)
Record volumes_ok (ids : list Z) (vs : list AgentVolume) (ms : list (Z * Z)) (next : Z) : Prop := {
  ok_volumes : NoDup (map volume vs);
  ok_next : ∀ v, v ∈ vs → (volume v < next)%Z;
  ok_mounts : ∀ c i, (c, i) ∈ ms → c ∈ ids ∧ i ∈ map volume vs;
  ok_owners : ∀ v, v ∈ vs → (owner_conversation_id v, volume v) ∈ ms;
  ok_once : NoDup ms;
  ok_names : ∀ c v w, v ∈ vs → w ∈ vs → (c, volume v) ∈ ms → (c, volume w) ∈ ms → volume_name v = volume_name w → v = w;
  ok_paths : ∀ c v w, v ∈ vs → w ∈ vs → (c, volume v) ∈ ms → (c, volume w) ∈ ms → mount_path v = mount_path w → v = w;
  ok_places : ∀ v, v ∈ vs → at_free_place (mount_path v);
}.
Definition rows_ok t : Prop := volumes_ok (convs_shape t).*1 (volumes t) (mounts t) (next_volume t).
Definition same_volumes t t' : Prop := volumes t' = volumes t ∧ mounts t' = mounts t ∧ next_volume t' = next_volume t.

Lemma ok_more_convs ids ids' vs ms next : (∀ i, i ∈ ids → i ∈ ids') → volumes_ok ids vs ms next → volumes_ok ids' vs ms next.
Proof. intros Hi [H1 H2 H3 H4 H5 H6 H7 H8]. split; try done. intros c i [Hc Hv]%H3. auto. Qed.
Lemma volume_unique vs v w : NoDup (map volume vs) → v ∈ vs → w ∈ vs → volume v = volume w → v = w.
Proof.
  intros Hnd [i Hi]%list_elem_of_lookup [j Hj]%list_elem_of_lookup Hid. enough (i = j) by congruence.
  eapply NoDup_lookup; [exact Hnd| |]; rewrite list_lookup_fmap; [by rewrite Hi|rewrite Hj; cbn; by rewrite <- Hid].
Qed.
Lemma in_volumes_of c v t : v ∈ volumes_of c t ↔ v ∈ volumes t ∧ (c, volume v) ∈ mounts t.
Proof.
  unfold volumes_of. rewrite elem_list_filter, existsb_exists. split.
  - intros [Hv ([c' i] & Hin%list_elem_of_In & [->%Z.eqb_eq Hi%Z.eqb_eq]%andb_true_iff)]. split; [done|]. by rewrite <- Hi.
  - intros [Hv Hm]. split; [done|]. exists (c, volume v). split; [by apply list_elem_of_In|]. by rewrite !Z.eqb_refl.
Qed.
(** A row for a new volume and its owner's mount, neither of whose name and path it mounts. *)
Lemma ok_create ids vs ms next id name path : volumes_ok ids vs ms next → id ∈ ids → at_free_place path →
  (∀ v, v ∈ vs → (id, volume v) ∈ ms → volume_name v ≠ name ∧ mount_path v ≠ path) →
  volumes_ok ids (app vs [Build_AgentVolume next id name path]) (app ms [(id, next)]) (Z.succ next).
Proof.
  intros [H1 H2 H3 H4 H5 H6 H7 H8] Hid Hp Hnew. set (v0 := Build_AgentVolume next id name path).
  assert (∀ c v, v ∈ vs → (c, volume v) ∈ app ms [(id, next)] → (c, volume v) ∈ ms) as Hold.
  { intros c v Hv [Hin|Hin%list_elem_of_singleton]%elem_of_app; [done|]. injection Hin as _ E. apply H2 in Hv. lia. }
  assert (∀ c, (c, next) ∈ app ms [(id, next)] → c = id) as Hnext.
  { intros c [Hin|Hin%list_elem_of_singleton]%elem_of_app; [|by injection Hin]. apply H3 in Hin as [_ (v & E & Hv)%list_elem_of_fmap]. apply H2 in Hv. lia. }
  split.
  - apply nodup_snoc; [done|]. intros v Hv%H2. cbn. lia.
  - intros v [Hv%H2| ->%list_elem_of_singleton]%elem_of_app; cbn; lia.
  - intros c i. rewrite map_app. intros [Hin%H3|Hin%list_elem_of_singleton]%elem_of_app; [set_solver|]. injection Hin as -> ->. set_solver.
  - intros v [Hv%H4| ->%list_elem_of_singleton]%elem_of_app; set_solver.
  - apply NoDup_app. split; [done|]. split; [|apply NoDup_singleton]. intros [c i] Hin%H3 Hx%list_elem_of_singleton. injection Hx as -> ->.
    destruct Hin as [_ (v & E & Hv)%list_elem_of_fmap]. apply H2 in Hv. lia.
  - intros c v w [Hv| ->%list_elem_of_singleton]%elem_of_app [Hw| ->%list_elem_of_singleton]%elem_of_app Hcv Hcw Hn; [|exfalso..|done].
    + apply (H6 c); auto.
    + apply Hnext in Hcw as ->. apply Hold in Hcv; [|done]. by apply (proj1 (Hnew v Hv Hcv)).
    + apply Hnext in Hcv as ->. apply Hold in Hcw; [|done]. by apply (proj1 (Hnew w Hw Hcw)).
  - intros c v w [Hv| ->%list_elem_of_singleton]%elem_of_app [Hw| ->%list_elem_of_singleton]%elem_of_app Hcv Hcw Hn; [|exfalso..|done].
    + apply (H7 c); auto.
    + apply Hnext in Hcw as ->. apply Hold in Hcv; [|done]. by apply (proj2 (Hnew v Hv Hcv)).
    + apply Hnext in Hcv as ->. apply Hold in Hcw; [|done]. by apply (proj2 (Hnew w Hw Hcw)).
  - intros v [Hv| ->%list_elem_of_singleton]%elem_of_app; [by apply H8|done].
Qed.
(** Volumes, and mounts, gone: every mount of a volume gone, and of the rest none its owner's. *)
Lemma ok_drop ids ids' vs ms next (gone : AgentVolume → bool) (keep : Z * Z → bool) : volumes_ok ids vs ms next →
  (∀ c v, v ∈ vs → (c, volume v) ∈ ms → keep (c, volume v) = true → gone v = false ∧ c ∈ ids') →
  (∀ v, v ∈ vs → gone v = false → keep (owner_conversation_id v, volume v) = true) →
  volumes_ok ids' (List.filter (λ v, negb (gone v)) vs) (List.filter keep ms) next.
Proof.
  intros [H1 H2 H3 H4 H5 H6 H7 H8] Hk Ho. split.
  - eapply sublist_NoDup; [exact H1|]. apply fmap_sublist, list_filter_sublist.
  - intros v [Hv _]%elem_list_filter. by apply H2.
  - intros c i [Hin Hkeep]%elem_list_filter. pose proof (H3 _ _ Hin) as [_ (v & -> & Hv)%list_elem_of_fmap]. destruct (Hk c v Hv Hin Hkeep) as [Hg Hc].
    split; [done|]. apply list_elem_of_fmap. exists v. split; [done|]. apply elem_list_filter. by rewrite Hg.
  - intros v [Hv Hg%negb_true_iff]%elem_list_filter. apply elem_list_filter. auto.
  - eapply sublist_NoDup; [exact H5|]. apply list_filter_sublist.
  - intros c v w [Hv _]%elem_list_filter [Hw _]%elem_list_filter [Hcv _]%elem_list_filter [Hcw _]%elem_list_filter. by eapply H6.
  - intros c v w [Hv _]%elem_list_filter [Hw _]%elem_list_filter [Hcv _]%elem_list_filter [Hcw _]%elem_list_filter. by eapply H7.
  - intros v [Hv _]%elem_list_filter. by apply H8.
Qed.

(** ** What each step does to them *)

Lemma drop_ok gone t : rows_ok t → rows_ok (drop_volumes gone t).
Proof.
  intros Hok. unfold rows_ok, drop_volumes. cbn. apply (ok_drop (convs_shape t).*1 _ _ _ _ gone (λ '(_, i), negb (existsb (λ v, (volume v =? i)%Z && gone v) (volumes t)))); [exact Hok| |].
  - intros c v Hv Hm Hk%negb_true_iff. split; [|by eapply (ok_mounts _ _ _ _ Hok)]. pose proof (existsb_false_in _ _ _ Hk Hv) as Hg. cbn in Hg. by rewrite Z.eqb_refl in Hg.
  - intros v Hv Hg. apply negb_true_iff. destruct (existsb _ _) eqn:E; [|done]. apply existsb_exists in E as (w & Hw%list_elem_of_In & [Hi%Z.eqb_eq Hgw]%andb_true_iff).
    rewrite (volume_unique _ w v (ok_volumes _ _ _ _ Hok) Hw Hv Hi) in Hgw. congruence.
Qed.
Lemma place_free path stored : model_volume_mount_path debug path = Ok stored → at_free_place stored.
Proof.
  unfold model_volume_mount_path. destruct (validate_mount_path debug _); cbn [and_then]; [|done].
  destruct (reserved_mount_path _) eqn:Hr; [done|]. intros [= <-] dir Hd. by apply not_reserved.
Qed.
(** What the tool makes is of a place and a name its conversation mounts nothing of. *)
Lemma tool_checked id name_ path_ o t name path :
  and_then (argument name_ "name") (λ name, and_then (argument path_ "mount_path") (λ typed,
    if negb (valid_volume_name name) then Err ("a volume name is 1-64 letters, digits, '-' and '_', not " +:+ debug name)
    else and_then (model_volume_mount_path debug typed) (λ path,
      match volume_refused debug id name path o t with Some why => Err why | None => match no_manager o with Some e => Err e | None => Ok (name, path) end end)))
  = Ok (name, path) →
  at_free_place path ∧ volume_refused debug id name path o t = None.
Proof.
  destruct (argument name_ "name") as [n|]; cbn [and_then]; [|done]. destruct (argument path_ _) as [typed|]; cbn [and_then]; [|done].
  destruct (negb _); [done|]. destruct (model_volume_mount_path debug typed) as [p|] eqn:Hp; cbn [and_then]; [|done].
  destruct (volume_refused debug id n p o t) eqn:Hr; [done|]. destruct (no_manager o); [done|]. intros [= <- <-]. split; [by eapply place_free|done].
Qed.
Lemma not_refused id name path o t : volume_refused debug id name path o t = None →
  ∀ v, v ∈ volumes t → (id, volume v) ∈ mounts t → volume_name v ≠ name ∧ mount_path v ≠ path.
Proof.
  unfold volume_refused. destruct (List.find _ (globals o)) as [[]|]; [done|]. destruct (volume_mounted_at id path t) eqn:Hp; [done|].
  destruct (agent_volume_held_by id name t) as [|] eqn:Hn; [done|]. intros _ v Hv Hm. assert (v ∈ volumes_of id t) as Hin by (by apply in_volumes_of). split.
  - intros <-. apply list_elem_of_In in Hin. pose proof (find_none _ _ Hn _ Hin) as Hf. cbn in Hf. by rewrite String.eqb_refl in Hf.
  - intros <-. pose proof (existsb_false_in _ _ _ Hp Hin) as Hf. cbn in Hf. by rewrite String.eqb_refl in Hf.
Qed.
Lemma create_volume_ok id name path o t : rows_ok t → rows_ok (snd (create_volume debug db_error id name path o t)).
Proof.
  intros Hok. unfold create_volume. destruct (and_then _ _) as [[n p]|e] eqn:Hc; [|done]. apply tool_checked in Hc as [Hfree Hr].
  unfold create_agent_volume_with_owner_mount. destruct (negb (exists_conv id t)) eqn:He; [done|]. destruct (_ || _); [done|].
  set (t' := t <| volumes ::= _ |> <| next_volume ::= _ |> <| mounts ::= _ |>).
  assert (rows_ok t') as Hok'.
  { apply (ok_create (convs_shape t).*1 (volumes t) (mounts t) (next_volume t)); [exact Hok|by apply exists_conv_in, negb_false_iff|done|by eapply not_refused]. }
  destruct (claim_error o); [|done]. cbn [snd]. by apply drop_ok.
Qed.
Lemma delete_volume_ok id name o t : rows_ok t → rows_ok (snd (delete_volume debug id name o t)).
Proof.
  intros Hok. unfold delete_volume. destruct (argument name "name") as [n|]; [|done].
  assert (rows_ok (snd (delete_own debug id n o t))) as H.
  { unfold delete_own, delete_agent_volume_if_unused. destruct (List.find _ _) as [v|]; [|done]. destruct (holders id v t); [|done]. by apply drop_ok. }
  destruct (agent_volume_held_by id n t) as [w|]; [|done]. by destruct (negb _).
Qed.
Definition gone_with (id : Z) t : Z → bool := in_ids (if exists_conv id t then subtree_ids id t else []).
Definition mount_stays (gone : Z → bool) (vs : list AgentVolume) : Z * Z → bool :=
  λ '(c, v), negb (gone c || existsb (λ w, (volume w =? v)%Z && gone (owner_conversation_id w)) vs).
Lemma deleted_volumes id t : volumes (delete_conversation id t) = List.filter (λ v, negb (gone_with id t (owner_conversation_id v))) (volumes t).
Proof. reflexivity. Qed.
Lemma deleted_mounts id t : mounts (delete_conversation id t) = List.filter (mount_stays (gone_with id t) (volumes t)) (mounts t).
Proof. reflexivity. Qed.
Lemma deleted_convs id t : convs (delete_conversation id t) = List.filter (λ c, negb (gone_with id t (conv c))) (convs t).
Proof. reflexivity. Qed.
Lemma deleted_next id t : next_volume (delete_conversation id t) = next_volume t.
Proof. reflexivity. Qed.
Lemma delete_rows_ok id t : rows_ok t → rows_ok (delete_conversation id t).
Proof.
  intros Hok. unfold rows_ok, convs_shape. rewrite deleted_volumes, deleted_mounts, deleted_convs, deleted_next. generalize (gone_with id t). intros gone.
  apply (ok_drop (convs_shape t).*1 _ _ _ _ (λ v, gone (owner_conversation_id v))); [exact Hok| |].
  - intros c v Hv Hm [Hc Hk]%negb_true_iff%orb_false_iff. split.
    + pose proof (existsb_false_in _ _ _ Hk Hv) as Hg. cbn in Hg. by rewrite Z.eqb_refl in Hg.
    + apply (ok_mounts _ _ _ _ Hok) in Hm as [([i p] & -> & (x & [= -> ->] & Hx)%list_elem_of_fmap)%list_elem_of_fmap _].
      apply list_elem_of_fmap. exists (conv x, parent_id x). split; [done|]. apply list_elem_of_fmap. exists x. split; [done|]. apply elem_list_filter. split; [done|].
      cbn in Hc. by rewrite Hc.
  - intros v Hv Hg. apply negb_true_iff, orb_false_iff. split; [done|]. destruct (existsb _ _) eqn:E; [|done].
    apply existsb_exists in E as (w & Hw%list_elem_of_In & [Hi%Z.eqb_eq Hgw]%andb_true_iff).
    rewrite (volume_unique _ w v (ok_volumes _ _ _ _ Hok) Hw Hv Hi) in Hgw. congruence.
Qed.
Lemma passed_of c names t v : v ∈ agent_volumes_held_for c names t → v ∈ volumes t ∧ (c, volume v) ∈ mounts t.
Proof. unfold agent_volumes_held_for. rewrite (sort_by_perm _ _), elem_list_filter. intros [Hv _]. by apply in_volumes_of. Qed.
(** A child made mounts what its parent passes it. *)
Lemma ok_passed ids vs ms next child parent (passed : list AgentVolume) : volumes_ok ids vs ms next → child ∉ ids → NoDup passed →
  (∀ v, v ∈ passed → v ∈ vs ∧ (parent, volume v) ∈ ms) →
  volumes_ok (app ids [child]) vs (app ms (map (λ v, (child, volume v)) passed)) next.
Proof.
  intros [H1 H2 H3 H4 H5 H6 H7 H8] Hnew Hnd Hp.
  assert (∀ c i, (c, i) ∈ app ms (map (λ v, (child, volume v)) passed) → c ≠ child ∧ (c, i) ∈ ms ∨ c = child ∧ (parent, i) ∈ ms) as Hin.
  { intros c i [Hm|(v & [= -> ->] & Hv)%list_elem_of_fmap]%elem_of_app; [left|right; split; [done|by apply Hp]]. split; [|done]. intros ->. by apply H3 in Hm as [Hm _]. }
  assert (∀ {A} (f : AgentVolume → A), (∀ c v w, v ∈ vs → w ∈ vs → (c, volume v) ∈ ms → (c, volume w) ∈ ms → f v = f w → v = w) →
    ∀ c v w, v ∈ vs → w ∈ vs → (c, volume v) ∈ app ms (map (λ v, (child, volume v)) passed) → (c, volume w) ∈ app ms (map (λ v, (child, volume v)) passed) → f v = f w → v = w) as Huse.
  { intros A f Hf c v w Hv Hw [[Hc Hcv]|[Hc Hcv]]%Hin [[Hc' Hcw]|[Hc' Hcw]]%Hin; try done; by eapply Hf. }
  split; try done.
  - intros c i [[Hc Hm]|[-> Hm]]%Hin; apply H3 in Hm as [? ?]; set_solver.
  - intros v Hv%H4. set_solver.
  - apply NoDup_app. split; [done|]. split.
    + intros [c i] Hm (v & [= -> ->] & _)%list_elem_of_fmap. by apply H3 in Hm as [Hm _].
    + assert (NoDup (map volume passed)) as Hids.
      { apply NoDup_fmap_2_strong; [|done]. intros v w Hv%Hp Hw%Hp. apply volume_unique with vs; [done|by apply Hv|by apply Hw]. }
      rewrite <- (map_map volume (λ i, (child, i))). apply NoDup_fmap_2; [|done]. by intros ? ? [= ->].
  - apply (Huse _ volume_name H6).
  - apply (Huse _ mount_path H7).
Qed.
Lemma create_child_ok now new t : rows_ok t → (∀ i, i ∈ (convs_shape t).*1 → (i < next_conv t)%Z) →
  rows_ok (snd (create_child content_of for_child debug trust now new t)).
Proof.
  intros Hok Hlt. unfold create_child. destruct (refusal new t); [done|]. destruct (repo_refusal trust new) as [[why []]|]; [by destruct (repo new)..|].
  destruct (volume_refusal _ _ _); [done|]. cbn [snd]. unfold rows_ok. cbn.
  assert ((map (λ c, (conv c, parent_id c)) (app (convs t) [Build_Conv (next_conv t) (Some (caller new)) None None (new_model new)])).*1
    = app (convs_shape t).*1 [next_conv t]) as -> by (rewrite map_app, fmap_app; done).
  apply ok_passed with (caller new); [done|intros Hin%Hlt; lia| |apply passed_of].
  unfold agent_volumes_held_for. rewrite (sort_by_perm _ _). eapply sublist_NoDup; [eapply (NoDup_fmap_1 volume), (ok_volumes _ _ _ _ Hok)|].
  etrans; apply list_filter_sublist.
Qed.
Lemma rows_same t t' : convs_shape t' = convs_shape t → same_volumes t t' → rows_ok t → rows_ok t'.
Proof. intros Hc (Hv & Hm & Hn). unfold rows_ok. by rewrite Hc, Hv, Hm, Hn. Qed.
Lemma complete_volumes now child parent d t : same_volumes t (snd (complete_start add_tools now child parent d t)).
Proof. unfold complete_start. destruct (negb _); [done|]. by destruct (done_model d), (parent_notice d). Qed.
Lemma fail_volumes now child parent label text t : same_volumes t (snd (fail_start content_of now child parent label text t)).
Proof. unfold fail_start, set_state. by destruct (negb _). Qed.
Lemma finish_volumes now child label report d t : same_volumes t (snd (finish_agent now child label report d t)).
Proof.
  unfold finish_agent, set_state. destruct (conversation_parent _ _); [|done]. destruct (negb _); [done|]. destruct (negb _); [done|].
  destruct (running_commands _ _ _); [|done]. destruct (children_in _ _ _); [|done]. by destruct (unread_by _ _).
Qed.
Lemma follow_volumes now child label report t : same_volumes t (snd (report_after_finish now child label report t)).
Proof. unfold report_after_finish. destruct (conversation_parent _ _); [|done]. destruct (negb _); [done|]. by destruct (agent_state _ _) as [[]|]. Qed.
Lemma stop_volumes now caller id t : same_volumes t (snd (stop_subtree now caller id t)).
Proof. unfold stop_subtree. destruct (negb _); [done|]. by destruct (agent_state _ _) as [[]|]. Qed.
Lemma message_volumes now caller to label text t : same_volumes t (snd (message_agent now caller to label text t)).
Proof.
  unfold message_agent. destruct (recipient_of _ _ _); [|done]. destruct (negb _); [done|]. destruct (is_some _); [done|].
  destruct (agent_state _ _) as [[]|]; try done; by destruct (match to with Child _ => _ | Parent => _ end).
Qed.
Lemma ask_volumes now child use question label t : same_volumes t (snd (ask_parent now child use question label t)).
Proof. unfold ask_parent. destruct (conversation_parent _ _); [|done]. do 3 (destruct (negb _) || destruct (is_some _); [done|]). by destruct (agent_state _ _) as [[]|]. Qed.
Lemma deliver_volumes now row content t : same_volumes t (snd (deliver_agent_message now row content t)).
Proof. unfold deliver_agent_message. by destruct (negb _). Qed.
Lemma unmark_volumes now d t : same_volumes t (unmark_subtree_deleting now d t).
Proof.
  unfold unmark_subtree_deleting. set (t0 := t <| convs ::= _ |>). change (same_volumes t0 (foldl (λ t '(id, was), snd (set_state now (is_id id) [AGENT_STOPPED] was t)) t0 (stopped d))).
  generalize t0. induction (stopped d) as [|[i was] l IH]; intros t1; [done|]. apply (IH (snd (set_state now (is_id i) [AGENT_STOPPED] was t1))).
Qed.
#[local] Notation step := (tx_step content_of for_child debug trust add_tools db_error).
#[local] Notation run := (tx_run content_of for_child debug trust add_tools db_error).
Lemma same_shape_convs t t' : same_shape t t' → convs_shape t' = convs_shape t.
Proof. by intros [H _]. Qed.
(** Every transaction but these leaves the volumes, the mounts and the tree as they are. *)
Definition touches_volumes (tx : Tx (V := V)) : bool :=
  match tx with NewConversation | CreateChild _ | CreateVolume _ _ _ _ | DeleteVolume _ _ _ | DeleteRows _ _ => true | _ => false end.
Lemma plain_step now tx w : touches_volumes tx = false →
  convs_shape (tables (step now tx w)) = convs_shape (tables w) ∧ same_volumes (tables w) (tables (step now tx w)).
Proof.
  destruct tx; try done; intros _; cbn [tx_step tables].
  - split; [apply same_shape_convs, complete_same|apply complete_volumes].
  - split; [|apply fail_volumes]. unfold fail_start, set_state. by destruct (negb _).
  - split; [apply same_shape_convs, finish_same|apply finish_volumes].
  - split; [|apply follow_volumes]. unfold report_after_finish. destruct (conversation_parent _ _); [|done]. destruct (negb _); [done|]. by destruct (agent_state _ _) as [[]|].
  - split; [|apply stop_volumes]. unfold stop_subtree. destruct (negb _); [done|]. by destruct (agent_state _ _) as [[]|].
  - split; [apply same_shape_convs, message_same|apply message_volumes].
  - split; [|apply ask_volumes]. unfold ask_parent. destruct (conversation_parent _ _); [|done]. do 3 (destruct (negb _) || destruct (is_some _); [done|]).
    by destruct (agent_state _ _) as [[]|].
  - destruct (List.find _ _) as [row|]; [|done]. split; [|apply deliver_volumes]. unfold deliver_agent_message. by destruct (negb _).
  - destruct (restart_rest now body (tables w)) as (Hc & _ & _ & Hv & Hm & _ & _ & Hn). unfold convs_shape. by rewrite Hc.
  - pose proof (mark_same now id (tables w)) as Hs. unfold mark_subtree_deleting in *. destruct (negb _); [done|]. split; [apply Hs|done].
  - destruct (deletes w !! i) as [[id d]|]; [|done]. split; [apply same_shape_convs, unmark_same|apply unmark_volumes].
Qed.
Lemma step_rows now tx w : rows_ok (tables w) → (∀ i, i ∈ (convs_shape (tables w)).*1 → (i < next_conv (tables w))%Z) → rows_ok (tables (step now tx w)).
Proof.
  intros Hok Hlt. destruct (touches_volumes tx) eqn:Htx; [|destruct (plain_step now tx w Htx); by eapply rows_same].
  destruct tx; try done; cbn [tx_step tables].
  - unfold rows_ok. eapply ok_more_convs; [|exact Hok]. intros i Hi. unfold convs_shape. cbn. rewrite map_app, fmap_app. apply elem_of_app. by left.
  - by apply create_child_ok.
  - by apply create_volume_ok.
  - by apply delete_volume_ok.
  - destruct (deletes w !! i) as [[id d]|]; [|done]. cbn. unfold delete_subtree_rows. destruct (negb _); [done|]. apply delete_rows_ok.
    destruct (deleted_parent d) as [p|]; [|done]. by destruct (exists_conv p (tables w)).
Qed.
Lemma run_rows txs : rows_ok (tables (run txs no_world)) ∧ ∀ i, i ∈ (convs_shape (tables (run txs no_world))).*1 → (i < next_conv (tables (run txs no_world)))%Z.
Proof.
  assert (∀ txs i, i ∈ (convs_shape (tables (run txs no_world))).*1 → (i < next_conv (tables (run txs no_world)))%Z) as Hlt.
  { intros l i ([j p] & -> & Hin)%list_elem_of_fmap. destruct (some_limit l) as (limit & Hl & Hw).
    pose proof (run_whole content_of for_child debug trust add_tools db_error limit l Hl Hw) as Hwhole. by eapply (whole_next _ _ _ _ Hwhole). }
  split; [|apply Hlt]. induction txs as [|[now tx] txs IH] using rev_ind.
  - split; cbn; try (intros; by set_solver); apply NoDup_nil_2.
  - rewrite tx_run_app. apply step_rows; [done|apply Hlt].
Qed.

(** C27. What a conversation mounts never clashes.  In every run: a mount is of a volume and
    a conversation that are there, and is there once; a volume's owner mounts it; of all a
    conversation mounts (made or passed to it), no two have one name or one path; and none
    is at or under a directory of smelt's or the system's. *)
Theorem mounts_never_clash (txs : list (Z * Tx)) :
  let t := tables (run txs no_world) in
  volumes_ok (convs_shape t).*1 (volumes t) (mounts t) (next_volume t).
Proof. apply run_rows. Qed.

(** ** A volume in use *)

Definition held c v t : Prop := v ∈ volumes t ∧ (c, volume v) ∈ mounts t.
Lemma held_drop gone c v t : NoDup (map volume (volumes t)) → held c v t → gone v = false → held c v (drop_volumes gone t).
Proof.
  intros Hnd [Hv Hm] Hg. split; apply elem_list_filter; (split; [done|]); apply negb_true_iff; [done|].
  destruct (existsb _ _) eqn:E; [|done]. apply existsb_exists in E as (w & Hw%list_elem_of_In & [Hi%Z.eqb_eq Hgw]%andb_true_iff).
  rewrite (volume_unique _ w v Hnd Hw Hv Hi) in Hgw. congruence.
Qed.
Definition works_with c v t : Prop := c ≠ owner_conversation_id v ∧ ∃ a, a ∈ agents t ∧ agent a = c ∧ state a ∈ [AGENT_STARTING; AGENT_ACTIVE].
Lemma own_delete_spares id name o c v t : NoDup (map volume (volumes t)) → held c v t → works_with c v t → held c v (snd (delete_own debug id name o t)).
Proof.
  intros Hnd Hh (Hc & a & Ha & Hid & Hs). unfold delete_own, delete_agent_volume_if_unused. destruct (List.find _ _) as [w|] eqn:Hf; [|done].
  apply find_some in Hf as [Hw%list_elem_of_In [Hown%Z.eqb_eq _]%andb_true_iff]. destruct (holders id w t) eqn:Hold; [|done]. cbn [snd]. apply held_drop; [done|done|].
  apply Z.eqb_neq. intros E. pose proof (volume_unique _ _ _ Hnd (proj1 Hh) Hw E) as <-. apply map_eq_nil, sorted_nil in Hold.
  pose proof (none_filtered _ _ _ Hold Ha) as Hx. cbn in Hx. rewrite Hid, bool_decide_eq_true_2, (bool_decide_eq_true_2 (state a ∈ _)) in Hx by (done || apply Hh).
  rewrite andb_true_r in Hx. apply negb_false_iff, Z.eqb_eq in Hx. congruence.
Qed.
Lemma create_spares id name path o c v t : rows_ok t → held c v t → held c v (snd (create_volume debug db_error id name path o t)).
Proof.
  intros Hok Hh. unfold create_volume. destruct (and_then _ _) as [[n p]|e] eqn:Hc; [|done]. apply tool_checked in Hc as [Hfree Hr].
  unfold create_agent_volume_with_owner_mount. destruct (negb (exists_conv id t)) eqn:He; [done|]. destruct (_ || _); [done|].
  set (t' := t <| volumes ::= _ |> <| next_volume ::= _ |> <| mounts ::= _ |>).
  assert (rows_ok t') as Hok'.
  { apply (ok_create (convs_shape t).*1 (volumes t) (mounts t) (next_volume t)); [exact Hok|by apply exists_conv_in, negb_false_iff|done|by eapply not_refused]. }
  assert (held c v t') as Hh' by (destruct Hh; split; apply elem_of_app; by left). destruct (claim_error o); [|done]. cbn [snd]. apply held_drop; [apply (ok_volumes _ _ _ _ Hok')|done|].
  apply andb_false_iff. left. apply Z.eqb_neq. pose proof (ok_next _ _ _ _ Hok v (proj1 Hh)). cbn. lia.
Qed.
Lemma delete_tool_spares id name o c v t : NoDup (map volume (volumes t)) → held c v t → works_with c v t → held c v (snd (delete_volume debug id name o t)).
Proof.
  intros Hnd Hh Hw. unfold delete_volume. destruct (argument name "name") as [n|]; [|done]. pose proof (own_delete_spares id n o c v t Hnd Hh Hw) as H.
  destruct (agent_volume_held_by id n t) as [w|]; [|done]. by destruct (negb _).
Qed.
Lemma remains c id t : c ∈ (convs_shape t).*1 → gone_with id t c = false → c ∈ (convs_shape (delete_conversation id t)).*1.
Proof.
  intros ([i p] & -> & (x & [= -> ->] & Hx)%list_elem_of_fmap)%list_elem_of_fmap Hg. apply list_elem_of_fmap. exists (conv x, parent_id x). split; [done|].
  unfold convs_shape. rewrite deleted_convs. apply list_elem_of_fmap. exists x. split; [done|]. apply elem_list_filter. cbn in Hg. by rewrite Hg.
Qed.
Lemma deleted_spares id c v t : rows_ok t → held c v t →
  held c v (delete_conversation id t) ∨ gone_with id t c = true ∨ gone_with id t (owner_conversation_id v) = true.
Proof.
  intros Hok [Hv Hm]. destruct (gone_with id t c) eqn:Hc; [by right; left|]. destruct (gone_with id t (owner_conversation_id v)) eqn:Ho; [by right; right|left].
  split; [rewrite deleted_volumes|rewrite deleted_mounts]; (apply elem_list_filter; split; [done|]); cbn; rewrite ?Ho, ?Hc; [done|]. apply negb_true_iff. cbn.
  destruct (existsb _ _) eqn:E; [|done]. apply existsb_exists in E as (w & Hw%list_elem_of_In & [Hi%Z.eqb_eq Hgw]%andb_true_iff).
  rewrite (volume_unique _ w v (ok_volumes _ _ _ _ Hok) Hw Hv Hi) in Hgw. congruence.
Qed.
Lemma gone_is_gone c id t : gone_with id t c = true → c ∉ (convs_shape (delete_conversation id t)).*1.
Proof.
  intros Hg ([i p] & -> & (x & [= -> ->] & Hx)%list_elem_of_fmap)%list_elem_of_fmap. rewrite deleted_convs in Hx. apply elem_list_filter in Hx as [_ Hx].
  cbn in Hg. by rewrite Hg in Hx.
Qed.
Lemma find_none_forall {A} (f : A → bool) l x : List.find f l = None → x ∈ l → f x = false.
Proof. intros Hf Hx%list_elem_of_In. by eapply find_none. Qed.

(** C28. A volume passed on is there for as long as it is worked with.  A start that is taken
    mounts every volume it asked for, each one its parent mounts too; and while an agent
    that mounts another's volume is starting or working, no transaction or tool takes the
    volume or its mount away, but a delete of its own conversation or of the volume's
    owner's. *)
Theorem volumes_in_use_stay (txs : list (Z * Tx)) (now : Z) :
  let w := run txs no_world in
  let t := tables w in
  (∀ new child t', create_child content_of for_child debug trust now new t = (Created child, t') →
    ∀ name, name ∈ new_volumes new → ∃ v, volume_name v = name ∧ held (caller new) v t ∧ held child v t')
  ∧ ∀ tx c v, held c v t → works_with c v t →
      let t' := tables (step now tx w) in
      held c v t' ∨ c ∉ (convs_shape t').*1 ∨ owner_conversation_id v ∉ (convs_shape t').*1.
Proof.
  intros w t. pose proof (proj1 (run_rows txs)) as Hok. change (rows_ok t) in Hok. split.
  - intros new child t'. unfold create_child. destruct (refusal new t); [done|]. destruct (repo_refusal trust new) as [[why asked]|]; [done|].
    destruct (volume_refusal debug new _) eqn:Hvr; [done|]. intros [= <- <-] name Hname. unfold volume_refusal in Hvr.
    destruct (List.find _ (new_volumes new)) eqn:Hf; [done|]. pose proof (find_none_forall _ _ _ Hf Hname) as Hx. apply negb_false_iff, existsb_exists in Hx.
    destruct Hx as (v & Hv%list_elem_of_In & Hn%String.eqb_eq). exists v. pose proof (passed_of _ _ _ _ Hv) as [Hin Hm]. split; [done|]. split; [done|]. split; [done|].
    cbn. apply elem_of_app. right. apply list_elem_of_fmap. by exists v.
  - intros tx c v Hh Hw t'. destruct (touches_volumes tx) eqn:Htx.
    2:{ destruct (plain_step now tx w Htx) as (_ & Hv & Hm & _). left. unfold held, t'. by rewrite Hv, Hm. }
    destruct tx; try done; unfold t'; cbn [tx_step tables]; fold t; clear t'.
    + by left.
    + left. unfold create_child. destruct (refusal new t); [done|]. destruct (repo_refusal trust new) as [[why []]|]; [by destruct (repo new)..|].
      destruct (volume_refusal _ _ _); [done|]. destruct Hh as [Hv Hm]. split; [done|]. cbn. apply elem_of_app. by left.
    + left. by apply create_spares.
    + left. apply delete_tool_spares; [apply (ok_volumes _ _ _ _ Hok)|done|done].
    + destruct (deletes w !! i) as [[id d]|]; [|by left]. cbn. unfold delete_subtree_rows. destruct (negb _); [by left|].
      set (t1 := match deleted_parent d with Some _ => _ | None => _ end).
      assert (rows_ok t1 ∧ held c v t1) as [Hok1 Hh1] by (unfold t1; destruct (deleted_parent d) as [p|]; [by destruct (exists_conv p _)|done]).
      destruct (deleted_spares id c v t1 Hok1 Hh1) as [H|[H|H]]; [by left|right; left|right; right]; by apply gone_is_gone.
Qed.
End Volumes.

(** ** A run *)

Definition no_cluster_trouble : Outside := Build_Outside [] None None (Some []).
Definition a_shared_volume : list (Z * Tx (V := unit)) :=
  [(1%Z, NewConversation); (2%Z, CreateVolume 1 (Some "cache") (Some "~/cache/") no_cluster_trouble);
   (3%Z, CreateChild (Build_NewChild 1 "the work" None None None 2 ["cache"]));
   (4%Z, DeleteVolume 1 (Some "cache") no_cluster_trouble)].
(** Its owner can't delete it while its agent starts, and can once the agent is stopped. *)
Lemma volumes_in_use_stay_witness :
  let t := tables (after a_shared_volume) in
  let v := Build_AgentVolume 1 1 "cache" "/home/sandbox/cache" in
  volumes t = [v] ∧ volumes (tables (after (app a_shared_volume [(5%Z, StopAgent 1 2); (6%Z, DeleteVolume 1 (Some "cache") no_cluster_trouble)]))) = []
  ∧ (held 2 v (tables (after (app a_shared_volume [(5%Z, DeleteVolume 1 (Some "cache") no_cluster_trouble)])))
     ∨ 2%Z ∉ (convs_shape (tables (after (app a_shared_volume [(5%Z, DeleteVolume 1 (Some "cache") no_cluster_trouble)])))).*1
     ∨ 1%Z ∉ (convs_shape (tables (after (app a_shared_volume [(5%Z, DeleteVolume 1 (Some "cache") no_cluster_trouble)])))).*1).
Proof.
  split; [by vm_compute|]. split; [by vm_compute|].
  apply (proj2 (volumes_in_use_stay id id id (λ _, None) (λ _ c, c) "" a_shared_volume 5) (DeleteVolume 1 (Some "cache") no_cluster_trouble) 2%Z (Build_AgentVolume 1 1 "cache" "/home/sandbox/cache")).
  - split; vm_compute; [left|right; left].
  - split; [done|]. eexists. split; [vm_compute; left|]. split; [done|]. vm_compute. left.
Defined.
