(* ===== verification/AgentTools.v ===== *)
(** * AgentTools: what starts, ends and moves agents

    The operations of [src/src/agents] above the transactions of [AgentTree]: the tools an
    agent calls, the user's stop and turns, the end of a start, the delete of a subtree and
    the startup's sweep.  Each passes the [Office]: the tables, the queries made so far and
    what was done besides (turns woken or stopped, tabs told, pods torn down).  Before each
    query others may commit ([others]), and each may fail, writing nothing ([faults]). *)

From S2P Require Import Prelude RustStr Notices McpCalls Models Questions Notify ChatPage SandboxDb PodMessages AgentTree VolumePaths AgentVolumes AgentGuarantees.
Local Open Scope string_scope.

(** ** Names and limits *)

Definition MAX_BRIEF_CHARS : nat := Z.to_nat 30000.
Definition MAX_REPORT_CHARS : nat := Z.to_nat 30000.
Definition MAX_MESSAGE_CHARS : nat := Z.to_nat 30000.
Definition DEFAULT_AGENT_DEPTH : Z := 5.
(** [parse::<i32>()] of a level count: a negative one is no count. *)
Definition agent_depth_from (setting : option string) : Z :=
  match setting with
  | None | Some EmptyString => DEFAULT_AGENT_DEPTH
  | Some s => match parse_unsigned 2147483647 s with Some levels => if (1 <=? levels)%Z then levels else DEFAULT_AGENT_DEPTH | None => DEFAULT_AGENT_DEPTH end
  end.
Definition persona_label (path : string) : option string :=
  rest ← strip_prefix "/workspace/" path;
  '(dir, file) ← split_once "/.agents/personas/" rest;
  name ← strip_suffix ".md" file;
  Some (dir +:+ ":" +:+ name).
Definition status (state : AgentState) (running waiting_for_user waiting_for_parent : bool) : string :=
  match state with
  | AGENT_STARTING => "starting"
  | AGENT_FAILED => "failed"
  | AGENT_STOPPED => "stopped"
  | _ =>
      if running then "running"
      else if waiting_for_user then "waiting for the user"
      else if waiting_for_parent then "waiting for its parent"
      else match state with AGENT_FINISHED => "finished" | _ => "idle" end
  end.
Definition label (id : Z) (persona : option string) : string :=
  match persona with
  | Some persona => "agent #" +:+ show_i64 id +:+ " (" +:+ persona +:+ ")"
  | None => "agent #" +:+ show_i64 id
  end.
Definition RESTARTED : string := "smelt restarted during the start".
Definition RESTARTED_MID_TURN : string := "smelt restarted during your turn; carry on".
Definition FAIL_START_ATTEMPTS : nat := 3.
(** A text argument within [max] characters, not blank. *)
Definition text_argument (field : string) (max : nat) (input : option string) : Result string string :=
  match input with
  | None => Err ("missing or non-string field: " +:+ field)
  | Some text =>
      let n := chars_count text in
      if is_blank text || (max <? n)%nat
      then Err (field +:+ " must be 1 to " +:+ show_i64 (Z.of_nat max) +:+ " characters (it has " +:+ show_i64 (Z.of_nat n) +:+ ")")
      else Ok text
  end.
(** [message_agent]'s [to], as JSON has it: a string, a number that may not be an [i64], or neither. *)
Inductive To := ToString (to : string) | ToNumber (to : option Z) | ToOther.
Definition WHICH : string := "to must be " +:+ quoted "parent" +:+ " or the id of one of your agents (list_agents lists them)".
Definition recipient (to : To) : Result Recipient string :=
  match to with
  | ToString to =>
      if String.eqb (trim to) "parent" then Ok Parent
      else match parse_i64 (drop_while (Ascii.eqb "#") (trim to)) with Some id => Ok (Child id) | None => Err WHICH end
  | ToNumber (Some id) => Ok (Child id)
  | _ => Err WHICH
  end.
#[export] Instance Deleting_eq_dec : EqDecision Deleting.
Proof. solve_decision. Defined.

(** ** The office *)

Inductive Effect :=
  | Wake (id : Z)                                  (* [turn::notify] with [Notice::Wake] *)
  | ConversationsChanged                           (* told to every tab *)
  | StopTurn (id : Z)                              (* [turn::stop_conversation] *)
  | StopFinishedPod (id : Z)
  | StopTurnNow (id : Z)
  | CloseBrowsing (id : Z)
  | TearDown (id : Z) (pods : list Z)
  | Forget (id : Z)                                (* its events, locks and runs *)
  | DeleteClaim (volume : Z)
  | DeleteCards (id : Z)
  | ReconcilePod (id : Z)
  | PublishRepos (id : Z)
  | NoteTrustCard (id : Z)
  | SpawnStart (child parent : Z).

Section Tools.
Context {V : Type} (content_of : string → string) (for_child : option V → option V) (debug : string → string) (trust : string → option bool)
  (add_tools : V → option V → option V) (db_error : string).
#[local] Abbreviation Tx := (Tx (V := V)).
#[local] Abbreviation World := (World (V := V)).
#[local] Abbreviation Tables := (Tables V).
Implicit Types t : Tables.
#[local] Abbreviation step := (tx_step content_of for_child debug trust add_tools db_error).
#[local] Abbreviation run := (tx_run content_of for_child debug trust add_tools db_error).

Record Env := {
  faults : nat → option string;
  others : nat → list (Z * Tx);
  clock : nat → Z;
  box : nat → SandboxDb;
  is_paused : Z → bool;
  has_card : Z → bool;
  text_of : string → string;
  has_cluster : bool;
}.
Record Office := { world : World; queries : nat; log : list Effect }.
#[local] Instance Office_eta : Eta Office := λ o, Build_Office (world o) (queries o) (log o).
Definition Act (A : Type) : Type := Env → Office → A * Office.
Definition pure {A} (x : A) : Act A := λ _ o, (x, o).
Definition bind {A B} (m : Act A) (k : A → Act B) : Act B := λ e o, let '(x, o) := m e o in k x e o.
#[local] Notation "'do!' x := m 'in' k" := (bind m (λ x, k)) (at level 200, x name, k at level 200).
Definition effect (f : Effect) : Act () := λ _ o, ((), o <| log ::= λ l, app l [f] |>).
Definition ask {A} (f : Env → A) : Act A := λ e o, (f e, o).
(** A query: what others commit first, then its transaction, if it has one, unless it fails. *)
Definition query {A} (tx : SandboxDb → Tables → option Tx) (result : Env → Z → SandboxDb → Tables → A) : Act (Result A string) := λ e o,
  let k := queries o in
  let w := run (others e k) (world o) in
  let o := o <| world := w |> <| queries ::= S |> in
  match faults e k with
  | Some error => (Err error, o)
  | None =>
      (Ok (result e (clock e k) (box e k) (tables w)),
       match tx (box e k) (tables w) with Some tx => o <| world := step (clock e k) tx w |> | None => o end)
  end.
Definition read {A} (f : Tables → A) : Act (Result A string) := query (λ _ _, None) (λ _ _ _ t, f t).
Definition write {A} (tx : Tx) (result : Z → Tables → A) : Act (Result A string) := query (λ _ _, Some tx) (λ _ now _ t, result now t).
Fixpoint each {A} (l : list A) (f : A → Act ()) : Act () :=
  match l with [] => pure () | x :: l => do! _ := f x in each l f end.

Definition label_of (id : Z) : Act string :=
  do! path := read (agent_persona_path id) in
  pure (label id (match path with Ok path => path ≫= persona_label | Err _ => None end)).

(** ** The tools *)

Definition running_text '((id, command, secs) : string * string * Z) : string :=
  id +:+ " (" +:+ shown_command command +:+ ", running for " +:+ format_duration secs +:+ ")".
Definition finish (child : Z) (input : option string) : Act (Result string string) :=
  match text_argument "report" MAX_REPORT_CHARS input with
  | Err e => pure (Err e)
  | Ok report =>
      do! me := label_of child in
      do! outcome := query (λ d _, Some (FinishAgent child me report d)) (λ _ now d t, fst (finish_agent now child me report d t)) in
      match outcome with
      | Err e => pure (Err ("couldn't send your report: " +:+ e))
      | Ok (ReportQueued parent) =>
          do! _ := effect (Wake parent) in
          pure (Ok "Your report was sent to your parent. Your turn ends here; the user may still write to you.")
      | Ok (AgentsRunning running) =>
          pure (Err ("you can't finish while your own agents still run: "
                     +:+ join ", " (map (λ '(id, s), label id None +:+ " (" +:+ state_text s +:+ ")") running)
                     +:+ ". Wait for their reports, or stop them with stop_agent, then finish"))
      | Ok (CommandsRunning commands) =>
          pure (Err ("you can't finish while your terminal commands still run: " +:+ join ", " (map running_text commands)
                     +:+ ". End them with send_signal, or end your turn — each command's finished notice will wake you — then finish"))
      | Ok MessageWaiting => pure (Err "a message arrived since your last step; read it, then finish")
      | Ok (NotActive (Some AGENT_FINISHED)) =>
          do! me := label_of child in
          do! outcome := write (ReportAfterFinish child me report) (λ now t, fst (report_after_finish now child me report t)) in
          match outcome with
          | Err e => pure (Err ("couldn't send your report: " +:+ e))
          | Ok (FollowUpQueued parent) =>
              do! _ := effect (Wake parent) in
              pure (Ok "Your report was sent to your parent. You had already finished, so it arrives as a follow-up to your first report. To wait on a running command, end your turn instead — the command's finished notice will wake you. Your turn ends here.")
          | Ok (StateChanged s) => pure (Err ("you can't finish now (your state is " +:+ state_text s +:+ ")"))
          | Ok Gone => pure (Err "your parent is gone, so there's no one to report to")
          end
      | Ok (NotActive (Some AGENT_STOPPED)) => pure (Err "you were stopped by your parent, so there's no one to report to")
      | Ok (NotActive s) =>
          pure (Err ("you can't finish now (your state is " +:+ match s with Some s => state_text s | None => "unknown" end +:+ ")"))
      end
  end.
Definition stop_agent (caller : Z) (input : option Z) : Act (Result string string) :=
  match input with
  | None => pure (Err "missing or non-integer field: id")
  | Some id =>
      do! outcome := write (StopAgent caller id) (λ now t, fst (stop_subtree now caller id t)) in
      match outcome with
      | Err e => pure (Err ("couldn't stop agent #" +:+ show_i64 id +:+ ": " +:+ e))
      | Ok NotYourChild => pure (Err ("#" +:+ show_i64 id +:+ " isn't one of your agents (list_agents lists them)"))
      | Ok (AlreadyEnded s) => pure (Ok ("agent #" +:+ show_i64 id +:+ " was already " +:+ state_text s))
      | Ok (SubtreeStopped subtree) =>
          do! _ := each subtree (λ id, effect (StopTurn id)) in
          do! _ := effect ConversationsChanged in
          pure (Ok (let under := (Z.of_nat (length subtree) - 1)%Z in
                    "Stopped agent #" +:+ show_i64 id
                    +:+ (if (under =? 0)%Z then "." else if (under =? 1)%Z then " and 1 agent under it."
                         else " and " +:+ show_i64 under +:+ " agents under it.")))
      end
  end.
Definition user_stopped (child : Z) : Act () :=
  do! parent := read (conversation_parent child) in
  match parent with
  | Ok (Some parent) =>
      do! label := label_of child in
      let body := "the user stopped " +:+ label +:+ "; it carries on if the user writes to it, or call stop_agent to end it" in
      do! queued := write (QueueNotice parent child label body) (λ _ _, ()) in
      match queued with Ok _ => effect (Wake parent) | Err _ => pure () end
  | _ => pure ()
  end.
Definition user_stop (id : Z) : Act (Result () string) :=
  do! state := read (agent_state id) in
  let state := match state with Ok state => state | Err _ => None end in
  if bool_decide (state = Some AGENT_STARTING)
  then pure (Err "This agent is still starting: stop it with stop_agent from its parent, or delete it.")
  else
    do! was_paused := ask (λ e, is_paused e id) in
    do! _ := effect (StopTurn id) in
    do! _ := if bool_decide (state = Some AGENT_ACTIVE) && negb was_paused then user_stopped id else pure () in
    pure (Ok ()).
Definition after_last_turn (id : Z) (why : option string) : Act () :=
  do! state := read (agent_state id) in
  match state with
  | Ok (Some AGENT_FINISHED) => effect (StopFinishedPod id)
  | _ =>
      do! idle := query (λ _ _, None) (λ e _ d t, idle_agent_without_report (has_card e) (text_of e) id d t) in
      do! paused := ask (λ e, is_paused e id) in
      match idle with
      | Ok (Some (parent, last)) =>
          if paused then pure ()
          else
            do! label := label_of id in
            let why := match why with Some why => " (" +:+ why +:+ ")" | None => "" end in
            let body := label +:+ "'s turn ended without a report" +:+ why +:+ "; its last message: " +:+ last in
            do! queued := write (QueueNotice parent id label body) (λ _ _, ()) in
            match queued with Ok _ => effect (Wake parent) | Err _ => pure () end
      | _ => pure ()
      end
  end.

(** *** Messages *)

Definition message_agent (caller : Z) (to : To) (text : option string) : Act (Result string string) :=
  match and_then (recipient to) (λ to, and_then (text_argument "text" MAX_MESSAGE_CHARS text) (λ text, Ok (to, text))) with
  | Err e => pure (Err e)
  | Ok (to, text) =>
      do! label := match to with Parent => label_of caller | Child _ => pure "your parent" end in
      do! outcome := write (MessageAgent caller to label text) (λ now t, fst (AgentTree.message_agent now caller to label text t)) in
      match outcome with
      | Err e => pure (Err ("couldn't send the message: " +:+ e))
      | Ok (MessageQueued recipient) =>
          do! _ := effect ConversationsChanged in
          do! _ := effect (Wake recipient) in
          pure (Ok (match to with Parent => "Sent to your parent." | Child id => "Sent to agent #" +:+ show_i64 id +:+ "." end))
      | Ok (Answered child) =>
          do! _ := effect ConversationsChanged in
          do! _ := effect (Wake child) in
          pure (Ok ("Agent #" +:+ show_i64 child +:+ " was waiting for your answer: it has it now."))
      | Ok NoParent => pure (Err ("you have no parent: to is " +:+ quoted "parent" +:+ " only for an agent"))
      | Ok (NotMyChild id) => pure (Err ("#" +:+ show_i64 id +:+ " isn't one of your agents (list_agents lists them)"))
      | Ok (AgentTree.Deleted id) => pure (Err ("agent #" +:+ show_i64 id +:+ " was deleted"))
      | Ok (Ended id AGENT_FAILED) => pure (Err ("agent #" +:+ show_i64 id +:+ "'s start failed"))
      | Ok (Ended id s) => pure (Err ("agent #" +:+ show_i64 id +:+ " is " +:+ state_text s +:+ "; it takes no messages unless the user writes to it"))
      end
  end.
Definition ask_parent (child : Z) (use : string) (question : option string) : Act (Result () string) :=
  match text_argument "question" MAX_MESSAGE_CHARS question with
  | Err e => pure (Err e)
  | Ok question =>
      do! label := label_of child in
      do! outcome := write (AskParentTx child use question label) (λ now t, fst (AgentTree.ask_parent now child use question label t)) in
      match outcome with
      | Err e => pure (Err ("couldn't ask your parent: " +:+ e))
      | Ok (Asked parent) => do! _ := effect (Wake parent) in pure (Ok ())
      | Ok AskerHasNoParent => pure (Err (ASK_PARENT +:+ " is only for an agent"))
      | Ok (AskerNotActive (Some AGENT_STOPPED)) => pure (Err "you were stopped by your parent, so there's no one to ask")
      | Ok (AskerNotActive s) =>
          pure (Err ("you can't ask your parent now (your state is " +:+ match s with Some s => state_text s | None => "unknown" end +:+ ")"))
      | Ok (ParentEnded why) => pure (Err ("your parent takes no questions: it's " +:+ why))
      end
  end.

(** *** The user's turns, and wakes *)

Definition admit_user_turn (id : Z) : Act (Result () string) :=
  let unread e := Err ("couldn't read the agent's state: " +:+ e) in
  do! state := read (agent_state id) in
  match state with
  | Err e => pure (unread e)
  | Ok None | Ok (Some AGENT_ACTIVE) => pure (Ok ())
  | Ok (Some AGENT_STARTING) => pure (Err "This agent is still starting.")
  | Ok (Some AGENT_FAILED) => pure (Err "This agent's start failed; start a new one.")
  | Ok (Some _) =>
      do! again := write (Reactivate id) (λ now t, fst (reactivate_agent now id t)) in
      match again with
      | Err e => pure (Err ("couldn't make the agent active again: " +:+ e))
      | Ok true => pure (Ok ())
      | Ok false =>
          do! state := read (agent_state id) in
          pure match state with
               | Err e => unread e
               | Ok (Some AGENT_STOPPED) => Err "This agent was stopped while it was starting; start a new one."
               | Ok (Some AGENT_FAILED) => Err "This agent's start failed; start a new one."
               | Ok _ => Ok ()
               end
      end
  end.
Definition resume_finished (id : Z) : Act () :=
  do! _ := write (ReactivateFinished id) (λ _ _, ()) in pure ().
Definition confirm_user_turn (id : Z) : Act (Result () string) :=
  do! state := read (agent_state id) in
  pure match state with
       | Ok (Some AGENT_STOPPED) => Err "This agent was stopped by its parent."
       | Ok (Some (AGENT_FAILED as s)) | Ok (Some (AGENT_STARTING as s)) =>
           Err ("This agent can't take a message now (it's " +:+ state_text s +:+ ").")
       | _ => Ok ()
       end.
Definition admits_notices (id : Z) : Act bool :=
  do! state := read (agent_state id) in
  pure match state with Ok (Some (AGENT_STARTING | AGENT_STOPPED | AGENT_FAILED)) => false | _ => true end.

(** ** Starts *)

(** [create_and_start]: in a task of its own, so nothing comes between the commit and the rest. *)
Definition create_and_start (new : NewChild) : Act (Result AgentTree.CreateChild string) :=
  do! created := write (CreateChild new) (λ now t, fst (create_child content_of for_child debug trust now new t)) in
  match created with
  | Ok (Created child) =>
      do! _ := effect ConversationsChanged in
      do! _ := effect (SpawnStart child (caller new)) in
      pure created
  | Ok (Refused _ true) =>
      do! _ := effect (PublishRepos (caller new)) in
      do! _ := effect (NoteTrustCard (caller new)) in
      pure created
  | _ => pure created
  end.
(** The write of a failed start, tried again while it errors. *)
Fixpoint fail_start_attempts (n : nat) (child parent : Z) (label text : string) : Act (Result bool string) :=
  match n with
  | O => pure (Err "")
  | S n =>
      do! written := write (FailStart child parent label text) (λ now t, fst (AgentTree.fail_start content_of now child parent label text t)) in
      match written, n with
      | Err _, S _ => fail_start_attempts n child parent label text
      | _, _ => pure written
      end
  end.
(** The error a start ends with, and whether it was written. *)
Definition fail_start (child parent : Z) (error : string) : Act bool :=
  let label := label child None in
  let text := label +:+ "'s start failed: " +:+ error in
  do! written := fail_start_attempts FAIL_START_ATTEMPTS child parent label text in
  match written with
  | Ok true =>
      do! _ := effect (Wake parent) in
      do! _ := effect ConversationsChanged in
      pure true
  | _ => pure false
  end.
Definition end_start (child : Z) (done : bool) : Act () :=
  do! _ := if done then pure ()
           else
             do! deleted := query (λ _ _, None) (λ e _ _ _, has_card e child) in
             do! _ := match deleted with
                      | Ok true => do! _ := effect (DeleteCards child) in effect (PublishRepos child)
                      | _ => pure ()
                      end in
             do! _ := write (ClearCredentials child) (λ _ _, ()) in
             pure () in
  effect (ReconcilePod child).
Definition start_notice : string :=
  "Your start is done: work on the brief above. When your work is done, call finish with your report. The user can also write to you here.".
(** What a start's steps found ([prepare], whose clone and reads are outside) or their error,
    and the error of writing its credentials into its pod. *)
Record Prepared := { found_persona : option (PersonaSnapshot V); found_model : option (Z * string); found_notice : option string }.
Definition run_start (child parent : Z) (prepared : Result Prepared string) (reconciled : option string) : Act () :=
  match prepared, reconciled with
  | Err error, _ => do! _ := fail_start child parent error in end_start child false
  | Ok _, Some error =>
      do! _ := effect (ReconcilePod child) in
      do! _ := fail_start child parent ("couldn't write its credentials into its pod: " +:+ error) in
      end_start child false
  | Ok p, None =>
      do! _ := effect (ReconcilePod child) in
      let label := label child (found_persona p ≫= λ s, persona_label (path s)) in
      let done := Build_StartDone start_notice (found_persona p) (found_model p) (found_notice p) label in
      do! completed := write (CompleteStart child parent done) (λ now t, fst (complete_start add_tools now child parent done t)) in
      match completed with
      | Ok true => do! _ := effect (Wake child) in end_start child true
      | Ok false => end_start child false
      | Err e => do! _ := fail_start child parent ("couldn't complete the start: " +:+ e) in end_start child false
      end
  end.

(** *** The startup's sweep *)

Definition notify_cut_off_turns : Act () :=
  do! _ := write (RestartNotices RESTARTED_MID_TURN) (λ _ _, ()) in pure ().
Definition sweep_one (start : Z * Z) : Act () :=
  let '(child, parent) := start in
  do! _ := fail_start child parent RESTARTED in
  end_start child false.
Definition startup_sweep : Act () :=
  do! starting := read starting_agents in
  do! _ := match starting with
           | Ok starting =>
               each starting sweep_one
           | Err _ => pure ()
           end in
  do! _ := notify_cut_off_turns in
  do! ids := read conversations_with_queued_messages in
  match ids with
  | Ok ids => each ids (λ id, effect (Wake id))
  | Err _ => pure ()
  end.

(** ** Deleting a conversation and all under it *)

Definition position (id : Z) (d : Deleting) (w : World) : option nat :=
  fst <$> list_find (λ x, x = (id, d)) (deletes w).
(** The mark's delete, done or undone: it is one of the world's. *)
Definition on_mark (id : Z) (d : Deleting) (tx : nat → Tx) : Act (Result () string) := λ e o,
  let k := queries o in
  let w := run (others e k) (world o) in
  let o := o <| world := w |> <| queries ::= S |> in
  match faults e k with
  | Some error => (Err error, o)
  | None => (Ok (), match position id d w with Some i => o <| world := step (clock e k) (tx i) w |> | None => o end)
  end.
Definition end_turns_of (id : Z) : Act (Z * list Z) :=
  do! _ := effect (StopTurnNow id) in
  do! _ := effect (CloseBrowsing id) in
  do! pods := query (λ _ _, None) (λ _ _ d _, map pod_row (list_sandbox_pods id d)) in
  pure (id, match pods with Ok pods => pods | Err _ => [] end).
Fixpoint map_act {A B} (l : list A) (f : A → Act B) : Act (list B) :=
  match l with [] => pure [] | x :: l => do! y := f x in do! ys := map_act l f in pure (y :: ys) end.
Definition delete_subtree (id : Z) : Act (Result () string) :=
  do! marked := query (λ _ _, Some (MarkDeleting id)) (λ _ now _ t, fst (mark_subtree_deleting now id t)) in
  match marked with
  | Err e => pure (Err e)
  | Ok None => do! _ := effect (Forget id) in pure (Ok ())
  | Ok (Some d) =>
      do! pods := map_act (subtree d) end_turns_of in
      do! label := label_of id in
      do! volume_ids := read (agent_volume_ids_of (subtree d)) in
      let volume_ids := match volume_ids with Ok ids => ids | Err _ => [] end in
      do! deleted := on_mark id d (λ i, DeleteRows i label) in
      match deleted with
      | Err e => do! _ := on_mark id d Unmark in pure (Err e)
      | Ok () =>
          do! _ := match deleted_parent d with Some parent => effect (Wake parent) | None => pure () end in
          do! _ := each pods (λ '(id, pods), do! _ := effect (TearDown id pods) in effect (Forget id)) in
          do! _ := match volume_ids with
                   | [] => pure ()
                   | ids =>
                       do! cluster := ask has_cluster in
                       if cluster
                       then
                         do! instance := query (λ _ _, None) (λ _ _ _ _, ()) in
                         match instance with Ok _ => each ids (λ v, effect (DeleteClaim v)) | Err _ => pure () end
                       else pure ()
                   end in
          pure (Ok ())
      end
  end.

(** ** Every operation is a run of transactions *)

Definition transacts {A} (a : Act A) : Prop := ∀ e o, ∃ txs, world (snd (a e o)) = run txs (world o).
Lemma pure_transacts {A} (x : A) : transacts (pure x).
Proof. intros e o. by exists []. Qed.
Lemma effect_transacts f : transacts (effect f).
Proof. intros e o. by exists []. Qed.
Lemma ask_transacts {A} (f : Env → A) : transacts (ask f).
Proof. intros e o. by exists []. Qed.
Lemma bind_transacts {A B} (m : Act A) (k : A → Act B) : transacts m → (∀ x, transacts (k x)) → transacts (bind m k).
Proof.
  intros Hm Hk e o. unfold bind. destruct (Hm e o) as [l1 H1]. destruct (m e o) as [x o1]. destruct (Hk x e o1) as [l2 H2]. exists (app l1 l2).
  cbn in H1. by rewrite H2, H1, tx_run_app.
Qed.
Lemma query_transacts {A} tx (result : Env → Z → SandboxDb → Tables → A) : transacts (query tx result).
Proof.
  intros e o. unfold query. set (w := run (others e (queries o)) (world o)). destruct (faults e (queries o)); [by exists (others e (queries o))|].
  destruct (tx (box e (queries o)) (tables w)) as [x|]; [|by exists (others e (queries o))]. exists (app (others e (queries o)) [(clock e (queries o), x)]). by rewrite tx_run_app.
Qed.
Lemma on_mark_transacts id d tx : transacts (on_mark id d tx).
Proof.
  intros e o. unfold on_mark. set (w := run (others e (queries o)) (world o)). destruct (faults e (queries o)); [by exists (others e (queries o))|].
  destruct (position id d w) as [i|]; [|by exists (others e (queries o))]. exists (app (others e (queries o)) [(clock e (queries o), tx i)]). by rewrite tx_run_app.
Qed.
Create HintDb office.
#[local] Hint Resolve pure_transacts effect_transacts ask_transacts query_transacts on_mark_transacts : office.
(** Binds, and cases of what came before. *)
Lemma each_transacts {A} (l : list A) f : (∀ x, transacts (f x)) → transacts (each l f).
Proof. intros Hf. induction l as [|x l IH]; cbn; [apply pure_transacts|by apply bind_transacts]. Qed.
Lemma map_act_transacts {A B} (l : list A) (f : A → Act B) : (∀ x, transacts (f x)) → transacts (map_act l f).
Proof.
  intros Hf. induction l as [|x l IH]; cbn; [apply pure_transacts|]. apply bind_transacts; [done|]. intros y. apply bind_transacts; [done|]. intros ys. apply pure_transacts.
Qed.
Ltac acts := repeat first
  [ lazymatch goal with |- ∀ _, _ => intros end
  | solve [auto 1 with office nocore]
  | lazymatch goal with
    | |- transacts (bind _ _) => apply bind_transacts
    | |- transacts (each _ _) => apply each_transacts
    | |- transacts (map_act _ _) => apply map_act_transacts
    | |- transacts (let '(_, _) := ?x in _) => destruct x
    | |- transacts (match ?x with _ => _ end) => destruct x
    end ].
Lemma label_transacts id : transacts (label_of id).
Proof. unfold label_of, read. acts. Qed.
#[local] Hint Resolve label_transacts : office.
Lemma attempts_transact n child parent label text : transacts (fail_start_attempts n child parent label text).
Proof. induction n as [|n IH]; cbn; unfold write; acts. Qed.
#[local] Hint Resolve attempts_transact : office.
Lemma fail_start_transacts child parent error : transacts (fail_start child parent error).
Proof. unfold fail_start. acts. Qed.
Lemma end_start_transacts child done : transacts (end_start child done).
Proof. unfold end_start, write. acts. Qed.
Lemma end_turns_transacts id : transacts (end_turns_of id).
Proof. unfold end_turns_of. acts. Qed.
Lemma user_stopped_transacts id : transacts (user_stopped id).
Proof. unfold user_stopped, read, write. acts. Qed.
#[local] Hint Resolve fail_start_transacts end_start_transacts end_turns_transacts user_stopped_transacts : office.

Inductive Operation :=
  | Finish (child : Z) (report : option string)
  | StopAnAgent (caller : Z) (id : option Z)
  | UserStop (id : Z)
  | AfterLastTurn (id : Z) (why : option string)
  | Message (caller : Z) (to : To) (text : option string)
  | Ask (child : Z) (use : string) (question : option string)
  | AdmitUserTurn (id : Z)
  | ResumeFinished (id : Z)
  | ConfirmUserTurn (id : Z)
  | AdmitsNotices (id : Z)
  | Create (new : NewChild)
  | RunStart (child parent : Z) (prepared : Result Prepared string) (reconciled : option string)
  | Sweep
  | DeleteSubtree (id : Z).
Definition perform (p : Operation) : Act () :=
  let done {A} (a : Act A) : Act () := do! _ := a in pure () in
  match p with
  | Finish child report => done (finish child report)
  | StopAnAgent caller id => done (stop_agent caller id)
  | UserStop id => done (user_stop id)
  | AfterLastTurn id why => after_last_turn id why
  | Message caller to text => done (message_agent caller to text)
  | Ask child use question => done (ask_parent child use question)
  | AdmitUserTurn id => done (admit_user_turn id)
  | ResumeFinished id => resume_finished id
  | ConfirmUserTurn id => done (confirm_user_turn id)
  | AdmitsNotices id => done (admits_notices id)
  | Create new => done (create_and_start new)
  | RunStart child parent prepared reconciled => run_start child parent prepared reconciled
  | Sweep => startup_sweep
  | DeleteSubtree id => done (delete_subtree id)
  end.
Fixpoint office_run (ps : list (Env * Operation)) (o : Office) : Office :=
  match ps with [] => o | (e, p) :: ps => office_run ps (snd (perform p e o)) end.
Lemma perform_transacts p : transacts (perform p).
Proof.
  destruct p; cbn [perform]; unfold finish, stop_agent, user_stop, after_last_turn, message_agent, ask_parent, admit_user_turn, resume_finished, confirm_user_turn,
    admits_notices, create_and_start, run_start, startup_sweep, sweep_one, notify_cut_off_turns, delete_subtree, read, write; acts.
Qed.
Lemma office_runs ps o : ∃ txs, world (office_run ps o) = run txs (world o).
Proof.
  revert o. induction ps as [|[e p] ps IH]; intros o; [by exists []|]. cbn. destruct (perform_transacts p e o) as [l1 H1], (IH (snd (perform p e o))) as [l2 H2].
  exists (app l1 l2). by rewrite H2, H1, tx_run_app.
Qed.

(** ** Whoever is written to is woken *)

Definition alone (e : Env) : Prop := ∀ k, others e k = [].
Definition letters t : list (Z * Z) := map (λ q, (queued q, to_ q)) (queue t).
(** Of the rows that are new, each one's recipient was woken. *)
Definition told (o o' : Office) : Prop :=
  (∀ f, f ∈ log o → f ∈ log o')
  ∧ ∀ r, r ∈ letters (tables (world o')) → r ∈ letters (tables (world o)) ∨ Wake (snd r) ∈ log o'.
Definition tells {A} (a : Act A) : Prop := ∀ e o, alone e → told o (snd (a e o)).
Lemma told_same o o' : letters (tables (world o')) = letters (tables (world o)) → (∀ f, f ∈ log o → f ∈ log o') → told o o'.
Proof. intros Hw Hl. split; [done|]. rewrite Hw. auto. Qed.
Lemma told_trans o1 o2 o3 : told o1 o2 → told o2 o3 → told o1 o3.
Proof. intros [L1 N1] [L2 N2]. split; [auto|]. intros r [Hr|Hr]%N2; [|by right]. destruct (N1 r Hr) as [H|H]; [by left|right; auto]. Qed.
Lemma pure_tells {A} (x : A) : tells (pure x).
Proof. intros e o _. by apply told_same. Qed.
Lemma effect_tells f : tells (effect f).
Proof. intros e o _. apply told_same; [done|]. intros g Hg. cbn. set_solver. Qed.
Lemma ask_tells {A} (f : Env → A) : tells (ask f).
Proof. intros e o _. by apply told_same. Qed.
Lemma bind_tells {A B} (m : Act A) (k : A → Act B) : tells m → (∀ x, tells (k x)) → tells (bind m k).
Proof.
  intros Hm Hk e o He. unfold bind. pose proof (Hm e o He) as H1. destruct (m e o) as [x o1]. eapply told_trans; [exact H1|]. by apply Hk.
Qed.
Lemma read_tells {A} (f : Env → Z → SandboxDb → Tables → A) : tells (query (λ _ _, None) f).
Proof. intros e o He. unfold query. rewrite He. destruct (faults e (queries o)); by apply told_same. Qed.
(** A transaction that queues nothing. *)
Lemma quiet_tells {A} tx (f : Env → Z → SandboxDb → Tables → A) : (∀ now d w x, tx d (tables w) = Some x → letters (tables (step now x w)) = letters (tables w)) →
  tells (query tx f).
Proof.
  intros Hq e o He. unfold query. rewrite He. cbn [tx_run]. destruct (faults e (queries o)); [by apply told_same|].
  destruct (tx _ _) as [x|] eqn:Hx; [|by apply told_same]. apply told_same; [by eapply Hq|done].
Qed.
(** One whose new rows are all to [to]'s, of its outcome; what follows wakes it. *)
Lemma write_tells {A B} tx (f : Env → Z → SandboxDb → Tables → A) (k : Result A string → Act B) (to : A → option Z) :
  (∀ e now d w, match tx d (tables w) with
                | Some x => ∀ r, r ∈ letters (tables (step now x w)) → r ∈ letters (tables w) ∨ to (f e now d (tables w)) = Some (snd r)
                | None => True
                end) →
  (∀ x, tells (k x)) →
  (∀ x p e o, to x = Some p → Wake p ∈ log (snd (k (Ok x) e o))) →
  tells (bind (query tx f) k).
Proof.
  intros Hnew Hk Hwake e o He. unfold bind, query. rewrite He. cbn [tx_run]. destruct (faults e (queries o)).
  - eapply told_trans; [|by apply Hk]. by apply told_same.
  - set (w := world o). set (x := f e (clock e (queries o)) (box e (queries o)) (tables w)).
    specialize (Hnew e (clock e (queries o)) (box e (queries o)) w). fold x in Hnew.
    destruct (tx (box e (queries o)) (tables w)) as [y|]; [|eapply told_trans; [|by apply Hk]; by apply told_same].
    set (o1 := _ <| world := step _ _ _ |>). destruct (Hk (Ok x) e o1 He) as [L N]. split; [intros g Hg; by apply L|].
    intros r [Hr|Hr]%N; [|by right]. destruct (Hnew r Hr) as [H|H]; [by left|right]. by apply Hwake.
Qed.
Lemma each_tells {A} (l : list A) f : (∀ x, tells (f x)) → tells (each l f).
Proof. intros Hf. induction l as [|x l IH]; cbn; [apply pure_tells|by apply bind_tells]. Qed.
Lemma map_act_tells {A B} (l : list A) (f : A → Act B) : (∀ x, tells (f x)) → tells (map_act l f).
Proof.
  intros Hf. induction l as [|x l IH]; cbn; [apply pure_tells|]. apply bind_tells; [done|]. intros y. apply bind_tells; [done|]. intros ys. apply pure_tells.
Qed.
#[local] Hint Resolve pure_tells effect_tells ask_tells read_tells : office.
Ltac tell := repeat first
  [ lazymatch goal with |- ∀ _, _ => intros end
  | solve [auto 1 with office nocore]
  | lazymatch goal with
    | |- tells (each _ _) => apply each_tells
    | |- tells (map_act _ _) => apply map_act_tells
    | |- tells (let '(_, _) := ?x in _) => destruct x
    | |- tells (bind (write (ClearCredentials _) _) _) => apply bind_tells
    | |- tells (bind (write _ _) _) => fail
    | |- tells (bind (query (λ _ _, Some _) _) _) => fail
    | |- tells (bind _ _) => apply bind_tells
    | |- tells (match ?x with _ => _ end) => destruct x
    end ].
Lemma label_tells id : tells (label_of id).
Proof. unfold label_of, read. tell. Qed.
#[local] Hint Resolve label_tells : office.

(** *** The rows each transaction makes *)

Lemma queued_known now to from lb kd body t r : r ∈ letters (queue_agent_message now to from lb kd body t) → r ∈ letters t ∨ Some to = Some (snd r).
Proof. unfold letters, queue_agent_message. cbn. rewrite map_app. intros [H|H%list_elem_of_singleton]%elem_of_app; [by left|right; by subst r]. Qed.
Lemma finish_known now child lb report d t r : r ∈ letters (snd (finish_agent now child lb report d t)) →
  r ∈ letters t ∨ match fst (finish_agent now child lb report d t) with ReportQueued p => Some p | _ => None end = Some (snd r).
Proof.
  unfold finish_agent. destruct (conversation_parent child t) as [p|]; [|by left]. destruct (negb _); [by left|].
  assert (letters (snd (set_state now (is_id child) [AGENT_ACTIVE] AGENT_FINISHED t)) = letters t) as Hk by done.
  destruct (set_state _ _ _ _ t) as [[] t']; cbn [negb]; [|by left]. cbn [snd] in Hk. destruct (running_commands _ _ _); [|by left].
  destruct (children_in _ _ t'); [|by left]. destruct (unread_by child t'); [by left|]. cbn [fst snd]. intros Hr. apply queued_known in Hr. by rewrite Hk in Hr.
Qed.
Lemma follow_known now child lb report t r : r ∈ letters (snd (report_after_finish now child lb report t)) →
  r ∈ letters t ∨ match fst (report_after_finish now child lb report t) with FollowUpQueued p => Some p | _ => None end = Some (snd r).
Proof.
  unfold report_after_finish. destruct (conversation_parent child t) as [p|]; [|by left]. destruct (negb _); [by left|].
  destruct (agent_state child t) as [[]|]; try (by left). apply queued_known.
Qed.
Lemma message_known now caller to lb text t r : r ∈ letters (snd (AgentTree.message_agent now caller to lb text t)) →
  r ∈ letters t ∨ match fst (AgentTree.message_agent now caller to lb text t) with MessageQueued p => Some p | _ => None end = Some (snd r).
Proof.
  unfold AgentTree.message_agent. destruct (recipient_of caller to t) as [p|]; [|by left]. destruct (negb _); [by left|]. destruct (is_some _); [by left|].
  destruct (agent_state p t) as [[]|]; try (by left); (destruct (match to with Child _ => _ | Parent => _ end); [by left|]); cbn [fst snd]; intros Hr; by apply queued_known in Hr.
Qed.
Lemma ask_known now child use question lb t r : r ∈ letters (snd (AgentTree.ask_parent now child use question lb t)) →
  r ∈ letters t ∨ match fst (AgentTree.ask_parent now child use question lb t) with Asked p => Some p | _ => None end = Some (snd r).
Proof.
  unfold AgentTree.ask_parent. destruct (conversation_parent child t) as [p|]; [|by left]. do 3 (destruct (negb _) || destruct (is_some _); [by left|]).
  destruct (agent_state p t) as [[]|]; try (by left); cbn [fst snd]; intros Hr; by apply queued_known in Hr.
Qed.
Lemma failed_known now child parent lb text t r : r ∈ letters (snd (AgentTree.fail_start content_of now child parent lb text t)) →
  r ∈ letters t ∨ (if fst (AgentTree.fail_start content_of now child parent lb text t) then Some parent else None) = Some (snd r).
Proof.
  unfold AgentTree.fail_start. assert (letters (snd (set_state now (is_id child) [AGENT_STARTING] AGENT_FAILED t)) = letters t) as Hk by done.
  destruct (set_state _ _ _ _ t) as [failed t']. cbn [snd] in Hk. destruct (negb _); [by left|]. cbn [fst snd]. intros Hr.
  change (r ∈ letters (queue_agent_message now parent (Some child) lb KIND_REPORT text t')) in Hr. apply queued_known in Hr. by rewrite Hk in Hr.
Qed.

(** *** The operations *)

Lemma finish_tells child input : tells (finish child input).
Proof.
  unfold finish. destruct (text_argument _ _ input) as [report|]; [|tell]. apply bind_tells; [tell|]. intros me.
  apply (write_tells _ _ _ (λ x, match x with ReportQueued p => Some p | _ => None end)).
  - intros e now d w r. apply finish_known.
  - intros [[p|[[]|]| |running|running]|error]; tell. unfold write.
    apply (write_tells _ _ _ (λ x, match x with FollowUpQueued p => Some p | _ => None end)).
    + intros e' now d w r. apply follow_known.
    + tell.
    + intros [q| |] p e' o; intros [= ->]. cbn. set_solver.
  - intros [q| | | |] p e o; intros [= ->]. cbn. set_solver.
Qed.
Lemma notice_tells to from lb body : tells (do! queued := write (QueueNotice to from lb body) (λ _ _, ()) in match queued with Ok _ => effect (Wake to) | Err _ => pure () end).
Proof.
  apply (write_tells _ _ _ (λ _, Some to)); [intros e now d w r; apply queued_known|tell|]. intros [] p e o; intros [= ->]. cbn. set_solver.
Qed.
#[local] Hint Resolve notice_tells : office.
Lemma user_stop_tells id : tells (user_stop id).
Proof. unfold user_stop, user_stopped, read. tell. Qed.
Lemma last_turn_tells id why : tells (after_last_turn id why).
Proof. unfold after_last_turn, read. tell. Qed.
Lemma message_tells caller to text : tells (message_agent caller to text).
Proof.
  unfold message_agent. destruct (and_then _ _) as [[to' text']|]; [|tell]. apply bind_tells; [tell|]. intros lb.
  apply (write_tells _ _ _ (λ x, match x with MessageQueued p => Some p | _ => None end)); [intros e now d w r; apply message_known|tell|].
  intros [q| | | | |] p e o; intros [= ->]. cbn. set_solver.
Qed.
Lemma ask_parent_tells child use question : tells (ask_parent child use question).
Proof.
  unfold ask_parent. destruct (text_argument _ _ question) as [q|]; [|tell]. apply bind_tells; [tell|]. intros lb.
  apply (write_tells _ _ _ (λ x, match x with Asked p => Some p | _ => None end)); [intros e now d w r; apply ask_known|tell|].
  intros [p'| | |] p e o; intros [= ->]. cbn. set_solver.
Qed.
(** A start's failure is written by the last of its attempts, if at all. *)
Lemma attempts_told n child parent lb text e o : alone e →
  let '(r, o') := fail_start_attempts n child parent lb text e o in
  log o' = log o ∧ ∀ x, x ∈ letters (tables (world o')) → x ∈ letters (tables (world o)) ∨ (r = Ok true ∧ snd x = parent).
Proof.
  intros He. revert o. induction n as [|n IH]; intros o; cbn [fail_start_attempts]; [split; [done|by left]|]. unfold write, bind, query. rewrite He. cbn [tx_run].
  destruct (faults e (queries o)) as [error|]; cbn.
  - destruct n as [|n]; [split; [done|by left]|]. exact (IH (o <| world := world o |> <| queries ::= S |>)).
  - split; [done|]. intros x Hx. apply failed_known in Hx as [Hx|Hx]; [by left|right]. destruct (fst _); [|done]. injection Hx as <-. done.
Qed.
Lemma fail_start_tells child parent error : tells (fail_start child parent error).
Proof.
  intros e o He. unfold fail_start, bind. pose proof (attempts_told FAIL_START_ATTEMPTS child parent (label child None) (label child None +:+ "'s start failed: " +:+ error) e o He) as H.
  destruct (fail_start_attempts _ _ _ _ _ e o) as [r o1]. destruct H as [Hl Hn]. destruct r as [[]|]; cbn; (split; [intros f Hf; cbn; rewrite Hl; set_solver|]); intros x Hx;
    destruct (Hn x Hx) as [H|[Hr Hp]]; try (by left); try done. right. cbn. rewrite Hp. set_solver.
Qed.
Lemma clear_tells child : tells (write (ClearCredentials child) (λ _ _, ())).
Proof. apply quiet_tells. intros now d w x [= <-]. done. Qed.
#[local] Hint Resolve clear_tells fail_start_tells : office.
Lemma end_start_tells child done : tells (end_start child done).
Proof. unfold end_start. tell. Qed.
Lemma end_turns_tells id : tells (end_turns_of id).
Proof. unfold end_turns_of. tell. Qed.
#[local] Hint Resolve end_start_tells end_turns_tells : office.
Lemma deleted_known id t r : r ∈ letters (delete_conversation id t) → r ∈ letters t.
Proof.
  intros (q & -> & (q0 & -> & [Hq _]%elem_list_filter)%list_elem_of_fmap)%list_elem_of_fmap. apply list_elem_of_fmap. by exists q0.
Qed.
Lemma delete_rows_known now id d lb t r : r ∈ letters (delete_subtree_rows now id d lb t) → r ∈ letters t ∨ deleted_parent d = Some (snd r).
Proof.
  unfold delete_subtree_rows. destruct (negb _); [by left|]. intros Hr%deleted_known. destruct (deleted_parent d) as [p|]; [|by left]. destruct (exists_conv p t); [|by left].
  by apply queued_known in Hr.
Qed.
Lemma unmark_known now d t : letters (unmark_subtree_deleting now d t) = letters t.
Proof.
  unfold unmark_subtree_deleting. set (t0 := t <| convs ::= _ |>). change (letters t) with (letters t0). generalize t0.
  induction (stopped d) as [|[i was] l IH]; intros t1; [done|]. exact (IH (snd (set_state now (is_id i) [AGENT_STOPPED] was t1))).
Qed.
Lemma on_mark_unmark_tells id d : tells (on_mark id d Unmark).
Proof.
  intros e o He. unfold on_mark. rewrite He. cbn [tx_run]. destruct (faults e (queries o)); [by apply told_same|]. destruct (position id d (world o)) as [i|]; [|by apply told_same].
  apply told_same; [|done]. cbn. destruct (deletes (world o) !! i) as [[id' d']|]; [|done]. cbn. apply unmark_known.
Qed.
Lemma on_mark_delete_tells {A} id d lb (k : Result () string → Act A) : (∀ x, tells (k x)) →
  (∀ p e o, deleted_parent d = Some p → Wake p ∈ log (snd (k (Ok ()) e o))) → tells (bind (on_mark id d (λ i, DeleteRows i lb)) k).
Proof.
  intros Hk Hwake e o He. unfold bind, on_mark. rewrite He. cbn [tx_run]. destruct (faults e (queries o)); [eapply told_trans; [|by apply Hk]; by apply told_same|].
  destruct (position id d (world o)) as [i|] eqn:Hi; [|eapply told_trans; [|by apply Hk]; by apply told_same].
  set (o1 := _ <| world := step _ _ _ |>). destruct (Hk (Ok ()) e o1 He) as [L N]. split; [intros g Hg; by apply L|]. intros r [Hr|Hr]%N; [|by right].
  unfold position in Hi. destruct (list_find _ _) as [[j x]|] eqn:Hf; [|done]. injection Hi as ->. apply list_find_Some in Hf as (Hlook & -> & _).
  cbn in Hr. rewrite Hlook in Hr. cbn in Hr. apply delete_rows_known in Hr as [Hr|Hr]; [by left|right]. by apply Hwake.
Qed.
Lemma bind_logs {A B} (m : Act A) (k : A → Act B) f e o : (∀ x o, f ∈ log o → f ∈ log (snd (k x e o))) → f ∈ log (snd (m e o)) → f ∈ log (snd (bind m k e o)).
Proof. intros Hk Hm. unfold bind. destruct (m e o) as [x o1]. by apply Hk. Qed.
Definition adds {A} (a : Act A) : Prop := ∀ e o f, f ∈ log o → f ∈ log (snd (a e o)).
Lemma bind_adds {A B} (m : Act A) (k : A → Act B) : adds m → (∀ x, adds (k x)) → adds (bind m k).
Proof. intros Hm Hk e o f Hf. apply bind_logs; [intros; by apply Hk|by apply Hm]. Qed.
Lemma each_adds {A} (l : list A) g : (∀ x, adds (g x)) → adds (each l g).
Proof. intros Hg. induction l as [|x l IH]; cbn; [by intros e o f|by apply bind_adds]. Qed.
Lemma effect_adds g : adds (effect g).
Proof. intros e o f Hf. cbn. set_solver. Qed.
Lemma query_adds {A} tx (g : Env → Z → SandboxDb → Tables → A) : adds (query tx g).
Proof. intros e o f Hf. unfold query. destruct (faults e _); [done|]. by destruct (tx _ _). Qed.
Lemma mark_known now id w : letters (tables (step now (MarkDeleting id) w)) = letters (tables w).
Proof. cbn [tx_step]. unfold mark_subtree_deleting. by destruct (negb _). Qed.
Lemma delete_subtree_tells id : tells (delete_subtree id).
Proof.
  unfold delete_subtree. intros e o He. eapply bind_tells; [|  |exact He].
  - apply quiet_tells. intros now d w x [= <-]. apply mark_known.
  - intros [[d|]|]; [|tell..]. unfold read. apply bind_tells; [tell|]. intros ps. apply bind_tells; [tell|]. intros lb. apply bind_tells; [tell|]. intros ids.
    apply on_mark_delete_tells.
    + intros [[]|error]; [tell|]. apply bind_tells; [apply on_mark_unmark_tells|tell].
    + intros p e' o' Hp. rewrite Hp. unfold bind at 1. cbn [effect].
      assert (Wake p ∈ log (o' <| log ::= λ l, app l [Wake p] |>)) as Hin by (cbn; set_solver). revert Hin. generalize (o' <| log ::= λ l, app l [Wake p] |>) (Wake p).
      intros o1 f Hf. apply bind_logs; [|apply each_adds; [|done]; intros []; apply bind_adds; [apply effect_adds|intros; apply effect_adds]].
      intros x o2 Hf2. apply bind_logs; [by intros|]. destruct (match ids with Ok l => l | Err _ => [] end) as [|v vs]; [done|].
      apply bind_logs; [|done]. intros [] o3 Hf3; [|done]. apply bind_logs; [|by apply query_adds]. intros [] o4 Hf4; [|done]. apply each_adds; [|done]. intros y. apply effect_adds.
Qed.

Definition writes_letters (p : Operation) : bool :=
  match p with RunStart _ _ (Ok _) None | Create _ | Sweep => false | _ => true end.

(** C23. Whoever is written to is woken.  Every operation but a start's own success and the
    startup's sweep wakes the recipient of each row it queues (a report, a message, a
    question, a notice of a stop, of a turn's end, of a failed start or a delete), also
    when queries of its own fail in between. *)
Theorem whoever_is_written_to_is_woken (p : Operation) (e : Env) (o : Office) :
  alone e → writes_letters p = true →
  let o' := snd (perform p e o) in
  ∀ q, q ∈ queue (tables (world o')) →
    (∃ q0, q0 ∈ queue (tables (world o)) ∧ queued q0 = queued q ∧ to_ q0 = to_ q) ∨ Wake (to_ q) ∈ log o'.
Proof.
  intros He Hp o' q Hq. assert (tells (perform p)) as Ht.
  { assert (∀ A (a : Act A), tells a → tells (do! _ := a in pure ())) as Hdone by (intros A a Ha; apply bind_tells; [done|intros; apply pure_tells]).
    destruct p; cbn [perform]; try done; try apply Hdone.
    - apply finish_tells.
    - unfold stop_agent. destruct id as [id|]; [|tell]. apply bind_tells; [|tell]. apply quiet_tells. intros now d w x [= <-]. cbn. unfold stop_subtree.
      destruct (negb _); [done|]. by destruct (agent_state _ _) as [[]|].
    - apply user_stop_tells.
    - apply last_turn_tells.
    - apply message_tells.
    - apply ask_parent_tells.
    - unfold admit_user_turn, read. apply bind_tells; [tell|]. intros [[[]|]|]; try tell; (apply bind_tells; [apply quiet_tells; by intros now d w x [= <-]|tell]).
    - apply quiet_tells. by intros now d w x [= <-].
    - unfold confirm_user_turn, read. tell.
    - unfold admits_notices, read. tell.
    - unfold run_start. destruct prepared as [f|error], reconciled as [error'|]; try done; tell.
    - apply delete_subtree_tells. }
  destruct (Ht e o He) as [_ Hn]. destruct (Hn (queued q, to_ q)) as [(q0 & E & Hq0)%list_elem_of_fmap|Hw]; [apply list_elem_of_fmap; by exists q|left|by right].
  injection E as E1 E2. by exists q0.
Qed.

(** ** A restart *)

Definition untroubled (e : Env) : Prop := alone e ∧ ∀ k, faults e k = None.
Definition reached (o : Office) : Prop := ∃ txs, world o = run txs no_world.
Lemma reached_after {A} (a : Act A) e o : transacts a → reached o → reached (snd (a e o)).
Proof. intros Ha [l Hl]. destruct (Ha e o) as [l' Hl']. exists (app l l'). by rewrite Hl', Hl, tx_run_app. Qed.
Lemma reached_distinct o : reached o → NoDup (agents_shape (tables (world o))).*1.
Proof. intros [l ->]. apply run_distinct. Qed.
(** What a failed start leaves, when the child is starting. *)
Definition report_of (child parent : Z) (q : Queued) : Prop := to_ q = parent ∧ from_ q = Some child ∧ kind q = KIND_REPORT.
Lemma set_state_takes now id was to t s : agent_state id t = Some s → s ∈ was → fst (set_state now (is_id id) was to t) = true.
Proof.
  unfold agent_state. destruct (agent_row id t) as [a|] eqn:Ha; [|done]. intros [= <-] Hs. apply find_agent in Ha as [Ha <-]. apply existsb_exists. exists a.
  split; [by apply list_elem_of_In|]. unfold is_id. rewrite Z.eqb_refl. by apply bool_decide_eq_true_2.
Qed.
Lemma fails_one now child parent lb text t : agent_state child t = Some AGENT_STARTING → both_exist parent child t = true →
  let '(b, t') := AgentTree.fail_start content_of now child parent lb text t in
  b = true ∧ convs t' = convs t ∧ (∀ q, q ∈ queue t → q ∈ queue t') ∧ (∃ q, q ∈ queue t' ∧ report_of child parent q)
  ∧ ∀ i, agent_state i t' = if (i =? child)%Z then Some AGENT_FAILED else agent_state i t.
Proof.
  intros Hs Hb. unfold AgentTree.fail_start. pose proof (set_state_takes now child [AGENT_STARTING] AGENT_FAILED t _ Hs ltac:(left)) as Htook.
  pose proof (set_state_row now (is_id child) [AGENT_STARTING] AGENT_FAILED t) as Hrow.
  assert (convs (snd (set_state now (is_id child) [AGENT_STARTING] AGENT_FAILED t)) = convs t ∧ queue (snd (set_state now (is_id child) [AGENT_STARTING] AGENT_FAILED t)) = queue t) as [Hc Hq] by done.
  destruct (set_state _ _ _ _ t) as [failed t']. cbn [fst snd] in *. subst failed. rewrite Hb. cbn [negb andb snd]. conjs; [done|exact Hc| | |].
  - intros q Hin. cbn. rewrite Hq. apply elem_of_app. by left.
  - eexists. split; [cbn; apply elem_of_app; right; by apply list_elem_of_singleton|done].
  - intros i. etransitivity; [exact (Hrow i)|]. unfold is_id. rewrite (Z.eqb_sym child i). destruct (Z.eqb_spec i child) as [->|]; [by rewrite Hs|]. cbn. by destruct (agent_state i t).
Qed.
Lemma cleared_states child t i : agent_state i (snd (clear_agent_credentials child t)) = agent_state i t.
Proof.
  unfold agent_state, agent_row, clear_agent_credentials, update_where. cbn. induction (agents t) as [|a l IH]; cbn; [done|].
  destruct ((agent a =? child)%Z && is_none (started_at a)); cbn; by destruct (agent a =? i)%Z.
Qed.
Lemma end_start_leaves e o child : untroubled e → let o' := snd (end_start child false e o) in
  tables (world o') = snd (clear_agent_credentials child (tables (world o))) ∧ ∀ f, f ∈ log o → f ∈ log o'.
Proof.
  intros [Ha Hf]. unfold end_start, write, query, bind. rewrite !Ha, !Hf. cbn [tx_run fst snd].
  destruct (has_card e child); cbn; rewrite ?Ha, ?Hf; cbn; (split; [done|]); intros f Hin; set_solver.
Qed.
Lemma sweeps_one e o child parent : untroubled e → agent_state child (tables (world o)) = Some AGENT_STARTING → both_exist parent child (tables (world o)) = true →
  let o' := snd (sweep_one (child, parent) e o) in
  convs (tables (world o')) = convs (tables (world o)) ∧ (∀ q, q ∈ queue (tables (world o)) → q ∈ queue (tables (world o')))
  ∧ (∃ q, q ∈ queue (tables (world o')) ∧ report_of child parent q) ∧ (∀ f, f ∈ log o → f ∈ log o') ∧ Wake parent ∈ log o'
  ∧ ∀ i, agent_state i (tables (world o')) = if (i =? child)%Z then Some AGENT_FAILED else agent_state i (tables (world o)).
Proof.
  intros He Hs Hb. pose proof He as [Ha Hf].
  set (text := label child None +:+ "'s start failed: " +:+ RESTARTED).
  pose proof (fails_one (clock e (queries o)) child parent (label child None) text (tables (world o)) Hs Hb) as Hone.
  destruct (fail_start child parent RESTARTED e o) as [b o1] eqn:Ho1.
  assert (tables (world o1) = snd (AgentTree.fail_start content_of (clock e (queries o)) child parent (label child None) text (tables (world o)))
          ∧ log o1 = app (app (log o) [Wake parent]) [ConversationsChanged]) as [Ht Hl].
  { revert Ho1. unfold fail_start, FAIL_START_ATTEMPTS. cbn [fail_start_attempts]. unfold write, bind, query. rewrite !Ha, !Hf. cbn [tx_run]. fold text.
    destruct (AgentTree.fail_start _ _ _ _ _ _ _) as [b' t'] eqn:Hfs. destruct Hone as [-> _]. cbn -[label AgentTree.fail_start]. rewrite Hfs. intros [= _ <-]. done. }
  destruct (AgentTree.fail_start _ _ _ _ _ _ _) as [b' t']. cbn [snd] in Ht. destruct Hone as (_ & Hc & Hq & (q & Hqin & Hrep) & Hst).
  destruct (end_start_leaves e o1 child He) as [Ht2 Hl2]. rewrite Ht in Ht2. cbn zeta.
  assert (snd (sweep_one (child, parent) e o) = snd (end_start child false e o1)) as -> by (unfold sweep_one, bind; by rewrite Ho1).
  rewrite Ht2. conjs.
  - exact Hc.
  - exact Hq.
  - by exists q.
  - intros f Hin. apply Hl2. rewrite Hl. set_solver.
  - apply Hl2. rewrite Hl. set_solver.
  - intros i. by rewrite cleared_states.
Qed.
Lemma sweeps_each e l o : untroubled e → NoDup (map fst l) →
  (∀ c p, (c, p) ∈ l → agent_state c (tables (world o)) = Some AGENT_STARTING ∧ both_exist p c (tables (world o)) = true) →
  let o' := snd (each l sweep_one e o) in
  convs (tables (world o')) = convs (tables (world o)) ∧ (∀ q, q ∈ queue (tables (world o)) → q ∈ queue (tables (world o'))) ∧ (∀ f, f ∈ log o → f ∈ log o')
  ∧ (∀ c p, (c, p) ∈ l → (∃ q, q ∈ queue (tables (world o')) ∧ report_of c p q) ∧ Wake p ∈ log o')
  ∧ ∀ i, agent_state i (tables (world o')) = if bool_decide (i ∈ map fst l) then Some AGENT_FAILED else agent_state i (tables (world o)).
Proof.
  intros He. revert o. induction l as [|[c p] l IH]; intros o Hnd Hl; [cbn; conjs; [done..|by intros ? ? ?%not_elem_of_nil|done]|].
  cbn [map fst] in Hnd. apply NoDup_cons in Hnd as [Hc Hnd]. destruct (Hl c p ltac:(left)) as [Hs Hb]. pose proof (sweeps_one e o c p He Hs Hb) as H1.
  cbn zeta in *. assert (snd (each ((c, p) :: l) sweep_one e o) = snd (each l sweep_one e (snd (sweep_one (c, p) e o)))) as ->.
  { cbn [each]. unfold bind. by destruct (sweep_one (c, p) e o). }
  destruct H1 as (Hcv & Hq & Hrep & Hlog & Hw & Hst). set (o1 := snd (sweep_one (c, p) e o)) in *.
  destruct (IH o1 Hnd) as (Hcv' & Hq' & Hlog' & Hrep' & Hst').
  { intros c' p' Hin. destruct (Hl c' p' ltac:(by right)) as [Hs' Hb']. split.
    - rewrite Hst. destruct (Z.eqb_spec c' c) as [->|]; [|done]. destruct Hc. apply list_elem_of_fmap. by exists (c, p').
    - unfold both_exist, exists_conv, conversation in *. by rewrite Hcv. }
  conjs; [by rewrite Hcv'|auto|auto| |].
  - intros c' p' [Hin|Hin]%elem_of_cons; [|by apply Hrep']. injection Hin as -> ->. split; [|auto]. destruct Hrep as (q & Hqin & Hr). exists q. auto.
  - intros i. rewrite Hst', Hst. cbn [map fst]. destruct (Z.eqb_spec i c) as [->|Hne].
    + rewrite (bool_decide_eq_true_2 (c ∈ c :: _)) by left. by case_bool_decide.
    + assert (bool_decide (i ∈ c :: map fst l) = bool_decide (i ∈ map fst l)) as -> by (apply bool_decide_ext; set_solver). done.
Qed.
Lemma starting_in t c p : (c, p) ∈ starting_agents t ↔ ∃ a, a ∈ agents t ∧ state a = AGENT_STARTING ∧ agent a = c ∧ conversation_parent c t = Some p.
Proof.
  unfold starting_agents. rewrite (sort_by_perm _ _). rewrite list_elem_of_omap. split.
  - intros (a & Ha & Hf). case_bool_decide as Hs; [|done]. destruct (conversation_parent (agent a) t) as [p'|] eqn:Hp; [|done]. injection Hf as <- <-. by exists a.
  - intros (a & Ha & Hs & <- & Hp). exists a. split; [done|]. rewrite bool_decide_eq_true_2 by done. by rewrite Hp.
Qed.
Lemma starting_distinct t : NoDup (agents_shape t).*1 → NoDup (map fst (starting_agents t)).
Proof.
  intros Hnd. unfold starting_agents. rewrite (Permutation_map fst (sort_by_perm _ _)). unfold agents_shape in Hnd. rewrite <- list_fmap_compose in Hnd.
  eapply sublist_NoDup; [exact Hnd|]. clear Hnd. induction (agents t) as [|a l IH]; [constructor|]. cbn. case_bool_decide; [|by apply sublist_cons].
  destruct (conversation_parent (agent a) t); cbn; [by apply sublist_skip|by apply sublist_cons].
Qed.
Lemma starting_ready o : reached o → ∀ a, a ∈ agents (tables (world o)) → state a = AGENT_STARTING →
  ∃ p, (agent a, p) ∈ starting_agents (tables (world o)) ∧ both_exist p (agent a) (tables (world o)) = true.
Proof.
  intros [l Hl] a Ha Hs. destruct (some_limit l) as (limit & Hlim & Hin). pose proof (run_whole content_of for_child debug trust add_tools db_error limit l Hlim Hin) as Hw.
  rewrite <- Hl in Hw. destruct (whole_placed _ _ _ _ Hw (agent a) (root_id a) (depth a)) as (p & Hp & _); [apply list_elem_of_fmap; by exists a|].
  exists p. split; [apply starting_in; exists a; conjs; try done; apply shape_parent; [apply (whole_ids _ _ _ _ Hw)|done]|].
  apply andb_true_iff. split; apply exists_conv_in; [by eapply (whole_parents _ _ _ _ Hw)|apply list_elem_of_fmap; by exists (agent a, Some p)].
Qed.
Lemma starting_state o : reached o → ∀ c p, (c, p) ∈ starting_agents (tables (world o)) →
  agent_state c (tables (world o)) = Some AGENT_STARTING ∧ both_exist p c (tables (world o)) = true.
Proof.
  intros Hr c p (a & Ha & Hs & <- & Hp)%starting_in. split.
  - unfold agent_state. rewrite (agent_row_of _ a) by (done || by apply reached_distinct). cbn. by rewrite Hs.
  - destruct (starting_ready o Hr a Ha Hs) as (p' & (a' & _ & _ & _ & Hp')%starting_in & Hb). congruence.
Qed.
Lemma wakes_each e l o : log (snd (each l (λ id, effect (Wake id)) e o)) = app (log o) (map Wake l) ∧ world (snd (each l (λ id, effect (Wake id)) e o)) = world o.
Proof.
  revert o. induction l as [|i l IH]; intros o; cbn; [by rewrite app_nil_r|]. destruct (IH (o <| log ::= λ l, app l [Wake i] |>)) as [H1 H2].
  cbn in H1. split; [|exact H2]. etransitivity; [exact H1|]. by rewrite <- app_assoc.
Qed.

Lemma queued_conversation c t :
  c ∈ convs t → paused_at c = None → agent_state (conv c) t ≠ Some AGENT_STOPPED →
  (∃ q, q ∈ queue t ∧ to_ q = conv c ∧ delivered_at q = None)
  ∨ (agent_row (conv c) t ≠ None ∧ ∃ q, q ∈ questions t ∧ asker q = conv c ∧ answer q ≠ None) →
  conv c ∈ conversations_with_queued_messages t.
Proof.
  intros Hc Hp Hs Hsome. unfold conversations_with_queued_messages. rewrite sort_by_perm. apply list_elem_of_fmap. exists c. split; [done|].
  apply elem_list_filter. split; [done|]. rewrite Hp, (bool_decide_eq_false_2 _ Hs). cbn [is_none negb andb]. apply orb_true_iff.
  destruct Hsome as [(q & Hq & Hto & Hd)|(Ha & q & Hq & Hk & Han)]; [left|right].
  - apply existsb_true. exists q. split; [done|]. by rewrite Hto, Z.eqb_refl, Hd.
  - destruct (agent_row (conv c) t); [|done]. cbn [is_some andb]. apply existsb_true. exists q. split; [done|]. rewrite Hk, Z.eqb_refl.
    by destruct (answer q).
Qed.

(** C24. A restart leaves no start and no letter waiting unseen.  After the startup's sweep,
    when no query of it failed: no agent is starting; each that was has failed, with a
    report of it queued to its parent, which was woken; and so was every conversation
    neither paused nor a stopped agent's that has a letter undelivered, or is an agent's
    with a question of its own answered. *)
Theorem a_restart_leaves_no_start (ps : list (Env * Operation)) (e : Env) :
  untroubled e →
  let o := office_run ps (Build_Office no_world 0 []) in
  let o' := snd (startup_sweep e o) in
  let t' := tables (world o') in
  (∀ a, a ∈ agents t' → state a ≠ AGENT_STARTING)
  ∧ (∀ a, a ∈ agents (tables (world o)) → state a = AGENT_STARTING →
      agent_state (agent a) t' = Some AGENT_FAILED
      ∧ ∃ parent q, conversation_parent (agent a) (tables (world o)) = Some parent ∧ q ∈ queue t' ∧ report_of (agent a) parent q ∧ Wake parent ∈ log o')
  ∧ ∀ c, c ∈ convs t' → paused_at c = None → agent_state (conv c) t' ≠ Some AGENT_STOPPED →
      (∃ q, q ∈ queue t' ∧ to_ q = conv c ∧ delivered_at q = None)
      ∨ (agent_row (conv c) t' ≠ None ∧ ∃ q, q ∈ questions t' ∧ asker q = conv c ∧ answer q ≠ None) →
      Wake (conv c) ∈ log o'.
Proof.
  intros He o o' t'. pose proof He as [Ha Hf]. assert (reached o) as Hr by apply (office_runs ps).
  set (o1 := o <| world := world o |> <| queries ::= S |>). set (l := starting_agents (tables (world o))).
  destruct (sweeps_each e l o1 He (starting_distinct _ (reached_distinct o Hr)) (starting_state o Hr)) as (Hcv & Hq & Hlog & Hrep & Hst).
  set (o2 := snd (each l sweep_one e o1)) in *.
  set (w3 := step (clock e (queries o2)) (RestartNotices RESTARTED_MID_TURN) (world o2)).
  set (o3 := o2 <| world := world o2 |> <| queries ::= S |> <| world := w3 |> <| world := w3 |> <| queries ::= S |>).
  assert (o' = snd (each (conversations_with_queued_messages (tables w3)) (λ id, effect (Wake id)) e o3)) as Ho'.
  { unfold o', startup_sweep, notify_cut_off_turns, read, write, bind, query. rewrite Ha, Hf. cbn [tx_run]. fold l o1.
    unfold o3, w3, o2. destruct (each l sweep_one e o1) as [[] o2']. cbn [snd]. rewrite !Ha, !Hf. cbn [tx_run]. unfold pure. cbn beta iota zeta. rewrite !Ha, !Hf. reflexivity. }
  destruct (wakes_each e (conversations_with_queued_messages (tables w3)) o3) as [Hl' Hw']. rewrite <- Ho' in Hl', Hw'.
  assert (∀ i, agent_state i t' = if bool_decide (i ∈ map fst l) then Some AGENT_FAILED else agent_state i (tables (world o))) as Hstates.
  { intros i. unfold t'. rewrite Hw', <- Hst. destruct (restart_rest (clock e (queries o2)) RESTARTED_MID_TURN (tables (world o2))) as (_ & Hag & _).
    unfold agent_state, agent_row. change (tables (world o3)) with (snd (queue_restart_notices (clock e (queries o2)) RESTARTED_MID_TURN (tables (world o2)))). by rewrite Hag. }
  split; [|split].
  - intros a Hin Hs. pose proof (reached_after startup_sweep e o (perform_transacts Sweep) Hr) as Hr'. fold o' in Hr'.
    assert (agent_state (agent a) t' = Some AGENT_STARTING) as Hnow by (unfold agent_state; rewrite (agent_row_of _ a) by (done || by apply reached_distinct); cbn; by rewrite Hs).
    rewrite Hstates in Hnow. case_bool_decide as Hl; [done|]. apply Hl. unfold agent_state in Hnow. destruct (agent_row (agent a) (tables (world o))) as [a0|] eqn:Ha0; [|done].
    injection Hnow as Hs0. apply find_agent in Ha0 as [Ha0 Hid]. destruct (starting_ready o Hr a0 Ha0 Hs0) as (p & Hp & _). apply list_elem_of_fmap. exists (agent a0, p). by split.
  - intros a Hin Hs. destruct (starting_ready o Hr a Hin Hs) as (p & Hp & _). rewrite Hstates, bool_decide_eq_true_2 by (apply list_elem_of_fmap; by exists (agent a, p)).
    split; [done|]. destruct (Hrep _ _ Hp) as [(q & Hqin & Hq1) Hwk]. pose proof Hp as (_ & _ & _ & _ & Hpar)%starting_in. exists p, q. split; [done|]. split; [|split; [done|]].
    + unfold t'. rewrite Hw'. change (tables (world o3)) with (snd (queue_restart_notices (clock e (queries o2)) RESTARTED_MID_TURN (tables (world o2)))). cbn.
      generalize (cut_off_agents RESTARTED_MID_TURN (tables (world o2))). intros told. revert Hqin. generalize (tables (world o2)). induction told as [|i told IH]; intros t Hqin; [done|].
      cbn [foldl]. apply IH. cbn. apply elem_of_app. by left.
    + rewrite Hl'. apply elem_of_app. by left.
  - intros c Hc Hp Hst' Hsome. rewrite Hl'. apply elem_of_app. right. apply list_elem_of_fmap. exists (conv c). split; [done|].
    unfold t' in *. rewrite Hw' in *. by apply queued_conversation.
Qed.
End Tools.

(** ** Runs *)

Definition calm (others : list (Z * Tx)) : Env (V := unit) :=
  Build_Env (λ _, None) (λ k, if (k =? 0)%nat then others else []) (λ k, Z.of_nat k) (λ _, Build_SandboxDb [] [] [] [] 1 1 [] []) (λ _, false) (λ _, false) id true.
#[local] Abbreviation performs := (perform id id id (λ _, None) (λ _ c, c) "").
Definition working : Office (V := unit) := Build_Office (after a_run) 0 [].
Lemma whoever_is_written_to_is_woken_witness :
  let o' := snd (performs (Finish 2 (Some "done")) (calm []) working) in
  log o' = [Wake 1] ∧ map to_ (queue (tables (world o'))) = [2%Z; 1%Z]
  ∧ ∀ q, q ∈ queue (tables (world o')) →
      (∃ q0, q0 ∈ queue (tables (world working)) ∧ queued q0 = queued q ∧ to_ q0 = to_ q) ∨ Wake (to_ q) ∈ log o'.
Proof.
  split; [by vm_compute|]. split; [by vm_compute|].
  apply (whoever_is_written_to_is_woken id id id (λ _, None) (λ _ c, c) "" (Finish 2 (Some "done")) (calm []) working); [by intros []|done].
Defined.
Definition a_start : list (Env (V := unit) * Operation (V := unit)) :=
  [(calm [(1%Z, NewConversation)], Create (Build_NewChild 1 "the work" None None None 2 []))].
#[local] Abbreviation office := (office_run id id id (λ _, None) (λ _ c, c) "").
Lemma a_restart_leaves_no_start_witness :
  let o := office a_start (Build_Office no_world 0 []) in
  let t' := tables (world (snd (startup_sweep id id id (λ _, None) (λ _ c, c) "" (calm []) o))) in
  agent_state 2 (tables (world o)) = Some AGENT_STARTING ∧ agent_state 2 t' = Some AGENT_FAILED ∧ ∀ a, a ∈ agents t' → state a ≠ AGENT_STARTING.
Proof.
  split; [by vm_compute|]. split; [by vm_compute|].
  apply (a_restart_leaves_no_start id id id (λ _, None) (λ _ c, c) "" a_start (calm [])). split; [by intros []|done].
Defined.
(** A start whose failure can't be written stays starting, and nobody is told. *)
Lemma a_failure_unwritten :
  let down := Build_Env (V := unit) (λ _, Some "down") (λ _, []) (λ _, 9%Z) (λ _, Build_SandboxDb [] [] [] [] 1 1 [] []) (λ _, false) (λ _, false) id true in
  let o := office a_start (Build_Office no_world 0 []) in
  let o' := snd (performs (RunStart 2 1 (Err "no clone") None) down o) in
  agent_state 2 (tables (world o')) = Some AGENT_STARTING ∧ queue (tables (world o')) = [] ∧ queries o' = (queries o + 5)%nat.
Proof. by vm_compute. Qed.
