(* ===== verification/Guards.v ===== *)
(** * Guards: who may send a request to smelt and to a sandbox's servers

    [src/src/docker_net.rs]: the addresses that are a pod's containers.
    [src/src/fetch_guard.rs]: which hosts mean the sandbox, and which requests a page may send
    to a server in it.  [src/src/request_guard.rs]: which requests smelt itself takes.  The
    [url] crate's parser is a parameter; a header is [None] when it is absent or isn't text.
    The addresses' reading is the standard library's. *)

From S2P Require Import Prelude RustStr.
Local Open Scope string_scope.

(** ** Addresses: [std::net] *)

Record Ipv4Addr := Ipv4 { octet1 : Z; octet2 : Z; octet3 : Z; octet4 : Z }.
Inductive IpAddr := V4 (ip : Ipv4Addr) | V6 (groups : list Z).
#[export] Instance Ipv4Addr_eq_dec : EqDecision Ipv4Addr.
Proof. solve_decision. Defined.

Definition ipv4_u32 (ip : Ipv4Addr) : Z :=
  (((octet1 ip * 256 + octet2 ip) * 256 + octet3 ip) * 256 + octet4 ip)%Z.
Definition show_ipv4 (ip : Ipv4Addr) : string :=
  show_unsigned (octet1 ip) +:+ "." +:+ show_unsigned (octet2 ip) +:+ "." +:+ show_unsigned (octet3 ip) +:+ "." +:+ show_unsigned (octet4 ip).

(** [char::to_digit]. *)
Definition to_digit (radix : Z) (a : ascii) : option Z :=
  let n := Z.of_nat (nat_of_ascii a) in
  let digit :=
    if is_ascii_digit a then Some (n - 48)%Z
    else if is_ascii_lowercase a then Some (n - 87)%Z
    else if is_ascii_uppercase a then Some (n - 55)%Z else None in
  match digit with Some d => if (d <? radix)%Z then Some d else None | None => None end.
(** The value and number of the digits [s] starts with, and what is after them. *)
Fixpoint read_digits (radix acc : Z) (count : nat) (s : string) : Z * nat * string :=
  match s with
  | EmptyString => (acc, count, "")
  | String a s' =>
      match to_digit radix a with
      | Some d => read_digits radix (acc * radix + d)%Z (S count) s'
      | None => (acc, count, s)
      end
  end.
Definition read_number (radix : Z) (max_digits : nat) (allow_zero_prefix : bool) (max : Z) (s : string) : option (Z * string) :=
  let '(n, count, rest) := read_digits radix 0 0 s in
  if (max_digits <? count)%nat then None
  else if (count =? 0)%nat then None
  else if negb allow_zero_prefix && starts_with "0" s && (1 <? count)%nat then None
  else if (n <=? max)%Z then Some (n, rest) else None.
(** [read_separator(sep, index, inner)]. *)
Definition read_separator {A} (sep : string) (index : nat) (inner : string → option A) (s : string) : option A :=
  match index with O => inner s | S _ => rest ← strip_prefix sep s; inner rest end.
Definition read_octet : string → option (Z * string) := read_number 10 3 false 255.
Definition read_ipv4_addr (s : string) : option (Ipv4Addr * string) :=
  '(a, s) ← read_separator "." 0 read_octet s;
  '(b, s) ← read_separator "." 1 read_octet s;
  '(c, s) ← read_separator "." 2 read_octet s;
  '(d, s) ← read_separator "." 3 read_octet s;
  Some (Ipv4 a b c d, s).
(** Up to [limit] groups from the [i]th: those read, whether they end with an IPv4 address, and
    what is after them. *)
Fixpoint read_groups (fuel limit i : nat) (s : string) : list Z * bool * string :=
  match fuel with
  | O => ([], false, s)
  | S fuel =>
      match (if (i <? limit - 1)%nat then read_separator ":" i read_ipv4_addr s else None) with
      | Some (ip, rest) => ([octet1 ip * 256 + octet2 ip; octet3 ip * 256 + octet4 ip]%Z, true, rest)
      | None =>
          match read_separator ":" i (read_number 16 4 true 65535) s with
          | Some (group, rest) => let '(groups, v4, rest) := read_groups fuel limit (S i) rest in (group :: groups, v4, rest)
          | None => ([], false, s)
          end
      end
  end.
Definition read_ipv6_addr (s : string) : option (list Z * string) :=
  let '(head, head_ipv4, rest) := read_groups 8 8 0 s in
  if (length head =? 8)%nat then Some (head, rest)
  else if head_ipv4 then None
  else
    rest ← strip_prefix "::" rest;
    let limit := (8 - (length head + 1))%nat in
    let '(tail, _, rest) := read_groups limit limit 0 rest in
    Some (app head (app (replicate (8 - length head - length tail) 0%Z) tail), rest).
Definition whole {A} (read : option (A * string)) : option A :=
  match read with Some (x, EmptyString) => Some x | _ => None end.
Definition parse_ipv4 (s : string) : option Ipv4Addr :=
  if (15 <? String.length s)%nat then None else whole (read_ipv4_addr s).
Definition parse_ip (s : string) : option IpAddr :=
  whole (match read_ipv4_addr s with
         | Some (ip, rest) => Some (V4 ip, rest)
         | None => '(groups, rest) ← read_ipv6_addr s; Some (V6 groups, rest)
         end).
Definition is_loopback (ip : IpAddr) : bool :=
  match ip with
  | V4 ip => (octet1 ip =? 127)%Z
  | V6 groups => bool_decide (groups = [0; 0; 0; 0; 0; 0; 0; 1]%Z)
  end.

(** ** The pod's Docker networks *)

Definition POOL_BASE : Ipv4Addr := Ipv4 172 20 0 0.
Definition POOL_PREFIX : Z := 14.
Definition in_docker_pool (ip : Ipv4Addr) : bool :=
  let mask := Z.land (Z.shiftl U32_MAX (32 - POOL_PREFIX)) U32_MAX in
  (Z.land (ipv4_u32 ip) mask =? Z.land (ipv4_u32 POOL_BASE) mask)%Z.
Definition container_address (host : string) : option Ipv4Addr :=
  ip ← parse_ipv4 host; if in_docker_pool ip then Some ip else None.

Inductive PodHost := Localhost | Container (ip : Ipv4Addr).
#[export] Instance PodHost_eq_dec : EqDecision PodHost.
Proof. solve_decision. Defined.

(** ** Which hosts mean the sandbox *)

(** [s.trim_end_matches(c)]. *)
Definition trim_end_matches (c : ascii) (s : string) : string := reverse_str (drop_while (Ascii.eqb c) (reverse_str s)).
(** A host without its brackets and its last dot. *)
Definition bare_host (host : string) : string :=
  let host := trim_end_matches "]" (drop_while (Ascii.eqb "[") host) in
  default host (strip_suffix "." host).
Definition is_sandbox_host (host : string) : bool :=
  let host := bare_host host in
  eq_ignore_ascii_case host "localhost" || String.eqb host "127.0.0.1" || String.eqb host "::1".
Definition sandbox_host (host : string) : option PodHost :=
  if is_sandbox_host host then Some Localhost else Container <$> container_address host.
Definition browser_sends_sec_fetch (host : string) : bool :=
  let host := to_ascii_lowercase (bare_host host) in
  if String.eqb host "localhost" || ends_with ".localhost" host then true
  else match parse_ip host with Some ip => is_loopback ip | None => false end.

(** ** Requests to a server in the sandbox *)

Record RequestSource := {
  method : string;
  origin : option string;
  sec_fetch_site : option string;
  sec_fetch_mode : option string;
  referer : option string;
  upgrade_insecure_requests : bool;
}.
Record Destination := { sends_sec_fetch : bool; same_site_is_home : bool }.
(** What is read of a [url::Url]. *)
Record Url := { scheme : string; host_str : option string; url_port : option Z; port_or_known_default : option Z }.

Section Urls.
Context (parse_url : string → Result Url string).

Definition url_ok (s : string) : option Url := match parse_url s with Ok url => Some url | Err _ => None end.
Definition url_is_home (is_home : string → option Z → bool) (s : string) : bool :=
  default false (url ← url_ok s; host ← host_str url; Some (is_home host (url_port url))).
Definition get_or_head (s : RequestSource) : bool :=
  let m := to_ascii_uppercase (method s) in String.eqb m "GET" || String.eqb m "HEAD".
Definition allows_request_from (s : RequestSource) (d : Destination) (is_home : string → option Z → bool) : bool :=
  match origin s with
  | Some o => url_is_home is_home o
  | None =>
      let navigation := get_or_head s && bool_decide (sec_fetch_mode s = Some "navigate") in
      let referer_is_home := get_or_head s && match referer s with Some r => url_is_home is_home r | None => false end in
      match sec_fetch_site s with
      | Some site =>
          if String.eqb site "same-origin" || String.eqb site "none" then true
          else if String.eqb site "same-site" then same_site_is_home d || navigation || referer_is_home
          else navigation
      | None =>
          if sends_sec_fetch d then true
          else referer_is_home || (get_or_head s && upgrade_insecure_requests s)
      end
  end.

Definition parse_fetch_target (s : string) : Result (string * Z) string :=
  match parse_url s with
  | Err e => Err ("invalid URL: " +:+ e)
  | Ok url =>
      if negb (String.eqb (scheme url) "http") && negb (String.eqb (scheme url) "https")
      then Err ("unsupported scheme: " +:+ scheme url)
      else match host_str url with
           | None => Err "URL has no host"
           | Some host =>
               match port_or_known_default url with
               | None => Err "could not determine a port"
               | Some port => Ok (host, port)
               end
           end
  end.
(** [lookup]: what the system's resolver answers. *)
Definition resolve_target {A} (lookup : string → Z → Result (list A) string) (host : string) (port : Z) : Result (list A) string :=
  match lookup host port with
  | Err e => Err ("could not resolve " +:+ host +:+ ": " +:+ e)
  | Ok [] => Err (host +:+ " resolved to no addresses")
  | Ok addrs => Ok addrs
  end.

(** ** Requests to smelt *)

Definition allowed_hosts (base_url hosts : option string) : list string :=
  let hosts := List.filter (λ h, negb (String.eqb h ""))
    (map (λ h, to_ascii_lowercase (trim h)) (split_on (Ascii.eqb ",") (default "" hosts))) in
  match hosts with
  | [] => []
  | _ =>
      match (base ← base_url;
             if is_blank base then None else url ← url_ok (trim base); host_str url) with
      | Some host => app hosts [to_ascii_lowercase host]
      | None => hosts
      end
  end.
Definition host_allowed (host : string) (allowed : list string) : bool :=
  match strip_prefix "[" host with
  | Some rest => is_some (parse_ip (match split_once "]" rest with Some (ip, _) => ip | None => rest end))
  | None =>
      let name := to_ascii_lowercase
        (match rsplit_once ":" host with
         | Some (name, port) => if all_bytes is_ascii_digit port then name else host
         | None => host
         end) in
      is_some (parse_ip name) || String.eqb name "localhost" || ends_with ".localhost" name || existsb (String.eqb name) allowed
  end.
Definition refusal (method : string) (headers : string → option string) (allowed : list string) : option string :=
  let header name := trim <$> headers name in
  match (match allowed with
         | [] => None
         | _ => host ← header "host"; if host_allowed host allowed then None else Some host
         end) with
  | Some host => Some ("smelt isn't served at " +:+ host +:+ ". Add it to SMELT_ALLOWED_HOSTS if it should be.")
  | None =>
      if String.eqb method "GET" || String.eqb method "HEAD" || String.eqb method "OPTIONS" then None
      else
        match header "sec-fetch-site" with
        | Some site =>
            if String.eqb site "same-origin" || String.eqb site "none" then None
            else Some ("refused a " +:+ site +:+ " request: smelt only takes changes from its own pages")
        | None =>
            match header "origin" with
            | None => None
            | Some origin =>
                let origin_host :=
                  url ← url_ok origin; host ← host_str url;
                  Some (match url_port url with Some port => host +:+ ":" +:+ show_unsigned port | None => host end) in
                let request_host := match header "x-forwarded-host" with Some h => Some h | None => header "host" end in
                match origin_host, request_host with
                | Some o, Some h =>
                    if eq_ignore_ascii_case o h then None
                    else Some ("refused a request from " +:+ origin +:+ ": smelt only takes changes from its own pages")
                | _, _ => Some ("refused a request from " +:+ origin +:+ ": smelt only takes changes from its own pages")
                end
            end
        end
  end.
End Urls.

(** ** Reading an address back *)

(** Addresses whose octets fit. *)
Definition valid_ipv4 (ip : Ipv4Addr) : Prop :=
  (0 ≤ octet1 ip < 256 ∧ 0 ≤ octet2 ip < 256 ∧ 0 ≤ octet3 ip < 256 ∧ 0 ≤ octet4 ip < 256)%Z.
(** What doesn't go on with the number before it. *)
Definition no_digit_next (radix : Z) (s : string) : Prop :=
  match s with EmptyString => True | String a _ => to_digit radix a = None end.

Lemma read_digits_app radix acc count s n k rest :
  read_digits radix acc count s = (n, k, "") → no_digit_next radix rest →
  read_digits radix acc count (s +:+ rest) = (n, k, rest).
Proof.
  revert acc count. induction s as [|a s IH]; intros acc count.
  - intros [= <- <-] Hr. rewrite str_app_nil_l. destruct rest as [|b rest]; [done|]. cbn in *. by rewrite Hr.
  - rewrite str_app_cons. cbn. destruct (to_digit radix a); [|done]. intros. by apply IH.
Qed.
Lemma read_digits_rest radix acc count s n k rest :
  read_digits radix acc count s = (n, k, rest) → no_digit_next radix rest.
Proof.
  revert acc count. induction s as [|a s IH]; intros acc count; cbn; [by intros [= _ _ <-]|].
  destruct (to_digit radix a) eqn:E; [apply IH|]. by intros [= _ _ <-].
Qed.

Definition shows_an_octet (n : Z) : bool :=
  let s := show_unsigned n in
  let '(m, count, rest) := read_digits 10 0 0 s in
  (m =? n)%Z && String.eqb rest "" && (count =? String.length s)%nat && (1 <=? count)%nat && (count <=? 3)%nat
  && (negb (starts_with "0" s) || (count =? 1)%nat).
Lemma octets_are_shown n : (0 ≤ n < 256)%Z → shows_an_octet n = true.
Proof.
  intros Hn. assert (Hall : forallb shows_an_octet (seqZ 0 256) = true) by by vm_compute.
  rewrite forallb_forall in Hall. apply Hall, list_elem_of_In, elem_of_seqZ. lia.
Qed.
Lemma read_octet_shown n rest :
  (0 ≤ n < 256)%Z → no_digit_next 10 rest → read_octet (show_unsigned n +:+ rest) = Some (n, rest).
Proof.
  intros Hn Hrest. pose proof (octets_are_shown n Hn) as Hs. unfold shows_an_octet in Hs.
  destruct (read_digits 10 0 0 (show_unsigned n)) as [[m count] r] eqn:E.
  rewrite !andb_true_iff in Hs. destruct Hs as [[[[[->%Z.eqb_eq ->%String.eqb_eq] Hlen%Nat.eqb_eq] H1%Nat.leb_le] H3%Nat.leb_le] H0].
  unfold read_octet, read_number. rewrite (read_digits_app _ _ _ _ _ _ _ E Hrest).
  replace (3 <? count)%nat with false by (symmetry; apply Nat.ltb_ge; lia).
  replace (count =? 0)%nat with false by (symmetry; apply Nat.eqb_neq; lia).
  replace (n <=? 255)%Z with true by (symmetry; apply Z.leb_le; lia).
  replace (starts_with "0" (show_unsigned n +:+ rest)) with (starts_with "0" (show_unsigned n)).
  2: { destruct (show_unsigned n) as [|a s]; [cbn in Hlen; lia|]. rewrite str_app_cons, !starts_with_strip. cbn -[Ascii.eqb]. by destruct (Ascii.eqb "0" a). }
  apply orb_true_iff in H0 as [H0%negb_true_iff|H0%Nat.eqb_eq]; [by rewrite H0, andb_false_r|].
  rewrite H0. by destruct (starts_with _ _).
Qed.
Lemma octet_length n : (0 ≤ n < 256)%Z → (String.length (show_unsigned n) ≤ 3)%nat.
Proof.
  intros Hn. pose proof (octets_are_shown n Hn) as Hs. unfold shows_an_octet in Hs.
  destruct (read_digits 10 0 0 (show_unsigned n)) as [[m count] r]. rewrite !andb_true_iff in Hs.
  destruct Hs as [[[[_ Hlen%Nat.eqb_eq] _] H3%Nat.leb_le] _]. lia.
Qed.

Lemma read_show_ipv4 ip rest :
  valid_ipv4 ip → no_digit_next 10 rest → read_ipv4_addr (show_ipv4 ip +:+ rest) = Some (ip, rest).
Proof.
  destruct ip as [a b c d]. intros (Ha & Hb & Hc & Hd) Hrest. unfold read_ipv4_addr, show_ipv4. cbn [octet1 octet2 octet3 octet4] in *.
  rewrite !str_app_assoc. unfold read_separator.
  rewrite read_octet_shown by done. cbn [mbind option_bind]. rewrite strip_prefix_app. cbn [mbind option_bind].
  rewrite read_octet_shown by done. cbn [mbind option_bind]. rewrite strip_prefix_app. cbn [mbind option_bind].
  rewrite read_octet_shown by done. cbn [mbind option_bind]. rewrite strip_prefix_app. cbn [mbind option_bind].
  by rewrite read_octet_shown.
Qed.
Lemma parse_show_ipv4 ip : valid_ipv4 ip → parse_ipv4 (show_ipv4 ip) = Some ip.
Proof.
  intros Hip. pose proof (read_show_ipv4 ip "" Hip I) as Hr. rewrite str_app_nil_r in Hr.
  unfold parse_ipv4. replace (15 <? _)%nat with false; [by rewrite Hr|]. symmetry. apply Nat.ltb_ge.
  destruct Hip as (?%octet_length & ?%octet_length & ?%octet_length & ?%octet_length).
  unfold show_ipv4. rewrite !str_length_app. cbn. lia.
Qed.

Lemma to_digit_bound radix a d : to_digit radix a = Some d → (0 ≤ d)%Z.
Proof.
  unfold to_digit, is_ascii_digit, is_ascii_lowercase, is_ascii_uppercase, byte_in. intros H.
  repeat case_match; simplify_eq; bool_to_prop; repeat match goal with H : (_ <=? _)%nat = true |- _ => apply Nat.leb_le in H end; lia.
Qed.
Lemma read_digits_nonneg radix acc count s n k rest :
  (0 ≤ radix)%Z → (0 ≤ acc)%Z → read_digits radix acc count s = (n, k, rest) → (0 ≤ n)%Z.
Proof.
  intros Hr. revert acc count. induction s as [|a s IH]; intros acc count Hacc; cbn; [by intros [= <- _ _]|].
  destruct (to_digit radix a) as [d|] eqn:Hd; [|by intros [= <- _ _]]. apply IH. apply to_digit_bound in Hd. nia.
Qed.
Lemma read_octet_range s n rest : read_octet s = Some (n, rest) → (0 ≤ n < 256)%Z.
Proof.
  unfold read_octet, read_number. destruct (read_digits 10 0 0 s) as [[m count] r] eqn:E.
  apply read_digits_nonneg in E; [|lia..]. repeat case_match; try done. intros [= -> ->]. bool_to_prop. lia.
Qed.
Lemma parse_ipv4_valid s ip : parse_ipv4 s = Some ip → valid_ipv4 ip.
Proof.
  unfold parse_ipv4, whole, read_ipv4_addr, read_separator, valid_ipv4. destruct (15 <? _)%nat; [done|].
  intros H. repeat (case_match; simplify_option_eq; try done).
  repeat match goal with H : read_octet _ = Some (_, _) |- _ => apply read_octet_range in H end. cbn. done.
Qed.

(** The pool is 172.20.0.0 to 172.23.255.255. *)
Lemma in_docker_pool_octets ip :
  valid_ipv4 ip → in_docker_pool ip = true ↔ octet1 ip = 172%Z ∧ (20 ≤ octet2 ip ≤ 23)%Z.
Proof.
  destruct ip as [a b c d]. unfold valid_ipv4, in_docker_pool, ipv4_u32, POOL_BASE, POOL_PREFIX, U32_MAX. cbn [octet1 octet2 octet3 octet4].
  intros (Ha & Hb & Hc & Hd). set (n := (((a * 256 + b) * 256 + c) * 256 + d)%Z).
  change (Z.land (Z.shiftl 4294967295 (32 - 14)) 4294967295) with (Z.shiftl (Z.ones 14) 18).
  assert (Hmask : Z.land n (Z.shiftl (Z.ones 14) 18) = Z.shiftl (n / 2 ^ 18) 18).
  { rewrite <- (Z.shiftr_div_pow2 n 18) by lia. apply Z.bits_inj'. intros i Hi. rewrite Z.land_spec.
    destruct (decide (i < 18)%Z) as [Hlt|Hge].
    - rewrite !Z.shiftl_spec_low by lia. by rewrite andb_false_r.
    - rewrite !Z.shiftl_spec by lia. rewrite Z.shiftr_spec by lia. replace (i - 18 + 18)%Z with i by lia.
      destruct (decide (i < 32)%Z) as [Hl|Hg].
      + rewrite Z.ones_spec_low by lia. by rewrite andb_true_r.
      + rewrite Z.ones_spec_high by lia. rewrite andb_false_r. symmetry. apply Z.bits_above_log2; [lia|].
        destruct (decide (n = 0)%Z) as [->|]; [cbn; lia|]. apply Z.log2_lt_pow2; [lia|].
        assert (2 ^ 32 ≤ 2 ^ i)%Z by (apply Z.pow_le_mono_r; lia). lia. }
  rewrite Hmask, Z.shiftl_mul_pow2, Z.eqb_eq by lia.
  change (Z.land _ _) with (2886991872)%Z.
  assert (n / 2 ^ 18 = a * 64 + b / 4)%Z as ->.
  { symmetry. apply (Z.div_unique n (2 ^ 18) _ (b mod 4 * 65536 + c * 256 + d)); unfold n; zlia. }
  change (2 ^ 18)%Z with 262144%Z. zlia.
Qed.

(** ** What a browser sends

    The headers a browser sets by itself, of a page that sends a request: where the page is,
    as the destination sees it, whether the request loads a page (a link followed, an address
    typed) and whether it opens a WebSocket. *)

Inductive Relation := SameOrigin | SameSite | CrossSite.
Definition relation_name (r : Relation) : string :=
  match r with SameOrigin => "same-origin" | SameSite => "same-site" | CrossSite => "cross-site" end.
Record Page := { relation : Relation; home : bool; loads_a_page : bool; opens_a_socket : bool }.

Section Promises.
Context (parse_url : string → Result Url string) (is_home : string → option Z → bool).

(** [Origin] and [Referer] name no other page; [Origin] comes with every socket and every
    write to another origin; [Sec-Fetch-*] comes with everything else, where it is sent at
    all; what marks a page load marks nothing else.  The destination's own origin is home, and
    its site is where the caller says so. *)
Record page_sends (d : Destination) (p : Page) (s : RequestSource) : Prop := {
  origin_is_the_page : ∀ o, origin s = Some o → url_is_home parse_url is_home o = true → home p = true;
  referer_is_the_page : ∀ r, referer s = Some r → url_is_home parse_url is_home r = true → home p = true;
  sockets_have_an_origin : opens_a_socket p = true → origin s ≠ None;
  writes_have_an_origin : relation p ≠ SameOrigin → get_or_head s = false → origin s ≠ None;
  site_is_told : sec_fetch_site s = if sends_sec_fetch d && negb (opens_a_socket p) then Some (relation_name (relation p)) else None;
  mode_is_told : sec_fetch_mode s = Some "navigate" → loads_a_page p = true;
  upgrades_are_loads : upgrade_insecure_requests s = true → loads_a_page p = true;
  own_origin_is_home : relation p = SameOrigin → home p = true;
  own_site_is_home : same_site_is_home d = true → relation p = SameSite → home p = true;
}.


End Promises.

Lemma split_once_none_contains p s : contains p s = false → split_once p s = None.
Proof. intros. by apply split_once_None. Qed.
Lemma contains_char_reverse c s : contains (String c "") (reverse_str s) = contains (String c "") s.
Proof.
  induction s as [|a s IH]; [done|]. change (String a s) with (String a "" +:+ s).
  rewrite reverse_str_app, !contains_char_app, IH. change (reverse_str (String a "")) with (String a "").
  apply orb_comm.
Qed.
(** The last place of a character that isn't in what is after it. *)
Lemma rsplit_once_char c before after :
  contains (String c "") after = false → rsplit_once (String c "") (before +:+ String c after) = Some (before, after).
Proof.
  intros Ha. unfold rsplit_once. change (String c after) with (String c "" +:+ after).
  rewrite !reverse_str_app, str_app_assoc. change (reverse_str (String c "")) with (String c "").
  rewrite split_once_literal by by rewrite contains_char_reverse. by rewrite !reverse_str_involutive.
Qed.
Lemma rsplit_once_none c s : contains (String c "") s = false → rsplit_once (String c "") s = None.
Proof. intros Hs. unfold rsplit_once. change (reverse_str (String c "")) with (String c ""). by rewrite split_once_none_contains by by rewrite contains_char_reverse. Qed.

Section Smelt.
Context (parse_url : string → Result Url string).

(** The names smelt is told it is reached by: [SMELT_ALLOWED_HOSTS]'s, then [SMELT_BASE_URL]'s. *)
Definition listed (hosts : string) : list string :=
  List.filter (λ h, negb (String.eqb h "")) (map (λ h, to_ascii_lowercase (trim h)) (split_on (Ascii.eqb ",") hosts)).
Definition base_host (base : option string) : option string :=
  base ← base; if is_blank base then None else url ← url_ok parse_url (trim base); host_str url.

Lemma elem_of_allowed_hosts base hosts name :
  name ∈ allowed_hosts parse_url base hosts →
  name ∈ listed (default "" hosts) ∨ ∃ host, base_host base = Some host ∧ name = to_ascii_lowercase host.
Proof.
  unfold allowed_hosts, base_host. fold (listed (default "" hosts)). destruct (listed _) as [|h hs]; [by intros ?%not_elem_of_nil|].
  case_match; [|by left]. rewrite elem_of_app, list_elem_of_singleton. naive_solver.
Qed.
Lemma allowed_hosts_elem base hosts name :
  name ∈ listed (default "" hosts) ∨ listed (default "" hosts) ≠ [] ∧ (∃ host, base_host base = Some host ∧ name = to_ascii_lowercase host) →
  name ∈ allowed_hosts parse_url base hosts.
Proof.
  unfold allowed_hosts, base_host. fold (listed (default "" hosts)). destruct (listed _) as [|h hs].
  { intros [?%not_elem_of_nil|[? _]]; done. }
  intros [Hin|[_ (host & Hb & ->)]]; [case_match; [apply elem_of_app; by left|done]|].
  rewrite Hb. apply elem_of_app. right. by left.
Qed.
Lemma allowed_hosts_nil base hosts : allowed_hosts parse_url base hosts = [] ↔ listed (default "" hosts) = [].
Proof.
  unfold allowed_hosts. fold (listed (default "" hosts)). destruct (listed _) as [|h hs]; [done|]. case_match; done.
Qed.
Lemma host_allowed_name name port allowed :
  contains ":" name = false → strip_prefix "[" name = None → name ≠ "" →
  (∀ digits, port = Some digits → all_bytes is_ascii_digit digits = true) →
  host_allowed (match port with Some digits => name +:+ ":" +:+ digits | None => name end) allowed
  = let name := to_ascii_lowercase name in
    is_some (parse_ip name) || String.eqb name "localhost" || ends_with ".localhost" name || existsb (String.eqb name) allowed.
Proof.
  intros Hcolon Hbracket Hne Hport. unfold host_allowed.
  assert (Hb : strip_prefix "[" (match port with Some digits => name +:+ ":" +:+ digits | None => name end) = None).
  { destruct port; [|done]. destruct name as [|a name]; [done|]. rewrite str_app_cons. revert Hbracket. cbn -[Ascii.eqb]. by destruct (Ascii.eqb "[" a). }
  rewrite Hb. destruct port as [digits|].
  - specialize (Hport digits eq_refl). change (":" +:+ digits) with (String ":" digits).
    rewrite rsplit_once_char by by apply contains_digit_free. by rewrite Hport.
  - by rewrite rsplit_once_none.
Qed.

(** The page whose request this is, as its headers tell: another site's, by [Sec-Fetch-Site],
    or where that isn't sent by an [Origin] that is no spelling of the request's host. *)
Definition from_elsewhere (headers : string → option string) : Prop :=
  (∃ site, trim <$> headers "sec-fetch-site" = Some site ∧ (site = "same-site" ∨ site = "cross-site"))
  ∨ (headers "sec-fetch-site" = None ∧ ∃ o, trim <$> headers "origin" = Some o
     ∧ ∀ url host request_host, url_ok parse_url o = Some url → host_str url = Some host →
       trim <$> (match headers "x-forwarded-host" with Some h => Some h | None => headers "host" end) = Some request_host →
       eq_ignore_ascii_case (match url_port url with Some port => host +:+ ":" +:+ show_unsigned port | None => host end) request_host = false).

(** C19. No request of another site's page changes anything: every method but GET, HEAD and
    OPTIONS is refused, by [Sec-Fetch-Site] where the browser sends it and by [Origin] where it
    doesn't.  Once smelt's names are listed, no request to a host that is another name is
    answered, whatever its method and port, unless the name is an address or [localhost]'s.  To
    a name it has, on whatever port, every read goes through, and every write of smelt's own
    pages: by [Sec-Fetch-Site], or where that isn't sent by an [Origin] that names, with its
    port if it has one and in whatever case, the host asked for, a proxy's
    [X-Forwarded-Host] before the [Host]; and so does what no page sent. *)
Theorem other_sites_change_nothing base hosts method headers :
  let allowed := allowed_hosts parse_url base hosts in
  (method ≠ "GET" → method ≠ "HEAD" → method ≠ "OPTIONS" → from_elsewhere headers → refusal parse_url method headers allowed ≠ None)
  ∧ (∀ name port, listed (default "" hosts) ≠ [] →
       contains ":" name = false → strip_prefix "[" name = None → name ≠ "" →
       (∀ digits, port = Some digits → all_bytes is_ascii_digit digits = true) →
       trim <$> headers "host" = Some (match port with Some digits => name +:+ ":" +:+ digits | None => name end) →
       to_ascii_lowercase name ∉ listed (default "" hosts) → to_ascii_lowercase <$> base_host base ≠ Some (to_ascii_lowercase name) →
       parse_ip (to_ascii_lowercase name) = None → to_ascii_lowercase name ≠ "localhost" → ends_with ".localhost" (to_ascii_lowercase name) = false →
       refusal parse_url method headers allowed ≠ None)
  ∧ ((listed (default "" hosts) = [] ∨ (∀ host, trim <$> headers "host" = Some host → host_allowed host allowed = true)
      ∨ ∃ name port, contains ":" name = false ∧ strip_prefix "[" name = None ∧ name ≠ ""
        ∧ (∀ digits, port = Some digits → all_bytes is_ascii_digit digits = true)
        ∧ trim <$> headers "host" = Some (match port with Some digits => name +:+ ":" +:+ digits | None => name end)
        ∧ (to_ascii_lowercase name ∈ listed (default "" hosts) ∨ to_ascii_lowercase <$> base_host base = Some (to_ascii_lowercase name)
           ∨ is_some (parse_ip (to_ascii_lowercase name)) = true ∨ to_ascii_lowercase name = "localhost"
           ∨ ends_with ".localhost" (to_ascii_lowercase name) = true)) →
     (method = "GET" ∨ method = "HEAD" ∨ method = "OPTIONS"
      ∨ trim <$> headers "sec-fetch-site" = Some "same-origin" ∨ trim <$> headers "sec-fetch-site" = Some "none"
      ∨ (headers "sec-fetch-site" = None ∧ headers "origin" = None)
      ∨ (headers "sec-fetch-site" = None ∧ ∃ o url host asked, trim <$> headers "origin" = Some o ∧ url_ok parse_url o = Some url
         ∧ host_str url = Some host
         ∧ trim <$> (match headers "x-forwarded-host" with Some h => Some h | None => headers "host" end) = Some asked
         ∧ to_ascii_lowercase asked
           = to_ascii_lowercase (match url_port url with Some port => host +:+ ":" +:+ show_unsigned port | None => host end))) →
     refusal parse_url method headers allowed = None).
Proof.
  cbn zeta. split; [|split].
  - intros Hg Hh Ho He. unfold refusal. case_match; [done|].
    rewrite !(proj2 (String.eqb_neq _ _)) by done. cbn [orb].
    destruct He as [(site & -> & [->| ->])|(-> & o & -> & Hno)]; [done..|]. cbn [fmap option_fmap option_map].
    destruct (url_ok parse_url o) as [url|] eqn:Eu; [|done]. cbn -[eq_ignore_ascii_case].
    destruct (host_str url) as [host|] eqn:Eh; [|done]. cbn -[eq_ignore_ascii_case].
    destruct (headers "x-forwarded-host") as [f|]; cbn -[eq_ignore_ascii_case]; [by rewrite (Hno url host (trim f))|].
    destruct (headers "host") as [h|]; cbn -[eq_ignore_ascii_case]; [by rewrite (Hno url host (trim h))|done].
  - intros name port Hl Hcolon Hbr Hne Hport Hh Hnl Hnb Hip Hloc Hsub. unfold refusal.
    destruct (allowed_hosts parse_url base hosts) as [|h hs] eqn:Eal; [by apply allowed_hosts_nil in Eal|].
    rewrite Hh. cbn [mbind option_bind]. rewrite host_allowed_name by done. cbn zeta. rewrite Hip, Hsub, (proj2 (String.eqb_neq _ _) Hloc).
    replace (existsb _ _) with false; [done|]. symmetry. apply not_true_is_false. rewrite existsb_exists.
    intros (n & Hin & <-%String.eqb_eq). rewrite <- list_elem_of_In, <- Eal in Hin.
    apply elem_of_allowed_hosts in Hin as [?|(host & Hb & Heq)]; [done|]. apply Hnb. by rewrite Hb, Heq.
  - intros Hhost Hreq. unfold refusal.
    assert ((match allowed_hosts parse_url base hosts with
             | [] => None
             | _ => host ← trim <$> headers "host"; if host_allowed host (allowed_hosts parse_url base hosts) then None else Some host
             end) = None) as ->.
    { destruct (allowed_hosts parse_url base hosts) as [|h hs] eqn:Eal; [done|].
      assert (Hne : listed (default "" hosts) ≠ []) by (intros Hn; apply (allowed_hosts_nil base) in Hn; congruence).
      destruct Hhost as [Hn|[Hhost|(name & port & Hcolon & Hbr & Hn & Hport & Hh & Hname)]]; [done| |].
      - destruct (headers "host") as [host|]; [|done]. cbn. by rewrite Hhost.
      - rewrite Hh. cbn [mbind option_bind]. rewrite host_allowed_name by done. cbn zeta. rewrite <- Eal.
        destruct Hname as [Hl|[Hb|[->|[->%String.eqb_eq| ->]]]]; rewrite ?orb_true_r; try done.
        all: replace (existsb _ _) with true; [by rewrite orb_true_r|]; symmetry; apply existsb_exists; exists (to_ascii_lowercase name);
          (split; [apply list_elem_of_In, allowed_hosts_elem|apply String.eqb_refl]).
        + by left.
        + right. split; [done|]. destruct (base_host base) as [b|]; [|done]. injection Hb as Hb. by exists b. }
    destruct Hreq as [->|[->|[->|[->|[->|[[-> ->]|(-> & o & url & host & asked & -> & Hu & Hh & Hasked & Hsame)]]]]]];
      [done..|by case_match|by case_match|by case_match|].
    destruct (String.eqb method "GET" || String.eqb method "HEAD" || String.eqb method "OPTIONS"); [done|]. cbn -[eq_ignore_ascii_case]. rewrite Hu. cbn -[eq_ignore_ascii_case]. rewrite Hh. cbn -[eq_ignore_ascii_case].
    assert (eq_ignore_ascii_case (match url_port url with Some port => host +:+ ":" +:+ show_unsigned port | None => host end) asked = true) as Heq
      by (unfold eq_ignore_ascii_case; by rewrite bool_decide_eq_true_2).
    destruct (headers "x-forwarded-host") as [f|]; [injection Hasked as <-; cbn -[eq_ignore_ascii_case]; by rewrite Heq|].
    destruct (headers "host") as [h0|]; [injection Hasked as <-; cbn -[eq_ignore_ascii_case]; by rewrite Heq|done].
Qed.
End Smelt.

(** ** Witnesses *)

(** A link on another site to a preview. *)
Definition sample_url (s : string) : Result Url string :=
  if String.eqb s "https://evil.example"
  then Ok {| scheme := "https"; host_str := Some "evil.example"; url_port := None; port_or_known_default := Some 443%Z |}
  else if String.eqb s "https://smelt.example.com"
  then Ok {| scheme := "https"; host_str := Some "smelt.example.com"; url_port := None; port_or_known_default := Some 443%Z |}
  else Err "relative URL without a base".
Definition sample_home (host : string) (_ : option Z) : bool := is_sandbox_host host.
Definition sample_destination : Destination := {| sends_sec_fetch := true; same_site_is_home := false |}.
Definition sample_link : RequestSource :=
  {| method := "GET"; origin := None; sec_fetch_site := Some "cross-site"; sec_fetch_mode := Some "navigate";
     referer := Some "https://evil.example"; upgrade_insecure_requests := true |}.
Definition sample_page : Page := {| relation := CrossSite; home := false; loads_a_page := true; opens_a_socket := false |}.


Definition sample_headers (name : string) : option string :=
  if String.eqb name "host" then Some "smelt.example.com" else if String.eqb name "origin" then Some "https://evil.example" else None.
Lemma other_sites_change_nothing_witness :
  refusal sample_url "POST" sample_headers (allowed_hosts sample_url (Some "https://smelt.example.com") None) ≠ None
  ∧ refusal sample_url "GET" sample_headers (allowed_hosts sample_url None (Some "smelt.lan, other.example")) ≠ None
  ∧ refusal sample_url "GET" sample_headers (allowed_hosts sample_url None None) = None.
Proof.
  split; [|split].
  - apply (other_sites_change_nothing sample_url (Some "https://smelt.example.com") None "POST" sample_headers); [done..|].
    right. split; [done|]. exists "https://evil.example". split; [done|].
    intros url host request_host [= <-] [= <-] [= <-]. by vm_compute.
  - apply (other_sites_change_nothing sample_url None (Some "smelt.lan, other.example") "GET" sample_headers) with (name := "smelt.example.com") (port := None);
      try done; first [by vm_compute | by apply (bool_decide_unpack _); vm_compute].
  - apply (other_sites_change_nothing sample_url None None "GET" sample_headers); [by left|by left].
Defined.

(** Whatever the comment of [preview::parse_port_slot] says of it, an octet with a leading zero
    is no octet. *)
Example a_leading_zero_is_no_address : parse_ipv4 "172.021.0.2" = None.
Proof. reflexivity. Qed.
