(* ===== verification/Previews.v ===== *)
(** * Previews: a conversation's dev servers in the user's browser

    [src/src/preview.rs]: the address each port of each sandbox gets, made from a template and
    read back from a request's [Host], and the proxy that serves it.  [src/src/db/sandbox.rs]:
    the previews a pod shares.  [src/src/sandbox/ports.rs]: the ports no route may reach.

    The [url] crate and [{:?}] are parameters.  A connection's requests are served in order:
    each answer of the outside (a dial, a handshake, whether a connection is closed or ready, a
    response) is a function of what was done so far. *)

From S2P Require Import Prelude RustStr Notices McpCalls ChatPage PodMessages AgentFiles Guards.
Local Open Scope string_scope.

Definition U16_MAX : Z := 65535.
Definition DEFAULT_PREVIEW_URL : string := "http://{port}-{conversation}.preview.localhost:8181".
Definition DEFAULT_PREVIEW_ADDR : string := "0.0.0.0:8181".

(** ** The template *)

Record PreviewTemplate := {
  template_scheme : string;
  before : string;
  between : string;
  after : string;
  port_first : bool;
}.
Definition PORT : string := "{port}".
Definition CONVERSATION : string := "{conversation}".

(** [s.contains(f)] and [s.bytes().any(f)], for a test only ASCII characters pass. *)
Definition any_byte (f : ascii → bool) (s : string) : bool := negb (all_bytes (λ a, negb (f a)) s).
Definition one_of (cs : string) (a : ascii) : bool := any_byte (Ascii.eqb a) cs.
Definition is_ascii (s : string) : bool := all_bytes (byte_in 0 127) s.
Definition is_number (s : string) : bool := negb (String.eqb s "") && all_bytes is_ascii_digit s.

(** What a template that can't be used says. *)
Section Parsing.
Context (parse_url : string → Result Url string) (debug : string → string).

Definition browser_authority (template scheme authority : string) : Result string string :=
  let invalid why := debug template +:+ " " +:+ why in
  if contains "@" authority then Err (invalid "must not hold a user name (no user@)")
  else if any_byte (one_of "[]") authority then Err (invalid "must be a host name, not an IP address in [brackets]")
  else if negb (is_ascii authority) then Err (invalid "must be written in ASCII: give a non-ASCII name in its xn-- form")
  else if any_byte ws1 authority then Err (invalid "must not hold a space or other whitespace")
  else if any_byte (one_of "%\") authority
  then Err (invalid "must not hold % or \: a browser decodes the one and reads the other as a path")
  else
    match rsplit_once ":" authority with
    | None => Ok authority
    | Some (host, port) =>
        if contains "{" port then Err (invalid "can't hold a placeholder in its port")
        else if contains ":" host then Err (invalid "must have one port at most")
        else if String.eqb port "" then Ok host
        else
          match (if all_bytes is_ascii_digit port
                 then n ← parse_unsigned U16_MAX port; if (n =? 0)%Z then None else Some n else None) with
          | None => Err (invalid "has an invalid port")
          | Some number =>
              let default := if String.eqb scheme "https" then 443%Z else 80%Z in
              if (number =? default)%Z then Ok host else Ok (host +:+ ":" +:+ show_unsigned number)
          end
    end.

(** [None] is a panic: an [expect] that isn't met. *)
Definition parse_template (template : string) : option (Result PreviewTemplate string) :=
  match split_once "://" template with
  | None => Some (Err (debug template +:+ " needs a scheme, like https://"))
  | Some (scheme, authority) =>
      if negb (String.eqb scheme "http") && negb (String.eqb scheme "https")
      then Some (Err (debug template +:+ " must be an http:// or https:// address"))
      else if any_byte (one_of "/?#") authority
      then Some (Err (debug template +:+ " must be just a scheme and host, with no path"))
      else
        let authority := to_ascii_lowercase authority in
        if negb (length (match_indices PORT authority) =? 1)%nat || negb (length (match_indices CONVERSATION authority) =? 1)%nat
        then Some (Err (debug template +:+ " must hold " +:+ PORT +:+ " and " +:+ CONVERSATION +:+ " once each"))
        else
          match browser_authority template scheme authority with
          | Err e => Some (Err e)
          | Ok authority =>
              let sample := replace_str CONVERSATION "1" (replace_str PORT "3000" authority) in
              let round_trip :=
                url ← url_ok parse_url (scheme +:+ "://" +:+ sample +:+ "/");
                host ← host_str url;
                Some (match url_port url with Some port => host +:+ ":" +:+ show_unsigned port | None => host end) in
              if negb (bool_decide (round_trip = Some sample))
              then Some (Err (debug template +:+ " gives addresses like " +:+ debug sample +:+ ", which a browser can't open"))
              else
                port_at ← str_find PORT authority;
                conversation_at ← str_find CONVERSATION authority;
                let port_first := (port_at <? conversation_at)%nat in
                let '(first, second) := if port_first then (PORT, CONVERSATION) else (CONVERSATION, PORT) in
                '(before, rest) ← split_once first authority;
                '(between, after) ← split_once second rest;
                if all_bytes is_ascii_digit between
                then Some (Err (debug template +:+ " needs something other than digits between " +:+ PORT +:+ " and " +:+ CONVERSATION))
                else Some (Ok {| template_scheme := scheme; before := before; between := between; after := after; port_first := port_first |})
          end
  end.
(** [setting]: [SMELT_PREVIEW_URL], where it is set and isn't empty. *)
Definition configured_template (setting : option string) : option (Result PreviewTemplate string) :=
  map_err (λ e, "SMELT_PREVIEW_URL is invalid: " +:+ e) <$> parse_template (default DEFAULT_PREVIEW_URL setting).
End Parsing.

(** ** Addresses of previews *)

Definition port_slot (host : PodHost) (port : Z) : string :=
  match host with
  | Localhost => show_unsigned port
  | Container ip =>
      show_unsigned (octet1 ip) +:+ "-" +:+ show_unsigned (octet2 ip) +:+ "-" +:+ show_unsigned (octet3 ip) +:+ "-"
      +:+ show_unsigned (octet4 ip) +:+ "-" +:+ show_unsigned port
  end.
Definition parse_port (s : string) : option Z := p ← parse_unsigned U16_MAX s; if (p =? 0)%Z then None else Some p.
Definition parse_port_slot (slot : string) : option (PodHost * Z) :=
  let parts := split_on (Ascii.eqb "-") slot in
  if negb (forallb is_number parts) then None
  else
    match parts with
    | [port] => port ← parse_port port; Some (Localhost, port)
    | [a; b; c; d; port] =>
        let address := a +:+ "." +:+ b +:+ "." +:+ c +:+ "." +:+ d in
        ip ← container_address address;
        if negb (String.eqb (show_ipv4 ip) address) then None
        else port ← parse_port port; Some (Container ip, port)
    | _ => None
    end.
(** The authority of [url_for]. *)
Definition authority_for (t : PreviewTemplate) (conversation_id : Z) (host : PodHost) (port : Z) : string :=
  let slot := port_slot host port in
  let '(first, second) := if port_first t then (slot, show_i64 conversation_id) else (show_i64 conversation_id, slot) in
  before t +:+ first +:+ between t +:+ second +:+ after t.
Definition url_for (t : PreviewTemplate) (conversation_id : Z) (host : PodHost) (port : Z) : string :=
  template_scheme t +:+ "://" +:+ authority_for t conversation_id host port.
Definition match_host (t : PreviewTemplate) (host : string) : option (Z * PodHost * Z) :=
  let host := to_ascii_lowercase host in
  middle ← strip_prefix (before t) host;
  middle ← strip_suffix (after t) middle;
  '(slot, conversation) ←
    (if port_first t then rsplit_once (between t) middle
     else '(conversation, slot) ← split_once (between t) middle; Some (slot, conversation));
  if negb (is_number conversation) then None
  else
    conversation ← parse_i64 conversation;
    if (0 <? conversation)%Z then '(pod_host, port) ← parse_port_slot slot; Some (conversation, pod_host, port)
    else None.
Definition match_request_host (t : PreviewTemplate) (host : string) : option (Z * PodHost * Z) :=
  let default_port := if String.eqb (template_scheme t) "https" then ":443" else ":80" in
  match_host t (default host (strip_suffix default_port host)).

(** ** The previews a pod shares *)

Definition preview_label (p : SandboxPreview) : string :=
  match ChatPage.host p with
  | Some host => host +:+ ":" +:+ show_unsigned (ChatPage.port p)
  | None => "port " +:+ show_unsigned (ChatPage.port p)
  end.
Definition preview_links (t : PreviewTemplate) (conversation_id : Z) (previews : list (PodHost * Z)) : list SandboxPreview :=
  map (λ '(host, port), {|
    ChatPage.port := port;
    ChatPage.host := match host with Localhost => None | Container ip => Some (show_ipv4 ip) end;
    preview_url := url_for t conversation_id host port |}) previews.
Definition stored_host (host : PodHost) : string := match host with Localhost => "" | Container ip => show_ipv4 ip end.
Definition stored_previews (rows : list (string * Z)) : list (PodHost * Z) :=
  omap (λ '(host, port), h ← (if String.eqb host "" then Some Localhost else Container <$> container_address host); Some (h, port)) rows.

(** The table's rows, and the order the database gives them in. *)
Section Rows.
Context (row_le : string * Z → string * Z → bool).
Definition PodPreviews : Type := list (Z * string * Z).
Definition list_pod_previews (pod_id : Z) (rows : PodPreviews) : list (string * Z) :=
  List.filter (λ '(_, port), bool_decide (0 ≤ port ≤ U16_MAX)%Z)
    (sort_by row_le (omap (λ '(pod, host, port), if (pod =? pod_id)%Z then Some (host, port) else None) rows)).
Definition add_pod_preview (pod_id : Z) (host : string) (port : Z) (rows : PodPreviews) : list (string * Z) * PodPreviews :=
  let rows := if bool_decide ((pod_id, host, port) ∈ rows) then rows else app rows [(pod_id, host, port)] in
  (list_pod_previews pod_id rows, rows).

Inductive ShareError := NoSandbox | PreviewsOff (why : string) | Other (why : string).
(** [live]: the live pod's row, or why there is none ([None]: there is none); [template]: the
    configured one; [listening]: the probe; [fault]: the insert's or the read's error, and
    whether the row was in by then. *)
Definition share (conversation_id : Z) (host : PodHost) (port : Z) (live : Result Z (option string)) (template : Result PreviewTemplate string)
    (listening : Result bool string) (fault : option (string * bool)) (rows : PodPreviews)
    : Result (string * bool) ShareError * option (Z * list SandboxPreview) * PodPreviews :=
  match live with
  | Err None => (Err NoSandbox, None, rows)
  | Err (Some other) => (Err (Other other), None, rows)
  | Ok pod_id =>
      match template with
      | Err why => (Err (PreviewsOff why), None, rows)
      | Ok t =>
          match listening with
          | Err e => (Err (Other e), None, rows)
          | Ok listening =>
              let '(ports, added) := add_pod_preview pod_id (stored_host host) port rows in
              match fault with
              | Some (e, inserted) => (Err (Other e), None, if inserted then added else rows)
              | None =>
                  (Ok (url_for t conversation_id host port, listening),
                   Some (pod_id, preview_links t conversation_id (stored_previews ports)), added)
              end
          end
      end
  end.
End Rows.

(** ** The proxy *)

Definition what (host : PodHost) (port : Z) : string :=
  match host with Localhost => "port " +:+ show_unsigned port | Container ip => show_ipv4 ip +:+ ":" +:+ show_unsigned port end.
Definition local_authority (host : PodHost) (port : Z) : string :=
  match host with Localhost => "localhost:" +:+ show_unsigned port | Container ip => show_ipv4 ip +:+ ":" +:+ show_unsigned port end.
(** [valid]: whether a text may be a header's value. *)
Definition rewrite_location (valid : string → bool) (location : option string) (host : PodHost) (port : Z) (preview_base : string) : option string :=
  match location with
  | None => None
  | Some l =>
      let names := match host with Localhost => ["localhost"; "127.0.0.1"; "[::1]"] | Container ip => [show_ipv4 ip] end in
      match head (omap (λ name,
               rest ← strip_prefix ("http://" +:+ name +:+ ":" +:+ show_unsigned port) l;
               if String.eqb rest "" || starts_with "/" rest || starts_with "?" rest || starts_with "#" rest
               then Some (preview_base +:+ rest) else None) names) with
      | Some rewritten => if valid rewritten then Some rewritten else location
      | None => location
      end
  end.

Record DialError := { message : string; no_sandbox : bool }.
Record Upstream := { up_conversation : Z; up_host : PodHost; up_port : Z; up_sender : nat }.
(** A request: its [Host] ("" if it has none), who sent it, whether it asks for an upgrade, and
    whether it has no body. *)
Record PreviewRequest := { host_header : string; sent_by : RequestSource; has_upgrade : bool; is_end_stream : bool }.
(** What is read of the dev server's response. *)
Record DevResponse := { status : Z; location : option string }.
Inductive PreviewResponse :=
  | Text (status : Z) (text : string)
  | NoSandboxPage (conversation : Z) (host : PodHost) (port : Z)
  | Answer (r : DevResponse).
(** What a request did outside: the pod noted as in use, a dial and its handshake, a look at a
    sender, a request sent with its [Host]. *)
Inductive Did :=
  | Noted (conversation : Z)
  | Dialled (conversation : Z) (host : PodHost) (port : Z)
  | Shook
  | Readied (sender : nat)
  | Sent (sender : nat) (host_header : string).
(** The outside, by what was done before. *)
Record Outside := {
  dial_answer : list Did → Result unit DialError;
  handshake_answer : list Did → Result unit string;
  is_closed : list Did → nat → bool;
  is_ready : list Did → nat → bool;
  send_answer : list Did → nat → Result DevResponse string;
}.
Record KeptConnection := { cached : option Upstream; did : list Did }.

Section Proxy.
Context (parse_url : string → Result Url string) (valid_header : string → bool) (t : PreviewTemplate) (o : Outside).

(** A fresh connection, named by its dial's place in what was done. *)
Definition connect (conversation : Z) (host : PodHost) (port : Z) (log : list Did) : Result nat PreviewResponse * list Did :=
  let sender := length log in
  let answer := dial_answer o log in
  let log := app log [Dialled conversation host port] in
  match answer with
  | Err e => (Err (if no_sandbox e then NoSandboxPage conversation host port else Text 502 (message e)), log)
  | Ok _ =>
      match handshake_answer o log with
      | Err e => (Err (Text 502 ("Couldn't talk to " +:+ what host port +:+ " in the sandbox: " +:+ e)), app log [Shook])
      | Ok _ => (Ok sender, app log [Shook])
      end
  end.
Definition send (sender : nat) (local : string) (log : list Did) : Result DevResponse string * list Did :=
  (send_answer o log sender, app log [Sent sender local]).
Definition sends_sec_fetch_to (host : string) : bool :=
  String.eqb (template_scheme t) "https"
  || default false (url ← url_ok parse_url ("http://" +:+ host); browser_sends_sec_fetch <$> host_str url).
Definition is_home_of (conversation : Z) (host : string) (port : option Z) : bool :=
  match match_host t (match port with Some port => host +:+ ":" +:+ show_unsigned port | None => host end) with
  | Some (c, _, _) => (c =? conversation)%Z
  | None => false
  end.
(** The conversation, host and port a request goes to, or the refusal. *)
Definition target_of (r : PreviewRequest) : Result (Z * PodHost * Z) PreviewResponse :=
  match match_request_host t (host_header r) with
  | None => Err (Text 404 "This isn't a sandbox preview address.")
  | Some (conversation, host, port) =>
      let destination := {| sends_sec_fetch := sends_sec_fetch_to (host_header r); same_site_is_home := false |} in
      if allows_request_from parse_url (sent_by r) destination (is_home_of conversation) then Ok (conversation, host, port)
      else Err (Text 403 "Refused: a page from another site tried to reach this preview. Open the preview's link from smelt instead.")
  end.
(** The connection it is sent on, and whether that is a reused one. *)
Definition sender_for (up : option Upstream) (conversation : Z) (host : PodHost) (port : Z) (log : list Did)
    : Result (nat * bool) PreviewResponse * list Did :=
  let fresh log :=
    match connect conversation host port log with (Ok sender, log) => (Ok (sender, false), log) | (Err r, log) => (Err r, log) end in
  match up with
  | Some up =>
      if (up_conversation up =? conversation)%Z && bool_decide (up_host up = host) && (up_port up =? port)%Z && negb (is_closed o log (up_sender up))
      then if is_ready o log (up_sender up) then (Ok (up_sender up, true), app log [Readied (up_sender up)])
           else fresh (app log [Readied (up_sender up)])
      else fresh log
  | None => fresh log
  end.
(** The response, the connection it came on, whether that was reused. *)
Definition exchange (r : PreviewRequest) (conversation : Z) (host : PodHost) (port : Z) (sender : nat) (reused : bool) (log : list Did)
    : Result (DevResponse * nat) PreviewResponse * list Did :=
  let local := local_authority host port in
  let gone reused := Text 502
    (if reused : bool
     then "The connection to " +:+ what host port +:+ " in this conversation's sandbox closed. Reload to try again."
     else "Nothing is listening on " +:+ what host port +:+ " in this conversation's sandbox.") in
  match send sender local log with
  | (Ok response, log) => (Ok (response, sender), log)
  | (Err _, log) =>
      if is_end_stream r && reused then
        match connect conversation host port log with
        | (Err response, log) => (Err response, log)
        | (Ok sender, log) =>
            match send sender local log with
            | (Ok response, log) => (Ok (response, sender), log)
            | (Err _, log) => (Err (gone false), log)
            end
        end
      else (Err (gone reused), log)
  end.
Definition handle (r : PreviewRequest) (s : KeptConnection) : PreviewResponse * KeptConnection :=
  match target_of r with
  | Err response => (response, s)
  | Ok (conversation, host, port) =>
      match sender_for (cached s) conversation host port (app (did s) [Noted conversation]) with
      | (Err response, log) => (response, {| cached := None; did := log |})
      | (Ok (sender, reused), log) =>
          match exchange r conversation host port sender reused log with
          | (Err response, log) => (response, {| cached := None; did := log |})
          | (Ok (response, sender), log) =>
              let keep := if has_upgrade r && (status response =? 101)%Z then None
                          else Some {| up_conversation := conversation; up_host := host; up_port := port; up_sender := sender |} in
              (Answer {| status := status response;
                         location := rewrite_location valid_header (location response) host port (url_for t conversation host port) |},
               {| cached := keep; did := log |})
          end
      end
  end.
End Proxy.

(** ** Text around digits *)

Lemma all_bytes_reverse f s : all_bytes f (reverse_str s) = all_bytes f s.
Proof.
  induction s as [|a s IH]; [done|]. change (String a s) with (String a "" +:+ s).
  rewrite reverse_str_app, !all_bytes_app, IH. change (reverse_str (String a "")) with (String a ""). apply andb_comm.
Qed.
Lemma take_while_app f s t : all_bytes f s = false → take_while f (s +:+ t) = take_while f s.
Proof.
  induction s as [|a s IH]; [done|]. rewrite str_app_cons. cbn. destruct (f a); [|done]. cbn. intros. by rewrite IH.
Qed.
Lemma take_while_all_app f s t : all_bytes f s = true → take_while f (s +:+ t) = s +:+ take_while f t.
Proof.
  induction s as [|a s IH]; [by rewrite !str_app_nil_l|]. rewrite !str_app_cons. cbn. intros [-> Hs]%andb_true_iff. by rewrite IH.
Qed.
(** A separator that isn't digits only is first found after the digits before it. *)
Lemma split_once_after f D q r :
  all_bytes f D = true → all_bytes f q = false → split_once q (D +:+ q +:+ r) = Some (D, r).
Proof.
  intros HD Hq. induction D as [|a D IH].
  - rewrite str_app_nil_l. destruct q as [|b q]; [done|].
    pose proof (strip_prefix_app (String b q) r) as Hs. rewrite str_app_cons in *. cbn [split_once]. by rewrite Hs.
  - rewrite str_app_cons. cbn [split_once]. destruct (strip_prefix q (String a (D +:+ q +:+ r))) as [rest|] eqn:E.
    + apply strip_prefix_Some in E. exfalso.
      assert (Ht : take_while f (String a D +:+ q +:+ r) = take_while f (q +:+ rest)).
      { rewrite str_app_cons. by rewrite E. }
      rewrite take_while_all_app, !take_while_app in Ht by done.
      apply (f_equal String.length) in Ht. rewrite str_length_app in Ht. cbn in Ht. lia.
    + cbn in HD. apply andb_true_iff in HD as [_ HD]. by rewrite IH.
Qed.
Lemma rsplit_once_before f D q r :
  all_bytes f D = true → all_bytes f q = false → rsplit_once q (r +:+ q +:+ D) = Some (r, D).
Proof.
  intros HD Hq. unfold rsplit_once. rewrite !reverse_str_app, str_app_assoc.
  rewrite (split_once_after f) by by rewrite all_bytes_reverse. by rewrite !reverse_str_involutive.
Qed.

Lemma split_on_none f s : all_bytes (λ a, negb (f a)) s = true → split_on f s = [s].
Proof. induction s as [|a s IH]; [done|]. cbn. intros [->%negb_true_iff Hs]%andb_true_iff. by rewrite IH. Qed.
Lemma split_on_app f s c t :
  all_bytes (λ a, negb (f a)) s = true → f c = true → split_on f (s +:+ String c t) = s :: split_on f t.
Proof.
  intros Hs Hc. induction s as [|a s IH]; [rewrite str_app_nil_l; cbn; by rewrite Hc|].
  rewrite str_app_cons. cbn in *. apply andb_true_iff in Hs as [->%negb_true_iff Hs]. by rewrite IH.
Qed.
Lemma all_bytes_weaken f g s : (∀ a, f a = true → g a = true) → all_bytes f s = true → all_bytes g s = true.
Proof. intros Hfg. induction s as [|a s IH]; [done|]. cbn. intros [Ha Hs]%andb_true_iff. by rewrite Hfg, IH. Qed.

Lemma to_lower_app s t : to_ascii_lowercase (s +:+ t) = to_ascii_lowercase s +:+ to_ascii_lowercase t.
Proof. unfold to_ascii_lowercase. induction s as [|a s IH]; [by rewrite !str_app_nil_l|]. rewrite str_app_cons. cbn. by rewrite IH. Qed.
Lemma ascii_lower_idemp a : ascii_lower (ascii_lower a) = ascii_lower a.
Proof. destruct a as [[] [] [] [] [] [] [] []]; reflexivity. Qed.
Definition lowercase (s : string) : Prop := to_ascii_lowercase s = s.
Lemma lowercase_app s t : lowercase (s +:+ t) ↔ lowercase s ∧ lowercase t.
Proof.
  unfold lowercase. rewrite to_lower_app. split; [|by intros [-> ->]].
  intros H. assert (Hs : to_ascii_lowercase s = s); [|rewrite Hs in H; by apply str_app_inv_l in H].
  revert H. unfold to_ascii_lowercase. induction s as [|a s IH]; [done|]. rewrite !str_app_cons. cbn. rewrite str_app_cons.
  intros [= -> Hs]. by rewrite IH.
Qed.
Lemma digit_lower a : is_ascii_digit a = true → ascii_lower a = a.
Proof. destruct a as [[] [] [] [] [] [] [] []]; by vm_compute. Qed.
Lemma digits_lowercase s : all_bytes is_ascii_digit s = true → lowercase s.
Proof.
  unfold lowercase, to_ascii_lowercase. induction s as [|a s IH]; [done|]. cbn. intros [Ha Hs]%andb_true_iff.
  by rewrite digit_lower, IH.
Qed.
Lemma lowercase_to_lower s : lowercase (to_ascii_lowercase s).
Proof. unfold lowercase, to_ascii_lowercase. apply map_bytes_idemp, ascii_lower_idemp. Qed.

Lemma show_unsigned_number n : is_number (show_unsigned n) = true.
Proof.
  unfold is_number. rewrite show_unsigned_digits, andb_true_r. apply negb_true_iff, String.eqb_neq.
  unfold show_unsigned, pretty, pretty_N. case_decide as E; [done|].
  destruct (pretty_N_go_head (Z.to_N n) "") as (a & t & -> & _); [lia|done].
Qed.
Lemma show_i64_digits n : (0 ≤ n)%Z → show_i64 n = show_unsigned n.
Proof. unfold show_i64. destruct (Z.ltb_spec n 0); [lia|done]. Qed.
Lemma strip_sign_digits c s : is_ascii_digit c = false → all_bytes is_ascii_digit s = true → strip_prefix (String c "") s = None.
Proof.
  intros Hc Hs. destruct s as [|a s]; [done|]. cbn in Hs |- *. apply andb_true_iff in Hs as [Ha _].
  destruct (Ascii.eqb_spec c a); [congruence|done].
Qed.
Lemma parse_i64_shown n : (0 ≤ n ≤ I64_MAX)%Z → parse_i64 (show_unsigned n) = Some n.
Proof.
  intros Hn. unfold parse_i64. rewrite (strip_sign_digits "-") by (done || apply show_unsigned_digits).
  by apply parse_show_unsigned.
Qed.

(** ** Reading a preview's address back *)

(** The hosts and ports a preview can be of. *)
Definition in_the_pod (host : PodHost) : Prop :=
  match host with Localhost => True | Container ip => valid_ipv4 ip ∧ in_docker_pool ip = true end.
Definition a_port (port : Z) : Prop := (1 ≤ port ≤ U16_MAX)%Z.

Lemma digits_without c s :
  is_ascii_digit c = false → all_bytes is_ascii_digit s = true → all_bytes (λ a, negb (Ascii.eqb c a)) s = true.
Proof. intros Hc. apply all_bytes_weaken. intros a Ha. destruct (Ascii.eqb_spec c a); [congruence|done]. Qed.
#[local] Hint Resolve show_unsigned_digits : smelt.
Lemma split_shown n c t : is_ascii_digit c = false → split_on (Ascii.eqb c) (show_unsigned n +:+ String c "" +:+ t) = show_unsigned n :: split_on (Ascii.eqb c) t.
Proof. intros Hc. rewrite str_app_cons, str_app_nil_l. apply split_on_app; [|apply Ascii.eqb_refl]. apply digits_without; auto with smelt. Qed.
Lemma split_shown_last n c : is_ascii_digit c = false → split_on (Ascii.eqb c) (show_unsigned n) = [show_unsigned n].
Proof. intros Hc. apply split_on_none, digits_without; auto with smelt. Qed.

Lemma parse_port_shown port : a_port port → parse_port (show_unsigned port) = Some port.
Proof.
  intros Hp. unfold parse_port. unfold a_port in Hp. rewrite parse_show_unsigned by lia. cbn.
  destruct (Z.eqb_spec port 0); [lia|done].
Qed.
Lemma parse_shown_slot host port :
  in_the_pod host → a_port port → parse_port_slot (port_slot host port) = Some (host, port).
Proof.
  intros Hh Hp. unfold parse_port_slot, port_slot. destruct host as [|ip].
  - rewrite split_shown_last by done. cbn [forallb]. rewrite show_unsigned_number. cbn. by rewrite parse_port_shown.
  - destruct Hh as [Hip Hpool]. rewrite !split_shown, split_shown_last by done.
    cbn [forallb]. rewrite !show_unsigned_number. cbn [andb negb].
    change (show_unsigned (octet1 ip) +:+ "." +:+ _) with (show_ipv4 ip). unfold container_address.
    rewrite parse_show_ipv4 by done. cbn [mbind option_bind]. rewrite Hpool. cbn [mbind option_bind].
    rewrite String.eqb_refl. cbn [negb]. by rewrite parse_port_shown.
Qed.
Lemma slot_lowercase host port : lowercase (port_slot host port).
Proof. destruct host; cbn [port_slot]; rewrite ?lowercase_app; split_and?; try done; apply digits_lowercase; auto with smelt. Qed.

(** What [parse] promises of a template: its parts are lower case, its placeholders are told
    apart, and after a port that isn't the scheme's own there is no other. *)
Record template_ok (t : PreviewTemplate) : Prop := {
  parts_lowercase : lowercase (before t) ∧ lowercase (between t) ∧ lowercase (after t);
  between_not_digits : all_bytes is_ascii_digit (between t) = false;
  one_port : contains ":" (before t) = false ∧ contains ":" (between t) = false
    ∧ (contains ":" (after t) = false
       ∨ ∃ name n, after t = name +:+ ":" +:+ show_unsigned n ∧ contains ":" name = false
         ∧ n ≠ (if String.eqb (template_scheme t) "https" then 443 else 80)%Z ∧ (0 ≤ n)%Z);
}.

Lemma authority_lowercase t c host port :
  template_ok t → (0 ≤ c)%Z → lowercase (authority_for t c host port).
Proof.
  intros [(? & ? & ?) _ _] Hc. unfold authority_for. rewrite show_i64_digits by done.
  destruct (port_first t); rewrite !lowercase_app; split_and!; try done;
    first [apply slot_lowercase | apply digits_lowercase, show_unsigned_digits].
Qed.
Lemma match_authority t c host port :
  template_ok t → (1 ≤ c ≤ I64_MAX)%Z → in_the_pod host → a_port port →
  match_host t (authority_for t c host port) = Some (c, host, port).
Proof.
  intros Ht Hc Hh Hp. unfold match_host. rewrite authority_lowercase by (done || lia).
  unfold authority_for. rewrite show_i64_digits by lia.
  assert (Hslot : ∀ conversation, (if port_first t
     then rsplit_once (between t) (port_slot host port +:+ between t +:+ conversation)
     else '(conversation, slot) ← split_once (between t) (conversation +:+ between t +:+ port_slot host port); Some (slot, conversation))
     = Some (port_slot host port, conversation) ∨ all_bytes is_ascii_digit conversation = false).
  { intros conversation. destruct (all_bytes is_ascii_digit conversation) eqn:E; [left|by right].
    destruct (port_first t); [by rewrite (rsplit_once_before is_ascii_digit) by (done || apply Ht)|].
    by rewrite (split_once_after is_ascii_digit) by (done || apply Ht). }
  destruct (Hslot (show_unsigned c)) as [Hs|Hs]; [|by rewrite show_unsigned_digits in Hs].
  assert (∃ middle, (let '(first, second) := if port_first t then (port_slot host port, show_unsigned c) else (show_unsigned c, port_slot host port) in
            before t +:+ first +:+ between t +:+ second +:+ after t) = before t +:+ middle +:+ after t
          ∧ (if port_first t then rsplit_once (between t) middle
             else '(conversation, slot) ← split_once (between t) middle; Some (slot, conversation)) = Some (port_slot host port, show_unsigned c))
    as (middle & -> & Hm).
  { destruct (port_first t); eexists; (split; [|exact Hs]); by rewrite !str_app_assoc. }
  rewrite strip_prefix_app. cbn [mbind option_bind]. rewrite strip_suffix_app. cbn [mbind option_bind].
  rewrite Hm. cbn [mbind option_bind]. rewrite show_unsigned_number. cbn [negb].
  rewrite parse_i64_shown by lia. cbn [mbind option_bind]. replace (0 <? c)%Z with true by (symmetry; apply Z.ltb_lt; lia).
  by rewrite parse_shown_slot.
Qed.

(** ** Templates *)

Lemma contains_occurrence p b a : contains p (b +:+ p +:+ a) = true.
Proof.
  unfold contains. induction b as [|c b IH].
  - rewrite str_app_nil_l. pose proof (strip_prefix_app p a) as Hs. destruct (p +:+ a); cbn [split_once]; by rewrite Hs.
  - rewrite str_app_cons. cbn [split_once]. destruct (strip_prefix p _); [done|]. by destruct (split_once p (b +:+ p +:+ a)) as [[??]|].
Qed.
Lemma contains_split p s : contains p s = true ↔ ∃ b a, s = b +:+ p +:+ a.
Proof.
  split; [|intros (b & a & ->); apply contains_occurrence].
  unfold contains. destruct (split_once p s) as [[b a]|] eqn:E; [|done]. intros _. exists b, a. by apply split_once_Some.
Qed.
(** Where the character at [c]'s place is in two halves of a text. *)
Lemma app_split_char u v h c q :
  u +:+ v = h +:+ String c q →
  (∃ x, h = u +:+ x ∧ v = x +:+ String c q) ∨ (∃ y, u = h +:+ String c y ∧ q = y +:+ v).
Proof.
  revert h. induction u as [|a u IH]; intros h; [rewrite str_app_nil_l; intros ->; left; by exists h|].
  destruct h as [|b h]; rewrite ?str_app_nil_l, ?str_app_cons.
  - intros [= -> <-]. right. by exists u.
  - intros [= -> Hu]. destruct (IH h Hu) as [(x & -> & ->)|(y & -> & ->)].
    + left. by exists x.
    + right. by exists y.
Qed.
Lemma contains_mid c s t : contains (String c "") (s +:+ String c t) = true.
Proof. rewrite contains_char_app, contains_char_cons, Ascii.eqb_refl. apply orb_true_r. Qed.
Lemma rsplit_once_char_Some c s b a : rsplit_once (String c "") s = Some (b, a) → s = b +:+ String c a ∧ contains (String c "") a = false.
Proof.
  unfold rsplit_once. change (reverse_str (String c "")) with (String c "").
  destruct (split_once (String c "") (reverse_str s)) as [[x y]|] eqn:E; [|done]. intros [= <- <-].
  apply split_once_char_Some in E as [E Hx]. split.
  - rewrite <- (reverse_str_involutive s), E. change (String c y) with (String c "" +:+ y).
    rewrite !reverse_str_app, str_app_assoc. done.
  - by rewrite contains_char_reverse.
Qed.
(** A placeholder before a port that holds none is before the port's colon. *)
Lemma contains_before_colon p b host port :
  contains ":" p = false → contains "{" port = false → contains "{" p = true →
  contains p (host +:+ ":" +:+ port) = true → b = host ∨ b = host +:+ ":" +:+ port → contains p b = true.
Proof.
  intros Hp Hport Hbrace (x & y & Heq)%contains_split Hb. change (":" +:+ port) with (String ":" port) in *.
  assert (Hin : contains p host = true).
  { symmetry in Heq. apply app_split_char in Heq as [(z & -> & Hz)|(z & -> & ->)].
    - apply app_split_char in Hz as [(w & -> & _)|(w & -> & _)]; [apply contains_occurrence|].
      by rewrite contains_mid in Hp.
    - rewrite !contains_char_app, Hbrace in Hport. by rewrite orb_true_r in Hport. }
  destruct Hb as [->| ->]; [done|]. apply contains_split in Hin as (b0 & a0 & ->). rewrite !str_app_assoc. apply contains_occurrence.
Qed.

Section Templates.
Context (parse_url : string → Result Url string) (debug : string → string).

(** What a browser's form of an authority promises: at most one port, which isn't the scheme's. *)
Definition browser_form (scheme a : string) : Prop :=
  contains ":" a = false
  ∨ ∃ host n, a = host +:+ String ":" (show_unsigned n) ∧ contains ":" host = false
    ∧ n ≠ (if String.eqb scheme "https" then 443 else 80)%Z ∧ (0 ≤ n)%Z.
Lemma parse_unsigned_nonneg max s n : (0 ≤ max)%Z → parse_unsigned max s = Some n → (0 ≤ n ≤ max)%Z.
Proof.
  unfold parse_unsigned. intros Hmax. case_bool_decide; [done|].
  assert (Hd : ∀ s acc, (0 ≤ acc ≤ max)%Z → parse_digits max acc s = Some n → (0 ≤ n ≤ max)%Z).
  { clear. induction s as [|a s IH]; intros acc Hacc; cbn; [by intros [= <-]|].
    destruct (is_ascii_digit a) eqn:Ha; cbn; [|done]. destruct (Z.leb_spec (acc * 10 + (Z.of_nat (nat_of_ascii a) - 48)) max); [|done].
    apply IH. unfold is_ascii_digit, byte_in in Ha. apply andb_true_iff in Ha as [Ha%Nat.leb_le _]. lia. }
  apply Hd. lia.
Qed.
Lemma browser_authority_ok template scheme authority a :
  browser_authority debug template scheme authority = Ok a → lowercase authority →
  lowercase a ∧ browser_form scheme a
  ∧ ∀ p, contains ":" p = false → contains "{" p = true → contains p authority = true → contains p a = true.
Proof.
  unfold browser_authority. intros H Hlow.
  repeat (match type of H with (if ?c then Err _ else _) = _ => destruct c; [discriminate H|] end).
  destruct (rsplit_once ":" authority) as [[host port]|] eqn:E.
  2: { simplify_eq/=. split; [done|]. split; [left|auto]. unfold rsplit_once in E. change (reverse_str ":") with ":" in E.
       destruct (split_once ":" (reverse_str a)) as [[??]|] eqn:E'; [done|]. apply split_once_None in E'. by rewrite contains_char_reverse in E'. }
  apply rsplit_once_char_Some in E as [-> Hport].
  destruct (contains "{" port) eqn:Hbrace; [done|]. destruct (contains ":" host) eqn:Hhost; [done|].
  apply (lowercase_app host (String ":" port)) in Hlow as [Hlow _].
  assert (Hpl : ∀ b p, b = host ∨ b = host +:+ ":" +:+ port → contains ":" p = false → contains "{" p = true →
    contains p (host +:+ String ":" port) = true → contains p b = true).
  { intros b p Hb Hp Hpb Hc. by apply (contains_before_colon p b host port). }
  destruct (String.eqb port ""); [simplify_eq; split; [done|]; split; [by left|]; intros p; apply Hpl; by left|].
  destruct (all_bytes is_ascii_digit port); [|done]. destruct (parse_unsigned U16_MAX port) as [n|] eqn:En; [|done].
  apply parse_unsigned_nonneg in En; [|done]. cbn in H. destruct (Z.eqb_spec n 0); [done|]. cbn in H.
  destruct (Z.eqb_spec n (if String.eqb scheme "https" then 443 else 80)).
  { simplify_eq. split; [done|]; split; [by left|]; intros p; apply Hpl; by left. }
  injection H as <-. split.
  { apply lowercase_app. split; [done|]. apply (lowercase_app ":"). split; [done|]. apply digits_lowercase, show_unsigned_digits. }
  split; [right; exists host, n; split_and!; done || lia|]. intros p Hp Hpb Hc.
  assert (contains p host = true) as (x & y & ->)%contains_split by (apply Hpl; auto).
  rewrite !str_app_assoc. apply contains_occurrence.
Qed.

Lemma str_find_Some p s i : str_find p s = Some i → ∃ b a, s = b +:+ p +:+ a ∧ String.length b = i ∧ split_once p s = Some (b, a).
Proof.
  unfold str_find. destruct (split_once p s) as [[b a]|] eqn:E; [|done]. intros [= <-]. exists b, a. by split; [apply split_once_Some|].
Qed.
Lemma str_find_contains p s : contains p s = true → ∃ i, str_find p s = Some i.
Proof. unfold contains, str_find. destruct (split_once p s) as [[b a]|]; [|done]. eauto. Qed.
(** One placeholder found before the other ends before it. *)
Lemma later_placeholder f2 s2 b1 a1 b2 a2 :
  contains "{" f2 = false → (String.length b1 < String.length b2)%nat →
  b1 +:+ String "{" f2 +:+ a1 = b2 +:+ String "{" s2 +:+ a2 → contains (String "{" s2) a1 = true.
Proof.
  intros Hf Hlen Heq. rewrite <- str_app_assoc in Heq. rewrite (str_app_cons _ s2) in Heq.
  apply app_split_char in Heq as [(x & -> & ->)|(y & Hy & _)].
  - rewrite <- str_app_cons. apply contains_occurrence.
  - exfalso. apply app_split_char in Hy as [(x & -> & Hx)|(x & -> & _)].
    + destruct x as [|c x]; [rewrite str_app_nil_r in Hlen; lia|]. rewrite str_app_cons in Hx. injection Hx as _ ->.
      by rewrite contains_mid in Hf.
    + rewrite str_length_app in Hlen. cbn in Hlen. lia.
Qed.
Lemma matches_contain p s : length (match_indices p s) ≠ 0%nat → contains p s = true.
Proof.
  destruct (match_indices p s) as [|i l] eqn:E; [done|]. intros _.
  destruct (match_indices_sound p s i) as [H _]; [rewrite E; by left|].
  apply starts_with_true in H as [r Hr]. rewrite <- (str_take_drop i s), Hr. apply contains_occurrence.
Qed.

Lemma placeholders_split authority :
  contains PORT authority = true → contains CONVERSATION authority = true →
  ∃ port_at conversation_at b m a, str_find PORT authority = Some port_at ∧ str_find CONVERSATION authority = Some conversation_at
  ∧ let '(first, second) := if (port_at <? conversation_at)%nat then (PORT, CONVERSATION) else (CONVERSATION, PORT) in
    split_once first authority = Some (b, m +:+ second +:+ a) ∧ split_once second (m +:+ second +:+ a) = Some (m, a)
    ∧ authority = b +:+ first +:+ m +:+ second +:+ a.
Proof.
  intros (i & Hi)%str_find_contains (j & Hj)%str_find_contains. exists i, j.
  pose proof Hi as (b1 & a1 & E1 & L1 & S1)%str_find_Some. pose proof Hj as (b2 & a2 & E2 & L2 & S2)%str_find_Some.
  destruct (Nat.ltb_spec i j) as [Hlt|Hge].
  - assert (contains CONVERSATION a1 = true) as Hc.
    { apply (later_placeholder "port}" "conversation}" b1 a1 b2 a2); [done|lia|]. exact (eq_trans (eq_sym E1) E2). }
    unfold contains in Hc. destruct (split_once CONVERSATION a1) as [[m a]|] eqn:E; [|done].
    pose proof E as ->%split_once_Some. exists b1, m, a. split_and!; try done.
  - assert (i ≠ j).
    { intros ->. apply (f_equal (str_drop (String.length b1))) in E1. rewrite E2 in E1 at 1.
      replace (String.length b1) with (String.length b2) in E1 at 1 by lia. by rewrite !str_drop_app in E1. }
    assert (contains PORT a2 = true) as Hc.
    { apply (later_placeholder "conversation}" "port}" b2 a2 b1 a1); [done|lia|]. exact (eq_trans (eq_sym E2) E1). }
    unfold contains in Hc. destruct (split_once PORT a2) as [[m a]|] eqn:E; [|done].
    pose proof E as ->%split_once_Some. exists b2, m, a. split_and!; try done.
Qed.

(** The one colon of a browser's form is after the placeholders. *)
Lemma colon_comes_last scheme b f m c a :
  contains ":" f = false → contains "{" f = true → contains ":" c = false → (∃ c', c = c' +:+ "}") →
  browser_form scheme (b +:+ f +:+ m +:+ c +:+ a) →
  contains ":" b = false ∧ contains ":" m = false
  ∧ (contains ":" a = false ∨ ∃ name n, a = name +:+ ":" +:+ show_unsigned n ∧ contains ":" name = false
     ∧ n ≠ (if String.eqb scheme "https" then 443 else 80)%Z ∧ (0 ≤ n)%Z).
Proof.
  intros Hf _ Hc (c' & ->) [Hno|(host & n & Heq & Hhost & Hn & H0)].
  - rewrite !contains_char_app, !orb_false_iff in Hno. tauto.
  - rewrite <- !str_app_assoc in Heq. apply app_split_char in Heq as [(x & -> & ->)|(y & Hy & Hsn)].
    + rewrite !contains_char_app, !orb_false_iff in Hhost. split; [tauto|]. split; [tauto|].
      right. exists x, n. split; [done|]. tauto.
    + exfalso. apply app_split_char in Hy as [(x & _ & Hx)|(y' & _ & ->)].
      * destruct x as [|d x]; [done|]. rewrite str_app_cons in Hx. injection Hx as _ Hx. by destruct x.
      * assert (Hd : contains "}" (show_unsigned n) = false) by by apply contains_digit_free; [|apply show_unsigned_digits].
        by rewrite Hsn, !contains_char_app, contains_char_cons, orb_true_r in Hd.
Qed.
Lemma template_parts_ok scheme b f m c a pf :
  lowercase (b +:+ f +:+ m +:+ c +:+ a) → browser_form scheme (b +:+ f +:+ m +:+ c +:+ a) →
  contains ":" f = false → contains "{" f = true → contains ":" c = false → (∃ c', c = c' +:+ "}") →
  all_bytes is_ascii_digit m = false →
  template_ok {| template_scheme := scheme; before := b; between := m; after := a; port_first := pf |}.
Proof.
  intros Hlow Hform ? ? ? ? Hm. apply colon_comes_last in Hform; [|done..].
  rewrite !lowercase_app in Hlow. destruct Hlow as (? & ? & ? & ? & ?). by split; cbn [before between after template_scheme].
Qed.

Lemma counted_once authority :
  negb (length (match_indices PORT authority) =? 1)%nat || negb (length (match_indices CONVERSATION authority) =? 1)%nat = false →
  contains PORT authority = true ∧ contains CONVERSATION authority = true.
Proof.
  intros [H1%negb_false_iff%Nat.eqb_eq H2%negb_false_iff%Nat.eqb_eq]%orb_false_iff.
  split; apply matches_contain; lia.
Qed.
Lemma parse_template_cases s :
  ∃ r, parse_template parse_url debug s = Some r ∧ ∀ t, r = Ok t → template_ok t ∧ (template_scheme t = "http" ∨ template_scheme t = "https").
Proof.
  unfold parse_template. destruct (split_once "://" s) as [[scheme authority]|]; [|by eexists].
  destruct (negb (String.eqb scheme "http") && _) eqn:Hs; [by eexists|]. destruct (any_byte _ authority); [by eexists|].
  destruct (negb _ || _) eqn:Hcount; [by eexists|]. apply counted_once in Hcount as [Hp Hc].
  destruct (browser_authority _ _ _ _) as [x|e] eqn:Hb; [|by eexists].
  apply browser_authority_ok in Hb as (Hlow & Hform & Hcont); [|apply lowercase_to_lower].
  destruct (negb (bool_decide _)); [by eexists|].
  apply Hcont in Hp; [|done..]. apply Hcont in Hc; [|done..].
  destruct (placeholders_split x Hp Hc) as (i & j & b & m & a & -> & -> & H). cbn [mbind option_bind].
  assert (Hsch : scheme = "http" ∨ scheme = "https").
  { apply andb_false_iff in Hs as [Hs%negb_false_iff%String.eqb_eq|Hs%negb_false_iff%String.eqb_eq]; auto. }
  destruct (i <? j)%nat; destruct H as (-> & H2 & ->); cbn [mbind option_bind]; rewrite H2; cbn [mbind option_bind];
    (destruct (all_bytes is_ascii_digit m) eqn:Hm; [by eexists|]); eexists; (split; [done|]); intros t [= <-];
    (split; [|done]); apply (template_parts_ok scheme b _ m _ a _ Hlow Hform); try done;
    first [by exists "{conversation" | by exists "{port"].
Qed.
End Templates.

(** ** What the addresses promise *)

Definition default_port (t : PreviewTemplate) : string := if String.eqb (template_scheme t) "https" then ":443" else ":80".
Lemma slot_without_colon host port : contains ":" (port_slot host port) = false.
Proof.
  assert (Hn : ∀ n, contains ":" (show_unsigned n) = false) by (intros n; by apply contains_digit_free; [|apply show_unsigned_digits]).
  destruct host; cbn [port_slot]; by rewrite ?contains_char_app, !Hn.
Qed.
Lemma authority_ends t c host port :
  template_ok t → (0 ≤ c)%Z → strip_suffix (default_port t) (authority_for t c host port) = None.
Proof.
  intros [_ _ (Hb & Hm & Ha)] Hc. destruct (strip_suffix _ _) as [r|] eqn:E; [|done]. exfalso.
  apply strip_suffix_Some in E. set (d := if String.eqb (template_scheme t) "https" then 443%Z else 80%Z) in *.
  assert (Hd : default_port t = String ":" (show_unsigned d)) by (unfold default_port, d; by destruct (String.eqb _ _)).
  assert (Hd0 : (0 ≤ d ≤ U16_MAX)%Z) by (unfold d; by destruct (String.eqb _ _)).
  rewrite Hd in E. clear Hd.
  assert (∃ x, authority_for t c host port = x +:+ after t ∧ contains ":" x = false) as (x & Hx & Hno).
  { unfold authority_for. rewrite show_i64_digits by done. destruct (port_first t); eexists;
      (split; [by rewrite <- !str_app_assoc|]); rewrite !contains_char_app, Hb, Hm, slot_without_colon, contains_digit_free by (done || apply show_unsigned_digits); done. }
  rewrite Hx in E. destruct Ha as [Ha|(name & n & Ha & Hname & Hn & H0)].
  - assert (Hc' : contains ":" (x +:+ after t) = false) by by rewrite contains_char_app, Hno, Ha. rewrite E in Hc'. by rewrite contains_mid in Hc'.
  - rewrite Ha, <- str_app_assoc in E. apply (f_equal (rsplit_once ":")) in E. change (":" +:+ show_unsigned n) with (String ":" (show_unsigned n)) in E.
    rewrite !rsplit_once_char in E by (by apply contains_digit_free; [|apply show_unsigned_digits]).
    injection E as _ E. apply (f_equal (parse_unsigned (Z.max n U16_MAX))) in E. rewrite !parse_show_unsigned in E by lia. by injection E as ->.
Qed.

Lemma parse_port_bound s p : parse_port s = Some p → a_port p.
Proof.
  unfold parse_port. destruct (parse_unsigned U16_MAX s) as [n|] eqn:E; [|done]. cbn.
  apply parse_unsigned_nonneg in E; [|done]. destruct (Z.eqb_spec n 0); [done|]. intros [= <-]. unfold a_port. lia.
Qed.
(** Whoever reads a host in a preview's address reads one a preview can be of. *)
Lemma match_host_sound t h c host port :
  match_host t h = Some (c, host, port) → (1 ≤ c ≤ I64_MAX)%Z ∧ in_the_pod host ∧ a_port port.
Proof.
  pose proof parse_port_bound as Hport.
  assert (Hslot : ∀ s h p, parse_port_slot s = Some (h, p) → in_the_pod h ∧ a_port p).
  { intros s h' p. unfold parse_port_slot, container_address. intros H. repeat (case_match; simplify_option_eq; try done); split; eauto.
    cbn. split; [by eapply parse_ipv4_valid|done]. }
  unfold match_host. intros H. destruct (strip_prefix _ _) as [m|]; [|done]. cbn in H. destruct (strip_suffix _ _) as [m'|]; [|done]. cbn in H.
  destruct (if port_first t then _ else _) as [[slot conversation]|]; [|done]. cbn in H.
  destruct (is_number conversation) eqn:Hnum; [|done]. cbn in H. destruct (parse_i64 conversation) as [c'|] eqn:Hc; [|done]. cbn in H.
  destruct (Z.ltb_spec 0 c'); [|done]. destruct (parse_port_slot slot) as [[h' p]|] eqn:Hs; [|done]. injection H as <- <- <-.
  split; [|by eapply Hslot]. split; [lia|]. unfold parse_i64 in Hc. destruct (strip_prefix "-" conversation) as [d|] eqn:E.
  - apply strip_prefix_Some in E as ->. unfold is_number in Hnum. by rewrite str_app_cons in Hnum.
  - apply parse_unsigned_nonneg in Hc; [lia|done].
Qed.

(** C13. Reading a template never panics; and with one it accepts, the address of each port of
    each conversation's sandbox, however its letters are written, leads back to that
    conversation, that host and that port: in a link, an [Origin] or a [Referer], in [Host] as
    a browser sends it, and as a proxy may write it, with the scheme's own port.  So no two
    previews share an address, and whatever a [Host] leads to is a conversation's own pod: its
    localhost, or an address in its Docker networks. *)
Theorem preview_addresses_lead_back parse_url debug template :
  ∃ r, parse_template parse_url debug template = Some r
  ∧ ∀ t, r = Ok t →
    (∀ c host port, (1 ≤ c ≤ I64_MAX)%Z → in_the_pod host → a_port port →
      let authority := authority_for t c host port in
      url_for t c host port = template_scheme t +:+ "://" +:+ authority
      ∧ match_request_host t authority = Some (c, host, port)
      ∧ (∀ written, eq_ignore_ascii_case written authority = true → match_host t written = Some (c, host, port))
      ∧ (contains ":" authority = false → match_request_host t (authority +:+ default_port t) = Some (c, host, port)))
    ∧ ∀ h c host port, match_host t h = Some (c, host, port) → (1 ≤ c ≤ I64_MAX)%Z ∧ in_the_pod host ∧ a_port port.
Proof.
  destruct (parse_template_cases parse_url debug template) as (r & Hr & Hok). exists r. split; [done|].
  intros t Ht. apply Hok in Ht as [Ht _]. split; [|intros; by eapply match_host_sound]. cbn zeta. intros c host port Hc Hh Hp.
  pose proof (match_authority t c host port Ht Hc Hh Hp) as Hm. split; [done|].
  unfold match_request_host. fold (default_port t). split; [|split].
  - by rewrite authority_ends by (done || lia).
  - intros written Hw%bool_decide_eq_true_1. unfold match_host in *. by rewrite Hw.
  - intros _. by rewrite strip_suffix_app.
Qed.

(** ** What the proxy promises *)

Section Proxied.
Context (parse_url : string → Result Url string) (valid_header : string → bool) (t : PreviewTemplate) (o : Outside).
#[local] Abbreviation serve := (handle parse_url valid_header t o).
#[local] Abbreviation target := (target_of parse_url t).

(** The kept connection is one dialled to where it says; what was sent was sent on a connection
    dialled before. *)
Definition dialled_to (log : list Did) (sender : nat) (c : Z) (host : PodHost) (port : Z) : Prop :=
  log !! sender = Some (Dialled c host port).
Definition sent_on (d : Did) : option nat := match d with Sent sender _ => Some sender | _ => None end.
Record connection_ok (s : KeptConnection) : Prop := {
  kept_is_dialled : ∀ up, cached s = Some up → dialled_to (did s) (up_sender up) (up_conversation up) (up_host up) (up_port up);
  sent_is_dialled : ∀ sender, sender ∈ omap sent_on (did s) → (sender < length (did s))%nat;
}.
(** What a request to one port does: dials there only, and sends itself, once or twice, only on
    connections dialled to there. *)
Record stays_within (before events : list Did) (c : Z) (host : PodHost) (port : Z) : Prop := {
  dials_there : ∀ c' h' p', Dialled c' h' p' ∈ events → c' = c ∧ h' = host ∧ p' = port;
  sends_there : ∀ sender local, Sent sender local ∈ events →
    local = local_authority host port ∧ dialled_to (app before events) sender c host port;
}.
Lemma dialled_app log more sender c host port : dialled_to log sender c host port → dialled_to (app log more) sender c host port.
Proof. apply lookup_app_l_Some. Qed.
Lemma stays_nil before c host port : stays_within before [] c host port.
Proof. split; by intros * ?%not_elem_of_nil. Qed.
Lemma stays_app before e1 e2 c host port :
  stays_within before e1 c host port → stays_within (app before e1) e2 c host port → stays_within before (app e1 e2) c host port.
Proof.
  intros [D1 S1] [D2 S2]. split.
  - intros * [?|?]%elem_of_app; eauto.
  - intros * [H|H]%elem_of_app.
    + apply S1 in H as [? ?]. split; [done|]. rewrite app_assoc. by apply dialled_app.
    + apply S2 in H as [? ?]. by rewrite <- app_assoc in *.
Qed.
Lemma connect_stays c host port log r log' :
  connect o c host port log = (r, log') →
  ∃ events, log' = app log events ∧ stays_within log events c host port ∧ omap sent_on events = []
  ∧ (∀ sender, r = Ok sender → sender = length log ∧ dialled_to log' sender c host port)
  ∧ ∀ answer, r ≠ Err (Answer answer).
Proof.
  unfold connect. intros H.
  assert (∃ events, log' = app log events ∧ (events = [Dialled c host port] ∨ events = [Dialled c host port; Shook])
          ∧ (∀ sender, r = Ok sender → sender = length log) ∧ ∀ answer, r ≠ Err (Answer answer)) as (events & -> & He & Hr & Hna).
  { destruct (dial_answer o log) as [_|e]; [destruct (handshake_answer o _) as [_|e]|]; injection H as <- <-; rewrite <- ?app_assoc;
      eexists; (split; [done|]); (split; [auto|]); (split; [by intros ? [=]|]); [done..|]. by destruct (no_sandbox e). }
  exists events. split; [done|]. split; [|split; [|split; [|done]]].
  - split; [|by destruct He as [->| ->]; intros * H'; repeat (apply elem_of_cons in H' as [[=]|H']); apply not_elem_of_nil in H'].
    destruct He as [->| ->]; intros * H'; repeat (apply elem_of_cons in H' as [[=]|H']); try done; by apply not_elem_of_nil in H'.
  - by destruct He as [->| ->].
  - intros sender ->%Hr. split; [done|]. unfold dialled_to. by destruct He as [->| ->]; rewrite list_lookup_middle.
Qed.

Definition sent_before (log : list Did) : Prop := ∀ sender, sender ∈ omap sent_on log → (sender < length log)%nat.
Lemma sent_before_app log events : sent_before log → omap sent_on events = [] → sent_before (app log events).
Proof. intros Hl He sender. rewrite omap_app, He, app_nil_r, length_app. intros ?%Hl. lia. Qed.
Lemma dialled_lt log sender c host port : dialled_to log sender c host port → (sender < length log)%nat.
Proof. apply lookup_lt_Some. Qed.
Lemma sent_before_send log sender local c host port :
  sent_before log → dialled_to log sender c host port → sent_before (app log [Sent sender local]).
Proof.
  intros Hl Hd s. rewrite omap_app, length_app. intros [H%Hl|H]%elem_of_app; cbn in *; [lia|].
  apply list_elem_of_singleton in H as ->. apply dialled_lt in Hd. lia.
Qed.
Lemma stays_single before d c host port :
  (∀ c' h' p', d ≠ Dialled c' h' p') → (∀ sender local, d = Sent sender local → local = local_authority host port ∧ dialled_to (app before [d]) sender c host port) →
  stays_within before [d] c host port.
Proof.
  intros Hd Hs. split; intros * Hin%list_elem_of_singleton; [by destruct (Hd c' h' p')|by apply Hs].
Qed.

Lemma sender_for_stays up c host port log r log' :
  (∀ u, up = Some u → dialled_to log (up_sender u) (up_conversation u) (up_host u) (up_port u)) →
  sender_for o up c host port log = (r, log') →
  ∃ events, log' = app log events ∧ stays_within log events c host port ∧ omap sent_on events = []
  ∧ (∀ sender reused, r = Ok (sender, reused) → dialled_to log' sender c host port ∧ (reused = false → (length log ≤ sender)%nat))
  ∧ ∀ answer, r ≠ Err (Answer answer).
Proof.
  intros Hup. unfold sender_for.
  assert (Hfresh : ∀ log0, (∃ pre, log0 = app log pre ∧ stays_within log pre c host port ∧ omap sent_on pre = []) →
    (match connect o c host port log0 with (Ok sender, log) => (Ok (sender, false), log) | (Err r, log) => (Err r, log) end) = (r, log') →
    ∃ events, log' = app log events ∧ stays_within log events c host port ∧ omap sent_on events = []
    ∧ (∀ sender reused, r = Ok (sender, reused) → dialled_to log' sender c host port ∧ (reused = false → (length log ≤ sender)%nat))
    ∧ ∀ answer, r ≠ Err (Answer answer)).
  { intros log0 (pre & -> & Hpre & Hnone) H. destruct (connect o c host port (app log pre)) as [r1 l1] eqn:Ec.
    apply connect_stays in Ec as (events & -> & Hst & He & Hr & Hna). exists (app pre events).
    assert (l' : log' = app (app log pre) events) by (destruct r1; congruence). subst log'.
    split; [by rewrite app_assoc|]. split; [by apply stays_app|]. split; [by rewrite omap_app, Hnone, He|].
    split; [|intros answer ->; destruct r1; [done|]; injection H as ->; by apply (Hna answer)].
    intros sender reused ->. destruct r1; [|done]. injection H as -> <-. destruct (Hr sender eq_refl) as [-> ?].
    split; [done|]. rewrite length_app. lia. }
  destruct up as [u|]; [|apply Hfresh; exists []; rewrite app_nil_r; split; [done|]; split; [apply stays_nil|done]].
  destruct (_ && negb _) eqn:E; [|apply Hfresh; exists []; rewrite app_nil_r; split; [done|]; split; [apply stays_nil|done]].
  assert (Hready : stays_within log [Readied (up_sender u)] c host port) by by apply stays_single.
  destruct (is_ready o log (up_sender u)); [|apply Hfresh; by exists [Readied (up_sender u)]].
  intros [= <- <-]. exists [Readied (up_sender u)]. split; [done|]. split; [done|]. split; [done|]. split; [|done]. intros sender reused [= <- <-]. split; [|done].
  rewrite !andb_true_iff in E. destruct E as [[[<-%Z.eqb_eq <-%bool_decide_eq_true_1] <-%Z.eqb_eq] _]. apply dialled_app. by apply Hup.
Qed.

Lemma exchange_stays r c host port sender reused log res log' :
  sent_before log → dialled_to log sender c host port →
  exchange o r c host port sender reused log = (res, log') →
  ∃ events, log' = app log events ∧ stays_within log events c host port ∧ sent_before log'
  ∧ (1 ≤ length (omap sent_on events) ≤ 2)%nat ∧ (length (omap sent_on events) = 2%nat → is_end_stream r = true ∧ reused = true)
  ∧ ∀ response s, res = Ok (response, s) → dialled_to log' s c host port.
Proof.
  intros Hlog Hd. unfold exchange, send. set (local := local_authority host port).
  assert (H1 : stays_within log [Sent sender local] c host port).
  { apply stays_single; [done|]. intros ? ? [= <- <-]. split; [done|]. by apply dialled_app. }
  pose proof (sent_before_send log sender local c host port Hlog Hd) as Hb1.
  pose proof (dialled_app log [Sent sender local] sender c host port Hd) as Hd1.
  destruct (send_answer o log sender) as [response|e].
  { intros [= <- <-]. exists [Sent sender local]. split_and!; try done; try (cbn; lia). by intros ? ? [= <- <-]. }
  destruct (is_end_stream r && reused) eqn:Er.
  2: { intros [= <- <-]. exists [Sent sender local]. split_and!; try done; cbn; lia. }
  apply andb_true_iff in Er as [Hend Hre].
  destruct (connect o c host port _) as [r2 l2] eqn:Ec. apply connect_stays in Ec as (events & -> & Hst & He & Hr2 & _).
  assert (Hb2 : sent_before (app (app log [Sent sender local]) events)) by by apply sent_before_app.
  assert (Hst2 : stays_within log (app [Sent sender local] events) c host port) by by apply stays_app.
  destruct r2 as [s2|resp].
  2: { intros [= <- <-]. exists (app [Sent sender local] events). split; [by rewrite app_assoc|]. split_and!; try done; rewrite omap_app, He; cbn; lia. }
  destruct (Hr2 s2 eq_refl) as [-> Hd2]. set (s2 := length _) in *.
  set (log2 := app (app log [Sent sender local]) events) in *.
  assert (H3 : stays_within log2 [Sent s2 local] c host port).
  { apply stays_single; [done|]. intros ? ? [= <- <-]. split; [done|]. by apply dialled_app. }
  intros H. assert (log' = app log2 [Sent s2 local] ∧ ∀ response s, res = Ok (response, s) → s = s2) as [-> Hs].
  { destruct (send_answer o log2 s2); injection H as <- <-; (split; [done|]); by intros ? ? [=]. }
  exists (app (app [Sent sender local] events) [Sent s2 local]). split; [unfold log2; by rewrite <- !app_assoc|].
  split; [apply stays_app; [done|]; unfold log2 in H3; by rewrite <- app_assoc in H3|].
  split; [by eapply sent_before_send|]. split; [rewrite !omap_app, He; cbn; lia|]. split; [done|].
  intros response s ->. rewrite (Hs response s eq_refl). by apply dialled_app.
Qed.

Lemma exchange_answers r c host port sender reused log :
  (∀ log, dial_answer o log = Ok ()) → (∀ log, handshake_answer o log = Ok ()) →
  (∀ log s, s ∉ omap sent_on log → ∃ response, send_answer o log s = Ok response) →
  sent_before log → (sender < length log)%nat → is_end_stream r = true → (reused = false → sender ∉ omap sent_on log) →
  ∃ answer log', exchange o r c host port sender reused log = (Ok answer, log').
Proof.
  intros Hdial Hshake Hsend Hlog Hlt Hend Hfresh. unfold exchange, send.
  destruct (send_answer o log sender) as [response|e] eqn:E; [by do 2 eexists|].
  destruct reused; [|destruct (Hsend log sender (Hfresh eq_refl)); congruence]. rewrite Hend. cbn [andb].
  unfold connect. rewrite Hdial, Hshake. set (log1 := app log [_]).
  destruct (Hsend (app (app log1 [Dialled c host port]) [Shook]) (length log1)) as [response ->]; [|by do 2 eexists].
  rewrite !omap_app, !app_nil_r. unfold log1. rewrite omap_app, length_app.
  intros [H%Hlog|H%list_elem_of_singleton]%elem_of_app; cbn in *; lia.
Qed.
Lemma sender_for_answers up c host port log :
  (∀ log, dial_answer o log = Ok ()) → (∀ log, handshake_answer o log = Ok ()) →
  ∃ sender reused log', sender_for o up c host port log = (Ok (sender, reused), log').
Proof.
  intros Hdial Hshake. unfold sender_for, connect. destruct up as [u|]; [|rewrite Hdial, Hshake; by do 3 eexists].
  destruct (_ && negb _); [destruct (is_ready o log (up_sender u)); [by do 3 eexists|]|]; rewrite Hdial, Hshake; by do 3 eexists.
Qed.

Lemma handle_stays r s :
  connection_ok s →
  connection_ok (snd (serve r s))
  ∧ match target r with
    | Err response => serve r s = (response, s)
    | Ok (c, host, port) =>
        ∃ events, did (snd (serve r s)) = app (did s) (Noted c :: events)
        ∧ stays_within (app (did s) [Noted c]) events c host port
        ∧ (length (omap sent_on events) ≤ 2)%nat ∧ (length (omap sent_on events) = 2%nat → is_end_stream r = true)
        ∧ (∀ answer, fst (serve r s) = Answer answer → length (omap sent_on events) ≠ 0%nat)
        ∧ ((∀ log, dial_answer o log = Ok ()) → (∀ log, handshake_answer o log = Ok ()) →
           (∀ log sender, sender ∉ omap sent_on log → ∃ response, send_answer o log sender = Ok response) →
           is_end_stream r = true → ∃ answer, fst (serve r s) = Answer answer)
    end.
Proof.
  intros [Hkept Hsent]. unfold handle. destruct (target r) as [[[c host] port]|response]; [|by split].
  set (log := app (did s) [Noted c]).
  assert (Hlog : sent_before log) by by apply sent_before_app.
  assert (Hup : ∀ u, cached s = Some u → dialled_to log (up_sender u) (up_conversation u) (up_host u) (up_port u)).
  { intros u Hu. by apply dialled_app, Hkept. }
  destruct (sender_for o (cached s) c host port log) as [r1 log1] eqn:E1.
  pose proof E1 as (e1 & -> & Hst1 & He1 & Hr1 & Hna)%sender_for_stays; [|done].
  assert (Hlog1 : sent_before (app log e1)) by by apply sent_before_app.
  assert (Happ : ∀ e, app (app log e1) e = app (did s) (Noted c :: app e1 e)) by (intros e; unfold log; by rewrite <- !app_assoc).
  destruct r1 as [[sender reused]|response].
  2: { cbn [fst snd did cached]. split; [by split|]. exists e1. split_and!.
       - specialize (Happ []). by rewrite !app_nil_r in Happ.
       - done.
       - rewrite He1. cbn. lia.
       - by rewrite He1.
       - intros answer ->. by destruct (Hna answer).
       - intros Hd Hh _ _. destruct (sender_for_answers (cached s) c host port log Hd Hh) as (? & ? & ? & ?). congruence. }
  destruct (Hr1 sender reused eq_refl) as [Hd Hfresh].
  destruct (exchange o r c host port sender reused (app log e1)) as [r2 log2] eqn:E2.
  pose proof E2 as (e2 & -> & Hst2 & Hlog2 & H12 & H2 & Hr2)%exchange_stays; [|done..].
  assert (Hans : (∀ log, dial_answer o log = Ok ()) → (∀ log, handshake_answer o log = Ok ()) →
     (∀ log sender, sender ∉ omap sent_on log → ∃ response, send_answer o log sender = Ok response) → is_end_stream r = true → ∃ a, r2 = Ok a).
  { intros ? ? ? ?. destruct (exchange_answers r c host port sender reused (app log e1)) as (a & l & Heq); try done.
    - by eapply dialled_lt.
    - intros Hre. rewrite omap_app, He1, app_nil_r. intros Hin%Hlog. specialize (Hfresh Hre). lia.
    - exists a. congruence. }
  assert (Hall : stays_within log (app e1 e2) c host port) by by apply stays_app.
  destruct r2 as [[response s2]|response]; cbn [fst snd did cached].
  - split.
    + split; [|done]. cbn [cached did]. intros up. destruct (has_upgrade r && _); [done|]. intros [= <-]. by apply (Hr2 response).
    + exists (app e1 e2). rewrite omap_app, He1. cbn [app]. split_and!; try done; try lia; [by intros [? _]%H2|by eexists].
  - split; [by split|]. exists (app e1 e2). rewrite omap_app, He1. cbn [app]. split_and!; try done; try lia; [by intros [? _]%H2|].
    intros. destruct Hans as [a Ha]; done.
Qed.

(** A browser's connection after the requests it carried so far. *)
Definition after_requests (earlier : list PreviewRequest) : KeptConnection :=
  foldl (λ s r, snd (serve r s)) {| cached := None; did := [] |} earlier.
Lemma after_requests_ok earlier : connection_ok (after_requests earlier).
Proof.
  unfold after_requests. assert (H0 : connection_ok {| cached := None; did := [] |}) by by split; [|intros ? ?%not_elem_of_nil].
  revert H0. generalize {| cached := None; did := [] |}. induction earlier as [|r rs IH]; intros s Hs; [done|].
  apply IH. by apply handle_stays.
Qed.

(** C14. However a browser's connection was used before, and whatever the sandbox's servers do, a
    request on it whose [Host] is no preview's, or that another site's page sent, touches
    nothing.  Every other is of one conversation's pod, host and port: it dials nowhere else,
    and is sent only on connections dialled to there, with that server's own address as its
    [Host]; twice only if it has no body.  And if fresh connections work, one with no body is
    answered, however the kept connection was dropped. *)
Theorem previews_stay_in_their_sandbox earlier r :
  let s := after_requests earlier in
  match target r with
  | Err response => serve r s = (response, s)
  | Ok (c, host, port) =>
      ((1 ≤ c ≤ I64_MAX)%Z ∧ in_the_pod host ∧ a_port port)
      ∧ ∃ events, did (snd (serve r s)) = app (did s) (Noted c :: events)
      ∧ stays_within (app (did s) [Noted c]) events c host port
      ∧ (length (omap sent_on events) ≤ 2)%nat ∧ (length (omap sent_on events) = 2%nat → is_end_stream r = true)
      ∧ (∀ answer, fst (serve r s) = Answer answer → length (omap sent_on events) ≠ 0%nat)
      ∧ ((∀ log, dial_answer o log = Ok ()) → (∀ log, handshake_answer o log = Ok ()) →
         (∀ log sender, sender ∉ omap sent_on log → ∃ response, send_answer o log sender = Ok response) →
         is_end_stream r = true → ∃ answer, fst (serve r s) = Answer answer)
  end.
Proof.
  cbn zeta. pose proof (handle_stays r _ (after_requests_ok earlier)) as [_ H].
  destruct (target r) as [[[c host] port]|response] eqn:E; [|done]. split; [|done].
  unfold target_of in E. destruct (match_request_host t (host_header r)) as [[[c' h'] p']|] eqn:Em; [|done].
  destruct (allows_request_from _ _ _ _); [|done]. injection E as -> -> ->. by eapply match_host_sound.
Qed.
End Proxied.

(** ** What sharing promises *)

Lemma stored_host_read host : in_the_pod host →
  (if String.eqb (stored_host host) "" then Some Localhost else Container <$> container_address (stored_host host)) = Some host.
Proof.
  destruct host as [|ip]; [done|]. intros [Hip Hpool]. cbn [stored_host]. pose proof (parse_show_ipv4 ip Hip) as Hp.
  destruct (String.eqb_spec (show_ipv4 ip) "") as [E|_]; [by rewrite E in Hp|].
  unfold container_address. rewrite Hp. cbn. by rewrite Hpool.
Qed.
Lemma elem_of_stored_previews rows host port :
  in_the_pod host → (stored_host host, port) ∈ rows → (host, port) ∈ stored_previews rows.
Proof.
  intros Hh Hin. apply list_elem_of_omap. exists (stored_host host, port). split; [done|]. by rewrite stored_host_read.
Qed.
Lemma elem_of_listed_previews row_le pod_id rows host port :
  (host, port) ∈ list_pod_previews row_le pod_id rows ↔ (pod_id, host, port) ∈ rows ∧ (0 ≤ port ≤ U16_MAX)%Z.
Proof.
  unfold list_pod_previews. rewrite elem_list_filter, sort_by_perm, list_elem_of_omap, bool_decide_eq_true. split.
  - intros [([[pod h] p] & Hin & Heq) ?]. destruct (Z.eqb_spec pod pod_id) as [->|]; [|done]. by injection Heq as -> ->.
  - intros [Hin ?]. split; [|done]. exists (pod_id, host, port). by rewrite Z.eqb_refl.
Qed.

(** Sharing a port publishes it in the pod's list of previews, with the address the model
    gets and only ports and hosts shared for that pod; every address of the list is one
    [match_host] reads back.  Sharing again changes nothing; a failure publishes nothing, and
    no preview of another pod ever changes. *)
Theorem shared_previews_are_listed row_le c host port live t listening fault rows :
  in_the_pod host → a_port port → template_ok t → (1 ≤ c ≤ I64_MAX)%Z →
  let '(result, published, rows') := share row_le c host port live (Ok t) listening fault rows in
  (∀ url l, result = Ok (url, l) → ∃ pod previews, live = Ok pod ∧ published = Some (pod, previews)
     ∧ (∃ p, p ∈ previews ∧ preview_url p = url ∧ ChatPage.port p = port ∧ (host = Localhost ↔ ChatPage.host p = None))
     ∧ (∀ p, p ∈ previews → ∃ host' stored, preview_url p = url_for t c host' (ChatPage.port p)
          ∧ (pod, stored, ChatPage.port p) ∈ rows' ∧ stored_previews [(stored, ChatPage.port p)] = [(host', ChatPage.port p)]
          ∧ (a_port (ChatPage.port p) → match_host t (authority_for t c host' (ChatPage.port p)) = Some (c, host', ChatPage.port p)))
     ∧ share row_le c host port live (Ok t) listening fault rows' = (result, published, rows'))
  ∧ (∀ e, result = Err e → published = None)
  ∧ ∀ pod' h p, live ≠ Ok pod' → (pod', h, p) ∈ rows ↔ (pod', h, p) ∈ rows'.
Proof.
  intros Hh Hp Ht Hc. unfold share. destruct live as [pod|[other|]]; [|by split_and!; [done..|]|by split_and!; [done..|]].
  destruct listening as [l|e]; [|by split_and!; [done..|]].
  set (rows1 := if bool_decide ((pod, stored_host host, port) ∈ rows) then rows else app rows [(pod, stored_host host, port)]).
  assert (Hin : (pod, stored_host host, port) ∈ rows1).
  { unfold rows1. case_bool_decide; [done|]. apply elem_of_app. right. by left. }
  assert (Hothers : ∀ pod' h p, @Ok Z (option string) pod ≠ Ok pod' → (pod', h, p) ∈ rows ↔ (pod', h, p) ∈ rows1).
  { intros pod' h p Hne. unfold rows1. case_bool_decide; [done|]. rewrite elem_of_app, list_elem_of_singleton. split; [auto|].
    intros [?|[= -> _ _]]; done. }
  change (add_pod_preview row_le pod (stored_host host) port rows) with (list_pod_previews row_le pod rows1, rows1). cbv iota beta.
  destruct fault as [[e inserted]|]; [split_and!; [done..|]; by destruct inserted|].
  split; [|by split]. intros url l' [= <- <-]. exists pod, (preview_links t c (stored_previews (list_pod_previews row_le pod rows1))).
  unfold a_port in Hp. split; [done|]. split; [done|]. split; [|split].
  - eexists. split; [apply list_elem_of_fmap; exists (host, port); split; [done|]|].
    + apply elem_of_stored_previews; [done|]. apply elem_of_listed_previews. split; [done|lia].
    + cbn. split_and!; try done. by destruct host.
  - intros p Hin'. apply list_elem_of_fmap in Hin' as ([h' p'] & -> & Hst). cbn [preview_url ChatPage.port].
    apply list_elem_of_omap in Hst as ([s q] & Hl & Heq). apply elem_of_listed_previews in Hl as [Hl _].
    assert (in_the_pod h' ∧ q = p') as (Hh' & ->).
    { destruct (String.eqb_spec s "") as [->|]; [by injection Heq as <- <-|]. unfold container_address in Heq.
      destruct (parse_ipv4 s) as [ip|] eqn:E; [|done]. cbn in Heq. destruct (in_docker_pool ip) eqn:Ep; [|done].
      injection Heq as <- <-. split; [split; [by eapply parse_ipv4_valid|done]|done]. }
    exists h', s. split_and!; [done|done|by cbn in Heq |- *; rewrite Heq|]. intros Hport. by apply match_authority.
  - change (add_pod_preview row_le pod (stored_host host) port rows1) with
      (let rows2 := if bool_decide ((pod, stored_host host, port) ∈ rows1) then rows1 else app rows1 [(pod, stored_host host, port)] in
       (list_pod_previews row_le pod rows2, rows2)). by rewrite bool_decide_eq_true_2.
Qed.

(** ** Witnesses *)

Definition sample_parse (s : string) : Result Url string :=
  if String.eqb s "http://3000-1.preview.localhost:8181/"
  then Ok {| scheme := "http"; host_str := Some "3000-1.preview.localhost"; url_port := Some 8181%Z; port_or_known_default := Some 8181%Z |}
  else if starts_with "http://172-21-0-2-3000-42.preview.localhost" s
  then Ok {| scheme := "http"; host_str := Some "172-21-0-2-3000-42.preview.localhost"; url_port := Some 8181%Z; port_or_known_default := Some 8181%Z |}
  else Err "relative URL without a base".
Definition sample_template : PreviewTemplate :=
  {| template_scheme := "http"; before := ""; between := "-"; after := ".preview.localhost:8181"; port_first := true |}.
Definition sample_container : PodHost := Container (Ipv4 172 21 0 2).
Lemma sample_container_ok : in_the_pod sample_container.
Proof. split; [unfold valid_ipv4; cbn; lia|by vm_compute]. Qed.
Lemma sample_template_ok : template_ok sample_template.
Proof.
  destruct (parse_template_cases sample_parse id DEFAULT_PREVIEW_URL) as (r & Hr & Hok).
  apply (Hok sample_template). assert (H : parse_template sample_parse id DEFAULT_PREVIEW_URL = Some (Ok sample_template)) by by vm_compute.
  congruence.
Qed.

Lemma preview_addresses_lead_back_witness :
  parse_template sample_parse id DEFAULT_PREVIEW_URL = Some (Ok sample_template)
  ∧ url_for sample_template 42 sample_container 3000 = "http://172-21-0-2-3000-42.preview.localhost:8181"
  ∧ match_request_host sample_template "172-21-0-2-3000-42.preview.localhost:8181" = Some (42%Z, sample_container, 3000%Z)
  ∧ match_host sample_template "172-21-0-2-3000-42.Preview.LocalHost:8181" = Some (42%Z, sample_container, 3000%Z).
Proof.
  destruct (preview_addresses_lead_back sample_parse id DEFAULT_PREVIEW_URL) as (r & Hr & Hok).
  assert (Hp : parse_template sample_parse id DEFAULT_PREVIEW_URL = Some (Ok sample_template)) by by vm_compute.
  assert (r = Ok sample_template) as E by congruence. split; [exact Hp|].
  destruct (proj1 (Hok sample_template E) 42%Z sample_container 3000%Z) as (Hu & Hm & Hw & _); [unfold I64_MAX; lia|exact sample_container_ok|unfold a_port, U16_MAX; lia|].
  split; [exact Hu|]. split; [exact Hm|]. apply Hw. by vm_compute.
Defined.

(** The dev server dropped the kept connection: the second request goes again on a new one. *)
Definition sample_outside : Outside := {|
  dial_answer := λ _, Ok ();
  handshake_answer := λ _, Ok ();
  is_closed := λ _ _, false;
  is_ready := λ _ _, true;
  send_answer := λ log sender, if bool_decide (sender ∈ omap sent_on log) then Err "connection closed" else Ok {| status := 200; location := None |};
|}.
Definition sample_request : PreviewRequest := {|
  host_header := "172-21-0-2-3000-42.preview.localhost:8181";
  sent_by := {| method := "GET"; origin := None; sec_fetch_site := Some "none"; sec_fetch_mode := Some "navigate"; referer := None; upgrade_insecure_requests := true |};
  has_upgrade := false; is_end_stream := true |}.
Lemma previews_stay_in_their_sandbox_witness :
  let handled := handle sample_parse (λ _, true) sample_template sample_outside sample_request
    (after_requests sample_parse (λ _, true) sample_template sample_outside [sample_request]) in
  ∃ events, stays_within [Noted 42; Dialled 42 sample_container 3000; Shook; Sent 1 "172.21.0.2:3000"; Noted 42] events 42 sample_container 3000
  ∧ did (snd handled) = app [Noted 42; Dialled 42 sample_container 3000; Shook; Sent 1 "172.21.0.2:3000"] (Noted 42 :: events)
  ∧ length (omap sent_on events) = 2%nat
  ∧ ∃ answer, fst handled = Answer answer.
Proof.
  cbv zeta. pose proof (previews_stay_in_their_sandbox sample_parse (λ _, true) sample_template sample_outside [sample_request] sample_request) as H.
  cbv zeta in H. assert (target_of sample_parse sample_template sample_request = Ok (42%Z, sample_container, 3000%Z)) as Ht by by vm_compute.
  rewrite Ht in H. destruct H as (_ & events & Hdid & Hstay & _ & _ & _ & Hlive). exists events.
  assert (did (after_requests sample_parse (λ _, true) sample_template sample_outside [sample_request])
          = [Noted 42; Dialled 42 sample_container 3000; Shook; Sent 1 "172.21.0.2:3000"]) as Hb by by vm_compute.
  rewrite Hb in Hstay, Hdid. split; [exact Hstay|]. split; [exact Hdid|]. split.
  - assert (Hv : did (snd (handle sample_parse (λ _, true) sample_template sample_outside sample_request
        (after_requests sample_parse (λ _, true) sample_template sample_outside [sample_request])))
      = app [Noted 42; Dialled 42 sample_container 3000; Shook; Sent 1 "172.21.0.2:3000"]
          (Noted 42 :: [Readied 1; Sent 1 "172.21.0.2:3000"; Dialled 42 sample_container 3000; Shook; Sent 7 "172.21.0.2:3000"])) by by vm_compute.
    rewrite Hv in Hdid. injection Hdid as <-. done.
  - apply Hlive; [done|done| |done]. intros log sender Hn. unfold sample_outside; cbn [send_answer]. rewrite bool_decide_eq_false_2 by done. by eexists.
Defined.

Lemma shared_previews_are_listed_witness :
  let '(result, published, rows) := share (λ _ _, true) 42 sample_container 3000 (Ok 7%Z) (Ok sample_template) (Ok true) None [(7%Z, "", 80%Z)] in
  result = Ok ("http://172-21-0-2-3000-42.preview.localhost:8181", true) ∧ rows = [(7%Z, "", 80%Z); (7%Z, "172.21.0.2", 3000%Z)]
  ∧ ∃ pod previews, Ok (E := option string) 7%Z = Ok pod ∧ published = Some (pod, previews) ∧ length previews = 2%nat.
Proof.
  pose proof (shared_previews_are_listed (λ _ _, true) 42 sample_container 3000 (Ok 7%Z) sample_template (Ok true) None [(7%Z, "", 80%Z)]) as H.
  cbn zeta in H. assert (E : share (λ _ _, true) 42 sample_container 3000 (Ok 7%Z) (Ok sample_template) (Ok true) None [(7%Z, "", 80%Z)]
    = (Ok ("http://172-21-0-2-3000-42.preview.localhost:8181", true),
       Some (7%Z, [ {| ChatPage.port := 80; ChatPage.host := None; preview_url := "http://80-42.preview.localhost:8181" |};
                    {| ChatPage.port := 3000; ChatPage.host := Some "172.21.0.2"; preview_url := "http://172-21-0-2-3000-42.preview.localhost:8181" |} ]),
       [(7%Z, "", 80%Z); (7%Z, "172.21.0.2", 3000%Z)])) by by vm_compute.
  rewrite E in H |- *. split; [done|]. split; [done|].
  destruct H as [H _]; [exact sample_container_ok|unfold a_port, U16_MAX; lia|apply sample_template_ok|unfold I64_MAX; lia|].
  destruct (H _ _ eq_refl) as (pod & previews & Hl & Hpub & _). exists pod, previews. split; [exact Hl|]. split; [exact Hpub|].
  injection Hpub as _ <-. done.
Defined.
