(* ===== verification/ProxyReply.v ===== *)
(** * ProxyReply: a sandbox server's reply, as the browser's proxy passes it on

    [src/src/egress_proxy/reply.rs]: where a reply's heads start and end, their status and
    lines, the final head rewritten to say [Connection: close], and the relay that reads a pod's
    stream until it has passed that head on.  Bytes are lists of characters; the stream is the
    list of its reads, and the page's side says which writes fail. *)

From S2P Require Import Prelude RustStr.
Local Open Scope nat_scope.

Definition bytes : Type := list ascii.
Definition b (s : string) : bytes := String.list_ascii_of_string s.
Definition NUL : ascii := ascii_of_nat 0.
Definition LF : ascii := ascii_of_nat 10.
Definition CR : ascii := ascii_of_nat 13.
Definition CRLF : bytes := [CR; LF].
Definition same_letters (l k : bytes) : bool := bool_decide (map ascii_lower l = map ascii_lower k).

(** ** Heads *)

Definition STATUS_LINE_SLOP : nat := 4.
Definition status_line_start (buf : bytes) : option nat :=
  if length buf <? 4 then None
  else List.find (λ i, same_letters (take 4 (drop i buf)) (b "http")) (seq 0 (S (Nat.min (length buf - 4) STATUS_LINE_SLOP))).
Definition is_not_http (buf : bytes) : bool :=
  (STATUS_LINE_SLOP + 4 <=? length buf) && negb (is_some (status_line_start buf)).

(** [end_of_head]'s loop, at byte [i]: the byte before and whether a line feed (and at most a
    carriage return) came just before. *)
Fixpoint head_end (i : nat) (last : ascii) (was_lf : bool) (l : bytes) : option nat :=
  match l with
  | [] => None
  | c :: l =>
      if Ascii.eqb c LF then if was_lf then Some (S i) else head_end (S i) c true l
      else if negb (Ascii.eqb c CR) || negb (Ascii.eqb last LF) then head_end (S i) c false l
      else head_end (S i) c was_lf l
  end.
Definition end_of_head (buf : bytes) (from : nat) : option nat := head_end from NUL false (drop from buf).

(** [split(f)] on bytes. *)
Fixpoint split_bytes (f : ascii → bool) (l : bytes) : list bytes :=
  match l with
  | [] => [[]]
  | c :: l => if f c then [] :: split_bytes f l
              else match split_bytes f l with [] => [[c]] | part :: parts => (c :: part) :: parts end
  end.
Definition head_lines (head : bytes) : list bytes :=
  List.filter (λ line, negb (bool_decide (line = [])))
    (split_bytes (λ c, Ascii.eqb c CR || Ascii.eqb c LF) (List.filter (λ c, negb (Ascii.eqb c NUL)) head)).

Definition skip_while (f : ascii → bool) : bytes → bytes :=
  fix go l := match l with c :: l' => if f c then go l' else l | [] => [] end.
(** The code of the digits [l] starts with, from the code so far. *)
Fixpoint code_of (code : option Z) (l : bytes) : option Z :=
  match l with
  | c :: l => if is_ascii_digit c
              then code_of (Some (u64_sat_add (u64_sat_mul (default 0%Z code) 10) (Z.of_nat (nat_of_ascii c) - 48))) l
              else code
  | [] => code
  end.
Definition status_code (head : bytes) : Z :=
  match head_lines head with
  | [] => 200
  | line :: _ =>
      match skip_while (λ c, negb (Ascii.eqb c " ")) line with
      | [] => 200
      | rest => default 200%Z (code_of None (skip_while (λ c, Ascii.eqb c " ") rest))
      end
  end.

Definition CONNECTION_HEADERS : list bytes := [b "connection"; b "proxy-connection"; b "keep-alive"].
(** [trim_ascii]: space, tab, line feed, form feed and carriage return. *)
Definition is_ascii_whitespace (c : ascii) : bool :=
  Ascii.eqb c " " || byte_in 9 10 c || byte_in 12 13 c.
Definition trim_ascii (l : bytes) : bytes :=
  reverse (skip_while is_ascii_whitespace (reverse (skip_while is_ascii_whitespace l))).
Definition is_continuation_line (line : bytes) : bool :=
  match line with c :: _ => Ascii.eqb c " " || Ascii.eqb c (ascii_of_nat 9) | [] => false end.
Definition header_name (line : bytes) : bytes := match split_bytes (Ascii.eqb ":") line with name :: _ => name | [] => [] end.
Definition names_the_connection (line : bytes) : bool :=
  bool_decide ((":" : ascii) ∈ line) && existsb (λ h, same_letters (trim_ascii (header_name line)) h) CONNECTION_HEADERS.
(** The lines after the status line that are kept, [dropping] as of the last one that was no
    continuation. *)
Fixpoint kept_lines (dropping : bool) (lines : list bytes) : list bytes :=
  match lines with
  | [] => []
  | line :: lines =>
      let dropping := if is_continuation_line line then dropping else names_the_connection line in
      if dropping then kept_lines dropping lines else line :: kept_lines dropping lines
  end.
Definition with_crlf (line : bytes) : bytes := app line CRLF.
Definition close_line : bytes := b "Connection: close".
Definition close_response_head (head : bytes) : bytes :=
  match head_lines head with
  | [] => app (with_crlf close_line) CRLF
  | status :: lines => app (with_crlf status) (app (with_crlf close_line) (app (concat (map with_crlf (kept_lines true lines))) CRLF))
  end.

(** ** The relay *)

Inductive Relayed := CopyRest | Ended | Nothing | TooLarge.
Record Relaying := { buf : bytes; scanned : nat; sent_any : bool; written : list bytes }.
(** What a look at the bytes so far comes to: the end, or the next read. *)
Inductive Look := Finished (r : Result Relayed string) (written : list bytes) | Reading (s : Relaying).

Section Relay.
(** The error of the page's [n]th write, if it fails; and the most a head may have. *)
Context (page : nat → option string) (limit : nat).

Definition write_all (chunk : bytes) (written : list bytes) (k : list bytes → Look) : Look :=
  match page (length written) with Some e => Finished (Err e) written | None => k (app written [chunk]) end.
Fixpoint look (fuel : nat) (s : Relaying) : Look :=
  match fuel with
  | O => Reading s
  | S fuel =>
      if is_not_http (buf s)
      then write_all (buf s) (written s) (λ w, Finished (Ok (if sent_any s then Ended else CopyRest)) w)
      else
        let start := status_line_start (buf s) in
        match (start ← start; e ← end_of_head (buf s) (Nat.max start (scanned s - 3)); Some (start, e)) with
        | Some (start, e) =>
            if limit <? e - start then Finished (Ok TooLarge) (written s)
            else
              let after := drop e (buf s) in
              let head := drop start (take e (buf s)) in
              if (status_code head / 100 =? 1)%Z
              then write_all head (written s) (λ w, look fuel {| buf := after; scanned := 0; sent_any := true; written := w |})
              else write_all (close_response_head head) (written s) (λ w, write_all after w (λ w, Finished (Ok CopyRest) w))
        | None =>
            if limit <? length (buf s) then Finished (Ok TooLarge) (written s)
            else Reading {| buf := buf s; scanned := if is_some start then length (buf s) else scanned s; sent_any := sent_any s; written := written s |}
        end
  end.
(** The reads to come: the bytes of each, none at the stream's end, or its error; after the last
    the stream has ended. *)
Fixpoint relay (reads : list (Result bytes string)) (s : Relaying) : Result Relayed string * list bytes * list (Result bytes string) :=
  match look (S (length (buf s))) s with
  | Finished r w => (r, w, reads)
  | Reading s =>
      let ended reads :=
        if bool_decide (buf s = []) && negb (sent_any s) then (Ok Nothing, written s, reads)
        else match page (length (written s)) with
             | Some e => (Err e, written s, reads)
             | None => (Ok Ended, app (written s) [buf s], reads)
             end in
      match reads with
      | [] => ended []
      | Err e :: reads => (Err e, written s, reads)
      | Ok [] :: reads => ended reads
      | Ok chunk :: reads => relay reads {| buf := app (buf s) chunk; scanned := scanned s; sent_any := sent_any s; written := written s |}
      end
  end.
Definition relay_reply_heads (reads : list (Result bytes string)) : Result Relayed string * list bytes * list (Result bytes string) :=
  relay reads {| buf := []; scanned := 0; sent_any := false; written := [] |}.
End Relay.

(** ** Where heads are *)

Lemma find_app {A} (f : A → bool) (l k : list A) : List.find f (app l k) = match List.find f l with Some x => Some x | None => List.find f k end.
Proof. induction l as [|x l IH]; [done|]. cbn. by destruct (f x). Qed.
Lemma find_ext {A} (f g : A → bool) (l : list A) : (∀ x, x ∈ l → f x = g x) → List.find f l = List.find g l.
Proof.
  induction l as [|x l IH]; [done|]. intros H. cbn. rewrite (H x) by by left. destruct (g x); [done|].
  apply IH. intros y Hy. apply H. by right.
Qed.
Lemma status_line_start_bound l i : status_line_start l = Some i → i ≤ STATUS_LINE_SLOP ∧ i + 4 ≤ length l.
Proof.
  unfold status_line_start. destruct (Nat.ltb_spec (length l) 4); [done|]. intros [Hi _]%find_some.
  apply list_elem_of_In, elem_of_seq in Hi. unfold STATUS_LINE_SLOP in *. lia.
Qed.
Lemma status_line_start_same l r m :
  m + 4 ≤ length l → List.find (λ i, same_letters (take 4 (drop i (app l r))) (b "http")) (seq 0 (S m))
  = List.find (λ i, same_letters (take 4 (drop i l)) (b "http")) (seq 0 (S m)).
Proof.
  intros Hm. apply find_ext. intros i Hi%elem_of_seq. rewrite drop_app_le by lia. rewrite take_app_le; [done|]. rewrite length_drop. lia.
Qed.
Lemma status_line_start_app l r i : status_line_start l = Some i → status_line_start (app l r) = Some i.
Proof.
  unfold status_line_start. rewrite length_app. destruct (Nat.ltb_spec (length l) 4); [done|].
  destruct (Nat.ltb_spec (length l + length r) 4); [lia|]. intros H1.
  set (m := Nat.min (length l - 4) STATUS_LINE_SLOP) in *. set (m' := Nat.min _ _).
  replace (S m') with (S m + (m' - m)) by (unfold m, m'; lia). rewrite seq_app, find_app, status_line_start_same by (unfold m; lia).
  by rewrite H1.
Qed.
Lemma status_line_start_long l r : STATUS_LINE_SLOP + 4 ≤ length l → status_line_start (app l r) = status_line_start l.
Proof.
  unfold status_line_start, STATUS_LINE_SLOP. intros Hl. rewrite length_app.
  replace (length l + length r <? 4) with false by (symmetry; apply Nat.ltb_ge; lia).
  replace (length l <? 4) with false by (symmetry; apply Nat.ltb_ge; lia).
  replace (Nat.min (length l + length r - 4) 4) with 4 by lia. replace (Nat.min (length l - 4) 4) with 4 by lia.
  apply status_line_start_same. lia.
Qed.

Lemma head_end_shift i k last w l : head_end (i + k) last w l = (λ e, e + k) <$> head_end i last w l.
Proof.
  revert i last w. induction l as [|c l IH]; intros i last w; [done|]. cbn.
  change (S (i + k)) with (S i + k). destruct (Ascii.eqb c LF); [destruct w; [done|apply IH]|].
  destruct (_ || _); apply IH.
Qed.
Lemma head_end_bound i last w l e : head_end i last w l = Some e → i < e ≤ i + length l.
Proof.
  revert i last w. induction l as [|c l IH]; intros i last w; [done|]. cbn.
  destruct (Ascii.eqb c LF); [destruct w; [intros [= <-]; lia|]|destruct (_ || _)]; intros ?%IH; lia.
Qed.
Lemma head_end_app i last w l r e : head_end i last w l = Some e → head_end i last w (app l r) = Some e.
Proof.
  revert i last w. induction l as [|c l IH]; intros i last w; [done|]. cbn.
  destruct (Ascii.eqb c LF); [destruct w; [done|]|destruct (_ || _)]; apply IH.
Qed.
Lemma head_end_cut i last w l e : head_end i last w l = Some e → head_end i last w (take (e - i) l) = Some e.
Proof.
  revert i last w. induction l as [|c l IH]; intros i last w; [done|]. intros H. pose proof (head_end_bound _ _ _ _ _ H) as Hb.
  destruct (e - i) as [|n] eqn:En; [lia|]. cbn in H |- *. replace n with (e - S i) by lia.
  destruct (Ascii.eqb c LF); [destruct w; [done|]|destruct (_ || _)]; by apply IH.
Qed.
(** Where a part ends no head, the rest is read from some state. *)
Lemma head_end_after i last w p :
  head_end i last w p = None → ∃ last' w', ∀ l, head_end i last w (app p l) = head_end (i + length p) last' w' l.
Proof.
  revert i last w. induction p as [|c p IH]; intros i last w; cbn.
  { intros _. exists last, w. intros l. by rewrite Nat.add_0_r. }
  replace (i + S (length p)) with (S i + length p) by lia.
  destruct (Ascii.eqb c LF); [destruct w; [done|]|destruct (_ || _)]; apply IH.
Qed.
(** Three bytes in, it no longer matters what came before them. *)
Lemma head_end_restart i last w x y z r :
  head_end i last w [x; y; z] = None → head_end i last w (x :: y :: z :: r) = head_end i NUL false (x :: y :: z :: r).
Proof.
  cbn. change (Ascii.eqb NUL LF) with false. cbn [negb]. rewrite orb_true_r.
  destruct (Ascii.eqb x LF) eqn:Ex, (Ascii.eqb y LF) eqn:Ey, (Ascii.eqb z LF) eqn:Ez, (Ascii.eqb x CR), (Ascii.eqb y CR), (Ascii.eqb z CR), (Ascii.eqb last LF), w;
    cbn; congruence.
Qed.
Lemma head_end_resume i last w a r :
  head_end i last w a = None → 3 ≤ length a →
  head_end i last w (app a r) = head_end (i + (length a - 3)) NUL false (drop (length a - 3) (app a r)).
Proof.
  intros Ha Hl. rewrite <- (take_drop (length a - 3) a) in Ha |- * at 1. set (p := take _ a) in *.
  assert (Hp : length p = length a - 3) by (unfold p; rewrite length_take; lia).
  assert (Hd : length (drop (length a - 3) a) = 3) by (rewrite length_drop; lia).
  destruct (drop (length a - 3) a) as [|x [|y [|z [|]]]] eqn:Et; try (cbn in Hd; lia).
  assert (Hnone : head_end i last w p = None).
  { destruct (head_end i last w p) as [e|] eqn:E; [|done]. by rewrite (head_end_app _ _ _ _ [x; y; z] _ E) in Ha. }
  destruct (head_end_after i last w p Hnone) as (last' & w' & Hafter). rewrite Hafter in Ha.
  rewrite <- app_assoc, Hafter, Hp. rewrite drop_app_le, Et by lia. cbn [app]. rewrite Hp in Ha. by apply head_end_restart.
Qed.

(** The first whole head: where it starts and where it ends. *)
Definition next_head (l : bytes) : option (nat * nat) := start ← status_line_start l; e ← end_of_head l start; Some (start, e).
Lemma next_head_Some l st e : next_head l = Some (st, e) ↔ status_line_start l = Some st ∧ end_of_head l st = Some e.
Proof. unfold next_head. destruct (status_line_start l) as [st'|]; cbn; [|naive_solver]. destruct (end_of_head l st') eqn:E; cbn; naive_solver. Qed.
Lemma end_of_head_app l r from e : end_of_head l from = Some e → end_of_head (app l r) from = Some e.
Proof.
  unfold end_of_head. intros H. destruct (decide (from ≤ length l)) as [Hl|Hl].
  - rewrite drop_app_le by done. by apply head_end_app.
  - rewrite drop_ge in H by lia. done.
Qed.
Lemma end_of_head_bound l from e : end_of_head l from = Some e → from < e ≤ length l.
Proof. unfold end_of_head. intros H. pose proof (head_end_bound _ _ _ _ _ H) as Hb. rewrite length_drop in Hb. lia. Qed.
Lemma next_head_app l r st e : next_head l = Some (st, e) → next_head (app l r) = Some (st, e).
Proof. rewrite !next_head_Some. intros [? ?]. split; [by apply status_line_start_app|by apply end_of_head_app]. Qed.
Lemma next_head_bound l st e : next_head l = Some (st, e) → st ≤ STATUS_LINE_SLOP ∧ st < e ≤ length l.
Proof.
  intros [H1 H2]%next_head_Some. apply status_line_start_bound in H1. apply end_of_head_bound in H2. lia.
Qed.

(** What is known of the bytes scanned: no head ends in them. *)
Definition scan_ok (l : bytes) (scanned : nat) : Prop :=
  scanned = 0 ∨ (scanned ≤ length l ∧ ∃ st, status_line_start (take scanned l) = Some st ∧ end_of_head (take scanned l) st = None).
Lemma scan_ok_app l r scanned : scan_ok l scanned → scan_ok (app l r) scanned.
Proof.
  intros [->|(Hs & st & Hst & He)]; [by left|right]. rewrite length_app. split; [lia|]. exists st.
  by rewrite take_app_le.
Qed.
(** Going on from 3 bytes before where the last search got finds what a search of the whole
    finds. *)
Lemma resumed_search l scanned :
  scan_ok l scanned →
  (start ← status_line_start l; e ← end_of_head l (Nat.max start (scanned - 3)); Some (start, e)) = next_head l.
Proof.
  intros [->|(Hs & st & Hst & He)]; unfold next_head.
  - destruct (status_line_start l); cbn; [by rewrite Nat.max_0_r|done].
  - rewrite <- (take_drop scanned l). set (a := take scanned l) in *. set (r := drop scanned l).
    assert (Ha : length a = scanned) by (unfold a; rewrite length_take; lia).
    rewrite (status_line_start_app a r st Hst). cbn. pose proof (status_line_start_bound _ _ Hst) as [_ Hb].
    destruct (decide (scanned - 3 ≤ st)); [by rewrite Nat.max_l by lia|]. rewrite Nat.max_r by lia.
    unfold end_of_head in *. rewrite !drop_app_le by lia.
    rewrite (head_end_resume st NUL false (drop st a) r He) by (rewrite length_drop; lia).
    rewrite length_drop. replace (st + (length a - st - 3)) with (scanned - 3) by lia.
    rewrite drop_app_le by (rewrite length_drop; lia). rewrite drop_drop. by replace (st + (length a - st - 3)) with (scanned - 3) by lia.
Qed.

(** ** What a browser reads *)

(** A whole reply: its interim heads, its final one, and what is after. *)
Definition is_interim (head : bytes) : bool := (status_code head / 100 =? 1)%Z.
Fixpoint read_reply_from (fuel : nat) (l : bytes) : option (list bytes * bytes * bytes) :=
  match fuel with
  | O => None
  | S fuel =>
      '(st, e) ← next_head l;
      let head := drop st (take e l) in
      if is_interim head
      then '(interims, final, body) ← read_reply_from fuel (drop e l); Some (head :: interims, final, body)
      else Some ([], head, drop e l)
  end.
Definition read_reply (l : bytes) : option (list bytes * bytes * bytes) := read_reply_from (S (length l)) l.
Lemma read_reply_more f g l : length l < f → length l < g → read_reply_from f l = read_reply_from g l.
Proof.
  revert g l. induction f as [|f IH]; intros g l Hf Hg; [lia|]. destruct g as [|g]; [lia|]. cbn.
  destruct (next_head l) as [[st e]|] eqn:E; [|done]. cbn. apply next_head_bound in E.
  rewrite (IH g) by (rewrite length_drop; lia). done.
Qed.
Lemma read_reply_eq l : read_reply l =
  '(st, e) ← next_head l;
  let head := drop st (take e l) in
  if is_interim head
  then '(interims, final, body) ← read_reply (drop e l); Some (head :: interims, final, body)
  else Some ([], head, drop e l).
Proof.
  unfold read_reply at 1. cbn [read_reply_from]. destruct (next_head l) as [[st e]|] eqn:E; [|done]. cbn. apply next_head_bound in E.
  unfold read_reply. rewrite (read_reply_more (length l) (S (length (drop e l)))) by (rewrite length_drop; lia). done.
Qed.

(** One head alone, as it is passed on: it starts and ends where the bytes do. *)
Definition a_head (h : bytes) : Prop := status_line_start h = Some 0 ∧ end_of_head h 0 = Some (length h).
Lemma status_line_start_here l st : status_line_start l = Some st → same_letters (take 4 (drop st l)) (b "http") = true.
Proof. unfold status_line_start. destruct (length l <? 4); [done|]. by intros [_ ?]%find_some. Qed.
Lemma status_line_start_0 l : 4 ≤ length l → same_letters (take 4 l) (b "http") = true → status_line_start l = Some 0.
Proof.
  intros Hl Hs. unfold status_line_start. destruct (Nat.ltb_spec (length l) 4); [lia|]. cbn [seq List.find]. by rewrite drop_0, Hs.
Qed.
(** No head ends within its first four letters. *)
Lemma head_end_letters i l e : same_letters (take 4 l) (b "http") = true → head_end i NUL false l = Some e → i + 4 < e.
Proof.
  intros Hs%bool_decide_eq_true_1. destruct l as [|c1 [|c2 [|c3 [|c4 l]]]]; try done. injection Hs as H1 H2 H3 H4.
  assert (Hne : ∀ c d, ascii_lower c = ascii_lower d → ascii_lower d ≠ LF → Ascii.eqb c LF = false).
  { intros c d Heq Hd. destruct (Ascii.eqb_spec c LF) as [->|]; [|done]. by rewrite <- Heq in Hd. }
  cbn. rewrite (Hne c1 "h"%char H1), (Hne c2 "t"%char H2), (Hne c3 "t"%char H3), (Hne c4 "p"%char H4) by done.
  repeat match goal with |- context [if ?x then _ else _] => destruct x end; intros ?%head_end_bound; lia.
Qed.
Lemma head_cut l st e : next_head l = Some (st, e) → a_head (drop st (take e l)).
Proof.
  intros H. pose proof (next_head_bound _ _ _ H) as Hb. apply next_head_Some in H as [Hst He].
  set (h := drop st (take e l)). assert (Hh : length h = e - st) by (unfold h; rewrite length_drop, length_take; lia).
  unfold end_of_head in He. pose proof (status_line_start_here _ _ Hst) as Hletters.
  pose proof (head_end_letters _ _ _ Hletters He) as H4.
  pose proof (head_end_cut _ _ _ _ _ He) as Hc. rewrite take_drop_commute in Hc.
  replace (st + (e - st)) with e in Hc by lia. fold h in Hc. split.
  - apply status_line_start_0; [lia|]. assert (take 4 h = take 4 (drop st l)) as ->; [|done].
    rewrite <- (take_drop e l) at 1. rewrite drop_app_le by (rewrite length_take; lia). fold h. by rewrite take_app_le by lia.
  - unfold end_of_head. rewrite drop_0. change st with (0 + st) in Hc. rewrite head_end_shift in Hc.
    destruct (head_end 0 NUL false h) as [x|]; [|done]. injection Hc as Hc. f_equal. lia.
Qed.
Lemma next_head_of_head h r : a_head h → next_head (app h r) = Some (0, length h).
Proof. intros [? ?]. apply next_head_app, next_head_Some. done. Qed.
Lemma read_reply_head h r : a_head h → read_reply (app h r) =
  if is_interim h then '(interims, final, body) ← read_reply r; Some (h :: interims, final, body) else Some ([], h, r).
Proof.
  intros Hh. rewrite read_reply_eq, next_head_of_head by done. cbn [mbind option_bind]. cbv zeta.
  by rewrite drop_0, take_app_length, drop_app_length.
Qed.
Lemma read_reply_interims hs r :
  Forall (λ h, a_head h ∧ is_interim h = true) hs →
  read_reply (app (concat hs) r) = '(interims, final, body) ← read_reply r; Some (app hs interims, final, body).
Proof.
  induction 1 as [|h hs [Hh Hi] _ IH]; cbn [concat app]; [by destruct (read_reply r) as [[[??]?]|]|].
  rewrite <- app_assoc, read_reply_head, Hi, IH by done. by destruct (read_reply r) as [[[??]?]|].
Qed.

(** ** A closed head *)

Definition plain_line (line : bytes) : Prop := line ≠ [] ∧ Forall (λ c, c ≠ CR ∧ c ≠ LF ∧ c ≠ NUL) line.
Lemma split_bytes_parts f l : Forall (λ part, Forall (λ c, f c = false ∧ c ∈ l) part) (split_bytes f l).
Proof.
  induction l as [|c l IH]; cbn; [by repeat constructor|]. assert (Hweak : Forall (λ part, Forall (λ x, f x = false ∧ x ∈ c :: l) part) (split_bytes f l)).
  { eapply Forall_impl; [exact IH|]. intros part Hp. eapply Forall_impl; [exact Hp|]. intros x [? ?]. split; [done|by right]. }
  destruct (f c) eqn:Hc; [by constructor|]. destruct (split_bytes f l) as [|part parts]; [constructor; [|constructor]; constructor; [split; [done|by left]|constructor]|].
  inversion_clear Hweak. constructor; [|done]. constructor; [|done]. split; [done|by left].
Qed.
Lemma head_lines_plain head : Forall plain_line (head_lines head).
Proof.
  apply Forall_forall. intros line Hl. unfold head_lines in Hl. apply elem_list_filter in Hl as [Hin Hne%negb_true_iff%bool_decide_eq_false_1].
  pose proof (split_bytes_parts (λ c, Ascii.eqb c CR || Ascii.eqb c LF) (List.filter (λ c, negb (Ascii.eqb c NUL)) head)) as Hp.
  rewrite Forall_forall in Hp. apply Hp in Hin. split; [done|]. eapply Forall_impl; [exact Hin|]. intros c [Hc Hin'].
  apply orb_false_iff in Hc as [Hcr%Ascii.eqb_neq Hlf%Ascii.eqb_neq]. apply elem_list_filter in Hin' as [_ Hn%negb_true_iff%Ascii.eqb_neq]. done.
Qed.
Lemma head_end_line i last w line r :
  plain_line line → head_end i last w (app line (app CRLF r)) = head_end (i + length line + 2) LF true r.
Proof.
  intros [Hne Hall].
  assert (Hgo : ∀ l i last, Forall (λ c, c ≠ CR ∧ c ≠ LF ∧ c ≠ NUL) l → last ≠ LF →
    head_end i last false (app l (app CRLF r)) = head_end (i + length l + 2) LF true r).
  { clear. induction l as [|c l IH]; intros i last Hall Hlast; cbn.
    - replace (i + 0 + 2) with (S (S i)) by lia. apply Ascii.eqb_neq in Hlast. rewrite Hlast. done.
    - inversion_clear Hall as [|?? (Hcr & Hlf & _) Hl]. pose proof Hlf as Hlf'%Ascii.eqb_neq. pose proof Hcr as Hcr'%Ascii.eqb_neq.
      rewrite Hlf', Hcr'. cbn. rewrite IH by done. f_equal. lia. }
  destruct line as [|c line]; [done|]. inversion_clear Hall as [|?? (Hcr & Hlf & _) Hl].
  pose proof Hlf as Hlf'%Ascii.eqb_neq. pose proof Hcr as Hcr'%Ascii.eqb_neq. cbn [app head_end]. rewrite Hlf', Hcr'. cbn [negb orb].
  rewrite Hgo by done. cbn [length]. f_equal. lia.
Qed.
Lemma head_end_lines i last w lines :
  lines ≠ [] → Forall plain_line lines →
  head_end i last w (app (concat (map with_crlf lines)) CRLF) = Some (i + length (concat (map with_crlf lines)) + 2).
Proof.
  assert (Hend : ∀ i, head_end i LF true CRLF = Some (i + 2)) by (intros j; cbn; f_equal; lia).
  intros Hne Hall. revert i last w Hne. induction Hall as [|line lines Hl Hall IH]; intros i last w Hne; [done|].
  cbn [map concat]. unfold with_crlf at 1. rewrite <- !app_assoc, head_end_line by done.
  destruct lines as [|line' lines'].
  - rewrite Hend. cbn [map concat]. unfold with_crlf. rewrite app_nil_r, length_app. cbn [length CRLF]. f_equal. lia.
  - rewrite IH by done. f_equal. cbn [map concat]. rewrite (length_app (with_crlf line)).
    assert (length (with_crlf line) = length line + 2) by (unfold with_crlf; by rewrite length_app). lia.
Qed.
Lemma split_bytes_line (line r : bytes) :
  plain_line line →
  split_bytes (λ c, Ascii.eqb c CR || Ascii.eqb c LF) (app line (app CRLF r)) = line :: [] :: split_bytes (λ c, Ascii.eqb c CR || Ascii.eqb c LF) r.
Proof.
  intros [_ Hall]. induction Hall as [|c line (Hcr & Hlf & _) Hl IH]; [done|]. apply Ascii.eqb_neq in Hcr, Hlf.
  cbn [app split_bytes]. rewrite Hcr, Hlf. cbn [orb]. by rewrite IH.
Qed.
Lemma head_lines_of_lines lines : Forall plain_line lines → head_lines (app (concat (map with_crlf lines)) CRLF) = lines.
Proof.
  intros Hall. unfold head_lines. rewrite (list_filter_all (λ c, negb (Ascii.eqb c NUL))).
  - induction Hall as [|line lines Hl Hall IH]; [done|]. cbn [map concat]. unfold with_crlf at 1. rewrite <- !app_assoc, split_bytes_line by done.
    cbn [List.filter]. rewrite (bool_decide_eq_false_2 (line = [])) by apply Hl. rewrite (bool_decide_eq_true_2 ([] = [])) by done.
    cbn [negb]. by rewrite IH.
  - apply Forall_app. split; [|by repeat constructor]. apply Forall_concat, Forall_map. eapply Forall_impl; [exact Hall|].
    intros line [_ Hl]. apply Forall_app. split; [|by repeat constructor]. eapply Forall_impl; [exact Hl|].
    intros c (_ & _ & Hc%Ascii.eqb_neq). by rewrite Hc.
Qed.

Lemma kept_lines_sub dropping lines line : line ∈ kept_lines dropping lines → line ∈ lines.
Proof.
  revert dropping. induction lines as [|l lines IH]; intros dropping; [done|]. cbn. destruct (if is_continuation_line l then _ else _).
  - intros ?%IH. by right.
  - intros [->|?%IH]%elem_of_cons; [by left|by right].
Qed.
Lemma kept_lines_say dropping lines :
  (∀ line, line ∈ kept_lines dropping lines → is_continuation_line line = false → names_the_connection line = false)
  ∧ (dropping = true → ∀ line rest, kept_lines dropping lines = line :: rest → is_continuation_line line = false).
Proof.
  revert dropping. induction lines as [|l lines IH]; intros dropping; [by split; [intros ? ?%not_elem_of_nil|]|]. cbn.
  destruct (is_continuation_line l) eqn:Hc; [destruct dropping|destruct (names_the_connection l) eqn:Hn].
  - apply IH.
  - split; [|done]. intros line [->|Hin]%elem_of_cons; [congruence|]. by apply (IH false).
  - split; [by apply IH|]. intros ->. by apply IH.
  - split; [|by intros ? ? ? [= <- _]]. intros line [->|Hin]%elem_of_cons; [done|]. by apply (IH false).
Qed.

(** A head that says the connection closes: its first header says so, no other header is about
    the connection, and nothing continues the first. *)
Definition says_close (h : bytes) : Prop :=
  ∃ status others, head_lines h = status :: close_line :: others
  ∧ (∀ line, line ∈ others → is_continuation_line line = false → names_the_connection line = false)
  ∧ (∀ line rest, others = line :: rest → is_continuation_line line = false).

Lemma close_line_plain : plain_line close_line.
Proof. split; [done|]. unfold close_line, b. repeat constructor; by vm_compute. Qed.
Lemma closed_lines head status lines :
  head_lines head = status :: lines →
  close_response_head head = app (concat (map with_crlf (status :: close_line :: kept_lines true lines))) CRLF
  ∧ Forall plain_line (status :: close_line :: kept_lines true lines).
Proof.
  intros Hl. unfold close_response_head. rewrite Hl. split; [cbn [map concat]; by rewrite <- !app_assoc|].
  pose proof (head_lines_plain head) as Hp. rewrite Hl in Hp. inversion_clear Hp as [|?? Hs Hlines]. constructor; [done|].
  constructor; [apply close_line_plain|]. apply Forall_forall. intros line Hin%kept_lines_sub. by rewrite Forall_forall in Hlines; apply Hlines.
Qed.
Lemma status_letters head : same_letters (take 4 head) (b "http") = true →
  ∃ status lines, head_lines head = status :: lines ∧ same_letters (take 4 status) (b "http") = true.
Proof.
  intros Hs. pose proof Hs as Hs'%bool_decide_eq_true_1. destruct head as [|c1 [|c2 [|c3 [|c4 l]]]]; try done. injection Hs' as H1 H2 H3 H4.
  assert (Hne : ∀ c d, ascii_lower c = ascii_lower d → ascii_lower d ≠ LF → ascii_lower d ≠ CR → ascii_lower d ≠ NUL →
    Ascii.eqb c LF = false ∧ Ascii.eqb c CR = false ∧ Ascii.eqb c NUL = false).
  { intros c d Heq ? ? ?. split_and!; apply Ascii.eqb_neq; intros ->; by rewrite <- Heq in *. }
  destruct (Hne c1 "h"%char H1) as (A1 & B1 & C1); [done..|]. destruct (Hne c2 "t"%char H2) as (A2 & B2 & C2); [done..|].
  destruct (Hne c3 "t"%char H3) as (A3 & B3 & C3); [done..|]. destruct (Hne c4 "p"%char H4) as (A4 & B4 & C4); [done..|].
  unfold head_lines. cbn [List.filter]. rewrite C1, C2, C3, C4. cbn [List.filter negb]. cbn [split_bytes]. rewrite A1, A2, A3, A4, B1, B2, B3, B4. cbn [orb].
  destruct (split_bytes _ (List.filter _ l)) as [|part parts]; cbn [List.filter]; do 2 eexists; (split; [by rewrite bool_decide_eq_false_2|]);
    apply bool_decide_eq_true_2; cbn; by rewrite H1, H2, H3, H4.
Qed.
(** The head passed on is one head, of the same status, that says the connection closes. *)
Lemma closed_head h : a_head h →
  a_head (close_response_head h) ∧ says_close (close_response_head h) ∧ status_code (close_response_head h) = status_code h.
Proof.
  intros [Hst He]. apply status_line_start_here in Hst. rewrite drop_0 in Hst.
  destruct (status_letters h Hst) as (status & lines & Hl & Hs). destruct (closed_lines h status lines Hl) as [Heq Hp].
  pose proof (head_lines_of_lines _ Hp) as Hlines. rewrite <- Heq in Hlines.
  assert (H4 : 4 ≤ length status).
  { apply bool_decide_eq_true_1 in Hs. destruct status as [|? [|? [|? [|? ?]]]]; try done. cbn. lia. }
  split; [split|split].
  - rewrite Heq. cbn [map concat]. unfold with_crlf at 1. rewrite <- !app_assoc. apply status_line_start_0; [rewrite length_app; lia|].
    by rewrite take_app_le.
  - unfold end_of_head. rewrite drop_0, Heq, head_end_lines by done. f_equal. rewrite length_app. cbn [length CRLF]. lia.
  - exists status, (kept_lines true lines). split; [done|]. pose proof (kept_lines_say true lines) as [H1 H2]. split; [done|by apply H2].
  - unfold status_code. by rewrite Hlines, Hl.
Qed.

(** ** What the relay promises *)

Section Relays.
Context (page : nat → option string) (limit : nat).

(** What was written so far: interim heads, each one whole. *)
Definition interims_only (w : list bytes) : Prop := Forall (λ h, a_head h ∧ is_interim h = true) w.
(** What is written in the end: interim heads, then no head at all, or a final one that was
    closed and what came after. *)
Definition ends_well (w : list bytes) (closed : bool) : Prop :=
  ∃ interims, interims_only interims
  ∧ ((closed = false ∧ (w = interims ∨ ∃ l, w = app interims [l] ∧ next_head l = None))
     ∨ ∃ f, a_head f ∧ is_interim f = false ∧ (w = app interims [close_response_head f] ∨ ∃ after, w = app interims [close_response_head f; after])).
Lemma is_not_http_no_head l : is_not_http l = true → next_head l = None.
Proof. unfold is_not_http, next_head. intros [_ H]%andb_true_iff. by destruct (status_line_start l). Qed.
(** An HTTP/0.9 reply stays one, whatever follows. *)
Lemma is_not_http_app l r : is_not_http l = true → is_not_http (app l r) = true.
Proof.
  unfold is_not_http. intros [Hl%Nat.leb_le Hn]%andb_true_iff. rewrite status_line_start_long, Hn, andb_true_r by done.
  apply Nat.leb_le. rewrite length_app. lia.
Qed.

Definition relaying_ok (s : Relaying) : Prop :=
  scan_ok (buf s) (scanned s) ∧ interims_only (written s) ∧ (sent_any s = false → written s = []).
(** How a look leaves things: see [ends_well]; what goes on raw without a head passed isn't HTTP. *)
Definition look_ok (l : Look) : Prop :=
  match l with
  | Finished r w =>
      (ends_well w false ∨ ends_well w true)
      ∧ (r = Ok CopyRest → (∃ l, w = [l] ∧ is_not_http l = true) ∨ ∃ interims f after,
           interims_only interims ∧ a_head f ∧ is_interim f = false ∧ w = app interims [close_response_head f; after])
  | Reading s => relaying_ok s ∧ next_head (buf s) = None
  end.
Lemma stopped_ok w r : interims_only w → r ≠ Ok CopyRest → look_ok (Finished r w).
Proof. intros Hw Hr. split; [|done]. left. exists w. split; [done|]. left. auto. Qed.
Lemma ended_ok w l r : interims_only w → next_head l = None → r ≠ Ok CopyRest → look_ok (Finished r (app w [l])).
Proof. intros Hw Hl Hr. split; [|done]. left. exists w. split; [done|]. left. split; [done|]. right. by exists l. Qed.
Lemma write_all_ok chunk w k :
  interims_only w → (∀ w', w' = app w [chunk] → look_ok (k w')) → look_ok (write_all page chunk w k).
Proof.
  intros Hw Hk. unfold write_all. destruct (page (length w)); [|by apply Hk]. split; [|done]. left. exists w. split; [done|]. left. auto.
Qed.
Lemma look_is_ok fuel s : length (buf s) < fuel → relaying_ok s → look_ok (look page limit fuel s).
Proof.
  revert s. induction fuel as [|fuel IH]; intros s Hf Hok; [lia|]. pose proof Hok as (Hscan & Hw & Hsent). cbn [look].
  assert (Hstop : ∀ r, r ≠ Ok CopyRest → look_ok (Finished r (written s))) by (intros; by apply stopped_ok).
  destruct (is_not_http (buf s)) eqn:Hnot.
  { apply write_all_ok; [done|]. intros w' ->. split.
    - left. exists (written s). split; [done|]. left. split; [done|]. right. exists (buf s). split; [done|]. by apply is_not_http_no_head.
    - destruct (sent_any s); [done|]. intros _. left. exists (buf s). by rewrite Hsent. }
  cbv zeta. rewrite resumed_search by done. destruct (next_head (buf s)) as [[st e]|] eqn:Hn.
  - destruct (limit <? e - st); [by apply Hstop|]. set (head := drop st (take e (buf s))). fold (is_interim head).
    assert (Hhead : a_head head) by by eapply head_cut. pose proof (next_head_bound _ _ _ Hn) as Hb.
    destruct (is_interim head) eqn:Hi.
    + apply write_all_ok; [done|]. intros w' ->. apply IH; [cbn; rewrite length_drop; lia|]. split_and!; [by left| |done].
      apply Forall_app. split; [done|]. by constructor.
    + apply write_all_ok; [done|]. intros w' ->. unfold write_all.
      assert (Hend : ∀ tail, (tail = [] ∨ ∃ after, tail = [after]) → ends_well (app (app (written s) [close_response_head head]) tail) true).
      { intros tail Ht. exists (written s). split; [done|]. right. exists head. split; [done|]. split; [done|].
        destruct Ht as [->|[after ->]]; [left; by rewrite app_nil_r|right; exists after; by rewrite <- app_assoc]. }
      destruct (page _); split.
      * right. rewrite <- (app_nil_r (app _ _)). apply Hend. by left.
      * done.
      * right. apply Hend. right. by eexists.
      * intros _. right. exists (written s), head, (drop e (buf s)). split_and!; try done. by rewrite <- app_assoc.
  - destruct (limit <? length (buf s)); [by apply Hstop|]. split; [|done]. split_and!; [cbn|done|done].
    destruct (status_line_start (buf s)) as [st|] eqn:Hst; [|done]. right. split; [done|]. exists st. rewrite take_ge by done.
    split; [done|]. unfold next_head in Hn. rewrite Hst in Hn. cbn in Hn. by destruct (end_of_head (buf s) st).
Qed.

Lemma relay_is_ok reads s r w rest :
  relaying_ok s → relay page limit reads s = (r, w, rest) → look_ok (Finished r w).
Proof.
  revert s. induction reads as [|read reads IH]; intros s Hs; cbn [relay];
    pose proof (look_is_ok (S (length (buf s))) s ltac:(lia) Hs) as Hlook; destruct (look page limit _ s) as [r' w'|s'];
    [by intros [= <- <- _]| |by intros [= <- <- _]|]; destruct Hlook as [(Hscan & Hw & Hsent) Hn].
  - destruct (_ && _); [|destruct (page _)]; intros [= <- <- _]; (by apply stopped_ok) || by apply ended_ok.
  - destruct read as [[|c chunk]|e].
    + destruct (_ && _); [|destruct (page _)]; intros [= <- <- _]; (by apply stopped_ok) || by apply ended_ok.
    + apply IH. split_and!; [by apply scan_ok_app|done|done].
    + intros [= <- <- _]. by apply stopped_ok.
Qed.

Lemma is_interim_closed f : a_head f → is_interim (close_response_head f) = is_interim f.
Proof. intros Hf. unfold is_interim. by destruct (closed_head f Hf) as (_ & _ & ->). Qed.
Lemma read_closed interims f tail :
  interims_only interims → a_head f → is_interim f = false →
  read_reply (app (concat interims) (app (close_response_head f) tail)) = Some (interims, close_response_head f, tail).
Proof.
  intros Hi Hf Hnot. rewrite read_reply_interims by done. rewrite read_reply_head by (by apply closed_head).
  rewrite is_interim_closed, Hnot by done. cbn. by rewrite app_nil_r.
Qed.
Lemma read_nothing interims l : interims_only interims → next_head l = None → read_reply (app (concat interims) l) = None.
Proof. intros Hi Hl. rewrite read_reply_interims by done. by rewrite read_reply_eq, Hl. Qed.

Lemma ends_well_read w closed tail :
  ends_well w closed → (closed = false → tail = []) →
  match read_reply (app (concat w) tail) with
  | Some (interims, final, _) => says_close final ∧ Forall (λ h, is_interim h = true) interims
  | None => True
  end.
Proof.
  intros (interims & Hi & [[-> Hw]|(f & Hf & Hnot & Hw)]) Htail.
  - rewrite Htail, app_nil_r by done. destruct Hw as [->|(l & -> & Hl)].
    + rewrite <- (app_nil_r (concat interims)). by rewrite read_nothing.
    + rewrite concat_app. cbn [concat]. by rewrite app_nil_r, read_nothing.
  - assert (∃ t, app (concat w) tail = app (concat interims) (app (close_response_head f) t)) as (t & ->).
    { destruct Hw as [->|(after & ->)]; rewrite concat_app; cbn [concat]; rewrite ?app_nil_r, <- ?app_assoc; by eexists. }
    rewrite read_closed by done. split; [by apply closed_head|]. eapply Forall_impl; [exact Hi|]. by intros h [_ ?].
Qed.

(** C11. Whatever the server in the sandbox sends, in whatever pieces and however the streams
    fail, the browser never reads a final head that keeps its connection open: of the bytes that
    reach it, read as it reads heads, the final one says [Connection: close] as its first header
    and has no other header about the connection.  Bytes go on raw only after such a head, which
    has the server's own status, or where what came isn't HTTP at all. *)
Theorem final_heads_say_close reads r w rest more :
  relay_reply_heads page limit reads = (r, w, rest) → (r ≠ Ok CopyRest → more = []) →
  let delivered := app (concat w) more in
  match read_reply delivered with
  | Some (interims, final, _) => says_close final ∧ Forall (λ h, is_interim h = true) interims
  | None => True
  end
  ∧ (r = Ok CopyRest → is_not_http delivered = true ∨ ∃ interims f body,
       a_head f ∧ is_interim f = false ∧ read_reply delivered = Some (interims, close_response_head f, body)
       ∧ status_code (close_response_head f) = status_code f).
Proof.
  intros Hrun Hmore. cbn zeta. apply relay_is_ok in Hrun as [Hend Hcopy]; [|by split_and!; [left|constructor|]]. split.
  - assert (r = Ok CopyRest ∨ r ≠ Ok CopyRest) as [Hr|Hr] by (destruct r as [[]|]; auto).
    + destruct (Hcopy Hr) as [(l & -> & Hl)|(interims & f & after & Hi & Hf & Hnot & ->)].
      * rewrite read_reply_eq, is_not_http_no_head; [done|]. cbn. rewrite app_nil_r. by apply is_not_http_app.
      * apply (ends_well_read _ true); [|done]. exists interims. split; [done|]. right. exists f. split_and!; eauto.
    + rewrite Hmore by done. destruct Hend as [Hend|Hend]; by eapply ends_well_read.
  - intros Hr. destruct (Hcopy Hr) as [(l & -> & Hl)|(interims & f & after & Hi & Hf & Hnot & ->)].
    + left. cbn. rewrite app_nil_r. by apply is_not_http_app.
    + right. exists interims, f, (app after more). split; [done|]. split; [done|]. split; [|by apply closed_head].
      rewrite concat_app. cbn [concat]. rewrite app_nil_r, <- !app_assoc. by apply read_closed.
Qed.

Lemma status_line_start_cut l r st : status_line_start (app l r) = Some st → st + 4 ≤ length l → status_line_start l = Some st.
Proof.
  unfold status_line_start. rewrite length_app. intros H Hl. destruct (Nat.ltb_spec (length l) 4); [lia|].
  destruct (Nat.ltb_spec (length l + length r) 4); [lia|].
  set (m := Nat.min (length l - 4) STATUS_LINE_SLOP) in *. set (m' := Nat.min _ _) in H.
  assert (Hst : st ≤ m') by (apply find_some in H as [Hin%list_elem_of_In%elem_of_seq _]; lia).
  replace (S m') with (S m + (m' - m)) in H by (unfold m, m'; lia). rewrite seq_app, find_app, status_line_start_same in H by (unfold m; lia).
  destruct (List.find _ (seq 0 (S m))) as [x|]; [done|]. apply find_some in H as [Hin%list_elem_of_In%elem_of_seq _].
  unfold m, m' in *. lia.
Qed.
Lemma next_head_shorter l r st e : next_head (app l r) = Some (st, e) → e ≤ length l → next_head l = Some (st, e).
Proof.
  intros H Hl. pose proof (head_cut _ _ _ H) as [Hh _]. apply status_line_start_bound in Hh as [_ Hh].
  rewrite length_drop, length_take in Hh. apply next_head_Some in H as [Hst He]. apply next_head_Some.
  split; [apply (status_line_start_cut l r); [done|lia]|]. unfold end_of_head in *. rewrite drop_app_le in He by lia.
  pose proof (head_end_cut _ _ _ _ _ He) as Hc. rewrite take_app_le in Hc by (rewrite length_drop; lia).
  rewrite <- (take_drop (e - st) (drop st l)). by apply head_end_app.
Qed.

Definition never_fails : Prop := ∀ n, page n = None.
Definition fits (h : bytes) : Prop := STATUS_LINE_SLOP + length h ≤ limit.
Lemma look_goes_on fuel s more interims f body :
  never_fails → length (buf s) < fuel → scan_ok (buf s) (scanned s) →
  read_reply (app (buf s) more) = Some (interims, f, body) → Forall fits (f :: interims) →
  (∃ w, look page limit fuel s = Finished (Ok CopyRest) w
     ∧ app (concat w) more = app (concat (written s)) (app (concat interims) (app (close_response_head f) body)))
  ∨ (∃ s' passed left, look page limit fuel s = Reading s' ∧ scan_ok (buf s') (scanned s') ∧ interims = app passed left
     ∧ read_reply (app (buf s') more) = Some (left, f, body) ∧ concat (written s') = app (concat (written s)) (concat passed)
     ∧ next_head (buf s') = None).
Proof.
  intros Hpage. revert s interims. induction fuel as [|fuel IH]; intros s interims Hf Hscan Hread Hfits; [lia|]. cbn [look].
  pose proof Hread as Hread'. rewrite read_reply_eq in Hread'. destruct (next_head (app (buf s) more)) as [[st e]|] eqn:Hn; [|done].
  destruct (is_not_http (buf s)) eqn:Hnot; [by rewrite is_not_http_no_head in Hn by by apply is_not_http_app|].
  cbv zeta. rewrite resumed_search by done. cbn [mbind option_bind] in Hread'. cbv zeta in Hread'.
  pose proof (next_head_bound _ _ _ Hn) as Hb.
  set (head := drop st (take e (app (buf s) more))) in *.
  assert (Hlen : length head = e - st) by (unfold head; rewrite length_drop, length_take; lia).
  assert (Hfit : fits head).
  { inversion_clear Hfits as [|?? H1 H2]. destruct (is_interim head); [|by simplify_eq].
    destruct (read_reply (drop e _)) as [[[i2 f2] b2]|]; [|done]. cbn in Hread'. simplify_eq. by inversion H2. }
  unfold fits, STATUS_LINE_SLOP in *.
  destruct (next_head (buf s)) as [[st' e']|] eqn:Hn'.
  - rewrite (next_head_app _ more _ _ Hn') in Hn. injection Hn as -> ->. pose proof (next_head_bound _ _ _ Hn') as Hb'.
    assert (Hhead : drop st (take e (buf s)) = head) by (unfold head; by rewrite take_app_le by lia). rewrite Hhead.
    replace (limit <? e - st) with false by (symmetry; apply Nat.ltb_ge; lia). fold (is_interim head).
    rewrite drop_app_le in Hread' by lia. destruct (is_interim head).
    + unfold write_all. rewrite Hpage. destruct (read_reply (app (drop e (buf s)) more)) as [[[i2 f2] b2]|] eqn:E2; [|done].
      cbn in Hread'. injection Hread' as <- -> ->. inversion_clear Hfits as [|?? Hff Hfi]. inversion_clear Hfi as [|?? Hfh Hfi2].
      destruct (IH {| buf := drop e (buf s); scanned := 0; sent_any := true; written := app (written s) [head] |} i2) as [(w & Hw & Hd)|(s' & passed & left & Hs' & Hsc & -> & Hr & Hwr & Hnn)].
      * cbn. rewrite length_drop. lia.
      * by left.
      * done.
      * by constructor.
      * left. exists w. split; [done|]. rewrite Hd. cbn [written]. rewrite concat_app. cbn [concat]. by rewrite app_nil_r, <- !app_assoc.
      * right. exists s', (head :: passed), left. split_and!; try done. rewrite Hwr. cbn [written]. rewrite concat_app. cbn [concat].
        by rewrite app_nil_r, <- !app_assoc.
    + injection Hread' as <- <- <-. unfold write_all. rewrite !Hpage. left. eexists. split; [done|]. rewrite !concat_app. cbn [concat].
      by rewrite !app_nil_r, <- !app_assoc.
  - assert (length (buf s) < e).
    { destruct (decide (e ≤ length (buf s))); [|lia]. by rewrite (next_head_shorter _ _ _ _ Hn) in Hn'. }
    replace (limit <? length (buf s)) with false by (symmetry; apply Nat.ltb_ge; lia).
    right. eexists _, [], interims. split; [done|]. cbn [buf scanned written]. split_and!; try done; [|by rewrite app_nil_r].
    destruct (status_line_start (buf s)) as [st'|] eqn:Hst; [|done]. right. split; [done|]. exists st'. rewrite take_ge by done.
    split; [done|]. unfold next_head in Hn'. rewrite Hst in Hn'. cbn in Hn'. by destruct (end_of_head (buf s) st').
Qed.

(** C12. However the network cuts a reply into reads, what reaches the browser is the same: with
    a reply whose heads fit, every interim head as it came, the final head with its connection
    closed, and every byte after it, none lost, moved or sent twice.  The search for a head's
    end that goes on where the last one stopped finds what a search of the whole would. *)
Theorem replies_are_cut_alike chunks interims f body :
  never_fails → Forall (λ chunk, chunk ≠ []) chunks →
  read_reply (concat chunks) = Some (interims, f, body) → Forall fits (f :: interims) →
  ∃ w rest, relay_reply_heads page limit (map Ok chunks) = (Ok CopyRest, w, map Ok rest)
  ∧ app (concat w) (concat rest) = app (concat interims) (app (close_response_head f) body).
Proof.
  intros Hpage Hne Hread Hfits. unfold relay_reply_heads.
  assert (Hgo : ∀ s interims, scan_ok (buf s) (scanned s) → read_reply (app (buf s) (concat chunks)) = Some (interims, f, body) → Forall fits (f :: interims) →
    ∃ w rest, relay page limit (map Ok chunks) s = (Ok CopyRest, w, map Ok rest)
    ∧ app (concat w) (concat rest) = app (concat (written s)) (app (concat interims) (app (close_response_head f) body))).
  { clear Hread Hfits interims. induction Hne as [|chunk chunks Hc Hne IH]; intros s interims Hscan Hread Hfits; cbn [map relay];
      (destruct (look_goes_on (S (length (buf s))) s _ interims f body Hpage ltac:(lia) Hscan Hread Hfits)
         as [(w & -> & Hd)|(s' & passed & left & -> & Hsc & -> & Hr & Hw & Hnn)]).
    - exists w, []. done.
    - cbn [concat] in Hr. rewrite app_nil_r, read_reply_eq, Hnn in Hr. done.
    - by exists w, (chunk :: chunks).
    - destruct chunk as [|c chunk]; [done|].
      destruct (IH {| buf := app (buf s') (c :: chunk); scanned := scanned s'; sent_any := sent_any s'; written := written s' |} left) as (w & rest & Hrel & Hd).
      + by apply scan_ok_app.
      + cbn [buf]. by rewrite <- app_assoc.
      + inversion_clear Hfits as [|?? ? Hfi]. apply Forall_app in Hfi as [_ ?]. by constructor.
      + exists w, rest. split; [done|]. rewrite Hd. cbn [written]. by rewrite Hw, concat_app, <- !app_assoc. }
  apply (Hgo {| buf := []; scanned := 0; sent_any := false; written := [] |}); [by left|done|done].
Qed.
End Relays.

(** ** Witnesses *)

Definition sample_interim : bytes := app (b "HTTP/1.1 103 Early Hints") (app CRLF CRLF).
Definition sample_final : bytes := app (b "HTTP/1.1 200 OK") (app CRLF (app (b "Connection: keep-alive") (app CRLF (app (b "X: y") (app CRLF CRLF))))).
Definition sample_chunks : list bytes := [take 27 sample_interim; app (drop 27 sample_interim) (take 40 sample_final); drop 40 sample_final; b "body"].
Definition sample_closed : bytes := app (b "HTTP/1.1 200 OK") (app CRLF (app (b "Connection: close") (app CRLF (app (b "X: y") (app CRLF CRLF))))).
Definition sample_run : Result Relayed string * list bytes * list (Result bytes string) :=
  relay_reply_heads (λ _, None) 200 (map Ok sample_chunks).

Lemma final_heads_say_close_witness :
  sample_run = (Ok CopyRest, [sample_interim; sample_closed; []], [Ok (b "body")])
  ∧ is_not_http (app (concat [sample_interim; sample_closed; []]) (b "body")) = false
  ∧ ∃ interims f rest, a_head f ∧ read_reply (app (concat [sample_interim; sample_closed; []]) (b "body")) = Some (interims, close_response_head f, rest).
Proof.
  assert (E : sample_run = (Ok CopyRest, [sample_interim; sample_closed; []], [Ok (b "body")])) by by vm_compute.
  split; [exact E|]. split; [by vm_compute|].
  destruct (final_heads_say_close (λ _, None) 200 _ _ _ _ (b "body") E) as [_ H]; [done|].
  destruct (H eq_refl) as [Hn|(interims & f & rest & Hf & _ & Hr & _)]; [|exists interims, f, rest; split; [exact Hf|exact Hr]].
  exfalso. revert Hn. by vm_compute.
Defined.
Lemma replies_are_cut_alike_witness :
  ∃ w rest, sample_run = (Ok CopyRest, w, map Ok rest)
  ∧ app (concat w) (concat rest) = app sample_interim (app sample_closed (b "body")).
Proof.
  destruct (replies_are_cut_alike (λ _, None) 200 sample_chunks [sample_interim] sample_final (b "body")) as (w & rest & Hr & Hd).
  - done.
  - repeat constructor; by vm_compute.
  - by vm_compute.
  - apply Forall_forall. intros h [->|[->|?%not_elem_of_nil]%elem_of_cons]%elem_of_cons; [..|done]; apply Nat.leb_le; by vm_compute.
  - exists w, rest. split; [exact Hr|]. rewrite Hd. by vm_compute.
Defined.
