(* ===== verification/PodPorts.v ===== *)
(** * PodPorts: connections into a pod's ports

    [src/src/sandbox/ports.rs]: which ports may be reached, and a connection to one, through a
    port-forward or the agent's relay.  [src/src/bin/sandbox_agent/relay.rs]: the relay, which
    connects to a container.  [src/src/egress_proxy.rs]'s [sandbox_dial]: such a connection with
    its failures as sentences.  The cluster's answers, and the sockets', are arguments; [{:?}] is
    a parameter. *)

From S2P Require Import Prelude RustStr McpCalls PodRequests SandboxErrors Guards Previews.
Local Open Scope string_scope.

Definition AGENT_PORT : Z := 8088.
Definition RELAY_PORT : Z := 8089.
Definition RELAY_TARGET_MAX : nat := 64.
Definition RELAY_CONNECTED : string := "ok" +:+ String newline "".
Definition pod_name (pod_id : Z) : string := "sandbox-" +:+ show_i64 pod_id.

(** ** smelt's side *)

Definition check_reachable_port (port : Z) : Result unit TerminalError :=
  if (port =? AGENT_PORT)%Z || (port =? RELAY_PORT)%Z then Err (AgentPort port) else Ok tt.
Definition require_stream {T} (stream : option T) (what : string) : Result T SandboxError :=
  match stream with Some s => Ok s | None => Err (NoStream what) end.

(** What opening a connection does: the conversation's pod noted as in use, a port-forward, and
    the line a relay gets. *)
Inductive PortDid :=
  | InUse (conversation : Z)
  | PortForward (pod : string) (port : Z)
  | RelayLine (line : string).
(** The stream: to the port, or one that has ended already. *)
Inductive PodIo := ToPort | AlreadyEnded.
(** What the outside answers: the conversation's live pod, the cluster's client, this database's
    instance, the pod's labels, the port-forward, its stream, the write to the relay, and whether
    the relay answered in time, with what. *)
Record PodAnswers := {
  live_pod_id : Result Z TerminalError;
  kube_client : Result unit SandboxError;
  smelt_instance : Result SmeltInstance string;
  pod_labels : Result (option (gmap string string)) string;
  forwarded : Result unit string;
  stream_given : bool;
  relay_written : Result unit string;
  relay_answer : option string;
}.
Definition dial_pod (a : PodAnswers) (pod : string) (host : PodHost) (port : Z) : Result PodIo TerminalError * list PortDid :=
  match (match host with
         | Localhost => let? _ := check_reachable_port port in Ok port
         | Container _ => Ok RELAY_PORT
         end) with
  | Err e => (Err e, [])
  | Ok forward_to =>
      let did := [PortForward pod forward_to] in
      match forwarded a with
      | Err e => (Err (Sandbox (Kube e)), did)
      | Ok _ =>
          match require_stream (if stream_given a then Some tt else None) ("port " +:+ show_unsigned forward_to +:+ "'s port-forward") with
          | Err e => (Err (Sandbox e), did)
          | Ok _ =>
              match host with
              | Localhost => (Ok ToPort, did)
              | Container ip =>
                  let did := app did [RelayLine (show_ipv4 ip +:+ ":" +:+ show_unsigned port +:+ String newline "")] in
                  match relay_written a with
                  | Err e => (Err (Sandbox (Io e)), did)
                  | Ok _ => (Ok (if bool_decide (relay_answer a = Some RELAY_CONNECTED) then ToPort else AlreadyEnded), did)
                  end
              end
          end
      end
  end.
Definition open_pod_port_with (a : PodAnswers) (conversation_id : Z) (host : PodHost) (port : Z) : Result PodIo TerminalError * list PortDid :=
  match (match host with Localhost => check_reachable_port port | Container _ => Ok tt end) with
  | Err e => (Err e, [])
  | Ok _ =>
      match live_pod_id a with
      | Err e => (Err e, [])
      | Ok pod_id =>
          let did := [InUse conversation_id] in
          match kube_client a with
          | Err e => (Err (Sandbox e), did)
          | Ok _ =>
              match smelt_instance a with
              | Err e => (Err (Sandbox (Db e)), did)
              | Ok instance =>
                  match pod_labels a with
                  | Err e => (Err (Sandbox (Kube e)), did)
                  | Ok labels =>
                      match (labels ← labels; if counts_as_ours labels instance then Some labels else None) with
                      | None => (Err NoPod, did)
                      | Some _ => let '(r, more) := dial_pod a (pod_name pod_id) host port in (r, app did more)
                      end
                  end
              end
          end
      end
  end.
(** [stream_is_listening]: what its first read came to in time. *)
Definition stream_is_listening (first_read : option (Result Z string)) : bool :=
  match first_read with None => true | Some (Ok n) => (0 <? n)%Z | Some (Err _) => false end.
(** [opens_in_time]: whether it opened within [LISTEN_OPEN_TIMEOUT]. *)
Definition pod_port_is_listening_with (a : PodAnswers) (opens_in_time : bool) (first_read : PodIo → option (Result Z string))
    (conversation_id : Z) (host : PodHost) (port : Z) : Result bool TerminalError :=
  if opens_in_time
  then match fst (open_pod_port_with a conversation_id host port) with Err e => Err e | Ok stream => Ok (stream_is_listening (first_read stream)) end
  else Ok false.

Definition describe (host : PodHost) (port : Z) : string :=
  match host with Localhost => "localhost:" +:+ show_unsigned port | Container ip => show_ipv4 ip +:+ ":" +:+ show_unsigned port end.
(** [opened]: [open_pod_target]'s answer, if it came in time. *)
Definition sandbox_dial (own_sandbox_image : string) (host : PodHost) (port : Z) (opened : option (Result PodIo TerminalError)) : Result PodIo DialError :=
  match opened with
  | None => Err {| message := "Timed out connecting to " +:+ describe host port +:+ " in the sandbox."; no_sandbox := false |}
  | Some (Ok stream) => Ok stream
  | Some (Err NoPod) =>
      Err {| message := "This conversation has no running sandbox, so there's nothing at " +:+ describe host port
               +:+ ". Start one with create_pod and run the server there."; no_sandbox := true |}
  | Some (Err other) =>
      Err {| message := "Couldn't reach " +:+ describe host port +:+ " in the sandbox: " +:+ terminal_error_text own_sandbox_image other; no_sandbox := false |}
  end.

(** ** The agent's relay *)

Section Relay.
Context (debug : string → string).
Definition relay_target (line : string) : Result (Ipv4Addr * Z) string :=
  match rsplit_once ":" line with
  | None => Err (debug line +:+ " isn't ip:port")
  | Some (host, port) =>
      match container_address host with
      | None => Err (debug host +:+ " isn't a container address in the pod")
      | Some ip =>
          match parse_port port with
          | None => Err (debug port +:+ " isn't a port")
          | Some port => Ok (ip, port)
          end
      end
  end.
(** [read_line] of the first [RELAY_TARGET_MAX] bytes: up to the first line feed, with it. *)
Fixpoint first_line (n : nat) (s : string) : string :=
  match n, s with
  | S n, String a s => if Ascii.eqb a newline then String a "" else String a (first_line n s)
  | _, _ => ""
  end.
(** A connection to the relay: what the client sends, in all; whether its first line came in
    time or failed; and the connection to the target.  What each side gets. *)
Definition relay_connection (stream : string) (line_read : option (Result unit string)) (connected : option (Result unit string)) : Result ((Ipv4Addr * Z) * string * string) string :=
  match line_read with
  | None => Err "timed out waiting for the target"
  | Some (Err e) => Err e
  | Some (Ok _) =>
      let line := first_line RELAY_TARGET_MAX stream in
      if negb (valid_utf8 line) then Err "stream did not contain valid UTF-8"
      else if String.eqb line "" || negb (ends_with (String newline "") line) then Err "no target line"
      else
        let? target := relay_target (trim_end line) in
        let shown := show_ipv4 (fst target) +:+ ":" +:+ show_unsigned (snd target) in
        match connected with
        | None => Err ("timed out connecting to " +:+ shown)
        | Some (Err e) => Err ("couldn't connect to " +:+ shown +:+ ": " +:+ e)
        | Some (Ok _) => Ok (target, RELAY_CONNECTED, str_drop (String.length line) stream)
        end
  end.
End Relay.

(** ** The relay's line *)

Lemma valid_utf8_ascii s : all_bytes (byte_in 0 127) s = true → valid_utf8 s = true.
Proof.
  induction s as [|a s IH]; [done|]. cbn [all_bytes]. intros [Ha Hs]%andb_true_iff. cbn [valid_utf8]. rewrite Ha. by apply IH.
Qed.
Lemma trim_rev_digit a l : is_ascii_digit a = true → trim_rev (a :: l) = a :: l.
Proof.
  intros Ha. assert (Hw : ws1 a = false ∧ (∀ x, ws2 x a = false) ∧ ∀ x y, ws3 x y a = false).
  { destruct a as [[] [] [] [] [] [] [] []]; try (by vm_compute in Ha); split_and!; try done; intros; unfold ws2, ws3; by rewrite ?andb_false_r. }
  destruct Hw as (H1 & H2 & H3). cbn. rewrite H1. destruct l as [|x [|y l]]; [done|by rewrite H2|]. by rewrite H2, H3.
Qed.
Lemma trim_end_number s n : trim_end (s +:+ show_unsigned n +:+ String newline "") = s +:+ show_unsigned n.
Proof.
  assert (∃ t d, show_unsigned n = t +:+ String d "" ∧ is_ascii_digit d = true) as (t & d & -> & Hd).
  { pose proof (show_unsigned_number n) as [Hne%negb_true_iff%String.eqb_neq Hall]%andb_true_iff. revert Hne Hall.
    generalize (show_unsigned n). clear n. intros k. induction k as [|a k IH]; [done|]. cbn [all_bytes]. intros _ [Ha Hk]%andb_true_iff.
    destruct k as [|a' k]; [by exists "", a|]. destruct IH as (t & d & -> & Hd); [done|done|]. by exists (String a t), d. }
  unfold trim_end. rewrite !list_ascii_app. cbn [String.list_ascii_of_string]. rewrite !reverse_app. cbn [reverse rev_append app].
  change (reverse [newline]) with [newline]. change (reverse [d]) with [d]. cbn [app].
  assert (Hnl : ∀ l, trim_rev (newline :: l) = trim_rev l) by done. rewrite Hnl, trim_rev_digit by done. rewrite reverse_cons, reverse_app, !reverse_involutive, string_of_list_app, string_of_list_app.
  rewrite !String.string_of_list_ascii_of_string. by rewrite str_app_assoc.
Qed.
Lemma first_line_found n s rest :
  contains (String newline "") s = false → (String.length s < n)%nat →
  first_line n (s +:+ String newline "" +:+ rest) = s +:+ String newline "".
Proof.
  revert n. induction s as [|a s IH]; intros n Hs Hn; (destruct n as [|n]; [cbn in Hn; lia|]).
  - by rewrite !str_app_nil_l.
  - rewrite contains_char_cons in Hs. apply orb_false_iff in Hs as [Ha Hs]. rewrite !str_app_cons. cbn [first_line].
    rewrite Ascii.eqb_sym, Ha. by rewrite IH by (done || (cbn in Hn; lia)).
Qed.
Lemma pretty_N_go_length k x s : (x < 10 ^ N.of_nat k)%N → (String.length (pretty_N_go x s) ≤ String.length s + k)%nat.
Proof.
  revert x s. induction k as [|k IH]; intros x s Hx.
  - cbn in Hx. replace x with 0%N by lia. rewrite pretty_N_go_0. lia.
  - destruct (decide (x = 0)%N) as [->|Hne]; [rewrite pretty_N_go_0; lia|]. rewrite pretty_N_go_step by lia.
    assert (Hd : (x `div` 10 < 10 ^ N.of_nat k)%N).
    { apply N.Div0.div_lt_upper_bound. rewrite Nat2N.inj_succ, N.pow_succ_r' in Hx. lia. }
    pose proof (IH _ (String (pretty_N_char (x `mod` 10)) s) Hd) as Hl. cbn [String.length] in Hl. lia.
Qed.
Lemma port_length port : a_port port → (String.length (show_unsigned port) ≤ 5)%nat.
Proof.
  intros Hp. unfold a_port, U16_MAX in Hp. unfold show_unsigned, pretty, pretty_N. case_decide; [cbn; lia|].
  pose proof (pretty_N_go_length 5 (Z.to_N port) "") as Hl. cbn [String.length] in Hl. apply Hl. cbn. lia.
Qed.

(** What a container's address and port look like, whatever asks for them. *)
Lemma shown_ipv4_without c ip : is_ascii_digit c = false → Ascii.eqb c "." = false → contains (String c "") (show_ipv4 ip) = false.
Proof.
  intros Hc Hdot. assert (Hn : ∀ n, contains (String c "") (show_unsigned n) = false) by (intros; by apply contains_digit_free; [|apply show_unsigned_digits]).
  unfold show_ipv4. rewrite !contains_char_app, !Hn. change ("." : string) with (String "." ""). by rewrite contains_char_cons, Hdot.
Qed.
Lemma target_line_read debug ip port rest :
  valid_ipv4 ip → in_docker_pool ip = true → a_port port →
  relay_connection debug (show_ipv4 ip +:+ ":" +:+ show_unsigned port +:+ String newline "" +:+ rest) (Some (Ok tt)) (Some (Ok tt))
  = Ok ((ip, port), RELAY_CONNECTED, rest).
Proof.
  intros Hip Hpool Hp. set (s := show_ipv4 ip +:+ ":" +:+ show_unsigned port).
  assert (Hs : show_ipv4 ip +:+ ":" +:+ show_unsigned port +:+ String newline "" +:+ rest = s +:+ String newline "" +:+ rest).
  { unfold s. by rewrite !str_app_assoc. }
  assert (Hline : first_line RELAY_TARGET_MAX (s +:+ String newline "" +:+ rest) = s +:+ String newline "").
  { apply first_line_found; unfold s.
    - rewrite !contains_char_app, shown_ipv4_without by done. by rewrite (contains_digit_free newline (show_unsigned port)) by (done || apply show_unsigned_digits).
    - destruct Hip as (?%octet_length & ?%octet_length & ?%octet_length & ?%octet_length). apply port_length in Hp.
      unfold show_ipv4, RELAY_TARGET_MAX. rewrite !str_length_app. cbn [String.length]. lia. }
  unfold relay_connection. rewrite Hs, Hline.
  assert (Hascii : valid_utf8 (s +:+ String newline "") = true).
  { apply valid_utf8_ascii. unfold s, show_ipv4. rewrite !all_bytes_app.
    assert (Hd : ∀ n, all_bytes (byte_in 0 127) (show_unsigned n) = true).
    { intros n. eapply all_bytes_weaken; [|apply show_unsigned_digits]. intros a. unfold is_ascii_digit, byte_in.
      rewrite !andb_true_iff, !Nat.leb_le. lia. }
    by rewrite !Hd. }
  rewrite Hascii. unfold ends_with. rewrite strip_suffix_app. cbn [negb].
  replace (String.eqb (s +:+ String newline "") "") with false by (symmetry; apply String.eqb_neq; by destruct s).
  cbn [orb]. unfold s at 1. rewrite !str_app_assoc. rewrite <- (str_app_assoc (show_ipv4 ip)), trim_end_number, str_app_assoc.
  unfold relay_target. change (":" +:+ show_unsigned port) with (String ":" (show_unsigned port)).
  rewrite rsplit_once_char by (by apply contains_digit_free; [|apply show_unsigned_digits]).
  unfold container_address. rewrite parse_show_ipv4 by done. cbn [mbind option_bind]. rewrite Hpool, parse_port_shown by done.
  cbn [and_then]. by rewrite <- str_app_assoc, str_drop_app.
Qed.

Lemma dial_forwards a pod host port r did pod' forward_to :
  dial_pod a pod host port = (r, did) → PortForward pod' forward_to ∈ did →
  pod' = pod ∧ forward_to ≠ AGENT_PORT
  ∧ match host with Localhost => forward_to = port ∧ port ≠ RELAY_PORT | Container _ => forward_to = RELAY_PORT end.
Proof.
  unfold dial_pod, check_reachable_port. intros Hdial Hin. destruct host as [|ip].
  - destruct (Z.eqb_spec port AGENT_PORT), (Z.eqb_spec port RELAY_PORT); cbn in Hdial; simplify_eq/=;
      repeat (case_match; simplify_eq/=); try (by apply not_elem_of_nil in Hin); apply list_elem_of_singleton in Hin; by simplify_eq.
  - cbn in Hdial. repeat (case_match; simplify_eq/=);
      repeat (apply elem_of_cons in Hin as [Hin|Hin]; [by simplify_eq|]); by apply not_elem_of_nil in Hin.
Qed.

(** C17. Nothing reaches the agent in a pod by its ports: a connection is forwarded to the port
    asked for, which is neither the agent's nor its relay's, or to the relay for a container;
    always in the conversation's live pod, and only while that pod's object is this database's.
    The relay reads smelt's line as the container and port smelt meant, and passes on exactly
    what follows it; and whatever line it gets, it connects only within the pod's Docker
    networks. *)
Theorem no_route_into_the_agent debug a c host port r did :
  open_pod_port_with a c host port = (r, did) → in_the_pod host → a_port port →
  (∀ pod forward_to, PortForward pod forward_to ∈ did →
     forward_to ≠ AGENT_PORT
     ∧ (match host with Localhost => forward_to = port ∧ port ≠ RELAY_PORT | Container _ => forward_to = RELAY_PORT end)
     ∧ (∃ id, live_pod_id a = Ok id ∧ pod = pod_name id)
     ∧ ∃ labels instance, pod_labels a = Ok (Some labels) ∧ smelt_instance a = Ok instance ∧ counts_as_ours labels instance = true)
  ∧ (∀ line rest, RelayLine line ∈ did → ∃ ip, host = Container ip
     ∧ relay_connection debug (line +:+ rest) (Some (Ok tt)) (Some (Ok tt)) = Ok ((ip, port), RELAY_CONNECTED, rest))
  ∧ (∀ stream read connected target to_client to_target, relay_connection debug stream read connected = Ok (target, to_client, to_target) →
     valid_ipv4 (fst target) ∧ in_docker_pool (fst target) = true ∧ a_port (snd target)).
Proof.
  intros Hrun Hh Hp. split; [|split].
  - intros pod forward_to Hin. unfold open_pod_port_with in Hrun.
    destruct (match host with Localhost => _ | Container _ => _ end) as [[]|]; [|by simplify_eq; apply not_elem_of_nil in Hin].
    destruct (live_pod_id a) as [id|]; [|by simplify_eq; apply not_elem_of_nil in Hin].
    assert (Hnot : PortForward pod forward_to ∉ [InUse c]) by (by intros ?%list_elem_of_singleton).
    destruct (kube_client a); [|by simplify_eq/=]. destruct (smelt_instance a) as [instance|]; [|by simplify_eq/=].
    destruct (pod_labels a) as [[labels|]|]; [|by simplify_eq/=..]. cbn in Hrun. destruct (counts_as_ours labels instance) eqn:Hours; [|by simplify_eq/=].
    destruct (dial_pod a (pod_name id) host port) as [r0 more] eqn:Hdial. injection Hrun as <- <-.
    apply elem_of_cons in Hin as [?|Hin]; [done|]. destruct (dial_forwards _ _ _ _ _ _ _ _ Hdial Hin) as (-> & ? & ?).
    split; [done|]. split; [done|]. split; [by exists id|by exists labels, instance].
  - intros line rest Hin. destruct host as [|ip].
    + exfalso. unfold open_pod_port_with, dial_pod in Hrun. repeat (case_match; simplify_eq/=);
        repeat (apply elem_of_cons in Hin as [Hin|Hin]; [done|]); by apply not_elem_of_nil in Hin.
    + exists ip. split; [done|]. destruct Hh as [Hip Hpool].
      assert (line = show_ipv4 ip +:+ ":" +:+ show_unsigned port +:+ String newline "") as ->.
      { unfold open_pod_port_with, dial_pod in Hrun. repeat (case_match; simplify_eq/=);
          repeat (apply elem_of_cons in Hin as [Hin|Hin]; [by simplify_eq|]); by apply not_elem_of_nil in Hin. }
      rewrite !str_app_assoc. by apply target_line_read.
  - intros stream read connected [ip p] to_client to_target. unfold relay_connection. intros H.
    destruct read as [[[]|]|]; [|done..]. destruct (negb (valid_utf8 _)); [done|]. destruct (_ || negb _); [done|].
    unfold relay_target, container_address in H. destruct (rsplit_once ":" _) as [[h q]|]; [|done].
    destruct (parse_ipv4 h) as [ip'|] eqn:Eip; [|done]. cbn in H. destruct (in_docker_pool ip') eqn:Epool; [|done].
    destruct (parse_port q) as [p'|] eqn:Ep; [|done]. cbn in H. destruct connected as [[[]|]|]; [|done..]. injection H as <- <- _ _.
    split; [by eapply parse_ipv4_valid|]. split; [done|]. by eapply parse_port_bound.
Qed.

Lemma no_route_into_the_agent_witness :
  let answers := {| live_pod_id := Ok 7%Z; kube_client := Ok tt; smelt_instance := Ok {| instance_id := "one"; owns_unlabelled := false |};
    pod_labels := Ok (Some {[ INSTANCE_LABEL := "one" ]}); forwarded := Ok tt; stream_given := true; relay_written := Ok tt; relay_answer := Some RELAY_CONNECTED |} in
  let '(r, did) := open_pod_port_with answers 42 sample_container 3000 in
  r = Ok ToPort ∧ PortForward "sandbox-7" RELAY_PORT ∈ did ∧ RELAY_PORT ≠ AGENT_PORT
  ∧ fst (open_pod_port_with answers 42 Localhost 8088) = Err (AgentPort 8088).
Proof.
  cbv zeta. set (answers := Build_PodAnswers _ _ _ _ _ _ _ _).
  destruct (open_pod_port_with answers 42 sample_container 3000) as [r did] eqn:E.
  pose proof (no_route_into_the_agent id answers 42 sample_container 3000 r did E) as H.
  assert (E' : open_pod_port_with answers 42 sample_container 3000
    = (Ok ToPort, [InUse 42; PortForward "sandbox-7" RELAY_PORT; RelayLine (show_ipv4 (Ipv4 172 21 0 2) +:+ ":" +:+ show_unsigned 3000 +:+ String newline "")])) by by vm_compute.
  rewrite E' in E. injection E as <- <-. split; [done|]. split; [right; by left|]. split; [|by vm_compute].
  destruct H as [H _]; [exact sample_container_ok|unfold a_port, U16_MAX; lia|]. apply (H "sandbox-7" RELAY_PORT). right. by left.
Defined.
