(* ===== verification/Egress.v ===== *)
(** * Egress: the proxy a conversation's browser goes through

    [src/src/egress_proxy.rs]: the head of a request to the proxy, read and rewritten; who sent
    it; and where it goes: straight out, or to a port of the conversation's sandbox, checked
    first.  The [url] crate, [{:?}] and lossy UTF-8 are parameters, and the client's reads,
    the resolver's, the connections' and the pod's answers are arguments.  Copying what follows
    to and fro is left out but for a pod's reply heads ([ProxyReply]). *)

From S2P Require Import Prelude RustStr SandboxErrors Guards Previews PodPorts ProxyReply.
Local Open Scope string_scope.

Definition MAX_HEAD_BYTES : nat := Z.to_nat 65536.
Definition MAX_REPLY_HEAD_BYTES : nat := Z.to_nat 262144.
Definition crlf : string := String CR (String LF "").

(** ** A request's head *)

(** What is read of a [url::Url] here, besides: its host as a text without brackets, its path,
    its query. *)
Record TargetUrl := { as_url : Url; host_text : option string; url_path : string; url_query : option string }.
Record ProxyRequest := { request_host : string; request_port : Z; forward_head : option string; source : RequestSource }.

(** [split(' ')]'s first part, and a header line's name. *)
Definition first_word (sep : ascii) (s : string) : string := match split_on (Ascii.eqb sep) s with w :: _ => w | [] => "" end.
Definition line_name (line : string) : string := to_ascii_lowercase (trim (first_word ":" line)).
Fixpoint take_lines (lines : list string) : list string :=
  match lines with [] => [] | line :: lines => if String.eqb line "" then [] else line :: take_lines lines end.
Definition set_header (s : RequestSource) (line : string) : RequestSource :=
  match split_once ":" line with
  | None => s
  | Some (name, value) =>
      let name := to_ascii_lowercase (trim name) in
      let value := trim value in
      let '(Build_RequestSource method origin site mode referer upgrade) := s in
      if String.eqb name "origin" then Build_RequestSource method (Some value) site mode referer upgrade
      else if String.eqb name "sec-fetch-site" then Build_RequestSource method origin (Some value) mode referer upgrade
      else if String.eqb name "sec-fetch-mode" then Build_RequestSource method origin site (Some value) referer upgrade
      else if String.eqb name "referer" then Build_RequestSource method origin site mode (Some value) upgrade
      else if String.eqb name "upgrade-insecure-requests" then Build_RequestSource method origin site mode referer (String.eqb value "1")
      else s
  end.
Definition request_source (head : string) : RequestSource :=
  match split_str crlf head with
  | [] => Build_RequestSource "" None None None None false
  | line :: lines => fold_left set_header (take_lines lines) (Build_RequestSource (first_word " " line) None None None None false)
  end.

Definition HOP_HEADERS : list string := ["proxy-connection"; "proxy-authorization"; "connection"].
Definition is_hop (upgrading : bool) (header : string) : bool :=
  existsb (String.eqb (line_name header)) HOP_HEADERS && negb (upgrading && String.eqb (line_name header) "connection").
Definition is_upgrading (headers : list string) : bool := existsb (λ h, eq_ignore_ascii_case (trim (first_word ":" h)) "upgrade") headers.
Definition lines_text (lines : list string) : string := foldr (λ line rest, line +:+ crlf +:+ rest) "" lines.
Definition forwarded_head (method path version : string) (headers : list string) : string :=
  let upgrading := is_upgrading headers in
  lines_text ((method +:+ " " +:+ path +:+ " " +:+ version) :: List.filter (λ h, negb (is_hop upgrading h)) headers)
  +:+ (if upgrading then "" else "Connection: close" +:+ crlf) +:+ crlf.

Section Parsing.
Context (parse_url : string → Result TargetUrl string) (debug : string → string).
Definition host_and_port (url : string) : Result (string * Z) string :=
  match parse_url url with
  | Err e => Err ("invalid target " +:+ debug url +:+ ": " +:+ e)
  | Ok parsed =>
      match host_text parsed with
      | None => Err ("no host in " +:+ debug url)
      | Some host => match port_or_known_default (as_url parsed) with None => Err ("no port in " +:+ debug url) | Some port => Ok (host, port) end
      end
  end.
Definition parse_request_head (head : string) : Result ProxyRequest string :=
  if negb (valid_utf8 head) then Err "request head is not UTF-8"
  else
    let lines := split_str crlf head in
    let request_line := match lines with line :: _ => line | [] => "" end in
    match split_on (Ascii.eqb " ") request_line with
    | [method; target; version] =>
        if eq_ignore_ascii_case method "CONNECT"
        then let? hp := host_and_port ("http://" +:+ target) in
             Ok {| request_host := fst hp; request_port := snd hp; forward_head := None; source := request_source head |}
        else
          match parse_url target with
          | Err _ => Err ("expected an absolute http:// target, got " +:+ debug target)
          | Ok url =>
              if negb (String.eqb (scheme (as_url url)) "http") then Err ("unsupported scheme through the proxy: " +:+ scheme (as_url url))
              else
                let? hp := host_and_port target in
                let path := match url_query url with Some query => url_path url +:+ "?" +:+ query | None => url_path url end in
                let headers := take_lines (tail lines) in
                Ok {| request_host := fst hp; request_port := snd hp; forward_head := Some (forwarded_head method path version headers);
                      source := request_source head |}
          end
    | _ => Err ("malformed request line: " +:+ debug request_line)
    end.
End Parsing.

(** ** The client's side *)

(** [read_head_from]: the head ends at its first head_break line; [reads] are the bytes of each read,
    none when the client closed. *)
Definition head_break : string := crlf +:+ crlf.
Definition head_in (buf : string) : option (string * string) := '(head, rest) ← split_once head_break buf; Some (head +:+ head_break, rest).
Fixpoint read_head_from (reads : list (Result string string)) (buf : string) : Result (string * string) string * list (Result string string) :=
  match head_in buf with
  | Some (head, rest) => (Ok (head, rest), reads)
  | None =>
      if (MAX_HEAD_BYTES <? String.length buf)%nat then (Err "request head too large", reads)
      else
        match reads with
        | [] | Ok EmptyString :: _ => (Err "connection closed before the request head ended", tail reads)
        | Err e :: reads => (Err e, reads)
        | Ok chunk :: reads => read_head_from reads (buf +:+ chunk)
        end
  end.

Definition response_head (status : string) : string := "HTTP/1.1 " +:+ status +:+ crlf.
Definition respond (status : string) : string := response_head status +:+ "Content-Length: 0" +:+ crlf +:+ "Connection: close" +:+ crlf +:+ crlf.
Definition respond_with_body (status body : string) : string :=
  response_head status +:+ "Content-Type: text/plain; charset=utf-8" +:+ crlf +:+ "Content-Length: " +:+ show_unsigned (str_len body) +:+ crlf
  +:+ "Connection: close" +:+ crlf +:+ crlf +:+ body.
Definition established : string := "HTTP/1.1 200 Connection Established" +:+ crlf +:+ crlf.

(** What one connection to the proxy comes to: what its client gets first, and what is sent where. *)
Record Served := {
  to_client : list string;
  to_pod : option (PodHost * Z * string);
  to_server : option (string * Z * string);
  outcome : Result unit string;
}.
Definition failed (to_client : list string) (e : string) : Served := {| to_client := to_client; to_pod := None; to_server := None; outcome := Err e |}.

Section Serving.
Context (parse_url : string → Result TargetUrl string) (debug : string → string) (from_utf8_lossy : string → string).
Definition plain_url (s : string) : Result Url string := match parse_url s with Ok u => Ok (as_url u) | Err e => Err e end.
(** The sandbox's own pages, as [allows_request_from] is told of them. *)
Definition sandbox_is_home (host : string) (_ : option Z) : bool := is_some (sandbox_host host).
Definition destination_of (request_host : string) : Destination :=
  {| sends_sec_fetch := browser_sends_sec_fetch request_host; same_site_is_home := true |}.
(** Who sends what goes to the pod first; [reads]: the client's next reads, a timeout among
    their errors. *)
Definition first_bytes (request : ProxyRequest) (rest : string) (reads : list (Result string string)) : list string * Result (RequestSource * string) string :=
  match forward_head request with
  | Some head => ([], Ok (source request, head +:+ rest))
  | None =>
      ([established],
       let? peeked :=
         if String.eqb rest "" then match reads with [] => Ok ("", []) | Ok chunk :: reads => Ok (chunk, reads) | Err e :: _ => Err e end
         else Ok (rest, reads) in
       let '(peeked, reads) := peeked in
       match peeked with
       | String a _ =>
           if Ascii.eqb a (ascii_of_nat 22) then Err "refused a TLS tunnel to the sandbox: its requests can't be checked"
           else let? head := fst (read_head_from reads peeked) in Ok (request_source (from_utf8_lossy (fst head)), fst head +:+ snd head)
       | EmptyString => let? head := fst (read_head_from reads peeked) in Ok (request_source (from_utf8_lossy (fst head)), fst head +:+ snd head)
       end)
  end.
(** [dialled]: what the dial answers. *)
Definition handle_sandbox (request : ProxyRequest) (host : PodHost) (rest : string) (reads : list (Result string string)) (dialled : Result unit string) : Served :=
  let '(sent, first) := first_bytes request rest reads in
  match first with
  | Err e => failed sent e
  | Ok (src, bytes) =>
      if negb (allows_request_from plain_url src (destination_of (request_host request)) sandbox_is_home)
      then
        let from := match origin src with Some o => " (" +:+ o +:+ ")" | None => "" end in
        let message := "Refused: a page from another site" +:+ from +:+ " tried to reach " +:+ describe host (request_port request)
          +:+ " in this conversation's sandbox. Only the sandbox's own pages, and pages opened directly, can reach it." in
        failed (app sent [respond_with_body "403 Forbidden" message]) message
      else
        match dialled with
        | Err e => failed (app sent [respond_with_body "502 Bad Gateway" e]) e
        | Ok _ => {| to_client := sent; to_pod := Some (host, request_port request, bytes); to_server := None; outcome := Ok tt |}
        end
  end.
(** What the page gets after the relay of a reply's heads, if they didn't go on: see
    [relay_reply_heads]. *)
Definition relayed_refusal (host : PodHost) (port : Z) (r : Result Relayed string) : option string :=
  match r with
  | Ok Nothing => Some ("Nothing is listening on " +:+ describe host port +:+ " in this conversation's sandbox.")
  | Ok TooLarge => Some ("The server at " +:+ describe host port +:+ " in this conversation's sandbox sent a reply head too large to check.")
  | _ => None
  end.
(** A connection: the client's reads, whether it has a sandbox route, the resolver, the direct
    connection, and the dial. *)
Definition handle (sandbox : bool) (reads : list (Result string string)) (lookup : string → Z → Result (list string) string) (connected : bool)
    (dialled : PodHost → Z → Result unit string) : Served :=
  match read_head_from reads "" with
  | (Err e, _) => failed [] e
  | (Ok (head, rest), reads) =>
      match parse_request_head parse_url debug head with
      | Err e => failed [respond "400 Bad Request"] e
      | Ok request =>
          match (if sandbox then sandbox_host (request_host request) else None) with
          | Some host => handle_sandbox request host rest reads (dialled host (request_port request))
          | None =>
              match resolve_target lookup (request_host request) (request_port request) with
              | Err e => failed [respond_with_body "502 Bad Gateway" e] e
              | Ok _ =>
                  if connected
                  then {| to_client := (match forward_head request with None => [established] | Some _ => [] end); to_pod := None;
                          to_server := Some (request_host request, request_port request, default "" (forward_head request) +:+ rest); outcome := Ok tt |}
                  else failed [respond "502 Bad Gateway"] ("could not connect to " +:+ request_host request +:+ ":" +:+ show_unsigned (request_port request))
              end
          end
      end
  end.
End Serving.

(** ** Lines *)

Lemma split_str_parts p s part : p ≠ "" → part ∈ split_str p s → contains p part = false.
Proof.
  intros Hp. unfold split_str. assert (Hgo : ∀ fuel s, (String.length s ≤ fuel)%nat → part ∈ split_str_fuel fuel p s → contains p part = false).
  { clear s. intros fuel. induction fuel as [|fuel IH]; intros s Hl; cbn.
    - intros ->%list_elem_of_singleton. destruct s; [|cbn in Hl; lia]. by destruct p.
    - destruct (split_once p s) as [[b a]|] eqn:E; [|intros ->%list_elem_of_singleton; by apply split_once_None].
      intros [->|Hin]%elem_of_cons; [by eapply split_once_first|]. apply (IH a); [|done].
      apply split_once_Some in E as ->. rewrite !str_length_app in Hl. destruct p; [done|]. cbn in Hl. lia. }
  by apply Hgo.
Qed.
Lemma split_once_crlf s t : contains crlf s = false → split_once crlf (s +:+ crlf +:+ t) = Some (s, t).
Proof.
  intros Hs. destruct (split_once crlf (s +:+ crlf +:+ t)) as [[b a]|] eqn:E.
  2: { apply split_once_None in E. by rewrite contains_occurrence in E. }
  assert (Hne : crlf ≠ "") by done. pose proof (split_once_first _ _ _ _ Hne E) as Hb. apply split_once_Some in E. change crlf with (String CR (String LF "")) in E.
  rewrite !str_app_cons, !str_app_nil_l in E.
  assert (Hno : ∀ s t x r, contains crlf s = false → x +:+ String CR (String LF r) = s +:+ String CR (String LF t) → ∃ y, x = s +:+ y).
  { clear. intros s t x r Hs Heq. apply app_split_char in Heq as [(y & -> & Hy)|(y & -> & _)]; [|by eexists].
    destruct y as [|c y]; [exists ""; by rewrite !str_app_nil_r|]. exfalso. rewrite str_app_cons in Hy. injection Hy as <- Hy.
    destruct y as [|c y]; rewrite ?str_app_nil_l, ?str_app_cons in Hy; [done|]. injection Hy as <- _.
    assert (contains crlf (x +:+ crlf +:+ y) = true) by apply contains_occurrence. change (crlf +:+ y) with (String CR (String LF y)) in *. congruence. }
  destruct (Hno s t b a Hs (eq_sym E)) as (y & ->).
  destruct (Hno _ _ s t Hb E) as (z & Hz). apply (f_equal String.length) in Hz as Hl. rewrite !str_length_app in Hl.
  destruct y; [|cbn in Hl; lia]. rewrite str_app_nil_r in *. apply str_app_inv_l in E. by injection E as ->.
Qed.
Lemma split_str_lines lines :
  Forall (λ line, contains crlf line = false) lines → split_str crlf (lines_text lines +:+ crlf) = app lines [""; ""].
Proof.
  intros Hall. unfold split_str. assert (Hgo : ∀ fuel, (String.length (lines_text lines +:+ crlf) ≤ fuel)%nat →
    split_str_fuel fuel crlf (lines_text lines +:+ crlf) = app lines [""; ""]); [|by apply Hgo].
  induction Hall as [|line lines Hl Hall IH]; intros fuel Hf.
  - change (lines_text [] +:+ crlf) with crlf in *. destruct fuel as [|[|fuel]]; [cbn in Hf; lia..|done].
  - cbn [lines_text foldr] in *. fold (lines_text lines) in *. rewrite !str_app_assoc in *. destruct fuel as [|fuel]; [rewrite !str_length_app in Hf; cbn in Hf; lia|].
    cbn [split_str_fuel]. rewrite split_once_crlf by done. cbn [app]. f_equal. apply IH.
    rewrite !str_length_app in *. cbn in Hf |- *. lia.
Qed.
Lemma contains_crlf_space a c : contains crlf a = false → contains crlf c = false → contains crlf (a +:+ String " " c) = false.
Proof.
  intros Ha Hc. destruct (contains crlf (a +:+ String " " c)) eqn:E; [|done]. exfalso. apply contains_split in E as (x & y & E).
  rewrite <- str_app_assoc in E. symmetry in E. apply app_split_char in E as [(z & -> & _)|(z & Hz & ->)].
  { rewrite str_app_assoc in Ha. by rewrite contains_occurrence in Ha. }
  apply app_split_char in Hz as [(w & _ & Hw)|(w & _ & ->)].
  - destruct w as [|? [|? [|? ?]]]; rewrite ?str_app_nil_l, ?str_app_cons in Hw; done.
  - rewrite str_app_assoc in Hc. by rewrite contains_occurrence in Hc.
Qed.
Lemma contains_part p b s a : contains p (b +:+ s +:+ a) = false → contains p s = false.
Proof.
  intros H. destruct (contains p s) eqn:E; [|done]. apply contains_split in E as (x & y & ->).
  rewrite !str_app_assoc in H. rewrite <- (str_app_assoc b x) in H. by rewrite contains_occurrence in H.
Qed.

(** Lines that aren't blank end where a blank one comes first. *)
Lemma head_break_prefix t : strip_prefix head_break (crlf +:+ t) = strip_prefix crlf t.
Proof. done. Qed.
Lemma split_head_break line t : contains crlf line = false →
  split_once head_break (line +:+ crlf +:+ t)
  = match strip_prefix crlf t with
    | Some rest => Some (line, rest)
    | None => (λ '(before, after), (line +:+ crlf +:+ before, after)) <$> split_once head_break t
    end.
Proof.
  induction line as [|a line IH]; intros Hl.
  - rewrite str_app_nil_l. change (crlf +:+ t) with (String CR (String LF t)). cbn [split_once].
    change (strip_prefix head_break (String CR (String LF t))) with (strip_prefix crlf t). destruct (strip_prefix crlf t) as [rest|]; [done|].
    change (strip_prefix head_break (String LF t)) with (@None string). destruct (split_once head_break t) as [[b r]|]; done.
  - rewrite str_app_cons. cbn [split_once].
    assert (strip_prefix head_break (String a (line +:+ crlf +:+ t)) = None) as ->.
    { destruct (strip_prefix head_break (String a (line +:+ crlf +:+ t))) as [r|] eqn:E; [|done]. apply strip_prefix_Some in E.
      change (head_break +:+ r) with (String CR (String LF (crlf +:+ r))) in E. injection E as -> E. destruct line as [|b line]; [done|].
      rewrite str_app_cons in E. injection E as -> _. pose proof (contains_occurrence crlf "" line) as Hc. change ("" +:+ crlf +:+ line) with (String CR (String LF line)) in Hc. congruence. }
    rewrite IH by (apply (contains_part _ (String a "") line ""); by rewrite str_app_nil_r).
    destruct (strip_prefix crlf t); [done|]. destruct (split_once head_break t) as [[b r]|]; done.
Qed.
Lemma head_in_lines lines rest :
  Forall (λ line, contains crlf line = false ∧ line ≠ "") lines → lines ≠ [] →
  head_in ((lines_text lines +:+ crlf) +:+ rest) = Some (lines_text lines +:+ crlf, rest).
Proof.
  intros Hall Hne. unfold head_in.
  assert (∃ b, split_once head_break ((lines_text lines +:+ crlf) +:+ rest) = Some (b, rest) ∧ b +:+ crlf = lines_text lines) as (b & -> & Hb).
  { induction Hall as [|line lines [Hl _] Hall IH]; [done|]. cbn [lines_text foldr]. fold (lines_text lines). rewrite !str_app_assoc, split_head_break by done.
    destruct lines as [|l2 lines]; [exists line; by rewrite str_app_nil_r|]. destruct IH as (b & Hb & He); [done|].
    rewrite str_app_assoc in Hb. rewrite Hb.
    assert (strip_prefix crlf (lines_text (l2 :: lines) +:+ crlf +:+ rest) = None) as ->.
    { apply Forall_inv in Hall as [H2 H2n]. destruct (strip_prefix crlf _) as [r|] eqn:E; [|done]. apply strip_prefix_Some in E. exfalso.
      cbn [lines_text foldr] in E. fold (lines_text lines) in E. rewrite !str_app_assoc in E. change (crlf +:+ r) with (String CR (String LF r)) in E.
      destruct l2 as [|c l2]; [done|]. rewrite str_app_cons in E. injection E as -> E. destruct l2 as [|c l2]; [done|]. rewrite str_app_cons in E.
      injection E as -> _. pose proof (contains_occurrence crlf "" l2) as Hc. change ("" +:+ crlf +:+ l2) with (String CR (String LF l2)) in Hc. congruence. }
    exists (line +:+ crlf +:+ b). split; [done|]. by rewrite !str_app_assoc, He. }
  cbn [mbind option_bind]. by rewrite <- Hb, str_app_assoc.
Qed.

(** ** What is forwarded *)

Lemma contains_char_all c s : contains (String c "") s = false → all_bytes (λ a, negb (Ascii.eqb c a)) s = true.
Proof. induction s as [|a s IH]; [done|]. rewrite contains_char_cons. intros [Ha Hs]%orb_false_iff. cbn. by rewrite Ha, IH. Qed.
Lemma first_word_app c s t : contains (String c "") s = false → first_word c (s +:+ String c t) = s.
Proof. intros Hs. unfold first_word. by rewrite split_on_app by (apply contains_char_all in Hs; done || apply Ascii.eqb_refl). Qed.
Lemma split_once_name c s name value : split_once (String c "") s = Some (name, value) → first_word c s = name.
Proof. intros [-> Hn]%split_once_char_Some. by apply first_word_app. Qed.
(** A header about the hop says nothing of who sends the request. *)
Lemma hop_sets_nothing upgrading s header : is_hop upgrading header = true → set_header s header = s.
Proof.
  unfold is_hop, set_header, line_name. intros [Hhop _]%andb_true_iff. destruct (split_once ":" header) as [[name value]|] eqn:E; [|done].
  rewrite (split_once_name _ _ _ _ E) in Hhop. cbn [existsb HOP_HEADERS] in Hhop. destruct s as [m o si mo re up].
  apply orb_true_iff in Hhop as [->%String.eqb_eq|[->%String.eqb_eq|[->%String.eqb_eq|[=]]%orb_true_iff]%orb_true_iff]; done.
Qed.
Lemma fold_without_hops upgrading headers s :
  fold_left set_header (List.filter (λ h, negb (is_hop upgrading h)) headers) s = fold_left set_header headers s.
Proof.
  revert s. induction headers as [|h headers IH]; intros s; [done|]. cbn. destruct (is_hop upgrading h) eqn:E; cbn; [|apply IH].
  by rewrite (hop_sets_nothing _ _ _ E).
Qed.
Lemma take_lines_nonempty lines more : Forall (λ line, line ≠ "") lines → take_lines (app lines ("" :: more)) = lines.
Proof. induction 1 as [|line lines Hl _ IH]; [done|]. cbn. apply String.eqb_neq in Hl. by rewrite Hl, IH. Qed.
Lemma take_lines_in line lines : line ∈ take_lines lines → line ∈ lines ∧ line ≠ "".
Proof.
  induction lines as [|l lines IH]; cbn; [by intros ?%not_elem_of_nil|]. destruct (String.eqb_spec l "") as [|Hl]; [by intros ?%not_elem_of_nil|].
  intros [->|Hin]%elem_of_cons; [split; [by left|done]|]. destruct (IH Hin). split; [by right|done].
Qed.
Lemma lines_text_app l k : lines_text (app l k) = lines_text l +:+ lines_text k.
Proof.
  induction l as [|x l IH]; [by rewrite str_app_nil_l|]. cbn [app lines_text foldr]. fold (lines_text (app l k)) (lines_text l). by rewrite IH, !str_app_assoc.
Qed.
(** The lines of a forwarded head. *)
Definition forwarded_lines (method path version : string) (headers : list string) : list string :=
  let upgrading := is_upgrading headers in
  app ((method +:+ " " +:+ path +:+ " " +:+ version) :: List.filter (λ h, negb (is_hop upgrading h)) headers)
    (if upgrading then [] else ["Connection: close"]).
Lemma forwarded_head_lines method path version headers :
  forwarded_head method path version headers = lines_text (forwarded_lines method path version headers) +:+ crlf.
Proof.
  unfold forwarded_head, forwarded_lines. rewrite lines_text_app, !str_app_assoc. f_equal.
  destruct (is_upgrading headers); [by rewrite !str_app_nil_l|]. cbn [lines_text foldr]. by rewrite str_app_nil_r.
Qed.
Lemma split_on_joined c s part parts : split_on (Ascii.eqb c) s = part :: parts →
  contains (String c "") part = false ∧ s = part +:+ foldr (λ p rest, String c (p +:+ rest)) "" parts ∧ first_word c s = part.
Proof.
  intros H. assert (Hf : first_word c s = part) by (unfold first_word; by rewrite H). split_and!; [| |done]; clear Hf.
  - revert part parts H. induction s as [|a s IH]; intros part parts; cbn; [by intros [= <- <-]|].
    destruct (Ascii.eqb c a) eqn:E; [by intros [= <- <-]|]. destruct (split_on (Ascii.eqb c) s) as [|p ps]; [intros [= <- <-]|intros [= <- <-]];
      rewrite contains_char_cons, E; [done|]. by eapply IH.
  - revert part parts H. induction s as [|a s IH]; intros part parts; cbn; [by intros [= <- <-]|].
    destruct (Ascii.eqb_spec c a) as [<-|E].
    + intros [= <- <-]. rewrite str_app_nil_l. destruct (split_on (Ascii.eqb c) s) as [|p ps] eqn:Es; [|cbn [foldr]; f_equal; by apply IH].
      destruct s as [|x s]; cbn in Es; [done|]. by repeat case_match.
    + destruct (split_on (Ascii.eqb c) s) as [|p ps] eqn:Es.
      * destruct s as [|x s]; cbn in Es; [done|]. by repeat case_match.
      * intros [= <- <-]. rewrite str_app_cons. f_equal. by apply IH.
Qed.

(** A head read is the one its bytes begin with. *)
Lemma read_head_in reads buf head rest more : read_head_from reads buf = (Ok (head, rest), more) → head_in (head +:+ rest) = Some (head, rest).
Proof.
  revert buf. induction reads as [|[chunk|e] reads IH]; intros buf; cbn [read_head_from];
    (destruct (head_in buf) as [[h r]|] eqn:E;
      [intros [= <- <- _]; unfold head_in in *; destruct (split_once head_break buf) as [[b a]|] eqn:Es; [|done]; cbn in E; injection E as <- <-;
       pose proof Es as Ho; apply split_once_Some in Ho; rewrite str_app_assoc, <- Ho, Es; done|]);
    (destruct (_ <? _)%nat; [done|]); try done.
  destruct chunk; [done|]. apply IH.
Qed.

Lemma upgrading_named headers : is_upgrading headers = bool_decide ("upgrade" ∈ map line_name headers).
Proof.
  apply eq_bool_prop_intro. rewrite bool_decide_spec, Is_true_true. unfold is_upgrading. rewrite existsb_exists. setoid_rewrite <- list_elem_of_In.
  rewrite list_elem_of_fmap. unfold eq_ignore_ascii_case, line_name. split.
  - intros (h & Hin & Hh%bool_decide_eq_true). exists h. split; [|done]. by rewrite Hh.
  - intros (h & Hh & Hin). exists h. split; [done|]. apply bool_decide_eq_true. by rewrite <- Hh.
Qed.
Lemma hop_named upgrading h :
  negb (is_hop upgrading h)
  = bool_decide (line_name h ∉ app ["proxy-connection"; "proxy-authorization"] (if upgrading then [] else ["connection"])).
Proof.
  unfold is_hop. generalize (line_name h). intros name. cbn [existsb HOP_HEADERS]. symmetry. rewrite bool_decide_not. f_equal.
  apply eq_bool_prop_intro. rewrite bool_decide_spec, Is_true_true, andb_true_iff, !orb_true_iff, !String.eqb_eq, negb_true_iff.
  destruct upgrading; cbn [andb app]; rewrite ?String.eqb_neq, !elem_of_cons, elem_of_nil; [|intuition congruence].
  split; [intros [->|[->|[]]]|]; intuition congruence.
Qed.

Section Promises.
Context (parse_url : string → Result TargetUrl string) (debug : string → string) (from_utf8_lossy : string → string).
(** A path and a query hold no line break: the [url] crate percent-encodes both bytes. *)
Hypothesis no_breaks : ∀ s u, parse_url s = Ok u →
  contains crlf (url_path u) = false ∧ ∀ q, url_query u = Some q → contains crlf (url_path u +:+ "?" +:+ q) = false.

Lemma forwarded_source method target version headers path :
  contains " " method = false → contains crlf (method +:+ " " +:+ target +:+ " " +:+ version) = false →
  contains crlf path = false → Forall (λ h, contains crlf h = false ∧ h ≠ "") headers →
  request_source (forwarded_head method path version headers)
  = fold_left set_header headers (Build_RequestSource method None None None None false)
  ∧ split_str crlf (forwarded_head method path version headers) = app (forwarded_lines method path version headers) [""; ""]
  ∧ ∀ rest, head_in (forwarded_head method path version headers +:+ rest) = Some (forwarded_head method path version headers, rest).
Proof.
  intros Hm Hline Hpath Hheaders.
  assert (Hfirst : contains crlf (method +:+ " " +:+ path +:+ " " +:+ version) = false).
  { change (" " +:+ path +:+ " " +:+ version) with (String " " (path +:+ String " " version)).
    apply contains_crlf_space; [by apply (contains_part _ "" method (" " +:+ target +:+ " " +:+ version))|].
    apply contains_crlf_space; [done|]. apply (contains_part _ (method +:+ " " +:+ target +:+ " ") version ""). by rewrite str_app_nil_r, !str_app_assoc. }
  set (upgrading := is_upgrading headers).
  assert (Hkept : Forall (λ h, contains crlf h = false ∧ h ≠ "") (List.filter (λ h, negb (is_hop upgrading h)) headers)).
  { apply Forall_forall. intros h [Hin _]%elem_list_filter. by rewrite Forall_forall in Hheaders; apply Hheaders. }
  assert (Hlines : Forall (λ h, contains crlf h = false ∧ h ≠ "") (forwarded_lines method path version headers)).
  { unfold forwarded_lines. fold upgrading. apply Forall_app. split; [constructor; [|done]|destruct upgrading; by repeat constructor].
    split; [done|]. by destruct method. }
  assert (Hsplit : split_str crlf (forwarded_head method path version headers) = app (forwarded_lines method path version headers) [""; ""]).
  { rewrite forwarded_head_lines. apply split_str_lines. eapply Forall_impl; [exact Hlines|]. by intros h [? _]. }
  split; [|split; [done|intros rest; rewrite forwarded_head_lines; by apply head_in_lines]]. unfold request_source. rewrite Hsplit. unfold forwarded_lines. fold upgrading. cbn [app].
  rewrite take_lines_nonempty.
  - rewrite fold_left_app, fold_without_hops. change (" " +:+ path +:+ " " +:+ version) with (String " " (path +:+ " " +:+ version)).
    rewrite first_word_app by done. destruct upgrading; cbn [fold_left]; [done|].
    by apply (hop_sets_nothing false).
  - apply Forall_app. split; [eapply Forall_impl; [exact Hkept|]; by intros h [_ ?]|]. destruct upgrading; by repeat constructor.
Qed.

(** The path a plain request is forwarded with. *)
Definition forwarded_path (url : TargetUrl) : string :=
  match url_query url with Some query => url_path url +:+ "?" +:+ query | None => url_path url end.
Lemma parsed_plain head r fwd :
  parse_request_head parse_url debug head = Ok r → forward_head r = Some fwd →
  source r = request_source head ∧ request_source fwd = source r
  ∧ (∀ rest, head_in (fwd +:+ rest) = Some (fwd, rest))
  ∧ ∃ line headers method target version url, split_str crlf head = line :: headers
    ∧ split_on (Ascii.eqb " ") line = [method; target; version] ∧ parse_url target = Ok url
    ∧ split_str crlf fwd = app (forwarded_lines method (forwarded_path url) version (take_lines headers)) [""; ""].
Proof.
  unfold parse_request_head. intros H Hfwd. destruct (negb (valid_utf8 head)); [done|]. cbv zeta in H.
  destruct (split_str crlf head) as [|line lines] eqn:Els; [done|]. cbn [tail] in *.
  destruct (split_on (Ascii.eqb " ") line) as [|method [|target [|version [|]]]] eqn:Ew; try done.
  destruct (eq_ignore_ascii_case method "CONNECT").
  { destruct (host_and_port _ _ _); [|done]. cbn in H. by simplify_eq. }
  destruct (parse_url target) as [url|] eqn:Eu; [|done]. destruct (negb _); [done|]. destruct (host_and_port _ _ _) as [hp|]; [|done]. cbn [and_then] in H.
  fold (forwarded_path url) in H. injection H as <-. cbn [forward_head source] in *. injection Hfwd as <-. pose proof Ew as Ew'.
  apply split_on_joined in Ew as (Hm & Hline & Hfirst). cbn [foldr] in Hline.
  assert (Hno : ∀ l, l ∈ line :: lines → contains crlf l = false) by (intros l Hl; apply (split_str_parts crlf head); [done|by rewrite Els]).
  destruct (no_breaks target url Eu) as [Hp Hq].
  assert (Hpath : contains crlf (forwarded_path url) = false) by (unfold forwarded_path; destruct (url_query url); auto).
  assert (Hheaders : Forall (λ h, contains crlf h = false ∧ h ≠ "") (take_lines lines)).
  { apply Forall_forall. intros h [Hin ?]%take_lines_in. split; [|done]. apply Hno. by right. }
  destruct (forwarded_source method target version (take_lines lines) (forwarded_path url)) as (Hsrc & Hsplit & Hin); [done| |done|done|].
  { assert (Hl : contains crlf line = false) by (apply Hno; by left). by rewrite Hline, str_app_nil_r in Hl. }
  split; [done|]. split; [rewrite Hsrc; unfold request_source; by rewrite Els, Hfirst|]. split; [exact Hin|]. by exists line, lines, method, target, version, url.
Qed.
(** C16. What is checked is what is sent.  Of the head a plain request is forwarded with: the
    same method and the same headers say who sent it as of the head that came; its first line
    is the request's, the target replaced by its path and query; and the lines after are
    every header of the request, in order, but [Proxy-Connection], [Proxy-Authorization] and,
    unless it is an upgrade, [Connection], in whose place it then asks for a close.  An
    upgrade's [Connection] goes as it came. *)
Theorem checked_is_what_is_sent head r fwd :
  parse_request_head parse_url debug head = Ok r → forward_head r = Some fwd →
  source r = request_source head ∧ request_source fwd = source r
  ∧ ∃ line lines method target version url, split_str crlf head = line :: lines
    ∧ split_on (Ascii.eqb " ") line = [method; target; version] ∧ parse_url target = Ok url
    ∧ let headers := take_lines lines in
      let upgrading := bool_decide ("upgrade" ∈ map line_name headers) in
      let dropped := app ["proxy-connection"; "proxy-authorization"] (if upgrading then [] else ["connection"]) in
      split_str crlf fwd
      = app ((method +:+ " " +:+ forwarded_path url +:+ " " +:+ version) :: List.filter (λ h, bool_decide (line_name h ∉ dropped)) headers)
          (app (if upgrading then [] else ["Connection: close"]) [""; ""]).
Proof.
  intros Hparse Hfwd. destruct (parsed_plain _ _ _ Hparse Hfwd) as (Hs & Hf & _ & line & lines & method & target & version & url & Hl & Hw & Hu & Hsplit).
  split; [done|]. split; [done|]. exists line, lines, method, target, version, url. split_and!; try done. cbv zeta.
  rewrite Hsplit. unfold forwarded_lines. rewrite <- upgrading_named. cbn [app]. rewrite <- app_assoc. do 2 f_equal.
  apply List.filter_ext. intros h. apply hop_named.
Qed.

(** What goes to the pod first, and whom the guard is asked about: the head the pod's server
    will cut off first, and who it says sent it. *)
Lemma first_bytes_head head request rest reads sent src bytes :
  parse_request_head parse_url debug head = Ok request →
  first_bytes from_utf8_lossy request rest reads = (sent, Ok (src, bytes)) →
  ∃ first after, head_in bytes = Some (first, after)
  ∧ (forward_head request = Some first ∧ after = rest ∧ src = request_source first
     ∨ forward_head request = None ∧ src = request_source (from_utf8_lossy first)).
Proof.
  intros Ep Ef. unfold first_bytes in Ef. destruct (forward_head request) as [fwd|] eqn:Efwd.
  - injection Ef as <- <- <-. destruct (parsed_plain head request fwd Ep Efwd) as (_ & Hf & Hin & _). exists fwd, rest. split; [apply Hin|]. by left.
  - injection Ef as <- Ef. destruct (if String.eqb rest "" then _ else _) as [[peeked more]|]; [|done]. cbn [and_then] in Ef.
    assert (Hgo : (let? head0 := fst (read_head_from more peeked) in Ok (request_source (from_utf8_lossy (fst head0)), fst head0 +:+ snd head0)) = Ok (src, bytes) →
      ∃ first after, head_in bytes = Some (first, after) ∧ src = request_source (from_utf8_lossy first)).
    { destruct (read_head_from more peeked) as [[[h0 a0]|] more'] eqn:Er; [|done]. cbn. intros [= <- <-]. exists h0, a0. split; [|done]. by eapply read_head_in. }
    assert (∃ first after, head_in bytes = Some (first, after) ∧ src = request_source (from_utf8_lossy first)) as (first & after & Hh & Hsrc).
    { destruct peeked as [|a peeked]; [by apply Hgo|]. destruct (Ascii.eqb a (ascii_of_nat 22)); [done|by apply Hgo]. }
    exists first, after. split; [done|]. by right.
Qed.

(** C15. A request of the browser for a host that means the sandbox never leaves for the network,
    and reaches the sandbox only checked.  The bytes sent to the pod begin with a whole
    request head, the one its server cuts off first, and that head passed
    [allows_request_from] as the sender it names itself; for a plain request it is the rewritten
    head of the client's request, and for a tunnel the first request in it.  It goes to the
    host and port the client's first head names and nowhere else, and nothing goes where the
    dial failed.  Without a sandbox route, or for any other host, nothing goes to the pod. *)
Theorem only_checked_requests_reach_the_sandbox sandbox reads lookup connected dialled :
  let s := handle parse_url debug from_utf8_lossy sandbox reads lookup connected dialled in
  (∀ host port bytes, to_pod s = Some (host, port, bytes) →
     sandbox = true ∧ to_server s = None ∧ dialled host port = Ok tt
     ∧ ∃ first rest more request head after src, read_head_from reads "" = (Ok (first, rest), more)
     ∧ parse_request_head parse_url debug first = Ok request ∧ sandbox_host (request_host request) = Some host ∧ request_port request = port
     ∧ head_in bytes = Some (head, after)
     ∧ (forward_head request = Some head ∧ after = rest ∧ src = request_source head
        ∨ forward_head request = None ∧ src = request_source (from_utf8_lossy head))
     ∧ allows_request_from (plain_url parse_url) src (destination_of (request_host request)) sandbox_is_home = true)
  ∧ (∀ host port bytes, to_server s = Some (host, port, bytes) → sandbox = true → sandbox_host host = None)
  ∧ (sandbox = false → to_pod s = None).
Proof.
  cbn zeta. unfold handle. destruct (read_head_from reads "") as [[[head rest]|e] reads'] eqn:Ehead; [|by split_and!].
  destruct (parse_request_head parse_url debug head) as [request|e] eqn:Ep; [|by split_and!].
  destruct (if sandbox then sandbox_host (request_host request) else None) as [host|] eqn:Eroute.
  - destruct sandbox; [|done]. unfold handle_sandbox.
    destruct (first_bytes from_utf8_lossy request rest reads') as [sent first] eqn:Ef. destruct first as [[src bytes]|e]; [|by split_and!].
    destruct (allows_request_from _ _ _ _) eqn:Ea; cbn [negb]; [|by split_and!].
    destruct (dialled host (request_port request)) as [[]|e] eqn:Ed; [|by split_and!]. split_and!; [|done|done].
    cbn [to_pod to_server]. intros h p bs [= <- <- <-]. split_and!; try done.
    destruct (first_bytes_head _ _ _ _ _ _ _ Ep Ef) as (first & after & Hin & Hsrc).
    exists head, rest, reads', request, first, after, src. split_and!; done.
  - destruct (resolve_target lookup (request_host request) (request_port request)) as [addrs|e]; [|by split_and!].
    destruct connected; [|by split_and!]. split_and!; [done| |done]. cbn [to_server]. intros h p bs [= <- _ _] ->. done.
Qed.
End Promises.

(** ** Witnesses *)

Definition sample_target (s : string) : Result TargetUrl string :=
  if String.eqb s "http://localhost:3000/a?b=1"
  then Ok {| as_url := {| scheme := "http"; host_str := Some "localhost"; url_port := Some 3000%Z; port_or_known_default := Some 3000%Z |};
             host_text := Some "localhost"; url_path := "/a"; url_query := Some "b=1" |}
  else Err "relative URL without a base".
Definition sample_head : string :=
  lines_text ["GET http://localhost:3000/a?b=1 HTTP/1.1"; "Host: localhost:3000"; "Proxy-Connection: keep-alive"; "Connection: keep-alive"; "Sec-Fetch-Site: none"] +:+ crlf.
Definition sample_forwarded : string :=
  lines_text ["GET /a?b=1 HTTP/1.1"; "Host: localhost:3000"; "Sec-Fetch-Site: none"; "Connection: close"] +:+ crlf.
Lemma sample_no_breaks s u : sample_target s = Ok u →
  contains crlf (url_path u) = false ∧ ∀ q, url_query u = Some q → contains crlf (url_path u +:+ "?" +:+ q) = false.
Proof. unfold sample_target. destruct (String.eqb _ _); [|done]. intros [= <-]. split; [done|]. by intros q [= <-]. Qed.
Lemma checked_is_what_is_sent_witness :
  ∃ r, parse_request_head sample_target id sample_head = Ok r ∧ forward_head r = Some sample_forwarded
  ∧ source r = request_source sample_head ∧ request_source sample_forwarded = source r.
Proof.
  assert (H : ∃ r, parse_request_head sample_target id sample_head = Ok r ∧ forward_head r = Some sample_forwarded) by (eexists; split; by vm_compute).
  destruct H as (r & Hr & Hf). exists r. split; [exact Hr|]. split; [exact Hf|].
  destruct (checked_is_what_is_sent sample_target id sample_no_breaks sample_head r sample_forwarded Hr Hf) as (H1 & H2 & _). by split.
Defined.
Lemma only_checked_requests_reach_the_sandbox_witness :
  let s := handle sample_target id id true [Ok sample_head] (λ _ _, Err "no such host") true (λ _ _, Ok tt) in
  to_pod s = Some (Localhost, 3000%Z, sample_forwarded) ∧ to_server s = None
  ∧ ∃ request, parse_request_head sample_target id sample_head = Ok request ∧ sandbox_host (request_host request) = Some Localhost.
Proof.
  cbv zeta. set (s := handle _ _ _ _ _ _ _ _). assert (Hp : to_pod s = Some (Localhost, 3000%Z, sample_forwarded)) by by vm_compute.
  split; [exact Hp|].
  destruct (only_checked_requests_reach_the_sandbox sample_target id id sample_no_breaks true [Ok sample_head] (λ _ _, Err "no such host") true (λ _ _, Ok tt)) as [H _].
  destruct (H _ _ _ Hp) as (_ & Hs & _ & first & rest & more & request & head & after & src & Hread & Hparse & Hhost & _). split; [exact Hs|].
  assert (read_head_from [Ok sample_head] "" = (Ok (sample_head, ""), [])) as Hr by by vm_compute.
  rewrite Hr in Hread. injection Hread as <- _ _. exists request. split; [exact Hparse|exact Hhost].
Defined.
